(* ===== verification/_CoqProject ===== *)
-Q . S2P
Prelude.v
Bytes.v
Abi.v
Disk.v
Capability.v
EbpfIsa.v
EbpfVerifier.v
EbpfMap.v
EbpfVm.v
EbpfAttach.v
Ipc.v
Signal.v
Vma.v
FdTable.v
Process.v
Scheduler.v
Sync.v
Timer.v
PageCache.v
Path.v
Input.v
Text.v
Files.v
Vfs.v
Zig.v
ZfsBlock.v
ZfsInode.v
ZfsDir.v
ZfsJournal.v
ZfsFile.v
Zfs.v
ZfsFileSpec.v
ZfsRw.v
WasmBin.v
WasmVm.v
WasmSpec.v
Swap.v
Eviction.v
PageInfo.v
Fat32.v
Fat32Spec.v
Fat32File.v
Fat32Dir.v
RmmArch.v
RmmFlags.v
RmmFrame.v
RmmBuddy.v
RmmInit.v
FrameAlloc.v
RmmMapper.v
RmmWalk.v
RmmMap.v
RmmSpace.v
Paging.v
Support.v
PagingCow.v
Compress.v
CompressSpec.v
UserCopy.v
Socket.v
Shm.v
Snapshot.v
Elf.v
AddrSpace.v
ElfSpec.v
SnapshotSpec.v
Kernel.v
Uring.v
LinuxFs.v
NativeAbi.v
LinuxMem.v
LinuxProc.v
LinuxNet.v
Redox.v
Syscall.v
Confine.v
SocketSpec.v
SyscallSpec.v
