(* ===== verification/Prelude.v ===== *)
(** * ZiqaKernel: a verification development

    ZiqaKernel is an experimental operating-system kernel in Rust.  This
    library translates its core subsystems into Rocq functions and proves what
    makes them correct.  File names below are relative to [src/] of the kernel
    crate.

    ** The parts and where they are modelled

    - [Prelude] (this file): results of kernel code, the state-and-error
      monad, machine integers, shared lemmas.  [Bytes]: slices, little-endian
      words and byte-addressed memory.  [Text]: numbers and pieces of text as
      Rust's library reads and prints them.  [Abi]: the error type of [abi/mod.rs].
      [Disk]: the block-device trait of [drivers/block.rs] as a class, with a
      disk in memory as its instance.  [Zig]: the routines of
      [zig/kernel_ops.zig] and their wrappers in [zig_kernel_ops.rs].
    - [Capability]: [capability/mod.rs].  A process holds tokens; a global
      tree records which token was delegated from which; revocation walks the
      tree and sweeps the spaces of all processes.  The revoke system call of
      [abi/syscall.rs] is included.
    - [EbpfIsa], [EbpfVerifier], [EbpfMap], [EbpfVm], [EbpfAttach]: [ebpf/].
      Programs are checked by the verifier, attached to tracepoints and run by
      an interpreter that reads and writes kernel memory through validated
      stack accesses, helpers and maps.
    - [Ipc]: [ipc/mod.rs], ring-buffer channels and the two channel tables.
    - [Signal]: [process/signal.rs], the signal system calls of
      [abi/syscall.rs] and the older queue of [ipc/signal.rs].
    - [Vma]: [process/vma.rs], region insertion of [process/mod.rs], the
      user-pointer check of [memory/mod.rs] and [mmap] of
      [abi/linux/mod.rs].
    - [FdTable] and [Process]: [process/mod.rs].
    - [Scheduler]: [process/scheduler.rs]: the ready set, the process table,
      spawning, forking, context switches, blocking, exit, join, wait, signals
      and exec.
    - [Sync]: futexes, wait conditions and wait queues of [sync/], on top of
      the scheduler's state.  [Timer]: [timer.rs], likewise.
    - [Support]: the kernel log [klog.rs], the trace buffers of
      [tracepoints.rs] and the workers of [worker_pool.rs].  [Input]: key
      presses, serial bytes and mouse packets on their way to readers,
      [drivers/keyboard.rs], [drivers/ps2_mouse.rs] and
      [scheme/input_bridge.rs].
    - [PageCache]: [fs/pagecache.rs].  [Path]: the path functions of
      [fs/mod.rs].  [Files]: the [File] trait and [fs/ramfs.rs].  [Vfs]:
      [fs/vfs.rs].
    - [ZfsBlock], [ZfsInode], [ZfsDir], [ZfsJournal], [ZfsFile], [Zfs]: the
      file system of [fs/ziqafs/], from the bitmap and the inode table up to
      formatting, mounting and checking; [ZfsFileSpec] and [ZfsRw] hold what
      is proved of its files.
    - [Fat32]: the driver of [fs/fat32.rs], every function of it.
      [Fat32Spec]: sound volumes, the allocation table and cluster chains.
      [Fat32File]: files as byte arrays.  [Fat32Dir]: directories as lists of
      entries.
    - [WasmBin] and [WasmVm]: the module reader, the interpreter and the host
      functions of [abi/wasm/mod.rs].  [WasmSpec]: an evaluator of structured
      WebAssembly code, its checker and the encoder to bytes.
    - [Swap] and [Eviction]: [memory/swap.rs] and the clock algorithm of
      [memory/eviction.rs] on top of it.  [PageInfo]: the reference counts of
      [memory/page_info.rs], also under interleaved access by several
      processors.
    - [RmmArch], [RmmFlags]: page-table formats of the [rmm] library under
      [third_party/].  [RmmFrame], [RmmBuddy], [RmmInit]: its frame allocators,
      which keep their books in the memory they hand out.  [RmmMapper],
      [RmmWalk], [RmmMap], [RmmSpace]: its page mapper.  [FrameAlloc]: the kernel's
      allocator on top, [memory/frame_allocator.rs].
    - [Paging], [PagingCow]: [memory/paging.rs] and the page-fault handler of
      [arch/x86_64/interrupts.rs].  [Compress], [CompressSpec]: memory
      compression, [memory/compression/].  [UserCopy]: copies to and from user
      memory, [memory/mod.rs] and [abi/usercopy.rs].
    - [Elf], [AddrSpace], [ElfSpec]: the loader [abi/linux/elf_loader.rs] on
      top of the page tables.  [Snapshot], [SnapshotSpec]: process snapshots,
      [process/snapshot.rs], on top of page tables, files and scheduler.
    - [Socket], [SocketSpec]: the socket table of [net/socket.rs].  [Shm]:
      shared memory, [ipc/shm.rs].  [Uring]: request rings, [io/uring.rs].
    - [Kernel]: the state that system calls work on, made of the states of the
      components above, and the context of a call.  [LinuxFs], [LinuxMem],
      [LinuxProc], [LinuxNet]: the handlers of [abi/linux/].  [NativeAbi]: the
      kernel's own calls, [abi/syscall.rs].  [Redox]: those of
      [abi/redox.rs].  [Syscall]: the tables of numbers of the three ABIs,
      the plugin registry, [dispatch_syscall] and the entry
      [rust_syscall_handler] of [arch/x86_64/switch.rs], with the registers
      that the assembly around it saves and restores.  [Confine] and
      [SyscallSpec]: what is proved of all calls together.

    ** How code becomes definitions

    Structures are records, enums inductive types, and each function or method
    is one definition of the same name where the name is free.  Code that can
    fail returns [res]: a value, an error value, a panic, or a fault (undefined
    behaviour of an access to memory).  Code that mutates state takes
    and returns it, and the state stays changed when an error is returned.
    Objects shared through [Arc] (channels, file nodes, files) live in a store
    and are named by reference.  Integers are [Z]; widths are written out
    where an operation can overflow, wraps or truncates.  Plain [+] panics on
    overflow, as in the development profile.  Counters of 64 bits that only
    count up (ids, pids, ticks, epochs) are unbounded.  Maps iterated by the
    code ([BTreeMap]) are iterated in key order.

    Code outside the crate, and parts of the crate that are not modelled yet,
    appear as type classes ([VirtAddrOps] for the address type of the [x86_64]
    crate, [BinarySearch] for slices, [BlockDevice] with its laws [DiskSpec]
    for disks, [Outside] for FAT32 and the schemes as the VFS sees them, [X86]
    with its laws [X86Ok] and [X86Unmap] for the page mapper of the [x86_64]
    crate, [Codec] for the compression library, [Stack] for the TCP/IP
    library, [Devices] for the drivers system calls reach, [Decoder] for the
    scancode library) or as arguments (the
    loader as the scheduler calls it, fresh page tables, the clock, the
    keyboard of the WebAssembly host).  The record [Env] of [Syscall] collects
    the arguments of the system calls; its [away] is what other processes do
    while the caller waits.  Each class with laws has an instance, used by the
    examples: the laws of the mapper are discharged by the mapper of [rmm].

    ** What is proved

    - Capabilities: every reachable state is well formed; global revocation
      removes exactly the token and its descendants, from the processes and
      from the tree; what permission queries check.
    - eBPF: the verifier decides a declarative condition; a run changes only
      its stack window and maps, if these have room for their entries and one
      helper is not called, and a disciplined accepted program never
      panics or faults; a hash map in raw memory refines a finite map; only
      verified programs are attached; three programs or maps on which the
      checks are not enough.
    - IPC: a channel refines a bounded queue; delivery; creation.
    - Processes: the ready set is a queue; no ready process is lost in any
      reachable state and scheduling succeeds in each; round robin; exit and
      wait; two ways in which the invariant is broken from outside those
      operations; signal sets; descriptor tables; [mmap].
    - Sleeping and waking: futex order, deadlines, and the wake-up that is
      not queued.
    - Input and log: standard input refines a bounded queue of bytes; the
      pointer stays on the screen; the log reads back its last messages, and a
      trace buffer its first events.
    - Worker pool: over all interleavings of the workers, submissions and
      cancellations, once one worker has left after a [shutdown] and no other
      is on its way out, none of the others ends by itself; the shared state is
      released more often than it was taken, and three workers can see it freed
      while one of them uses it.
    - Files: the page cache as a map that drops a page of least access count
      when full; path normal forms; mounting, reading back what was written to
      a RAM file, and listing.
    - ZiqaFS: on at most 32768 blocks the block allocator refines a set of used
      blocks; a directory block is a list of entries; reads, and writes that
      leave no hole, refine a map from inodes to byte lists; what formatting writes, mounting reads.  Examples
      run the code on the inputs where it goes wrong.
    - FAT32: extending or freeing a chain leaves the others alone; a write
      acts as on an array and touches no other cluster; a read of a file with
      consecutive clusters gives its bytes; lookup agrees with listing;
      creating a file adds one entry.  Examples show a fragmented file read
      wrongly, long names that outlive their file, and short names that
      collide.
    - WebAssembly: parsing the encoding of a module gives the module, and
      parsing ends on every input; on code that passes the stack-height check
      (blocks, loops, branches to loops, calls) the interpreter computes what
      the evaluator computes, but for a panic at stores that overflow; no call changes the size of the memory; host
      functions return.  Examples show the branches on which the interpreter
      and the evaluator differ.
    - Paging out: the swap backend refines a map from slots to pages and gives
      back what was swapped out; eviction succeeds whenever a slot is free and
      loses nothing when none is; reference counts stay within their bits, and
      no interleaving loses an update.
    - Page tables: in every format the permissions of an entry are
      independent; on any sequence of operations the tables in memory answer
      as a map from pages to frames; a new user table shares the kernel half.
    - Frames: from start-up on, every run of frames handed out is free, is
      zeroed and overlaps no other; the kernel's allocator hands out usable
      frames once.
    - Fork and faults: a copy-on-write fork maps the 4 KiB pages of the parent
      in both processes to the same frames, read-only; no fault on a page that
      is mapped is resolved, so they stay so.  A copy to user memory changes exactly the
      bytes of a range that is mapped writable.
    - Compression: the store answers as a map from pages to bytes; a page the
      daemon compressed is never restored by the fault handler.
    - Loading: an executable is mapped as its headers say, with the bytes of
      the file, or the loader runs out of frames.
    - Snapshots: a snapshot restored into a process with tables of its own
      gives back registers, areas and pages and keeps the rest of it; the restore at boot never
      restores anything.
    - Sockets: a connected pair refines two byte queues.
    - System calls: [Confine] bounds the effect of every handler, one lemma
      each, and of the dispatcher; from this it follows that a process without
      a token to write files cannot change the file tree by calls of any ABI,
      that a call reaches the entry of no other process but by the calls meant
      to, and that a process comes back from [syscall] with the registers it
      had.  These hold for all calls but those during which other processes
      run, [bpf], and the ones each theorem names.  Five theorems
      show where the code does not do what it means to: tokens for the asking,
      [rt_sigreturn] with any frame, calls without effect, a yield that
      loses the caller, and programs of Redox taken for programs of Linux.

    ** Fuel

    Loops that are not structural take fuel, and a theorem shows that it is
    enough: descendant search takes the number of ids handed out, the
    verifier's walk the program's length, the interpreter the code's own
    instruction limit, a listing one more than the number of nodes, reading a
    whole file its size in rounds.  The loops over a ZiqaFS directory block
    take 513 turns, one more than the entries that fit; its read and write
    loops one turn per block of the request.  The WebAssembly reader takes the
    length of its input, ten or eleven turns for an integer; the interpreter
    takes any fuel, more of it never changes a result, and the refinement
    theorem gives an amount that is enough.  The chain loops of FAT32 have the
    bound the code has; skipping takes the quotient of the offset.  Page walks
    recurse on the level of the table, loops over pages on the number of pages
    of the range, restore loops on the counts in the data.  A blocking
    [connect] polls the network a given number of turns.  Only
    mounting a FAT32 tree recurses without a bound in the code: there fuel is
    the depth and running out is a value of its own.

    ** Not modelled

    One processor, except in [PageInfo] and [Support]; locks, the interrupt flag, FPU and
    register save areas, console and log output are left out, and memory
    allocation from the heap succeeds.  Architecture code, other drivers, the
    heap, the desktop and the interactive programs are not modelled: they are
    assembly, device registers, or glue around libraries.  The schemes of
    [scheme/] are an interface of [Vfs]: a call of theirs can sleep, or spin on
    the lock of the registry that the VFS holds meanwhile, which a call that
    runs to its end does not express.  No module includes [audio/].  The adapter that
    mounts ZiqaFS in the VFS and [abi/wasm/wasi.rs], which no module includes,
    are left out.  Of the system calls, [bpf] is an argument: it reads its
    attributes through raw pointers, in the memory model of [EbpfVm], which is
    not that of the page tables. *)

From stdpp Require Export base tactics numbers list list_numbers gmap sets strings sorting.
From Stdlib Require Export ZArith Lia.

#[global] Open Scope Z_scope.

(** ** Results of kernel code

    [Ok]/[Err] are Rust's [Result].  [Panic] is a Rust panic (a slice index
    out of range, [unwrap] of [None], a plain arithmetic operator that
    overflows in the development profile).  [Fault] is undefined behaviour: an
    access through a raw pointer outside the memory there is, a misaligned
    one, or a copy between ranges that overlap. *)
Inductive res (E A : Type) : Type :=
| Ok (a : A)
| Err (e : E)
| Panic
| Fault.
Arguments Ok {E A} a.
Arguments Err {E A} e.
Arguments Panic {E A}.
Arguments Fault {E A}.

#[global] Instance res_ret {E} : MRet (res E) := fun A a => Ok a.
#[global] Instance res_bind {E} : MBind (res E) := fun A B f m =>
  match m with
  | Ok a => f a
  | Err e => Err e
  | Panic => Panic
  | Fault => Fault
  end.

(** A computation that neither panics nor faults. *)
Definition safe {E A} (m : res E A) : Prop :=
  match m with Panic | Fault => False | _ => True end.

(** ** State and errors together

    Kernel code mutates shared state and may then return early: what it wrote
    before the early return stays written, so the state is returned beside the
    result, not inside it. *)
Definition M (S E A : Type) : Type := S -> res E A * S.

#[global] Instance M_ret {S E} : MRet (M S E) := fun A a s => (Ok a, s).
#[global] Instance M_bind {S E} : MBind (M S E) := fun A B f m s =>
  match m s with
  | (Ok a, s') => f a s'
  | (Err e, s') => (Err e, s')
  | (Panic, s') => (Panic, s')
  | (Fault, s') => (Fault, s')
  end.

Definition get {S E} : M S E S := fun s => (Ok s, s).
Definition put {S E} (s : S) : M S E unit := fun _ => (Ok tt, s).
Definition modify {S E} (f : S -> S) : M S E unit := fun s => (Ok tt, f s).
Definition throw {S E A} (e : E) : M S E A := fun s => (Err e, s).
Definition lift {S E A} (r : res E A) : M S E A := fun s => (r, s).

(** [.map_err(|_| e)] *)
Definition map_err {S E F A} (e : F) (m : M S E A) : M S F A := fun s =>
  match m s with
  | (Ok a, s') => (Ok a, s')
  | (Err _, s') => (Err e, s')
  | (Panic, s') => (Panic, s')
  | (Fault, s') => (Fault, s')
  end.

(** [keeps R m]: every run of [m], failed ones included, relates the state it
    starts in to the state it leaves behind. *)
Definition keeps {S E A} (R : S -> S -> Prop) (m : M S E A) : Prop :=
  forall s, R s (snd (m s)).

Section keeps.
Context {S E : Type} (R : S -> S -> Prop) `{!PreOrder R}.

Lemma keeps_pure {A} (m : M S E A) : (forall s, snd (m s) = s) -> keeps R m.
Proof. intros H s. by rewrite H. Qed.

Lemma keeps_ret {A} (a : A) : keeps R (mret a : M S E A).
Proof. by apply keeps_pure. Qed.

Lemma keeps_get : keeps R (get : M S E S).
Proof. by apply keeps_pure. Qed.

Lemma keeps_throw {A} (e : E) : keeps R (throw e : M S E A).
Proof. by apply keeps_pure. Qed.

Lemma keeps_lift {A} (r : res E A) : keeps R (lift r : M S E A).
Proof. by apply keeps_pure. Qed.

Lemma keeps_bind_at {A B} (m : M S E A) (f : A -> M S E B) s :
  R s (snd (m s)) -> (forall a, keeps R (f a)) -> R s (snd ((m ≫= f) s)).
Proof.
  intros Hm Hf. unfold mbind, M_bind.
  destruct (m s) as [[a| | |] s']; simpl in *; [|done..].
  etrans; [done|]. apply Hf.
Qed.

Lemma keeps_bind {A B} (m : M S E A) (f : A -> M S E B) :
  keeps R m -> (forall a, keeps R (f a)) -> keeps R (m ≫= f).
Proof. intros Hm Hf s. by apply keeps_bind_at. Qed.

Lemma keeps_if {A} (b : bool) (m1 m2 : M S E A) :
  keeps R m1 -> keeps R m2 -> keeps R (if b then m1 else m2).
Proof. by destruct b. Qed.

End keeps.

Create HintDb keeps discriminated.
#[export] Hint Resolve keeps_ret keeps_get keeps_throw keeps_lift keeps_bind keeps_if : keeps.
#[export] Hint Extern 0 (PreOrder _) => typeclasses eauto : keeps.
#[export] Hint Constants Opaque : keeps.

(** ** Machine integers

    A [w]-bit unsigned integer is a [Z] in [0, 2^w); [as] casts and wrapping
    operators reduce modulo [2^w]; [sint] reads a word as two's complement. *)
Definition wrap (w z : Z) : Z := z mod 2 ^ w.

Definition fits (w z : Z) : Prop := 0 <= z < 2 ^ w.

Definition sint (w z : Z) : Z :=
  let u := wrap w z in if u <? 2 ^ (w - 1) then u else u - 2 ^ w.

(** [a + b] on [usize] or [u64]: overflow panics. *)
Definition uadd {E} (a b : Z) : res E Z := if a + b <? 2 ^ 64 then Ok (a + b) else Panic.

#[global] Instance fits_dec w z : Decision (fits w z).
Proof. unfold fits. apply _. Defined.

Lemma wrap_fits w z : 0 <= w -> fits w (wrap w z).
Proof. intros. unfold fits, wrap. apply Z.mod_pos_bound. lia. Qed.

Lemma wrap_small w z : fits w z -> wrap w z = z.
Proof. unfold fits, wrap. intros. by apply Z.mod_small. Qed.

Lemma testbit_above w m i : fits w m -> w <= i -> Z.testbit m i = false.
Proof.
  intros [H0 H] Hi. destruct (decide (m = 0)) as [->|]; [apply Z.testbit_0_l|].
  apply Z.bits_above_log2; [done|]. apply Z.log2_lt_pow2; [lia|].
  eapply Z.lt_le_trans; [exact H|]. by apply Z.pow_le_mono_r.
Qed.

Lemma fits_testbit w m :
  0 < w -> (forall i, w <= i -> Z.testbit m i = false) -> 0 <= m -> fits w m.
Proof.
  intros Hw H H0. split; [done|]. destruct (decide (m = 0)) as [->|]; [apply Z.pow_pos_nonneg; lia|].
  apply Z.log2_lt_pow2; [lia|]. destruct (decide (Z.log2 m < w)); [done|]. exfalso.
  pose proof (Z.bit_log2 m ltac:(lia)) as Hb. rewrite H in Hb by lia. done.
Qed.

Lemma lxor_fits w a b : 0 < w -> fits w a -> fits w b -> fits w (Z.lxor a b).
Proof.
  intros Hw Ha Hb. apply fits_testbit; [done| |].
  - intros i Hi. by rewrite Z.lxor_spec, !(testbit_above w).
  - destruct Ha, Hb. apply Z.lxor_nonneg. lia.
Qed.

Lemma lor_fits w a b : 0 < w -> fits w a -> fits w b -> fits w (Z.lor a b).
Proof.
  intros Hw Ha Hb. apply fits_testbit; [done| |].
  - intros i Hi. by rewrite Z.lor_spec, !(testbit_above w).
  - destruct Ha, Hb. apply Z.lor_nonneg. lia.
Qed.

Lemma land_fits w a b : 0 < w -> fits w a -> fits w (Z.land a b).
Proof.
  intros Hw Ha. apply fits_testbit; [done| |].
  - intros i Hi. by rewrite Z.land_spec, (testbit_above w).
  - destruct Ha. apply Z.land_nonneg. lia.
Qed.

Lemma shiftr_fits w a n : 0 <= n -> fits w a -> fits w (Z.shiftr a n).
Proof.
  intros Hn [H0 H]. rewrite Z.shiftr_div_pow2 by done. split; [apply Z.div_pos; lia|].
  eapply Z.le_lt_trans; [|exact H]. apply Z.div_le_upper_bound; nia.
Qed.


(** ** Lists and finite maps *)

(** Updating every key of a map one after the other is mapping over it. *)
Lemma foldl_alter_fmap {A} (f : A -> A) (ks : list Z) (m : gmap Z A) :
  NoDup ks ->
  foldl (fun m k => alter f k m) m ks
  = map_imap (fun k a => Some (if decide (k ∈ ks) then f a else a)) m.
Proof.
  revert m. induction ks as [|k ks IH]; intros m Hnd; simpl.
  - apply map_eq. intros i. rewrite map_lookup_imap.
    destruct (m !! i) as [a|]; simpl; [|done]. repeat case_decide; set_solver.
  - apply NoDup_cons in Hnd as [Hk Hnd]. rewrite IH by done.
    apply map_eq. intros i. rewrite !map_lookup_imap, lookup_alter.
    destruct (decide (k = i)) as [->|Hne]; destruct (m !! i) as [a|]; simpl; try done;
      repeat case_decide; set_solver.
Qed.

Lemma foldl_delete_lookup {A} (ks : list Z) (m : gmap Z A) i :
  foldl (fun m k => delete k m) m ks !! i
  = if decide (i ∈ ks) then None else m !! i.
Proof.
  revert m. induction ks as [|k ks IH]; intros m; simpl.
  - repeat case_decide; set_solver.
  - rewrite IH, lookup_delete. repeat case_decide; set_solver.
Qed.

Lemma elem_of_delete_nodup {A B} (f : A -> B) (l : list A) pos (x y : A) :
  NoDup (f <$> l) -> l !! pos = Some x ->
  y ∈ delete pos l <-> y ∈ l /\ f y <> f x.
Proof.
  revert pos. induction l as [|z l IH]; intros [|pos] Hnd Hl; simplify_eq/=.
  - apply NoDup_cons in Hnd as [Hz Hnd]. rewrite list_elem_of_fmap in Hz.
    split.
    + intros Hy. split; [set_solver|]. intros Hf. apply Hz. eauto.
    + intros [[->|Hy]%elem_of_cons Hf]; [done|done].
  - apply NoDup_cons in Hnd as [Hz Hnd].
    rewrite !elem_of_cons, (IH pos) by done. split; [|tauto].
    intros [->|[Hy Hf]]; [|tauto]. split; [tauto|].
    intros Hf. apply Hz. rewrite Hf. apply list_elem_of_fmap_2.
    by eapply list_elem_of_lookup_2.
Qed.

Lemma filter_iff_in {A} (P Q : A -> Prop) `{!forall x, Decision (P x), !forall x, Decision (Q x)} (l : list A) :
  (forall x, x ∈ l -> P x <-> Q x) -> filter P l = filter Q l.
Proof.
  induction l as [|x l IH]; intros HPQ; [done|]. rewrite !filter_cons, IH by set_solver.
  specialize (HPQ x ltac:(set_solver)). repeat case_decide; tauto || done.
Qed.

Lemma filter_const {A} (Q : Prop) `{!Decision Q} (l : list A) : filter (fun _ => Q) l = if decide Q then l else [].
Proof. induction l as [|x l IH]; [by case_decide|]. rewrite filter_cons, IH. by case_decide. Qed.

(** ** Rings

    [buf] is a ring of [N] slots that holds [q] from [head] on. *)
Definition ring_holds {A} (N : nat) (buf : list A) (head : nat) (q : list A) : Prop :=
  length buf = N /\ (head < N)%nat /\ (length q <= N)%nat /\
  forall i x, q !! i = Some x -> buf !! ((head + i) mod N)%nat = Some x.

Lemma ring_push {A} (N : nat) (buf : list A) head q x :
  ring_holds N buf head q -> (length q < N)%nat -> ring_holds N (<[((head + length q) mod N)%nat := x]> buf) head (q ++ [x]).
Proof.
  intros (Hl & Hh & _ & Hq) Hlt. split; [by rewrite length_insert|]. split; [done|]. split; [rewrite length_app; simpl; lia|].
  intros i y [Hi|[Hi Hy]]%lookup_app_Some.
  - pose proof (lookup_lt_Some _ _ _ Hi). rewrite list_lookup_insert_ne; [by apply Hq|].
    intros He. assert (Hm : forall a, (a < 2 * N)%nat -> (a mod N = if a <? N then a else a - N)%nat).
    { intros a Ha. destruct (Nat.ltb_spec a N); [by apply Nat.mod_small|]. symmetry. apply (Nat.mod_unique _ _ 1); lia. }
    rewrite !Hm in He by lia. destruct (Nat.ltb_spec (head + length q) N), (Nat.ltb_spec (head + i) N); lia.
  - destruct (i - length q)%nat eqn:Hz; [|done]. injection Hy as <-. replace i with (length q) by lia.
    apply list_lookup_insert_eq. rewrite Hl. apply Nat.mod_upper_bound. lia.
Qed.

Lemma ring_pop {A} (N : nat) (buf : list A) head x q :
  ring_holds N buf head (x :: q) -> buf !! head = Some x /\ ring_holds N buf ((head + 1) mod N)%nat q.
Proof.
  intros (Hl & Hh & Hn & Hq). split.
  - rewrite <-(Hq 0%nat x) by done. by rewrite Nat.add_0_r, Nat.mod_small.
  - split; [done|]. split; [apply Nat.mod_upper_bound; lia|]. split; [simpl in Hn; lia|].
    intros i y Hi. rewrite <-(Hq (S i) y) by done. f_equal. rewrite Nat.Div0.add_mod_idemp_l. f_equal. lia.
Qed.

Lemma ring_empty {A} (N : nat) (buf : list A) head : length buf = N -> (head < N)%nat -> ring_holds N buf head [].
Proof. intros Hl Hh. split; [done|]. split; [done|]. split; [simpl; lia|done]. Qed.

(** A full ring that overwrites its oldest entry. *)
Lemma ring_overwrite {A} (N : nat) (buf : list A) head x y q :
  ring_holds N buf head (x :: q) -> length (x :: q) = N -> ring_holds N (<[head := y]> buf) ((head + 1) mod N)%nat (q ++ [y]).
Proof.
  intros H Hn. destruct (ring_pop N buf head x q H) as [_ Hp]. destruct H as (_ & Hh & _). simpl in Hn.
  replace head with (((head + 1) mod N + length q) mod N)%nat at 1; [apply ring_push; [done|lia]|].
  rewrite Nat.Div0.add_mod_idemp_l. replace (head + 1 + length q)%nat with (head + 1 * N)%nat by lia.
  rewrite Nat.Div0.mod_add. by apply Nat.mod_small.
Qed.
