(* ===== verification/Bytes.v ===== *)
(** * Byte buffers, little-endian words and raw memory

    A byte is a [Z] in [0, 256); a Rust slice or array of bytes is a list of
    them.  [sub]/[upd] are the contents of a sub-slice and a [copy_from_slice]
    into one; [slice]/[splice] are the bounds-checked Rust forms, which panic
    out of range.  [load]/[store] are accesses through a raw pointer to the
    kernel's address space, which fault when a byte is not mapped. *)

From S2P Require Import Prelude.

(** ** Slices *)

Definition zlen {A} (l : list A) : Z := Z.of_nat (length l).

Definition sub {A} (off n : Z) (l : list A) : list A :=
  take (Z.to_nat n) (drop (Z.to_nat off) l).

Definition upd {A} (off : Z) (d l : list A) : list A :=
  take (Z.to_nat off) l ++ d ++ drop (Z.to_nat off + length d) l.

(** [&l[off..off + n]] *)
Definition slice {E A} (off n : Z) (l : list A) : res E (list A) :=
  if decide (0 <= off /\ 0 <= n /\ off + n <= zlen l) then Ok (sub off n l) else Panic.

(** [l[off..off + d.len()].copy_from_slice(d)] *)
Definition splice {E A} (off : Z) (d l : list A) : res E (list A) :=
  if decide (0 <= off /\ off + zlen d <= zlen l) then Ok (upd off d l) else Panic.

(** [l[i]] *)
Definition index {E A} (l : list A) (i : Z) : res E A :=
  if decide (0 <= i) then
    match l !! Z.to_nat i with Some x => Ok x | None => Panic end
  else Panic.

Definition zeros (n : Z) : list Z := replicate (Z.to_nat n) 0.

Lemma slice_ok {E A} off n (l : list A) :
  0 <= off -> 0 <= n -> off + n <= zlen l -> slice (E:=E) off n l = Ok (sub off n l).
Proof. intros. unfold slice. by rewrite decide_True. Qed.

Lemma splice_ok {E A} off (d l : list A) :
  0 <= off -> off + zlen d <= zlen l -> splice (E:=E) off d l = Ok (upd off d l).
Proof. intros. unfold splice. by rewrite decide_True. Qed.

Lemma zlen_nonneg {A} (l : list A) : 0 <= zlen l.
Proof. unfold zlen. lia. Qed.

Lemma zlen_app {A} (l k : list A) : zlen (l ++ k) = zlen l + zlen k.
Proof. unfold zlen. rewrite length_app. lia. Qed.

Lemma zlen_cons {A} (x : A) l : zlen (x :: l) = 1 + zlen l.
Proof. unfold zlen. simpl. lia. Qed.

Lemma zlen_snoc {A} (l : list A) x : zlen (l ++ [x]) = zlen l + 1.
Proof. rewrite zlen_app. done. Qed.

Lemma zlen_zeros n : 0 <= n -> zlen (zeros n) = n.
Proof. intros. unfold zlen, zeros. rewrite length_replicate. lia. Qed.

Lemma zlen_sub {A} off n (l : list A) :
  0 <= off -> 0 <= n -> off + n <= zlen l -> zlen (sub off n l) = n.
Proof. unfold zlen, sub. intros. rewrite length_take, length_drop. lia. Qed.

Lemma zlen_upd {A} off (d l : list A) :
  0 <= off -> off + zlen d <= zlen l -> zlen (upd off d l) = zlen l.
Proof.
  unfold zlen, upd. intros. rewrite !length_app, length_take, length_drop. lia.
Qed.

Lemma sub_upd_same {A} off (d l : list A) :
  0 <= off -> off + zlen d <= zlen l -> sub off (zlen d) (upd off d l) = d.
Proof.
  unfold zlen, sub, upd. intros.
  rewrite drop_app_le by (rewrite length_take; lia).
  rewrite drop_ge by (rewrite length_take; lia). simpl.
  rewrite take_app_le by lia. apply take_ge. lia.
Qed.

Lemma upd_lookup {A} off (d l : list A) (i : nat) :
  0 <= off -> off + zlen d <= zlen l ->
  upd off d l !! i = if decide (off <= Z.of_nat i < off + zlen d)
                     then d !! (i - Z.to_nat off)%nat else l !! i.
Proof.
  unfold zlen, upd. intros.
  case_decide.
  - rewrite lookup_app_r by (rewrite length_take; lia).
    rewrite lookup_app_l by (rewrite length_take; lia).
    f_equal. rewrite length_take. lia.
  - destruct (decide (Z.of_nat i < off)).
    + rewrite lookup_app_l by (rewrite length_take; lia).
      rewrite lookup_take_lt by lia. done.
    + rewrite !lookup_app_r by (rewrite ?length_take; lia).
      rewrite lookup_drop, length_take. f_equal. lia.
Qed.

Lemma sub_lookup {A} off n (l : list A) (i : nat) :
  0 <= off -> 
  sub off n l !! i = if decide (Z.of_nat i < n) then l !! (Z.to_nat off + i)%nat else None.
Proof.
  unfold sub. intros. case_decide.
  - rewrite lookup_take_lt by lia. by rewrite lookup_drop.
  - apply lookup_take_ge. lia.
Qed.

(** Reading a range that an update does not touch. *)
Lemma sub_upd_other {A} off n o (d l : list A) :
  0 <= off -> 0 <= o -> o + zlen d <= zlen l ->
  off + n <= o \/ o + zlen d <= off ->
  sub off n (upd o d l) = sub off n l.
Proof.
  intros Hoff Ho Hlen Hdisj. apply list_eq. intros i.
  rewrite !sub_lookup by done. case_decide; [|done].
  rewrite upd_lookup by done. rewrite decide_False; [done|]. lia.
Qed.

(** Reading inside the range that was written. *)
Lemma sub_upd_inside {A} off n o (d l : list A) :
  0 <= o -> o <= off -> off + n <= o + zlen d -> o + zlen d <= zlen l ->
  sub off n (upd o d l) = sub (off - o) n d.
Proof.
  intros. apply list_eq. intros i. rewrite !sub_lookup by lia. case_decide; [|done].
  rewrite upd_lookup by lia. rewrite decide_True by lia. f_equal. lia.
Qed.

Lemma sub_full {A} (l : list A) : sub 0 (zlen l) l = l.
Proof. unfold sub, zlen. rewrite drop_0, Nat2Z.id. by apply firstn_all. Qed.

Lemma sub_zero {A} off (l : list A) : sub off 0 l = [].
Proof. done. Qed.

(** Adjacent ranges. *)
Lemma sub_app {A} off n m (l : list A) :
  0 <= off -> 0 <= n -> 0 <= m -> sub off n l ++ sub (off + n) m l = sub off (n + m) l.
Proof.
  intros. unfold sub. rewrite !Z2Nat.inj_add by lia.
  rewrite <-drop_drop. by rewrite take_take_drop.
Qed.

(** Ranges of a concatenation. *)
Lemma sub_skip {A} off n (l k : list A) :
  zlen l <= off -> sub off n (l ++ k) = sub (off - zlen l) n k.
Proof.
  unfold zlen, sub. intros H. rewrite drop_app_ge by lia. do 2 f_equal. lia.
Qed.

Lemma sub_here {A} n (l k : list A) : zlen l = n -> sub 0 n (l ++ k) = l.
Proof. intros <-. unfold sub, zlen. rewrite drop_0, Nat2Z.id. by rewrite take_app_length. Qed.

Lemma sub_mid {A} (pre bs post : list A) : sub (zlen pre) (zlen bs) (pre ++ bs ++ post) = bs.
Proof. rewrite sub_skip, Z.sub_diag by lia. by apply sub_here. Qed.

(** Indexing. *)
Lemma index_cases {E A} (l : list A) i :
  (exists x, index (E:=E) l i = Ok x /\ 0 <= i < zlen l) \/ index (E:=E) l i = Panic.
Proof.
  unfold index, zlen. case_decide; [|by right].
  destruct (l !! Z.to_nat i) as [x|] eqn:Hx; [|by right].
  left. exists x. apply lookup_lt_Some in Hx. split; [done|lia].
Qed.

Lemma index_here {E A} (pre : list A) b post : index (E:=E) (pre ++ b :: post) (zlen pre) = Ok b.
Proof.
  unfold index, zlen. rewrite decide_True by lia.
  by rewrite Nat2Z.id, lookup_app_r, Nat.sub_diag by lia.
Qed.

Lemma index_lookup {E A} (buf : list A) i :
  0 <= i < zlen buf -> exists x, buf !! Z.to_nat i = Some x /\ index (E:=E) buf i = Ok x.
Proof.
  intros Hi. destruct (lookup_lt_is_Some_2 buf (Z.to_nat i)) as [x Hx]; [unfold zlen in Hi; lia|].
  exists x. split; [done|]. unfold index. rewrite decide_True by lia. by rewrite Hx.
Qed.

(** ** Little-endian words *)

Fixpoint le_bytes (n : nat) (z : Z) : list Z :=
  match n with
  | O => []
  | S n' => z mod 256 :: le_bytes n' (z / 256)
  end.

Definition le_word (bs : list Z) : Z := foldr (fun b acc => b + 256 * acc) 0 bs.

Definition is_byte (b : Z) : Prop := 0 <= b < 256.

Lemma sub_bytes off n l : Forall is_byte l -> Forall is_byte (sub off n l).
Proof. intros H. unfold sub. by apply Forall_take, Forall_drop. Qed.

Lemma upd_bytes off d l : Forall is_byte d -> Forall is_byte l -> Forall is_byte (upd off d l).
Proof.
  intros Hd Hl. unfold upd. apply Forall_app_2; [by apply Forall_take|].
  apply Forall_app_2; [done|by apply Forall_drop].
Qed.

Lemma zeros_bytes n : Forall is_byte (zeros n).
Proof. unfold zeros. apply Forall_replicate. by split. Qed.

Lemma length_le_bytes n z : length (le_bytes n z) = n.
Proof. revert z. induction n; intros; simpl; auto. Qed.

Lemma zlen_le_bytes n z : zlen (le_bytes n z) = Z.of_nat n.
Proof. unfold zlen. by rewrite length_le_bytes. Qed.

Lemma le_bytes_bytes n z : Forall is_byte (le_bytes n z).
Proof.
  revert z. induction n; intros; simpl; constructor; [|done].
  unfold is_byte. apply Z.mod_pos_bound. lia.
Qed.

Lemma le_word_le_bytes n z : le_word (le_bytes n z) = z mod 256 ^ Z.of_nat n.
Proof.
  revert z. induction n as [|n IH]; intros z.
  - simpl. by rewrite Z.mod_1_r.
  - cbn [le_bytes le_word foldr]. fold (le_word (le_bytes n (z / 256))). rewrite IH.
    rewrite Nat2Z.inj_succ, Z.pow_succ_r by lia.
    rewrite Z.rem_mul_r by lia. lia.
Qed.

Lemma le_word_round n z : fits (8 * Z.of_nat n) z -> le_word (le_bytes n z) = z.
Proof.
  intros Hz. rewrite le_word_le_bytes. apply Z.mod_small.
  unfold fits in Hz. rewrite Z.pow_mul_r in Hz by lia. done.
Qed.

Lemma le_bytes_le_word bs : Forall is_byte bs -> le_bytes (length bs) (le_word bs) = bs.
Proof.
  induction 1 as [|b bs Hb _ IH]; [done|]. cbn [length le_bytes le_word foldr].
  fold (le_word bs). unfold is_byte in Hb.
  rewrite (Z.mul_comm 256), Z.mod_add, Z.div_add by lia.
  rewrite Z.mod_small, Z.div_small by lia. by rewrite Z.add_0_l, IH.
Qed.

Lemma le_word_bound bs : Forall is_byte bs -> 0 <= le_word bs < 256 ^ zlen bs.
Proof.
  unfold zlen. induction 1 as [|b bs Hb _ IH]; [simpl; lia|].
  cbn [length le_word foldr]. fold (le_word bs). unfold is_byte in Hb.
  rewrite Nat2Z.inj_succ, Z.pow_succ_r by lia. lia.
Qed.

(** ** Raw memory *)

Abbreviation Mem := (gmap Z Z) (only parsing).

Definition load {E} (m : Mem) (addr n : Z) : res E (list Z) :=
  match mapM (fun i => m !! i) (seqZ addr n) with Some bs => Ok bs | None => Fault end.

Fixpoint store_bytes (m : Mem) (addr : Z) (bs : list Z) : Mem :=
  match bs with
  | [] => m
  | b :: bs' => store_bytes (<[addr := b]> m) (addr + 1) bs'
  end.

Definition mapped (m : Mem) (addr n : Z) : Prop :=
  Forall (fun i => is_Some (m !! i)) (seqZ addr n).

#[global] Instance mapped_dec m addr n : Decision (mapped m addr n).
Proof. unfold mapped. apply _. Defined.

Definition store {E} (m : Mem) (addr : Z) (bs : list Z) : res E Mem :=
  if decide (mapped m addr (zlen bs)) then Ok (store_bytes m addr bs) else Fault.

(** Dereferencing a raw pointer to an [n]-byte integer: undefined when the
    pointer is misaligned. *)
Definition load_aligned {E} (m : Mem) (addr n : Z) : res E (list Z) :=
  if addr mod n =? 0 then load m addr n else Fault.

(** [*(addr as *const u32)] and [*(addr as *const u64)]. *)
Definition read_u32 {E} (m : Mem) (addr : Z) : res E Z :=
  bs ← load_aligned m addr 4; Ok (wrap 32 (le_word bs)).
Definition read_u64 {E} (m : Mem) (addr : Z) : res E Z :=
  bs ← load_aligned m addr 8; Ok (wrap 64 (le_word bs)).

Definition store_aligned {E} (m : Mem) (addr : Z) (bs : list Z) : res E Mem :=
  if addr mod zlen bs =? 0 then store m addr bs else Fault.

(** [core::slice::from_raw_parts]: undefined on a null pointer. *)
Definition from_raw_parts {E} (m : Mem) (addr n : Z) : res E (list Z) :=
  if addr =? 0 then Fault else load m addr n.

Lemma store_bytes_lookup m addr bs i :
  store_bytes m addr bs !! i =
  if decide (addr <= i < addr + zlen bs) then bs !! Z.to_nat (i - addr) else m !! i.
Proof.
  revert m addr. induction bs as [|b bs IH]; intros m addr; simpl.
  - unfold zlen. simpl. case_decide; [lia|done].
  - rewrite IH. unfold zlen. simpl.
    destruct (decide (i = addr)) as [->|Hne].
    + rewrite decide_False, decide_True by lia.
      rewrite lookup_insert_eq. by replace (Z.to_nat (addr - addr)) with 0%nat by lia.
    + case_decide.
      * rewrite decide_True by lia.
        replace (Z.to_nat (i - addr)) with (S (Z.to_nat (i - (addr + 1)))) by lia. done.
      * rewrite decide_False by lia. by rewrite lookup_insert_ne by lia.
Qed.

Lemma mapped_alt m addr n :
  mapped m addr n <-> forall i, addr <= i < addr + n -> is_Some (m !! i).
Proof.
  unfold mapped. rewrite Forall_forall. setoid_rewrite elem_of_seqZ. done.
Qed.

Lemma load_mapped {E} m addr n :
  mapped m addr n -> exists bs, load (E:=E) m addr n = Ok bs.
Proof.
  intros H. unfold load. destruct (mapM _ _) as [bs|] eqn:Hm; [by eauto|].
  apply mapM_None, Exists_exists in Hm as (x & Hx & Hn).
  unfold mapped in H. rewrite Forall_forall in H. destruct (H x Hx). congruence.
Qed.

Lemma load_length {E} m addr n bs : load (E:=E) m addr n = Ok bs -> zlen bs = Z.max 0 n.
Proof.
  unfold load. destruct (mapM _ _) as [bs'|] eqn:Hm; [|done]. intros [= <-].
  apply length_mapM in Hm. rewrite length_seqZ in Hm. unfold zlen. lia.
Qed.

Lemma load_lookup {E} m addr n bs (i : nat) :
  load (E:=E) m addr n = Ok bs -> Z.of_nat i < n -> bs !! i = m !! (addr + Z.of_nat i).
Proof.
  unfold load. destruct (mapM _ _) as [bs'|] eqn:Hm; [|done]. intros [= <-] Hi.
  apply mapM_Some in Hm.
  destruct (Forall2_lookup_l _ _ _ i (addr + Z.of_nat i) Hm) as (b & Hb & Hmb).
  { rewrite lookup_seqZ. split; lia. }
  congruence.
Qed.

Lemma load_ext {E} m m' addr n :
  (forall i, addr <= i < addr + n -> m' !! i = m !! i) ->
  load (E:=E) m' addr n = load m addr n.
Proof.
  intros H. unfold load. replace (mapM (fun i => m' !! i) (seqZ addr n))
    with (mapM (fun i => m !! i) (seqZ addr n)); [done|].
  apply Forall_mapM_ext, Forall_forall. intros i Hi. symmetry. apply H. by apply elem_of_seqZ.
Qed.

Lemma load_Ok_mapped {E} m addr n bs : load (E:=E) m addr n = Ok bs -> mapped m addr n.
Proof.
  unfold load, mapped. destruct (mapM _ _) as [bs'|] eqn:Hm; [|done]. intros _.
  apply mapM_Some in Hm. apply Forall_forall. intros i Hi.
  apply list_elem_of_lookup in Hi as (k & Hk).
  destruct (Forall2_lookup_l _ _ _ k i Hm Hk) as (b & _ & Hb). by eexists.
Qed.

Lemma load_Ok_iff {E} m addr n bs :
  0 <= n ->
  load (E:=E) m addr n = Ok bs <->
  zlen bs = n /\ forall i : nat, Z.of_nat i < n -> bs !! i = m !! (addr + Z.of_nat i).
Proof.
  intros Hn. split.
  - intros H. split; [apply load_length in H; lia|]. intros i. by apply (load_lookup (E:=E)).
  - intros [Hl Hi]. destruct (load_mapped (E:=E) m addr n) as [bs' Hbs'].
    { apply mapped_alt. intros i Hr. specialize (Hi (Z.to_nat (i - addr))).
      replace (addr + _) with i in Hi by lia. rewrite <-Hi by lia.
      apply lookup_lt_is_Some. unfold zlen in Hl. lia. }
    rewrite Hbs'. f_equal. apply list_eq. intros i.
    destruct (decide (Z.of_nat i < n)).
    + by rewrite (load_lookup _ _ _ _ _ Hbs'), Hi.
    + pose proof (load_length _ _ _ _ Hbs'). unfold zlen in *.
      rewrite !lookup_ge_None_2 by lia. done.
Qed.

Lemma store_Ok {E} m addr bs :
  mapped m addr (zlen bs) -> store (E:=E) m addr bs = Ok (store_bytes m addr bs).
Proof. intros H. unfold store. by rewrite decide_True. Qed.

Lemma load_store_same {E} m addr bs :
  load (E:=E) (store_bytes m addr bs) addr (zlen bs) = Ok bs.
Proof.
  apply load_Ok_iff; [apply zlen_nonneg|]. split; [done|]. intros i Hi.
  rewrite store_bytes_lookup, decide_True by lia.
  f_equal. lia.
Qed.

(** A part of a region that was loaded. *)
Lemma load_sub {E} m addr n bs off k :
  load (E:=E) m addr n = Ok bs -> 0 <= off -> 0 <= k -> off + k <= n ->
  load (E:=E) m (addr + off) k = Ok (sub off k bs).
Proof.
  intros H ? ? ?. apply load_Ok_iff in H as [Hl Hi]; [|lia].
  apply load_Ok_iff; [lia|]. split; [apply zlen_sub; lia|].
  intros i Hk. rewrite sub_lookup, decide_True by lia.
  rewrite Hi by lia. f_equal. lia.
Qed.

Lemma from_raw_parts_Ok {E} m addr n bs :
  from_raw_parts (E:=E) m addr n = Ok bs -> load (E:=E) m addr n = Ok bs.
Proof. unfold from_raw_parts. by destruct (Z.eqb_spec addr 0). Qed.
