(* ===== verification/Abi.v ===== *)
(** * The kernel's common error type

    [AbiError] of [src/abi/mod.rs]. *)

From S2P Require Import Prelude.

Inductive AbiError :=
| UnknownFormat
| ParseError
| OutOfMemory
| UnsupportedSyscall (nr : Z)
| PermissionDenied
| OutOfBounds
| Other (msg : string).
