(* ===== verification/Disk.v ===== *)
(** * Block devices

    The [BlockDevice] trait of [src/drivers/block.rs], what its users rely on,
    the contents of a range of sectors, and a disk in memory that meets the
    contract, for examples. *)

From S2P Require Import Prelude Bytes Abi.

(** [BlockDevice]: a read fills the buffer from its front with
    [count * 512] bytes and leaves the device alone. *)
Class BlockDevice (D : Type) := {
  read_sectors : Z -> Z -> D -> res AbiError (list Z);
  write_sectors : Z -> Z -> list Z -> D -> res AbiError unit * D;
  total_sectors : D -> Z
}.

(** What a working disk promises: sectors of 512 bytes, below the total
    number readable and writable, each holding what was last written. *)
Class DiskSpec (D : Type) {bd : BlockDevice D} := {
  sector : D -> Z -> list Z;
  sector_len : forall d k, zlen (sector d k) = 512;
  sector_bytes : forall d k, Forall is_byte (sector d k);
  read_sectors_ok : forall d s n, 0 <= s -> 0 <= n -> s + n <= total_sectors d ->
    read_sectors s n d = Ok (concat (map (sector d) (seqZ s n)));
  write_sectors_ok : forall d s n buf, 0 <= s -> 0 <= n -> s + n <= total_sectors d ->
    n * 512 <= zlen buf -> Forall is_byte buf ->
    exists d', write_sectors s n buf d = (Ok tt, d') /\ total_sectors d' = total_sectors d /\
      forall k, sector d' k = if decide (s <= k < s + n) then sub ((k - s) * 512) 512 buf else sector d k
}.

Module Disk.

Section range.
Context {D : Type} {bd : BlockDevice D} {spec : DiskSpec D}.

(** The bytes of [n] sectors from [s]. *)
Definition range (d : D) (s n : Z) : list Z := concat (map (sector d) (seqZ s n)).

Lemma range_0 d s : range d s 0 = [].
Proof. done. Qed.

Lemma range_app d s n m : 0 <= n -> 0 <= m -> range d s (n + m) = range d s n ++ range d (s + n) m.
Proof. intros. unfold range. by rewrite seqZ_app, map_app, concat_app by lia. Qed.

Lemma range_1 d s : range d s 1 = sector d s.
Proof. unfold range. change (seqZ s 1) with [s]. apply app_nil_r. Qed.

Lemma zlen_range d s n : 0 <= n -> zlen (range d s n) = n * 512.
Proof.
  intros Hn. revert s. pattern n. apply natlike_ind; [done| |done]. clear n Hn. intros n Hn IH s.
  rewrite <-Z.add_1_r, range_app, zlen_app, IH, range_1, sector_len by lia. lia.
Qed.

Lemma range_bytes d s n : Forall is_byte (range d s n).
Proof.
  unfold range. apply Forall_concat, Forall_map, Forall_true. intros k. apply sector_bytes.
Qed.

(** One sector of a range. *)
Lemma sub_range d s n k m :
  0 <= m -> s <= k -> k + m <= s + n -> sub ((k - s) * 512) (m * 512) (range d s n) = range d k m.
Proof.
  intros Hm Hk Hn. replace n with ((k - s) + (m + (s + n - k - m))) by lia.
  rewrite (range_app d s), (range_app d (s + (k - s))) by lia.
  rewrite sub_skip by (rewrite zlen_range; lia). rewrite zlen_range by lia.
  replace (s + (k - s)) with k by lia.
  rewrite Z.sub_diag. apply sub_here. apply zlen_range. lia.
Qed.

Lemma range_ext d d' s n : (forall k, s <= k < s + n -> sector d' k = sector d k) -> range d' s n = range d s n.
Proof.
  intros H. unfold range. f_equal. apply map_ext_in. intros k Hk.
  apply H. by apply elem_of_seqZ, list_elem_of_In.
Qed.

(** The sectors of a buffer, put together again. *)
Lemma buffer_sectors {A} (buf : list A) s n :
  0 <= n -> zlen buf = n * 512 -> concat (map (fun k => sub ((k - s) * 512) 512 buf) (seqZ s n)) = buf.
Proof.
  intros Hn. revert buf. pattern n. apply natlike_ind; [|clear n Hn; intros n Hn IH|done]; intros buf Hl.
  - destruct buf; [done|]. unfold zlen in Hl. simpl in Hl. lia.
  - rewrite <-Z.add_1_r, seqZ_app, map_app, concat_app by lia.
    change (seqZ (s + n) 1) with [s + n]. cbn. rewrite app_nil_r.
    specialize (IH (sub 0 (n * 512) buf)).
    replace (map _ (seqZ s n)) with (map (fun k => sub ((k - s) * 512) 512 (sub 0 (n * 512) buf)) (seqZ s n)).
    + rewrite IH by (rewrite zlen_sub; lia).
      replace ((s + n - s) * 512) with (0 + n * 512) by lia. rewrite sub_app by lia.
      rewrite <-(sub_full buf) at 2. f_equal. lia.
    + apply map_ext_in. intros k Hk%list_elem_of_In%elem_of_seqZ. apply list_eq. intros i.
      rewrite !sub_lookup by lia. case_decide; [|done]. rewrite decide_True by lia.
      done.
Qed.

Lemma read_range d s n : 0 <= s -> 0 <= n -> s + n <= total_sectors d -> read_sectors s n d = Ok (range d s n).
Proof. apply read_sectors_ok. Qed.

Lemma write_range d s n buf :
  0 <= s -> 0 <= n -> s + n <= total_sectors d -> zlen buf = n * 512 -> Forall is_byte buf ->
  exists d', write_sectors s n buf d = (Ok tt, d') /\ total_sectors d' = total_sectors d /\
    range d' s n = buf /\
    (forall k, k < s \/ s + n <= k -> sector d' k = sector d k) /\
    (forall k, s <= k < s + n -> sector d' k = sub ((k - s) * 512) 512 buf).
Proof.
  intros Hs Hn Ht Hl Hb. destruct (write_sectors_ok d s n buf) as (d' & Hw & Ht' & Hk); [lia..|done|].
  exists d'. split_and!; [done|done| |intros k Hr; rewrite Hk, decide_False by lia; done
    |intros k Hr; rewrite Hk, decide_True by lia; done].
  unfold range. rewrite <-(buffer_sectors buf s n) by done. f_equal. apply map_ext_in.
  intros k Hr%list_elem_of_In%elem_of_seqZ. by rewrite Hk, decide_True by lia.
Qed.

End range.

(** ** A disk in memory

    An instance of the contract, for examples. *)
Record MemDisk := mkDisk { contents_of : Z -> list Z; size_of : Z }.

(** A sector: 512 bytes, whatever was stored. *)
Definition pad512 (l : list Z) : list Z := map (fun b => b mod 256) (take 512 (l ++ zeros 512)).

Lemma pad512_len l : zlen (pad512 l) = 512.
Proof. unfold pad512, zlen, zeros. rewrite length_map, length_take, length_app, length_replicate. lia. Qed.

Lemma pad512_bytes l : Forall is_byte (pad512 l).
Proof. apply Forall_map, Forall_true. intros b. apply Z.mod_pos_bound. lia. Qed.

Lemma pad512_id l : zlen l = 512 -> Forall is_byte l -> pad512 l = l.
Proof.
  intros H Hb. unfold pad512. rewrite take_app_length' by (unfold zlen in H; lia).
  rewrite <- (list_fmap_id l) at 2. apply list_fmap_ext. intros i x Hx. apply Z.mod_small.
  apply (Forall_lookup_1 _ _ _ _ Hb Hx).
Qed.

#[global] Instance mem_disk : BlockDevice MemDisk := {
  read_sectors := fun s n d =>
    if decide (s + n <= size_of d) then Ok (concat (map (fun k => pad512 (contents_of d k)) (seqZ s n)))
    else Err OutOfBounds;
  write_sectors := fun s n buf d =>
    if decide (s + n <= size_of d)
    then (Ok tt, mkDisk (fun k => if decide (s <= k < s + n) then sub ((k - s) * 512) 512 buf
                                  else contents_of d k) (size_of d))
    else (Err OutOfBounds, d);
  total_sectors := size_of
}.

#[global] Program Instance mem_disk_spec : DiskSpec MemDisk := {
  sector := fun d k => pad512 (contents_of d k)
}.
Next Obligation. intros d k. apply pad512_len. Qed.
Next Obligation. intros d k. apply pad512_bytes. Qed.
Next Obligation. intros d s n Hs Hn Ht. simpl in *. by rewrite decide_True. Qed.
Next Obligation.
  intros d s n buf Hs Hn Ht Hl Hb. simpl in *. rewrite decide_True by done. eexists. split; [done|].
  split; [done|]. intros k. simpl. destruct (decide _); [|done].
  apply pad512_id; [apply zlen_sub; lia|by apply sub_bytes].
Qed.

End Disk.
