(* ===== verification/Capability.v ===== *)
(** * Capabilities: tokens, capability spaces and system-wide revocation

    Models [src/capability/mod.rs].  The two globals [NEXT_ID] and
    [REVOCATION_TREE] are the record [Globals]; the capability spaces of all
    processes (the [capabilities] field of each [Process], reached through
    [with_process_mut]) are a finite map from process id to space.  A whole
    configuration is a [Kernel].  [get_all_descendants] is recursive over a
    tree built at run time, so it takes fuel: [None] is a call that does not
    return.  The theorems show that on every reachable kernel it does return,
    and that global revocation removes exactly the token and its
    descendants. *)

From S2P Require Import Prelude.

Module Capability.

Abbreviation CapabilityId := Z (only parsing).
Abbreviation Pid := Z (only parsing).

(** What the capability grants access to. *)
Inductive ResourceKind :=
| Memory
| File
| Network
| DeviceIo
| ProcessCreate
| AbiPlugin
| ProcessDebug
| IpcChannel
| ZiqaFsMount.

#[global] Instance ResourceKind_eq_dec : EqDecision ResourceKind.
Proof. solve_decision. Defined.

(** Permission bits within a capability. *)
Record Permissions := mkPermissions {
  read : bool;
  write : bool;
  execute : bool;
  delegate : bool
}.

Definition read_only : Permissions := mkPermissions true false false false.

Definition read_write : Permissions := mkPermissions true true false false.

Definition full : Permissions := mkPermissions true true true true.

Record CapabilityToken := mkToken {
  id : CapabilityId;
  parent_id : option CapabilityId;
  resource : ResourceKind;
  permissions : Permissions;
  target : Z
}.

(** [CapabilityToken::allows]: the early returns in the order of the code. *)
Definition allows (self : CapabilityToken) (r : ResourceKind)
    (needs_write needs_exec : bool) : bool :=
  if decide (resource self <> r) then false
  else if needs_write && negb (write (permissions self)) then false
  else if needs_exec && negb (execute (permissions self)) then false
  else true.

(** A process's capability space: the tokens it holds, oldest first. *)
Abbreviation CapabilitySpace := (list CapabilityToken) (only parsing).

(** Maps a parent id to its direct children, in the order they were added. *)
Abbreviation RevocationTree := (gmap CapabilityId (list CapabilityId)) (only parsing).

Record Globals := mkGlobals {
  NEXT_ID : Z;
  REVOCATION_TREE : gmap CapabilityId (list CapabilityId)
}.

Definition initial : Globals := mkGlobals 1 ∅.

Definition alloc_id (g : Globals) : CapabilityId * Globals :=
  (NEXT_ID g, mkGlobals (NEXT_ID g + 1) (REVOCATION_TREE g)).

(** [entry(parent).or_insert_with(Vec::new).push(child)] *)
Definition add_child (parent child : CapabilityId)
    (t : RevocationTree) : RevocationTree :=
  <[parent := default [] (t !! parent) ++ [child]]> t.

Definition remove_node (i : CapabilityId) (t : RevocationTree) : RevocationTree :=
  delete i t.

(** The loop of [get_all_descendants] over the direct children: depth-first,
    pre-order, each child pushed before its own descendants.  [rec] is the
    recursive call. *)
Definition visit_kids
    (rec : CapabilityId -> list CapabilityId -> option (list CapabilityId)) :=
  fix go (kids out : list CapabilityId) : option (list CapabilityId) :=
    match kids with
    | [] => Some out
    | kid :: kids' => out' ← rec kid (out ++ [kid]); go kids' out'
    end.

Fixpoint get_all_descendants (fuel : nat) (t : RevocationTree)
    (i : CapabilityId) (out : list CapabilityId) : option (list CapabilityId) :=
  match fuel with
  | O => None
  | S fuel' =>
      match t !! i with
      | None => Some out
      | Some kids => visit_kids (get_all_descendants fuel' t) kids out
      end
  end.

(** [CapabilitySpace::grant] on the space [self]. *)
Definition grant (g : Globals) (self : CapabilitySpace) (r : ResourceKind)
    (p : Permissions) (tgt : Z) (parent : option CapabilityId)
    : option CapabilityId * CapabilitySpace * Globals :=
  let '(i, g1) := alloc_id g in
  let token := mkToken i parent r p tgt in
  let g2 := match parent with
            | Some pid => mkGlobals (NEXT_ID g1) (add_child pid i (REVOCATION_TREE g1))
            | None => g1
            end in
  (Some i, self ++ [token], g2).

(** [iter().position] finds the first token with this id; [Vec::remove]
    closes the gap. *)
Definition revoke_local (self : CapabilitySpace) (i : CapabilityId)
    : bool * CapabilitySpace :=
  match list_find (fun cap => id cap = i) self with
  | Some (pos, _) => (true, delete pos self)
  | None => (false, self)
  end.

Definition lookup (self : CapabilitySpace) (i : CapabilityId) : option CapabilityToken :=
  snd <$> list_find (fun cap => id cap = i) self.

Definition has_permission (self : CapabilitySpace) (r : ResourceKind)
    (needs_write needs_exec : bool) : bool :=
  existsb (fun cap => allows cap r needs_write needs_exec) self.

(** The globals with the capability space of every process of the table. *)
Record Kernel := mkKernel {
  globals : Globals;
  procs : gmap Pid (list CapabilityToken)
}.

(** [scheduler::list_pids]: the keys of the process [BTreeMap], ascending. *)
Definition list_pids {A} (m : gmap Pid A) : list Pid :=
  merge_sort Z.le (elements (dom m)).

(** The closure [revoke_global] runs on one process: every doomed id is
    revoked from its space. *)
Definition revoke_all (doomed : list CapabilityId) (sp : CapabilitySpace) : CapabilitySpace :=
  foldl (fun s i => snd (revoke_local s i)) sp doomed.

(** [CapabilitySpace::revoke_global]. *)
Definition revoke_global (fuel : nat) (k : Kernel) (i : CapabilityId) : option Kernel :=
  let g := globals k in
  match get_all_descendants fuel (REVOCATION_TREE g) i [] with
  | None => None
  | Some ds =>
      let doomed := ds ++ [i] in
      let procs' := foldl (fun m pid => alter (revoke_all doomed) pid m)
                      (procs k) (list_pids (procs k)) in
      let tree' := foldl (fun t d => remove_node d t) (REVOCATION_TREE g) doomed in
      Some (mkKernel (mkGlobals (NEXT_ID g) tree') procs')
  end.

(** The [ZIQA_CAP_REVOKE] system call of process [pid]
    ([ziqa_cap_revoke], [src/abi/syscall.rs]): only a holder may revoke.
    [u64::MAX] is [-EPERM]. *)
Definition ziqa_cap_revoke (fuel : nat) (k : Kernel) (pid : Pid) (i : CapabilityId)
    : option (Z * Kernel) :=
  match procs k !! pid with
  | None => None
  | Some sp =>
      match lookup sp i with
      | Some _ => k' ← revoke_global fuel k i; Some (0, k')
      | None => Some (wrap 64 (-1), k)
      end
  end.

(** ** Specification: descendants and well-formed kernels *)

Definition child (t : RevocationTree) (p c : CapabilityId) : Prop :=
  exists kids, t !! p = Some kids /\ c ∈ kids.

(** [c] was granted from [p] through one or more grants. *)
Definition descendant (t : RevocationTree) : relation CapabilityId := tc (child t).

(** Children are younger than their parents, ids within a space are distinct
    and already issued, and a token with a parent is recorded in the tree. *)
Record kernel_ok (k : Kernel) : Prop := {
  ok_tree : forall p c, child (REVOCATION_TREE (globals k)) p c ->
    p < c < NEXT_ID (globals k);
  ok_nodup : forall pid sp, procs k !! pid = Some sp -> NoDup (id <$> sp);
  ok_issued : forall pid sp c, procs k !! pid = Some sp -> c ∈ sp ->
    id c < NEXT_ID (globals k);
  ok_linked : forall pid sp c p, procs k !! pid = Some sp -> c ∈ sp ->
    parent_id c = Some p -> child (REVOCATION_TREE (globals k)) p (id c)
}.

(** ** Traversal of the revocation tree *)

Lemma visit_kids_spec (t : RevocationTree) rec kids out :
  (forall kid out, kid ∈ kids ->
     exists ds, rec kid out = Some (out ++ ds) /\ forall c, c ∈ ds <-> descendant t kid c) ->
  exists ds, visit_kids rec kids out = Some (out ++ ds) /\
    forall c, c ∈ ds <-> exists kid, kid ∈ kids /\ (c = kid \/ descendant t kid c).
Proof.
  revert out. induction kids as [|kid kids IH]; intros out Hrec; simpl.
  - exists []. rewrite app_nil_r. split; [done|]. set_solver.
  - destruct (Hrec kid (out ++ [kid])) as (ds1 & -> & Hds1); [set_solver|]. simpl.
    destruct (IH ((out ++ [kid]) ++ ds1)) as (ds2 & -> & Hds2); [set_solver|].
    exists ([kid] ++ ds1 ++ ds2). split; [by rewrite <-!app_assoc|].
    intros c. rewrite !elem_of_app, list_elem_of_singleton, Hds1, Hds2.
    setoid_rewrite elem_of_cons. naive_solver.
Qed.

Lemma descendant_unfold t i c :
  descendant t i c <-> exists kid, child t i kid /\ (c = kid \/ descendant t kid c).
Proof.
  unfold descendant. split.
  - intros H. inversion H; subst; eauto.
  - intros (kid & Hc & [->|Hd]); [by apply tc_once|]. by eapply tc_l.
Qed.

Lemma get_all_descendants_spec next t :
  (forall p c, child t p c -> p < c < next) ->
  forall fuel i out, (Z.to_nat (next - i) < fuel)%nat ->
  exists ds, get_all_descendants fuel t i out = Some (out ++ ds) /\
    forall c, c ∈ ds <-> descendant t i c.
Proof.
  intros Hok. induction fuel as [|fuel IH]; intros i out Hf; [lia|]. simpl.
  destruct (t !! i) as [kids|] eqn:Hi.
  - destruct (visit_kids_spec t (get_all_descendants fuel t) kids out) as (ds & Hv & Hds).
    { intros kid out' Hkid. apply IH. destruct (Hok i kid); [by exists kids|]. lia. }
    exists ds. split; [done|]. intros c. rewrite Hds, descendant_unfold.
    split; [|intros (kid & (? & ? & ?) & ?); simplify_eq; by eauto].
    intros (kid & ? & ?). exists kid. split; [by exists kids|done].
  - exists []. rewrite app_nil_r. split; [done|]. intros c.
    split; [set_solver|]. intros (kid & (? & ? & ?) & _)%descendant_unfold. congruence.
Qed.

(** ** Spaces *)

Lemma revoke_local_elem sp i c :
  NoDup (id <$> sp) -> c ∈ snd (revoke_local sp i) <-> c ∈ sp /\ id c <> i.
Proof.
  intros Hnd. unfold revoke_local.
  destruct (list_find _ sp) as [[pos x]|] eqn:Hf; simpl.
  - apply list_find_Some in Hf as (Hl & <- & _).
    by apply elem_of_delete_nodup.
  - apply list_find_None in Hf. rewrite Forall_forall in Hf. naive_solver.
Qed.

Lemma revoke_local_sublist sp i : sublist (snd (revoke_local sp i)) sp.
Proof.
  unfold revoke_local. destruct (list_find _ sp) as [[pos x]|]; simpl; [|done].
  apply sublist_delete.
Qed.

Lemma revoke_all_sublist ds sp : sublist (revoke_all ds sp) sp.
Proof.
  revert sp. induction ds as [|d ds IH]; intros sp; [done|]. unfold revoke_all in *. simpl.
  etrans; [apply IH|]. apply revoke_local_sublist.
Qed.

Lemma NoDup_ids_sublist sp sp' : sublist sp' sp -> NoDup (id <$> sp) -> NoDup (id <$> sp').
Proof. intros Hs Hnd. eapply sublist_NoDup; [done|]. by apply fmap_sublist. Qed.

Lemma revoke_all_elem ds sp c :
  NoDup (id <$> sp) -> c ∈ revoke_all ds sp <-> c ∈ sp /\ id c ∉ ds.
Proof.
  revert sp. induction ds as [|d ds IH]; intros sp Hnd; unfold revoke_all in *; simpl.
  - set_solver.
  - rewrite IH, revoke_local_elem by eauto using NoDup_ids_sublist, revoke_local_sublist.
    set_solver.
Qed.

Lemma lookup_None sp i : lookup sp i = None <-> forall c, c ∈ sp -> id c <> i.
Proof.
  unfold lookup. rewrite fmap_None, list_find_None, Forall_forall. done.
Qed.

(** ** Global revocation *)

(** The fuel that suffices to walk the tree below [i]: one call per id that
    was issued after [i]. *)
Definition enough (k : Kernel) (i : CapabilityId) : nat :=
  S (Z.to_nat (NEXT_ID (globals k) - i)).

Lemma elem_of_list_pids {A} (m : gmap Pid A) pid : pid ∈ list_pids m <-> is_Some (m !! pid).
Proof.
  unfold list_pids. rewrite merge_sort_Permutation, elem_of_elements. apply elem_of_dom.
Qed.

Lemma NoDup_list_pids {A} (m : gmap Pid A) : NoDup (list_pids m).
Proof. unfold list_pids. rewrite merge_sort_Permutation. apply NoDup_elements. Qed.

Lemma revoke_everywhere_lookup ds (m : gmap Pid (list CapabilityToken)) pid :
  foldl (fun m pid => alter (revoke_all ds) pid m) m (list_pids m) !! pid
  = revoke_all ds <$> m !! pid.
Proof.
  rewrite foldl_alter_fmap by apply NoDup_list_pids. rewrite map_lookup_imap.
  destruct (m !! pid) as [sp|] eqn:Hp; simpl; [|done].
  rewrite decide_True; [done|]. apply elem_of_list_pids. eauto.
Qed.

(** What [revoke_global] computes on a well-formed kernel. *)
Lemma revoke_global_inv k i fuel :
  kernel_ok k -> (enough k i <= fuel)%nat ->
  exists ds k', revoke_global fuel k i = Some k' /\
    (forall c, c ∈ ds ++ [i] <-> c = i \/ descendant (REVOCATION_TREE (globals k)) i c) /\
    (forall pid, procs k' !! pid = revoke_all (ds ++ [i]) <$> procs k !! pid) /\
    NEXT_ID (globals k') = NEXT_ID (globals k) /\
    (forall p, REVOCATION_TREE (globals k') !! p
       = if decide (p ∈ ds ++ [i]) then None else REVOCATION_TREE (globals k) !! p).
Proof.
  intros Hok Hfuel. unfold enough in Hfuel.
  destruct (get_all_descendants_spec _ _ (ok_tree k Hok) fuel i []) as (ds & Hds & Hin); [lia|].
  eexists ds, _. unfold revoke_global. rewrite Hds. split; [done|]. simpl.
  split; [|split; [apply revoke_everywhere_lookup|split; [done|apply foldl_delete_lookup]]].
  intros c. rewrite elem_of_app, list_elem_of_singleton, Hin. tauto.
Qed.

Lemma child_survives k i (ds : list CapabilityId) (t' : RevocationTree) p c :
  (forall c, c ∈ ds <-> c = i \/ descendant (REVOCATION_TREE (globals k)) i c) ->
  (forall p, t' !! p = if decide (p ∈ ds) then None else REVOCATION_TREE (globals k) !! p) ->
  child (REVOCATION_TREE (globals k)) p c -> c ∉ ds -> child t' p c.
Proof.
  intros Hin Ht (kids & Hp & Hc) Hnc. exists kids. split; [|done].
  rewrite Ht, decide_False; [done|]. rewrite Hin. intros [->|Hd].
  - apply Hnc. rewrite Hin, descendant_unfold. right. exists c. split; [by exists kids|auto].
  - apply Hnc. rewrite Hin. right. eapply tc_r; [done|]. by exists kids.
Qed.

Lemma revoke_global_ok k i fuel k' :
  kernel_ok k -> (enough k i <= fuel)%nat -> revoke_global fuel k i = Some k' -> kernel_ok k'.
Proof.
  intros Hok Hfuel Hr.
  destruct (revoke_global_inv k i fuel Hok Hfuel) as (ds & ? & Hr' & Hin & Hp & Hn & Ht).
  simplify_eq.
  split.
  - intros p c (kids & Hk & Hc). rewrite Ht in Hk. case_decide; [done|].
    rewrite Hn. apply (ok_tree k Hok). by exists kids.
  - intros pid sp. rewrite Hp. intros (sp0 & Hsp & ->)%fmap_Some.
    eapply NoDup_ids_sublist; [apply revoke_all_sublist|]. by eapply (ok_nodup k Hok).
  - intros pid sp c. rewrite Hp, Hn. intros (sp0 & Hsp & ->)%fmap_Some Hc.
    eapply (ok_issued k Hok); [done|].
    eapply revoke_all_elem; [|done]. by eapply (ok_nodup k Hok).
  - intros pid sp c p. rewrite Hp. intros (sp0 & Hsp & ->)%fmap_Some Hc Hpar.
    apply revoke_all_elem in Hc as [Hc Hnd]; [|by eapply (ok_nodup k Hok)].
    eapply child_survives; [done..| |done]. by eapply (ok_linked k Hok).
Qed.

(** C1. System-wide revocation is exact: on a well-formed kernel,
    [revoke_global i] returns (the recursive walk of the revocation tree
    terminates), and afterwards every process of the table holds exactly the
    tokens it held before other than [i] and the tokens granted, directly or
    through any chain of grants, from [i]; their order is unchanged and no
    process appears or disappears.  The tree has lost the nodes of [i] and of
    its descendants, with their lists of children, and kept every other node
    as it was, so that [i] stays in the list of its own parent; no id is given
    back. *)
Theorem revoke_global_exact k i fuel :
  kernel_ok k -> (enough k i <= fuel)%nat ->
  let doomed c := c = i \/ descendant (REVOCATION_TREE (globals k)) i c in
  exists k', revoke_global fuel k i = Some k' /\
    dom (procs k') = dom (procs k) /\
    (forall pid sp, procs k !! pid = Some sp ->
     exists sp', procs k' !! pid = Some sp' /\ sublist sp' sp /\ forall c, c ∈ sp' <-> c ∈ sp /\ ~ doomed (id c)) /\
    (forall p, doomed p -> REVOCATION_TREE (globals k') !! p = None) /\
    (forall p, ~ doomed p -> REVOCATION_TREE (globals k') !! p = REVOCATION_TREE (globals k) !! p) /\
    NEXT_ID (globals k') = NEXT_ID (globals k).
Proof.
  intros Hok Hfuel doomed.
  destruct (revoke_global_inv k i fuel Hok Hfuel) as (ds & k' & Hr & Hin & Hp & Hn & Ht).
  exists k'. split; [done|]. split.
  { apply set_eq. intros pid. rewrite !elem_of_dom, Hp. apply fmap_is_Some. }
  split.
  - intros pid sp Hsp. exists (revoke_all (ds ++ [i]) sp).
    rewrite Hp, Hsp. split; [done|]. split; [apply revoke_all_sublist|].
    intros c. rewrite revoke_all_elem by (by eapply (ok_nodup k Hok)). by rewrite Hin.
  - split_and!; [| |done]; intros p Hd; rewrite Ht; [rewrite decide_True|rewrite decide_False]; [done| |done|]; by rewrite Hin.
Qed.

(** ** Reachable kernels *)

(** The transitions the kernel makes on capability state: a process enters the
    table with an empty space ([Process::new]) and leaves it; a process is
    granted a token, a parent being an id that was issued before; a process
    drops a token; a process makes the revocation system call. *)
Inductive step : Kernel -> Kernel -> Prop :=
| step_spawn k pid :
    procs k !! pid = None ->
    step k (mkKernel (globals k) (<[pid := []]> (procs k)))
| step_reap k pid :
    step k (mkKernel (globals k) (delete pid (procs k)))
| step_grant k pid sp r p tgt parent i sp' g' :
    procs k !! pid = Some sp ->
    (forall q, parent = Some q -> q < NEXT_ID (globals k)) ->
    grant (globals k) sp r p tgt parent = (i, sp', g') ->
    step k (mkKernel g' (<[pid := sp']> (procs k)))
| step_drop k pid sp i :
    procs k !! pid = Some sp ->
    step k (mkKernel (globals k) (<[pid := snd (revoke_local sp i)]> (procs k)))
| step_revoke k pid i fuel r k' :
    ziqa_cap_revoke fuel k pid i = Some (r, k') ->
    step k k'.

Definition boot : Kernel := mkKernel initial ∅.

Lemma visit_kids_mono rec rec' kids out r :
  (forall kid out r, rec kid out = Some r -> rec' kid out = Some r) ->
  visit_kids rec kids out = Some r -> visit_kids rec' kids out = Some r.
Proof.
  intros Hrec. revert out. induction kids as [|kid kids IH]; intros out; simpl; [done|].
  intros (out' & Hk & Hv)%bind_Some. rewrite (Hrec _ _ _ Hk). simpl. by apply IH.
Qed.

Lemma get_all_descendants_mono t fuel fuel' i out r :
  get_all_descendants fuel t i out = Some r -> (fuel <= fuel')%nat ->
  get_all_descendants fuel' t i out = Some r.
Proof.
  revert fuel' i out r. induction fuel as [|fuel IH]; intros [|fuel'] i out r H Hle;
    simpl in *; try done; [lia|].
  destruct (t !! i); [|done]. eapply visit_kids_mono; [|done].
  intros kid o r' Hk. apply IH; [done|lia].
Qed.

Lemma revoke_global_mono fuel fuel' k i k' :
  revoke_global fuel k i = Some k' -> (fuel <= fuel')%nat -> revoke_global fuel' k i = Some k'.
Proof.
  unfold revoke_global. intros H Hle.
  destruct (get_all_descendants fuel _ _ _) as [ds|] eqn:Hd; [|done].
  by rewrite (get_all_descendants_mono _ _ fuel' _ _ _ Hd Hle).
Qed.

Lemma child_add t q j p c :
  child (add_child q j t) p c <-> child t p c \/ (p = q /\ c = j).
Proof.
  unfold child, add_child. destruct (decide (p = q)) as [->|Hne].
  - rewrite lookup_insert_eq. split.
    + intros (? & [= <-] & [Hc|Hc%list_elem_of_singleton]%elem_of_app); [|auto].
      destruct (t !! q); simpl in Hc; [eauto|set_solver].
    + intros [(kids & -> & Hc)|[_ ->]]; eexists; (split; [done|]); simpl; set_solver.
  - rewrite lookup_insert_ne by done. naive_solver.
Qed.

Lemma grant_inv g sp r p tgt parent i sp' g' :
  grant g sp r p tgt parent = (i, sp', g') ->
  i = Some (NEXT_ID g) /\ sp' = sp ++ [mkToken (NEXT_ID g) parent r p tgt] /\
  NEXT_ID g' = NEXT_ID g + 1 /\
  forall q c, child (REVOCATION_TREE g') q c
    <-> child (REVOCATION_TREE g) q c \/ (parent = Some q /\ c = NEXT_ID g).
Proof.
  unfold grant, alloc_id. intros H. destruct parent as [q|]; simplify_eq/=;
    (split_and!; [done..|]); intros q0 c; [rewrite child_add|]; naive_solver.
Qed.

Lemma grant_ok k pid sp r p tgt parent i sp' g' :
  kernel_ok k -> procs k !! pid = Some sp ->
  (forall q, parent = Some q -> q < NEXT_ID (globals k)) ->
  grant (globals k) sp r p tgt parent = (i, sp', g') ->
  kernel_ok (mkKernel g' (<[pid := sp']> (procs k))).
Proof.
  intros Hok Hsp Hpar (-> & -> & Hn & Hchild)%grant_inv.
  split; simpl; rewrite ?Hn.
  - intros q c [Hc|[Hp ->]]%Hchild; [|specialize (Hpar _ Hp); lia].
    pose proof (ok_tree k Hok _ _ Hc). lia.
  - intros pid' sp0. rewrite lookup_insert. case_decide; [|by apply (ok_nodup k Hok)].
    intros [= <-]. rewrite fmap_app. simpl. apply NoDup_app.
    split; [by eapply (ok_nodup k Hok)|]. split; [|apply NoDup_singleton].
    intros x (c & -> & Hc)%list_elem_of_fmap Hx%list_elem_of_singleton.
    pose proof (ok_issued k Hok _ _ _ Hsp Hc). lia.
  - intros pid' sp0 c. rewrite lookup_insert. case_decide.
    + intros [= <-] [Hc| ->%list_elem_of_singleton]%elem_of_app; simpl; [|lia].
      pose proof (ok_issued k Hok _ _ _ Hsp Hc). lia.
    + intros Hs Hc. pose proof (ok_issued k Hok _ _ _ Hs Hc). lia.
  - intros pid' sp0 c q. rewrite lookup_insert, Hchild. case_decide.
    + intros [= <-] [Hc| ->%list_elem_of_singleton]%elem_of_app; simpl; [|by auto].
      intros. left. by eapply (ok_linked k Hok).
    + intros Hs Hc Hq. left. by eapply (ok_linked k Hok).
Qed.

(** Replacing the spaces of some processes by part of themselves. *)
Lemma shrink_ok k m :
  kernel_ok k ->
  (forall pid sp, m !! pid = Some sp ->
     sp = [] \/ exists sp0, procs k !! pid = Some sp0 /\ sublist sp sp0) ->
  kernel_ok (mkKernel (globals k) m).
Proof.
  intros Hok Hm.
  assert (Hc : forall pid sp c, m !! pid = Some sp -> c ∈ sp ->
    exists sp0, procs k !! pid = Some sp0 /\ c ∈ sp0).
  { intros pid sp c Hs Hc. destruct (Hm _ _ Hs) as [->|(sp0 & ? & Hsub)]; [set_solver|].
    exists sp0. split; [done|]. eapply elem_of_sublist; eauto. }
  split; simpl.
  - apply (ok_tree k Hok).
  - intros pid sp Hs. destruct (Hm _ _ Hs) as [->|(sp0 & ? & Hsub)]; [constructor|].
    eapply NoDup_ids_sublist; [done|]. by eapply (ok_nodup k Hok).
  - intros pid sp c Hs Hin. destruct (Hc _ _ _ Hs Hin) as (? & ? & ?).
    by eapply (ok_issued k Hok).
  - intros pid sp c q Hs Hin. destruct (Hc _ _ _ Hs Hin) as (? & ? & ?).
    by eapply (ok_linked k Hok).
Qed.

Lemma revoke_step_ok k pid i fuel r k' :
  kernel_ok k -> ziqa_cap_revoke fuel k pid i = Some (r, k') -> kernel_ok k'.
Proof.
  intros Hok H. unfold ziqa_cap_revoke in H.
  destruct (procs k !! pid) as [sp|]; [|done].
  destruct (lookup sp i); simplify_eq; [|done].
  apply bind_Some in H as (k1 & Hr & ?). simplify_eq.
  eapply (revoke_global_ok k i (fuel `max` enough k i)); [done|lia|].
  eapply revoke_global_mono; [done|lia].
Qed.

Lemma caps_step_ok k k' : kernel_ok k -> step k k' -> kernel_ok k'.
Proof.
  intros Hok Hstep. destruct Hstep.
  - apply shrink_ok; [done|]. intros pid' sp. rewrite lookup_insert.
    case_decide; naive_solver.
  - apply shrink_ok; [done|]. intros pid' sp. rewrite lookup_delete.
    case_decide; naive_solver.
  - by eapply grant_ok.
  - apply shrink_ok; [done|]. intros pid' sp0. rewrite lookup_insert.
    case_decide; [|naive_solver]. intros [= <-]. right. subst.
    eauto using revoke_local_sublist.
  - by eapply revoke_step_ok.
Qed.

Lemma caps_boot_ok : kernel_ok boot.
Proof.
  split; simpl.
  - intros p c (kids & H & _). by rewrite lookup_empty in H.
  - intros pid sp H. by rewrite lookup_empty in H.
  - intros pid sp c H. by rewrite lookup_empty in H.
  - intros pid sp c p H. by rewrite lookup_empty in H.
Qed.

Lemma steps_ok k k' : kernel_ok k -> rtc step k k' -> kernel_ok k'.
Proof. intros Hok Hs. induction Hs; eauto using caps_step_ok. Qed.

(** C2. Capability integrity is invariant: in every kernel reachable from boot
    by spawning, reaping, granting, dropping and revoking, a process never
    holds two tokens with one id, holds only ids the kernel has issued, every
    derived token is linked to its parent in the revocation tree, and the tree
    is acyclic because a child is always younger than its parent. *)
Theorem reachable_kernel_ok k : rtc step boot k -> kernel_ok k.
Proof. apply steps_ok, caps_boot_ok. Qed.

(** The revocation system call on a well-formed kernel: a caller that
    holds the token gets 0 and from then on no process can look up that id or
    the id of any token derived from it; a caller that does not hold it gets
    [-EPERM] and nothing changes. *)
Theorem ziqa_cap_revoke_spec k pid sp i fuel :
  kernel_ok k -> procs k !! pid = Some sp -> (enough k i <= fuel)%nat ->
  exists r k', ziqa_cap_revoke fuel k pid i = Some (r, k') /\
    if lookup sp i is Some _
    then r = 0 /\
      (forall pid' sp' c, procs k' !! pid' = Some sp' ->
         c = i \/ descendant (REVOCATION_TREE (globals k)) i c -> lookup sp' c = None)
    else r = wrap 64 (-1) /\ k' = k.
Proof.
  intros Hok Hsp Hfuel. unfold ziqa_cap_revoke. rewrite Hsp.
  destruct (lookup sp i) as [tk|] eqn:Hl; [|by eauto].
  destruct (revoke_global_inv k i fuel Hok Hfuel) as (ds & k' & Hr & Hin & Hp & _).
  exists 0, k'. rewrite Hr. split; [done|]. split; [done|].
  intros pid' sp' c. rewrite Hp. intros (sp0 & Hs & ->)%fmap_Some Hc.
  apply lookup_None. intros tok Ht.
  apply revoke_all_elem in Ht as [_ Hn]; [|by eapply (ok_nodup k Hok)].
  intros <-. apply Hn, Hin, Hc.
Qed.

(** ** Permission checks *)

(** The token without its [read] bit. *)
Definition clear_read (c : CapabilityToken) : CapabilityToken :=
  let p := permissions c in
  mkToken (id c) (parent_id c) (resource c)
    (mkPermissions false (write p) (execute p) (delegate p)) (target c).

Lemma allows_iff c r w x :
  allows c r w x = true <->
  resource c = r /\ (w = true -> write (permissions c) = true)
  /\ (x = true -> execute (permissions c) = true).
Proof.
  unfold allows. case_decide; [naive_solver|]. 
  destruct w, x, (write (permissions c)), (execute (permissions c)); naive_solver.
Qed.

(** What a permission check decides: it succeeds exactly when the space
    holds a token of that resource kind with the write and execute bits the
    caller asked for.  The [read] bit takes no part in it: clearing the bit in
    every token held changes no answer, so a read check accepts tokens that do
    not grant reading. *)
Theorem has_permission_spec sp r w x :
  (has_permission sp r w x = true <->
   exists c, c ∈ sp /\ resource c = r /\
     (w = true -> write (permissions c) = true) /\
     (x = true -> execute (permissions c) = true)) /\
  has_permission (clear_read <$> sp) r w x = has_permission sp r w x.
Proof.
  unfold has_permission. split.
  - rewrite existsb_exists. setoid_rewrite list_elem_of_In.
    by setoid_rewrite allows_iff.
  - induction sp as [|c sp IH]; [done|]. rewrite fmap_cons. cbn [existsb]. by rewrite IH.
Qed.

(** ** A concrete run

    Processes 1, 2 and 3; process 1 is granted token 1, process 2 token 2
    derived from it and token 3 of its own, process 3 token 4 derived from
    token 2. *)
Definition demo_spawned : Kernel :=
  mkKernel initial (<[3 := []]> (<[2 := []]> (<[1 := []]> ∅))).

Definition grant_in (k : Kernel) (pid : Pid) (r : ResourceKind)
    (parent : option CapabilityId) : Kernel :=
  match procs k !! pid with
  | Some sp =>
      let '(_, sp', g') := grant (globals k) sp r full 0 parent in
      mkKernel g' (<[pid := sp']> (procs k))
  | None => k
  end.

Definition demo : Kernel :=
  grant_in (grant_in (grant_in (grant_in demo_spawned 1 File None)
    2 File (Some 1)) 2 Network None) 3 File (Some 2).

Lemma grant_in_step k pid r parent :
  is_Some (procs k !! pid) ->
  (forall q, parent = Some q -> q < NEXT_ID (globals k)) -> step k (grant_in k pid r parent).
Proof.
  intros [sp Hsp] Hpar. unfold grant_in. rewrite Hsp.
  destruct (grant _ _ _ _ _ _) as [[i sp'] g'] eqn:Hg. by eapply step_grant.
Qed.

Lemma demo_reachable : rtc step boot demo.
Proof.
  eapply rtc_l; [by apply (step_spawn _ 1)|].
  eapply rtc_l; [by apply (step_spawn _ 2)|].
  eapply rtc_l; [by apply (step_spawn _ 3)|].
  eapply rtc_l; [apply (grant_in_step _ 1 File None); [by eexists|done]|].
  eapply rtc_l; [apply (grant_in_step _ 2 File (Some 1)); [by eexists|by intros ? [= <-]]|].
  eapply rtc_l; [apply (grant_in_step _ 2 Network None); [by eexists|done]|].
  eapply rtc_l; [apply (grant_in_step _ 3 File (Some 2)); [by eexists|by intros ? [= <-]]|].
  reflexivity.
Qed.

Lemma caps_demo_ok : kernel_ok demo.
Proof. eapply steps_ok; [apply caps_boot_ok|apply demo_reachable]. Qed.

(** Revoking token 1 leaves process 2 its own token only and process 3 none. *)
Example demo_revoked :
  option_map (fun k => map (fun pid => option_map (map id) (procs k !! pid)) [1; 2; 3])
    (revoke_global 9 demo 1)
  = Some [Some []; Some [3]; Some []].
Proof. vm_compute. reflexivity. Qed.

Lemma revoke_global_exact_witness :
  exists k', revoke_global 9 demo 1 = Some k' /\ dom (procs k') = dom (procs demo) /\ REVOCATION_TREE (globals k') !! 1 = None.
Proof.
  destruct (revoke_global_exact demo 1 9 caps_demo_ok) as (k' & Hr & Hd & _ & Ht & _).
  - vm_compute. lia.
  - exists k'. split; [exact Hr|]. split; [exact Hd|]. apply Ht. by left.
Defined.

Lemma reachable_kernel_ok_witness : kernel_ok demo.
Proof. exact (reachable_kernel_ok demo demo_reachable). Defined.

Lemma ziqa_cap_revoke_spec_witness :
  exists sp r k', procs demo !! 1 = Some sp /\ ziqa_cap_revoke 9 demo 1 1 = Some (r, k').
Proof.
  destruct (ziqa_cap_revoke_spec demo 1 [mkToken 1 None File full 0] 1 9 caps_demo_ok)
    as (r & k' & H & _).
  - vm_compute. reflexivity.
  - vm_compute. lia.
  - exists [mkToken 1 None File full 0], r, k'. split; [vm_compute; reflexivity|exact H].
Defined.

End Capability.
