(* ===== verification/EbpfIsa.v ===== *)
(** * eBPF: instruction format and opcodes

    Models [src/ebpf/mod.rs].  An instruction keeps the four fields of the
    8-byte format; [off] and [imm] are signed.  The opcode constants of module
    [op] are [op_code], and [decode] is the match the interpreter makes on
    them. *)

From S2P Require Import Prelude.

Module Ebpf.

Record BpfInstruction := mkInsn {
  code : Z;   (* u8 *)
  regs : Z;   (* u8: dst in the low nibble, src in the high nibble *)
  off : Z;    (* i16 *)
  imm : Z     (* i32 *)
}.

Definition dst_reg (i : BpfInstruction) : Z := Z.land (regs i) 0x0F.

Definition src_reg (i : BpfInstruction) : Z := Z.land (Z.shiftr (regs i) 4) 0x0F.

Inductive Opcode :=
| ALU_ADD | ALU_SUB | ALU_MUL | ALU_DIV | ALU_AND | ALU_OR | ALU_XOR | ALU_LSH | ALU_RSH
| ALU_ADD_X | ALU_SUB_X | ALU_MUL_X | ALU_DIV_X | ALU_AND_X | ALU_OR_X | ALU_XOR_X
| ALU_LSH_X | ALU_RSH_X
| JMP_JA | JMP_JEQ | JMP_JNE | JMP_JGT | JMP_JGE
| JMP_JEQ_X | JMP_JNE_X | JMP_JGT_X | JMP_JGE_X
| RET | MOV | MOV_X | CALL | LD_IMM_64
| LDX_W | LDX_DW | STX_W | STX_DW | ST_W | ST_DW.

#[global] Instance Opcode_eq_dec : EqDecision Opcode.
Proof. solve_decision. Defined.

(** The constants of module [op]. *)
Definition op_code (o : Opcode) : Z :=
  match o with
  | ALU_ADD => 0x07 | ALU_SUB => 0x17 | ALU_MUL => 0x27 | ALU_DIV => 0x37
  | ALU_AND => 0x57 | ALU_OR => 0x47 | ALU_XOR => 0xa7 | ALU_LSH => 0x67 | ALU_RSH => 0x77
  | ALU_ADD_X => 0x0f | ALU_SUB_X => 0x1f | ALU_MUL_X => 0x2f | ALU_DIV_X => 0x3f
  | ALU_AND_X => 0x5f | ALU_OR_X => 0x4f | ALU_XOR_X => 0xaf | ALU_LSH_X => 0x6f
  | ALU_RSH_X => 0x7f
  | JMP_JA => 0x05 | JMP_JEQ => 0x15 | JMP_JNE => 0x55 | JMP_JGT => 0x25 | JMP_JGE => 0x35
  | JMP_JEQ_X => 0x1d | JMP_JNE_X => 0x5d | JMP_JGT_X => 0x2d | JMP_JGE_X => 0x3d
  | RET => 0x95 | MOV => 0xb7 | MOV_X => 0xbf | CALL => 0x85 | LD_IMM_64 => 0x18
  | LDX_W => 0x61 | LDX_DW => 0x79 | STX_W => 0x63 | STX_DW => 0x7b
  | ST_W => 0x62 | ST_DW => 0x7a
  end.

Definition all_opcodes : list Opcode :=
  [ALU_ADD; ALU_SUB; ALU_MUL; ALU_DIV; ALU_AND; ALU_OR; ALU_XOR; ALU_LSH; ALU_RSH;
   ALU_ADD_X; ALU_SUB_X; ALU_MUL_X; ALU_DIV_X; ALU_AND_X; ALU_OR_X; ALU_XOR_X;
   ALU_LSH_X; ALU_RSH_X; JMP_JA; JMP_JEQ; JMP_JNE; JMP_JGT; JMP_JGE;
   JMP_JEQ_X; JMP_JNE_X; JMP_JGT_X; JMP_JGE_X; RET; MOV; MOV_X; CALL; LD_IMM_64;
   LDX_W; LDX_DW; STX_W; STX_DW; ST_W; ST_DW].

(** Which arm of the interpreter's [match insn.code] is taken; [None] is the
    catch-all arm. *)
Definition decode (c : Z) : option Opcode :=
  snd <$> list_find (fun o => op_code o = c) all_opcodes.

(** Helper function ids (module [helpers]). *)
Definition MAP_LOOKUP_ELEM : Z := 1.
Definition MAP_UPDATE_ELEM : Z := 2.
Definition MAP_DELETE_ELEM : Z := 3.
Definition KTIME_GET_NS : Z := 4.
Definition TRACE_PRINTK : Z := 5.
Definition GET_CURRENT_PID_TGID : Z := 6.
Definition GET_CURRENT_COMM : Z := 7.
Definition PROBE_READ : Z := 8.
Definition TAIL_CALL : Z := 9.
Definition GET_SMP_PROCESSOR_ID : Z := 10.

Inductive BpfError :=
| VerificationFailed (msg : string)
| ExecutionError
| OutOfBounds
| TailCall (handle : Z).

(** ** Field and opcode facts *)

Lemma land_0xF_bound z : 0 <= Z.land z 0x0F < 16.
Proof. change 0x0F with (Z.ones 4). rewrite Z.land_ones by lia. by apply Z.mod_pos_bound. Qed.

Lemma dst_reg_bound i : 0 <= dst_reg i < 16.
Proof. apply land_0xF_bound. Qed.

Lemma src_reg_bound i : 0 <= src_reg i < 16.
Proof. apply land_0xF_bound. Qed.

(** Distinct opcodes have distinct codes, so the order of the arms of the
    interpreter's match is immaterial. *)
Lemma decode_op_code o : decode (op_code o) = Some o.
Proof. by destruct o. Qed.

Lemma decode_Some c o : decode c = Some o <-> c = op_code o.
Proof.
  split; [|intros ->; apply decode_op_code].
  unfold decode. destruct (list_find _ _) as [[n x]|] eqn:Hf; [|done].
  apply list_find_Some in Hf as (_ & <- & _). by intros [= <-].
Qed.

End Ebpf.
