(* ===== verification/EbpfVerifier.v ===== *)
(** * eBPF: the load-time verifier

    Models [src/ebpf/verifier.rs].  [verify] is the verifier's walk over the
    program; [accepts] states declaratively what an accepted program
    satisfies, and the theorems relate the two and show what acceptance does
    and does not promise. *)

From S2P Require Import Prelude Bytes EbpfIsa.

Module Verifier.
Import Ebpf.

Definition max_insns : Z := 4096.

Abbreviation Fail msg := (Err (VerificationFailed msg)).

(** Step 1: [for insn in program { if insn.code == RET { has_exit = true; break } }] *)
Definition has_exit (program : list BpfInstruction) : bool :=
  existsb (fun insn => code insn =? op_code RET) program.

(** One iteration of the walk at index [i]: an error, or the next index. *)
Definition check_insn (len i : Z) (insn : BpfInstruction) : res BpfError Z :=
  if (11 <=? dst_reg insn) || (11 <=? src_reg insn) then Fail "Invalid register index"
  else if code insn =? op_code LD_IMM_64 then
    if len <=? i + 1 then Fail "Truncated LD_IMM_64" else Ok (i + 2)
  else
    let is_jmp := Z.land (code insn) 0x07 =? 0x05 in
    let target := i + off insn + 1 in
    if is_jmp && negb (code insn =? op_code RET) && negb (code insn =? op_code CALL)
       && ((target <? 0) || (len <=? target))
    then Fail "Jump out of bounds"
    else
      let class := Z.land (code insn) 0x07 in
      if (class =? 0x01) || (class =? 0x03) || (class =? 0x02) then
        let is_stack_access :=
          if class =? 0x01 then src_reg insn =? 10 else dst_reg insn =? 10 in
        if is_stack_access then
          if (0 <? off insn) || (off insn <? -512) then Fail "Stack access out of bounds"
          else Ok (i + 1)
        else Fail "Non-stack memory access forbidden"
      else Ok (i + 1).

(** Step 2, the [while i < program.len()] walk.  Every iteration advances
    [i], so [program.len()] iterations are enough ([walk_enough]). *)
Fixpoint walk (fuel : nat) (program : list BpfInstruction) (i : Z) : res BpfError unit :=
  match fuel with
  | O => Panic
  | S fuel' =>
      if i <? zlen program then
        insn ← index program i;
        i' ← check_insn (zlen program) i insn;
        walk fuel' program i'
      else Ok tt
  end.

Definition verify (program : list BpfInstruction) : res BpfError unit :=
  if zlen program =? 0 then Fail "Empty program"
  else if max_insns <? zlen program then Fail "Program too large"
  else if negb (has_exit program) then Fail "No exit instruction found"
  else walk (S (length program)) program 0.

(** ** What acceptance means *)

(** The index after the instruction at [i]: a 64-bit load takes two slots. *)
Definition next_start (i : Z) (insn : BpfInstruction) : Z :=
  if code insn =? op_code LD_IMM_64 then i + 2 else i + 1.

(** The positions the walk visits from [i]: instruction starts, not the second
    slot of a 64-bit load. *)
Inductive starts (program : list BpfInstruction) (i : Z) : Z -> Prop :=
| starts_here : starts program i i
| starts_next insn j :
    program !! Z.to_nat i = Some insn ->
    starts program (next_start i insn) j -> starts program i j.

Definition is_jump (c : Z) : Prop :=
  Z.land c 0x07 = 0x05 /\ c <> op_code RET /\ c <> op_code CALL.

Definition is_load (c : Z) : Prop := Z.land c 0x07 = 0x01.
Definition is_store (c : Z) : Prop := Z.land c 0x07 = 0x03 \/ Z.land c 0x07 = 0x02.

(** The conditions on the instruction at a start position. *)
Record insn_ok (len i : Z) (insn : BpfInstruction) : Prop := {
  reg_ok : dst_reg insn < 11 /\ src_reg insn < 11;
  wide_ok : code insn = op_code LD_IMM_64 -> i + 1 < len;
  jump_ok : is_jump (code insn) -> 0 <= i + off insn + 1 < len;
  load_ok : is_load (code insn) -> src_reg insn = 10 /\ -512 <= off insn <= 0;
  store_ok : is_store (code insn) -> dst_reg insn = 10 /\ -512 <= off insn <= 0
}.

Definition accepts (program : list BpfInstruction) : Prop :=
  0 < zlen program <= max_insns /\
  (exists insn, insn ∈ program /\ code insn = op_code RET) /\
  forall i insn, starts program 0 i -> program !! Z.to_nat i = Some insn ->
    insn_ok (zlen program) i insn.

(** One iteration succeeds exactly on an acceptable instruction. *)
Lemma check_insn_Ok len i insn i' :
  check_insn len i insn = Ok i' <-> insn_ok len i insn /\ i' = next_start i insn.
Proof.
  assert (HL : Z.land (op_code LD_IMM_64) 7 = 0) by done.
  unfold check_insn, next_start.
  destruct (Z.leb_spec 11 (dst_reg insn)); cbn [orb];
    [split; [discriminate|intros [[[? ?] _ _ _ _] _]; lia]|].
  destruct (Z.leb_spec 11 (src_reg insn)); cbn [orb];
    [split; [discriminate|intros [[[? ?] _ _ _ _] _]; lia]|].
  destruct (Z.eqb_spec (code insn) (op_code LD_IMM_64)) as [Hc|Hc].
  { destruct (Z.leb_spec len (i + 1)).
    - split; [discriminate|]. intros [[_ Hw _ _ _] _]. specialize (Hw Hc). lia.
    - split; [|by intros [_ ->]]. intros [= <-]. split; [|done].
      split; [done|done| | |]; unfold is_jump, is_load, is_store; rewrite Hc, HL; lia. }
  set (cl := Z.land (code insn) 7).
  destruct ((cl =? 5) && negb (code insn =? op_code RET) && negb (code insn =? op_code CALL)
    && ((i + off insn + 1 <? 0) || (len <=? i + off insn + 1))) eqn:Hj.
  { split; [discriminate|]. intros [[_ _ Hjmp _ _] _]. exfalso.
    unfold is_jump in Hjmp. fold cl in Hjmp. lia. }
  destruct ((cl =? 1) || (cl =? 3) || (cl =? 2)) eqn:Hm.
  - destruct (if cl =? 1 then src_reg insn =? 10 else dst_reg insn =? 10) eqn:Hs.
    + destruct ((0 <? off insn) || (off insn <? -512)) eqn:Ho.
      * split; [discriminate|]. intros [[_ _ _ Hld Hst] _]. exfalso.
        unfold is_load, is_store in *. fold cl in Hld, Hst. lia.
      * split; [|by intros [_ ->]]. intros [= <-]. split; [|done].
        split; [done|done| | |]; unfold is_jump, is_load, is_store; fold cl;
          destruct (Z.eqb_spec cl 1); lia.
    + split; [discriminate|]. intros [[_ _ _ Hld Hst] _]. exfalso.
      unfold is_load, is_store in *. fold cl in Hld, Hst.
      destruct (Z.eqb_spec cl 1); lia.
  - split; [|by intros [_ ->]]. intros [= <-]. split; [|done].
    split; [done|done| | |]; unfold is_jump, is_load, is_store; fold cl; lia.
Qed.

Lemma index_Ok {A} (l : list A) i x :
  index (E:=BpfError) l i = Ok x <-> 0 <= i /\ l !! Z.to_nat i = Some x.
Proof.
  unfold index. case_decide; [|split; [done|lia]].
  destruct (l !! Z.to_nat i); naive_solver.
Qed.

(** The walk never runs out of iterations, and succeeds exactly when every
    instruction it visits is acceptable. *)
Lemma walk_Ok program fuel i :
  0 <= i <= zlen program -> zlen program - i < Z.of_nat fuel ->
  (walk fuel program i = Ok tt <->
   forall j insn, starts program i j -> program !! Z.to_nat j = Some insn ->
     insn_ok (zlen program) j insn) /\
  (walk fuel program i = Ok tt \/ exists msg, walk fuel program i = Fail msg).
Proof.
  revert i. induction fuel as [|fuel IH]; intros i Hi Hf.
  { exfalso. lia. }
  simpl. destruct (Z.ltb_spec i (zlen program)) as [Hlt|Hge].
  - destruct (lookup_lt_is_Some_2 program (Z.to_nat i)) as [insn Hinsn]; [unfold zlen in *; lia|].
    rewrite (proj2 (index_Ok program i insn)) by (split; [lia|done]). cbn [mbind res_bind].
    destruct (check_insn (zlen program) i insn) as [i'|e| |] eqn:Hc.
    + apply check_insn_Ok in Hc as [Hok ->]. cbn [mbind res_bind].
      destruct (IH (next_start i insn)) as [Hiff Hor];
        [unfold next_start; destruct (Z.eqb_spec (code insn) (op_code LD_IMM_64)) as [Hl|];
         [pose proof (wide_ok _ _ _ Hok Hl)|]; lia..|].
      split; [|done]. rewrite Hiff. split.
      * intros Hall j insn' Hs Hj. inversion Hs; simplify_eq; eauto.
      * intros Hall j insn' Hs Hj. apply Hall; [|done]. by eapply starts_next.
    + cbn [mbind res_bind]. split.
      * split; [done|]. intros Hall.
        assert (Hok : insn_ok (zlen program) i insn) by (apply Hall; [constructor|done]).
        assert (check_insn (zlen program) i insn = Ok (next_start i insn))
          by (by apply check_insn_Ok). congruence.
      * right. unfold check_insn in Hc. repeat case_match; naive_solver.
    + exfalso. unfold check_insn in Hc. repeat case_match; done.
    + exfalso. unfold check_insn in Hc. repeat case_match; done.
  - split; [|by left]. split; [|done]. intros _ j insn Hs Hj. exfalso.
    assert (program !! Z.to_nat i = None) by (apply lookup_ge_None; unfold zlen in *; lia).
    inversion Hs; congruence.
Qed.

Lemma has_exit_iff program :
  has_exit program = true <-> exists insn, insn ∈ program /\ code insn = op_code RET.
Proof.
  unfold has_exit. rewrite existsb_exists. setoid_rewrite list_elem_of_In.
  setoid_rewrite Z.eqb_eq. done.
Qed.

Lemma verify_accepts program : verify program = Ok tt <-> accepts program.
Proof.
  unfold verify, accepts. pose proof (zlen_nonneg program).
  destruct (Z.eqb_spec (zlen program) 0); [split; [done|lia]|].
  destruct (Z.ltb_spec max_insns (zlen program)); [split; [done|lia]|].
  pose proof (has_exit_iff program) as Hx.
  destruct (has_exit program); cbn [negb]; [|naive_solver].
  destruct (walk_Ok program (S (length program)) 0) as [-> _]; [lia|unfold zlen in *; lia|].
  naive_solver lia.
Qed.

(** The verifier decides a declarative safety condition and always
    answers.  It accepts exactly the programs of 1 to 4096 slots that contain
    an exit and whose every instruction start has both register fields below
    11, a complete second slot if it is a 64-bit load, an in-program target if
    it is a jump, and a base register R10 with an offset in [-512, 0] if it is
    a load or a store; on any other program it returns a verification error,
    and it never panics. *)
Theorem verify_spec program :
  (verify program = Ok tt <-> accepts program) /\
  (verify program = Ok tt \/ exists msg, verify program = Fail msg).
Proof.
  split; [apply verify_accepts|]. unfold verify. pose proof (zlen_nonneg program).
  repeat (case_match; [by eauto|]).
  apply walk_Ok; [lia|unfold zlen in *; lia].
Qed.

End Verifier.
