(* ===== verification/EbpfMap.v ===== *)
(** * eBPF: maps

    Models [src/ebpf/map.rs].  A map's [data] vector is a region of kernel
    memory: [data_ptr] is its address and [data_len] its length, so that a
    pointer handed out by [lookup] really points into it.  Keys and values
    arrive as raw pointers; an access to memory that is not mapped faults, and
    so does a raw copy whose two ends overlap, which is undefined.  A raw copy
    goes where its pointer points: it is not checked against the region.
    [u32] arithmetic written with plain operators panics on overflow.

    A hash map is an array of slots (used flag, key, value).  The theorems
    show that the slot scans implement a finite map. *)

From S2P Require Import Prelude Bytes EbpfIsa.

Module BpfMaps.
Import Ebpf.

Inductive BpfMapType := Array | Hash | RingBuf | ProgArray.

#[global] Instance BpfMapType_eq_dec : EqDecision BpfMapType.
Proof. solve_decision. Defined.

Record BpfMap := mkMap {
  map_type : BpfMapType;
  key_size : Z;      (* u32 *)
  value_size : Z;    (* u32 *)
  max_entries : Z;   (* u32 *)
  data_ptr : Z;
  data_len : Z
}.

Definition u32_checked_mul (a b : Z) : option Z :=
  if a * b <? 2 ^ 32 then Some (a * b) else None.

Definition u32_saturating_add (a b : Z) : Z := Z.min (a + b) (2 ^ 32 - 1).

Definition u32_add {E} (a b : Z) : res E Z := if a + b <? 2 ^ 32 then Ok (a + b) else Panic.
Definition u32_mul {E} (a b : Z) : res E Z := if a * b <? 2 ^ 32 then Ok (a * b) else Panic.

Definition total_size (t : BpfMapType) (ks vs me : Z) : Z :=
  match t with
  | Array | ProgArray => default 0 (u32_checked_mul vs me)
  | Hash => default 0 (u32_checked_mul (u32_saturating_add (u32_saturating_add 1 ks) vs) me)
  | RingBuf => me
  end.

(** [BpfMap::new]; [ptr] is where the allocator puts the zeroed vector. *)
Definition new (t : BpfMapType) (ks vs me : Z) (ptr : Z) (m : Mem) : BpfMap * Mem :=
  let n := total_size t ks vs me in
  (mkMap t ks vs me ptr n, store_bytes m ptr (zeros n)).

(** The scan [for i in 0..max_entries] for a used slot with this key: its
    offset.  [n] counts the iterations left. *)
Fixpoint find_key (n : nat) (i es ks : Z) (data key : list Z) : res BpfError (option Z) :=
  match n with
  | O => Ok None
  | S n' =>
      let offset := i * es in
      flag ← index data offset;
      if flag =? 1 then
        k ← slice (offset + 1) ks data;
        if decide (k = key) then Ok (Some offset) else find_key n' (i + 1) es ks data key
      else find_key n' (i + 1) es ks data key
  end.

(** The scan for an empty slot. *)
Fixpoint find_empty (n : nat) (i es : Z) (data : list Z) : res BpfError (option Z) :=
  match n with
  | O => Ok None
  | S n' =>
      let offset := i * es in
      flag ← index data offset;
      if flag =? 0 then Ok (Some offset) else find_empty n' (i + 1) es data
  end.

(** The hash branches on the contents of the data vector: the offset of the
    value found; whether the entry was stored; whether it was deleted. *)
Definition hash_lookup (es ks me : Z) (data key : list Z) : res BpfError (option Z) :=
  o ← find_key (Z.to_nat me) 0 es ks data key;
  Ok (option_map (fun offset => offset + 1 + ks) o).

Definition hash_update (es ks me : Z) (data key value : list Z)
    : res BpfError (bool * list Z) :=
  o ← find_key (Z.to_nat me) 0 es ks data key;
  match o with
  | Some offset =>
      data' ← splice (offset + 1 + ks) value data;
      Ok (true, data')
  | None =>
      o' ← find_empty (Z.to_nat me) 0 es data;
      match o' with
      | Some offset =>
          d1 ← splice offset [1] data;
          d2 ← splice (offset + 1) key d1;
          d3 ← splice (offset + 1 + ks) value d2;
          Ok (true, d3)
      | None => Ok (false, data)
      end
  end.

Definition hash_delete (es ks me : Z) (data key : list Z) : res BpfError (bool * list Z) :=
  o ← find_key (Z.to_nat me) 0 es ks data key;
  match o with
  | Some offset => data' ← splice offset [0] data; Ok (true, data')
  | None => Ok (false, data)
  end.

(** Do the [n] bytes at [a] and the [k] bytes at [b] share a byte?  A
    [copy_nonoverlapping] whose ends do is undefined, and so is reading a
    slice made from a raw pointer into the vector that is being written. *)
Definition overlap (a n b k : Z) : bool :=
  (0 <? n) && (0 <? k) && (a <? b + k) && (b <? a + n).

(** [(1 + key_size + value_size) as usize] in [u32]. *)
Definition entry_size (self : BpfMap) : res BpfError Z :=
  a ← u32_add 1 (key_size self);
  u32_add a (value_size self).

Definition is_array (self : BpfMap) : bool :=
  bool_decide (map_type self = Array) || bool_decide (map_type self = ProgArray).

(** The array branch of [lookup], on the index read from the key. *)
Definition array_lookup (self : BpfMap) (idx : Z) : res BpfError Z :=
  if max_entries self <=? idx then Ok 0
  else o ← u32_mul idx (value_size self); Ok (wrap 64 (data_ptr self + o)).

Definition lookup (self : BpfMap) (key_ptr : Z) (m : Mem) : res BpfError Z :=
  if is_array self then
    idx ← read_u32 m key_ptr;
    array_lookup self idx
  else if decide (map_type self = Hash) then
    es ← entry_size self;
    key ← from_raw_parts m key_ptr (key_size self);
    data ← load m (data_ptr self) (data_len self);
    o ← hash_lookup es (key_size self) (max_entries self) data key;
    match o with
    | Some o => Ok (wrap 64 (data_ptr self + o))
    | None => Ok 0
    end
  else Err ExecutionError.

Definition update (self : BpfMap) (key_ptr value_ptr : Z) (m : Mem) : res BpfError (Z * Mem) :=
  if is_array self then
    idx ← read_u32 m key_ptr;
    if max_entries self <=? idx then Ok (1, m)
    else
      o ← u32_mul idx (value_size self);
      v ← load m value_ptr (value_size self);
      let dst := data_ptr self + o in
      if overlap value_ptr (value_size self) dst (value_size self) then Fault
      else m' ← store m dst v; Ok (0, m')
  else if decide (map_type self = Hash) then
    es ← entry_size self;
    key ← from_raw_parts m key_ptr (key_size self);
    value ← from_raw_parts m value_ptr (value_size self);
    data ← load m (data_ptr self) (data_len self);
    if overlap key_ptr (key_size self) (data_ptr self) (data_len self)
       || overlap value_ptr (value_size self) (data_ptr self) (data_len self) then Fault
    else
      r ← hash_update es (key_size self) (max_entries self) data key value;
      m' ← store m (data_ptr self) (snd r);
      Ok (if fst r : bool then 0 else 1, m')
  else Err ExecutionError.

Definition delete (self : BpfMap) (key_ptr : Z) (m : Mem) : res BpfError (Z * Mem) :=
  if is_array self then
    idx ← read_u32 m key_ptr;
    if max_entries self <=? idx then Ok (1, m)
    else
      o ← u32_mul idx (value_size self);
      m' ← store m (data_ptr self + o) (zeros (value_size self));
      Ok (0, m')
  else if decide (map_type self = Hash) then
    es ← entry_size self;
    key ← from_raw_parts m key_ptr (key_size self);
    data ← load m (data_ptr self) (data_len self);
    r ← hash_delete es (key_size self) (max_entries self) data key;
    m' ← store m (data_ptr self) (snd r);
    Ok (if fst r : bool then 0 else 1, m')
  else Err ExecutionError.

(** The registry [BPF_MAPS]: ids are positions in the vector. *)
Definition register (maps : list BpfMap) (map : BpfMap) : Z * list BpfMap :=
  (zlen maps, maps ++ [map]).

Definition get (maps : list BpfMap) (i : Z) : option BpfMap := maps !! Z.to_nat i.

(** ** The slot array as a finite map *)

Section hash.
Context (ks vs me : Z).
Hypothesis Hks : 0 <= ks.
Hypothesis Hvs : 0 <= vs.
Hypothesis Hme : 0 <= me.
Let es : Z := 1 + ks + vs.

Definition flag_at (data : list Z) (i : Z) : option Z := data !! Z.to_nat (i * (1 + ks + vs)).
Definition key_at (data : list Z) (i : Z) : list Z := sub (i * (1 + ks + vs) + 1) ks data.
Definition val_at (data : list Z) (i : Z) : list Z := sub (i * (1 + ks + vs) + 1 + ks) vs data.

(** A well-formed data vector: it has [me] slots, flags are 0 or 1, and no two
    used slots have the same key. *)
Record hash_ok (data : list Z) : Prop := {
  hash_len : zlen data = me * (1 + ks + vs);
  hash_flag : forall i, 0 <= i < me -> flag_at data i = Some 0 \/ flag_at data i = Some 1;
  hash_uniq : forall i j, 0 <= i < me -> 0 <= j < me ->
    flag_at data i = Some 1 -> flag_at data j = Some 1 ->
    key_at data i = key_at data j -> i = j
}.

(** The finite map that a data vector stands for. *)
Definition represents (data : list Z) (m : gmap (list Z) (list Z)) : Prop :=
  forall k v, m !! k = Some v <->
    exists i, 0 <= i < me /\ flag_at data i = Some 1 /\ key_at data i = k /\ val_at data i = v.

Lemma find_key_spec data key n i :
  hash_ok data -> 0 <= i -> Z.of_nat n = me - i ->
  exists r, find_key n i es ks data key = Ok r /\
    match r with
    | Some o => exists j, i <= j < me /\ o = j * es /\ flag_at data j = Some 1 /\ key_at data j = key
    | None => forall j, i <= j < me -> flag_at data j = Some 1 -> key_at data j <> key
    end.
Proof.
  intros Hok. revert i. induction n as [|n IH]; intros i Hi Hn; simpl.
  - eexists. split; [done|]. simpl. intros j ?. lia.
  - assert (Hlen : (i + 1) * es <= zlen data) by (rewrite (hash_len _ Hok); fold es; nia).
    destruct (IH (i + 1)) as (r & Hr & Hspec); [lia..|].
    assert (Hmiss : (flag_at data i <> Some 1 \/ key_at data i <> key) ->
      match r with
      | Some o => exists j, i <= j < me /\ o = j * es /\ flag_at data j = Some 1 /\ key_at data j = key
      | None => forall j, i <= j < me -> flag_at data j = Some 1 -> key_at data j <> key
      end).
    { intros Hm. destruct r as [o|].
      - destruct Hspec as (j & ? & ?). exists j. split; [lia|done].
      - intros j Hj Hf Hk. destruct (decide (j = i)) as [->|]; [naive_solver|].
        eapply (Hspec j); [lia|done..]. }
    destruct (hash_flag _ Hok i) as [Hf|Hf]; [lia| |];
      unfold flag_at in Hf; fold es in Hf;
      unfold index; rewrite decide_True by nia; rewrite Hf; simpl.
    + exists r. split; [done|]. apply Hmiss. left. unfold flag_at. fold es. congruence.
    + unfold slice. rewrite decide_True by (unfold es in *; nia). simpl.
      case_decide as Hk.
      * eexists. split; [done|]. simpl. exists i. split; [lia|]. split; [done|]. done.
      * exists r. split; [done|]. apply Hmiss. by right.
Qed.

Lemma find_empty_spec data n i :
  hash_ok data -> 0 <= i -> Z.of_nat n = me - i ->
  exists r, find_empty n i es data = Ok r /\
    match r with
    | Some o => exists j, i <= j < me /\ o = j * es /\ flag_at data j = Some 0
    | None => forall j, i <= j < me -> flag_at data j = Some 1
    end.
Proof.
  intros Hok. revert i. induction n as [|n IH]; intros i Hi Hn; simpl.
  - eexists. split; [done|]. simpl. intros j ?. lia.
  - destruct (IH (i + 1)) as (r & Hr & Hspec); [lia..|].
    destruct (hash_flag _ Hok i) as [Hf|Hf]; [lia| |];
      pose proof Hf as Hf'; unfold flag_at in Hf; fold es in Hf;
      unfold index; rewrite decide_True by (unfold es; nia); rewrite Hf; simpl.
    + eexists. split; [done|]. simpl. exists i. split; [lia|done].
    + exists r. split; [done|]. destruct r as [o|].
      * destruct Hspec as (j & ? & ?). exists j. split; [lia|done].
      * intros j Hj. destruct (decide (j = i)) as [->|]; [done|]. apply Hspec. lia.
Qed.

(** An update inside slot [j] leaves the other slots alone. *)
Lemma slot_frame data j o (d : list Z) i :
  zlen data = me * es -> 0 <= j < me -> j * es <= o -> o + zlen d <= (j + 1) * es ->
  0 <= i < me -> i <> j ->
  flag_at (upd o d data) i = flag_at data i /\ key_at (upd o d data) i = key_at data i /\
  val_at (upd o d data) i = val_at data i.
Proof.
  intros Hlen Hj Ho Hd Hi Hne. unfold flag_at, key_at, val_at. fold es.
  assert (Hsep : (i + 1) * es <= j * es \/ (j + 1) * es <= i * es) by (unfold es; nia).
  assert (o + zlen d <= zlen data) by nia. assert (0 <= j * es) by (unfold es; nia).
  assert (0 <= i * es) by (unfold es; nia).
  split_and!.
  - rewrite upd_lookup by lia. rewrite decide_False; [done|].
    pose proof (zlen_nonneg d). unfold es in *. lia.
  - apply sub_upd_other; unfold es in *; lia.
  - apply sub_upd_other; unfold es in *; lia.
Qed.

Definition same_slot (data data' : list Z) (i : Z) : Prop :=
  flag_at data' i = flag_at data i /\ key_at data' i = key_at data i /\
  val_at data' i = val_at data i.

(** Slot [j], empty or already holding [k], comes to hold [k] and [v]. *)
Lemma slot_set data data' j k v m :
  hash_ok data -> represents data m -> zlen data' = zlen data -> 0 <= j < me ->
  (forall i, 0 <= i < me -> i <> j -> same_slot data data' i) ->
  flag_at data' j = Some 1 -> key_at data' j = k -> val_at data' j = v ->
  (forall i, 0 <= i < me -> i <> j -> flag_at data i = Some 1 -> key_at data i <> k) ->
  (flag_at data j = Some 1 -> key_at data j = k) ->
  hash_ok data' /\ represents data' (<[k := v]> m).
Proof.
  intros Hok Hrep Hlen Hj Hsame Hf Hk Hv Hno Hold. split; [split|].
  - rewrite Hlen. apply Hok.
  - intros i Hi. destruct (decide (i = j)) as [->|Hne]; [auto|].
    destruct (Hsame i Hi Hne) as (-> & _). by apply Hok.
  - intros a b Ha Hb Hfa Hfb Hab.
    destruct (decide (a = j)) as [->|Hna], (decide (b = j)) as [->|Hnb]; [done| | |].
    + destruct (Hsame b Hb Hnb) as (Hfb' & Hkb' & _). exfalso.
      apply (Hno b Hb Hnb); congruence.
    + destruct (Hsame a Ha Hna) as (Hfa' & Hka' & _). exfalso.
      apply (Hno a Ha Hna); congruence.
    + destruct (Hsame a Ha Hna) as (Hfa' & Hka' & _), (Hsame b Hb Hnb) as (Hfb' & Hkb' & _).
      apply (hash_uniq _ Hok); congruence.
  - intros k' v'. rewrite lookup_insert_Some. rewrite (Hrep k' v'). split.
    + intros [[<- <-]|[Hne (i & Hi & Hfi & Hki & Hvi)]]; [by exists j|].
      assert (i <> j) by (intros ->; apply Hne; rewrite <-Hold by done; congruence).
      destruct (Hsame i Hi) as (? & ? & ?); [done|].
      exists i. split_and!; [lia..|congruence|congruence|congruence].
    + intros (i & Hi & Hfi & Hki & Hvi). destruct (decide (i = j)) as [->|Hne].
      * left. split; congruence.
      * destruct (Hsame i Hi Hne) as (? & ? & ?). right. split.
        { intros <-. apply (Hno i Hi Hne); congruence. }
        exists i. split_and!; [lia..|congruence|congruence|congruence].
Qed.

(** Slot [j], which held [k], is marked empty. *)
Lemma slot_clear data data' j k m :
  hash_ok data -> represents data m -> zlen data' = zlen data -> 0 <= j < me ->
  (forall i, 0 <= i < me -> i <> j -> same_slot data data' i) ->
  flag_at data' j = Some 0 -> flag_at data j = Some 1 -> key_at data j = k ->
  hash_ok data' /\ represents data' (base.delete k m).
Proof.
  intros Hok Hrep Hlen Hj Hsame Hf Hf0 Hk. split; [split|].
  - rewrite Hlen. apply Hok.
  - intros i Hi. destruct (decide (i = j)) as [->|Hne]; [auto|].
    destruct (Hsame i Hi Hne) as (-> & _). by apply Hok.
  - intros a b Ha Hb Hfa Hfb Hab.
    assert (a <> j) by congruence. assert (b <> j) by congruence.
    destruct (Hsame a Ha) as (Hfa' & Hka' & _), (Hsame b Hb) as (Hfb' & Hkb' & _); [done..|].
    apply (hash_uniq _ Hok); congruence.
  - intros k' v'. rewrite lookup_delete_Some, (Hrep k' v'). split.
    + intros [Hne (i & Hi & Hfi & Hki & Hvi)].
      assert (i <> j) by congruence. destruct (Hsame i Hi) as (? & ? & ?); [done|].
      exists i. split_and!; [lia..|congruence|congruence|congruence].
    + intros (i & Hi & Hfi & Hki & Hvi). assert (i <> j) by congruence.
      destruct (Hsame i Hi) as (? & ? & ?); [done|]. split.
      * intros <-. apply H. eapply (hash_uniq _ Hok); congruence.
      * exists i. split_and!; [lia..|congruence|congruence|congruence].
Qed.

Lemma flag_upd_here data j x :
  zlen data = me * es -> 0 <= j < me -> flag_at (upd (j * es) [x] data) j = Some x.
Proof.
  intros Hlen Hj. unfold flag_at. fold es.
  assert (0 <= j * es) by (unfold es; nia). assert ((j + 1) * es <= me * es) by (unfold es; nia).
  rewrite upd_lookup by (unfold es, zlen in *; simpl; lia).
  rewrite decide_True by (unfold zlen; simpl; lia).
  by replace (_ - _)%nat with 0%nat by lia.
Qed.

(** The bounds of slot [j] inside the vector. *)
Lemma slot_bounds j : 0 <= j < me -> 0 <= j * es /\ j * es + es <= me * es /\ es = 1 + ks + vs.
Proof. unfold es. nia. Qed.

(** Overwriting the value of the slot that holds [key]. *)
Lemma overwrite_value data j key value m :
  hash_ok data -> represents data m -> zlen value = vs -> 0 <= j < me ->
  flag_at data j = Some 1 -> key_at data j = key ->
  let data' := upd (j * es + 1 + ks) value data in
  zlen data' = zlen data /\ hash_ok data' /\ represents data' (<[key := value]> m).
Proof.
  intros Hok Hrep Hvl Hj Hf Hk data'. pose proof (hash_len _ Hok) as Hlen. fold es in Hlen.
  destruct (slot_bounds j Hj) as (? & ? & ?).
  assert (Hz : zlen data' = zlen data) by (apply zlen_upd; lia). split; [done|].
  eapply (slot_set data _ j); [done|done|done|done| | | | | |done].
  - intros i Hi Hne. apply (slot_frame data j); lia.
  - unfold flag_at, data'. fold es. rewrite upd_lookup by lia. rewrite decide_False by lia. done.
  - unfold key_at, data'. fold es. rewrite sub_upd_other by lia. done.
  - unfold val_at, data'. fold es. rewrite <-Hvl at 1. apply sub_upd_same; lia.
  - intros i Hi Hne Hfi Hki. apply Hne. apply (hash_uniq _ Hok); [done..|congruence].
Qed.

(** Filling the empty slot [j] with a key that no slot holds. *)
Lemma fill_slot data j key value m :
  hash_ok data -> represents data m -> zlen key = ks -> zlen value = vs -> 0 <= j < me ->
  flag_at data j = Some 0 ->
  (forall i, 0 <= i < me -> flag_at data i = Some 1 -> key_at data i <> key) ->
  let d1 := upd (j * es) [1] data in
  let d2 := upd (j * es + 1) key d1 in
  let d3 := upd (j * es + 1 + ks) value d2 in
  zlen d1 = zlen data /\ zlen d2 = zlen data /\ zlen d3 = zlen data /\
  hash_ok d3 /\ represents d3 (<[key := value]> m).
Proof.
  intros Hok Hrep Hkl Hvl Hj Hf Hno d1 d2 d3.
  pose proof (hash_len _ Hok) as Hlen. fold es in Hlen.
  destruct (slot_bounds j Hj) as (? & ? & ?). assert (Hz1 : zlen [1] = 1) by done.
  assert (Hl1 : zlen d1 = zlen data) by (apply zlen_upd; lia).
  assert (Hl2 : zlen d2 = zlen data) by (unfold d2; rewrite zlen_upd; lia).
  assert (Hl3 : zlen d3 = zlen data) by (unfold d3; rewrite zlen_upd; lia).
  do 3 (split; [done|]).
  eapply (slot_set data _ j); [done|done|done|done| | | | | |congruence].
  - intros i Hi Hne. unfold same_slot, d3.
    destruct (slot_frame d2 j (j * es + 1 + ks) value i) as (-> & -> & ->); [lia..|].
    unfold d2. destruct (slot_frame d1 j (j * es + 1) key i) as (-> & -> & ->); [lia..|].
    apply (slot_frame data j); lia.
  - unfold flag_at, d3. fold es. rewrite upd_lookup, decide_False by lia.
    unfold d2. rewrite upd_lookup, decide_False by lia. by apply flag_upd_here.
  - unfold key_at, d3. fold es. rewrite sub_upd_other by lia.
    rewrite <-Hkl at 1. apply sub_upd_same; lia.
  - unfold val_at, d3. fold es. rewrite <-Hvl at 1. apply sub_upd_same; lia.
  - intros i Hi _. by apply Hno.
Qed.

(** The map has as many entries as there are used slots. *)
Lemma size_used data m :
  hash_ok data -> represents data m -> size m = length (filter (fun i => flag_at data i = Some 1) (seqZ 0 me)).
Proof.
  intros Hok Hrep. set (used := filter _ _).
  assert (Hu : forall i, i ∈ used <-> flag_at data i = Some 1 /\ 0 <= i < me).
  { intros i. unfold used. rewrite list_elem_of_filter, elem_of_seqZ. intuition lia. }
  rewrite <-size_dom, <-(length_fmap (key_at data) used), <-(size_list_to_set (C:=gset (list Z)) (key_at data <$> used)).
  - f_equal. apply set_eq. intros k. rewrite elem_of_dom, elem_of_list_to_set, list_elem_of_fmap. split.
    + intros [v (i & Hi & Hf & Hk & _)%Hrep]. exists i. rewrite Hu. auto.
    + intros (i & -> & Hi%Hu). exists (val_at data i). apply Hrep. exists i. intuition.
  - apply NoDup_fmap_2_strong; [|apply NoDup_filter, NoDup_seqZ].
    intros i j Hi%Hu Hj%Hu Hk. apply (hash_uniq _ Hok); intuition.
Qed.

Lemma size_full data m :
  hash_ok data -> represents data m -> (forall i, 0 <= i < me -> flag_at data i = Some 1) -> Z.of_nat (size m) = me.
Proof.
  intros Hok Hrep Hall. rewrite (size_used data m Hok Hrep).
  assert (Ha : Forall (fun i => flag_at data i = Some 1) (seqZ 0 me)) by (apply Forall_forall; intros i Hi%elem_of_seqZ; apply Hall; lia).
  enough (length (filter (fun i => flag_at data i = Some 1) (seqZ 0 me)) = length (seqZ 0 me)) as -> by (rewrite length_seqZ; lia).
  clear -Ha. induction Ha as [|i l Hi _ IH]; [done|]. rewrite filter_cons_True by done. by cbn; rewrite IH.
Qed.

Lemma size_room data m j : hash_ok data -> represents data m -> 0 <= j < me -> flag_at data j = Some 0 -> Z.of_nat (size m) < me.
Proof.
  intros Hok Hrep Hj Hf. rewrite (size_used data m Hok Hrep).
  pose proof (length_filter_lt (fun i => flag_at data i = Some 1) (seqZ 0 me) j) as H. rewrite length_seqZ, elem_of_seqZ in H.
  enough (length (filter (fun i => flag_at data i = Some 1%Z) (seqZ 0 me)) < Z.to_nat me)%nat by lia. apply H; [lia|congruence].
Qed.

(** [hash_update] stores the entry, or reports a full map and changes
    nothing; it never panics. *)
Lemma hash_update_spec data key value m :
  hash_ok data -> represents data m -> zlen key = ks -> zlen value = vs ->
  exists ok data', hash_update es ks me data key value = Ok (ok, data') /\
    zlen data' = zlen data /\
    if ok : bool then hash_ok data' /\ represents data' (<[key := value]> m) /\ (m !! key = None -> Z.of_nat (size m) < me)
    else data' = data /\ m !! key = None /\ Z.of_nat (size m) = me.
Proof.
  intros Hok Hrep Hkl Hvl. unfold hash_update.
  pose proof (hash_len _ Hok) as Hlen. fold es in Hlen.
  destruct (find_key_spec data key (Z.to_nat me) 0 Hok) as (r & -> & Hr); [lia..|].
  simpl. destruct r as [o|].
  - destruct Hr as (j & Hj & -> & Hf & Hk). destruct (slot_bounds j Hj) as (? & ? & ?).
    destruct (overwrite_value data j key value m) as (? & ? & ?); [done..|].
    unfold splice. rewrite decide_True by lia. simpl. eexists true, _. do 4 (split; [done|]).
    intros Hn. assert (m !! key = Some (val_at data j)) by (apply Hrep; by exists j). congruence.
  - destruct (find_empty_spec data (Z.to_nat me) 0 Hok) as (r & -> & Hr'); [lia..|].
    simpl. destruct r as [o|].
    + destruct Hr' as (j & Hj & -> & Hf). destruct (slot_bounds j Hj) as (? & ? & ?).
      destruct (fill_slot data j key value m) as (Hl1 & Hl2 & Hl3 & ? & ?); [done..|].
      assert (Hz1 : zlen [1] = 1) by done. unfold splice.
      do 3 (rewrite decide_True by lia; simpl). eexists true, _. do 4 (split; [done|]). intros _. by apply (size_room data m j).
    + exists false, data. do 3 (split; [done|]). split; [|by apply (size_full data)].
      apply eq_None_not_Some. intros [v (i & Hi & Hf & Hk & _)%Hrep]. by eapply (Hr i).
Qed.

Lemma hash_delete_spec data key m :
  hash_ok data -> represents data m ->
  exists ok data', hash_delete es ks me data key = Ok (ok, data') /\ zlen data' = zlen data /\
    hash_ok data' /\ represents data' (base.delete key m) /\
    (ok = true <-> is_Some (m !! key)).
Proof.
  intros Hok Hrep. unfold hash_delete. pose proof (hash_len _ Hok) as Hlen. fold es in Hlen.
  destruct (find_key_spec data key (Z.to_nat me) 0 Hok) as (r & -> & Hr); [lia..|].
  simpl. destruct r as [o|].
  - destruct Hr as (j & Hj & -> & Hf & Hk). destruct (slot_bounds j Hj) as (? & ? & ?).
    assert (Hz0 : zlen [0] = 1) by done. unfold splice. rewrite decide_True by lia. simpl.
    exists true. eexists. split; [done|]. rewrite zlen_upd by lia. split; [done|].
    destruct (slot_clear data (upd (j * es) [0] data) j key m) as [? ?];
      [done|done|by rewrite zlen_upd by lia|done| |by apply flag_upd_here|done|done|].
    { intros i Hi Hne. apply (slot_frame data j); lia. }
    do 2 (split; [done|]). split; [|done]. intros _. eexists. apply Hrep. by exists j.
  - exists false, data. do 3 (split; [done|]).
    assert (Hn : m !! key = None).
    { apply eq_None_not_Some. intros [v (i & Hi & Hf & Hk & _)%Hrep]. by eapply (Hr i). }
    rewrite delete_id by done. split; [done|]. rewrite Hn. split; [done|by intros []].
Qed.

Lemma hash_lookup_spec data key m :
  hash_ok data -> represents data m ->
  exists r, hash_lookup es ks me data key = Ok r /\
    match r with
    | Some o => 0 <= o /\ o + vs <= zlen data /\ m !! key = Some (sub o vs data)
    | None => m !! key = None
    end.
Proof.
  intros Hok Hrep. unfold hash_lookup. pose proof (hash_len _ Hok) as Hlen. fold es in Hlen.
  destruct (find_key_spec data key (Z.to_nat me) 0 Hok) as (r & -> & Hr); [lia..|].
  simpl. eexists. split; [done|]. destruct r as [o|]; simpl.
  - destruct Hr as (j & Hj & -> & Hf & Hk). destruct (slot_bounds j Hj) as (? & ? & ?).
    split_and!; [lia..|]. apply Hrep. by exists j.
  - apply eq_None_not_Some. intros [v (i & Hi & Hf & Hk & _)%Hrep]. by eapply (Hr i).
Qed.

(** A zeroed vector is an empty map. *)
Lemma zeros_empty : hash_ok (zeros (me * es)) /\ represents (zeros (me * es)) ∅.
Proof.
  assert (Hz : forall i, 0 <= i < me -> flag_at (zeros (me * es)) i = Some 0).
  { intros i Hi. unfold flag_at, zeros. fold es. destruct (slot_bounds i Hi) as (? & ? & ?).
    apply lookup_replicate. split; [done|]. unfold es in *. nia. }
  split; [split|].
  - apply zlen_zeros. unfold es. nia.
  - auto.
  - intros i j Hi Hj Hf. rewrite Hz in Hf; done.
  - intros k v. rewrite lookup_empty. split; [done|].
    intros (i & Hi & Hf & _). rewrite Hz in Hf; done.
Qed.

End hash.

(** ** Maps in memory *)

Definition unchanged_outside (m m' : Mem) (lo hi : Z) : Prop :=
  forall a, a < lo \/ hi <= a -> m' !! a = m !! a.

Lemma splice_zlen {E A} o (d l l' : list A) : splice (E:=E) o d l = Ok l' -> zlen l' = zlen l.
Proof. unfold splice. case_decide; [|done]. intros [= <-]. apply zlen_upd; lia. Qed.

Lemma hash_update_zlen es ks me data key value r :
  hash_update es ks me data key value = Ok r -> zlen (snd r) = zlen data.
Proof.
  unfold hash_update. destruct (find_key _ _ _ _ _ _) as [[o|]| | |]; simpl; [| |done..].
  - destruct (splice _ _ _) as [d| | |] eqn:Hs; simpl; [|done..]. intros [= <-].
    by eapply splice_zlen.
  - destruct (find_empty _ _ _ _) as [[o|]| | |]; simpl; [|by intros [= <-]|done..].
    destruct (splice o _ _) as [d1| | |] eqn:H1; simpl; [|done..].
    destruct (splice (o + 1) _ _) as [d2| | |] eqn:H2; simpl; [|done..].
    destruct (splice (o + 1 + ks) _ _) as [d3| | |] eqn:H3; simpl; [|done..]. intros [= <-].
    apply splice_zlen in H1, H2, H3. simpl. congruence.
Qed.

Lemma hash_delete_zlen es ks me data key r :
  hash_delete es ks me data key = Ok r -> zlen (snd r) = zlen data.
Proof.
  unfold hash_delete. destruct (find_key _ _ _ _ _ _) as [[o|]| | |]; simpl; [|by intros [= <-]|done..].
  destruct (splice _ _ _) as [d| | |] eqn:Hs; simpl; [|done..]. intros [= <-].
  by eapply splice_zlen.
Qed.

Lemma store_outside {E} m addr bs m' lo hi :
  store (E:=E) m addr bs = Ok m' -> lo <= addr -> addr + zlen bs <= hi ->
  unchanged_outside m m' lo hi.
Proof.
  unfold store. case_decide; [|done]. intros [= <-] ? ? a ?.
  by rewrite store_bytes_lookup, decide_False by lia.
Qed.

(** Storing back a vector of the length that was loaded. *)
Lemma store_whole {E} m p n data data' m' :
  load (E:=E) m p n = Ok data -> zlen data' = zlen data -> store (E:=E) m p data' = Ok m' ->
  unchanged_outside m m' p (p + n).
Proof.
  intros Hd Hl Hs. pose proof (load_length _ _ _ _ Hd) as Hn.
  destruct (decide (0 <= n)); [eapply store_outside; [done|lia..]|].
  destruct data' as [|x l]; [|unfold zlen in *; simpl in *; lia].
  unfold store in Hs. case_decide; [|done]. simpl in Hs. by injection Hs as <-.
Qed.

Lemma read_u32_bound {E} m p v : read_u32 (E:=E) m p = Ok v -> fits 32 v.
Proof.
  unfold read_u32. destruct (load_aligned _ _ _); simpl; [|done..].
  intros [= <-]. by apply wrap_fits.
Qed.

(** The region of an array map has room for every index.  [new] makes such a
    map unless the size overflows. *)
Definition sized (self : BpfMap) : Prop :=
  is_array self = true -> max_entries self * value_size self <= data_len self.

Lemma new_sized t ks vs me ptr m : vs * me < 2 ^ 32 -> sized (fst (new t ks vs me ptr m)).
Proof.
  intros Hlt Ha. destruct t; try done; cbn; unfold u32_checked_mul; destruct (Z.ltb_spec (vs * me) (2 ^ 32)); simpl; lia.
Qed.

(** Whatever their pointers, [update] and [delete] write only inside the
    region of a map that has room for its entries. *)
Lemma update_outside self kp vp m r m' :
  0 <= value_size self -> sized self -> update self kp vp m = Ok (r, m') ->
  unchanged_outside m m' (data_ptr self) (data_ptr self + data_len self).
Proof.
  intros Hvs Hsz. unfold sized in Hsz. unfold update. destruct (is_array self).
  - destruct (read_u32 _ _) as [idx| | |] eqn:Hk; simpl; [|done..].
    apply read_u32_bound in Hk.
    destruct (Z.leb_spec (max_entries self) idx); [by intros [= <- <-]|].
    unfold u32_mul. destruct (Z.ltb_spec (idx * value_size self) (2 ^ 32)); simpl; [|done].
    destruct (load m vp _) as [v| | |] eqn:Hv; simpl; [|done..].
    destruct (overlap _ _ _ _); [done|].
    destruct (store _ _ _) eqn:Hs; simpl; [|done..]. intros [= <- <-].
    specialize (Hsz eq_refl). pose proof (load_length _ _ _ _ Hv). eapply store_outside; [done|unfold fits in *; nia..].
  - case_decide; [|done]. destruct (entry_size self) as [es| | |]; simpl; [|done..].
    destruct (from_raw_parts m kp _) as [key| | |]; simpl; [|done..].
    destruct (from_raw_parts m vp _) as [value| | |]; simpl; [|done..].
    destruct (load m _ _) as [data| | |] eqn:Hd; simpl; [|done..].
    destruct (_ || _); [done|].
    destruct (hash_update _ _ _ _ _ _) as [rd| | |] eqn:Hu; simpl; [|done..].
    destruct (store _ _ _) eqn:Hs; simpl; [|done..]. intros [= <- <-].
    apply hash_update_zlen in Hu. eapply store_whole; done.
Qed.

Lemma delete_outside self kp m r m' :
  0 <= value_size self -> sized self -> delete self kp m = Ok (r, m') ->
  unchanged_outside m m' (data_ptr self) (data_ptr self + data_len self).
Proof.
  intros Hvs Hsz. unfold sized in Hsz. unfold delete. destruct (is_array self).
  - destruct (read_u32 _ _) as [idx| | |] eqn:Hk; simpl; [|done..].
    apply read_u32_bound in Hk.
    destruct (Z.leb_spec (max_entries self) idx); [by intros [= <- <-]|].
    unfold u32_mul. destruct (Z.ltb_spec (idx * value_size self) (2 ^ 32)); simpl; [|done].
    destruct (store _ _ _) eqn:Hs; simpl; [|done..]. intros [= <- <-].
    specialize (Hsz eq_refl). pose proof (zlen_zeros (value_size self)).
    eapply store_outside; [done|unfold fits in *; nia..].
  - case_decide; [|done]. destruct (entry_size self) as [es| | |]; simpl; [|done..].
    destruct (from_raw_parts m kp _) as [key| | |]; simpl; [|done..].
    destruct (load m _ _) as [data| | |] eqn:Hd; simpl; [|done..].
    destruct (hash_delete _ _ _ _ _) as [rd| | |] eqn:Hu; simpl; [|done..].
    destruct (store _ _ _) eqn:Hs; simpl; [|done..]. intros [= <- <-].
    apply hash_delete_zlen in Hu. eapply store_whole; done.
Qed.

(** A hash map whose data region in [m] represents the finite map [fm]. *)
Record hash_at (self : BpfMap) (m : Mem) (fm : gmap (list Z) (list Z)) : Prop := {
  at_type : map_type self = Hash;
  at_ks : 0 <= key_size self;
  at_vs : 0 <= value_size self;
  at_me : 0 <= max_entries self;
  at_es : 1 + key_size self + value_size self < 2 ^ 32;
  at_len : data_len self = max_entries self * (1 + key_size self + value_size self);
  at_ptr : 0 < data_ptr self /\ data_ptr self + data_len self < 2 ^ 64;
  at_data : exists data, load (E:=BpfError) m (data_ptr self) (data_len self) = Ok data /\
    hash_ok (key_size self) (value_size self) (max_entries self) data /\
    represents (key_size self) (value_size self) (max_entries self) data fm
}.

(** A readable buffer with contents [bs] that is not part of the map. *)
Definition buffer (self : BpfMap) (m : Mem) (p n : Z) (bs : list Z) : Prop :=
  from_raw_parts (E:=BpfError) m p n = Ok bs /\ overlap p n (data_ptr self) (data_len self) = false.

(** There is no slot for the key: it is new and every slot is taken. *)
Definition full (self : BpfMap) (fm : gmap (list Z) (list Z)) (key : list Z) : Prop :=
  fm !! key = None /\ Z.of_nat (size fm) = max_entries self.

Lemma entry_size_Ok self m fm :
  hash_at self m fm -> entry_size self = Ok (1 + key_size self + value_size self).
Proof.
  intros H. unfold entry_size, u32_add. destruct H.
  destruct (Z.ltb_spec (1 + key_size self) (2 ^ 32)); [|lia]. simpl.
  destruct (Z.ltb_spec (1 + key_size self + value_size self) (2 ^ 32)); [done|lia].
Qed.

(** Writing back a data vector that represents [fm']. *)
Lemma write_back self m fm data' fm' :
  hash_at self m fm -> zlen data' = data_len self ->
  hash_ok (key_size self) (value_size self) (max_entries self) data' ->
  represents (key_size self) (value_size self) (max_entries self) data' fm' ->
  exists m', store (E:=BpfError) m (data_ptr self) data' = Ok m' /\ hash_at self m' fm' /\
    unchanged_outside m m' (data_ptr self) (data_ptr self + data_len self).
Proof.
  intros [] Hl Hok Hrep. destruct at_data0 as (data & Hd & _).
  eexists. split; [apply store_Ok; rewrite Hl; by eapply load_Ok_mapped|]. split.
  - split; try done. exists data'. split; [|done]. rewrite <-Hl. apply load_store_same.
  - intros a Ha. rewrite store_bytes_lookup, decide_False by lia. done.
Qed.

Lemma is_array_hash self : map_type self = Hash -> is_array self = false.
Proof. intros H. unfold is_array. rewrite H. done. Qed.

Lemma hash_map_update self m fm kp vp key value :
  hash_at self m fm -> buffer self m kp (key_size self) key -> buffer self m vp (value_size self) value ->
  exists r m', update self kp vp m = Ok (r, m') /\
    unchanged_outside m m' (data_ptr self) (data_ptr self + data_len self) /\
    (~ full self fm key /\ r = 0 /\ hash_at self m' (<[key := value]> fm) \/
     full self fm key /\ r = 1 /\ hash_at self m' fm).
Proof.
  intros H [Hk Hko] [Hv Hvo]. unfold update. rewrite is_array_hash, decide_True by apply H.
  rewrite (entry_size_Ok _ _ _ H). simpl. rewrite Hk, Hv. simpl.
  pose proof H as []. destruct at_data0 as (data & Hd & Hok & Hrep). rewrite Hd. simpl.
  rewrite Hko, Hvo. simpl.
  pose proof (load_length _ _ _ _ Hd) as Hlen. pose proof (hash_len _ _ _ _ Hok) as Hlen'.
  destruct (hash_update_spec _ _ _ at_ks0 at_vs0 at_me0 data key value fm Hok Hrep)
    as (ok & data' & -> & Hl & Hres); [apply from_raw_parts_Ok, load_length in Hk; lia|apply from_raw_parts_Ok, load_length in Hv; lia|].
  simpl. destruct ok.
  - destruct (write_back self m fm data' (<[key := value]> fm)) as (m' & -> & ? & ?);
      [done|lia|apply Hres..|]. simpl. eexists _, m'. do 2 (split; [done|]). left. split; [|done].
    intros [Hn Hs]. destruct Hres as (_ & _ & Hr). specialize (Hr Hn). lia.
  - destruct Hres as (-> & Hn & Hs).
    destruct (write_back self m fm data fm) as (m' & -> & ? & ?); [done|lia|done|done|].
    simpl. eexists _, m'. do 2 (split; [done|]). right. by split.
Qed.

Lemma hash_map_delete self m fm kp key :
  hash_at self m fm -> from_raw_parts (E:=BpfError) m kp (key_size self) = Ok key ->
  exists r m', delete self kp m = Ok (r, m') /\
    unchanged_outside m m' (data_ptr self) (data_ptr self + data_len self) /\
    hash_at self m' (base.delete key fm) /\
    r = (if fm !! key is Some _ then 0 else 1).
Proof.
  intros H Hk. unfold delete. rewrite is_array_hash, decide_True by apply H.
  rewrite (entry_size_Ok _ _ _ H). simpl. rewrite Hk. simpl.
  pose proof H as []. destruct at_data0 as (data & Hd & Hok & Hrep). rewrite Hd. simpl.
  pose proof (load_length _ _ _ _ Hd) as Hlen. pose proof (hash_len _ _ _ _ Hok) as Hlen'.
  destruct (hash_delete_spec _ _ _ at_ks0 at_vs0 at_me0 data key fm Hok Hrep)
    as (ok & data' & -> & Hl & ? & ? & Hiff). simpl.
  destruct (write_back self m fm data' (base.delete key fm)) as (m' & -> & ? & ?); [done|lia|done..|].
  simpl. eexists _, m'. do 3 (split; [done|]).
  destruct ok, (fm !! key); naive_solver.
Qed.

Lemma hash_map_lookup self m fm kp key :
  hash_at self m fm -> from_raw_parts (E:=BpfError) m kp (key_size self) = Ok key ->
  exists p, lookup self kp m = Ok p /\
    match fm !! key with
    | Some v => data_ptr self <= p < data_ptr self + data_len self + 1
        /\ load (E:=BpfError) m p (value_size self) = Ok v
    | None => p = 0
    end.
Proof.
  intros H Hk. unfold lookup. rewrite is_array_hash, decide_True by apply H.
  rewrite (entry_size_Ok _ _ _ H). simpl. rewrite Hk. simpl.
  pose proof H as []. destruct at_data0 as (data & Hd & Hok & Hrep). rewrite Hd. simpl.
  pose proof (load_length _ _ _ _ Hd) as Hlen. pose proof (hash_len _ _ _ _ Hok) as Hlen'.
  destruct (hash_lookup_spec _ _ _ at_ks0 at_vs0 at_me0 data key fm Hok Hrep)
    as ([o|] & -> & Hr); simpl.
  - destruct Hr as (? & ? & ->). eexists. split; [done|].
    rewrite wrap_small by (unfold fits; lia). split; [lia|].
    eapply load_sub; [done|lia..].
  - rewrite Hr. by eexists.
Qed.

(** C6. A hash map in kernel memory refines a finite map.  Given mapped key
    and value buffers, [update], [delete] and [lookup] return without panic or
    fault; [update] stores the binding and returns 0, unless the key is new and
    the map has [max_entries] entries: then it returns 1 and leaves the map as
    it was; [delete]
    removes exactly that binding and returns 0 if it was there, 1 otherwise;
    [lookup] returns a pointer at which the stored value lies, or NULL exactly
    for an absent key; and no byte outside the map's own region changes. *)
Theorem hash_map_refines self m fm kp vp key value :
  hash_at self m fm -> buffer self m kp (key_size self) key -> buffer self m vp (value_size self) value ->
  (exists r m', update self kp vp m = Ok (r, m') /\
    unchanged_outside m m' (data_ptr self) (data_ptr self + data_len self) /\
    (~ full self fm key /\ r = 0 /\ hash_at self m' (<[key := value]> fm) \/
     full self fm key /\ r = 1 /\ hash_at self m' fm)) /\
  (exists r m', delete self kp m = Ok (r, m') /\
    unchanged_outside m m' (data_ptr self) (data_ptr self + data_len self) /\
    hash_at self m' (base.delete key fm) /\ r = (if fm !! key is Some _ then 0 else 1)) /\
  (exists p, lookup self kp m = Ok p /\
    match fm !! key with
    | Some v => data_ptr self <= p < data_ptr self + data_len self + 1
        /\ load (E:=BpfError) m p (value_size self) = Ok v
    | None => p = 0
    end).
Proof.
  intros H Hk Hv. pose proof (proj1 Hk).
  split_and!; [by eapply hash_map_update|by apply hash_map_delete|by apply hash_map_lookup].
Qed.

(** [demo_map] holds up to two one-byte keys with two-byte values; its region
    starts at 100, and the key and value buffers lie at 10 and 12. *)
Definition demo_mem : Mem := {[10 := 7; 12 := 1; 13 := 2]}.
Definition demo_map : BpfMap := fst (new Hash 1 2 2 100 demo_mem).

(** Creating a hash map whose size fits in [u32] gives an empty map:
    the zeroed vector represents the empty finite map. *)
Theorem new_hash_empty ks vs me ptr m :
  0 <= ks -> 0 <= vs -> 0 <= me -> 1 + ks + vs < 2 ^ 32 -> (1 + ks + vs) * me < 2 ^ 32 ->
  0 < ptr -> ptr + (1 + ks + vs) * me < 2 ^ 64 ->
  hash_at (fst (new Hash ks vs me ptr m)) (snd (new Hash ks vs me ptr m)) ∅.
Proof.
  intros. assert (Ht : total_size Hash ks vs me = me * (1 + ks + vs)).
  { unfold total_size, u32_checked_mul, u32_saturating_add.
    rewrite (Z.min_l (1 + ks)), Z.min_l by lia.
    destruct (Z.ltb_spec ((1 + ks + vs) * me) (2 ^ 32)); simpl; lia. }
  destruct (zeros_empty ks vs me) as [Hok Hrep]; [done..|].
  unfold new. rewrite Ht. split; simpl; try done; [lia|].
  eexists. split; [|done].
  rewrite <-(zlen_zeros (me * (1 + ks + vs))) at 2 by nia. apply load_store_same.
Qed.

Lemma new_hash_empty_witness : hash_at demo_map (snd (new Hash 1 2 2 100 demo_mem)) ∅.
Proof. apply (new_hash_empty 1 2 2 100 demo_mem); lia. Defined.

Lemma hash_map_refines_witness :
  exists r m', update demo_map 10 12 (snd (new Hash 1 2 2 100 demo_mem)) = Ok (r, m') /\
    r = 0 /\ hash_at demo_map m' {[ [7] := [1; 2] ]}.
Proof.
  destruct (hash_map_refines demo_map (snd (new Hash 1 2 2 100 demo_mem)) ∅ 10 12 [7] [1; 2])
    as [(r & m' & Hu & _ & Hr) _].
  - unfold demo_map. destruct (zeros_empty 1 2 2) as [Hok Hrep]; [done..|].
    split; try done. exists (zeros 8). split; [|done]. vm_compute. reflexivity.
  - split; reflexivity.
  - split; reflexivity.
  - exists r, m'. split; [exact Hu|]. destruct Hr as [[_ Hr]|[[_ Hs] _]]; [exact Hr|]. vm_compute in Hs. discriminate Hs.
Defined.

(** When [value_size * max_entries] overflows [u32], [new] stores no data
    at all but keeps [max_entries], and updating any index that passes the
    bound check writes the value outside the (empty) vector. *)
Theorem overflowed_array_update_escapes vs me ptr m m0 kp vp idx v :
  2 ^ 32 <= vs * me ->
  let self := fst (new Array 4 vs me ptr m0) in
  read_u32 (E:=BpfError) m kp = Ok idx -> 0 <= idx < me -> idx * vs < 2 ^ 32 ->
  load (E:=BpfError) m vp vs = Ok v -> overlap vp vs (ptr + idx * vs) vs = false ->
  data_len self = 0 /\ update self kp vp m = (m' ← store m (ptr + idx * vs) v; Ok (0, m')).
Proof.
  intros Hov self Hk Hi Hio Hv Hn. split.
  - unfold self, new, total_size, u32_checked_mul. simpl.
    destruct (Z.ltb_spec (vs * me) (2 ^ 32)); [lia|done].
  - unfold self, update, new, total_size, u32_checked_mul, u32_mul. simpl.
    rewrite Hk. simpl. destruct (Z.leb_spec me (idx)); [lia|].
    destruct (Z.ltb_spec (idx * vs) (2 ^ 32)); [|lia]. simpl. rewrite Hv. simpl. by rewrite Hn.
Qed.

(** The vector is empty; the four bytes at its address belong to something
    else. *)
Lemma overflowed_array_update_escapes_witness :
  let self := fst (new Array 4 4 (2 ^ 30) 100 ∅) in
  let m := store_bytes (store_bytes ∅ 0 [0; 0; 0; 0; 9; 9; 9; 9]) 100 [5; 5; 5; 5] in
  data_len self = 0 /\ update self 0 4 m = Ok (0, store_bytes m 100 [9; 9; 9; 9]).
Proof.
  destruct (overflowed_array_update_escapes 4 (2 ^ 30) 100 (store_bytes (store_bytes ∅ 0 [0; 0; 0; 0; 9; 9; 9; 9]) 100 [5; 5; 5; 5]) ∅ 0 4
              0 [9; 9; 9; 9]) as [Hl Hu]; [done..|].
  split; [exact Hl|]. etransitivity; [exact Hu|]. vm_compute. reflexivity.
Defined.

End BpfMaps.
