(* ===== verification/EbpfVm.v ===== *)
(** * eBPF: the interpreter

    Models [src/ebpf/vm.rs].  The machine's state is its registers, the bounds
    of its stack window and kernel memory; the stack array itself is the part
    of memory between [stack_base - 512] and [stack_base].  [exec_insn] is one
    turn of the interpreter's loop with one arm per opcode, [run] the loop
    with its instruction limit as fuel, and [execute] adds tail calls.

    What the helpers consult outside the machine (the map registry, the
    programs behind tail-call handles, the clock, the running process and
    processor) is the environment [Env]. *)

From S2P Require Import Prelude Bytes EbpfIsa EbpfVerifier EbpfMap.

Module Vm.
Import Ebpf.

Record BpfVm := mkVm {
  registers : list Z;   (* [u64; 11] *)
  stack_base : Z;
  mem : Mem
}.

Record Env := mkEnv {
  bpf_maps : list BpfMaps.BpfMap;
  programs : gmap Z (list BpfInstruction);
  uptime_ms : Z;
  current_pid : option Z;
  cpu_id : Z
}.

Abbreviation VM := (M BpfVm BpfError).

(** [BpfVm::new], with the address its zeroed [stack] field has at that
    point. *)
Definition new (stack_addr : Z) (m : Mem) : BpfVm :=
  mkVm (replicate 10 0 ++ [stack_addr + 512]) (stack_addr + 512)
    (store_bytes m stack_addr (zeros 512)).

Definition stack_start (self : BpfVm) : Z := Z.max 0 (stack_base self - 512).

Definition is_stack_ptr (self : BpfVm) (addr size : Z) : bool :=
  let lo := stack_start self in
  let hi := stack_base self in
  if addr <? lo then false
  else
    let end_ := Z.min (addr + size) (2 ^ 64 - 1) in
    if end_ <? addr then false else end_ <=? hi.

Definition validate_mem_access (addr size : Z) : VM unit := fun self =>
  (if is_stack_ptr self addr size then Ok tt else Err OutOfBounds, self).

Definition rd (r : Z) : VM Z := fun self => (index (registers self) r, self).

Definition wr (r v : Z) : VM unit := fun self =>
  match splice r [v] (registers self) with
  | Ok rs => (Ok tt, mkVm rs (stack_base self) (mem self))
  | Err e => (Err e, self)
  | Panic => (Panic, self)
  | Fault => (Fault, self)
  end.

(** Raw reads and writes of kernel memory. *)
Definition peek {A} (f : Mem -> res BpfError A) : VM A := fun self =>
  (f (mem self), self).

Definition poke (f : Mem -> res BpfError Mem) : VM unit := fun self =>
  match f (mem self) with
  | Ok m => (Ok tt, mkVm (registers self) (stack_base self) m)
  | Err e => (Err e, self)
  | Panic => (Panic, self)
  | Fault => (Fault, self)
  end.

(** [wrapping_shl] and [wrapping_shr] take the shift modulo 64. *)
Definition wrapping_shl (a n : Z) : Z := wrap 64 (Z.shiftl a (n mod 64)).
Definition wrapping_shr (a n : Z) : Z := Z.shiftr a (n mod 64).

(** [(pc as i32 + off as i32) as usize]. *)
Definition jump_target (pc off : Z) : res BpfError Z :=
  let t := sint 32 pc + off in
  if (t <? - 2 ^ 31) || (2 ^ 31 <=? t) then Panic else Ok (wrap 64 t).

(** What one instruction leads to: the loop goes on with [pc] (before its
    [pc += 1]), the program returns, or it tail-calls another program. *)
Inductive flow := Next (pc : Z) | Return (v : Z) | Tail (handle : Z).

Section helpers.
Context (env : Env).

Definition map_call (map_id : Z) (missing : Z)
    (f : BpfMaps.BpfMap -> Mem -> res BpfError (Z * Mem)) : VM Z := fun self =>
  match BpfMaps.get (bpf_maps env) map_id with
  | Some map =>
      match f map (mem self) with
      | Ok (v, m) => (Ok v, mkVm (registers self) (stack_base self) m)
      | Err e => (Err e, self)
      | Panic => (Panic, self)
      | Fault => (Fault, self)
      end
  | None => (Ok missing, self)
  end.

Definition comm : list Z := [122; 105; 113; 97; 45; 112; 114; 111; 99; 0].

Definition get_current_comm : VM Z :=
  buf ← rd 1;
  size ← rd 2;
  let len := Z.min (Z.min size 512) (zlen comm) in
  self ← get;
  if is_stack_ptr self buf len then
    _ ← poke (fun m => store m buf (take (Z.to_nat len) comm));
    if (len <? size) && (len <? 512) then
      _ ← poke (fun m => store m (buf + len) (zeros (Z.min (size - len) (512 - len))));
      mret 0
    else mret 0
  else mret 0.

Definition probe_read : VM Z :=
  dst_ptr ← rd 1;
  size ← rd 2;
  src_ptr ← rd 3;
  let safe_size := Z.min size 512 in
  self ← get;
  if is_stack_ptr self dst_ptr safe_size && is_stack_ptr self src_ptr safe_size then
    if BpfMaps.overlap src_ptr safe_size dst_ptr safe_size then lift Fault
    else
      bs ← peek (fun m => load m src_ptr safe_size);
      _ ← poke (fun m => store m dst_ptr bs);
      mret 0
  else mret 0.

(** The text printed is not part of the model; reading it is. *)
Definition trace_printk : VM Z :=
  fmt_ptr ← rd 1;
  fmt_size ← rd 2;
  _ ← peek (fun m => from_raw_parts m fmt_ptr (Z.min fmt_size 64));
  mret 0.

Definition tail_call : VM Z :=
  map_id ← rd 1;
  index_ptr ← rd 2;
  match BpfMaps.get (bpf_maps env) map_id with
  | Some map =>
      if decide (BpfMaps.map_type map = BpfMaps.ProgArray) then
        ptr ← lift (BpfMaps.array_lookup map (wrap 32 index_ptr));
        if ptr =? 0 then mret 0
        else
          prog_handle ← peek (fun m => read_u64 m ptr);
          if prog_handle =? 0 then mret 0 else throw (TailCall prog_handle)
      else mret 0
  | None => mret 0
  end.

Definition call_helper (id : Z) : VM Z :=
  if id =? MAP_LOOKUP_ELEM then
    map_id ← rd 1; key_ptr ← rd 2;
    map_call map_id 0 (fun map m => v ← BpfMaps.lookup map key_ptr m; Ok (v, m))
  else if id =? MAP_UPDATE_ELEM then
    map_id ← rd 1; key_ptr ← rd 2; value_ptr ← rd 3;
    map_call map_id 1 (fun map m => BpfMaps.update map key_ptr value_ptr m)
  else if id =? MAP_DELETE_ELEM then
    map_id ← rd 1; key_ptr ← rd 2;
    map_call map_id 1 (fun map m => BpfMaps.delete map key_ptr m)
  else if id =? KTIME_GET_NS then
    lift (if uptime_ms env * 1000000 <? 2 ^ 64 then Ok (uptime_ms env * 1000000) else Panic)
  else if id =? GET_CURRENT_PID_TGID then mret (default 0 (current_pid env))
  else if id =? GET_SMP_PROCESSOR_ID then mret (cpu_id env)
  else if id =? GET_CURRENT_COMM then get_current_comm
  else if id =? PROBE_READ then probe_read
  else if id =? TRACE_PRINTK then trace_printk
  else if id =? TAIL_CALL then tail_call
  else throw ExecutionError.

(** ** One instruction *)

(** [registers[dst] = f registers[dst]] and [.. = f registers[dst] registers[src]]. *)
Definition alu (insn : BpfInstruction) (pc : Z) (f : Z -> Z) : VM flow :=
  a ← rd (dst_reg insn);
  _ ← wr (dst_reg insn) (f a);
  mret (Next pc).

Definition alu_x (insn : BpfInstruction) (pc : Z) (f : Z -> Z -> Z) : VM flow :=
  a ← rd (dst_reg insn);
  b ← rd (src_reg insn);
  _ ← wr (dst_reg insn) (f a b);
  mret (Next pc).

Definition jump_if (insn : BpfInstruction) (pc : Z) (c : bool) : VM flow :=
  if c then t ← lift (jump_target pc (off insn)); mret (Next t) else mret (Next pc).

Definition jmp (insn : BpfInstruction) (pc : Z) (cmp : Z -> Z -> bool) : VM flow :=
  a ← rd (dst_reg insn);
  jump_if insn pc (cmp a (wrap 64 (imm insn))).

Definition jmp_x (insn : BpfInstruction) (pc : Z) (cmp : Z -> Z -> bool) : VM flow :=
  a ← rd (dst_reg insn);
  b ← rd (src_reg insn);
  jump_if insn pc (cmp a b).

Definition load_x (insn : BpfInstruction) (pc size : Z) (read : Mem -> Z -> res BpfError Z)
    : VM flow :=
  s ← rd (src_reg insn);
  let addr := wrap 64 (s + wrap 64 (off insn)) in
  _ ← validate_mem_access addr size;
  v ← peek (fun m => read m addr);
  _ ← wr (dst_reg insn) v;
  mret (Next pc).

Definition store_v (insn : BpfInstruction) (pc size v : Z) : VM flow :=
  d ← rd (dst_reg insn);
  let addr := wrap 64 (d + wrap 64 (off insn)) in
  _ ← validate_mem_access addr size;
  _ ← poke (fun m => store_aligned m addr (le_bytes (Z.to_nat size) v));
  mret (Next pc).

Definition exec_op (program : list BpfInstruction) (pc : Z) (insn : BpfInstruction) (o : Opcode)
    : VM flow :=
  let i := wrap 64 (imm insn) in
  match o with
  | LD_IMM_64 =>
      if zlen program <=? pc + 1 then throw ExecutionError
      else
        next_insn ← lift (index program (pc + 1));
        let imm64 := Z.lor (wrap 32 (imm insn)) (wrap 64 (Z.shiftl (wrap 64 (imm next_insn)) 32)) in
        _ ← wr (dst_reg insn) imm64;
        mret (Next (pc + 1))
  | MOV => _ ← wr (dst_reg insn) i; mret (Next pc)
  | MOV_X => alu_x insn pc (fun _ b => b)
  | ALU_ADD => alu insn pc (fun a => wrap 64 (a + i))
  | ALU_ADD_X => alu_x insn pc (fun a b => wrap 64 (a + b))
  | ALU_SUB => alu insn pc (fun a => wrap 64 (a - i))
  | ALU_SUB_X => alu_x insn pc (fun a b => wrap 64 (a - b))
  | ALU_MUL => alu insn pc (fun a => wrap 64 (a * i))
  | ALU_MUL_X => alu_x insn pc (fun a b => wrap 64 (a * b))
  | ALU_DIV => if imm insn =? 0 then throw ExecutionError else alu insn pc (fun a => a / i)
  | ALU_DIV_X =>
      b ← rd (src_reg insn);
      if b =? 0 then throw ExecutionError else alu_x insn pc (fun a b => a / b)
  | ALU_AND => alu insn pc (fun a => Z.land a i)
  | ALU_AND_X => alu_x insn pc Z.land
  | ALU_OR => alu insn pc (fun a => Z.lor a i)
  | ALU_OR_X => alu_x insn pc Z.lor
  | ALU_XOR => alu insn pc (fun a => Z.lxor a i)
  | ALU_XOR_X => alu_x insn pc Z.lxor
  | ALU_LSH => alu insn pc (fun a => wrapping_shl a (wrap 32 (imm insn)))
  | ALU_LSH_X => alu_x insn pc (fun a b => wrapping_shl a (wrap 32 b))
  | ALU_RSH => alu insn pc (fun a => wrapping_shr a (wrap 32 (imm insn)))
  | ALU_RSH_X => alu_x insn pc (fun a b => wrapping_shr a (wrap 32 b))
  | JMP_JA => jump_if insn pc true
  | JMP_JEQ => jmp insn pc Z.eqb
  | JMP_JEQ_X => jmp_x insn pc Z.eqb
  | JMP_JNE => jmp insn pc (fun a b => negb (a =? b))
  | JMP_JNE_X => jmp_x insn pc (fun a b => negb (a =? b))
  | JMP_JGT => jmp insn pc Z.gtb
  | JMP_JGT_X => jmp_x insn pc Z.gtb
  | JMP_JGE => jmp insn pc Z.geb
  | JMP_JGE_X => jmp_x insn pc Z.geb
  | LDX_W => load_x insn pc 4 read_u32
  | LDX_DW => load_x insn pc 8 read_u64
  | STX_W => s ← rd (src_reg insn); store_v insn pc 4 (wrap 32 s)
  | STX_DW => s ← rd (src_reg insn); store_v insn pc 8 s
  | ST_W => store_v insn pc 4 (wrap 32 (imm insn))
  | ST_DW => store_v insn pc 8 i
  | CALL => fun self =>
      match call_helper (imm insn) self with
      | (Err (TailCall h), self') => (Ok (Tail h), self')
      | (Ok v, self') => (_ ← wr 0 v; mret (Next pc)) self'
      | (Err e, self') => (Err e, self')
      | (Panic, self') => (Panic, self')
      | (Fault, self') => (Fault, self')
      end
  | RET => v ← rd 0; mret (Return v)
  end.

Definition exec_insn (program : list BpfInstruction) (pc : Z) (insn : BpfInstruction) : VM flow :=
  if (11 <=? dst_reg insn) || (11 <=? src_reg insn) then throw OutOfBounds
  else match decode (code insn) with
       | Some o => exec_op program pc insn o
       | None => throw ExecutionError
       end.

(** ** The loops *)

Definition MAX_INSTRUCTIONS : nat := (1000 * 1000)%nat.
Definition MAX_TAIL_CALLS : nat := 32.

(** [while pc < program.len()]; running out of [limit] is the code's own
    instruction limit.  [inr h] asks for a tail call. *)
Fixpoint run (limit : nat) (program : list BpfInstruction) (pc : Z) : VM (Z + Z) :=
  match limit with
  | O => throw ExecutionError
  | S limit' =>
      if pc <? zlen program then
        insn ← lift (index program pc);
        fl ← exec_insn program pc insn;
        match fl with
        | Next pc' => if pc' =? 2 ^ 64 - 1 then lift Panic else run limit' program (pc' + 1)
        | Return v => mret (inl v)
        | Tail h => mret (inr h)
        end
      else throw ExecutionError
  end.

(** ['exec: loop]. *)
Fixpoint exec_loop (tails : nat) (program : list BpfInstruction) : VM Z :=
  r ← run MAX_INSTRUCTIONS program 0;
  match r with
  | inl v => mret v
  | inr h =>
      match tails with
      | O => throw ExecutionError
      | S tails' =>
          match programs env !! h with
          | Some next_prog => exec_loop tails' next_prog
          | None => lift Fault
          end
      end
  end.

Definition execute (program : list BpfInstruction) : VM Z := exec_loop MAX_TAIL_CALLS program.

(** [SyscallContext]: the fields [execute_with_syscall_context] reads. *)
Record SyscallContext := mkCtx { number : Z; args : list Z; retval : Z }.

Definition execute_with_syscall_context (program : list BpfInstruction) (ctx : SyscallContext)
    : VM Z :=
  let arg n := default 0 (args ctx !! n) in
  _ ← wr 0 0;
  _ ← wr 1 (number ctx);
  _ ← wr 2 (arg 0%nat);
  _ ← wr 3 (arg 1%nat);
  _ ← wr 4 (arg 2%nat);
  _ ← wr 5 (arg 3%nat);
  _ ← wr 6 (arg 4%nat);
  _ ← wr 7 (arg 5%nat);
  _ ← wr 8 (retval ctx);
  _ ← wr 10 0;
  execute program.

End helpers.

(** ** Confinement *)

(** The memory a program may write: its stack window and the regions of the
    registered maps. *)
Definition owned (env : Env) (base a : Z) : Prop :=
  base - 512 <= a < base \/
  exists map, map ∈ bpf_maps env /\
    BpfMaps.data_ptr map <= a < BpfMaps.data_ptr map + BpfMaps.data_len map.

Definition confined (env : Env) (s s' : BpfVm) : Prop :=
  stack_base s < 2 ^ 64 - 1 ->
  stack_base s' = stack_base s /\
  forall a, ~ owned env (stack_base s) a -> mem s' !! a = mem s !! a.

#[global] Instance confined_preorder env : PreOrder (confined env).
Proof.
  split; [by intros s|]. intros s1 s2 s3 H12 H23 Hb.
  destruct (H12 Hb) as [Hb2 Hm2]. rewrite <-Hb2 in Hb.
  destruct (H23 Hb) as [Hb3 Hm3]. split; [congruence|].
  intros a Ha. rewrite Hm3 by congruence. auto.
Qed.

Lemma is_stack_ptr_spec s addr size :
  stack_base s < 2 ^ 64 - 1 -> 0 <= size -> is_stack_ptr s addr size = true ->
  0 <= addr /\ stack_base s - 512 <= addr /\ addr + size <= stack_base s.
Proof.
  unfold is_stack_ptr, stack_start. intros Hb Hs.
  destruct (Z.ltb_spec addr (Z.max 0 (stack_base s - 512))); [done|].
  destruct (Z.ltb_spec (Z.min (addr + size) (2 ^ 64 - 1)) addr); [done|]. lia.
Qed.

Section confinement.
Context (env : Env).
Hypothesis maps_ok : forall map, map ∈ bpf_maps env -> 0 <= BpfMaps.value_size map /\ BpfMaps.sized map.

Lemma wr_confined r v : keeps (confined env) (wr r v).
Proof. intros s Hb. unfold wr. by destruct (splice _ _ _). Qed.

Lemma rd_confined r : keeps (confined env) (rd r).
Proof. by apply keeps_pure; [apply _|]. Qed.

Lemma peek_confined {A} (f : Mem -> res BpfError A) : keeps (confined env) (peek f).
Proof. by apply keeps_pure; [apply _|]. Qed.

Lemma validate_confined addr size : keeps (confined env) (validate_mem_access addr size).
Proof. by apply keeps_pure; [apply _|]. Qed.

Lemma map_call_confined id missing f :
  (forall map m r m', map ∈ bpf_maps env -> f map m = Ok (r, m') ->
    BpfMaps.unchanged_outside m m' (BpfMaps.data_ptr map)
      (BpfMaps.data_ptr map + BpfMaps.data_len map)) ->
  keeps (confined env) (map_call env id missing f).
Proof.
  intros Hf s Hb. unfold map_call, BpfMaps.get.
  destruct (bpf_maps env !! Z.to_nat id) as [map|] eqn:Hm; [|done].
  apply list_elem_of_lookup_2 in Hm.
  destruct (f map (mem s)) as [[v m]| | |] eqn:Hfm; simpl; [|done..].
  split; [done|]. intros a Ha. eapply Hf; [done..|].
  destruct (decide (a < BpfMaps.data_ptr map \/ BpfMaps.data_ptr map + BpfMaps.data_len map <= a));
    [done|]. exfalso. apply Ha. right. exists map. split; [done|lia].
Qed.

(** A checked write stays in the window. *)
Lemma poke_at s addr size f :
  0 <= size -> is_stack_ptr s addr size = true ->
  (forall m', f (mem s) = Ok m' -> BpfMaps.unchanged_outside (mem s) m' addr (addr + size)) ->
  confined env s (snd (poke f s)).
Proof.
  intros Hsz Hp Hf Hb. unfold poke. destruct (f (mem s)) as [m'| | |]; simpl; [|done..].
  destruct (is_stack_ptr_spec _ _ _ Hb Hsz Hp) as (? & ? & ?).
  split; [done|]. intros a Ha. eapply Hf; [done|].
  destruct (decide (a < addr \/ addr + size <= a)); [done|].
  exfalso. apply Ha. left. lia.
Qed.

Lemma store_aligned_outside m addr bs m' :
  store_aligned (E:=BpfError) m addr bs = Ok m' ->
  BpfMaps.unchanged_outside m m' addr (addr + zlen bs).
Proof.
  unfold store_aligned. destruct (_ =? 0); [|done]. intros H.
  by eapply BpfMaps.store_outside; [done|lia..].
Qed.

Hint Resolve wr_confined rd_confined peek_confined validate_confined : keeps.

Lemma store_v_confined insn pc size v : 0 <= size -> keeps (confined env) (store_v insn pc size v).
Proof.
  intros Hsz. apply keeps_bind; [apply _|auto with keeps|]. intros d s.
  unfold validate_mem_access. unfold mbind at 1, M_bind at 1.
  destruct (is_stack_ptr s _ size) eqn:Hp; [|done].
  apply keeps_bind_at; [apply _| |auto with keeps].
  eapply poke_at; [done|done|]. intros m' H.
  apply store_aligned_outside in H.
  by rewrite zlen_le_bytes, Z2Nat.id in H by lia.
Qed.

Lemma probe_read_confined : keeps (confined env) probe_read.
Proof.
  unfold probe_read. do 3 (apply keeps_bind; [apply _|auto with keeps|intros ?]).
  intros s. unfold get. unfold mbind at 1, M_bind at 1.
  destruct (_ && _) eqn:Hp; [|done]. apply andb_true_iff in Hp as [Hp _].
  destruct (BpfMaps.overlap _ _ _ _); [done|].
  unfold peek. unfold mbind at 1, M_bind at 1.
  destruct (load (mem s) _ _) as [bs| | |] eqn:Hl; [|done..].
  apply keeps_bind_at; [apply _| |auto with keeps].
  pose proof (load_length _ _ _ _ Hl). set (n := Z.min _ 512) in *.
  destruct (decide (0 <= n)).
  - eapply poke_at; [done|done|]. intros m' Hs. eapply BpfMaps.store_outside; [done|lia..].
  - destruct bs; [|unfold zlen in *; simpl in *; lia].
    unfold poke, store. by case_decide.
Qed.

Lemma tail_call_confined : keeps (confined env) (tail_call env).
Proof.
  unfold tail_call. do 2 (apply keeps_bind; [apply _|auto with keeps|intros ?]).
  destruct (BpfMaps.get _ _); [|auto with keeps]. case_decide; auto 8 with keeps.
Qed.

Lemma call_helper_confined id :
  id <> GET_CURRENT_COMM -> keeps (confined env) (call_helper env id).
Proof.
  intros Hid. unfold call_helper.
  repeat match goal with |- keeps _ (if ?b then _ else _) => destruct b eqn:? end;
    try (auto using probe_read_confined, tail_call_confined with keeps; fail).
  - do 2 (apply keeps_bind; [apply _|auto with keeps|intros ?]). apply map_call_confined.
    intros map m r m' _. destruct (BpfMaps.lookup _ _ _); simpl; [|done..]. by intros [= _ <-].
  - do 3 (apply keeps_bind; [apply _|auto with keeps|intros ?]). apply map_call_confined.
    intros map m r m' Hm. by apply BpfMaps.update_outside; apply maps_ok.
  - do 2 (apply keeps_bind; [apply _|auto with keeps|intros ?]). apply map_call_confined.
    intros map m r m' Hm. by apply BpfMaps.delete_outside; apply maps_ok.
  - lia.
  - unfold trace_printk. auto 8 with keeps.
Qed.

(** [GET_CURRENT_COMM] is not called. *)
Definition no_comm (program : list BpfInstruction) : Prop :=
  Forall (fun insn => code insn = op_code CALL -> imm insn <> GET_CURRENT_COMM) program.

Lemma exec_op_confined program pc insn o :
  (o = CALL -> imm insn <> GET_CURRENT_COMM) ->
  keeps (confined env) (exec_op env program pc insn o).
Proof.
  intros Hc.
  assert (Hj : forall b, keeps (confined env) (jump_if insn pc b)) by (unfold jump_if; auto with keeps).
  assert (Hs4 : forall v, keeps (confined env) (store_v insn pc 4 v)) by (intros; by apply store_v_confined).
  assert (Hs8 : forall v, keeps (confined env) (store_v insn pc 8 v)) by (intros; by apply store_v_confined).
  destruct o; unfold exec_op, alu, alu_x, jmp, jmp_x, load_x; cbv zeta;
    try (auto 12 with keeps; fail).
  intros s. pose proof (call_helper_confined (imm insn) (Hc eq_refl) s) as Hh.
  destruct (call_helper _ _ s) as [[v|[]| |] s']; simpl in *; try done.
  etrans; [done|]. apply (keeps_bind (confined env) (wr 0 v)); auto with keeps.
Qed.

Lemma run_confined limit program pc :
  no_comm program -> keeps (confined env) (run env limit program pc).
Proof.
  intros Hp. revert pc. induction limit as [|limit IH]; intros pc; simpl; [auto with keeps|].
  apply keeps_if; [|auto with keeps]. intros s.
  unfold mbind at 1, M_bind at 1, lift at 1.
  destruct (index program pc) as [insn| | |] eqn:Hi; [|done..].
  apply Verifier.index_Ok in Hi as [_ Hi].
  apply keeps_bind_at; [apply _| |].
  - unfold exec_insn. apply keeps_if; [auto with keeps|].
    destruct (decode (code insn)) as [o|] eqn:Ho; [|done].
    apply exec_op_confined. intros ->. apply decode_Some in Ho.
    unfold no_comm in Hp. rewrite Forall_lookup in Hp. by eapply Hp.
  - intros [pc'| |]; auto with keeps.
Qed.

Lemma exec_loop_confined tails program :
  no_comm program -> map_Forall (fun _ p => no_comm p) (programs env) ->
  keeps (confined env) (exec_loop env tails program).
Proof.
  intros Hp Hps. revert program Hp. induction tails as [|tails IH]; intros program Hp;
    cbn [exec_loop]; (apply keeps_bind; [apply _|by apply run_confined|intros [v|h]; [auto with keeps|]]).
  - auto with keeps.
  - destruct (programs env !! h) as [next|] eqn:Hn; [|auto with keeps].
    apply IH. by eapply Hps.
Qed.

End confinement.

(** C7. Confinement.  Let the region of every registered array map have room
    for its entries, which [BpfMap::new] does not see to when the size
    overflows.  Whatever a program does and however its run ends, it changes no
    byte outside its 512-byte stack window and the regions of the registered
    maps, and the window does not move, provided that neither it nor a program
    it may tail-call uses [GET_CURRENT_COMM].  A run that faults is followed up
    to the access at fault: to memory that is not mapped, at an address that is
    not aligned, or between two ranges that overlap. *)
Theorem execute_confined env program s r s' :
  (forall map, map ∈ bpf_maps env -> 0 <= BpfMaps.value_size map /\ BpfMaps.sized map) ->
  no_comm program -> map_Forall (fun _ p => no_comm p) (programs env) ->
  stack_base s < 2 ^ 64 - 1 ->
  execute env program s = (r, s') ->
  stack_base s' = stack_base s /\
  forall a, ~ owned env (stack_base s) a -> mem s' !! a = mem s !! a.
Proof.
  intros Hm Hp Hps Hb He.
  pose proof (exec_loop_confined env Hm MAX_TAIL_CALLS program Hp Hps s Hb) as H.
  unfold execute in He. by rewrite He in H.
Qed.

(** A program that stores R1 on its stack, reads it back and returns it. *)
Definition demo_prog : list BpfInstruction :=
  [mkInsn (op_code STX_DW) 0x1a (-8) 0; mkInsn (op_code LDX_DW) 0xa0 (-8) 0;
   mkInsn (op_code RET) 0 0 0].
Definition demo_env : Env := mkEnv [] ∅ 0 None 0.
Definition demo_vm : BpfVm := new 4096 (store_bytes ∅ 4096 (zeros 520)).

(** An array map of eight values of four bytes, at 8192. *)
Definition map_env : Env := mkEnv [fst (BpfMaps.new BpfMaps.Array 4 4 8 8192 ∅)] ∅ 0 None 0.

Lemma execute_confined_witness :
  stack_base (snd (execute map_env demo_prog demo_vm)) = 4608.
Proof.
  apply (execute_confined map_env demo_prog demo_vm (fst (execute map_env demo_prog demo_vm))).
  - intros map ->%list_elem_of_singleton. split; [done|]. by apply BpfMaps.new_sized.
  - repeat constructor; done.
  - apply map_Forall_empty.
  - done.
  - apply surjective_pairing.
Defined.

(** ** What the verifier's acceptance gives *)

(** Does the instruction write its destination register? *)
Definition writes_dst (o : Opcode) : bool :=
  match o with
  | JMP_JA | JMP_JEQ | JMP_JNE | JMP_JGT | JMP_JGE
  | JMP_JEQ_X | JMP_JNE_X | JMP_JGT_X | JMP_JGE_X
  | RET | CALL | STX_W | STX_DW | ST_W | ST_DW => false
  | _ => true
  end.

(** What a program must satisfy besides being accepted: at every instruction
    start, the frame pointer is not written, stack offsets are whole
    doublewords below R10, jumps land on instruction starts other than 0, and
    no helper is called. *)
Record disciplined (program : list BpfInstruction) (i : Z) (insn : BpfInstruction) : Prop := {
  keeps_fp : forall o, code insn = op_code o -> writes_dst o = true -> dst_reg insn <> 10;
  aligned : Verifier.is_load (code insn) \/ Verifier.is_store (code insn) ->
    off insn <= -8 /\ off insn mod 8 = 0;
  lands : Verifier.is_jump (code insn) ->
    Verifier.starts program 0 (i + off insn + 1) /\ i + off insn + 1 <> 0;
  no_call : code insn <> op_code CALL
}.

Record vm_ok (s : BpfVm) : Prop := {
  regs_len : zlen (registers s) = 11;
  regs_fp : registers s !! 10%nat = Some (stack_base s);
  base_range : 512 <= stack_base s < 2 ^ 64 - 1;
  base_aligned : stack_base s mod 8 = 0;
  stack_mapped : mapped (mem s) (stack_base s - 512) 512
}.

Section soundness.
Context (env : Env) (program : list BpfInstruction).
Hypothesis Hacc : Verifier.accepts program.
Hypothesis Hdisc : forall i insn, Verifier.starts program 0 i ->
  program !! Z.to_nat i = Some insn -> disciplined program i insn.

(** The outcome of one instruction: the machine is still well formed, and the
    loop goes on at an instruction start, returns, or reports an execution
    error. *)
Definition good (o : res BpfError flow * BpfVm) : Prop :=
  vm_ok (snd o) /\
  match fst o with
  | Ok (Next pc) => -1 <= pc < 2 ^ 64 - 1 /\ Verifier.starts program 0 (pc + 1)
  | Ok (Return _) => True
  | Err ExecutionError => True
  | _ => False
  end.

Lemma rd_ok s r : vm_ok s -> 0 <= r < 11 -> exists v, rd r s = (Ok v, s).
Proof.
  intros Hs Hr. unfold rd, index. rewrite decide_True by lia.
  destruct (lookup_lt_is_Some_2 (registers s) (Z.to_nat r)) as [v Hv];
    [pose proof (regs_len s Hs); unfold zlen in *; lia|].
  rewrite Hv. by eexists.
Qed.

Lemma rd_fp s : vm_ok s -> rd 10 s = (Ok (stack_base s), s).
Proof. intros Hs. 
  unfold rd, index. rewrite decide_True by lia.
  change (Z.to_nat 10) with 10%nat. by rewrite (regs_fp s Hs).
Qed.

Lemma wr_ok s r v : vm_ok s -> 0 <= r < 11 -> r <> 10 -> exists s', wr r v s = (Ok tt, s') /\ vm_ok s'.
Proof.
  intros Hs Hr Hne. unfold wr, splice. pose proof (regs_len s Hs).
  assert (Hz : zlen [v] = 1) by done. rewrite decide_True by lia.
  eexists. split; [done|]. destruct Hs. split; simpl; [|  |done..].
  - by rewrite zlen_upd by lia.
  - rewrite upd_lookup by lia. rewrite decide_False by lia. done.
Qed.

Lemma starts_snoc i j insn :
  Verifier.starts program i j -> program !! Z.to_nat j = Some insn ->
  Verifier.starts program i (Verifier.next_start j insn).
Proof.
  induction 1 as [|i insn' j Hi _ IH]; intros Hj.
  - eapply Verifier.starts_next; [done|]. constructor.
  - eapply Verifier.starts_next; [done|]. auto.
Qed.

(** One instruction, at a start [pc]. *)
Section insn.
Context (pc : Z) (insn : BpfInstruction).
Hypothesis Hpc : Verifier.starts program 0 pc.
Hypothesis Hpc0 : 0 <= pc < zlen program.
Hypothesis Hinsn : program !! Z.to_nat pc = Some insn.

Lemma insn_facts :
  Verifier.insn_ok (zlen program) pc insn /\ disciplined program pc insn /\
  zlen program <= 4096 /\ 0 <= dst_reg insn < 11 /\ 0 <= src_reg insn < 11.
Proof.
  destruct Hacc as ([_ Hlen] & _ & Hall). pose proof (Hall pc insn Hpc Hinsn) as Hok.
  split; [done|]. split; [by apply Hdisc|]. split; [done|].
  pose proof (dst_reg_bound insn). pose proof (src_reg_bound insn).
  destruct (Verifier.reg_ok _ _ _ Hok). lia.
Qed.

Lemma next_good s : vm_ok s -> code insn <> op_code LD_IMM_64 -> good (Ok (Next pc), s).
Proof.
  intros Hs Hc. destruct insn_facts as (_ & _ & Hlen & _). split; [done|]. simpl. split; [lia|].
  pose proof (starts_snoc 0 pc insn Hpc Hinsn) as H.
  unfold Verifier.next_start in H. by destruct (Z.eqb_spec (code insn) (op_code LD_IMM_64)).
Qed.

Lemma alu_good s f :
  vm_ok s -> code insn <> op_code LD_IMM_64 -> dst_reg insn <> 10 -> good (alu insn pc f s).
Proof.
  intros Hs Hc Hd. destruct insn_facts as (_ & _ & _ & Hdst & _).
  destruct (rd_ok s (dst_reg insn)) as [a Ha]; [done..|].
  unfold alu, mbind, M_bind. rewrite Ha.
  destruct (wr_ok s (dst_reg insn) (f a)) as (s' & -> & ?); [done..|]. by apply next_good.
Qed.

Lemma alu_x_good s f :
  vm_ok s -> code insn <> op_code LD_IMM_64 -> dst_reg insn <> 10 -> good (alu_x insn pc f s).
Proof.
  intros Hs Hc Hd. destruct insn_facts as (_ & _ & _ & Hdst & Hsrc).
  destruct (rd_ok s (dst_reg insn)) as [a Ha]; [done..|].
  destruct (rd_ok s (src_reg insn)) as [b Hb]; [done..|].
  unfold alu_x, mbind, M_bind. rewrite Ha, Hb.
  destruct (wr_ok s (dst_reg insn) (f a b)) as (s' & -> & ?); [done..|]. by apply next_good.
Qed.

Lemma jump_good s b : vm_ok s -> Verifier.is_jump (code insn) -> good (jump_if insn pc b s).
Proof.
  intros Hs Hj. destruct insn_facts as (Hok & Hd & Hlen & _).
  assert (code insn <> op_code LD_IMM_64) by (intros Hc; rewrite Hc in Hj; by destruct Hj).
  destruct b; [|by apply next_good].
  pose proof (Verifier.jump_ok _ _ _ Hok Hj). destruct (lands _ _ _ Hd Hj) as [Hst Hne].
  assert (Hs32 : sint 32 pc = pc).
  { unfold sint. rewrite wrap_small by (unfold fits; lia).
    by destruct (Z.ltb_spec pc (2 ^ (32 - 1))); [|lia]. }
  unfold jump_if, jump_target, mbind, M_bind, lift. rewrite Hs32.
  destruct (Z.ltb_spec (pc + off insn) (- 2 ^ 31)); [lia|].
  destruct (Z.leb_spec (2 ^ 31) (pc + off insn)); [lia|]. simpl.
  rewrite wrap_small by (unfold fits; lia). split; [done|]. simpl. split; [lia|done].
Qed.

Lemma jmp_good s cmp : vm_ok s -> Verifier.is_jump (code insn) -> good (jmp insn pc cmp s).
Proof.
  intros Hs Hj. destruct insn_facts as (_ & _ & _ & Hdst & _).
  destruct (rd_ok s (dst_reg insn)) as [a Ha]; [done..|].
  unfold jmp, mbind at 1, M_bind at 1. rewrite Ha. by apply jump_good.
Qed.

Lemma jmp_x_good s cmp : vm_ok s -> Verifier.is_jump (code insn) -> good (jmp_x insn pc cmp s).
Proof.
  intros Hs Hj. destruct insn_facts as (_ & _ & _ & Hdst & Hsrc).
  destruct (rd_ok s (dst_reg insn)) as [a Ha]; [done..|].
  destruct (rd_ok s (src_reg insn)) as [b Hb]; [done..|].
  unfold jmp_x, mbind, M_bind. rewrite Ha, Hb. by apply jump_good.
Qed.

(** A doubleword-aligned address [o] bytes below the frame pointer. *)
Lemma stack_addr s size :
  vm_ok s -> size = 4 \/ size = 8 -> off insn <= -8 /\ off insn mod 8 = 0 -> -512 <= off insn ->
  let addr := wrap 64 (stack_base s + wrap 64 (off insn)) in
  addr = stack_base s + off insn /\ is_stack_ptr s addr size = true /\ addr mod size = 0 /\
  mapped (mem s) addr size.
Proof.
  intros Hs Hsz [Ho Hal] Hlo addr. pose proof (base_range s Hs). pose proof (base_aligned s Hs).
  assert (Ha : addr = stack_base s + off insn).
  { unfold addr, wrap. rewrite Z.add_mod_idemp_r by lia. apply Z.mod_small. lia. }
  split; [done|]. rewrite Ha. split_and!.
  - unfold is_stack_ptr, stack_start.
    destruct (Z.ltb_spec (stack_base s + off insn) (Z.max 0 (stack_base s - 512))); [lia|].
    destruct (Z.ltb_spec (Z.min (stack_base s + off insn + size) (2 ^ 64 - 1))
                (stack_base s + off insn)); lia.
  - destruct Hsz as [-> | ->]; Z.div_mod_to_equations; lia.
  - pose proof (stack_mapped s Hs) as Hm. rewrite mapped_alt in Hm |- *.
    intros i Hi. apply Hm. lia.
Qed.

Lemma load_good s size read :
  vm_ok s -> size = 4 \/ size = 8 -> Verifier.is_load (code insn) -> dst_reg insn <> 10 ->
  (forall m addr, addr mod size = 0 -> mapped m addr size -> exists v, read m addr = Ok v) ->
  good (load_x insn pc size read s).
Proof.
  intros Hs Hsz Hl Hd Hread. destruct insn_facts as (Hok & Hdi & _ & Hdst & _).
  assert (code insn <> op_code LD_IMM_64) by (intros Hc; rewrite Hc in Hl; done).
  destruct (Verifier.load_ok _ _ _ Hok Hl) as [Hr10 Ho].
  destruct (stack_addr s size) as (_ & Hp & Hal & Hm);
    [done|done|by apply (aligned _ _ _ Hdi); left|lia|].
  unfold load_x, validate_mem_access, peek, mbind, M_bind. rewrite Hr10, rd_fp by done.
  rewrite Hp. destruct (Hread _ _ Hal Hm) as [v ->].
  destruct (wr_ok s (dst_reg insn) v) as (s' & -> & ?); [done..|]. by apply next_good.
Qed.

Lemma store_good s size v :
  vm_ok s -> size = 4 \/ size = 8 -> Verifier.is_store (code insn) ->
  good (store_v insn pc size v s).
Proof.
  intros Hs Hsz Hst. destruct insn_facts as (Hok & Hdi & _ & Hdst & _).
  assert (code insn <> op_code LD_IMM_64) by (intros Hc; rewrite Hc in Hst; by destruct Hst).
  destruct (Verifier.store_ok _ _ _ Hok Hst) as [Hr10 Ho].
  destruct (stack_addr s size) as (_ & Hp & Hal & Hm);
    [done|done|by apply (aligned _ _ _ Hdi); right|lia|].
  assert (Hz : zlen (le_bytes (Z.to_nat size) v) = size) by (rewrite zlen_le_bytes; lia).
  unfold store_v, validate_mem_access, poke, store_aligned, mbind, M_bind.
  rewrite Hr10, rd_fp, Hp, Hz by done. rewrite (proj2 (Z.eqb_eq _ _) Hal).
  rewrite store_Ok by (by rewrite Hz). apply next_good; [|done].
  destruct Hs. split; simpl; try done. rewrite mapped_alt in stack_mapped0 |- *.
  intros i Hi. rewrite store_bytes_lookup. case_decide; [|auto].
  apply lookup_lt_is_Some_2. unfold zlen in *. lia.
Qed.

Lemma read_u32_ok m addr : addr mod 4 = 0 -> mapped m addr 4 -> exists v, read_u32 (E:=BpfError) m addr = Ok v.
Proof.
  intros Ha Hm. unfold read_u32, load_aligned. rewrite (proj2 (Z.eqb_eq _ _) Ha).
  destruct (load_mapped (E:=BpfError) _ _ _ Hm) as [bs ->]. by eexists.
Qed.

Lemma read_u64_ok m addr : addr mod 8 = 0 -> mapped m addr 8 -> exists v, read_u64 (E:=BpfError) m addr = Ok v.
Proof.
  intros Ha Hm. unfold read_u64, load_aligned. rewrite (proj2 (Z.eqb_eq _ _) Ha).
  destruct (load_mapped (E:=BpfError) _ _ _ Hm) as [bs ->]. by eexists.
Qed.

Lemma wide_good s :
  vm_ok s -> code insn = op_code LD_IMM_64 -> good (exec_op env program pc insn LD_IMM_64 s).
Proof.
  intros Hs Hc. destruct insn_facts as (Hok & Hdi & Hlen & Hdst & _).
  pose proof (Verifier.wide_ok _ _ _ Hok Hc). unfold exec_op.
  destruct (Z.leb_spec (zlen program) (pc + 1)); [lia|].
  destruct (lookup_lt_is_Some_2 program (Z.to_nat (pc + 1))) as [nx Hnx]; [unfold zlen in *; lia|].
  unfold lift, mbind, M_bind. rewrite (proj2 (Verifier.index_Ok program (pc + 1) nx)) by (split; [lia|done]).
  cbv zeta. edestruct (wr_ok s (dst_reg insn)) as (s' & -> & ?);
    [done..|by eapply (keeps_fp _ _ _ Hdi LD_IMM_64)|].
  split; [done|]. simpl. split; [lia|].
  pose proof (starts_snoc 0 pc insn Hpc Hinsn) as Hs'. unfold Verifier.next_start in Hs'.
  rewrite (proj2 (Z.eqb_eq _ _) Hc) in Hs'. by replace (pc + 1 + 1) with (pc + 2) by lia.
Qed.

Lemma exec_op_good s o : vm_ok s -> code insn = op_code o -> good (exec_op env program pc insn o s).
Proof.
  intros Hs Hc. destruct (decide (o = LD_IMM_64)) as [->|Hw]; [by apply wide_good|].
  destruct insn_facts as (Hok & Hdi & _ & Hdst & Hsrc).
  assert (Hnl : code insn <> op_code LD_IMM_64).
  { intros Hc'. rewrite Hc in Hc'. apply (f_equal decode) in Hc'.
    rewrite !decode_op_code in Hc'. congruence. }
  assert (Hd : writes_dst o = true -> dst_reg insn <> 10) by (by apply (keeps_fp _ _ _ Hdi)).
  pose proof (no_call _ _ _ Hdi) as Hnc. rewrite Hc in Hnc.
  pose proof read_u32_ok. pose proof read_u64_ok.
  destruct (rd_ok s (src_reg insn)) as [b Hb]; [done..|].
  destruct (rd_ok s 0) as [v Hv]; [done..|].
  assert (Hx : good (throw ExecutionError s)) by done.
  destruct o; try done; unfold exec_op; cbv zeta;
    first
      [ by apply alu_good; auto
      | by apply alu_x_good; auto
      | by apply jmp_good; [|rewrite Hc]
      | by apply jmp_x_good; [|rewrite Hc]
      | by apply jump_good; [|rewrite Hc]
      | by apply load_good; auto; rewrite Hc
      | by unfold mbind at 1, M_bind at 1; rewrite Hb; apply store_good; auto; rewrite Hc;
          unfold Verifier.is_store; auto
      | by apply store_good; auto; rewrite Hc; unfold Verifier.is_store; auto
      | idtac ].
  - destruct (imm insn =? 0); [done|]. apply alu_good; auto.
  - unfold mbind, M_bind. rewrite Hb. destruct (b =? 0); [done|]. apply alu_x_good; auto.
  - unfold mbind, M_bind. by rewrite Hv.
  - unfold mbind, M_bind.
    destruct (wr_ok s (dst_reg insn) (wrap 64 (imm insn))) as (s' & -> & ?); auto. by apply next_good.
Qed.

Lemma exec_insn_good s : vm_ok s -> good (exec_insn env program pc insn s).
Proof.
  intros Hs. destruct insn_facts as (_ & _ & _ & Hdst & Hsrc). unfold exec_insn.
  destruct (Z.leb_spec 11 (dst_reg insn)); [lia|].
  destruct (Z.leb_spec 11 (src_reg insn)); [lia|]. simpl.
  destruct (decode (code insn)) as [o|] eqn:Ho; [|by split].
  apply exec_op_good; [done|]. by apply decode_Some.
Qed.

End insn.

Lemma run_good limit pc s :
  vm_ok s -> 0 <= pc -> Verifier.starts program 0 pc ->
  (exists v, fst (run env limit program pc s) = Ok (inl v)) \/
  fst (run env limit program pc s) = Err ExecutionError.
Proof.
  revert pc s. induction limit as [|limit IH]; intros pc s Hs Hpc Hst; simpl; [by right|].
  destruct (Z.ltb_spec pc (zlen program)) as [Hlt|]; [|by right].
  destruct (lookup_lt_is_Some_2 program (Z.to_nat pc)) as [insn Hi]; [unfold zlen in *; lia|].
  unfold lift, mbind, M_bind. rewrite (proj2 (Verifier.index_Ok program pc insn)) by (split; [lia|done]).
  pose proof (exec_insn_good pc insn Hst (conj Hpc Hlt) Hi s Hs) as [Hs' Hg].
  destruct (exec_insn env program pc insn s) as [[[pc'|v|h]|[]| |] s']; simpl in *; try done.
  - destruct (Z.eqb_spec pc' (2 ^ 64 - 1)); [lia|]. apply IH; [done|lia|apply Hg].
  - left. by exists v.
  - by right.
Qed.

End soundness.

(** C8. Soundness of the verifier for disciplined programs.  If the verifier
    accepts a program whose instructions leave R10 alone, access the stack at
    doubleword offsets below it, jump to instruction starts other than the
    first and call no helper, then running it on a well-formed machine ends
    with a result or an execution error: no panic, no access outside mapped
    memory, not even an out-of-bounds error. *)
Theorem verified_sound env program s :
  Verifier.verify program = Ok tt ->
  (forall i insn, Verifier.starts program 0 i -> program !! Z.to_nat i = Some insn ->
    disciplined program i insn) ->
  vm_ok s ->
  (exists v, fst (execute env program s) = Ok v) \/
  fst (execute env program s) = Err ExecutionError.
Proof.
  intros Hv Hd Hs. apply Verifier.verify_accepts in Hv.
  pose proof (run_good env program Hv Hd MAX_INSTRUCTIONS 0 s Hs) as Hr.
  unfold execute, MAX_TAIL_CALLS. cbn [exec_loop]. unfold mbind, M_bind.
  destruct (run env MAX_INSTRUCTIONS program 0 s) as [r s']; simpl in Hr.
  destruct Hr as [[v ->]| ->]; [lia|constructor| |]; [left; by exists v|by right].
Qed.

Lemma demo_vm_ok : vm_ok demo_vm.
Proof.
  split; try (by vm_compute). apply (bool_decide_unpack _). vm_compute. exact I.
Qed.

Lemma verified_sound_witness :
  (exists v, fst (execute demo_env demo_prog demo_vm) = Ok v) \/
  fst (execute demo_env demo_prog demo_vm) = Err ExecutionError.
Proof.
  apply (verified_sound demo_env demo_prog demo_vm).
  - vm_compute. reflexivity.
  - intros i insn _ Hi. apply list_elem_of_lookup_2 in Hi.
    assert (Hj : ~ Verifier.is_jump (code insn)).
    { repeat (apply elem_of_cons in Hi as [->|Hi]; [by intros (? & ? & ?)|]).
      by apply elem_of_nil in Hi. }
    repeat (apply elem_of_cons in Hi as [->|Hi];
      [split; [intros []; done|by intros [?|[?|?]]|done|done]|]).
    by apply elem_of_nil in Hi.
  - apply demo_vm_ok.
Defined.

(** A loop back to the first instruction. *)
Definition loop_prog : list BpfInstruction :=
  [mkInsn (op_code MOV) 0 0 0; mkInsn (op_code JMP_JA) 0 (-2) 0; mkInsn (op_code RET) 0 0 0].

Lemma loop_panics env k s : vm_ok s -> fst (run env (S (S k)) loop_prog 0 s) = Panic.
Proof.
  intros Hs. cbn [run]. unfold exec_insn, exec_op, mbind, M_bind. simpl.
  destruct (wr_ok s 0 0) as (s' & Hw & _); [done..|].
  change (wr (dst_reg _) (wrap 64 0) s) with (wr 0 0 s). rewrite Hw. reflexivity.
Qed.

(** Acceptance alone does not exclude a panic: the verifier accepts a
    program that jumps back to instruction 0, and the interpreter, which sets
    [pc] to the target minus one, overflows on its [pc += 1]. *)
Theorem verified_program_panics env s :
  vm_ok s ->
  Verifier.verify loop_prog = Ok tt /\ fst (execute env loop_prog s) = Panic.
Proof.
  intros Hs. split; [vm_compute; reflexivity|].
  unfold execute, MAX_TAIL_CALLS. cbn [exec_loop]. unfold mbind, M_bind.
  replace MAX_INSTRUCTIONS with (S (S (998 + 999 * 1000))) by reflexivity.
  pose proof (loop_panics env (998 + 999 * 1000) s Hs) as Hp.
  destruct (run _ _ _ _ _) as [r s']. simpl in Hp. by rewrite Hp.
Qed.

Lemma verified_program_panics_witness : fst (execute demo_env loop_prog demo_vm) = Panic.
Proof. apply (verified_program_panics demo_env demo_vm), demo_vm_ok. Defined.

(** R1 = R10 - 10; R2 = 512; call [GET_CURRENT_COMM]. *)
Definition comm_prog : list BpfInstruction :=
  [mkInsn (op_code MOV_X) 0xa1 0 0; mkInsn (op_code ALU_ADD) 1 0 (-10);
   mkInsn (op_code MOV) 2 0 512; mkInsn (op_code CALL) 0 0 7; mkInsn (op_code RET) 0 0 0].

(** A run that returns within [n] instructions returns the same within more. *)
Lemma run_more env n k program pc s v s' :
  run env n program pc s = (Ok v, s') -> run env (n + k) program pc s = (Ok v, s').
Proof.
  revert pc s. induction n as [|n IH]; intros pc s; simpl; [done|].
  destruct (pc <? zlen program); [|done]. unfold lift, mbind, M_bind.
  destruct (index program pc) as [insn| | |]; [|done..].
  destruct (exec_insn env program pc insn s) as [[[pc'| |]| | |] s1]; try done.
  destruct (pc' =? 2 ^ 64 - 1); [done|]. apply IH.
Qed.

Lemma execute_short env program s v s' :
  run env 100 program 0 s = (Ok (inl v), s') -> execute env program s = (Ok v, s').
Proof.
  intros Hr. unfold execute, MAX_TAIL_CALLS. cbn [exec_loop]. unfold mbind, M_bind.
  replace MAX_INSTRUCTIONS with (100 + (900 + 999 * 1000))%nat by reflexivity.
  by rewrite (run_more _ _ _ _ _ _ _ _ Hr).
Qed.

(** Confinement really fails with [GET_CURRENT_COMM]: the helper checks
    the ten bytes of the name but zero-fills up to 512 bytes, so an accepted
    program clears the 502 bytes of kernel memory above its stack (the first
    and the last of them shown here). *)
Theorem comm_overwrites_kernel_memory :
  let s := new 4096 (store_bytes ∅ 4096 (zeros 512 ++ replicate 512 255)) in
  Verifier.verify comm_prog = Ok tt /\
  fst (execute demo_env comm_prog s) = Ok 0 /\
  Forall (fun a => mem s !! a = Some 255 /\
    mem (snd (execute demo_env comm_prog s)) !! a = Some 0) [4608; 5109].
Proof.
  intros s. split; [vm_compute; reflexivity|].
  destruct (run demo_env 100 comm_prog 0 s) as [r s'] eqn:Hr.
  assert (Hv : r = Ok (inl 0)) by (change r with (fst (r, s')); rewrite <-Hr; vm_compute; reflexivity).
  rewrite Hv in Hr. rewrite (execute_short _ _ _ _ _ Hr). split; [done|].
  change s' with (snd (r, s')). rewrite Hv, <-Hr.
  apply (bool_decide_unpack _). vm_compute. exact I.
Qed.

End Vm.
