(* ===== verification/EbpfAttach.v ===== *)
(** * eBPF: attach points

    Models [src/ebpf/attach.rs]: the vector of attached programs, attaching
    (which verifies), detaching by position, and running every program of a
    tracepoint.  [run] threads kernel memory through the programs; each machine
    gets a fresh stack at [stack_addr].  Log messages are not modelled. *)

From S2P Require Import Prelude Bytes EbpfIsa EbpfVerifier EbpfVm.

Module Attach.
Import Ebpf.

Inductive TracepointType := SyscallEntry | SyscallExit | SchedSwitch | PageFault | IrqEntry.

#[global] Instance TracepointType_eq_dec : EqDecision TracepointType.
Proof. solve_decision. Defined.

Inductive TracepointCtx :=
| CtxSyscall (number : Z) (args : list Z) (retval : Z)
| CtxSchedSwitch (prev_pid next_pid : Z)
| CtxPageFault (addr error_code : Z)
| CtxIrq (vector : Z).

Record BpfProgram := mkProgram {
  instructions : list BpfInstruction;
  refs : Z   (* AtomicU32 *)
}.

Definition new_program (insns : list BpfInstruction) : BpfProgram := mkProgram insns 1.

Definition inc_ref (p : BpfProgram) : BpfProgram :=
  mkProgram (instructions p) (wrap 32 (refs p + 1)).

(** The decremented program, and whether the count was one. *)
Definition dec_ref (p : BpfProgram) : bool * BpfProgram :=
  (refs p =? 1, mkProgram (instructions p) (wrap 32 (refs p - 1))).

Abbreviation Entries := (list (TracepointType * BpfProgram)).

Definition attach (tp : TracepointType) (prog : BpfProgram) (entries : Entries)
    : res BpfError (Z * Entries) :=
  _ ← Verifier.verify (instructions prog);
  let entries' := entries ++ [(tp, inc_ref prog)] in
  Ok (zlen entries' - 1, entries').

Definition detach (id : Z) (entries : Entries) : bool * Entries :=
  if id <? zlen entries then (true, delete (Z.to_nat id) entries) else (false, entries).

(** The registers a machine starts with. *)
Definition init_registers (ctx : TracepointCtx) : Vm.VM unit :=
  match ctx with
  | CtxSyscall number args retval =>
      let arg n := default 0 (args !! n) in
      _ ← Vm.wr 0 0;
      _ ← Vm.wr 1 number;
      _ ← Vm.wr 2 (arg 0%nat);
      _ ← Vm.wr 3 (arg 1%nat);
      _ ← Vm.wr 4 (arg 2%nat);
      _ ← Vm.wr 5 (arg 3%nat);
      _ ← Vm.wr 6 (arg 4%nat);
      _ ← Vm.wr 7 (arg 5%nat);
      Vm.wr 8 retval
  | CtxSchedSwitch prev_pid next_pid => _ ← Vm.wr 1 prev_pid; Vm.wr 2 next_pid
  | CtxPageFault addr error_code => _ ← Vm.wr 1 addr; Vm.wr 2 error_code
  | CtxIrq vector => Vm.wr 1 vector
  end.

(** One program: whether it returned a value, and the memory it leaves. *)
Definition run_one (env : Vm.Env) (stack_addr : Z) (ctx : TracepointCtx) (prog : BpfProgram)
    : M Mem BpfError bool := fun m =>
  match (_ ← init_registers ctx; Vm.execute env (instructions prog)) (Vm.new stack_addr m) with
  | (Ok _, vm) => (Ok true, Vm.mem vm)
  | (Err _, vm) => (Ok false, Vm.mem vm)
  | (Panic, vm) => (Panic, Vm.mem vm)
  | (Fault, vm) => (Fault, Vm.mem vm)
  end.

Fixpoint run (env : Vm.Env) (stack_addr : Z) (tp : TracepointType) (ctx : TracepointCtx)
    (entries : Entries) (any : bool) : M Mem BpfError bool :=
  match entries with
  | [] => mret any
  | (tp_ref, prog) :: rest =>
      if decide (tp_ref = tp) then
        ok ← run_one env stack_addr ctx prog;
        run env stack_addr tp ctx rest (any || ok)
      else run env stack_addr tp ctx rest any
  end.

(** ** Reachable attachment tables *)

Inductive step : Entries -> Entries -> Prop :=
| step_attach tp insns entries id entries' :
    attach tp (new_program insns) entries = Ok (id, entries') -> step entries entries'
| step_detach id entries : step entries (snd (detach id entries)).

(** Only verified programs are ever attached: in every table reachable
    from the empty one by attaching new programs and detaching, each program
    satisfies the verifier's condition and holds a reference count of two. *)
Theorem attached_verified entries :
  rtc step [] entries ->
  Forall (fun e => Verifier.accepts (instructions (snd e)) /\ refs (snd e) = 2) entries.
Proof.
  intros Hr. revert entries Hr. apply (rtc_ind_r (R:=step)); [by constructor|].
  intros es es' _ Hs IH. destruct Hs as [tp insns es id es' Ha|id es].
  - unfold attach in Ha. destruct (Verifier.verify _) as [[]| | |] eqn:Hv; simpl in Ha; [|done..].
    injection Ha as _ <-. apply Forall_app. split; [done|].
    apply Forall_singleton. split; [by apply Verifier.verify_accepts|done].
  - unfold detach. destruct (id <? zlen es); [|done]. simpl.
    apply Forall_forall. intros e He. rewrite Forall_forall in IH. apply IH.
    apply list_elem_of_lookup in He as [k Hk]. apply list_elem_of_lookup.
    destruct (decide (k < Z.to_nat id)%nat).
    + rewrite list_lookup_delete_lt in Hk by done. by eexists.
    + rewrite list_lookup_delete_ge in Hk by lia. by eexists.
Qed.

Definition ret_prog : list BpfInstruction := [mkInsn (op_code RET) 0 0 0].

Lemma attached_verified_witness :
  Forall (fun e => Verifier.accepts (instructions (snd e)) /\ refs (snd e) = 2)
    [(SyscallEntry, inc_ref (new_program ret_prog))].
Proof.
  apply attached_verified. eapply rtc_l; [|apply rtc_refl].
  by apply (step_attach SyscallEntry ret_prog [] 0).
Defined.

(** Ids are positions, so detaching a program renumbers the later ones:
    after attaching two programs and detaching the first by its id, the second
    is still attached but its id no longer detaches it. *)
Theorem detach_renumbers tp1 tp2 p1 p2 entries id1 id2 es1 es2 :
  attach tp1 p1 entries = Ok (id1, es1) -> attach tp2 p2 es1 = Ok (id2, es2) ->
  let es3 := snd (detach id1 es2) in
  fst (detach id1 es2) = true /\ es3 = entries ++ [(tp2, inc_ref p2)] /\
  detach id2 es3 = (false, es3).
Proof.
  unfold attach.
  destruct (Verifier.verify (instructions p1)); cbn [mbind res_bind]; [|discriminate..]. intros [= <- <-].
  destruct (Verifier.verify (instructions p2)); cbn [mbind res_bind]; [|discriminate..]. intros [= <- <-].
  set (es3 := snd _).
  assert (H3 : es3 = entries ++ [(tp2, inc_ref p2)]).
  { unfold es3, detach. unfold zlen. rewrite !length_app. simpl.
    destruct (Z.ltb_spec (Z.of_nat (length entries + 1) - 1) (Z.of_nat (length entries + 1 + 1)));
      [|lia]. simpl. replace (Z.to_nat _) with (length entries) by lia.
    rewrite <-app_assoc. apply delete_middle. }
  rewrite H3. split_and!; [|done|].
  - unfold detach, zlen. rewrite !length_app. simpl.
    by destruct (Z.ltb_spec (Z.of_nat (length entries + 1) - 1) (Z.of_nat (length entries + 1 + 1))); [|lia].
  - unfold detach, zlen. rewrite !length_app. simpl.
    by destruct (Z.ltb_spec (Z.of_nat (length entries + 1 + 1) - 1) (Z.of_nat (length entries + 1))); [lia|].
Qed.

Lemma detach_renumbers_witness :
  let es := [(SyscallEntry, inc_ref (new_program ret_prog)); (SyscallExit, inc_ref (new_program ret_prog))] in
  detach 1 (snd (detach 0 es)) = (false, [(SyscallExit, inc_ref (new_program ret_prog))]).
Proof.
  apply (detach_renumbers SyscallEntry SyscallExit (new_program ret_prog) (new_program ret_prog)
           [] 0 1 [(SyscallEntry, inc_ref (new_program ret_prog))]); reflexivity.
Defined.

End Attach.
