(* ===== verification/Ipc.v ===== *)
(** * Message channels

    Models [src/ipc/mod.rs].  A [Channel] is a ring of 16 slots; the theorems
    show that it is a FIFO queue of at most 15 messages.  Channels are shared
    through [Arc], so the kernel state keeps them in a store and the two tables
    ([CHANNELS] and [IPC]) hold references into it: a message sent through one
    table is received through the other. *)

From S2P Require Import Prelude Bytes.

Module Ipc.

Definition MSG_MAX : Z := 256.
Definition RING_CAP : Z := 16.
Definition MAX_CHANNELS : Z := 32.

Record Message := mkMessage {
  sender : Z;
  len : Z;
  data : list Z   (* [u8; 256] *)
}.

Definition new_message (sender : Z) (bytes : list Z) : Message :=
  let len := Z.min (zlen bytes) MSG_MAX in
  mkMessage sender len (upd 0 (take (Z.to_nat len) bytes) (zeros MSG_MAX)).

Inductive IpcError := Full | Empty | InvalidChannel.

Record Channel := mkChannel {
  ring : list (option Message);   (* 16 slots *)
  head : Z;
  tail : Z
}.

Definition new_channel : Channel := mkChannel (replicate 16 None) 0 0.

Definition chan_send (msg : Message) : M Channel IpcError unit := fun inner =>
  let next_head := (head inner + 1) mod RING_CAP in
  if next_head =? tail inner then (Err Full, inner)
  else match splice (head inner) [Some msg] (ring inner) with
       | Ok ring' => (Ok tt, mkChannel ring' next_head (tail inner))
       | Err e => (Err e, inner)
       | Panic => (Panic, inner)
       | Fault => (Fault, inner)
       end.

Definition chan_recv : M Channel IpcError Message := fun inner =>
  if head inner =? tail inner then (Err Empty, inner)
  else match index (ring inner) (tail inner) with
       | Ok None => (Err Empty, inner)
       | Ok (Some msg) =>
           (Ok msg, mkChannel (upd (tail inner) [None] (ring inner)) (head inner)
                      ((tail inner + 1) mod RING_CAP))
       | Err e => (Err e, inner)
       | Panic => (Panic, inner)
       | Fault => (Fault, inner)
       end.

(** ** The ring as a queue *)

(** The position of the [i]-th queued message. *)
Definition slot (c : Channel) (i : nat) : nat := Z.to_nat ((tail c + Z.of_nat i) mod RING_CAP).

(** [c] holds the messages [q], oldest first: they fill the slots from [tail]
    up to [head], and every other slot is empty. *)
Record holds (c : Channel) (q : list Message) : Prop := {
  ring_len : length (ring c) = 16%nat;
  tail_range : 0 <= tail c < 16;
  head_pos : head c = (tail c + Z.of_nat (length q)) mod 16;
  q_len : (length q <= 15)%nat;
  filled : forall i, (i < 16)%nat -> ring c !! slot c i = Some (q !! i)
}.

Lemma slot_lt c i : (slot c i < 16)%nat.
Proof. unfold slot, RING_CAP. pose proof (Z.mod_pos_bound (tail c + Z.of_nat i) 16). lia. Qed.

Lemma slot_inj c i j : (i < 16)%nat -> (j < 16)%nat -> slot c i = slot c j -> i = j.
Proof.
  intros Hi Hj H. unfold slot, RING_CAP in H. apply Z2Nat.inj in H; [|by apply Z.mod_pos_bound..].
  Z.div_mod_to_equations. lia.
Qed.

Lemma new_holds : holds new_channel [].
Proof.
  split; try done; [simpl; lia|]. intros i Hi. rewrite lookup_nil.
  apply lookup_replicate. split; [done|]. apply slot_lt.
Qed.

Lemma send_holds c q msg :
  holds c q ->
  if decide (length q = 15%nat) then chan_send msg c = (Err Full, c)
  else exists c', chan_send msg c = (Ok tt, c') /\ holds c' (q ++ [msg]).
Proof.
  intros Hc. pose proof Hc as [Hlen Ht Hh Hq Hf]. unfold chan_send, RING_CAP.
  case_decide as H15.
  - rewrite (proj2 (Z.eqb_eq _ _)); [done|]. rewrite Hh, H15. Z.div_mod_to_equations. lia.
  - destruct (Z.eqb_spec ((head c + 1) mod 16) (tail c)) as [He|_].
    { exfalso. rewrite Hh in He. Z.div_mod_to_equations. lia. }
    assert (Hslot : Z.to_nat (head c) = slot c (length q)) by (unfold slot, RING_CAP; by rewrite Hh).
    assert (Hhr : 0 <= head c < 16) by (rewrite Hh; by apply Z.mod_pos_bound).
    assert (Hz : zlen [Some msg] = 1) by done. assert (Hr : zlen (ring c) = 16) by (unfold zlen; lia).
    unfold splice. rewrite decide_True by lia. eexists. split; [done|].
    split; simpl; [|done| | |].
    + pose proof (zlen_upd (head c) [Some msg] (ring c)). unfold zlen in *. lia.
    + rewrite Hh, length_app. simpl. rewrite Z.add_mod_idemp_l by lia. f_equal. lia.
    + rewrite length_app. simpl. lia.
    + intros i Hi. change (slot _ i) with (slot c i). rewrite upd_lookup by lia.
      destruct (decide (i = length q)) as [->|Hne].
      * rewrite decide_True by lia. rewrite Hslot, Nat.sub_diag.
        by rewrite lookup_app_r, Nat.sub_diag by lia.
      * rewrite decide_False.
        { rewrite Hf by done. f_equal. destruct (decide (i < length q)%nat).
          - by rewrite lookup_app_l by lia.
          - rewrite !lookup_ge_None_2; [done|rewrite length_app; simpl; lia|lia]. }
        intros Hs. apply Hne, (slot_inj c); [lia..|]. lia.
Qed.

Lemma recv_holds c q :
  holds c q ->
  match q with
  | [] => chan_recv c = (Err Empty, c)
  | msg :: q' => exists c', chan_recv c = (Ok msg, c') /\ holds c' q'
  end.
Proof.
  intros Hc. pose proof Hc as [Hlen Ht Hh Hq Hf]. unfold chan_recv, RING_CAP.
  destruct q as [|msg q'].
  - rewrite (proj2 (Z.eqb_eq _ _)); [done|]. rewrite Hh. simpl. rewrite Z.mod_small; lia.
  - simpl in Hh, Hq. destruct (Z.eqb_spec (head c) (tail c)) as [He|_].
    { exfalso. Z.div_mod_to_equations. lia. }
    assert (Hslot : Z.to_nat (tail c) = slot c 0).
    { unfold slot, RING_CAP. rewrite Z.add_0_r, Z.mod_small; lia. }
    pose proof (Hf 0%nat ltac:(lia)) as H0. rewrite <-Hslot in H0.
    unfold index. rewrite decide_True by lia. rewrite H0. simpl. eexists. split; [done|].
    assert (Hz : zlen [@None Message] = 1) by done. assert (Hr : zlen (ring c) = 16) by (unfold zlen; lia).
    split; simpl; [| | |lia|].
    + pose proof (zlen_upd (tail c) [None] (ring c)). unfold zlen in *. lia.
    + by apply Z.mod_pos_bound.
    + rewrite Hh, Z.add_mod_idemp_l by lia. f_equal. lia.
    + intros i Hi. unfold slot, RING_CAP. simpl. rewrite Z.add_mod_idemp_l by lia.
      replace (tail c + 1 + Z.of_nat i) with (tail c + Z.of_nat (S i)) by lia.
      rewrite upd_lookup by lia.
      destruct (decide (i = 15%nat)) as [->|Hne].
      * replace ((tail c + Z.of_nat 16) mod 16) with (tail c) by (Z.div_mod_to_equations; lia).
        rewrite decide_True, Nat.sub_diag by lia. simpl. by rewrite lookup_ge_None_2 by lia.
      * rewrite decide_False; [apply (Hf (S i)); lia|].
        intros Hs. enough (S i = 0%nat) by done. apply (slot_inj c); [lia..|].
        unfold slot at 1, RING_CAP. lia.
Qed.

(** Sending and receiving as operations on an abstract queue. *)
Inductive op := Send (msg : Message) | Recv.

Definition run_op (o : op) (c : Channel) : res IpcError (option Message) * Channel :=
  match o with
  | Send msg => (_ ← chan_send msg; mret None) c
  | Recv => (m ← chan_recv; mret (Some m)) c
  end.

Definition spec_op (o : op) (q : list Message) : res IpcError (option Message) * list Message :=
  match o, q with
  | Send msg, _ => if decide (length q = 15%nat) then (Err Full, q) else (Ok None, q ++ [msg])
  | Recv, [] => (Err Empty, [])
  | Recv, m :: q' => (Ok (Some m), q')
  end.

Fixpoint run_ops {S} (f : op -> S -> res IpcError (option Message) * S) (os : list op) (s : S)
    : list (res IpcError (option Message)) * S :=
  match os with
  | [] => ([], s)
  | o :: os' => let r := f o s in let rs := run_ops f os' (snd r) in (fst r :: fst rs, snd rs)
  end.

Lemma run_op_spec o c q :
  holds c q ->
  fst (run_op o c) = fst (spec_op o q) /\ holds (snd (run_op o c)) (snd (spec_op o q)).
Proof.
  intros Hc. destruct o as [msg|]; unfold run_op, spec_op, mbind, M_bind.
  - pose proof (send_holds c q msg Hc) as Hs. case_decide; [by rewrite Hs|].
    destruct Hs as (c' & -> & ?). done.
  - pose proof (recv_holds c q Hc) as Hr. destruct q as [|m q']; [by rewrite Hr|].
    destruct Hr as (c' & -> & ?). done.
Qed.

(** C32. A channel is a FIFO queue: on any sequence of sends and receives a
    new channel answers exactly as a queue of at most fifteen messages
    does (the sixteenth slot is never used), reports [Full] and
    [Empty] exactly when that queue is full or empty, and never panics. *)
Theorem channel_is_fifo (os : list op) :
  fst (run_ops run_op os new_channel) = fst (run_ops spec_op os []).
Proof.
  enough (H : forall c q, holds c q -> fst (run_ops run_op os c) = fst (run_ops spec_op os q))
    by apply H, new_holds.
  induction os as [|o os IH]; intros c q Hc; [done|]. simpl.
  destruct (run_op_spec o c q Hc) as [-> Hc']. f_equal. by apply IH.
Qed.

(** ** The channel tables *)

(** [store] is the heap of shared channels; the tables hold positions in it. *)
Record Sys := mkSys {
  store : list Channel;
  channels : list (option nat);   (* CHANNELS *)
  ipc : list (option nat)         (* IPC.channels *)
}.

Definition boot : Sys := mkSys [] (replicate 32 None) (replicate 32 None).

Definition get_channel (id : Z) (s : Sys) : res IpcError nat :=
  match channels s !! Z.to_nat id with
  | Some (Some r) => Ok r
  | _ => Err InvalidChannel
  end.

(** The slot of an id that was not rejected always exists ([[..; 32]]). *)
Definition table_get (id : Z) (table : list (option nat)) : option nat :=
  if (id =? 0) || (MAX_CHANNELS <? id) then None
  else default None (table !! Z.to_nat (id - 1)).

Definition table_create (s : Sys) : option Z * Sys :=
  match list_find (fun slot => slot = None) (ipc s) with
  | Some (i, _) =>
      (Some (Z.of_nat i + 1),
       mkSys (store s ++ [new_channel]) (channels s) (<[i := Some (length (store s))]> (ipc s)))
  | None => (None, s)
  end.

Definition table_destroy (id : Z) (s : Sys) : bool * Sys :=
  if (id =? 0) || (MAX_CHANNELS <? id) then (false, s)
  else match ipc s !! Z.to_nat (id - 1) with
       | Some (Some _) =>
           (true, mkSys (store s) (channels s) (<[Z.to_nat (id - 1) := None]> (ipc s)))
       | _ => (false, s)
       end.

(** [register_channel]: the first store indexes a 32-slot array by [id]. *)
Definition register_channel (id : Z) (chan : nat) : M Sys IpcError unit := fun s =>
  match splice id [Some chan] (channels s) with
  | Ok channels' =>
      let s1 := mkSys (store s) channels' (ipc s) in
      if (0 <? id) && (id <=? MAX_CHANNELS) then
        match splice (id - 1) [Some chan] (ipc s) with
        | Ok ipc' => (Ok tt, mkSys (store s) channels' ipc')
        | Err e => (Err e, s1)
        | Panic => (Panic, s1)
        | Fault => (Fault, s1)
        end
      else (Ok tt, s1)
  | Err e => (Err e, s)
  | Panic => (Panic, s)
  | Fault => (Fault, s)
  end.

Definition create_channel (s : Sys) : option Z * Sys := table_create s.
Definition destroy_channel (id : Z) (s : Sys) : Sys := snd (table_destroy id s).

(** Run an operation on the shared channel [r]. *)
Definition on_channel {A} (r : nat) (m : M Channel IpcError A) : M Sys IpcError A := fun s =>
  match store s !! r with
  | Some c => let o := m c in (fst o, mkSys (<[r := snd o]> (store s)) (channels s) (ipc s))
  | None => (Fault, s)
  end.

Definition send (channel_id : Z) (sender : Z) (bytes : list Z) : M Sys IpcError unit := fun s =>
  match table_get channel_id (ipc s) with
  | None => (Err InvalidChannel, s)
  | Some chan => on_channel chan (chan_send (new_message sender bytes)) s
  end.

Definition recv (channel_id : Z) : M Sys IpcError Message := fun s =>
  match table_get channel_id (ipc s) with
  | None => (Err InvalidChannel, s)
  | Some chan => on_channel chan chan_recv s
  end.

(** ** Delivery through the tables *)

(** The payload a message carries. *)
Definition payload (m : Message) : list Z := take (Z.to_nat (len m)) (data m).

Lemma payload_new p bytes : payload (new_message p bytes) = take 256 bytes.
Proof.
  unfold payload, new_message, MSG_MAX. simpl. set (n := Z.min (zlen bytes) 256).
  pose proof (zlen_nonneg bytes).
  assert (Ht : take (Z.to_nat n) bytes = take 256 bytes).
  { unfold n, zlen. destruct (decide (Z.of_nat (length bytes) <= 256)).
    - rewrite !take_ge; [done|lia..].
    - f_equal. lia. }
  assert (Hl : zlen (take (Z.to_nat n) bytes) = n) by (unfold zlen in *; rewrite length_take; lia).
  pose proof (sub_upd_same 0 (take (Z.to_nat n) bytes) (zeros 256)) as Hs.
  rewrite Hl, zlen_zeros in Hs by lia. unfold sub in Hs. rewrite drop_0 in Hs.
  rewrite Hs by lia. done.
Qed.

(** Message delivery: if two ids name the same channel and it is empty,
    what one process sends through the first is what the next receive through
    the second returns, with the sender's pid and the payload cut to 256
    bytes, and the channel is empty again; every other channel and both
    tables are untouched. *)
Theorem send_then_recv s id id' r c p bytes :
  table_get id (ipc s) = Some r -> table_get id' (ipc s) = Some r ->
  store s !! r = Some c -> holds c [] ->
  exists s' s'' msg c',
    send id p bytes s = (Ok tt, s') /\ recv id' s' = (Ok msg, s'') /\
    sender msg = p /\ payload msg = take 256 bytes /\
    store s'' = <[r := c']> (store s) /\ holds c' [] /\
    ipc s'' = ipc s /\ channels s'' = channels s.
Proof.
  intros Hid Hid' Hr Hc. set (msg := new_message p bytes).
  pose proof (send_holds c [] msg Hc) as Hs. simpl in Hs. destruct Hs as (c1 & Hs & Hc1).
  pose proof (recv_holds c1 [msg] Hc1) as (c2 & Hrc & Hc2).
  unfold send, recv. rewrite Hid. unfold on_channel. rewrite Hr. fold msg. rewrite Hs. simpl.
  eexists _, _, msg, c2. split; [done|]. simpl. rewrite Hid'. simpl.
  rewrite list_lookup_insert_eq by (by eapply lookup_lt_Some). rewrite Hrc. simpl.
  split; [done|]. split; [done|]. split; [apply payload_new|].
  by rewrite list_insert_insert_eq.
Qed.

Lemma table_get_in id t : 1 <= id <= 32 -> table_get id t = default None (t !! Z.to_nat (id - 1)).
Proof.
  intros. unfold table_get, MAX_CHANNELS.
  destruct (Z.eqb_spec id 0); [lia|]. by destruct (Z.ltb_spec 32 id); [lia|].
Qed.

Lemma table_get_Some id t r :
  table_get id t = Some r -> 1 <= Z.max 1 id <= 32 /\ t !! Z.to_nat (id - 1) = Some (Some r).
Proof.
  unfold table_get, MAX_CHANNELS. destruct (Z.eqb_spec id 0); [done|].
  destruct (Z.ltb_spec 32 id); [done|]. simpl.
  destruct (t !! Z.to_nat (id - 1)) as [[r'|]|]; simpl; [|done..]. intros [= ->]. split; [lia|done].
Qed.

(** Creating a channel takes the lowest free id, between 1 and 32, gives
    it a new empty channel that no other id names, and changes no other id;
    it fails exactly when all 32 ids are in use. *)
Theorem create_channel_fresh s :
  length (ipc s) = 32%nat -> (forall id r, table_get id (ipc s) = Some r -> (r < length (store s))%nat) ->
  match create_channel s with
  | (Some id, s') =>
      1 <= id <= 32 /\ table_get id (ipc s) = None /\
      (forall id', 1 <= id' < id -> table_get id' (ipc s) <> None) /\
      (exists r c, table_get id (ipc s') = Some r /\ store s' !! r = Some c /\ holds c [] /\
         forall id', 0 <= id' -> id' <> id -> table_get id' (ipc s') = table_get id' (ipc s) /\
           table_get id' (ipc s') <> Some r) /\
      forall r c, store s !! r = Some c -> store s' !! r = Some c
  | (None, s') => s' = s /\ forall id, 1 <= id <= 32 -> table_get id (ipc s) <> None
  end.
Proof.
  intros Hlen Hrefs. unfold create_channel, table_create.
  destruct (list_find _ (ipc s)) as [[i x]|] eqn:Hf.
  - apply list_find_Some in Hf as (Hi & -> & Hmin).
    pose proof (lookup_lt_Some _ _ _ Hi) as Hlt.
    assert (Hn : Z.to_nat (Z.of_nat i + 1 - 1) = i) by lia.
    split_and!; [lia|lia| | | |].
    + by rewrite table_get_in, Hn, Hi by lia.
    + intros id' Hid'. rewrite table_get_in by lia.
      destruct (lookup_lt_is_Some_2 (ipc s) (Z.to_nat (id' - 1))) as [y Hy]; [lia|].
      rewrite Hy. simpl. eapply Hmin; [done|lia].
    + exists (length (store s)), new_channel. simpl.
      rewrite table_get_in, Hn, list_lookup_insert_eq by lia.
      split; [done|]. split; [by rewrite list_lookup_middle|]. split; [apply new_holds|].
      intros id' H0 Hne.
      assert (Heq : table_get id' (<[i:=Some (length (store s))]> (ipc s)) = table_get id' (ipc s)).
      { unfold table_get. destruct ((id' =? 0) || (MAX_CHANNELS <? id')) eqn:Hg; [done|].
        rewrite list_lookup_insert_ne by lia. done. }
      rewrite Heq. split; [done|]. intros Hr. apply Hrefs in Hr. lia.
    + intros r c Hr. simpl. by rewrite lookup_app_l by (by eapply lookup_lt_Some).
  - split; [done|]. intros id Hid. rewrite table_get_in by done.
    destruct (lookup_lt_is_Some_2 (ipc s) (Z.to_nat (id - 1))) as [y Hy]; [lia|]. rewrite Hy. simpl.
    apply list_find_None in Hf. rewrite Forall_lookup in Hf. by eapply Hf.
Qed.

Lemma create_channel_fresh_witness :
  exists id s', create_channel boot = (Some id, s') /\ 1 <= id <= 32.
Proof.
  pose proof (create_channel_fresh boot eq_refl) as H.
  eexists _, _. split; [reflexivity|]. apply H.
  intros id r Hr. exfalso. apply table_get_Some in Hr as [_ Hr].
  apply lookup_replicate in Hr as [Hr _]. done.
Defined.

Lemma send_then_recv_witness :
  exists s' s'' msg, send 1 7 [1; 2; 3] (snd (create_channel boot)) = (Ok tt, s') /\
    recv 1 s' = (Ok msg, s'') /\ sender msg = 7 /\ payload msg = [1; 2; 3].
Proof.
  destruct (send_then_recv (snd (create_channel boot)) 1 1 0 new_channel 7 [1; 2; 3])
    as (s' & s'' & msg & c' & H1 & H2 & H3 & H4 & _); [reflexivity..|apply new_holds|].
  exists s', s'', msg. auto.
Defined.

End Ipc.
