(* ===== verification/Signal.v ===== *)
(** * Signals

    Models [src/process/signal.rs], the signal system calls of
    [src/abi/syscall.rs] and the small queue of [src/ipc/signal.rs].  Pending
    and blocked signals are 32-bit masks (bit [n - 1] for signal [n]); the
    theorems read them as sets of signal numbers. *)

From S2P Require Import Prelude Bytes.

Module Signal.

Definition SIGHUP : Z := 1.
Definition SIGINT : Z := 2.
Definition SIGQUIT : Z := 3.
Definition SIGILL : Z := 4.
Definition SIGTRAP : Z := 5.
Definition SIGABRT : Z := 6.
Definition SIGBUS : Z := 7.
Definition SIGFPE : Z := 8.
Definition SIGKILL : Z := 9.
Definition SIGUSR1 : Z := 10.
Definition SIGSEGV : Z := 11.
Definition SIGUSR2 : Z := 12.
Definition SIGPIPE : Z := 13.
Definition SIGALRM : Z := 14.
Definition SIGTERM : Z := 15.
Definition SIGCHLD : Z := 17.
Definition SIGCONT : Z := 18.
Definition SIGSTOP : Z := 19.
Definition MAX : Z := 32.

Inductive SignalAction := Default | Ignore | Handler (addr : Z).

Record SignalState := mkSignals {
  pending : Z;   (* u32 *)
  blocked : Z;   (* u32 *)
  actions : list SignalAction;   (* 32 entries *)
  pending_signal : Z;
  handler_addr : Z
}.

Definition new : SignalState := mkSignals 0 0 (replicate 32 Default) 0 0.

Definition set_pending (p : Z) (s : SignalState) : SignalState :=
  mkSignals p (blocked s) (actions s) (pending_signal s) (handler_addr s).

(** [!m] of a 32-bit mask. *)
Definition not32 (m : Z) : Z := Z.lxor m (2 ^ 32 - 1).

Definition bad_signum (signum : Z) : bool := (signum =? 0) || (MAX <? signum).

Definition send (signum : Z) (s : SignalState) : bool * SignalState :=
  if bad_signum signum then (false, s)
  else (true, set_pending (Z.lor (pending s) (Z.shiftl 1 (signum - 1))) s).

Definition deliverable (s : SignalState) : Z := Z.land (pending s) (not32 (blocked s)).

Definition has_pending (s : SignalState) : bool := negb (deliverable s =? 0).

(** [u32::trailing_zeros]. *)
Definition trailing_zeros (m : Z) : Z :=
  match list_find (fun i => Z.testbit m i = true) (seqZ 0 32) with
  | Some (_, i) => i
  | None => 32
  end.

Definition dequeue (s : SignalState) : Z * SignalState :=
  if deliverable s =? 0 then (0, s)
  else
    let bit := trailing_zeros (deliverable s) in
    (bit + 1, set_pending (Z.land (pending s) (not32 (Z.shiftl 1 bit))) s).

Definition set_action (signum : Z) (a : SignalAction) (s : SignalState) : bool * SignalState :=
  if bad_signum signum then (false, s)
  else if (signum =? SIGKILL) || (signum =? SIGSTOP) then (false, s)
  else (true, mkSignals (pending s) (blocked s) (<[Z.to_nat (signum - 1) := a]> (actions s))
                (pending_signal s) (handler_addr s)).

Definition get_action (signum : Z) (s : SignalState) : SignalAction :=
  if bad_signum signum then Default
  else default Default (actions s !! Z.to_nat (signum - 1)).

Inductive DefaultDisposition := Terminate | CoreDump | DispIgnore | Stop.

Definition default_action (signum : Z) : DefaultDisposition :=
  if bool_decide (signum ∈ [SIGCHLD; SIGCONT]) then DispIgnore
  else if signum =? SIGSTOP then Stop
  else if bool_decide (signum ∈ [SIGKILL; SIGTERM; SIGHUP; SIGINT; SIGQUIT; SIGPIPE; SIGALRM;
                                 SIGUSR1; SIGUSR2]) then Terminate
  else if bool_decide (signum ∈ [SIGSEGV; SIGBUS; SIGFPE; SIGILL; SIGTRAP; SIGABRT]) then CoreDump
  else Terminate.

(** [deliver_signal_to_user], on the process's signal state. *)
Definition deliver_signal_to_user (s : SignalState) : bool * SignalState :=
  let r := dequeue s in
  let sig := fst r in
  let s' := snd r in
  if sig =? 0 then (false, s')
  else match get_action sig s' with
       | Ignore => (false, s')
       | Handler h => (true, mkSignals (pending s') (blocked s') (actions s') sig h)
       | Default => (false, s')
       end.

(** ** System calls: the result and the caller's new signal state *)

Definition EINVAL : Z := wrap 64 (-22).

Definition ziqa_sig_setaction (arg0 arg1 arg2 : Z) (s : SignalState) : Z * SignalState :=
  let signum := wrap 8 arg0 in
  if bad_signum signum then (EINVAL, s)
  else if (signum =? SIGKILL) || (signum =? SIGSTOP) then (EINVAL, s)
  else
    let install a := let r := set_action signum a s in
                     (if fst r : bool then 0 else EINVAL, snd r) in
    if arg1 =? 0 then install Default
    else if arg1 =? 1 then install Ignore
    else if arg1 =? 2 then install (Handler arg2)
    else (EINVAL, s).

Definition ziqa_sig_getmask (s : SignalState) : Z := blocked s.

Definition ziqa_sig_setmask (arg0 : Z) (s : SignalState) : Z * SignalState :=
  let unblockable := Z.lor (Z.shiftl 1 (SIGKILL - 1)) (Z.shiftl 1 (SIGSTOP - 1)) in
  (0, mkSignals (pending s) (Z.land (wrap 32 arg0) (not32 unblockable)) (actions s)
        (pending_signal s) (handler_addr s)).

(** [SignalQueue] of [src/ipc/signal.rs]. *)
Module Queue.

Inductive Signal := Kill | Stop | Continue | Usr1 | Usr2.

Definition number (s : Signal) : Z :=
  match s with Kill => 9 | Stop => 19 | Continue => 18 | Usr1 => 10 | Usr2 => 12 end.

Definition push (signal : Signal) (pending : Z) : Z := Z.lor pending (Z.shiftl 1 (number signal)).

Definition of_bit (i : Z) : option Signal :=
  if i =? 9 then Some Kill else if i =? 19 then Some Stop else if i =? 18 then Some Continue
  else if i =? 10 then Some Usr1 else if i =? 12 then Some Usr2 else None.

Fixpoint pop_from (n : nat) (i pending : Z) : option Signal * Z :=
  match n with
  | O => (None, pending)
  | S n' =>
      if Z.testbit pending i then
        let pending' := Z.land pending (not32 (Z.shiftl 1 i)) in
        match of_bit i with
        | Some sig => (Some sig, pending')
        | None => pop_from n' (i + 1) pending'
        end
      else pop_from n' (i + 1) pending
  end.

Definition pop (pending : Z) : option Signal * Z :=
  if pending =? 0 then (None, pending) else pop_from 32 0 pending.

End Queue.

(** ** Masks as sets *)

Lemma testbit_ones32 i : Z.testbit (2 ^ 32 - 1) i = bool_decide (0 <= i < 32).
Proof.
  change (2 ^ 32 - 1) with (Z.ones 32). rewrite Z.testbit_ones by lia.
  destruct (Z.leb_spec 0 i), (Z.ltb_spec i 32); symmetry;
    (apply bool_decide_eq_true || apply bool_decide_eq_false); lia.
Qed.

Lemma testbit_one_shift k i : 0 <= k -> Z.testbit (Z.shiftl 1 k) i = bool_decide (i = k).
Proof.
  intros Hk. destruct (decide (0 <= i)) as [Hi|Hi].
  - rewrite Z.shiftl_1_l. destruct (decide (i = k)) as [->|Hne].
    + rewrite Z.pow2_bits_true by done. by rewrite bool_decide_true.
    + rewrite Z.pow2_bits_false by lia. by rewrite bool_decide_false.
  - rewrite Z.testbit_neg_r by lia. rewrite bool_decide_false by lia. done.
Qed.

Lemma testbit_not32 m i : 0 <= i < 32 -> Z.testbit (not32 m) i = negb (Z.testbit m i).
Proof.
  intros. unfold not32. rewrite Z.lxor_spec, testbit_ones32, bool_decide_true by done.
  by rewrite xorb_true_r.
Qed.

Lemma not32_nonneg m : fits 32 m -> 0 <= not32 m.
Proof. intros []. unfold not32. apply Z.lxor_nonneg. lia. Qed.

(** Signal [n] is pending, or blocked. *)
Definition pends (s : SignalState) (n : Z) : Prop := 1 <= n <= 32 /\ Z.testbit (pending s) (n - 1) = true.
Definition blocks (s : SignalState) (n : Z) : Prop := 1 <= n <= 32 /\ Z.testbit (blocked s) (n - 1) = true.

Record signals_ok (s : SignalState) : Prop := {
  pending_u32 : fits 32 (pending s);
  blocked_u32 : fits 32 (blocked s);
  actions_len : length (actions s) = 32%nat;
  kill_default : get_action SIGKILL s = Default /\ get_action SIGSTOP s = Default;
  kill_unblocked : ~ blocks s SIGKILL /\ ~ blocks s SIGSTOP
}.

Lemma deliverable_bit s i :
  signals_ok s -> 0 <= i < 32 ->
  Z.testbit (deliverable s) i = Z.testbit (pending s) i && negb (Z.testbit (blocked s) i).
Proof. intros Hs Hi. unfold deliverable. by rewrite Z.land_spec, testbit_not32. Qed.

Lemma deliverable_zero s :
  signals_ok s -> deliverable s = 0 <-> forall n, pends s n -> blocks s n.
Proof.
  intros Hs. split.
  - intros Hd n [Hn Hp]. split; [done|].
    pose proof (deliverable_bit s (n - 1) Hs ltac:(lia)) as Hb.
    rewrite Hd, Z.testbit_0_l, Hp in Hb. by destruct (Z.testbit (blocked s) (n - 1)).
  - intros Hall. apply Z.bits_inj'. intros i Hi. rewrite Z.testbit_0_l.
    destruct (decide (i < 32)).
    + rewrite deliverable_bit by (done || lia).
      destruct (Z.testbit (pending s) i) eqn:Hp; [|done]. simpl.
      destruct (Hall (i + 1)) as [_ Hb]; [split; [lia|]|]; rewrite Z.add_simpl_r in *; [done|].
      by rewrite Hb.
    + unfold deliverable. rewrite Z.land_spec, (testbit_above 32); [done|apply Hs|lia].
Qed.

(** The lowest set bit below 32. *)
Lemma trailing_zeros_spec m i :
  0 <= i < 32 -> Z.testbit m i = true ->
  let b := trailing_zeros m in
  0 <= b < 32 /\ Z.testbit m b = true /\ forall j, 0 <= j < b -> Z.testbit m j = false.
Proof.
  intros Hi Hb. unfold trailing_zeros. destruct (list_find _ _) as [[k x]|] eqn:Hf.
  - apply list_find_Some in Hf as (Hk & Hx & Hmin). apply lookup_seqZ in Hk as [-> Hk]. simpl.
    split; [lia|]. split; [done|]. intros j Hj.
    apply not_true_iff_false. eapply (Hmin (Z.to_nat j)); [|lia]. apply lookup_seqZ. lia.
  - apply list_find_None in Hf. rewrite Forall_forall in Hf. exfalso.
    apply (Hf i); [apply elem_of_seqZ; lia|done].
Qed.

Lemma send_pends n s :
  signals_ok s -> 1 <= n <= 32 ->
  fst (send n s) = true /\ forall k, pends (snd (send n s)) k <-> pends s k \/ k = n.
Proof.
  intros Hs Hn. unfold send, bad_signum, MAX.
  destruct (Z.eqb_spec n 0); [lia|]. destruct (Z.ltb_spec 32 n); [lia|]. simpl. split; [done|].
  intros k. unfold pends. simpl. rewrite Z.lor_spec, testbit_one_shift, orb_true_iff by lia.
  rewrite bool_decide_eq_true. intuition lia.
Qed.

Lemma dequeue_pends s :
  signals_ok s ->
  let n := fst (dequeue s) in
  let s' := snd (dequeue s) in
  (n = 0 /\ s' = s /\ (forall k, pends s k -> blocks s k)) \/
  (pends s n /\ ~ blocks s n /\ (forall k, pends s k -> ~ blocks s k -> n <= k) /\
   forall k, pends s' k <-> pends s k /\ k <> n).
Proof.
  intros Hs. unfold dequeue. destruct (Z.eqb_spec (deliverable s) 0) as [Hd|Hd]; simpl.
  { left. split_and!; [done..|]. by apply deliverable_zero. }
  right. assert (Hex : exists i, 0 <= i < 32 /\ Z.testbit (deliverable s) i = true).
  { assert (0 <= deliverable s) by (apply Z.land_nonneg; left; apply (pending_u32 s Hs)).
    exists (Z.log2 (deliverable s)). rewrite Z.bit_log2 by lia. split; [|done].
    split; [apply Z.log2_nonneg|]. apply Z.log2_lt_pow2; [lia|].
    assert (fits 32 (deliverable s)) as [_ ?]; [|done].
    apply fits_testbit; [lia| |done]. intros i Hi. unfold deliverable.
    rewrite Z.land_spec, (testbit_above 32); [done|apply Hs|done]. }
  destruct Hex as (i & Hi & Hb).
  destruct (trailing_zeros_spec _ _ Hi Hb) as (Hr & Ht & Hmin).
  set (b := trailing_zeros (deliverable s)) in *.
  rewrite deliverable_bit in Ht by done. apply andb_true_iff in Ht as [Hp Hnb].
  unfold pends, blocks. simpl. rewrite !Z.add_simpl_r. split_and!; [lia..|done| | |].
  - intros [_ Hbb]. by rewrite Hbb in Hnb.
  - intros k [Hk Hpk] Hbk. destruct (decide (k - 1 < b)); [|lia]. exfalso.
    specialize (Hmin (k - 1) ltac:(lia)). rewrite deliverable_bit, Hpk in Hmin by (done || lia).
    apply Hbk. split; [done|]. by destruct (Z.testbit (blocked s) (k - 1)).
  - intros k. rewrite Z.land_spec, andb_true_iff.
    destruct (decide (1 <= k <= 32)); [|intuition lia].
    rewrite testbit_not32, testbit_one_shift, negb_true_iff, bool_decide_eq_false by lia.
    intuition lia.
Qed.

(** The pending mask is a set of signals and [dequeue] a priority queue on
    it: sending a valid signal adds it, an invalid one is refused; [dequeue]
    takes out the lowest-numbered pending signal that is not blocked, and
    returns 0 exactly when every pending signal is blocked, which is what
    [has_pending] reports. *)
Theorem signal_set_spec s n :
  signals_ok s ->
  (1 <= n <= 32 -> fst (send n s) = true /\ forall k, pends (snd (send n s)) k <-> pends s k \/ k = n) /\
  (n = 0 \/ 32 < n -> send n s = (false, s)) /\
  (let d := fst (dequeue s) in
   let s' := snd (dequeue s) in
   (d = 0 /\ s' = s /\ has_pending s = false /\ (forall k, pends s k -> blocks s k)) \/
   (has_pending s = true /\ pends s d /\ ~ blocks s d /\
    (forall k, pends s k -> ~ blocks s k -> d <= k) /\
    forall k, pends s' k <-> pends s k /\ k <> d)).
Proof.
  intros Hs. split_and!.
  - intros Hn. by apply send_pends.
  - intros Hn. unfold send, bad_signum, MAX.
    destruct (Z.eqb_spec n 0); [done|]. destruct (Z.ltb_spec 32 n); [done|lia].
  - unfold has_pending. pose proof (deliverable_zero s Hs) as Hz.
    destruct (dequeue_pends s Hs) as [(Hd & He & Hall)|(Hp & Hnb & Hmin & Hrm)]; simpl in *.
    + left. split_and!; [done|done| |done]. by rewrite (proj2 Hz Hall).
    + right. split_and!; [|done..]. destruct (Z.eqb_spec (deliverable s) 0) as [H0|]; [|done].
      exfalso. by apply Hnb, Hz.
Qed.

(** ** Everything that changes a process's signal state *)

Inductive step : SignalState -> SignalState -> Prop :=
| step_send n s : 0 <= n < 256 -> step s (snd (send n s))
| step_dequeue s : step s (snd (dequeue s))
| step_deliver s : step s (snd (deliver_signal_to_user s))
| step_set_action n a s : 0 <= n < 256 -> step s (snd (set_action n a s))
| step_sigaction a0 a1 a2 s : step s (snd (ziqa_sig_setaction a0 a1 a2 s))
| step_setmask a0 s : step s (snd (ziqa_sig_setmask a0 s)).

Lemma new_signals_ok : signals_ok new.
Proof. by split; try split; try done; intros [_ ?]. Qed.

(** Only the pending mask changes, and it stays a 32-bit mask. *)
Lemma set_pending_ok p s : signals_ok s -> fits 32 p -> signals_ok (set_pending p s).
Proof. intros [] Hp. by split. Qed.

Lemma send_ok n s : signals_ok s -> 0 <= n -> signals_ok (snd (send n s)).
Proof.
  intros Hs Hn. unfold send, bad_signum, MAX. destruct (_ || _) eqn:Hb; [done|]. simpl.
  apply set_pending_ok; [done|]. pose proof (pending_u32 s Hs) as [? ?]. apply fits_testbit; [lia| |].
  - intros i Hi. rewrite Z.lor_spec, testbit_one_shift, bool_decide_false, (testbit_above 32);
      [done|apply Hs|done|lia|lia].
  - apply Z.lor_nonneg. split; [done|]. rewrite Z.shiftl_nonneg. lia.
Qed.

Lemma dequeue_ok s : signals_ok s -> signals_ok (snd (dequeue s)).
Proof.
  intros Hs. unfold dequeue. destruct (_ =? 0); [done|]. simpl. apply set_pending_ok; [done|].
  pose proof (pending_u32 s Hs) as [? ?]. apply fits_testbit; [lia| |].
  - intros i Hi. rewrite Z.land_spec, (testbit_above 32); [done|apply Hs|done].
  - apply Z.land_nonneg. by left.
Qed.

Lemma set_action_ok n a s : signals_ok s -> 0 <= n -> signals_ok (snd (set_action n a s)).
Proof.
  intros Hs Hn. unfold set_action, bad_signum, MAX, SIGKILL, SIGSTOP.
  destruct (_ || _) eqn:Hb; [done|]. destruct (_ || _) eqn:Hk in |- *; [done|]. simpl.
  destruct Hs as [Hp Hbl Hl [Hkd Hsd] Hu]. split; simpl; try done.
  - by rewrite length_insert.
  - unfold get_action, bad_signum, SIGKILL, SIGSTOP in *. simpl in *.
    rewrite !list_lookup_insert_ne by lia. done.
Qed.

Lemma setmask_unblocks a0 s :
  ~ blocks (snd (ziqa_sig_setmask a0 s)) SIGKILL /\ ~ blocks (snd (ziqa_sig_setmask a0 s)) SIGSTOP.
Proof.
  unfold blocks, ziqa_sig_setmask. cbn [snd blocked].
  by split; intros [_ Hb]; rewrite Z.land_spec, andb_false_r in Hb.
Qed.

Lemma signals_step_ok s s' : step s s' -> signals_ok s -> signals_ok s'.
Proof.
  intros Hst Hs. destruct Hst.
  - apply send_ok; [done|lia].
  - by apply dequeue_ok.
  - unfold deliver_signal_to_user. pose proof (dequeue_ok s Hs) as Hd.
    destruct (_ =? 0); [done|]. destruct (get_action _ _); [done|done|]. simpl.
    destruct Hd. by split.
  - apply set_action_ok; [done|lia].
  - unfold ziqa_sig_setaction. repeat case_match; try done; simpl;
      (apply set_action_ok; [done|apply Z.mod_pos_bound; lia]).
  - destruct Hs as [Hp Hbl Hl Hkd Hu]. split; simpl; try done.
    + pose proof (wrap_fits 32 a0 ltac:(lia)) as [Hw0 Hw]. apply fits_testbit; [lia| |].
      * intros i Hi. rewrite Z.land_spec, (testbit_above 32); [done|by split|done].
      * apply Z.land_nonneg. by left.
    + apply setmask_unblocks.
Qed.

(** [SIGKILL] and [SIGSTOP] can be neither caught, ignored nor blocked:
    in every signal state reachable from a new process's by sending,
    dequeueing, delivering and the signal system calls their action is the
    default one and their mask bits are clear; the masks stay 32 bits wide and
    the action table complete. *)
Theorem kill_stop_unblockable s :
  rtc step new s -> signals_ok s.
Proof.
  revert s. apply (rtc_ind_r (R:=step)); [apply new_signals_ok|]. intros s s' _ Hs IH. by eapply signals_step_ok.
Qed.

Lemma kill_stop_unblockable_witness :
  signals_ok (snd (ziqa_sig_setmask (2 ^ 32 - 1) (snd (ziqa_sig_setaction 15 2 4096 new)))).
Proof.
  apply kill_stop_unblockable. eapply rtc_l; [apply step_sigaction|].
  eapply rtc_l; [apply step_setmask|]. apply rtc_refl.
Defined.

Lemma signal_set_spec_witness :
  fst (send 9 new) = true /\ forall k, pends (snd (send 9 new)) k <-> pends new k \/ k = 9.
Proof. apply (signal_set_spec new 9); [apply new_signals_ok|lia]. Defined.

(** [deliver_signal_to_user] loses signals whose action is the default:
    it takes the signal out of the pending set before looking at the action,
    reports that nothing was delivered, and leaves no trace of the signal, so
    a pending [SIGKILL] is simply dropped. *)
Theorem deliver_drops_default s :
  signals_ok s -> has_pending s = true ->
  get_action (fst (dequeue s)) s = Default ->
  let s' := snd (deliver_signal_to_user s) in
  fst (deliver_signal_to_user s) = false /\ ~ pends s' (fst (dequeue s)) /\
  pending_signal s' = pending_signal s /\ handler_addr s' = handler_addr s.
Proof.
  intros Hs Hp Ha. pose proof (dequeue_pends s Hs) as Hd. simpl in Hd.
  unfold deliver_signal_to_user. unfold has_pending in Hp.
  assert (Hsame : get_action (fst (dequeue s)) (snd (dequeue s)) = Default).
  { unfold get_action in *. unfold dequeue in *. by destruct (deliverable s =? 0). }
  destruct (Z.eqb_spec (fst (dequeue s)) 0) as [H0|H0].
  { exfalso. destruct Hd as [(_ & _ & Hall)|(Hpd & _)].
    - apply (deliverable_zero s Hs) in Hall. by rewrite Hall in Hp.
    - destruct Hpd. lia. }
  rewrite Hsame. simpl. destruct Hd as [(? & _)|(_ & _ & _ & Hrm)]; [done|].
  split; [done|]. split; [rewrite Hrm; by intros [_ ?]|].
  unfold dequeue. by destruct (deliverable s =? 0).
Qed.

Lemma deliver_drops_default_witness :
  let s := snd (send SIGKILL new) in
  fst (deliver_signal_to_user s) = false /\ ~ pends (snd (deliver_signal_to_user s)) SIGKILL.
Proof.
  destruct (deliver_drops_default (snd (send SIGKILL new))) as (H1 & H2 & _);
    [apply send_ok; [apply new_signals_ok|done]|reflexivity|reflexivity|]. split; [exact H1|exact H2].
Defined.

End Signal.
