(* ===== verification/Vma.v ===== *)
(** * Virtual memory areas

    Models [src/process/vma.rs], [Process::add_region] of
    [src/process/mod.rs], [verify_user_region] of [src/memory/mod.rs] and
    [sys_mmap] of [src/abi/linux/mod.rs].

    [VirtAddr] is the x86_64 crate's; the interface [VirtAddrOps] states the
    little that is used of it, on lower-half addresses.  So does
    [BinarySearch] for [slice::binary_search_by_key], whose choice among equal
    keys is unspecified. *)

From S2P Require Import Prelude Bytes Abi Capability.

(** [None] is the crate's panic on a non-canonical address. *)
Class VirtAddrOps := {
  va_new : Z -> option Z;
  va_add : Z -> Z -> option Z;
  va_align_up : Z -> Z -> option Z;
  va_new_low a : 0 <= a < 2 ^ 47 -> va_new a = Some a;
  va_add_low a n : 0 <= a -> 0 <= n -> a + n < 2 ^ 47 -> va_add a n = Some (a + n);
  va_align_up_low a : 0 <= a -> a + 4096 < 2 ^ 47 ->
    exists b, va_align_up a 4096 = Some b /\ a <= b < a + 4096 /\ b mod 4096 = 0
}.

(** The position [binary_search_by_key(..).unwrap_or_else(|e| e)] yields on a
    slice sorted by key. *)
Class BinarySearch := {
  search : list Z -> Z -> nat;
  search_spec ks k : StronglySorted Z.le ks ->
    (search ks k <= length ks)%nat /\
    (forall i x, (i < search ks k)%nat -> ks !! i = Some x -> x <= k) /\
    (forall i x, (search ks k <= i)%nat -> ks !! i = Some x -> k <= x)
}.

Module Vma.

Record MemoryRegionFlags := mkFlags {
  readable : bool; writable : bool; executable : bool; user_accessible : bool; copy_on_write : bool
}.

Record Vma := mkVma {
  start : Z;
  end_ : Z;
  flags : MemoryRegionFlags;
  is_file_backed : bool;
  file_path : option string;
  file_offset : Z;
  file_size : Z;
  bco_hook : option Z
}.

Definition contains (v : Vma) (addr : Z) : bool := (start v <=? addr) && (addr <? end_ v).

Definition is_range_free (vmas : list Vma) (s size : Z) : res AbiError bool :=
  if 2 ^ 64 <=? s + size then Panic
  else Ok (negb (existsb (fun v => (s <? end_ v) && (start v <? s + size)) vmas)).

Definition or_panic {E A} (o : option A) : res E A :=
  match o with Some a => Ok a | None => Panic end.

Section ops.
Context `{!VirtAddrOps, !BinarySearch}.

Definition new (s size : Z) (fl : MemoryRegionFlags) : res AbiError Vma :=
  e ← or_panic (va_add s size);
  Ok (mkVma s e fl false None 0 0 None).

(** The [for vma in vmas] scan of [find_free_range]. *)
Fixpoint scan (vmas : list Vma) (size current : Z) : res AbiError Z :=
  match vmas with
  | [] => Ok current
  | v :: vmas' =>
      if end_ v <=? current then scan vmas' size current
      else
        e ← or_panic (va_add current size);
        if e <=? start v then Ok current else scan vmas' size (end_ v)
  end.

Definition find_free_range (vmas : list Vma) (size start_hint : Z) : res AbiError (option Z) :=
  hinted ← (if negb (start_hint =? 0) && (start_hint mod 4096 =? 0)
            then is_range_free vmas start_hint size else Ok false);
  if hinted : bool then Ok (Some start_hint)
  else
    current ← or_panic (if negb (start_hint =? 0) then va_align_up start_hint 4096
                        else va_new 0x40000000);
    r ← scan vmas size current;
    Ok (Some r).

Definition add_region (vma : Vma) (vmas : list Vma) : list Vma :=
  let pos := search (map start vmas) (start vma) in
  take pos vmas ++ vma :: drop pos vmas.

Definition prot_to_region_flags (prot : Z) : MemoryRegionFlags :=
  mkFlags (Z.testbit prot 0) (Z.testbit prot 1) (Z.testbit prot 2) true false.

(** [sys_mmap]: the returned word and the caller's new areas. *)
Definition sys_mmap (caps : Capability.CapabilitySpace) (addr length prot fl : Z) (vmas : list Vma)
    : res AbiError (Z * list Vma) :=
  if negb (Capability.has_permission caps Capability.Memory false false) then Err PermissionDenied
  else if length =? 0 then Ok (wrap 64 (-22), vmas)
  else
    let is_anonymous := negb (Z.land fl 0x20 =? 0) in
    start_hint ← or_panic (va_new addr);
    o ← find_free_range vmas length start_hint;
    base ← match o with Some b => Ok b | None => Err (Other "mmap: no free address space") end;
    e ← or_panic (va_add base length);
    Ok (base, add_region (mkVma base e (prot_to_region_flags prot) (negb is_anonymous) None 0 0 None) vmas).

End ops.

Definition USER_ADDR_MAX : Z := 0x800000000000.

Definition verify_user_region (vmas : list Vma) (addr len : Z) : bool :=
  if len =? 0 then true
  else
    let e := addr + len in
    if 2 ^ 64 <=? e then false
    else if USER_ADDR_MAX <? e then false
    else existsb (fun v => (start v <=? addr) && (e <=? end_ v)) vmas.

(** ** Well-formed address spaces *)

Definition vma_ok (v : Vma) : Prop := 0 <= start v < end_ v /\ end_ v < 2 ^ 47.

Definition before (a b : Vma) : Prop := end_ a <= start b.

(** Areas in ascending order that do not overlap. *)
Definition space_ok (vmas : list Vma) : Prop :=
  Forall vma_ok vmas /\ StronglySorted before vmas.

(** The range meets no area. *)
Definition free (vmas : list Vma) (a size : Z) : Prop :=
  Forall (fun v => a + size <= start v \/ end_ v <= a) vmas.

Lemma is_range_free_spec vmas s size :
  s + size < 2 ^ 64 ->
  exists b, is_range_free vmas s size = Ok b /\ (b = true <-> free vmas s size).
Proof.
  intros Hlt. unfold is_range_free. destruct (Z.leb_spec (2 ^ 64) (s + size)); [lia|].
  eexists. split; [done|]. rewrite negb_true_iff. unfold free.
  induction vmas as [|v vmas IH]; simpl; [split; [by constructor|done]|].
  rewrite orb_false_iff, Forall_cons, IH. apply and_iff_compat_r. lia.
Qed.

Section mmap.
Context `{!VirtAddrOps, !BinarySearch}.

Lemma scan_free pre vmas size current :
  0 <= current -> 0 < size ->
  Forall (fun v => end_ v <= current) pre -> space_ok vmas ->
  current + size < 2 ^ 47 -> Forall (fun v => end_ v + size < 2 ^ 47) vmas ->
  exists a, scan vmas size current = Ok a /\ current <= a /\ a + size < 2 ^ 47 /\ free (pre ++ vmas) a size.
Proof.
  revert pre current. induction vmas as [|v vmas IH]; intros pre current Hc Hsz Hpre [Hok Hso] Hlow Hall; simpl.
  - exists current. split_and!; [done|lia|lia|]. rewrite app_nil_r.
    eapply Forall_impl; [exact Hpre|]. simpl. lia.
  - apply Forall_cons in Hok as [[Hv0 Hv1] Hok]. apply Forall_cons in Hall as [Hva Hall].
    apply StronglySorted_inv in Hso as [Hso Hhd].
    destruct (Z.leb_spec (end_ v) current).
    + destruct (IH (pre ++ [v]) current) as (a & Ha & ? & ? & Hf); [done|done| | |done|done|].
      { apply Forall_app. split; [done|]. by constructor. }
      { by split. }
      exists a. rewrite <-app_assoc in Hf. by split_and!.
    + rewrite va_add_low by lia. simpl. destruct (Z.leb_spec (current + size) (start v)).
      * exists current. split_and!; [done|lia|lia|]. apply Forall_app. split.
        { eapply Forall_impl; [exact Hpre|]. simpl. lia. }
        apply Forall_cons. split; [lia|]. eapply Forall_impl; [exact Hhd|].
        unfold before. simpl. lia.
      * destruct (IH (pre ++ [v]) (end_ v)) as (a & Ha & ? & ? & Hf); [lia|done| | |done|done|].
        { apply Forall_app. split; [|by constructor]. eapply Forall_impl; [exact Hpre|]. simpl. lia. }
        { by split. }
        exists a. rewrite <-app_assoc in Hf. split_and!; [done|lia|lia|done].
Qed.

Lemma find_free_range_spec vmas size hint :
  space_ok vmas -> 0 < size -> 0 <= hint -> hint + 4096 + size < 2 ^ 47 ->
  0x40000000 + size < 2 ^ 47 -> Forall (fun v => end_ v + size < 2 ^ 47) vmas ->
  exists a, find_free_range vmas size hint = Ok (Some a) /\ 0 <= a /\ a + size < 2 ^ 47 /\
    free vmas a size.
Proof.
  intros Hok Hsz Hh Hlow Hdef Hall. unfold find_free_range.
  destruct (is_range_free_spec vmas hint size) as (b & Hb & Hbf); [lia|].
  destruct (negb (hint =? 0) && (hint mod 4096 =? 0)) eqn:Hg; [rewrite Hb|]; simpl.
  - destruct b; simpl; [exists hint; split_and!; [done|lia|lia|by apply Hbf]|].
    destruct (Z.eqb_spec hint 0); [lia|]. simpl.
    destruct (va_align_up_low hint) as (c & -> & ? & _); [lia..|]. simpl.
    destruct (scan_free [] vmas size c) as (a & -> & ? & ? & ?); [lia|done|by constructor|done|lia|done|].
    exists a. simpl in *. split_and!; [done|lia|lia|done].
  - destruct (Z.eqb_spec hint 0); simpl.
    + rewrite va_new_low by lia. simpl.
      destruct (scan_free [] vmas size 0x40000000) as (a & -> & ? & ? & ?);
        [lia|done|by constructor|done|lia|done|].
      exists a. simpl in *. split_and!; [done|lia|lia|done].
    + destruct (va_align_up_low hint) as (c & -> & ? & _); [lia..|]. simpl.
      destruct (scan_free [] vmas size c) as (a & -> & ? & ? & ?); [lia|done|by constructor|done|lia|done|].
      exists a. simpl in *. split_and!; [done|lia|lia|done].
Qed.

Lemma starts_sorted vmas : space_ok vmas -> StronglySorted Z.le (map start vmas).
Proof.
  intros [Hok Hs]. induction Hs as [|v vmas Hs IH Hhd]; simpl; [constructor|].
  apply Forall_cons in Hok as [[Hv _] Hok]. constructor; [by apply IH|].
  apply Forall_map. eapply Forall_impl; [exact Hhd|]. unfold before. simpl. lia.
Qed.

(** Inserting an area that meets no other keeps the space well formed. *)
Lemma add_region_ok vma vmas :
  space_ok vmas -> vma_ok vma -> free vmas (start vma) (end_ vma - start vma) ->
  space_ok (add_region vma vmas).
Proof.
  intros Hsp Hv Hf. pose proof (search_spec _ (start vma) (starts_sorted vmas Hsp)) as (_ & Hlo & Hhi).
  unfold add_region. set (pos := search _ _) in *. destruct Hsp as [Hok Hs].
  unfold free in Hf. rewrite Forall_forall in Hf.
  pose proof Hok as Hok'. rewrite Forall_forall in Hok'. destruct Hv as [Hv Hv'].
  assert (Hpre : Forall (fun a => before a vma) (take pos vmas)).
  { apply Forall_lookup. intros i a Ha. apply lookup_take_Some in Ha as [Ha Hi].
    assert (start a <= start vma) by (apply (Hlo i); [done|]; change (map start vmas) with (start <$> vmas);
      by rewrite list_lookup_fmap, Ha).
    apply list_elem_of_lookup_2 in Ha. destruct (Hok' a Ha). specialize (Hf a Ha).
    simpl in Hf. unfold before. lia. }
  assert (Hpost : Forall (before vma) (drop pos vmas)).
  { apply Forall_lookup. intros i a Ha. rewrite lookup_drop in Ha.
    assert (start vma <= start a) by (apply (Hhi (pos + i)%nat); [lia|];
      change (map start vmas) with (start <$> vmas); by rewrite list_lookup_fmap, Ha).
    apply list_elem_of_lookup_2 in Ha. destruct (Hok' a Ha). specialize (Hf a Ha).
    simpl in Hf. unfold before. lia. }
  split.
  - apply Forall_app. split; [by apply Forall_take|]. constructor; [done|by apply Forall_drop].
  - rewrite <-(take_drop pos vmas) in Hs. apply StronglySorted_app in Hs as (Hx & Hs1 & Hs2).
    apply StronglySorted_app_2; [|done|by constructor]. rewrite Forall_forall in Hpre.
    intros a b Ha Hb. apply elem_of_cons in Hb as [->|Hb]; [by apply Hpre|by apply Hx].
Qed.

Lemma elem_of_add_region v vma vmas : v ∈ add_region vma vmas <-> v = vma \/ v ∈ vmas.
Proof.
  unfold add_region. set (pos := search _ _).
  rewrite <-(take_drop pos vmas) at 3. rewrite elem_of_app, elem_of_cons, elem_of_app. tauto.
Qed.

(** C31. [sys_mmap] on a well-formed address space below 2^47, called with the
    Memory capability and a non-zero length, maps a range that met no area
    before: the new space is well formed, consists of the old areas and the
    new one, and every user access inside the new range passes
    [verify_user_region].  Without the capability it fails and with length 0
    it returns -EINVAL, both without changing the space. *)
Theorem sys_mmap_spec caps addr len prot fl vmas :
  space_ok vmas -> 0 <= len -> 0 <= addr -> addr + 4096 + len < 2 ^ 47 ->
  0x40000000 + len < 2 ^ 47 -> Forall (fun v => end_ v + len < 2 ^ 47) vmas ->
  if negb (Capability.has_permission caps Capability.Memory false false)
  then sys_mmap caps addr len prot fl vmas = Err PermissionDenied
  else if len =? 0 then sys_mmap caps addr len prot fl vmas = Ok (wrap 64 (-22), vmas)
  else exists base vma vmas',
    sys_mmap caps addr len prot fl vmas = Ok (base, vmas') /\
    start vma = base /\ end_ vma = base + len /\ free vmas base len /\ space_ok vmas' /\
    (forall v, v ∈ vmas' <-> v = vma \/ v ∈ vmas) /\
    forall a n, base <= a -> 0 < n -> a + n <= base + len -> verify_user_region vmas' a n = true.
Proof.
  intros Hsp Hlen Ha Hlow Hdef Hall. unfold sys_mmap.
  destruct (negb (Capability.has_permission _ _ _ _)); [done|].
  destruct (Z.eqb_spec len 0); [done|]. rewrite va_new_low by lia. simpl.
  destruct (find_free_range_spec vmas len addr) as (base & -> & Hb0 & Hb & Hf); [done|lia..|done|].
  simpl. rewrite va_add_low by lia. simpl.
  eexists base, (mkVma base (base + len) (prot_to_region_flags prot)
                   (negb (negb (Z.land fl 0x20 =? 0))) None 0 0 None), _.
  split; [done|]. simpl. split; [done|]. split; [done|]. split; [done|]. split; [|split].
  - apply add_region_ok; [done|split; simpl; lia|]. simpl. by replace (base + len - base) with len by lia.
  - intros v. apply elem_of_add_region.
  - intros a k ? ? ?. unfold verify_user_region, USER_ADDR_MAX.
    destruct (Z.eqb_spec k 0); [lia|]. destruct (Z.leb_spec (2 ^ 64) (a + k)); [lia|].
    destruct (Z.ltb_spec 140737488355328 (a + k)); [lia|]. apply existsb_exists.
    eexists. split; [apply list_elem_of_In, elem_of_add_region; by left|]. simpl. lia.
Qed.

End mmap.

(** ** An implementation of the interfaces *)

Definition demo_new (a : Z) : option Z :=
  if (0 <=? a) && (a <? 2 ^ 47) then Some a
  else if (2 ^ 47 <=? a) && (a <? 2 ^ 48) then Some (a + (2 ^ 64 - 2 ^ 48))
  else if (2 ^ 64 - 2 ^ 47 <=? a) && (a <? 2 ^ 64) then Some a
  else None.

#[local] Instance demo_addr : VirtAddrOps.
Proof.
  refine {| va_new := demo_new; va_add a n := demo_new (a + n);
            va_align_up a n := demo_new ((a + (n - 1)) / n * n) |}.
  - intros a Ha. unfold demo_new. destruct (_ && _) eqn:Hd; [done|lia].
  - intros a n ? ? ?. unfold demo_new. destruct (_ && _) eqn:Hd; [done|lia].
  - intros a ? ?. eexists. split.
    + unfold demo_new. destruct (_ && _) eqn:Hd; [done|]. exfalso. Z.div_mod_to_equations. lia.
    + split; [|apply Z.mod_mul; lia]. Z.div_mod_to_equations. lia.
Defined.

(** The insertion point before the first key that is not smaller. *)
Fixpoint lower_bound (ks : list Z) (k : Z) : nat :=
  match ks with
  | [] => 0%nat
  | x :: ks' => if x <? k then S (lower_bound ks' k) else 0%nat
  end.

Lemma lower_bound_spec ks k :
  StronglySorted Z.le ks ->
  (lower_bound ks k <= length ks)%nat /\
  (forall i x, (i < lower_bound ks k)%nat -> ks !! i = Some x -> x <= k) /\
  (forall i x, (lower_bound ks k <= i)%nat -> ks !! i = Some x -> k <= x).
Proof.
  induction 1 as [|y ks Hs (IH1 & IH2 & IH3) Hhd]; simpl; [done|].
  destruct (Z.ltb_spec y k).
  - split; [lia|]. split.
    + intros [|i] x Hi Hx; simplify_eq/=; [lia|]. eapply IH2; [|done]. lia.
    + intros [|i] x Hi Hx; [lia|]. simpl in Hx. eapply IH3; [|done]. lia.
  - split; [lia|]. split; [lia|]. intros [|i] x _ Hx; simplify_eq/=; [lia|].
    rewrite Forall_lookup in Hhd. specialize (Hhd i x Hx). lia.
Qed.

#[local] Instance demo_search : BinarySearch := {|
  search := lower_bound;
  search_spec := lower_bound_spec
|}.

Definition demo_caps : Capability.CapabilitySpace :=
  [Capability.mkToken 1 None Capability.Memory Capability.read_write 1].

Lemma sys_mmap_spec_witness :
  exists base vma vmas', sys_mmap demo_caps 0 8192 3 0x22 [] = Ok (base, vmas') /\
    start vma = base /\ vma ∈ vmas'.
Proof.
  pose proof (sys_mmap_spec demo_caps 0 8192 3 0x22 []) as H.
  cbv [demo_caps Capability.has_permission] in H. simpl in H.
  destruct H as (base & vma & vmas' & H1 & H2 & _ & _ & _ & H3 & _);
    [split; constructor|lia|lia|lia|lia|constructor|].
  exists base, vma, vmas'. split; [exact H1|]. split; [exact H2|]. apply H3. by left.
Defined.

(** Lengths are not rounded to pages, so the next address handed out need
    not be page aligned: after mapping 100 bytes, mapping a page without a
    hint returns 0x40000064. *)
Theorem mmap_returns_unaligned :
  exists vmas', sys_mmap demo_caps 0 100 3 0x22 [] = Ok (0x40000000, vmas') /\
    exists vmas'', sys_mmap demo_caps 0 4096 3 0x22 vmas' = Ok (0x40000064, vmas'') /\
      0x40000064 mod 4096 <> 0.
Proof. eexists. split; [reflexivity|]. eexists. split; [reflexivity|done]. Qed.

End Vma.
