(* ===== verification/FdTable.v ===== *)
(** * File descriptor tables

    Models [FdTable] of [src/process/mod.rs]: eight descriptors, each with a
    64-byte path buffer and a path length.  The offset of a descriptor that
    was duplicated is not shared: [dup] copies the entry with offset 0. *)

From S2P Require Import Prelude Bytes.

Module FdTable.

Inductive FdTarget :=
| Stdin | Stdout | Stderr
| PipeRead (chan : Z)
| PipeWrite (chan : Z)
| File (idx : Z)
| Scheme (idx : Z) (handle : Z).

Record FileDesc := mkDesc {
  target : FdTarget;
  flags : Z;
  offset : Z
}.

Definition MAX_FDS : nat := 8.

Record Table := mkTable {
  entries : list (option FileDesc);
  paths : list (list Z);   (* [[u8; 64]; 8] *)
  path_lens : list Z
}.

Definition new : Table :=
  mkTable ([Some (mkDesc Stdin 0 0); Some (mkDesc Stdout 0 0); Some (mkDesc Stderr 0 0)]
             ++ replicate 5 None)
    (replicate 8 (zeros 64)) (replicate 8 0).

(** [entries.iter_mut().enumerate().skip(3)]: the first free slot from 3 on. *)
Definition first_free (t : Table) : option nat :=
  option_map (fun p => (3 + fst p)%nat) (list_find (fun e => e = None) (drop 3 (entries t))).

(** Copy a path of at most 63 bytes and its terminator into row [i]. *)
Definition write_path (i : nat) (path : list Z) (t : Table) : Table :=
  let n := Z.min (zlen path) 63 in
  let row := upd n [0] (upd 0 (take (Z.to_nat n) path) (default [] (paths t !! i))) in
  mkTable (entries t) (<[i := row]> (paths t)) (<[i := n]> (path_lens t)).

Definition set_entry (i : nat) (e : option FileDesc) (t : Table) : Table :=
  mkTable (<[i := e]> (entries t)) (paths t) (path_lens t).

Definition alloc_file (path : list Z) (fl : Z) (t : Table) : option nat * Table :=
  match first_free t with
  | Some i => (Some i, set_entry i (Some (mkDesc (File (Z.of_nat i)) fl 0)) (write_path i path t))
  | None => (None, t)
  end.

Definition alloc_scheme (path : list Z) (fl handle_id : Z) (t : Table) : option nat * Table :=
  match first_free t with
  | Some i =>
      (Some i, set_entry i (Some (mkDesc (Scheme (Z.of_nat i) handle_id) fl 0)) (write_path i path t))
  | None => (None, t)
  end.

Definition alloc (desc : FileDesc) (t : Table) : option nat * Table :=
  match first_free t with
  | Some i => (Some i, set_entry i (Some desc) t)
  | None => (None, t)
  end.

Definition get (fd : nat) (t : Table) : option FileDesc := default None (entries t !! fd).

(** [get_mut], as the update the caller makes through the reference. *)
Definition update_desc (fd : nat) (f : FileDesc -> FileDesc) (t : Table) : Table :=
  match entries t !! fd with
  | Some (Some d) => set_entry fd (Some (f d)) t
  | _ => t
  end.

(** [&self.paths[fd][..self.path_lens[fd]]] panics if the length exceeds the
    row. *)
Definition path_of {E} (fd : nat) (t : Table) : res E (option (list Z)) :=
  match get fd t with
  | Some d =>
      match target d with
      | File _ | Scheme _ _ =>
          match paths t !! fd, path_lens t !! fd with
          | Some row, Some n => p ← slice 0 n row; Ok (Some p)
          | _, _ => Panic
          end
      | _ => Ok None
      end
  | None => Ok None
  end.

Definition close (fd : nat) (t : Table) : bool * Table :=
  if (fd <? 3)%nat then (false, t)
  else match entries t !! fd with
       | Some (Some _) =>
           (true, mkTable (<[fd := None]> (entries t)) (paths t) (<[fd := 0]> (path_lens t)))
       | _ => (false, t)
       end.

(** The copy of a descriptor and its path into slot [d]. *)
Definition copy_into (desc : FileDesc) (src d : nat) (t : Table) : Table :=
  mkTable (<[d := Some (mkDesc (target desc) (flags desc) 0)]> (entries t))
    (<[d := default [] (paths t !! src)]> (paths t))
    (<[d := default 0 (path_lens t !! src)]> (path_lens t)).

Definition dup (src_fd : nat) (dst_fd : option nat) (t : Table) : option nat * Table :=
  match get src_fd t with
  | None => (None, t)
  | Some desc =>
      match dst_fd with
      | Some d => if (d <? MAX_FDS)%nat then (Some d, copy_into desc src_fd d t) else (None, t)
      | None =>
          match first_free t with
          | Some i => (Some i, copy_into desc src_fd i t)
          | None => (None, t)
          end
      end
  end.

Definition open_count (t : Table) : nat := length (filter (fun e => is_Some e) (entries t)).

(** The loop [for i in 0..MAX_FDS] copies every column. *)
Definition clone_from (other t : Table) : Table :=
  foldl (fun t i => mkTable (<[i := default None (entries other !! i)]> (entries t))
                      (<[i := default [] (paths other !! i)]> (paths t))
                      (<[i := default 0 (path_lens other !! i)]> (path_lens t)))
    t (seq 0 MAX_FDS).

(** ** Well-formed tables *)

Record table_ok (t : Table) : Prop := {
  entries_len : length (entries t) = 8%nat;
  paths_len : length (paths t) = 8%nat;
  lens_len : length (path_lens t) = 8%nat;
  rows_len : Forall (fun row => zlen row = 64) (paths t);
  lens_range : Forall (fun n => 0 <= n <= 63) (path_lens t)
}.

Lemma first_free_Some t i :
  table_ok t -> first_free t = Some i ->
  (3 <= i < 8)%nat /\ entries t !! i = Some None /\
  forall j, (3 <= j < i)%nat -> exists d, entries t !! j = Some (Some d).
Proof.
  intros Ht Hf. unfold first_free in Hf.
  destruct (list_find _ _) as [[k e]|] eqn:Hl; simplify_eq/=.
  apply list_find_Some in Hl as (Hk & -> & Hmin). rewrite lookup_drop in Hk.
  pose proof (lookup_lt_Some _ _ _ Hk). pose proof (entries_len t Ht).
  split; [lia|]. split; [done|]. intros j Hj.
  destruct (lookup_lt_is_Some_2 (entries t) j) as [e He]; [lia|].
  destruct e as [d|]; [by exists d|]. exfalso.
  eapply (Hmin (j - 3)%nat None); [|lia|done]. rewrite lookup_drop.
  by replace (3 + (j - 3))%nat with j by lia.
Qed.

Lemma first_free_None t j :
  table_ok t -> first_free t = None -> (3 <= j < 8)%nat -> exists d, entries t !! j = Some (Some d).
Proof.
  intros Ht Hf Hj. unfold first_free in Hf. destruct (list_find _ _) eqn:Hl; [done|].
  apply list_find_None in Hl. rewrite Forall_lookup in Hl. pose proof (entries_len t Ht).
  destruct (lookup_lt_is_Some_2 (entries t) j) as [e He]; [lia|].
  destruct e as [d|]; [by exists d|]. exfalso. apply (Hl (j - 3)%nat None); [|done].
  rewrite lookup_drop. by replace (3 + (j - 3))%nat with j by lia.
Qed.

Lemma set_entry_ok i e t : table_ok t -> table_ok (set_entry i e t).
Proof. intros []. split; simpl; try done. by rewrite length_insert. Qed.

Lemma write_path_ok i path t : table_ok t -> (i < 8)%nat -> table_ok (write_path i path t).
Proof.
  intros [] Hi. pose proof (zlen_nonneg path).
  destruct (lookup_lt_is_Some_2 (paths t) i) as [row Hr]; [lia|].
  rewrite Forall_forall in rows_len0. pose proof (rows_len0 row (list_elem_of_lookup_2 _ _ _ Hr)) as Hrow.
  set (n := Z.min (zlen path) 63).
  assert (Htk : zlen (take (Z.to_nat n) path) = n) by (unfold n, zlen in *; rewrite length_take; lia).
  assert (H1 : zlen [0] = 1) by done.
  unfold write_path. rewrite Hr. simpl. fold n. split; simpl; rewrite ?length_insert; try done.
  - apply Forall_insert; [by apply Forall_forall|].
    assert (Hz : zlen (upd 0 (take (Z.to_nat n) path) row) = 64) by (rewrite zlen_upd; lia).
    rewrite zlen_upd; lia.
  - apply Forall_insert; [done|lia].
Qed.

Lemma copy_into_ok desc src d t : table_ok t -> (src < 8)%nat -> table_ok (copy_into desc src d t).
Proof.
  intros [] Hs. unfold copy_into.
  destruct (lookup_lt_is_Some_2 (paths t) src) as [row Hr]; [lia|].
  destruct (lookup_lt_is_Some_2 (path_lens t) src) as [n Hn]; [lia|]. rewrite Hr, Hn. simpl.
  split; simpl; rewrite ?length_insert; try done.
  - apply Forall_insert; [done|]. rewrite Forall_forall in rows_len0.
    by eapply rows_len0, list_elem_of_lookup_2.
  - apply Forall_insert; [done|]. rewrite Forall_forall in lens_range0.
    by eapply lens_range0, list_elem_of_lookup_2.
Qed.

Lemma new_table_ok : table_ok new.
Proof. by split; try done; repeat constructor. Qed.

(** A row that holds a written path gives it back. *)
Lemma path_of_written {E} i d path t :
  table_ok t -> (i < 8)%nat ->
  (exists k, target d = File k) \/ (exists k h, target d = Scheme k h) ->
  path_of (E:=E) i (set_entry i (Some d) (write_path i path t)) = Ok (Some (take 63 path)).
Proof.
  intros Ht Hi Hd. pose proof Ht as []. pose proof (zlen_nonneg path).
  destruct (lookup_lt_is_Some_2 (paths t) i) as [row Hr]; [lia|].
  rewrite Forall_forall in rows_len0. pose proof (rows_len0 row (list_elem_of_lookup_2 _ _ _ Hr)) as Hrow.
  set (n := Z.min (zlen path) 63).
  assert (Htk : zlen (take (Z.to_nat n) path) = n) by (unfold n, zlen in *; rewrite length_take; lia).
  assert (H63 : take (Z.to_nat n) path = take 63 path).
  { unfold n, zlen. destruct (decide (Z.of_nat (length path) <= 63)); [rewrite !take_ge; lia || done|].
    f_equal. lia. }
  assert (H1 : zlen [0] = 1) by done.
  assert (Hgoal : slice (E:=E) 0 n (upd n [0] (upd 0 (take (Z.to_nat n) path) row)) = Ok (take 63 path)).
  { unfold slice. assert (Hz : zlen (upd 0 (take (Z.to_nat n) path) row) = 64) by (rewrite zlen_upd; lia).
    rewrite decide_True by (rewrite zlen_upd; lia). f_equal.
    rewrite sub_upd_other by lia. rewrite <-H63. rewrite <-Htk at 1. apply sub_upd_same; lia. }
  unfold path_of, get, set_entry, write_path. simpl.
  rewrite list_lookup_insert_eq by lia. simpl.
  rewrite !list_lookup_insert_eq by lia. rewrite Hr. simpl. fold n. rewrite Hgoal. simpl.
  by destruct Hd as [[k ->]|[k [h ->]]].
Qed.

Lemma length_8 {A} (l : list A) :
  length l = 8%nat -> exists a b c d e f g h, l = [a; b; c; d; e; f; g; h].
Proof. intros H. do 9 (destruct l as [|? l]; try done). by repeat eexists. Qed.

Lemma clone_from_eq other t : table_ok other -> table_ok t -> clone_from other t = other.
Proof.
  intros [Ho1 Ho2 Ho3 _ _] [Ht1 Ht2 Ht3 _ _]. destruct other as [oe op ol], t as [te tp tl]. simpl in *.
  destruct (length_8 _ Ho1) as (?&?&?&?&?&?&?&?&->), (length_8 _ Ho2) as (?&?&?&?&?&?&?&?&->),
    (length_8 _ Ho3) as (?&?&?&?&?&?&?&?&->), (length_8 _ Ht1) as (?&?&?&?&?&?&?&?&->),
    (length_8 _ Ht2) as (?&?&?&?&?&?&?&?&->), (length_8 _ Ht3) as (?&?&?&?&?&?&?&?&->). done.
Qed.

Inductive step : Table -> Table -> Prop :=
| step_alloc_file path fl t : step t (snd (alloc_file path fl t))
| step_alloc_scheme path fl h t : step t (snd (alloc_scheme path fl h t))
| step_alloc d t : step t (snd (alloc d t))
| step_update fd f t : step t (update_desc fd f t)
| step_close fd t : step t (snd (close fd t))
| step_dup src dst t : step t (snd (dup src dst t))
| step_clone other t : table_ok other -> step t (clone_from other t).

Lemma table_step_ok t t' : step t t' -> table_ok t -> table_ok t'.
Proof.
  intros Hst Ht. destruct Hst as [path fl t|path fl h t|d t|fd f t|fd t|src dst t|other t Ho].
  - unfold alloc_file. destruct (first_free t) as [i|] eqn:Hf; [|done].
    apply first_free_Some in Hf as [? _]; [|done]. apply set_entry_ok, write_path_ok; [done|lia].
  - unfold alloc_scheme. destruct (first_free t) as [i|] eqn:Hf; [|done].
    apply first_free_Some in Hf as [? _]; [|done]. apply set_entry_ok, write_path_ok; [done|lia].
  - unfold alloc. destruct (first_free t); [|done]. by apply set_entry_ok.
  - unfold update_desc. destruct (entries t !! fd) as [[d|]|]; [|done..]. by apply set_entry_ok.
  - unfold close. destruct (fd <? 3)%nat; [done|]. destruct (entries t !! fd) as [[d|]|]; [|done..].
    destruct Ht. split; simpl; rewrite ?length_insert; try done. by apply Forall_insert.
  - unfold dup, get. destruct (entries t !! src) as [[d|]|] eqn:Hs; simpl; [|done..].
    apply lookup_lt_Some in Hs. pose proof (entries_len t Ht).
    destruct dst as [k|]; [destruct (k <? MAX_FDS)%nat|destruct (first_free t)]; simpl;
      first [done | apply copy_into_ok; [done|lia]].
  - by rewrite clone_from_eq.
Qed.

(** Every descriptor table reachable from a new process's by opening,
    allocating, updating, closing, duplicating and cloning is well formed, and
    looking up the path of any descriptor never panics. *)
Theorem fd_table_invariant t :
  rtc step new t -> table_ok t /\ forall fd, safe (path_of (E:=unit) fd t).
Proof.
  intros Hr. assert (Ht : table_ok t).
  { revert t Hr. apply (rtc_ind_r (R:=step)); [apply new_table_ok|]. intros. by eapply table_step_ok. }
  split; [done|]. intros fd. unfold path_of, get.
  destruct (entries t !! fd) as [[d|]|] eqn:He; simpl; [|done..].
  apply lookup_lt_Some in He. destruct Ht.
  destruct (lookup_lt_is_Some_2 (paths t) fd) as [row Hrow]; [lia|].
  destruct (lookup_lt_is_Some_2 (path_lens t) fd) as [n Hn]; [lia|]. rewrite Hrow, Hn.
  rewrite Forall_lookup in rows_len0. rewrite Forall_lookup in lens_range0.
  pose proof (rows_len0 _ _ Hrow). pose proof (lens_range0 _ _ Hn). simpl in *.
  unfold slice. rewrite decide_True by lia. by destruct (target d).
Qed.

Lemma fd_table_invariant_witness :
  table_ok (snd (dup 3 (Some 1%nat) (snd (alloc_file [47; 97] 0 new)))).
Proof.
  apply fd_table_invariant. eapply rtc_l; [apply step_alloc_file|].
  eapply rtc_l; [apply step_dup|]. apply rtc_refl.
Defined.

(** Opening a file takes the lowest free descriptor from 3 on, with
    offset 0 and the given flags; its path, cut to 63 bytes, is what
    [path_of] then returns; no other descriptor and no other path changes.
    It fails exactly when descriptors 3 to 7 are all open, and then changes
    nothing. *)
Theorem alloc_file_spec path fl t :
  table_ok t ->
  match alloc_file path fl t with
  | (Some fd, t') =>
      (3 <= fd < 8)%nat /\ get fd t = None /\
      (forall j, (3 <= j < fd)%nat -> get j t <> None) /\
      get fd t' = Some (mkDesc (File (Z.of_nat fd)) fl 0) /\
      path_of (E:=unit) fd t' = Ok (Some (take 63 path)) /\
      forall j, j <> fd -> get j t' = get j t /\ path_of (E:=unit) j t' = path_of j t
  | (None, t') => t' = t /\ forall j, (3 <= j < 8)%nat -> get j t <> None
  end.
Proof.
  intros Ht. unfold alloc_file. destruct (first_free t) as [i|] eqn:Hf.
  - destruct (first_free_Some t i Ht Hf) as (Hi & Hn & Hmin). pose proof (entries_len t Ht).
    split_and!; [lia|lia|by unfold get; rewrite Hn| | | |].
    + intros j Hj. destruct (Hmin j Hj) as [d Hd]. unfold get. by rewrite Hd.
    + unfold get. simpl. by rewrite list_lookup_insert_eq by lia.
    + apply path_of_written; [done|lia|]. left. by eexists.
    + intros j Hj. unfold path_of, get. simpl. by rewrite !list_lookup_insert_ne by done.
  - split; [done|]. intros j Hj. destruct (first_free_None t j Ht Hf Hj) as [d Hd].
    unfold get. by rewrite Hd.
Qed.

Lemma alloc_file_spec_witness :
  path_of (E:=unit) 3 (snd (alloc_file [47; 97] 0 new)) = Ok (Some [47; 97]).
Proof. apply (alloc_file_spec [47; 97] 0 new new_table_ok). Defined.

End FdTable.
