(* ===== verification/Process.v ===== *)
(** * Processes

    Models the [Process] structure of [src/process/mod.rs] and its small
    operations.  The fields that describe the program image are grouped in
    [Image].  Saved CPU, FPU and kernel-stack state, the working directory and
    the ELF auxiliary values are not modelled: no operation modelled here
    reads them. *)

From S2P Require Import Prelude Bytes Capability Signal Vma FdTable.

Module Process.

Inductive AbiKind := LinuxElf | Wasm | ZiqaNative | RedoxElf.

#[global] Instance AbiKind_eq_dec : EqDecision AbiKind.
Proof. solve_decision. Defined.

Inductive ProcessState := Created | Ready | Running | Blocked | Canceled | Exited (code : Z).

#[global] Instance ProcessState_eq_dec : EqDecision ProcessState.
Proof. solve_decision. Defined.

Record Image := mkImage {
  vmas : list Vma.Vma;
  entry_point : Z;
  stack_top : Z;
  brk : Z;
  mmap_bump : Z;
  binary_data : list Z;
  page_table_frame : option Z;
  argv : list (list Z);
  envp : list (list Z)
}.

Record Process := mkProcess {
  pid : Z;
  state : ProcessState;
  abi : AbiKind;
  priority : Z;   (* u8 *)
  capabilities : Capability.CapabilitySpace;
  image : Image;
  signals : Signal.SignalState;
  parent : Z;
  exit_code : Z;
  join_waiters : list Z;
  fds : FdTable.Table;
  vruntime : Z;
  fs_base : Z;
  gs_base : Z;
  timed_out : bool
}.

Definition new (p : Z) (a : AbiKind) (entry stack : Z) : Process :=
  mkProcess p Created a 2 []
    (mkImage [] entry stack 0x20000000 0x70000000 [] None [] [])
    Signal.new 0 0 [] FdTable.new 0 0 0 false.

Definition set_state (st : ProcessState) (p : Process) : Process :=
  mkProcess (pid p) st (abi p) (priority p) (capabilities p) (image p) (signals p) (parent p)
    (exit_code p) (join_waiters p) (fds p) (vruntime p) (fs_base p) (gs_base p) (timed_out p).

Definition set_image (i : Image) (p : Process) : Process :=
  mkProcess (pid p) (state p) (abi p) (priority p) (capabilities p) i (signals p) (parent p)
    (exit_code p) (join_waiters p) (fds p) (vruntime p) (fs_base p) (gs_base p) (timed_out p).

Definition set_signals (sg : Signal.SignalState) (p : Process) : Process :=
  mkProcess (pid p) (state p) (abi p) (priority p) (capabilities p) (image p) sg (parent p)
    (exit_code p) (join_waiters p) (fds p) (vruntime p) (fs_base p) (gs_base p) (timed_out p).

Definition set_exit_code (c : Z) (p : Process) : Process :=
  mkProcess (pid p) (state p) (abi p) (priority p) (capabilities p) (image p) (signals p) (parent p)
    c (join_waiters p) (fds p) (vruntime p) (fs_base p) (gs_base p) (timed_out p).

Definition set_join_waiters (ws : list Z) (p : Process) : Process :=
  mkProcess (pid p) (state p) (abi p) (priority p) (capabilities p) (image p) (signals p) (parent p)
    (exit_code p) ws (fds p) (vruntime p) (fs_base p) (gs_base p) (timed_out p).

Definition set_vruntime (v : Z) (p : Process) : Process :=
  mkProcess (pid p) (state p) (abi p) (priority p) (capabilities p) (image p) (signals p) (parent p)
    (exit_code p) (join_waiters p) (fds p) v (fs_base p) (gs_base p) (timed_out p).

Definition set_bases (fs gs : Z) (p : Process) : Process :=
  mkProcess (pid p) (state p) (abi p) (priority p) (capabilities p) (image p) (signals p) (parent p)
    (exit_code p) (join_waiters p) (fds p) (vruntime p) fs gs (timed_out p).

Definition set_timed_out (b : bool) (p : Process) : Process :=
  mkProcess (pid p) (state p) (abi p) (priority p) (capabilities p) (image p) (signals p) (parent p)
    (exit_code p) (join_waiters p) (fds p) (vruntime p) (fs_base p) (gs_base p) b.

(** What [fork] copies into a new child. *)
Definition inherit (from : Process) (par : Z) (i : Image) (p : Process) : Process :=
  mkProcess (pid p) Ready (abi p) (priority from) (capabilities p) i (signals p) par
    (exit_code p) (join_waiters p) (FdTable.clone_from (fds from) (fds p)) (vruntime p)
    (fs_base p) (gs_base p) (timed_out p).

Definition set_priority (pr : Z) (p : Process) : Process :=
  mkProcess (pid p) (state p) (abi p) (Z.min pr 4) (capabilities p) (image p) (signals p) (parent p)
    (exit_code p) (join_waiters p) (fds p) (vruntime p) (fs_base p) (gs_base p) (timed_out p).

Definition set_state_ready : Process -> Process := set_state Ready.
Definition exit (code : Z) : Process -> Process := set_state (Exited code).
Definition block : Process -> Process := set_state Blocked.
Definition unblock : Process -> Process := set_state Ready.

(** ** Field updates of the image *)

Definition with_vmas (vs : list Vma.Vma) (i : Image) : Image :=
  mkImage vs (entry_point i) (stack_top i) (brk i) (mmap_bump i) (binary_data i)
    (page_table_frame i) (argv i) (envp i).

Definition with_binary (b : list Z) (i : Image) : Image :=
  mkImage (vmas i) (entry_point i) (stack_top i) (brk i) (mmap_bump i) b
    (page_table_frame i) (argv i) (envp i).

Definition with_frame (f : option Z) (i : Image) : Image :=
  mkImage (vmas i) (entry_point i) (stack_top i) (brk i) (mmap_bump i) (binary_data i)
    f (argv i) (envp i).

Definition with_args (av ev : list (list Z)) (i : Image) : Image :=
  mkImage (vmas i) (entry_point i) (stack_top i) (brk i) (mmap_bump i) (binary_data i)
    (page_table_frame i) av ev.

(** [PidAllocator]. *)
Definition alloc_pid (next_pid : Z) : Z * Z := (next_pid, next_pid + 1).

End Process.
