(* ===== verification/Scheduler.v ===== *)
(** * The scheduler

    Models [src/process/scheduler.rs] on one processor.  The state is the
    process table, the ready set, the pid allocator and the processor's own
    registers: the current pid, the raw pointer to the running [Process] (kept
    as the pid of the object it points at), the FS/GS base registers and CR3.

    A context switch is the change of this state: [schedule] ends where
    [switch_context] hands over to the new process.  Locks, the interrupt
    flag, FPU and kernel-stack contents and console output are not modelled.
    What the page-table code and the binary loader do is given to the
    operations that call them. *)

From S2P Require Import Prelude Bytes Signal Vma FdTable Process.

Module Scheduler.
Import Process.

(** ** The ready set *)

Record ReadySet := mkReady {
  queues : list (Z * Z);   (* BTreeSet<(u64, Pid)>, in ascending order *)
  counter : Z
}.

(** Insertion into an ordered set of pairs. *)
Fixpoint set_insert (e : Z * Z) (q : list (Z * Z)) : list (Z * Z) :=
  match q with
  | [] => [e]
  | x :: q' =>
      if (fst e <? fst x) || ((fst e =? fst x) && (snd e <? snd x)) then e :: x :: q'
      else if (fst e =? fst x) && (snd e =? snd x) then x :: q'
      else x :: set_insert e q'
  end.

Definition push (p vrt : Z) (r : ReadySet) : ReadySet :=
  mkReady (set_insert (counter r + 1, p) (queues r)) (counter r + 1).

#[global] Arguments push : simpl never.

Definition pop_lowest (r : ReadySet) : option Z * ReadySet :=
  match queues r with
  | [] => (None, r)
  | (_, p) :: q' => (Some p, mkReady q' (counter r))
  end.

Record Sched := mkSched {
  tasks : gmap Z Process;
  ready : ReadySet;
  ticks : Z;
  next_pid : Z;
  current : option Z;
  raw : option Z;      (* current_process_raw; None is null *)
  fs_msr : Z;
  gs_msr : Z;
  cr3 : Z;
  kernel_cr3 : Z
}.

Definition with_tasks (t : gmap Z Process) (s : Sched) : Sched :=
  mkSched t (ready s) (ticks s) (next_pid s) (current s) (raw s) (fs_msr s) (gs_msr s) (cr3 s) (kernel_cr3 s).
Definition with_ready (r : ReadySet) (s : Sched) : Sched :=
  mkSched (tasks s) r (ticks s) (next_pid s) (current s) (raw s) (fs_msr s) (gs_msr s) (cr3 s) (kernel_cr3 s).
Definition with_ticks (t : Z) (s : Sched) : Sched :=
  mkSched (tasks s) (ready s) t (next_pid s) (current s) (raw s) (fs_msr s) (gs_msr s) (cr3 s) (kernel_cr3 s).
Definition with_next_pid (n : Z) (s : Sched) : Sched :=
  mkSched (tasks s) (ready s) (ticks s) n (current s) (raw s) (fs_msr s) (gs_msr s) (cr3 s) (kernel_cr3 s).
Definition set_current_pid (c : option Z) (s : Sched) : Sched :=
  mkSched (tasks s) (ready s) (ticks s) (next_pid s) c (raw s) (fs_msr s) (gs_msr s) (cr3 s) (kernel_cr3 s).
Definition with_cpu (r : option Z) (fs gs c : Z) (s : Sched) : Sched :=
  mkSched (tasks s) (ready s) (ticks s) (next_pid s) (current s) r fs gs c (kernel_cr3 s).

Definition get_process (p : Z) (s : Sched) : option Process := tasks s !! p.

(** Insert or replace a process under its pid. *)
Definition put_process (p : Process) (s : Sched) : Sched := with_tasks (<[pid p := p]> (tasks s)) s.

(** Update the process object [p] refers to, if it is in the table. *)
Definition update_process (p : Z) (f : Process -> Process) (s : Sched) : Sched :=
  with_tasks (alter f p (tasks s)) s.

Definition enqueue (p vrt : Z) (s : Sched) : Sched := with_ready (push p vrt (ready s)) s.

Definition list_pids (s : Sched) : list Z := merge_sort Z.le (elements (dom (tasks s))).

(** Allocate the next pid. *)
Definition take_pid (s : Sched) : Z * Sched :=
  (fst (alloc_pid (next_pid s)), with_next_pid (snd (alloc_pid (next_pid s))) s).

(** ** Scheduling *)

(** The registers saved into the process that is switched out: through the raw
    pointer when it points at the old process, else through the table. *)
Definition save_bases (old : option Z) (s : Sched) : res unit Sched :=
  match raw s with
  | Some r =>
      match tasks s !! r with
      | None => Fault
      | Some rp =>
          if decide (old = Some (pid rp)) then Ok (update_process r (set_bases (fs_msr s) (gs_msr s)) s)
          else match old with
               | Some o => Ok (update_process o (set_bases (fs_msr s) (gs_msr s)) s)
               | None => Ok s
               end
      end
  | None =>
      match old with
      | Some o => Ok (update_process o (set_bases (fs_msr s) (gs_msr s)) s)
      | None => Ok s
      end
  end.

(** The old process, if still [Running], becomes [Ready] and is queued. *)
Definition requeue_old (old : option Z) (s : Sched) : Sched :=
  match old with
  | Some o =>
      match tasks s !! o with
      | Some op =>
          if decide (state op = Running)
          then enqueue (pid op) (vruntime op) (update_process o (set_state Ready) s)
          else s
      | None => s
      end
  | None => s
  end.

(** Switch to the process [p], which was found [Ready]. *)
Definition switch_to (new_pid : Z) (p : Process) (s : Sched) : res unit Sched :=
  let old := current s in
  s1 ← save_bases old (set_current_pid (Some new_pid) s);
  let s2 := update_process new_pid (set_state Running) s1 in
  let frame :=
    if decide (abi p = ZiqaNative /\ page_table_frame (image p) = None)
    then if kernel_cr3 s =? 0 then None else Some (kernel_cr3 s)
    else page_table_frame (image p) in
  let np := default p (tasks s2 !! new_pid) in
  let s3 := with_cpu (Some new_pid) (fs_base np) (gs_base np) (default (cr3 s) frame) s2 in
  Ok (requeue_old old s3).

(** The [loop] of [schedule]: one entry of the ready set per turn. *)
Fixpoint schedule_loop (q : list (Z * Z)) (s : Sched) : res unit Sched :=
  match q with
  | [] => Ok s
  | (_, new_pid) :: q' =>
      let s1 := with_ready (mkReady q' (counter (ready s))) s in
      match tasks s !! new_pid with
      | None => schedule_loop q' s1
      | Some p =>
          if decide (current s = Some new_pid /\ state p = Running) then Ok s1
          else if decide (state p = Ready) then switch_to new_pid p s1
          else schedule_loop q' s1
      end
  end.

Definition schedule (s : Sched) : res unit Sched := schedule_loop (queues (ready s)) s.

(** ** Creating processes *)

Section spawn.
Context `{!VirtAddrOps, !BinarySearch}.

Definition STACK_SIZE : Z := 256 * 1024.

(** [Vma::from(MemoryRegion {..})] of a read-write region. *)
Definition region (start size : Z) : option Vma.Vma :=
  s ← va_new start;
  e ← va_add s size;
  Some (Vma.mkVma s e (Vma.mkFlags true true false true false) false None 0 0 None).

Definition add_region_to (v : Vma.Vma) (p : Process) : Process :=
  set_image (with_vmas (Vma.add_region v (vmas (image p))) (image p)) p.

(** [frame] is what [create_process_page_table] returns. *)
Definition set_frame (frame : option Z) (p : Process) : Process :=
  match frame with Some f => set_image (with_frame (Some f) (image p)) p | None => p end.

(** [schedule_ready] of a process in the table. *)
Definition schedule_ready (p : Process) (s : Sched) : Sched :=
  enqueue (pid p) (vruntime p) (update_process (pid p) set_state_ready s).

Definition spawn (a : AbiKind) (entry stack : Z) (frame : option Z) (s : Sched)
    : res unit (option Z * Sched) :=
  let r := take_pid s in
  let p := set_frame frame (set_priority 0 (new (fst r) a entry stack)) in
  if stack <? STACK_SIZE then Ok (None, snd r)
  else
    match region (stack - STACK_SIZE) STACK_SIZE with
    | None => Panic
    | Some v =>
        let p' := add_region_to v p in
        Ok (Some (fst r), schedule_ready p' (put_process p' (snd r)))
    end.

Definition spawn_kthread (trampoline : Z) (s : Sched) : Z * Sched :=
  let r := take_pid s in
  let p := new (fst r) ZiqaNative trampoline 0 in
  (fst r, schedule_ready p (put_process p (snd r))).

(** A loader is given the binary and the process to load it into: whether it
    succeeds, and the process it leaves. *)
Definition loader : Type := list Z -> Process -> bool * Process.

Definition USER_STACK : Z := 0x7FFFFFFF000.

(** The common body of the [spawn_*elf*] functions.  [hold] tells whether the
    binary stays in the process while it is loaded ([spawn_elf],
    [spawn_redox_elf]) or is taken out and put back (the [_from_vec] ones). *)
Definition spawn_image (a : AbiKind) (load : loader) (binary : list Z) (hold : bool)
    (av ev : list (list Z)) (frame : option Z) (s : Sched) : res unit (option Z * Sched) :=
  let r := take_pid s in
  let p0 := new (fst r) a 0x1000000 USER_STACK in
  let p1 := set_image (with_args av ev (with_binary (if hold then binary else []) (image p0))) p0 in
  match region (USER_STACK - STACK_SIZE) STACK_SIZE with
  | None => Panic
  | Some v =>
      match load binary (add_region_to v (set_frame frame p1)) with
      | (true, p2) =>
          let p3 := if hold then p2 else set_image (with_binary binary (image p2)) p2 in
          Ok (Some (fst r), enqueue (fst r) 0 (with_tasks (<[fst r := set_state_ready p3]> (tasks s)) (snd r)))
      | (false, _) => Ok (None, snd r)
      end
  end.

(** [detect] is the ABI registry's choice of loader for a binary. *)
Definition spawn_elf (detect : list Z -> option (AbiKind * loader)) (binary : list Z)
    (frame : option Z) (s : Sched) : res unit (option Z * Sched) :=
  match detect binary with
  | None => Ok (None, s)
  | Some (a, load) => spawn_image a load binary true [] [] frame s
  end.

Definition spawn_elf_from_vec (detect : list Z -> option (AbiKind * loader)) (binary : list Z)
    (frame : option Z) (s : Sched) : res unit (option Z * Sched) :=
  match detect binary with
  | None => Ok (None, s)
  | Some (a, load) => spawn_image a load binary false [] [] frame s
  end.

Definition spawn_redox_elf (redox : loader) (binary : list Z) (frame : option Z) (s : Sched)
    : res unit (option Z * Sched) :=
  spawn_image RedoxElf redox binary true [] [] frame s.

(** "orbital", "/bin/launcher" and "VT=1". *)
Definition orbital_argv : list (list Z) :=
  [[111; 114; 98; 105; 116; 97; 108]; [47; 98; 105; 110; 47; 108; 97; 117; 110; 99; 104; 101; 114]].
Definition orbital_envp : list (list Z) := [[86; 84; 61; 49]].

Definition spawn_redox_elf_from_vec (redox : loader) (binary : list Z) (frame : option Z) (s : Sched)
    : res unit (option Z * Sched) :=
  spawn_image RedoxElf redox binary false orbital_argv orbital_envp frame s.

Definition spawn_redox_elf_with_args (redox : loader) (binary : list Z) (av ev : list (list Z))
    (frame : option Z) (s : Sched) : res unit (option Z * Sched) :=
  spawn_image RedoxElf redox binary false av ev frame s.

End spawn.

Definition init_boot_process (s : Sched) : Sched :=
  let r := take_pid s in
  set_current_pid (Some (fst r))
    (put_process (set_state Running (new (fst r) ZiqaNative 0 0)) (snd r)).

(** A writable area becomes copy-on-write. *)
Definition mark_cow (v : Vma.Vma) : Vma.Vma :=
  let fl := Vma.flags v in
  Vma.mkVma (Vma.start v) (Vma.end_ v)
    (Vma.mkFlags (Vma.readable fl) (Vma.writable fl) (Vma.executable fl) (Vma.user_accessible fl)
       (if Vma.writable fl then true else Vma.copy_on_write fl))
    (Vma.is_file_backed v) (Vma.file_path v) (Vma.file_offset v) (Vma.file_size v) (Vma.bco_hook v).

(** [frame] is what [cow_fork_parent] returns. *)
Definition fork (parent_pid : Z) (frame : option Z) (s : Sched) : option Z * Sched :=
  match get_process parent_pid s with
  | None => (None, s)
  | Some par =>
      let r := take_pid s in
      let base := new (fst r) (abi par) (entry_point (image par)) (stack_top (image par)) in
      let img := with_vmas (map mark_cow (vmas (image par)))
                   (with_binary (binary_data (image par)) (image base)) in
      let img' := match frame with Some f => with_frame (Some f) img | None => img end in
      let child := inherit par parent_pid img' base in
      let par' := set_image (with_vmas (map mark_cow (vmas (image par))) (image par)) par in
      let s1 := update_process parent_pid (fun _ => par') (snd r) in
      (Some (fst r), enqueue (fst r) 0 (put_process child s1))
  end.

(** ** Signals, exit and waiting *)

Definition send_signal (target signum : Z) (s : Sched) : bool * Sched :=
  match get_process target s with
  | None => (false, s)
  | Some p =>
      let p1 := set_signals (snd (Signal.send signum (signals p))) p in
      let upd q := update_process target (fun _ => q) s in
      (true,
       if signum =? Signal.SIGKILL then upd (set_state (Exited (-1)) (set_exit_code (-1) p1))
       else if signum =? Signal.SIGSTOP then upd (set_state Blocked p1)
       else if signum =? Signal.SIGCONT then
         if decide (state p1 = Blocked)
         then enqueue target (vruntime p1) (upd (set_state Ready p1))
         else upd p1
       else upd p1)
  end.

(** A joiner is made [Ready] and queued, whatever its state. *)
Definition wake_joiner (s : Sched) (waiter : Z) : Sched :=
  match get_process waiter s with
  | Some p => enqueue (pid p) (vruntime p) (update_process waiter set_state_ready s)
  | None => s
  end.

(** [with_current_task(|p| p.pid)]. *)
Definition current_task_pid (s : Sched) : option Z :=
  c ← current s; p ← get_process c s; Some (pid p).

(** The parent is signalled while the exiting process is locked; its own
    record is not the parent's ([parent] is another process). *)
Definition exit_process (p code : Z) (s : Sched) : res unit Sched :=
  match get_process p s with
  | None => Ok s
  | Some proc =>
      let s1 := update_process p (fun q => set_state (Exited code) (set_exit_code code q)) s in
      let s2 := if parent proc =? 0 then s1 else snd (send_signal (parent proc) Signal.SIGCHLD s1) in
      let s3 := update_process p (set_join_waiters []) s2 in
      let s4 := foldl wake_joiner s3 (join_waiters proc) in
      if decide (current_task_pid s4 = Some p) then schedule s4 else Ok s4
  end.

Definition cancel_kthread (p : Z) (s : Sched) : res unit (bool * Sched) :=
  match get_process p s with
  | None => Ok (false, s)
  | Some proc =>
      match state proc with
      | Exited _ => Ok (false, s)
      | _ =>
          s' ← exit_process p (-1) (update_process p (set_state Canceled) s);
          Ok (true, s')
      end
  end.

Definition block_current_task (s : Sched) : res unit Sched :=
  match current s with
  | None => Ok s
  | Some c =>
      schedule (update_process c (fun q => if decide (state q = Running) then set_state Blocked q else q) s)
  end.

(** Once the caller is scheduled again it returns 0. *)
Definition join_kthread (p : Z) (s : Sched) : res unit (Z * Sched) :=
  match current_task_pid s with
  | None => Panic
  | Some me =>
      match get_process p s with
      | None => Panic
      | Some proc =>
          match state proc with
          | Exited code => Ok (code, s)
          | _ =>
              s' ← block_current_task (update_process p (fun q => set_join_waiters (join_waiters q ++ [me]) q) s);
              Ok (0, s')
          end
      end
  end.

Definition waits_for (par child_pid : Z) (q : Process) : bool :=
  (if child_pid =? -1 then parent q =? par
   else (pid q =? wrap 64 child_pid) && (parent q =? par))
  && match state q with Exited _ => true | _ => false end.

(** The first exited child in pid order is removed from the table. *)
Definition waitpid (par child_pid : Z) (s : Sched) : option (Z * Z) * Sched :=
  match list_find (fun p => from_option (waits_for par child_pid) false (tasks s !! p) = true) (list_pids s) with
  | Some (_, p) =>
      match tasks s !! p with
      | Some q =>
          match state q with
          | Exited code => (Some (pid q, code), with_tasks (base.delete (pid q) (tasks s)) s)
          | _ => (None, s)
          end
      | None => (None, s)
      end
  | None => (None, s)
  end.

(** [free] says whether [try_lock] on the current process succeeds. *)
Definition tick (free : bool) (s : Sched) : Sched :=
  let s1 := with_ticks (ticks s + 1) s in
  match current s1 with
  | Some c => if free then update_process c (fun q => set_vruntime (vruntime q + 1) q) s1 else s1
  | None => s1
  end.

Definition wake_one (mask : Z) (s : Sched) (p : Z) : Sched :=
  match get_process p s with
  | Some q =>
      if decide (state q = Blocked) then
        if (pid q <? 64) && Z.testbit mask (pid q)
        then enqueue (pid q) (vruntime q) (update_process p (set_state Ready) s)
        else s
      else s
  | None => s
  end.

Definition wake_sleeping_mask (mask : Z) (s : Sched) : Sched := foldl (wake_one mask) s (list_pids s).

Definition set_current (p : Z) (s : Sched) : bool * Sched :=
  match get_process p s with
  | Some _ => (true, set_current_pid (Some p) s)
  | None => (false, s)
  end.

(** [exec_process]: an error of the loader leaves the process with its areas
    cleared and whatever the loader did. *)
Definition exec_process (detect : list Z -> option (AbiKind * loader)) (p : Z) (binary : list Z)
    (frame : option Z) : M Sched string unit := fun s =>
  match detect binary with
  | None => (Err "exec: unrecognized binary format", s)
  | Some (_, load) =>
      match get_process p s with
      | None => (Err "exec: process not found", s)
      | Some proc =>
          let i := image proc in
          let img := mkImage [] (entry_point i) USER_STACK 0x20000000 0x70000000 binary frame
                       (argv i) (envp i) in
          let p1 := set_image img proc in
          match load binary p1 with
          | (false, p2) => (Err "exec: ELF load failed", update_process p (fun _ => p2) s)
          | (true, p2) => (Ok tt, update_process p (fun _ => set_state Ready p2) s)
          end
      end
  end.

(** ** The ready set is a queue *)

Definition qpids (s : Sched) : list Z := map snd (queues (ready s)).

(** Stamps ascend and do not exceed the counter. *)
Definition ready_ok (r : ReadySet) : Prop :=
  StronglySorted Z.lt (map fst (queues r)) /\ Forall (fun e => fst e <= counter r) (queues r).

Lemma set_insert_last e q : Forall (fun x => fst x < fst e) q -> set_insert e q = q ++ [e].
Proof.
  induction 1 as [|x q Hx _ IH]; simpl; [done|]. rewrite IH.
  destruct (Z.ltb_spec (fst e) (fst x)); [lia|]. by destruct (Z.eqb_spec (fst e) (fst x)); [lia|].
Qed.

Lemma push_queues p v r :
  ready_ok r -> queues (push p v r) = queues r ++ [(counter r + 1, p)] /\ ready_ok (push p v r).
Proof.
  intros [Hs Hb]. unfold push. rewrite set_insert_last.
  2:{ eapply Forall_impl; [exact Hb|]. simpl. lia. }
  split; [done|]. split; simpl.
  - rewrite map_app. apply StronglySorted_app_2; [|done|repeat constructor].
    intros x y Hx Hy. apply list_elem_of_singleton in Hy as ->. simpl.
    apply list_elem_of_fmap in Hx as (e & -> & He). rewrite Forall_forall in Hb.
    specialize (Hb e He). simpl in Hb. lia.
  - apply Forall_app. split; [eapply Forall_impl; [exact Hb|]; simpl; lia|].
    repeat constructor. simpl. lia.
Qed.

Inductive qop := Push (p vrt : Z) | Pop.

Fixpoint run_qops (os : list qop) (r : ReadySet) : list (option Z) :=
  match os with
  | [] => []
  | Push p v :: os' => run_qops os' (push p v r)
  | Pop :: os' => fst (pop_lowest r) :: run_qops os' (snd (pop_lowest r))
  end.

(** The plain queue: push at the end, pop from the front. *)
Fixpoint run_fifo (os : list qop) (q : list Z) : list (option Z) :=
  match os with
  | [] => []
  | Push p _ :: os' => run_fifo os' (q ++ [p])
  | Pop :: os' => head q :: run_fifo os' (tail q)
  end.

(** The ready set is a first-in first-out queue, whatever virtual
    runtimes the processes are pushed with: on any sequence of pushes and pops
    it returns the pids in the order they were pushed. *)
Theorem ready_set_is_fifo os : run_qops os (mkReady [] 0) = run_fifo os [].
Proof.
  enough (H : forall r, ready_ok r -> run_qops os r = run_fifo os (map snd (queues r))).
  { apply H. split; constructor. }
  induction os as [|[p v|] os IH]; intros r Hr; simpl; [done| |].
  - destruct (push_queues p v r Hr) as [Hq Hr']. rewrite IH by done.
    rewrite Hq, map_app. done.
  - unfold pop_lowest. destruct r as [[|[c p] q] n]; simpl; [by rewrite IH|].
    f_equal. rewrite IH; [done|]. destruct Hr as [Hs Hb]. simpl in *.
    apply StronglySorted_inv in Hs as [Hs _]. apply Forall_cons in Hb as [_ Hb]. by split.
Qed.

(** ** No ready process is lost *)

(** Well-formedness, except that the [Ready] processes in [ex] need not be
    queued, those in [rn] may be [Running] without being current, and the raw
    pointer need not be the current process if [rw]. *)
Record inv (ex rn : Z -> Prop) (rw : Prop) (s : Sched) : Prop := {
  inv_ready : ready_ok (ready s);
  inv_keyed : forall k p, tasks s !! k = Some p -> pid p = k /\ 1 <= k < next_pid s /\ parent p <> k;
  inv_queued : forall k p, tasks s !! k = Some p -> state p = Ready -> k ∈ qpids s \/ ex k;
  inv_running : forall k p, tasks s !! k = Some p -> state p = Running -> current s = Some k \/ rn k;
  inv_raw : forall r, raw s = Some r -> (current s = Some r \/ rw) /\ is_Some (tasks s !! r);
  inv_next : 1 <= next_pid s
}.

Definition nobody : Z -> Prop := fun _ => False.

(** Every process is stored under its pid, every [Ready] process is queued,
    only the current process is [Running], and the raw pointer, if set, is the
    current process and points at a live object. *)
Definition sched_ok : Sched -> Prop := inv nobody nobody False.

Lemma inv_weaken (ex ex' rn rn' : Z -> Prop) (rw rw' : Prop) s :
  (forall k p, tasks s !! k = Some p -> state p = Ready -> ex k -> ex' k) ->
  (forall k p, tasks s !! k = Some p -> state p = Running -> rn k -> rn' k) -> (rw -> rw') ->
  inv ex rn rw s -> inv ex' rn' rw' s.
Proof.
  intros He Hr Hw []. split; try done.
  - intros k p Hk Hp. destruct (inv_queued0 k p Hk Hp); eauto.
  - intros k p Hk Hp. destruct (inv_running0 k p Hk Hp); eauto.
  - intros r H. destruct (inv_raw0 r H). tauto.
Qed.

Lemma inv_update ex rn rw k f s :
  (forall p, tasks s !! k = Some p ->
    pid (f p) = pid p /\ parent (f p) = parent p /\
    (state (f p) = Ready -> state p = Ready \/ ex k) /\
    (state (f p) = Running -> state p = Running \/ current s = Some k)) ->
  inv ex rn rw s -> inv ex rn rw (update_process k f s).
Proof.
  intros Hf []. split; simpl; try done.
  - intros j p. rewrite lookup_alter_Some. intros [(<- & q & Hq & ->)|[_ Hj]]; [|by eauto].
    destruct (Hf q Hq) as (-> & -> & _). eauto.
  - intros j p. rewrite lookup_alter_Some. intros [(<- & q & Hq & ->)|[_ Hj]] Hst; [|by eauto].
    destruct (Hf q Hq) as (_ & _ & Hr & _). destruct (Hr Hst); eauto.
  - intros j p. rewrite lookup_alter_Some. intros [(<- & q & Hq & ->)|[_ Hj]] Hst; [|by eauto].
    destruct (Hf q Hq) as (_ & _ & _ & Hr). destruct (Hr Hst); eauto.
  - intros r Hr. destruct (inv_raw0 r Hr) as [? [q Hq]]. split; [done|].
    destruct (decide (k = r)) as [->|].
    + rewrite lookup_alter_eq, Hq. by eexists.
    + rewrite lookup_alter_ne by done. by eexists.
Qed.

Lemma qpids_enqueue k v s : ready_ok (ready s) -> qpids (enqueue k v s) = qpids s ++ [k].
Proof.
  intros Hr. unfold qpids, enqueue. cbn [ready with_ready].
  destruct (push_queues k v (ready s) Hr) as [-> _]. by rewrite map_app.
Qed.

Lemma inv_enqueue ex rn rw k v s :
  inv ex rn rw s -> inv (fun j => ex j /\ j <> k) rn rw (enqueue k v s).
Proof.
  intros H. pose proof (qpids_enqueue k v s (inv_ready _ _ _ _ H)) as Hq. destruct H.
  split; try done.
  - by apply push_queues.
  - intros j p Hj Hp. rewrite Hq, elem_of_app, list_elem_of_singleton.
    destruct (decide (j = k)); [tauto|]. destruct (inv_queued0 j p Hj Hp); tauto.
Qed.

(** Making a process ready and queueing it. *)
Lemma inv_wake k v f s :
  (forall p, tasks s !! k = Some p ->
    pid (f p) = pid p /\ parent (f p) = parent p /\ state (f p) = Ready) ->
  sched_ok s -> sched_ok (enqueue k v (update_process k f s)).
Proof.
  intros Hf Hs.
  apply (inv_weaken (fun j => j = k /\ j <> k) nobody nobody nobody False False); [by intros ? ? _ _ []|done|done|].
  apply inv_enqueue, inv_update.
  - intros p Hp. destruct (Hf p Hp) as (-> & -> & ->). split_and!; [done|done|by right|done].
  - by apply (inv_weaken nobody _ nobody nobody False False).
Qed.

(** A new process under a fresh pid, not yet queued. *)
Lemma inv_insert p s :
  pid p = next_pid s -> parent p <> pid p -> state p <> Running ->
  sched_ok s ->
  inv (fun j => j = pid p) nobody False (put_process p (with_next_pid (next_pid s + 1) s)).
Proof.
  intros Hp Hpar Hst []. split; simpl; try done.
  - intros k q. rewrite lookup_insert_Some. intros [[<- <-]|[_ Hk]]; [lia|].
    destruct (inv_keyed0 k q Hk) as (? & ? & ?). split_and!; [done|lia|lia|done].
  - intros k q. rewrite lookup_insert_Some. intros [[<- <-]|[_ Hk]] Hq; [by right|].
    destruct (inv_queued0 k q Hk Hq); [by left|done].
  - intros k q. rewrite lookup_insert_Some. intros [[<- <-]|[_ Hk]] Hq; [done|eauto].
  - intros r Hr. destruct (inv_raw0 r Hr) as [? [q Hq]]. split; [done|].
    rewrite lookup_insert_is_Some'. right. by eexists.
  - lia.
Qed.

(** Such a process, made ready and queued. *)
Lemma inv_spawn p v s :
  pid p = next_pid s -> parent p <> pid p -> state p <> Running -> sched_ok s ->
  sched_ok (enqueue (pid p) v
    (update_process (pid p) set_state_ready (put_process p (with_next_pid (next_pid s + 1) s)))).
Proof.
  intros Hp Hpar Hst Hs.
  apply (inv_weaken (fun j => j = pid p /\ j <> pid p) nobody nobody nobody False False); [by intros ? ? _ _ []|done|done|].
  apply inv_enqueue, inv_update; [|by apply inv_insert].
  intros q Hq. split_and!; [done|done|by right|done].
Qed.

(** ** Scheduling keeps the invariant and never fails *)

Lemma save_bases_eq ex s n :
  inv ex nobody False s ->
  save_bases (current s) (set_current_pid (Some n) s) =
  Ok (match current s with
      | Some o => update_process o (set_bases (fs_msr s) (gs_msr s)) (set_current_pid (Some n) s)
      | None => set_current_pid (Some n) s
      end).
Proof.
  intros Hs. unfold save_bases. simpl. destruct (raw s) as [r|] eqn:Hr; [|by destruct (current s)].
  destruct (inv_raw _ _ _ _ Hs r Hr) as [[Hc|[]] [q Hq]]. rewrite Hq, Hc.
  destruct (inv_keyed _ _ _ _ Hs r q Hq) as (-> & _). by rewrite decide_True.
Qed.

Lemma requeue_old_ok old s :
  inv nobody (fun j => old = Some j) False s -> sched_ok (requeue_old old s).
Proof.
  intros Hs. unfold requeue_old. destruct old as [o|].
  2:{ apply (inv_weaken nobody nobody (fun j => None = Some j) nobody False False); done. }
  destruct (tasks s !! o) as [op|] eqn:Ho.
  2:{ apply (inv_weaken nobody nobody (fun j => Some o = Some j) nobody False False); [done| |done|done].
      intros k p Hk _ [= <-]. congruence. }
  destruct (inv_keyed _ _ _ _ Hs o op Ho) as (Hpid & _). rewrite Hpid. case_decide as Hr.
  - apply (inv_weaken (fun j => j = o /\ j <> o) nobody (fun j => Some o = Some j) nobody False False);
      [by intros ? ? _ _ []| |done|].
    { intros k p Hk Hst [= <-]. simpl in Hk. rewrite lookup_alter_eq, Ho in Hk.
      injection Hk as <-. done. }
    apply inv_enqueue, inv_update.
    + intros p Hp. split_and!; [done|done|by right|done].
    + by apply (inv_weaken nobody _ (fun j => Some o = Some j) (fun j => Some o = Some j) False False).
  - apply (inv_weaken nobody nobody (fun j => Some o = Some j) nobody False False); [done| |done|done].
    intros k p Hk Hst [= <-]. congruence.
Qed.

Lemma inv_set_current ex n s :
  inv ex nobody False s ->
  inv ex (fun j => current s = Some j) True (set_current_pid (Some n) s).
Proof.
  intros []. split; simpl; try done.
  - intros k p Hk Hst. destruct (inv_running0 k p Hk Hst); [by right|done].
  - intros r Hr. destruct (inv_raw0 r Hr) as [_ ?]. auto.
Qed.

Lemma inv_with_cpu ex rn rw n fs gs c s :
  current s = Some n -> is_Some (tasks s !! n) ->
  inv ex rn rw s -> inv ex rn False (with_cpu (Some n) fs gs c s).
Proof. intros Hc Hn []. split; try done. intros r [= <-]. auto. Qed.

Lemma switch_to_ok n p s :
  inv (fun j => j = n) nobody False s -> tasks s !! n = Some p -> state p = Ready ->
  exists s', switch_to n p s = Ok s' /\ sched_ok s'.
Proof.
  intros Hs Hn Hst. unfold switch_to. rewrite (save_bases_eq _ _ _ Hs).
  cbn [mbind res_bind]. eexists. split; [done|]. apply requeue_old_ok.
  set (s1 := match current s with Some o => _ | None => _ end).
  assert (H1 : inv (fun j => j = n) (fun j => current s = Some j) True s1 /\
               current s1 = Some n /\ exists q, tasks s1 !! n = Some q).
  { unfold s1. pose proof (inv_set_current _ n s Hs) as Hc. destruct (current s) as [o|].
    - split; [apply inv_update; [|done]; intros q Hq; split_and!; auto|]. split; [done|].
      simpl. rewrite lookup_alter. case_decide; subst; rewrite ?Hn; simpl; eauto.
    - simpl. by eauto. }
  destruct H1 as (H1 & Hc1 & q & Hq).
  assert (Hq2 : tasks (update_process n (set_state Running) s1) !! n = Some (set_state Running q)).
  { simpl. by rewrite lookup_alter_eq, Hq. }
  apply (inv_weaken (fun j => j = n) nobody (fun j => current s = Some j) (fun j => current s = Some j)
           False False); [|done|done|].
  - intros k r Hk Hr ->. cbn [with_cpu tasks] in Hk. rewrite Hq2 in Hk. injection Hk as <-. done.
  - eapply inv_with_cpu; [done|by eexists|]. apply inv_update; [|exact H1].
    intros r Hr. split_and!; auto.
Qed.

Lemma inv_pop c n q s :
  queues (ready s) = (c, n) :: q -> sched_ok s ->
  inv (fun j => j = n) nobody False (with_ready (mkReady q (counter (ready s))) s).
Proof.
  intros Hq []. split; try done.
  - destruct inv_ready0 as [Hs Hb]. rewrite Hq in Hs, Hb. simpl in Hs.
    apply StronglySorted_inv in Hs as [Hs _]. apply Forall_cons in Hb as [_ Hb]. by split.
  - intros k p Hk Hp. unfold qpids. simpl. destruct (inv_queued0 k p Hk Hp) as [Hin|[]].
    unfold qpids in Hin. rewrite Hq in Hin. simpl in Hin. apply elem_of_cons in Hin as [->|]; auto.
Qed.

Lemma schedule_ok s : sched_ok s -> exists s', schedule s = Ok s' /\ sched_ok s'.
Proof.
  unfold schedule. remember (queues (ready s)) as q eqn:Hq. revert s Hq.
  induction q as [|[c n] q IH]; intros s Hq Hs; simpl; [by eauto|].
  pose proof (inv_pop c n q s (eq_sym Hq) Hs) as Hp.
  set (s1 := with_ready _ s) in *.
  assert (Hdrop : (forall p, tasks s !! n = Some p -> state p <> Ready) -> sched_ok s1).
  { intros Hno. apply (inv_weaken (fun j => j = n) nobody nobody nobody False False); [|done|done|done].
    intros k p Hk Hr ->. by apply (Hno p). }
  destruct (tasks s !! n) as [p|] eqn:Hn.
  - case_decide as Hcur.
    { exists s1. split; [done|]. apply Hdrop. intros p' [= <-]. destruct Hcur as [_ ->]. done. }
    case_decide as Hr; [by apply switch_to_ok|].
    apply IH; [done|]. apply Hdrop. by intros p' [= <-].
  - apply IH; [done|]. by apply Hdrop.
Qed.

(** ** The other operations keep it *)

Lemma send_signal_ok target signum s : sched_ok s -> sched_ok (snd (send_signal target signum s)).
Proof.
  intros Hs. unfold send_signal, get_process. destruct (tasks s !! target) as [p|] eqn:Hp; [|done].
  assert (Hupd : forall q, pid q = pid p -> parent q = parent p ->
    (state q = Ready -> state p = Ready) -> (state q = Running -> state p = Running) ->
    sched_ok (update_process target (fun _ => q) s)).
  { intros q H1 H2 H3 H4. apply inv_update; [|done]. intros p' Hp'.
    rewrite Hp in Hp'. injection Hp' as <-. split_and!; auto. }
  simpl. destruct (signum =? _); [by apply Hupd|]. destruct (signum =? _); [by apply Hupd|].
  destruct (signum =? _); [|by apply Hupd]. case_decide; [|by apply Hupd].
  apply inv_wake; [|done]. intros p' Hp'. rewrite Hp in Hp'. by injection Hp' as <-.
Qed.

Lemma wake_joiner_ok w s : sched_ok s -> sched_ok (wake_joiner s w).
Proof.
  intros Hs. unfold wake_joiner, get_process. destruct (tasks s !! w) as [p|] eqn:Hp; [|done].
  destruct (inv_keyed _ _ _ _ Hs w p Hp) as (-> & _). by apply inv_wake.
Qed.

Lemma foldl_ok {A} (f : Sched -> A -> Sched) l s :
  (forall a s, sched_ok s -> sched_ok (f s a)) -> sched_ok s -> sched_ok (foldl f s l).
Proof. intros Hf. revert s. induction l as [|a l IH]; intros s Hs; simpl; auto. Qed.

Lemma exit_process_ok p code s :
  sched_ok s -> exists s', exit_process p code s = Ok s' /\ sched_ok s'.
Proof.
  intros Hs. unfold exit_process. destruct (get_process p s) as [proc|]; [|by eauto].
  set (s1 := update_process p (fun q => set_state (Exited code) (set_exit_code code q)) s).
  assert (H1 : sched_ok s1) by (apply inv_update; [|done]; intros q _; split_and!; done).
  set (s2 := if parent proc =? 0 then s1 else _).
  assert (H2 : sched_ok s2).
  { unfold s2. destruct (parent proc =? 0); [done|]. by apply send_signal_ok. }
  set (s4 := foldl wake_joiner (update_process p (set_join_waiters []) s2) (join_waiters proc)).
  assert (H4 : sched_ok s4).
  { apply foldl_ok; [intros; by apply wake_joiner_ok|]. apply inv_update; [|done].
    intros q _. split_and!; auto. }
  case_decide; [by apply schedule_ok|by eauto].
Qed.

Lemma cancel_kthread_ok p s :
  sched_ok s -> exists r, cancel_kthread p s = Ok r /\ sched_ok (snd r).
Proof.
  intros Hs. unfold cancel_kthread. destruct (get_process p s) as [q|]; [|by eauto].
  assert (H1 : sched_ok (update_process p (set_state Canceled) s))
    by (apply inv_update; [|done]; intros r _; split_and!; done).
  destruct (exit_process_ok p (-1) _ H1) as (s' & He & Hs').
  destruct (state q); simpl; rewrite ?He; simpl; eauto.
Qed.

Lemma block_current_task_ok s :
  sched_ok s -> exists s', block_current_task s = Ok s' /\ sched_ok s'.
Proof.
  intros Hs. unfold block_current_task. destruct (current s) as [c|]; [|by eauto].
  apply schedule_ok. apply inv_update; [|done]. intros q _. case_decide; split_and!; auto; done.
Qed.

Lemma join_kthread_ok p s r : sched_ok s -> join_kthread p s = Ok r -> sched_ok (snd r).
Proof.
  intros Hs. unfold join_kthread. destruct (current_task_pid s) as [me|]; [|done].
  destruct (get_process p s) as [q|]; [|done].
  set (s1 := update_process p _ s).
  assert (H1 : sched_ok s1) by (apply inv_update; [|done]; intros t _; split_and!; auto).
  destruct (block_current_task_ok s1 H1) as (s' & -> & Hs').
  destruct (state q); simpl; intros [= <-]; done.
Qed.

(** The reaped child is not the process that reaps it. *)
Lemma waitpid_ok c child s :
  sched_ok s -> current s = Some c -> sched_ok (snd (waitpid c child s)).
Proof.
  intros Hs Hc. unfold waitpid. destruct (list_find _ _) as [[i p]|] eqn:Hf; [|done].
  apply list_find_Some in Hf as (_ & Hw & _).
  destruct (tasks s !! p) as [q|] eqn:Hq; [|done]. simpl in Hw.
  destruct (inv_keyed _ _ _ _ Hs p q Hq) as (Hpid & _ & Hpar).
  assert (Hpc : parent q = c).
  { unfold waits_for in Hw. destruct (child =? -1); [|apply andb_true_iff in Hw as [Hw _];
      apply andb_true_iff in Hw as [_ Hw]; lia].
    apply andb_true_iff in Hw as [Hw _]. lia. }
  destruct (state q) as [| | | | |code]; try done. simpl. rewrite Hpid.
  destruct Hs. split; simpl; try done.
  - intros k r [_ Hk]%lookup_delete_Some. eauto.
  - intros k r [_ Hk]%lookup_delete_Some. eauto.
  - intros k r [_ Hk]%lookup_delete_Some. eauto.
  - intros r Hr. destruct (inv_raw0 r Hr) as [[Hrc|[]] Hex]. split; [auto|].
    rewrite lookup_delete_ne; [done|]. congruence.
Qed.

Lemma tick_ok b s : sched_ok s -> sched_ok (tick b s).
Proof.
  intros Hs. assert (H1 : sched_ok (with_ticks (ticks s + 1) s)) by (destruct Hs; by split).
  unfold tick. simpl. destruct (current s), b; try done. apply inv_update; [|done].
  intros q _. split_and!; auto.
Qed.

Lemma wake_one_ok mask p s : sched_ok s -> sched_ok (wake_one mask s p).
Proof.
  intros Hs. unfold wake_one, get_process. destruct (tasks s !! p) as [q|] eqn:Hq; [|done].
  case_decide; [|done]. destruct (_ && _); [|done].
  destruct (inv_keyed _ _ _ _ Hs p q Hq) as (-> & _). by apply inv_wake.
Qed.

Lemma wake_sleeping_mask_ok mask s : sched_ok s -> sched_ok (wake_sleeping_mask mask s).
Proof. intros. apply foldl_ok; [intros; by apply wake_one_ok|done]. Qed.

Lemma spawn_kthread_ok t s : sched_ok s -> sched_ok (snd (spawn_kthread t s)).
Proof.
  intros Hs. pose proof (inv_next _ _ _ _ Hs).
  apply (inv_spawn (new (next_pid s) ZiqaNative t 0) 0); [done|simpl; lia|done|done].
Qed.

Lemma take_pid_ok s : sched_ok s -> sched_ok (snd (take_pid s)).
Proof.
  intros []. split; simpl; try done; [|lia].
  intros k p Hk. destruct (inv_keyed0 k p Hk) as (? & ? & ?). split_and!; [done|lia|lia|done].
Qed.

Section spawned.
Context `{!VirtAddrOps, !BinarySearch}.

Lemma spawn_ok a entry stack frame s r :
  sched_ok s -> spawn a entry stack frame s = Ok r -> sched_ok (snd r).
Proof.
  intros Hs. pose proof (inv_next _ _ _ _ Hs). unfold spawn.
  destruct (stack <? STACK_SIZE); [intros [= <-]; by apply take_pid_ok|].
  destruct (region _ _) as [v|]; [|done]. intros [= <-]. cbn [snd fst take_pid alloc_pid].
  set (p := add_region_to v _). assert (Hp : pid p = next_pid s) by (by destruct frame).
  apply (inv_spawn p (vruntime p)); [done| | |done].
  - rewrite Hp. destruct frame; simpl; lia.
  - by destruct frame.
Qed.

(** A loader keeps the identity of the process it loads. *)
Definition loader_ok (load : loader) : Prop :=
  forall b p, pid (snd (load b p)) = pid p /\ parent (snd (load b p)) = parent p.

Lemma spawn_image_ok a load binary hold av ev frame s r :
  loader_ok load -> sched_ok s -> spawn_image a load binary hold av ev frame s = Ok r ->
  sched_ok (snd r).
Proof.
  intros Hl Hs. pose proof (inv_next _ _ _ _ Hs). unfold spawn_image.
  destruct (region _ _) as [v|]; [|done].
  set (p1 := add_region_to v _). destruct (Hl binary p1) as [Hp Hpar].
  assert (Hp1 : pid p1 = next_pid s /\ parent p1 = 0) by (by destruct frame).
  destruct (load binary p1) as [[] p2] eqn:Hld; intros [= <-]; [|by apply take_pid_ok].
  cbn [snd fst take_pid alloc_pid]. cbn [snd] in Hp, Hpar.
  destruct Hp1 as [Hp1 Hpar1]. rewrite Hp1 in Hp. rewrite Hpar1 in Hpar.
  set (p3 := if hold then p2 else _).
  assert (Hp3 : pid p3 = next_pid s /\ parent p3 = 0)
    by (unfold p3; destruct hold; simpl; lia).
  pose proof (inv_insert (set_state_ready p3) s) as Hi. simpl in Hi.
  apply (inv_weaken (fun j => j = next_pid s /\ j <> next_pid s) nobody nobody nobody False False);
    [by intros ? ? _ _ []|done|done|].
  apply inv_enqueue. destruct Hp3 as [Hp3 Hpar3]. rewrite Hp3, Hpar3 in Hi.
  unfold put_process in Hi. simpl in Hi. rewrite Hp3 in Hi. apply Hi; [done|lia|done|done].
Qed.

End spawned.

Lemma fork_ok par frame s : sched_ok s -> sched_ok (snd (fork par frame s)).
Proof.
  intros Hs. pose proof (inv_next _ _ _ _ Hs). unfold fork, get_process.
  destruct (tasks s !! par) as [q|] eqn:Hq; [|done].
  destruct (inv_keyed _ _ _ _ Hs par q Hq) as (Hpid & Hlt & Hpar).
  cbn [snd fst take_pid alloc_pid]. set (child := inherit q par _ _).
  set (s1 := update_process par (fun _ =>
    set_image (with_vmas (map mark_cow (vmas (image q))) (image q)) q) s).
  assert (H1 : sched_ok s1).
  { apply inv_update; [|done]. intros p' Hp'. rewrite Hq in Hp'. injection Hp' as <-. split_and!; auto. }
  apply (inv_weaken (fun j => j = next_pid s /\ j <> next_pid s) nobody nobody nobody False False);
    [by intros ? ? _ _ []|done|done|].
  apply inv_enqueue. refine (inv_insert child s1 _ _ _ H1); [done|simpl; lia|done].
Qed.

(** ** Reachable states *)

Definition boot : Sched :=
  init_boot_process (mkSched ∅ (mkReady [] 0) 0 1 None None 0 0 0 0).

Lemma sched_boot_ok : sched_ok boot.
Proof.
  split; try done.
  - split; constructor.
  - intros k p. simpl. rewrite lookup_insert_Some, lookup_empty. intros [[<- <-]|[_ ?]]; done.
  - intros k p. simpl. rewrite lookup_insert_Some, lookup_empty. intros [[<- <-]|[_ ?]]; done.
  - intros k p. simpl. rewrite lookup_insert_Some, lookup_empty. intros [[<- <-]|[_ ?]]; [by left|done].
Qed.

Section reachable.
Context `{!VirtAddrOps, !BinarySearch}.

(** The scheduler's operations, with whatever the page-table code and the
    loader answer. *)
Inductive step : Sched -> Sched -> Prop :=
| step_schedule s s' : schedule s = Ok s' -> step s s'
| step_spawn a entry stack frame s r : spawn a entry stack frame s = Ok r -> step s (snd r)
| step_kthread t s : step s (snd (spawn_kthread t s))
| step_image a load binary hold av ev frame s r :
    loader_ok load -> spawn_image a load binary hold av ev frame s = Ok r -> step s (snd r)
| step_fork par frame s : step s (snd (fork par frame s))
| step_exit p code s s' : exit_process p code s = Ok s' -> step s s'
| step_cancel p s r : cancel_kthread p s = Ok r -> step s (snd r)
| step_block s s' : block_current_task s = Ok s' -> step s s'
| step_join p s r : join_kthread p s = Ok r -> step s (snd r)
| step_wait c child s : current s = Some c -> step s (snd (waitpid c child s))
| step_signal target signum s : step s (snd (send_signal target signum s))
| step_tick b s : step s (tick b s)
| step_wake mask s : step s (wake_sleeping_mask mask s).

Lemma sched_step_ok s s' : step s s' -> sched_ok s -> sched_ok s'.
Proof.
  intros Hst Hs. destruct Hst as [s s' E|? ? ? ? s r E|t s|? ? ? ? ? ? ? s r Hl E|par fr s|p c s s' E
    |p s r E|s s' E|p s r E|c ch s E|t n s|b s|m s].
  - destruct (schedule_ok s Hs) as (t & ? & ?). congruence.
  - by eapply spawn_ok.
  - by apply spawn_kthread_ok.
  - by eapply spawn_image_ok.
  - by apply fork_ok.
  - destruct (exit_process_ok p c s Hs) as (t & ? & ?). congruence.
  - destruct (cancel_kthread_ok p s Hs) as (t & ? & ?). congruence.
  - destruct (block_current_task_ok s Hs) as (t & ? & ?). congruence.
  - by eapply join_kthread_ok.
  - by apply waitpid_ok.
  - by apply send_signal_ok.
  - by apply tick_ok.
  - by apply wake_sleeping_mask_ok.
Qed.

(** C9. No ready process is lost.  In every state reachable from boot by
    scheduling, spawning, forking, exiting, cancelling, joining, blocking,
    reaping, signalling, ticking and waking, each [Ready] process is in the
    ready queue, only the current process is [Running], pids are unique and
    the running-process pointer is live; and from every such state [schedule]
    succeeds. *)
Theorem no_ready_task_lost s :
  rtc step boot s -> sched_ok s /\ exists s', schedule s = Ok s'.
Proof.
  intros Hr. assert (Hs : sched_ok s).
  { revert s Hr. apply (rtc_ind_r (R:=step)); [apply sched_boot_ok|]. intros. by eapply sched_step_ok. }
  split; [done|]. destruct (schedule_ok s Hs) as (s' & ? & _). by eauto.
Qed.

End reachable.

Lemma no_ready_task_lost_witness :
  sched_ok (snd (send_signal 2 Signal.SIGCONT (snd (spawn_kthread 4096 boot)))).
Proof.
  apply (@no_ready_task_lost Vma.demo_addr Vma.demo_search).
  eapply rtc_l; [apply step_kthread|]. eapply rtc_l; [apply step_signal|]. apply rtc_refl.
Defined.

(** ** What a context switch does *)

Lemma schedule_head c n q p s :
  sched_ok s -> queues (ready s) = (c, n) :: q -> tasks s !! n = Some p -> state p = Ready ->
  schedule s = switch_to n p (with_ready (mkReady q (counter (ready s))) s).
Proof.
  intros Hs Hq Hn Hr. unfold schedule. rewrite Hq. simpl. rewrite Hn.
  rewrite decide_False by (intros [_ ?]; congruence). by rewrite decide_True.
Qed.

(** C10. Round robin.  When the first queued process [n] is ready and another
    process [o] is running, [schedule] makes [n] the running and current one
    with its own FS/GS bases and page table loaded, saves the registers of
    [o], makes it ready and puts it at the end of the queue; the queue keeps
    its order and no other process changes. *)
Theorem schedule_round_robin c n o q np op s :
  sched_ok s -> queues (ready s) = (c, n) :: q -> current s = Some o -> n <> o ->
  tasks s !! n = Some np -> state np = Ready -> tasks s !! o = Some op -> state op = Running ->
  exists s', schedule s = Ok s' /\ current s' = Some n /\ raw s' = Some n /\
    qpids s' = map snd q ++ [o] /\
    tasks s' !! n = Some (set_state Running np) /\
    tasks s' !! o = Some (set_state Ready (set_bases (fs_msr s) (gs_msr s) op)) /\
    (forall k, k <> n -> k <> o -> tasks s' !! k = tasks s !! k) /\
    fs_msr s' = fs_base np /\ gs_msr s' = gs_base np /\
    (forall f, page_table_frame (image np) = Some f -> cr3 s' = f).
Proof.
  intros Hs Hq Hc Hne Hn Hnr Ho Hor. rewrite (schedule_head c n q np s) by done.
  pose proof (inv_pop c n q s Hq Hs) as Hp. set (s0 := with_ready _ s) in *.
  unfold switch_to. rewrite (save_bases_eq _ s0 n Hp). cbn [mbind res_bind].
  change (current s0) with (current s). rewrite Hc.
  destruct (inv_keyed _ _ _ _ Hs o op Ho) as (Hpid & _).
  set (bases := set_bases (fs_msr s0) (gs_msr s0)).
  set (T := alter (set_state Running) n (alter bases o (tasks s))).
  assert (HTn : T !! n = Some (set_state Running np)).
  { unfold T. by rewrite lookup_alter_eq, lookup_alter_ne, Hn. }
  assert (HTo : T !! o = Some (bases op)).
  { unfold T. by rewrite lookup_alter_ne, lookup_alter_eq, Ho. }
  eexists. split; [done|]. unfold requeue_old. simpl. fold bases T. rewrite HTo, HTn. simpl.
  rewrite decide_True by done. rewrite Hpid. split; [done|]. split; [done|]. split.
  { rewrite qpids_enqueue by apply (inv_ready _ _ _ _ Hp). done. }
  simpl. fold T. split_and!; [| | |done|done|].
  - by rewrite lookup_alter_ne.
  - by rewrite lookup_alter_eq, HTo.
  - intros k Hk1 Hk2. unfold T. by rewrite !lookup_alter_ne.
  - intros f Hf. rewrite decide_False by (intros [_ ?]; congruence). by rewrite Hf.
Qed.

Definition demo : Sched := snd (spawn_kthread 4096 boot).

Lemma sched_demo_ok : sched_ok demo.
Proof. apply spawn_kthread_ok, sched_boot_ok. Qed.

Lemma schedule_round_robin_witness :
  exists s', schedule demo = Ok s' /\ current s' = Some 2 /\ qpids s' = [1].
Proof.
  destruct (schedule_round_robin 1 2 1 [] (set_state Ready (new 2 ZiqaNative 4096 0))
              (set_state Running (new 1 ZiqaNative 0 0)) demo) as (s' & H1 & H2 & _ & H3 & _);
    [apply sched_demo_ok|reflexivity|reflexivity|done|reflexivity|reflexivity|reflexivity|reflexivity|].
  exists s'. auto.
Defined.

(** [exec_process] on the running process loses it: the state it sets is
    [Ready] although the process is not queued, so the next switch leaves it
    ready and out of the queue. *)
Theorem exec_loses_current detect binary frame a load c n o q np op s :
  sched_ok s -> current s = Some o -> tasks s !! o = Some op -> o ∉ qpids s ->
  queues (ready s) = (c, n) :: q -> n <> o -> tasks s !! n = Some np -> state np = Ready ->
  detect binary = Some (a, load) -> loader_ok load -> (forall b p, fst (load b p) = true) ->
  exists s1 s2, exec_process detect o binary frame s = (Ok tt, s1) /\ schedule s1 = Ok s2 /\
    current s2 = Some n /\ (exists p, tasks s2 !! o = Some p /\ state p = Ready) /\ o ∉ qpids s2.
Proof.
  intros Hs Hc Ho Hnq Hq Hne Hn Hnr Hd Hl Hok. unfold exec_process, get_process. rewrite Hd, Ho.
  set (p1 := set_image _ op). destruct (Hl binary p1) as [Hpid Hpar]. specialize (Hok binary p1).
  destruct (load binary p1) as [b p2]. simpl in Hok. subst b.
  set (s1 := update_process o _ s). exists s1.
  assert (Hex : inv (fun j => j = o) nobody False s1).
  { apply inv_update; [|by apply (inv_weaken nobody _ nobody nobody False False)].
    intros p Hp. rewrite Ho in Hp. injection Hp as <-. split_and!; [done|done|by right|done]. }
  assert (Hn1 : tasks s1 !! n = Some np) by (simpl; by rewrite lookup_alter_ne by done).
  assert (Ho1 : tasks s1 !! o = Some (set_state Ready p2)) by (simpl; by rewrite lookup_alter_eq, Ho).
  assert (Hsch : schedule s1 = switch_to n np (with_ready (mkReady q (counter (ready s))) s1)).
  { unfold schedule. change (ready s1) with (ready s). rewrite Hq. simpl. rewrite lookup_alter_ne, Hn by done.
    rewrite decide_False by (intros [_ ?]; congruence). by rewrite decide_True. }
  rewrite Hsch. unfold switch_to.
  assert (Hsave : forall t, current t = Some o -> tasks t = tasks s1 -> raw t = raw s1 ->
    save_bases (Some o) (set_current_pid (Some n) t) =
    Ok (update_process o (set_bases (fs_msr t) (gs_msr t)) (set_current_pid (Some n) t))).
  { intros t Htc Htt Htr. unfold save_bases. simpl. rewrite Htr. destruct (raw s1) as [r|] eqn:Hr; [|done].
    destruct (inv_raw _ _ _ _ Hex r Hr) as [[Hrc|[]] _]. change (current s1) with (current s) in Hrc.
    assert (r = o) as -> by congruence. rewrite Htt, Ho1.
    destruct (inv_keyed _ _ _ _ Hex o _ Ho1) as (-> & _). by rewrite decide_True. }
  cbn [current with_ready]. change (current s1) with (current s). rewrite Hc.
  rewrite Hsave by done. cbn [mbind res_bind]. eexists. split; [done|]. split; [done|].
  unfold requeue_old. cbn [tasks with_cpu update_process with_tasks set_current_pid with_ready].
  rewrite lookup_alter_ne, lookup_alter_eq, Ho1 by done. simpl.
  split; [done|]. split.
  - rewrite lookup_alter_ne, lookup_alter_eq, lookup_alter_eq, Ho by done. simpl. by eexists.
  - unfold qpids in *. simpl. rewrite Hq in Hnq. simpl in Hnq. intros Hin. apply Hnq. by right.
Qed.

Lemma exec_loses_current_witness :
  exists s1 s2, exec_process (fun _ => Some (LinuxElf, fun _ p => (true, p))) 1 [] None demo = (Ok tt, s1) /\
    schedule s1 = Ok s2 /\ current s2 = Some 2 /\ 1 ∉ qpids s2.
Proof.
  destruct (exec_loses_current (fun _ => Some (LinuxElf, fun _ p => (true, p))) [] None LinuxElf
    (fun _ p => (true, p)) 1 2 1 [] (set_state Ready (new 2 ZiqaNative 4096 0))
    (set_state Running (new 1 ZiqaNative 0 0)) demo) as (s1 & s2 & H1 & H2 & H3 & _ & H4);
    [apply sched_demo_ok|reflexivity|reflexivity| |reflexivity|done|reflexivity|reflexivity|reflexivity|done|done|].
  - intros H. apply list_elem_of_singleton in H. discriminate.
  - exists s1, s2. auto.
Defined.

(** A process that has exited can be brought back: [SIGSTOP] followed by
    [SIGCONT] turns an [Exited] process into a [Ready] one in the queue,
    because [send_signal] does not look at the state it overwrites. *)
Theorem exited_process_resurrected k code p s :
  sched_ok s -> tasks s !! k = Some p -> state p = Exited code ->
  let s2 := snd (send_signal k Signal.SIGCONT (snd (send_signal k Signal.SIGSTOP s))) in
  (exists q, tasks s2 !! k = Some q /\ state q = Ready) /\ k ∈ qpids s2.
Proof.
  intros Hs Hk Hst. unfold send_signal, get_process. rewrite Hk. simpl.
  rewrite lookup_alter_eq, Hk. simpl. split.
  - simpl. rewrite !lookup_alter_eq, Hk. simpl. by eexists.
  - rewrite qpids_enqueue by apply (inv_ready _ _ _ _ Hs). apply elem_of_app. right.
    by apply list_elem_of_singleton.
Qed.

Definition demo_dead : Sched := update_process 2 (set_state (Exited 0)) demo.

Lemma exited_process_resurrected_witness :
  2 ∈ qpids (snd (send_signal 2 Signal.SIGCONT (snd (send_signal 2 Signal.SIGSTOP demo_dead)))).
Proof.
  apply (exited_process_resurrected 2 0 (set_state (Exited 0) (set_state Ready (new 2 ZiqaNative 4096 0))));
    [|reflexivity|reflexivity]. apply inv_update; [|apply sched_demo_ok]. by intros p _.
Defined.

(** ** Exit and reaping *)

Lemma wake_joiners_other k ws s :
  k ∉ ws -> tasks (foldl wake_joiner s ws) !! k = tasks s !! k.
Proof.
  revert s. induction ws as [|w ws IH]; intros s Hk; simpl; [done|].
  apply not_elem_of_cons in Hk as [Hne Hk]. rewrite IH by done.
  unfold wake_joiner. destruct (get_process w s); [|done]. simpl. by rewrite lookup_alter_ne.
Qed.

Lemma wake_joiners_current ws s : current (foldl wake_joiner s ws) = current s.
Proof.
  revert s. induction ws as [|w ws IH]; intros s; simpl; [done|]. rewrite IH.
  unfold wake_joiner. by destruct (get_process w s).
Qed.

Lemma send_signal_other k t n s : k <> t -> tasks (snd (send_signal t n s)) !! k = tasks s !! k.
Proof.
  intros Hne. unfold send_signal. destruct (get_process t s); [|done]. simpl.
  repeat case_match; simpl; by rewrite lookup_alter_ne by done.
Qed.

Lemma list_pids_elem s k : k ∈ list_pids s <-> is_Some (tasks s !! k).
Proof.
  unfold list_pids. rewrite merge_sort_Permutation, elem_of_elements, elem_of_dom. done.
Qed.

(** An exited child found by its own pid is the one that is reaped. *)
Lemma waitpid_found par k code q s :
  sched_ok s -> tasks s !! k = Some q -> parent q = par -> state q = Exited code -> k < 2 ^ 64 ->
  waitpid par k s = (Some (k, code), with_tasks (base.delete k (tasks s)) s).
Proof.
  intros Hs Hq Hpar Hst Hlt. destruct (inv_keyed _ _ _ _ Hs k q Hq) as (Hpid & Hk & _).
  unfold waitpid. destruct (list_find _ _) as [[i p]|] eqn:Hf.
  - apply list_find_Some in Hf as (_ & Hw & _). destruct (tasks s !! p) as [r|] eqn:Hr; [|done].
    simpl in Hw. unfold waits_for in Hw. destruct (Z.eqb_spec k (-1)); [lia|].
    rewrite wrap_small in Hw by (unfold fits; lia).
    apply andb_true_iff in Hw as [Hw _]. apply andb_true_iff in Hw as [Hw _].
    destruct (inv_keyed _ _ _ _ Hs p r Hr) as (Hpr & _). assert (p = k) as -> by lia.
    assert (r = q) as -> by congruence. rewrite Hst, Hpid. done.
  - exfalso. apply list_find_None in Hf. rewrite Forall_forall in Hf.
    apply (Hf k); [apply list_pids_elem; by eexists|]. rewrite Hq. simpl. unfold waits_for.
    destruct (Z.eqb_spec k (-1)); [lia|]. rewrite wrap_small, Hst by (unfold fits; lia). lia.
Qed.

(** Exit and wait.  When a process other than the current one exits, its
    parent's [waitpid] for it returns its pid and exit code, and the process
    is then gone from the table. *)
Theorem exit_then_wait k par code p s :
  sched_ok s -> tasks s !! k = Some p -> parent p = par -> par <> 0 ->
  current s <> Some k -> k ∉ join_waiters p -> k < 2 ^ 64 ->
  exists s1, exit_process k code s = Ok s1 /\
    fst (waitpid par k s1) = Some (k, code) /\ tasks (snd (waitpid par k s1)) !! k = None.
Proof.
  intros Hs Hk Hpar H0 Hc Hj Hlt.
  destruct (exit_process_ok k code s Hs) as (s1 & He & Hs1). exists s1. split; [done|].
  destruct (inv_keyed _ _ _ _ Hs k p Hk) as (_ & _ & Hne).
  assert (Hq : exists q, tasks s1 !! k = Some q /\ parent q = par /\ state q = Exited code).
  { unfold exit_process in He. unfold get_process in He at 1. rewrite Hk in He.
    destruct (Z.eqb_spec (parent p) 0); [lia|].
    set (s3 := update_process k (set_join_waiters []) _) in He.
    assert (H3 : tasks s3 !! k = Some (set_join_waiters []
              (set_state (Exited code) (set_exit_code code p)))).
    { unfold s3. simpl. rewrite lookup_alter_eq, send_signal_other by congruence.
      simpl. by rewrite lookup_alter_eq, Hk. }
    assert (Hcur : current s3 = current s).
    { unfold s3, send_signal. simpl. destruct (get_process _ _); simpl; [|done]. by repeat case_match. }
    rewrite decide_False in He.
    - injection He as <-. eexists. rewrite wake_joiners_other by done. eauto.
    - unfold current_task_pid. rewrite wake_joiners_current, Hcur. intros Hct.
      destruct (current s) as [c|]; simpl in Hct; [|done].
      destruct (get_process c (foldl wake_joiner s3 (join_waiters p))) as [t|] eqn:Ht; simpl in Hct; [|done].
      injection Hct as Hct.
      assert (Hok3 : sched_ok (foldl wake_joiner s3 (join_waiters p))).
      { apply foldl_ok; [intros; by apply wake_joiner_ok|]. unfold s3.
        apply inv_update; [by intros ? _; split_and!; auto|]. apply send_signal_ok.
        apply inv_update; [by intros ? _|done]. }
      destruct (inv_keyed _ _ _ _ Hok3 c t Ht) as (Hpt & _). congruence. }
  destruct Hq as (q & Hq & Hqp & Hqs). rewrite (waitpid_found par k code q s1) by done.
  split; [done|]. simpl. apply lookup_delete_eq.
Qed.

Lemma exit_then_wait_witness :
  exists s1, exit_process 3 7 (snd (fork 1 None demo)) = Ok s1 /\ fst (waitpid 1 3 s1) = Some (3, 7).
Proof.
  destruct (exit_then_wait 3 1 7
    (inherit (set_state Running (new 1 ZiqaNative 0 0)) 1 (image (new 3 ZiqaNative 0 0))
       (new 3 ZiqaNative 0 0)) (snd (fork 1 None demo))) as (s1 & H1 & H2 & _);
    [apply fork_ok, sched_demo_ok|reflexivity|reflexivity|done|done|apply not_elem_of_nil|lia|].
  exists s1. auto.
Defined.

End Scheduler.
