(* ===== verification/Sync.v ===== *)
(** * Blocking synchronisation

    Models [src/sync/futex.rs], [src/sync/wait_condition.rs] and
    [src/sync/wait_queue.rs] on top of the scheduler.  The futex word is read
    from kernel memory through the physical-memory window at [po]. *)

From S2P Require Import Prelude Bytes Process Scheduler.

Module Futex.
Import Process Scheduler.

Record Waiter := mkWaiter { wpid : Z; bitset : Z }.

(** [FutexManager::queues]. *)
Abbreviation Queues := (gmap Z (list Waiter)).

(** Drop the entry of a queue that became empty. *)
Definition store_queue (addr : Z) (ws : list Waiter) (qs : Queues) : Queues :=
  match ws with [] => delete addr qs | _ => <[addr := ws]> qs end.

Definition wait (m : Mem) (po addr expected_val bits : Z) (qs : Queues) (s : Sched)
    : res unit (bool * Queues * Sched) :=
  val ← read_u32 m (po + addr);
  if negb (val =? expected_val) then Ok (false, qs, s)
  else match current s with
       | None => Ok (false, qs, s)
       | Some p =>
           let qs' := <[addr := default [] (qs !! addr) ++ [mkWaiter p bits]]> qs in
           Ok (true, qs', update_process p (fun q => block (set_timed_out false q)) s)
       end.

(** Wake one process if it still exists: whether it did, and the new state. *)
Definition wake_pid (p : Z) (s : Sched) : bool * Sched :=
  match get_process p s with
  | Some _ => (true, update_process p unblock s)
  | None => (false, s)
  end.

(** The [while] loop of [wake]: the waiters left, the number woken and the
    scheduler. *)
Fixpoint wake_scan (ws : list Waiter) (woken count bits : Z) (s : Sched)
    : list Waiter * Z * Sched :=
  match ws with
  | [] => ([], woken, s)
  | w :: ws' =>
      if woken <? count then
        if negb (Z.land (bitset w) bits =? 0) then
          let r := wake_pid (wpid w) s in
          wake_scan ws' (if fst r : bool then woken + 1 else woken) count bits (snd r)
        else
          let r := wake_scan ws' woken count bits s in
          (w :: fst (fst r), snd (fst r), snd r)
      else (w :: ws', woken, s)
  end.

Definition wake (addr count bits : Z) (qs : Queues) (s : Sched) : Z * Queues * Sched :=
  match qs !! addr with
  | None => (0, qs, s)
  | Some ws =>
      let r := wake_scan ws 0 count bits s in
      (snd (fst r), store_queue addr (fst (fst r)) qs, snd r)
  end.

Definition cancel_wait (addr p : Z) (qs : Queues) : Queues :=
  match qs !! addr with
  | None => qs
  | Some ws => store_queue addr (filter (fun w => wpid w <> p) ws) qs
  end.

Fixpoint wake_all (ps : list Z) (count : Z) (s : Sched) : Z * Sched :=
  match ps with
  | [] => (count, s)
  | p :: ps' => let r := wake_pid p s in
                wake_all ps' (if fst r : bool then count + 1 else count) (snd r)
  end.

(** Take up to [n] waiters from the front of a queue. *)
Definition drain (addr n : Z) (qs : Queues) : list Waiter * Queues :=
  match qs !! addr with
  | None => ([], qs)
  | Some ws =>
      let k := Z.to_nat (Z.min n (zlen ws)) in
      (take k ws, store_queue addr (drop k ws) qs)
  end.

Definition requeue (src dst wake_count requeue_count : Z) (qs : Queues) (s : Sched)
    : Z * Queues * Sched :=
  let d1 := drain src wake_count qs in
  let w := wake_all (map wpid (fst d1)) 0 s in
  let d2 := drain src requeue_count (snd d1) in
  match fst d2 with
  | [] => (fst w, snd d2, snd w)
  | moved =>
      (fst w + zlen moved,
       <[dst := default [] (snd d2 !! dst) ++ moved]> (snd d2), snd w)
  end.

(** ** Which waiters a wake takes *)

Definition matches (bits : Z) (w : Waiter) : Prop := Z.land (bitset w) bits <> 0.

#[global] Instance matches_dec bits w : Decision (matches bits w).
Proof. unfold matches. apply _. Defined.

(** Waking [ps] makes exactly those processes [Ready]. *)
Definition woken_state (ps : list Z) (s s' : Sched) : Prop :=
  ready s' = ready s /\ current s' = current s /\
  forall k, tasks s' !! k = (if decide (k ∈ ps) then unblock <$> tasks s !! k else tasks s !! k).

Lemma woken_nil s : woken_state [] s s.
Proof. split_and!; [done..|]. intros k. by rewrite decide_False by set_solver. Qed.

Lemma woken_cons p ps s s' :
  woken_state ps (update_process p unblock s) s' -> woken_state (p :: ps) s s'.
Proof.
  intros (Hr & Hc & Ht). split_and!; [done..|]. intros k. rewrite Ht. simpl.
  destruct (decide (k = p)) as [->|Hne].
  - assert (Hin : p ∈ p :: ps) by set_solver. rewrite lookup_alter_eq.
    rewrite (decide_True (P := p ∈ p :: ps)) by done.
    case_decide; [|done]. by destruct (tasks s !! p).
  - rewrite lookup_alter_ne by done. repeat case_decide; set_solver.
Qed.

Lemma wake_scan_spec bits count ws woken s :
  Forall (fun w => is_Some (tasks s !! wpid w)) ws -> 0 <= woken <= count ->
  let cand := filter (matches bits) ws in
  let n := Z.min (count - woken) (zlen cand) in
  exists left s', wake_scan ws woken count bits s = (left, woken + n, s') /\
    filter (matches bits) left = drop (Z.to_nat n) cand /\
    filter (fun w => ~ matches bits w) left = filter (fun w => ~ matches bits w) ws /\
    woken_state (map wpid (take (Z.to_nat n) cand)) s s'.
Proof.
  revert woken s. induction ws as [|w ws IH]; intros woken s Hall Hw;
    cbn [wake_scan].
  - exists [], s. rewrite !filter_nil. change (zlen []) with 0.
    replace (Z.min (count - woken) 0) with 0 by lia. rewrite Z.add_0_r.
    split_and!; [done..|]. apply woken_nil.
  - apply Forall_cons in Hall as [[q Hq] Hall]. destruct (Z.ltb_spec woken count).
    + destruct (decide (matches bits w)) as [Hm|Hm].
      * rewrite filter_cons_True by done. pose proof Hm as Hm'. unfold matches in Hm'.
        destruct (Z.eqb_spec (Z.land (bitset w) bits) 0); [done|].
        unfold wake_pid, get_process. rewrite Hq. simpl.
        destruct (IH (woken + 1) (update_process (wpid w) unblock s)) as (left & s' & He & H1 & H2 & H3).
        { eapply Forall_impl; [exact Hall|]. intros x Hx. simpl. rewrite lookup_alter.
          case_decide; [|done]. by apply fmap_is_Some. }
        { lia. }
        set (c := filter (matches bits) ws) in *. unfold zlen. simpl length.
        exists left, s'. set (n' := Z.min (count - (woken + 1)) (zlen c)) in *.
        replace (Z.min (count - woken) (Z.of_nat (S (length c)))) with (n' + 1) by (unfold n', zlen; lia).
        replace (Z.to_nat (n' + 1)) with (S (Z.to_nat n')) by (unfold n', zlen; lia).
        split_and!; [rewrite He; do 2 f_equal; lia|done| |by apply woken_cons].
        rewrite H2. by rewrite filter_cons_False by tauto.
      * rewrite filter_cons_False by done. unfold matches in Hm.
        destruct (Z.eqb_spec (Z.land (bitset w) bits) 0); [|done]. simpl.
        destruct (IH woken s Hall Hw) as (left & s' & He & H1 & H2 & H3).
        rewrite He. simpl. exists (w :: left), s'. split_and!; [done| | |done].
        { by rewrite filter_cons_False by (unfold matches; tauto). }
        { rewrite !filter_cons_True by (unfold matches; tauto). by rewrite H2. }
    + replace (count - woken) with 0 by lia.
      pose proof (zlen_nonneg (filter (matches bits) (w :: ws))).
      replace (Z.min 0 _) with 0 by lia. rewrite Z.add_0_r. simpl.
      exists (w :: ws), s. split_and!; [done..|]. apply woken_nil.
Qed.

(** A futex wake takes, in the order in which they began to wait, the
    first [count] waiters whose bitset meets the given one: it returns their
    number, leaves the other waiters queued in order, marks exactly the woken
    processes [Ready], and touches neither other processes nor the ready
    queue. *)
Theorem futex_wake_spec addr count bits qs ws s :
  qs !! addr = Some ws -> 0 <= count ->
  Forall (fun w => is_Some (tasks s !! wpid w)) ws ->
  let cand := filter (matches bits) ws in
  let n := Z.min count (zlen cand) in
  exists left s', wake addr count bits qs s = (n, store_queue addr left qs, s') /\
    filter (matches bits) left = drop (Z.to_nat n) cand /\
    filter (fun w => ~ matches bits w) left = filter (fun w => ~ matches bits w) ws /\
    woken_state (map wpid (take (Z.to_nat n) cand)) s s'.
Proof.
  intros Hq Hc Hall cand n. unfold wake. rewrite Hq.
  destruct (wake_scan_spec bits count ws 0 s Hall) as (left & s' & He & H1 & H2 & H3); [lia|].
  rewrite Z.sub_0_r in *. fold cand in He, H1, H3. fold n in He, H1, H3.
  exists left, s'. rewrite He. simpl. by split_and!.
Qed.

Lemma futex_wake_spec_witness :
  exists left s', wake 4096 1 (2 ^ 32 - 1) {[4096 := [mkWaiter 2 (2 ^ 32 - 1)]]} demo = (1, left, s').
Proof.
  destruct (futex_wake_spec 4096 1 (2 ^ 32 - 1) {[4096 := [mkWaiter 2 (2 ^ 32 - 1)]]}
              [mkWaiter 2 (2 ^ 32 - 1)] demo) as (left & s' & H & _);
    [reflexivity|lia|repeat constructor; by eexists|].
  eexists _, s'. exact H.
Defined.

(** A futex wake-up is lost.  A process that blocked on a futex (so it is
    not in the ready queue) and is woken becomes [Ready] without being
    queued: the scheduler's invariant fails. *)
Theorem futex_wake_not_queued addr bits qs p q s :
  sched_ok s -> qs !! addr = Some [mkWaiter p bits] -> Z.land bits bits <> 0 ->
  tasks s !! p = Some q -> state q = Blocked -> p ∉ qpids s ->
  exists s', wake addr 1 bits qs s = (1, delete addr qs, s') /\
    (exists q', tasks s' !! p = Some q' /\ state q' = Ready) /\ p ∉ qpids s' /\ ~ sched_ok s'.
Proof.
  intros Hs Hq Hb Hp Hst Hnq. unfold wake. rewrite Hq. simpl.
  destruct (Z.eqb_spec (Z.land bits bits) 0); [done|]. simpl.
  unfold wake_pid, get_process. rewrite Hp. simpl. eexists. split; [done|].
  assert (Hr : tasks (update_process p unblock s) !! p = Some (unblock q)).
  { simpl. by rewrite lookup_alter_eq, Hp. }
  split_and!; [by eexists|done|]. intros Hok.
  by destruct (inv_queued _ _ _ _ Hok p _ Hr eq_refl).
Qed.

Lemma futex_wake_not_queued_witness :
  let s := update_process 1 block boot in
  exists s', wake 4096 1 1 {[4096 := [mkWaiter 1 1]]} s = (1, delete 4096 {[4096 := [mkWaiter 1 1]]}, s') /\
    ~ sched_ok s'.
Proof.
  destruct (futex_wake_not_queued 4096 1 {[4096 := [mkWaiter 1 1]]} 1
              (block (set_state Running (new 1 ZiqaNative 0 0))) (update_process 1 block boot))
    as (s' & H1 & _ & _ & H2);
    [apply inv_update; [by intros ? _|apply sched_boot_ok]|reflexivity|done|reflexivity|reflexivity
    |apply not_elem_of_nil|].
  exists s'. auto.
Defined.

End Futex.

(** [WaitCondition]. *)
Module WaitCondition.
Import Process Scheduler.

Definition notify_one (s : Sched) (p : Z) : Sched := snd (Futex.wake_pid p s).

(** The waiters are drained; the count is how many there were. *)
Definition notify (waiters : list Z) (s : Sched) : Z * list Z * Sched :=
  (zlen waiters, [], foldl notify_one s waiters).

Definition wait_on (waiters : list Z) (s : Sched) : res unit (list Z * Sched) :=
  match current s with
  | None => Panic
  | Some p =>
      s' ← schedule (match get_process p s with Some _ => update_process p block s | None => s end);
      Ok (waiters ++ [p], s')
  end.

End WaitCondition.

(** [WaitQueue<T>]. *)
Module WaitQueue.
Import Process Scheduler.

Record Queue (T : Type) := mkQueue { inner : list T; waiters : list Z }.
Arguments mkQueue {T}.
Arguments inner {T}.
Arguments waiters {T}.

Definition send {T} (v : T) (q : Queue T) (s : Sched) : Queue T * Sched :=
  let n := WaitCondition.notify (waiters q) s in
  (mkQueue (inner q ++ [v]) (snd (fst n)), snd n).

Definition receive_nonblocking {T} (q : Queue T) : option T * Queue T :=
  match inner q with
  | [] => (None, q)
  | v :: vs => (Some v, mkQueue vs (waiters q))
  end.

(** One turn of [receive]'s loop: a value, or the caller blocks. *)
Definition receive_turn {T} (q : Queue T) (s : Sched) : res unit (option T * Queue T * Sched) :=
  match receive_nonblocking q with
  | (Some v, q') => Ok (Some v, q', s)
  | (None, _) =>
      r ← WaitCondition.wait_on (waiters q) s;
      Ok (None, mkQueue (inner q) (fst r), snd r)
  end.

Definition len {T} (q : Queue T) : Z := zlen (inner q).
Definition is_empty {T} (q : Queue T) : bool := bool_decide (len q = 0).

End WaitQueue.
