(* ===== verification/Timer.v ===== *)
(** * The timer and sleeping processes

    Models [src/timer.rs]: the tick counter, the table of 256 sleepers and the
    wake-up of processes whose deadline has passed. *)

From S2P Require Import Prelude Bytes Process Scheduler.

Module Timer.
Import Process Scheduler.

Definition TICKS_PER_SEC : Z := 100.
Definition MS_PER_TICK : Z := 1000 / TICKS_PER_SEC.
Definition MAX_SLEEPERS : Z := 256.

Record SleepEntry := mkEntry { spid : Z; wake_tick : Z }.

Record Timer := mkTimer {
  tticks : Z;
  sleepers : list (option SleepEntry);   (* 256 slots *)
  sleeper_count : Z
}.

Definition new : Timer := mkTimer 0 (replicate 256 None) 0.

(** [reset]: every slot of the array is cleared. *)
Definition reset (t : Timer) : Timer := mkTimer 0 (map (fun _ => None) (sleepers t)) 0.

Definition uptime_ms (t : Timer) : Z := tticks t * MS_PER_TICK.
Definition uptime_secs (t : Timer) : Z := tticks t / TICKS_PER_SEC.

Definition sleep_ms (p ms : Z) (t : Timer) : bool * Timer :=
  if MAX_SLEEPERS <=? sleeper_count t then (false, t)
  else
    let wt := tticks t + (ms + MS_PER_TICK - 1) / MS_PER_TICK in
    match list_find (fun slot => slot = None) (sleepers t) with
    | Some (i, _) =>
        (true, mkTimer (tticks t) (<[i := Some (mkEntry p wt)]> (sleepers t)) (sleeper_count t + 1))
    | None => (false, t)
    end.

(** Wake the process of an expired entry if it is [Blocked]. *)
Definition wake_sleeper (p : Z) (s : Sched) : Sched :=
  match get_process p s with
  | Some q =>
      if decide (state q = Blocked)
      then enqueue (pid q) (vruntime q) (update_process p (fun r => set_state_ready (set_timed_out true r)) s)
      else s
  | None => s
  end.

(** The loop of [wake_sleepers] over the slots: the new slots, the count and
    the scheduler. *)
Fixpoint wake_slots (now : Z) (slots : list (option SleepEntry)) (count : Z) (s : Sched)
    : list (option SleepEntry) * Z * Sched :=
  match slots with
  | [] => ([], count, s)
  | Some e :: rest =>
      if wake_tick e <=? now then
        let r := wake_slots now rest (Z.max 0 (count - 1)) (wake_sleeper (spid e) s) in
        (None :: fst (fst r), snd (fst r), snd r)
      else
        let r := wake_slots now rest count s in
        (Some e :: fst (fst r), snd (fst r), snd r)
  | None :: rest =>
      let r := wake_slots now rest count s in
      (None :: fst (fst r), snd (fst r), snd r)
  end.

Definition tick (t : Timer) (s : Sched) : Timer * Sched :=
  let now := tticks t + 1 in
  let r := wake_slots now (sleepers t) (sleeper_count t) s in
  (mkTimer now (fst (fst r)) (snd (fst r)), snd r).

(** [timer::sleep_ms]: the process is blocked, through the raw pointer when it
    is the running one; whether a slot was free is not looked at. *)
Definition sleep (p ms : Z) (t : Timer) (s : Sched) : res unit (Timer * Sched) :=
  marked ← match raw s with
           | Some r => match get_process r s with
                       | Some q => Ok (bool_decide (pid q = p))
                       | None => Fault
                       end
           | None => Ok false
           end;
  let target := if marked : bool then default p (raw s) else p in
  Ok (snd (sleep_ms p ms t), update_process target (set_state Blocked) s).

(** ** The sleeper table *)

Fixpoint sleeping (slots : list (option SleepEntry)) : list SleepEntry :=
  match slots with
  | [] => []
  | Some e :: rest => e :: sleeping rest
  | None :: rest => sleeping rest
  end.

Lemma elem_of_sleeping e slots : Some e ∈ slots -> e ∈ sleeping slots.
Proof.
  induction slots as [|[x|] slots IH]; simpl; rewrite ?elem_of_cons; [by intros ?%elem_of_nil| |].
  - intros [[= ->]|]; auto.
  - intros [|]; auto; done.
Qed.

Record timer_ok (t : Timer) : Prop := {
  slots_len : length (sleepers t) = 256%nat;
  count_eq : sleeper_count t = zlen (sleeping (sleepers t))
}.

Lemma sleeping_insert slots i e :
  slots !! i = Some None -> zlen (sleeping (<[i := Some e]> slots)) = zlen (sleeping slots) + 1.
Proof.
  revert i. unfold zlen. induction slots as [|[x|] slots IH]; intros [|i] H; simplify_eq/=.
  - specialize (IH i H). lia.
  - lia.
  - specialize (IH i H). lia.
Qed.

(** While fewer entries than slots are in use, a slot is free. *)
Lemma sleeping_free slots :
  (length (sleeping slots) < length slots)%nat -> exists i, list_find (fun x => x = None) slots = Some (i, None).
Proof.
  intros Hlt. destruct (list_find _ slots) as [[i x]|] eqn:Hf.
  - pose proof Hf as Hf'. apply list_find_Some in Hf as (_ & -> & _). by exists i.
  - exfalso. apply list_find_None in Hf. revert Hlt.
    induction Hf as [|[x|] slots Hx _ IH]; simpl; intros; [lia|apply IH; lia|done].
Qed.

(** An entry survives the tick [now] if its deadline is later. *)
Definition keep (now : Z) (o : option SleepEntry) : option SleepEntry :=
  match o with Some e => if wake_tick e <=? now then None else Some e | None => None end.

Definition expired (now : Z) (slots : list (option SleepEntry)) : list SleepEntry :=
  filter (fun e => wake_tick e <= now) (sleeping slots).

Lemma wake_slots_spec now slots count s :
  zlen (sleeping slots) <= count ->
  wake_slots now slots count s =
  (map (keep now) slots, count - zlen (expired now slots),
   foldl (fun s e => wake_sleeper (spid e) s) s (expired now slots)).
Proof.
  unfold zlen, expired. revert count s.
  induction slots as [|[e|] slots IH]; intros count s Hc; simpl in *.
  - by rewrite Z.sub_0_r.
  - rewrite filter_cons. destruct (Z.leb_spec (wake_tick e) now).
    + rewrite decide_True by lia. rewrite IH by lia. simpl. do 2 f_equal. lia.
    + rewrite decide_False by lia. by rewrite IH by lia.
  - by rewrite IH by lia.
Qed.

Lemma keep_count now slots :
  zlen (sleeping (map (keep now) slots)) = zlen (sleeping slots) - zlen (expired now slots).
Proof.
  unfold zlen, expired. induction slots as [|[e|] slots IH]; simpl; [done| |done].
  rewrite filter_cons. destruct (Z.leb_spec (wake_tick e) now).
  - rewrite decide_True by lia. simpl in *. lia.
  - rewrite decide_False by lia. simpl in *. lia.
Qed.

Lemma tick_timer_ok t s : timer_ok t -> timer_ok (fst (tick t s)).
Proof.
  intros [Hl Hc]. unfold tick. rewrite wake_slots_spec by lia. simpl. split; simpl.
  - by rewrite length_map.
  - rewrite keep_count. lia.
Qed.

Lemma sleep_ms_ok p ms t : timer_ok t -> timer_ok (snd (sleep_ms p ms t)).
Proof.
  intros [Hl Hc]. unfold sleep_ms. destruct (MAX_SLEEPERS <=? _); [done|].
  destruct (list_find _ _) as [[i x]|] eqn:Hf; [|done]. simpl.
  apply list_find_Some in Hf as (Hi & -> & _). split; simpl; [by rewrite length_insert|].
  rewrite sleeping_insert by done. lia.
Qed.

Lemma wake_sleeper_ok p s : sched_ok s -> sched_ok (wake_sleeper p s).
Proof.
  intros Hs. unfold wake_sleeper, get_process. destruct (tasks s !! p) as [q|] eqn:Hq; [|done].
  case_decide; [|done]. destruct (inv_keyed _ _ _ _ Hs p q Hq) as (-> & _). by apply inv_wake.
Qed.

(** A process that is [Blocked] and among the expired ones ends up [Ready]. *)
Lemma wake_list_ready ps p q s :
  tasks s !! p = Some q -> (state q = Ready \/ state q = Blocked /\ p ∈ map spid ps) ->
  exists q', tasks (foldl (fun s e => wake_sleeper (spid e) s) s ps) !! p = Some q' /\ state q' = Ready.
Proof.
  revert q s. induction ps as [|e ps IH]; intros q s Hq Hst; simpl.
  - destruct Hst as [|[_ Hin]]; [by eauto|]. by apply elem_of_nil in Hin.
  - destruct (decide (spid e = p)) as [He|He].
    + rewrite He. unfold wake_sleeper at 2, get_process. rewrite Hq.
      destruct Hst as [Hr|[Hb _]].
      * rewrite decide_False by congruence. eapply IH; [done|by left].
      * rewrite decide_True by done.
        apply (IH (set_state_ready (set_timed_out true q))); [|by left].
        simpl. by rewrite lookup_alter_eq, Hq.
    + eapply (IH q); [|].
      * unfold wake_sleeper, get_process. destruct (tasks s !! spid e) as [x|]; [|done].
        case_decide; [|done]. simpl. by rewrite lookup_alter_ne.
      * destruct Hst as [|[Hb Hin]]; [by left|]. right. split; [done|].
        simpl in Hin. apply elem_of_cons in Hin as [->|]; done.
Qed.

(** Sleeping.  A registered sleep of [ms] milliseconds gets a deadline
    that is never early and less than one tick late; a tick removes exactly
    the entries whose deadline has come and makes each of their processes that
    is [Blocked] ready and queued; the entry count stays the number of
    entries, and the scheduler's invariant is kept. *)
Theorem sleep_and_tick t s p ms :
  timer_ok t -> sched_ok s -> 0 <= ms -> sleeper_count t < 256 ->
  (exists e i, spid e = p /\ sleepers (snd (sleep_ms p ms t)) !! i = Some (Some e) /\
     fst (sleep_ms p ms t) = true /\
     uptime_ms t + ms <= wake_tick e * 10 < uptime_ms t + ms + 10) /\
  (let t' := fst (tick t s) in
   let s' := snd (tick t s) in
   tticks t' = tticks t + 1 /\ timer_ok t' /\ sched_ok s' /\
   sleepers t' = map (keep (tticks t')) (sleepers t) /\
   forall e q, Some e ∈ sleepers t -> wake_tick e <= tticks t' ->
     tasks s !! spid e = Some q -> state q = Blocked ->
     spid e ∈ qpids s' /\ exists q', tasks s' !! spid e = Some q' /\ state q' = Ready).
Proof.
  intros Ht Hs Hms Hc. pose proof Ht as [Hl Hcnt]. split.
  - unfold sleep_ms, MAX_SLEEPERS. destruct (Z.leb_spec 256 (sleeper_count t)); [lia|].
    destruct (sleeping_free (sleepers t)) as [i Hi]; [unfold zlen in *; lia|]. rewrite Hi. simpl.
    apply list_find_Some in Hi as (Hi & _ & _). eexists _, i.
    rewrite list_lookup_insert_eq by (by eapply lookup_lt_Some).
    split; [|split; [done|]]; [done|]. split; [done|]. unfold uptime_ms, MS_PER_TICK, TICKS_PER_SEC. simpl.
    change (1000 / 100) with 10. Z.div_mod_to_equations. lia.
  - pose proof (tick_timer_ok t s Ht) as Ht'. unfold tick in *.
    rewrite wake_slots_spec in * by lia. simpl in *.
    assert (Hs' : sched_ok (foldl (fun s e => wake_sleeper (spid e) s) s
                             (expired (tticks t + 1) (sleepers t)))).
    { apply foldl_ok; [intros; by apply wake_sleeper_ok|done]. }
    split_and!; [done|done|done|done|]. intros e q Hin Hw Hq Hb.
    destruct (wake_list_ready (expired (tticks t + 1) (sleepers t)) (spid e) q s) as (q' & Hq' & Hr).
    { done. }
    { right. split; [done|]. apply list_elem_of_fmap. exists e. split; [done|].
      unfold expired. apply list_elem_of_filter. split; [done|]. by apply elem_of_sleeping. }
    split; [|by eauto]. by destruct (inv_queued _ _ _ _ Hs' _ _ Hq' Hr).
Qed.

Lemma new_timer_ok : timer_ok new.
Proof. by split. Qed.

Lemma sleep_and_tick_witness :
  exists e i, spid e = 1 /\ sleepers (snd (sleep_ms 1 25 new)) !! i = Some (Some e) /\
    25 <= wake_tick e * 10 < 35.
Proof.
  destruct (sleep_and_tick new boot 1 25 new_timer_ok sched_boot_ok) as [(e & i & H1 & H2 & _ & H3) _]; [lia|done|].
  exists e, i. split; [exact H1|]. split; [exact H2|exact H3].
Defined.

(** With 256 sleepers the caller is blocked without an entry that would wake
    it: the result of [sleep_ms] is ignored. *)
Lemma sleep_full_blocks_forever p ms t s q :
  timer_ok t -> sleeper_count t = 256 -> raw s = None -> tasks s !! p = Some q ->
  exists s', sleep p ms t s = Ok (t, s') /\ tasks s' !! p = Some (set_state Blocked q).
Proof.
  intros Ht Hc Hr Hq. unfold sleep. rewrite Hr. simpl. eexists. split.
  - unfold sleep_ms, MAX_SLEEPERS. rewrite Hc. done.
  - simpl. by rewrite lookup_alter_eq, Hq.
Qed.

End Timer.
