(* ===== verification/PageCache.v ===== *)
(** * The page cache

    Models [src/fs/pagecache.rs]: sixteen entries of one page each, filled
    until full; a full cache drops a page whose access counter is least.  The
    theorems read the cache as a partial map from page keys to page contents. *)

From S2P Require Import Prelude Bytes Abi.

Module PageCache.

Definition PAGE_SIZE : Z := 4096.
Definition CACHE_PAGES : nat := 16.

Record PageKey := mkKey { file_id : Z; page_num : Z }.

#[global] Instance PageKey_eq_dec : EqDecision PageKey.
Proof. solve_decision. Defined.

Record CacheEntry := mkEntry {
  key : PageKey;
  data : list Z;   (* [u8; 4096] *)
  size : Z;
  access_count : Z;
  dirty : bool
}.

Record Cache := mkCache {
  entries : list (option CacheEntry);   (* 16 slots *)
  access_epoch : Z
}.

Definition new : Cache := mkCache (replicate CACHE_PAGES None) 0.

Definition has_key (k : PageKey) (o : option CacheEntry) : Prop :=
  match o with Some e => key e = k | None => False end.

#[global] Instance has_key_dec k o : Decision (has_key k o).
Proof. destruct o; simpl; apply _. Defined.

(** The first slot that holds the key. *)
Definition find_key (k : PageKey) (c : Cache) : option (nat * CacheEntry) :=
  match list_find (has_key k) (entries c) with
  | Some (i, Some e) => Some (i, e)
  | _ => None
  end.

Definition set_entry (i : nat) (e : CacheEntry) (c : Cache) : Cache :=
  mkCache (<[i := Some e]> (entries c)) (access_epoch c).

(** [&e.data[..e.size]] panics if the size exceeds the page. *)
Definition get (k : PageKey) (c : Cache) : res AbiError (option (list Z)) * Cache :=
  let c1 := mkCache (entries c) (access_epoch c + 1) in
  match find_key k c1 with
  | Some (i, e) =>
      (d ← slice 0 (size e) (data e); Ok (Some d),
       set_entry i (mkEntry (key e) (data e) (size e) (access_epoch c1) (dirty e)) c1)
  | None => (Ok None, c1)
  end.

(** The scan for an empty slot or an entry of least access count: [best] is the
    slot found so far with its access count, [i] the slot looked at. *)
Fixpoint scan_lru (es : list (option CacheEntry)) (i : nat) (min_access : Z) (best : option nat)
    : option nat :=
  match es with
  | [] => best
  | None :: _ => Some i
  | Some e :: es' =>
      if access_count e <? min_access then scan_lru es' (S i) (access_count e) (Some i)
      else scan_lru es' (S i) min_access best
  end.

(** Copy into the front of a page. *)
Definition fill (bytes page : list Z) : list Z := upd 0 bytes page.

Definition put (k : PageKey) (bytes : list Z) (c : Cache) : res AbiError unit * Cache :=
  if PAGE_SIZE <? zlen bytes then (Err OutOfMemory, c)
  else match find_key k c with
       | Some (i, e) =>
           (Ok tt, set_entry i (mkEntry (key e) (fill bytes (data e)) (zlen bytes)
                                  (access_epoch c) true) c)
       | None =>
           match scan_lru (entries c) 0 (2 ^ 64 - 1) None with
           | Some idx =>
               (Ok tt, set_entry idx (mkEntry k (fill bytes (zeros PAGE_SIZE)) (zlen bytes)
                                        (access_epoch c) true) c)
           | None => (Err OutOfMemory, c)
           end
       end.

Definition mark_dirty (k : PageKey) (c : Cache) : Cache :=
  match find_key k c with
  | Some (i, e) => set_entry i (mkEntry (key e) (data e) (size e) (access_count e) true) c
  | None => c
  end.

Definition clean (e : CacheEntry) : CacheEntry :=
  mkEntry (key e) (data e) (size e) (access_count e) false.

Definition flush (c : Cache) : Z * Cache :=
  (Z.of_nat (length (filter (fun o => from_option dirty false o = true) (entries c))),
   mkCache (map (option_map clean) (entries c)) (access_epoch c)).

(** Entries, dirty entries, capacity and epoch. *)
Definition stats (c : Cache) : Z * Z * Z * Z :=
  (Z.of_nat (length (filter (fun o => is_Some o) (entries c))),
   Z.of_nat (length (filter (fun o => from_option dirty false o = true) (entries c))),
   Z.of_nat CACHE_PAGES, access_epoch c).

Definition clear (c : Cache) : Cache := mkCache (map (fun _ => None) (entries c)) 0.

(** ** The cache as a partial map *)

Record entry_ok (epoch : Z) (e : CacheEntry) : Prop := {
  page_len : zlen (data e) = 4096;
  size_range : 0 <= size e <= 4096;
  count_range : 0 <= access_count e <= epoch
}.

Record cache_ok (c : Cache) : Prop := {
  slots : length (entries c) = 16%nat;
  entries_ok : forall i e, entries c !! i = Some (Some e) -> entry_ok (access_epoch c) e;
  keys_unique : forall i j e f, entries c !! i = Some (Some e) -> entries c !! j = Some (Some f) ->
    key e = key f -> i = j;
  epoch_range : 0 <= access_epoch c < 2 ^ 64 - 1
}.

Definition content (e : CacheEntry) : list Z := take (Z.to_nat (size e)) (data e).

(** [c] caches the page contents [d] under [k]. *)
Definition caches (c : Cache) (k : PageKey) (d : list Z) : Prop :=
  exists i e, entries c !! i = Some (Some e) /\ key e = k /\ content e = d.

Lemma find_key_Some k c i e :
  find_key k c = Some (i, e) -> entries c !! i = Some (Some e) /\ key e = k.
Proof.
  unfold find_key. destruct (list_find _ _) as [[j [f|]]|] eqn:Hf; [|done..].
  intros [= <- <-]. by apply list_find_Some in Hf as (? & ? & _).
Qed.

Lemma find_key_None k c :
  find_key k c = None -> forall i e, entries c !! i = Some (Some e) -> key e <> k.
Proof.
  unfold find_key. destruct (list_find _ _) as [[j [f|]]|] eqn:Hf; [done| |].
  - apply list_find_Some in Hf as (_ & [] & _).
  - intros _ i e Hi Hk. apply list_find_None in Hf. rewrite Forall_lookup in Hf.
    by apply (Hf i (Some e) Hi).
Qed.

(** The slot chosen for a new page: a free one if there is one, and otherwise
    one whose access count is minimal. *)
Lemma scan_lru_spec es i m best :
  Forall (fun o => match o with Some e => access_count e < 2 ^ 64 - 1 | None => True end) es ->
  match best with
  | Some b => m < 2 ^ 64 - 1
  | None => m = 2 ^ 64 - 1
  end ->
  match scan_lru es i m best with
  | Some r =>
      (exists j, r = (i + j)%nat /\ es !! j = Some None) \/
      ((exists j e, r = (i + j)%nat /\ es !! j = Some (Some e) /\ access_count e < m /\
         forall k o, es !! k = Some o -> exists f, o = Some f /\ access_count e <= access_count f) \/
       (best = Some r /\ forall k o, es !! k = Some o -> exists f, o = Some f /\ m <= access_count f))
  | None => es = [] /\ best = None
  end.
Proof.
  revert i m best. induction es as [|[e|] es IH]; intros i m best Hall Hm; simpl.
  - destruct best; [|done]. right. right. split; [done|]. intros k o Hk. by rewrite lookup_nil in Hk.
  - apply Forall_cons in Hall as [He Hall]. destruct (Z.ltb_spec (access_count e) m).
    + specialize (IH (S i) (access_count e) (Some i) Hall He).
      destruct (scan_lru es (S i) (access_count e) (Some i)) as [r|]; [|by destruct IH].
      destruct IH as [(j & -> & Hj)|[(j & f & -> & Hj & Hlt & Hmin)|[[= ->] Hmin]]].
      * left. exists (S j). split; [lia|done].
      * right. left. exists (S j), f. split; [lia|]. split; [done|]. split; [lia|].
        intros [|k] o Hk; simplify_eq/=; [exists e; split; [done|lia]|by eauto].
      * right. left. exists 0%nat, e. split; [lia|]. split; [done|]. split; [done|].
        intros [|k] o Hk; simplify_eq/=; [exists e; split; [done|lia]|by eauto].
    + specialize (IH (S i) m best Hall Hm). destruct (scan_lru es (S i) m best) as [r|].
      * destruct IH as [(j & -> & Hj)|[(j & f & -> & Hj & Hlt & Hmin)|[Hb Hmin]]].
        { left. exists (S j). split; [lia|done]. }
        { right. left. exists (S j), f. split; [lia|]. split; [done|]. split; [done|].
          intros [|k] o Hk; simplify_eq/=; [exists e; split; [done|lia]|by eauto]. }
        { right. right. split; [done|]. intros [|k] o Hk; simplify_eq/=; [exists e; split; [done|lia]|by eauto]. }
      * destruct IH as [-> ->]. simpl in Hm. lia.
  - left. exists 0%nat. split; [lia|done].
Qed.

Lemma content_fill bytes page k ac d :
  zlen page = 4096 -> zlen bytes <= 4096 ->
  content (mkEntry k (fill bytes page) (zlen bytes) ac d) = bytes.
Proof.
  intros Hp Hb. unfold content, fill. simpl.
  pose proof (sub_upd_same 0 bytes page) as H. unfold sub in H. rewrite drop_0 in H. apply H; lia.
Qed.

(** Overwriting slot [i] by an entry whose key no other slot has. *)
Lemma set_page_ok i e c :
  cache_ok c -> (i < 16)%nat -> entry_ok (access_epoch c) e ->
  (forall j f, entries c !! j = Some (Some f) -> key f = key e -> j = i) ->
  cache_ok (set_entry i e c).
Proof.
  intros [Hs Hok Hu He] Hi Hent Hno. split; simpl.
  - by rewrite length_insert.
  - intros j f. destruct (decide (i = j)) as [->|Hne].
    + rewrite list_lookup_insert_eq by lia. intros [= <-]. done.
    + rewrite list_lookup_insert_ne by done. eauto.
  - intros j k f g Hj Hk Hfg.
    destruct (decide (i = j)) as [<-|Hnj], (decide (i = k)) as [<-|Hnk]; [done| | |];
      rewrite ?list_lookup_insert_eq in * by lia; rewrite ?list_lookup_insert_ne in * by done.
    + injection Hj as <-. symmetry. by apply (Hno k g).
    + injection Hk as <-. by apply (Hno j f).
    + by eapply Hu.
  - done.
Qed.

Lemma caches_set_entry i e c k d :
  (i < length (entries c))%nat ->
  caches (set_entry i e c) k d <->
  (key e = k /\ content e = d) \/
  exists j f, j <> i /\ entries c !! j = Some (Some f) /\ key f = k /\ content f = d.
Proof.
  intros Hi. unfold caches. simpl. split.
  - intros (j & f & Hj & ? & ?). destruct (decide (i = j)) as [<-|Hne].
    + rewrite list_lookup_insert_eq in Hj by done. injection Hj as <-. by left.
    + rewrite list_lookup_insert_ne in Hj by done. right. exists j, f. auto.
  - intros [[? ?]|(j & f & Hne & Hj & ? & ?)].
    + exists i, e. by rewrite list_lookup_insert_eq.
    + exists j, f. by rewrite list_lookup_insert_ne by done.
Qed.

Lemma fill_ok k bytes page epoch ac :
  zlen page = 4096 -> zlen bytes <= 4096 -> 0 <= ac <= epoch ->
  entry_ok epoch (mkEntry k (fill bytes page) (zlen bytes) ac true).
Proof.
  intros Hp Hb Ha. pose proof (zlen_nonneg bytes). split; simpl; [|lia|done].
  unfold fill. rewrite zlen_upd; lia.
Qed.

(** The slot that [put] picks for a key that is not cached. *)
Lemma victim_slot c :
  cache_ok c ->
  exists i, scan_lru (entries c) 0 (2 ^ 64 - 1) None = Some i /\ (i < 16)%nat /\
    (entries c !! i = Some None \/
     exists e, entries c !! i = Some (Some e) /\
       forall j o, entries c !! j = Some o -> exists f, o = Some f /\ access_count e <= access_count f).
Proof.
  intros [Hs Hok Hu He].
  pose proof (scan_lru_spec (entries c) 0 (2 ^ 64 - 1) None) as H.
  destruct (scan_lru (entries c) 0 (2 ^ 64 - 1) None) as [r|].
  - exists r. split; [done|].
    destruct H as [(j & -> & Hj)|[(j & e & -> & Hj & _ & Hmin)|[? _]]]; [|done| | |done].
    + apply Forall_forall. intros [e|] Hin; [|done]. apply list_elem_of_lookup in Hin as [k Hk].
      destruct (Hok k e Hk). lia.
    + split; [apply lookup_lt_Some in Hj; lia|]. by left.
    + split; [apply lookup_lt_Some in Hj; lia|]. right. by eauto.
  - destruct H as [Hn _]; [|done|by rewrite Hn in Hs].
    apply Forall_forall. intros [e|] Hin; [|done]. apply list_elem_of_lookup in Hin as [k Hk].
    destruct (Hok k e Hk). lia.
Qed.

(** Writing the entry [n] into slot [i], when no other slot has its key. *)
Lemma insert_page i n c :
  cache_ok c -> (i < 16)%nat -> entry_ok (access_epoch c) n ->
  (forall j f, entries c !! j = Some (Some f) -> key f = key n -> j = i) ->
  let c' := set_entry i n c in
  cache_ok c' /\
  (forall d, caches c' (key n) d <-> d = content n) /\
  (forall k d, k <> key n -> caches c' k d -> caches c k d) /\
  (forall k d, k <> key n -> (forall v, entries c !! i = Some (Some v) -> k <> key v) ->
    caches c k d -> caches c' k d).
Proof.
  intros Hc Hi Hn Hno c'. assert (Hlt : (i < length (entries c))%nat) by (rewrite (slots c Hc); lia).
  unfold c'. split; [by apply set_page_ok|]. split; [|split].
  - intros d. rewrite caches_set_entry by done. split; [|intros ->; left; by split].
    intros [[_ <-]|(j & f & Hne & Hj & Hk & _)]; [done|]. exfalso. by apply Hne, (Hno j f).
  - intros k d Hne. rewrite caches_set_entry by done.
    intros [[Hk _]|(j & f & _ & Hj & ? & ?)]; [congruence|]. by exists j, f.
  - intros k d Hne Hv (j & f & Hj & Hk & Hd). rewrite caches_set_entry by done. right.
    exists j, f. split; [|done]. intros ->. by apply (Hv f).
Qed.

(** The entries of the other slots stay what they were. *)
Lemma set_entry_others i n c j e :
  (i < length (entries c))%nat ->
  (forall j f, entries c !! j = Some (Some f) -> key f = key n -> j = i) ->
  entries (set_entry i n c) !! j = Some (Some e) ->
  (key e = key n -> e = n) /\ (key e <> key n -> entries c !! j = Some (Some e)).
Proof.
  intros Hi Hno. simpl. destruct (decide (i = j)) as [<-|Hne].
  - rewrite list_lookup_insert_eq by done. intros [= <-]. by split.
  - rewrite list_lookup_insert_ne by done. intros Hj. split; [|done]. intros Hk. by destruct Hne; rewrite (Hno j e).
Qed.

(** The entry that [put] writes, whichever slot it picks. *)
Lemma put_entry i n bytes c :
  cache_ok c -> (i < 16)%nat -> entry_ok (access_epoch c) n -> content n = bytes ->
  access_count n = access_epoch c /\ dirty n = true ->
  (forall j f, entries c !! j = Some (Some f) -> key f = key n -> j = i) ->
  let c' := set_entry i n c in
  cache_ok c' /\ access_epoch c' = access_epoch c /\
  (forall d, caches c' (key n) d <-> d = bytes) /\
  (forall k d, k <> key n -> caches c' k d -> caches c k d) /\
  (forall j e, entries c' !! j = Some (Some e) ->
    (key e = key n -> access_count e = access_epoch c /\ dirty e = true) /\
    (key e <> key n -> entries c !! j = Some (Some e))) /\
  (forall k d, k <> key n -> (forall v, entries c !! i = Some (Some v) -> k <> key v) ->
    caches c k d -> caches c' k d) /\
  (forall v d, entries c !! i = Some (Some v) -> key v <> key n -> ~ caches c' (key v) d).
Proof.
  intros Hc Hi Hn <- Ha Hno c'. destruct (insert_page i n c Hc Hi Hn Hno) as (H1 & H2 & H3 & H4).
  assert (Hl : (i < length (entries c))%nat) by (rewrite (slots c Hc); lia).
  do 4 (split; [done|]). split; [|split; [done|]].
  - intros j e Hj. destruct (set_entry_others i n c j e Hl Hno Hj) as [Ho ?]. split; [|done]. intros Hk. by rewrite (Ho Hk).
  - intros v d Hv Hk (j & f & Hj & Hf & _). destruct (set_entry_others i n c j f Hl Hno Hj) as [_ Ho].
    assert (j = i) as -> by (eapply (keys_unique c Hc j i f v); [apply Ho; congruence|done|done]).
    unfold c' in Hj. simpl in Hj. rewrite list_lookup_insert_eq in Hj by done. congruence.
Qed.

(** C35. Putting a page of at most 4096 bytes always succeeds and caches
    exactly those bytes under the key, dirty and with the current epoch as
    its access counter; the epoch does not advance.  Every other entry of the
    new cache is one of the old, unchanged, and every other cached page is
    still cached, except that when the cache is full and the page new, one
    page is dropped, whose access counter was least.  Longer pages are
    refused and change nothing. *)
Theorem put_spec k bytes c :
  cache_ok c ->
  if PAGE_SIZE <? zlen bytes then put k bytes c = (Err OutOfMemory, c)
  else exists c', put k bytes c = (Ok tt, c') /\ cache_ok c' /\
    access_epoch c' = access_epoch c /\
    (forall d, caches c' k d <-> d = bytes) /\
    (forall k' d, k' <> k -> caches c' k' d -> caches c k' d) /\
    (forall j e, entries c' !! j = Some (Some e) ->
      (key e = k -> access_count e = access_epoch c /\ dirty e = true) /\
      (key e <> k -> entries c !! j = Some (Some e))) /\
    ((forall k' d, k' <> k -> caches c k' d -> caches c' k' d) \/
     exists i v, entries c !! i = Some (Some v) /\ key v <> k /\
       (forall d, ~ caches c k d) /\ (forall d, ~ caches c' (key v) d) /\
       (forall j o, entries c !! j = Some o -> exists f, o = Some f /\ access_count v <= access_count f) /\
       forall k' d, k' <> k -> k' <> key v -> caches c k' d -> caches c' k' d).
Proof.
  intros Hc. pose proof Hc as [Hs Hok Hu He]. unfold put.
  destruct (Z.ltb_spec PAGE_SIZE (zlen bytes)) as [|Hb]; [done|]. unfold PAGE_SIZE in Hb.
  destruct (find_key k c) as [[i e]|] eqn:Hf.
  - apply find_key_Some in Hf as [Hi <-]. destruct (Hok i e Hi) as [Hp _ _].
    assert (Hi' : (i < 16)%nat) by (apply lookup_lt_Some in Hi; lia). set (n := mkEntry (key e) _ _ _ _).
    assert (Hno : forall j f, entries c !! j = Some (Some f) -> key f = key n -> j = i)
      by (intros j f Hj; by apply (Hu j i f e)).
    destruct (put_entry i n bytes c) as (H1 & H2 & H3 & H4 & H5 & H6 & _);
      [done|done|apply fill_ok; [done|done|lia]|by apply content_fill|done|done|].
    eexists. split; [done|]. do 5 (split; [done|]). left. intros k' d Hne.
    apply H6; [done|]. intros v Hv. rewrite Hi in Hv. by injection Hv as <-.
  - pose proof (find_key_None k c Hf) as Hno. destruct (victim_slot c Hc) as (i & -> & Hi & Hv).
    set (n := mkEntry k _ _ _ _). assert (Hz : zlen (zeros PAGE_SIZE) = 4096) by (by apply zlen_zeros).
    destruct (put_entry i n bytes c) as (H1 & H2 & H3 & H4 & H5 & H6 & H7);
      [done|done|apply fill_ok; [done|done|lia]|by apply content_fill|done|intros j f Hj Hk; by destruct (Hno j f Hj)|].
    eexists. split; [done|]. do 5 (split; [done|]). destruct Hv as [Hv|(v & Hv & Hmin)].
    + left. intros k' d Hne. apply H6; [done|]. intros v Hv'. congruence.
    + right. exists i, v. pose proof (Hno i v Hv) as Hkv. do 2 (split; [done|]).
      split; [intros d (j & f & Hj & Hk & _); by apply (Hno j f)|]. split; [intros d; by apply H7|]. split; [done|].
      intros k' d Hne Hkv'. apply H6; [done|]. intros v' Hv'. congruence.
Qed.

(** Looking a page up returns exactly what is cached under the key, or
    nothing, without panicking, changes no cached page, and makes the page
    found the most recently used one. *)
Theorem get_spec k c :
  cache_ok c -> access_epoch c + 1 < 2 ^ 64 - 1 ->
  let r := get k c in
  cache_ok (snd r) /\ (forall k' d, caches (snd r) k' d <-> caches c k' d) /\
  match fst r with
  | Ok (Some d) => caches c k d /\
      forall i e j f, entries (snd r) !! i = Some (Some e) -> key e = k ->
        entries (snd r) !! j = Some (Some f) -> access_count f <= access_count e
  | Ok None => forall d, ~ caches c k d
  | _ => False
  end.
Proof.
  intros Hc Hep. pose proof Hc as [Hs Hok Hu He]. unfold get.
  set (c1 := mkCache (entries c) (access_epoch c + 1)).
  assert (Hc1 : cache_ok c1).
  { split; simpl; [done| |done|lia]. intros i e Hi. destruct (Hok i e Hi). split; [done|done|lia]. }
  destruct (find_key k c1) as [[i e]|] eqn:Hf; simpl.
  - apply find_key_Some in Hf as [Hi <-]. change (entries c1) with (entries c) in Hi.
    destruct (Hok i e Hi) as [Hp Hsz Hac]. set (n := mkEntry (key e) _ _ _ _).
    destruct (insert_page i n c1) as (H1 & H2 & H3 & H4);
      [done|apply lookup_lt_Some in Hi; lia|split; simpl; [done|done|lia]|by intros j f Hj; apply (Hu j i f e)|].
    split; [done|]. split.
    + intros k' d. destruct (decide (k' = key e)) as [->|Hne].
      * etransitivity; [exact (H2 d)|]. split; [intros ->; by exists i, e|].
        intros (j & f & Hj & Hk & <-). assert (j = i) as -> by (by eapply Hu).
        rewrite Hi in Hj. by injection Hj as <-.
      * split; [by apply H3|]. apply H4; [done|]. intros v Hv. simpl in Hv. congruence.
    + unfold slice. rewrite decide_True by lia. simpl. split; [by exists i, e|].
      intros a ea b fb Ha Hka Hb'. destruct H1 as [_ Hok1 Hu1 _].
      assert (Hin : entries (set_entry i n c1) !! i = Some (Some n)).
      { simpl. rewrite list_lookup_insert_eq; [done|]. apply lookup_lt_Some in Hi. done. }
      assert (a = i) as -> by (by eapply Hu1). 
      pose proof (eq_trans (eq_sym Ha) Hin) as Hn. injection Hn as ->. simpl.
      destruct (Hok1 b fb Hb'). simpl in *. lia.
  - split; [done|]. split; [done|]. intros d (i & e & Hi & Hk & _).
    by apply (find_key_None k c1 Hf i e).
Qed.

Lemma new_cache_ok : cache_ok new.
Proof.
  assert (Hn : forall i e, entries new !! i = Some (Some e) -> False).
  { intros i e Hi. by apply lookup_replicate in Hi as [? _]. }
  split; [done| | |simpl; lia].
  - intros i e Hi. by destruct (Hn i e).
  - intros i j e f Hi. by destruct (Hn i e).
Qed.

(** Since putting a page does not advance the epoch, the page put last can be
    the one that is dropped: sixteen pages are put, the first is put again,
    and a seventeenth takes its place. *)
Lemma put_drops_latest :
  let c := foldl (fun c i => snd (put (mkKey 1 i) [i] c)) new (seqZ 0 16) in
  let c1 := snd (put (mkKey 1 0) [7] c) in
  let c2 := snd (put (mkKey 1 16) [16] c1) in
  fst (get (mkKey 1 0) c1) = Ok (Some [7]) /\ fst (get (mkKey 1 0) c2) = Ok None.
Proof. by vm_compute. Qed.

Lemma put_spec_witness :
  exists c', put (mkKey 1 0) [1; 2; 3] new = (Ok tt, c') /\ caches c' (mkKey 1 0) [1; 2; 3].
Proof.
  destruct (put_spec (mkKey 1 0) [1; 2; 3] new new_cache_ok) as (c' & H1 & _ & _ & H2 & _).
  exists c'. split; [exact H1|]. by apply H2.
Defined.

Lemma get_spec_witness : fst (get (mkKey 1 0) new) = Ok None /\ cache_ok (snd (get (mkKey 1 0) new)).
Proof. split; [reflexivity|]. apply (get_spec (mkKey 1 0) new new_cache_ok). simpl. lia. Defined.

End PageCache.
