(* ===== verification/Path.v ===== *)
(** * Paths

    The path functions of [src/fs/mod.rs] with the string operations they use.
    A Rust string is its UTF-8 bytes; all separators are ASCII, so splitting
    and trimming on bytes is splitting and trimming on characters. *)

From S2P Require Import Prelude Bytes Abi.
From Stdlib Require Import Ascii.

Module Path.

Definition slash : ascii := "/"%char.
Definition colon : ascii := ":"%char.

(** [str::split] on a character: one part more than there are separators. *)
Fixpoint split (c : ascii) (s : string) : list string :=
  match s with
  | EmptyString => [EmptyString]
  | String a s' =>
      if decide (a = c) then EmptyString :: split c s'
      else match split c s' with
           | x :: xs => String a x :: xs
           | [] => [String a EmptyString]
           end
  end.

(** [<[&str]>::join]. *)
Definition join (sep : string) (parts : list string) : string := String.concat sep parts.

Fixpoint trim_start_matches (c : ascii) (s : string) : string :=
  match s with
  | String a s' => if decide (a = c) then trim_start_matches c s' else s
  | EmptyString => s
  end.

Fixpoint trim_end_matches (c : ascii) (s : string) : string :=
  match s with
  | EmptyString => s
  | String a s' =>
      let r := trim_end_matches c s' in
      if decide (a = c /\ r = EmptyString) then EmptyString else String a r
  end.

Definition starts_with (p s : string) : bool := String.prefix p s.

(** [str::find] on a character, with the two sides of the position found. *)
Fixpoint find_char (c : ascii) (s : string) : option (string * string) :=
  match s with
  | EmptyString => None
  | String a s' =>
      if decide (a = c) then Some (EmptyString, s')
      else match find_char c s' with
           | Some (l, r) => Some (String a l, r)
           | None => None
           end
  end.

(** [str::rfind] on a character. *)
Fixpoint rfind_char (c : ascii) (s : string) : option (string * string) :=
  match s with
  | EmptyString => None
  | String a s' =>
      match rfind_char c s' with
      | Some (l, r) => Some (String a l, r)
      | None => if decide (a = c) then Some (EmptyString, s') else None
      end
  end.

(** One segment of a path. *)
Definition norm_seg (parts : list string) (seg : string) : list string :=
  if decide (seg = "" \/ seg = ".")%string then parts
  else if decide (seg = "..")%string then take (length parts - 1) parts   (* [parts.pop()] *)
  else parts ++ [seg].

Definition normalize_parts (path : string) : list string := foldl norm_seg [] (split slash path).

Definition normalize_path (path : string) : string :=
  match normalize_parts path with
  | [] => "/"
  | parts => "/" +:+ join "/" parts
  end.

(** [core::str::from_utf8]: the well-formed byte sequences of Unicode. *)
Definition cont (lo hi b : Z) : bool := (lo <=? b) && (b <=? hi).

Fixpoint utf8_valid (bs : list Z) : bool :=
  match bs with
  | [] => true
  | b :: r1 =>
      if b <? 0x80 then utf8_valid r1
      else if cont 0xC2 0xDF b then
        match r1 with b1 :: r2 => cont 0x80 0xBF b1 && utf8_valid r2 | _ => false end
      else if cont 0xE0 0xEF b then
        match r1 with
        | b1 :: b2 :: r3 =>
            cont (if b =? 0xE0 then 0xA0 else 0x80) (if b =? 0xED then 0x9F else 0xBF) b1 &&
            cont 0x80 0xBF b2 && utf8_valid r3
        | _ => false
        end
      else if cont 0xF0 0xF4 b then
        match r1 with
        | b1 :: b2 :: b3 :: r4 =>
            cont (if b =? 0xF0 then 0x90 else 0x80) (if b =? 0xF4 then 0x8F else 0xBF) b1 &&
            cont 0x80 0xBF b2 && cont 0x80 0xBF b3 && utf8_valid r4
        | _ => false
        end
      else false
  end.

Definition to_string (bs : list Z) : string :=
  foldr (fun b s => String (ascii_of_N (Z.to_N b)) s) EmptyString bs.

(** The bytes of a string. *)
Fixpoint bytes_of (s : string) : list Z :=
  match s with
  | EmptyString => []
  | String a s' => Z.of_N (Ascii.N_of_ascii a) :: bytes_of s'
  end.

Definition from_utf8 (bs : list Z) : option string :=
  if utf8_valid bs then Some (to_string bs) else None.

Definition resolve_path (cwd : list Z) (cwd_len : Z) (path : string) : res AbiError string :=
  bs ← slice 0 cwd_len cwd;
  let cwd_str := default "/" (from_utf8 bs) in
  if starts_with "/" path then Ok (normalize_path path)
  else
    let combined :=
      if decide (cwd_str = "/") then "/" +:+ path
      else trim_end_matches slash cwd_str +:+ "/" +:+ path in
    Ok (normalize_path combined).

(** ** Splitting and joining *)

Fixpoint has_char (c : ascii) (s : string) : bool :=
  match s with
  | EmptyString => false
  | String a s' => bool_decide (a = c) || has_char c s'
  end.

Lemma split_ne c s : split c s <> [].
Proof. destruct s as [|a s]; simpl; [done|]. destruct (decide _); [done|]. by destruct (split c s). Qed.

Lemma split_plain c s : has_char c s = false -> split c s = [s].
Proof.
  induction s as [|a s IH]; simpl; [done|]. intros [Ha Hs]%orb_false_iff.
  apply bool_decide_eq_false in Ha. rewrite decide_False by done. by rewrite IH.
Qed.

Lemma split_app c s t : split c (s +:+ String c t) = split c s ++ split c t.
Proof.
  induction s as [|a s IH]; simpl.
  - by rewrite decide_True.
  - fold (String.app s (String c t)). change (String.app s (String c t)) with (s +:+ String c t).
    rewrite IH. destruct (decide (a = c)); [done|].
    destruct (split c s) as [|x xs] eqn:E; [by destruct (split_ne c s)|done].
Qed.

Lemma split_parts c s : Forall (fun p => has_char c p = false) (split c s).
Proof.
  induction s as [|a s IH]; simpl; [by constructor|].
  destruct (decide (a = c)) as [|Hne]; [by constructor|].
  destruct (split c s) as [|x xs] eqn:E; [by destruct (split_ne c s)|].
  apply Forall_cons in IH as [Hx Hxs]. constructor; [|done]. simpl.
  by rewrite bool_decide_eq_false_2.
Qed.

Lemma split_join c parts :
  parts <> [] -> Forall (fun p => has_char c p = false) parts ->
  split c (join (String c EmptyString) parts) = parts.
Proof.
  induction parts as [|p parts IH]; [done|]. intros _ [Hp Hps]%Forall_cons.
  destruct parts as [|q parts]; [by apply split_plain|].
  change (join _ _) with (p +:+ String c (join (String c EmptyString) (q :: parts))).
  rewrite split_app, split_plain, IH by done. done.
Qed.

(** ** Normal form *)

(** A segment that names a directory entry. *)
Definition plain_seg (s : string) : Prop :=
  s <> ""%string /\ s <> "."%string /\ s <> ".."%string /\ has_char slash s = false.

Lemma norm_seg_plain parts seg : plain_seg seg -> norm_seg parts seg = parts ++ [seg].
Proof.
  intros (H1 & H2 & H3 & _). unfold norm_seg. rewrite decide_False by tauto. by rewrite decide_False.
Qed.

Lemma norm_seg_ok parts seg :
  Forall plain_seg parts -> has_char slash seg = false -> Forall plain_seg (norm_seg parts seg).
Proof.
  intros Hp Hs. unfold norm_seg. destruct (decide _) as [|H1]; [done|].
  destruct (decide _) as [|H2]; [by apply Forall_take|].
  apply Forall_app. split; [done|]. constructor; [|done]. repeat split; tauto.
Qed.

Lemma fold_seg_ok segs : forall parts,
  Forall plain_seg parts -> Forall (fun p => has_char slash p = false) segs ->
  Forall plain_seg (foldl norm_seg parts segs).
Proof.
  induction segs as [|s segs IH]; simpl; [done|]. intros parts Hp [Hs Hss]%Forall_cons.
  apply IH; [|done]. by apply norm_seg_ok.
Qed.

Lemma normalize_parts_ok path : Forall plain_seg (normalize_parts path).
Proof. apply fold_seg_ok; [done|apply split_parts]. Qed.

Lemma fold_seg_plain segs : forall parts,
  Forall plain_seg segs -> foldl norm_seg parts segs = parts ++ segs.
Proof.
  induction segs as [|s segs IH]; simpl; intros parts; [by rewrite app_nil_r|].
  intros [Hs Hss]%Forall_cons. rewrite norm_seg_plain, IH by done. by rewrite <- app_assoc.
Qed.

Lemma normalize_path_join path : normalize_path path = String slash (join "/" (normalize_parts path)).
Proof. unfold normalize_path. by destruct (normalize_parts path). Qed.

(** The segments of a normalised path, read from any starting point. *)
Lemma fold_normalized path :
  foldl norm_seg [] (split slash (normalize_path path)) = normalize_parts path.
Proof.
  rewrite normalize_path_join. pose proof (normalize_parts_ok path) as Hok.
  change (String slash ?s) with ("" +:+ String slash s). rewrite split_app, foldl_app.
  change (foldl norm_seg [] (split slash "")) with (@nil string).
  destruct (normalize_parts path) as [|p ps] eqn:E; [done|]. rewrite <- E in *.
  rewrite split_join; [|by rewrite E|by eapply Forall_impl; [exact Hok|intros ? (_ & _ & _ & ?)]].
  by rewrite fold_seg_plain.
Qed.

(** A normalised path is a slash followed by segments joined by slashes,
    none of them empty, [.] or [..], so it names nothing above the root.
    Normalising is idempotent, and a relative path may be resolved against a
    directory before or after the directory is normalised. *)
Theorem normalize_path_spec path rest :
  let n := normalize_path path in
  n = String slash (join "/" (normalize_parts path)) /\
  Forall plain_seg (normalize_parts path) /\
  normalize_path n = n /\
  normalize_path (n +:+ String slash rest) = normalize_path (path +:+ String slash rest).
Proof.
  intros n. unfold n. split; [apply normalize_path_join|]. split; [apply normalize_parts_ok|].
  split.
  - rewrite (normalize_path_join (normalize_path path)). unfold normalize_parts at 1.
    rewrite fold_normalized. by rewrite normalize_path_join.
  - rewrite !(normalize_path_join (_ +:+ _)). unfold normalize_parts.
    by rewrite !split_app, !foldl_app, fold_normalized.
Qed.

End Path.
