(* ===== verification/Input.v ===== *)
(** * Keyboard and mouse input

    Models the buffers of [src/drivers/keyboard.rs], the pointer state of
    [src/drivers/ps2_mouse.rs] and the event queue of
    [src/scheme/input_bridge.rs].  The scancode decoder of the [pc_keyboard]
    crate is an interface; what the ports deliver is an argument. *)

From S2P Require Import Prelude Bytes.

Module Input.

(** ** The event queue of the desktop *)

Record OrbitalEvent := mkEvent { code : Z; ev_a : Z; ev_b : Z }.

Definition EVENT_KEY : Z := 1.
Definition EVENT_MOUSE : Z := 2.
Definition EVENT_BUTTON : Z := 3.

(** A queue of 256 events that drops the oldest. *)
Definition push_event (e : OrbitalEvent) (es : list OrbitalEvent) : list OrbitalEvent :=
  (if 256 <=? zlen es then drop 1 es else es) ++ [e].

Definition push_key_event (scancode character : Z) (pressed : bool) (es : list OrbitalEvent) : list OrbitalEvent :=
  push_event (mkEvent EVENT_KEY character (Z.lor scancode (if pressed then 0x100 else 0))) es.

Definition push_mouse_event (x y : Z) (es : list OrbitalEvent) : list OrbitalEvent := push_event (mkEvent EVENT_MOUSE x y) es.
Definition push_mouse_screen_event (x y : Z) (es : list OrbitalEvent) : list OrbitalEvent := push_event (mkEvent EVENT_MOUSE x y) es.
Definition push_mouse_button_event (mask : Z) (es : list OrbitalEvent) : list OrbitalEvent := push_event (mkEvent EVENT_BUTTON mask 0) es.

(** At most [n] events. *)
Definition pop_events (n : nat) (es : list OrbitalEvent) : list OrbitalEvent * list OrbitalEvent := (take n es, drop n es).

Definition has_events (es : list OrbitalEvent) : bool := negb (bool_decide (es = [])).

(** ** The mouse *)

Definition SCREEN_W : Z := 1280.
Definition SCREEN_H : Z := 960.
Definition MOUSE_GAIN : Z := 1.

Record MouseState := mkMouse { x : Z; y : Z; left_pressed : bool; right_pressed : bool; cycle : Z; data : Z * Z * Z }.

Definition new_mouse : MouseState := mkMouse 400 300 false false 0 (0, 0, 0).

Definition clamp (lo hi a : Z) : Z := Z.max lo (Z.min hi a).
Definition sat32 (a : Z) : Z := clamp (- 2 ^ 31) (2 ^ 31 - 1) a.

Definition get_mouse_pos (m : MouseState) : Z * Z := (x m, y m).
Definition get_mouse_btn (m : MouseState) : Z := Z.lor (Z.b2z (left_pressed m)) (Z.shiftl (Z.b2z (right_pressed m)) 2).

Definition apply_usb_report (buttons dx dy : Z) (m : MouseState) : MouseState :=
  mkMouse (clamp 0 (SCREEN_W - 1) (sat32 (x m + sat32 (dx * MOUSE_GAIN)))) (clamp 0 (SCREEN_H - 1) (sat32 (y m + sat32 (dy * MOUSE_GAIN))))
    (Z.testbit buttons 0) (Z.testbit buttons 1) (cycle m) (data m).

(** The mask of [on_interrupt]. *)
Definition btn_mask (m : MouseState) : Z := Z.lor (if left_pressed m then 1 else 0) (if right_pressed m then 4 else 0).

(** The third byte of a packet. *)
Definition finish_packet (b : Z) (m : MouseState) (es : list OrbitalEvent) : MouseState * list OrbitalEvent :=
  let '(d0, d1, _) := data m in
  let dx := sat32 ((d1 - Z.land (Z.shiftl d0 4) 0x100) * MOUSE_GAIN) in
  let dy := sat32 ((b - Z.land (Z.shiftl d0 3) 0x100) * MOUSE_GAIN) in
  let m' := mkMouse (clamp 0 (SCREEN_W - 1) (x m + dx)) (clamp 0 (SCREEN_H - 1) (y m - dy)) (Z.testbit d0 0) (Z.testbit d0 1) 0 (d0, d1, b) in
  let es := push_mouse_screen_event (x m') (y m') es in
  (m', if btn_mask m' =? btn_mask m then es else push_mouse_button_event (btn_mask m') es).

(** [on_interrupt] with the byte read from the port. *)
Definition mouse_byte (b : Z) (m : MouseState) (es : list OrbitalEvent) : MouseState * list OrbitalEvent :=
  let '(d0, d1, d2) := data m in
  let set c d := mkMouse (x m) (y m) (left_pressed m) (right_pressed m) c d in
  if cycle m =? 0 then
    (if negb (Z.land b 0x08 =? 0) && (Z.land b 0xC0 =? 0) then set 1 (b, d1, d2) else m, es)
  else if cycle m =? 1 then (set 2 (d0, b, d2), es)
  else if cycle m =? 2 then finish_packet b m es
  else (set 0 (d0, d1, d2), es).

(** ** The keyboard *)

Definition BUF_CAP : nat := 256.

Record RingBuf := mkRing { buf : list Z; head : nat; tail : nat; count : nat }.

Definition new_ring : RingBuf := mkRing (replicate BUF_CAP 0) 0 0 0.

Definition push (b : Z) (r : RingBuf) : RingBuf :=
  if (count r <? BUF_CAP)%nat then mkRing (<[tail r := b]> (buf r)) (head r) ((tail r + 1) mod BUF_CAP) (count r + 1) else r.

Definition pop (r : RingBuf) : option Z * RingBuf :=
  if (count r =? 0)%nat then (None, r)
  else (buf r !! head r, mkRing (buf r) ((head r + 1) mod BUF_CAP) (tail r) (count r - 1)).

(** [while n < buf.len()] *)
Fixpoint drain (n : nat) (r : RingBuf) : list Z * RingBuf :=
  match n with
  | O => ([], r)
  | S n =>
    match pop r with
    | (Some b, r) => let '(bs, r) := drain n r in (b :: bs, r)
    | (None, r) => ([], r)
    end
  end.

Inductive KeyCode :=
| LShift | RShift | LControl | RControl | LAlt | RAltGr | LWin | RWin
| ArrowUp | ArrowDown | ArrowLeft | ArrowRight | Home | End_ | PageUp | PageDown | Delete
| OtherKey (n : Z).

Inductive KeyState := Up | Down | SingleShot.
Inductive DecodedKey := RawKey (k : KeyCode) | Unicode (c : Z).

(** [add_byte] answers a complete key event; [key_u8] is [code as u8]. *)
Class Decoder (KB : Type) := {
  add_byte : Z -> KB -> option (KeyCode * KeyState) * KB;
  process_keyevent : KeyCode -> KeyState -> KB -> option DecodedKey * KB;
  key_u8 : KeyCode -> Z
}.

Definition MOD_SHIFT : Z := 1.
Definition MOD_CTRL : Z := 2.
Definition MOD_ALT : Z := 4.
Definition MOD_SUPER : Z := 8.

Definition modifier (k : KeyCode) : option Z :=
  match k with
  | LShift | RShift => Some MOD_SHIFT
  | LControl | RControl => Some MOD_CTRL
  | LAlt | RAltGr => Some MOD_ALT
  | LWin | RWin => Some MOD_SUPER
  | _ => None
  end.

Definition raw_code (k : KeyCode) : option Z :=
  match k with
  | ArrowUp => Some 0x80 | ArrowDown => Some 0x81 | ArrowLeft => Some 0x82 | ArrowRight => Some 0x83
  | Home => Some 0x84 | End_ => Some 0x85 | PageUp => Some 0x86 | PageDown => Some 0x87 | Delete => Some 0x88
  | _ => None
  end.

(** The statics of [keyboard.rs] and the queue of [input_bridge.rs]; [shown]
    is the echo. *)
Record Keyboard (KB : Type) := mkKeyboard {
  kb : KB;
  input_buf : RingBuf;
  editor_buf : RingBuf;
  echo_enabled : bool;
  ctrl_c_pressed : bool;
  key_event : Z;
  mods : Z;
  events : list OrbitalEvent;
  shown : list Z
}.
Arguments mkKeyboard {KB}.
Arguments kb {KB}.
Arguments input_buf {KB}.
Arguments editor_buf {KB}.
Arguments echo_enabled {KB}.
Arguments ctrl_c_pressed {KB}.
Arguments key_event {KB}.
Arguments mods {KB}.
Arguments events {KB}.
Arguments shown {KB}.

Section keyboard.
Context {KB : Type} {DC : Decoder KB} (to_shell : bool).

Implicit Types k : Keyboard KB.

Definition set_kb (d : KB) k := mkKeyboard d (input_buf k) (editor_buf k) (echo_enabled k) (ctrl_c_pressed k) (key_event k) (mods k) (events k) (shown k).
Definition set_bufs (i e : RingBuf) k := mkKeyboard (kb k) i e (echo_enabled k) (ctrl_c_pressed k) (key_event k) (mods k) (events k) (shown k).
Definition set_ctrl_c (b : bool) k := mkKeyboard (kb k) (input_buf k) (editor_buf k) (echo_enabled k) b (key_event k) (mods k) (events k) (shown k).
Definition set_key (e m : Z) k := mkKeyboard (kb k) (input_buf k) (editor_buf k) (echo_enabled k) (ctrl_c_pressed k) e m (events k) (shown k).
Definition set_events (es : list OrbitalEvent) k := mkKeyboard (kb k) (input_buf k) (editor_buf k) (echo_enabled k) (ctrl_c_pressed k) (key_event k) (mods k) es (shown k).
Definition set_echo (b : bool) k := mkKeyboard (kb k) (input_buf k) (editor_buf k) b (ctrl_c_pressed k) (key_event k) (mods k) (events k) (shown k).
Definition show_byte (b : Z) k := mkKeyboard (kb k) (input_buf k) (editor_buf k) (echo_enabled k) (ctrl_c_pressed k) (key_event k) (mods k) (events k) (shown k ++ [b]).

Definition push_both (b : Z) k : Keyboard KB := set_bufs (push b (input_buf k)) (push b (editor_buf k)) k.

Definition push_to_buffers (b : Z) k : Keyboard KB := push_both b (if b =? 0x03 then set_ctrl_c true k else k).

Definition store_compositor_key (keycode payload : Z) k : Keyboard KB :=
  set_key (Z.lor (Z.lor keycode (Z.shiftl (mods k) 8)) (Z.shiftl payload 16)) (mods k) k.

Definition update_mods (code : KeyCode) (pressed : bool) k : Keyboard KB :=
  match modifier code with
  | Some bit => set_key (key_event k) (if pressed then Z.lor (mods k) bit else Z.land (mods k) (255 - bit)) k
  | None => k
  end.

(** What a decoded key does. *)
Definition deliver (code : KeyCode) (make : Z) (pressed : bool) (key : DecodedKey) k : Keyboard KB :=
  match key with
  | Unicode c =>
    let k := if to_shell then
               if c <? 128 then store_compositor_key (key_u8 code) (Z.lor c 0x100) (push_to_buffers c k)
               else store_compositor_key (key_u8 code) 0 k
             else k in
    set_events (push_key_event make c pressed (events k)) k
  | RawKey r =>
    let k := if to_shell then
               match raw_code r with
               | Some n =>
                 let input := if ((0x80 <=? n) && (n <=? 0x83)) || (n =? 0x86) || (n =? 0x87) then push n (input_buf k) else input_buf k in
                 store_compositor_key (key_u8 code) n (set_bufs input (push n (editor_buf k)) k)
               | None => store_compositor_key (key_u8 code) 0 k
               end
             else k in
    set_events (push_key_event make 0 pressed (events k)) k
  end.

Definition push_scancode (scancode : Z) k : Keyboard KB :=
  let '(o, d) := add_byte scancode (kb k) in
  let k := set_kb d k in
  match o with
  | None => k
  | Some (code, st) =>
    let pressed := match st with Down => true | _ => false end in
    let k := update_mods code pressed k in
    let '(o, d) := process_keyevent code st (kb k) in
    let k := set_kb d k in
    match o with Some key => deliver code (Z.land scancode 0x7F) pressed key k | None => k end
  end.

(** At most 32 times; [ps2] is what the two ports give at each turn. *)
Fixpoint poll_ps2 (n : nat) (ps2 : list (Z * Z)) k : Keyboard KB :=
  match n, ps2 with
  | S n, (s, byte) :: ps2 =>
    if Z.land s 1 =? 0 then k
    else poll_ps2 n ps2 (if negb (Z.land s 0x20 =? 0) then k else push_scancode byte k)
  | _, _ => k
  end.

Definition MAX_POLLS : nat := 32.
Definition poll_ps2_keyboard (ps2 : list (Z * Z)) k : Keyboard KB := poll_ps2 MAX_POLLS ps2 k.

(** A carriage return on the serial line is a newline. *)
Definition serial_byte (b : Z) : Z := if b =? 13 then 10 else b.

Definition read_stdin (serial : list Z) (ps2 : list (Z * Z)) (n : nat) k : list Z * Keyboard KB :=
  let k := foldl (fun k b => push_to_buffers (serial_byte b) k) k serial in
  let k := if to_shell then poll_ps2_keyboard ps2 k else k in
  let '(bs, r) := drain n (input_buf k) in
  (bs, set_bufs r (editor_buf k) k).

Definition clear_ring (r : RingBuf) : RingBuf := mkRing (buf r) 0 0 0.
Definition clear_stdin k : Keyboard KB := set_bufs (clear_ring (input_buf k)) (editor_buf k) k.
Definition clear_editor_buf k : Keyboard KB := set_bufs (input_buf k) (clear_ring (editor_buf k)) k.
Definition has_input k : bool := negb (count (input_buf k) =? 0)%nat.
Definition check_and_clear_interrupt k : bool * Keyboard KB := (ctrl_c_pressed k, set_ctrl_c false k).

Definition read_editor_byte (n : nat) k : list Z * Keyboard KB :=
  let '(bs, r) := drain n (editor_buf k) in (bs, set_bufs (input_buf k) r k).

Definition push_raw_byte (b : Z) k : Keyboard KB :=
  let visible := ((32 <=? b) && (b <=? 126)) || (b =? 10) || (b =? 13) in
  push_both b (if echo_enabled k && visible then show_byte b k else k).

Definition poll_compositor_key k : Z * Keyboard KB := (key_event k, set_key 0 (mods k) k).
Definition get_compositor_mods k : Z := mods k.

End keyboard.

(** ** Standard input as a queue *)

(** A ring that holds [q], oldest first. *)
Definition ring_ok (r : RingBuf) (q : list Z) : Prop :=
  ring_holds BUF_CAP (buf r) (head r) q /\ count r = length q /\ tail r = ((head r + length q) mod BUF_CAP)%nat.

(** A byte offered to a queue of 256 bytes; when full, it is lost. *)
Definition offer (q : list Z) (b : Z) : list Z := if (length q <? BUF_CAP)%nat then q ++ [b] else q.

Lemma ring_ok_new : ring_ok new_ring [].
Proof. split; [apply ring_empty; [done|cbn; unfold BUF_CAP; lia]|done]. Qed.

Lemma push_ok b r q : ring_ok r q -> ring_ok (push b r) (offer q b).
Proof.
  intros (Hh & Hc & Ht). unfold push, offer. rewrite Hc. destruct (Nat.ltb_spec (length q) BUF_CAP); [|done].
  rewrite Ht. split; [by apply ring_push|]. cbn [count tail head]. rewrite length_app. split; [done|].
  rewrite Nat.Div0.add_mod_idemp_l, Nat.add_assoc. done.
Qed.

Lemma pop_ok r q : ring_ok r q ->
  match q with
  | [] => pop r = (None, r)
  | b :: q => exists r', pop r = (Some b, r') /\ ring_ok r' q
  end.
Proof.
  intros (Hh & Hc & Ht). unfold pop. rewrite Hc. destruct q as [|b q]; [done|].
  destruct (ring_pop _ _ _ _ _ Hh) as [Hb Hr]. cbn [length Nat.eqb]. rewrite Hb. eexists. split; [done|].
  split; [done|]. cbn [count tail head]. split; [lia|]. rewrite Ht, Nat.Div0.add_mod_idemp_l. f_equal. cbn [length]. lia.
Qed.

Lemma drain_ok n : forall r q, ring_ok r q -> fst (drain n r) = take n q /\ ring_ok (snd (drain n r)) (drop n q).
Proof.
  induction n as [|n IH]; intros r q H; [done|]. cbn [drain]. pose proof (pop_ok r q H) as Hp. destruct q as [|b q].
  - by rewrite Hp.
  - destruct Hp as (r' & -> & Hr'). destruct (IH r' q Hr') as [He Ho]. destruct (drain n r') as [bs r'']. cbn [fst snd] in *. by rewrite He.
Qed.

Section stdin.
Context {KB : Type} {DC : Decoder KB}.

Implicit Types (k : Keyboard KB) (d : KB).

(** The byte a decoded key puts on standard input. *)
Definition typed_key (key : DecodedKey) : option Z :=
  match key with
  | Unicode c => if c <? 128 then Some c else None
  | RawKey r => n ← raw_code r; if ((0x80 <=? n) && (n <=? 0x83)) || (n =? 0x86) || (n =? 0x87) then Some n else None
  end.

Definition typed_scancode (scancode : Z) d : list Z * KB :=
  let '(o, d) := add_byte scancode d in
  match o with
  | None => ([], d)
  | Some (code, st) => let '(o, d) := process_keyevent code st d in (option_list (o ≫= typed_key), d)
  end.

(** The bytes typed in at most [n] turns. *)
Fixpoint typed (n : nat) (ps2 : list (Z * Z)) d : list Z * KB :=
  match n, ps2 with
  | S n, (s, byte) :: ps2 =>
    if Z.land s 1 =? 0 then ([], d)
    else if negb (Z.land s 0x20 =? 0) then typed n ps2 d
    else let '(b1, d) := typed_scancode byte d in let '(b2, d) := typed n ps2 d in (b1 ++ b2, d)
  | _, _ => ([], d)
  end.

(** Standard input holds [q] and the decoder is in the state [d]. *)
Definition stdin_ok k (q : list Z) d : Prop := ring_ok (input_buf k) q /\ kb k = d.

Lemma deliver_ok code make pressed key k q d :
  stdin_ok k q d -> stdin_ok (deliver true code make pressed key k) (foldl offer q (option_list (typed_key key))) d.
Proof.
  intros [Hr Hd]. destruct key as [r|c]; unfold deliver, typed_key.
  - destruct (raw_code r) as [n|]; [|done]. cbn [mbind option_bind].
    destruct (_ || _ || _); [|done]. cbn [option_list foldl]. split; [|done]. by apply push_ok.
  - destruct (c <? 128); [|done]. cbn [option_list foldl]. unfold push_to_buffers. split; [|by destruct (c =? 3)].
    destruct (c =? 3); by apply push_ok.
Qed.

Lemma push_scancode_ok b k q d :
  stdin_ok k q d -> stdin_ok (push_scancode true b k) (foldl offer q (fst (typed_scancode b d))) (snd (typed_scancode b d)).
Proof.
  intros [Hr Hd]. unfold push_scancode, typed_scancode. rewrite Hd. destruct (add_byte b d) as [[[code st]|] d1]; [|by split].
  cbv zeta. set (pressed := match st with Down => true | _ => false end). set (k1 := update_mods code pressed (set_kb d1 k)).
  assert (H1 : stdin_ok k1 q d1). { unfold k1, update_mods. by destruct (modifier code). }
  destruct H1 as [Hr1 ->]. destruct (process_keyevent code st d1) as [[key|] d2]; [|by split]. cbn [fst snd mbind option_bind].
  by apply deliver_ok.
Qed.

Lemma poll_ok n : forall ps2 k q d,
  stdin_ok k q d -> stdin_ok (poll_ps2 true n ps2 k) (foldl offer q (fst (typed n ps2 d))) (snd (typed n ps2 d)).
Proof.
  induction n as [|n IH]; intros ps2 k q d H; [done|]. destruct ps2 as [|[s b] ps2]; [done|]. cbn [poll_ps2 typed].
  destruct (Z.land s 1 =? 0); [done|]. destruct (negb (Z.land s 0x20 =? 0)); [by apply IH|].
  pose proof (push_scancode_ok b k q d H) as Hs. destruct (typed_scancode b d) as [b1 d1]. specialize (IH ps2 _ _ _ Hs).
  cbn [fst snd] in IH. destruct (typed n ps2 d1) as [b2 d2]. cbn [fst snd] in *. by rewrite foldl_app.
Qed.

Lemma serial_ok serial : forall k q d,
  stdin_ok k q d -> stdin_ok (foldl (fun k b => push_to_buffers (serial_byte b) k) k serial) (foldl offer q (map serial_byte serial)) d.
Proof.
  induction serial as [|b serial IH]; intros k q d H; [done|]. cbn [foldl map]. apply IH. destruct H as [Hr Hd].
  unfold push_to_buffers. split; [|by destruct (serial_byte b =? 3)]. destruct (serial_byte b =? 3); by apply push_ok.
Qed.

(** What happens to standard input: a driver pushes a byte, or a process reads
    while bytes have come in on the serial line and from the controller. *)
Inductive op := Raw (b : Z) | Read (serial : list Z) (ps2 : list (Z * Z)) (n : nat).

Fixpoint run (ops : list op) k : list (list Z) * Keyboard KB :=
  match ops with
  | [] => ([], k)
  | Raw b :: ops => run ops (push_raw_byte b k)
  | Read serial ps2 n :: ops =>
    let '(bs, k) := read_stdin true serial ps2 n k in let '(out, k) := run ops k in (bs :: out, k)
  end.

Fixpoint spec (ops : list op) (q : list Z) d : list (list Z) * list Z * KB :=
  match ops with
  | [] => ([], q, d)
  | Raw b :: ops => spec ops (offer q b) d
  | Read serial ps2 n :: ops =>
    let '(bs, d) := typed MAX_POLLS ps2 d in
    let q := foldl offer q (map serial_byte serial ++ bs) in
    let '(out, q', d) := spec ops (drop n q) d in (take n q :: out, q', d)
  end.

Lemma read_stdin_ok serial ps2 n k q :
  ring_ok (input_buf k) q ->
  let '(bs, d) := typed MAX_POLLS ps2 (kb k) in
  let q' := foldl offer q (map serial_byte serial ++ bs) in
  fst (read_stdin true serial ps2 n k) = take n q' /\ stdin_ok (snd (read_stdin true serial ps2 n k)) (drop n q') d.
Proof.
  intros H. pose proof (serial_ok serial k q (kb k) (conj H eq_refl)) as Hs. unfold read_stdin, poll_ps2_keyboard.
  generalize MAX_POLLS. intros m. pose proof (poll_ok m ps2 _ _ _ Hs) as [Hr Hd].
  destruct (typed m ps2 (kb k)) as [bs d]. cbn [fst snd] in Hr, Hd. rewrite <-foldl_app in Hr. cbv zeta.
  destruct (drain_ok n _ _ Hr) as [Ho Hr']. destruct (drain n _) as [out r]. by split.
Qed.

(** C36. Standard input is a queue of 256 bytes: on any sequence of bytes pushed
    by a driver and reads, during which bytes come in on the serial line and
    from the keyboard, every read answers what a queue answers that takes these
    bytes in this order and loses those that do not fit. *)
Theorem stdin_refines_queue ops : forall k q,
  ring_ok (input_buf k) q -> fst (run ops k) = fst (fst (spec ops q (kb k))) /\ ring_ok (input_buf (snd (run ops k))) (snd (fst (spec ops q (kb k)))).
Proof.
  induction ops as [|[b|serial ps2 n] ops IH]; intros k q H; [done| |].
  - cbn [run spec]. assert (Hk : kb (push_raw_byte b k) = kb k) by (unfold push_raw_byte; by destruct (echo_enabled k && _)).
    rewrite <-Hk. apply IH. unfold push_raw_byte. destruct (echo_enabled k && _); by apply push_ok.
  - cbn [run spec]. pose proof (read_stdin_ok serial ps2 n k q H) as Hr. destruct (typed MAX_POLLS ps2 (kb k)) as [bs d]. cbv zeta in Hr.
    destruct Hr as (Ho & Hr & Hd). destruct (read_stdin true serial ps2 n k) as [out k1]. cbn [fst snd] in Ho, Hr, Hd.
    destruct (IH k1 _ Hr) as [He Hf]. rewrite Hd in He, Hf. cbv zeta.
    destruct (run ops k1) as [o1 k2]. destruct (spec ops _ d) as [[o2 q2] d2]. cbn [fst snd] in *. by rewrite Ho, He.
Qed.

End stdin.

(** ** The mouse *)

(** The pointer is on the screen. *)
Definition on_screen (m : MouseState) : Prop := 0 <= x m < SCREEN_W /\ 0 <= y m < SCREEN_H.

Inductive mouse_op := Byte (b : Z) | Usb (buttons dx dy : Z).

Definition mouse_step (o : mouse_op) (s : MouseState * list OrbitalEvent) : MouseState * list OrbitalEvent :=
  match o with
  | Byte b => mouse_byte b (fst s) (snd s)
  | Usb buttons dx dy => (apply_usb_report buttons dx dy (fst s), snd s)
  end.

Lemma clamp_range n a : 0 < n -> 0 <= clamp 0 (n - 1) a < n.
Proof. unfold clamp. lia. Qed.

(** The queue never grows beyond its size. *)
Lemma push_event_bound e es : (length es <= 256)%nat -> (length (push_event e es) <= 256)%nat.
Proof. intros H. unfold push_event. rewrite length_app. destruct (Z.leb_spec 256 (zlen es)); rewrite ?length_drop; simpl; unfold zlen in *; lia. Qed.

Lemma finish_packet_events b m es : (length es <= 256)%nat -> (length (snd (finish_packet b m es)) <= 256)%nat.
Proof.
  intros H. unfold finish_packet. destruct (data m) as [[d0 d1] d2]. cbv zeta. cbn [snd].
  destruct (btn_mask _ =? btn_mask m); unfold push_mouse_button_event, push_mouse_screen_event; auto using push_event_bound.
Qed.

(** Whatever bytes come from the mouse and whatever reports from a USB
    mouse, the pointer stays on the screen and the event queue within its 256
    entries. *)
Theorem mouse_stays_on_screen ops : forall s,
  on_screen (fst s) -> (length (snd s) <= 256)%nat ->
  on_screen (fst (foldl (fun s o => mouse_step o s) s ops)) /\ (length (snd (foldl (fun s o => mouse_step o s) s ops)) <= 256)%nat.
Proof.
  induction ops as [|o ops IH]; intros [m es] Hm He; [done|]. cbn [foldl]. apply IH.
  - destruct o as [b|bt dx dy]; cbn [mouse_step fst snd].
    + unfold mouse_byte. destruct (data m) as [[d0 d1] d2] eqn:Hd. repeat case_match; try done. unfold finish_packet. rewrite Hd.
      by split; apply clamp_range.
    + by split; apply clamp_range.
  - destruct o as [b|bt dx dy]; cbn [mouse_step fst snd]; [|done].
    unfold mouse_byte. destruct (data m) as [[d0 d1] d2]. repeat case_match; try done. by apply finish_packet_events.
Qed.

Lemma land_pow2 a n : 0 <= n -> Z.land a (2 ^ n) = if Z.testbit a n then 2 ^ n else 0.
Proof.
  intros Hn. apply Z.bits_inj'. intros i Hi. rewrite Z.land_spec, Z.pow2_bits_eqb by done.
  destruct (Z.eqb_spec n i) as [->|Hne].
  - rewrite andb_true_r. destruct (Z.testbit a i) eqn:Ht; [by rewrite Z.pow2_bits_true|by rewrite Z.bits_0].
  - rewrite andb_false_r. destruct (Z.testbit a n); [by rewrite Z.pow2_bits_false|by rewrite Z.bits_0].
Qed.

(** A movement in nine bits, the sign in the first byte. *)
Definition moved (sign : bool) (b : Z) : Z := if sign then b - 256 else b.

(** A packet of three bytes moves the pointer by what its last two bytes and
    the signs in the first one say, upwards for a positive second movement, and
    sets the buttons. *)
Lemma mouse_packet_moves b0 b1 b2 m es :
  cycle m = 0 -> Z.testbit b0 3 = true -> Z.land b0 0xC0 = 0 -> is_byte b1 -> is_byte b2 ->
  fst (foldl (fun s o => mouse_step o s) (m, es) [Byte b0; Byte b1; Byte b2]) =
    mkMouse (clamp 0 (SCREEN_W - 1) (x m + moved (Z.testbit b0 4) b1)) (clamp 0 (SCREEN_H - 1) (y m - moved (Z.testbit b0 5) b2))
      (Z.testbit b0 0) (Z.testbit b0 1) 0 (b0, b1, b2).
Proof.
  intros Hc H3 H6 H1 H2. destruct m as [x0 y0 l r c [[d0 d1] d2]]. cbn [cycle] in Hc. subst c.
  assert (Hs : mouse_byte b0 (mkMouse x0 y0 l r 0 (d0, d1, d2)) es = (mkMouse x0 y0 l r 1 (b0, d1, d2), es)).
  { unfold mouse_byte. cbn [data cycle Z.eqb]. change 0x08 with (2 ^ 3). by rewrite land_pow2, H3, H6 by lia. }
  cbn [foldl mouse_step fst snd]. rewrite Hs. unfold mouse_byte. cbn [data cycle Z.eqb Pos.eqb fst snd x y left_pressed right_pressed].
  unfold finish_packet. cbn [data x y fst]. change 0x100 with (2 ^ 8). rewrite !land_pow2, !Z.shiftl_spec by lia.
  change (8 - 4) with 4. change (8 - 3) with 5.
  unfold is_byte, sat32, MOUSE_GAIN, moved in *. f_equal; unfold clamp; destruct (Z.testbit b0 4), (Z.testbit b0 5); lia.
Qed.

(** ** Examples *)

(** A decoder that takes every scancode for the character with its number. *)
#[global] Instance ascii_decoder : Decoder unit := {|
  add_byte b d := (Some (OtherKey b, Down), d);
  process_keyevent c _ d := (match c with OtherKey b => Some (Unicode b) | _ => None end, d);
  key_u8 _ := 0
|}.

Definition ex_keyboard : Keyboard unit := mkKeyboard tt new_ring new_ring true false 0 0 [] [].

Lemma stdin_refines_queue_witness :
  fst (run [Raw 97; Read [98; 13] [(1, 99); (0x21, 5); (1, 100)] 4; Raw 101; Read [] [] 9] ex_keyboard) = [[97; 98; 10; 99]; [100; 101]].
Proof. rewrite (proj1 (stdin_refines_queue _ ex_keyboard [] ring_ok_new)). reflexivity. Defined.

Lemma mouse_stays_on_screen_witness :
  on_screen (fst (foldl (fun s o => mouse_step o s) (new_mouse, []) [Byte 0x18; Byte 0; Byte 255; Usb 1 (-128) (-128)])).
Proof. apply (mouse_stays_on_screen _ (new_mouse, [])); [by split|simpl; lia]. Defined.

End Input.
