(* ===== verification/Text.v ===== *)
(** * Numbers in text

    The parsing and printing of numbers that the kernel uses of the Rust
    library: [str::parse] for integers of a width, [from_str_radix], the
    decimal [Display], padding and [splitn]. *)

From Stdlib Require Import Ascii.
From stdpp Require Import pretty.
From S2P Require Import Prelude Bytes Path.

Module Text.

(** ** Parsing *)

Definition digit (radix : Z) (c : ascii) : option Z :=
  let n := Z.of_nat (nat_of_ascii c) in
  let d := if (48 <=? n) && (n <=? 57) then n - 48 else if (97 <=? n) && (n <=? 122) then n - 87
           else if (65 <=? n) && (n <=? 90) then n - 55 else 36 in
  if d <? radix then Some d else None.

Fixpoint digits (radix : Z) (s : string) (acc : Z) : option Z :=
  match s with
  | EmptyString => Some acc
  | String c s => d ← digit radix c; digits radix s (radix * acc + d)
  end.

(** At least one digit. *)
Definition natural (radix : Z) (s : string) : option Z := match s with EmptyString => None | _ => digits radix s 0 end.

Definition in_range (lo hi : Z) (o : option Z) : option Z := z ← o; if (lo <=? z) && (z <? hi) then Some z else None.

(** [from_str_radix] for [u<bits>] and for [i<bits>]. *)
Definition parse_radix (radix bits : Z) (s : string) : option Z :=
  in_range 0 (2 ^ bits) match s with String "+" s => natural radix s | _ => natural radix s end.

Definition parse_unsigned (bits : Z) (s : string) : option Z := parse_radix 10 bits s.

Definition parse_signed (bits : Z) (s : string) : option Z :=
  in_range (- 2 ^ (bits - 1)) (2 ^ (bits - 1))
    match s with
    | String "-" s => Z.opp <$> natural 10 s
    | String "+" s => natural 10 s
    | _ => natural 10 s
    end.

(** ** Printing *)

Definition show (n : Z) : string := pretty n.

(** [{:<w}] *)
Fixpoint spaces (n : nat) : string := match n with O => EmptyString | S n => String " " (spaces n) end.
Definition pad (w : nat) (s : string) : string := s +:+ spaces (w - String.length s).

(** ** Splitting *)

(** [splitn(n, c)] *)
Fixpoint splitn (n : nat) (c : ascii) (s : string) : list string :=
  match n with
  | O => []
  | S O => [s]
  | S n => match Path.find_char c s with Some (a, b) => a :: splitn n c b | None => [s] end
  end.

Definition strip_prefix (p s : string) : option string :=
  if Path.starts_with p s then Some (String.substring (String.length p) (String.length s - String.length p) s) else None.

(** ** A number that is printed and parsed *)

Lemma string_app_assoc s1 s2 s3 : s1 +:+ (s2 +:+ s3) = (s1 +:+ s2) +:+ s3.
Proof. induction s1 as [|c s1 IH]; [done|exact (f_equal (String c) IH)]. Qed.

Lemma string_app_nil s : s +:+ "" = s.
Proof. induction s as [|c s IH]; [done|exact (f_equal (String c) IH)]. Qed.

Lemma digits_app s1 : forall s2 acc, digits 10 (s1 +:+ s2) acc = a ← digits 10 s1 acc; digits 10 s2 a.
Proof.
  induction s1 as [|c s1 IH]; intros s2 acc; [done|]. change (String c s1 +:+ s2) with (String c (s1 +:+ s2)). cbn [digits].
  destruct (digit 10 c); [apply IH|done].
Qed.

Lemma digit_char n : (n < 10)%N -> digit 10 (pretty_N_char n) = Some (Z.of_N n).
Proof.
  intros Hn. assert (n ∈ [0; 1; 2; 3; 4; 5; 6; 7; 8; 9]%N) as Hi by (apply list_elem_of_In; cbn; lia).
  repeat (apply elem_of_cons in Hi as [->|Hi]; [done|]). by apply not_elem_of_nil in Hi.
Qed.

(** The digits of [n] in front of [s]. *)
Lemma digits_go n : forall s, exists t, pretty_N_go n s = t +:+ s /\ digits 10 t 0 = Some (Z.of_N n).
Proof.
  induction (N.lt_wf_0 n) as [n _ IH]. intros s. destruct (decide (n = 0)%N) as [->|Hn]; [by exists ""%string|].
  rewrite pretty_N_go_step by lia.
  assert (Hlt : (n `div` 10 < n)%N) by (apply N.div_lt; lia).
  destruct (IH _ Hlt (String (pretty_N_char (n `mod` 10)) s)) as (t & -> & Ht).
  exists (t +:+ String (pretty_N_char (n `mod` 10)) ""). split; [by rewrite <-string_app_assoc|].
  rewrite digits_app, Ht. cbn [mbind option_bind digits]. rewrite digit_char by (apply N.mod_lt; lia). cbn [mbind option_bind].
  f_equal. pose proof (N.div_mod n 10). lia.
Qed.

(** Reading back a number that was printed. *)
Lemma parse_show bits n : 0 <= n < 2 ^ bits -> parse_unsigned bits (show n) = Some n.
Proof.
  intros Hn. assert (Hd : exists t, show n = t /\ natural 10 t = Some n /\ forall u, t <> String "+" u).
  { unfold show. destruct n as [|p|p]; [by exists "0"%string| |lia].
    destruct (digits_go (N.pos p) ""%string) as (t & Hp & Ht). exists t.
    assert (Hs : pretty (Z.pos p) = t) by (change (pretty (Z.pos p)) with (pretty_N_go (N.pos p) ""); rewrite Hp; apply string_app_nil).
    split; [done|]. destruct t as [|c t]; [done|]. split; [exact Ht|]. intros u [= -> ->]. done. }
  destruct Hd as (t & -> & Ht & Hu). unfold parse_unsigned, parse_radix.
  assert (Hm : (match t with String "+" s => natural 10 s | _ => natural 10 t end) = Some n).
  { rewrite <-Ht. destruct t as [|c u]; [done|]. destruct (decide (c = "+"%char)) as [->|Hc]; [by destruct (Hu u)|].
    destruct c as [[] [] [] [] [] [] [] []]; try done. }
  rewrite Hm. cbn [in_range mbind option_bind]. rewrite (proj2 (Z.leb_le 0 n)), (proj2 (Z.ltb_lt n (2 ^ bits))) by lia. done.
Qed.

End Text.
