(* ===== verification/Files.v ===== *)
(** * Files

    The [File] trait of [src/fs/mod.rs] as a type class, the contract of a
    random-access file as a second class, and the in-memory file of
    [src/fs/ramfs.rs], which meets it. *)

From S2P Require Import Prelude Bytes Abi.

Module Files.

Inductive FileType := Regular | DirectoryType | CharacterDevice.

(** The methods of the trait.  [read] fills the front of the buffer it is
    given and returns the count with the buffer. *)
Class File (F : Type) := {
  read : F -> list Z -> Z -> res AbiError (Z * list Z);
  write : F -> list Z -> Z -> res AbiError Z * F;
  file_type : F -> FileType;
  size : F -> Z;
  truncate : F -> Z -> res AbiError unit * F
}.

(** The trait's own [truncate]. *)
Definition default_truncate {F} (f : F) (_ : Z) : res AbiError unit * F :=
  (Err (Other "Truncate not implemented"), f).

(** [Vec::resize(n, 0)] to a larger length. *)
Definition grow (n : Z) (l : list Z) : list Z := l ++ zeros (n - zlen l).

(** What a file of bytes promises: its contents, how much of them a read
    copies, and what a write that stays below [isize::MAX] leaves. *)
Class FileSpec (F : Type) {fi : File F} := {
  contents : F -> list Z;
  size_contents : forall f, size f = zlen (contents f);
  read_contents : forall f buf off, 0 <= off ->
    let n := Z.max 0 (Z.min (zlen buf) (zlen (contents f) - off)) in
    read f buf off = Ok (n, upd 0 (sub off n (contents f)) buf);
  write_contents : forall f buf off, 0 <= off -> off + zlen buf < 2 ^ 63 ->
    exists f', write f buf off = (Ok (zlen buf), f') /\
      contents f' = upd off buf (grow (off + zlen buf) (contents f))
}.

Section Spec.

Context {F : Type} {fi : File F} {fs : FileSpec F}.

(** Reading a range that lies inside the contents. *)
Lemma read_inside f buf off :
  0 <= off -> off + zlen buf <= zlen (contents f) ->
  read f buf off = Ok (zlen buf, sub off (zlen buf) (contents f)).
Proof.
  intros Hoff Hin. rewrite read_contents by done.
  pose proof (zlen_nonneg buf). replace (Z.max 0 _) with (zlen buf) by lia. do 2 f_equal.
  set (d := sub _ _ _). assert (Hd : zlen d = zlen buf) by (apply zlen_sub; lia).
  transitivity (sub 0 (zlen d) (upd 0 d buf)); [|apply sub_upd_same; lia].
  rewrite Hd, <- (zlen_upd 0 d buf) by lia. by rewrite sub_full.
Qed.

Lemma zlen_grow n l : zlen (grow n l) = Z.max n (zlen l).
Proof.
  unfold grow. rewrite zlen_app. pose proof (zlen_nonneg l). unfold zeros.
  unfold zlen at 2. rewrite length_replicate. lia.
Qed.

Lemma sub_grow off n k l : 0 <= off -> off + n <= zlen l -> sub off n (grow k l) = sub off n l.
Proof.
  intros Hoff Hn. unfold sub, grow. unfold zlen in Hn.
  destruct (decide (n <= 0)) as [|]; [by replace (Z.to_nat n) with O by lia|].
  rewrite drop_app_le by lia. rewrite take_app_le; [done|]. rewrite length_drop. lia.
Qed.

(** Reading back what was written, and a range the write does not touch. *)
Lemma read_after_write f buf off :
  0 <= off -> off + zlen buf < 2 ^ 63 ->
  exists f', write f buf off = (Ok (zlen buf), f') /\
    (forall b, zlen b = zlen buf -> read f' b off = Ok (zlen buf, buf)) /\
    (forall b o, 0 <= o -> o + zlen b <= zlen (contents f) ->
      o + zlen b <= off \/ off + zlen buf <= o -> read f' b o = read f b o) /\
    size f' = Z.max (off + zlen buf) (size f).
Proof.
  intros Hoff Hlim. destruct (write_contents f buf off Hoff Hlim) as (f' & Hw & Hc).
  pose proof (zlen_nonneg buf). assert (Hlen : zlen (contents f') = Z.max (off + zlen buf) (zlen (contents f))).
  { rewrite Hc, zlen_upd by (rewrite ?zlen_grow; lia). apply zlen_grow. }
  exists f'. split; [done|]. split; [|split].
  - intros b Hb. rewrite read_inside by lia. rewrite Hb, Hc.
    rewrite sub_upd_same by (rewrite ?zlen_grow; lia). done.
  - intros b o Ho Hin Hdis. pose proof (zlen_nonneg b). rewrite !read_inside by lia.
    rewrite Hc, sub_upd_other by (rewrite ?zlen_grow; lia). by rewrite sub_grow.
  - by rewrite !size_contents.
Qed.

End Spec.

(** ** The in-memory file *)

Record RamFile := mkRam { data : list Z }.

Definition ram_new : RamFile := mkRam [].
Definition from_bytes (bytes : list Z) : RamFile := mkRam bytes.

Definition ram_read (f : RamFile) (buf : list Z) (offset : Z) : res AbiError (Z * list Z) :=
  let size := zlen (data f) in
  if size <=? offset then Ok (0, buf)
  else
    let available := size - offset in
    let to_copy := Z.min available (zlen buf) in
    src ← slice offset to_copy (data f);
    buf' ← splice 0 src buf;
    Ok (to_copy, buf').

(** [offset + buf.len()] is checked addition; a vector longer than
    [isize::MAX] panics. *)
Definition ram_write (f : RamFile) (buf : list Z) (offset : Z) : res AbiError Z * RamFile :=
  let new_min_size := offset + zlen buf in
  if 2 ^ 64 <=? new_min_size then (Panic, f)
  else if (zlen (data f) <? new_min_size) && (2 ^ 63 <=? new_min_size) then (Panic, f)
  else
    let d := if zlen (data f) <? new_min_size then grow new_min_size (data f) else data f in
    match splice (E:=AbiError) offset buf d with
    | Ok d' => (Ok (zlen buf), mkRam d')
    | _ => (Panic, mkRam d)
    end.

#[global] Instance ram_file : File RamFile := {
  read := ram_read;
  write := ram_write;
  file_type := fun _ => Regular;
  size := fun f => zlen (data f);
  truncate := default_truncate
}.

Lemma grow_small n l : n <= zlen l -> grow n l = l.
Proof. intros H. unfold grow, zeros. replace (Z.to_nat _) with O by lia. apply app_nil_r. Qed.

#[global] Program Instance ram_spec : FileSpec RamFile := { contents := data }.
Next Obligation. done. Qed.
Next Obligation.
  intros f buf off Hoff. cbn zeta. simpl. unfold ram_read. pose proof (zlen_nonneg buf).
  destruct (Z.leb_spec (zlen (data f)) off).
  - replace (Z.max _ _) with 0 by lia. by rewrite sub_zero.
  - replace (Z.max _ _) with (Z.min (zlen (data f) - off) (zlen buf)) by lia.
    set (n := Z.min _ _). unfold slice. rewrite decide_True by lia. simpl.
    unfold splice. rewrite decide_True; [done|]. rewrite zlen_sub; lia.
Qed.
Next Obligation.
  intros f buf off Hoff Hlim. simpl. unfold ram_write. pose proof (zlen_nonneg buf).
  destruct (Z.leb_spec (2 ^ 64) (off + zlen buf)); [lia|].
  destruct (Z.leb_spec (2 ^ 63) (off + zlen buf)); [lia|]. rewrite andb_false_r.
  assert (Hd : (if zlen (data f) <? off + zlen buf then grow (off + zlen buf) (data f) else data f)
               = grow (off + zlen buf) (data f)).
  { destruct (Z.ltb_spec (zlen (data f)) (off + zlen buf)); [done|]. by rewrite grow_small. }
  rewrite Hd. unfold splice. rewrite decide_True by (rewrite zlen_grow; lia). by eexists.
Qed.

End Files.
