(* ===== verification/Vfs.v ===== *)
(** * The virtual file system

    Models [src/fs/vfs.rs].  Directory nodes hold [Arc] references to their
    children, so a node can be shared: nodes and files live in stores indexed
    by reference, and an operation that mutates a node mutates the store.
    FAT32 and the scheme registry are reached through the class [Outside]. *)

From S2P Require Import Prelude Bytes Abi Capability Process Path Files.
Import Path Files.

Module Vfs.

Inductive VfsNode :=
| Directory (children : gmap string Z)
| FileNode (handle : Z).

(** [Arc<Mutex<dyn File + Send>>]: a RAM file, which the tree itself creates,
    or a file of another module, of type [X]. *)
Inductive AnyFile (X : Type) := Ram (f : RamFile) | Dyn (x : X).
Arguments Ram {X} _.
Arguments Dyn {X} _.

#[global] Instance any_file {X} {fx : File X} : File (AnyFile X) := {
  read := fun f => match f with Ram r => read r | Dyn x => read x end;
  write := fun f buf off =>
    match f with
    | Ram r => let '(n, r') := write r buf off in (n, Ram r')
    | Dyn x => let '(n, x') := write x buf off in (n, Dyn x')
    end;
  file_type := fun f => match f with Ram r => file_type r | Dyn x => file_type x end;
  size := fun f => match f with Ram r => size r | Dyn x => size x end;
  truncate := fun f n =>
    match f with
    | Ram r => let '(o, r') := truncate r n in (o, Ram r')
    | Dyn x => let '(o, x') := truncate x n in (o, Dyn x')
    end
}.

(** What the tree calls outside itself, on a state [W] of its own: the
    on-disk operations of the FAT32 driver and the registered schemes. *)
Class Outside (W X : Type) := {
  create_file_on_disk : string -> W -> res string X * W;
  unlink_on_disk : string -> W -> res string unit * W;
  rmdir_on_disk : string -> W -> res string unit * W;
  mkdir_on_disk : string -> W -> res string unit * W;
  registered : W -> string -> bool;
  scheme_open : string -> string -> Z -> W -> res AbiError Z * W;
  scheme_read : string -> Z -> list Z -> W -> res AbiError (Z * list Z) * W;
  scheme_write : string -> Z -> list Z -> W -> res AbiError Z * W;
  scheme_close : string -> Z -> W -> res AbiError unit * W
}.

Inductive VfsHandle := HFile (handle : Z) | HScheme (scheme : string) (handle_id : Z).

Record MountInfo := mkMount { source : string; target : string; fstype : string }.

Definition register_mount (src tgt fs : string) (mounts : list MountInfo) : list MountInfo :=
  mounts ++ [mkMount src tgt fs].

Definition is_dir_node (n : VfsNode) : bool :=
  match n with Directory _ => true | FileNode _ => false end.

(** The path's segments with empty ones left out. *)
Definition segments (path : string) : list string :=
  filter (fun s => s <> ""%string) (split slash (trim_start_matches slash path)).

(** The walk of [resolve_node] from a node along the segments. *)
Fixpoint walk (ns : gmap Z VfsNode) (current : Z) (parts : list string) : res AbiError Z :=
  match parts with
  | [] => Ok current
  | part :: rest =>
      if decide (part = "" \/ part = ".")%string then walk ns current rest
      else match ns !! current with
           | Some (Directory children) =>
               match children !! part with
               | Some n => walk ns n rest
               | None => Err (Other "File not found")
               end
           | Some (FileNode _) => Err (Other "Not a directory")
           | None => Fault
           end
  end.

(** Children in the order of a [BTreeMap]: by name, bytewise. *)
Definition name_le (a b : string * Z) : Prop := String.leb (fst a) (fst b) = true.

#[global] Instance name_le_dec a b : Decision (name_le a b).
Proof. unfold name_le. apply _. Defined.

Definition sorted_children (children : gmap string Z) : list (string * Z) :=
  merge_sort name_le (map_to_list children).

Section Tree.

Context {X W : Type} {fx : File X} {out : Outside W X}.

Record Vfs := mkVfs {
  root : option Z;
  nodes : gmap Z VfsNode;
  files : gmap Z (AnyFile X);
  next : Z;   (* the allocator's next reference *)
  world : W
}.

Definition new (w : W) : Vfs := mkVfs None ∅ ∅ 1 w.

Definition set_node (a : Z) (n : VfsNode) (v : Vfs) : Vfs :=
  mkVfs (root v) (<[a := n]> (nodes v)) (files v) (next v) (world v).

Definition set_file (h : Z) (f : AnyFile X) (v : Vfs) : Vfs :=
  mkVfs (root v) (nodes v) (<[h := f]> (files v)) (next v) (world v).

Definition set_world (w : W) (v : Vfs) : Vfs :=
  mkVfs (root v) (nodes v) (files v) (next v) w.

(** [Arc::new] of a node and of a file. *)
Definition alloc_node (n : VfsNode) (v : Vfs) : Z * Vfs :=
  (next v, mkVfs (root v) (<[next v := n]> (nodes v)) (files v) (next v + 1) (world v)).

Definition alloc_file (f : AnyFile X) (v : Vfs) : Z * Vfs :=
  (next v, mkVfs (root v) (nodes v) (<[next v := f]> (files v)) (next v + 1) (world v)).

Definition init (v : Vfs) : Vfs :=
  match root v with
  | None =>
      let '(a, v1) := alloc_node (Directory ∅) v in
      mkVfs (Some a) (nodes v1) (files v1) (next v1) (world v1)
  | Some _ => v
  end.

Definition get_root (v : Vfs) : res AbiError Z :=
  match root v with Some r => Ok r | None => Panic end.

Definition resolve_node (path : string) (v : Vfs) : res AbiError Z :=
  let path := trim_start_matches slash path in
  r ← get_root v;
  if decide (path = "")%string then Ok r else walk (nodes v) r (split slash path).

Definition resolve_parent (path : string) (v : Vfs) : res AbiError (Z * string) :=
  let '(dir_part, leaf) :=
    match rfind_char slash path with
    | Some (l, r) => (l, r)
    | None => ("/"%string, path)
    end in
  let dir_path := if decide (dir_part = "")%string then "/"%string else dir_part in
  n ← resolve_node dir_path v;
  Ok (n, leaf).

(** The loop of [mount] from a directory: intermediate directories are made
    when missing, a file in the way ends it, the last segment is linked to a
    new file node. *)
Fixpoint mount_parts (current : Z) (parts : list string) (file : Z) (v : Vfs) : Vfs :=
  match parts with
  | [] => v
  | part :: rest =>
      match nodes v !! current with
      | Some (Directory children) =>
          match rest with
          | [] =>
              let '(node, v1) := alloc_node (FileNode file) v in
              set_node current (Directory (<[part := node]> children)) v1
          | _ =>
              match children !! part with
              | Some n => mount_parts n rest file v
              | None =>
                  let '(node, v1) := alloc_node (Directory ∅) v in
                  mount_parts node rest file
                    (set_node current (Directory (<[part := node]> children)) v1)
              end
          end
      | _ => v
      end
  end.

Definition mount (path : string) (file : Z) (v : Vfs) : Vfs :=
  let v := init v in
  match root v with
  | Some r => mount_parts r (segments path) file v
  | None => v
  end.

Fixpoint mount_dir_parts (current : Z) (parts : list string) (v : Vfs) : Vfs :=
  match parts with
  | [] => v
  | part :: rest =>
      match nodes v !! current with
      | Some (Directory children) =>
          match children !! part with
          | Some n => mount_dir_parts n rest v
          | None =>
              let '(node, v1) := alloc_node (Directory ∅) v in
              mount_dir_parts node rest
                (set_node current (Directory (<[part := node]> children)) v1)
          end
      | _ => v
      end
  end.

Definition mount_dir (path : string) (v : Vfs) : Vfs :=
  let v := init v in
  match root v with
  | Some r => mount_dir_parts r (segments path) v
  | None => v
  end.

(** The file a handle refers to. *)
Definition file_at (h : Z) (v : Vfs) : res AbiError (AnyFile X) :=
  match files v !! h with Some f => Ok f | None => Fault end.

(** The handle of the file node at a path; a directory is an error. *)
Definition handle_of (path : string) (v : Vfs) : res AbiError Z :=
  node ← resolve_node path v;
  match nodes v !! node with
  | Some (FileNode handle) => Ok handle
  | Some (Directory _) => Err (Other "Is a directory")
  | None => Fault
  end.

Definition read_raw (path : string) (buf : list Z) (offset : Z) (v : Vfs)
    : res AbiError (Z * list Z) :=
  handle ← handle_of path v;
  f ← file_at handle v;
  read f buf offset.

Definition read_vfs (process : Process.Process) (path : string) (buf : list Z) (offset : Z) (v : Vfs)
    : res AbiError (Z * list Z) :=
  if Capability.has_permission (Process.capabilities process) Capability.File false false
  then read_raw path buf offset v
  else Err PermissionDenied.

(** A method call on the file behind a handle, which keeps the file it
    leaves. *)
Definition on_file {A} (h : Z) (method : AnyFile X -> res AbiError A * AnyFile X) (v : Vfs)
    : res AbiError A * Vfs :=
  match files v !! h with
  | Some f => let '(r, f') := method f in (r, set_file h f' v)
  | None => (Fault, v)
  end.

Definition write_raw (path : string) (buf : list Z) (offset : Z) : M Vfs AbiError Z :=
  v ← get;
  handle ← lift (handle_of path v);
  on_file handle (fun f => write f buf offset).

Definition write_vfs (process : Process.Process) (path : string) (buf : list Z) (offset : Z)
    : M Vfs AbiError Z :=
  if Capability.has_permission (Process.capabilities process) Capability.File true false
  then write_raw path buf offset
  else throw PermissionDenied.

Definition truncate_vfs (path : string) (new_size : Z) : M Vfs AbiError unit :=
  v ← get;
  handle ← lift (handle_of path v);
  on_file handle (fun f => truncate f new_size).

(** [is_ok] and [ok] of a resolution. *)
Definition ok {A} (r : res AbiError A) : res AbiError (option A) :=
  match r with
  | Ok a => Ok (Some a)
  | Err _ => Ok None
  | Panic => Panic
  | Fault => Fault
  end.

Definition exists_path (path : string) (v : Vfs) : res AbiError bool :=
  r ← ok (resolve_node path v);
  Ok (bool_decide (is_Some r)).

Definition file_size (path : string) (v : Vfs) : res AbiError (option Z) :=
  r ← ok (resolve_node path v);
  match r with
  | Some node =>
      match nodes v !! node with
      | Some (FileNode handle) => f ← file_at handle v; Ok (Some (size f))
      | _ => Ok None
      end
  | None => Ok None
  end.

Definition file_type_of (path : string) (v : Vfs) : res AbiError (option FileType) :=
  r ← ok (resolve_node path v);
  match r with
  | Some node =>
      match nodes v !! node with
      | Some (FileNode handle) => f ← file_at handle v; Ok (Some (file_type f))
      | Some (Directory _) => Ok (Some DirectoryType)
      | None => Fault
      end
  | None => Ok None
  end.

Definition is_dir (path : string) (v : Vfs) : res AbiError bool :=
  r ← ok (resolve_node path v);
  match r with
  | Some node =>
      match nodes v !! node with Some n => Ok (is_dir_node n) | None => Fault end
  | None => Ok false
  end.

(** The loop of [read_raw_all], [None] when the fuel runs out. *)
Fixpoint read_all_loop (fuel : nat) (path : string) (size total_read : Z) (buf : list Z) (v : Vfs)
    : option (res AbiError (list Z)) :=
  if size <=? total_read then Some (Ok (take (Z.to_nat total_read) buf))
  else match fuel with
       | O => None
       | S fuel =>
           match read_raw path (drop (Z.to_nat total_read) buf) total_read v with
           | Ok (n, tail) =>
               let buf := take (Z.to_nat total_read) buf ++ tail in
               if n =? 0 then Some (Ok (take (Z.to_nat total_read) buf))
               else read_all_loop fuel path size (total_read + n) buf v
           | Err e => Some (Err e)
           | Panic => Some Panic
           | Fault => Some Fault
           end
       end.

(** Every round reads at least one byte, so [size] rounds are enough. *)
Definition read_raw_all (path : string) (v : Vfs) : option (res AbiError (list Z)) :=
  match file_size path v with
  | Ok (Some size) => read_all_loop (Z.to_nat size) path size 0 (zeros size) v
  | Ok None => Some (Err (Other "File not found"))
  | Err e => Some (Err e)
  | Panic => Some Panic
  | Fault => Some Fault
  end.

Definition child_path (prefix name : string) : string :=
  if decide (prefix = "/")%string then "/" +:+ name
  else trim_end_matches slash prefix +:+ "/" +:+ name.

(** [list_recursive], [None] when the fuel runs out. *)
Fixpoint list_recursive (fuel : nat) (ns : gmap Z VfsNode) (node : Z) (prefix : string)
    : option (list string) :=
  match fuel with
  | O => None
  | S fuel =>
      match ns !! node with
      | Some (Directory children) =>
          ls ← mapM (fun '(name, child) =>
                 let path := child_path prefix name in
                 l ← list_recursive fuel ns child path; Some (path :: l))
               (sorted_children children);
          Some (concat ls)
      | _ => Some []
      end
  end.

(** A chain of distinct nodes is no longer than the store. *)
Definition list_all (v : Vfs) : res AbiError (option (list string)) :=
  r ← get_root v;
  Ok (list_recursive (S (base.size (nodes v))) (nodes v) r "/").

Definition list_dir (path : string) (v : Vfs) : res AbiError (list string) :=
  r ← ok (resolve_node path v);
  match r with
  | Some node =>
      match nodes v !! node with
      | Some (Directory children) =>
          let prefix := if decide (path = "/" \/ path = "")%string then ""%string
                        else trim_end_matches slash path in
          Ok (map (fun '(name, _) => prefix +:+ "/" +:+ name) (sorted_children children))
      | Some (FileNode _) => Ok []
      | None => Fault
      end
  | None => Ok []
  end.

(** A call that only acts outside the tree. *)
Definition outside {E A} (f : W -> res E A * W) : M Vfs AbiError (res E A) := fun v =>
  let '(r, w) := f (world v) in
  match r with
  | Panic => (Panic, set_world w v)
  | Fault => (Fault, set_world w v)
  | _ => (Ok r, set_world w v)
  end.

(** The same where the caller returns its error as [AbiError::Other]. *)
Definition on_disk (f : W -> res string unit * W) : M Vfs AbiError unit :=
  r ← outside f;
  match r with
  | Err e => throw (Other e)
  | _ => mret tt
  end.

Definition create (path : string) : M Vfs AbiError unit :=
  v ← get;
  e ← lift (exists_path path v);
  if e : bool then mret tt
  else
    let fallback : M Vfs AbiError unit := modify (fun v =>
      let '(h, v1) := alloc_file (Ram ram_new) v in mount path h v1) in
    if starts_with "/fat/" path then
      r ← outside (create_file_on_disk path);
      match r with
      | Ok fat_file => modify (fun v => let '(h, v1) := alloc_file (Dyn fat_file) v in mount path h v1)
      | _ => fallback
      end
    else fallback.

Definition remove (path : string) : M Vfs AbiError unit :=
  _ ← (if starts_with "/fat/" path then on_disk (unlink_on_disk path) else mret tt);
  v ← get;
  '(parent_node, leaf) ← lift (resolve_parent path v);
  match nodes v !! parent_node with
  | Some (Directory children) =>
      match children !! leaf with
      | Some _ => put (set_node parent_node (Directory (delete leaf children)) v)
      | None => throw (Other "File not found")
      end
  | Some (FileNode _) => throw (Other "Parent is not a directory")
  | None => lift Fault
  end.

(** Update the children of a node if it is a directory. *)
Definition on_children (a : Z) (f : gmap string Z -> gmap string Z) (v : Vfs) : Vfs :=
  match nodes v !! a with
  | Some (Directory children) => set_node a (Directory (f children)) v
  | _ => v
  end.

Definition rename (old new : string) : M Vfs AbiError unit :=
  v ← get;
  node ← lift (resolve_node old v);
  '(old_parent, old_leaf) ← lift (resolve_parent old v);
  '(new_parent, new_leaf) ← lift (resolve_parent new v);
  put (on_children new_parent (insert new_leaf node) (on_children old_parent (delete old_leaf) v)).

Definition rmdir (path : string) : M Vfs AbiError unit :=
  let p := trim_end_matches slash path in
  _ ← (if starts_with "/fat/" p then on_disk (rmdir_on_disk p) else mret tt);
  remove p.

Definition mkdir (path : string) : M Vfs AbiError unit :=
  let p := trim_end_matches slash path in
  if decide (p = "")%string then mret tt
  else
    v ← get;
    e ← lift (exists_path p v);
    if e : bool then mret tt
    else
      _ ← (if starts_with "/fat/" p then _ ← outside (mkdir_on_disk p); mret tt else mret tt);
      modify (mount_dir p).

(** A scheme call: its own result is the caller's. *)
Definition scheme_call {A} (f : W -> res AbiError A * W) : M Vfs AbiError A := fun v =>
  let '(r, w) := f (world v) in (r, set_world w v).

Definition handle_scheme (path : string) (flags : Z) (v : Vfs) : option (res AbiError Z) * Vfs :=
  match find_char colon path with
  | Some (scheme_name, _) =>
      if registered (world v) scheme_name
      then let '(r, v') := scheme_call (scheme_open scheme_name path flags) v in (Some r, v')
      else (None, v)
  | None => (None, v)
  end.

Definition open (path : string) (flags : Z) : M Vfs AbiError VfsHandle :=
  v ← get;
  let as_file : M Vfs AbiError VfsHandle := h ← lift (handle_of path v); mret (HFile h) in
  match find_char colon path with
  | Some (scheme_name, _) =>
      if registered (world v) scheme_name
      then handle_id ← scheme_call (scheme_open scheme_name path flags);
           mret (HScheme scheme_name handle_id)
      else as_file
  | None => as_file
  end.

Definition read_handle (handle : VfsHandle) (buf : list Z) (offset : Z)
    : M Vfs AbiError (Z * list Z) :=
  v ← get;
  match handle with
  | HFile h => f ← lift (file_at h v); lift (read f buf offset)
  | HScheme scheme handle_id =>
      if registered (world v) scheme then scheme_call (scheme_read scheme handle_id buf)
      else throw (Other "Scheme not found")
  end.

Definition write_handle (handle : VfsHandle) (buf : list Z) (offset : Z) : M Vfs AbiError Z :=
  v ← get;
  match handle with
  | HFile h => on_file h (fun f => write f buf offset)
  | HScheme scheme handle_id =>
      if registered (world v) scheme then scheme_call (scheme_write scheme handle_id buf)
      else throw (Other "Scheme not found")
  end.

Definition close_handle (handle : VfsHandle) : M Vfs AbiError unit :=
  v ← get;
  match handle with
  | HFile _ => mret tt
  | HScheme scheme handle_id =>
      if registered (world v) scheme then scheme_call (scheme_close scheme handle_id)
      else throw (Other "Scheme not found")
  end.

(** ** Shape of the tree

    The root is a directory, references lead somewhere, and references not
    yet handed out are not used. *)
Record vfs_ok (v : Vfs) : Prop := {
  root_ok : exists r ch, root v = Some r /\ nodes v !! r = Some (Directory ch);
  children_ok : forall a ch p c,
    nodes v !! a = Some (Directory ch) -> ch !! p = Some c -> is_Some (nodes v !! c);
  handles_ok : forall a h, nodes v !! a = Some (FileNode h) -> is_Some (files v !! h);
  nodes_below : forall a n, nodes v !! a = Some n -> a < next v;
  files_below : forall h f, files v !! h = Some f -> h < next v
}.

(** Depths under which every child is below its directory. *)
Definition graded (d : Z -> nat) (ns : gmap Z VfsNode) : Prop :=
  forall a ch p c, ns !! a = Some (Directory ch) -> ch !! p = Some c -> (d a < d c)%nat.

Definition acyclic (v : Vfs) : Prop := exists d, graded d (nodes v).

(** Every directory of [ns] is one of [ns'], with its children and more. *)
Definition grows (ns ns' : gmap Z VfsNode) : Prop :=
  forall a n, ns !! a = Some n ->
    match n with
    | Directory ch => exists ch', ns' !! a = Some (Directory ch') /\ ch ⊆ ch'
    | FileNode h => ns' !! a = Some (FileNode h)
    end.

Lemma grows_trans ns1 ns2 ns3 : grows ns1 ns2 -> grows ns2 ns3 -> grows ns1 ns3.
Proof.
  intros H1 H2 a n Ha. specialize (H1 a n Ha). destruct n as [ch|h].
  - destruct H1 as (ch2 & Ha2 & Hs). destruct (H2 a _ Ha2) as (ch3 & Ha3 & Hs').
    exists ch3. split; [done|]. by etransitivity.
  - apply (H2 a _ H1).
Qed.

Lemma walk_grows ns ns' parts : forall cur a,
  grows ns ns' -> walk ns cur parts = Ok a -> walk ns' cur parts = Ok a.
Proof.
  induction parts as [|p ps IH]; simpl; [done|]. intros cur a Hg.
  destruct (decide _); [by apply IH|]. destruct (ns !! cur) as [[ch|h]|] eqn:Hc; try done.
  destruct (Hg cur _ Hc) as (ch' & -> & Hs). destruct (ch !! p) as [x|] eqn:Hp; [|done].
  rewrite (lookup_weaken _ _ _ _ Hp Hs). by apply IH.
Qed.

(** Link a new node under a directory. *)
Definition link (cur : Z) (ch : gmap string Z) (p : string) (n : VfsNode) (v : Vfs) : Vfs :=
  set_node cur (Directory (<[p := next v]> ch)) (snd (alloc_node n v)).

Definition leaf_ok (n : VfsNode) (v : Vfs) : Prop :=
  match n with Directory ch => ch = ∅ | FileNode h => is_Some (files v !! h) end.

(** What a link leaves at each reference. *)
Lemma link_lookup cur ch p n v b :
  cur < next v ->
  nodes (link cur ch p n v) !! b =
    if decide (b = cur) then Some (Directory (<[p := next v]> ch))
    else if decide (b = next v) then Some n else nodes v !! b.
Proof.
  intros Hlt. simpl. destruct (decide (b = cur)) as [->|H1]; [by rewrite lookup_insert_eq|].
  rewrite lookup_insert_ne by done.
  destruct (decide (b = next v)) as [->|H2]; [by rewrite lookup_insert_eq|by rewrite lookup_insert_ne].
Qed.

Lemma link_ok cur ch p n v :
  vfs_ok v -> nodes v !! cur = Some (Directory ch) -> leaf_ok n v -> vfs_ok (link cur ch p n v).
Proof.
  intros [Hr Hch Hh Hn Hf] Hc Hl. assert (Hlt := Hn _ _ Hc).
  assert (Hall : forall b, is_Some (nodes v !! b) -> is_Some (nodes (link cur ch p n v) !! b)).
  { intros b Hb. rewrite link_lookup by done. by repeat destruct (decide _). }
  split.
  - destruct Hr as (r & rch & Hr & Hd). exists r. setoid_rewrite link_lookup; [|done..].
    assert (r <> next v) by (specialize (Hn _ _ Hd); lia).
    destruct (decide (r = cur)); [by eexists|]. rewrite decide_False by done. by exists rch.
  - intros a ach q c. rewrite link_lookup by done. destruct (decide (a = cur)) as [->|Hne].
    + intros [= <-]. intros [[<- <-]|[_ Hq]]%lookup_insert_Some; [|by apply Hall, (Hch cur ch q)].
      rewrite link_lookup by done. destruct (decide _); [done|]. by rewrite decide_True.
    + destruct (decide (a = next v)) as [->|Hne'].
      * intros [= ->] Hq. simpl in Hl. subst ach. done.
      * intros Ha Hq. by apply Hall, (Hch a ach q).
  - intros a h. rewrite link_lookup by done. destruct (decide (a = cur)); [done|].
    destruct (decide (a = next v)); [by intros [= ->]|apply Hh].
  - intros a n'. rewrite link_lookup by done. simpl.
    destruct (decide (a = cur)) as [->|]; [lia|]. destruct (decide (a = next v)) as [->|]; [lia|].
    intros Ha. specialize (Hn a n' Ha). lia.
  - intros h f Hx. specialize (Hf h f Hx). simpl. lia.
Qed.

Lemma link_graded d cur ch p n v :
  vfs_ok v -> graded d (nodes v) -> nodes v !! cur = Some (Directory ch) -> leaf_ok n v ->
  graded (fun b => if decide (b = next v) then S (d cur) else d b) (nodes (link cur ch p n v)).
Proof.
  intros [_ Hch _ Hn _] Hg Hc Hl a ach q c. assert (Hlt := Hn _ _ Hc).
  rewrite link_lookup by done. destruct (decide (a = cur)) as [->|Hne].
  - intros [= <-]. rewrite (decide_False (P := cur = next v)) by lia.
    intros [[<- <-]|[_ Hq]]%lookup_insert_Some; [rewrite decide_True by done; lia|].
    destruct (decide _); [lia|]. by apply (Hg cur ch q).
  - destruct (decide (a = next v)) as [->|Hne'].
    + intros [= ->] Hq. simpl in Hl. by subst ach.
    + intros Ha Hq. destruct (Hch a ach q c Ha Hq) as [x Hx]. specialize (Hn _ _ Hx).
      rewrite decide_False by lia. by apply (Hg a ach q).
Qed.

Lemma link_grows cur ch p n v :
  vfs_ok v -> nodes v !! cur = Some (Directory ch) -> ch !! p = None ->
  grows (nodes v) (nodes (link cur ch p n v)).
Proof.
  intros Hv Hc Hp a x Ha. assert (Hlt := nodes_below v Hv _ _ Hc).
  assert (a <> next v) by (specialize (nodes_below v Hv _ _ Ha); lia).
  destruct (decide (a = cur)) as [->|].
  - rewrite Hc in Ha. injection Ha as <-. eexists. rewrite link_lookup, decide_True by done.
    split; [done|]. by apply insert_subseteq.
  - assert (E : nodes (link cur ch p n v) !! a = nodes v !! a)
      by (rewrite link_lookup by done; by rewrite !decide_False).
    rewrite Ha in E. destruct x; [by eexists|done].
Qed.

Section Mount.

Context (h : Z).

Lemma mount_parts_cons cur p ps v :
  mount_parts cur (p :: ps) h v =
    match nodes v !! cur with
    | Some (Directory ch) =>
        match ps with
        | [] => link cur ch p (FileNode h) v
        | _ =>
            match ch !! p with
            | Some n => mount_parts n ps h v
            | None => mount_parts (next v) ps h (link cur ch p (Directory ∅) v)
            end
        end
    | _ => v
    end.
Proof. done. Qed.

Definition mount_inv (d : Z -> nat) (cur : Z) (v v' : Vfs) : Prop :=
  vfs_ok v' /\ root v' = root v /\ files v' = files v /\ next v <= next v' /\
  (exists d', graded d' (nodes v') /\ forall b, b < next v -> d' b = d b) /\
  (forall b, b < next v -> (d b < d cur)%nat -> nodes v' !! b = nodes v !! b).

Lemma link_inv d cur ch p n v :
  vfs_ok v -> graded d (nodes v) -> nodes v !! cur = Some (Directory ch) -> leaf_ok n v ->
  mount_inv d cur v (link cur ch p n v).
Proof.
  intros Hv Hg Hc Hl. assert (Hlt := nodes_below v Hv _ _ Hc).
  split; [by apply link_ok|]. do 2 (split; [done|]). split; [simpl; lia|]. split.
  - eexists. split; [by apply link_graded|]. intros b Hb. cbn beta. by rewrite decide_False by lia.
  - intros b Hb Hd. rewrite link_lookup by done. rewrite !decide_False; [done|lia|].
    intros ->. lia.
Qed.

Lemma mount_inv_trans d cur n v v1 v2 :
  mount_inv d cur v v1 -> (forall d1, graded d1 (nodes v1) -> (forall b, b < next v -> d1 b = d b) ->
    (d cur < d1 n)%nat /\ mount_inv d1 n v1 v2) ->
  mount_inv d cur v v2.
Proof.
  intros (_ & R1 & F1 & N1 & (d1 & G1 & A1) & L1) H.
  destruct (H d1 G1 A1) as (Hd & V2 & R2 & F2 & N2 & (d2 & G2 & A2) & L2).
  split; [done|]. split; [congruence|]. split; [congruence|]. split; [lia|]. split.
  - exists d2. split; [done|]. intros b Hb. rewrite A2, A1 by lia. done.
  - intros b Hb Hlt. rewrite L2, L1; [done|done|done|lia|]. rewrite A1 by done. lia.
Qed.

(** The loop keeps the tree a tree, and leaves every directory above its
    starting point alone. *)
Lemma mount_parts_inv parts : forall cur d v,
  vfs_ok v -> graded d (nodes v) -> is_Some (files v !! h) -> is_Some (nodes v !! cur) ->
  mount_inv d cur v (mount_parts cur parts h v).
Proof.
  assert (Hrefl : forall d cur v, vfs_ok v -> graded d (nodes v) -> mount_inv d cur v v).
  { intros d cur v Hv Hg. do 3 (split; [done|]). split; [lia|]. split; [by exists d|done]. }
  induction parts as [|p ps IH]; intros cur d v Hv Hg Hh Hcur; [by apply Hrefl|].
  rewrite mount_parts_cons. destruct (nodes v !! cur) as [[ch|hd]|] eqn:Hc; [|by apply Hrefl..].
  destruct ps as [|q ps]; [by apply link_inv|].
  destruct (ch !! p) as [n|] eqn:Hp.
  - apply (mount_inv_trans d cur n v v); [by apply Hrefl|]. intros d1 Hg1 Ha.
    split; [|apply IH; try done; by apply (children_ok v Hv cur ch p)].
    rewrite <- (Ha cur) by (by apply (nodes_below v Hv _ _ Hc)). by apply (Hg1 cur ch p).
  - set (v1 := link _ _ _ _ _).
    assert (Hlt := nodes_below v Hv _ _ Hc).
    apply (mount_inv_trans d cur (next v) v v1); [by apply link_inv|]. intros d1 Hg1 Ha. split.
    + rewrite <- (Ha cur) by done. apply (Hg1 cur (<[p := next v]> ch) p); [|by rewrite lookup_insert_eq].
      unfold v1. rewrite link_lookup by done. by rewrite decide_True.
    + apply IH; [by apply link_ok|done|done|]. unfold v1. rewrite link_lookup by done.
      rewrite decide_False by lia. by rewrite decide_True.
Qed.

(** Segments a resolution does not skip. *)
Definition named (parts : list string) : Prop :=
  Forall (fun p => p <> ""%string /\ p <> "."%string) parts.

Lemma walk_cons ns cur p ps :
  named (p :: ps) ->
  walk ns cur (p :: ps) =
    match ns !! cur with
    | Some (Directory ch) =>
        match ch !! p with Some n => walk ns n ps | None => Err (Other "File not found") end
    | Some (FileNode _) => Err (Other "Not a directory")
    | None => Fault
    end.
Proof. intros [[H1 H2] _]%Forall_cons. cbn [walk]. rewrite decide_False; [done|tauto]. Qed.

(** The loop's path leads to the new file. *)
Lemma mount_parts_walk parts : forall cur d v,
  vfs_ok v -> graded d (nodes v) -> is_Some (files v !! h) -> is_Some (nodes v !! cur) ->
  named parts -> parts <> [] -> walk (nodes v) cur parts <> Err (Other "Not a directory") ->
  let v' := mount_parts cur parts h v in
  exists a, walk (nodes v') cur parts = Ok a /\ nodes v' !! a = Some (FileNode h).
Proof.
  induction parts as [|p ps IH]; [done|]. intros cur d v Hv Hg Hh Hcur Hn _ Hw.
  cbn zeta. rewrite walk_cons in Hw |- * by done. rewrite mount_parts_cons.
  destruct (nodes v !! cur) as [[ch|hd]|] eqn:Hc; [|done|by destruct Hcur].
  assert (Hlt := nodes_below v Hv _ _ Hc). assert (Hns := Hn). apply Forall_cons in Hns as [_ Hns].
  destruct ps as [|q ps].
  { rewrite link_lookup, decide_True by done.
    rewrite lookup_insert_eq. cbn [walk]. exists (next v). split; [done|].
    rewrite link_lookup, decide_False, decide_True by (done || lia). done. }
  destruct (ch !! p) as [n|] eqn:Hp.
  - assert (Hnn := children_ok v Hv cur ch p n Hc Hp).
    destruct (mount_parts_inv (q :: ps) n d v Hv Hg Hh Hnn) as (_ & _ & _ & _ & _ & Hsame).
    rewrite Hsame by (try done; by apply (Hg cur ch p)). rewrite Hc, Hp. by apply (IH n d v).
  - set (v1 := link _ _ _ _ _).
    assert (Hv1 : vfs_ok v1) by (by apply link_ok).
    assert (Hg1 := link_graded d cur ch p (Directory ∅) v Hv Hg Hc eq_refl). fold v1 in Hg1.
    assert (Hc1 : nodes v1 !! cur = Some (Directory (<[p := next v]> ch)))
      by (unfold v1; rewrite link_lookup by done; by rewrite decide_True).
    assert (Hx1 : nodes v1 !! next v = Some (Directory ∅))
      by (unfold v1; rewrite link_lookup, decide_False, decide_True by (done || lia); done).
    edestruct (mount_parts_inv (q :: ps) (next v)) as (_ & _ & _ & _ & _ & Hsame);
      [exact Hv1|exact Hg1|done|by eexists|].
    rewrite Hsame; [|simpl; lia|cbn beta; rewrite decide_False, decide_True by (done || lia); lia].
    rewrite Hc1, lookup_insert_eq. eapply (IH (next v)); [exact Hv1|exact Hg1|done|by eexists|done|done|].
    by rewrite walk_cons, Hx1 by done.
Qed.

(** At a path with nothing there, the loop only adds. *)
Lemma mount_parts_grows parts : forall cur v,
  vfs_ok v -> is_Some (files v !! h) -> named parts ->
  walk (nodes v) cur parts = Err (Other "File not found") ->
  grows (nodes v) (nodes (mount_parts cur parts h v)).
Proof.
  induction parts as [|p ps IH]; [done|]. intros cur v Hv Hh Hn. rewrite walk_cons by done.
  rewrite mount_parts_cons. destruct (nodes v !! cur) as [[ch|hd]|] eqn:Hc; [|done..].
  assert (Hlt := nodes_below v Hv _ _ Hc). apply Forall_cons in Hn as [_ Hns].
  destruct (ch !! p) as [n|] eqn:Hp.
  - destruct ps as [|q ps]; [done|]. intros Hw. by apply IH.
  - intros _. destruct ps as [|q ps]; [by apply link_grows|].
    eapply grows_trans; [by apply (link_grows cur ch p (Directory ∅))|].
    apply IH; [by apply link_ok|done|done|]. rewrite walk_cons by done.
    rewrite link_lookup, decide_False, decide_True by (done || lia). done.
Qed.

End Mount.

(** ** Resolution *)

Lemma walk_filter ns parts : forall cur,
  walk ns cur (filter (fun s => s <> ""%string) parts) = walk ns cur parts.
Proof.
  induction parts as [|p ps IH]; intros cur; [done|]. rewrite filter_cons.
  destruct (decide (p <> ""%string)) as [Hp|Hp]; cbn [walk].
  - destruct (decide _); [apply IH|]. destruct (ns !! cur) as [[ch|]|]; try done.
    destruct (ch !! p); [apply IH|done].
  - rewrite decide_True by (left; by destruct (decide (p = ""%string))). apply IH.
Qed.

Lemma resolve_node_walk path v r :
  root v = Some r -> resolve_node path v = walk (nodes v) r (segments path).
Proof.
  intros Hr. unfold resolve_node, segments, get_root. rewrite Hr, walk_filter. simpl.
  destruct (decide _) as [->|]; done.
Qed.

Lemma segments_named path : ("." ∉ segments path)%string -> named (segments path).
Proof.
  intros Hd. apply Forall_forall. intros p Hp. split; [|by intros ->].
  by apply list_elem_of_filter in Hp as [? _].
Qed.

(** C33. Mounting a file at a path with no file in the way and no [.] segment
    succeeds: the path then resolves to a node for that file, through
    directories made on demand, and the tree stays a tree.  If nothing was at
    the path before, every path that resolved still resolves to the same
    node. *)
Theorem mount_spec path h v :
  vfs_ok v -> acyclic v -> is_Some (files v !! h) ->
  segments path <> [] -> ("." ∉ segments path)%string ->
  resolve_node path v <> Err (Other "Not a directory") ->
  let v' := mount path h v in
  vfs_ok v' /\ acyclic v' /\ handle_of path v' = Ok h /\
  (resolve_node path v = Err (Other "File not found") ->
   forall q a, resolve_node q v = Ok a -> resolve_node q v' = Ok a).
Proof.
  intros Hv [d Hd] Hh Hs Hdot Hw. destruct (root_ok v Hv) as (r & rch & Hr & Hrn).
  pose proof (segments_named path Hdot) as Hn. rewrite (resolve_node_walk path v r Hr) in *.
  assert (Em : mount path h v = mount_parts r (segments path) h v)
    by (unfold mount, init; by rewrite Hr, Hr). cbn zeta. rewrite Em.
  assert (Hrs : is_Some (nodes v !! r)) by (by eexists).
  destruct (mount_parts_inv h (segments path) r d v Hv Hd Hh Hrs)
    as (Hv' & Hr' & _ & _ & (d' & Hd' & _) & _). rewrite Hr in Hr'.
  split; [done|]. split; [by exists d'|]. split.
  - destruct (mount_parts_walk h (segments path) r d v) as (a & Ha & Hf); try done.
    unfold handle_of. rewrite (resolve_node_walk _ _ r) by done. rewrite Ha. simpl. by rewrite Hf.
  - intros Hnf q a Hq. rewrite (resolve_node_walk q _ r) in Hq by done. rewrite (resolve_node_walk q _ r) by done.
    eapply walk_grows; [|exact Hq]. by apply mount_parts_grows.
Qed.

(** ** Listing *)

(** The node a list of names leads to. *)
Fixpoint follow (ns : gmap Z VfsNode) (cur : Z) (names : list string) : option Z :=
  match names with
  | [] => Some cur
  | name :: rest =>
      match ns !! cur with
      | Some (Directory ch) => n ← ch !! name; follow ns n rest
      | _ => None
      end
  end.

Lemma sorted_children_spec ch name c : (name, c) ∈ sorted_children ch <-> ch !! name = Some c.
Proof. unfold sorted_children. rewrite merge_sort_Permutation. apply elem_of_map_to_list. Qed.

(** On a graded store the recursion ends: the directories on the way down are
    all different. *)
Lemma list_recursive_total d ns : graded d ns -> forall fuel (seen : gset Z) a prefix,
  (forall b, b ∈ seen -> (d b < d a)%nat) -> (base.size (dom ns ∖ seen) < fuel)%nat ->
  is_Some (list_recursive fuel ns a prefix).
Proof.
  intros Hg. induction fuel as [|fuel IH]; intros seen a prefix Hs Hf; [lia|].
  cbn [list_recursive]. destruct (ns !! a) as [[ch|]|] eqn:Ha; [|by eexists..].
  assert (Ha' : a ∈ dom ns ∖ seen).
  { apply elem_of_difference. split; [by apply elem_of_dom_2 in Ha|]. intros Hin.
    specialize (Hs a Hin). lia. }
  enough (is_Some (mapM (fun '(name, child) =>
      l ← list_recursive fuel ns child (child_path prefix name);
      Some (child_path prefix name :: l)) (sorted_children ch))) as [l ->] by (by eexists).
  apply mapM_is_Some, Forall_forall. intros [name c] Hc%sorted_children_spec.
  destruct (IH (seen ∪ {[a]}) c (child_path prefix name)) as [l Hl];
    [| |unfold compose; rewrite Hl; by eexists].
  - intros b [Hb| ->%elem_of_singleton]%elem_of_union; [|by apply (Hg a ch name)].
    specialize (Hs b Hb). specialize (Hg a ch name c Ha Hc). lia.
  - assert (base.size (dom ns ∖ (seen ∪ {[a]})) < base.size (dom ns ∖ seen))%nat; [|lia].
    apply subset_size. set_solver.
Qed.

(** The output: the paths of everything below the node. *)
Lemma list_recursive_spec ns fuel : forall a prefix l,
  list_recursive fuel ns a prefix = Some l -> forall p, p ∈ l <->
    exists names, names <> [] /\ p = foldl child_path prefix names /\ is_Some (follow ns a names).
Proof.
  induction fuel as [|fuel IH]; [done|]. intros a prefix l. cbn [list_recursive].
  destruct (ns !! a) as [[ch|]|] eqn:Ha.
  2,3: intros [= <-] p; split; [by intros ?%not_elem_of_nil|];
    intros ([|n ns'] & ? & _ & Hf); [done|]; cbn [follow] in Hf; rewrite Ha in Hf; by destruct Hf.
  destruct (mapM _ _) as [ls|] eqn:Em; [|done]. intros [= <-] p.
  apply mapM_Some in Em. rewrite list_elem_of_In, in_concat. setoid_rewrite <- list_elem_of_In. split.
  - intros (x & Hx & Hp). apply list_elem_of_lookup in Hx as [i Hx].
    destruct (Forall2_lookup_r _ _ _ _ _ Em Hx) as ([name c] & Hnc & E).
    apply list_elem_of_lookup_2, sorted_children_spec in Hnc.
    destruct (list_recursive fuel ns c _) as [l|] eqn:El; [|done]. injection E as <-.
    apply elem_of_cons in Hp as [->|Hp].
    + exists [name]. split; [done|]. split; [done|]. cbn [follow]. rewrite Ha, Hnc. by eexists.
    + apply (IH _ _ _ El) in Hp as (names & Hne & -> & Hf). exists (name :: names).
      split; [done|]. split; [done|]. cbn [follow]. by rewrite Ha, Hnc.
  - intros ([|name names] & Hne & -> & Hf); [done|]. cbn [follow] in Hf. rewrite Ha in Hf.
    destruct (ch !! name) as [c|] eqn:Hnc; [|by destruct Hf]. cbn in Hf.
    assert (Hin : (name, c) ∈ sorted_children ch) by (by apply sorted_children_spec).
    apply list_elem_of_lookup in Hin as [i Hi].
    destruct (Forall2_lookup_l _ _ _ _ _ Em Hi) as (x & Hx & E). exists x.
    split; [by eapply list_elem_of_lookup_2|].
    destruct (list_recursive fuel ns c _) as [l|] eqn:El; [|done]. injection E as <-.
    destruct names as [|n2 names]; [left|right]. apply (IH _ _ _ El). by exists (n2 :: names).
Qed.

(** On a tree without cycles the recursive listing ends, and it lists
    exactly the paths of the names below the root. *)
Theorem list_spec v r :
  acyclic v -> root v = Some r ->
  exists l, list_all v = Ok (Some l) /\
    forall p, p ∈ l <->
      exists names, names <> [] /\ p = foldl child_path "/" names /\
        is_Some (follow (nodes v) r names).
Proof.
  intros [d Hd] Hr. unfold list_all, get_root. rewrite Hr. cbn [mbind res_bind].
  destruct (list_recursive_total d (nodes v) Hd (S (base.size (nodes v))) ∅ r "/") as [l Hl].
  - set_solver.
  - rewrite difference_empty_L, size_dom. lia.
  - exists l. rewrite Hl. split; [done|]. by apply (list_recursive_spec (nodes v) (S (base.size (nodes v)))).
Qed.

(** ** Reading and writing *)

(** The whole of a RAM file in one read. *)
Lemma read_raw_all_contents path v h f :
  handle_of path v = Ok h -> files v !! h = Some (Ram f) ->
  read_raw_all path v = Some (Ok (data f)).
Proof.
  intros Hh Hf. assert (Hr : forall b o, read_raw path b o v = read f b o).
  { intros b o. unfold read_raw, file_at. rewrite Hh. simpl. by rewrite Hf. }
  assert (Hsz : file_size path v = Ok (Some (zlen (data f)))).
  { unfold handle_of in Hh. unfold file_size. destruct (resolve_node path v); try done.
    simpl in *. destruct (nodes v !! a) as [[|h']|]; try done. injection Hh as ->.
    unfold file_at. rewrite Hf.
    done. }
  unfold read_raw_all. rewrite Hsz. set (n := zlen (data f)).
  assert (Hz : zlen (zeros n) = n) by apply zlen_zeros, zlen_nonneg.
  destruct (Z.to_nat n) as [|fuel] eqn:En; cbn [read_all_loop].
  - destruct (Z.leb_spec n 0); [|lia]. change (Z.to_nat 0) with O. do 2 f_equal.
    symmetry. apply length_zero_iff_nil. unfold n, zlen in *. lia.
  - destruct (Z.leb_spec n 0); [lia|]. rewrite Hr. change (Z.to_nat 0) with O.
    rewrite drop_0, read_inside by (rewrite ?Hz; change (contents f) with (data f); unfold n; lia).
    rewrite Hz. change (contents f) with (data f). rewrite (sub_full (data f) : sub 0 n _ = _). cbn [take app]. destruct (Z.eqb_spec n 0); [lia|].
    change (take 0 (zeros n)) with (@nil Z). rewrite app_nil_l.
    assert (Ht : take (Z.to_nat (0 + n)) (data f) = data f)
      by (apply take_ge; unfold n, zlen; lia).
    destruct fuel; cbn [read_all_loop]; destruct (Z.leb_spec n (0 + n)); try lia; by rewrite Ht.
Qed.

(** C34. Writing to a RAM file through a path and reading back: the write is
    complete, a read of the same range through any path to the same file
    returns the bytes written, a read of another range of it or of any other
    file, whatever its type, is not affected, no path resolves differently,
    and reading the whole file returns the old contents with the bytes in
    place, any gap before them filled with zeros. *)
Theorem write_then_read path buf off v h f :
  handle_of path v = Ok h -> files v !! h = Some (Ram f) -> 0 <= off -> off + zlen buf < 2 ^ 63 ->
  exists v', write_raw path buf off v = (Ok (zlen buf), v') /\
    (forall q, resolve_node q v' = resolve_node q v) /\
    (forall q b, handle_of q v = Ok h -> zlen b = zlen buf -> read_raw q b off v' = Ok (zlen buf, buf)) /\
    (forall q b o, handle_of q v = Ok h -> 0 <= o -> o + zlen b <= zlen (data f) ->
      o + zlen b <= off \/ off + zlen buf <= o -> read_raw q b o v' = read_raw q b o v) /\
    (forall q b o, handle_of q v <> Ok h -> read_raw q b o v' = read_raw q b o v) /\
    read_raw_all path v' = Some (Ok (upd off buf (grow (off + zlen buf) (data f)))).
Proof.
  intros Hh Hf Hoff Hlim. destruct (read_after_write f buf off Hoff Hlim) as (f' & Hw & H1 & H2 & _).
  destruct (write_contents f buf off Hoff Hlim) as (f2 & Hw2 & Hc). rewrite Hw in Hw2.
  injection Hw2 as <-. exists (set_file h (Ram f') v).
  assert (Hn : files (set_file h (Ram f') v) !! h = Some (Ram f')) by (simpl; by rewrite lookup_insert_eq).
  assert (Hr : forall q b o w g, handle_of q w = Ok h -> files w !! h = Some (Ram g) ->
                 read_raw q b o w = read g b o).
  { intros q b o w g Hq Hg. unfold read_raw, file_at. rewrite Hq. simpl. by rewrite Hg. }
  split; [|split; [done|split; [|split; [|split]]]].
  - unfold write_raw, mbind, M_bind, get, lift, on_file. rewrite Hh, Hf. cbn [write any_file]. by rewrite Hw.
  - intros q b Hq Hb. rewrite (Hr _ _ _ _ f') by done. by apply H1.
  - intros q b o Hq Ho Hin Hdis. rewrite (Hr _ _ _ _ f'), (Hr _ _ _ _ f) by done. by apply H2.
  - intros q b o Hq. unfold read_raw. change (handle_of q (set_file h (Ram f') v)) with (handle_of q v).
    destruct (handle_of q v) as [h'| | |]; try done. simpl. unfold file_at. simpl.
    rewrite lookup_insert_ne by congruence. done.
  - rewrite (read_raw_all_contents path _ h f') by done. by rewrite (Hc : data f' = _).
Qed.

End Tree.

Arguments Vfs : clear implicits.

(** ** Concrete trees

    No files but RAM files, no disk and no schemes. *)
#[local] Instance demo_file : File Empty_set := {
  read := fun x => match x with end;
  write := fun x => match x with end;
  file_type := fun x => match x with end;
  size := fun x => match x with end;
  truncate := fun x => match x with end
}.

#[local] Instance demo_outside : Outside unit Empty_set := {
  create_file_on_disk := fun _ w => (Err "FAT32 filesystem not mounted"%string, w);
  unlink_on_disk := fun _ w => (Err "FAT32 filesystem not mounted"%string, w);
  rmdir_on_disk := fun _ w => (Err "FAT32 filesystem not mounted"%string, w);
  mkdir_on_disk := fun _ w => (Err "FAT32 filesystem not mounted"%string, w);
  registered := fun _ _ => false;
  scheme_open := fun _ _ _ w => (Err (Other "Scheme not found"), w);
  scheme_read := fun _ _ _ w => (Err (Other "Scheme not found"), w);
  scheme_write := fun _ _ _ w => (Err (Other "Scheme not found"), w);
  scheme_close := fun _ _ w => (Err (Other "Scheme not found"), w)
}.

(** An empty root with one RAM file (reference 2) not yet mounted. *)
Definition demo : Vfs Empty_set unit := snd (alloc_file (Ram (from_bytes [1; 2; 3])) (init (new tt))).

Lemma demo_nodes a n : nodes demo !! a = Some n -> a = 1 /\ n = Directory ∅.
Proof.
  change (nodes demo) with (<[1 := Directory ∅]> (∅ : gmap Z VfsNode)).
  intros [[<- <-]|[_ H]]%lookup_insert_Some; [done|by rewrite lookup_empty in H].
Qed.

Lemma vfs_demo_ok : vfs_ok demo /\ acyclic demo.
Proof.
  split; [split|].
  - by exists 1, ∅.
  - by intros a ch p c [_ [= ->]]%demo_nodes Hp.
  - by intros a h [_ ?]%demo_nodes.
  - intros a n [-> _]%demo_nodes. done.
  - intros h f. change (files demo) with (<[2 := Ram (from_bytes [1; 2; 3])]> (∅ : gmap Z (AnyFile Empty_set))).
    intros [[<- _]|[_ H]]%lookup_insert_Some; [done|by rewrite lookup_empty in H].
  - exists (fun _ => O). by intros a ch p c [_ [= ->]]%demo_nodes Hp.
Qed.

Lemma mount_spec_witness :
  handle_of "/bin/sh" (mount "/bin/sh" 2 demo) = Ok 2 /\ acyclic (mount "/bin/sh" 2 demo).
Proof.
  destruct (mount_spec "/bin/sh" 2 demo) as (_ & H1 & H2 & _);
    [apply vfs_demo_ok|apply vfs_demo_ok|by eexists|by vm_compute|exact (bool_decide_unpack ("." ∉ segments "/bin/sh")%string I)|
     by vm_compute|].
  by split.
Defined.

Lemma write_then_read_witness :
  exists v', write_raw "/bin/sh" [7; 8] 1 (mount "/bin/sh" 2 demo) = (Ok 2, v') /\
    read_raw_all "/bin/sh" v' = Some (Ok [1; 7; 8]).
Proof.
  destruct (write_then_read "/bin/sh" [7; 8] 1 (mount "/bin/sh" 2 demo) 2
              (from_bytes [1; 2; 3])) as (v' & H1 & _ & _ & _ & _ & H2);
    [by vm_compute|by vm_compute|lia|by vm_compute|].
  exists v'. split; [exact H1|exact H2].
Defined.

Lemma list_spec_witness :
  exists l, list_all demo = Ok (Some l) /\ ("/bin" ∉ l)%string.
Proof.
  destruct (list_spec demo 1) as (l & H1 & H2); [apply vfs_demo_ok|reflexivity|].
  exists l. split; [exact H1|]. vm_compute in H1. injection H1 as <-. by apply not_elem_of_nil.
Defined.

(** ** Renaming *)

(** Renaming a file to a path below another file reports success and loses
    the file: neither path resolves afterwards. *)
Lemma rename_loses_file :
  let v := mount "/x" 2 (mount "/f" 2 demo) in
  let '(r, v') := rename "/f" "/x/g" v in
  r = Ok tt /\ handle_of "/f" v = Ok 2 /\
  exists_path "/f" v' = Ok false /\ exists_path "/x/g" v' = Ok false.
Proof. by vm_compute. Qed.

(** Renaming a directory to a path inside itself, written with a trailing
    slash, leaves it linked under its old name and under itself: the tree has
    a cycle, and the recursive listing never ends. *)
Lemma rename_makes_cycle :
  let v' := snd (rename "/a/" "/a/b" (snd (mkdir "/a" demo))) in
  fst (rename "/a/" "/a/b" (snd (mkdir "/a" demo))) = Ok tt /\
  resolve_node "/a/b" v' = resolve_node "/a" v' /\
  forall fuel, list_recursive fuel (nodes v') 1 "/" = None.
Proof.
  cbn zeta. set (v' := snd (rename "/a/" "/a/b" _)). split; [by vm_compute|].
  split; [by vm_compute|].
  assert (H1 : nodes v' !! 1 = Some (Directory {["a"%string := 3]})) by (by vm_compute).
  assert (H3 : nodes v' !! 3 = Some (Directory {["b"%string := 3]})) by (by vm_compute).
  assert (Hin : forall fuel prefix, list_recursive fuel (nodes v') 3 prefix = None).
  { induction fuel as [|fuel IH]; intros prefix; [done|]. cbn [list_recursive]. rewrite H3.
    change (sorted_children {["b"%string := 3]}) with [("b"%string, 3)]. cbn [mapM].
    by rewrite IH. }
  intros [|fuel]; [done|]. cbn [list_recursive]. rewrite H1.
  change (sorted_children {["a"%string := 3]}) with [("a"%string, 3)]. cbn [mapM]. by rewrite Hin.
Qed.

End Vfs.
