(* ===== verification/Zig.v ===== *)
(** * Kernel operations in Zig

    The routines of [src/zig/kernel_ops.zig] that the file system calls,
    behind the wrappers of [src/zig_kernel_ops.rs].  They take raw pointers:
    reading outside the buffer is a fault. *)

From S2P Require Import Prelude Bytes.

Module Zig.

(** Bit [i] of a bitmap. *)
Definition bit (bitmap : list Z) (i : Z) : bool :=
  Z.testbit (default 0 (bitmap !! Z.to_nat (i / 8))) (i mod 8).

(** The scan of [zig_bitmap_find_clear] over the next [n] bits from [i]. *)
Fixpoint find_clear (n : nat) (bitmap : list Z) (i : Z) : option Z :=
  match n with
  | O => None
  | S n => if bit bitmap i then find_clear n bitmap (i + 1) else Some i
  end.

Definition bitmap_find_clear (bitmap : list Z) (start_bit : Z) : option Z :=
  find_clear (Z.to_nat (zlen bitmap * 8 - start_bit)) bitmap start_bit.

(** One bit of the reflected CRC-32 polynomial division. *)
Definition crc32_bit (c : Z) : Z :=
  if Z.odd c then Z.lxor (Z.shiftr c 1) 0xEDB88320 else Z.shiftr c 1.

(** The entry of the table for an index, built at compile time. *)
Definition crc32_byte (c : Z) : Z := Nat.iter 8 crc32_bit c.

Definition crc32_step (crc b : Z) : Z :=
  Z.lxor (Z.shiftr crc 8) (crc32_byte (Z.lxor (Z.land crc 0xFF) b)).

(** [~] on 32 bits. *)
Definition not_u32 (z : Z) : Z := Z.lxor (2 ^ 32 - 1) z.

Definition crc32 (data : list Z) : Z := not_u32 (foldl crc32_step (not_u32 0) data).

(** [zig_inode_find_free]: the first slot, from [i], whose first byte is 0. *)
Fixpoint inode_scan {E} (n : nat) (buf : list Z) (stride i : Z) : res E (option Z) :=
  match n with
  | O => Ok None
  | S n =>
      match buf !! Z.to_nat (i * stride) with
      | Some b => if b =? 0 then Ok (Some i) else inode_scan n buf stride (i + 1)
      | None => Fault
      end
  end.

Definition inode_find_free {E} (buf : list Z) (count stride start_id : Z) : res E (option Z) :=
  inode_scan (Z.to_nat (count - start_id)) buf stride start_id.

(** Bits set in the first bitmap and not in the second. *)
Definition bitmap_count_leaked {E} (bitmap reachable : list Z) (start_bit end_bit : Z) : res E Z :=
  if decide (start_bit < end_bit /\ Z.min (zlen bitmap) (zlen reachable) * 8 < end_bit) then Fault
  else Ok (zlen (filter (fun i => bit bitmap i = true /\ bit reachable i = false)
                   (seqZ start_bit (end_bit - start_bit)))).

(** Ones' complement sum of big-endian words, the last byte padded. *)
Fixpoint sum_words (data : list Z) : Z :=
  match data with
  | a :: b :: rest => Z.shiftl a 8 + b + sum_words rest
  | [a] => Z.shiftl a 8
  | [] => 0
  end.

(** The folding loop on a sum below 2^32 ends after two rounds. *)
Definition fold16 (sum : Z) : Z := Z.land sum 0xFFFF + Z.shiftr sum 16.

Definition inet_checksum (data : list Z) : Z :=
  let s := fold16 (fold16 (sum_words data)) in
  Z.land (not_u32 s) 0xFFFF.

Definition packet_copy (dst src : list Z) : Z * list Z :=
  let copy_len := Z.min (zlen src) (zlen dst) in
  (copy_len, upd 0 (take (Z.to_nat copy_len) src) dst).

(** ** Bitmap scans *)

Lemma find_clear_Some n bitmap : forall i b, find_clear n bitmap i = Some b ->
  i <= b < i + Z.of_nat n /\ bit bitmap b = false /\
  forall j, i <= j < b -> bit bitmap j = true.
Proof.
  induction n as [|n IH]; [done|]. intros i b. cbn [find_clear].
  destruct (bit bitmap i) eqn:Hb.
  - intros (H1 & H2 & H3)%IH. split; [lia|]. split; [done|]. intros j Hj.
    destruct (decide (j = i)) as [->|]; [done|]. apply H3. lia.
  - intros [= <-]. split; [lia|]. split; [done|]. intros j Hj. lia.
Qed.

Lemma find_clear_None n bitmap : forall i, find_clear n bitmap i = None ->
  forall j, i <= j < i + Z.of_nat n -> bit bitmap j = true.
Proof.
  induction n as [|n IH]; intros i; [lia|]. cbn [find_clear]. destruct (bit bitmap i) eqn:Hb; [|done].
  intros Hn j Hj. destruct (decide (j = i)) as [->|]; [done|]. apply (IH (i + 1)); [done|lia].
Qed.

Lemma bitmap_find_clear_spec bitmap start :
  0 <= start ->
  match bitmap_find_clear bitmap start with
  | Some b => start <= b < zlen bitmap * 8 /\ bit bitmap b = false /\
      forall j, start <= j < b -> bit bitmap j = true
  | None => forall j, start <= j < zlen bitmap * 8 -> bit bitmap j = true
  end.
Proof.
  intros Hs. unfold bitmap_find_clear. pose proof (zlen_nonneg bitmap).
  destruct (find_clear _ _ _) as [b|] eqn:Hf.
  - apply find_clear_Some in Hf as (H1 & H2 & H3). split; [lia|done].
  - intros j Hj. eapply find_clear_None; [exact Hf|lia].
Qed.

(** ** CRC-32 stays in 32 bits *)

Lemma crc32_bit_fits c : fits 32 c -> fits 32 (crc32_bit c).
Proof.
  intros Hc. assert (fits 32 (Z.shiftr c 1)) by (by apply shiftr_fits).
  unfold crc32_bit. destruct (Z.odd c); [|done]. apply lxor_fits; [lia|done|]. by split.
Qed.

Lemma crc32_byte_fits c : fits 32 c -> fits 32 (crc32_byte c).
Proof. intros Hc. unfold crc32_byte. cbn [Nat.iter nat_rect]. by repeat apply crc32_bit_fits. Qed.

Lemma crc32_step_fits crc b : fits 32 crc -> is_byte b -> fits 32 (crc32_step crc b).
Proof.
  intros Hc Hb. unfold crc32_step. apply lxor_fits; [lia|by apply shiftr_fits|].
  apply crc32_byte_fits. assert (fits 8 (Z.lxor (Z.land crc 0xFF) b)) as [? ?].
  { apply lxor_fits; [lia| |done]. change 0xFF with (Z.ones 8). rewrite Z.land_ones by lia.
    apply Z.mod_pos_bound. lia. }
  split; lia.
Qed.

Lemma crc32_fits data : Forall is_byte data -> fits 32 (crc32 data).
Proof.
  intros Hd. unfold crc32. assert (Hn : forall z, fits 32 z -> fits 32 (not_u32 z)).
  { intros z Hz. apply lxor_fits; [lia|by split|done]. }
  apply Hn. assert (H0 : fits 32 (not_u32 0)) by (by split). revert H0. generalize (not_u32 0).
  induction Hd as [|b data Hb Hd IH]; intros crc Hc; [done|]. simpl. by apply IH, crc32_step_fits.
Qed.

End Zig.
