(* ===== verification/ZfsBlock.v ===== *)
(** * ZiqaFS: the disk and the block layer

    The constants and superblock of [src/fs/ziqafs/types.rs], and the block and
    bitmap functions of [src/fs/ziqafs/block.rs]. *)

From S2P Require Import Prelude Bytes Abi Disk Zig.
Import Disk.

Module ZfsBlock.

Definition BLOCK_SIZE : Z := 4096.
Definition SECTOR_SIZE : Z := 512.
Definition SECTORS_PER_BLOCK : Z := BLOCK_SIZE / SECTOR_SIZE.
Definition MAGIC : Z := 0x21514146.
Definition SUPERBLOCK_BLOCK : Z := 1.
Definition BITMAP_BLOCK : Z := 2.
Definition INODE_TABLE_BLOCK : Z := 3.
Definition JOURNAL_BLOCK : Z := 4.
Definition FIRST_DATA_BLOCK : Z := 5.
Definition INODE_COUNT : Z := 32.
Definition BMAP_CLEAN : Z := 0.
Definition BMAP_DIRTY : Z := 1.

Record Superblock := mkSb {
  magic : Z;
  total_blocks : Z;
  inode_count : Z;
  first_data_block : Z;
  block_size : Z;
  flags : Z;
  free_blocks : Z;
  free_inodes : Z;
  sb_reserved : list Z   (* [u8; 20] *)
}.

Definition set_free_blocks (n : Z) (sb : Superblock) : Superblock :=
  mkSb (magic sb) (total_blocks sb) (inode_count sb) (first_data_block sb) (block_size sb) (flags sb)
    n (free_inodes sb) (sb_reserved sb).

Definition set_free_inodes (n : Z) (sb : Superblock) : Superblock :=
  mkSb (magic sb) (total_blocks sb) (inode_count sb) (first_data_block sb) (block_size sb) (flags sb)
    (free_blocks sb) n (sb_reserved sb).

Definition set_flags (n : Z) (sb : Superblock) : Superblock :=
  mkSb (magic sb) (total_blocks sb) (inode_count sb) (first_data_block sb) (block_size sb) n
    (free_blocks sb) (free_inodes sb) (sb_reserved sb).

(** The superblock's bytes in memory and on disk. *)
Definition sb_bytes (sb : Superblock) : list Z :=
  le_bytes 4 (magic sb) ++ le_bytes 4 (total_blocks sb) ++ le_bytes 4 (inode_count sb) ++
  le_bytes 4 (first_data_block sb) ++ le_bytes 4 (block_size sb) ++ le_bytes 4 (flags sb) ++
  le_bytes 4 (free_blocks sb) ++ le_bytes 4 (free_inodes sb) ++ sb_reserved sb.

Definition sb_of_bytes (bs : list Z) : Superblock :=
  let w off := le_word (sub off 4 bs) in
  mkSb (w 0) (w 4) (w 8) (w 12) (w 16) (w 20) (w 24) (w 28) (sub 32 20 bs).

(** The [u32] at a byte offset of a block. *)
Definition u32_at (off : Z) (buf : list Z) : Z := le_word (sub off 4 buf).

(** [saturating_sub] and [saturating_add] of 1 on [u32]. *)
Definition sat_dec (n : Z) : Z := Z.max 0 (n - 1).
Definition sat_inc (n : Z) : Z := Z.min (2 ^ 32 - 1) (n + 1).

Definition zero_block : list Z := zeros BLOCK_SIZE.

Definition set_bitmap_bit {E} (buf : list Z) (block : Z) : res E (list Z) :=
  x ← index buf (block / 8);
  Ok (<[Z.to_nat (block / 8) := Z.lor x (Z.shiftl 1 (block mod 8))]> buf).

(** [!] on [u8]. *)
Definition not_u8 (z : Z) : Z := Z.lxor 255 z.

Definition clear_bitmap_bit {E} (buf : list Z) (block : Z) : res E (list Z) :=
  x ← index buf (block / 8);
  Ok (<[Z.to_nat (block / 8) := Z.land x (not_u8 (Z.shiftl 1 (block mod 8)))]> buf).

Definition test_bitmap_bit {E} (buf : list Z) (block : Z) : res E bool :=
  x ← index buf (block / 8);
  Ok (negb (Z.land (Z.shiftr x (block mod 8)) 1 =? 0)).

(** ** Bits of a bitmap *)

Lemma bit_insert buf b c x :
  0 <= b -> 0 <= c -> b / 8 < zlen buf ->
  Zig.bit (<[Z.to_nat (b / 8) := x]> buf) c =
    if decide (c / 8 = b / 8) then Z.testbit x (c mod 8) else Zig.bit buf c.
Proof.
  intros Hb Hc Hl. unfold Zig.bit. destruct (decide (c / 8 = b / 8)) as [->|Hne].
  - rewrite list_lookup_insert_eq; [done|]. unfold zlen in Hl.
    pose proof (Z.div_pos b 8 Hb). lia.
  - rewrite list_lookup_insert_ne; [done|]. pose proof (Z.div_pos b 8 Hb).
    pose proof (Z.div_pos c 8 Hc). lia.
Qed.

Lemma same_bit b c : c / 8 = b / 8 -> c mod 8 = b mod 8 <-> c = b.
Proof. intros H. pose proof (Z.div_mod c 8). pose proof (Z.div_mod b 8). split; [lia|congruence]. Qed.

Lemma set_bitmap_bit_spec {E} buf b :
  0 <= b < zlen buf * 8 ->
  exists buf', set_bitmap_bit (E:=E) buf b = Ok buf' /\ zlen buf' = zlen buf /\
    (Forall is_byte buf -> Forall is_byte buf') /\
    forall c, 0 <= c -> Zig.bit buf' c = bool_decide (c = b) || Zig.bit buf c.
Proof.
  intros Hb. assert (Hk : 0 <= b / 8 < zlen buf).
  { split; [apply Z.div_pos; lia|apply Z.div_lt_upper_bound; lia]. }
  destruct (index_lookup (E:=E) buf (b / 8) Hk) as (x & Hx & Hi). unfold set_bitmap_bit. rewrite Hi.
  eexists. split; [done|]. split; [unfold zlen; by rewrite length_insert|]. split.
  { intros HF. apply Forall_insert; [done|]. pose proof (Z.mod_pos_bound b 8).
    apply (lor_fits 8); [lia|by apply (Forall_lookup_1 _ _ _ _ HF Hx)|]. rewrite Z.shiftl_1_l.
    split; [lia|]. apply Z.pow_lt_mono_r; lia. }
  intros c Hc.
  rewrite bit_insert by lia. destruct (decide (c / 8 = b / 8)) as [He|Hne].
  - unfold Zig.bit. rewrite He, Hx. cbn [default from_option].
    rewrite Z.lor_spec, Z.shiftl_1_l, Z.pow2_bits_eqb by (apply Z.mod_pos_bound; lia).
    rewrite orb_comm. f_equal. apply eq_bool_prop_intro. rewrite bool_decide_spec, Is_true_true, Z.eqb_eq.
    rewrite <- (same_bit b c He). split; congruence.
  - rewrite bool_decide_eq_false_2; [done|congruence].
Qed.

Lemma clear_bitmap_bit_spec {E} buf b :
  0 <= b < zlen buf * 8 ->
  exists buf', clear_bitmap_bit (E:=E) buf b = Ok buf' /\ zlen buf' = zlen buf /\
    (Forall is_byte buf -> Forall is_byte buf') /\
    forall c, 0 <= c -> Zig.bit buf' c = negb (bool_decide (c = b)) && Zig.bit buf c.
Proof.
  intros Hb. assert (Hk : 0 <= b / 8 < zlen buf).
  { split; [apply Z.div_pos; lia|apply Z.div_lt_upper_bound; lia]. }
  destruct (index_lookup (E:=E) buf (b / 8) Hk) as (x & Hx & Hi). unfold clear_bitmap_bit. rewrite Hi.
  eexists. split; [done|]. split; [unfold zlen; by rewrite length_insert|]. split.
  { intros HF. apply Forall_insert; [done|]. apply (land_fits 8); [lia|].
    by apply (Forall_lookup_1 _ _ _ _ HF Hx). }
  intros c Hc.
  rewrite bit_insert by lia. destruct (decide (c / 8 = b / 8)) as [He|Hne].
  - unfold Zig.bit. rewrite He, Hx. cbn [default from_option]. pose proof (Z.mod_pos_bound c 8).
    pose proof (Z.mod_pos_bound b 8). unfold not_u8. change 255 with (Z.ones 8).
    rewrite Z.land_spec, Z.lxor_spec, Z.shiftl_1_l, Z.pow2_bits_eqb, Z.ones_spec_low by lia.
    rewrite andb_comm. f_equal. rewrite xorb_true_l. f_equal.
    apply eq_bool_prop_intro. rewrite bool_decide_spec, Is_true_true, Z.eqb_eq.
    rewrite <- (same_bit b c He). split; congruence.
  - rewrite bool_decide_eq_false_2; [done|congruence].
Qed.

Section Block.

Context {D : Type} {bd : BlockDevice D}.

(** The device with the superblock in memory, which the functions update
    together. *)
Record Fs := mkFs { device : D; sb : Superblock }.

Definition set_sb (f : Superblock -> Superblock) (s : Fs) : Fs := mkFs (device s) (f (sb s)).

(** [read_blocks] into a buffer of [buf_len] bytes. *)
Definition read_blocks (block count buf_len : Z) (d : D) : res AbiError (list Z) :=
  let sector := block * SECTORS_PER_BLOCK in
  let n := count * SECTORS_PER_BLOCK in
  if buf_len <? n * SECTOR_SIZE then Err OutOfBounds else read_sectors sector n d.

Definition write_blocks (block count : Z) (buf : list Z) (d : D) : res AbiError unit * D :=
  let sector := block * SECTORS_PER_BLOCK in
  let n := count * SECTORS_PER_BLOCK in
  if zlen buf <? n * SECTOR_SIZE then (Err OutOfBounds, d) else write_sectors sector n buf d.

Definition read_block (block : Z) (d : D) : res AbiError (list Z) := read_blocks block 1 BLOCK_SIZE d.

(** The device calls as steps on the file system's state. *)
Definition read_blk (block : Z) : M Fs AbiError (list Z) := fun s =>
  (read_block block (device s), s).

Definition write_block (block : Z) (buf : list Z) : M Fs AbiError unit := fun s =>
  let '(r, d) := write_blocks block 1 buf (device s) in (r, mkFs d (sb s)).

Definition alloc_data_block : M Fs AbiError Z :=
  bitmap ← read_blk BITMAP_BLOCK;
  s ← get;
  match Zig.bitmap_find_clear bitmap (first_data_block (sb s)) with
  | Some b =>
      if b <? total_blocks (sb s) then
        bitmap' ← lift (set_bitmap_bit bitmap b);
        _ ← write_block BITMAP_BLOCK bitmap';
        _ ← write_block b zero_block;
        _ ← modify (set_sb (fun x => set_free_blocks (sat_dec (free_blocks x)) x));
        mret b
      else throw (Other "No free blocks")
  | None => throw (Other "No free blocks")
  end.

Definition free_data_block (block : Z) : M Fs AbiError unit :=
  s ← get;
  if (block <? first_data_block (sb s)) || (total_blocks (sb s) <=? block) then throw OutOfBounds
  else
    bitmap ← read_blk BITMAP_BLOCK;
    bitmap' ← lift (clear_bitmap_bit bitmap block);
    _ ← write_block BITMAP_BLOCK bitmap';
    modify (set_sb (fun x => set_free_blocks (sat_inc (free_blocks x)) x)).

Definition patch_bitmap_byte (offset value : Z) : M Fs AbiError unit :=
  bitmap ← read_blk BITMAP_BLOCK;
  _ ← lift (index bitmap offset);
  write_block BITMAP_BLOCK (<[Z.to_nat offset := value]> bitmap).

Definition flush_superblock : M Fs AbiError unit :=
  s ← get;
  write_block SUPERBLOCK_BLOCK (upd 0 (sb_bytes (sb s)) zero_block).

(** ** Blocks of a working disk *)

Context {ds : DiskSpec D}.

Definition block (d : D) (b : Z) : list Z :=
  concat (map (fun i => sector d (b * 8 + i)) [0; 1; 2; 3; 4; 5; 6; 7]).

(** The disk has block [b]. *)
Definition on_disk (d : D) (b : Z) : Prop := 0 <= b /\ b * 8 + 8 <= total_sectors d.

Lemma block_len d b : zlen (block d b) = 4096.
Proof. unfold block. cbn [map concat]. rewrite !zlen_app, !sector_len. done. Qed.

Lemma block_bytes d b : Forall is_byte (block d b).
Proof. unfold block. apply Forall_concat, Forall_map, Forall_true. intros i. apply sector_bytes. Qed.

Lemma read_block_ok d b : on_disk d b -> read_block b d = Ok (block d b).
Proof.
  intros [H1 H2]. unfold read_block, read_blocks. change (1 * SECTORS_PER_BLOCK) with 8.
  change (BLOCK_SIZE <? 8 * SECTOR_SIZE) with false. cbn iota.
  change SECTORS_PER_BLOCK with 8. rewrite read_sectors_ok by lia. f_equal. unfold block.
  change [0; 1; 2; 3; 4; 5; 6; 7] with (seqZ 0 8). replace (b * 8) with (b * 8 + 0) at 1 by lia.
  rewrite <- fmap_add_seqZ. by rewrite <- list_fmap_compose.
Qed.

(** What one device write changes. *)
Lemma write_block_ok s b buf :
  on_disk (device s) b -> zlen buf = 4096 -> Forall is_byte buf ->
  exists s', write_block b buf s = (Ok tt, s') /\ sb s' = sb s /\
    total_sectors (device s') = total_sectors (device s) /\
    forall c, block (device s') c = if decide (c = b) then buf else block (device s) c.
Proof.
  intros [H1 H2] Hl Hby. unfold write_block, write_blocks. change (1 * SECTORS_PER_BLOCK) with 8.
  change (8 * SECTOR_SIZE) with 4096. rewrite (proj2 (Z.ltb_ge _ _)) by lia.
  change SECTORS_PER_BLOCK with 8.
  destruct (write_sectors_ok (device s) (b * 8) 8 buf) as (d' & -> & Ht & Hk); [lia..|done|].
  eexists. split; [done|]. split; [done|]. split; [done|]. intros c. simpl. unfold block.
  destruct (decide (c = b)) as [->|Hne].
  - cbn [map concat]. rewrite !Hk, !decide_True by lia. rewrite app_nil_r.
    rewrite <- (sub_full buf) at 9. rewrite Hl.
    replace (b * 8 + 0 - b * 8) with 0 by lia. replace (b * 8 + 1 - b * 8) with 1 by lia.
    replace (b * 8 + 2 - b * 8) with 2 by lia. replace (b * 8 + 3 - b * 8) with 3 by lia.
    replace (b * 8 + 4 - b * 8) with 4 by lia. replace (b * 8 + 5 - b * 8) with 5 by lia.
    replace (b * 8 + 6 - b * 8) with 6 by lia. replace (b * 8 + 7 - b * 8) with 7 by lia.
    change 4096 with (512 + (512 + (512 + (512 + (512 + (512 + (512 + 512))))))).
    by rewrite !sub_app by lia.
  - f_equal. apply map_ext_in. intros i Hi. rewrite Hk. rewrite decide_False; [done|].
    simpl in Hi. lia.
Qed.

(** ** The block allocator *)

(** The metadata blocks and the data blocks are on the disk, and the bitmap
    has a bit for each. *)
Record layout_ok (s : Fs) : Prop := {
  disk_room : total_blocks (sb s) * 8 <= total_sectors (device s);
  data_start : 5 <= first_data_block (sb s) <= total_blocks (sb s);
  bitmap_room : total_blocks (sb s) <= 32768
}.

Definition used (s : Fs) (b : Z) : Prop := Zig.bit (block (device s) BITMAP_BLOCK) b = true.

Lemma layout_on_disk s b : layout_ok s -> 0 <= b < total_blocks (sb s) -> on_disk (device s) b.
Proof. intros [? ? ?] Hb. split; lia. Qed.

Lemma layout_meta s b : layout_ok s -> 0 <= b < 5 -> on_disk (device s) b.
Proof. intros Hl Hb. apply layout_on_disk; [done|]. destruct Hl. lia. Qed.

Lemma read_blk_ok s b : on_disk (device s) b -> read_blk b s = (Ok (block (device s) b), s).
Proof. intros Hb. unfold read_blk. by rewrite read_block_ok. Qed.

(** The state kept its layout: same geometry, same superblock but for the
    counters. *)
Definition same_layout (s s' : Fs) : Prop :=
  total_sectors (device s') = total_sectors (device s) /\
  total_blocks (sb s') = total_blocks (sb s) /\
  first_data_block (sb s') = first_data_block (sb s) /\
  sb_reserved (sb s') = sb_reserved (sb s).

Lemma same_layout_ok s s' : same_layout s s' -> layout_ok s -> layout_ok s'.
Proof. intros (H1 & H2 & H3 & _) [? ? ?]. split; congruence || (rewrite ?H1, ?H2, ?H3; lia). Qed.

#[global] Instance same_layout_po : PreOrder same_layout.
Proof.
  split; [done|]. intros s1 s2 s3 (? & ? & ? & ?) (? & ? & ? & ?). split_and!; congruence.
Qed.

Lemma alloc_data_block_ok s :
  layout_ok s ->
  match alloc_data_block s with
  | (Ok b, s') =>
      first_data_block (sb s) <= b < total_blocks (sb s) /\ ~ used s b /\
      (forall c, first_data_block (sb s) <= c < b -> used s c) /\
      (forall c, 0 <= c -> used s' c <-> c = b \/ used s c) /\
      (forall c, c <> BITMAP_BLOCK -> block (device s') c =
         if decide (c = b) then zero_block else block (device s) c) /\
      same_layout s s' /\ sb s' = set_free_blocks (sat_dec (free_blocks (sb s))) (sb s)
  | (Err e, s') => e = Other "No free blocks" /\ s' = s /\
      forall c, first_data_block (sb s) <= c < total_blocks (sb s) -> used s c
  | _ => False
  end.
Proof.
  intros Hl. pose proof Hl as [Hd Hs Hb]. unfold alloc_data_block, mbind, M_bind, get, lift, throw, modify, mret, M_ret.
  rewrite read_blk_ok by (apply layout_meta; [done|unfold BITMAP_BLOCK; lia]).
  set (bm := block (device s) BITMAP_BLOCK). assert (Hbm : zlen bm = 4096) by apply block_len.
  pose proof (Zig.bitmap_find_clear_spec bm (first_data_block (sb s)) ltac:(lia)) as Hf.
  destruct (Zig.bitmap_find_clear bm _) as [b|].
  2: { do 2 (split; [done|]). intros c Hc. apply Hf. lia. }
  destruct Hf as (Hr & Hclear & Hall). destruct (Z.ltb_spec b (total_blocks (sb s))) as [Hlt|Hge].
  2: { do 2 (split; [done|]). intros c Hc. apply Hall. lia. }
  destruct (set_bitmap_bit_spec (E:=AbiError) bm b) as (bm' & -> & Hlen & Hby & Hbits); [lia|].
  destruct (write_block_ok s BITMAP_BLOCK bm') as (s1 & -> & Hsb1 & Ht1 & Hw1);
    [apply layout_meta; [done|unfold BITMAP_BLOCK; lia]|lia|by apply Hby, block_bytes|].
  assert (Hne : b <> BITMAP_BLOCK) by (unfold BITMAP_BLOCK; lia).
  destruct (write_block_ok s1 b zero_block) as (s2 & -> & Hsb2 & Ht2 & Hw2);
    [split; lia|done|apply zeros_bytes|].
  split; [lia|]. split; [unfold used; fold bm; by rewrite Hclear|]. split; [done|].
  split; [|split; [|split]].
  - intros c Hc. unfold used. cbn [device set_sb]. rewrite Hw2, decide_False by congruence.
    rewrite Hw1, decide_True by done. rewrite (Hbits c Hc). fold bm. rewrite orb_true_iff.
    by rewrite bool_decide_eq_true.
  - intros c Hc. cbn [device set_sb]. rewrite Hw2. destruct (decide (c = b)); [done|].
    rewrite Hw1. by rewrite decide_False.
  - split_and!; cbn; congruence.
  - cbn [sb set_sb]. by rewrite Hsb2, Hsb1.
Qed.

Lemma free_data_block_ok s b :
  layout_ok s -> first_data_block (sb s) <= b < total_blocks (sb s) ->
  exists s', free_data_block b s = (Ok tt, s') /\
    (forall c, 0 <= c -> used s' c <-> c <> b /\ used s c) /\
    (forall c, c <> BITMAP_BLOCK -> block (device s') c = block (device s) c) /\
    same_layout s s' /\ sb s' = set_free_blocks (sat_inc (free_blocks (sb s))) (sb s).
Proof.
  intros Hl Hr. pose proof Hl as [Hd Hs Hb]. unfold free_data_block, mbind, M_bind, get, lift, throw, modify.
  rewrite (proj2 (orb_false_iff _ _)) by (split; [apply Z.ltb_ge|apply Z.leb_gt]; lia).
  rewrite read_blk_ok by (apply layout_meta; [done|unfold BITMAP_BLOCK; lia]).
  set (bm := block (device s) BITMAP_BLOCK). assert (Hbm : zlen bm = 4096) by apply block_len.
  destruct (clear_bitmap_bit_spec (E:=AbiError) bm b) as (bm' & -> & Hlen & Hby & Hbits); [lia|].
  destruct (write_block_ok s BITMAP_BLOCK bm') as (s1 & -> & Hsb1 & Ht1 & Hw1);
    [apply layout_meta; [done|unfold BITMAP_BLOCK; lia]|lia|by apply Hby, block_bytes|].
  eexists. split; [done|]. split; [|split; [|split]].
  - intros c Hc. unfold used. cbn [device set_sb]. rewrite Hw1, decide_True by done.
    rewrite (Hbits c Hc). fold bm. rewrite andb_true_iff, negb_true_iff. by rewrite bool_decide_eq_false.
  - intros c Hc. cbn [device set_sb]. rewrite Hw1. by rewrite decide_False.
  - split_and!; cbn; congruence.
  - cbn [sb set_sb]. by rewrite Hsb1.
Qed.

(** ** The superblock *)

Definition sb_wf (s : Fs) : Prop := zlen (sb_reserved (sb s)) = 20 /\ Forall is_byte (sb_reserved (sb s)).

Lemma zlen_sb_bytes sb : zlen (sb_reserved sb) = 20 -> zlen (sb_bytes sb) = 52.
Proof. intros Hr. unfold sb_bytes. by rewrite !zlen_app, !zlen_le_bytes, Hr. Qed.

Lemma flush_superblock_ok s :
  layout_ok s -> sb_wf s ->
  exists s', flush_superblock s = (Ok tt, s') /\ sb s' = sb s /\
    total_sectors (device s') = total_sectors (device s) /\
    (forall c, c <> SUPERBLOCK_BLOCK -> block (device s') c = block (device s) c) /\
    block (device s') SUPERBLOCK_BLOCK = upd 0 (sb_bytes (sb s)) zero_block.
Proof.
  intros Hl [Hr Hb]. unfold flush_superblock, mbind, M_bind, get.
  assert (Hlen : zlen (sb_bytes (sb s)) = 52) by (by apply zlen_sb_bytes).
  destruct (write_block_ok s SUPERBLOCK_BLOCK (upd 0 (sb_bytes (sb s)) zero_block)) as (s' & Hw & Hsb & Ht & Hblk).
  - apply layout_meta; [done|]. unfold SUPERBLOCK_BLOCK. lia.
  - rewrite zlen_upd; rewrite ?Hlen; change (zlen zero_block) with 4096; lia.
  - apply upd_bytes; [|apply zeros_bytes]. unfold sb_bytes. by repeat (apply Forall_app_2; [apply le_bytes_bytes|]).
  - exists s'. rewrite Hw. split_and!; [done..| |by rewrite Hblk, decide_True].
    intros c Hc. by rewrite Hblk, decide_False.
Qed.

Definition sb_words_fit (x : Superblock) : Prop :=
  Forall (fits 32) [magic x; total_blocks x; inode_count x; first_data_block x; block_size x; flags x;
                    free_blocks x; free_inodes x].

(** The superblock is read back from its bytes. *)
Lemma sb_roundtrip x :
  zlen (sb_reserved x) = 20 -> sb_words_fit x -> sb_of_bytes (sub 0 52 (upd 0 (sb_bytes x) zero_block)) = x.
Proof.
  intros Hr Hf. unfold sb_words_fit in Hf. rewrite !Forall_cons in Hf.
  destruct Hf as (H1 & H2 & H3 & H4 & H5 & H6 & H7 & H8 & _).
  rewrite <- (zlen_sb_bytes x Hr) at 1. rewrite sub_upd_same;
    [|lia|rewrite (zlen_sb_bytes x Hr); change (zlen zero_block) with 4096; lia].
  unfold sb_of_bytes, sb_bytes. destruct x. cbn [magic total_blocks inode_count first_data_block block_size flags
    free_blocks free_inodes sb_reserved] in *. f_equal.
  9: { repeat (rewrite sub_skip by (rewrite ?zlen_le_bytes; lia)). rewrite ?zlen_le_bytes.
       match goal with |- sub ?o _ _ = _ => replace o with 0 by lia end. rewrite <- Hr. apply sub_full. }
  all: repeat (rewrite sub_skip by (rewrite ?zlen_le_bytes; lia)); rewrite ?zlen_le_bytes;
    match goal with |- context [sub ?o _ _] => replace o with 0 by lia end;
    rewrite sub_here by (by rewrite zlen_le_bytes); by apply (le_word_round 4).
Qed.

(** The allocator as its clients see it: a set of blocks in use between
    [first] and [total], of which the lowest free one is handed out. *)
Inductive bop := OpAlloc | OpFree (b : Z).

Definition run_bop (o : bop) : M Fs AbiError Z :=
  match o with
  | OpAlloc => alloc_data_block
  | OpFree b => _ ← free_data_block b; mret 0
  end.

Definition spec_bop (first total : Z) (o : bop) (u : gset Z) : res AbiError Z * gset Z :=
  match o with
  | OpAlloc =>
      match list_find (fun b => b ∉ u) (seqZ first (total - first)) with
      | Some (_, b) => (Ok b, {[b]} ∪ u)
      | None => (Err (Other "No free blocks"), u)
      end
  | OpFree b => if decide (first <= b < total) then (Ok 0, u ∖ {[b]}) else (Err OutOfBounds, u)
  end.

Fixpoint run_bops {S} (step : bop -> S -> res AbiError Z * S) (os : list bop) (s : S)
    : list (res AbiError Z) * S :=
  match os with
  | [] => ([], s)
  | o :: os =>
      let '(r, s1) := step o s in
      let '(rs, s2) := run_bops step os s1 in
      (r :: rs, s2)
  end.

Definition represents (s : Fs) (u : gset Z) : Prop :=
  layout_ok s /\
  forall c, first_data_block (sb s) <= c < total_blocks (sb s) -> used s c <-> c ∈ u.

(** The first free block of the range. *)
Lemma find_lowest (u : gset Z) first total b :
  first <= b < total -> b ∉ u -> (forall c, first <= c < b -> c ∈ u) ->
  exists i, list_find (fun b => b ∉ u) (seqZ first (total - first)) = Some (i, b).
Proof.
  intros Hr Hb Hall. exists (Z.to_nat (b - first)). apply list_find_Some.
  split; [apply lookup_seqZ; lia|]. split; [done|]. intros j y Hj Hlt Hy.
  apply lookup_seqZ in Hj as [-> _]. apply Hy, Hall. lia.
Qed.

Lemma run_bop_spec o s u :
  represents s u ->
  let '(r, s') := run_bop o s in
  let '(r', u') := spec_bop (first_data_block (sb s)) (total_blocks (sb s)) o u in
  r = r' /\ represents s' u' /\ same_layout s s'.
Proof.
  intros [Hl Hu]. pose proof Hl as [? Hs ?]. destruct o as [|b]; cbn [run_bop spec_bop].
  - pose proof (alloc_data_block_ok s Hl) as H. destruct (alloc_data_block s) as [[b|e| |] s'];
      [|destruct H as (-> & -> & Hall)|done|done].
    + destruct H as (Hr & Hf & Hlow & Hused & _ & Hsame & _).
      destruct (find_lowest u (first_data_block (sb s)) (total_blocks (sb s)) b) as [i ->];
        [done|by rewrite <- Hu|intros c Hc; apply Hu; [lia|by apply Hlow]|].
      split; [done|]. split; [|done]. split; [by eapply same_layout_ok|].
      destruct Hsame as (_ & Ht & Hfd & _). rewrite Ht, Hfd. intros c Hc. rewrite Hused by lia.
      rewrite elem_of_union, elem_of_singleton. by rewrite Hu.
    + destruct (list_find _ _) as [[i b]|] eqn:Hfind; [|done]. exfalso.
      apply list_find_Some in Hfind as (Hi & Hb & _). apply lookup_seqZ in Hi as [-> Hi].
      apply Hb, Hu; [|apply Hall]; lia.
  - unfold mbind, M_bind. destruct (decide _) as [Hr|Hr].
    + destruct (free_data_block_ok s b Hl Hr) as (s' & -> & Hused & _ & Hsame & _).
      split; [done|]. split; [|done]. split; [by eapply same_layout_ok|].
      destruct Hsame as (_ & Ht & Hfd & _). rewrite Ht, Hfd. intros c Hc. rewrite Hused by lia.
      rewrite elem_of_difference, elem_of_singleton, Hu by lia. tauto.
    + unfold free_data_block, mbind, M_bind, get, throw.
      destruct (Z.ltb_spec b (first_data_block (sb s))); [done|].
      destruct (Z.leb_spec (total_blocks (sb s)) b); [done|lia].
Qed.

(** A block past the bitmap cannot be released: on a device of more than
    32768 blocks the index of its bit is out of bounds. *)
Lemma free_past_bitmap_panics s b :
  on_disk (device s) BITMAP_BLOCK -> first_data_block (sb s) <= b < total_blocks (sb s) -> 32768 <= b ->
  free_data_block b s = (Panic, s).
Proof.
  intros Hd Hb Hl. unfold free_data_block, mbind, M_bind, get, lift.
  rewrite (proj2 (Z.ltb_ge _ _)), (proj2 (Z.leb_gt _ _)) by lia. cbn [orb]. rewrite read_blk_ok by done.
  unfold clear_bitmap_bit, index. destruct (decide _) as [Hi|]; [|done].
  rewrite lookup_ge_None_2; [done|]. pose proof (block_len (device s) BITMAP_BLOCK) as Hz. unfold zlen in Hz.
  pose proof (Z.div_le_mono 32768 b 8 ltac:(lia) Hl) as Hd8. change (32768 / 8) with 4096 in Hd8. lia.
Qed.

(** C38. On a file system of at most 32768 blocks, which is what the one
    bitmap block has bits for, the block allocator refines a set: on any
    sequence of allocations and releases it answers as a set of used blocks
    does from which the lowest free block is taken, fails exactly when that
    set is full or a release is out of range, and never panics. *)
Theorem allocator_refines os s u :
  represents s u ->
  fst (run_bops run_bop os s) =
  fst (run_bops (spec_bop (first_data_block (sb s)) (total_blocks (sb s))) os u).
Proof.
  revert s u. induction os as [|o os IH]; intros s u Hr; [done|]. cbn [run_bops].
  pose proof (run_bop_spec o s u Hr) as H. destruct (run_bop o s) as [r s1].
  destruct (spec_bop _ _ o u) as [r' u1]. destruct H as (-> & Hr1 & _ & Ht & Hf & _).
  specialize (IH s1 u1 Hr1). rewrite Ht, Hf in IH. destruct (run_bops run_bop os s1).
  destruct (run_bops _ os u1). simpl in *. by rewrite IH.
Qed.

End Block.

Arguments Fs : clear implicits.

(** ** Example *)

(** Sixteen blocks of zeros but for a bitmap with the five metadata blocks and
    block 6 in use. *)
Definition demo_fs : Fs MemDisk :=
  mkFs (mkDisk (fun k => if decide (k = 16) then [0x5F] else []) 128)
       (mkSb MAGIC 16 32 5 4096 0 10 31 (zeros 20)).

Lemma allocator_refines_witness :
  represents demo_fs {[6]} /\
  fst (run_bops run_bop [OpAlloc; OpAlloc; OpFree 6; OpAlloc; OpFree 3] demo_fs) =
    [Ok 5; Ok 7; Ok 0; Ok 6; Err OutOfBounds].
Proof.
  assert (Hr : represents demo_fs {[6]}).
  { split; [by split|]. intros c Hc. cbn in Hc. unfold used. cbn [device demo_fs].
    assert (c = 5 \/ c = 6 \/ c = 7 \/ c = 8 \/ c = 9 \/ c = 10 \/ c = 11 \/ c = 12 \/ c = 13 \/ c = 14 \/ c = 15)
      as Hin by lia.
    rewrite elem_of_singleton. split.
    - intros Hu. repeat destruct Hin as [->|Hin]; try done; try subst c; vm_compute in Hu; discriminate.
    - intros ->. vm_compute. reflexivity. }
  split; [exact Hr|].
  rewrite (allocator_refines [OpAlloc; OpAlloc; OpFree 6; OpAlloc; OpFree 3] demo_fs {[6]} Hr).
  vm_compute. reflexivity.
Defined.

End ZfsBlock.
