(* ===== verification/ZfsInode.v ===== *)
(** * ZiqaFS: inodes

    Models [src/fs/ziqafs/inode.rs] and the inode of
    [src/fs/ziqafs/types.rs].  An inode is its 136 bytes; the functions copy
    them out of and into the inode-table block through raw pointers, so a slot
    that does not lie inside the 4096-byte buffer is a fault. *)

From S2P Require Import Prelude Bytes Abi Disk Zig ZfsBlock.
Import ZfsBlock.

Module ZfsInode.

Definition INODE_SIZE : Z := 136.
Definition ROOT_INODE : Z := 1.
Definition INODE_MODE_FILE : Z := 0x8000.   (* 0o100000 *)
Definition INODE_MODE_DIR : Z := 0x4000.    (* 0o040000 *)

Record Inode := mkInode {
  checksum : Z;
  mode : Z;
  nlink : Z;
  uid : Z;
  gid : Z;
  size : Z;
  mtime : Z;
  ctime : Z;
  atime : Z;
  blocks : list Z;            (* [u32; 10] *)
  block_checksums : list Z;   (* [u32; 10] *)
  indirect : Z;
  double_indirect : Z;
  indirect_checksum : Z;
  double_indirect_checksum : Z;
  reserved : list Z           (* [u8; 12] *)
}.

Definition set_checksum (c : Z) (i : Inode) : Inode :=
  mkInode c (mode i) (nlink i) (uid i) (gid i) (size i) (mtime i) (ctime i) (atime i) (blocks i)
    (block_checksums i) (indirect i) (double_indirect i) (indirect_checksum i)
    (double_indirect_checksum i) (reserved i).

Definition set_nlink (n : Z) (i : Inode) : Inode :=
  mkInode (checksum i) (mode i) n (uid i) (gid i) (size i) (mtime i) (ctime i) (atime i) (blocks i)
    (block_checksums i) (indirect i) (double_indirect i) (indirect_checksum i)
    (double_indirect_checksum i) (reserved i).

Definition set_size (n : Z) (i : Inode) : Inode :=
  mkInode (checksum i) (mode i) (nlink i) (uid i) (gid i) n (mtime i) (ctime i) (atime i) (blocks i)
    (block_checksums i) (indirect i) (double_indirect i) (indirect_checksum i)
    (double_indirect_checksum i) (reserved i).

Definition set_times (m c a : Z) (i : Inode) : Inode :=
  mkInode (checksum i) (mode i) (nlink i) (uid i) (gid i) (size i) m c a (blocks i)
    (block_checksums i) (indirect i) (double_indirect i) (indirect_checksum i)
    (double_indirect_checksum i) (reserved i).

Definition set_direct (k phys cs : Z) (i : Inode) : Inode :=
  mkInode (checksum i) (mode i) (nlink i) (uid i) (gid i) (size i) (mtime i) (ctime i) (atime i)
    (<[Z.to_nat k := phys]> (blocks i)) (<[Z.to_nat k := cs]> (block_checksums i)) (indirect i)
    (double_indirect i) (indirect_checksum i) (double_indirect_checksum i) (reserved i).

Definition set_indirect (b cs : Z) (i : Inode) : Inode :=
  mkInode (checksum i) (mode i) (nlink i) (uid i) (gid i) (size i) (mtime i) (ctime i) (atime i)
    (blocks i) (block_checksums i) b (double_indirect i) cs (double_indirect_checksum i) (reserved i).

Definition set_double (b cs : Z) (i : Inode) : Inode :=
  mkInode (checksum i) (mode i) (nlink i) (uid i) (gid i) (size i) (mtime i) (ctime i) (atime i)
    (blocks i) (block_checksums i) (indirect i) b (indirect_checksum i) cs (reserved i).

Definition words (l : list Z) : list Z := concat (map (le_bytes 4) l).

(** The packed representation. *)
Definition inode_bytes (i : Inode) : list Z :=
  le_bytes 4 (checksum i) ++ le_bytes 2 (mode i) ++ le_bytes 2 (nlink i) ++ le_bytes 2 (uid i) ++
  le_bytes 2 (gid i) ++ le_bytes 4 (size i) ++ le_bytes 4 (mtime i) ++ le_bytes 4 (ctime i) ++
  le_bytes 4 (atime i) ++ words (blocks i) ++ words (block_checksums i) ++ le_bytes 4 (indirect i) ++
  le_bytes 4 (double_indirect i) ++ le_bytes 4 (indirect_checksum i) ++
  le_bytes 4 (double_indirect_checksum i) ++ reserved i.

(** [n] words from a byte offset. *)
Definition words_at (off n : Z) (bs : list Z) : list Z :=
  map (fun k => le_word (sub (off + 4 * k) 4 bs)) (seqZ 0 n).

Definition inode_of_bytes (bs : list Z) : Inode :=
  let w off n := le_word (sub off n bs) in
  mkInode (w 0 4) (w 4 2) (w 6 2) (w 8 2) (w 10 2) (w 12 4) (w 16 4) (w 20 4) (w 24 4)
    (words_at 28 10 bs) (words_at 68 10 bs) (w 108 4) (w 112 4) (w 116 4) (w 120 4) (sub 124 12 bs).

Definition calculate_inode_checksum (i : Inode) : Z := Zig.crc32 (inode_bytes (set_checksum 0 i)).

(** [buf[offset..].as_ptr()] read or written for 136 bytes: indexing past the
    end panics, a slot that does not fit is out of bounds. *)
Definition slot_access {A} (offset : Z) (ok : A) : res AbiError A :=
  if BLOCK_SIZE <? offset then Panic
  else if BLOCK_SIZE <? offset + INODE_SIZE then Fault
  else Ok ok.

Definition read_slot (offset : Z) (buf : list Z) : res AbiError (list Z) :=
  slot_access offset (sub offset INODE_SIZE buf).

Definition write_slot (offset : Z) (i : Inode) (buf : list Z) : res AbiError (list Z) :=
  slot_access offset (upd offset (inode_bytes i) buf).

(** The eight bytes of a pair of [u32]s in a pointer block, and the four of
    one [u32]. *)
Definition pair_at (idx : Z) (buf : list Z) : Z * Z := (u32_at (8 * idx) buf, u32_at (8 * idx + 4) buf).
Definition set_pair (idx a b : Z) (buf : list Z) : list Z := upd (8 * idx) (le_bytes 4 a ++ le_bytes 4 b) buf.
Definition set_u32 (idx a : Z) (buf : list Z) : list Z := upd (4 * idx) (le_bytes 4 a) buf.

(** Pointer blocks hold 512 pairs in one view and 1024 words in the other. *)
Definition PAIRS : Z := BLOCK_SIZE / 8.
Definition WORDS : Z := BLOCK_SIZE / 4.

(** ** The bytes of an inode *)

Record inode_wf (i : Inode) : Prop := {
  wf_mode : fits 16 (mode i);
  wf_nlink : fits 16 (nlink i);
  wf_uid : fits 16 (uid i);
  wf_gid : fits 16 (gid i);
  wf_size : fits 32 (size i);
  wf_times : fits 32 (mtime i) /\ fits 32 (ctime i) /\ fits 32 (atime i);
  wf_blocks : length (blocks i) = 10%nat /\ Forall (fits 32) (blocks i);
  wf_checksums : length (block_checksums i) = 10%nat /\ Forall (fits 32) (block_checksums i);
  wf_indirect : fits 32 (indirect i) /\ fits 32 (indirect_checksum i);
  wf_double : fits 32 (double_indirect i) /\ fits 32 (double_indirect_checksum i);
  wf_reserved : zlen (reserved i) = 12 /\ Forall is_byte (reserved i)
}.

Lemma zlen_words l : zlen (words l) = 4 * zlen l.
Proof.
  unfold words. induction l as [|x l IH]; [done|]. cbn [map concat].
  rewrite zlen_app, IH, zlen_le_bytes. unfold zlen. simpl length. lia.
Qed.

Lemma sub_words l post k x :
  l !! k = Some x -> sub (4 * Z.of_nat k) 4 (words l ++ post) = le_bytes 4 x.
Proof.
  unfold words. revert k. induction l as [|y l IH]; intros [|k]; cbn [map concat]; try done.
  - intros [= ->]. rewrite <- app_assoc. by apply sub_here.
  - intros Hk. rewrite <- app_assoc, sub_skip by (rewrite zlen_le_bytes; lia).
    rewrite zlen_le_bytes. rewrite <- (IH k Hk). f_equal. lia.
Qed.

Lemma words_skip off n l k :
  zlen l <= off -> words_at off n (l ++ k) = words_at (off - zlen l) n k.
Proof.
  intros Hl. unfold words_at. apply map_ext_in. intros j Hj%list_elem_of_In%elem_of_seqZ.
  rewrite sub_skip by lia. do 2 f_equal. lia.
Qed.

Lemma words_at_words l post : Forall (fits 32) l -> words_at 0 (zlen l) (words l ++ post) = l.
Proof.
  intros Hl. apply list_eq. intros k. unfold words_at. rewrite list_lookup_fmap.
  destruct (l !! k) as [x|] eqn:Hk.
  - assert (k < length l)%nat by (by apply lookup_lt_Some in Hk).
    rewrite lookup_seqZ_lt by (unfold zlen; lia). cbn [fmap option_fmap option_map]. f_equal.
    replace (0 + 4 * (0 + Z.of_nat k)) with (4 * Z.of_nat k) by lia.
    rewrite (sub_words l post k x Hk). apply (le_word_round 4). by apply (Forall_lookup_1 _ _ _ _ Hl Hk).
  - apply lookup_ge_None in Hk. rewrite lookup_seqZ_ge by (unfold zlen; lia). done.
Qed.

(** Move to the field at an offset of a concatenation. *)
Ltac at_field :=
  repeat (rewrite sub_skip by (rewrite ?zlen_le_bytes, ?zlen_words; unfold zlen; lia));
  rewrite ?zlen_le_bytes, ?zlen_words;
  match goal with |- context [sub ?o _ _] => replace o with 0 by (unfold zlen; lia) end.

Ltac at_words :=
  repeat (rewrite words_skip by (rewrite ?zlen_le_bytes, ?zlen_words; unfold zlen; lia));
  rewrite ?zlen_le_bytes, ?zlen_words;
  match goal with |- context [words_at ?o 10 (words ?l ++ _)] =>
    replace o with 0 by (unfold zlen; lia); replace 10 with (zlen l) by (unfold zlen; lia)
  end.

Lemma inode_bytes_len i : inode_wf i -> zlen (inode_bytes i) = 136.
Proof.
  intros Hw. destruct (wf_blocks i Hw) as [Hb _]. destruct (wf_checksums i Hw) as [Hc _].
  unfold inode_bytes. rewrite !zlen_app, !zlen_le_bytes, !zlen_words, (proj1 (wf_reserved i Hw)).
  unfold zlen. rewrite Hb, Hc. done.
Qed.

Lemma inode_roundtrip i : inode_wf i -> fits 32 (checksum i) -> inode_of_bytes (inode_bytes i) = i.
Proof.
  intros [Hm Hn Hu Hg Hs (Ht1 & Ht2 & Ht3) [Hb1 Hb2] [Hc1 Hc2] [Hi1 Hi2] [Hd1 Hd2] [Hr _]] Hc.
  unfold inode_of_bytes, inode_bytes. destruct i.
  cbn [checksum mode nlink uid gid size mtime ctime atime blocks block_checksums indirect
    double_indirect indirect_checksum double_indirect_checksum reserved] in *. f_equal.
  10, 11: at_words; by apply words_at_words.
  14: { at_field. rewrite <- Hr. apply sub_full. }
  all: at_field; rewrite sub_here by (by rewrite zlen_le_bytes); by apply le_word_round.
Qed.

Lemma words_bytes l : Forall is_byte (words l).
Proof. unfold words. apply Forall_concat, Forall_map, Forall_true. intros x. apply le_bytes_bytes. Qed.

Lemma inode_bytes_bytes i : inode_wf i -> Forall is_byte (inode_bytes i).
Proof.
  intros Hw. unfold inode_bytes.
  repeat first [apply Forall_app_2; [apply le_bytes_bytes || apply words_bytes|]]. apply (wf_reserved i Hw).
Qed.

Lemma set_checksum_wf c i : inode_wf i -> inode_wf (set_checksum c i).
Proof. by intros []. Qed.

Lemma checksum_fits i : inode_wf i -> fits 32 (calculate_inode_checksum i).
Proof. intros Hw. by apply Zig.crc32_fits, inode_bytes_bytes, set_checksum_wf. Qed.

Section Inode.

Context {D : Type} {bd : BlockDevice D}.
Context (now : Z).   (* uptime in seconds, as u32 *)

Definition read_inode (inode_id : Z) (d : D) : res AbiError Inode :=
  if INODE_COUNT <=? inode_id then Err OutOfBounds
  else
    buf ← read_block INODE_TABLE_BLOCK d;
    bs ← read_slot (inode_id * INODE_SIZE) buf;
    let inode := inode_of_bytes bs in
    if negb (checksum inode =? calculate_inode_checksum inode) then Err (Other "Inode checksum mismatch")
    else Ok inode.

Definition read_ino (inode_id : Z) : M (Fs D) AbiError Inode := fun s =>
  (read_inode inode_id (device s), s).

Definition patch_inode_raw (inode_id offset : Z) (data : list Z) : M (Fs D) AbiError unit :=
  buf ← read_blk INODE_TABLE_BLOCK;
  buf' ← lift (splice (inode_id * INODE_SIZE + offset) data buf);
  write_block INODE_TABLE_BLOCK buf'.

Definition write_inode (inode_id : Z) (inode : Inode) : M (Fs D) AbiError unit :=
  if INODE_COUNT <=? inode_id then throw OutOfBounds
  else
    buf ← read_blk INODE_TABLE_BLOCK;
    let inode_copy := set_checksum (calculate_inode_checksum inode) inode in
    buf' ← lift (write_slot (inode_id * INODE_SIZE) inode_copy buf);
    write_block INODE_TABLE_BLOCK buf'.

Definition fresh_inode (m : Z) : Inode :=
  let inode := mkInode 0 m 1 0 0 0 now now now (replicate 10 0) (replicate 10 0) 0 0 0 0 (zeros 12) in
  set_checksum (calculate_inode_checksum inode) inode.

Definition alloc_inode (m : Z) : M (Fs D) AbiError Z :=
  buf ← read_blk INODE_TABLE_BLOCK;
  o ← lift (Zig.inode_find_free buf INODE_COUNT INODE_SIZE 1);
  match o with
  | None => throw (Other "No free inodes")
  | Some i =>
      buf' ← lift (write_slot (i * INODE_SIZE) (fresh_inode m) buf);
      _ ← write_block INODE_TABLE_BLOCK buf';
      _ ← modify (set_sb (fun x => set_free_inodes (sat_dec (free_inodes x)) x));
      mret i
  end.

Definition free_inode (inode_id : Z) : M (Fs D) AbiError unit :=
  if INODE_COUNT <=? inode_id then throw OutOfBounds
  else
    buf ← read_blk INODE_TABLE_BLOCK;
    buf' ← lift (splice (inode_id * INODE_SIZE) (zeros INODE_SIZE) buf);
    _ ← write_block INODE_TABLE_BLOCK buf';
    modify (set_sb (fun x => set_free_inodes (sat_inc (free_inodes x)) x)).

(** A pointer block, checked against its checksum unless that is 0. *)
Definition checked_block (b cs : Z) (msg : string) (d : D) : res AbiError (list Z) :=
  buf ← read_block b d;
  if negb (cs =? 0) && negb (Zig.crc32 buf =? cs) then Err (Other msg) else Ok buf.

Definition inode_get_block (inode : Inode) (logical : Z) (d : D) : res AbiError (Z * Z) :=
  if logical <? 10 then
    p ← index (blocks inode) logical;
    c ← index (block_checksums inode) logical;
    Ok (p, c)
  else
    let idx := logical - 10 in
    if idx <? PAIRS then
      if indirect inode =? 0 then Ok (0, 0)
      else
        buf ← checked_block (indirect inode) (indirect_checksum inode) "Indirect block checksum mismatch" d;
        Ok (pair_at idx buf)
    else
      let idx2 := idx - PAIRS in
      if idx2 <? PAIRS * PAIRS then
        if double_indirect inode =? 0 then Ok (0, 0)
        else
          buf ← checked_block (double_indirect inode) (double_indirect_checksum inode)
                  "Double indirect block checksum mismatch" d;
          let '(l1_phys, l1_checksum) := pair_at (idx2 / PAIRS) buf in
          if l1_phys =? 0 then Ok (0, 0)
          else
            buf2 ← checked_block l1_phys l1_checksum "L2 pointer block checksum mismatch" d;
            Ok (pair_at (idx2 mod PAIRS) buf2)
      else Err (Other "File too large").

Definition get_blk (inode : Inode) (logical : Z) : M (Fs D) AbiError (Z * Z) := fun s =>
  (inode_get_block inode logical (device s), s).

(** The block to use for a pointer that may be 0. *)
Definition or_alloc (b : Z) : M (Fs D) AbiError Z :=
  if b =? 0 then alloc_data_block else mret b.

(** Find or allocate the word [idx] of the pointer block [b]. *)
Definition word_or_alloc (b idx : Z) : M (Fs D) AbiError Z :=
  buf ← read_blk b;
  let p := u32_at (4 * idx) buf in
  if p =? 0 then
    p' ← alloc_data_block;
    _ ← write_block b (set_u32 idx p' buf);
    mret p'
  else mret p.

Definition inode_alloc_block (inode : Inode) (logical : Z) : M (Fs D) AbiError (Z * Inode) :=
  if logical <? 10 then
    p ← lift (index (blocks inode) logical);
    c ← lift (index (block_checksums inode) logical);
    if p =? 0 then b ← alloc_data_block; mret (b, set_direct logical b c inode)
    else mret (p, inode)
  else
    let idx := logical - 10 in
    if idx <? WORDS then
      b ← or_alloc (indirect inode);
      let inode := set_indirect b (indirect_checksum inode) inode in
      p ← word_or_alloc b idx;
      mret (p, inode)
    else
      let idx2 := idx - WORDS in
      if idx2 <? WORDS * WORDS then
        b ← or_alloc (double_indirect inode);
        let inode := set_double b (double_indirect_checksum inode) inode in
        l1_phys ← word_or_alloc b (idx2 / WORDS);
        p ← word_or_alloc l1_phys (idx2 mod WORDS);
        mret (p, inode)
      else throw (Other "File too large").

Definition inode_set_block (inode : Inode) (logical new_phys new_checksum : Z) : M (Fs D) AbiError Inode :=
  if logical <? 10 then
    _ ← lift (index (blocks inode) logical);
    mret (set_direct logical new_phys new_checksum inode)
  else
    let idx := logical - 10 in
    if idx <? PAIRS then
      b ← or_alloc (indirect inode);
      buf ← read_blk b;
      let buf := set_pair idx new_phys new_checksum buf in
      _ ← write_block b buf;
      mret (set_indirect b (Zig.crc32 buf) inode)
    else
      let idx2 := idx - PAIRS in
      if idx2 <? PAIRS * PAIRS then
        b ← or_alloc (double_indirect inode);
        buf ← read_blk b;
        let l1_idx := idx2 / PAIRS in
        l1_phys ← or_alloc (fst (pair_at l1_idx buf));
        buf2 ← read_blk l1_phys;
        let buf2 := set_pair (idx2 mod PAIRS) new_phys new_checksum buf2 in
        _ ← write_block l1_phys buf2;
        let buf := set_pair l1_idx l1_phys (Zig.crc32 buf2) buf in
        _ ← write_block b buf;
        mret (set_double b (Zig.crc32 buf) inode)
      else throw (Other "File too large").

(** Release every non-zero word of a list. *)
Fixpoint free_words (ps : list Z) : M (Fs D) AbiError unit :=
  match ps with
  | [] => mret tt
  | p :: ps => _ ← (if p =? 0 then mret tt else free_data_block p); free_words ps
  end.

Fixpoint free_l1 (l1 : list Z) : M (Fs D) AbiError unit :=
  match l1 with
  | [] => mret tt
  | l1p :: rest =>
      _ ← (if l1p =? 0 then mret tt
           else
             buf2 ← read_blk l1p;
             _ ← free_words (words_at 0 WORDS buf2);
             free_data_block l1p);
      free_l1 rest
  end.

Definition free_inode_blocks (inode : Inode) : M (Fs D) AbiError unit :=
  _ ← free_words (blocks inode);
  _ ← (if indirect inode =? 0 then mret tt
       else
         buf ← read_blk (indirect inode);
         _ ← free_words (words_at 0 WORDS buf);
         free_data_block (indirect inode));
  if double_indirect inode =? 0 then mret tt
  else
    buf ← read_blk (double_indirect inode);
    _ ← free_l1 (words_at 0 WORDS buf);
    free_data_block (double_indirect inode).

(** ** The inode table *)

Context {ds : DiskSpec D}.

(** The slots that lie inside the inode-table block. *)
Definition slot_ok (id : Z) : Prop := 0 <= id < 30.

(** The bytes of a slot. *)
Definition slot (d : D) (id : Z) : list Z := sub (id * INODE_SIZE) INODE_SIZE (block d INODE_TABLE_BLOCK).

(** The inode on disk. *)
Definition inode_at (d : D) (id : Z) (i : Inode) : Prop :=
  inode_wf i /\ slot d id = inode_bytes (set_checksum (calculate_inode_checksum i) i).

Lemma slot_access_ok {A} id (a : A) : slot_ok id -> slot_access (id * INODE_SIZE) a = Ok a.
Proof.
  intros Hid. unfold slot_access, slot_ok, INODE_SIZE, BLOCK_SIZE in *.
  rewrite !(proj2 (Z.ltb_ge _ _)) by lia. done.
Qed.

Lemma read_inode_ok d id i :
  on_disk d INODE_TABLE_BLOCK -> slot_ok id -> inode_at d id i ->
  read_inode id d = Ok (set_checksum (calculate_inode_checksum i) i).
Proof.
  intros Hd Hid [Hw Hs]. unfold read_inode. unfold INODE_COUNT.
  rewrite (proj2 (Z.leb_gt _ _)) by (unfold slot_ok in Hid; lia).
  rewrite read_block_ok by done. cbn [mbind res_bind]. unfold read_slot.
  rewrite slot_access_ok by done. cbn [mbind res_bind]. fold (slot d id). rewrite Hs.
  rewrite inode_roundtrip; [|by apply set_checksum_wf|by apply checksum_fits].
  change (calculate_inode_checksum (set_checksum _ i)) with (calculate_inode_checksum i).
  cbn [checksum set_checksum]. by rewrite Z.eqb_refl.
Qed.

Lemma write_inode_ok s id i :
  on_disk (device s) INODE_TABLE_BLOCK -> slot_ok id -> inode_wf i ->
  exists s', write_inode id i s = (Ok tt, s') /\ sb s' = sb s /\
    total_sectors (device s') = total_sectors (device s) /\
    inode_at (device s') id i /\
    (forall k, slot_ok k -> k <> id -> slot (device s') k = slot (device s) k) /\
    (forall c, c <> INODE_TABLE_BLOCK -> block (device s') c = block (device s) c).
Proof.
  intros Hd Hid Hw. unfold write_inode, INODE_COUNT, mbind, M_bind, lift.
  rewrite (proj2 (Z.leb_gt _ _)) by (unfold slot_ok in Hid; lia).
  rewrite read_blk_ok by done. unfold write_slot. rewrite slot_access_ok by done.
  set (i' := set_checksum _ i). assert (Hl : zlen (inode_bytes i') = 136)
    by (by apply inode_bytes_len, set_checksum_wf).
  assert (Hb := block_len (device s) INODE_TABLE_BLOCK). unfold slot_ok in Hid.
  destruct (write_block_ok s INODE_TABLE_BLOCK (upd (id * INODE_SIZE) (inode_bytes i') (block (device s) INODE_TABLE_BLOCK)))
    as (s' & -> & Hsb & Ht & Hblk); [done|unfold INODE_SIZE; rewrite zlen_upd; lia
      |by apply upd_bytes; [apply inode_bytes_bytes, set_checksum_wf|apply block_bytes]|].
  exists s'. do 3 (split; [done|]). split; [|split].
  - split; [done|]. unfold slot. rewrite Hblk, decide_True by done. fold i'.
    change INODE_SIZE with 136. rewrite <- Hl at 2. apply sub_upd_same; lia.
  - intros k Hk Hne. unfold slot_ok in Hk. unfold slot. rewrite Hblk, decide_True by done.
    unfold INODE_SIZE. apply sub_upd_other; lia.
  - intros c Hc. by rewrite Hblk, decide_False.
Qed.

End Inode.

End ZfsInode.
