(* ===== verification/ZfsDir.v ===== *)
(** * ZiqaFS: directories

    Models [src/fs/ziqafs/dir.rs].  A directory block is a chain of entries:
    inode (4 bytes), name length (2), entry size (2), name.  Names are byte
    lists; the code makes them strings where they are valid UTF-8. *)

From S2P Require Import Prelude Bytes Abi Disk Zig Path ZfsBlock ZfsInode.
Import ZfsBlock ZfsInode.

Module ZfsDir.

Definition u16_at (off : Z) (buf : list Z) : Z := le_word (sub off 2 buf).

(** [dirent_foreach]: the entries the callback is called on, in order.  Each
    turn moves at least 8 bytes on, so 513 turns reach the end of a block. *)
Fixpoint entries_from (fuel : nat) (buf : list Z) (limit off : Z) : list (Z * list Z) :=
  match fuel with
  | O => []
  | S fuel =>
      if off + 8 <=? limit then
        let inode := u32_at off buf in
        let name_len := u16_at (off + 4) buf in
        let entry_size := u16_at (off + 6) buf in
        if (entry_size <? 8) || (260 <? entry_size) || (BLOCK_SIZE <? off + entry_size) then []
        else
          let rest := entries_from fuel buf limit (off + entry_size) in
          let name := sub (off + 8) name_len buf in
          if negb (inode =? 0) && (0 <? name_len) && (name_len <=? 252) &&
             (off + 8 + name_len <=? BLOCK_SIZE) && Path.utf8_valid name
          then (inode, name) :: rest
          else rest
      else []
  end.

Definition FUEL : nat := 513.

Definition dirents (buf : list Z) (size : Z) : list (Z * list Z) :=
  entries_from FUEL buf (Z.min size BLOCK_SIZE) 0.

(** The callback of [find_entry] keeps the last match. *)
Definition find_entry (buf : list Z) (size : Z) (name : list Z) : option Z :=
  foldl (fun result '(inode, n) => if decide (n = name) then Some inode else result) None
    (dirents buf size).

(** [(8 + name_len + 3) & !3] *)
Definition entry_size_of (name_len : Z) : Z := (8 + name_len + 3) / 4 * 4.

(** The search of [write_entry_raw] for a place: the first entry that is free
    or has no size. *)
Fixpoint find_place (fuel : nat) (buf : list Z) (entry_size off : Z) : option Z :=
  match fuel with
  | O => None
  | S fuel =>
      if BLOCK_SIZE <? off + entry_size then None
      else if u32_at off buf =? 0 then Some off
      else
        let es := u16_at (off + 6) buf in
        if es <? 8 then Some off else find_place fuel buf entry_size (off + es)
  end.

Definition entry_bytes (target_inode : Z) (name : list Z) : list Z :=
  le_bytes 4 target_inode ++ le_bytes 2 (zlen name) ++ le_bytes 2 (entry_size_of (zlen name)) ++ name.

Definition write_entry_raw (buf : list Z) (target_inode : Z) (name : list Z) : res AbiError (list Z) :=
  let name_len := zlen name in
  if 252 <? name_len then Err (Other "Name too long")
  else
    let entry_size := entry_size_of name_len in
    match find_place FUEL buf entry_size 0 with
    | None => Err (Other "Directory block full")
    | Some off => Ok (upd off (entry_bytes target_inode name) buf)
    end.

(** A write whose error the caller ignores. *)
Definition try_entry (buf : list Z) (id : Z) (name : list Z) : list Z :=
  match write_entry_raw buf id name with Ok buf' => buf' | _ => buf end.

Fixpoint find_inode (fuel : nat) (buf : list Z) (limit target off : Z) : option Z :=
  match fuel with
  | O => None
  | S fuel =>
      if off + 8 <=? limit then
        let inode := u32_at off buf in
        let entry_size := u16_at (off + 6) buf in
        if (entry_size <? 8) || (BLOCK_SIZE <? off + entry_size) then None
        else if inode =? target then Some off
        else find_inode fuel buf limit target (off + entry_size)
      else None
  end.

Definition remove_entry_raw (buf : list Z) (size target_inode : Z) : bool * list Z :=
  match find_inode FUEL buf (Z.min size BLOCK_SIZE) target_inode 0 with
  | Some off => (true, upd off (zeros 4) buf)
  | None => (false, buf)
  end.

(** ** Directory blocks as lists of entries

    From [off] on the block holds the entries [es], one after the other, and
    zeros.  An entry whose inode is 0 has been removed. *)
Fixpoint chain (buf : list Z) (off : Z) (es : list (Z * list Z)) : Prop :=
  match es with
  | [] => off <= 4096 /\ sub off (4096 - off) buf = zeros (4096 - off)
  | (id, name) :: es =>
      let sz := entry_size_of (zlen name) in
      (0 < zlen name <= 252 /\ Path.utf8_valid name = true) /\ off + sz <= 4096 /\
      u32_at off buf = id /\ u16_at (off + 4) buf = zlen name /\ u16_at (off + 6) buf = sz /\
      sub (off + 8) (zlen name) buf = name /\ chain buf (off + sz) es
  end.

Definition live (es : list (Z * list Z)) : list (Z * list Z) := filter (fun e => fst e <> 0) es.

(** Where the chain ends. *)
Definition chain_end (off : Z) (es : list (Z * list Z)) : Z :=
  foldl (fun o e => o + entry_size_of (zlen (snd e))) off es.

Lemma entry_size_bounds n : 0 <= n <= 252 -> 8 + n <= entry_size_of n <= 11 + n /\ 8 <= entry_size_of n <= 260.
Proof. intros Hn. unfold entry_size_of. pose proof (Z.div_mod (8 + n + 3) 4). pose proof (Z.mod_pos_bound (8 + n + 3) 4). lia. Qed.

Lemma sub_of_zeros off n a k (buf : list Z) :
  0 <= off -> 0 <= a -> 0 <= k -> a + k <= n -> sub off n buf = zeros n ->
  sub (off + a) k buf = zeros k.
Proof.
  intros Ho Ha Hk Hn Hz. apply list_eq. intros i. rewrite sub_lookup by lia.
  unfold zeros. destruct (decide (Z.of_nat i < k)) as [Hi|Hi].
  - rewrite lookup_replicate_2 by lia.
    assert (Hx : sub off n buf !! (Z.to_nat a + i)%nat = Some 0).
    { rewrite Hz. unfold zeros. apply lookup_replicate_2. lia. }
    rewrite sub_lookup in Hx by lia. rewrite decide_True in Hx by lia. rewrite <- Hx. f_equal. lia.
  - symmetry. apply lookup_ge_None. rewrite length_replicate. lia.
Qed.

(** The header at the end of the chain reads as zeros. *)
Lemma chain_tail buf off :
  0 <= off -> off + 8 <= 4096 -> sub off (4096 - off) buf = zeros (4096 - off) ->
  u32_at off buf = 0 /\ u16_at (off + 6) buf = 0.
Proof.
  intros Ho H8 Hz. unfold u32_at, u16_at.
  rewrite <- (Z.add_0_r off) at 1. rewrite !(sub_of_zeros off (4096 - off)) by (done || lia). done.
Qed.

Lemma chain_end_le buf es : forall off, 0 <= off -> chain buf off es -> off <= chain_end off es <= 4096.
Proof.
  induction es as [|[id name] es IH]; cbn [chain chain_end foldl]; [lia|].
  intros off Ho ([Hn _] & Hsz & _ & _ & _ & _ & Hc). pose proof (entry_size_bounds (zlen name) ltac:(lia)).
  specialize (IH (off + entry_size_of (zlen name)) ltac:(lia) Hc). unfold chain_end in IH. simpl. lia.
Qed.

Lemma entries_from_chain buf es : forall fuel off,
  0 <= off -> chain buf off es -> 4096 - off < 8 * Z.of_nat fuel ->
  entries_from fuel buf 4096 off = live es.
Proof.
  induction es as [|[id name] es IH]; intros [|fuel] off Ho Hc Hf; try lia.
  - destruct Hc. lia.
  - destruct Hc as [Hle Hz]. cbn [entries_from]. destruct (Z.leb_spec (off + 8) 4096); [|done].
    destruct (chain_tail buf off) as [_ ->]; done.
  - destruct Hc as ([Hn _] & Hsz & _). pose proof (entry_size_bounds (zlen name) ltac:(lia)). lia.
  - destruct Hc as ([Hn Hu] & Hsz & Hi & Hl & Hes & Hnm & Hc). cbn [entries_from].
    pose proof (entry_size_bounds (zlen name) ltac:(lia)) as [Hb1 Hb2].
    rewrite Hi, Hl, Hes, Hnm, Hu. destruct (Z.leb_spec (off + 8) 4096); [|lia]. unfold BLOCK_SIZE.
    rewrite !(proj2 (Z.ltb_ge _ _)) by lia. cbn [orb].
    rewrite (IH fuel) by (done || lia). unfold live. rewrite filter_cons. cbn [fst].
    destruct (Z.eqb_spec id 0) as [->|Hne]; [by rewrite decide_False by tauto|].
    rewrite decide_True by done. rewrite (proj2 (Z.ltb_lt 0 _)), !(proj2 (Z.leb_le _ _)) by lia. done.
Qed.

Lemma dirents_chain buf es : chain buf 0 es -> dirents buf BLOCK_SIZE = live es.
Proof. intros Hc. unfold dirents. by apply entries_from_chain. Qed.

Lemma find_place_chain buf esz es : forall fuel off,
  0 <= off -> chain buf off es -> Forall (fun e => fst e <> 0) es -> 8 <= esz ->
  4096 - off < 8 * Z.of_nat fuel ->
  find_place fuel buf esz off =
    if decide (chain_end off es + esz <= 4096) then Some (chain_end off es) else None.
Proof.
  induction es as [|[id name] es IH]; intros [|fuel] off Ho Hc Hl Hs Hf; try (cbn [chain] in Hc; lia).
  - destruct Hc as [Hle Hz]. cbn [find_place chain_end foldl]. unfold BLOCK_SIZE.
    destruct (Z.ltb_spec 4096 (off + esz)); [by rewrite decide_False by lia|].
    destruct (chain_tail buf off) as [-> _]; [lia..|done|]. by rewrite decide_True by lia.
  - destruct Hc as ([Hn _] & Hsz & _). pose proof (entry_size_bounds (zlen name) ltac:(lia)). lia.
  - apply Forall_cons in Hl as [Hid Hl]. cbn [fst] in Hid.
    pose proof Hc as ([Hn _] & Hsz & Hi & _ & Hes & _ & Hc'). cbn [find_place]. unfold BLOCK_SIZE.
    pose proof (entry_size_bounds (zlen name) ltac:(lia)) as [_ Hb].
    set (off' := off + entry_size_of (zlen name)) in *.
    pose proof (chain_end_le buf es off' ltac:(lia) Hc').
    change (chain_end off ((id, name) :: es)) with (chain_end off' es).
    destruct (Z.ltb_spec 4096 (off + esz)); [by rewrite decide_False by lia|].
    rewrite Hi, Hes. rewrite (proj2 (Z.eqb_neq _ _)), (proj2 (Z.ltb_ge _ _)) by lia.
    fold off'. apply IH; (done || lia).
Qed.

(** An entry written past the end of a chain extends it. *)
Lemma chain_append buf id name es : forall off,
  0 <= off -> chain buf off es -> zlen buf = 4096 ->
  0 < zlen name <= 252 -> Path.utf8_valid name = true -> fits 32 id ->
  chain_end off es + entry_size_of (zlen name) <= 4096 ->
  chain (upd (chain_end off es) (entry_bytes id name) buf) off (es ++ [(id, name)]).
Proof.
  intros off Ho Hc Hb Hn Hu Hid. pose proof (entry_size_bounds (zlen name) ltac:(lia)) as [Hz1 Hz2].
  assert (Hd : zlen (entry_bytes id name) = 8 + zlen name)
    by (unfold entry_bytes; rewrite !zlen_app, !zlen_le_bytes; lia).
  revert off Ho Hc. induction es as [|[i nm] es IH]; intros off Ho Hc Hfit.
  - destruct Hc as [Hle Ht]. cbn [chain_end foldl app chain] in *. unfold u32_at, u16_at.
    rewrite !sub_upd_inside by lia. rewrite !Z.sub_diag, !Z.add_simpl_l. unfold entry_bytes.
    split; [done|]. split; [done|]. split; [|split; [|split; [|split; [|split]]]].
    + rewrite sub_here by done. by apply (le_word_round 4).
    + rewrite sub_skip, zlen_le_bytes by (rewrite zlen_le_bytes; lia). change (4 - _) with 0.
      rewrite sub_here by done. apply (le_word_round 2). split; lia.
    + do 2 (rewrite sub_skip, zlen_le_bytes by (rewrite zlen_le_bytes; lia)). change (6 - _ - _) with 0.
      rewrite sub_here by done. apply (le_word_round 2). split; lia.
    + do 3 (rewrite sub_skip, zlen_le_bytes by (rewrite zlen_le_bytes; lia)). change (8 - _ - _ - _) with 0.
      apply sub_full.
    + lia.
    + fold (entry_bytes id name). rewrite sub_upd_other by lia.
      replace (4096 - (off + entry_size_of (zlen name))) with (4096 - off - entry_size_of (zlen name)) by lia.
      apply (sub_of_zeros off (4096 - off)); lia || done.
  - pose proof Hc as ([Hn' Hu'] & Hsz & Hi & Hl & Hes & Hnm & Hc'). cbn [app chain].
    pose proof (entry_size_bounds (zlen nm) ltac:(lia)) as [Hb1 Hb2].
    set (off' := off + entry_size_of (zlen nm)) in *. pose proof (chain_end_le buf es off' ltac:(lia) Hc').
    change (chain_end off ((i, nm) :: es)) with (chain_end off' es) in *. unfold u32_at, u16_at in *.
    rewrite !sub_upd_other by lia. split_and!; try (done || lia). apply IH; (done || lia).
Qed.

(** The header of an entry of the current hypotheses is in the block. *)
Ltac entry_bounds :=
  match goal with H : 0 < zlen ?n <= 252 |- _ =>
    pose proof (entry_size_bounds (zlen n) ltac:(lia)) as [? ?] end.

Lemma chain_end_mid buf e post pre : forall off,
  chain buf off (pre ++ e :: post) -> off <= chain_end off pre /\ chain_end off pre + 8 <= 4096.
Proof.
  induction pre as [|[j m] pre IH]; intros off Hc; cbn [app chain] in Hc.
  - destruct e as [i nm]. destruct Hc as ([Hn _] & Hsz & _). entry_bounds. cbn [chain_end foldl]. lia.
  - destruct Hc as ([Hn _] & Hsz & _ & _ & _ & _ & Hc). entry_bounds. specialize (IH _ Hc).
    change (chain_end off ((j, m) :: pre)) with (chain_end (off + entry_size_of (zlen m)) pre). lia.
Qed.

(** Blanking the inode of an entry in the middle of a chain. *)
Lemma chain_blank buf id name post pre : forall off,
  0 <= off -> chain buf off (pre ++ (id, name) :: post) -> zlen buf = 4096 ->
  chain (upd (chain_end off pre) (zeros 4) buf) off (pre ++ (0, name) :: post).
Proof.
  intros off Ho Hc Hb. assert (Hfar : forall es off o, 0 <= off -> 0 <= o -> o + 4 <= off ->
    chain buf off es -> chain (upd o (zeros 4) buf) off es).
  { clear -Hb. induction es as [|[i nm] es IH]; intros off o Ho Ho' Hlt Hc; cbn [chain] in *.
    - rewrite sub_upd_other; [done|lia|lia|change (zlen (zeros 4)) with 4; lia|].
      right. change (zlen (zeros 4)) with 4. lia.
    - destruct Hc as ([Hn Hu] & Hsz & Hi & Hl & Hes & Hnm & Hc). unfold u32_at, u16_at in *.
      pose proof (entry_size_bounds (zlen nm) ltac:(lia)).
      rewrite !sub_upd_other by (change (zlen (zeros 4)) with 4; lia). split_and!; try (done || lia).
      apply IH; (done || lia). }
  revert off Ho Hc. induction pre as [|[i nm] pre IH]; intros off Ho Hc; cbn [app chain] in *;
    destruct Hc as ([Hn Hu] & Hsz & Hi & Hl & Hes & Hnm & Hc); unfold u32_at, u16_at in *.
  - pose proof (entry_size_bounds (zlen name) ltac:(lia)). cbn [chain_end foldl].
    rewrite (sub_upd_other (off + 4)), (sub_upd_other (off + 6)), (sub_upd_other (off + 8))
      by (change (zlen (zeros 4)) with 4; lia).
    rewrite (sub_upd_same off (zeros 4)) by (change (zlen (zeros 4)) with 4; lia).
    split_and!; try (done || lia). apply Hfar; (done || lia).
  - pose proof (entry_size_bounds (zlen nm) ltac:(lia)).
    set (off' := off + entry_size_of (zlen nm)) in *.
    change (chain_end off ((i, nm) :: pre)) with (chain_end off' pre).
    pose proof (chain_end_mid buf (id, name) post pre off' Hc).
    rewrite !sub_upd_other by (change (zlen (zeros 4)) with 4; lia).
    split_and!; try (done || lia). apply IH; (done || lia).
Qed.

Lemma find_inode_chain buf t name post pre : forall fuel off,
  0 <= off -> chain buf off (pre ++ (t, name) :: post) -> Forall (fun e => fst e <> t) pre ->
  4096 - off < 8 * Z.of_nat fuel ->
  find_inode fuel buf 4096 t off = Some (chain_end off pre).
Proof.
  induction pre as [|[i nm] pre IH]; intros [|fuel] off Ho Hc Hp Hf; cbn [app chain] in Hc;
    destruct Hc as ([Hn Hu] & Hsz & Hi & Hl & Hes & Hnm & Hc);
    entry_bounds; try lia;
    cbn [find_inode]; unfold BLOCK_SIZE; rewrite Hi, Hes;
    rewrite (proj2 (Z.leb_le _ _)), !(proj2 (Z.ltb_ge _ _)) by lia; cbn [orb].
  - by rewrite Z.eqb_refl.
  - apply Forall_cons in Hp as [Hne Hp]. cbn [fst] in Hne.
    rewrite (proj2 (Z.eqb_neq _ _)) by done. apply IH; (done || lia).
Qed.

Lemma find_inode_none buf t es : forall fuel off,
  0 <= off -> chain buf off es -> Forall (fun e => fst e <> t) es ->
  t <> 0 -> find_inode fuel buf 4096 t off = None.
Proof.
  induction es as [|[i nm] es IH]; intros [|fuel] off Ho Hc Hp Ht; try done.
  - destruct Hc as [Hle Hz]. cbn [find_inode]. destruct (Z.leb_spec (off + 8) 4096); [|done].
    destruct (chain_tail buf off) as [_ ->]; done.
  - destruct Hc as ([Hn Hu] & Hsz & Hi & Hl & Hes & Hnm & Hc). cbn [find_inode]. unfold BLOCK_SIZE.
    pose proof (entry_size_bounds (zlen nm) ltac:(lia)) as [_ Hb]. rewrite Hi, Hes.
    apply Forall_cons in Hp as [Hne Hp]. cbn [fst] in Hne.
    rewrite (proj2 (Z.leb_le _ _)), !(proj2 (Z.ltb_ge _ _)), (proj2 (Z.eqb_neq _ _)) by (done || lia).
    cbn [orb]. apply IH; (done || lia).
Qed.

(** [(size + BLOCK_SIZE - 1) / BLOCK_SIZE] *)
Definition blocks_of (size : Z) : Z := (size + BLOCK_SIZE - 1) / BLOCK_SIZE.

Section Dir.

Context {D : Type} {bd : BlockDevice D}.
Context (now : Z).

(** The loop of [lookup_in_dir] over the remaining logical blocks. *)
Fixpoint lookup_blocks (ls : list Z) (dir_inode : Inode) (name : list Z) (d : D)
    : res AbiError (option Z) :=
  match ls with
  | [] => Ok None
  | logical :: ls =>
      '(phys, _) ← inode_get_block dir_inode logical d;
      if phys =? 0 then lookup_blocks ls dir_inode name d
      else
        buf ← read_block phys d;
        match find_entry buf BLOCK_SIZE name with
        | Some id => Ok (Some id)
        | None => lookup_blocks ls dir_inode name d
        end
  end.

Definition lookup_in_dir (dir_inode : Inode) (name : list Z) (d : D) : res AbiError (option Z) :=
  lookup_blocks (seqZ 0 (blocks_of (size dir_inode))) dir_inode name d.

(** The loop of [dir_add_entry] over the existing blocks: true when the entry
    was added to one. *)
Fixpoint add_in_blocks (ls : list Z) (parent : Inode) (new_id : Z) (name : list Z)
    : M (Fs D) AbiError bool :=
  match ls with
  | [] => mret false
  | logical :: ls =>
      '(phys, _) ← get_blk parent logical;
      if phys =? 0 then add_in_blocks ls parent new_id name
      else
        buf ← read_blk phys;
        match write_entry_raw buf new_id name with
        | Ok buf' => _ ← write_block phys buf'; mret true
        | _ => add_in_blocks ls parent new_id name
        end
  end.

Definition dir_add_entry (parent_inode new_id : Z) (name : list Z) : M (Fs D) AbiError unit :=
  parent ← read_ino parent_inode;
  let total_dir_blocks := blocks_of (size parent) in
  added ← add_in_blocks (seqZ 0 total_dir_blocks) parent new_id name;
  if added : bool then mret tt
  else
    let new_logical := total_dir_blocks in
    '(new_phys, parent) ← inode_alloc_block parent new_logical;
    if 2 ^ 32 <=? (new_logical + 1) * BLOCK_SIZE then lift Panic   (* u32 multiplication *)
    else
      let parent := set_size ((new_logical + 1) * BLOCK_SIZE) parent in
      _ ← write_inode parent_inode parent;
      buf ← lift (write_entry_raw zero_block new_id name);
      write_block new_phys buf.

Definition DOT : list Z := [46].
Definition DOTDOT : list Z := [46; 46].

Definition init_dir_block (new_id parent_inode_id : Z) : M (Fs D) AbiError Z :=
  new_data ← alloc_data_block;
  new_inode ← read_ino new_id;
  c ← lift (index (block_checksums new_inode) 0);
  let new_inode := set_times now now now (set_size BLOCK_SIZE (set_direct 0 new_data c new_inode)) in
  _ ← write_inode new_id new_inode;
  let dir_buf := try_entry (try_entry zero_block new_id DOT) parent_inode_id DOTDOT in
  _ ← write_block new_data dir_buf;
  mret new_data.

End Dir.

Lemma last_match (name : list Z) (es : list (Z * list Z)) : forall acc,
  foldl (fun result '(inode, n) => if decide (n = name) then Some inode else result) acc es =
  match last (filter (fun e => snd e = name) es) with Some e => Some (fst e) | None => acc end.
Proof.
  induction es as [|[i n] es IH]; intros acc; [done|]. cbn [foldl]. rewrite IH, filter_cons. cbn [snd].
  destruct (decide (n = name)); [|done]. rewrite last_cons. by destruct (last _).
Qed.

(** A directory block is a list of entries.  A search returns the inode of
    the last live entry with the name.  Adding a name to a block in which no
    entry was removed appends it, or reports a full block exactly when it does
    not fit.  Removing an inode blanks its first entry and keeps the others;
    an inode that is not there is reported and changes nothing. *)
Theorem dir_block_spec buf es id name :
  zlen buf = 4096 -> chain buf 0 es -> 0 < zlen name <= 252 -> Path.utf8_valid name = true ->
  fits 32 id -> id <> 0 ->
  find_entry buf BLOCK_SIZE name = fst <$> last (filter (fun e => snd e = name) (live es)) /\
  (Forall (fun e => fst e <> 0) es ->
   if decide (chain_end 0 es + entry_size_of (zlen name) <= 4096) then
     exists buf', write_entry_raw buf id name = Ok buf' /\ zlen buf' = 4096 /\
       chain buf' 0 (es ++ [(id, name)])
   else write_entry_raw buf id name = Err (Other "Directory block full")) /\
  (forall pre nm post, es = pre ++ (id, nm) :: post -> Forall (fun e => fst e <> id) pre ->
   exists buf', remove_entry_raw buf BLOCK_SIZE id = (true, buf') /\ zlen buf' = 4096 /\
     chain buf' 0 (pre ++ (0, nm) :: post)) /\
  (Forall (fun e => fst e <> id) es -> remove_entry_raw buf BLOCK_SIZE id = (false, buf)).
Proof.
  intros Hb Hc Hn Hu Hid Hnz. split; [|split; [|split]].
  - unfold find_entry. rewrite (dirents_chain buf es Hc), last_match. by destruct (last _).
  - intros Hl. unfold write_entry_raw. rewrite (proj2 (Z.ltb_ge _ _)) by lia.
    pose proof (entry_size_bounds (zlen name) ltac:(lia)) as [Hz1 Hz2].
    rewrite (find_place_chain buf _ es FUEL 0) by (done || lia). destruct (decide _) as [Hfit|]; [|done].
    pose proof (chain_end_le buf es 0 ltac:(lia) Hc). eexists. split; [done|].
    split; [|by apply chain_append]. rewrite zlen_upd; [done|lia|].
    unfold entry_bytes. rewrite !zlen_app, !zlen_le_bytes. lia.
  - intros pre nm post -> Hp. unfold remove_entry_raw.
    rewrite (find_inode_chain buf id nm post pre) by done.
    pose proof (chain_end_mid buf (id, nm) post pre 0 Hc). eexists. split; [done|].
    split; [|by eapply chain_blank]. rewrite zlen_upd; [done|lia|change (zlen (zeros 4)) with 4; lia].
  - intros Hp. unfold remove_entry_raw. by rewrite (find_inode_none buf id es).
Qed.

Lemma zero_chain : chain zero_block 0 [].
Proof. split; [done|]. reflexivity. Qed.

Lemma dir_block_spec_witness :
  exists buf', write_entry_raw zero_block 7 [97; 98] = Ok buf' /\ chain buf' 0 [(7, [97; 98])].
Proof.
  destruct (dir_block_spec zero_block [] 7 [97; 98]) as (_ & H & _);
    [reflexivity|exact zero_chain|by split|reflexivity|by split|done|].
  specialize (H ltac:(constructor)). vm_compute decide in H. destruct H as (buf' & H1 & _ & H2).
  exists buf'. by split.
Defined.

(** Reusing the place of a removed entry for a name of another length breaks
    the chain: after adding [a] and a ten-letter name, removing [a] and adding
    a nine-letter name, the ten-letter name is no longer found. *)
Lemma reuse_loses_entry :
  let long := repeat 98 10 in
  let b1 := try_entry (try_entry zero_block 2 [97]) 3 long in
  let b2 := try_entry (snd (remove_entry_raw b1 BLOCK_SIZE 2)) 4 (repeat 99 9) in
  find_entry b1 BLOCK_SIZE long = Some 3 /\ find_entry b2 BLOCK_SIZE long = None.
Proof. vm_compute. done. Qed.

End ZfsDir.
