(* ===== verification/ZfsJournal.v ===== *)
(** * ZiqaFS: the journal

    Models [src/fs/ziqafs/journal.rs].  The journal is one block: a 64-byte
    header and a ring of 63 entries of 64 bytes. *)

From S2P Require Import Prelude Bytes Abi Disk Zig ZfsBlock ZfsInode.
Import ZfsBlock ZfsInode.

Module ZfsJournal.

Definition JOURNAL_ENTRIES : Z := 63.
Definition JOURNAL_ENTRY_SIZE : Z := 64.
Definition JOURNAL_MAGIC : Z := 0x4A524E4C.

Inductive JournalOp := Free | AllocBlock | FreeBlock | WriteInode | WriteBitmap.

Definition op_byte (o : JournalOp) : Z :=
  match o with Free => 0 | AllocBlock => 1 | FreeBlock => 2 | WriteInode => 3 | WriteBitmap => 4 end.

Record JournalHeader := mkHeader { jmagic : Z; head : Z; committed : Z; jpad : list Z }.

Definition header_bytes (h : JournalHeader) : list Z :=
  le_bytes 4 (jmagic h) ++ le_bytes 4 (head h) ++ le_bytes 4 (committed h) ++ jpad h.

Definition header_of_bytes (bs : list Z) : JournalHeader :=
  mkHeader (u32_at 0 bs) (u32_at 4 bs) (u32_at 8 bs) (sub 12 52 bs).

Record JournalEntry := mkEntry { eop : Z; eblock : Z; edata : list Z }.

Definition entry_bytes (e : JournalEntry) : list Z :=
  [eop e; 0; 0; 0] ++ le_bytes 4 (eblock e) ++ edata e.

Definition entry_of_bytes (bs : list Z) : JournalEntry :=
  mkEntry (default 0 (bs !! 0%nat)) (u32_at 4 bs) (sub 8 56 bs).

Definition entry_off (slot : Z) : Z := 64 + slot * JOURNAL_ENTRY_SIZE.

(** The payload, cut or zero-filled to 56 bytes, with the CRC-32 of its first
    52 bytes in the last four. *)
Definition stamped (data : list Z) : list Z :=
  let payload := upd 0 (take 56 data) (zeros 56) in
  upd 52 (le_bytes 4 (Zig.crc32 (take 52 payload))) payload.

Section Journal.

Context {D : Type} {bd : BlockDevice D}.

Definition journal_read (d : D) : res AbiError (list Z * JournalHeader) :=
  buf ← read_block JOURNAL_BLOCK d;
  Ok (buf, header_of_bytes (sub 0 64 buf)).

(** [head + 1] and [committed += 1] are checked [u32] additions. *)
Definition journal_commit (op : JournalOp) (b : Z) (data : list Z) : M (Fs D) AbiError unit :=
  s ← get;
  '(buf, hdr) ← lift (journal_read (device s));
  if negb (jmagic hdr =? JOURNAL_MAGIC) then mret tt
  else
    let slot := head hdr mod JOURNAL_ENTRIES in
    let entry := mkEntry (op_byte op) b (stamped data) in
    let buf := upd (entry_off slot) (entry_bytes entry) buf in
    if (2 ^ 32 <=? head hdr + 1) || (2 ^ 32 <=? committed hdr + 1) then lift Panic
    else
      let hdr := mkHeader (jmagic hdr) ((head hdr + 1) mod JOURNAL_ENTRIES) (committed hdr + 1) (jpad hdr) in
      write_block JOURNAL_BLOCK (upd 0 (header_bytes hdr) buf).

(** A call whose error the caller drops; a panic is not an error. *)
Definition ignore (m : M (Fs D) AbiError unit) : M (Fs D) AbiError bool := fun s =>
  match m s with
  | (Ok _, s') => (Ok true, s')
  | (Err _, s') => (Ok false, s')
  | (Panic, s') => (Panic, s')
  | (Fault, s') => (Fault, s')
  end.

(** One entry of the ring; the result is the number of patches applied. *)
Definition replay_entry (buf : list Z) (i : Z) : M (Fs D) AbiError Z :=
  let entry := entry_of_bytes (sub (entry_off i) JOURNAL_ENTRY_SIZE buf) in
  if negb (u32_at 52 (edata entry) =? Zig.crc32 (take 52 (edata entry))) then mret 0
  else if eop entry =? op_byte WriteInode then
    if eblock entry <? INODE_COUNT then
      b ← ignore (patch_inode_raw (eblock entry) 0 (edata entry));
      mret (if b : bool then 1 else 0)
    else mret 0
  else if eop entry =? op_byte WriteBitmap then
    b ← ignore (patch_bitmap_byte (eblock entry) (default 0 (edata entry !! 0%nat)));
    mret (if b : bool then 1 else 0)
  else mret 0.

Fixpoint replay_entries (ix : list Z) (buf : list Z) : M (Fs D) AbiError Z :=
  match ix with
  | [] => mret 0
  | i :: ix =>
      n ← replay_entry buf i;
      m ← replay_entries ix buf;
      mret (n + m)
  end.

Definition journal_replay : M (Fs D) AbiError Z := fun s =>
  match journal_read (device s) with
  | Ok (buf, hdr) =>
      if negb (jmagic hdr =? JOURNAL_MAGIC) || (committed hdr =? 0) then (Ok 0, s)
      else replay_entries (seqZ 0 JOURNAL_ENTRIES) buf s
  | Err _ => (Ok 0, s)
  | Panic => (Panic, s)
  | Fault => (Fault, s)
  end.

End Journal.

End ZfsJournal.
