(* ===== verification/ZfsFile.v ===== *)
(** * ZiqaFS: files

    Models [src/fs/ziqafs/file.rs].  Names are byte lists, paths are strings;
    [now] is the uptime in seconds as [u32]. *)

From S2P Require Import Prelude Bytes Abi Disk Zig Path ZfsBlock ZfsInode ZfsDir ZfsJournal.
Import ZfsBlock ZfsInode ZfsDir ZfsJournal.

Module ZfsFile.

Section File.

Context {D : Type} {bd : BlockDevice D}.
Context (now : Z).

(** The loop of [read_file]: [buf] is the caller's buffer.  A turn copies at
    least one byte, so [to_read] turns are enough. *)
Fixpoint read_loop (fuel : nat) (inode : Inode) (offset to_read done : Z) (buf : list Z) (d : D)
    : res AbiError (Z * list Z) :=
  match fuel with
  | O => Ok (done, buf)
  | S fuel =>
      if done <? to_read then
        let logical := wrap 32 (offset + done) / BLOCK_SIZE in
        let block_off := (offset + done) mod BLOCK_SIZE in
        '(phys, _) ← inode_get_block inode logical d;
        if phys =? 0 then Ok (done, buf)
        else
          block_buf ← read_block phys d;
          let chunk := Z.min (to_read - done) (BLOCK_SIZE - block_off) in
          src ← slice block_off chunk block_buf;
          buf ← splice done src buf;
          read_loop fuel inode offset to_read (done + chunk) buf d
      else Ok (done, buf)
  end.

Definition read_file (inode_id offset : Z) (buf : list Z) (d : D) : res AbiError (Z * list Z) :=
  inode ← read_inode inode_id d;
  if size inode <=? offset then Ok (0, buf)
  else
    let to_read := Z.min (size inode - offset) (zlen buf) in
    read_loop (Z.to_nat to_read) inode offset to_read 0 buf d.

(** One turn of the loop of [write_file]: the block is copied, changed and
    written to a new place, the inode is pointed at it, the old one freed. *)
Definition write_turn (inode : Inode) (offset : Z) (buf : list Z) (done : Z)
    : M (Fs D) AbiError (Inode * Z) :=
  if 2 ^ 64 <=? offset + done then lift Panic else
  let logical := wrap 32 (offset + done) / BLOCK_SIZE in
  let block_off := (offset + done) mod BLOCK_SIZE in
  '(old_phys, _) ← get_blk inode logical;
  block_buf ← (if negb (old_phys =? 0) && ((0 <? block_off) || (zlen buf <? done + BLOCK_SIZE))
               then read_blk old_phys else mret zero_block);
  let chunk := Z.min (BLOCK_SIZE - block_off) (zlen buf - done) in
  src ← lift (slice done chunk buf);
  block_buf ← lift (splice block_off src block_buf);
  new_phys ← alloc_data_block;
  _ ← write_block new_phys block_buf;
  inode ← inode_set_block inode logical new_phys 0;
  _ ← (if negb (old_phys =? 0) && negb (old_phys =? new_phys) then free_data_block old_phys else mret tt);
  mret (inode, done + chunk).

Fixpoint write_loop (fuel : nat) (inode : Inode) (offset : Z) (buf : list Z) (done : Z)
    : M (Fs D) AbiError Inode :=
  match fuel with
  | O => mret inode
  | S fuel =>
      if done <? zlen buf then
        '(inode, done) ← write_turn inode offset buf done;
        write_loop fuel inode offset buf done
      else mret inode
  end.

Definition write_file (inode_id offset : Z) (buf : list Z) : M (Fs D) AbiError Z :=
  inode ← read_ino inode_id;
  if mode inode =? INODE_MODE_DIR then throw (Other "Cannot write to directory")
  else
    inode ← write_loop (length buf) inode offset buf 0;
    if 2 ^ 64 <=? offset + zlen buf then lift Panic else
    let new_size := Z.max (offset + zlen buf) (size inode) in
    let inode := set_times now (ctime inode) (atime inode) (set_size (wrap 32 new_size) inode) in
    _ ← write_inode inode_id inode;
    _ ← flush_superblock;
    mret (zlen buf).

(** [truncate]'s loop over the logical blocks past the new end. *)
Definition truncate_block (inode : Inode) (logical : Z) : M (Fs D) AbiError unit :=
  '(phys, _) ← get_blk inode logical;
  if phys =? 0 then mret tt
  else
    block_buf ← read_blk phys;
    if logical <? 10 then write_block phys block_buf
    else
      let idx := logical - 10 in
      if (idx <? WORDS) && negb (indirect inode =? 0) then
        buf ← read_blk (indirect inode);
        write_block (indirect inode) (set_u32 idx 0 buf)
      else mret tt.

Fixpoint truncate_loop (ls : list Z) (inode : Inode) : M (Fs D) AbiError unit :=
  match ls with
  | [] => mret tt
  | l :: ls => _ ← truncate_block inode l; truncate_loop ls inode
  end.

Definition truncate (inode_id new_size : Z) : M (Fs D) AbiError unit :=
  inode ← read_ino inode_id;
  if mode inode =? INODE_MODE_DIR then throw (Other "Cannot truncate directory")
  else
    let old_blocks := wrap 32 (blocks_of (size inode)) in
    let new_blocks := wrap 32 (blocks_of new_size) in
    _ ← truncate_loop (seqZ new_blocks (old_blocks - new_blocks)) inode;
    _ ← (if (0 <? new_size) && negb (new_size mod BLOCK_SIZE =? 0) then
           let last_logical := wrap 32 (new_size - 1) / BLOCK_SIZE in
           '(phys, _) ← get_blk inode last_logical;
           if phys =? 0 then mret tt
           else
             block_buf ← read_blk phys;
             let tail_start := new_size mod BLOCK_SIZE in
             write_block phys (take (Z.to_nat tail_start) block_buf ++ zeros (BLOCK_SIZE - tail_start))
         else mret tt);
    let inode := set_times now (ctime inode) (atime inode) (set_size (wrap 32 new_size) inode) in
    _ ← write_inode inode_id inode;
    flush_superblock.

(** The checks shared by the operations that add a name. *)
Definition bad_name (name : list Z) : bool := (zlen name =? 0) || (252 <? zlen name).

Definition check_parent (parent_inode : Z) (name : list Z) : M (Fs D) AbiError unit :=
  parent ← read_ino parent_inode;
  if negb (mode parent =? INODE_MODE_DIR) then throw (Other "Not a directory")
  else
    s ← get;
    o ← lift (lookup_in_dir parent name (device s));
    match o with
    | Some _ => throw (Other "File exists")
    | None => mret tt
    end.

Definition create_file (parent_inode : Z) (name : list Z) : M (Fs D) AbiError Z :=
  if bad_name name then throw (Other "Invalid name")
  else
    _ ← check_parent parent_inode name;
    new_id ← alloc_inode now INODE_MODE_FILE;
    _ ← dir_add_entry parent_inode new_id name;
    _ ← flush_superblock;
    mret new_id.

Definition create_dir (parent_inode : Z) (name : list Z) : M (Fs D) AbiError Z :=
  if bad_name name then throw (Other "Invalid name")
  else
    _ ← check_parent parent_inode name;
    new_id ← alloc_inode now INODE_MODE_DIR;
    _ ← init_dir_block now new_id parent_inode;
    _ ← dir_add_entry parent_inode new_id name;
    _ ← flush_superblock;
    mret new_id.

(** [unlink]'s scan: the last match with its block, and the block read last
    with its contents. *)
Record Scan := mkScan { target : option Z; found_phys : Z; last_phys : Z; last_buf : list Z }.

Fixpoint unlink_scan (ls : list Z) (parent : Inode) (name : list Z) (sc : Scan) (d : D)
    : res AbiError Scan :=
  match ls with
  | [] => Ok sc
  | logical :: ls =>
      '(phys, _) ← inode_get_block parent logical d;
      if phys =? 0 then unlink_scan ls parent name sc d
      else
        buf ← (if negb (phys =? last_phys sc) then read_block phys d else Ok (last_buf sc));
        let sc := match find_entry buf BLOCK_SIZE name with
                  | Some id => mkScan (Some id) phys phys buf
                  | None => mkScan (target sc) (found_phys sc) phys buf
                  end in
        unlink_scan ls parent name sc d
  end.

Definition unlink (parent_inode : Z) (name : list Z) : M (Fs D) AbiError unit :=
  parent ← read_ino parent_inode;
  s ← get;
  sc ← lift (unlink_scan (seqZ 0 (blocks_of (size parent))) parent name
               (mkScan None 0 0 zero_block) (device s));
  match target sc with
  | None => throw (Other "File not found")
  | Some target_id =>
      target_inode ← read_ino target_id;
      let target_inode := set_times (mtime target_inode) now (atime target_inode)
                            (set_nlink (Z.max 0 (nlink target_inode - 1)) target_inode) in
      buf ← (if negb (found_phys sc =? last_phys sc) then read_blk (found_phys sc) else mret (last_buf sc));
      _ ← write_block (found_phys sc) (snd (remove_entry_raw buf BLOCK_SIZE target_id));
      _ ← (if nlink target_inode =? 0 then
             _ ← free_inode_blocks target_inode;
             free_inode target_id
           else write_inode target_id target_inode);
      flush_superblock
  end.

(** [rename]'s loop: remove the entry from the first block that has it. *)
Fixpoint rename_scan (ls : list Z) (src : Inode) (target_id : Z) : M (Fs D) AbiError unit :=
  match ls with
  | [] => mret tt
  | logical :: ls =>
      '(phys, _) ← get_blk src logical;
      if phys =? 0 then rename_scan ls src target_id
      else
        buf ← read_blk phys;
        match remove_entry_raw buf BLOCK_SIZE target_id with
        | (true, buf') => write_block phys buf'
        | (false, _) => rename_scan ls src target_id
        end
  end.

Definition rename (src_parent : Z) (name : list Z) (dst_parent : Z) (new_name : list Z)
    : M (Fs D) AbiError unit :=
  if bad_name new_name then throw (Other "Invalid name")
  else
    src ← read_ino src_parent;
    s ← get;
    o ← lift (lookup_in_dir src name (device s));
    match o with
    | None => throw (Other "File not found")
    | Some target_id =>
        _ ← rename_scan (seqZ 0 (blocks_of (size src))) src target_id;
        dir_add_entry dst_parent target_id new_name
    end.

(** [nlink += 1] is checked; the journal's error is ignored. *)
Definition link (src_inode_id dst_parent : Z) (name : list Z) : M (Fs D) AbiError unit :=
  if bad_name name then throw (Other "Invalid name")
  else
    inode ← read_ino src_inode_id;
    if mode inode =? INODE_MODE_DIR then throw (Other "Cannot hard-link a directory")
    else
      dst ← read_ino dst_parent;
      s ← get;
      o ← lift (lookup_in_dir dst name (device s));
      match o with
      | Some _ => throw (Other "File exists")
      | None =>
          if 2 ^ 16 <=? nlink inode + 1 then lift Panic
          else
            let inode := set_times (mtime inode) now (atime inode) (set_nlink (nlink inode + 1) inode) in
            _ ← ignore (journal_commit WriteInode src_inode_id (take 56 (inode_bytes inode)));
            _ ← write_inode src_inode_id inode;
            dir_add_entry dst_parent src_inode_id name
      end.

Fixpoint read_dir_blocks (ls : list Z) (inode : Inode) (d : D) : res AbiError (list (list Z * Z)) :=
  match ls with
  | [] => Ok []
  | logical :: ls =>
      '(phys, _) ← inode_get_block inode logical d;
      if phys =? 0 then read_dir_blocks ls inode d
      else
        buf ← read_block phys d;
        rest ← read_dir_blocks ls inode d;
        Ok (map (fun '(id, name) => (name, id))
              (filter (fun e => snd e <> DOT /\ snd e <> DOTDOT) (dirents buf BLOCK_SIZE)) ++ rest)
  end.

Definition read_dir (inode_id : Z) (d : D) : res AbiError (list (list Z * Z)) :=
  inode ← read_inode inode_id d;
  if negb (mode inode =? INODE_MODE_DIR) then Err (Other "Not a directory")
  else read_dir_blocks (seqZ 0 (blocks_of (size inode))) inode d.

Fixpoint walk (parts : list string) (current : Z) (d : D) : res AbiError Z :=
  match parts with
  | [] => Ok current
  | part :: parts =>
      inode ← read_inode current d;
      if negb (mode inode =? INODE_MODE_DIR) then Err (Other "Not a directory")
      else
        o ← lookup_in_dir inode (Path.bytes_of part) d;
        match o with
        | Some id => walk parts id d
        | None => Err (Other "File not found")
        end
  end.

Definition root_lookup (path : string) (d : D) : res AbiError Z :=
  let name := Path.trim_end_matches Path.slash (Path.trim_start_matches Path.slash path) in
  if decide (name = ""%string) then Err (Other "Empty path")
  else walk (Path.split Path.slash name) ROOT_INODE d.

Fixpoint copy_blocks (ls : list Z) (src : Inode) (new_id size_ total_logical : Z)
    : M (Fs D) AbiError unit :=
  match ls with
  | [] => mret tt
  | logical :: ls =>
      '(phys, _) ← get_blk src logical;
      _ ← (if phys =? 0 then mret 0
           else
             block_buf ← read_blk phys;
             let write_len :=
               if (logical =? Z.max 0 (total_logical - 1)) && negb (size_ mod BLOCK_SIZE =? 0)
               then size_ mod BLOCK_SIZE else BLOCK_SIZE in
             write_file new_id (logical * BLOCK_SIZE) (take (Z.to_nat write_len) block_buf));
      copy_blocks ls src new_id size_ total_logical
  end.

Definition copy_file (src_inode_id dst_parent : Z) (name : list Z) : M (Fs D) AbiError Z :=
  src ← read_ino src_inode_id;
  if mode src =? INODE_MODE_DIR then throw (Other "Cannot copy directory")
  else
    new_id ← create_file dst_parent name;
    let total_logical := blocks_of (size src) in
    _ ← copy_blocks (seqZ 0 total_logical) src new_id (size src) total_logical;
    mret new_id.

(** [du], [None] when the fuel runs out; the sum is checked [u32]
    addition, and errors count as nothing. *)
Fixpoint du (fuel : nat) (inode_id : Z) (d : D) : option (res AbiError Z) :=
  match fuel with
  | O => None
  | S fuel =>
      match read_inode inode_id d with
      | Err _ => Some (Ok 0)
      | Panic => Some Panic
      | Fault => Some Fault
      | Ok i =>
          let own := blocks_of (size i) in
          if negb (mode i =? INODE_MODE_DIR) then Some (Ok own)
          else
            match read_dir inode_id d with
            | Panic => Some Panic
            | Fault => Some Fault
            | r =>
                let children := match r with Ok l => l | _ => [] end in
                sizes ← mapM (fun '(_, cid) => du fuel cid d) children;
                Some (foldl (fun acc x =>
                        a ← acc; b ← x; if 2 ^ 32 <=? a + b then Panic else Ok (a + b))
                      (Ok 0) sizes ≫= fun sum =>
                      if 2 ^ 32 <=? own + sum then Panic else Ok (own + sum))
            end
      end
  end.

End File.

End ZfsFile.
