(* ===== verification/Zfs.v ===== *)
(** * ZiqaFS: mounting, formatting and checking

    Models [src/fs/ziqafs/mod.rs] and [src/fs/ziqafs/fsck.rs].  The other
    methods of [ZiqaFs] pass their arguments on to the functions of the
    component files. *)

From S2P Require Import Prelude Bytes Abi Disk Zig ZfsBlock ZfsInode ZfsDir ZfsJournal ZfsFile.
Import Disk.
Import ZfsBlock ZfsInode ZfsDir ZfsJournal ZfsFile.

Module Zfs.

Record FsckResult := mkFsck { fok : bool; errors : Z; leaked_blocks : Z; leaked_inodes : Z }.

Record StatFs := mkStat { st_total : Z; st_free : Z; st_inodes : Z; st_free_inodes : Z; st_block_size : Z }.

(** Set the bits of a list of blocks. *)
Definition set_bits (bs : list Z) (buf : list Z) : res AbiError (list Z) :=
  foldl (fun acc b => buf ← acc; set_bitmap_bit buf b) (Ok buf) bs.

Section Zfs.

Context {D : Type} {bd : BlockDevice D}.
Context (now : Z).

Definition mount (d : D) : res AbiError (Fs D) :=
  sb_buf ← read_blocks SUPERBLOCK_BLOCK 1 BLOCK_SIZE d;
  let sb := sb_of_bytes (sub 0 52 sb_buf) in
  if negb (magic sb =? MAGIC) then Err (Other "Not a ZiqaFS filesystem")
  else if negb (block_size sb =? BLOCK_SIZE) then Err (Other "Block size mismatch")
  else Ok (mkFs d sb).

Definition create_root_dir : M (Fs D) AbiError unit :=
  root_id ← alloc_inode now INODE_MODE_DIR;
  root_block ← alloc_data_block;
  root_inode ← read_ino root_id;
  c ← lift (index (block_checksums root_inode) 0);
  let root_inode := set_size BLOCK_SIZE (set_direct 0 root_block c root_inode) in
  _ ← write_inode root_id root_inode;
  let dir_buf := try_entry zero_block root_id DOT in
  write_block root_block dir_buf.

(** The superblock of a new file system; sizes are [u64] cut to [u32]. *)
Definition new_superblock (d : D) : Superblock :=
  let total := wrap 32 (total_sectors d * SECTOR_SIZE / BLOCK_SIZE) in
  mkSb MAGIC total INODE_COUNT FIRST_DATA_BLOCK BLOCK_SIZE BMAP_DIRTY
    (Z.max 0 (total - FIRST_DATA_BLOCK)) (INODE_COUNT - 1) (zeros 20).

Definition format : M (Fs D) AbiError unit :=
  _ ← flush_superblock;
  bitmap ← lift (set_bits (seqZ 0 FIRST_DATA_BLOCK) zero_block);
  _ ← write_block BITMAP_BLOCK bitmap;
  _ ← write_block JOURNAL_BLOCK (upd 0 (header_bytes (mkHeader JOURNAL_MAGIC 0 0 (zeros 52))) zero_block);
  _ ← write_block INODE_TABLE_BLOCK zero_block;
  _ ← create_root_dir;
  _ ← modify (set_sb (set_flags BMAP_CLEAN));
  flush_superblock.

(** [ZiqaFs::format] of a device. *)
Definition format_device (d : D) : res AbiError unit * Fs D := format (mkFs d (new_superblock d)).

(** The blocks an inode refers to, as [fsck] collects them: blocks whose
    lookup fails are left out. *)
Fixpoint data_blocks (ls : list Z) (inode : Inode) (d : D) : res AbiError (list Z) :=
  match ls with
  | [] => Ok []
  | l :: ls =>
      match inode_get_block inode l d with
      | Panic => Panic
      | Fault => Fault
      | Ok (phys, _) =>
          rest ← data_blocks ls inode d;
          Ok (if phys =? 0 then rest else phys :: rest)
      | Err _ => data_blocks ls inode d
      end
  end.

(** The loop over the inodes: live inodes and the bitmap of reachable blocks. *)
Fixpoint fsck_inodes (ids : list Z) (live : Z) (reachable : list Z) (d : D) : res AbiError (Z * list Z) :=
  match ids with
  | [] => Ok (live, reachable)
  | i :: ids =>
      match read_inode i d with
      | Panic => Panic
      | Fault => Fault
      | Err _ => fsck_inodes ids live reachable d
      | Ok inode =>
          if mode inode =? 0 then fsck_inodes ids live reachable d
          else
            bs ← data_blocks (seqZ 0 (blocks_of (size inode))) inode d;
            reachable ← set_bits bs reachable;
            reachable ← (if indirect inode =? 0 then Ok reachable
                         else set_bitmap_bit reachable (indirect inode));
            reachable ← (if double_indirect inode =? 0 then Ok reachable
                         else set_bitmap_bit reachable (double_indirect inode));
            fsck_inodes ids (live + 1) reachable d
      end
  end.

Definition fsck (s : Fs D) : res AbiError FsckResult :=
  if negb (magic (sb s) =? MAGIC) then Ok (mkFsck false 1 0 0)
  else
    match read_block BITMAP_BLOCK (device s) with
    | Err _ => Ok (mkFsck false 1 0 0)
    | Panic => Panic
    | Fault => Fault
    | Ok bitmap =>
        reachable ← set_bits (seqZ 0 (first_data_block (sb s))) zero_block;
        '(live, reachable) ← fsck_inodes (seqZ 1 (INODE_COUNT - 1)) 0 reachable (device s);
        leaked ← Zig.bitmap_count_leaked bitmap reachable (first_data_block (sb s)) (total_blocks (sb s));
        let expected_free := INODE_COUNT - 1 - live in
        let wrong := negb (free_inodes (sb s) =? expected_free) in
        let errors := leaked + (if wrong then 1 else 0) in
        if wrong && (sint 32 (free_inodes (sb s)) - expected_free <? - 2 ^ 31) then Panic   (* i32 *)
        else Ok (mkFsck (errors =? 0) errors leaked
              (if wrong then Z.abs (sint 32 (free_inodes (sb s)) - expected_free) else 0))
    end.

Definition stat (inode_id : Z) (d : D) : res AbiError (Z * Z) :=
  i ← read_inode inode_id d;
  Ok (mode i, size i).

Definition statfs (s : Fs D) : StatFs :=
  mkStat (total_blocks (sb s)) (free_blocks (sb s)) (inode_count (sb s)) (free_inodes (sb s))
    (block_size (sb s)).

(** ** A formatted device can be mounted *)

Context {ds : DiskSpec D}.

(** The inode of an empty directory or file. *)
Definition blank (m : Z) : Inode :=
  mkInode 0 m 1 0 0 0 now now now (replicate 10 0) (replicate 10 0) 0 0 0 0 (zeros 12).

Lemma blank_wf m : fits 16 m -> fits 32 now -> inode_wf (blank m).
Proof. intros Hm Hn. split; cbn; try done; try (by split); split_and!; done || by repeat constructor. Qed.

(** The first inode allocated in an empty table. *)
Lemma alloc_first_inode s m :
  layout_ok s -> block (device s) INODE_TABLE_BLOCK = zero_block -> fits 16 m -> fits 32 now ->
  exists s', alloc_inode now m s = (Ok 1, s') /\ total_sectors (device s') = total_sectors (device s) /\
    sb s' = set_free_inodes (sat_dec (free_inodes (sb s))) (sb s) /\ inode_at (device s') 1 (blank m) /\
    forall c, c <> INODE_TABLE_BLOCK -> block (device s') c = block (device s) c.
Proof.
  intros Hl Hz Hm Hn. unfold alloc_inode, mbind, M_bind, lift, modify, mret, M_ret.
  assert (Hod : on_disk (device s) INODE_TABLE_BLOCK) by (apply layout_meta; [done|unfold INODE_TABLE_BLOCK; lia]).
  rewrite read_blk_ok, Hz by done.
  assert (Hff : Zig.inode_find_free (E:=AbiError) zero_block INODE_COUNT INODE_SIZE 1 = Ok (Some 1)) by reflexivity.
  rewrite Hff. unfold write_slot. rewrite slot_access_ok by (unfold slot_ok; lia). assert (Hw := blank_wf m Hm Hn).
  change (fresh_inode now m) with (set_checksum (calculate_inode_checksum (blank m)) (blank m)).
  set (i := set_checksum _ (blank m)).
  assert (Hi : zlen (inode_bytes i) = 136) by (by apply inode_bytes_len, set_checksum_wf).
  destruct (write_block_ok s INODE_TABLE_BLOCK (upd (1 * INODE_SIZE) (inode_bytes i) zero_block))
    as (s1 & Hw1 & Hsb & Ht & Hb); [done|unfold INODE_SIZE; rewrite zlen_upd; change (zlen zero_block) with 4096; lia
      |apply upd_bytes; [by apply inode_bytes_bytes, set_checksum_wf|apply zeros_bytes]|].
  rewrite Hw1. eexists. split; [done|]. cbn [device sb set_sb]. rewrite Hsb. split_and!; [done|done| |].
  - split; [done|]. unfold slot. rewrite Hb, decide_True by done. fold i. change INODE_SIZE with 136.
    rewrite <- Hi at 2. apply sub_upd_same; change (zlen zero_block) with 4096; lia.
  - intros c Hc. by rewrite Hb, decide_False.
Qed.

Lemma inode_at_checksum d id c i : inode_at d id (set_checksum c i) -> inode_wf i -> inode_at d id i.
Proof. intros [_ H] Hw. by split. Qed.

Lemma root_block_ok :
  zlen (try_entry zero_block 1 DOT) = 4096 /\ Forall is_byte (try_entry zero_block 1 DOT).
Proof.
  split; [reflexivity|]. apply (bool_decide_unpack (Forall (fun b => 0 <= b < 256) (try_entry zero_block 1 DOT))).
  vm_compute. exact I.
Qed.

(** The root directory: inode 1, one block, the entry for itself. *)
Definition root_inode_of (b : Z) : Inode := set_size BLOCK_SIZE (set_direct 0 b 0 (blank INODE_MODE_DIR)).

Lemma create_root_dir_ok s :
  layout_ok s -> first_data_block (sb s) = 5 -> 5 < total_blocks (sb s) -> ~ used s 5 -> fits 32 now ->
  block (device s) INODE_TABLE_BLOCK = zero_block ->
  exists s', create_root_dir s = (Ok tt, s') /\ total_sectors (device s') = total_sectors (device s) /\
    sb s' = set_free_blocks (sat_dec (free_blocks (sb s))) (set_free_inodes (sat_dec (free_inodes (sb s))) (sb s)) /\
    inode_at (device s') 1 (root_inode_of 5) /\ block (device s') 5 = try_entry zero_block 1 DOT /\
    (forall c, 0 <= c -> used s' c <-> c = 5 \/ used s c).
Proof.
  intros Hl Hfd Ht5 Hu5 Hn Hz. unfold create_root_dir, mbind, M_bind, lift.
  destruct (alloc_first_inode s INODE_MODE_DIR Hl Hz) as (s1 & -> & Ht1 & Hsb1 & Hat1 & Hb1); [by split|done|].
  assert (Hs1 : same_layout s s1) by (split_and!; by rewrite ?Hsb1).
  assert (Hl1 : layout_ok s1) by (by eapply same_layout_ok). pose proof (alloc_data_block_ok s1 Hl1) as Ha.
  assert (Hu1 : forall c, used s1 c <-> used s c) by (intros c; unfold used; by rewrite Hb1).
  destruct (alloc_data_block s1) as [[b|e| |] s2]; [|destruct Ha as (_ & _ & Hall)|done|done].
  2: { destruct Hu5. apply Hu1, Hall. rewrite Hsb1. cbn. lia. }
  destruct Ha as (Hr & Hf & Hlow & Hu2 & Hb2 & Hs2 & Hsb2). rewrite Hsb1 in Hr. cbn in Hr.
  assert (b = 5) as ->.
  { destruct (decide (b = 5)); [done|]. destruct Hu5. apply Hu1, Hlow. rewrite Hsb1. cbn. lia. }
  assert (Hl2 : layout_ok s2) by (by eapply same_layout_ok).
  assert (Hod : on_disk (device s2) INODE_TABLE_BLOCK) by (apply layout_meta; [done|unfold INODE_TABLE_BLOCK; lia]).
  unfold read_ino. rewrite (read_inode_ok (device s2) 1 (blank INODE_MODE_DIR)); [|done|by split|].
  2: { destruct Hat1 as [Hw Hat1]. split; [done|]. rewrite <- Hat1. unfold slot. by rewrite Hb2. }
  assert (Hidx : forall c, index (E:=AbiError) (block_checksums (set_checksum c (blank INODE_MODE_DIR))) 0 = Ok 0)
    by reflexivity. rewrite Hidx. generalize (calculate_inode_checksum (blank INODE_MODE_DIR)). intros c0.
  set (i := set_size BLOCK_SIZE (set_direct 0 5 0 (set_checksum c0 (blank INODE_MODE_DIR)))).
  assert (Hwf : inode_wf (root_inode_of 5)).
  { split; cbn; try done; try (by split); split_and!; done || by repeat constructor. }
  destruct (write_inode_ok s2 1 i) as (s3 & Hw3 & Hsb3 & Ht3 & Hat3 & _ & Hb3);
    [done|by split|exact (set_checksum_wf _ _ Hwf)|]. rewrite Hw3.
  assert (Hs3 : same_layout s2 s3) by (split_and!; by rewrite ?Hsb3).
  assert (Hl3 : layout_ok s3) by (by eapply same_layout_ok).
  destruct (write_block_ok s3 5 (try_entry zero_block 1 DOT)) as (s4 & -> & Hsb4 & Ht4 & Hb4);
    [|apply root_block_ok..|].
  { apply layout_on_disk; [done|]. rewrite Hsb3, Hsb2, Hsb1. cbn. lia. }
  exists s4. split; [done|]. split_and!.
  - rewrite Ht4, Ht3. destruct Hs2 as (-> & _). done.
  - by rewrite Hsb4, Hsb3, Hsb2, Hsb1.
  - apply (inode_at_checksum _ _ c0); [|exact Hwf].
    change (inode_at (device s4) 1 i). clearbody i. destruct Hat3 as [Hw Hat3]. split; [exact Hw|].
    rewrite <- Hat3. unfold slot. by rewrite Hb4.
  - by rewrite Hb4.
  - intros c Hc. rewrite <- Hu1. rewrite <- Hu2 by done. unfold used. by rewrite Hb4, Hb3.
Qed.

(** The bitmap of a new file system. *)
Definition first_bitmap : list Z := 0x1F :: zeros 4095.

Lemma first_bitmap_ok :
  set_bits (seqZ 0 FIRST_DATA_BLOCK) zero_block = Ok first_bitmap /\ zlen first_bitmap = 4096 /\
  Forall is_byte first_bitmap.
Proof. split; [reflexivity|]. split; [reflexivity|]. constructor; [by split|apply zeros_bytes]. Qed.

Lemma first_bitmap_bit b : 0 <= b -> Zig.bit first_bitmap b = true <-> b < 5.
Proof.
  intros Hb. unfold Zig.bit, first_bitmap. destruct (Z.to_nat (b / 8)) as [|n] eqn:Hn.
  - assert (Hlt : b < 8) by (pose proof (Z.div_mod b 8 ltac:(done)); pose proof (Z.mod_pos_bound b 8 ltac:(done)); lia).
    rewrite Z.mod_small by lia. change (Z.testbit (Z.ones 5) b = true <-> b < 5).
    rewrite Z.testbit_ones by lia. rewrite andb_true_iff, Z.leb_le, Z.ltb_lt. lia.
  - assert (8 <= b) by (destruct (decide (b < 8)); [rewrite Z.div_small in Hn by lia; done|lia]).
    cbn [lookup list_lookup]. split; [|lia]. unfold zeros.
    destruct (replicate (Z.to_nat 4095) 0 !! n) as [x|] eqn:Hx; cbn [default].
    + apply lookup_replicate in Hx as [-> _]. by rewrite Z.testbit_0_l.
    + by rewrite Z.testbit_0_l.
Qed.

Definition journal_header : list Z := upd 0 (header_bytes (mkHeader JOURNAL_MAGIC 0 0 (zeros 52))) zero_block.

Lemma journal_header_ok : zlen journal_header = 4096 /\ Forall is_byte journal_header.
Proof.
  split; [reflexivity|]. apply (bool_decide_unpack (Forall (fun b => 0 <= b < 256) journal_header)).
  vm_compute. exact I.
Qed.

(** The metadata written before the root directory. *)
Lemma format_meta_ok s :
  layout_ok s -> sb_wf s ->
  exists s', (forall k : M (Fs D) AbiError unit,
              (_ ← flush_superblock;
               bitmap ← lift (set_bits (seqZ 0 FIRST_DATA_BLOCK) zero_block);
               _ ← write_block BITMAP_BLOCK bitmap;
               _ ← write_block JOURNAL_BLOCK journal_header;
               _ ← write_block INODE_TABLE_BLOCK zero_block; k) s = k s') /\
    sb s' = sb s /\ total_sectors (device s') = total_sectors (device s) /\
    block (device s') BITMAP_BLOCK = first_bitmap /\ block (device s') INODE_TABLE_BLOCK = zero_block.
Proof.
  intros Hl Hw. assert (Hod : forall s' b, total_sectors (device s') = total_sectors (device s) -> 0 <= b < 5 ->
                          on_disk (device s') b).
  { intros s' b Ht Hb. unfold on_disk. rewrite Ht. by apply layout_meta. }
  destruct first_bitmap_ok as (Hfb & Hfl & Hfy), journal_header_ok as [Hjl Hjy].
  unfold mbind, M_bind, lift. rewrite Hfb.
  destruct (flush_superblock_ok s Hl Hw) as (s1 & -> & Hsb1 & Ht1 & _).
  destruct (write_block_ok s1 BITMAP_BLOCK first_bitmap) as (s2 & -> & Hsb2 & Ht2 & Hb2);
    [by apply Hod|exact Hfl|exact Hfy|].
  destruct (write_block_ok s2 JOURNAL_BLOCK journal_header) as (s3 & -> & Hsb3 & Ht3 & Hb3);
    [apply Hod; [congruence|done]|exact Hjl|exact Hjy|].
  destruct (write_block_ok s3 INODE_TABLE_BLOCK zero_block) as (s4 & -> & Hsb4 & Ht4 & Hb4);
    [apply Hod; [congruence|done]|reflexivity|apply zeros_bytes|].
  exists s4. split_and!; [done|congruence|congruence| |by rewrite Hb4, decide_True].
  rewrite Hb4, decide_False by done. rewrite Hb3, decide_False by done. by rewrite Hb2, decide_True.
Qed.

(** C40. Formatting a device of 6 to 32768 blocks succeeds, and mounting the
    result gives the file system back: the counters in the superblock are
    right, block 5 is the only data block in use, and inode 1 is the root
    directory, whose block holds the entry for itself. *)
Theorem format_mounts d :
  fits 32 now -> 48 <= total_sectors d < 32769 * 8 ->
  exists s, format_device d = (Ok tt, s) /\ mount (device s) = Ok s /\ layout_ok s /\
    statfs s = mkStat (total_sectors d / 8) (total_sectors d / 8 - 6) 32 30 4096 /\
    (forall b, first_data_block (sb s) <= b -> used s b <-> b = 5) /\
    read_inode ROOT_INODE (device s) = Ok (set_checksum (calculate_inode_checksum (root_inode_of 5)) (root_inode_of 5)) /\
    find_entry (block (device s) 5) BLOCK_SIZE DOT = Some ROOT_INODE.
Proof.
  intros Hn Ht. unfold format_device. set (t := total_sectors d / 8).
  assert (Htb : 6 <= t <= 32768 /\ t * 8 <= total_sectors d).
  { unfold t. split; [split; [apply Z.div_le_lower_bound|apply Z.lt_succ_r, Z.div_lt_upper_bound]; lia|].
    rewrite Z.mul_comm. apply Z.mul_div_le. lia. }
  assert (Htot : wrap 32 (total_sectors d * SECTOR_SIZE / BLOCK_SIZE) = t).
  { unfold SECTOR_SIZE, BLOCK_SIZE. change 4096 with (8 * 512). rewrite Z.div_mul_cancel_r by done.
    apply wrap_small. fold t. split; lia. }
  set (s0 := mkFs d (new_superblock d)).
  assert (Hsb0 : sb s0 = mkSb MAGIC t 32 5 4096 1 (t - 5) 31 (zeros 20)).
  { unfold s0, new_superblock. cbn [sb]. rewrite Htot. unfold FIRST_DATA_BLOCK. rewrite Z.max_r by lia. done. }
  assert (Hl0 : layout_ok s0) by (split; rewrite Hsb0; cbn; lia).
  assert (Hw0 : sb_wf s0) by (unfold sb_wf; rewrite Hsb0; split; [done|apply zeros_bytes]).
  destruct (format_meta_ok s0 Hl0 Hw0) as (s1 & Hm & Hsb1 & Ht1 & Hbm & Hit).
  assert (Hu1 : forall b, 0 <= b -> used s1 b <-> b < 5) by (intros b Hb; unfold used; rewrite Hbm; by apply first_bitmap_bit).
  assert (Hl1 : layout_ok s1) by (split; rewrite ?Hsb1, ?Hsb0, ?Ht1; cbn; lia).
  destruct (create_root_dir_ok s1) as (s2 & Hr & Ht2 & Hsb2 & Hat & Hb5 & Hu2);
    [done|by rewrite Hsb1, Hsb0|rewrite Hsb1, Hsb0; cbn; lia|rewrite Hu1; lia|done|done|].
  set (s3 := set_sb (set_flags BMAP_CLEAN) s2).
  assert (Hsb3 : sb s3 = mkSb MAGIC t 32 5 4096 0 (t - 6) 30 (zeros 20)).
  { unfold s3. cbn [sb set_sb]. rewrite Hsb2, Hsb1, Hsb0. unfold set_flags, set_free_blocks, set_free_inodes, sat_dec.
    cbn. f_equal. lia. }
  destruct (flush_superblock_ok s3) as (s4 & Hf & Hsb4 & Ht4 & Hb4 & Hb41).
  { split; rewrite ?Hsb3; cbn [s3 device set_sb]; rewrite ?Ht2, ?Ht1; cbn; lia. }
  { unfold sb_wf. rewrite Hsb3. split; [done|apply zeros_bytes]. }
  exists s4. split.
  { unfold format, mbind, M_bind, lift, modify in *. fold journal_header.
    rewrite Hm, Hr. fold s3. by rewrite Hf. }
  assert (Htt : total_sectors (device s4) = total_sectors d) by (rewrite Ht4; cbn [s3 device set_sb]; by rewrite Ht2, Ht1).
  assert (Hod : forall b, 0 <= b < 5 -> on_disk (device s4) b) by (intros b Hb; unfold on_disk; rewrite Htt; lia).
  assert (Hb35 : block (device s4) 5 = block (device s2) 5) by (by rewrite Hb4).
  split; [|split; [|split; [|split; [|split]]]].
  - unfold mount. fold (read_block SUPERBLOCK_BLOCK (device s4)). rewrite read_block_ok by (by apply Hod).
    cbn [mbind res_bind]. rewrite Hb41, sb_roundtrip; rewrite Hsb3; [|done|].
    + cbn [magic block_size]. rewrite !Z.eqb_refl. cbn [negb]. rewrite <- Hsb3, <- Hsb4. by destruct s4.
    + unfold sb_words_fit. cbn. rewrite !Forall_cons. unfold fits. split_and!; try done; lia.
  - split; rewrite ?Htt, ?Hsb4, ?Hsb3; cbn; lia.
  - unfold statfs. by rewrite Hsb4, Hsb3.
  - rewrite Hsb4, Hsb3. cbn [first_data_block]. intros b Hb. unfold used. rewrite Hb4 by done.
    change (used s2 b <-> b = 5). rewrite Hu2, Hu1 by lia. lia.
  - apply read_inode_ok; [by apply Hod|by split|]. destruct Hat as [Hw Hat]. split; [exact Hw|].
    rewrite <- Hat. unfold slot. by rewrite Hb4.
  - rewrite Hb35, Hb5. reflexivity.
Qed.

(** ** The checker *)

Lemma inode_30_faults d : on_disk d INODE_TABLE_BLOCK -> read_inode 30 d = Fault.
Proof. intros Hd. unfold read_inode. change (INODE_COUNT <=? 30) with false. by rewrite read_block_ok. Qed.

Lemma fsck_inodes_stuck ids live reach d r :
  on_disk d INODE_TABLE_BLOCK -> 30 ∈ ids -> fsck_inodes ids live reach d <> Ok r.
Proof.
  intros Hd. revert live reach. induction ids as [|i ids IH]; intros live reach; [set_solver|].
  rewrite elem_of_cons. intros [<-|Hin]; cbn [fsck_inodes]; [by rewrite inode_30_faults|].
  destruct (read_inode i d) as [inode| | |]; [|by apply IH|done|done].
  destruct (mode inode =? 0); [by apply IH|].
  destruct (data_blocks _ inode d) as [bs| | |]; [|done..]. cbn [mbind res_bind].
  destruct (set_bits bs reach) as [r1| | |]; [|done..]. cbn [mbind res_bind].
  destruct (if indirect inode =? 0 then _ else _) as [r2| | |]; [|done..]. cbn [mbind res_bind].
  destruct (if double_indirect inode =? 0 then _ else _) as [r3| | |]; [|done..]. cbn [mbind res_bind]. by apply IH.
Qed.

(** Inode 30 does not lie inside the inode table, so the checker never gives a
    verdict on a mounted file system. *)
Lemma fsck_never_completes s r : layout_ok s -> magic (sb s) = MAGIC -> fsck s <> Ok r.
Proof.
  intros Hl Hm. unfold fsck. rewrite Hm, Z.eqb_refl. cbn [negb].
  rewrite read_block_ok by (by apply layout_meta). destruct (set_bits _ zero_block) as [reach| | |]; [|done..].
  cbn [mbind res_bind].
  destruct (fsck_inodes _ 0 reach (device s)) as [[live reach']| | |] eqn:Hf; [|done..].
  apply fsck_inodes_stuck in Hf; [done|by apply layout_meta|]. apply elem_of_seqZ. unfold INODE_COUNT. lia.
Qed.

End Zfs.

(** ** Examples on a disk of sixteen blocks *)

Definition empty_disk : MemDisk := mkDisk (fun _ => []) 128.

Lemma format_mounts_witness :
  48 <= total_sectors empty_disk < 32769 * 8 /\
  exists s, format_device 9 empty_disk = (Ok tt, s) /\ mount (device s) = Ok s /\
    statfs s = mkStat 16 10 32 30 4096.
Proof.
  assert (Ht : 48 <= total_sectors empty_disk < 32769 * 8) by (by split). split; [exact Ht|].
  destruct (format_mounts 9 empty_disk ltac:(by split) Ht) as (s & H1 & H2 & _ & H3 & _).
  exists s. split; [exact H1|]. split; [exact H2|exact H3].
Defined.

Definition formatted : Fs MemDisk := snd (format_device 0 empty_disk).

(** A hard link leaves a journal entry with the inode's old checksum; replaying
    the journal makes the inode unreadable. *)
Lemma link_then_replay_breaks :
  fst ((id ← create_file 0 ROOT_INODE [97]; _ ← link 0 id ROOT_INODE [98]; i ← read_ino id; mret (nlink i)) formatted)
    = Ok 2 /\
  fst ((id ← create_file 0 ROOT_INODE [97]; _ ← link 0 id ROOT_INODE [98]; _ ← journal_replay;
        i ← read_ino id; mret (nlink i)) formatted) = Err (Other "Inode checksum mismatch").
Proof. split; vm_compute; reflexivity. Qed.

(** With inodes 1 to 29 in use the next allocation writes outside the table's
    block. *)
Lemma thirtieth_inode_faults :
  fst (alloc_inode 0 INODE_MODE_FILE
         (snd (write_block INODE_TABLE_BLOCK (replicate 4080 1 ++ zeros 16) formatted))) = Fault.
Proof. vm_compute. reflexivity. Qed.

(** Truncation clears a pointer in the indirect block and keeps the checksum of
    that block, so the next pointer can no longer be read. *)
Lemma truncate_breaks_indirect :
  fst ((id ← create_file 0 ROOT_INODE [97]; _ ← write_file 0 id 0 (replicate (12 * 4096) 1);
        truncate 0 id 0) (snd (format_device 0 (mkDisk (fun _ => []) 256))))
    = Err (Other "Indirect block checksum mismatch").
Proof. vm_compute. reflexivity. Qed.

(** With two names for a file, renaming the second takes the first away. *)
Lemma rename_removes_other_link :
  read_dir ROOT_INODE (device (snd
    ((id ← create_file 0 ROOT_INODE [97]; _ ← link 0 id ROOT_INODE [98];
      rename ROOT_INODE [98] ROOT_INODE [99]) formatted))) = Ok [([99], 2); ([98], 2)].
Proof. vm_compute. reflexivity. Qed.

(** The search for a free inode looks at the low byte of the checksum: two files
    created at this uptime get the same inode. *)
Lemma inode_given_twice :
  let two := (a ← create_file 325 ROOT_INODE [97]; b ← create_file 325 ROOT_INODE [98]; mret (a, b)) in
  fst (two formatted) = Ok (2, 2).
Proof. vm_compute. reflexivity. Qed.

End Zfs.
