(* ===== verification/ZfsFileSpec.v ===== *)
(** * ZiqaFS: reading back what was written

    The block map of a file with direct and single-indirect blocks (up to 522
    blocks of 4096 bytes), what the functions of [ZfsFile] do to it, and the
    theorem that a write is read back and leaves every other file alone. *)

From S2P Require Import Prelude Bytes Abi Disk Zig ZfsBlock ZfsInode ZfsDir ZfsFile.
Import ZfsBlock ZfsInode ZfsDir ZfsFile.

Module ZfsFileSpec.

Section Spec.

Context {D : Type} {bd : BlockDevice D} {ds : DiskSpec D}.

(** The block that holds logical block [l], 0 when there is none. *)
Definition phys (d : D) (i : Inode) (l : Z) : Z :=
  if l <? 10 then default 0 (blocks i !! Z.to_nat l)
  else if indirect i =? 0 then 0
  else fst (pair_at (l - 10) (block d (indirect i))).

Definition mapped_range (l : Z) : Prop := 0 <= l < 522.

(** A data block that is in use. *)
Definition data (s : Fs D) (b : Z) : Prop :=
  first_data_block (sb s) <= b < total_blocks (sb s) /\ used s b.

(** The blocks of a file are data blocks in use, each in one place. *)
Record file_ok (s : Fs D) (i : Inode) : Prop := {
  fo_wf : inode_wf i;
  fo_data : forall l, mapped_range l -> phys (device s) i l <> 0 -> data s (phys (device s) i l);
  fo_inj : forall l l', mapped_range l -> mapped_range l' ->
    phys (device s) i l = phys (device s) i l' -> phys (device s) i l <> 0 -> l = l';
  fo_ind : indirect i <> 0 ->
    data s (indirect i) /\ (forall l, mapped_range l -> phys (device s) i l <> indirect i) /\
    (indirect_checksum i = 0 \/ Zig.crc32 (block (device s) (indirect i)) = indirect_checksum i)
}.

(** [b] is a block of the file. *)
Definition owns (s : Fs D) (i : Inode) (b : Z) : Prop :=
  b <> 0 /\ (b = indirect i \/ exists l, mapped_range l /\ phys (device s) i l = b).

Lemma data_on_disk s b : layout_ok s -> data s b -> on_disk (device s) b.
Proof. intros Hl [Hr _]. apply layout_on_disk; [done|]. destruct Hl. lia. Qed.

Lemma data_not_meta s b : layout_ok s -> data s b -> 5 <= b.
Proof. intros [? ? ?] [Hr _]. lia. Qed.

Lemma data_fits s b : layout_ok s -> data s b -> fits 32 b.
Proof. intros [? ? ?] [Hr _]. split; lia. Qed.

Lemma owns_data s i b : file_ok s i -> owns s i b -> data s b.
Proof.
  intros Hf [Hb [->|(l & Hl & <-)]]; [by apply (fo_ind s i Hf)|by apply (fo_data s i Hf)].
Qed.

#[global] Instance owns_dec s i b : Decision (owns s i b).
Proof.
  refine (cast_if (decide (b <> 0 /\ (b = indirect i \/ Exists (fun l => phys (device s) i l = b) (seqZ 0 522)))));
    unfold owns, mapped_range; setoid_rewrite Exists_exists in a || setoid_rewrite Exists_exists in n;
    setoid_rewrite elem_of_seqZ in a || setoid_rewrite elem_of_seqZ in n; done.
Defined.

(** ** Pairs in a pointer block *)

Lemma pair_set idx k a b buf :
  0 <= idx < 512 -> 0 <= k < 512 -> zlen buf = 4096 -> fits 32 a -> fits 32 b ->
  pair_at k (set_pair idx a b buf) = if decide (k = idx) then (a, b) else pair_at k buf.
Proof.
  intros Hi Hk Hl Ha Hb. unfold pair_at, set_pair, u32_at.
  assert (Hd : zlen (le_bytes 4 a ++ le_bytes 4 b) = 8) by (by rewrite zlen_app, !zlen_le_bytes).
  destruct (decide (k = idx)) as [->|Hne].
  - rewrite !sub_upd_inside by lia. rewrite Z.sub_diag, Z.add_simpl_l. f_equal.
    + rewrite sub_here by done. by apply (le_word_round 4).
    + rewrite sub_skip by done. rewrite zlen_le_bytes. change (4 - Z.of_nat 4) with 0.
      rewrite <- (app_nil_r (le_bytes 4 b)), sub_here by done. by apply (le_word_round 4).
  - by rewrite !sub_upd_other by lia.
Qed.

Lemma set_pair_len idx a b buf : 0 <= idx < 512 -> zlen buf = 4096 -> zlen (set_pair idx a b buf) = 4096.
Proof. intros Hi Hl. unfold set_pair. rewrite zlen_upd; rewrite ?zlen_app, ?zlen_le_bytes; lia. Qed.

Lemma set_pair_bytes idx a b buf : Forall is_byte buf -> Forall is_byte (set_pair idx a b buf).
Proof. intros Hb. apply upd_bytes; [|done]. apply Forall_app_2; apply le_bytes_bytes. Qed.

Lemma pair_zero k : 0 <= k < 512 -> pair_at k zero_block = (0, 0).
Proof.
  intros Hk. unfold pair_at, u32_at.
  assert (Hz : sub 0 4096 zero_block = zeros 4096) by reflexivity.
  assert (H8 : forall o, 0 <= o -> o + 4 <= 4096 -> sub o 4 zero_block = zeros 4).
  { intros o Ho Hle. rewrite <- (Z.add_0_l o). apply (sub_of_zeros 0 4096); lia || done. }
  by rewrite !H8 by lia.
Qed.

(** ** Looking a block up *)

Lemma get_block_ok s i l :
  layout_ok s -> file_ok s i -> mapped_range l ->
  exists c, inode_get_block i l (device s) = Ok (phys (device s) i l, c).
Proof.
  intros Hl Hf [H0 H1]. unfold inode_get_block, phys. destruct (Z.ltb_spec l 10) as [H10|H10].
  - destruct (wf_blocks i (fo_wf s i Hf)) as [Hb _]. destruct (wf_checksums i (fo_wf s i Hf)) as [Hc _].
    destruct (index_lookup (E:=AbiError) (blocks i) l) as (x & Hx & ->); [unfold zlen; lia|].
    destruct (index_lookup (E:=AbiError) (block_checksums i) l) as (c & _ & ->); [unfold zlen; lia|].
    rewrite Hx. by eexists.
  - change PAIRS with 512. destruct (Z.ltb_spec (l - 10) 512); [|lia].
    destruct (Z.eqb_spec (indirect i) 0) as [|Hi]; [by eexists|].
    destruct (fo_ind s i Hf Hi) as (Hd & _ & Hcs). unfold checked_block.
    rewrite read_block_ok by (by apply data_on_disk). cbn [mbind res_bind].
    assert (Hok : negb (indirect_checksum i =? 0) &&
        negb (Zig.crc32 (block (device s) (indirect i)) =? indirect_checksum i) = false).
    { destruct Hcs as [->| ->]; [done|]. by rewrite Z.eqb_refl, andb_false_r. }
    rewrite Hok. cbn [mbind res_bind]. by eexists.
Qed.

(** ** Free blocks *)

#[global] Instance used_dec (s : Fs D) b : Decision (used s b).
Proof. unfold used. apply _. Defined.

Definition range (s : Fs D) : list Z :=
  seqZ (first_data_block (sb s)) (total_blocks (sb s) - first_data_block (sb s)).

(** The number of free data blocks. *)
Definition avail (s : Fs D) : nat := length (filter (fun b => ~ used s b) (range s)).

Lemma elem_of_range s b : b ∈ range s <-> first_data_block (sb s) <= b < total_blocks (sb s).
Proof. unfold range. rewrite elem_of_seqZ. lia. Qed.

Lemma same_layout_range s s' : same_layout s s' -> range s' = range s.
Proof. intros (_ & H1 & H2 & _). unfold range. by rewrite H1, H2. Qed.

(** One more block in use. *)
Lemma avail_take s s' b :
  same_layout s s' -> first_data_block (sb s) <= b < total_blocks (sb s) -> ~ used s b ->
  (forall c, 0 <= c -> used s' c <-> c = b \/ used s c) -> 0 <= first_data_block (sb s) ->
  avail s = S (avail s').
Proof.
  intros Hs Hb Hu Hiff H0. unfold avail. rewrite (same_layout_range s s' Hs).
  assert (HP : filter (fun c => ~ used s c) (range s) ≡ₚ b :: filter (fun c => ~ used s' c) (range s)).
  { apply NoDup_Permutation.
    - apply NoDup_filter, NoDup_seqZ.
    - constructor; [|apply NoDup_filter, NoDup_seqZ]. rewrite list_elem_of_filter, Hiff by lia. tauto.
    - intros c. rewrite elem_of_cons, !list_elem_of_filter, elem_of_range. split.
      + intros [Hc Hr]. destruct (decide (c = b)); [by left|right]. rewrite Hiff by lia. tauto.
      + intros [->|[Hc Hr]]; [done|]. rewrite Hiff in Hc by lia. tauto. }
  by rewrite HP.
Qed.

Lemma avail_same s s' :
  same_layout s s' -> 0 <= first_data_block (sb s) ->
  (forall c, 0 <= c -> used s' c <-> used s c) -> avail s' = avail s.
Proof.
  intros Hs H0 Hiff. unfold avail. rewrite (same_layout_range s s' Hs).
  apply Permutation_length, NoDup_Permutation; [apply NoDup_filter, NoDup_seqZ..|].
  intros c. rewrite !list_elem_of_filter, elem_of_range. split; intros [Hc Hr]; rewrite Hiff in * by lia; done.
Qed.

(** Giving a block in use back. *)
Lemma avail_give s s' b :
  same_layout s s' -> first_data_block (sb s) <= b < total_blocks (sb s) -> used s b ->
  (forall c, 0 <= c -> used s' c <-> c <> b /\ used s c) -> 0 <= first_data_block (sb s) ->
  avail s' = S (avail s).
Proof.
  intros Hs Hb Hu Hiff H0. assert (Hs' := Hs). destruct Hs' as (H1 & H2 & H3 & H4). apply (avail_take s' s b).
  - split_and!; done.
  - by rewrite H2, H3.
  - rewrite Hiff by lia. tauto.
  - intros c Hc. rewrite Hiff by done. destruct (decide (c = b)) as [->|]; tauto.
  - by rewrite H3.
Qed.

(** An allocation with a free block left. *)
Lemma alloc_some s :
  layout_ok s -> (0 < avail s)%nat ->
  exists b s', alloc_data_block s = (Ok b, s') /\ same_layout s s' /\ data s' b /\ ~ used s b /\
    (forall c, 0 <= c -> used s' c <-> c = b \/ used s c) /\
    (forall c, c <> BITMAP_BLOCK -> block (device s') c =
       if decide (c = b) then zero_block else block (device s) c) /\
    avail s = S (avail s').
Proof.
  intros Hl Ha. pose proof (alloc_data_block_ok s Hl) as H. destruct Hl as [? ? ?].
  destruct (alloc_data_block s) as [[b|e| |] s'];
    [|destruct H as (_ & _ & Hall)|done|done].
  - destruct H as (Hr & Hf & _ & Hu & Hblk & Hs & _). exists b, s'. split; [done|]. split; [done|].
    assert (Hs' := Hs). destruct Hs' as (_ & H1 & H2 & _). split.
    { split; [by rewrite H1, H2|]. rewrite Hu by lia. by left. }
    split; [done|]. split; [done|]. split; [done|]. eapply avail_take; try done. lia.
  - exfalso. unfold avail in Ha. destruct (filter _ (range s)) as [|c l] eqn:Hfl; [simpl in Ha; lia|].
    assert (Hc : c ∈ filter (fun b => ~ used s b) (range s)) by (rewrite Hfl; left).
    apply list_elem_of_filter in Hc as [Hn Hc%elem_of_range]. by apply Hn, Hall.
Qed.

(** ** Pointing a logical block at a new place *)

(** The fields a change of the block map leaves alone. *)
Definition same_meta (i i' : Inode) : Prop :=
  mode i' = mode i /\ size i' = size i /\ ctime i' = ctime i /\ atime i' = atime i.

Definition crc_ok (d : D) (i : Inode) : Prop :=
  indirect_checksum i = 0 \/ Zig.crc32 (block d (indirect i)) = indirect_checksum i.

Lemma data_mono s s' b :
  same_layout s s' -> (used s b -> used s' b) -> data s b -> data s' b.
Proof. intros (_ & H1 & H2 & _) Hu [Hr Hb]. split; [by rewrite H1, H2|by apply Hu]. Qed.

Lemma file_ok_set s i s' i' l q :
  layout_ok s -> file_ok s i -> same_layout s s' -> inode_wf i' -> data s q -> ~ owns s i q ->
  mapped_range l ->
  (forall k, mapped_range k -> phys (device s') i' k = if decide (k = l) then q else phys (device s) i k) ->
  (forall c, 0 <= c -> used s c -> used s' c) ->
  (indirect i' <> 0 -> data s' (indirect i') /\ crc_ok (device s') i' /\
     (indirect i' = indirect i \/ ~ used s (indirect i'))) ->
  file_ok s' i'.
Proof.
  intros Hl Hf Hs Hw Hq Hno Hlr Hp Hu Hi.
  assert (H5 : forall b, data s b -> data s' b).
  { intros b Hb. eapply data_mono; [done| |done]. apply Hu. pose proof (data_not_meta s b Hl Hb). lia. }
  assert (Hq0 : q <> 0) by (pose proof (data_not_meta s q Hl Hq); lia).
  assert (Hnq : forall k, mapped_range k -> phys (device s) i k <> q).
  { intros k Hk He. apply Hno. split; [done|]. right. by exists k. }
  split; [done| | |].
  - intros k Hk. rewrite Hp by done. destruct (decide (k = l)); [intros _; by apply H5|].
    intros Hne. apply H5. by apply (fo_data s i Hf).
  - intros k k' Hk Hk'. rewrite !Hp by done. destruct (decide (k = l)), (decide (k' = l)); subst; try done.
    + intros He. by destruct (Hnq k' Hk').
    + intros He. by destruct (Hnq k Hk).
    + by apply (fo_inj s i Hf).
  - intros Hne. destruct (Hi Hne) as (Hd & Hc & Hold). split; [done|]. split; [|done].
    intros k Hk. rewrite Hp by done. destruct (decide (k = l)) as [->|].
    + intros ->. destruct Hold as [He|Hn]; [|by apply Hn, Hq]. apply Hno. split; [done|]. by left.
    + intros He. destruct Hold as [Ho|Hn].
      * rewrite Ho in He, Hne. by apply (fo_ind s i Hf Hne) in He.
      * apply Hn. rewrite <- He. apply (fo_data s i Hf k Hk). congruence.
Qed.

(** The indirect block, allocated if there is none. *)
Lemma ensure_indirect s i :
  layout_ok s -> file_ok s i -> (indirect i = 0 -> (0 < avail s)%nat) ->
  exists b s1, or_alloc (indirect i) s = (Ok b, s1) /\ same_layout s s1 /\ data s1 b /\
    (forall c, 0 <= c -> used s1 c <-> c = b \/ used s c) /\
    (forall c, c <> BITMAP_BLOCK -> c <> b -> block (device s1) c = block (device s) c) /\
    (if decide (indirect i = 0)
     then ~ used s b /\ block (device s1) b = zero_block /\ avail s = S (avail s1)
     else b = indirect i /\ s1 = s).
Proof.
  intros Hl Hf Ha. unfold or_alloc. destruct (Z.eqb_spec (indirect i) 0) as [H0|H0].
  - destruct (alloc_some s Hl (Ha H0)) as (b & s1 & -> & Hs & Hd & Hn & Hu & Hb & Hav).
    exists b, s1. rewrite decide_True by done. do 4 (split; [done|]). split.
    + intros c Hc Hne. by rewrite Hb, decide_False.
    + split; [done|]. split; [|done]. rewrite Hb, decide_True; [done..|].
      assert (layout_ok s1) as Hl1 by (by eapply same_layout_ok).
      pose proof (data_not_meta s1 b Hl1 Hd). unfold BITMAP_BLOCK. lia.
  - destruct (fo_ind s i Hf H0) as (Hd & _). exists (indirect i), s. rewrite decide_False by done.
    do 3 (split; [done|]). split; [|done]. intros c Hc. split; [by right|]. intros [->|]; [apply Hd|done].
Qed.

(** What pointing logical block [l] at block [q] does. *)
Definition set_result (s : Fs D) (i : Inode) (l q : Z) (s' : Fs D) (i' : Inode) : Prop :=
  same_layout s s' /\ file_ok s' i' /\ same_meta i i' /\
  (forall k, mapped_range k -> phys (device s') i' k = if decide (k = l) then q else phys (device s) i k) /\
  (forall c, 0 <= c -> used s' c <-> used s c \/ c = indirect i' /\ c <> 0) /\
  (forall c, c <> BITMAP_BLOCK -> ~ (c = indirect i' /\ c <> 0) -> block (device s') c = block (device s) c) /\
  (indirect i' = indirect i /\ avail s' = avail s \/
   indirect i = 0 /\ indirect i' <> 0 /\ ~ used s (indirect i') /\ avail s = S (avail s')).

Lemma set_direct_ok s i l q :
  layout_ok s -> file_ok s i -> 0 <= l < 10 -> data s q -> ~ owns s i q ->
  set_result s i l q s (set_direct l q 0 i).
Proof.
  intros Hl Hf [Hl0 Hl1] Hq Hno. pose proof (fo_wf s i Hf) as Hw. assert (Hqf := data_fits s q Hl Hq).
  destruct (wf_blocks i Hw) as [Hb1 Hb2]. destruct (wf_checksums i Hw) as [Hc1 Hc2].
  assert (Hp : forall k, mapped_range k -> phys (device s) (set_direct l q 0 i) k =
                 if decide (k = l) then q else phys (device s) i k).
  { intros k [Hk0 Hk1]. unfold phys. cbn [blocks indirect set_direct].
    destruct (Z.ltb_spec k 10) as [Hk|Hk]; [|by rewrite decide_False by lia].
    destruct (decide (k = l)) as [->|Hne]; [by rewrite list_lookup_insert_eq by lia|].
    by rewrite list_lookup_insert_ne by lia. }
  split; [done|]. split.
  { eapply file_ok_set; try done.
    - destruct Hw. split; cbn; try done; (split; [by rewrite length_insert|by apply Forall_insert]).
    - split; lia.
    - intros Hne. cbn in Hne. destruct (fo_ind s i Hf Hne) as (Hd & _ & Hc). cbn.
      split; [done|]. split; [done|by left]. }
  split; [done|]. split; [done|]. split; [|split; [done|by left]].
  intros c Hc. cbn. split; [by left|]. intros [|[-> Hne]]; [done|]. by apply (fo_ind s i Hf Hne).
Qed.

(** The map after the pair of [l] in the indirect block [b] is set, where [b]
    held the old pairs. *)
Lemma phys_set_pair d d' i l q b cs old :
  10 <= l < 522 -> b <> 0 -> fits 32 q -> zlen old = 4096 ->
  (forall k, 0 <= k < 512 -> fst (pair_at k old) = phys d i (k + 10)) ->
  block d' b = set_pair (l - 10) q 0 old ->
  forall k, mapped_range k ->
    phys d' (set_indirect b cs i) k = if decide (k = l) then q else phys d i k.
Proof.
  intros Hl Hb Hq Hlen Hold Hblk k [Hk0 Hk1]. unfold phys at 1. cbn [blocks indirect set_indirect].
  destruct (Z.ltb_spec k 10) as [Hk|Hk].
  - rewrite decide_False by lia. unfold phys. by rewrite (proj2 (Z.ltb_lt _ _)).
  - rewrite (proj2 (Z.eqb_neq _ _)) by lia. rewrite Hblk. rewrite pair_set by (done || lia || by split).
    destruct (decide (k = l)) as [->|Hne]; [by rewrite decide_True|].
    rewrite decide_False by lia. rewrite Hold by lia. f_equal. lia.
Qed.

Lemma set_pair_ok s i l q b s1 s2 :
  layout_ok s -> file_ok s i -> 10 <= l < 522 -> data s q -> ~ owns s i q ->
  same_layout s s1 -> data s1 b ->
  (forall c, 0 <= c -> used s1 c <-> c = b \/ used s c) ->
  (forall c, c <> BITMAP_BLOCK -> c <> b -> block (device s1) c = block (device s) c) ->
  (if decide (indirect i = 0)
   then ~ used s b /\ block (device s1) b = zero_block /\ avail s = S (avail s1)
   else b = indirect i /\ s1 = s) ->
  let buf := set_pair (l - 10) q 0 (block (device s1) b) in
  sb s2 = sb s1 -> total_sectors (device s2) = total_sectors (device s1) ->
  (forall c, block (device s2) c = if decide (c = b) then buf else block (device s1) c) ->
  set_result s i l q s2 (set_indirect b (Zig.crc32 buf) i).
Proof.
  intros Hl Hf Hlr Hq Hno Hs1 Hd1 Hu1 Hb1 Hcase buf Hsb2 Ht2 Hblk2.
  pose proof (fo_wf s i Hf) as Hw. assert (Hl1 : layout_ok s1) by (by eapply same_layout_ok).
  assert (H5 := data_not_meta s1 b Hl1 Hd1). assert (Hqf := data_fits s q Hl Hq).
  assert (Hby : Forall is_byte buf) by (apply set_pair_bytes, block_bytes).
  assert (Hs2 : same_layout s1 s2) by (split; [done|]; by rewrite Hsb2).
  assert (Hu2 : forall c, used s2 c <-> used s1 c).
  { intros c. unfold used. rewrite Hblk2, decide_False; [done|]. unfold BITMAP_BLOCK. lia. }
  set (i' := set_indirect b (Zig.crc32 buf) i).
  assert (Hp : forall k, mapped_range k -> phys (device s2) i' k =
                 if decide (k = l) then q else phys (device s) i k).
  { apply (phys_set_pair _ _ _ _ _ _ _ (block (device s1) b)); try done; [lia|apply block_len| |].
    - intros k Hk. unfold phys. destruct (Z.ltb_spec (k + 10) 10); [lia|]. rewrite Z.add_simpl_r.
      destruct (decide (indirect i = 0)) as [He|Hne].
      + destruct Hcase as (_ & -> & _). rewrite He. by rewrite pair_zero.
      + destruct Hcase as [-> ->]. by rewrite (proj2 (Z.eqb_neq _ _)).
    - by rewrite Hblk2, decide_True. }
  split; [by etransitivity|]. split.
  { apply (file_ok_set s i s2 i' l q); try done; [by etransitivity| |split; lia| |].
    - destruct Hw. split; try done. cbn. split; [by apply (data_fits s1)|]. by apply Zig.crc32_fits.
    - intros c Hc Hu. apply Hu2, Hu1; [done|by right].
    - intros _. cbn [indirect i' set_indirect]. split; [eapply data_mono; [exact Hs2|apply Hu2|done]|].
      split; [|destruct (decide (indirect i = 0)); [right; apply Hcase|left; apply Hcase]].
      right. cbn [indirect indirect_checksum i' set_indirect]. by rewrite Hblk2, decide_True. }
  split; [done|]. split; [done|]. split; [|split].
  - intros c Hc. rewrite Hu2, Hu1 by done. cbn. split; [|tauto]. intros [->|]; [right; lia|by left].
  - intros c Hc Hne. cbn in Hne. assert (c <> b) by (intros ->; apply Hne; split; [done|lia]).
    rewrite Hblk2, decide_False by done. by apply Hb1.
  - assert (Hav : avail s2 = avail s1).
    { apply avail_same; [done|destruct Hl1; lia|intros c _; apply Hu2]. }
    cbn. rewrite Hav. destruct (decide (indirect i = 0)) as [He|Hne].
    + right. destruct Hcase as (? & _ & ?). split_and!; done || lia.
    + left. by destruct Hcase as [-> ->].
Qed.

Lemma set_block_ok s i l q :
  layout_ok s -> file_ok s i -> mapped_range l -> data s q -> ~ owns s i q ->
  (10 <= l -> indirect i = 0 -> (0 < avail s)%nat) ->
  exists s' i', inode_set_block i l q 0 s = (Ok i', s') /\ set_result s i l q s' i'.
Proof.
  intros Hl Hf [Hl0 Hl1] Hq Hno Ha. unfold inode_set_block. destruct (Z.ltb_spec l 10) as [H10|H10].
  - destruct (wf_blocks i (fo_wf s i Hf)) as [Hb1 _].
    destruct (index_lookup (E:=AbiError) (blocks i) l) as (x & _ & Hx); [unfold zlen; lia|].
    unfold mbind, M_bind, lift, mret, M_ret. rewrite Hx. exists s, (set_direct l q 0 i).
    split; [done|]. by apply set_direct_ok.
  - change PAIRS with 512. destruct (Z.ltb_spec (l - 10) 512); [|lia].
    destruct (ensure_indirect s i Hl Hf (Ha H10)) as (b & s1 & Hoa & Hs1 & Hd1 & Hu1 & Hb1 & Hcase).
    unfold mbind, M_bind, mret, M_ret. rewrite Hoa.
    assert (Hl1' : layout_ok s1) by (by eapply same_layout_ok).
    assert (Hod := data_on_disk s1 b Hl1' Hd1). rewrite read_blk_ok by done.
    destruct (write_block_ok s1 b (set_pair (l - 10) q 0 (block (device s1) b)) Hod)
      as (s2 & -> & Hsb2 & Ht2 & Hblk2);
      [apply set_pair_len; [lia|apply block_len]|apply set_pair_bytes, block_bytes|].
    eexists _, _. split; [done|]. eapply set_pair_ok; done || lia.
Qed.

(** ** Steps that do not touch a file's blocks *)

Lemma phys_frame d d' i l :
  (indirect i <> 0 -> block d' (indirect i) = block d (indirect i)) -> phys d' i l = phys d i l.
Proof.
  intros H. unfold phys. destruct (l <? 10); [done|]. destruct (Z.eqb_spec (indirect i) 0); [done|].
  by rewrite H.
Qed.

Lemma file_ok_frame s s' i :
  file_ok s i -> same_layout s s' ->
  (forall c, owns s i c -> used s' c) ->
  (indirect i <> 0 -> block (device s') (indirect i) = block (device s) (indirect i)) ->
  file_ok s' i.
Proof.
  intros [Hw Hd Hj Hi] Hs Hu Hb. assert (Hp : forall l, phys (device s') i l = phys (device s) i l)
    by (intros l; by apply phys_frame).
  split; [done| | |].
  - intros l Hl. rewrite Hp. intros Hne. eapply data_mono; [done| |by apply Hd].
    intros _. apply Hu. split; [done|]. right. by exists l.
  - intros l l' Hl Hl'. rewrite !Hp. by apply Hj.
  - intros Hne. destruct (Hi Hne) as (Hdi & Hno & Hc). split; [|split].
    + eapply data_mono; [done| |done]. intros _. apply Hu. split; [done|]. by left.
    + intros l Hl. rewrite Hp. by apply Hno.
    + by rewrite (Hb Hne).
Qed.

Lemma owns_frame s s' i c :
  (indirect i <> 0 -> block (device s') (indirect i) = block (device s) (indirect i)) ->
  owns s' i c <-> owns s i c.
Proof. intros Hb. unfold owns. setoid_rewrite (phys_frame (device s) (device s') i); done. Qed.

Lemma owned_dec_fresh s i q : file_ok s i -> ~ used s q -> ~ owns s i q.
Proof. intros Hf Hn Ho. by apply Hn, (owns_data s i q Hf). Qed.

(** ** One turn of a write *)

(** What the other files see of a change to the file [i]: nothing. *)
Definition others (s : Fs D) (i : Inode) (s' : Fs D) : Prop :=
  (forall c, 0 <= c -> c <> BITMAP_BLOCK -> used s c \/ c < first_data_block (sb s) -> ~ owns s i c ->
     block (device s') c = block (device s) c) /\
  (forall c, 0 <= c -> used s c -> ~ owns s i c -> used s' c).

(** Blocks a step took for the indirect block. *)
Definition grew (i i' : Inode) : nat := if decide (indirect i = 0 /\ indirect i' <> 0) then 1%nat else 0%nat.

Record turn_result (s : Fs D) (i : Inode) (l : Z) (newblk : list Z) (s' : Fs D) (i' : Inode) : Prop := {
  tr_layout : same_layout s s';
  tr_ok : file_ok s' i';
  tr_meta : same_meta i i';
  tr_here : phys (device s') i' l <> 0 /\ block (device s') (phys (device s') i' l) = newblk;
  tr_there : forall k, mapped_range k -> k <> l -> phys (device s') i' k = phys (device s) i k /\
    (phys (device s) i k <> 0 -> block (device s') (phys (device s) i k) = block (device s) (phys (device s) i k));
  tr_others : others s i s';
  tr_own : forall c, owns s' i' c -> owns s i c \/ ~ used s c;
  tr_avail : (avail s <= avail s' + 1 + grew i i')%nat;
  tr_ind : indirect i <> 0 -> indirect i' <> 0
}.

(** A free block is taken for the new contents. *)
Lemma place_block s i newblk :
  layout_ok s -> file_ok s i -> (0 < avail s)%nat -> zlen newblk = 4096 -> Forall is_byte newblk ->
  exists q s2, (q0 ← alloc_data_block; _ ← write_block q0 newblk; mret q0) s = (Ok q, s2) /\
    same_layout s s2 /\ data s2 q /\ ~ used s q /\ file_ok s2 i /\
    (forall c, 0 <= c -> used s2 c <-> c = q \/ used s c) /\
    (forall c, c <> BITMAP_BLOCK -> block (device s2) c = if decide (c = q) then newblk else block (device s) c) /\
    avail s = S (avail s2).
Proof.
  intros Hl Hf Ha Hlen Hby. destruct (alloc_some s Hl Ha) as (q & s1 & Hal & Hs1 & Hd1 & Hn & Hu1 & Hb1 & Hav).
  assert (Hl1 : layout_ok s1) by (by eapply same_layout_ok).
  assert (H5 := data_not_meta s1 q Hl1 Hd1).
  destruct (write_block_ok s1 q newblk) as (s2 & Hw & Hsb & Ht & Hb2); [by apply data_on_disk|done|done|].
  exists q, s2. unfold mbind, M_bind, mret, M_ret. rewrite Hal, Hw. split; [done|].
  assert (Hs2 : same_layout s1 s2) by (split; [done|]; by rewrite Hsb).
  assert (Hu2 : forall c, used s2 c <-> used s1 c).
  { intros c. unfold used. rewrite Hb2, decide_False; [done|]. unfold BITMAP_BLOCK. lia. }
  assert (Hblk : forall c, c <> BITMAP_BLOCK -> block (device s2) c =
                   if decide (c = q) then newblk else block (device s) c).
  { intros c Hc. rewrite Hb2. destruct (decide (c = q)); [done|]. by rewrite Hb1, decide_False. }
  assert (Hs : same_layout s s2) by (by etransitivity).
  assert (Hav2 : avail s2 = avail s1) by (apply avail_same; [done|destruct Hl1; lia|intros c _; apply Hu2]).
  assert (Huu : forall c, 0 <= c -> used s2 c <-> c = q \/ used s c) by (intros c Hc; by rewrite Hu2, Hu1).
  split; [done|]. split; [eapply data_mono; [exact Hs2|apply Hu2|done]|]. split; [done|].
  split; [|split; [done|split; [done|by rewrite Hav2]]].
  apply (file_ok_frame s); [done|done| |].
  - intros c Hc. assert (Hd := owns_data s i c Hf Hc). apply Huu; [|right; apply Hd].
    pose proof (data_not_meta s c Hl Hd). lia.
  - intros Hne. destruct (fo_ind s i Hf Hne) as (Hd & _). pose proof (data_not_meta s _ Hl Hd).
    rewrite Hblk, decide_False; [done| |unfold BITMAP_BLOCK; lia]. intros He. apply Hn. rewrite <- He. apply Hd.
Qed.

(** The inode points at the new place and the old one is given back. *)
Definition swap_block (i : Inode) (l old q : Z) : M (Fs D) AbiError Inode :=
  i' ← inode_set_block i l q 0;
  _ ← (if negb (old =? 0) && negb (old =? q) then free_data_block old else mret tt);
  mret i'.

(** The release alone. *)
Lemma release_ok s old q :
  layout_ok s -> (old <> 0 -> data s old /\ old <> q) ->
  exists s', (if negb (old =? 0) && negb (old =? q) then free_data_block old else mret tt) s = (Ok tt, s') /\
    same_layout s s' /\ (avail s <= avail s')%nat /\
    (forall c, c <> BITMAP_BLOCK -> block (device s') c = block (device s) c) /\
    (forall c, 0 <= c -> used s c -> (old <> 0 -> c <> old) -> used s' c).
Proof.
  intros Hl Hold. destruct (Z.eqb_spec old 0) as [->|Hne]; cbn [negb andb].
  { exists s. by split_and!. }
  destruct (Hold Hne) as [[Hr Hu] Hq]. rewrite (proj2 (Z.eqb_neq _ _)) by done. cbn [negb].
  destruct (free_data_block_ok s old Hl Hr) as (s' & -> & Hus & Hb & Hs & _). exists s'.
  split; [done|]. split; [done|]. split; [|split; [done|]].
  - rewrite (avail_give s s' old); [lia|done|done|done|done|destruct Hl; lia].
  - intros c Hc Hcu Hco. apply Hus; [done|]. split; [by apply Hco|done].
Qed.

(** The new block is in place ([s2]), the inode changed ([s3]), the old block
    given back ([s']). *)
Lemma turn_of_steps s i l newblk q s2 s3 i' s' :
  layout_ok s -> file_ok s i -> mapped_range l -> same_layout s s2 -> data s2 q -> ~ used s q ->
  (forall c, 0 <= c -> used s2 c <-> c = q \/ used s c) ->
  (forall c, c <> BITMAP_BLOCK -> block (device s2) c = if decide (c = q) then newblk else block (device s) c) ->
  avail s = S (avail s2) ->
  (forall k, phys (device s2) i k = phys (device s) i k) ->
  set_result s2 i l q s3 i' ->
  same_layout s3 s' -> (avail s3 <= avail s')%nat ->
  (forall c, c <> BITMAP_BLOCK -> block (device s') c = block (device s3) c) ->
  (forall c, 0 <= c -> used s3 c -> (phys (device s) i l <> 0 -> c <> phys (device s) i l) -> used s' c) ->
  turn_result s i l newblk s' i'.
Proof.
  intros Hl Hf Hlr Hs2 Hq Hnq Hu2 Hb2 Hav Hp2 (Hs3 & Hf3 & Hm & Hp3 & Hu3 & Hb3 & Hi3) Hs' Hav' Hb' Hu'.
  assert (Hl2 : layout_ok s2) by (by eapply same_layout_ok).
  assert (Hl3 : layout_ok s3) by (by eapply same_layout_ok). assert (Hq5 := data_not_meta s2 q Hl2 Hq).
  assert (Hnu2 : forall c, 0 <= c -> ~ used s2 c -> ~ used s c) by (intros c Hc Hn Hu; apply Hn, Hu2; tauto).
  assert (Hp : forall k, mapped_range k -> phys (device s3) i' k = if decide (k = l) then q else phys (device s) i k)
    by (intros k Hk; rewrite Hp3 by done; by rewrite Hp2).
  assert (Hind : indirect i' <> 0 -> 5 <= indirect i' /\ (indirect i' = indirect i \/ ~ used s (indirect i'))).
  { intros Hne. destruct (fo_ind s3 i' Hf3 Hne) as (Hd & _). pose proof (data_not_meta s3 _ Hl3 Hd).
    split; [done|]. destruct Hi3 as [[-> _]|(_ & _ & Hn & _)]; [by left|right]. apply Hnu2; [lia|done]. }
  assert (Hkeep : forall c, c <> BITMAP_BLOCK -> c <> q -> ~ (c = indirect i' /\ c <> 0) ->
                    block (device s') c = block (device s) c).
  { intros c H1 H2 H3. rewrite Hb', Hb3, Hb2 by done. by rewrite decide_False. }
  assert (Hown : forall c, owns s3 i' c -> c = q \/ owns s i c \/ ~ used s c).
  { intros c [Hc0 [->|(k & Hk & <-)]].
    - destruct (Hind Hc0) as [_ [He|Hn]]; [|tauto]. right. left. split; [done|by left].
    - rewrite Hp in Hc0 |- * by done. destruct (decide (k = l)); [by left|]. right. left.
      split; [done|]. right. by exists k. }
  assert (Hnold : forall c, owns s3 i' c -> phys (device s) i l <> 0 -> c <> phys (device s) i l).
  { intros c [Hc0 [->|(k & Hk & <-)]] Hne He.
    - destruct (Hind Hc0) as [_ [Hi|Hn]].
      + rewrite Hi in He, Hc0. by apply (fo_ind s i Hf Hc0) in Hlr.
      + apply Hn. rewrite He. by apply (fo_data s i Hf).
    - rewrite Hp in He by done. destruct (decide (k = l)) as [->|Hkl].
      + apply Hnq. rewrite He. by apply (fo_data s i Hf).
      + apply Hkl. apply (fo_inj s i Hf); [done|done|done|congruence]. }
  assert (Hbi : indirect i' <> 0 -> block (device s') (indirect i') = block (device s3) (indirect i')).
  { intros Hne. apply Hb'. destruct (Hind Hne). unfold BITMAP_BLOCK. lia. }
  assert (Hp' : forall k, phys (device s') i' k = phys (device s3) i' k) by (intros k; by apply phys_frame).
  assert (Hlay : same_layout s s') by (etransitivity; [done|]; by etransitivity).
  split; [done| |done| | | | | |].
  - apply (file_ok_frame s3); [done|done| |done]. intros c Hc. assert (Hd := owns_data s3 i' c Hf3 Hc).
    apply Hu'; [pose proof (data_not_meta s3 c Hl3 Hd); lia|apply Hd|by apply Hnold].
  - rewrite Hp', Hp, decide_True by done. split; [lia|]. rewrite Hb', Hb3, Hb2, decide_True; try done;
      unfold BITMAP_BLOCK; try lia. intros [He Hne]. assert (Hni := proj1 (proj2 (fo_ind s3 i' Hf3 ltac:(congruence)))).
    specialize (Hni l Hlr). rewrite Hp, decide_True in Hni by done. done.
  - intros k Hk Hkl. rewrite Hp', Hp, decide_False by done. split; [done|]. intros Hne.
    assert (Hd := fo_data s i Hf k Hk Hne). apply Hkeep.
    + pose proof (data_not_meta s _ Hl Hd). unfold BITMAP_BLOCK. lia.
    + intros He. apply Hnq. rewrite <- He. apply Hd.
    + intros [He _]. assert (Hni := proj1 (proj2 (fo_ind s3 i' Hf3 ltac:(congruence))) k Hk).
      rewrite Hp, decide_False in Hni by done. done.
  - split.
    + intros c _ Hc Huc Hno. apply Hkeep; [done| |].
      * intros ->. destruct Huc as [|Hlt]; [done|]. destruct Hq as [Hr _], Hs2 as (_ & _ & Hfd & _). lia.
      * intros [-> Hne]. destruct (fo_ind s3 i' Hf3 Hne) as ([Hr _] & _).
        destruct (Hind Hne) as [_ [He|Hn]]; [apply Hno; split; [done|by left]|].
        destruct Huc as [|Hlt]; [done|]. destruct Hs2 as (_ & _ & Hfd & _), Hs3 as (_ & _ & Hfd' & _). lia.
    + intros c Hc Huc Hno. apply Hu'; [done| |].
      * apply Hu3; [done|]. left. apply Hu2; [done|]. by right.
      * intros Hne ->. apply Hno. split; [done|]. right. by exists l.
  - intros c Hc. rewrite (owns_frame s3 s') in Hc by done. destruct (Hown c Hc) as [->|Ho]; [by right|done].
  - unfold grew. destruct Hi3 as [[Hi Ha3]|(H0 & Hn & _ & Ha3)]; [lia|].
    rewrite decide_True by done. lia.
  - intros Hne. destruct Hi3 as [[-> _]|(H0 & _)]; done.
Qed.

Lemma swap_block_ok s i l newblk q s2 :
  layout_ok s -> file_ok s i -> mapped_range l -> (indirect i = 0 -> (2 <= avail s)%nat) ->
  same_layout s s2 -> data s2 q -> ~ used s q -> file_ok s2 i ->
  (forall c, 0 <= c -> used s2 c <-> c = q \/ used s c) ->
  (forall c, c <> BITMAP_BLOCK -> block (device s2) c = if decide (c = q) then newblk else block (device s) c) ->
  avail s = S (avail s2) ->
  exists s' i', swap_block i l (phys (device s) i l) q s2 = (Ok i', s') /\ turn_result s i l newblk s' i'.
Proof.
  intros Hl Hf Hlr Ha Hs2 Hq Hnq Hf2 Hu2 Hb2 Hav. set (old := phys (device s) i l).
  assert (Hl2 : layout_ok s2) by (by eapply same_layout_ok). assert (Hq5 := data_not_meta s2 q Hl2 Hq).
  assert (Hsb : forall c, used s c -> c <> BITMAP_BLOCK -> block (device s2) c = block (device s) c).
  { intros c Hc Hc2. rewrite Hb2, decide_False; [done| |done]. by intros ->. }
  assert (Hbi : indirect i <> 0 -> block (device s2) (indirect i) = block (device s) (indirect i)).
  { intros Hne. destruct (fo_ind s i Hf Hne) as (Hd & _). pose proof (data_not_meta s _ Hl Hd).
    apply Hsb; [apply Hd|unfold BITMAP_BLOCK; lia]. }
  assert (Hp2 : forall k, phys (device s2) i k = phys (device s) i k) by (intros k; by apply phys_frame).
  destruct (set_block_ok s2 i l q Hl2 Hf2 Hlr Hq) as (s3 & i' & Hset & Hs3 & Hf3 & Hm & Hp3 & Hu3 & Hb3 & Hi3).
  { rewrite (owns_frame s s2) by done. by apply owned_dec_fresh. }
  { intros _ H0. specialize (Ha H0). lia. }
  assert (Hl3 : layout_ok s3) by (by eapply same_layout_ok).
  assert (Hold5 : old <> 0 -> data s old) by (by apply (fo_data s i Hf)).
  destruct (release_ok s3 old q Hl3) as (s' & Hrel & Hs' & Hav' & Hb' & Hu').
  { intros Hne. destruct (Hold5 Hne) as [Hr Hu]. split; [|by intros ->].
    pose proof (data_not_meta s old Hl (Hold5 Hne)).
    apply (data_mono s2 s3 old Hs3); [intros _; apply Hu3; [lia|left; apply Hu2; [lia|by right]]|].
    apply (data_mono s s2 old Hs2); [intros _; apply Hu2; [lia|by right]|by apply Hold5]. }
  exists s', i'. split.
  { unfold swap_block, mbind, M_bind. rewrite Hset. fold old. by rewrite Hrel. }
  apply (turn_of_steps s i l newblk q s2 s3 i' s'); done.
Qed.

End Spec.

End ZfsFileSpec.
