(* ===== verification/ZfsRw.v ===== *)
(** * ZiqaFS: what is written is read back

    A file as a map from offsets to bytes, the loops of [read_file] and
    [write_file] against it, and the theorem that a write changes the bytes it
    covers and nothing else, in this file or in another one. *)

From S2P Require Import Prelude Bytes Abi Disk Zig ZfsBlock ZfsInode ZfsDir ZfsFile ZfsFileSpec.
Import Disk.
Import ZfsBlock ZfsInode ZfsDir ZfsFile ZfsFileSpec.

Module ZfsRw.

Section Rw.

Context {D : Type} {bd : BlockDevice D} {ds : DiskSpec D}.

(** Block [l] of a file, zeros where there is none. *)
Definition page (d : D) (i : Inode) (l : Z) : list Z :=
  if phys d i l =? 0 then zero_block else block d (phys d i l).

(** Byte [k] of a file. *)
Definition byte_at (d : D) (i : Inode) (k : Z) : option Z := page d i (k / 4096) !! Z.to_nat (k mod 4096).

(** The first 522 blocks. *)
Definition MAX_BYTES : Z := 522 * 4096.

Lemma page_len d i l : zlen (page d i l) = 4096.
Proof. unfold page. destruct (_ =? 0); [done|apply block_len]. Qed.

Lemma page_bytes d i l : Forall is_byte (page d i l).
Proof. unfold page. destruct (_ =? 0); [apply zeros_bytes|apply block_bytes]. Qed.

Lemma mapped_div k : 0 <= k < MAX_BYTES -> mapped_range (k / 4096).
Proof. unfold MAX_BYTES, mapped_range. intros Hk. split; [apply Z.div_pos; lia|]. apply Z.div_lt_upper_bound; lia. Qed.

Lemma wrap_div k : 0 <= k < MAX_BYTES -> wrap 32 k / BLOCK_SIZE = k / 4096.
Proof. unfold MAX_BYTES. intros Hk. rewrite wrap_small; [done|]. split; lia. Qed.

(** ** One turn *)

Lemma upd_whole {A} (x y z : list A) : zlen x = zlen y -> zlen x = zlen z -> upd 0 x y = upd 0 x z.
Proof. unfold upd, zlen. intros Hy Hz. simpl. rewrite !drop_ge by lia. done. Qed.

(** The block that a turn starts from agrees with the page where it matters. *)
Lemma turn_base s i offset (buf : list Z) j src :
  layout_ok s -> file_ok s i -> 0 <= offset -> 0 <= j < zlen buf -> offset + j < MAX_BYTES ->
  let off := (offset + j) mod BLOCK_SIZE in
  let old := phys (device s) i ((offset + j) / 4096) in
  zlen src = Z.min (BLOCK_SIZE - off) (zlen buf - j) ->
  exists b, (if negb (old =? 0) && ((0 <? off) || (zlen buf <? j + BLOCK_SIZE))
             then read_blk old else mret zero_block) s = (Ok b, s) /\ zlen b = 4096 /\
    upd off src b = upd off src (page (device s) i ((offset + j) / 4096)).
Proof.
  intros Hl Hf Ho Hj Hm off old Hsrc. unfold page. fold old.
  destruct (Z.eqb_spec old 0) as [He|Hne]; cbn [negb andb].
  { exists zero_block. by split_and!. }
  assert (Hd : data s old) by (apply (fo_data s i Hf); [apply mapped_div; lia|done]).
  destruct ((0 <? off) || (zlen buf <? j + BLOCK_SIZE)) eqn:Hp.
  - exists (block (device s) old). split; [by apply read_blk_ok, data_on_disk|]. split; [apply block_len|done].
  - apply orb_false_iff in Hp as [H1%Z.ltb_ge H2%Z.ltb_ge]. exists zero_block. split_and!; [done..|].
    assert (off = 0) as H0 by (unfold off, BLOCK_SIZE in *; pose proof (Z.mod_pos_bound (offset + j) 4096); lia).
    rewrite H0 in *. unfold BLOCK_SIZE in *. apply upd_whole; rewrite ?block_len; [|lia].
    change (zlen zero_block) with 4096. lia.
Qed.

(** The blocks a turn may take. *)
Definition reserve (i : Inode) : nat := if decide (indirect i = 0) then 1%nat else 0%nat.

(** The bytes one turn moves. *)
Definition chunk_at (offset len j : Z) : Z := Z.min (BLOCK_SIZE - (offset + j) mod BLOCK_SIZE) (len - j).

Lemma write_turn_ok s i offset buf j :
  layout_ok s -> file_ok s i -> Forall is_byte buf -> 0 <= offset -> 0 <= j < zlen buf ->
  offset + j < MAX_BYTES -> (1 + reserve i <= avail s)%nat ->
  let l := (offset + j) / 4096 in
  let n := chunk_at offset (zlen buf) j in
  exists s' i', write_turn i offset buf j s = (Ok (i', j + n), s') /\
    turn_result s i l (upd ((offset + j) mod 4096) (sub j n buf) (page (device s) i l)) s' i'.
Proof.
  intros Hl Hf Hby Ho Hj Hm Ha l n. unfold write_turn. unfold chunk_at in n. set (off := (offset + j) mod BLOCK_SIZE) in *.
  assert (Hoff : 0 <= off < 4096) by (apply Z.mod_pos_bound; done).
  assert (Hn : 0 < n /\ j + n <= zlen buf /\ off + n <= 4096) by (unfold n, BLOCK_SIZE; lia).
  assert (Hlr : mapped_range l) by (apply mapped_div; lia).
  rewrite (proj2 (Z.leb_gt _ _)) by (unfold MAX_BYTES in Hm; lia). rewrite wrap_div by lia. fold l.
  destruct (get_block_ok s i l Hl Hf Hlr) as [c Hget].
  assert (Hsl : zlen (sub j n buf) = n) by (apply zlen_sub; lia).
  destruct (turn_base s i offset buf j (sub j n buf) Hl Hf Ho Hj Hm Hsl) as (b & Hb & Hlen & Hupd).
  fold off l in Hb, Hupd. set (newblk := upd off (sub j n buf) (page (device s) i l)) in *.
  assert (Hnl : zlen newblk = 4096) by (unfold newblk; rewrite zlen_upd; rewrite ?page_len; lia).
  assert (Hnb : Forall is_byte newblk) by (apply upd_bytes; [by apply sub_bytes|apply page_bytes]).
  destruct (place_block s i newblk Hl Hf) as (q & s2 & Hpl & Hs2 & Hq & Hnq & Hf2 & Hu2 & Hb2 & Hav);
    [lia|done|done|].
  destruct (swap_block_ok s i l newblk q s2) as (s' & i' & Hsw & Hres); try done.
  { unfold reserve in Ha. intros Hi. rewrite decide_True in Ha by done. lia. }
  exists s', i'. split; [|done]. unfold swap_block, mbind, M_bind, mret, M_ret, lift, get_blk in *.
  rewrite Hget. fold off l. rewrite Hb. fold n.
  unfold slice, splice. rewrite !decide_True by lia. rewrite Hupd. fold newblk.
  destruct (alloc_data_block s) as [[q0| | |] s1]; try discriminate.
  destruct (write_block q0 newblk s1) as [[| | |] s2']; try discriminate. injection Hpl as -> ->.
  destruct (inode_set_block i l q 0 s2) as [[i1| | |] s3]; try discriminate.
  match type of Hsw with context [(if ?c then ?f else ?g) s3] =>
    destruct ((if c then f else g) s3) as [[| | |] s4]; try discriminate end.
  by injection Hsw as -> ->.
Qed.

(** ** The loop of a write *)

(** The bytes from [lo] to [hi] became those of [g]; the file's other bytes and
    the blocks of everything else are as they were. *)
Record write_result (g : Z -> option Z) (lo hi : Z) (s : Fs D) (i : Inode) (s' : Fs D) (i' : Inode) : Prop := {
  wr_layout : same_layout s s';
  wr_ok : file_ok s' i';
  wr_meta : same_meta i i';
  wr_bytes : forall k, 0 <= k < MAX_BYTES ->
    byte_at (device s') i' k = if decide (lo <= k < hi) then g k else byte_at (device s) i k;
  wr_mapped : forall k, 0 <= k < MAX_BYTES -> lo <= k < hi \/ phys (device s) i (k / 4096) <> 0 ->
    phys (device s') i' (k / 4096) <> 0;
  wr_others : others s i s';
  wr_own : forall c, owns s' i' c -> owns s i c \/ ~ used s c
}.

Lemma write_refl g lo s i : file_ok s i -> write_result g lo lo s i s i.
Proof.
  intros Hf. split; try done.
  - intros k Hk. rewrite decide_False by lia. done.
  - intros k Hk [|]; [lia|done].
  - intros c Hc. by left.
Qed.

Lemma others_trans s i s1 i1 s2 :
  layout_ok s -> same_layout s s1 -> file_ok s1 i1 -> (forall c, owns s1 i1 c -> owns s i c \/ ~ used s c) ->
  others s i s1 -> others s1 i1 s2 -> others s i s2.
Proof.
  intros Hl Hs Hf Hown [Hb1 Hu1] [Hb2 Hu2]. split.
  - intros c H0 Hc Hu Hno. rewrite <- Hb1 by done. apply Hb2; [done|done| |].
    + destruct Hu as [Hu|Hlt]; [left; by apply Hu1|right]. destruct Hs as (_ & _ & -> & _). done.
    + intros Ho. destruct Hu as [Hu|Hlt]; [by destruct (Hown c Ho)|].
      destruct (owns_data s1 i1 c Hf Ho) as [Hr _]. destruct Hs as (_ & _ & Hfd & _). lia.
  - intros c H0 Hu Hno. apply Hu2; [done|by apply Hu1|]. intros Ho. by destruct (Hown c Ho).
Qed.

Lemma write_trans g lo mid hi s i s1 i1 s2 i2 :
  layout_ok s -> lo <= mid <= hi -> file_ok s i ->
  write_result g lo mid s i s1 i1 -> write_result g mid hi s1 i1 s2 i2 -> write_result g lo hi s i s2 i2.
Proof.
  intros Hl Hm Hf [L1 O1 M1 B1 P1 T1 W1] [L2 O2 M2 B2 P2 T2 W2]. split; try done.
  - by etransitivity.
  - destruct M1 as (? & ? & ? & ?), M2 as (? & ? & ? & ?). split_and!; congruence.
  - intros k Hk. rewrite B2, B1 by done.
    destruct (decide (mid <= k < hi)), (decide (lo <= k < mid)), (decide (lo <= k < hi)); done || lia.
  - intros k Hk Hor. apply P2; [done|]. destruct (decide (mid <= k < hi)); [by left|right].
    apply P1; [done|]. destruct Hor; [left; lia|by right].
  - by eapply others_trans.
  - intros c Hc. destruct (decide (used s c)) as [Hu|]; [|by right]. left.
    destruct (decide (used s1 c)) as [Hu1|Hn1].
    + destruct (W2 c Hc) as [Ho|]; [|done]. by destruct (W1 c Ho).
    + assert (Hd := owns_data s2 i2 c O2 Hc).
      assert (Hl2 : layout_ok s2) by (eapply same_layout_ok; [|exact Hl]; by etransitivity).
      pose proof (data_not_meta s2 c Hl2 Hd). destruct T1 as [_ T1].
      destruct (decide (owns s i c)); [done|]. by destruct Hn1; apply T1; [lia| |].
Qed.

(** The bytes a write puts at its place in the file. *)
Definition from_buf (offset : Z) (buf : list Z) (k : Z) : option Z := buf !! Z.to_nat (k - offset).

Lemma turn_page s i l newblk s' i' k :
  turn_result s i l newblk s' i' -> mapped_range k ->
  page (device s') i' k = if decide (k = l) then newblk else page (device s) i k.
Proof.
  intros Ht Hk. unfold page. destruct (decide (k = l)) as [->|Hne].
  - destruct (tr_here _ _ _ _ _ _ Ht) as [Hn Hb]. by rewrite (proj2 (Z.eqb_neq _ _)).
  - destruct (tr_there _ _ _ _ _ _ Ht k Hk Hne) as [-> Hb].
    destruct (Z.eqb_spec (phys (device s) i k) 0); [done|]. by apply Hb.
Qed.

Lemma turn_write s i offset buf j s' i' :
  0 <= offset -> 0 <= j < zlen buf -> offset + zlen buf <= MAX_BYTES ->
  let l := (offset + j) / 4096 in
  let n := chunk_at offset (zlen buf) j in
  turn_result s i l (upd ((offset + j) mod 4096) (sub j n buf) (page (device s) i l)) s' i' ->
  write_result (from_buf offset buf) (offset + j) (offset + (j + n)) s i s' i'.
Proof.
  intros Ho Hj Hm l n Ht. unfold chunk_at, BLOCK_SIZE in n.
  assert (Hdm := Z.div_mod (offset + j) 4096 ltac:(done)). set (off := (offset + j) mod 4096) in *.
  assert (Hoff : 0 <= off < 4096) by (apply Z.mod_pos_bound; done). fold l in Hdm.
  assert (Hn : 0 < n /\ j + n <= zlen buf /\ off + n <= 4096) by (unfold n; lia).
  assert (Hsl : zlen (sub j n buf) = n) by (apply zlen_sub; lia).
  assert (Hin : forall k, offset + j <= k < offset + (j + n) -> k / 4096 = l).
  { intros k Hk. symmetry. apply (Z.div_unique_pos _ _ _ (k - 4096 * l)); lia. }
  split; try apply Ht.
  - intros k Hk. unfold byte_at. rewrite (turn_page s i l _ s' i' _ Ht) by (by apply mapped_div).
    assert (Hkm := Z.div_mod k 4096 ltac:(done)). assert (Hmb := Z.mod_pos_bound k 4096 ltac:(done)).
    destruct (decide (k / 4096 = l)) as [He|Hne].
    + rewrite upd_lookup by (rewrite ?page_len; lia). rewrite Hsl, Z2Nat.id by lia.
      destruct (decide (offset + j <= k < offset + (j + n))); [|by rewrite decide_False, He by lia].
      rewrite decide_True by lia. rewrite sub_lookup, decide_True by lia. unfold from_buf. f_equal. lia.
    + rewrite decide_False; [done|]. intros Hr. by apply Hne, Hin.
  - intros k Hk Hor. destruct (decide (k / 4096 = l)) as [->|Hne]; [apply Ht|].
    destruct (tr_there _ _ _ _ _ _ Ht (k / 4096)) as [-> _]; [by apply mapped_div|done|].
    destruct Hor as [Hr|]; [by destruct Hne; apply Hin|done].
Qed.

(** Blocks from the one that holds byte [j] of the buffer to the last. *)
Definition span (offset len j : Z) : nat := Z.to_nat ((offset + len - 1) / 4096 - (offset + j) / 4096 + 1).

(** Blocks the rest of a write touches. *)
Definition touched (offset len j : Z) : nat := if decide (j < len) then span offset len j else 0%nat.

Lemma span_step offset len j :
  0 <= offset -> 0 <= j < len ->
  let j' := j + chunk_at offset len j in
  j < j' <= len /\ (S (touched offset len j') <= touched offset len j)%nat.
Proof.
  intros Ho Hj. unfold touched, chunk_at, span, BLOCK_SIZE. cbv zeta. rewrite (decide_True (P := j < len)) by lia.
  assert (Hdm := Z.div_mod (offset + j) 4096 ltac:(done)).
  assert (Hmb := Z.mod_pos_bound (offset + j) 4096 ltac:(done)).
  assert (Hmono := Z.div_le_mono (offset + j) (offset + len - 1) 4096 ltac:(done) ltac:(lia)).
  split; [lia|]. destruct (decide _) as [Hlt|]; [|lia].
  assert (Hnext : (offset + (j + Z.min (4096 - (offset + j) mod 4096) (len - j))) / 4096 = (offset + j) / 4096 + 1).
  { symmetry. apply (Z.div_unique_pos _ _ _ 0); lia. }
  rewrite Hnext. assert (Hm2 := Z.div_le_mono (offset + (j + Z.min (4096 - (offset + j) mod 4096) (len - j)))
    (offset + len - 1) 4096 ltac:(done) ltac:(lia)). lia.
Qed.

Lemma turn_reserve s i l b s' i' :
  turn_result s i l b s' i' -> (avail s + reserve i' <= avail s' + 1 + reserve i)%nat.
Proof.
  intros Ht. assert (Ha := tr_avail _ _ _ _ _ _ Ht). assert (Hi := tr_ind _ _ _ _ _ _ Ht). revert Ha. unfold grew, reserve.
  destruct (decide (indirect i = 0)), (decide (indirect i' = 0)), (decide (_ /\ _)); try tauto; lia.
Qed.

Lemma write_loop_ok offset buf fuel s i j :
  0 <= offset -> offset + zlen buf <= MAX_BYTES -> Forall is_byte buf ->
  0 <= j <= zlen buf -> zlen buf - j <= Z.of_nat fuel ->
  layout_ok s -> file_ok s i -> (touched offset (zlen buf) j + reserve i <= avail s)%nat ->
  exists s' i', write_loop fuel i offset buf j s = (Ok i', s') /\
    write_result (from_buf offset buf) (offset + j) (offset + zlen buf) s i s' i' /\
    (avail s + reserve i' <= avail s' + reserve i + touched offset (zlen buf) j)%nat.
Proof.
  intros Ho Hm Hby. revert s i j. induction fuel as [|fuel IH]; intros s i j Hj Hfu Hl Hf Ha.
  { exists s, i. split; [done|]. replace j with (zlen buf) by lia. split; [by apply write_refl|lia]. }
  cbn [write_loop]. destruct (Z.ltb_spec j (zlen buf)) as [Hlt|Hge].
  2: { exists s, i. split; [done|]. replace j with (zlen buf) by lia. split; [by apply write_refl|lia]. }
  destruct (span_step offset (zlen buf) j Ho ltac:(lia)) as (Hs1 & Hs2).
  destruct (write_turn_ok s i offset buf j) as (s1 & i1 & Hw & Ht); try done; [lia..|].
  unfold mbind, M_bind. rewrite Hw. set (j1 := j + chunk_at offset (zlen buf) j) in *.
  assert (Hwr : write_result (from_buf offset buf) (offset + j) (offset + j1) s i s1 i1)
    by (apply turn_write; done || lia).
  assert (Hav := turn_reserve _ _ _ _ _ _ Ht).
  destruct (IH s1 i1 j1) as (s2 & i2 & -> & Hw2 & Ha2); [lia|lia| |apply Ht| |].
  - eapply same_layout_ok; [apply Ht|done].
  - lia.
  - exists s2, i2. split; [done|]. split; [eapply (write_trans _ _ (offset + j1)); try done; lia|].
    lia.
Qed.

(** ** The end of a write *)

(** The blocks of the superblock and of the inode table may have changed. *)
Definition meta_only (s s' : Fs D) : Prop :=
  same_layout s s' /\ forall c, c <> SUPERBLOCK_BLOCK -> c <> INODE_TABLE_BLOCK -> block (device s') c = block (device s) c.

Lemma commit_ok s id i :
  layout_ok s -> sb_wf s -> slot_ok id -> inode_wf i ->
  exists s', (_ ← write_inode id i; flush_superblock) s = (Ok tt, s') /\ meta_only s s' /\
    inode_at (device s') id i /\ forall k, slot_ok k -> k <> id -> slot (device s') k = slot (device s) k.
Proof.
  intros Hl Hsb Hid Hw. destruct (write_inode_ok s id i) as (s1 & Hwi & Hsb1 & Ht1 & Hat & Hsl & Hb1);
    [apply layout_meta; [done|unfold INODE_TABLE_BLOCK; lia]|done|done|].
  assert (Hs1 : same_layout s s1) by (split; [done|]; by rewrite Hsb1).
  destruct (flush_superblock_ok s1) as (s2 & Hfl & Hsb2 & Ht2 & Hb2 & _); [by eapply same_layout_ok| |].
  { unfold sb_wf. by rewrite Hsb1. }
  assert (Hs2 : same_layout s1 s2) by (split; [done|]; by rewrite Hsb2).
  exists s2. unfold mbind, M_bind. rewrite Hwi, Hfl. split; [done|]. split; [|split].
  - split; [by etransitivity|]. intros c H1 H3. by rewrite Hb2, Hb1.
  - destruct Hat as [_ Hat]. split; [done|]. rewrite <- Hat. unfold slot. by rewrite Hb2.
  - intros k Hk Hne. rewrite <- (Hsl k Hk Hne). unfold slot. by rewrite Hb2.
Qed.

(** Two inodes with the same block map. *)
Definition same_map (i i' : Inode) : Prop :=
  blocks i' = blocks i /\ indirect i' = indirect i /\ indirect_checksum i' = indirect_checksum i.

Lemma same_map_phys d i i' l : same_map i i' -> phys d i' l = phys d i l.
Proof. intros (H1 & H2 & _). unfold phys. by rewrite H1, H2. Qed.

Lemma same_map_file_ok s i i' : same_map i i' -> inode_wf i' -> file_ok s i -> file_ok s i'.
Proof.
  intros Hm Hw [_ Hd Hj Hi]. assert (Hp := fun l => same_map_phys (device s) i i' l Hm).
  destruct Hm as (_ & H2 & H3). split; [done| | |].
  - intros l. rewrite Hp. apply Hd.
  - intros l l'. rewrite !Hp. apply Hj.
  - rewrite H2, H3. intros Hne. destruct (Hi Hne) as (? & Hn & ?). split_and!; [done| |done].
    intros l Hl. rewrite Hp. by apply Hn.
Qed.

(** ** Reading *)

Lemma read_loop_ok s i offset n fuel j b :
  layout_ok s -> file_ok s i -> 0 <= offset -> offset + n <= MAX_BYTES -> 0 <= j <= n -> n <= zlen b ->
  n - j <= Z.of_nat fuel ->
  (forall k, offset <= k < offset + n -> phys (device s) i (k / 4096) <> 0) ->
  exists b', read_loop fuel i offset n j b (device s) = Ok (n, b') /\ zlen b' = zlen b /\
    forall k, 0 <= k -> b' !! Z.to_nat k = if decide (j <= k < n) then byte_at (device s) i (offset + k) else b !! Z.to_nat k.
Proof.
  intros Hl Hf Ho Hm. revert j b. induction fuel as [|fuel IH]; intros j b Hj Hb Hfu Hp.
  { exists b. replace j with n by lia. split_and!; [done..|]. intros k Hk. by rewrite decide_False by lia. }
  cbn [read_loop]. destruct (Z.ltb_spec j n) as [Hlt|Hge].
  2: { exists b. replace j with n by lia. split_and!; [done..|]. intros k Hk. by rewrite decide_False by lia. }
  rewrite wrap_div by lia. set (l := (offset + j) / 4096). unfold BLOCK_SIZE.
  assert (Hdm := Z.div_mod (offset + j) 4096 ltac:(done)). fold l in Hdm.
  assert (Hoff := Z.mod_pos_bound (offset + j) 4096 ltac:(done)). set (off := (offset + j) mod 4096) in *.
  assert (Hlr : mapped_range l) by (apply mapped_div; lia). assert (Hne : phys (device s) i l <> 0) by (apply Hp; lia).
  destruct (get_block_ok s i l Hl Hf Hlr) as [c ->]. cbn [mbind res_bind].
  rewrite (proj2 (Z.eqb_neq _ _)) by done.
  rewrite read_block_ok by (apply data_on_disk; [done|by apply (fo_data s i Hf)]). cbn [mbind res_bind].
  set (m := Z.min (n - j) (4096 - off)). set (blk := block (device s) (phys (device s) i l)).
  assert (Hbl : zlen blk = 4096) by apply block_len. assert (Hm' : 0 < m <= n - j /\ off + m <= 4096) by (unfold m; lia).
  unfold slice, splice. rewrite decide_True by lia. cbn [mbind res_bind].
  assert (Hsl : zlen (sub off m blk) = m) by (apply zlen_sub; lia).
  rewrite decide_True by lia. cbn [mbind res_bind].
  assert (Hlu : zlen (upd j (sub off m blk) b) = zlen b) by (apply zlen_upd; lia).
  destruct (IH (j + m) (upd j (sub off m blk) b)) as (b' & -> & Hlen & Hk); [lia..|done|].
  exists b'. split; [done|]. split; [lia|]. intros k H0. rewrite (Hk k H0).
  destruct (decide (j + m <= k < n)); [by rewrite decide_True by lia|].
  rewrite upd_lookup by lia. rewrite Hsl, Z2Nat.id by lia. destruct (decide (j <= k < j + m)) as [Hr|Hr].
  - rewrite decide_True by lia. rewrite sub_lookup, decide_True by lia. unfold byte_at, page.
    assert (Hd : (offset + k) / 4096 = l /\ (offset + k) mod 4096 = off + (k - j)).
    { split; symmetry; [apply (Z.div_unique_pos _ _ _ (off + (k - j)))|apply (Z.mod_unique_pos _ _ l)]; lia. }
    destruct Hd as [-> ->]. rewrite (proj2 (Z.eqb_neq _ _)) by done. fold blk. f_equal. lia.
  - by rewrite decide_False by lia.
Qed.

(** ** Files as byte lists *)

(** The file in slot [id] is the inode [i] and holds [content], with a block
    under every byte. *)
Record holds (s : Fs D) (id : Z) (i : Inode) (content : list Z) : Prop := {
  h_slot : slot_ok id;
  h_inode : inode_at (device s) id i;
  h_ok : file_ok s i;
  h_mode : mode i <> INODE_MODE_DIR;
  h_size : size i = zlen content;
  h_max : zlen content <= MAX_BYTES;
  h_bytes : forall k, 0 <= k < zlen content ->
    phys (device s) i (k / 4096) <> 0 /\ byte_at (device s) i k = content !! Z.to_nat k
}.

(** The contents after a write. *)
Definition overwrite (offset : Z) (buf content : list Z) : list Z :=
  take (Z.to_nat offset) content ++ buf ++ drop (Z.to_nat offset + length buf) content.

Lemma zlen_overwrite offset buf content :
  0 <= offset <= zlen content -> zlen (overwrite offset buf content) = Z.max (offset + zlen buf) (zlen content).
Proof. unfold zlen, overwrite. intros H. rewrite !length_app, length_take, length_drop. lia. Qed.

Lemma overwrite_lookup offset buf content k :
  0 <= offset <= zlen content -> 0 <= k ->
  overwrite offset buf content !! Z.to_nat k =
  if decide (offset <= k < offset + zlen buf) then from_buf offset buf k else content !! Z.to_nat k.
Proof.
  unfold zlen, overwrite, from_buf. intros Ho Hk. destruct (decide (offset <= k < _)) as [Hr|Hr].
  - rewrite lookup_app_r by (rewrite length_take; lia). rewrite lookup_app_l by (rewrite length_take; lia).
    f_equal. rewrite length_take. lia.
  - destruct (decide (k < offset)).
    + rewrite lookup_app_l by (rewrite length_take; lia). by rewrite lookup_take_lt by lia.
    + rewrite !lookup_app_r by (rewrite ?length_take; lia). rewrite lookup_drop, length_take. f_equal. lia.
Qed.

(** What a read of [n] bytes leaves in a buffer. *)
Definition read_spec (offset : Z) (b content : list Z) : Z * list Z :=
  let n := Z.max 0 (Z.min (zlen content - offset) (zlen b)) in (n, upd 0 (sub offset n content) b).

Lemma read_file_ok s id i content offset b :
  layout_ok s -> holds s id i content -> 0 <= offset ->
  read_file id offset b (device s) = Ok (read_spec offset b content).
Proof.
  intros Hl H Ho. unfold read_file. rewrite (read_inode_ok (device s) id i);
    [|apply layout_meta; [done|unfold INODE_TABLE_BLOCK; lia]|apply H|apply H].
  cbn [mbind res_bind]. set (i1 := set_checksum _ i). change (size i1) with (size i). rewrite (h_size _ _ _ _ H).
  unfold read_spec. pose proof (zlen_nonneg b). destruct (Z.leb_spec (zlen content) offset) as [Hle|Hgt].
  { rewrite Z.max_l by lia. by rewrite sub_zero. }
  rewrite Z.max_r by lia. set (n := Z.min (zlen content - offset) (zlen b)).
  assert (Hmax := h_max _ _ _ _ H).
  assert (Hf1 : file_ok s i1) by (eapply same_map_file_ok; [|apply set_checksum_wf, H|apply H]; done).
  destruct (read_loop_ok s i1 offset n (Z.to_nat n) 0 b) as (b' & -> & Hlen & Hk); try done; [lia..| |].
  { intros k Hr. rewrite (same_map_phys _ i) by done. apply (h_bytes _ _ _ _ H). lia. }
  f_equal. f_equal. apply list_eq. intros k. specialize (Hk (Z.of_nat k) ltac:(lia)). rewrite Nat2Z.id in Hk.
  assert (Hsl : zlen (sub offset n content) = n) by (apply zlen_sub; lia).
  rewrite Hk, upd_lookup by lia. rewrite Hsl. rewrite Z.add_0_l. destruct (decide _) as [Hr|Hr]; [|done].
  rewrite sub_lookup, decide_True by lia.
  transitivity (byte_at (device s) i (offset + Z.of_nat k)); [unfold byte_at, page; by rewrite !(same_map_phys _ i)|].
  rewrite (proj2 (h_bytes _ _ _ _ H (offset + Z.of_nat k) ltac:(lia))). f_equal. lia.
Qed.

(** ** Writing *)

(** A file whose blocks and their bits in the bitmap are as they were. *)
Lemma file_frame s s' i i' :
  layout_ok s -> file_ok s i -> same_layout s s' -> same_map i i' -> inode_wf i' ->
  (forall c, owns s i c -> block (device s') c = block (device s) c /\ used s' c) ->
  file_ok s' i' /\ (forall l, phys (device s') i' l = phys (device s) i l) /\
  (forall l, mapped_range l -> page (device s') i' l = page (device s) i l) /\
  (forall c, owns s' i' c <-> owns s i c).
Proof.
  intros Hl Hf Hs Hm Hw Hc.
  assert (Hbi : indirect i <> 0 -> block (device s') (indirect i) = block (device s) (indirect i)).
  { intros Hne. apply Hc. split; [done|by left]. }
  assert (Hp : forall l, phys (device s') i' l = phys (device s) i l).
  { intros l. rewrite (same_map_phys _ i) by done. by apply phys_frame. }
  split; [|split; [done|split]].
  - apply (same_map_file_ok _ i); [done..|]. apply (file_ok_frame s); [done|done| |done]. intros c Ho. by apply Hc.
  - intros l Hlr. unfold page. rewrite Hp. destruct (Z.eqb_spec (phys (device s) i l) 0); [done|].
    apply Hc. split; [done|]. right. by exists l.
  - intros c. unfold owns. setoid_rewrite Hp. by destruct Hm as (_ & -> & _).
Qed.

Lemma meta_used s s' c : meta_only s s' -> used s' c <-> used s c.
Proof. intros [_ Hb]. unfold used. by rewrite Hb. Qed.

(** What a change of file [i] into [i'] in slot [id] leaves alone. *)
Record apart (s : Fs D) (id : Z) (i : Inode) (s' : Fs D) (i' : Inode) : Prop := {
  ap_slots : forall k, slot_ok k -> k <> id -> slot (device s') k = slot (device s) k;
  ap_blocks : forall c, 5 <= c -> used s c -> ~ owns s i c -> block (device s') c = block (device s) c /\ used s' c;
  ap_own : forall c, owns s' i' c -> owns s i c \/ ~ used s c
}.

(** The inode at the end of [write_file]. *)
Definition closed (now n : Z) (i : Inode) : Inode := set_times now (ctime i) (atime i) (set_size n i).

Lemma closed_wf now n i : inode_wf i -> fits 32 now -> fits 32 n -> inode_wf (closed now n i).
Proof. intros [] Hn Hs. split; try done. cbn. tauto. Qed.

(** The end of a write, after the loop went from [s] and [i] to [s1] and [i1]. *)
Lemma write_end now s id i content offset buf s1 i1 :
  layout_ok s -> sb_wf s -> holds s id i content -> fits 32 now ->
  0 <= offset <= zlen content -> offset + zlen buf <= MAX_BYTES ->
  write_result (from_buf offset buf) offset (offset + zlen buf) s i s1 i1 ->
  let i2 := closed now (zlen (overwrite offset buf content)) i1 in
  exists s2, (_ ← write_inode id i2; flush_superblock) s1 = (Ok tt, s2) /\
    same_layout s s2 /\ avail s2 = avail s1 /\ holds s2 id i2 (overwrite offset buf content) /\ apart s id i s2 i2.
Proof.
  intros Hl Hsb H Hnow Ho Hm [L O M B P T W] i2.
  assert (Hl1 : layout_ok s1) by (by eapply same_layout_ok). assert (Hcm := h_max _ _ _ _ H).
  assert (Hz := zlen_overwrite offset buf content Ho). set (c' := overwrite offset buf content) in *.
  assert (Hw2 : inode_wf i2).
  { apply closed_wf; [apply O|done|]. unfold MAX_BYTES in *. pose proof (zlen_nonneg c'). split; lia. }
  destruct (commit_ok s1 id i2) as (s2 & Hc & Hmo & Hat & Hsl); [done| |apply H|done|].
  { destruct L as (_ & _ & _ & Hr). unfold sb_wf. by rewrite Hr. }
  assert (Hs12 := proj1 Hmo). assert (Hu := fun c => meta_used s1 s2 c Hmo).
  assert (Hb12 : forall c, 5 <= c -> block (device s2) c = block (device s1) c).
  { intros c Hc5. apply Hmo; unfold SUPERBLOCK_BLOCK, INODE_TABLE_BLOCK; lia. }
  destruct (file_frame s1 s2 i1 i2) as (Hf2 & Hp2 & Hpg & Hown); try done.
  { intros c Hoc. assert (Hd := owns_data s1 i1 c O Hoc). split; [|apply Hu, Hd].
    apply Hb12. by eapply data_not_meta. }
  exists s2. split; [done|]. split; [by etransitivity|]. split; [|split].
  - apply avail_same; [done|destruct Hl1; lia|intros c _; apply Hu].
  - split; try done; [apply H|..].
    + destruct M as (Hmd & _). change (mode i2) with (mode i1). rewrite Hmd. apply H.
    + lia.
    + intros k Hk. rewrite Hp2. split.
      * apply P; [lia|]. destruct (decide (offset <= k < offset + zlen buf)); [by left|right].
        apply (h_bytes _ _ _ _ H). lia.
      * unfold byte_at. rewrite Hpg by (apply mapped_div; lia). fold (byte_at (device s1) i1 k). rewrite B by lia.
        unfold c'. rewrite overwrite_lookup by lia. destruct (decide _); [done|]. apply (h_bytes _ _ _ _ H). lia.
  - destruct T as [Tb Tu]. split.
    + intros k Hk Hne. rewrite (Hsl k Hk Hne). unfold slot. rewrite Tb; [done|done|done| |].
      * right. destruct Hl. unfold INODE_TABLE_BLOCK. lia.
      * intros Hoc. pose proof (data_not_meta s _ Hl (owns_data s i _ (h_ok _ _ _ _ H) Hoc)).
        unfold INODE_TABLE_BLOCK in *. lia.
    + intros c Hc5 Huc Hno. split; [|apply Hu, Tu; done || lia]. rewrite Hb12 by done.
      apply Tb; [lia|unfold BITMAP_BLOCK; lia|by left|done].
    + intros c Hoc. apply W. by apply Hown.
Qed.

Lemma holds_checksum s id i c content : holds s id i content -> holds s id (set_checksum c i) content.
Proof.
  intros [H1 [Hw Hi] H3 H4 H5 H6 H7]. split; try done; [split; [by apply set_checksum_wf|done]|].
  eapply same_map_file_ok; [|by apply set_checksum_wf|done]. done.
Qed.

Lemma write_file_ok now s id i content offset buf :
  layout_ok s -> sb_wf s -> holds s id i content -> fits 32 now ->
  0 <= offset <= zlen content -> offset + zlen buf <= MAX_BYTES -> Forall is_byte buf ->
  (touched offset (zlen buf) 0 + 1 <= avail s)%nat ->
  exists s' i', write_file now id offset buf s = (Ok (zlen buf), s') /\ same_layout s s' /\
    (avail s <= avail s' + (touched offset (zlen buf) 0 + 1))%nat /\
    holds s' id i' (overwrite offset buf content) /\ apart s id i s' i'.
Proof.
  intros Hl Hsb H Hnow Ho Hm Hby Ha. set (i0 := set_checksum (calculate_inode_checksum i) i).
  assert (H0 : holds s id i0 content) by (by apply holds_checksum).
  assert (Hr1 : (reserve i0 <= 1)%nat) by (unfold reserve; destruct (decide _); lia).
  assert (Hz := zlen_overwrite offset buf content Ho). pose proof (zlen_nonneg buf). assert (Hcm := h_max _ _ _ _ H).
  destruct (write_loop_ok offset buf (length buf) s i0 0) as (s1 & i1 & Hw & Hwr & Ha1);
    [lia|done|done|lia|unfold zlen; lia|done|apply H0|lia|].
  rewrite Z.add_0_r in Hwr. destruct (write_end now s id i0 content offset buf s1 i1) as (s2 & Hc & Hs & Hav & Hh & Hap);
    try done.
  eexists s2, _. split; [|split; [done|split; [lia|split; [done|]]]].
  2: { destruct Hap. by split. }
  unfold write_file, mbind, M_bind, read_ino, lift, mret, M_ret in *.
  rewrite (read_inode_ok (device s) id i); [|apply layout_meta; [done|unfold INODE_TABLE_BLOCK; lia]|apply H|apply H].
  fold i0. rewrite (proj2 (Z.eqb_neq _ _)) by apply H0. rewrite Hw.
  rewrite (proj2 (Z.leb_gt _ _)) by (unfold MAX_BYTES in *; lia).
  assert (Hsz : size i1 = zlen content) by (destruct (wr_meta _ _ _ _ _ _ _ Hwr) as (_ & -> & _); by apply (h_size _ _ _ _ H0)).
  rewrite Hsz, <- Hz. rewrite wrap_small by (unfold MAX_BYTES in *; split; lia).
  fold (closed now (zlen (overwrite offset buf content)) i1).
  destruct (write_inode id _ s1) as [[| | |] s3]; try discriminate.
  destruct (flush_superblock s3) as [[| | |] s4]; try discriminate. by injection Hc as _ ->.
Qed.

(** ** The file system as a map of byte lists *)

Inductive fop :=
  | FRead (id offset n : Z)
  | FWrite (id offset : Z) (buf : list Z).

Definition run_fop (now : Z) (o : fop) : M (Fs D) AbiError (Z * list Z) :=
  match o with
  | FRead id offset n => fun s => (read_file id offset (zeros n) (device s), s)
  | FWrite id offset buf => n ← write_file now id offset buf; mret (n, [])
  end.

Fixpoint run_fops {S} (step : fop -> S -> res AbiError (Z * list Z) * S) (os : list fop) (s : S)
    : list (res AbiError (Z * list Z)) :=
  match os with
  | [] => []
  | o :: os => let '(r, s) := step o s in r :: run_fops step os s
  end.

Definition spec_fop (o : fop) (m : gmap Z (list Z)) : res AbiError (Z * list Z) * gmap Z (list Z) :=
  match o with
  | FRead id offset n => (Ok (read_spec offset (zeros n) (default [] (m !! id))), m)
  | FWrite id offset buf => (Ok (zlen buf, []), <[id := overwrite offset buf (default [] (m !! id))]> m)
  end.

(** The operation is on a file of [m]; a write starts at most at its end and
    stays inside the first 522 blocks. *)
Definition fop_ok (o : fop) (m : gmap Z (list Z)) : Prop :=
  match o with
  | FRead id offset n => is_Some (m !! id) /\ 0 <= offset
  | FWrite id offset buf => is_Some (m !! id) /\ 0 <= offset <= zlen (default [] (m !! id)) /\
      offset + zlen buf <= MAX_BYTES /\ Forall is_byte buf
  end.

Fixpoint fops_ok (os : list fop) (m : gmap Z (list Z)) : Prop :=
  match os with
  | [] => True
  | o :: os => fop_ok o m /\ fops_ok os (snd (spec_fop o m))
  end.

(** Free blocks an operation may use up: one per block it touches, because
    blocks are replaced rather than changed, and one for the pointers. *)
Definition need (o : fop) : nat :=
  match o with FRead _ _ _ => 0%nat | FWrite _ offset buf => (touched offset (zlen buf) 0 + 1)%nat end.

Definition represents (s : Fs D) (m : gmap Z (list Z)) : Prop :=
  layout_ok s /\ sb_wf s /\ exists f : Z -> Inode,
    (forall id c, m !! id = Some c -> holds s id (f id) c) /\
    (forall id id' b, is_Some (m !! id) -> is_Some (m !! id') -> owns s (f id) b -> owns s (f id') b -> id = id').

(** A file in another slot, with other blocks, keeps its contents. *)
Lemma holds_apart s id i s' i' id2 i2 c2 :
  layout_ok s -> same_layout s s' -> apart s id i s' i' -> id2 <> id -> holds s id2 i2 c2 ->
  (forall b, owns s i b -> ~ owns s i2 b) ->
  holds s' id2 i2 c2 /\ forall b, owns s' i2 b <-> owns s i2 b.
Proof.
  intros Hl Hs [As Ab Ao] Hne H Hdis. destruct (file_frame s s' i2 i2) as (Hf & Hp & Hpg & Ho); try done; [apply H..| |].
  { intros c Hc. assert (Hd := owns_data s i2 c (h_ok _ _ _ _ H) Hc).
    apply Ab; [by eapply data_not_meta|apply Hd|]. intros Hi. by destruct (Hdis c Hi). }
  split; [|done]. destruct H as [H1 [Hw Hi] H3 H4 H5 H6 H7]. split; try done.
  - split; [done|]. by rewrite As.
  - intros k Hk. rewrite Hp. destruct (H7 k Hk) as [Hk1 Hk2]. split; [done|]. rewrite <- Hk2.
    unfold byte_at. by rewrite Hpg by (apply mapped_div; lia).
Qed.

Lemma write_represents now s m id offset buf :
  fits 32 now -> represents s m -> fop_ok (FWrite id offset buf) m ->
  (touched offset (zlen buf) 0 + 1 <= avail s)%nat ->
  exists s', write_file now id offset buf s = (Ok (zlen buf), s') /\
    represents s' (<[id := overwrite offset buf (default [] (m !! id))]> m) /\
    (avail s <= avail s' + (touched offset (zlen buf) 0 + 1))%nat.
Proof.
  intros Hnow (Hl & Hsb & f & Hh & Hd) ([c Hid] & Ho & Hm & Hby) Ha. rewrite Hid in *. cbn [default] in *.
  destruct (write_file_ok now s id (f id) c offset buf) as (s' & i' & Hw & Hs & Hav & Hh' & Hap);
    [done|done|by apply Hh|done..|].
  exists s'. split; [done|]. split; [|done]. split; [by eapply same_layout_ok|].
  split; [destruct Hs as (_ & _ & _ & Hr); unfold sb_wf; by rewrite Hr|].
  assert (Hoth : forall id2 c2, id2 <> id -> m !! id2 = Some c2 ->
            holds s' id2 (f id2) c2 /\ forall b, owns s' (f id2) b <-> owns s (f id2) b).
  { intros id2 c2 Hne H2. apply (holds_apart s id (f id) s' i'); [done..|by apply Hh|].
    intros b Hb1 Hb2. apply Hne. by eapply Hd; [| |exact Hb2|exact Hb1]. }
  assert (Hnew : forall id2 b, id2 <> id -> is_Some (m !! id2) -> owns s' i' b -> ~ owns s' (f id2) b).
  { intros id2 b Hne [c2 H2] Hb1 Hb2. destruct (Hoth id2 c2 Hne H2) as [_ Hiff]. apply Hiff in Hb2.
    destruct (ap_own _ _ _ _ _ Hap b Hb1) as [Ho1|Hn]; [by apply Hne; eapply Hd; [| |exact Hb2|exact Ho1]|].
    apply Hn. by apply (owns_data s (f id2)); [apply (Hh id2 c2 H2)|]. }
  exists (fun k => if decide (k = id) then i' else f k). split.
  - intros k ck. destruct (decide (k = id)) as [->|Hne].
    + rewrite lookup_insert_eq. by intros [= <-].
    + rewrite lookup_insert_ne by done. intros Hk. by apply (Hoth k ck).
  - intros k k' b. destruct (decide (k = id)) as [->|Hk], (decide (k' = id)) as [->|Hk']; [done|..];
      rewrite ?(lookup_insert_ne _ id k), ?(lookup_insert_ne _ id k') by done; intros H1 H2 Hb1 Hb2.
    + exfalso. by apply (Hnew k' b).
    + exfalso. by apply (Hnew k b).
    + destruct H1 as [c1 H1], H2 as [c2 H2]. apply (Hoth k c1 Hk H1) in Hb1. apply (Hoth k' c2 Hk' H2) in Hb2.
      by apply (Hd k k' b).
Qed.

Lemma fop_step now o s m :
  fits 32 now -> represents s m -> fop_ok o m -> (need o <= avail s)%nat ->
  let '(r, s') := run_fop now o s in let '(r', m') := spec_fop o m in
  r = r' /\ represents s' m' /\ (avail s <= avail s' + need o)%nat.
Proof.
  intros Hnow Hr Hok Ha. destruct o as [id offset n|id offset buf]; cbn [run_fop spec_fop need] in *.
  - destruct Hok as [[c Hid] Ho]. pose proof Hr as (Hl & _ & f & Hh & _). rewrite Hid. cbn [default].
    rewrite (read_file_ok s id (f id) c) by (done || by apply Hh). split_and!; [done..|lia].
  - destruct (write_represents now s m id offset buf Hnow Hr Hok Ha) as (s' & Hw & Hr' & Hav).
    unfold mbind, M_bind, mret, M_ret. rewrite Hw. by split_and!.
Qed.

(** C39. ZiqaFS files without holes behave as byte lists: on a file system
    that holds some files in distinct blocks, every sequence of reads and of
    writes that each start at or before the end of their file and stay inside
    the direct and single-indirect blocks, with enough free blocks, succeeds
    and answers as the same sequence on a map from inode numbers to byte
    lists: a read returns the bytes last written and a write to one file never
    changes another.  A write past the end leaves a hole, at which a read
    stops short. *)
Theorem files_refine now os s m :
  fits 32 now -> represents s m -> fops_ok os m -> (sum_list_with need os <= avail s)%nat ->
  run_fops (run_fop now) os s = run_fops spec_fop os m.
Proof.
  intros Hnow. revert s m. induction os as [|o os IH]; intros s m Hr Hok Ha; [done|].
  cbn [run_fops fops_ok] in *. destruct Hok as [Ho Hos].
  change (sum_list_with need (o :: os)) with (need o + sum_list_with need os)%nat in Ha.
  assert (Hst := fop_step now o s m Hnow Hr Ho ltac:(lia)).
  destruct (run_fop now o s) as [r s'], (spec_fop o m) as [r' m']. destruct Hst as (-> & Hr' & Hav).
  f_equal. apply IH; [done|done|]. lia.
Qed.

(** An inode without blocks. *)
Lemma empty_file_ok s i :
  inode_wf i -> blocks i = replicate 10 0 -> indirect i = 0 -> file_ok s i.
Proof.
  intros Hw Hb Hi. assert (Hp : forall l, phys (device s) i l = 0).
  { intros l. unfold phys. rewrite Hb, Hi. destruct (l <? 10); [|done].
    destruct (replicate 10 0 !! Z.to_nat l) eqn:Hl; [|done]. by apply lookup_replicate in Hl as [-> _]. }
  split; [done| | |done].
  - intros l _. by rewrite Hp.
  - intros l l' _ _ _. by rewrite Hp.
Qed.

Lemma empty_owns s i b : blocks i = replicate 10 0 -> indirect i = 0 -> ~ owns s i b.
Proof.
  intros Hb Hi [Hne [->|(l & _ & He)]]; [done|]. apply Hne. rewrite <- He. unfold phys. rewrite Hb, Hi.
  destruct (l <? 10); [|done]. destruct (replicate 10 0 !! Z.to_nat l) eqn:Hl; [|done].
  by apply lookup_replicate in Hl as [-> _].
Qed.

End Rw.


(** ** Two empty files on a small disk *)

Definition empty_inode : Inode := fresh_inode 0 INODE_MODE_FILE.

Lemma empty_inode_wf : inode_wf empty_inode.
Proof. apply set_checksum_wf. split; cbn; try (by split); split_and!; done || by repeat constructor. Qed.

Definition two_files : Fs MemDisk := snd (write_inode 3 empty_inode (snd (write_inode 2 empty_inode demo_fs))).

Lemma demo_layout : layout_ok demo_fs.
Proof. by split. Qed.

Lemma two_files_ok : represents two_files {[2 := []; 3 := []]} /\ avail two_files = 10%nat.
Proof.
  unfold two_files. assert (Hd : on_disk (device demo_fs) INODE_TABLE_BLOCK) by done.
  destruct (write_inode_ok demo_fs 2 empty_inode Hd) as (s1 & Hw1 & Hsb1 & Ht1 & Hat1 & _ & Hb1);
    [done|apply empty_inode_wf|]. rewrite Hw1. cbn [snd].
  destruct (write_inode_ok s1 3 empty_inode) as (s2 & Hw2 & Hsb2 & Ht2 & Hat2 & Hsl & Hb2);
    [unfold on_disk; by rewrite Ht1|done|apply empty_inode_wf|]. rewrite Hw2. cbn [snd].
  assert (Hs : same_layout demo_fs s2) by (split_and!; congruence).
  assert (Hblk : block (device s2) BITMAP_BLOCK = block (device demo_fs) BITMAP_BLOCK) by (by rewrite Hb2, Hb1).
  split.
  - split; [eapply same_layout_ok; [done|apply demo_layout]|].
    split; [unfold sb_wf; rewrite Hsb2, Hsb1; split; [done|by apply zeros_bytes]|].
    exists (fun _ => empty_inode). split; [|intros id id' b _ _ Ho; by apply empty_owns in Ho].
    assert (Hempty : forall id, slot_ok id -> inode_at (device s2) id empty_inode -> holds s2 id empty_inode []).
    { intros id Hid Hat. split; [exact Hid|exact Hat|apply empty_file_ok; [apply empty_inode_wf|reflexivity..]
        |by intros [=]|reflexivity|done|]. intros k Hk. change (zlen []) with 0 in Hk. lia. }
    intros id c [[<- <-]|[_ [<- <-]%lookup_singleton_Some]]%lookup_insert_Some;
      apply Hempty; [by split| |by split|exact Hat2].
    destruct Hat1 as [Hwf Hat1]. split; [exact Hwf|]. rewrite Hsl; [exact Hat1|by split|lia].
  - rewrite (avail_same demo_fs s2); [by vm_compute|done|done|]. intros c _. unfold used. by rewrite Hblk.
Qed.

Definition demo_ops : list fop :=
  [FWrite 2 0 [1; 2; 3]; FWrite 3 0 [9]; FWrite 2 3 [4; 5]; FWrite 2 1 [8]; FRead 2 0 4; FRead 3 0 4; FRead 2 4 4].

Lemma files_refine_witness :
  run_fops (run_fop 7) demo_ops two_files =
    [Ok (3, []); Ok (1, []); Ok (2, []); Ok (1, []); Ok (4, [1; 8; 3; 4]); Ok (1, [9; 0; 0; 0]); Ok (1, [5; 0; 0; 0])].
Proof.
  rewrite (files_refine 7 demo_ops two_files {[2 := []; 3 := []]}).
  - vm_compute. reflexivity.
  - done.
  - apply two_files_ok.
  - cbn. split_and!; try done; try (by eexists); by repeat constructor.
  - rewrite (proj2 two_files_ok). vm_compute. lia.
Defined.

(** A byte written past the end of an empty file is read back, but a read of
    the hole before it returns nothing instead of zeros. *)
Lemma hole_reads_short :
  run_fops (run_fop 7) [FWrite 2 8192 [1]; FRead 2 8192 1; FRead 2 0 4] two_files =
    [Ok (1, []); Ok (1, [1]); Ok (0, [0; 0; 0; 0])].
Proof. vm_compute. reflexivity. Qed.

End ZfsRw.
