(* ===== verification/WasmBin.v ===== *)
(** * WebAssembly binaries

    Models the binary reader of [src/abi/wasm/mod.rs]: the two LEB128
    decoders, [parse_wasm] and the instance it builds.  The reader moves an
    offset over the bytes; indexing past the end panics, as the source indexes
    without a check in many places.  Memory allocation is assumed to succeed
    up to the [isize] limit of a vector.

    Nothing here uses a raw pointer, so [Fault] has no meaning of its own: it
    stands for a loop that ran out of fuel, and [parse_wasm_total] shows that
    this never happens.  [uleb], [sleb] and [module_bytes] are the encoders of
    the WebAssembly specification, the other half of the round trips. *)

From S2P Require Import Prelude Bytes Path.

Module WasmBin.

(** ** Readers *)

(** The state of a reader is its offset. *)
Abbreviation Rd := (M Z string) (only parsing).

(** Ten bytes bring the shift to 70, where the loop stops. *)
Fixpoint read_leb128_loop (fuel : nat) (data : list Z) (result shift : Z) : M Z unit Z :=
  match fuel with
  | O => lift Fault
  | S fuel =>
      offset ← get;
      if zlen data <=? offset then throw tt
      else
        byte ← lift (index data offset);
        _ ← put (offset + 1);
        let result := Z.lor result (wrap 64 (Z.shiftl (Z.land byte 0x7F) shift)) in
        if Z.land byte 0x80 =? 0 then mret result
        else
          let shift := shift + 7 in
          if 64 <=? shift then throw tt else read_leb128_loop fuel data result shift
  end.

Definition read_leb128 (data : list Z) : M Z unit Z := read_leb128_loop 10 data 0 0.

(** The signed reader has no bound on the shift: shifting an [i64] by 64 or
    more panics, which the eleventh byte reaches.  [result] is kept as the
    64-bit pattern. *)
Fixpoint read_leb128_signed_loop (fuel : nat) (data : list Z) (result shift : Z) : M Z unit Z :=
  match fuel with
  | O => lift Fault
  | S fuel =>
      offset ← get;
      if zlen data <=? offset then throw tt
      else
        byte ← lift (index data offset);
        _ ← put (offset + 1);
        if 64 <=? shift then lift Panic
        else
          let result := Z.lor result (wrap 64 (Z.shiftl (Z.land byte 0x7F) shift)) in
          let shift := shift + 7 in
          if Z.land byte 0x80 =? 0 then
            mret (sint 64 (if (shift <? 64) && negb (Z.land byte 0x40 =? 0)
                           then Z.lor result (wrap 64 (Z.shiftl (-1) shift))
                           else result))
          else read_leb128_signed_loop fuel data result shift
  end.

Definition read_leb128_signed (data : list Z) : M Z unit Z :=
  read_leb128_signed_loop 11 data 0 0.

(** ** Instances *)

Record WasmLocalDecl := mkLocals { count : Z; val_type : Z }.

Inductive WasmFunction :=
| Imported (module name : list Z) (type_idx : Z)
| Internal (type_idx : Z) (locals_decl : list WasmLocalDecl) (code : list Z).

Record WasmInstance := mkInstance {
  memory : list Z;
  functions : list WasmFunction;
  type_sigs : list (Z * Z);
  start_func_idx : option Z
}.

(** What the sections read so far have collected. *)
Record Acc := mkAcc {
  a_functions : list WasmFunction;
  memory_size_pages : Z;
  data_segments : list (Z * list Z);
  a_start : option Z;
  code_bodies : list (list WasmLocalDecl * list Z);
  a_sigs : list (Z * Z);
  internal_types : list Z
}.

Definition new_acc : Acc := mkAcc [] 0 [] None [] [] [].

Definition add_sigs (l : list (Z * Z)) (a : Acc) : Acc :=
  mkAcc (a_functions a) (memory_size_pages a) (data_segments a) (a_start a) (code_bodies a)
    (a_sigs a ++ l) (internal_types a).
Definition add_function (f : WasmFunction) (a : Acc) : Acc :=
  mkAcc (a_functions a ++ [f]) (memory_size_pages a) (data_segments a) (a_start a) (code_bodies a)
    (a_sigs a) (internal_types a).
Definition set_pages (n : Z) (a : Acc) : Acc :=
  mkAcc (a_functions a) n (data_segments a) (a_start a) (code_bodies a) (a_sigs a) (internal_types a).
Definition add_types (l : list Z) (a : Acc) : Acc :=
  mkAcc (a_functions a) (memory_size_pages a) (data_segments a) (a_start a) (code_bodies a)
    (a_sigs a) (internal_types a ++ l).
Definition set_start (i : Z) (a : Acc) : Acc :=
  mkAcc (a_functions a) (memory_size_pages a) (data_segments a) (Some i) (code_bodies a)
    (a_sigs a) (internal_types a).
Definition add_bodies (l : list (list WasmLocalDecl * list Z)) (a : Acc) : Acc :=
  mkAcc (a_functions a) (memory_size_pages a) (data_segments a) (a_start a) (code_bodies a ++ l)
    (a_sigs a) (internal_types a).
Definition add_segments (l : list (Z * list Z)) (a : Acc) : Acc :=
  mkAcc (a_functions a) (memory_size_pages a) (data_segments a ++ l) (a_start a) (code_bodies a)
    (a_sigs a) (internal_types a).

Definition unchanged (a : Acc) : Acc := a.

Section reader.
Context (data : list Z).

(** [read_leb128(data, &mut offset).map_err(|_| msg)] *)
Definition leb (msg : string) : Rd Z := map_err msg (read_leb128 data).

(** [data[offset]] *)
Definition this_byte : Rd Z := offset ← get; lift (index data offset).

(** [offset += 1], once the byte there has been read. *)
Definition advance : Rd unit := modify (fun offset => offset + 1).

Definition next_byte : Rd Z := b ← this_byte; _ ← advance; mret b.

(** [offset += n] *)
Definition skip (n : Z) : Rd unit := offset ← get; o ← lift (uadd offset n); put o.

(** [&data[offset..offset + n]; offset += n] *)
Definition take_bytes (n : Z) : Rd (list Z) :=
  offset ← get; e ← lift (uadd offset n); bs ← lift (slice offset n data); _ ← put e; mret bs.

Definition take_name (n : Z) (msg : string) : Rd (list Z) :=
  bs ← take_bytes n; if Path.utf8_valid bs then mret bs else throw msg.

(** [for _ in 0..n], collecting what each turn pushes.  Every turn consumes a
    byte or fails, so the length of the data is enough fuel. *)
Fixpoint collect {A} (fuel : nat) (n : Z) (item : Rd A) : Rd (list A) :=
  if n <=? 0 then mret []
  else
    match fuel with
    | O => lift Fault
    | S fuel => a ← item; l ← collect fuel (n - 1) item; mret (a :: l)
    end.

Definition times {A} (n : Z) (item : Rd A) : Rd (list A) := collect (S (length data)) n item.

(** One turn of the type section. *)
Definition type_item : Rd (Z * Z) :=
  offset ← get;
  if zlen data <=? offset then throw "Invalid type form"
  else
    form ← this_byte;
    if negb (form =? 0x60) then throw "Invalid type form"
    else
      _ ← advance;
      param_count ← leb "Failed to read param count";
      _ ← skip param_count;
      ret_count ← leb "Failed to read ret count";
      _ ← skip ret_count;
      mret (param_count, ret_count).

(** One turn of the import section: what it does to the accumulators. *)
Definition import_item : Rd (Acc -> Acc) :=
  mod_len ← leb "Failed to read mod length";
  module_name ← take_name mod_len "Invalid module name";
  field_len ← leb "Failed to read field length";
  field_name ← take_name field_len "Invalid field name";
  kind ← next_byte;
  if kind =? 0 then
    type_idx ← leb "Failed to read type index";
    mret (add_function (Imported module_name field_name type_idx))
  else if kind =? 1 then
    _ ← next_byte;
    _ ← leb "Failed to read table min";
    mret unchanged
  else if kind =? 2 then
    _ ← next_byte;
    min ← leb "Failed to read memory min";
    mret (set_pages min)
  else
    _ ← next_byte;
    _ ← next_byte;
    mret unchanged.

Definition memory_item : Rd (Acc -> Acc) :=
  flags ← next_byte;
  min ← leb "Failed to read memory min";
  _ ← (if negb (Z.land flags 1 =? 0) then leb "Failed to read memory max" else mret 0);
  mret (set_pages min).

Definition export_item : Rd (Acc -> Acc) :=
  name_len ← leb "Failed to read export name length";
  name ← take_name name_len "Invalid export name";
  kind ← next_byte;
  idx ← leb "Failed to read export index";
  if (kind =? 0) && (bool_decide (name = Path.bytes_of "_start") || bool_decide (name = Path.bytes_of "main"))
  then mret (set_start idx) else mret unchanged.

Definition local_item : Rd WasmLocalDecl :=
  n ← leb "Failed to read local count";
  t ← next_byte;
  mret (mkLocals (wrap 32 n) t).

Definition code_item : Rd (list WasmLocalDecl * list Z) :=
  body_size ← leb "Failed to read body size";
  offset ← get;
  body_end ← lift (uadd offset body_size);
  locals_count ← leb "Failed to read locals count";
  decls ← times locals_count local_item;
  offset ← get;
  code ← lift (slice offset (body_end - offset) data);
  _ ← put body_end;
  mret (decls, code).

Definition data_item : Rd (Z * list Z) :=
  _ ← leb "Failed to read data flags";
  op ← this_byte;
  if negb (op =? 0x41) then throw "Only i32.const offset is supported in data section"
  else
    _ ← advance;
    mem_off ← map_err "Failed to read offset value" (read_leb128_signed data);
    stop ← this_byte;
    if negb (stop =? 0x0B) then throw "Expected end opcode after offset expression"
    else
      _ ← advance;
      data_len ← leb "Failed to read data segment length";
      segment ← take_bytes data_len;
      mret (wrap 64 mem_off, segment).

(** Apply the effects of a section's turns in order. *)
Definition apply_all (fs : list (Acc -> Acc)) (a : Acc) : Acc := foldl (fun a f => f a) a fs.

Definition section_body (sec_id : Z) (a : Acc) : Rd Acc :=
  if sec_id =? 1 then
    n ← leb "Failed to read type count"; l ← times n type_item; mret (add_sigs l a)
  else if sec_id =? 2 then
    n ← leb "Failed to read import count"; l ← times n import_item; mret (apply_all l a)
  else if sec_id =? 3 then
    n ← leb "Failed to read func count";
    l ← times n (leb "Failed to read type index"); mret (add_types l a)
  else if sec_id =? 5 then
    n ← leb "Failed to read memory count"; l ← times n memory_item; mret (apply_all l a)
  else if sec_id =? 7 then
    n ← leb "Failed to read export count"; l ← times n export_item; mret (apply_all l a)
  else if sec_id =? 8 then
    idx ← leb "Failed to read start index"; mret (set_start idx a)
  else if sec_id =? 10 then
    n ← leb "Failed to read code count"; l ← times n code_item; mret (add_bodies l a)
  else if sec_id =? 11 then
    n ← leb "Failed to read data count"; l ← times n data_item; mret (add_segments l a)
  else mret a.

(** One turn of the section loop. *)
Definition section (a : Acc) : Rd Acc :=
  sec_id ← next_byte;
  sec_len ← leb "Failed to read section length";
  offset ← get;
  sec_end ← lift (uadd offset sec_len);
  if zlen data <? sec_end then throw "Section length out of bounds"
  else
    a' ← section_body sec_id a;
    _ ← put sec_end;
    mret a'.

Fixpoint sections (fuel : nat) (a : Acc) : Rd Acc :=
  offset ← get;
  if zlen data <=? offset then mret a
  else
    match fuel with
    | O => lift Fault
    | S fuel => a' ← section a; sections fuel a'
    end.

End reader.

(** The data segments are copied one after the other. *)
Fixpoint copy_segments (segs : list (Z * list Z)) (mem : list Z) : res string (list Z) :=
  match segs with
  | [] => Ok mem
  | (mem_off, segment) :: segs =>
      e ← uadd mem_off (zlen segment);
      if zlen mem <? e then Err "Data segment exceeds memory boundary"
      else mem' ← splice mem_off segment mem; copy_segments segs mem'
  end.

(** What follows the section loop. *)
Definition instantiate (a : Acc) : res string WasmInstance :=
  if negb (length (internal_types a) =? length (code_bodies a))%nat
  then Err "Function type / code body count mismatch"
  else
    let internals := zip_with (fun t b => Internal t (fst b) (snd b)) (internal_types a) (code_bodies a) in
    let memory_size_bytes := memory_size_pages a * 64 * 1024 in
    if 2 ^ 63 <=? memory_size_bytes then Panic
    else
      mem ← copy_segments (data_segments a) (zeros memory_size_bytes);
      Ok (mkInstance mem (a_functions a ++ internals) (a_sigs a) (a_start a)).

Definition parse_wasm (data : list Z) : res string WasmInstance :=
  if zlen data <? 8 then Err "Binary too small"
  else if negb (bool_decide (sub 0 4 data = [0x00; 0x61; 0x73; 0x6d])) then Err "Invalid magic header"
  else if negb (bool_decide (sub 4 4 data = [1; 0; 0; 0])) then Err "Unsupported WASM version"
  else a ← fst (sections data (length data) new_acc 8); instantiate a.

(** [can_load] of the plugin. *)
Definition can_load (binary : list Z) : bool :=
  (4 <=? zlen binary) && bool_decide (sub 0 4 binary = [0x00; 0x61; 0x73; 0x6d]).

(** The demonstration module. *)
Definition TEST_WASM : list Z :=
  [0x00; 0x61; 0x73; 0x6d; 0x01; 0x00; 0x00; 0x00]
  ++ [0x01; 12; 0x02; 0x60; 0x04; 0x7f; 0x7f; 0x7f; 0x7f; 0x01; 0x7f; 0x60; 0x00; 0x00]
  ++ [0x02; 35; 0x01; 22] ++ Path.bytes_of "wasi_snapshot_preview1" ++ [8] ++ Path.bytes_of "fd_write" ++ [0x00; 0x00]
  ++ [0x03; 0x02; 0x01; 0x01]
  ++ [0x05; 0x03; 0x01; 0x00; 0x01]
  ++ [0x07; 19; 0x02; 6] ++ Path.bytes_of "memory" ++ [0x02; 0x00; 6] ++ Path.bytes_of "_start" ++ [0x00; 0x01]
  ++ [0x0a; 29; 0x01; 27; 0x00; 0x41; 0x00; 0x41; 0x08; 0x36; 0x02; 0x00; 0x41; 0x04; 0x41; 0x1f;
      0x36; 0x02; 0x00; 0x41; 0x01; 0x41; 0x00; 0x41; 0x01; 0x41; 0x28; 0x10; 0x00; 0x1a; 0x0b]
  ++ [0x0b; 37; 0x01; 0x00; 0x41; 0x08; 0x0b; 31] ++ Path.bytes_of "Hello from WebAssembly (WASI)!" ++ [10].

(** ** Progress: no loop runs out of fuel

    [moves P m]: a run of [m] does not end in [Fault], and a successful one
    does not step back and returns a value that satisfies [P].
    [eats data P m]: moreover a successful run starts inside the data and
    consumes at least one byte. *)
Definition moves {E A} (P : A -> Prop) (m : M Z E A) : Prop := forall o, 0 <= o ->
  match m o with (Ok a, o') => o <= o' /\ P a | (Fault, _) => False | _ => True end.

Definition eats {E A} (data : list Z) (P : A -> Prop) (m : M Z E A) : Prop := forall o, 0 <= o ->
  match m o with (Ok a, o') => o < o' /\ o < zlen data /\ P a | (Fault, _) => False | _ => True end.

Definition any {A} (a : A) : Prop := True.

Lemma eats_moves {E A} data P (m : M Z E A) : eats data P m -> moves P m.
Proof. intros H o Ho. specialize (H o Ho). destruct (m o) as [[]]; try done. intuition lia. Qed.

Lemma moves_any {E A} P (m : M Z E A) : moves P m -> moves any m.
Proof. intros H o Ho. specialize (H o Ho). destruct (m o) as [[]]; try done. by destruct H. Qed.

Lemma moves_ret {E A} (a : A) : moves any (mret a : M Z E A).
Proof. intros o Ho. split; [lia|done]. Qed.

Lemma moves_throw {E A} P (e : E) : moves P (throw e : M Z E A).
Proof. by intros o Ho. Qed.

Lemma moves_bind {E A B} P Q (m : M Z E A) (f : A -> M Z E B) :
  moves P m -> (forall a, P a -> moves Q (f a)) -> moves Q (m ≫= f).
Proof.
  intros Hm Hf o Ho. specialize (Hm o Ho). unfold mbind, M_bind.
  destruct (m o) as [[a|e| |] o']; try done. destruct Hm as [Ho' Ha].
  specialize (Hf a Ha o' ltac:(lia)). destruct (f a o') as [[]]; try done. intuition lia.
Qed.

Lemma eats_bind {E A B} data P Q (m : M Z E A) (f : A -> M Z E B) :
  eats data P m -> (forall a, P a -> moves Q (f a)) -> eats data Q (m ≫= f).
Proof.
  intros Hm Hf o Ho. specialize (Hm o Ho). unfold mbind, M_bind.
  destruct (m o) as [[a|e| |] o']; try done. destruct Hm as (Ho' & Hd & Ha).
  specialize (Hf a Ha o' ltac:(lia)). destruct (f a o') as [[]]; try done. intuition lia.
Qed.

Lemma moves_if {E A} P (b : bool) (m1 m2 : M Z E A) :
  moves P m1 -> moves P m2 -> moves P (if b then m1 else m2).
Proof. by destruct b. Qed.

Lemma moves_map_err {E F A} P (e : F) (m : M Z E A) : moves P m -> moves P (map_err e m).
Proof. intros H o Ho. specialize (H o Ho). unfold map_err. by destruct (m o) as [[]]. Qed.

Lemma eats_map_err {E F A} data P (e : F) (m : M Z E A) : eats data P m -> eats data P (map_err e m).
Proof. intros H o Ho. specialize (H o Ho). unfold map_err. by destruct (m o) as [[]]. Qed.

(** What one more byte adds to a decoded number. *)
Lemma lor_group r b s : 0 <= r -> 0 <= Z.lor r (wrap 64 (Z.shiftl (Z.land b 127) s)).
Proof. intros. apply Z.lor_nonneg. split; [done|]. apply wrap_fits. lia. Qed.

Lemma uleb_loop_eats data fuel result shift :
  (0 < fuel)%nat -> 64 <= shift + 7 * Z.of_nat fuel -> 0 <= result ->
  eats data (Z.le 0) (read_leb128_loop fuel data result shift).
Proof.
  revert result shift. induction fuel as [|fuel IH]; intros result shift Hf Hs Hr o Ho; [lia|].
  cbn [read_leb128_loop]. unfold mbind, M_bind, mret, M_ret, get, put, lift, throw.
  destruct (Z.leb_spec (zlen data) o); [done|].
  destruct (index_cases (E:=unit) data o) as [(b & -> & Hb)| ->]; [|done].
  pose proof (lor_group result b shift Hr) as Hr'.
  destruct (Z.land b 128 =? 0); [lia|]. destruct (Z.leb_spec 64 (shift + 7)); [done|].
  specialize (IH _ (shift + 7) ltac:(lia) ltac:(lia) Hr' (o + 1) ltac:(lia)).
  destruct (read_leb128_loop _ _ _ _ _) as [[]]; try done. intuition lia.
Qed.

Lemma sleb_loop_eats data fuel result shift :
  (0 < fuel)%nat -> 64 <= shift + 7 * (Z.of_nat fuel - 1) ->
  eats data any (read_leb128_signed_loop fuel data result shift).
Proof.
  revert result shift. induction fuel as [|fuel IH]; intros result shift Hf Hs o Ho; [lia|].
  cbn [read_leb128_signed_loop]. unfold mbind, M_bind, mret, M_ret, get, put, lift, throw.
  destruct (Z.leb_spec (zlen data) o); [done|].
  destruct (index_cases (E:=unit) data o) as [(b & -> & Hb)| ->]; [|done].
  destruct (Z.leb_spec 64 shift); [done|]. cbv zeta.
  destruct (Z.land b 128 =? 0); [split_and!; [lia|lia|done]|].
  set (r := Z.lor _ _). specialize (IH r (shift + 7) ltac:(lia) ltac:(lia) (o + 1) ltac:(lia)).
  destruct (read_leb128_signed_loop _ _ _ _ _) as [[]]; try done. intuition lia.
Qed.

Lemma leb_eats data msg : eats data (Z.le 0) (leb data msg).
Proof. apply eats_map_err, uleb_loop_eats; lia. Qed.

Lemma leb_moves data msg : moves (Z.le 0) (leb data msg).
Proof. eapply eats_moves, leb_eats. Qed.

Lemma this_byte_moves data : moves any (this_byte data).
Proof.
  intros o Ho. unfold this_byte, mbind, M_bind, get, lift.
  by destruct (index_cases (E:=string) data o) as [(b & -> & Hb)| ->].
Qed.

Lemma advance_moves : moves any advance.
Proof. intros o Ho. cbn. split; [lia|done]. Qed.

Lemma next_byte_eats data : eats data any (next_byte data).
Proof.
  intros o Ho. unfold next_byte, this_byte, advance, modify, mbind, M_bind, mret, M_ret, get, lift.
  destruct (index_cases (E:=string) data o) as [(b & -> & Hb)| ->]; [|done].
  split_and!; [lia|lia|done].
Qed.

Lemma next_byte_moves data : moves any (next_byte data).
Proof. eapply eats_moves, next_byte_eats. Qed.

Lemma skip_moves n : 0 <= n -> moves any (skip n).
Proof.
  intros Hn o Ho. unfold skip, uadd, mbind, M_bind, get, put, lift.
  destruct (o + n <? 2 ^ 64); [|done]. split; [lia|done].
Qed.

Lemma take_bytes_moves data n : 0 <= n -> moves any (take_bytes data n).
Proof.
  intros Hn o Ho. unfold take_bytes, uadd, slice, mbind, M_bind, mret, M_ret, get, put, lift.
  destruct (o + n <? 2 ^ 64); [|done]. case_decide; [|done]. split; [lia|done].
Qed.

Create HintDb wasm_moves discriminated.
#[local] Hint Constants Opaque : wasm_moves.
#[local] Hint Resolve moves_ret moves_throw leb_moves next_byte_moves this_byte_moves advance_moves skip_moves take_bytes_moves : wasm_moves.

(** Split a reader into its steps. *)
Ltac moving := repeat
  lazymatch goal with
  | |- moves _ (_ ≫= _) => eapply moves_bind; [by eauto with wasm_moves|intros ? ?]
  | |- moves _ (if _ then _ else _) => apply moves_if
  | |- moves _ _ => by auto with wasm_moves
  end.

Lemma sleb_moves data (msg : string) : moves any (map_err msg (read_leb128_signed data)).
Proof. eapply eats_moves, eats_map_err, sleb_loop_eats; lia. Qed.
#[local] Hint Resolve sleb_moves : wasm_moves.

Lemma take_name_moves data n msg : 0 <= n -> moves any (take_name data n msg).
Proof. intros. unfold take_name. moving. Qed.
#[local] Hint Resolve take_name_moves : wasm_moves.

Lemma collect_moves {A} data fuel n (item : M Z string A) P o :
  eats data P item -> 0 <= o -> (0 < fuel)%nat -> zlen data - o < Z.of_nat fuel ->
  match collect fuel n item o with (Ok _, o') => o <= o' | (Fault, _) => False | _ => True end.
Proof.
  intros Hitem. revert n o. induction fuel as [|fuel IH]; intros n o Ho Hp Hf; [lia|].
  cbn [collect]. destruct (n <=? 0); [cbn; lia|].
  unfold mbind, M_bind. specialize (Hitem o Ho).
  destruct (item o) as [[a|e| |] o']; try done. destruct Hitem as (Ho' & Hd & _).
  specialize (IH (n - 1) o' ltac:(lia) ltac:(lia) ltac:(lia)).
  destruct (collect _ _ _ _) as [[]]; try done. cbn. lia.
Qed.

Lemma times_moves {A} data n (item : M Z string A) P :
  eats data P item -> moves any (times data n item).
Proof.
  intros H o Ho. pose proof (collect_moves data (S (length data)) n item P o H Ho) as Hc.
  unfold times. unfold zlen in Hc. specialize (Hc ltac:(lia) ltac:(lia)).
  destruct (collect _ _ _ _) as [[]]; done.
Qed.
#[local] Hint Resolve times_moves : wasm_moves.

Lemma type_item_eats data : eats data any (type_item data).
Proof.
  intros o Ho. unfold type_item. unfold mbind at 1, M_bind at 1, get.
  destruct (Z.leb_spec (zlen data) o) as [|Hd]; [done|].
  unfold mbind at 1, M_bind at 1. change (this_byte data o) with (index (E:=string) data o, o).
  destruct (index_cases (E:=string) data o) as [(b & -> & _)| ->]; [|done].
  destruct (b =? 96); [|done]. cbn [negb]. unfold mbind at 1, M_bind at 1, advance, modify.
  match goal with |- match ?m (o + 1) with _ => _ end => assert (moves any m) as Hm by moving end.
  specialize (Hm (o + 1) ltac:(lia)). case_match. case_match; try done. intuition lia.
Qed.

Ltac eating := (eapply eats_bind; [apply leb_eats || apply next_byte_eats|intros ? ?]); moving.

Lemma import_item_eats data : eats data any (import_item data).
Proof. unfold import_item. eating. Qed.

Lemma memory_item_eats data : eats data any (memory_item data).
Proof.
  unfold memory_item. eating. apply (moves_bind any); [|by moving].
  apply moves_if; [eapply moves_any, leb_moves|apply moves_ret].
Qed.

Lemma export_item_eats data : eats data any (export_item data).
Proof. unfold export_item. eating. Qed.

Lemma local_item_eats data : eats data any (local_item data).
Proof. unfold local_item. eating. Qed.

Lemma data_item_eats data : eats data any (data_item data).
Proof. unfold data_item. eating. Qed.

Lemma code_item_eats data : eats data any (code_item data).
Proof.
  unfold code_item. eapply eats_bind; [apply leb_eats|]. intros size Hsize o Ho.
  unfold mbind at 1, M_bind at 1, get at 1. unfold mbind at 1, M_bind at 1, lift at 1, uadd.
  destruct (o + size <? 2 ^ 64); [|done].
  pose proof (leb_moves data "Failed to read locals count" o Ho) as Hl.
  unfold mbind at 1, M_bind at 1. destruct (leb _ _ _) as [[n| | |] o1]; try done.
  pose proof (times_moves data n _ _ (local_item_eats data) o1 ltac:(lia)) as Ht.
  unfold mbind at 1, M_bind at 1. destruct (times _ _ _ _) as [[ds| | |] o2]; try done.
  unfold mbind, M_bind, get, lift, put, mret, M_ret, slice. case_decide; [|done]. split; [lia|done].
Qed.

Lemma section_body_moves data id a : moves any (section_body data id a).
Proof.
  unfold section_body. moving; eapply moves_bind;
    eauto using times_moves, type_item_eats, import_item_eats, leb_eats, memory_item_eats,
      export_item_eats, code_item_eats, data_item_eats, moves_ret.
Qed.

Lemma section_eats data a : eats data any (section data a).
Proof.
  intros o Ho. unfold section. pose proof (next_byte_eats data o Ho) as Hb.
  unfold mbind at 1, M_bind at 1. destruct (next_byte data o) as [[id| | |] o1]; try done.
  pose proof (leb_moves data "Failed to read section length" o1 ltac:(lia)) as Hl.
  unfold mbind at 1, M_bind at 1. destruct (leb _ _ _) as [[n| | |] o2]; try done.
  unfold mbind at 1, M_bind at 1, get at 1. unfold mbind at 1, M_bind at 1, lift at 1, uadd.
  destruct (o2 + n <? 2 ^ 64); [|done]. destruct (zlen data <? o2 + n); [done|].
  pose proof (section_body_moves data id a o2 ltac:(lia)) as Hs.
  unfold mbind at 1, M_bind at 1. destruct (section_body _ _ _ _) as [[a'| | |] o3]; try done.
  unfold mbind, M_bind, put, mret, M_ret. split_and!; [lia|lia|done].
Qed.

Lemma sections_total data fuel a o :
  0 <= o -> zlen data - o <= Z.of_nat fuel -> fst (sections data fuel a o) <> Fault.
Proof.
  revert a o. induction fuel as [|fuel IH]; intros a o Ho Hf; cbn [sections];
    unfold mbind at 1, M_bind at 1, get; destruct (Z.leb_spec (zlen data) o); try done; [lia|].
  pose proof (section_eats data a o Ho) as Hs. unfold mbind, M_bind.
  destruct (section data a o) as [[a'| | |] o']; try done. apply IH; lia.
Qed.

Lemma copy_segments_total segs mem : copy_segments segs mem <> Fault.
Proof.
  revert mem. induction segs as [|[off seg] segs IH]; intros mem; cbn [copy_segments]; [done|].
  unfold uadd, splice, mbind, res_bind. destruct (off + zlen seg <? 2 ^ 64); [|done].
  destruct (zlen mem <? off + zlen seg); [done|]. case_decide; [apply IH|done].
Qed.

(** Every byte string is parsed to an instance, an error or a panic: no
    loop of the parser runs for longer than the length of its input. *)
Theorem parse_wasm_total data : parse_wasm data <> Fault.
Proof.
  unfold parse_wasm. repeat (case_match; [done|]).
  pose proof (sections_total data (length data) new_acc 8 ltac:(lia) ltac:(unfold zlen; lia)) as Ht.
  destruct (sections _ _ _ _) as [[a| | |] o]; try done. cbn.
  unfold instantiate. case_match; [done|]. case_match; [done|].
  unfold mbind, res_bind. pose proof (copy_segments_total (data_segments a) (zeros (memory_size_pages a * 64 * 1024))).
  by destruct (copy_segments _ _).
Qed.

(** ** The encoders of the WebAssembly specification *)

Fixpoint uleb_n (n : nat) (v : Z) : list Z :=
  match n with
  | O => []
  | S n => if v <? 128 then [v] else (v mod 128 + 128) :: uleb_n n (v / 128)
  end.
Definition uleb (v : Z) : list Z := uleb_n 10 v.

Fixpoint sleb_n (n : nat) (v : Z) : list Z :=
  match n with
  | O => []
  | S n => if (-64 <=? v) && (v <? 64) then [v mod 128] else (v mod 128 + 128) :: sleb_n n (v / 128)
  end.
Definition sleb (v : Z) : list Z := sleb_n 10 v.

(** [reads m bs a]: wherever the bytes [bs] stand in the data, [m] reads
    exactly them and returns [a]. *)
Definition reads {E A} (m : list Z -> M Z E A) (bs : list Z) (a : A) : Prop :=
  forall pre post, zlen (pre ++ bs ++ post) < 2 ^ 64 ->
  m (pre ++ bs ++ post) (zlen pre) = (Ok a, zlen pre + zlen bs).

(** There is a byte at the end of what was read so far. *)
Lemma more_data {A} (pre : list A) x post : (zlen (pre ++ x :: post) <=? zlen pre) = false.
Proof.
  apply Z.leb_gt. rewrite zlen_app, zlen_cons. pose proof (zlen_nonneg post). lia.
Qed.

Lemma lor_add r b s : 0 <= s -> 0 <= r < 2 ^ s -> Z.lor r (b * 2 ^ s) = r + b * 2 ^ s.
Proof.
  intros Hs Hr. assert (Z.land r (b * 2 ^ s) = 0) as H.
  { apply Z.bits_inj'. intros i Hi. rewrite Z.land_spec, Z.bits_0.
    rewrite <-Z.shiftl_mul_pow2, Z.shiftl_spec by lia.
    destruct (decide (i < s)) as [Hlt|Hge].
    - rewrite (Z.testbit_neg_r b) by lia. apply andb_false_r.
    - by rewrite (testbit_above s r) by (unfold fits; lia). }
  by rewrite Z.add_nocarry_lxor, Z.lxor_lor.
Qed.

Lemma group_of b : 0 <= b < 128 ->
  Z.land b 127 = b /\ Z.land b 128 = 0 /\ Z.land (b + 128) 127 = b /\ Z.land (b + 128) 128 = 128.
Proof.
  intros Hb.
  assert (Z.land b 127 = b) as H1.
  { change 127 with (Z.ones 7). rewrite Z.land_ones by lia. by apply Z.mod_small. }
  assert (Z.land b 128 = 0) as H2.
  { apply Z.bits_inj'. intros i Hi. rewrite Z.land_spec, Z.bits_0. change 128 with (2 ^ 7).
    rewrite Z.pow2_bits_eqb by lia. destruct (Z.eqb_spec 7 i) as [<-|]; [|apply andb_false_r].
    rewrite (testbit_above 7 b); [done| |lia]. unfold fits. lia. }
  assert (b + 128 = Z.lor b 128) as ->.
  { rewrite <-(Z.mul_1_l 128) at 1 2. change 128 with (2 ^ 7). rewrite lor_add; lia. }
  rewrite !Z.land_lor_distr_l, H1, H2. split_and!; [done|done| |done].
  change (Z.land 128 127) with 0. apply Z.lor_0_r.
Qed.

(** The value of a group at its place. *)
Lemma group_at r b s :
  0 <= s -> 0 <= r < 2 ^ s -> 0 <= b -> b * 2 ^ s < 2 ^ 64 ->
  Z.lor r (wrap 64 (Z.shiftl b s)) = r + b * 2 ^ s.
Proof.
  intros Hs Hr Hb Hf. rewrite Z.shiftl_mul_pow2 by lia.
  rewrite wrap_small by (unfold fits; nia). by apply lor_add.
Qed.

Lemma uleb_loop_reads n fuel r s v :
  (n <= fuel)%nat -> 0 <= s < 64 -> 64 <= s + 7 * Z.of_nat n -> 0 <= r < 2 ^ s ->
  0 <= v -> v * 2 ^ s < 2 ^ 64 ->
  reads (fun d => read_leb128_loop fuel d r s) (uleb_n n v) (r + v * 2 ^ s).
Proof.
  revert fuel r s v. induction n as [|n IH]; intros fuel r s v Hn Hs Hns Hr Hv Hf; [lia|].
  destruct fuel as [|fuel]; [lia|]. intros pre post. cbn [uleb_n].
  assert (128 <= v -> s + 7 < 64) as Hmore.
  { intros Hge. assert (2 ^ 7 * 2 ^ s < 2 ^ 64) as H by nia. rewrite <-Z.pow_add_r in H by lia.
    apply Z.pow_lt_mono_r_iff in H; lia. }
  destruct (Z.ltb_spec v 128) as [Hlt|Hge]; intros Hlen.
  - destruct (group_of v ltac:(lia)) as (H1 & H2 & _). cbn [read_leb128_loop app].
    unfold mbind, M_bind, mret, M_ret, get, put, lift, throw.
    rewrite more_data, index_here, H1, H2, group_at by lia. done.
  - pose proof (Z.mod_pos_bound v 128 ltac:(lia)) as Hm.
    destruct (group_of (v mod 128) Hm) as (_ & _ & H1 & H2). cbn [read_leb128_loop app].
    unfold mbind, M_bind, mret, M_ret, get, put, lift, throw.
    rewrite more_data, index_here, H1, H2. cbn [Z.eqb].
    specialize (Hmore Hge). destruct (Z.leb_spec 64 (s + 7)); [lia|].
    assert (v = 128 * (v / 128) + v mod 128) as Hdm by (apply Z.div_mod; lia).
    assert (2 ^ (s + 7) = 2 ^ s * 128) as Hp by (rewrite Z.pow_add_r by lia; done).
    rewrite group_at by nia.
    specialize (IH fuel (r + v mod 128 * 2 ^ s) (s + 7) (v / 128) ltac:(lia) ltac:(lia) ltac:(lia)).
    specialize (IH ltac:(nia) ltac:(nia) ltac:(nia) (pre ++ [v mod 128 + 128]) post).
    rewrite <-app_assoc, zlen_snoc in IH. cbn [app] in *. rewrite IH by done.
    rewrite zlen_cons. f_equal; [f_equal; nia|lia].
Qed.

Lemma uleb_reads v : fits 64 v -> reads read_leb128 (uleb v) v.
Proof.
  intros [H0 H1]. unfold read_leb128, uleb.
  replace v with (0 + v * 2 ^ 0) at 2 by lia. apply uleb_loop_reads; lia.
Qed.

(** A signed word is determined by its residue. *)
Lemma sint_unique w u z : - 2 ^ (w - 1) <= z < 2 ^ (w - 1) -> 1 <= w -> (exists q, u = z + q * 2 ^ w) -> sint w u = z.
Proof.
  intros Hz Hw [q ->]. unfold sint, wrap. rewrite Z.mod_add by (apply Z.pow_nonzero; lia).
  assert (2 ^ w = 2 * 2 ^ (w - 1)) as Hp by (rewrite <-Z.pow_succ_r by lia; f_equal; lia).
  destruct (decide (0 <= z)).
  - rewrite Z.mod_small by lia. destruct (Z.ltb_spec z (2 ^ (w - 1))); lia.
  - rewrite <-(Z.mod_add z 1) by lia. rewrite Z.mod_small by lia.
    destruct (Z.ltb_spec (z + 1 * 2 ^ w) (2 ^ (w - 1))); lia.
Qed.

Lemma group_40 b : 0 <= b < 128 -> Z.land b 64 = if b <? 64 then 0 else 64.
Proof.
  intros Hb. change 64 with (2 ^ 6) at 1. apply Z.bits_inj'. intros i Hi.
  rewrite Z.land_spec, Z.pow2_bits_eqb by lia. destruct (Z.eqb_spec 6 i) as [<-|Hne].
  - rewrite andb_true_r. destruct (Z.ltb_spec b 64).
    + rewrite (testbit_above 6), Z.bits_0; [done|unfold fits; lia|lia].
    + replace b with (b - 64 + 1 * 2 ^ 6) by lia. rewrite Z.testbit_true by lia.
      rewrite Z.div_add by lia. rewrite Z.div_small by lia. done.
  - rewrite andb_false_r. case_match; [by rewrite Z.bits_0|].
    change 64 with (2 ^ 6). rewrite Z.pow2_bits_eqb by lia. by destruct (Z.eqb_spec 6 i).
Qed.

(** The last group of a negative number is extended with ones. *)
Lemma sleb_last r v s k :
  s = 7 * k -> 0 <= k <= 9 -> 0 <= r < 2 ^ s -> - 2 ^ (63 - s) <= v < 2 ^ (63 - s) -> -64 <= v < 64 ->
  let result := Z.lor r (wrap 64 (Z.shiftl (v mod 128) s)) in
  sint 64 (if (s + 7 <? 64) && negb (Z.land (v mod 128) 0x40 =? 0)
           then Z.lor result (wrap 64 (Z.shiftl (-1) (s + 7))) else result)
  = r + v * 2 ^ s.
Proof.
  intros Hs Hk Hr Hv Hsmall. cbv zeta.
  assert (2 ^ s * 2 ^ (63 - s) = 2 ^ 63) as Hp by (rewrite <-Z.pow_add_r by lia; f_equal; lia).
  assert (- 2 ^ 63 <= r + v * 2 ^ s < 2 ^ 63) as Hin by nia.
  apply sint_unique; [done|lia|]. destruct (decide (0 <= v)) as [Hpos|Hneg].
  - rewrite (Z.mod_small v), group_40 by lia.
    destruct (Z.ltb_spec v 64); [|lia]. cbn [Z.eqb negb]. rewrite andb_false_r, group_at by nia.
    exists 0. lia.
  - replace (v mod 128) with (v + 128) by (rewrite <-(Z.mod_add v 1) by lia; rewrite Z.mod_small; lia).
    rewrite group_40 by lia. destruct (Z.ltb_spec (v + 128) 64); [lia|]. cbn [Z.eqb negb].
    rewrite andb_true_r. destruct (Z.ltb_spec (s + 7) 64).
    + assert (2 ^ (s + 7) = 2 ^ s * 128) as Hp7 by (rewrite Z.pow_add_r by lia; done).
      assert (2 ^ (s + 7) <= 2 ^ 63) by (apply Z.pow_le_mono_r; lia).
      assert (2 ^ (64 - (s + 7)) * 2 ^ (s + 7) = 2 ^ 64) as H64 by (rewrite <-Z.pow_add_r by lia; f_equal; lia).
      assert ((v + 128) * 2 ^ s <= 127 * 2 ^ s) by (apply Z.mul_le_mono_nonneg_r; lia).
      assert (64 * 2 ^ s <= (v + 128) * 2 ^ s) by (apply Z.mul_le_mono_nonneg_r; lia).
      rewrite (group_at r) by lia.
      replace (wrap 64 (Z.shiftl (-1) (s + 7))) with ((2 ^ (64 - (s + 7)) - 1) * 2 ^ (s + 7)).
      * rewrite lor_add by lia. exists 1. lia.
      * rewrite Z.shiftl_mul_pow2 by lia. unfold wrap. rewrite <-(Z.mod_add _ 1) by lia.
        rewrite Z.mod_small; nia.
    + assert (s = 63) as -> by lia. change (63 - 63) with 0 in Hv. assert (v = -1) as -> by lia.
      change (wrap 64 _) with (1 * 2 ^ 63). rewrite lor_add by lia. exists 1. lia.
Qed.

Lemma sleb_loop_reads n fuel r s k v :
  (n <= fuel)%nat -> s = 7 * k -> 0 <= k <= 9 -> 64 <= s + 7 * Z.of_nat n -> 0 <= r < 2 ^ s ->
  - 2 ^ (63 - s) <= v < 2 ^ (63 - s) ->
  reads (fun d => read_leb128_signed_loop fuel d r s) (sleb_n n v) (r + v * 2 ^ s).
Proof.
  revert fuel r s k v. induction n as [|n IH]; intros fuel r s k v Hn Hs Hk Hns Hr Hv; [lia|].
  destruct fuel as [|fuel]; [lia|]. intros pre post. cbn [sleb_n].
  pose proof (Z.mod_pos_bound v 128 ltac:(lia)) as Hm.
  destruct (group_of (v mod 128) Hm) as (H1 & H2 & H3 & H4).
  destruct ((-64 <=? v) && (v <? 64)) eqn:Hsmall; intros Hlen.
  - cbn [read_leb128_signed_loop app].
    unfold mbind, M_bind, mret, M_ret, get, put, lift, throw.
    rewrite more_data, index_here, H2. destruct (Z.leb_spec 64 s); [lia|]. cbn [Z.eqb].
    rewrite H1. apply andb_true_iff in Hsmall as [?%Z.leb_le ?%Z.ltb_lt].
    rewrite (sleb_last r v s k) by lia. done.
  - assert (k <= 8) as Hk'.
    { destruct (decide (k = 9)) as [->|]; [|lia]. rewrite Hs in Hv. change (63 - 7 * 9) with 0 in Hv.
      apply andb_false_iff in Hsmall as [?%Z.leb_gt|?%Z.ltb_ge]; lia. }
    cbn [read_leb128_signed_loop app].
    unfold mbind, M_bind, mret, M_ret, get, put, lift, throw.
    rewrite more_data, index_here, H4. destruct (Z.leb_spec 64 s); [lia|]. cbn [Z.eqb].
    assert (v = 128 * (v / 128) + v mod 128) as Hdm by (apply Z.div_mod; lia).
    assert (2 ^ (s + 7) = 2 ^ s * 128) as Hp by (rewrite Z.pow_add_r by lia; done).
    assert (2 ^ (63 - s) = 2 ^ (63 - (s + 7)) * 128) as Hq.
    { change 128 with (2 ^ 7). rewrite <-Z.pow_add_r by lia. f_equal. lia. }
    assert (128 * 2 ^ s <= 2 ^ 63) as Hbig.
    { change 128 with (2 ^ 7). rewrite <-Z.pow_add_r by lia. apply Z.pow_le_mono_r; lia. }
    rewrite H3, group_at by nia.
    specialize (IH fuel (r + v mod 128 * 2 ^ s) (s + 7) (k + 1) (v / 128) ltac:(lia) ltac:(lia)).
    specialize (IH ltac:(lia) ltac:(lia) ltac:(nia) ltac:(nia) (pre ++ [v mod 128 + 128]) post).
    rewrite <-app_assoc, zlen_snoc in IH. cbn [app] in *. rewrite IH by done.
    rewrite zlen_cons. f_equal; [f_equal; nia|lia].
Qed.

Lemma sleb_reads v : - 2 ^ 63 <= v < 2 ^ 63 -> reads read_leb128_signed (sleb v) v.
Proof.
  intros Hv. unfold read_leb128_signed, sleb.
  replace v with (0 + v * 2 ^ 0) at 2 by lia. apply (sleb_loop_reads _ _ _ _ 0); lia.
Qed.

(** ** Modules as lists of sections *)

Inductive import :=
| ImportFunc (module name : list Z) (type_idx : Z)
| ImportMemory (module name : list Z) (min : Z)
| ImportGlobal (module name : list Z) (val_type mut : Z).

(** A section; [SOther] is any section the reader skips (custom, table,
    global, element). *)
Inductive sec :=
| STypes (l : list (list Z * list Z))
| SImports (l : list import)
| SFuncs (l : list Z)
| SMemory (min : Z) (max : option Z)
| SExports (l : list (list Z * Z * Z))
| SStart (idx : Z)
| SCode (l : list (list WasmLocalDecl * list Z))
| SData (l : list (Z * list Z))
| SOther (id : Z) (body : list Z).

Definition vec {A} (enc : A -> list Z) (l : list A) : list Z := uleb (zlen l) ++ concat (enc <$> l).
Definition counted (bs : list Z) : list Z := uleb (zlen bs) ++ bs.

Definition type_bytes (t : list Z * list Z) : list Z :=
  0x60 :: counted (fst t) ++ counted (snd t).
Definition import_bytes (i : import) : list Z :=
  match i with
  | ImportFunc m n t => counted m ++ counted n ++ 0 :: uleb t
  | ImportMemory m n min => counted m ++ counted n ++ [2; 0] ++ uleb min
  | ImportGlobal m n t mut => counted m ++ counted n ++ [3; t; mut]
  end.
Definition memory_bytes (min : Z) (max : option Z) : list Z :=
  match max with None => 0 :: uleb min | Some x => 1 :: uleb min ++ uleb x end.
Definition export_bytes (e : list Z * Z * Z) : list Z :=
  counted (fst (fst e)) ++ snd (fst e) :: uleb (snd e).
Definition local_bytes (d : WasmLocalDecl) : list Z := uleb (count d) ++ [val_type d].
Definition body_bytes (b : list WasmLocalDecl * list Z) : list Z :=
  counted (vec local_bytes (fst b) ++ snd b).
Definition segment_bytes (s : Z * list Z) : list Z :=
  uleb 0 ++ 0x41 :: sleb (fst s) ++ 0x0B :: counted (snd s).

Definition sec_id (s : sec) : Z :=
  match s with
  | STypes _ => 1 | SImports _ => 2 | SFuncs _ => 3 | SMemory _ _ => 5 | SExports _ => 7
  | SStart _ => 8 | SCode _ => 10 | SData _ => 11 | SOther id _ => id
  end.

Definition sec_content (s : sec) : list Z :=
  match s with
  | STypes l => vec type_bytes l
  | SImports l => vec import_bytes l
  | SFuncs l => vec uleb l
  | SMemory min max => vec (fun m => memory_bytes (fst m) (snd m)) [(min, max)]
  | SExports l => vec export_bytes l
  | SStart i => uleb i
  | SCode l => vec body_bytes l
  | SData l => vec segment_bytes l
  | SOther _ bs => bs
  end.

Definition sec_bytes (s : sec) : list Z := sec_id s :: counted (sec_content s).

Definition module_bytes (secs : list sec) : list Z :=
  [0x00; 0x61; 0x73; 0x6d; 1; 0; 0; 0] ++ concat (sec_bytes <$> secs).

(** Numbers are in range and names are text. *)
Definition name_ok (bs : list Z) : Prop := fits 64 (zlen bs) /\ Path.utf8_valid bs = true.

Definition import_ok (i : import) : Prop :=
  match i with
  | ImportFunc m n t => name_ok m /\ name_ok n /\ fits 64 t
  | ImportMemory m n min => name_ok m /\ name_ok n /\ fits 64 min
  | ImportGlobal m n _ _ => name_ok m /\ name_ok n
  end.

Definition local_ok (d : WasmLocalDecl) : Prop := fits 32 (count d).

Definition sec_ok (s : sec) : Prop :=
  fits 64 (zlen (sec_content s)) /\
  match s with
  | STypes l => fits 64 (zlen l) /\ Forall (fun t => fits 64 (zlen (fst t)) /\ fits 64 (zlen (snd t))) l
  | SImports l => fits 64 (zlen l) /\ Forall import_ok l
  | SFuncs l => fits 64 (zlen l) /\ Forall (fits 64) l
  | SMemory min max => fits 64 min /\ from_option (fits 64) True max
  | SExports l => fits 64 (zlen l) /\ Forall (fun e => name_ok (fst (fst e)) /\ fits 64 (snd e)) l
  | SStart i => fits 64 i
  | SCode l => fits 64 (zlen l) /\
      Forall (fun b => fits 64 (zlen (vec local_bytes (fst b) ++ snd b)) /\
                       fits 64 (zlen (fst b)) /\ Forall local_ok (fst b)) l
  | SData l => fits 64 (zlen l) /\
      Forall (fun s => 0 <= fst s < 2 ^ 31 /\ fits 64 (zlen (snd s))) l
  | SOther id _ => id ∉ [1; 2; 3; 5; 7; 8; 10; 11]
  end.

(** What a module declares. *)
Definition types_of (secs : list sec) : list (Z * Z) :=
  secs ≫= fun s => match s with STypes l => (fun t => (zlen (fst t), zlen (snd t))) <$> l | _ => [] end.
Definition imports_of (secs : list sec) : list WasmFunction :=
  secs ≫= fun s => match s with
    | SImports l => l ≫= fun i => match i with ImportFunc m n t => [Imported m n t] | _ => [] end
    | _ => [] end.
Definition funcs_of (secs : list sec) : list Z :=
  secs ≫= fun s => match s with SFuncs l => l | _ => [] end.
Definition bodies_of (secs : list sec) : list (list WasmLocalDecl * list Z) :=
  secs ≫= fun s => match s with SCode l => l | _ => [] end.
Definition segments_of (secs : list sec) : list (Z * list Z) :=
  secs ≫= fun s => match s with SData l => l | _ => [] end.
Definition memories_of (secs : list sec) : list Z :=
  secs ≫= fun s => match s with
    | SImports l => l ≫= fun i => match i with ImportMemory _ _ min => [min] | _ => [] end
    | SMemory min _ => [min]
    | _ => [] end.
Definition is_start (e : list Z * Z * Z) : bool :=
  (snd (fst e) =? 0) && (bool_decide (fst (fst e) = Path.bytes_of "_start") || bool_decide (fst (fst e) = Path.bytes_of "main")).
Definition starts_of (secs : list sec) : list Z :=
  secs ≫= fun s => match s with
    | SExports l => l ≫= fun e => if is_start e then [snd e] else []
    | SStart i => [i]
    | _ => [] end.

Definition pages_of (secs : list sec) : Z := default 0 (last (memories_of secs)).

Definition module_instance (secs : list sec) : WasmInstance :=
  mkInstance
    (foldl (fun m s => upd (fst s) (snd s) m) (zeros (pages_of secs * 64 * 1024)) (segments_of secs))
    (imports_of secs ++ zip_with (fun t b => Internal t (fst b) (snd b)) (funcs_of secs) (bodies_of secs))
    (types_of secs) (last (starts_of secs)).

(** ** Reading what was encoded *)

Lemma reads_bind {E A B} (m : list Z -> M Z E A) (f : A -> list Z -> M Z E B) bs1 bs2 a b :
  reads m bs1 a -> reads (f a) bs2 b -> reads (fun d => x ← m d; f x d) (bs1 ++ bs2) b.
Proof.
  intros H1 H2 pre post Hlen. unfold mbind, M_bind.
  rewrite <-app_assoc in *. rewrite H1 by done.
  specialize (H2 (pre ++ bs1) post). rewrite <-app_assoc, !zlen_app in *.
  rewrite H2 by lia. f_equal. lia.
Qed.

Lemma reads_ret {E A} (a : A) : reads (E:=E) (fun _ => mret a) [] a.
Proof. intros pre post _. unfold mret, M_ret. f_equal. unfold zlen. simpl. lia. Qed.

Lemma reads_nil {E A} (m : list Z -> M Z E A) bs a : reads m (bs ++ []) a -> reads m bs a.
Proof. by rewrite app_nil_r. Qed.

Lemma reads_last {E A B} (m : list Z -> M Z E A) (g : A -> B) bs a :
  reads m bs a -> reads (fun d => x ← m d; mret (g x)) bs (g a).
Proof.
  intros H. apply reads_nil. eapply (reads_bind m (fun x _ => mret (g x))); [done|].
  apply reads_ret.
Qed.

Lemma leb_reads msg v : fits 64 v -> reads (fun d => leb d msg) (uleb v) v.
Proof. intros Hv pre post Hlen. unfold leb, map_err. by rewrite uleb_reads. Qed.

Lemma next_byte_reads b : reads next_byte [b] b.
Proof.
  intros pre post _. unfold next_byte, this_byte, advance, modify, mbind, M_bind, get, lift.
  cbn [app]. by rewrite index_here.
Qed.

Lemma take_bytes_reads bs : reads (fun d => take_bytes d (zlen bs)) bs bs.
Proof.
  intros pre post Hlen. unfold take_bytes, uadd, slice, mbind, M_bind, get, put, lift.
  rewrite !zlen_app in *. pose proof (zlen_nonneg pre). pose proof (zlen_nonneg bs).
  pose proof (zlen_nonneg post).
  destruct (Z.ltb_spec (zlen pre + zlen bs) (2 ^ 64)); [|lia].
  rewrite decide_True by lia. by rewrite sub_mid.
Qed.

Lemma skip_reads bs : reads (fun _ => skip (zlen bs)) bs tt.
Proof.
  intros pre post Hlen. unfold skip, uadd, mbind, M_bind, get, put, lift.
  rewrite !zlen_app in *. pose proof (zlen_nonneg post).
  by destruct (Z.ltb_spec (zlen pre + zlen bs) (2 ^ 64)); [|lia].
Qed.

Lemma take_name_reads bs msg : name_ok bs -> reads (fun d => take_name d (zlen bs) msg) bs bs.
Proof.
  intros [_ H]. apply reads_nil. unfold take_name.
  eapply (reads_bind (fun d => take_bytes d _) (fun b _ => if Path.utf8_valid b then mret b else throw msg));
    [apply take_bytes_reads|]. rewrite H. apply reads_ret.
Qed.

(** A loop over the encodings of a list. *)
Lemma collect_reads {A B} (item : list Z -> M Z string B) (enc : A -> list Z) (val : A -> B) (P : A -> Prop) l fuel :
  (forall a, P a -> reads item (enc a) (val a)) -> Forall P l -> (length l < fuel)%nat ->
  reads (fun d => collect fuel (zlen l) (item d)) (concat (enc <$> l)) (val <$> l).
Proof.
  intros Hitem HP. revert fuel. induction HP as [|a l Ha _ IH]; intros fuel Hf.
  - destruct fuel; apply reads_ret.
  - destruct fuel as [|fuel]; [simpl in Hf; lia|]. cbn [collect fmap list_fmap concat].
    destruct (Z.leb_spec (zlen (a :: l)) 0) as [H|_]; [rewrite zlen_cons in H; unfold zlen in H; lia|].
    eapply (reads_bind item (fun x d => r ← collect fuel (zlen (a :: l) - 1) (item d); mret (x :: r)));
      [by apply Hitem|].
    apply (reads_last _ (cons (val a))). rewrite zlen_cons.
    replace (1 + zlen l - 1) with (zlen l) by lia. apply IH. simpl in Hf. lia.
Qed.

Lemma uleb_nonempty v : uleb v <> [].
Proof. unfold uleb. cbn [uleb_n]. by destruct (v <? 128). Qed.

Lemma counted_nonempty bs : counted bs <> [].
Proof. unfold counted. intros [H _]%app_eq_nil. by apply uleb_nonempty in H. Qed.

Lemma concat_length {A} (enc : A -> list Z) l :
  (forall a, enc a <> []) -> (length l <= length (concat (enc <$> l)))%nat.
Proof.
  intros H. induction l as [|a l IH]; cbn; [lia|]. rewrite length_app.
  specialize (H a). destruct (enc a); [done|]. simpl. lia.
Qed.

Lemma times_reads {A B} (item : list Z -> M Z string B) (enc : A -> list Z) (val : A -> B) (P : A -> Prop) l :
  (forall a, enc a <> []) -> (forall a, P a -> reads item (enc a) (val a)) -> Forall P l ->
  reads (fun d => times d (zlen l) (item d)) (concat (enc <$> l)) (val <$> l).
Proof.
  intros Hne Hitem HP pre post Hlen. unfold times.
  apply (collect_reads item enc val P); [done|done| |done].
  pose proof (concat_length enc l Hne). rewrite !length_app. lia.
Qed.

(** A section that is a counted list. *)
Lemma vec_reads {A B C} (item : list Z -> M Z string B) (enc : A -> list Z) (val : A -> B) (P : A -> Prop)
    l msg (g : list B -> C) :
  (forall a, enc a <> []) -> (forall a, P a -> reads item (enc a) (val a)) -> fits 64 (zlen l) -> Forall P l ->
  reads (fun d => n ← leb d msg; x ← times d n (item d); mret (g x)) (vec enc l) (g (val <$> l)).
Proof.
  intros. eapply (reads_bind (fun d => leb d msg) (fun n d => x ← times d n (item d); mret (g x)));
    [by apply leb_reads|]. apply reads_last. by eapply times_reads.
Qed.

(** A byte that is looked at before it is passed. *)
Lemma reads_this {A} (g : Z -> list Z -> M Z string A) b bs a :
  reads (g b) (b :: bs) a -> reads (fun d => x ← this_byte d; g x d) (b :: bs) a.
Proof.
  intros H pre post Hlen. rewrite <-H by done.
  unfold this_byte, mbind, M_bind, get, lift. cbn [app]. by rewrite index_here.
Qed.

Lemma reads_advance {A} (f : list Z -> M Z string A) b bs a :
  reads f bs a -> reads (fun d => _ ← advance; f d) (b :: bs) a.
Proof.
  intros H pre post Hlen. unfold advance, modify, mbind, M_bind.
  specialize (H (pre ++ [b]) post). rewrite <-app_assoc, zlen_snoc in H. cbn [app] in *.
  rewrite H by done. rewrite zlen_cons. f_equal. lia.
Qed.

Lemma reads_byte {A} (g : Z -> list Z -> M Z string A) b bs a :
  reads (g b) bs a -> reads (fun d => x ← next_byte d; g x d) (b :: bs) a.
Proof. intros H. apply (reads_bind next_byte g [b] bs b a); [apply next_byte_reads|done]. Qed.

Lemma reads_more {A} (f g : list Z -> M Z string A) b bs a :
  reads f (b :: bs) a ->
  reads (fun d => offset ← get; if zlen d <=? offset then g d else f d) (b :: bs) a.
Proof.
  intros H pre post Hlen. unfold mbind, M_bind, get. rewrite <-H by done.
  cbn [app]. by rewrite more_data.
Qed.

Lemma type_item_reads t :
  fits 64 (zlen (fst t)) /\ fits 64 (zlen (snd t)) ->
  reads type_item (type_bytes t) (zlen (fst t), zlen (snd t)).
Proof.
  intros [H1 H2]. unfold type_item, type_bytes. apply (reads_more _ (fun _ => throw _)), reads_this.
  cbn [Z.eqb Pos.eqb negb]. apply reads_advance. unfold counted. rewrite <-app_assoc.
  eapply (reads_bind (fun d => leb d _)); [by apply leb_reads|].
  eapply (reads_bind (fun _ => skip _)); [apply skip_reads|].
  eapply (reads_bind (fun d => leb d _)); [by apply leb_reads|].
  apply (reads_last (fun _ => skip (zlen (snd t))) (fun _ => (zlen (fst t), zlen (snd t))) _ tt).
  apply skip_reads.
Qed.

(** The two names in front of every import. *)
Lemma names_reads {A} (g : list Z -> list Z -> list Z -> M Z string A) m1 n1 m2 n2 m n bs a :
  name_ok m -> name_ok n -> reads (g m n) bs a ->
  reads (fun d => x ← leb d m1; y ← take_name d x m2; z ← leb d n1; u ← take_name d z n2; g y u d)
    (counted m ++ counted n ++ bs) a.
Proof.
  intros Hm Hn Hg. unfold counted. rewrite <-!app_assoc.
  eapply (reads_bind (fun d => leb d _)); [apply leb_reads, Hm|].
  eapply (reads_bind (fun d => take_name d _ _)); [by apply take_name_reads|].
  eapply (reads_bind (fun d => leb d _)); [apply leb_reads, Hn|].
  eapply (reads_bind (fun d => take_name d _ _)); [by apply take_name_reads|]. done.
Qed.

Definition import_effect (i : import) : Acc -> Acc :=
  match i with
  | ImportFunc m n t => add_function (Imported m n t)
  | ImportMemory _ _ min => set_pages min
  | ImportGlobal _ _ _ _ => unchanged
  end.

Lemma import_item_reads i : import_ok i -> reads import_item (import_bytes i) (import_effect i).
Proof.
  destruct i as [m n t|m n min|m n t mut]; cbn [import_ok import_bytes import_effect];
    [intros (Hm & Hn & Ht)|intros (Hm & Hn & Ht)|intros (Hm & Hn)];
    apply names_reads; try done;
    apply reads_byte; cbn [Z.eqb Pos.eqb app].
  - apply (reads_last (fun d => leb d _) (fun x => add_function (Imported m n x))). by apply leb_reads.
  - apply reads_byte. apply (reads_last (fun d => leb d _) set_pages). by apply leb_reads.
  - apply reads_byte, reads_byte, reads_ret.
Qed.

Lemma memory_item_reads min max :
  fits 64 min -> from_option (fits 64) True max ->
  reads memory_item (memory_bytes min max) (set_pages min).
Proof.
  intros Hmin Hmax. destruct max as [x|]; apply reads_byte.
  - eapply (reads_bind (fun d => leb d _)); [by apply leb_reads|]. cbn [Z.land Pos.land Z.eqb negb].
    eapply (reads_last (fun d => leb d _) (fun _ => set_pages min)). by apply leb_reads.
  - apply reads_nil. eapply (reads_bind (fun d => leb d _)); [by apply leb_reads|]. apply reads_ret.
Qed.

Lemma export_item_reads e :
  name_ok (fst (fst e)) /\ fits 64 (snd e) ->
  reads export_item (export_bytes e) (if is_start e then set_start (snd e) else unchanged).
Proof.
  intros [Hn Hi]. destruct e as [[name kind] idx]. cbn [fst snd] in *. unfold export_bytes, counted.
  cbn [fst snd]. rewrite <-app_assoc. apply reads_nil. rewrite <-!app_assoc.
  eapply (reads_bind (fun d => leb d _)); [apply leb_reads, Hn|].
  eapply (reads_bind (fun d => take_name d _ _)); [by apply take_name_reads|].
  apply reads_byte. cbn [app].
  eapply (reads_bind (fun d => leb d _)); [by apply leb_reads|].
  unfold is_start. cbn [fst snd]. destruct (_ && _); apply reads_ret.
Qed.

Lemma local_item_reads d : local_ok d -> reads local_item (local_bytes d) d.
Proof.
  intros Hd. destruct d as [n t]. unfold local_ok, local_bytes in *. cbn [count val_type] in *.
  eapply (reads_bind (fun d => leb d _)); [apply leb_reads; unfold fits in *; lia|].
  apply reads_byte. rewrite wrap_small by done. apply reads_ret.
Qed.

(** A list that is read back unchanged. *)
Lemma reads_id {E A} (m : list Z -> M Z E (list A)) bs l : reads m bs (id <$> l) -> reads m bs l.
Proof. by rewrite list_fmap_id. Qed.

(** The body of a function: its locals, then whatever is left. *)
Lemma body_reads (n : list Z -> M Z string Z) (locals : Z -> list Z -> M Z string (list WasmLocalDecl))
    bs1 ds code :
  reads (fun d => x ← n d; locals x d) bs1 ds ->
  reads (fun d =>
    offset ← get; body_end ← lift (uadd offset (zlen (bs1 ++ code))); x ← n d; decls ← locals x d;
    offset ← get; c ← lift (slice offset (body_end - offset) d); _ ← put body_end; mret (decls, c))
    (bs1 ++ code) (ds, code).
Proof.
  intros H pre post Hlen. rewrite <-app_assoc in *. specialize (H pre (code ++ post) Hlen).
  unfold mbind at 1 2, M_bind at 1 2, get at 1, lift at 1, uadd.
  pose proof (zlen_nonneg post) as Hp. pose proof (zlen_nonneg code) as Hc.
  pose proof (zlen_nonneg pre). pose proof (zlen_nonneg bs1). rewrite !zlen_app in Hlen.
  rewrite (zlen_app bs1 code).
  destruct (Z.ltb_spec (zlen pre + (zlen bs1 + zlen code)) (2 ^ 64)); [|lia].
  unfold mbind, M_bind in H |- *. destruct (n _ _) as [[x| | |] o1]; try done.
  destruct (locals _ _ _) as [[l| | |] o2]; try done. simplify_eq H. intros -> ->.
  unfold get, lift, put, slice. rewrite !zlen_app, decide_True by lia.
  replace (zlen pre + (zlen bs1 + zlen code) - (zlen pre + zlen bs1)) with (zlen code) by lia.
  replace (sub (zlen pre + zlen bs1) (zlen code) (pre ++ bs1 ++ code ++ post)) with code; [done|].
  rewrite app_assoc, <-zlen_app. by rewrite sub_mid.
Qed.

Lemma code_item_reads b :
  fits 64 (zlen (vec local_bytes (fst b) ++ snd b)) /\ fits 64 (zlen (fst b)) /\ Forall local_ok (fst b) ->
  reads code_item (body_bytes b) b.
Proof.
  destruct b as [ds code]. cbn [fst snd]. intros (H1 & H2 & H3). unfold code_item, body_bytes, counted.
  cbn [fst snd]. eapply (reads_bind (fun d => leb d _)); [by apply leb_reads|].
  apply (body_reads (fun d => leb d _) (fun n d => times d n (local_item d))). unfold vec.
  eapply (reads_bind (fun d => leb d _)); [by apply leb_reads|]. apply reads_id.
  apply (times_reads _ _ id local_ok); [|by apply local_item_reads|done].
  intros d [He _]%app_eq_nil. by apply uleb_nonempty in He.
Qed.

Lemma data_item_reads s :
  0 <= fst s < 2 ^ 31 /\ fits 64 (zlen (snd s)) -> reads data_item (segment_bytes s) s.
Proof.
  destruct s as [off bs]. cbn [fst snd]. intros [Ho Hb]. unfold data_item, segment_bytes, counted. cbn [fst snd].
  eapply (reads_bind (fun d => leb d _)); [by apply leb_reads|].
  apply reads_this. cbn [Z.eqb Pos.eqb negb]. apply reads_advance.
  eapply (reads_bind (fun d => map_err _ _)).
  { intros pre post Hlen. unfold map_err. rewrite (sleb_reads off) by (done || lia). done. }
  apply reads_this. cbn [Z.eqb Pos.eqb negb]. apply reads_advance.
  eapply (reads_bind (fun d => leb d _)); [by apply leb_reads|].
  rewrite wrap_small by (unfold fits; lia). apply (reads_last (fun d => take_bytes d _) (pair off)).
  apply take_bytes_reads.
Qed.

Definition sec_effect (s : sec) : Acc -> Acc :=
  match s with
  | STypes l => add_sigs ((fun t => (zlen (fst t), zlen (snd t))) <$> l)
  | SImports l => apply_all (import_effect <$> l)
  | SFuncs l => add_types l
  | SMemory min _ => set_pages min
  | SExports l => apply_all ((fun e => if is_start e then set_start (snd e) else unchanged) <$> l)
  | SStart i => set_start i
  | SCode l => add_bodies l
  | SData l => add_segments l
  | SOther _ _ => unchanged
  end.

Lemma section_body_reads s a :
  sec_ok s -> (if s is SOther _ _ then False else True) ->
  reads (fun d => section_body d (sec_id s) a) (sec_content s) (sec_effect s a).
Proof.
  intros [_ Hs] Hother. destruct s as [l|l|l|min max|l|i|l|l|id bs]; cbn [sec_id sec_content sec_effect];
    unfold section_body; cbn [Z.eqb Pos.eqb]; [..|done].
  - destruct Hs. eapply (vec_reads type_item type_bytes _ _ l _ (fun x => add_sigs x a));
      [done|apply type_item_reads|done|done].
  - destruct Hs. eapply (vec_reads import_item import_bytes _ _ l _ (fun x => apply_all x a));
      [|apply import_item_reads|done|done].
    intros []; intros [H' _]%app_eq_nil; by apply counted_nonempty in H'.
  - destruct Hs. rewrite <-(list_fmap_id l) at 2.
    eapply (vec_reads (fun d => leb d _) uleb id (fits 64) l _ (fun x => add_types x a));
      [apply uleb_nonempty|apply leb_reads|done|done].
  - destruct Hs. eapply (vec_reads memory_item _ (fun m => set_pages (fst m))
        (fun m => fits 64 (fst m) /\ from_option (fits 64) True (snd m)) [(min, max)] _ (fun x => apply_all x a));
      [by intros [? []]| |done|by constructor].
    intros [min' max'] []. by apply memory_item_reads.
  - destruct Hs. eapply (vec_reads export_item export_bytes _ _ l _ (fun x => apply_all x a));
      [|apply export_item_reads|done|done].
    intros e [H' _]%app_eq_nil. by apply counted_nonempty in H'.
  - apply (reads_last (fun d => leb d _) (fun x => set_start x a)). by apply leb_reads.
  - destruct Hs. rewrite <-(list_fmap_id l) at 2.
    eapply (vec_reads code_item body_bytes id _ l _ (fun x => add_bodies x a));
      [|apply code_item_reads|done|done]. intros b. apply counted_nonempty.
  - destruct Hs. rewrite <-(list_fmap_id l) at 2.
    eapply (vec_reads data_item segment_bytes id _ l _ (fun x => add_segments x a));
      [done|apply data_item_reads|done|done].
Qed.

Lemma other_section data id a o :
  id ∉ [1; 2; 3; 5; 7; 8; 10; 11] -> section_body data id a o = (Ok a, o).
Proof.
  intros Hid. rewrite !not_elem_of_cons in Hid. unfold section_body.
  repeat match goal with |- context [id =? ?n] => rewrite (proj2 (Z.eqb_neq id n)) by lia end. done.
Qed.

Lemma section_reads s a : sec_ok s -> reads (fun d => section d a) (sec_bytes s) (sec_effect s a).
Proof.
  intros Hs. unfold section, sec_bytes. apply reads_byte. unfold counted.
  eapply (reads_bind (fun d => leb d _)); [apply leb_reads, Hs|].
  intros pre post Hlen. unfold mbind at 1 2, M_bind at 1 2, get, lift, uadd.
  pose proof (zlen_nonneg post). rewrite !zlen_app in *.
  destruct (Z.ltb_spec (zlen pre + zlen (sec_content s)) (2 ^ 64)); [|lia].
  destruct (Z.ltb_spec (zlen pre + (zlen (sec_content s) + zlen post)) (zlen pre + zlen (sec_content s))); [lia|].
  assert (exists o, section_body (pre ++ sec_content s ++ post) (sec_id s) a (zlen pre)
          = (Ok (sec_effect s a), o)) as [o Ho].
  { assert ((if s is SOther _ _ then False else True) \/ exists id bs, s = SOther id bs) as [Hn|(id & bs & ->)].
    { destruct s; eauto. }
    - eexists. apply section_body_reads; [done|done|]. rewrite !zlen_app. lia.
    - exists (zlen pre). by apply other_section, Hs. }
  unfold mbind, M_bind. by rewrite Ho.
Qed.

Lemma sections_reads fuel secs a :
  Forall sec_ok secs -> (length secs <= fuel)%nat ->
  forall pre, zlen (pre ++ concat (sec_bytes <$> secs)) < 2 ^ 64 ->
  fst (sections (pre ++ concat (sec_bytes <$> secs)) fuel a (zlen pre))
  = Ok (foldl (fun a s => sec_effect s a) a secs).
Proof.
  intros Hsecs. revert fuel a. induction Hsecs as [|s secs Hs _ IH]; intros fuel a Hf pre Hlen.
  - cbn [fmap list_fmap concat foldl]. rewrite app_nil_r.
    destruct fuel; cbn [sections]; unfold mbind, M_bind, get; by rewrite Z.leb_refl.
  - destruct fuel as [|fuel]; [simpl in Hf; lia|]. cbn [fmap list_fmap concat foldl sections].
    unfold mbind, M_bind, get. unfold sec_bytes at 1. cbn [app]. rewrite more_data.
    change (sec_id s :: counted (sec_content s) ++ concat (sec_bytes <$> secs))
      with (sec_bytes s ++ concat (sec_bytes <$> secs)).
    cbn [fmap list_fmap concat] in Hlen. rewrite section_reads by done.
    specialize (IH fuel (sec_effect s a) ltac:(simpl in Hf; lia) (pre ++ sec_bytes s)).
    rewrite <-app_assoc, (zlen_app pre (sec_bytes s)) in IH. by apply IH.
Qed.

(** The last value a list of assignments leaves. *)
Definition latest {A} (l : list A) (x : option A) : option A :=
  match last l with Some y => Some y | None => x end.

Lemma latest_app {A} (l k : list A) x : latest (l ++ k) x = latest k (latest l x).
Proof. unfold latest. rewrite last_app. by destruct (last k). Qed.

(** What an accumulator holds, as a function of the sections read. *)
Definition acc_is (a a0 : Acc) (secs : list sec) : Prop :=
  a_functions a = a_functions a0 ++ imports_of secs /\
  memory_size_pages a = default (memory_size_pages a0) (last (memories_of secs)) /\
  data_segments a = data_segments a0 ++ segments_of secs /\
  a_start a = latest (starts_of secs) (a_start a0) /\
  code_bodies a = code_bodies a0 ++ bodies_of secs /\
  a_sigs a = a_sigs a0 ++ types_of secs /\
  internal_types a = internal_types a0 ++ funcs_of secs.

Lemma acc_is_trans a0 a1 a2 l k : acc_is a1 a0 l -> acc_is a2 a1 k -> acc_is a2 a0 (l ++ k).
Proof.
  unfold acc_is, imports_of, memories_of, segments_of, starts_of, bodies_of, types_of, funcs_of.
  intros (-> & H1 & -> & -> & -> & -> & ->) (-> & -> & -> & -> & -> & -> & ->).
  rewrite !bind_app, !app_assoc, latest_app. split_and!; try done.
  rewrite H1, last_app. by destruct (last (k ≫= _)).
Qed.

Lemma imports_acc l a : acc_is (apply_all (import_effect <$> l) a) a [SImports l].
Proof.
  revert a. induction l as [|i l IH]; intros a.
  - unfold acc_is. cbn. by rewrite !app_nil_r.
  - specialize (IH (import_effect i a)). revert IH.
    change (apply_all (import_effect <$> i :: l) a) with (apply_all (import_effect <$> l) (import_effect i a)).
    generalize (apply_all (import_effect <$> l) (import_effect i a)). intros a' IH.
    unfold acc_is in *. destruct i; cbn in *; rewrite ?app_nil_r in *;
      destruct IH as (-> & -> & -> & -> & -> & -> & ->); rewrite <-?app_assoc; try done.
    split_and!; try done. rewrite last_cons. by destruct (last _).
Qed.

Lemma exports_acc l a :
  acc_is (apply_all ((fun e => if is_start e then set_start (snd e) else unchanged) <$> l) a) a [SExports l].
Proof.
  revert a. induction l as [|e l IH]; intros a.
  - unfold acc_is. cbn. by rewrite !app_nil_r.
  - set (f := fun e => if is_start e then set_start (snd e) else unchanged) in *.
    specialize (IH (f e a)). revert IH.
    change (apply_all (f <$> e :: l) a) with (apply_all (f <$> l) (f e a)).
    generalize (apply_all (f <$> l) (f e a)). intros a' IH. subst f. unfold acc_is in *. cbn in *. destruct (is_start e); cbn in *; rewrite ?app_nil_r in *;
      destruct IH as (-> & -> & -> & -> & -> & -> & ->); try done.
    split_and!; try done. unfold latest. rewrite last_cons. by destruct (last _).
Qed.

Lemma sec_acc s a : acc_is (sec_effect s a) a [s].
Proof.
  destruct s; cbn [sec_effect]; try apply imports_acc; try apply exports_acc;
    unfold acc_is; cbn; by rewrite ?app_nil_r.
Qed.

Lemma secs_acc secs a : acc_is (foldl (fun a s => sec_effect s a) a secs) a secs.
Proof.
  revert a. induction secs as [|s secs IH]; intros a; cbn [foldl].
  - unfold acc_is. cbn. by rewrite !app_nil_r.
  - apply (acc_is_trans a (sec_effect s a) _ [s]); [apply sec_acc|apply IH].
Qed.

Lemma copy_segments_ok segs mem :
  zlen mem < 2 ^ 64 -> Forall (fun s => 0 <= fst s /\ fst s + zlen (snd s) <= zlen mem) segs ->
  copy_segments segs mem = Ok (foldl (fun m s => upd (fst s) (snd s) m) mem segs).
Proof.
  revert mem. induction segs as [|[off bs] segs IH]; intros mem Hm Hs; [done|].
  apply Forall_cons in Hs as [[Ho Hb] Hs]. cbn [fst snd] in *. cbn [copy_segments foldl].
  unfold mbind, res_bind, uadd, splice. destruct (Z.ltb_spec (off + zlen bs) (2 ^ 64)); [|lia].
  destruct (Z.ltb_spec (zlen mem) (off + zlen bs)); [lia|]. rewrite decide_True by lia.
  cbn [fst snd]. apply IH; rewrite zlen_upd by lia; done.
Qed.

(** The functions have types and bodies, and the data fits the memory. *)
Definition module_ok (secs : list sec) : Prop :=
  length (funcs_of secs) = length (bodies_of secs) /\
  0 <= pages_of secs * 64 * 1024 < 2 ^ 63 /\
  Forall (fun s => 0 <= fst s /\ fst s + zlen (snd s) <= pages_of secs * 64 * 1024) (segments_of secs).

Lemma instantiate_ok secs a :
  acc_is a new_acc secs -> module_ok secs -> instantiate a = Ok (module_instance secs).
Proof.
  intros (Hf & Hp & Hd & Hs & Hc & Ht & Hi) (Hlen & Hpages & Hsegs).
  unfold instantiate, module_instance. rewrite Hf, Hd, Hs, Hc, Ht, Hi. cbn [new_acc a_functions data_segments code_bodies a_sigs internal_types a_start app].
  rewrite Hlen, Nat.eqb_refl. cbn [negb].
  replace (memory_size_pages a) with (pages_of secs) by done.
  destruct (Z.leb_spec (2 ^ 63) (pages_of secs * 64 * 1024)); [lia|].
  rewrite copy_segments_ok; [|rewrite zlen_zeros by lia; lia|by rewrite zlen_zeros by lia].
  cbn. do 2 f_equal. unfold latest. by destruct (last (starts_of secs)).
Qed.

(** C21. Parsing the binary encoding of a module gives back the module: for
    every list of sections, in any order and with sections the reader does not
    know among them, the instance has exactly the declared signatures, the
    imported functions followed by the defined ones with their locals and
    code, the last start function, and a zeroed memory of the declared size
    overlaid with the data segments in order.  The modules are those that
    import functions, globals and memories without a maximum (the reader
    misreads an imported table and the maximum of an imported memory), that
    have a body for every function, and whose data segments start below 2^31
    and fit the memory. *)
Theorem parse_wasm_roundtrip secs :
  Forall sec_ok secs -> module_ok secs -> zlen (module_bytes secs) < 2 ^ 64 ->
  parse_wasm (module_bytes secs) = Ok (module_instance secs).
Proof.
  intros Hsecs Hok Hlen. unfold parse_wasm, module_bytes in *.
  set (pre := [0; 97; 115; 109; 1; 0; 0; 0]) in *. set (body := concat (sec_bytes <$> secs)) in *.
  assert (zlen pre = 8) as Hpre by done. rewrite zlen_app, Hpre.
  pose proof (zlen_nonneg body). destruct (Z.ltb_spec (8 + zlen body) 8); [lia|].
  change (sub 0 4 (pre ++ body)) with [0; 97; 115; 109]. change (sub 4 4 (pre ++ body)) with [1; 0; 0; 0].
  rewrite !bool_decide_true by done. cbn [negb]. rewrite <-Hpre. unfold body.
  rewrite (sections_reads _ secs); [|done| |done].
  - cbn. apply instantiate_ok; [apply secs_acc|done].
  - rewrite length_app. pose proof (concat_length sec_bytes secs ltac:(done)). lia.
Qed.

(** The demonstration module, by sections. *)
Definition demo_secs : list sec :=
  [STypes [([0x7f; 0x7f; 0x7f; 0x7f], [0x7f]); ([], [])];
   SImports [ImportFunc (Path.bytes_of "wasi_snapshot_preview1") (Path.bytes_of "fd_write") 0];
   SFuncs [1]; SMemory 1 None;
   SExports [(Path.bytes_of "memory", 2, 0); (Path.bytes_of "_start", 0, 1)];
   SCode [([], [0x41; 0x00; 0x41; 0x08; 0x36; 0x02; 0x00; 0x41; 0x04; 0x41; 0x1f; 0x36; 0x02; 0x00;
     0x41; 0x01; 0x41; 0x00; 0x41; 0x01; 0x41; 0x28; 0x10; 0x00; 0x1a; 0x0b])];
   SData [(8, Path.bytes_of "Hello from WebAssembly (WASI)!" ++ [10])]].

Lemma parse_wasm_roundtrip_witness :
  module_bytes demo_secs = TEST_WASM /\ parse_wasm TEST_WASM = Ok (module_instance demo_secs).
Proof.
  assert (module_bytes demo_secs = TEST_WASM) as H by reflexivity. split; [exact H|].
  rewrite <-H. apply parse_wasm_roundtrip; [| |by vm_compute].
  - repeat constructor; vm_compute; congruence.
  - split; [reflexivity|]. split; [by vm_compute|]. repeat constructor; vm_compute; congruence.
Defined.

(** A table import is a reference type and limits (flags, then the minimum);
    the reader takes the flags for the minimum, loses its place, and rejects a
    module that imports a table before a function. *)
Definition table_import_module : list Z :=
  [0x00; 0x61; 0x73; 0x6d; 1; 0; 0; 0]
  ++ sec_bytes (SOther 2 (uleb 2 ++ counted (Path.bytes_of "e") ++ counted (Path.bytes_of "t") ++ [1; 0x70; 0; 10]
                          ++ import_bytes (ImportFunc (Path.bytes_of "e") (Path.bytes_of "f") 0))).

Lemma table_import_rejected : exists r, parse_wasm table_import_module = r /\ match r with Ok _ => False | _ => True end.
Proof. eexists. split; [vm_compute; reflexivity|done]. Qed.

(** An eleven-byte signed number makes the reader shift by 70 and panic. *)
Lemma long_signed_panics : fst (read_leb128_signed (replicate 10 0x80 ++ [0]) 0) = Panic.
Proof. reflexivity. Qed.

End WasmBin.
