(* ===== verification/WasmVm.v ===== *)
(** * The WebAssembly interpreter

    Models the execution half of [src/abi/wasm/mod.rs]: the scan for the end
    of a block, the interpreter loop, the WASI host functions and the entry
    point of a WebAssembly process.  The bytes of a function are interpreted
    in place: the program counter is an offset into them and a control stack
    remembers the enclosing blocks.

    A run can stop with an error of the interpreter ([Trap]), because the
    process was switched out for good after it exited ([Gone]), or because the
    fuel of the definition ran out ([NoFuel]).  The keyboard is given to the
    definitions as [read_stdin]; the console is the list of characters
    printed.  The depth of the kernel stack is not modelled.

    [src/abi/wasm/wasi.rs] and [src/abi/wasm/handler.rs] hold a second copy of
    the host functions that no module of the crate includes. *)

From S2P Require Import Prelude Bytes Abi Path Process Scheduler WasmBin.
Import WasmBin.

Module WasmVm.

(** ** Finding the end of a block *)

Record ControlBlock := mkBlock { op : Z; start_pc : Z; end_pc : Z }.

(** [let _ = read_leb128(code, pc).map_err(|_| msg)?] *)
Definition skip_leb (code : list Z) (msg : string) : M Z string unit :=
  _ ← leb code msg; mret tt.

(** Step over the operands of the instruction [o]. *)
Definition skip_operands (code : list Z) (o : Z) : M Z string unit :=
  if (o =? 0x02) || (o =? 0x03) || (o =? 0x04) then
    pc ← get; if pc <? zlen code then put (pc + 1) else mret tt
  else if (o =? 0x0C) || (o =? 0x0D) then skip_leb code "Failed to read label index"
  else if o =? 0x10 then skip_leb code "Failed to read call index"
  else if (o =? 0x20) || (o =? 0x21) || (o =? 0x22) then skip_leb code "Failed to read local index"
  else if o =? 0x36 then
    _ ← skip_leb code "Failed to read alignment"; skip_leb code "Failed to read offset"
  else if o =? 0x41 then
    _ ← map_err "Failed to read const value" (read_leb128_signed code); mret tt
  else mret tt.

Definition skip_instruction_args (code : list Z) : M Z string unit :=
  pc ← get;
  if zlen code <=? pc then mret tt else o ← next_byte code; skip_operands code o.

(** Every turn moves forward, so the length of the code is enough fuel. *)
Fixpoint find_end_loop (fuel : nat) (code : list Z) (depth pc : Z) : res string Z :=
  if zlen code <=? pc then Err "Matching end not found"
  else
    match fuel with
    | O => Fault
    | S fuel =>
        o ← index code pc;
        if (o =? 0x02) || (o =? 0x03) || (o =? 0x04) then
          let pc := pc + 1 in
          find_end_loop fuel code (depth + 1) (if pc <? zlen code then pc + 1 else pc)
        else if o =? 0x0B then
          let depth := depth - 1 in
          if depth =? 0 then Ok pc else find_end_loop fuel code depth (pc + 1)
        else
          match skip_instruction_args code pc with
          | (Ok _, pc) => find_end_loop fuel code depth pc
          | (Err e, _) => Err e
          | (Panic, _) => Panic
          | (Fault, _) => Fault
          end
    end.

Definition find_matching_end (code : list Z) (pc : Z) : res string Z :=
  find_end_loop (length code) code 1 pc.

(** The scan for the [else] of an [if] that starts at [scan]. *)
Fixpoint find_else_loop (fuel : nat) (code : list Z) (end_pc depth scan : Z) : res string (option Z) :=
  if end_pc <=? scan then Ok None
  else
    match fuel with
    | O => Fault
    | S fuel =>
        o ← index code scan;
        if (o =? 0x02) || (o =? 0x03) || (o =? 0x04) then
          let scan := scan + 1 in
          find_else_loop fuel code end_pc (depth + 1) (if scan <? end_pc then scan + 1 else scan)
        else if o =? 0x0B then find_else_loop fuel code end_pc (depth - 1) (scan + 1)
        else if (o =? 0x05) && (depth =? 1) then Ok (Some scan)
        else
          match skip_instruction_args code scan with
          | (Ok _, scan) => find_else_loop fuel code end_pc depth scan
          | (Err e, _) => Err e
          | (Panic, _) => Panic
          | (Fault, _) => Fault
          end
    end.

Definition find_else (code : list Z) (pc end_pc : Z) : res string (option Z) :=
  find_else_loop (length code) code end_pc 1 pc.

(** ** The machine *)

Inductive stop := Trap (msg : string) | Gone | NoFuel.

(** The world a function runs in: its instance, the console, the keyboard and
    the scheduler. *)
Record Vm (K : Type) := mkVm {
  inst : WasmInstance;
  console : list Z;
  keyboard : K;
  sched : Scheduler.Sched
}.
Arguments mkVm {K}.
Arguments inst {K}.
Arguments console {K}.
Arguments keyboard {K}.
Arguments sched {K}.

(** One activation: the program counter, and the operand stack and the
    control stack with their tops first. *)
Record Frame := mkFrame { pc : Z; stack : list Z; control : list ControlBlock; locals : list Z }.

Definition trap {A} (r : res string A) : res stop A :=
  match r with Ok a => Ok a | Err e => Err (Trap e) | Panic => Panic | Fault => Fault end.

Section vm.
Context {K : Type} (read_stdin : Z -> K -> list Z * K).

Definition set_memory (m : list Z) (v : Vm K) : Vm K :=
  mkVm (mkInstance m (functions (inst v)) (type_sigs (inst v)) (start_func_idx (inst v)))
    (console v) (keyboard v) (sched v).
Definition print (bs : list Z) (v : Vm K) : Vm K :=
  mkVm (inst v) (console v ++ bs) (keyboard v) (sched v).
Definition set_keyboard (k : K) (v : Vm K) : Vm K := mkVm (inst v) (console v) k (sched v).
Definition set_sched (s : Scheduler.Sched) (v : Vm K) : Vm K :=
  mkVm (inst v) (console v) (keyboard v) s.

Abbreviation VM := (M (Vm K) stop) (only parsing).

Definition memory_len : VM Z := v ← get; mret (zlen (memory (inst v))).

(** [if off + n > memory.len() { return Err(msg) }] *)
Definition check_range (off n : Z) (msg : string) : VM unit :=
  e ← lift (uadd off n);
  len ← memory_len;
  if len <? e then throw (Trap msg) else mret tt.

(** [memory[off..off + bs.len()].copy_from_slice(bs)] *)
Definition poke (off : Z) (bs : list Z) : VM unit :=
  v ← get; m ← lift (splice off bs (memory (inst v))); put (set_memory m v).

(** [memory[ptr..ptr + 4].copy_from_slice(&x.to_le_bytes())] *)
Definition poke32 (off x : Z) : VM unit := poke off (le_bytes 4 (wrap 32 x)).

(** An argument, and an argument cast from [i32] to [usize]. *)
Definition arg (args : list Z) (i : Z) : VM Z := lift (index args i).
Definition uarg (args : list Z) (i : Z) : VM Z := a ← arg args i; mret (wrap 64 a).

(** [a + b] on [u32]. *)
Definition u32_add (a b : Z) : res stop Z := if a + b <? 2 ^ 32 then Ok (a + b) else Panic.

(** ** Host functions *)

(** The [i]-th I/O vector: where its buffer is and how long, once both the
    vector and the buffer are inside the memory. *)
Definition read_iov (iovs_ptr i : Z) : VM (Z * Z) :=
  off ← lift (uadd iovs_ptr (i * 8));
  _ ← check_range off 8 "Memory read out of bounds on iovs";
  v ← get;
  let buf_ptr := le_word (sub off 4 (memory (inst v))) in
  let buf_len := le_word (sub (off + 4) 4 (memory (inst v))) in
  _ ← check_range buf_ptr buf_len "Memory read out of bounds on buffer";
  mret (buf_ptr, buf_len).

(** A vector past the end of the memory stops the loops below, so the length
    of the memory is enough fuel. *)
Fixpoint write_iovs (fuel : nat) (fd iovs_ptr i iovs_len nwritten : Z) : VM Z :=
  if iovs_len <=? i then mret nwritten
  else
    match fuel with
    | O => throw NoFuel
    | S fuel =>
        b ← read_iov iovs_ptr i;
        _ ← (if (fd =? 1) || (fd =? 2)
             then modify (fun v => print (sub (fst b) (snd b) (memory (inst v))) v) else mret tt);
        n ← lift (u32_add nwritten (wrap 32 (snd b)));
        write_iovs fuel fd iovs_ptr (i + 1) iovs_len n
    end.

Definition fd_write (args : list Z) : VM (option Z) :=
  fd ← arg args 0; iovs_ptr ← uarg args 1; iovs_len ← uarg args 2; nwritten_ptr ← uarg args 3;
  v ← get;
  n ← write_iovs (S (length (memory (inst v)))) fd iovs_ptr 0 iovs_len 0;
  _ ← check_range nwritten_ptr 4 "Memory write out of bounds on nwritten";
  _ ← poke32 nwritten_ptr n;
  mret (Some 0).

Fixpoint read_iovs (fuel : nat) (fd iovs_ptr i iovs_len nread : Z) : VM Z :=
  if iovs_len <=? i then mret nread
  else
    match fuel with
    | O => throw NoFuel
    | S fuel =>
        b ← read_iov iovs_ptr i;
        if fd =? 0 then
          v ← get;
          let r := read_stdin (snd b) (keyboard v) in
          _ ← put (set_keyboard (snd r) v);
          _ ← poke (fst b) (fst r);
          n ← lift (u32_add nread (wrap 32 (zlen (fst r))));
          if zlen (fst r) <? snd b then mret n
          else read_iovs fuel fd iovs_ptr (i + 1) iovs_len n
        else read_iovs fuel fd iovs_ptr (i + 1) iovs_len nread
    end.

Definition fd_read (args : list Z) : VM (option Z) :=
  fd ← arg args 0; iovs_ptr ← uarg args 1; iovs_len ← uarg args 2; nread_ptr ← uarg args 3;
  v ← get;
  n ← read_iovs (S (length (memory (inst v)))) fd iovs_ptr 0 iovs_len 0;
  _ ← check_range nread_ptr 4 "Memory write out of bounds on nread";
  _ ← poke32 nread_ptr n;
  mret (Some 0).

Definition args_sizes_get (args : list Z) : VM (option Z) :=
  argc_ptr ← uarg args 0; argv_buf_size_ptr ← uarg args 1;
  _ ← check_range argc_ptr 4 "Memory write out of bounds on args_sizes_get";
  _ ← check_range argv_buf_size_ptr 4 "Memory write out of bounds on args_sizes_get";
  _ ← poke32 argc_ptr 2;
  _ ← poke32 argv_buf_size_ptr 20;
  mret (Some 0).

(** One turn per argument string. *)
Fixpoint write_args (args_list : list (list Z)) (argv_ptr i current_buf_offset : Z) : VM unit :=
  match args_list with
  | [] => mret tt
  | bytes :: args_list =>
      let len := zlen bytes in
      e ← lift (uadd current_buf_offset len);
      _ ← check_range e 1 "Memory write out of bounds on args_get buffer";
      _ ← poke current_buf_offset bytes;
      _ ← poke e [0];
      ptr_off ← lift (uadd argv_ptr (i * 4));
      _ ← check_range ptr_off 4 "Memory write out of bounds on args_get argv";
      _ ← poke32 ptr_off current_buf_offset;
      write_args args_list argv_ptr (i + 1) (current_buf_offset + len + 1)
  end.

Definition args_get (args : list Z) : VM (option Z) :=
  argv_ptr ← uarg args 0; argv_buf_ptr ← uarg args 1;
  _ ← write_args [Path.bytes_of "hello.wasm"; Path.bytes_of "test-arg"] argv_ptr 0 argv_buf_ptr;
  mret (Some 0).

(** [SCHEDULER.exit_process] of the current process: when the scheduler
    switches to another process, this one never runs again. *)
Definition exit_current (status : Z) : VM unit :=
  v ← get;
  match Scheduler.current_task_pid (sched v) with
  | None => mret tt
  | Some pid =>
      match Scheduler.exit_process pid status (sched v) with
      | Ok s =>
          _ ← put (set_sched s v);
          if decide (Scheduler.current s = Scheduler.current (sched v)) then mret tt else throw Gone
      | Err _ => lift Panic
      | Panic => lift Panic
      | Fault => lift Fault
      end
  end.

Definition proc_exit (args : list Z) : VM (option Z) :=
  status ← arg args 0; _ ← exit_current status; mret (Some 0).

Definition call_import (module name : list Z) (args : list Z) : VM (option Z) :=
  let wasi := bool_decide (module = Path.bytes_of "wasi_snapshot_preview1") in
  if wasi && bool_decide (name = Path.bytes_of "fd_write") then fd_write args
  else if wasi && bool_decide (name = Path.bytes_of "fd_read") then fd_read args
  else if wasi && bool_decide (name = Path.bytes_of "args_sizes_get") then args_sizes_get args
  else if wasi && bool_decide (name = Path.bytes_of "args_get") then args_get args
  else if wasi && bool_decide (name = Path.bytes_of "proc_exit") then proc_exit args
  else throw (Trap "Unsupported host function import").

(** ** Instructions *)

(** [let mut offset = pc; read_leb128(&code, &mut offset).map_err(..)?]: the
    number and the offset after it. *)
Definition operand (code : list Z) (at_ : Z) (msg : string) : VM (Z * Z) :=
  match leb code msg at_ with (r, offset) => n ← lift (trap r); mret (n, offset) end.

(** [stack.pop().ok_or(msg)?] *)
Definition pop (st : list Z) (msg : string) : VM (Z * list Z) :=
  match st with [] => throw (Trap msg) | x :: st => mret (x, st) end.

Definition push_block (b : ControlBlock) (f : Frame) : Frame :=
  mkFrame (pc f) (stack f) (b :: control f) (locals f).
Definition goto (p : Z) (f : Frame) : Frame := mkFrame p (stack f) (control f) (locals f).
Definition with_stack (st : list Z) (f : Frame) : Frame := mkFrame (pc f) st (control f) (locals f).

(** [block] and [loop]. *)
Definition op_block (code : list Z) (o : Z) (f : Frame) : VM Frame :=
  _ ← lift (index code (pc f));
  let p := pc f + 1 in
  e ← lift (trap (find_matching_end code p));
  mret (push_block (mkBlock o p e) (goto p f)).

Definition op_if (code : list Z) (f : Frame) : VM Frame :=
  c ← pop (stack f) "Stack underflow on if condition";
  _ ← lift (index code (pc f));
  let p := pc f + 1 in
  e ← lift (trap (find_matching_end code p));
  else_pc ← lift (trap (find_else code p e));
  let f := with_stack (snd c) (goto p f) in
  mret (if negb (fst c =? 0) then push_block (mkBlock 0x04 p e) f
        else match else_pc with
             | Some epc => push_block (mkBlock 0x05 (epc + 1) e) (goto (epc + 1) f)
             | None => goto e f
             end).

(** The jump of [br] and of a [br_if] that is taken. *)
Definition branch (label_idx : Z) (f : Frame) : VM Frame :=
  if zlen (control f) <=? label_idx then throw (Trap "Branch label index out of bounds")
  else
    target ← lift (index (control f) label_idx);
    mret (if op target =? 0x03
          then mkFrame (start_pc target) (stack f) (drop (Z.to_nat label_idx) (control f)) (locals f)
          else mkFrame (end_pc target) (stack f) (drop (S (Z.to_nat label_idx)) (control f)) (locals f)).

Definition op_br_if (code : list Z) (f : Frame) : VM Frame :=
  l ← operand code (pc f) "Failed to read br_if label index";
  c ← pop (stack f) "Stack underflow on br_if condition";
  let f := with_stack (snd c) (goto (snd l) f) in
  if negb (fst c =? 0) then branch (fst l) f else mret f.

Definition type_idx_of (fn : WasmFunction) : Z :=
  match fn with Imported _ _ t => t | Internal t _ _ => t end.

Definition op_call (call : Z -> list Z -> VM (option Z)) (code : list Z) (f : Frame) : VM Frame :=
  t ← operand code (pc f) "Failed to read call index";
  v ← get;
  fn ← lift (index (functions (inst v)) (fst t));
  sig ← lift (index (type_sigs (inst v)) (type_idx_of fn));
  if zlen (stack f) <? fst sig then throw (Trap "Stack underflow on call")
  else
    let n := Z.to_nat (fst sig) in
    r ← call (fst t) (rev (take n (stack f)));
    let st := drop n (stack f) in
    mret (with_stack (match r with Some x => x :: st | None => st end) (goto (snd t) f)).

Definition op_local_get (code : list Z) (f : Frame) : VM Frame :=
  i ← operand code (pc f) "Failed to read local index";
  match locals f !! Z.to_nat (fst i) with
  | Some x => mret (with_stack (x :: stack f) (goto (snd i) f))
  | None => throw (Trap "Local index out of bounds")
  end.

Definition op_local_set (code : list Z) (f : Frame) : VM Frame :=
  i ← operand code (pc f) "Failed to read local index";
  x ← pop (stack f) "Stack underflow on local.set";
  if zlen (locals f) <=? fst i then throw (Trap "Local index out of bounds")
  else mret (mkFrame (snd i) (snd x) (control f) (<[Z.to_nat (fst i) := fst x]> (locals f))).

Definition op_store (code : list Z) (f : Frame) : VM Frame :=
  a ← operand code (pc f) "Failed to read store alignment";
  o ← operand code (snd a) "Failed to read store offset";
  x ← pop (stack f) "Stack underflow on store val";
  b ← pop (snd x) "Stack underflow on store addr";
  target_addr ← lift (uadd (wrap 64 (fst b)) (fst o));
  _ ← check_range target_addr 4 "Memory store out of bounds";
  _ ← poke32 target_addr (fst x);
  mret (with_stack (snd b) (goto (snd o) f)).

Definition op_const (code : list Z) (f : Frame) : VM Frame :=
  match map_err "Failed to read i32.const" (read_leb128_signed code) (pc f) with
  | (r, offset) => n ← lift (trap r); mret (with_stack (sint 32 n :: stack f) (goto offset f))
  end.

(** [i32.add], [i32.sub] and [i32.mul]. *)
Definition op_binary (g : Z -> Z -> Z) (msg : string) (f : Frame) : VM Frame :=
  b ← pop (stack f) msg;
  a ← pop (snd b) msg;
  mret (with_stack (sint 32 (g (fst a) (fst b)) :: snd a) f).

(** The match on the opcode: [None] is the [break] at the end of the function. *)
Definition step_op (call : Z -> list Z -> VM (option Z)) (code : list Z) (o : Z) (f : Frame)
    : VM (option Frame) :=
  if o =? 0x01 then mret (Some f)
  else if (o =? 0x02) || (o =? 0x03) then f ← op_block code o f; mret (Some f)
  else if o =? 0x04 then f ← op_if code f; mret (Some f)
  else if o =? 0x05 then
    match control f with
    | b :: cs => mret (Some (mkFrame (end_pc b) (stack f) cs (locals f)))
    | [] => throw (Trap "Else without matching if")
    end
  else if o =? 0x0B then
    match control f with
    | _ :: cs => mret (Some (mkFrame (pc f) (stack f) cs (locals f)))
    | [] => mret None
    end
  else if o =? 0x0C then
    l ← operand code (pc f) "Failed to read br label index";
    f ← branch (fst l) f; mret (Some f)
  else if o =? 0x0D then f ← op_br_if code f; mret (Some f)
  else if o =? 0x10 then f ← op_call call code f; mret (Some f)
  else if o =? 0x20 then f ← op_local_get code f; mret (Some f)
  else if o =? 0x21 then f ← op_local_set code f; mret (Some f)
  else if o =? 0x36 then f ← op_store code f; mret (Some f)
  else if o =? 0x41 then f ← op_const code f; mret (Some f)
  else if o =? 0x6A then f ← op_binary Z.add "Stack underflow on add" f; mret (Some f)
  else if o =? 0x6B then f ← op_binary Z.sub "Stack underflow on sub" f; mret (Some f)
  else if o =? 0x6C then f ← op_binary Z.mul "Stack underflow on mul" f; mret (Some f)
  else if o =? 0x1A then x ← pop (stack f) "Stack underflow on drop"; mret (Some (with_stack (snd x) f))
  else throw (Trap "Unsupported instruction").

(** One turn of the loop. *)
Definition step (call : Z -> list Z -> VM (option Z)) (code : list Z) (f : Frame) : VM (option Frame) :=
  o ← lift (index code (pc f)); step_op call code o (goto (pc f + 1) f).

(** [stack[0]], the bottom. *)
Definition result_of (f : Frame) : option Z := last (stack f).

Definition initial_frame (locals_decl : list WasmLocalDecl) (args : list Z) : Frame :=
  mkFrame 0 [] [] (args ++ (locals_decl ≫= fun d => zeros (count d))).

(** The interpreter; fuel bounds the instructions of every activation and the
    depth of calls together. *)
Fixpoint execute_function (fuel : nat) (func_idx : Z) (args : list Z) {struct fuel} : VM (option Z) :=
  match fuel with
  | O => throw NoFuel
  | S fuel =>
      v ← get;
      fn ← lift (index (functions (inst v)) func_idx);
      match fn with
      | Imported module name _ => call_import module name args
      | Internal _ locals_decl code => run fuel code (initial_frame locals_decl args)
      end
  end
with run (fuel : nat) (code : list Z) (f : Frame) {struct fuel} : VM (option Z) :=
  match fuel with
  | O => throw NoFuel
  | S fuel =>
      if zlen code <=? pc f then mret (result_of f)
      else
        r ← step (execute_function fuel) code f;
        match r with
        | Some f => run fuel code f
        | None => mret (result_of f)
        end
  end.

(** ** The plugin *)

(** [load]: the process starts in the interpreter, whose address is [entry]. *)
Definition load (entry : Z) (p : Process.Process) : Process.Process :=
  let i := Process.image p in
  Process.set_image
    (Process.mkImage (Process.vmas i) entry (Process.stack_top i) (Process.brk i) (Process.mmap_bump i)
       (Process.binary_data i) (Process.page_table_frame i) (Process.argv i) (Process.envp i)) p.

(** [handle_syscall] of the process [pid]; [args] are the six registers. *)
Definition handle_syscall (number : Z) (args : list Z) (pid : Z) (s : Scheduler.Sched)
    : res AbiError (Z * Scheduler.Sched) :=
  if number =? 10 then
    match Scheduler.schedule s with Ok s' => Ok (0, s') | Fault => Fault | _ => Panic end
  else if number =? 21 then buf_len ← index args 1; Ok (buf_len, s)
  else if number =? 99 then
    status ← index args 0; Ok (0, Scheduler.update_process pid (Process.exit (sint 64 status)) s)
  else Err (UnsupportedSyscall number).

(** ** The entry point of a process *)

(** [wasm_interpreter_entry], on the binary of the current process. *)
Definition wasm_interpreter_entry (fuel : nat) (console0 : list Z) (k : K) (s : Scheduler.Sched)
    : res stop unit * Vm K :=
  let none := mkInstance [] [] [] None in
  match (c ← Scheduler.current s; p ← Scheduler.get_process c s;
         Some (Process.binary_data (Process.image p))) with
  | None => (Ok tt, mkVm none console0 k s)
  | Some binary =>
      match parse_wasm binary with
      | Err _ => exit_current (-1) (mkVm none console0 k s)
      | Panic => (Panic, mkVm none console0 k s)
      | Fault => (Fault, mkVm none console0 k s)
      | Ok i =>
          let v := mkVm i console0 k s in
          match start_func_idx i with
          | None => exit_current 0 v
          | Some idx =>
              match execute_function fuel idx [] v with
              | (Ok r, v) => exit_current (default 0 r) v
              | (Err (Trap _), v) => exit_current (-1) v
              | (Err e, v) => (Err e, v)
              | (Panic, v) => (Panic, v)
              | (Fault, v) => (Fault, v)
              end
          end
      end
  end.

(** ** The memory keeps its size

    Whatever a module does, and however its run ends, the instance keeps its
    functions and signatures and the length of its memory. *)
Definition same_shape (v v' : Vm K) : Prop :=
  zlen (memory (inst v')) = zlen (memory (inst v)) /\
  functions (inst v') = functions (inst v) /\ type_sigs (inst v') = type_sigs (inst v).

#[local] Instance same_shape_preorder : PreOrder same_shape.
Proof.
  split; [by intros v|]. intros v1 v2 v3 (H1 & H2 & H3) (H4 & H5 & H6). split_and!; congruence.
Qed.

(** Split a computation into its steps. *)
Ltac keeping := repeat
  lazymatch goal with
  | |- keeps _ (_ ≫= _) => apply keeps_bind; [apply _| |intros ?]
  | |- keeps _ (if ?b then _ else _) => destruct b
  | |- keeps _ (match ?x with _ => _ end) => destruct x
  | |- keeps _ (let _ := _ in _) => cbv zeta
  | |- keeps _ _ => by auto with keeps
  end.

Lemma put_keeps (h : Vm K -> Vm K) (A : Type) (m : Vm K -> VM A) :
  (forall v, inst (h v) = inst v) -> (forall v, keeps same_shape (m v)) ->
  keeps same_shape (v ← get; _ ← put (h v); m v).
Proof.
  intros Hh Hm v. unfold mbind, M_bind, get, put. etrans; [|apply Hm].
  unfold same_shape. by rewrite Hh.
Qed.

Lemma memory_len_keeps : keeps same_shape memory_len.
Proof. unfold memory_len. keeping. Qed.
#[local] Hint Resolve memory_len_keeps : keeps.

Lemma check_range_keeps off n msg : keeps same_shape (check_range off n msg).
Proof. unfold check_range. keeping. Qed.

Lemma poke_keeps off bs : keeps same_shape (poke off bs).
Proof.
  intros v. unfold poke, splice, mbind, M_bind, get, lift, put. case_decide; [|done].
  split_and!; [|done|done]. cbn. apply zlen_upd; lia.
Qed.

Lemma arg_keeps args i : keeps same_shape (arg args i).
Proof. unfold arg. keeping. Qed.
#[local] Hint Resolve check_range_keeps poke_keeps arg_keeps : keeps.

Lemma poke32_keeps off x : keeps same_shape (poke32 off x).
Proof. unfold poke32. keeping. Qed.

Lemma uarg_keeps args i : keeps same_shape (uarg args i).
Proof. unfold uarg. keeping. Qed.

Lemma read_iov_keeps p i : keeps same_shape (read_iov p i).
Proof. unfold read_iov. keeping. Qed.
#[local] Hint Resolve poke32_keeps uarg_keeps read_iov_keeps : keeps.

Lemma write_iovs_keeps fuel fd p i n w : keeps same_shape (write_iovs fuel fd p i n w).
Proof.
  revert i w. induction fuel as [|fuel IH]; intros i w; cbn [write_iovs]; keeping.
Qed.

Lemma read_iovs_keeps fuel fd p i n r : keeps same_shape (read_iovs fuel fd p i n r).
Proof.
  revert i r. induction fuel as [|fuel IH]; intros i r; cbn [read_iovs].
  { keeping. }
  destruct (n <=? i); [keeping|]. apply keeps_bind; [apply _|by auto with keeps|]. intros b.
  destruct (fd =? 0); [|keeping]. cbv zeta.
  apply (put_keeps (fun v => set_keyboard (snd (read_stdin (snd b) (keyboard v))) v)); [done|].
  intros v. keeping.
Qed.
#[local] Hint Resolve write_iovs_keeps read_iovs_keeps : keeps.

Lemma write_args_keeps l p i c : keeps same_shape (write_args l p i c).
Proof. revert i c. induction l as [|bs l IH]; intros i c; cbn [write_args]; keeping. Qed.

Lemma exit_current_keeps status : keeps same_shape (exit_current status).
Proof.
  intros v. unfold exit_current, mbind, M_bind, get, put, lift, throw.
  destruct (Scheduler.current_task_pid _); [|done].
  destruct (Scheduler.exit_process _ _ _); try done. by case_decide.
Qed.
#[local] Hint Resolve write_args_keeps exit_current_keeps : keeps.

Lemma call_import_keeps m n args : keeps same_shape (call_import m n args).
Proof.
  unfold call_import, fd_write, fd_read, args_sizes_get, args_get, proc_exit. keeping.
Qed.

Lemma operand_keeps code p msg : keeps same_shape (operand code p msg).
Proof. unfold operand. keeping. Qed.

Lemma pop_keeps st msg : keeps same_shape (pop st msg).
Proof. unfold pop. keeping. Qed.

Lemma branch_keeps l f : keeps same_shape (branch l f).
Proof. unfold branch. keeping. Qed.
#[local] Hint Resolve call_import_keeps operand_keeps pop_keeps branch_keeps : keeps.

Lemma step_same_host call code f :
  (forall i args, keeps same_shape (call i args)) -> keeps same_shape (step call code f).
Proof.
  intros Hcall. unfold step, step_op, op_block, op_if, op_br_if, op_call, op_local_get, op_local_set,
    op_store, op_const, op_binary. keeping.
Qed.

Lemma execute_keeps fuel :
  (forall i args, keeps same_shape (execute_function fuel i args)) /\
  (forall code f, keeps same_shape (run fuel code f)).
Proof.
  induction fuel as [|fuel [IHe IHr]]; split; intros; cbn [execute_function run]; keeping.
  by apply step_same_host.
Qed.

(** A module never changes the shape of its instance: every call, of a
    host function or of the module's own code, whether it returns, traps,
    panics or exits, leaves the linear memory at the length it had and the
    functions and signatures as they were. *)
Theorem execute_same_shape fuel func_idx args v :
  same_shape v (snd (execute_function fuel func_idx args v)).
Proof. apply execute_keeps. Qed.

(** ** Host functions terminate *)

Definition fueled {A} (m : VM A) : Prop := forall v, fst (m v) <> Err NoFuel.

Lemma fueled_bind {A B} (m : VM A) (g : A -> VM B) :
  fueled m -> (forall a, fueled (g a)) -> fueled (m ≫= g).
Proof.
  intros Hm Hg v. specialize (Hm v). unfold mbind, M_bind.
  destruct (m v) as [[a|e| |] v']; cbn in *; [apply Hg|congruence|done|done].
Qed.

Lemma fueled_if {A} (b : bool) (m m' : VM A) : fueled m -> fueled m' -> fueled (if b then m else m').
Proof. by destruct b. Qed.

Lemma check_range_fueled off n msg : fueled (check_range off n msg).
Proof.
  intros v. unfold check_range, uadd, memory_len, mbind, M_bind, get, lift, throw, mret, M_ret.
  destruct (off + n <? 2 ^ 64); [|done]. by destruct (_ <? _).
Qed.

Lemma poke_fueled off bs : fueled (poke off bs).
Proof. intros v. unfold poke, splice, mbind, M_bind, get, lift, put. by case_decide. Qed.

(** A vector that was read lies inside the memory. *)
Lemma read_iov_inside p i v b v' :
  0 <= p -> read_iov p i v = (Ok b, v') -> i * 8 + 8 <= zlen (memory (inst v)) /\ v' = v.
Proof.
  intros Hp. unfold read_iov, check_range, uadd, memory_len, mbind, M_bind, get, lift, throw, mret, M_ret.
  destruct (p + i * 8 <? 2 ^ 64); [|done]. destruct (p + i * 8 + 8 <? 2 ^ 64); [|done].
  destruct (Z.ltb_spec (zlen (memory (inst v))) (p + i * 8 + 8)); [done|].
  destruct (_ <? 2 ^ 64); [|done]. destruct (_ <? _); [done|]. intros [= _ <-]. split; [lia|done].
Qed.

Lemma read_iov_fueled p i : fueled (read_iov p i).
Proof.
  unfold read_iov. apply fueled_bind; [intros v; unfold lift, uadd; by destruct (_ <? _)|]. intros off.
  apply fueled_bind; [apply check_range_fueled|]. intros _.
  apply fueled_bind; [done|]. intros v. apply fueled_bind; [apply check_range_fueled|done].
Qed.

Lemma write_iovs_fueled fuel fd p i n w v :
  0 <= p -> 0 <= i -> i <= zlen (memory (inst v)) < Z.of_nat fuel + i ->
  fst (write_iovs fuel fd p i n w v) <> Err NoFuel.
Proof.
  intros Hp. revert i w v. induction fuel as [|fuel IH]; intros i w v Hi0 Hi; [lia|].
  cbn [write_iovs]. destruct (n <=? i); [done|]. unfold mbind, M_bind.
  pose proof (read_iov_fueled p i v) as Hf.
  destruct (read_iov p i v) as [[b|e| |] v'] eqn:Hb; try done; [|by cbn in *; congruence].
  apply read_iov_inside in Hb as [Hin ->]; [|done].
  assert (forall v1 x, inst v1 = inst v -> fst (write_iovs fuel fd p (i + 1) n x v1) <> Err NoFuel) as Hnext.
  { intros v1 x Hv1. apply IH; rewrite ?Hv1; lia. }
  destruct ((fd =? 1) || (fd =? 2)); unfold modify, mret, M_ret, lift, u32_add;
    (destruct (_ <? 2 ^ 32); [by apply Hnext|done]).
Qed.

Lemma read_iovs_fueled fuel fd p i n r v :
  0 <= p -> 0 <= i -> i <= zlen (memory (inst v)) < Z.of_nat fuel + i ->
  fst (read_iovs fuel fd p i n r v) <> Err NoFuel.
Proof.
  intros Hp. revert i r v. induction fuel as [|fuel IH]; intros i r v Hi0 Hi; [lia|].
  cbn [read_iovs]. destruct (n <=? i); [done|]. unfold mbind, M_bind.
  pose proof (read_iov_fueled p i v) as Hf.
  destruct (read_iov p i v) as [[b|e| |] v'] eqn:Hb; try done; [|by cbn in *; congruence].
  apply read_iov_inside in Hb as [Hin ->]; [|done].
  destruct (fd =? 0); [|apply IH; lia]. unfold get, put.
  set (v1 := set_keyboard _ v). set (bs := fst (read_stdin _ _)).
  pose proof (poke_keeps (fst b) bs v1) as [Hlen _]. pose proof (poke_fueled (fst b) bs v1) as Hpk.
  destruct (poke _ _ v1) as [[?|e| |] v2]; try done; [|by cbn in *; congruence].
  unfold lift, u32_add. destruct (_ <? 2 ^ 32); [|done]. destruct (_ <? _); [done|].
  apply IH; cbn in Hlen; rewrite ?Hlen; lia.
Qed.

Lemma write_args_fueled l p i c : fueled (write_args l p i c).
Proof.
  revert i c. induction l as [|bs l IH]; intros i c; cbn [write_args]; [done|].
  apply fueled_bind; [intros v; unfold lift, uadd; by destruct (_ <? _)|]. intros e.
  apply fueled_bind; [apply check_range_fueled|]. intros _.
  apply fueled_bind; [apply poke_fueled|]. intros _. apply fueled_bind; [apply poke_fueled|]. intros _.
  apply fueled_bind; [intros v; unfold lift, uadd; by destruct (_ <? _)|]. intros q.
  apply fueled_bind; [apply check_range_fueled|]. intros _.
  apply fueled_bind; [apply poke_fueled|]. intros _. apply IH.
Qed.

Lemma arg_fueled args i : fueled (arg args i).
Proof. intros v. unfold arg, lift. by destruct (index_cases (E:=stop) args i) as [(x & -> & _)| ->]. Qed.

Lemma uarg_nonneg args i v a v' : uarg args i v = (Ok a, v') -> 0 <= a /\ v' = v.
Proof.
  unfold uarg, arg, mbind, M_bind, lift, mret, M_ret. destruct (index _ _); [|done..].
  intros [= <- <-]. split; [|done]. apply wrap_fits. lia.
Qed.

Lemma exit_current_fueled status : fueled (exit_current status).
Proof.
  intros v. unfold exit_current, mbind, M_bind, get, put, lift, throw.
  destruct (Scheduler.current_task_pid _); [|done].
  destruct (Scheduler.exit_process _ _ _); try done. by case_decide.
Qed.

(** Both loops start with enough fuel. *)
Lemma iov_host_fueled (loop : nat -> Z -> Z -> Z -> Z -> Z -> VM Z) args msg :
  (forall fuel fd p i n w v, 0 <= p -> 0 <= i -> i <= zlen (memory (inst v)) < Z.of_nat fuel + i ->
    fst (loop fuel fd p i n w v) <> Err NoFuel) ->
  fueled (fd ← arg args 0; p ← uarg args 1; n ← uarg args 2; q ← uarg args 3; v ← get;
          x ← loop (S (length (memory (inst v)))) fd p 0 n 0;
          _ ← check_range q 4 msg; _ ← poke32 q x; mret (Some 0)).
Proof.
  intros Hloop. apply fueled_bind; [apply arg_fueled|]. intros fd v. unfold mbind at 1, M_bind at 1.
  destruct (uarg args 1 v) as [[p|e| |] v1] eqn:Hp; try done.
  2:{ cbn. intros [= ->]. pose proof (fueled_bind _ (fun a => mret (wrap 64 a)) (arg_fueled args 1)) as Hu.
      specialize (Hu ltac:(done) v). unfold uarg in Hp. rewrite Hp in Hu. done. }
  apply uarg_nonneg in Hp as [Hp ->].
  match goal with |- fst (?m v) <> _ => cut (fueled m); [intros Hm; apply Hm|] end.
  assert (forall i, fueled (uarg args i)) as Hu.
  { intros i. apply fueled_bind; [apply arg_fueled|done]. }
  apply fueled_bind; [apply Hu|]. intros n. apply fueled_bind; [apply Hu|]. intros q v0.
  unfold mbind at 1, M_bind at 1, get.
  match goal with |- fst (?m v0) <> _ => enough (forall v1, v1 = v0 -> fst (m v1) <> Err NoFuel) by eauto end.
  intros v1 ->. unfold mbind at 1, M_bind at 1.
  pose proof (Hloop (S (length (memory (inst v0)))) fd p 0 n 0 v0 Hp ltac:(lia) ltac:(unfold zlen; lia)) as Hl.
  destruct (loop _ _ _ _ _ _ v0) as [[x|e| |] v2]; try done; [|by cbn in *; congruence].
  match goal with |- fst (?m v2) <> _ => cut (fueled m); [intros Hm; apply Hm|] end.
  apply fueled_bind; [apply check_range_fueled|]. intros _. by apply fueled_bind; [apply poke_fueled|].
Qed.

(** Every host function returns: the loops over I/O vectors end within
    the memory's length however many vectors the module claims to have. *)
Theorem host_functions_return module name args v :
  fst (call_import module name args v) <> Err NoFuel.
Proof.
  revert v. unfold call_import. cbv zeta.
  apply fueled_if; [apply (iov_host_fueled write_iovs), write_iovs_fueled|].
  apply fueled_if; [apply (iov_host_fueled read_iovs), read_iovs_fueled|].
  assert (forall i, fueled (uarg args i)) as Hu.
  { intros i. apply fueled_bind; [apply arg_fueled|done]. }
  apply fueled_if.
  { unfold args_sizes_get. do 2 (apply fueled_bind; [apply Hu|intros ?]).
    do 2 (apply fueled_bind; [apply check_range_fueled|intros ?]).
    do 2 (apply fueled_bind; [apply poke_fueled|intros ?]). done. }
  apply fueled_if.
  { unfold args_get. do 2 (apply fueled_bind; [apply Hu|intros ?]).
    by apply fueled_bind; [apply write_args_fueled|]. }
  apply fueled_if; [|done]. unfold proc_exit. apply fueled_bind; [apply arg_fueled|]. intros s.
  by apply fueled_bind; [apply exit_current_fueled|].
Qed.

(** ** More fuel does not change a result *)

(** [below m m']: where [m] does not run out of fuel, [m'] does the same. *)
Definition below {A} (m m' : VM A) : Prop := forall v, fst (m v) <> Err NoFuel -> m' v = m v.

Lemma below_refl {A} (m : VM A) : below m m.
Proof. by intros v. Qed.

Lemma below_bind {A B} (m m' : VM A) (g g' : A -> VM B) :
  below m m' -> (forall a, below (g a) (g' a)) -> below (m ≫= g) (m' ≫= g').
Proof.
  intros Hm Hg v. specialize (Hm v). unfold mbind, M_bind.
  destruct (m v) as [[a|e| |] v'] eqn:Hv; cbn [fst] in *; intros Hn.
  - rewrite Hm by done. by apply Hg.
  - rewrite Hm by congruence. done.
  - rewrite Hm by done. done.
  - rewrite Hm by done. done.
Qed.

Lemma below_if {A} (b : bool) (m1 m2 m1' m2' : VM A) :
  below m1 m1' -> below m2 m2' -> below (if b then m1 else m2) (if b then m1' else m2').
Proof. by destruct b. Qed.

Lemma op_call_below call call' code f :
  (forall i args, below (call i args) (call' i args)) -> below (op_call call code f) (op_call call' code f).
Proof.
  intros Hc. unfold op_call. do 4 (apply below_bind; [apply below_refl|intros ?]).
  apply below_if; [apply below_refl|]. apply below_bind; [apply Hc|]. intros. apply below_refl.
Qed.

Lemma step_below call call' code f :
  (forall i args, below (call i args) (call' i args)) -> below (step call code f) (step call' code f).
Proof.
  intros Hc. unfold step, step_op. apply below_bind; [apply below_refl|]. intros o.
  repeat (apply below_if; [first [apply below_refl|apply below_bind; [by apply op_call_below|intros; apply below_refl]]|]).
  apply below_refl.
Qed.

Lemma execute_below n :
  (forall m i args, (n <= m)%nat -> below (execute_function n i args) (execute_function m i args)) /\
  (forall m code f, (n <= m)%nat -> below (run n code f) (run m code f)).
Proof.
  induction n as [|n [IHe IHr]]; split; intros m; intros; try (by intros v Hv; destruct Hv);
    (destruct m as [|m]; [lia|]); cbn [execute_function run].
  - do 2 (apply below_bind; [apply below_refl|intros ?]). case_match; [apply below_refl|].
    apply IHr. lia.
  - apply below_if; [apply below_refl|]. apply below_bind.
    + apply step_below. intros. apply IHe. lia.
    + intros [f'|]; [apply IHr; lia|apply below_refl].
Qed.

End vm.

End WasmVm.
