(* ===== verification/WasmSpec.v ===== *)
(** * The interpreter against the semantics of WebAssembly

    Structured instructions, the encoding of the WebAssembly specification,
    and an evaluator that follows the specification: a block runs on an
    operand stack of its own, a branch leaves the enclosing blocks, a branch
    to a loop starts it again.  [sim] relates the byte interpreter of
    [WasmVm] to it, for code that passes [check]: a validator of stack
    heights, restricted to the control flow the interpreter gets right
    (blocks that are not branch targets, loops, and branches to loops with
    nothing left on the operand stack).  The lemmas at the end show how the
    excluded constructs go wrong. *)

From S2P Require Import Prelude Bytes Abi Path Process Scheduler WasmBin WasmVm.
Import WasmBin WasmVm.

Module WasmSpec.

(** ** Instructions and their encoding *)

Inductive instr :=
| Nop
| Const (v : Z)
| LocalGet (i : Z)
| LocalSet (i : Z)
| Add
| Sub
| Mul
| Drop
| Store (align offset : Z)
| Call (f : Z)
| Block (t : Z) (body : list instr)
| Loop (t : Z) (body : list instr)
| If (t : Z) (thn : list instr) (els : option (list instr))
| Br (l : nat)
| BrIf (l : nat).

Fixpoint encode (i : instr) : list Z :=
  match i with
  | Nop => [0x01]
  | Const v => 0x41 :: sleb v
  | LocalGet i => 0x20 :: uleb i
  | LocalSet i => 0x21 :: uleb i
  | Add => [0x6A]
  | Sub => [0x6B]
  | Mul => [0x6C]
  | Drop => [0x1A]
  | Store a o => 0x36 :: uleb a ++ uleb o
  | Call f => 0x10 :: uleb f
  | Block t b => 0x02 :: t :: flat_map encode b ++ [0x0B]
  | Loop t b => 0x03 :: t :: flat_map encode b ++ [0x0B]
  | If t b None => 0x04 :: t :: flat_map encode b ++ [0x0B]
  | If t b (Some e) => 0x04 :: t :: flat_map encode b ++ 0x05 :: flat_map encode e ++ [0x0B]
  | Br l => 0x0C :: uleb (Z.of_nat l)
  | BrIf l => 0x0D :: uleb (Z.of_nat l)
  end.

Definition encode_seq (prog : list instr) : list Z := flat_map encode prog.

(** A function of a module; the code of a defined one ends with [end]. *)
Inductive func :=
| FImport (module name : list Z) (type_idx : Z)
| FDefined (type_idx : Z) (locals_decl : list WasmLocalDecl) (body : list instr).

Definition compile (f : func) : WasmFunction :=
  match f with
  | FImport m n t => Imported m n t
  | FDefined t ds b => Internal t ds (encode_seq b ++ [0x0B])
  end.

(** A block type is empty or one value. *)
Definition arity (t : Z) : nat := if t =? 0x40 then 0%nat else 1%nat.

(** ** The evaluator *)

(** A sequence runs to its end or branches to the [l]-th enclosing block. *)
Inductive out := Next (ls st : list Z) | Jump (l : nat) (ls st : list Z).

Section spec.
Context {K : Type} (read_stdin : Z -> K -> list Z * K).
Context (funcs : list func) (sigs : list (Z * Z)).

Abbreviation VM := (M (Vm K) stop) (only parsing).

Definition underflow {A} : VM A := throw (Trap "Operand stack underflow").

(** The trap of a store whose address, sign-extended to 64 bits, overflows
    when the offset and the width are added. *)
Definition address_overflow : string := "Out-of-bounds memory access at an address of 2 GiB or more".

(** A store at the unsigned address plus the offset. *)
Definition store32 (addr off x : Z) : VM unit :=
  v ← get;
  let ea := wrap 32 addr + off in
  if zlen (memory (inst v)) <? ea + 4
  then throw (Trap (if (2 ^ 31 <=? wrap 32 addr) && (2 ^ 32 <=? ea + 4) then address_overflow else "Out-of-bounds memory access"))
  else put (set_memory (upd ea (le_bytes 4 (wrap 32 x)) (memory (inst v))) v).

(** Instructions without control flow. *)
Definition basic (i : instr) (ls st : list Z) : VM (list Z * list Z) :=
  match i, st with
  | Nop, _ => mret (ls, st)
  | Const c, _ => mret (ls, c :: st)
  | LocalGet i, _ => match ls !! Z.to_nat i with Some x => mret (ls, x :: st) | None => underflow end
  | LocalSet i, x :: st => mret (<[Z.to_nat i := x]> ls, st)
  | Add, b :: a :: st => mret (ls, sint 32 (a + b) :: st)
  | Sub, b :: a :: st => mret (ls, sint 32 (a - b) :: st)
  | Mul, b :: a :: st => mret (ls, sint 32 (a * b) :: st)
  | Drop, _ :: st => mret (ls, st)
  | Store _ o, x :: a :: st => _ ← store32 a o x; mret (ls, st)
  | _, _ => underflow
  end.

Definition sig_of (fn : func) : option (Z * Z) :=
  match fn with FImport _ _ t | FDefined t _ _ => if decide (0 <= t) then sigs !! Z.to_nat t else None end.

Fixpoint eval (fuel : nat) (prog : list instr) (ls st : list Z) {struct fuel} : VM out :=
  match fuel with
  | O => throw NoFuel
  | S fuel =>
      match prog with
      | [] => mret (Next ls st)
      | Block t b :: rest =>
          r ← eval fuel b ls [];
          match r with
          | Next ls st' => eval fuel rest ls (st' ++ st)
          | Jump O ls st' => eval fuel rest ls (take (arity t) st' ++ st)
          | Jump (S l) ls st' => mret (Jump l ls st')
          end
      | Loop t b :: rest =>
          r ← eval fuel b ls [];
          match r with
          | Next ls st' => eval fuel rest ls (st' ++ st)
          | Jump O ls _ => eval fuel prog ls st
          | Jump (S l) ls st' => mret (Jump l ls st')
          end
      | If t b e :: rest =>
          match st with
          | c :: st => eval fuel (Block t (if negb (c =? 0) then b else default [] e) :: rest) ls st
          | [] => underflow
          end
      | Br l :: _ => mret (Jump l ls st)
      | BrIf l :: rest =>
          match st with
          | c :: st => if negb (c =? 0) then mret (Jump l ls st) else eval fuel rest ls st
          | [] => underflow
          end
      | Call f :: rest =>
          match (fn ← funcs !! Z.to_nat f; sig_of fn) with
          | Some (p, _) =>
              if zlen st <? p then underflow
              else
                r ← call fuel f (rev (take (Z.to_nat p) st));
                let st := drop (Z.to_nat p) st in
                eval fuel rest ls (match r with Some x => x :: st | None => st end)
          | None => underflow
          end
      | i :: rest => r ← basic i ls st; eval fuel rest (fst r) (snd r)
      end
  end
with call (fuel : nat) (f : Z) (args : list Z) {struct fuel} : VM (option Z) :=
  match fuel with
  | O => throw NoFuel
  | S fuel =>
      match funcs !! Z.to_nat f with
      | None => underflow
      | Some (FImport m n _) => call_import read_stdin m n args
      | Some (FDefined _ ds body) =>
          r ← eval fuel body (args ++ (ds ≫= fun d => zeros (count d))) [];
          mret (last match r with Next _ st => st | Jump _ _ st => st end)
      end
  end.

(** ** Validation *)

(** A label: is it a loop, and how many operands does the sequence around the
    block hold when the block starts. *)
Abbreviation label := (bool * nat)%type.

(** A branch may go to label [l]: a loop, with no operands left in between. *)
Definition can_branch (L : list label) (l : nat) : bool :=
  match L !! l with
  | Some (true, _) => (Z.of_nat l <? 2 ^ 32) && forallb (fun x => snd x =? 0)%nat (take l L)
  | _ => false
  end.

(** Sequences, given the check of an instruction: the height at the end, or
    [None] when the end is not reached; nothing may follow a branch. *)
Definition check_with (c : list label -> nat -> instr -> option (option nat)) :=
  fix seq (L : list label) (h : nat) (prog : list instr) : option (option nat) :=
    match prog with
    | [] => Some (Some h)
    | i :: rest =>
        match c L h i with
        | Some (Some h') => seq L h' rest
        | Some None => match rest with [] => Some None | _ => None end
        | None => None
        end
    end.

Definition ends_at (h : nat) (r : option (option nat)) : bool :=
  match r with Some (Some h') => (h' =? h)%nat | Some None => true | None => false end.

Definition pops (n h : nat) (h' : nat) : option (option nat) :=
  if (n <=? h)%nat then Some (Some (h - n + h')%nat) else None.

Definition guard_ {A} (b : bool) (x : option A) : option A := if b then x else None.

Section check.
Context (nlocals : Z).

Fixpoint check1 (L : list label) (h : nat) (i : instr) {struct i} : option (option nat) :=
  match i with
  | Nop => pops 0 h 0
  | Const v => guard_ ((- 2 ^ 31 <=? v) && (v <? 2 ^ 31)) (pops 0 h 1)
  | LocalGet i => guard_ ((0 <=? i) && (i <? nlocals) && (i <? 2 ^ 32)) (pops 0 h 1)
  | LocalSet i => guard_ ((0 <=? i) && (i <? nlocals) && (i <? 2 ^ 32)) (pops 1 h 0)
  | Add | Sub | Mul => pops 2 h 1
  | Drop => pops 1 h 0
  | Store a o => guard_ ((0 <=? a) && (a <? 2 ^ 32) && (0 <=? o) && (o <? 2 ^ 32)) (pops 2 h 0)
  | Call f =>
      guard_ ((0 <=? f) && (f <? zlen funcs) && (f <? 2 ^ 32))
        match (fn ← funcs !! Z.to_nat f; sig_of fn) with
        | Some (p, r) => guard_ ((0 <=? p) && ((r =? 0) || (r =? 1))) (pops (Z.to_nat p) h (Z.to_nat r))
        | None => None
        end
  | Block t b => guard_ (ends_at (arity t) (check_with check1 ((false, h) :: L) 0 b)) (pops 0 h (arity t))
  | Loop t b => guard_ (ends_at (arity t) (check_with check1 ((true, h) :: L) 0 b)) (pops 0 h (arity t))
  | If _ _ _ => None
  | Br l => guard_ ((h =? 0)%nat && can_branch L l) (Some None)
  | BrIf l => guard_ ((h =? 1)%nat && can_branch L l) (pops 1 h 0)
  end.

Definition check : list label -> nat -> list instr -> option (option nat) := check_with check1.

End check.

(** A function's code is as long as an offset can be, and leaves the results
    its signature declares; a host function has one result. *)
Definition func_ok (fn : func) : bool :=
  match fn, sig_of fn with
  | FImport _ _ _, Some (_, r) => r =? 1
  | FDefined _ ds b, Some (p, r) =>
      (0 <=? p) && ((r =? 0) || (r =? 1)) && forallb (fun d => 0 <=? count d) ds && (zlen (encode_seq b) + 1 <? 2 ^ 64)
      && ends_at (Z.to_nat r) (check (p + foldr (fun d n => count d + n) 0 ds) [] 0 b)
  | _, None => false
  end.

Definition module_valid : bool := forallb func_ok funcs.

(** ** The end of a block is found *)

(** Strong induction on instructions. *)
Fixpoint instr_ind' (P : instr -> Prop)
    (Hblock : forall t b, Forall P b -> P (Block t b)) (Hloop : forall t b, Forall P b -> P (Loop t b))
    (Hother : forall i, match i with Block _ _ | Loop _ _ => False | _ => True end -> P i) (i : instr) : P i :=
  let go := fix go (l : list instr) : Forall P l :=
    match l with
    | [] => Forall_nil_2 P
    | i :: l => Forall_cons_2 P i l (instr_ind' P Hblock Hloop Hother i) (go l)
    end in
  match i with
  | Block t b => Hblock t b (go b)
  | Loop t b => Hloop t b (go b)
  | i => Hother i I
  end.

(** The scan steps over the bytes [bs] without changing its depth. *)
Definition passes (bs : list Z) : Prop := forall pre post d fuel,
  zlen (pre ++ bs ++ post) < 2 ^ 64 -> 1 <= d -> (length (bs ++ post) <= fuel)%nat ->
  exists fuel', (length post <= fuel')%nat /\
    find_end_loop fuel (pre ++ bs ++ post) d (zlen pre)
    = find_end_loop fuel' (pre ++ bs ++ post) d (zlen pre + zlen bs).

Lemma passes_nil : passes [].
Proof. intros pre post d fuel _ _ Hf. exists fuel. split; [done|]. f_equal. unfold zlen. simpl. lia. Qed.

Lemma passes_app bs1 bs2 : passes bs1 -> passes bs2 -> passes (bs1 ++ bs2).
Proof.
  intros H1 H2 pre post d fuel Hlen Hd Hf. rewrite <-app_assoc in *.
  destruct (H1 pre (bs2 ++ post) d fuel Hlen Hd Hf) as (f1 & Hf1 & ->).
  specialize (H2 (pre ++ bs1) post d f1). rewrite <-app_assoc, (zlen_app pre bs1) in H2.
  destruct (H2 Hlen Hd Hf1) as (f2 & Hf2 & ->). exists f2. split; [done|]. f_equal. rewrite zlen_app. lia.
Qed.

Lemma passes_skip b bs :
  b <> 0x02 -> b <> 0x03 -> b <> 0x04 -> b <> 0x0B ->
  reads skip_instruction_args (b :: bs) tt -> passes (b :: bs).
Proof.
  intros H2 H3 H4 HB Hr pre post d fuel Hlen Hd Hf. destruct fuel as [|fuel]; [simpl in Hf; lia|].
  exists fuel. split; [simpl in Hf; rewrite length_app in Hf; lia|].
  cbn [find_end_loop]. specialize (Hr pre post Hlen). cbn [app] in *.
  rewrite more_data, index_here. unfold mbind, res_bind.
  rewrite !(proj2 (Z.eqb_neq b _)) by done. cbn [orb]. by rewrite Hr.
Qed.

(** A block: one level deeper for its body, and back at its [end]. *)
Lemma passes_block o t bs :
  o = 0x02 \/ o = 0x03 -> passes bs -> passes (o :: t :: bs ++ [0x0B]).
Proof.
  intros Ho Hb pre post d fuel Hlen Hd Hf. destruct fuel as [|fuel]; [simpl in Hf; lia|].
  cbn [app] in *. rewrite <-app_assoc in *. cbn [app] in *.
  specialize (Hb (pre ++ [o; t]) (0x0B :: post) (d + 1) fuel).
  rewrite <-app_assoc in Hb. cbn [app] in Hb. destruct (Hb Hlen ltac:(lia)) as (f1 & Hf1 & Heq).
  { simpl in Hf. lia. }
  destruct f1 as [|f1]; [simpl in Hf1; lia|]. exists f1. split; [simpl in Hf1; lia|].
  cbn [find_end_loop]. rewrite more_data, index_here. unfold mbind, res_bind.
  replace ((o =? 2) || (o =? 3) || (o =? 4)) with true by (by destruct Ho as [->| ->]).
  pose proof (zlen_nonneg bs). pose proof (zlen_nonneg post). pose proof (zlen_nonneg pre).
  destruct (Z.ltb_spec (zlen pre + 1) (zlen (pre ++ o :: t :: bs ++ 0x0B :: post))) as [_|Hx].
  2:{ repeat rewrite ?zlen_app, ?zlen_cons in Hx. lia. }
  rewrite zlen_app in Heq. change (zlen [o; t]) with 2 in Heq.
  replace (zlen pre + 1 + 1) with (zlen pre + 2) by lia. rewrite Heq. cbn [find_end_loop].
  replace (pre ++ o :: t :: bs ++ 0x0B :: post) with ((pre ++ o :: t :: bs) ++ 0x0B :: post)
    by (by rewrite <-app_assoc).
  replace (zlen pre + 2 + zlen bs) with (zlen (pre ++ o :: t :: bs)) by (rewrite zlen_app, !zlen_cons; lia).
  rewrite more_data, index_here. unfold mbind, res_bind. cbn [Z.eqb Pos.eqb orb].
  destruct (Z.eqb_spec (d + 1 - 1) 0); [lia|]. f_equal; [lia|].
  repeat rewrite ?zlen_app, ?zlen_cons. change (@zlen Z []) with 0. lia.
Qed.

Lemma skip_leb_reads msg v : fits 64 v -> reads (fun d => skip_leb d msg) (uleb v) tt.
Proof. intros Hv. apply (reads_last (fun d => leb d msg) (fun _ => tt) _ v). by apply leb_reads. Qed.

Lemma skip_op_reads b bs :
  reads (fun d => skip_operands d b) bs tt -> reads skip_instruction_args (b :: bs) tt.
Proof. intros H. apply (reads_more _ (fun _ => mret tt)), (reads_byte (fun x d => skip_operands d x)), H. Qed.

Lemma skip_const_reads v : - 2 ^ 63 <= v < 2 ^ 63 -> reads (fun d => skip_operands d 0x41) (sleb v) tt.
Proof.
  intros Hv. apply (reads_last (fun d => map_err _ (read_leb128_signed d)) (fun _ => tt) _ v).
  intros pre post Hlen. unfold map_err. by rewrite sleb_reads.
Qed.

Lemma guard_Some {A} b (x : option A) y : guard_ b x = Some y -> b = true /\ x = Some y.
Proof. by destruct b. Qed.

Ltac guarded H :=
  lazymatch type of H with guard_ _ _ = _ => let G := fresh "H" in apply guard_Some in H as [G H] end.

(** A checked branch has a label that can be written. *)
Lemma can_branch_fits L l : can_branch L l = true -> fits 64 (Z.of_nat l).
Proof.
  unfold can_branch. destruct (L !! l) as [[[] ?]|]; try done.
  rewrite andb_true_iff, Z.ltb_lt. unfold fits. lia.
Qed.

Lemma passes_seq nl L h prog r :
  Forall (fun i => forall L h r, check1 nl L h i = Some r -> passes (encode i)) prog ->
  check nl L h prog = Some r -> passes (encode_seq prog).
Proof.
  intros Hi. revert L h r. induction Hi as [|i prog Hi _ IH]; intros L h r Hc; [apply passes_nil|].
  cbn in Hc. destruct (check1 nl L h i) as [[h'|]|] eqn:Hc1; [| |done].
  - apply passes_app; [by eapply Hi|by eapply IH].
  - destruct prog; [|done]. apply passes_app; [by eapply Hi|apply passes_nil].
Qed.

Lemma ends_at_Some h r : ends_at h r = true -> exists x, r = Some x.
Proof. destruct r; [by eauto|done]. Qed.

Lemma passes_instr nl L h i r : check1 nl L h i = Some r -> passes (encode i).
Proof.
  revert L h r. induction i as [t b IH|t b IH|i Hi] using instr_ind'; intros L h r Hc.
  - cbn [check1] in Hc. guarded Hc. apply ends_at_Some in H as [x Hx].
    apply passes_block; [by left|]. by eapply passes_seq.
  - cbn [check1] in Hc. guarded Hc. apply ends_at_Some in H as [x Hx].
    apply passes_block; [by right|]. by eapply passes_seq.
  - destruct i; cbn [check1] in Hc; try done; try guarded Hc; rewrite ?andb_true_iff, ?Z.leb_le, ?Z.ltb_lt in *;
      (apply passes_skip; [lia..|]); apply skip_op_reads;
      unfold skip_operands; cbn [Z.eqb Pos.eqb orb];
      lazymatch goal with
      | |- reads _ [] _ => apply reads_ret
      | |- reads (fun d => skip_leb d _) (uleb (Z.of_nat _)) _ => eapply skip_leb_reads, can_branch_fits, H
      | |- reads (fun d => skip_leb d _) _ _ => apply skip_leb_reads; unfold fits; lia
      | |- _ => idtac
      end.
    + apply skip_const_reads. lia.
    + eapply (reads_bind (fun d => skip_leb d _)); apply skip_leb_reads; unfold fits; lia.
Qed.

Lemma passes_prog nl L h prog r : check nl L h prog = Some r -> passes (encode_seq prog).
Proof. apply passes_seq, Forall_forall. intros. by eapply passes_instr. Qed.

Lemma find_end_ok nl L h prog r pre post :
  check nl L h prog = Some r -> zlen (pre ++ encode_seq prog ++ 0x0B :: post) < 2 ^ 64 ->
  find_matching_end (pre ++ encode_seq prog ++ 0x0B :: post) (zlen pre)
  = Ok (zlen pre + zlen (encode_seq prog)).
Proof.
  intros Hc Hlen. unfold find_matching_end.
  destruct (passes_prog nl L h prog r Hc pre (0x0B :: post) 1
    (length (pre ++ encode_seq prog ++ 0x0B :: post)) Hlen ltac:(lia)) as (fuel & Hf & ->).
  { rewrite !length_app. lia. }
  destruct fuel as [|fuel]; [simpl in Hf; lia|]. cbn [find_end_loop].
  rewrite app_assoc, <-zlen_app, more_data, index_here. done.
Qed.

(** ** Runs of the interpreter *)

Abbreviation exec := (execute_function read_stdin).
Abbreviation run := (run read_stdin).
Abbreviation step := (step (K:=K)).

(** The run from [f] ends, and its result satisfies [Q]. *)
Definition ends (code : list Z) (f : Frame) (v : Vm K) (Q : res stop (option Z) * Vm K -> Prop) : Prop :=
  exists m, fst (run m code f v) <> Err NoFuel /\ Q (run m code f v).

Lemma run_fuel_more n m code f v : (n <= m)%nat -> fst (run n code f v) <> Err NoFuel -> run m code f v = run n code f v.
Proof. intros Hle H. by apply (execute_below read_stdin n). Qed.

Lemma exec_more n m i args v :
  (n <= m)%nat -> fst (exec n i args v) <> Err NoFuel -> exec m i args v = exec n i args v.
Proof. intros Hle H. by apply (execute_below read_stdin n). Qed.

Lemma step_more n m code f v :
  (n <= m)%nat -> fst (step (exec n) code f v) <> Err NoFuel -> step (exec m) code f v = step (exec n) code f v.
Proof. intros Hle H. apply step_below; [|done]. intros. by apply (execute_below read_stdin n). Qed.

Lemma run_S n code f v :
  pc f < zlen code -> run (S n) code f v
  = match step (exec n) code f v with
    | (Ok (Some f'), v') => run n code f' v'
    | (Ok None, v') => (Ok (result_of f), v')
    | (Err e, v') => (Err e, v')
    | (Panic, v') => (Panic, v')
    | (Fault, v') => (Fault, v')
    end.
Proof.
  intros Hpc. cbn [WasmVm.run]. destruct (Z.leb_spec (zlen code) (pc f)); [lia|].
  unfold mbind, M_bind. by destruct (step _ _ _ _) as [[[?|]| | |] ?].
Qed.

(** A step that succeeds with some fuel. *)
Lemma step_to k code f v f' v' Q :
  pc f < zlen code -> step (exec k) code f v = (Ok (Some f'), v') -> ends code f' v' Q -> ends code f v Q.
Proof.
  intros Hpc Hs (m & Hm & HQ). exists (S (max k m)). rewrite run_S by done.
  rewrite (step_more k) by (lia || by rewrite Hs). rewrite Hs.
  rewrite (run_fuel_more m) by (done || lia). done.
Qed.

(** A step that ends the run. *)
Lemma step_end k code f v r v' (Q : res stop (option Z) * Vm K -> Prop) :
  pc f < zlen code -> step (exec k) code f v = (r, v') ->
  match r with
  | Ok (Some _) => False
  | Ok None => Q (Ok (result_of f), v')
  | Err e => e <> NoFuel /\ Q (Err e, v')
  | Panic => Q (Panic, v')
  | Fault => Q (Fault, v')
  end -> ends code f v Q.
Proof.
  intros Hpc Hs HQ. exists (S k). rewrite run_S, Hs by done.
  destruct r as [[f'|]|e| |]; try done. destruct HQ. split; [cbn; congruence|done].
Qed.

(** A step that does not depend on the fuel can be taken back. *)
Lemma step_back code f v f' v' Q :
  pc f < zlen code -> (forall k, step (exec k) code f v = (Ok (Some f'), v')) ->
  ends code f v Q -> ends code f' v' Q.
Proof.
  intros Hpc Hs (m & Hm & HQ). destruct m as [|m]; [done|].
  rewrite run_S, Hs in Hm by done. rewrite run_S, Hs in HQ by done. by exists m.
Qed.

(** The interpreter fails where the evaluator does, and in the same way, but
    that it panics where the address of a store overflows. *)
Definition agree_fail {A} (r : res stop A) (v : Vm K) {B} (y : res stop B * Vm K) : Prop :=
  snd y = v /\
  match r with
  | Ok _ | Err NoFuel => False
  | Err Gone => fst y = Err Gone
  | Err (Trap msg) => match fst y with Err (Trap _) => True | Panic => msg = address_overflow | _ => False end
  | Panic => fst y = Panic
  | Fault => fst y = Fault
  end.

Lemma agree_fail_bind {A B C} (r : res stop A) v v' (m : VM B) (k : B -> VM C) :
  agree_fail r v' (m v) -> agree_fail r v' ((x ← m; k x) v).
Proof.
  unfold agree_fail, mbind, M_bind. destruct r as [|[]| |], (m v) as [[|[]| |] v1]; cbn; intros []; try done;
    by split.
Qed.

(** The instance is the compiled module, with a memory of at most 2 GiB. *)
Definition good (v : Vm K) : Prop :=
  functions (inst v) = compile <$> funcs /\ type_sigs (inst v) = sigs /\ zlen (memory (inst v)) <= 2 ^ 31.

Lemma same_shape_good v v' : same_shape v v' -> good v -> good v'.
Proof. intros (H1 & H2 & H3) (H4 & H5 & H6). split_and!; [congruence|congruence|lia]. Qed.

(** ** Single instructions *)

Lemma operand_at pre n post msg (v : Vm K) :
  fits 64 n -> zlen (pre ++ uleb n ++ post) < 2 ^ 64 ->
  operand (pre ++ uleb n ++ post) (zlen pre) msg v = (Ok (n, zlen pre + zlen (uleb n)), v).
Proof. intros Hn Hlen. unfold operand. by rewrite leb_reads. Qed.

Lemma operand_ok pre o n bs post msg (v : Vm K) :
  fits 64 n -> zlen (pre ++ (o :: uleb n ++ bs) ++ post) < 2 ^ 64 ->
  operand (pre ++ (o :: uleb n ++ bs) ++ post) (zlen pre + 1) msg v
  = (Ok (n, zlen pre + 1 + zlen (uleb n)), v).
Proof.
  intros Hn Hlen. pose proof (operand_at (pre ++ [o]) n (bs ++ post) msg v Hn) as H.
  rewrite <-app_assoc, zlen_snoc in H. cbn [app] in *. rewrite <-app_assoc in *. by apply H.
Qed.

Lemma step_at call o bs pre post st cs ls (v : Vm K) :
  step call (pre ++ (o :: bs) ++ post) (mkFrame (zlen pre) st cs ls) v
  = step_op call (pre ++ (o :: bs) ++ post) o (mkFrame (zlen pre + 1) st cs ls) v.
Proof.
  unfold WasmVm.step, mbind, M_bind, lift. cbn [pc]. change ((o :: bs) ++ post) with (o :: (bs ++ post)).
  by rewrite index_here.
Qed.

(** The values of the machine. *)
Definition i32 (x : Z) : Prop := - 2 ^ 31 <= x < 2 ^ 31.

Lemma sint_i32 x : i32 (sint 32 x).
Proof.
  unfold i32, sint. pose proof (wrap_fits 32 x ltac:(lia)) as H. unfold fits in H.
  change (2 ^ (32 - 1)) with (2 ^ 31). destruct (Z.ltb_spec (wrap 32 x) (2 ^ 31)); lia.
Qed.

(** Locals and operands: how many, and all of them values. *)
Definition fine (nl : Z) (h : nat) (ls st : list Z) : Prop :=
  zlen ls = nl /\ length st = h /\ Forall i32 ls /\ Forall i32 st.

Definition is_basic (i : instr) : Prop :=
  match i with
  | Nop | Const _ | LocalGet _ | LocalSet _ | Add | Sub | Mul | Drop | Store _ _ => True
  | _ => False
  end.

Lemma pops_Some n h k h' : pops n h k = Some (Some h') -> (n <= h)%nat /\ h' = (h - n + k)%nat.
Proof. unfold pops. destruct (Nat.leb_spec n h); [|done]. by intros [= <-]. Qed.

Lemma pops_reach n h k : pops n h k <> Some None.
Proof. unfold pops. by destruct (n <=? h)%nat. Qed.

Ltac heights H := apply pops_Some in H as [? ->].

(** Reduce the frame operations. *)
Ltac tidy := unfold lift, trap, mret, M_ret, with_stack, goto; cbn [pc stack control locals fst snd app].

(** What an instruction without control flow does in both. *)
Definition basic_agrees (call : Z -> list Z -> VM (option Z)) (nl : Z) (h' : nat) (pre post : list Z) (i : instr) (ls st below : list Z)
    (cs : list ControlBlock) (v : Vm K) : Prop :=
  let y := step call (pre ++ encode i ++ post) (mkFrame (zlen pre) (st ++ below) cs ls) v in
  match basic i ls st v with
  | (Ok x, v') =>
      y = (Ok (Some (mkFrame (zlen pre + zlen (encode i)) (snd x ++ below) cs (fst x))), v') /\
      fine nl h' (fst x) (snd x) /\ good v'
  | (r, v') => agree_fail r v' y
  end.

Lemma binary_agrees g o call nl pre post ls st below cs v i msg :
  good v -> fine nl (length st) ls st -> (2 <= length st)%nat -> encode i = [o] ->
  (forall f, step_op call (pre ++ [o] ++ post) o f = f' ← op_binary g msg f; mret (Some f')) ->
  (forall a b s, basic i ls (b :: a :: s) = mret (ls, sint 32 (g a b) :: s)) ->
  basic_agrees call nl (length st - 2 + 1) pre post i ls st below cs v.
Proof.
  intros Hv (Hls & _ & Hl & Hf) Hst He Hs Hb. destruct st as [|b [|a st]]; [simpl in Hst; lia..|].
  unfold basic_agrees. rewrite Hb, He. cbn [mret M_ret]. rewrite step_at, Hs.
  rewrite !Forall_cons in Hf. destruct Hf as (_ & _ & Hf).
  split_and!; [done| |done]. split_and!; [done|simpl; lia|done|]. constructor; [apply sint_i32|done].
Qed.

(** An address as the interpreter computes it, from the sign-extended [i32]. *)
Lemma store_address x a o (v : Vm K) :
  zlen (memory (inst v)) <= 2 ^ 31 -> 0 <= o < 2 ^ 32 -> - 2 ^ 31 <= a < 2 ^ 31 ->
  let y := (t ← lift (uadd (wrap 64 a) o); _ ← check_range t 4 "Memory store out of bounds"; poke32 t x) v in
  match store32 a o x v with
  | (Ok _, v') => y = (Ok tt, v')
  | (r, v') => agree_fail r v' y
  end.
Proof.
  intros Hm Ho Ha. unfold store32, check_range, memory_len, poke32, poke, uadd, splice, mbind, M_bind, get, lift, put, throw, mret, M_ret.
  pose proof (zlen_nonneg (memory (inst v))) as Hz.
  destruct (decide (0 <= a)) as [Hpos|Hneg].
  - assert (wrap 64 a = a) as -> by (apply wrap_small; unfold fits; lia).
    assert (wrap 32 a = a) as -> by (apply wrap_small; unfold fits; lia).
    destruct (Z.ltb_spec (a + o) (2 ^ 64)); [|lia]. destruct (Z.ltb_spec (a + o + 4) (2 ^ 64)); [|lia].
    destruct (Z.ltb_spec (zlen (memory (inst v))) (a + o + 4)); [done|].
    rewrite decide_True by (rewrite zlen_le_bytes; lia). done.
  - assert (wrap 64 a = a + 2 ^ 64) as ->.
    { unfold wrap. rewrite <-(Z.mod_add a 1) by lia. rewrite Z.mod_small; lia. }
    assert (wrap 32 a = a + 2 ^ 32) as ->.
    { unfold wrap. rewrite <-(Z.mod_add a 1) by lia. rewrite Z.mod_small; lia. }
    destruct (Z.ltb_spec (zlen (memory (inst v))) (a + 2 ^ 32 + o + 4)); [|lia].
    destruct (Z.leb_spec (2 ^ 31) (a + 2 ^ 32)); [|lia]. cbn [andb].
    destruct (Z.ltb_spec (a + 2 ^ 64 + o) (2 ^ 64)); [|by destruct (Z.leb_spec (2 ^ 32) (a + 2 ^ 32 + o + 4)); [|lia]].
    destruct (Z.ltb_spec (a + 2 ^ 64 + o + 4) (2 ^ 64)); [|by destruct (Z.leb_spec (2 ^ 32) (a + 2 ^ 32 + o + 4)); [|lia]].
    destruct (Z.ltb_spec (zlen (memory (inst v))) (a + 2 ^ 64 + o + 4)); [done|lia].
Qed.

Lemma store32_shape a o x (v : Vm K) : 0 <= o -> same_shape v (snd (store32 a o x v)).
Proof.
  intros Ho. unfold store32, mbind, M_bind, get, put, throw. cbv zeta. pose proof (wrap_fits 32 a ltac:(lia)) as [Ha _].
  destruct (Z.ltb_spec (zlen (memory (inst v))) (wrap 32 a + o + 4)); [done|].
  split_and!; [unfold set_memory; cbn [inst memory snd]|done|done]. apply zlen_upd; rewrite ?zlen_le_bytes; lia.
Qed.

Lemma op_store_eq pre a o post x b st cs ls (v : Vm K) :
  fits 64 a -> fits 64 o -> zlen (pre ++ (0x36 :: uleb a ++ uleb o) ++ post) < 2 ^ 64 ->
  op_store (pre ++ (0x36 :: uleb a ++ uleb o) ++ post) (mkFrame (zlen pre + 1) (x :: b :: st) cs ls) v
  = (_ ← (t ← lift (uadd (wrap 64 b) o); _ ← check_range t 4 "Memory store out of bounds"; poke32 t x);
     mret (mkFrame (zlen pre + zlen (0x36 :: uleb a ++ uleb o)) st cs ls)) v.
Proof.
  intros Ha Ho Hlen. unfold op_store. cbn [pc stack]. unfold mbind at 1, M_bind at 1.
  rewrite (operand_ok pre 0x36 a (uleb o) post) by done. cbn [snd]. unfold mbind at 1, M_bind at 1.
  pose proof (operand_at (pre ++ 0x36 :: uleb a) o post "Failed to read store offset" v Ho) as Hoff.
  rewrite (zlen_app pre (0x36 :: uleb a)), (zlen_cons 0x36), Z.add_assoc in Hoff.
  rewrite <-!app_assoc in Hoff. cbn [app] in *. rewrite <-!app_assoc in *. rewrite Hoff by done.
  unfold pop, mbind, M_bind, mret, M_ret, lift. tidy.
  destruct (uadd _ _) as [t0| | |]; [|done..]. destruct (check_range _ _ _ _) as [[]]; [|done..].
  destruct (poke32 _ _ _) as [[]]; [|done..]. rewrite zlen_cons, zlen_app. do 3 f_equal. lia.
Qed.

Lemma store_agrees call nl a o pre post ls st below cs v :
  good v -> fine nl (length st) ls st -> (2 <= length st)%nat -> 0 <= a < 2 ^ 32 -> 0 <= o < 2 ^ 32 ->
  zlen (pre ++ encode (Store a o) ++ post) < 2 ^ 64 ->
  basic_agrees call nl (length st - 2 + 0) pre post (Store a o) ls st below cs v.
Proof.
  intros Hv (Hls & _ & Hl & Hf) Hst Ha Ho Hlen. destruct st as [|x [|b st]]; [simpl in Hst; lia..|].
  unfold basic_agrees. cbn [encode basic] in *. rewrite step_at. unfold step_op. cbn [Z.eqb Pos.eqb orb].
  rewrite !Forall_cons in Hf. destruct Hf as (Hx & Hb & Hf).
  pose proof (store_address x b o v ltac:(apply Hv) Ho Hb) as Hsa. cbv zeta in Hsa.
  change ((x :: b :: st) ++ below) with (x :: b :: (st ++ below)).
  pose proof (store32_shape b o x v ltac:(lia)) as Hshape.
  pose proof (op_store_eq pre a o post x b (st ++ below) cs ls v ltac:(unfold fits; lia) ltac:(unfold fits; lia) Hlen) as Hop.
  set (m := t ← _; _) in *. set (code := pre ++ _) in *.
  unfold mbind at 1, M_bind at 1. destruct (store32 b o x v) as [r v'].
  assert (match r with Ok _ => True | _ => agree_fail r v' ((f ← op_store code (mkFrame (zlen pre + 1) (x :: b :: st ++ below) cs ls); mret (Some f)) v) end) as Hfail.
  { destruct r; [done|..]; apply agree_fail_bind; rewrite Hop; by apply agree_fail_bind. }
  destruct r as [[]|e| |]; try done.
  unfold mret at 1, M_ret at 1. split_and!; [| |by eapply same_shape_good].
  - unfold mbind at 1, M_bind at 1. rewrite Hop. unfold mbind, M_bind, mret, M_ret. by rewrite Hsa.
  - split_and!; [done|simpl; lia|done|done].
Qed.

Lemma basic_ok call nl L h h' i pre post ls st below cs v :
  is_basic i -> check1 nl L h i = Some (Some h') -> fine nl h ls st -> good v ->
  zlen (pre ++ encode i ++ post) < 2 ^ 64 ->
  basic_agrees call nl h' pre post i ls st below cs v.
Proof.
  intros Hi Hc Hfine Hv Hlen. pose proof Hfine as (Hls & Hst & Hl & Hf). subst h.
  destruct i; try done; cbn [check1] in Hc; try guarded Hc;
    rewrite ?andb_true_iff, ?Z.leb_le, ?Z.ltb_lt in *; heights Hc.
  - unfold basic_agrees. cbn [basic encode]. rewrite step_at.
    split_and!; [done| |done]. split_and!; [done|simpl; lia|done|done].
  - unfold basic_agrees. cbn [basic encode] in *. rewrite step_at. unfold step_op. cbn [Z.eqb Pos.eqb orb].
    pose proof (sleb_reads v0 ltac:(lia) (pre ++ [0x41]) post) as Hr.
    rewrite <-app_assoc, zlen_snoc in Hr. cbn [app] in Hr. specialize (Hr Hlen).
    unfold op_const, mbind, M_bind, map_err. cbn [pc app]. rewrite Hr. tidy.
    rewrite (sint_unique 32 v0 v0) by (lia || exists 0; lia).
    split_and!; [|split_and!; [done|simpl; lia|done|]|done].
    + rewrite zlen_cons. do 3 f_equal. f_equal. lia.
    + constructor; [|done]. unfold i32. lia.
  - destruct (lookup_lt_is_Some_2 ls (Z.to_nat i)) as [x Hx]; [unfold zlen in *; lia|].
    unfold basic_agrees. cbn [basic encode] in *. rewrite step_at. unfold step_op. cbn [Z.eqb Pos.eqb orb].
    rewrite Hx. unfold op_local_get, mbind, M_bind. cbn [pc locals stack].
    rewrite <-(app_nil_r (uleb i)) in *. rewrite operand_ok by (done || unfold fits; lia).
    cbn [fst snd]. rewrite Hx.
    split_and!; [|split_and!; [done|simpl; lia|done|]|done].
    + tidy. rewrite app_nil_r, zlen_cons. do 3 f_equal. f_equal. lia.
    + constructor; [|done]. rewrite Forall_lookup in Hl. by eapply Hl.
  - destruct st as [|x st]; [simpl in *; lia|]. rewrite Forall_cons in Hf. destruct Hf as [Hx Hf].
    unfold basic_agrees. cbn [basic encode] in *. rewrite step_at. unfold step_op. cbn [Z.eqb Pos.eqb orb].
    unfold op_local_set, mbind, M_bind. cbn [pc locals stack].
    change ((x :: st) ++ below) with (x :: (st ++ below)).
    rewrite <-(app_nil_r (uleb i)) in *. rewrite operand_ok by (done || unfold fits; lia).
    unfold pop, mret, M_ret. tidy. destruct (Z.leb_spec (zlen ls) i); [lia|].
    split_and!; [|split_and!; [unfold zlen in *; by rewrite length_insert|simpl; lia|by apply Forall_insert|done]|done].
    rewrite app_nil_r, zlen_cons. do 3 f_equal. f_equal. lia.
  - by eapply (binary_agrees Z.add 0x6A).
  - by eapply (binary_agrees Z.sub 0x6B).
  - by eapply (binary_agrees Z.mul 0x6C).
  - destruct st as [|x st]; [simpl in *; lia|]. rewrite Forall_cons in Hf. destruct Hf as [Hx Hf].
    unfold basic_agrees. cbn [basic encode] in *. rewrite step_at.
    split_and!; [done| |done]. split_and!; [done|simpl; lia|done|done].
  - apply store_agrees; (done || lia).
Qed.

(** ** The simulation *)

Definition labels (L : list (bool * nat)) (cs : list ControlBlock) : Prop :=
  Forall2 (fun lab b => fst lab = true -> op b = 0x03) L cs.

(** What the result [x] of the evaluator says about the interpreter started
    in [f]: it arrives at the end of the sequence, or at the start of the loop
    that is the target of the branch, or it fails too. *)
Definition sim_out (nl : Z) (L : list (bool * nat)) (oh : option nat) (code : list Z) (pc_end : Z)
    (below : list Z) (cs : list ControlBlock) (x : res stop out * Vm K) (f : Frame) (v : Vm K) : Prop :=
  match x with
  | (Ok (Next ls st), v') =>
      good v' /\ (exists h, oh = Some h /\ fine nl h ls st) /\
      forall Q, ends code (mkFrame pc_end (st ++ below) cs ls) v' Q -> ends code f v Q
  | (Ok (Jump l ls st), v') =>
      good v' /\ fine nl 0 ls st /\ can_branch L l = true /\
      forall b Q, cs !! l = Some b ->
        ends code (mkFrame (start_pc b) below (drop l cs) ls) v' Q -> ends code f v Q
  | (Err NoFuel, _) => True
  | (r, v') => ends code f v (agree_fail r v')
  end.

Lemma sim_out_via nl L oh code pe below cs x f' v' f v :
  (forall Q, ends code f' v' Q -> ends code f v Q) ->
  sim_out nl L oh code pe below cs x f' v' -> sim_out nl L oh code pe below cs x f v.
Proof.
  intros H. unfold sim_out. destruct x as [[[ls st|l ls st]|[]| |] v1]; intuition eauto.
Qed.

(** A failing step. *)
Lemma sim_out_fail {A} nl L oh code pe below cs (r : res stop A) v' f v k (y : res stop out) :
  pc f < zlen code -> agree_fail r v' (step (exec k) code f v) ->
  match r, y with
  | Err e, Err e' => e = e'
  | Panic, Panic => True
  | Fault, Fault => True
  | _, _ => False
  end -> sim_out nl L oh code pe below cs (y, v') f v.
Proof.
  intros Hpc [Hs Hr] Hy. destruct (step (exec k) code f v) as [r' v1] eqn:Hstep. cbn in Hs. subst v1.
  destruct r as [|e| |], y as [|e'| |]; try done; try subst e';
    [destruct e; [| |done]|..]; cbn in Hr;
    (eapply step_end; [done|exact Hstep|]); destruct r' as [[]|[]| |]; try done; by split_and?.
Qed.

Definition sim (n : nat) : Prop := forall nl L h oh prog pre post ls st below cs v,
  check nl L h prog = Some oh -> fine nl h ls st -> good v -> labels L cs ->
  zlen (pre ++ encode_seq prog ++ post) < 2 ^ 64 ->
  sim_out nl L oh (pre ++ encode_seq prog ++ post) (zlen pre + zlen (encode_seq prog)) below cs
    (eval n prog ls st v) (mkFrame (zlen pre) (st ++ below) cs ls) v.

Definition simcall (n : nat) : Prop := forall f fn p r args v,
  0 <= f -> funcs !! Z.to_nat f = Some fn -> sig_of fn = Some (p, r) -> zlen args = p -> Forall i32 args ->
  good v ->
  match call n f args v with
  | (Ok o, v') =>
      good v' /\ length (option_list o) = Z.to_nat r /\ Forall i32 (option_list o) /\
      exists m, exec m f args v = (Ok o, v')
  | (Err NoFuel, _) => True
  | (x, v') => exists m, agree_fail x v' (exec m f args v)
  end.

Lemma seq_cons i rest : encode_seq (i :: rest) = encode i ++ encode_seq rest.
Proof. done. Qed.

Lemma encode_nonempty i : exists o bs, encode i = o :: bs.
Proof. destruct i; cbn; eauto. destruct els; eauto. Qed.

(** Go on with the rest of a sequence. *)
Lemma sim_rest n nl L h oh i rest pre post ls st below cs v f0 v0 :
  sim n -> check nl L h rest = Some oh -> fine nl h ls st -> good v -> labels L cs ->
  zlen (pre ++ encode_seq (i :: rest) ++ post) < 2 ^ 64 ->
  (forall Q, ends (pre ++ encode_seq (i :: rest) ++ post)
     (mkFrame (zlen pre + zlen (encode i)) (st ++ below) cs ls) v Q ->
     ends (pre ++ encode_seq (i :: rest) ++ post) f0 v0 Q) ->
  sim_out nl L oh (pre ++ encode_seq (i :: rest) ++ post) (zlen pre + zlen (encode_seq (i :: rest)))
    below cs (eval n rest ls st v) f0 v0.
Proof.
  intros IH Hc Hf Hg Hl Hlen Hvia. rewrite seq_cons in *. rewrite <-app_assoc in *.
  eapply sim_out_via; [exact Hvia|].
  specialize (IH nl L h oh rest (pre ++ encode i) post ls st below cs v Hc Hf Hg Hl).
  rewrite <-app_assoc, !zlen_app, Z.add_assoc in *. apply IH. lia.
Qed.

Lemma code_at i rest pre post :
  pre ++ encode_seq (i :: rest) ++ post = pre ++ encode i ++ (encode_seq rest ++ post) /\
  zlen pre < zlen (pre ++ encode_seq (i :: rest) ++ post).
Proof.
  rewrite seq_cons, <-app_assoc. split; [done|]. rewrite !zlen_app.
  destruct (encode_nonempty i) as (o & bs & ->). rewrite zlen_cons.
  pose proof (zlen_nonneg bs). pose proof (zlen_nonneg (encode_seq rest)). pose proof (zlen_nonneg post). lia.
Qed.

(** Entering a block or a loop. *)
Lemma enter_ok pre post k o t b nl' L' r st' cs' ls' v' :
  o = 0x02 \/ o = 0x03 -> check nl' L' 0 b = Some r ->
  let code := pre ++ (o :: t :: encode_seq b ++ [0x0B]) ++ post in
  zlen code < 2 ^ 64 ->
  step (exec k) code (mkFrame (zlen pre) st' cs' ls') v'
  = (Ok (Some (mkFrame (zlen pre + 2) st'
       (mkBlock o (zlen pre + 2) (zlen pre + 2 + zlen (encode_seq b)) :: cs') ls')), v').
Proof.
  intros Ho Hc code Hlen. unfold code in *. rewrite step_at.
  assert (step_op (exec k) (pre ++ (o :: t :: encode_seq b ++ [0x0B]) ++ post) o (mkFrame (zlen pre + 1) st' cs' ls') v'
    = (f ← op_block (pre ++ (o :: t :: encode_seq b ++ [0x0B]) ++ post) o (mkFrame (zlen pre + 1) st' cs' ls'); mret (Some f)) v') as ->.
  { by destruct Ho as [->| ->]. }
  pose proof (find_end_ok nl' L' 0 b r (pre ++ [o; t]) post Hc) as Hend.
  rewrite (zlen_app pre [o; t]) in Hend. change (zlen [o; t]) with 2 in Hend. rewrite <-app_assoc in Hend.
  assert (pre ++ (o :: t :: encode_seq b ++ [0x0B]) ++ post = pre ++ [o; t] ++ encode_seq b ++ 0x0B :: post) as He.
  { cbn [app]. by rewrite <-app_assoc. }
  rewrite He in *. specialize (Hend Hlen). unfold op_block, mbind, M_bind. cbn [pc].
  replace (index (E:=stop) (pre ++ [o; t] ++ encode_seq b ++ 0x0B :: post) (zlen pre + 1)) with (Ok (E:=stop) t).
  2:{ rewrite <-(zlen_snoc pre o). replace (pre ++ [o; t] ++ _) with ((pre ++ [o]) ++ t :: encode_seq b ++ 0x0B :: post)
        by (by rewrite <-app_assoc). by rewrite index_here. }
  replace (zlen pre + 1 + 1) with (zlen pre + 2) by lia. rewrite Hend. done.
Qed.

(** Reaching the [end] of a block. *)
Lemma leave_ok pre post k bs st' B cs' ls' v' :
  step (exec k) (pre ++ (bs ++ [0x0B]) ++ post) (mkFrame (zlen pre + zlen bs) st' (B :: cs') ls') v'
  = (Ok (Some (mkFrame (zlen pre + zlen (bs ++ [0x0B])) st' cs' ls')), v').
Proof.
  replace (pre ++ (bs ++ [0x0B]) ++ post) with ((pre ++ bs) ++ [0x0B] ++ post) by (by rewrite <-!app_assoc).
  rewrite <-zlen_app, step_at. unfold step_op. cbn [Z.eqb Pos.eqb orb control stack locals pc mret M_ret].
  unfold mret, M_ret. rewrite zlen_snoc, zlen_app. do 4 f_equal. lia.
Qed.

Section cases.
Context (n : nat) (IH : sim n) (IHc : simcall n).
Context (nl : Z) (L : list (bool * nat)) (h : nat) (oh : option nat) (rest : list instr).
Context (pre post ls st below : list Z) (cs : list ControlBlock) (v : Vm K).
Context (Hfine : fine nl h ls st) (Hgood : good v) (Hlabels : labels L cs).

(** The case of a sequence that starts with [i]. *)
Definition case (i : instr) : Prop :=
  check nl L h (i :: rest) = Some oh -> zlen (pre ++ encode_seq (i :: rest) ++ post) < 2 ^ 64 ->
  sim_out nl L oh (pre ++ encode_seq (i :: rest) ++ post) (zlen pre + zlen (encode_seq (i :: rest)))
    below cs (eval (S n) (i :: rest) ls st v) (mkFrame (zlen pre) (st ++ below) cs ls) v.

Lemma sim_basic i : is_basic i -> case i.
Proof.
  intros Hi Hc Hlen. cbn in Hc. destruct (check1 nl L h i) as [[h'|]|] eqn:Hc1; [| |done].
  2:{ destruct i; try done; cbn [check1] in Hc1; try guarded Hc1; by apply pops_reach in Hc1. }
  destruct (code_at i rest pre post) as [Hcode Hpc].
  pose proof (basic_ok (exec 0) nl L h h' i pre (encode_seq rest ++ post) ls st below cs v Hi Hc1 Hfine Hgood) as Hb.
  rewrite <-Hcode in Hb. specialize (Hb Hlen). unfold basic_agrees in Hb. rewrite <-Hcode in Hb.
  assert (eval (S n) (i :: rest) ls st v
    = match basic i ls st v with
      | (Ok x, v') => eval n rest (fst x) (snd x) v'
      | (Err e, v') => (Err e, v') | (Panic, v') => (Panic, v') | (Fault, v') => (Fault, v')
      end) as ->.
  { cbn [eval]. destruct i; try done; unfold mbind, M_bind; by destruct (basic _ _ _ _) as [[]]. }
  destruct (basic i ls st v) as [[x|e| |] v'].
  - destruct Hb as (Hs & Hf' & Hg'). apply (sim_rest n nl L h'); try done.
    intros Q. by apply (step_to 0).
  - by eapply sim_out_fail.
  - by eapply sim_out_fail.
  - by eapply sim_out_fail.
Qed.

(** Jumping to a checked label. *)
Lemma branch_ok l below' f :
  can_branch L l = true -> below' = below -> control f = cs -> locals f = ls -> stack f = below' ->
  exists b, cs !! l = Some b /\
    branch (Z.of_nat l) f v = (Ok (mkFrame (start_pc b) below (drop l cs) ls), v).
Proof.
  intros Hb -> Hcs Hls Hst. unfold can_branch in Hb.
  destruct (L !! l) as [[[] h0]|] eqn:HL; try done.
  destruct (Forall2_lookup_l _ _ _ _ _ Hlabels HL) as (b & Hcb & Hop). specialize (Hop eq_refl).
  exists b. split; [done|]. unfold branch. rewrite Hcs, Hls, Hst.
  pose proof (lookup_lt_Some _ _ _ Hcb) as Hlt.
  destruct (Z.leb_spec (zlen cs) (Z.of_nat l)); [unfold zlen in *; lia|].
  unfold mbind, M_bind, lift, index. rewrite decide_True, Nat2Z.id, Hcb by lia.
  rewrite Hop. done.
Qed.

Lemma sim_br l : case (Br l).
Proof.
  intros Hc Hlen. destruct (code_at (Br l) rest pre post) as [Hcode Hpc].
  cbn in Hc. unfold guard_ in Hc. destruct (Nat.eqb_spec h 0) as [->|]; [|done].
  destruct (can_branch L l) eqn:Hb; [|done]. destruct rest; [|done]. injection Hc as <-.
  destruct Hfine as (Hls & Hst & Hil & Hist). destruct st; [|done]. cbn [eval mret M_ret sim_out].
  split_and!; [done|done|done|]. intros b Q Hcb.
  destruct (branch_ok l below (mkFrame (zlen pre + 1) below cs ls)) as (b' & Hcb' & Hbr); try done.
  assert (b' = b) as -> by congruence.
  apply (step_to 0); [done|]. rewrite Hcode. cbn [encode]. rewrite step_at.
  unfold step_op. cbn [Z.eqb Pos.eqb orb]. unfold mbind, M_bind.
  cbn [pc]. rewrite Hcode in Hlen. cbn [encode] in Hlen. rewrite <-(app_nil_r (uleb _)) in *.
  rewrite operand_ok by (done || by eapply can_branch_fits). cbn [fst app].
  cbn [app] in Hbr. rewrite Hbr. done.
Qed.

Lemma sim_br_if l : case (BrIf l).
Proof.
  intros Hc Hlen. destruct (code_at (BrIf l) rest pre post) as [Hcode Hpc].
  cbn in Hc. unfold guard_ in Hc. destruct (Nat.eqb_spec h 1) as [->|]; [|done].
  destruct (can_branch L l) eqn:Hb; [|done]. cbn in Hc.
  destruct Hfine as (Hls & Hst & Hil & Hist). destruct st as [|c []]; try done.
  rewrite Forall_cons in Hist. destruct Hist as [Hc32 _].
  assert (forall k, step (exec k) (pre ++ encode_seq (BrIf l :: rest) ++ post) (mkFrame (zlen pre) ([c] ++ below) cs ls) v
    = (f ← (if negb (c =? 0) then branch (Z.of_nat l) (mkFrame (zlen pre + zlen (encode (BrIf l))) below cs ls)
            else mret (mkFrame (zlen pre + zlen (encode (BrIf l))) below cs ls)); mret (Some f)) v) as Hstep.
  { intros k. rewrite Hcode in Hlen |- *. cbn [encode] in *. rewrite step_at. unfold step_op. cbn [Z.eqb Pos.eqb orb].
    unfold op_br_if, mbind, M_bind. cbn [pc stack]. rewrite <-(app_nil_r (uleb _)) in *.
    rewrite operand_ok by (done || by eapply can_branch_fits). change ([c] ++ below) with (c :: below).
    unfold pop, mret, M_ret. tidy. rewrite app_nil_r, zlen_cons, Z.add_assoc.
    destruct (negb (c =? 0)); [|done]. by destruct (branch _ _ _) as [[]]. }
  cbn [eval]. destruct (negb (c =? 0)).
  - split_and!; [done|done|done|]. intros b Q Hcb.
    destruct (branch_ok l below (mkFrame (zlen pre + zlen (encode (BrIf l))) below cs ls)) as (b' & Hcb' & Hbr); try done.
    assert (b' = b) as -> by congruence. apply (step_to 0); [done|]. rewrite Hstep.
    unfold mbind, M_bind. by rewrite Hbr.
  - apply (sim_rest n nl L 0); try done. intros Q. apply (step_to 0); [done|]. by rewrite Hstep.
Qed.

(** The body of a block or a loop, from its first instruction. *)
Lemma body_ok (lp : bool) t b r :
  check nl ((lp, h) :: L) 0 b = Some r ->
  let o := if lp then 0x03 else 0x02 in
  let code := pre ++ (o :: t :: encode_seq b ++ [0x0B]) ++ encode_seq rest ++ post in
  let B := mkBlock o (zlen pre + 2) (zlen pre + 2 + zlen (encode_seq b)) in
  zlen code < 2 ^ 64 ->
  sim_out nl ((lp, h) :: L) r code (zlen pre + 2 + zlen (encode_seq b)) (st ++ below) (B :: cs)
    (eval n b ls [] v) (mkFrame (zlen pre + 2) (st ++ below) (B :: cs) ls) v.
Proof.
  intros Hc o code B Hlen. unfold code in *. destruct Hfine as (Hls & Hst & Hil & Hist).
  specialize (IH nl ((lp, h) :: L) 0%nat r b (pre ++ [o; t]) (0x0B :: encode_seq rest ++ post) ls [] (st ++ below) (B :: cs) v).
  assert (pre ++ (o :: t :: encode_seq b ++ [0x0B]) ++ encode_seq rest ++ post
    = (pre ++ [o; t]) ++ encode_seq b ++ 0x0B :: encode_seq rest ++ post) as He.
  { rewrite <-app_assoc. cbn [app]. by rewrite <-app_assoc. }
  rewrite He in *. rewrite (zlen_app pre [o; t]) in IH. change (zlen [o; t]) with 2 in IH.
  apply IH; [done|by split_and!|done| |done].
  constructor; [|done]. intros Hlp. cbn in *. subst o. by rewrite Hlp.
Qed.

(** A branch out of the block that is not to the block itself. *)
Lemma can_branch_S lp l : can_branch ((lp, h) :: L) (S l) = true -> h = 0%nat /\ can_branch L l = true.
Proof.
  unfold can_branch. cbn [lookup list_lookup take forallb snd].
  destruct (L !! l) as [[[] ?]|]; try done. rewrite !andb_true_iff, !Z.ltb_lt, Nat.eqb_eq. intuition lia.
Qed.

Definition nested (lp : bool) (t : Z) (b : list instr) : instr := if lp then Loop t b else Block t b.

Lemma fine_app nl' h1 h2 ls1 st1 ls2 st2 :
  fine nl' h1 ls1 st1 -> fine nl' h2 ls2 st2 -> fine nl' (h1 + h2) ls2 (st2 ++ st1).
Proof.
  intros (_ & H1 & _ & H2) (H3 & H4 & H5 & H6). split_and!; [done| |done|by apply Forall_app].
  rewrite length_app. lia.
Qed.

Lemma fine_locals nl' h1 h2 ls1 st1 ls2 st2 : fine nl' h1 ls1 st1 -> fine nl' h2 ls2 st2 -> fine nl' h1 ls2 st1.
Proof. intros (_ & ? & _ & ?) (? & _ & ? & _). by split_and!. Qed.

Lemma nested_code lp t b :
  encode (nested lp t b) = (if lp then 0x03 else 0x02) :: t :: encode_seq b ++ [0x0B].
Proof. by destruct lp. Qed.

Lemma nested_eval lp t b :
  eval (S n) (nested lp t b :: rest) ls st v
  = match eval n b ls [] v with
    | (Ok (Next ls' st'), v') => eval n rest ls' (st' ++ st) v'
    | (Ok (Jump O ls' st'), v') =>
        if lp then eval n (nested lp t b :: rest) ls' st v' else eval n rest ls' (take (arity t) st' ++ st) v'
    | (Ok (Jump (S l) ls' st'), v') => (Ok (Jump l ls' st'), v')
    | (Err e, v') => (Err e, v') | (Panic, v') => (Panic, v') | (Fault, v') => (Fault, v')
    end.
Proof.
  destruct lp; cbn [nested eval]; unfold mbind, M_bind;
    by destruct (eval n b ls [] v) as [[[|[]]| | |] ?].
Qed.

Lemma nested_check lp t b :
  check nl L h (nested lp t b :: rest) = Some oh ->
  exists r, check nl ((lp, h) :: L) 0 b = Some r /\ (forall h', r = Some h' -> h' = arity t) /\
    check nl L (h + arity t) rest = Some oh.
Proof.
  intros Hc. cbn in Hc.
  assert (check1 nl L h (nested lp t b)
    = guard_ (ends_at (arity t) (check nl ((lp, h) :: L) 0 b)) (pops 0 h (arity t))) as He by (by destruct lp).
  rewrite He in Hc. destruct (check nl _ 0 b) as [r|]; [|done]. cbn [ends_at] in Hc.
  exists r. split; [done|]. unfold guard_, pops in Hc. cbn [Nat.leb] in Hc. rewrite Nat.sub_0_r in Hc.
  destruct r as [h'|]; [|done]. destruct (Nat.eqb_spec h' (arity t)); [|done].
  split; [congruence|done].
Qed.

Lemma sim_nested lp t b : case (nested lp t b).
Proof.
  intros Hc Hlen. destruct (nested_check lp t b Hc) as (r & Hcb & Hr & Hrest).
  destruct (code_at (nested lp t b) rest pre post) as [Hcode Hpc].
  set (o := if lp then 0x03 else 0x02). set (bs := o :: t :: encode_seq b).
  assert (pre ++ encode_seq (nested lp t b :: rest) ++ post = pre ++ (bs ++ [0x0B]) ++ encode_seq rest ++ post) as Hcode'.
  { rewrite Hcode. by rewrite nested_code. }
  set (B := mkBlock o (zlen pre + 2) (zlen pre + 2 + zlen (encode_seq b))).
  pose proof (body_ok lp t b r Hcb) as Hb. cbv zeta in Hb. fold o in Hb. fold B in Hb.
  change (o :: t :: encode_seq b ++ [0x0B]) with (bs ++ [0x0B]) in Hb.
  rewrite <-Hcode' in Hb. specialize (Hb Hlen).
  assert (forall st' ls' v' k, step (exec k) (pre ++ encode_seq (nested lp t b :: rest) ++ post)
      (mkFrame (zlen pre) st' cs ls') v' = (Ok (Some (mkFrame (zlen pre + 2) st' (B :: cs) ls')), v')) as Henter.
  { intros st' ls' v' k. rewrite Hcode'. eapply enter_ok; [destruct lp; auto|done|].
    change (zlen (pre ++ (bs ++ [0x0B]) ++ encode_seq rest ++ post) < 2 ^ 64). by rewrite <-Hcode'. }
  eapply sim_out_via.
  { intros Q. apply (step_to 0); [done|]. apply Henter. }
  rewrite nested_eval. destruct (eval n b ls [] v) as [[[ls' st'|l ls' st']|e| |] v'].
  - destruct Hb as (Hg & (h' & -> & Hf) & Hgo). specialize (Hr h' eq_refl). subst h'.
    apply (sim_rest n nl L (h + arity t)); [done..|by eapply fine_app|done|done|done|].
    intros Q HQ. apply Hgo. eapply (step_to 0); [| |exact HQ].
    { cbn [pc]. rewrite Hcode', !zlen_app. unfold bs. rewrite !zlen_cons.
      pose proof (zlen_nonneg (encode_seq rest)). pose proof (zlen_nonneg post). change (@zlen Z []) with 0. lia. }
    rewrite Hcode', nested_code, <-(app_assoc st' st below). fold o. change (o :: t :: encode_seq b ++ [0x0B]) with (bs ++ [0x0B]).
    replace (zlen pre + 2 + zlen (encode_seq b)) with (zlen pre + zlen bs) by (unfold bs; rewrite !zlen_cons; lia).
    apply leave_ok.
  - destruct Hb as (Hg & Hf & Hcan & Hgo). destruct l as [|l].
    + destruct lp; [|done].
      pose proof (IH nl L h oh (nested true t b :: rest) pre post ls' st below cs v' Hc
        (fine_locals _ _ _ _ _ _ _ Hfine Hf) Hg Hlabels Hlen) as Hagain.
      eapply sim_out_via; [|exact Hagain].
      intros Q HQ. apply (Hgo B); [done|]. eapply step_back; [| |exact HQ]; [done|].
      intros k. apply Henter.
    + apply can_branch_S in Hcan as [-> Hcan]. destruct Hfine as (_ & Hst & _). destruct st; [|done].
      split_and!; [done|done|done|]. intros b' Q Hb' HQ. by apply (Hgo b').
  - destruct e; exact Hb.
  - exact Hb.
  - exact Hb.
Qed.

Lemma sig_index fn p r : sig_of fn = Some (p, r) ->
  good v -> index (E:=stop) (type_sigs (inst v)) (type_idx_of (compile fn)) = Ok (p, r).
Proof.
  intros Hs (_ & -> & _). unfold sig_of in Hs. unfold index.
  destruct fn; cbn [compile type_idx_of]; (case_decide; [|done]); by rewrite Hs.
Qed.

Lemma func_index f fn : funcs !! Z.to_nat f = Some fn -> 0 <= f -> good v ->
  index (E:=stop) (functions (inst v)) f = Ok (compile fn).
Proof.
  intros Hfn Hf (-> & _). unfold index. rewrite decide_True by done.
  by rewrite list_lookup_fmap, Hfn.
Qed.

(** What a call instruction does, once its operands are there. *)
Lemma call_step m f fn p r :
  0 <= f < 2 ^ 32 -> funcs !! Z.to_nat f = Some fn -> sig_of fn = Some (p, r) -> 0 <= p <= zlen st ->
  zlen (pre ++ encode_seq (Call f :: rest) ++ post) < 2 ^ 64 ->
  step (exec m) (pre ++ encode_seq (Call f :: rest) ++ post) (mkFrame (zlen pre) (st ++ below) cs ls) v
  = (o ← exec m f (rev (take (Z.to_nat p) st));
     mret (Some (mkFrame (zlen pre + zlen (encode (Call f)))
       ((option_list o ++ drop (Z.to_nat p) st) ++ below) cs ls))) v.
Proof.
  intros Hf Hfn Hsig Hp Hlen. destruct (code_at (Call f) rest pre post) as [Hcode _]. rewrite Hcode in *.
  cbn [encode] in *. rewrite step_at. unfold step_op. cbn [Z.eqb Pos.eqb orb]. unfold op_call, mbind, M_bind.
  cbn [pc stack]. rewrite <-(app_nil_r (uleb _)) in *. rewrite operand_ok by (done || unfold fits; lia).
  unfold get, lift. cbn [fst snd]. rewrite (func_index f fn), (sig_index fn p r) by (done || lia). cbn [fst].
  pose proof (zlen_nonneg below). rewrite zlen_app. destruct (Z.ltb_spec (zlen st + zlen below) p); [lia|].
  unfold zlen in Hp. rewrite take_app_le, drop_app_le by lia.
  destruct (exec m _ _ _) as [[o| | |] v'] eqn:He; [|done..]. unfold mret, M_ret. tidy.
  rewrite app_nil_r, zlen_cons, Z.add_assoc. by destruct o.
Qed.

Lemma call_fails f fn p r (x : res stop (option Z)) v' (y : res stop out) :
  0 <= f < 2 ^ 32 -> funcs !! Z.to_nat f = Some fn -> sig_of fn = Some (p, r) -> 0 <= p <= zlen st ->
  zlen (pre ++ encode_seq (Call f :: rest) ++ post) < 2 ^ 64 ->
  (exists m, agree_fail x v' (exec m f (rev (take (Z.to_nat p) st)) v)) ->
  match x, y with
  | Err e, Err e' => e = e' | Panic, Panic => True | Fault, Fault => True | _, _ => False
  end ->
  sim_out nl L oh (pre ++ encode_seq (Call f :: rest) ++ post) (zlen pre + zlen (encode_seq (Call f :: rest)))
    below cs (y, v') (mkFrame (zlen pre) (st ++ below) cs ls) v.
Proof.
  intros Hf Hfn Hsig Hp Hlen [m Hm] Hxy. destruct (code_at (Call f) rest pre post) as [_ Hpc].
  eapply (sim_out_fail nl L oh _ _ below cs x v' _ _ m); [done| |done].
  rewrite (call_step m f fn p r) by done. by apply agree_fail_bind.
Qed.

Lemma sim_call f : case (Call f).
Proof.
  intros Hc Hlen. destruct (code_at (Call f) rest pre post) as [Hcode Hpc].
  cbn in Hc. destruct (guard_ _ _) as [c|] eqn:Hg; [|done]. guarded Hg.
  rewrite !andb_true_iff, !Z.leb_le, !Z.ltb_lt in H. destruct H as [[Hf0 Hf1] Hf2].
  destruct (funcs !! Z.to_nat f) as [fn|] eqn:Hfn; [|done]. cbn in Hg.
  destruct (sig_of fn) as [[p r]|] eqn:Hsig; [|done]. guarded Hg.
  rewrite andb_true_iff, orb_true_iff, Z.leb_le, !Z.eqb_eq in H. destruct H as [Hp Hr].
  destruct c as [h'|]; [|by apply pops_reach in Hg]. apply pops_Some in Hg as [Hph ->].
  pose proof Hfine as (Hls & Hst & Hil & Hist).
  assert (0 <= p <= zlen st) as Hps by (unfold zlen; lia).
  specialize (IHc f fn p r (rev (take (Z.to_nat p) st)) v Hf0 Hfn Hsig).
  assert (eval (S n) (Call f :: rest) ls st v
    = match call n f (rev (take (Z.to_nat p) st)) v with
      | (Ok o, v') => eval n rest ls (option_list o ++ drop (Z.to_nat p) st) v'
      | (Err e, v') => (Err e, v') | (Panic, v') => (Panic, v') | (Fault, v') => (Fault, v')
      end) as ->.
  { cbn [eval]. rewrite Hfn. cbn [mbind option_bind]. rewrite Hsig.
    destruct (Z.ltb_spec (zlen st) p); [lia|]. unfold mbind, M_bind.
    by destruct (call n f _ v) as [[[]| | |] ?]. }
  assert (zlen (rev (take (Z.to_nat p) st)) = p) as Hargs.
  { unfold zlen. rewrite length_rev, length_take. lia. }
  specialize (IHc Hargs ltac:(by apply Forall_rev, Forall_take) Hgood).
  destruct (call n f _ v) as [[o|e| |] v'] eqn:Hcall.
  - destruct IHc as (Hg' & Ho & Hoi & m & Hm).
    apply (sim_rest n nl L (h - Z.to_nat p + Z.to_nat r)); [done|done| |done|done|done|].
    + split_and!; [done| |done|by apply Forall_app; split; [|apply Forall_drop]].
      rewrite length_app, length_drop. lia.
    + intros Q. apply (step_to m); [done|]. rewrite (call_step m f fn p r) by done.
      unfold mbind, M_bind. by rewrite Hm.
  - destruct e; [| |done]; by eapply call_fails.
  - by eapply call_fails.
  - by eapply call_fails.
Qed.

End cases.

(** ** Functions *)

Lemma agree_fail_refl {A} (r : res stop A) (v : Vm K) :
  match r with Ok _ | Err NoFuel => False | _ => True end -> agree_fail r v (r, v).
Proof. unfold agree_fail. destruct r as [|[]| |]; done. Qed.

(** A host function that returns returns zero. *)
Lemma call_import_zero m nm args (v : Vm K) o v' :
  call_import read_stdin m nm args v = (Ok o, v') -> o = Some 0.
Proof.
  assert (forall (x : VM Z) (k : Z -> VM (option Z)), (forall z v o v', k z v = (Ok o, v') -> o = Some 0) ->
    forall v o v', (x ≫= k) v = (Ok o, v') -> o = Some 0) as Hz.
  { intros x k Hk w o' w'. unfold mbind, M_bind. destruct (x w) as [[z| | |] ?]; [apply Hk|done..]. }
  assert (forall (x : VM unit) (k : unit -> VM (option Z)), (forall z v o v', k z v = (Ok o, v') -> o = Some 0) ->
    forall v o v', (x ≫= k) v = (Ok o, v') -> o = Some 0) as Hu.
  { intros x k Hk w o' w'. unfold mbind, M_bind. destruct (x w) as [[z| | |] ?]; [apply Hk|done..]. }
  assert (forall (k : Vm K -> VM (option Z)), (forall z v o v', k z v = (Ok o, v') -> o = Some 0) ->
    forall v o v', (get ≫= k) v = (Ok o, v') -> o = Some 0) as Hg.
  { intros k Hk w o' w'. unfold mbind, M_bind, get. apply Hk. }
  assert (forall v o v', (mret (Some 0) : VM (option Z)) v = (Ok o, v') -> o = Some 0) as Hr.
  { intros w o' w'. unfold mret, M_ret. by intros [= <- _]. }
  unfold call_import. cbv zeta.
  repeat (destruct (_ && _); [revert v o v'; unfold fd_write, fd_read, args_sizes_get, args_get, proc_exit, uarg;
    repeat first [apply Hr|apply Hg; intros ?|apply Hz; intros ?|apply Hu; intros ?]|]). done.
Qed.

Context (Hvalid : module_valid = true).

Lemma func_valid f fn : funcs !! f = Some fn -> func_ok fn = true.
Proof.
  intros Hf. unfold module_valid in Hvalid. rewrite forallb_forall in Hvalid.
  apply Hvalid. apply list_elem_of_In. by eapply list_elem_of_lookup_2.
Qed.

Lemma zlen_locals ds : forallb (fun d => 0 <=? count d) ds = true ->
  zlen (ds ≫= fun d => zeros (count d)) = foldr (fun d n => count d + n) 0 ds /\
  Forall i32 (ds ≫= fun d => zeros (count d)).
Proof.
  induction ds as [|d ds IH]; [done|]. cbn. rewrite andb_true_iff, Z.leb_le. intros [Hd Hds].
  destruct (IH Hds) as [Hl Hf]. split.
  - rewrite zlen_app, zlen_zeros by done. by f_equal.
  - apply Forall_app. split; [|done]. apply Forall_replicate. unfold i32. lia.
Qed.

(** Running off the end of the function. *)
Lemma return_ok b st ls v :
  ends (encode_seq b ++ [0x0B]) (mkFrame (zlen (encode_seq b)) st [] ls) v (fun y => y = (Ok (last st), v)).
Proof.
  apply (step_end 0 _ _ _ (Ok None) v); [|apply (step_at _ 0x0B [] (encode_seq b) [])|done].
  cbn [pc]. rewrite zlen_snoc. lia.
Qed.

Lemma simcall_import n f m nm t p r args v :
  0 <= f -> funcs !! Z.to_nat f = Some (FImport m nm t) -> sig_of (FImport m nm t) = Some (p, r) -> good v ->
  match call (S n) f args v with
  | (Ok o, v') =>
      good v' /\ length (option_list o) = Z.to_nat r /\ Forall i32 (option_list o) /\
      exists k, exec k f args v = (Ok o, v')
  | (Err NoFuel, _) => True
  | (x, v') => exists k, agree_fail x v' (exec k f args v)
  end.
Proof.
  intros Hf Hfn Hsig Hgood. pose proof (func_valid _ _ Hfn) as Hok. unfold func_ok in Hok.
  rewrite Hsig, Z.eqb_eq in Hok. subst r. cbn [call]. rewrite Hfn.
  assert (exec 1 f args v = call_import read_stdin m nm args v) as He.
  { cbn [execute_function]. unfold mbind, M_bind, get, lift.
    by rewrite (func_index v f _ Hfn Hf Hgood). }
  pose proof (call_import_keeps read_stdin m nm args v) as Hk.
  destruct (call_import read_stdin m nm args v) as [[o|e| |] v'] eqn:Hc.
  - pose proof (call_import_zero _ _ _ _ _ _ Hc) as ->. split_and!; [by eapply same_shape_good|done| |by eauto].
    repeat constructor; unfold i32; lia.
  - destruct e; [| |done]; exists 1%nat; rewrite He; by apply agree_fail_refl.
  - exists 1%nat. rewrite He. by apply agree_fail_refl.
  - exists 1%nat. rewrite He. by apply agree_fail_refl.
Qed.

Lemma simcall_defined n f t ds b p r args v :
  sim n -> 0 <= f -> funcs !! Z.to_nat f = Some (FDefined t ds b) -> sig_of (FDefined t ds b) = Some (p, r) ->
  zlen args = p -> Forall i32 args -> good v ->
  match call (S n) f args v with
  | (Ok o, v') =>
      good v' /\ length (option_list o) = Z.to_nat r /\ Forall i32 (option_list o) /\
      exists k, exec k f args v = (Ok o, v')
  | (Err NoFuel, _) => True
  | (x, v') => exists k, agree_fail x v' (exec k f args v)
  end.
Proof.
  intros IH Hf Hfn Hsig Hargs Hi Hgood. pose proof (func_valid _ _ Hfn) as Hok. unfold func_ok in Hok.
  rewrite Hsig, !andb_true_iff, orb_true_iff, Z.leb_le, Z.ltb_lt, !Z.eqb_eq in Hok.
  destruct Hok as ((((Hp & Hr) & Hds) & Hlen) & Hends).
  destruct (zlen_locals ds Hds) as [Hll Hli]. destruct (check _ [] 0 b) as [oh|] eqn:Hcheck; [|done].
  assert (forall k, exec (S k) f args v = run k (encode_seq b ++ [0x0B]) (initial_frame ds args) v) as He.
  { intros k. cbn [execute_function]. unfold mbind, M_bind, get, lift.
    by rewrite (func_index v f _ Hfn Hf Hgood). }
  specialize (IH _ [] 0%nat oh b [] [0x0B] (args ++ (ds ≫= fun d => zeros (count d))) [] [] [] v Hcheck).
  cbn [app] in IH. change (zlen []) with 0 in IH. change (0 + ?x) with x in IH.
  assert (fine (p + foldr (fun d n => count d + n) 0 ds) 0 (args ++ (ds ≫= fun d => zeros (count d))) []) as Hfine.
  { split_and!; [rewrite zlen_app; lia|done|by apply Forall_app|done]. }
  specialize (IH Hfine Hgood ltac:(constructor) ltac:(rewrite zlen_snoc; lia)).
  cbn [call]. rewrite Hfn. unfold mbind, M_bind.
  destruct (eval n b _ [] v) as [[[ls st|l ls st]|e| |] v'].
  - destruct IH as (Hg & (h & -> & (_ & Hst & _ & Hsti)) & Hgo). rewrite app_nil_r in Hgo.
    cbn [ends_at] in Hends. apply Nat.eqb_eq in Hends.
    destruct (Hgo _ (return_ok b st ls v')) as (k & _ & Hk).
    assert (option_list (last st) = st) as Hl by (destruct st as [|x [|]]; simpl in *; (done || lia)).
    unfold mret, M_ret. rewrite Hl. split_and!; [done|lia|done|]. exists (S k). by rewrite He.
  - by destruct IH as (_ & _ & Hcan & _).
  - destruct e; [| |done]; destruct IH as (k & _ & Hk); exists (S k); by rewrite He.
  - destruct IH as (k & _ & Hk); exists (S k); by rewrite He.
  - destruct IH as (k & _ & Hk); exists (S k); by rewrite He.
Qed.

Lemma sim_all n : sim n /\ simcall n.
Proof.
  induction n as [|n [IH IHc]].
  - split; [by intros ?|by intros ?].
  - split.
    + intros nl L h oh prog pre post ls st below cs v Hc Hfine Hgood Hlab Hlen.
      destruct prog as [|i rest].
      { cbn in Hc. injection Hc as <-. cbn [eval]. unfold mret, M_ret, sim_out.
        split_and!; [done|by eauto|]. intros Q. cbn. by rewrite Z.add_0_r. }
      assert (case n nl L h oh rest pre post ls st below cs v i) as Hcase; [|by apply Hcase].
      destruct i; try (by apply sim_basic); try (by apply sim_br); try (by apply sim_br_if); try (by apply sim_call).
      * by apply (sim_nested n IH nl L h oh rest pre post ls st below cs v Hfine Hgood Hlab false).
      * by apply (sim_nested n IH nl L h oh rest pre post ls st below cs v Hfine Hgood Hlab true).
    + intros f fn p r args v Hf Hfn Hsig Hargs Hi Hgood. destruct fn as [m nm t|t ds b].
      * by eapply simcall_import.
      * by eapply simcall_defined.
Qed.

(** Two results agree: the same value and the same world, or the same
    failure in the sense of [agree_fail]. *)
Definition agrees (x y : res stop (option Z) * Vm K) : Prop :=
  match fst x with Ok _ => y = x | r => agree_fail r (snd x) y end.

End spec.

(** C20. The byte interpreter implements WebAssembly on checked modules: when
    every function of a module passes the stack-height check (whose control
    flow is blocks, loops and branches to loops, with calls between functions
    and to the host) and the memory has at most 2 GiB, whatever the
    specification's evaluator computes for a call, a value, a trap or an exit,
    the interpreter computes from the encoded bytes, with the same memory,
    console and scheduler, for all large enough fuel.  There is one exception:
    where the evaluator traps because of a store at an address of 2 GiB or more
    that overflows when offset and width are added to it, the interpreter may
    panic instead, and so halt the kernel. *)
Theorem interpreter_correct {K} (read_stdin : Z -> K -> list Z * K) funcs sigs n f fn p r args v :
  module_valid funcs sigs = true -> good funcs sigs v ->
  0 <= f -> funcs !! Z.to_nat f = Some fn -> sig_of sigs fn = Some (p, r) ->
  zlen args = p -> Forall i32 args ->
  fst (call read_stdin funcs sigs n f args v) <> Err NoFuel ->
  exists m, forall m', (m <= m')%nat ->
    agrees (call read_stdin funcs sigs n f args v) (execute_function read_stdin m' f args v).
Proof.
  intros Hvalid Hgood Hf Hfn Hsig Hargs Hi Hfuel.
  destruct (sim_all read_stdin funcs sigs Hvalid n) as [_ Hs].
  specialize (Hs f fn p r args v Hf Hfn Hsig Hargs Hi Hgood).
  assert (exists m, fst (execute_function read_stdin m f args v) <> Err NoFuel /\
    agrees (call read_stdin funcs sigs n f args v) (execute_function read_stdin m f args v)) as (m & Hm & Ha).
  { unfold agrees. destruct (call _ _ _ _ _ _ _) as [[o|e| |] v']; cbn [fst snd] in *.
    - destruct Hs as (_ & _ & _ & m & Hm). exists m. rewrite Hm. done.
    - destruct e; [| |done]; destruct Hs as [m Hm]; exists m; (split; [|done]); destruct Hm as [_ Hm].
      + by destruct (fst _) as [|[]| |].
      + by rewrite Hm.
    - destruct Hs as [m Hm]. exists m. split; [|done]. destruct Hm as [_ Hm]. by destruct (fst _) as [|[]| |].
    - destruct Hs as [m Hm]. exists m. split; [|done]. destruct Hm as [_ Hm]. by rewrite Hm. }
  exists m. intros m' Hle. by rewrite (exec_more read_stdin m).
Qed.

(** ** Examples *)

Definition no_input (n : Z) (k : unit) : list Z * unit := ([], k).
Definition idle : Scheduler.Sched :=
  Scheduler.mkSched ∅ (Scheduler.mkReady [] 0) 0 1 None None 0 0 0 0.
Definition machine (i : WasmInstance) : Vm unit := mkVm i [] tt idle.

(** The demonstration module, as instructions. *)
Definition demo_funcs : list func :=
  [FImport (Path.bytes_of "wasi_snapshot_preview1") (Path.bytes_of "fd_write") 0;
   FDefined 1 [] [Const 0; Const 8; Store 2 0; Const 4; Const 31; Store 2 0;
                  Const 1; Const 0; Const 1; Const 40; Call 0; Drop]].
Definition demo_sigs : list (Z * Z) := [(4, 1); (0, 0)].
Definition demo_machine : Vm unit := machine (module_instance demo_secs).

Lemma interpreter_correct_witness :
  fst (call no_input demo_funcs demo_sigs 40 1 [] demo_machine) = Ok None /\
  console (snd (call no_input demo_funcs demo_sigs 40 1 [] demo_machine))
  = Path.bytes_of "Hello from WebAssembly (WASI)!" ++ [10] /\
  exists m, forall m', (m <= m')%nat ->
    agrees (call no_input demo_funcs demo_sigs 40 1 [] demo_machine)
      (execute_function no_input m' 1 [] demo_machine).
Proof.
  split; [vm_compute; reflexivity|]. split; [vm_compute; reflexivity|].
  apply (interpreter_correct no_input demo_funcs demo_sigs 40 1 (FDefined 1 [] [Const 0; Const 8; Store 2 0;
    Const 4; Const 31; Store 2 0; Const 1; Const 0; Const 1; Const 40; Call 0; Drop]) 0 0).
  - vm_compute. reflexivity.
  - split; [vm_compute; reflexivity|]. split; [vm_compute; reflexivity|]. vm_compute. discriminate.
  - lia.
  - reflexivity.
  - reflexivity.
  - reflexivity.
  - constructor.
  - vm_compute. discriminate.
Defined.

(** The loop module of the kernel's own tests passes the check and returns. *)
Definition loop_funcs : list func :=
  [FDefined 0 [mkLocals 1 0x7f] [Const 5; LocalSet 0;
     Loop 0x40 [LocalGet 0; Const 1; Sub; LocalSet 0; LocalGet 0; BrIf 0]]].

Lemma loop_module_runs :
  module_valid loop_funcs [(0, 0)] = true /\
  fst (execute_function no_input 100 0 [] (machine (mkInstance [] (compile <$> loop_funcs) [(0, 0)] None))) = Ok None.
Proof. split; vm_compute; reflexivity. Qed.

(** ** Where the interpreter departs from WebAssembly

    Each function below declares one result, 7 according to the
    specification. *)
Definition both (body : list instr) : res stop (option Z) * res stop (option Z) :=
  let funcs := [FDefined 0 [mkLocals 1 0x7f] body] in
  let v := machine (mkInstance (zeros 64) (compile <$> funcs) [(0, 1)] None) in
  (fst (call no_input funcs [(0, 1)] 200 0 [] v), fst (execute_function no_input 200 0 [] v)).

(** A branch out of a block runs the block's [end] after it has already left
    the block, which ends the function. *)
Lemma branch_to_block_ends_function : both [Block 0x40 [Br 0]; Const 7] = (Ok (Some 7), Ok None).
Proof. vm_compute. reflexivity. Qed.

(** So does the [else] after a branch of an [if] that was taken... *)
Lemma taken_if_ends_function :
  both [Const 1; If 0x40 [Nop] (Some [Nop]); Const 7] = (Ok (Some 7), Ok None).
Proof. vm_compute. reflexivity. Qed.

(** ... and an [if] without [else] whose condition is false. *)
Lemma false_if_ends_function : both [Const 0; If 0x40 [Nop] None; Const 7] = (Ok (Some 7), Ok None).
Proof. vm_compute. reflexivity. Qed.

(** A branch does not drop the operands of the blocks it leaves, and the
    result is taken from the bottom of the stack. *)
Lemma branch_keeps_operands :
  both [Const 2; LocalSet 0;
        Loop 0x40 [Const 9; LocalGet 0; Const 1; Sub; LocalSet 0; LocalGet 0; BrIf 0; Drop]; Const 7]
  = (Ok (Some 7), Ok (Some 9)).
Proof. vm_compute. reflexivity. Qed.

(** A negative address is sign-extended, and adding to it overflows. *)
Lemma negative_store_panics :
  both [Const (-1); Const 0; Store 2 0; Const 7] = (Err (Trap address_overflow), Panic).
Proof. vm_compute. reflexivity. Qed.

End WasmSpec.
