(* ===== verification/Swap.v ===== *)
(** * Swap

    Models [src/memory/swap.rs]: free-slot bitmaps, the RAM area and the area
    at the end of a block device, and the operations that move a page between
    a physical frame and a slot.  The frames are reached through raw pointers
    at the physical-memory offset [po], so the state holds the kernel's memory
    beside the backend and the device.  Log lines are not modelled. *)

From S2P Require Import Prelude Bytes Abi Disk Zig ZfsBlock Signal.
Import Disk.

Module Swap.

Definition RAM_SWAP_PAGES : Z := 64.
Definition DISK_SWAP_PAGES : Z := 8192.

Record SwapSlot := mkSlot { area : Z; index_ : Z }.

#[global] Instance SwapSlot_eq_dec : EqDecision SwapSlot.
Proof. solve_decision. Defined.

#[global] Instance SwapSlot_countable : Countable SwapSlot.
Proof. apply (inj_countable' (fun s => (area s, index_ s)) (fun p => mkSlot (fst p) (snd p))). by intros []. Qed.

Inductive SwapStorage := Ram (buf : list Z) | OnDisk (start_sector sectors_per_page : Z).

(** ** Free-slot bitmaps *)

Record FreeBitmap := mkBitmap { bytes : list Z; len : Z }.

Definition new_bitmap (n : Z) (fill : bool) : FreeBitmap :=
  let nbytes := (n + 7) / 8 in
  if fill then
    let full := replicate (Z.to_nat nbytes) 0xFF in
    let tail := n mod 8 in
    mkBitmap (if tail =? 0 then full
              else alter (fun b => Z.land b (Z.shiftl 1 tail - 1)) (Z.to_nat (nbytes - 1)) full) n
  else mkBitmap (zeros nbytes) n.

(** Setting and clearing a bit change a byte as in the block bitmap of
    ZiqaFS. *)
Definition set (idx : Z) (val : bool) (b : FreeBitmap) : res string FreeBitmap :=
  if len b <=? idx then Ok b
  else
    bs ← (if val then ZfsBlock.set_bitmap_bit (bytes b) idx else ZfsBlock.clear_bitmap_bit (bytes b) idx);
    Ok (mkBitmap bs (len b)).

Definition get_bit (idx : Z) (b : FreeBitmap) : res string bool :=
  if len b <=? idx then Ok false
  else x ← index (bytes b) (idx / 8); Ok (Z.land (Z.shiftr x (idx mod 8)) 1 =? 1).

(** The scan over the bytes, [i] being the position of the first. *)
Fixpoint find_first_in (bs : list Z) (n i : Z) : option Z :=
  match bs with
  | [] => None
  | b :: bs =>
      if b =? 0 then find_first_in bs n (i + 1)
      else
        let idx := i * 8 + Signal.trailing_zeros b in
        if idx <? n then Some idx else find_first_in bs n (i + 1)
  end.

Definition find_first_set (b : FreeBitmap) : option Z := find_first_in (bytes b) (len b) 0.

(** ** Areas and the backend *)

Record SwapArea := mkArea { storage : SwapStorage; free_bitmap : FreeBitmap; free_count : Z }.

Definition new_ram : SwapArea :=
  mkArea (Ram (zeros (RAM_SWAP_PAGES * 4096))) (new_bitmap RAM_SWAP_PAGES true) RAM_SWAP_PAGES.

Definition new_disk (start_sector pages : Z) : SwapArea :=
  mkArea (OnDisk start_sector (4096 / 512)) (new_bitmap pages true) pages.

Record Backend (D : Type) := mkBackend {
  areas : list SwapArea;
  total_writes : Z;
  total_reads : Z;
  failed_evictions : Z;
  disk : D;
  mem : Mem
}.
Arguments mkBackend {D}.
Arguments areas {D}.
Arguments total_writes {D}.
Arguments total_reads {D}.
Arguments failed_evictions {D}.
Arguments disk {D}.
Arguments mem {D}.

Section swap.
Context {D : Type} {bd : BlockDevice D} (po : Z).

Definition set_areas (l : list SwapArea) (s : Backend D) : Backend D :=
  mkBackend l (total_writes s) (total_reads s) (failed_evictions s) (disk s) (mem s).
Definition set_disk (d : D) (s : Backend D) : Backend D :=
  mkBackend (areas s) (total_writes s) (total_reads s) (failed_evictions s) d (mem s).
Definition set_mem (m : Mem) (s : Backend D) : Backend D :=
  mkBackend (areas s) (total_writes s) (total_reads s) (failed_evictions s) (disk s) m.
Definition count_write (s : Backend D) : Backend D :=
  mkBackend (areas s) (total_writes s + 1) (total_reads s) (failed_evictions s) (disk s) (mem s).
Definition count_read (s : Backend D) : Backend D :=
  mkBackend (areas s) (total_writes s) (total_reads s + 1) (failed_evictions s) (disk s) (mem s).
Definition count_failure (s : Backend D) : Backend D :=
  mkBackend (areas s) (total_writes s) (total_reads s) (failed_evictions s + 1) (disk s) (mem s).

Abbreviation SW := (M (Backend D) string) (only parsing).

(** The loop of [alloc_slot] over the areas from the [i]-th. *)
Fixpoint alloc_from (l : list SwapArea) (i : Z) : res string (option (SwapSlot * list SwapArea)) :=
  match l with
  | [] => Ok None
  | a :: l =>
      let next := r ← alloc_from l (i + 1);
                  Ok (match r with Some (s, l') => Some (s, a :: l') | None => None end) in
      if free_count a =? 0 then next
      else
        match find_first_set (free_bitmap a) with
        | None => next
        | Some pos =>
            b ← set pos false (free_bitmap a);
            Ok (Some (mkSlot (wrap 16 i) (wrap 32 pos), mkArea (storage a) b (free_count a - 1) :: l))
        end
  end.

Definition alloc_slot : SW (option SwapSlot) :=
  s ← get;
  r ← lift (alloc_from (areas s) 0);
  match r with
  | Some (slot, l) => _ ← put (set_areas l s); mret (Some slot)
  | None => mret None
  end.

Definition free_slot (slot : SwapSlot) : SW unit :=
  s ← get;
  match areas s !! Z.to_nat (area slot) with
  | None => mret tt
  | Some a =>
      if index_ slot <? len (free_bitmap a) then
        free ← lift (get_bit (index_ slot) (free_bitmap a));
        if negb free then
          b ← lift (set (index_ slot) true (free_bitmap a));
          put (set_areas (<[Z.to_nat (area slot) := mkArea (storage a) b (free_count a + 1)]> (areas s)) s)
        else mret tt
      else mret tt
  end.

Definition write_page (slot : SwapSlot) (page : list Z) : SW unit :=
  s ← get;
  match areas s !! Z.to_nat (area slot) with
  | None => throw "invalid swap area"
  | Some a =>
      if len (free_bitmap a) <=? index_ slot then throw "swap slot out of range"
      else
        _ ← match storage a with
            | Ram buf =>
                buf' ← lift (splice (index_ slot * 4096) page buf);
                put (set_areas (<[Z.to_nat (area slot) := mkArea (Ram buf') (free_bitmap a) (free_count a)]> (areas s)) s)
            | OnDisk start_sector spp =>
                match write_sectors (start_sector + index_ slot * spp) spp page (disk s) with
                | (Ok _, d) => put (set_disk d s)
                | (Err _, d) => _ ← put (set_disk d s); throw "swap disk write failed"
                | (Panic, d) => _ ← put (set_disk d s); lift Panic
                | (Fault, d) => _ ← put (set_disk d s); lift Fault
                end
            end;
        modify count_write
  end.

Definition read_page (slot : SwapSlot) : SW (list Z) :=
  s ← get;
  match areas s !! Z.to_nat (area slot) with
  | None => throw "invalid swap area"
  | Some a =>
      if len (free_bitmap a) <=? index_ slot then throw "swap slot out of range"
      else
        page ← match storage a with
               | Ram buf => lift (slice (index_ slot * 4096) 4096 buf)
               | OnDisk start_sector spp =>
                   match read_sectors (start_sector + index_ slot * spp) spp (disk s) with
                   | Ok page => mret page
                   | Err _ => throw "swap disk read failed"
                   | Panic => lift Panic
                   | Fault => lift Fault
                   end
               end;
        _ ← modify count_read;
        mret page
  end.

(** [use_disk] also says that a device is registered; it is [disk s]. *)
Definition init (use_disk : bool) : SW unit :=
  _ ← modify (fun s => match areas s with [] => set_areas [new_ram] s | _ => s end);
  s ← get;
  if use_disk then
    let total := total_sectors (disk s) in
    let required := DISK_SWAP_PAGES * (4096 / 512) in
    if (required + 2048 <? total) && (length (areas s) =? 1)%nat
    then put (set_areas (areas s ++ [new_disk (total - required) DISK_SWAP_PAGES]) s)
    else mret tt
  else mret tt.

(** The slot is given back when the write fails. *)
Definition write_or_free (slot : SwapSlot) (page : list Z) : SW (option SwapSlot) := fun s =>
  match write_page slot page s with
  | (Ok _, s) => (Ok (Some slot), s)
  | (Err _, s) => (_ ← free_slot slot; _ ← modify count_failure; mret None) s
  | (Panic, s) => (Panic, s)
  | (Fault, s) => (Fault, s)
  end.

Definition swap_out (frame_paddr : Z) : SW (option SwapSlot) :=
  s ← get;
  page ← lift (load (mem s) (po + frame_paddr) 4096);
  slot ← alloc_slot;
  match slot with
  | None => _ ← modify count_failure; mret None
  | Some slot => write_or_free slot page
  end.

Definition swap_in (slot : SwapSlot) (dst_frame_paddr : Z) : SW unit :=
  page ← read_page slot;
  s ← get;
  m ← lift (store (mem s) (po + dst_frame_paddr) page);
  put (set_mem m s).

Definition free_page_count (s : Backend D) : Z := foldr (fun a n => free_count a + n) 0 (areas s).
Definition used_page_count (s : Backend D) : Z :=
  foldr (fun a n => len (free_bitmap a) - free_count a + n) 0 (areas s).
Definition capacity_pages (s : Backend D) : Z := foldr (fun a n => len (free_bitmap a) + n) 0 (areas s).

End swap.

(** ** Bitmaps as sets *)

Definition free_at (b : FreeBitmap) (i : Z) : bool := Zig.bit (bytes b) i.

Record bitmap_ok (b : FreeBitmap) : Prop := {
  bm_len : 0 <= len b <= zlen (bytes b) * 8;
  bm_bytes : Forall is_byte (bytes b)
}.

(** The number of free slots. *)
Definition free_slots (b : FreeBitmap) : list Z := filter (fun i => free_at b i = true) (seqZ 0 (len b)).

Lemma set_ok idx val b :
  bitmap_ok b -> 0 <= idx < len b ->
  exists b', set idx val b = Ok b' /\ bitmap_ok b' /\ len b' = len b /\
    forall j, 0 <= j -> free_at b' j = if decide (j = idx) then val else free_at b j.
Proof.
  intros [Hl Hb] Hi. unfold set. destruct (Z.leb_spec (len b) idx); [lia|]. destruct val.
  - destruct (ZfsBlock.set_bitmap_bit_spec (E:=string) (bytes b) idx) as (bs & -> & Hlen & Hby & Hbit); [lia|].
    eexists. split; [done|]. split; [split; cbn; [rewrite Hlen; lia|by apply Hby]|]. split; [done|].
    intros j Hj. unfold free_at. cbn. rewrite Hbit by done. by case_decide; [rewrite bool_decide_true|rewrite bool_decide_false].
  - destruct (ZfsBlock.clear_bitmap_bit_spec (E:=string) (bytes b) idx) as (bs & -> & Hlen & Hby & Hbit); [lia|].
    eexists. split; [done|]. split; [split; cbn; [rewrite Hlen; lia|by apply Hby]|]. split; [done|].
    intros j Hj. unfold free_at. cbn. rewrite Hbit by done. by case_decide; [rewrite bool_decide_true|rewrite bool_decide_false].
Qed.

Lemma get_bit_ok idx b : bitmap_ok b -> 0 <= idx < len b -> get_bit idx b = Ok (free_at b idx).
Proof.
  intros [Hl Hb] Hi. unfold get_bit. destruct (Z.leb_spec (len b) idx); [lia|].
  assert (0 <= idx / 8 < zlen (bytes b)) as Hk.
  { split; [apply Z.div_pos; lia|apply Z.div_lt_upper_bound; lia]. }
  destruct (index_lookup (E:=string) (bytes b) (idx / 8) Hk) as (x & Hx & ->). cbn. f_equal.
  unfold free_at, Zig.bit. rewrite Hx. cbn. change 1 with (Z.ones 1) at 1. rewrite Z.land_ones by lia.
  change (2 ^ 1) with 2. rewrite Z.testbit_odd, Zmod_odd. by destruct (Z.odd _).
Qed.

(** A byte that is not zero has a lowest bit, among its eight. *)
Lemma byte_low_bit b : is_byte b -> b <> 0 ->
  let k := Signal.trailing_zeros b in
  0 <= k < 8 /\ Z.testbit b k = true /\ forall j, 0 <= j < k -> Z.testbit b j = false.
Proof.
  intros Hb H0 k. assert (exists i, 0 <= i < 8 /\ Z.testbit b i = true) as (i & Hi & Hbit).
  { exists (Z.log2 b). split; [|apply Z.bit_log2; unfold is_byte in Hb; lia]. split; [apply Z.log2_nonneg|].
    apply Z.log2_lt_pow2; unfold is_byte in Hb; lia. }
  destruct (Signal.trailing_zeros_spec b i ltac:(lia) Hbit) as (Hk & Ht & Hmin). fold k in Hk, Ht, Hmin.
  split; [|done]. destruct (decide (k < 8)); [lia|]. rewrite Hmin in Hbit by lia. done.
Qed.

Lemma bit_split pre x bs j :
  zlen pre * 8 <= j -> Zig.bit (pre ++ x :: bs) j
  = if decide (j < zlen pre * 8 + 8) then Z.testbit x (j - zlen pre * 8) else Zig.bit (pre ++ x :: bs) j.
Proof.
  intros Hj. case_decide; [|done]. unfold Zig.bit.
  assert (j / 8 = zlen pre) as -> by (symmetry; apply (Z.div_unique _ _ _ (j - zlen pre * 8)); lia).
  unfold zlen. rewrite Nat2Z.id, lookup_app_r, Nat.sub_diag by lia. cbn.
  f_equal. symmetry. apply (Z.mod_unique _ _ (zlen pre)); unfold zlen in *; lia.
Qed.

Lemma find_first_in_spec pre bs n :
  Forall is_byte bs -> n <= zlen (pre ++ bs) * 8 ->
  (forall j, 0 <= j < zlen pre * 8 -> j < n -> Zig.bit (pre ++ bs) j = false) ->
  match find_first_in bs n (zlen pre) with
  | Some i => 0 <= i < n /\ Zig.bit (pre ++ bs) i = true /\
              forall j, 0 <= j < i -> Zig.bit (pre ++ bs) j = false
  | None => forall j, 0 <= j < n -> Zig.bit (pre ++ bs) j = false
  end.
Proof.
  revert pre. induction bs as [|b bs IH]; intros pre Hb Hn Hlow; cbn [find_first_in].
  - rewrite app_nil_r in *. intros j Hj. apply Hlow; lia.
  - apply Forall_cons in Hb as [Hb Hbs]. pose proof (zlen_nonneg pre).
    specialize (IH (pre ++ [b]) Hbs). rewrite <-app_assoc, zlen_snoc in IH. cbn [app] in IH.
    destruct (Z.eqb_spec b 0) as [->|Hne].
    + apply IH; [done|]. intros j Hj Hjn. destruct (decide (j < zlen pre * 8)); [apply Hlow; lia|].
      rewrite bit_split, decide_True, Z.testbit_0_l by lia. done.
    + destruct (byte_low_bit b Hb Hne) as (Hk & Ht & Hmin). set (k := Signal.trailing_zeros b) in *.
      assert (forall j, 0 <= j < zlen pre * 8 + k -> j < n -> Zig.bit (pre ++ b :: bs) j = false) as Hbelow.
      { intros j Hj Hjn. destruct (decide (j < zlen pre * 8)); [apply Hlow; lia|].
        rewrite bit_split, decide_True by lia. apply Hmin. lia. }
      destruct (Z.ltb_spec (zlen pre * 8 + k) n).
      * split; [lia|]. split; [|intros j Hj; apply Hbelow; lia].
        rewrite bit_split, decide_True by lia. by replace (zlen pre * 8 + k - zlen pre * 8) with k by lia.
      * apply IH; [done|]. intros j Hj Hjn. apply Hbelow; lia.
Qed.

Lemma find_first_set_spec b :
  bitmap_ok b ->
  match find_first_set b with
  | Some i => 0 <= i < len b /\ free_at b i = true /\ forall j, 0 <= j < i -> free_at b j = false
  | None => forall j, 0 <= j < len b -> free_at b j = false
  end.
Proof.
  intros [Hl Hb]. apply (find_first_in_spec [] (bytes b) (len b)); [done|cbn; lia|].
  intros j Hj. change (zlen []) with 0 in Hj. lia.
Qed.

(** ** The backend as a map from slots to pages *)

Section spec.
Context {D : Type} {bd : BlockDevice D} {ds : DiskSpec D} (po : Z).

Definition is_disk (a : SwapArea) : bool := match storage a with OnDisk _ _ => true | Ram _ => false end.

Record area_ok (d : D) (a : SwapArea) : Prop := {
  ar_bitmap : bitmap_ok (free_bitmap a);
  ar_len : len (free_bitmap a) <= 2 ^ 32;
  ar_count : free_count a = zlen (free_slots (free_bitmap a));
  ar_storage :
    match storage a with
    | Ram buf => zlen buf = len (free_bitmap a) * 4096 /\ Forall is_byte buf
    | OnDisk st spp => spp = 8 /\ 0 <= st /\ st + len (free_bitmap a) * 8 <= total_sectors d
    end
}.

Record backend_ok (s : Backend D) : Prop := {
  be_areas : forall k a, areas s !! k = Some a -> area_ok (disk s) a;
  be_few : zlen (areas s) <= 2 ^ 16;
  be_one_disk : forall k k' a a', areas s !! k = Some a -> areas s !! k' = Some a' ->
    is_disk a = true -> is_disk a' = true -> k = k';
  be_mem : map_Forall (fun _ b => is_byte b) (mem s)
}.

(** A slot of an area that exists. *)
Definition in_range (s : Backend D) (sl : SwapSlot) : Prop :=
  0 <= area sl /\ exists a, areas s !! Z.to_nat (area sl) = Some a /\ 0 <= index_ sl < len (free_bitmap a).

Definition is_free (s : Backend D) (sl : SwapSlot) : Prop :=
  exists a, areas s !! Z.to_nat (area sl) = Some a /\ free_at (free_bitmap a) (index_ sl) = true.

(** The page a slot holds. *)
Definition content (s : Backend D) (sl : SwapSlot) : list Z :=
  match areas s !! Z.to_nat (area sl) with
  | Some a =>
      match storage a with
      | Ram buf => sub (index_ sl * 4096) 4096 buf
      | OnDisk st spp => range (disk s) (st + index_ sl * spp) spp
      end
  | None => []
  end.

(** What the backend stands for: the pages of the slots in use. *)
Record holds (s : Backend D) (pages : gmap SwapSlot (list Z)) : Prop := {
  ho_ok : backend_ok s;
  ho_dom : forall sl, is_Some (pages !! sl) <-> in_range s sl /\ ~ is_free s sl;
  ho_page : forall sl pg, pages !! sl = Some pg -> content s sl = pg /\ zlen pg = 4096
}.

Definition slot_lt (a b : SwapSlot) : Prop := area a < area b \/ area a = area b /\ index_ a < index_ b.

Lemma filter_id (P : Z -> Prop) `{!forall x, Decision (P x)} (l : list Z) :
  (forall x, x ∈ l -> P x) -> filter P l = l.
Proof.
  induction l as [|x l IH]; intros HP; [done|]. rewrite filter_cons_True by (apply HP; left).
  f_equal. apply IH. intros y Hy. apply HP. by right.
Qed.

(** A counting lemma: taking one element out of a filtered list. *)
Lemma filter_take_one (P Q : Z -> Prop) `{!forall x, Decision (P x), !forall x, Decision (Q x)} l x :
  NoDup l -> x ∈ l -> P x -> (forall y, y ∈ l -> Q y <-> P y /\ y <> x) ->
  zlen (filter P l) = zlen (filter Q l) + 1.
Proof.
  intros Hnd Hx HP HQ. assert (filter P l ≡ₚ x :: filter Q l) as HPm.
  { apply NoDup_Permutation; [by apply NoDup_filter| |].
    - constructor; [|by apply NoDup_filter]. rewrite list_elem_of_filter. intros [Hq _]. destruct (HQ x Hx) as [HQ' _]. by destruct (HQ' Hq).
    - intros y. rewrite elem_of_cons, !list_elem_of_filter. split.
      + intros [Hy Hl]. destruct (decide (y = x)); [by left|right]. split; [|done]. by apply HQ.
      + intros [->|[Hy Hl]]; [done|]. split; [|done]. by apply (HQ y Hl) in Hy as []. }
  unfold zlen. rewrite HPm. simpl. lia.
Qed.

Lemma clear_count b b' i :
  0 <= i < len b -> free_at b i = true -> len b' = len b ->
  (forall j, 0 <= j -> free_at b' j = if decide (j = i) then false else free_at b j) ->
  zlen (free_slots b) = zlen (free_slots b') + 1.
Proof.
  intros Hi Hf Hl Hbit. unfold free_slots. rewrite Hl.
  apply (filter_take_one _ _ _ i); [apply NoDup_seqZ|apply elem_of_seqZ; lia|done|].
  intros y Hy%elem_of_seqZ. rewrite Hbit by lia. by case_decide; subst; naive_solver.
Qed.

Lemma new_bitmap_full n : 0 <= n ->
  bitmap_ok (new_bitmap n true) /\ forall i, 0 <= i < n -> free_at (new_bitmap n true) i = true.
Proof.
  intros Hn. unfold new_bitmap. set (nb := (n + 7) / 8). set (tail := n mod 8). cbn zeta.
  assert (n = 8 * (n / 8) + tail /\ 0 <= tail < 8) as [Hd Ht].
  { split; [apply Z.div_mod; lia|apply Z.mod_pos_bound; lia]. }
  assert (nb = if decide (tail = 0) then n / 8 else n / 8 + 1) as Hnb.
  { unfold nb. case_decide; [symmetry; apply (Z.div_unique _ _ _ 7); lia|].
    symmetry; apply (Z.div_unique _ _ _ (tail - 1)); lia. }
  assert (forall i, 0 <= i < n -> (Z.to_nat (i / 8) < Z.to_nat nb)%nat) as Hin.
  { intros i Hi. assert (i / 8 < nb); [|pose proof (Z.div_pos i 8); lia].
    apply Z.div_lt_upper_bound; [lia|]. case_decide; lia. }
  assert (0 <= nb) by (case_decide; lia).
  destruct (Z.eqb_spec tail 0) as [H0|H0].
  - split; [split; cbn; unfold zlen; rewrite ?length_replicate; [case_decide; lia|by apply Forall_replicate]|].
    intros i Hi. unfold free_at, Zig.bit. cbn [bytes]. rewrite lookup_replicate_2 by auto. cbn.
    apply (Z.ones_spec_low 8). apply Z.mod_pos_bound. lia.
  - rewrite decide_False in Hnb by done. assert (Z.shiftl 1 tail - 1 = Z.ones tail) as ->.
    { rewrite Z.ones_equiv, Z.shiftl_1_l. lia. }
    split; [split; cbn; unfold zlen; rewrite ?length_alter, ?length_replicate; [lia|]|].
    + apply Forall_alter; [by apply Forall_replicate|]. intros x Hx%lookup_replicate_1 _. destruct Hx as [-> _].
      apply (land_fits 8); [lia|]. unfold fits. lia.
    + intros i Hi. unfold free_at, Zig.bit. cbn [bytes]. specialize (Hin i Hi). pose proof (Z.mod_pos_bound i 8).
      destruct (decide (Z.to_nat (i / 8) = Z.to_nat (nb - 1))) as [He|He].
      * rewrite He, list_lookup_alter, decide_True, lookup_replicate_2 by lia.
        change (Z.testbit (Z.land 255 (Z.ones tail)) (i mod 8) = true). rewrite Z.land_spec.
        assert (i / 8 = n / 8) by (pose proof (Z.div_pos i 8); lia). pose proof (Z.div_mod i 8).
        rewrite (Z.ones_spec_low tail) by lia. by rewrite (Z.ones_spec_low 8) by lia.
      * rewrite list_lookup_alter_ne, lookup_replicate_2 by done. cbn. apply (Z.ones_spec_low 8). lia.
Qed.

(** ** Allocation *)

(** The outcome of the loop: the first area with a free slot, its lowest one,
    or none at all. *)
Definition alloc_result (l : list SwapArea) (i : Z) (r : res string (option (SwapSlot * list SwapArea))) : Prop :=
  match r with
  | Ok (Some (sl, l')) =>
      exists k a pos b,
        l !! k = Some a /\ sl = mkSlot (wrap 16 (i + Z.of_nat k)) (wrap 32 pos) /\
        0 <= pos < len (free_bitmap a) /\ free_at (free_bitmap a) pos = true /\
        (forall j, 0 <= j < pos -> free_at (free_bitmap a) j = false) /\
        (forall k' a' j, (k' < k)%nat -> l !! k' = Some a' -> 0 <= j < len (free_bitmap a') ->
          free_at (free_bitmap a') j = false) /\
        set pos false (free_bitmap a) = Ok b /\
        l' = <[k := mkArea (storage a) b (free_count a - 1)]> l
  | Ok None =>
      forall k a j, l !! k = Some a -> 0 <= j < len (free_bitmap a) -> free_at (free_bitmap a) j = false
  | _ => False
  end.

Lemma alloc_result_next a l i r :
  (forall j, 0 <= j < len (free_bitmap a) -> free_at (free_bitmap a) j = false) ->
  alloc_result l (i + 1) r ->
  alloc_result (a :: l) i (r ← r; Ok (match r with Some (s, l') => Some (s, a :: l') | None => None end)).
Proof.
  intros Hnone IH. destruct r as [[[sl l']|]| | |]; try done; cbn in *.
  - destruct IH as (k & a0 & pos & b & Hk & -> & Hp & Hf & Hlow & Hprev & Hs & ->).
    exists (S k), a0, pos, b. do 2 (split; [done || (f_equal; f_equal; lia)|]). do 3 (split; [done|]). split; [|done].
    intros [|k'] a' j Hk' Ha' Hj; [by simplify_eq/=; apply Hnone|]. by apply (Hprev k'); [lia|..].
  - intros [|k] a0 j Ha0 Hj; [by simplify_eq/=; apply Hnone|by eapply IH].
Qed.

Lemma no_free_slots b j : zlen (free_slots b) = 0 -> 0 <= j < len b -> free_at b j = false.
Proof.
  intros H0 Hj. destruct (free_at b j) eqn:Hf; [|done].
  assert (j ∈ free_slots b) as Hin.
  { unfold free_slots. rewrite list_elem_of_filter, elem_of_seqZ. split; [done|lia]. }
  destruct (free_slots b); [by apply elem_of_nil in Hin|]. rewrite zlen_cons in H0. pose proof (zlen_nonneg l). lia.
Qed.

Lemma alloc_from_ok l i :
  (forall k a, l !! k = Some a ->
    bitmap_ok (free_bitmap a) /\ free_count a = zlen (free_slots (free_bitmap a))) ->
  alloc_result l i (alloc_from l i).
Proof.
  revert i. induction l as [|a l IH]; intros i Hok; cbn [alloc_from]; [done|].
  destruct (Hok 0%nat a eq_refl) as [Hb Hc].
  specialize (IH (i + 1) ltac:(intros k; apply (Hok (S k)))).
  pose proof (find_first_set_spec _ Hb) as Hfind.
  destruct (Z.eqb_spec (free_count a) 0) as [H0|H0].
  - apply alloc_result_next; [|done]. intros j. apply no_free_slots. lia.
  - destruct (find_first_set (free_bitmap a)) as [pos|]; [|by apply alloc_result_next].
    destruct Hfind as (Hp & Hf & Hlow). destruct (set_ok pos false _ Hb Hp) as (b & Hs & _). rewrite Hs. cbn.
    exists 0%nat, a, pos, b. split; [done|]. split; [by rewrite Z.add_0_r|]. do 3 (split; [done|]). split; [lia|done].
Qed.

(** ** Changing one area *)

Lemma upd_areas (s : Backend D) k a a' j :
  areas s !! k = Some a ->
  areas (set_areas (<[k := a']> (areas s)) s) !! j = if decide (j = k) then Some a' else areas s !! j.
Proof.
  intros Hk. cbn. case_decide as Hj; [subst; apply list_lookup_insert_eq; by apply lookup_lt_Some in Hk|].
  by apply list_lookup_insert_ne.
Qed.

Lemma upd_backend_ok s k a a' :
  backend_ok s -> areas s !! k = Some a -> area_ok (disk s) a' -> is_disk a' = is_disk a ->
  backend_ok (set_areas (<[k := a']> (areas s)) s).
Proof.
  intros [Ha Hf Hd Hm] Hk Ha' Hd'. split; [| | |done].
  - intros j b. rewrite (upd_areas s k a) by done. case_decide; [by intros [= <-]|apply Ha].
  - cbn. unfold zlen in *. by rewrite length_insert.
  - intros j j' b b'. rewrite !(upd_areas s k a) by done.
    assert (forall j b, (if decide (j = k) then Some a' else areas s !! j) = Some b ->
      exists c, areas s !! j = Some c /\ is_disk c = is_disk b) as Hback.
    { intros i c. case_decide; [|by eauto]. intros [= <-]. subst. eauto. }
    intros (c & Hc & <-)%Hback (c' & Hc' & <-)%Hback. by apply Hd.
Qed.

Lemma upd_in_range s k a a' sl :
  areas s !! k = Some a -> len (free_bitmap a') = len (free_bitmap a) ->
  in_range (set_areas (<[k := a']> (areas s)) s) sl <-> in_range s sl.
Proof.
  intros Hk Hl. unfold in_range. rewrite (upd_areas s k a) by done. case_decide as He; [|done].
  rewrite He, Hk. split; intros (? & ? & [= <-] & ?); eauto with lia.
Qed.

Lemma upd_is_free s k a a' sl :
  areas s !! k = Some a ->
  is_free (set_areas (<[k := a']> (areas s)) s) sl <->
  if decide (Z.to_nat (area sl) = k) then free_at (free_bitmap a') (index_ sl) = true else is_free s sl.
Proof.
  intros Hk. unfold is_free. rewrite (upd_areas s k a) by done. case_decide; [|done]. naive_solver.
Qed.

Lemma upd_content s k a a' sl :
  areas s !! k = Some a -> storage a' = storage a ->
  content (set_areas (<[k := a']> (areas s)) s) sl = content s sl.
Proof.
  intros Hk Hs. unfold content. rewrite (upd_areas s k a) by done. case_decide as He; [|done].
  by rewrite He, Hk, Hs.
Qed.

Definition slot_fits (sl : SwapSlot) : Prop := fits 16 (area sl) /\ fits 32 (index_ sl).

Lemma slot_ext sl sl' : area sl = area sl' -> index_ sl = index_ sl' -> sl = sl'.
Proof. destruct sl, sl'. cbn. by intros -> ->. Qed.

(** The slots in use are known from the map. *)
Lemma holds_free s p sl : holds s p -> in_range s sl -> p !! sl = None <-> is_free s sl.
Proof.
  intros Hh Hr. destruct (ho_dom s p Hh sl) as [H1 H2]. split.
  - intros Hn. destruct Hr as (Ha & a & Hk & Hi). exists a. split; [done|].
    destruct (free_at (free_bitmap a) (index_ sl)) eqn:Hf; [done|].
    destruct H2 as [? Hp]; [|congruence]. split; [by unfold in_range; eauto|].
    intros (a' & Hk' & Hf'). congruence.
  - intros Hf. destruct (p !! sl) eqn:Hp; [|done]. by destruct H1 as [_ []].
Qed.

(** ** Allocating and freeing *)

Definition lowest_free (rng : SwapSlot -> Prop) (p : gmap SwapSlot (list Z)) (sl : SwapSlot) : Prop :=
  rng sl /\ p !! sl = None /\ forall sl', rng sl' -> slot_lt sl' sl -> is_Some (p !! sl').

(** A slot taken or given back in an area. *)
Lemma mark_ok s k a idx val :
  backend_ok s -> areas s !! k = Some a -> 0 <= idx < len (free_bitmap a) ->
  free_at (free_bitmap a) idx = negb val ->
  exists b, set idx val (free_bitmap a) = Ok b /\
    let s' := set_areas (<[k := mkArea (storage a) b (free_count a + if val then 1 else -1)]> (areas s)) s in
    backend_ok s' /\ (forall sl, in_range s' sl <-> in_range s sl) /\
    (forall sl, content s' sl = content s sl) /\
    (forall sl, in_range s sl -> sl <> mkSlot (Z.of_nat k) idx -> is_free s' sl <-> is_free s sl) /\
    (is_free s' (mkSlot (Z.of_nat k) idx) <-> val = true).
Proof.
  intros Hs Hk Hi Hv. destruct (be_areas _ Hs k a Hk) as [Hb Hl Hc Hst].
  destruct (set_ok idx val _ Hb Hi) as (b & Hset & Hb' & Hlb & Hbit). exists b. split; [done|]. cbn zeta.
  set (a' := mkArea _ _ _).
  assert (area_ok (disk s) a') as Ha'.
  { split; cbn; [done|lia| |by rewrite Hlb]. rewrite Hc. destruct val.
    - rewrite (clear_count b (free_bitmap a) idx); [done|lia| |done|].
      + by rewrite Hbit, decide_True by lia.
      + intros j Hj. rewrite Hbit by lia. case_decide; [by subst|done].
    - rewrite (clear_count (free_bitmap a) b idx); [lia|lia|done|done|done]. }
  split; [by apply (upd_backend_ok s k a)|]. split; [by intros sl; apply (upd_in_range s k a)|].
  split; [by intros sl; apply (upd_content s k a)|]. split.
  - intros sl (Ha & c & Hc' & Hj) Hne. rewrite (upd_is_free s k a) by done. case_decide as He; [|done].
    rewrite He, Hk in Hc'. simplify_eq. cbn [free_bitmap a']. rewrite Hbit by lia. rewrite decide_False.
    + unfold is_free. rewrite Hk. naive_solver.
    + intros <-. apply Hne, slot_ext; cbn; lia.
  - rewrite (upd_is_free s k a) by done. cbn. rewrite decide_True by lia. by rewrite Hbit, decide_True by lia.
Qed.

Lemma content_ok s sl : backend_ok s -> in_range s sl -> zlen (content s sl) = 4096 /\ Forall is_byte (content s sl).
Proof.
  intros Hs (Ha & a & Hk & Hi). unfold content. rewrite Hk.
  destruct (be_areas _ Hs _ _ Hk) as [_ _ _ Hst]. destruct (storage a) as [buf|st spp]; destruct Hst as [Hl Hst].
  - split; [apply zlen_sub; lia|by apply sub_bytes].
  - subst spp. split; [by rewrite zlen_range|apply range_bytes].
Qed.

Lemma mark_holds s p k a idx val :
  holds s p -> areas s !! k = Some a -> 0 <= idx < len (free_bitmap a) ->
  free_at (free_bitmap a) idx = negb val ->
  exists b, set idx val (free_bitmap a) = Ok b /\
    let s' := set_areas (<[k := mkArea (storage a) b (free_count a + if val then 1 else -1)]> (areas s)) s in
    let sl := mkSlot (Z.of_nat k) idx in
    (forall x, in_range s' x <-> in_range s x) /\
    holds s' (if val then delete sl p else <[sl := content s sl]> p).
Proof.
  intros Hh Hk Hi Hv. pose proof (ho_ok _ _ Hh) as Hs.
  destruct (mark_ok s k a idx val Hs Hk Hi Hv) as (b & Hset & Hs' & Hr & Hc & Hf & Hfs).
  exists b. split; [done|]. cbn zeta. split; [done|]. set (s' := set_areas _ _) in *. set (sl := mkSlot _ _) in *.
  assert (in_range s sl) as Hin.
  { split; [cbn; lia|]. exists a. cbn. by rewrite Nat2Z.id. }
  split; [done| |].
  - intros x. rewrite Hr. destruct (decide (x = sl)) as [->|Hne].
    + rewrite Hfs. destruct val; [rewrite lookup_delete_eq|rewrite lookup_insert_eq]; unfold is_Some; naive_solver.
    + assert (is_Some ((if val then delete sl p else <[sl:=content s sl]> p) !! x) <-> is_Some (p !! x)) as ->.
      { by destruct val; [rewrite lookup_delete_ne|rewrite lookup_insert_ne]. }
      rewrite (ho_dom _ _ Hh). split; intros [Hx Hx']; (split; [done|]); by rewrite ?(Hf x) in * by done.
  - intros x pg Hx. rewrite Hc. destruct (decide (x = sl)) as [->|Hne].
    + destruct val; [by rewrite lookup_delete_eq in Hx|]. rewrite lookup_insert_eq in Hx. simplify_eq.
      split; [done|by apply content_ok].
    + apply (ho_page _ _ Hh). by destruct val; [rewrite lookup_delete_ne in Hx|rewrite lookup_insert_ne in Hx].
Qed.

Lemma alloc_slot_ok s p :
  holds s p ->
  (exists sl s', alloc_slot s = (Ok (Some sl), s') /\ lowest_free (in_range s) p sl /\
     holds s' (<[sl := content s sl]> p) /\ (forall x, in_range s' x <-> in_range s x) /\ mem s' = mem s) \/
  alloc_slot s = (Ok None, s) /\ forall sl, in_range s sl -> is_Some (p !! sl).
Proof.
  intros Hh. pose proof (ho_ok _ _ Hh) as Hs. pose proof (alloc_from_ok (areas s) 0) as Hal.
  specialize (Hal ltac:(intros k a Hk; by destruct (be_areas _ Hs k a Hk))).
  assert (forall k a j, areas s !! k = Some a -> 0 <= j < len (free_bitmap a) ->
    free_at (free_bitmap a) j = false -> is_Some (p !! mkSlot (Z.of_nat k) j)) as Hused.
  { intros k a j Hk Hj Hf. apply (ho_dom _ _ Hh). unfold in_range, is_free. cbn. rewrite Nat2Z.id, Hk.
    split; [split; [lia|by eauto]|]. intros (c & [= <-] & Hc). congruence. }
  assert (forall x, in_range s x -> exists k a, x = mkSlot (Z.of_nat k) (index_ x) /\
    areas s !! k = Some a /\ 0 <= index_ x < len (free_bitmap a)) as Hsl.
  { intros x (Ha & a & Hk & Hi). exists (Z.to_nat (area x)), a. split; [apply slot_ext; cbn; lia|done]. }
  unfold alloc_slot, mbind, M_bind, mret, M_ret, get, lift, put.
  destruct (alloc_from (areas s) 0) as [[[sl l']|]| | |]; try done; [left|right].
  - destruct Hal as (k & a & pos & b & Hk & -> & Hp & Hf & Hlow & Hprev & Hset & ->).
    destruct (be_areas _ Hs k a Hk) as [_ Hl _ _]. pose proof (lookup_lt_Some _ _ _ Hk) as Hlt.
    pose proof (be_few _ Hs) as Hfew. unfold zlen in Hfew.
    rewrite !wrap_small by (unfold fits; lia). rewrite Z.add_0_l.
    destruct (mark_holds s p k a pos false Hh Hk Hp Hf) as (b' & Hset' & Hr & Hh').
    rewrite Hset in Hset'. injection Hset' as <-.
    do 2 eexists. split; [done|]. split; [|exact (conj Hh' (conj Hr eq_refl))]. assert (in_range s (mkSlot (Z.of_nat k) pos)) as Hin.
    { split; [cbn; lia|]. exists a. cbn. by rewrite Nat2Z.id. }
    split; [done|]. split.
    + apply (holds_free s); [done..|]. exists a. cbn. by rewrite Nat2Z.id.
    + intros [xa xi] (k' & a' & [= ->] & Hk' & Hj)%Hsl. unfold slot_lt. cbn. intros [Hx|[Hx Hx']].
      * apply (Hused k' a'); [done..|]. apply (Hprev k' a'); [lia|done..].
      * assert (k' = k) as -> by lia. simplify_eq. cbn [index_] in Hj. apply (Hused k a); [done..|]. apply Hlow. lia.
  - split; [done|]. intros [xa xi] (k' & a' & [= ->] & Hk' & Hj)%Hsl. apply (Hused k' a'); [done..|]. by apply (Hal k' a').
Qed.

Lemma free_slot_ok s p sl :
  holds s p -> slot_fits sl ->
  exists s', free_slot sl s = (Ok tt, s') /\ holds s' (delete sl p) /\
    (forall x, in_range s' x <-> in_range s x) /\ mem s' = mem s.
Proof.
  intros Hh [Hfa Hfi]. unfold free_slot, mbind, M_bind, mret, M_ret, get, lift, put.
  assert (~ in_range s sl \/ p !! sl = None -> holds s (delete sl p)) as Hkeep.
  { intros Hn. rewrite delete_id; [done|]. destruct (p !! sl) eqn:Hp; [|done]. destruct Hn as [[]|]; [|done].
    apply (ho_dom _ _ Hh). by eexists. }
  destruct (areas s !! Z.to_nat (area sl)) as [a|] eqn:Hk; last first.
  { exists s. split; [done|]. split; [apply Hkeep; left|done]. intros (_ & a & Ha & _). congruence. }
  destruct (Z.ltb_spec (index_ sl) (len (free_bitmap a))); last first.
  { exists s. split; [done|]. split; [apply Hkeep; left|done]. intros (_ & c & Ha & Hi). simplify_eq. lia. }
  assert (0 <= index_ sl < len (free_bitmap a)) as Hi by (unfold fits in Hfi; lia).
  destruct (be_areas _ (ho_ok _ _ Hh) _ _ Hk) as [Hb _ _ _].
  rewrite (get_bit_ok (index_ sl)) by done.
  assert (in_range s sl) as Hin by (unfold in_range, fits in *; eauto with lia).
  destruct (free_at (free_bitmap a) (index_ sl)) eqn:Hf; cbn [negb].
  { exists s. split; [done|]. split; [apply Hkeep; right|done]. apply (holds_free s); [done..|].
    by exists a. }
  destruct (mark_holds s p _ a (index_ sl) true Hh Hk Hi Hf) as (b & -> & Hr & Hh').
  assert (mkSlot (Z.of_nat (Z.to_nat (area sl))) (index_ sl) = sl) as He.
  { apply slot_ext; cbn; [unfold fits in Hfa; lia|done]. }
  cbn zeta in Hh'. rewrite He in Hh'. by eexists.
Qed.

(** ** Reading and writing pages *)

Lemma holds_ext s s' p :
  areas s' = areas s -> disk s' = disk s -> mem s' = mem s -> holds s p -> holds s' p.
Proof.
  intros Ha Hd Hm [[H1 H2 H3 H4] H5 H6]. unfold in_range, is_free, content in *.
  by split; [split|..]; unfold in_range, is_free, content; rewrite ?Ha, ?Hd, ?Hm.
Qed.

(** Writing a page changes the content of its slot only. *)
Lemma holds_write s s' p sl pg :
  holds s p -> is_Some (p !! sl) -> zlen pg = 4096 -> backend_ok s' ->
  (forall x, in_range s' x <-> in_range s x) ->
  (forall x, in_range s x -> is_free s' x <-> is_free s x) ->
  content s' sl = pg -> (forall x, in_range s x -> x <> sl -> content s' x = content s x) ->
  holds s' (<[sl := pg]> p).
Proof.
  intros Hh Hsl Hl Hs' Hr Hf Hc Ho. split; [done| |].
  - intros x. rewrite lookup_insert_is_Some', Hr, (ho_dom _ _ Hh). split.
    + intros [<-|[Hx Hx']]; [|by rewrite Hf]. apply (ho_dom _ _ Hh) in Hsl as [Hx Hx']. by rewrite Hf.
    + intros [Hx Hx']. rewrite Hf in Hx' by done. by right.
  - intros x pg' [[<- <-]|[Hne Hx]]%lookup_insert_Some; [done|].
    rewrite Ho; [by apply (ho_page _ _ Hh)| |done]. apply (ho_dom _ _ Hh). by eexists.
Qed.

Lemma write_page_ok s p sl pg :
  holds s p -> is_Some (p !! sl) -> zlen pg = 4096 -> Forall is_byte pg ->
  exists s', write_page sl pg s = (Ok tt, s') /\ holds s' (<[sl := pg]> p) /\
    (forall x, in_range s' x <-> in_range s x) /\ mem s' = mem s.
Proof.
  intros Hh Hsl Hl Hb. pose proof (ho_ok _ _ Hh) as Hs.
  destruct (proj1 (ho_dom _ _ Hh sl) Hsl) as [(Ha & a & Hk & Hi) Hu].
  destruct (be_areas _ Hs _ _ Hk) as [Hbm Hll Hct Hst].
  unfold write_page, mbind, M_bind, mret, M_ret, get, lift, put, modify. rewrite Hk.
  destruct (Z.leb_spec (len (free_bitmap a)) (index_ sl)); [lia|].
  destruct (storage a) as [buf|st spp] eqn:Hsto.
  - destruct Hst as [Hbl Hbb]. unfold splice. rewrite decide_True by lia. set (a' := mkArea _ _ _).
    set (s' := set_areas (<[Z.to_nat (area sl):=a']> (areas s)) s).
    exists (count_write s'). split; [done|].
    assert (forall x, in_range s' x <-> in_range s x) as Hr by (intros x; by apply (upd_in_range s _ a)).
    split; [|done]. apply (holds_ext s'); [done..|]. apply (holds_write s); try done.
    + apply (upd_backend_ok s _ a); [done..| |by unfold is_disk; rewrite Hsto].
      split; cbn; [done..|]. rewrite zlen_upd by lia. split; [done|by apply upd_bytes].
    + intros x Hx. unfold s'. rewrite (upd_is_free s _ a) by done. case_decide as He; [|done].
      unfold is_free. rewrite He, Hk. naive_solver.
    + unfold content, s'. rewrite (upd_areas s _ a), decide_True by done. cbn. rewrite <-Hl. apply sub_upd_same; lia.
    + intros x (Hxa & c & Hc & Hxi) Hne. unfold content, s'. rewrite (upd_areas s _ a) by done.
      case_decide as He; [|done]. rewrite He, Hk in *. simplify_eq. rewrite Hsto. cbn.
      assert (index_ x <> index_ sl) by (intros Hj; apply Hne, slot_ext; [lia|done]).
      apply sub_upd_other; lia.
  - destruct Hst as (-> & Hst & Hend).
    destruct (write_range (disk s) (st + index_ sl * 8) 8 pg) as (d' & -> & Ht & Hrg & Hout & _); [lia..|done|].
    exists (count_write (set_disk d' s)). split; [done|]. split; [|done].
    apply (holds_ext (set_disk d' s)); [done..|]. apply (holds_write s); try done.
    + destruct Hs as [H1 H2 H3 H4]. split; [|done..]. intros k c Hc. destruct (H1 k c Hc). split; [done..|].
      cbn. by rewrite Ht.
    + unfold content. cbn [areas set_disk disk]. by rewrite Hk, Hsto.
    + intros x (Hxa & c & Hc & Hxi) Hne. unfold content. cbn [areas set_disk disk]. rewrite Hc.
      destruct (storage c) as [|st' spp'] eqn:Hsto'; [done|].
      assert (Z.to_nat (area x) = Z.to_nat (area sl)) as He.
      { by apply (be_one_disk _ Hs _ _ c a Hc Hk); unfold is_disk; rewrite ?Hsto, ?Hsto'. }
      rewrite He, Hk in Hc. simplify_eq. rewrite Hsto in Hsto'. injection Hsto' as <- <-. apply range_ext. intros k Hkr. apply Hout.
      assert (index_ x <> index_ sl) by (intros Hj; apply Hne, slot_ext; [lia|done]). lia.
Qed.

Lemma read_page_ok s p sl :
  holds s p -> in_range s sl ->
  exists s', read_page sl s = (Ok (content s sl), s') /\ holds s' p /\
    (forall x, in_range s' x <-> in_range s x) /\ mem s' = mem s.
Proof.
  intros Hh (Ha & a & Hk & Hi). destruct (be_areas _ (ho_ok _ _ Hh) _ _ Hk) as [_ _ _ Hst].
  unfold read_page, content, mbind, M_bind, mret, M_ret, get, lift, modify. rewrite Hk.
  destruct (Z.leb_spec (len (free_bitmap a)) (index_ sl)); [lia|].
  exists (count_read s). destruct (storage a) as [buf|st spp].
  - unfold slice. rewrite decide_True by lia. split; [done|]. split; [by apply (holds_ext s)|done].
  - destruct Hst as (-> & Hst & Hend). rewrite read_range by lia.
    split; [done|]. split; [by apply (holds_ext s)|done].
Qed.

Lemma read_page_bad s sl :
  slot_fits sl -> ~ in_range s sl -> exists e, read_page sl s = (Err e, s).
Proof.
  intros [Hfa Hfi] Hn. unfold read_page, mbind, M_bind, mret, M_ret, get, lift, throw.
  destruct (areas s !! Z.to_nat (area sl)) as [a|] eqn:Hk; [|by eexists].
  destruct (Z.leb_spec (len (free_bitmap a)) (index_ sl)); [by eexists|].
  destruct Hn. unfold in_range, fits in *. eauto with lia.
Qed.

(** ** The contract of the backend *)

Inductive op := Out (frame : Z) | In (sl : SwapSlot) (frame : Z) | Free (sl : SwapSlot) | Alloc.

(** The public functions; those that return no slot give [None]. *)
Definition exec (o : op) : M (Backend D) string (option SwapSlot) :=
  match o with
  | Out f => swap_out po f
  | In sl f => _ ← swap_in po sl f; mret None
  | Free sl => _ ← free_slot sl; mret None
  | Alloc => alloc_slot
  end.

(** The frames are mapped, and a slot is a pair of a 16-bit and a 32-bit
    number. *)
Definition op_ok (m : Mem) (o : op) : Prop :=
  match o with
  | Out f => mapped m (po + f) 4096
  | In sl f => slot_fits sl /\ mapped m (po + f) 4096
  | Free sl => slot_fits sl
  | Alloc => True
  end.

(** The abstract machine: pages kept under slots, beside the memory.  [rng]
    are the slots there are. *)
Inductive spec_step (rng : SwapSlot -> Prop) :
    op -> res string (option SwapSlot) -> gmap SwapSlot (list Z) * Mem -> gmap SwapSlot (list Z) * Mem -> Prop :=
| out_page f pg sl p m :
    load (E:=string) m (po + f) 4096 = Ok pg -> lowest_free rng p sl ->
    spec_step rng (Out f) (Ok (Some sl)) (p, m) (<[sl := pg]> p, m)
| out_full f p m :
    (forall sl, rng sl -> is_Some (p !! sl)) -> spec_step rng (Out f) (Ok None) (p, m) (p, m)
| in_page sl f pg p m :
    p !! sl = Some pg -> spec_step rng (In sl f) (Ok None) (p, m) (p, store_bytes m (po + f) pg)
| in_unused sl f pg p m :
    rng sl -> p !! sl = None -> zlen pg = 4096 ->
    spec_step rng (In sl f) (Ok None) (p, m) (p, store_bytes m (po + f) pg)
| in_outside sl f e p m :
    ~ rng sl -> spec_step rng (In sl f) (Err e) (p, m) (p, m)
| free_page sl p m : spec_step rng (Free sl) (Ok None) (p, m) (delete sl p, m)
| alloc_page sl pg p m :
    lowest_free rng p sl -> zlen pg = 4096 -> spec_step rng Alloc (Ok (Some sl)) (p, m) (<[sl := pg]> p, m)
| alloc_full p m :
    (forall sl, rng sl -> is_Some (p !! sl)) -> spec_step rng Alloc (Ok None) (p, m) (p, m).

Lemma load_bytes (m : Mem) a n bs :
  map_Forall (fun _ b => is_byte b) m -> load (E:=string) m a n = Ok bs -> Forall is_byte bs.
Proof.
  intros Hm Hl. apply Forall_lookup_2. intros i b Hi.
  assert (Z.of_nat i < n) as Hn.
  { apply lookup_lt_Some in Hi. apply load_length in Hl. unfold zlen in Hl. lia. }
  rewrite (load_lookup _ _ _ _ _ Hl Hn) in Hi. by apply (Hm _ _ Hi).
Qed.

Lemma swap_out_ok s p f :
  holds s p -> mapped (mem s) (po + f) 4096 ->
  exists r s' p', swap_out po f s = (r, s') /\ spec_step (in_range s) (Out f) r (p, mem s) (p', mem s') /\
    holds s' p' /\ (forall x, in_range s' x <-> in_range s x).
Proof.
  intros Hh Hm. destruct (load_mapped (E:=string) _ _ _ Hm) as [pg Hpg].
  assert (zlen pg = 4096) as Hl by by apply load_length in Hpg.
  pose proof (load_bytes _ _ _ _ (be_mem _ (ho_ok _ _ Hh)) Hpg) as Hb.
  unfold swap_out, write_or_free, mbind, M_bind, mret, M_ret, get, lift, modify. rewrite Hpg.
  destruct (alloc_slot_ok s p Hh) as [(sl & s' & -> & Hlow & Hh' & Hr & Hm')|[-> Hfull]].
  - destruct (write_page_ok s' _ sl pg Hh') as (s2 & -> & Hh2 & Hr2 & Hm2); [|done..|].
    { rewrite lookup_insert_eq. by eexists. }
    rewrite insert_insert_eq in Hh2. exists (Ok (Some sl)), s2, (<[sl:=pg]> p). split; [done|].
    rewrite Hm2, Hm'. split; [by constructor|]. split; [done|]. intros x. by rewrite Hr2.
  - exists (Ok None), (count_failure s), p. split; [done|]. split; [by constructor|].
    split; [by apply (holds_ext s)|done].
Qed.

Lemma holds_set_mem s p m :
  holds s p -> map_Forall (fun _ b => is_byte b) m -> holds (set_mem m s) p.
Proof. intros [[H1 H2 H3 H4] H5 H6] Hm. by split; [split|..]. Qed.

Lemma in_range_dec s sl : slot_fits sl -> in_range s sl \/ ~ in_range s sl.
Proof.
  intros [Ha Hi]. unfold in_range, fits in *. destruct (areas s !! Z.to_nat (area sl)) as [a|].
  - destruct (decide (index_ sl < len (free_bitmap a))); [left; eauto with lia|right].
    intros (_ & ? & [= <-] & ?). lia.
  - right. by intros (_ & ? & ? & _).
Qed.

Lemma store_bytes_bytes (m : Mem) a bs :
  map_Forall (fun _ b => is_byte b) m -> Forall is_byte bs ->
  map_Forall (fun _ b => is_byte b) (store_bytes m a bs).
Proof.
  intros Hm Hb i b. rewrite store_bytes_lookup. case_decide; [|apply Hm].
  intros Hi. by apply (Forall_lookup_1 _ _ _ _ Hb Hi).
Qed.

Lemma swap_in_range s p sl f :
  holds s p -> in_range s sl -> mapped (mem s) (po + f) 4096 ->
  exists s', swap_in po sl f s = (Ok tt, s') /\ mem s' = store_bytes (mem s) (po + f) (content s sl) /\
    holds s' p /\ (forall x, in_range s' x <-> in_range s x).
Proof.
  intros Hh Hin Hm. unfold swap_in, mbind, M_bind, mret, M_ret, get, lift, put.
  destruct (read_page_ok s p sl Hh Hin) as (s1 & -> & Hh1 & Hr1 & Hm1).
  destruct (content_ok s sl (ho_ok _ _ Hh) Hin) as [Hl Hb].
  rewrite Hm1, store_Ok by by rewrite Hl. eexists. split; [done|]. split; [done|]. split; [|done].
  apply holds_set_mem; [done|]. apply store_bytes_bytes; [|done]. apply (be_mem _ (ho_ok _ _ Hh)).
Qed.

Lemma swap_in_ok s p sl f :
  holds s p -> slot_fits sl -> mapped (mem s) (po + f) 4096 ->
  exists r s', exec (In sl f) s = (r, s') /\ spec_step (in_range s) (In sl f) r (p, mem s) (p, mem s') /\
    holds s' p /\ (forall x, in_range s' x <-> in_range s x).
Proof.
  intros Hh Hsl Hm. unfold exec, mbind, M_bind, mret, M_ret.
  destruct (in_range_dec s sl Hsl) as [Hin|Hin].
  - destruct (swap_in_range s p sl f Hh Hin Hm) as (s' & -> & Hm' & Hh' & Hr'). exists (Ok None), s'.
    split; [done|]. split; [|done]. rewrite Hm'. destruct (p !! sl) as [pg|] eqn:Hp.
    + destruct (ho_page _ _ Hh _ _ Hp) as [-> _]. by constructor.
    + apply in_unused; [done..|]. by apply content_ok; [apply (ho_ok _ _ Hh)|].
  - unfold swap_in, mbind, M_bind. destruct (read_page_bad s sl Hsl Hin) as [e ->].
    do 2 eexists. split; [done|]. by split; [constructor|].
Qed.

Lemma exec_out f s : exec (Out f) s = swap_out po f s.
Proof. done. Qed.

(** One operation. *)
Lemma exec_simulates s p o :
  holds s p -> op_ok (mem s) o ->
  exists r s' p', exec o s = (r, s') /\ spec_step (in_range s) o r (p, mem s) (p', mem s') /\
    holds s' p' /\ (forall x, in_range s' x <-> in_range s x).
Proof.
  intros Hh Ho. destruct o as [f|sl f|sl|].
  - by apply swap_out_ok.
  - destruct Ho. destruct (swap_in_ok s p sl f) as (r & s' & ?); [done..|]. by exists r, s', p.
  - destruct (free_slot_ok s p sl Hh Ho) as (s' & Hf & Hh' & Hr & Hm).
    exists (Ok None), s', (delete sl p). cbn. unfold mbind, M_bind. rewrite Hf, Hm.
    split; [done|]. split; [constructor|done].
  - cbn. destruct (alloc_slot_ok s p Hh) as [(sl & s' & -> & Hlow & Hh' & Hr & Hm')|[-> Hfull]].
    + do 3 eexists. split; [done|]. rewrite Hm'. split; [|done]. constructor; [done|].
      by apply content_ok; [apply (ho_ok _ _ Hh)|apply Hlow].
    + exists (Ok None), s, p. split; [done|]. by split; [constructor|].
Qed.

(** ** Runs *)

Fixpoint exec_all (ops : list op) (s : Backend D) : list (res string (option SwapSlot)) * Backend D :=
  match ops with
  | [] => ([], s)
  | o :: ops => let '(r, s) := exec o s in let '(rs, s) := exec_all ops s in (r :: rs, s)
  end.

Inductive spec_run (rng : SwapSlot -> Prop) : list op -> list (res string (option SwapSlot)) ->
    gmap SwapSlot (list Z) * Mem -> gmap SwapSlot (list Z) * Mem -> Prop :=
| run_nil st : spec_run rng [] [] st st
| run_cons o ops r rs st1 st2 st3 :
    spec_step rng o r st1 st2 -> spec_run rng ops rs st2 st3 -> spec_run rng (o :: ops) (r :: rs) st1 st3.

Lemma lowest_free_iff (rng rng' : SwapSlot -> Prop) p sl :
  (forall x, rng' x <-> rng x) -> lowest_free rng' p sl -> lowest_free rng p sl.
Proof. intros Hr (H1 & H2 & H3). unfold lowest_free. setoid_rewrite <-Hr. done. Qed.

Lemma spec_step_iff (rng rng' : SwapSlot -> Prop) o r st st' :
  (forall x, rng' x <-> rng x) -> spec_step rng' o r st st' -> spec_step rng o r st st'.
Proof.
  intros Hr Hs. destruct Hs; try (constructor; try done; (by eapply lowest_free_iff) || by setoid_rewrite <-Hr).
Qed.

Lemma spec_run_iff (rng rng' : SwapSlot -> Prop) ops rs st st' :
  (forall x, rng' x <-> rng x) -> spec_run rng' ops rs st st' -> spec_run rng ops rs st st'.
Proof. induction 2; econstructor; eauto using spec_step_iff. Qed.

Lemma mapped_store (m : Mem) a bs b n : mapped m b n -> mapped (store_bytes m a bs) b n.
Proof.
  rewrite !mapped_alt. intros H i Hi. rewrite store_bytes_lookup. case_decide; [|by apply H].
  apply lookup_lt_is_Some. unfold zlen in *. lia.
Qed.

(** No operation unmaps a frame. *)
Lemma step_op_ok rng o r p m p' m' o' :
  spec_step rng o r (p, m) (p', m') -> op_ok m o' -> op_ok m' o'.
Proof.
  intros Hs. assert (m' = m \/ exists a bs, m' = store_bytes m a bs) as [->|(a & bs & ->)]; [|done|].
  { inversion Hs; eauto. }
  destruct o'; cbn; [apply mapped_store|intros []; split; [done|by apply mapped_store]|done..].
Qed.

Lemma exec_all_simulates ops s p :
  holds s p -> Forall (op_ok (mem s)) ops ->
  exists rs s' p', exec_all ops s = (rs, s') /\ spec_run (in_range s) ops rs (p, mem s) (p', mem s') /\
    holds s' p' /\ (forall x, in_range s' x <-> in_range s x) /\ (forall o, op_ok (mem s) o -> op_ok (mem s') o).
Proof.
  revert s p. induction ops as [|o ops IH]; intros s p Hh Ho; cbn [exec_all].
  - exists [], s, p. split; [done|]. by split; [constructor|].
  - apply Forall_cons in Ho as [Ho Hops].
    destruct (exec_simulates s p o Hh Ho) as (r & s1 & p1 & -> & Hst & Hh1 & Hr1).
    assert (forall o', op_ok (mem s) o' -> op_ok (mem s1) o') as Hok by (intros o'; by apply (step_op_ok _ _ _ _ _ _ _ o' Hst)).
    destruct (IH s1 p1 Hh1) as (rs & s2 & p2 & -> & Hrun & Hh2 & Hr2 & Hok2).
    { eapply Forall_impl; [exact Hops|]. apply Hok. }
    do 3 eexists. split; [done|]. split; [|split; [exact Hh2|]].
    + econstructor; [exact Hst|]. by apply (spec_run_iff _ (in_range s1)).
    + split; [|by auto]. intros x. by rewrite Hr2.
Qed.

(** A page stays under its slot until the slot is freed. *)
Lemma step_keeps rng o r p m p' m' sl pg :
  spec_step rng o r (p, m) (p', m') -> p !! sl = Some pg -> o <> Free sl -> p' !! sl = Some pg.
Proof.
  intros Hs Hp Ho. assert (forall x, lowest_free rng p x -> x <> sl) as Hne.
  { intros x (_ & Hn & _) ->. congruence. }
  inversion Hs; simplify_eq; try done; try (rewrite lookup_insert_ne by auto; done).
  rewrite lookup_delete_ne; [done|congruence].
Qed.

Lemma run_keeps rng ops rs p m p' m' sl pg :
  spec_run rng ops rs (p, m) (p', m') -> p !! sl = Some pg -> Free sl ∉ ops -> p' !! sl = Some pg.
Proof.
  remember (p, m) as st eqn:H1. remember (p', m') as st' eqn:H2. intros Hr. revert p m H1.
  induction Hr as [st|o ops r rs st1 [p2 m2] st3 Hs _ IH]; intros p m -> Hp Ho; [by simplify_eq|].
  rewrite elem_of_cons in Ho. apply (IH H2 p2 m2); [done| |by auto].
  apply (step_keeps _ _ _ _ _ _ _ _ _ Hs Hp). naive_solver.
Qed.

(** ** Start *)

Lemma new_area_ok d st n :
  0 <= n <= 2 ^ 32 ->
  match st with
  | Ram buf => zlen buf = n * 4096 /\ Forall is_byte buf
  | OnDisk start spp => spp = 8 /\ 0 <= start /\ start + n * 8 <= total_sectors d
  end ->
  area_ok d (mkArea st (new_bitmap n true) n).
Proof.
  intros Hn Hst. destruct (new_bitmap_full n) as [Hb Hf]; [lia|].
  assert (len (new_bitmap n true) = n) as Hl by done.
  split; cbn [free_bitmap free_count storage]; rewrite ?Hl; [done|lia| |done].
  unfold free_slots. rewrite Hl. assert (filter (fun i => free_at (new_bitmap n true) i = true) (seqZ 0 n) = seqZ 0 n) as ->.
  { apply filter_id. intros i Hi%elem_of_seqZ. apply Hf. lia. }
  unfold zlen. rewrite length_seqZ. lia.
Qed.

Lemma init_areas s use_disk :
  areas s = [] ->
  exists l, init use_disk s = (Ok tt, set_areas l s) /\
    (l = [new_ram] \/
     l = [new_ram; new_disk (total_sectors (disk s) - 65536) DISK_SWAP_PAGES] /\ 65536 + 2048 < total_sectors (disk s)).
Proof.
  intros Ha. unfold init, mbind, M_bind, mret, M_ret, get, put, modify. rewrite Ha.
  destruct use_disk; [|by eauto]. cbn [disk set_areas areas].
  change (DISK_SWAP_PAGES * (4096 / 512)) with 65536.
  destruct (Z.ltb_spec (65536 + 2048) (total_sectors (disk s))); cbn; eauto.
Qed.

Lemma init_holds s use_disk :
  areas s = [] -> map_Forall (fun _ b => is_byte b) (mem s) ->
  exists s', init use_disk s = (Ok tt, s') /\ holds s' ∅ /\ mem s' = mem s.
Proof.
  intros Ha Hm. destruct (init_areas s use_disk Ha) as (l & Hi & Hl).
  exists (set_areas l s). split; [done|]. split; [|done].
  assert (forall a, a ∈ l -> area_ok (disk s) a /\ exists n, 0 <= n /\ free_bitmap a = new_bitmap n true) as Hok.
  { assert (area_ok (disk s) new_ram) as Hram.
    { apply new_area_ok; [done|]. split; [by rewrite zlen_zeros|apply zeros_bytes]. }
    intros a Hin. destruct Hl as [->|[-> Ht]]; set_unfold in Hin.
    - destruct Hin as [->|[]]. split; [done|]. by exists RAM_SWAP_PAGES.
    - destruct Hin as [->|[->|[]]]; [split; [done|by exists RAM_SWAP_PAGES]|].
      split; [|by exists DISK_SWAP_PAGES]. apply new_area_ok; [done|]. split; [done|]. unfold DISK_SWAP_PAGES. lia. }
  split; [split|..]; cbn [areas set_areas disk mem]; [| | |done| |done].
  - intros k a Hk. by apply Hok, (list_elem_of_lookup_2 _ k).
  - by destruct Hl as [->|[-> _]].
  - destruct Hl as [->|[-> _]]; intros [|[|]] [|[|]] a a' Hk Hk'; simplify_eq/=; done.
  - intros sl. rewrite lookup_empty. split; [by intros []|]. intros [(_ & a & Hk & Hr) []]. exists a. split; [done|].
    destruct (Hok a) as (_ & n & Hn & Hb); [by apply (list_elem_of_lookup_2 _ _ _ Hk)|].
    rewrite Hb in *. by apply new_bitmap_full.
Qed.

(** C29. The swap backend refines an abstract machine that keeps pages under
    slots.  Started without areas, [init] succeeds, and any sequence of swap
    outs, swap ins, frees and allocations on mapped frames then runs without a
    panic or a wild access and gives the machine's answers: a page swapped out
    goes with its bytes to the lowest free slot of the first area that has
    one, the other pages are left alone, a full backend refuses, swapping in
    copies the page to the frame, and a slot outside the areas is an error. *)
Theorem swap_refines s use_disk ops :
  areas s = [] -> map_Forall (fun _ b => is_byte b) (mem s) -> Forall (op_ok (mem s)) ops ->
  exists s1 rs s' p',
    init use_disk s = (Ok tt, s1) /\ exec_all ops s1 = (rs, s') /\
    spec_run (in_range s1) ops rs (∅, mem s) (p', mem s') /\ holds s' p'.
Proof.
  intros Ha Hm Ho. destruct (init_holds s use_disk Ha Hm) as (s1 & Hi & Hh & Hm1). rewrite <-Hm1 in *.
  destruct (exec_all_simulates ops s1 ∅ Hh Ho) as (rs & s' & p' & He & Hr & Hh' & _).
  by exists s1, rs, s', p'.
Qed.

(** A page that was swapped out comes back unchanged.  After any history
    of operations from the start, a frame is swapped out and gets a slot; any
    further operations follow that do not free the slot (the frame itself may
    be reused); swapping the slot into a frame then succeeds and the frame
    holds the bytes of the page. *)
Theorem swap_restores s use_disk ops1 f ops2 g sl pg rs1 s1 s2 rs2 s3 :
  areas s = [] -> map_Forall (fun _ b => is_byte b) (mem s) ->
  Forall (op_ok (mem s)) (ops1 ++ Out f :: ops2) -> mapped (mem s) (po + g) 4096 -> Free sl ∉ ops2 ->
  exec_all ops1 (snd (init use_disk s)) = (rs1, s1) ->
  load (E:=string) (mem s1) (po + f) 4096 = Ok pg ->
  exec (Out f) s1 = (Ok (Some sl), s2) ->
  exec_all ops2 s2 = (rs2, s3) ->
  exists s4, swap_in po sl g s3 = (Ok tt, s4) /\ load (E:=string) (mem s4) (po + g) 4096 = Ok pg.
Proof.
  intros Ha Hm Ho Hg Hf H1 Hpg H2 H3. apply Forall_app in Ho as [Ho1 [Hof Ho2]%Forall_cons].
  destruct (init_holds s use_disk Ha Hm) as (s0 & Hi & Hh & Hm0). rewrite Hi in H1. cbn in H1. rewrite <-Hm0 in *.
  destruct (exec_all_simulates ops1 s0 ∅ Hh Ho1) as (? & ? & p1 & E & _ & Hh1 & _ & Hk1). rewrite H1 in E. simplify_eq.
  destruct (exec_simulates _ p1 (Out f) Hh1 (Hk1 _ Hof)) as (? & ? & p2 & E & Hs2 & Hh2 & _). rewrite H2 in E. simplify_eq.
  pose proof (fun o => step_op_ok _ _ _ _ _ _ _ o Hs2) as Hk2.
  destruct (exec_all_simulates ops2 _ p2 Hh2) as (? & ? & p3 & E & Hr3 & Hh3 & _ & Hk3).
  { eapply Forall_impl; [exact Ho2|]. auto. }
  rewrite H3 in E. simplify_eq.
  assert (p3 !! sl = Some pg) as Hp.
  { apply (run_keeps _ _ _ _ _ _ _ _ _ Hr3); [|done]. inversion Hs2; simplify_eq. rewrite lookup_insert_eq. congruence. }
  destruct (swap_in_range _ p3 sl g Hh3) as (s4 & Hin & Hm4 & _).
  { apply (ho_dom _ _ Hh3). by eexists. }
  { apply (Hk3 (Out g)), Hk2, Hk1. done. }
  exists s4. split; [done|]. destruct (ho_page _ _ Hh3 _ _ Hp) as [Hc Hl]. rewrite Hm4, Hc, <-Hl. apply load_store_same.
Qed.

End spec.

(** ** Examples: one frame of memory, and a disk of 40 MiB *)

Definition demo_mem : Mem := store_bytes ∅ 0 (replicate 4096 7).
Definition demo_backend : Backend MemDisk :=
  mkBackend [] 0 0 0 (mkDisk (fun _ => []) 81920) demo_mem.

Lemma demo_bytes : map_Forall (fun _ b => is_byte b) demo_mem.
Proof.
  intros i b. unfold demo_mem. rewrite store_bytes_lookup. case_decide; [|by rewrite lookup_empty].
  by intros [-> _]%lookup_replicate_1.
Qed.

Lemma demo_load : load (E:=string) demo_mem 0 4096 = Ok (replicate 4096 7).
Proof. apply (load_store_same (E:=string) ∅ 0 (replicate 4096 7)). Qed.

Lemma demo_mapped : mapped demo_mem 0 4096.
Proof. apply (load_Ok_mapped _ _ _ _ demo_load). Qed.

Lemma swap_refines_witness : exists s1 rs s' p',
  init true demo_backend = (Ok tt, s1) /\ exec_all 0 [Out 0; Alloc; Free (mkSlot 0 0)] s1 = (rs, s') /\
  spec_run 0 (in_range s1) [Out 0; Alloc; Free (mkSlot 0 0)] rs (∅, mem demo_backend) (p', mem s') /\ holds s' p'.
Proof.
  apply (swap_refines 0 demo_backend true); [done|apply demo_bytes|].
  constructor; [apply demo_mapped|]. by repeat constructor.
Defined.

Lemma demo_swap_out :
  fst (exec 0 (Out 0) (snd (init true demo_backend))) = Ok (Some (mkSlot 0 0)).
Proof. vm_compute. reflexivity. Qed.

Lemma swap_restores_witness : exists s4,
  swap_in 0 (mkSlot 0 0) 0 (snd (exec 0 (Out 0) (snd (init true demo_backend)))) = (Ok tt, s4) /\
  load (E:=string) (mem s4) 0 4096 = Ok (replicate 4096 7).
Proof.
  apply (swap_restores 0 demo_backend true [] 0 [] 0 (mkSlot 0 0) (replicate 4096 7) []
    (snd (init true demo_backend)) (snd (exec 0 (Out 0) (snd (init true demo_backend)))) []);
    [done|apply demo_bytes| |apply demo_mapped|apply not_elem_of_nil|done|apply demo_load| |done].
  - constructor; [apply demo_mapped|constructor].
  - rewrite <-demo_swap_out. apply surjective_pairing.
Defined.

End Swap.
