(* ===== verification/Eviction.v ===== *)
(** * Page eviction

    Models [src/memory/eviction.rs]: the registry of evictable frames and the
    CLOCK scan that swaps one out.  The registry and the swap backend are
    behind separate locks; the state pairs them. *)

From S2P Require Import Prelude Bytes Abi Disk Swap.
Import Disk Swap.

Module Eviction.

(** A frame is its start address. *)
Record EvictablePage := mkPage { frame : Z; referenced : bool }.

Record Registry (D : Type) := mkReg { pages : list EvictablePage; clock_hand : Z; swap : Backend D }.
Arguments mkReg {D}.
Arguments pages {D}.
Arguments clock_hand {D}.
Arguments swap {D}.

Section eviction.
Context {D : Type} {bd : BlockDevice D} (po : Z).

Abbreviation EV := (M (Registry D) string) (only parsing).

Definition register_page (f : Z) (r : Registry D) : Registry D :=
  if existsb (fun p => frame p =? f) (pages r) then r
  else mkReg (pages r ++ [mkPage f true]) (clock_hand r) (swap r).

Definition mark_referenced (f : Z) (r : Registry D) : Registry D :=
  match list_find (fun p => frame p = f) (pages r) with
  | Some (i, p) => mkReg (<[i := mkPage (frame p) true]> (pages r)) (clock_hand r) (swap r)
  | None => r
  end.

(** [swap::swap_out], in the registry's state. *)
Definition swap_out_page (f : Z) : EV (option SwapSlot) := fun r =>
  let '(x, b) := swap_out po f (swap r) in (x, mkReg (pages r) (clock_hand r) b).

(** The [n] turns that are left of the scan; [len] is the number of pages when
    it began. *)
Fixpoint clock (n : nat) (len : Z) : EV (option Z) :=
  match n with
  | O => mret None
  | S n =>
      r ← get;
      page ← lift (index (pages r) (clock_hand r));
      let advance :=
        _ ← modify (fun r => mkReg (pages r) ((clock_hand r + 1) mod len) (swap r));
        clock n len in
      if negb (referenced page) then
        slot ← swap_out_page (frame page);
        match slot with
        | Some _ =>
            _ ← modify (fun r =>
                  let ps := delete (Z.to_nat (clock_hand r)) (pages r) in
                  mkReg ps (if zlen ps <=? clock_hand r then 0 else clock_hand r) (swap r));
            mret (Some (frame page))
        | None => advance
        end
      else
        _ ← modify (fun r => mkReg (<[Z.to_nat (clock_hand r) := mkPage (frame page) false]> (pages r))
                               (clock_hand r) (swap r));
        advance
  end.

Definition evict_one : EV (option Z) :=
  r ← get;
  let len := zlen (pages r) in
  if len =? 0 then mret None else clock (Z.to_nat (len * 2)) len.

End eviction.

(** ** The clock *)

Section clock.
Context {D : Type} {bd : BlockDevice D} {ds : DiskSpec D} (po : Z).
Implicit Types (r : Registry D) (b : Backend D).

Definition frames r : list Z := map frame (pages r).

(** The hand points at a page, unless there is none, and no frame is
    registered twice. *)
Definition reg_ok r : Prop :=
  0 <= clock_hand r /\ (clock_hand r < zlen (pages r) \/ clock_hand r = 0 /\ pages r = []) /\ NoDup (frames r).

(** How far the hand is from a position. *)
Definition dist (len h i : Z) : Z := (i - h) mod len.

(** The pages passed in [k] turns lose their second chance. *)
Definition clear (h k : Z) (ps : list EvictablePage) : list EvictablePage :=
  imap (fun i p => if decide (dist (zlen ps) h (Z.of_nat i) < k) then mkPage (frame p) false else p) ps.

Lemma zlen_clear h k ps : zlen (clear h k ps) = zlen ps.
Proof. unfold zlen, clear. by rewrite length_imap. Qed.

Lemma clear_lookup h k ps i :
  clear h k ps !! i = (fun p => if decide (dist (zlen ps) h (Z.of_nat i) < k) then mkPage (frame p) false else p) <$> ps !! i.
Proof. apply list_lookup_imap. Qed.

Lemma clear_0 h ps : 0 < zlen ps -> clear h 0 ps = ps.
Proof.
  intros Hl. apply list_eq. intros i. rewrite clear_lookup. destruct (ps !! i); [|done]. cbn.
  rewrite decide_False; [done|]. unfold dist. pose proof (Z.mod_pos_bound (Z.of_nat i - h) (zlen ps)). lia.
Qed.

Lemma frames_clear h k ps : map frame (clear h k ps) = map frame ps.
Proof.
  apply list_eq. intros i. rewrite !list_lookup_fmap, clear_lookup. destruct (ps !! i); [|done]. cbn. by case_decide.
Qed.

(** The position at a distance, and its uniqueness. *)
Lemma dist_at len h k : 0 <= k < len -> dist len h ((h + k) mod len) = k.
Proof.
  intros Hk. unfold dist. rewrite Zminus_mod_idemp_l. replace (h + k - h) with k by lia. apply Z.mod_small. lia.
Qed.

Lemma at_dist len h i : 0 <= i < len -> (h + dist len h i) mod len = i.
Proof.
  intros Hi. unfold dist. rewrite Zplus_mod_idemp_r. replace (h + (i - h)) with i by lia. apply Z.mod_small. lia.
Qed.

(** A turn at a referenced page. *)
Lemma clock_pass n r f :
  0 <= clock_hand r -> pages r !! Z.to_nat (clock_hand r) = Some (mkPage f true) ->
  clock po (S n) (zlen (pages r)) r =
  clock po n (zlen (pages r))
    (mkReg (<[Z.to_nat (clock_hand r) := mkPage f false]> (pages r)) ((clock_hand r + 1) mod zlen (pages r)) (swap r)).
Proof.
  intros Hh Hp. cbn [clock]. unfold mbind, M_bind, get, lift, modify, index. rewrite decide_True, Hp by done. done.
Qed.

Lemma clock_passes k n ps h b :
  (Z.of_nat k <= zlen ps) -> 0 <= h < zlen ps ->
  (forall i p, ps !! i = Some p -> dist (zlen ps) h (Z.of_nat i) < Z.of_nat k -> referenced p = true) ->
  clock po (k + n) (zlen ps) (mkReg ps h b) =
  clock po n (zlen ps) (mkReg (clear h (Z.of_nat k) ps) ((h + Z.of_nat k) mod zlen ps) b).
Proof.
  revert n. induction k as [|k IH]; intros n Hk Hh Href.
  - rewrite clear_0, Z.add_0_r, Z.mod_small by lia. done.
  - replace (S k + n)%nat with (k + S n)%nat by lia. rewrite IH by (lia || intros; eapply Href; eauto with lia).
    set (h' := (h + Z.of_nat k) mod zlen ps).
    assert (0 <= h' < zlen ps) as Hh' by (apply Z.mod_pos_bound; lia).
    destruct (lookup_lt_is_Some_2 ps (Z.to_nat h')) as [[f rf] Hp]; [unfold zlen in *; lia|].
    assert (dist (zlen ps) h h' = Z.of_nat k) as Hd by (apply dist_at; lia).
    assert (rf = true) as -> by (apply (Href _ _ Hp); rewrite Z2Nat.id by lia; lia).
    set (r := mkReg (clear h (Z.of_nat k) ps) h' b).
    replace (zlen ps) with (zlen (pages r)) at 1 by apply zlen_clear.
    rewrite (clock_pass n r f); [|cbn; lia|].
    + cbn [r pages clock_hand swap]. rewrite zlen_clear. f_equal. f_equal.
      * apply list_eq. intros i. destruct (decide (i = Z.to_nat h')) as [->|Hne].
        -- rewrite list_lookup_insert_eq by (rewrite <-(Nat2Z.id (length _)); fold (zlen (clear h (Z.of_nat k) ps)); rewrite zlen_clear; lia).
           rewrite clear_lookup, Hp. cbn. rewrite decide_True; [done|]. rewrite Z2Nat.id by lia. lia.
        -- rewrite list_lookup_insert_ne by done. rewrite !clear_lookup.
           destruct (ps !! i) as [p|] eqn:Hi; [|done]. cbn. f_equal.
           assert (dist (zlen ps) h (Z.of_nat i) <> Z.of_nat k) as Hdi.
           { intros Hdi. apply Hne. assert (0 <= Z.of_nat i < zlen ps) as Hil.
             { apply lookup_lt_Some in Hi. unfold zlen. lia. }
             rewrite <-(Nat2Z.id i), <-(at_dist _ h _ Hil), Hdi. done. }
           case_decide; case_decide; [done|lia|lia|done].
      * unfold h'. rewrite Zplus_mod_idemp_l. f_equal. lia.
    + cbn [r pages clock_hand]. rewrite clear_lookup, Hp. cbn. rewrite decide_False; [done|]. rewrite Z2Nat.id by lia. lia.
Qed.

(** A turn at a page that was not referenced. *)
Lemma clock_evict n r f :
  0 <= clock_hand r -> pages r !! Z.to_nat (clock_hand r) = Some (mkPage f false) ->
  forall sl b', swap_out po f (swap r) = (Ok (Some sl), b') ->
  clock po (S n) (zlen (pages r)) r =
  (Ok (Some f),
   let ps := delete (Z.to_nat (clock_hand r)) (pages r) in
   mkReg ps (if zlen ps <=? clock_hand r then 0 else clock_hand r) b').
Proof.
  intros Hh Hp sl b' Hs. cbn [clock]. unfold mbind, M_bind, mret, M_ret, get, lift, modify, index, swap_out_page.
  rewrite decide_True, Hp by done. cbn [referenced negb frame]. by rewrite Hs.
Qed.

(** The page the scan picks: the first unreferenced one from the hand on, or
    the one at the hand when all are referenced. *)
Definition chosen (ps : list EvictablePage) (h v : Z) : Prop :=
  0 <= v < zlen ps /\
  ((exists p, ps !! Z.to_nat v = Some p /\ referenced p = false) /\
   (forall i p, ps !! i = Some p -> dist (zlen ps) h (Z.of_nat i) < dist (zlen ps) h v -> referenced p = true) \/
   v = h /\ Forall (fun p => referenced p = true) ps).

Lemma chosen_exists ps h : 0 <= h < zlen ps -> exists v, chosen ps h v.
Proof.
  intros Hh.
  assert (forall k, Z.of_nat k <= zlen ps -> (exists v, chosen ps h v) \/
    forall i p, ps !! i = Some p -> dist (zlen ps) h (Z.of_nat i) < Z.of_nat k -> referenced p = true) as Hscan.
  { induction k as [|k IH]; intros Hk.
    - right. intros i p _ Hd. pose proof (Z.mod_pos_bound (Z.of_nat i - h) (zlen ps)). unfold dist in Hd. lia.
    - destruct IH as [|IH]; [lia|by left|].
      set (v := (h + Z.of_nat k) mod zlen ps).
      assert (0 <= v < zlen ps) as Hv by (apply Z.mod_pos_bound; lia).
      assert (dist (zlen ps) h v = Z.of_nat k) as Hd by (apply dist_at; lia).
      destruct (lookup_lt_is_Some_2 ps (Z.to_nat v)) as [p Hp]; [unfold zlen in *; lia|].
      destruct (referenced p) eqn:Hr.
      + right. intros i q Hi Hq. destruct (decide (dist (zlen ps) h (Z.of_nat i) = Z.of_nat k)) as [He|He].
        * assert (0 <= Z.of_nat i < zlen ps) as Hil by (apply lookup_lt_Some in Hi; unfold zlen; lia).
          apply (at_dist _ h) in Hil. rewrite He in Hil. fold v in Hil.
          rewrite Hil, Nat2Z.id in Hp. congruence.
        * apply (IH i q Hi). lia.
      + left. exists v. split; [done|]. left. split; [by exists p|]. intros i q Hi. rewrite Hd. by apply IH. }
  destruct (Hscan (length ps)) as [|Hall]; [by unfold zlen|done|].
  exists h. split; [done|]. right. split; [done|]. apply Forall_lookup_2. intros i p Hi.
  apply (Hall i p Hi). change (Z.of_nat (length ps)) with (zlen ps). apply Z.mod_pos_bound. lia.
Qed.

(** The scan reaches the chosen page within its turns. *)
Lemma clock_chosen ps h b v f rf sl b' :
  0 <= h < zlen ps -> chosen ps h v -> ps !! Z.to_nat v = Some (mkPage f rf) ->
  swap_out po f b = (Ok (Some sl), b') ->
  exists k r', clock po (Z.to_nat (zlen ps * 2)) (zlen ps) (mkReg ps h b) = (Ok (Some f), r') /\
    let left := delete (Z.to_nat v) (clear h k ps) in
    r' = mkReg left (if zlen left <=? v then 0 else v) b'.
Proof.
  intros Hh [Hv Hc] Hp Hs. set (len := zlen ps) in *.
  assert (exists k n, (k + S n)%nat = Z.to_nat (len * 2) /\ Z.of_nat k <= len /\ (h + Z.of_nat k) mod len = v /\
    clear h (Z.of_nat k) ps !! Z.to_nat v = Some (mkPage f false) /\
    forall i p, ps !! i = Some p -> dist len h (Z.of_nat i) < Z.of_nat k -> referenced p = true)
    as (k & n & Hn & Hk & Hat & Hcl & Href).
  { destruct Hc as [[(p & Hp' & Hu) Hmin]|[-> Hall]].
    - rewrite Hp in Hp'. injection Hp' as <-. pose proof (Z.mod_pos_bound (v - h) len). exists (Z.to_nat (dist len h v)).
      assert (0 <= dist len h v < len) as Hd by (apply Z.mod_pos_bound; lia).
      exists (Z.to_nat (len * 2 - dist len h v - 1)). rewrite Z2Nat.id by lia.
      split; [lia|]. split; [lia|]. split; [by apply at_dist|]. split; [|done].
      rewrite clear_lookup, Hp. cbn in Hu |- *. subst rf. by case_decide.
    - exists (Z.to_nat len), (Z.to_nat (len - 1)). rewrite Z2Nat.id by lia.
      split; [lia|]. split; [lia|]. split; [rewrite Z.add_comm; unfold len in *; rewrite <-Zplus_mod_idemp_l, Z_mod_same_full; by apply Z.mod_small|].
      split; [|intros i p Hi _; by apply (Forall_lookup_1 _ _ _ _ Hall Hi)].
      rewrite clear_lookup, Hp. cbn. rewrite decide_True; [done|]. apply Z.mod_pos_bound. unfold len in *. lia. }
  rewrite <-Hn. unfold len in *. rewrite clock_passes by done. rewrite Hat.
  set (r := mkReg (clear h (Z.of_nat k) ps) v b).
  replace (zlen ps) with (zlen (pages r)) by apply zlen_clear.
  rewrite (clock_evict n r f ltac:(cbn; lia) Hcl sl b' Hs). by exists (Z.of_nat k); eexists.
Qed.

(** With no room left, the scan gives up and no page is lost. *)
Lemma clock_full n r p :
  0 <= clock_hand r < zlen (pages r) -> holds (swap r) p -> (forall sl, in_range (swap r) sl -> is_Some (p !! sl)) ->
  Forall (fun f => mapped (mem (swap r)) (po + f) 4096) (frames r) ->
  exists r', clock po n (zlen (pages r)) r = (Ok None, r') /\
    frames r' = frames r /\ 0 <= clock_hand r' < zlen (pages r') /\ holds (swap r') p /\ mem (swap r') = mem (swap r).
Proof.
  revert r. induction n as [|n IH]; intros r Hh Hp Hfull Hmap.
  { exists r. done. }
  destruct (lookup_lt_is_Some_2 (pages r) (Z.to_nat (clock_hand r))) as [[f rf] Hpg]; [unfold zlen in *; lia|].
  set (h' := (clock_hand r + 1) mod zlen (pages r)).
  assert (0 <= h' < zlen (pages r)) as Hh' by (apply Z.mod_pos_bound; lia).
  destruct rf.
  - rewrite (clock_pass n r f) by (done || lia). fold h'.
    set (r1 := mkReg _ h' (swap r)).
    assert (zlen (pages r1) = zlen (pages r)) as Hl by (unfold zlen; cbn; by rewrite length_insert).
    assert (frames r1 = frames r) as Hfr.
    { unfold frames. cbn. rewrite list_fmap_insert. cbn. apply list_insert_id. by rewrite list_lookup_fmap, Hpg. }
    rewrite <-Hl. destruct (IH r1) as (r' & -> & Hf' & Hr'); [cbn [clock_hand r1]; lia|done|done|by rewrite Hfr|].
    exists r'. rewrite <-Hfr. done.
  - assert (mapped (mem (swap r)) (po + f) 4096) as Hm.
    { apply (Forall_lookup_1 _ _ (Z.to_nat (clock_hand r)) _ Hmap). unfold frames. by rewrite list_lookup_fmap, Hpg. }
    destruct (exec_simulates po (swap r) p (Out f) Hp Hm) as (x & b' & p' & Hout & Hst & Hp' & Hr').
    inversion Hst; simplify_eq; [match goal with H : lowest_free _ _ _ |- _ => destruct H as (Hin & Hn & _) end;
      destruct (Hfull _ Hin); congruence|].
    cbn [clock]. unfold mbind, M_bind, mret, M_ret, get, lift, modify, index, swap_out_page.
    rewrite decide_True, Hpg by lia. cbn [referenced negb frame]. rewrite exec_out in Hout. rewrite Hout.
    cbn [pages clock_hand swap]. fold h'. set (r1 := mkReg (pages r) h' b').
    destruct (IH r1) as (r' & Hc & Hf' & Hr2 & Hh2 & Hm2); [done|done| | |].
    + intros sl Hsl. apply Hfull. by apply Hr'.
    + cbn [swap r1]. by replace (mem b') with (mem (swap r)).
    + exists r'. split; [exact Hc|]. split; [done|]. split; [done|]. split; [done|]. rewrite Hm2. done.
Qed.

Lemma evict_one_clock r : pages r <> [] -> evict_one po r = clock po (Z.to_nat (zlen (pages r) * 2)) (zlen (pages r)) r.
Proof.
  intros Hne. unfold evict_one, mbind, M_bind, get. destruct (Z.eqb_spec (zlen (pages r)) 0) as [H0|]; [|done].
  destruct (pages r); [done|]. rewrite zlen_cons in H0. pose proof (zlen_nonneg l). lia.
Qed.

Lemma reg_hand r : reg_ok r -> pages r <> [] -> 0 <= clock_hand r < zlen (pages r).
Proof. intros (Hh & [H|[_ H]] & _) Hne; [lia|done]. Qed.

(** C30. Eviction makes progress.  When some frame is registered, the frames
    are mapped and a swap slot is free, one call evicts a page: within its two
    rounds the scan comes to the first page from the hand on whose referenced
    bit is clear, or back to the page at the hand when all bits were set; that
    frame is returned and leaves the registry, the others stay, its bytes are
    in the lowest free slot, and the registry is well formed again. *)
Theorem evict_one_live r p sl0 :
  reg_ok r -> pages r <> [] -> Forall (fun f => mapped (mem (swap r)) (po + f) 4096) (frames r) ->
  holds (swap r) p -> in_range (swap r) sl0 -> p !! sl0 = None ->
  exists v f r' sl pg,
    chosen (pages r) (clock_hand r) v /\ frames r !! Z.to_nat v = Some f /\
    evict_one po r = (Ok (Some f), r') /\
    frames r' = delete (Z.to_nat v) (frames r) /\ reg_ok r' /\
    load (E:=string) (mem (swap r)) (po + f) 4096 = Ok pg /\
    lowest_free (in_range (swap r)) p sl /\ holds (swap r') (<[sl := pg]> p).
Proof.
  intros Hok Hne Hmap Hp Hin Hfree. pose proof (reg_hand r Hok Hne) as Hh. destruct Hok as (_ & _ & Hnd).
  destruct (chosen_exists _ _ Hh) as [v Hv]. destruct r as [ps h b]. unfold frames in *. cbn [pages clock_hand swap] in *.
  assert (0 <= v < zlen ps) as Hvl by apply Hv.
  destruct (lookup_lt_is_Some_2 ps (Z.to_nat v)) as [[f rf] Hpg]; [unfold zlen in *; lia|].
  assert (map frame ps !! Z.to_nat v = Some f) as Hf by by rewrite list_lookup_fmap, Hpg.
  pose proof (Forall_lookup_1 _ _ _ _ Hmap Hf) as Hm.
  destruct (exec_simulates po b p (Out f) Hp Hm) as (x & b' & p' & Hout & Hst & Hp' & _).
  inversion Hst; simplify_eq; [|match goal with H : forall sl, _ -> is_Some _ |- _ => destruct (H sl0 Hin) end; congruence].
  rewrite exec_out in Hout. destruct (clock_chosen ps h b v f rf sl b' Hh Hv Hpg Hout) as (k & r' & Hc & Hr').
  exists v, f, r', sl, pg. split; [done|]. split; [done|]. rewrite evict_one_clock by done. split; [done|].
  assert (map frame (delete (Z.to_nat v) (clear h k ps)) = delete (Z.to_nat v) (map frame ps)) as Hfr.
  { by rewrite list_fmap_delete, frames_clear. }
  rewrite Hr'. cbn [pages]. split; [done|]. split; [|done]. split; [|split].
  - cbn. case_match; lia.
  - cbn [clock_hand pages]. destruct (Z.leb_spec (zlen (delete (Z.to_nat v) (clear h k ps))) v) as [Hle|]; [|by left].
    destruct (delete (Z.to_nat v) (clear h k ps)); [by right|left]. rewrite zlen_cons. pose proof (zlen_nonneg l). lia.
  - unfold frames. cbn [pages]. rewrite Hfr. eapply sublist_NoDup; [exact Hnd|]. apply sublist_delete.
Qed.

(** When every swap slot is in use, eviction reports failure after its
    two rounds and loses nothing: the registered frames, the pages in swap and
    the memory are as before, and the registry is well formed. *)
Theorem evict_one_full r p :
  reg_ok r -> Forall (fun f => mapped (mem (swap r)) (po + f) 4096) (frames r) ->
  holds (swap r) p -> (forall sl, in_range (swap r) sl -> is_Some (p !! sl)) ->
  exists r', evict_one po r = (Ok None, r') /\ reg_ok r' /\ frames r' = frames r /\
    holds (swap r') p /\ mem (swap r') = mem (swap r).
Proof.
  intros Hok Hmap Hp Hfull. destruct (decide (pages r = [])) as [He|Hne].
  { exists r. split; [|done]. unfold evict_one, mbind, M_bind, get. by rewrite He. }
  destruct (clock_full (Z.to_nat (zlen (pages r) * 2)) r p) as (r' & Hc & Hf & Hh & Hp' & Hm'); [by apply reg_hand|done..|].
  exists r'. rewrite evict_one_clock by done. split; [done|]. split; [|done].
  split; [lia|]. split; [left; lia|]. rewrite Hf. apply Hok.
Qed.

(** Registering and marking keep the registry well formed. *)
Lemma register_page_ok r f : reg_ok r -> reg_ok (register_page f r) /\ f ∈ frames (register_page f r).
Proof.
  intros (Hh & Hl & Hnd). unfold register_page. destruct (existsb _ (pages r)) eqn:He.
  - split; [done|]. apply existsb_exists in He as (p & Hp & <-%Z.eqb_eq). unfold frames.
    apply list_elem_of_fmap. exists p. split; [done|]. by apply list_elem_of_In.
  - unfold reg_ok, frames. cbn [pages clock_hand]. rewrite map_app. cbn [map frame]. split; [|set_solver].
    split; [done|]. split; [left; rewrite zlen_snoc; pose proof (zlen_nonneg (pages r)); destruct Hl; lia|].
    apply NoDup_app. split; [done|]. split; [|apply NoDup_singleton].
    intros x (p & -> & Hp)%list_elem_of_fmap Hx. apply list_elem_of_singleton in Hx.
    assert (existsb (fun p => frame p =? f) (pages r) = true); [|congruence].
    apply existsb_exists. exists p. split; [by apply list_elem_of_In|]. by apply Z.eqb_eq.
Qed.

Lemma mark_referenced_ok r f : reg_ok r -> reg_ok (mark_referenced f r) /\ frames (mark_referenced f r) = frames r.
Proof.
  intros Hok. unfold mark_referenced. destruct (list_find _ (pages r)) as [[i p]|] eqn:Hf; [|done].
  apply list_find_Some in Hf as (Hi & Hp & _).
  assert (frames (mkReg (<[i := mkPage (frame p) true]> (pages r)) (clock_hand r) (swap r)) = frames r) as Hfr.
  { unfold frames. cbn [pages]. rewrite list_fmap_insert. apply list_insert_id. by rewrite list_lookup_fmap, Hi. }
  split; [|done]. destruct Hok as (Hh & Hl & Hnd). split; [done|]. split; [|by rewrite Hfr].
  cbn. unfold zlen in *. rewrite length_insert. destruct Hl as [|[? He]]; [by left|]. by rewrite He in Hi.
Qed.

End clock.

(** ** Examples *)

Definition demo_reg : Registry MemDisk :=
  mkReg [mkPage 0 true] 0 (snd (init true Swap.demo_backend)).

Lemma demo_holds : holds (swap demo_reg) ∅.
Proof.
  destruct (init_holds Swap.demo_backend true) as (s' & Hi & Hh & _); [done|apply Swap.demo_bytes|].
  unfold demo_reg. cbn [swap]. by rewrite Hi.
Qed.

Lemma one_page_ok (b : Backend MemDisk) : reg_ok (mkReg [mkPage 0 true] 0 b).
Proof. split; [done|]. split; [by left|]. apply NoDup_singleton. Qed.

Lemma one_frame (b : Backend MemDisk) :
  mem b = Swap.demo_mem ->
  Forall (fun f => mapped (mem (swap (mkReg [mkPage 0 true] 0 b))) (0 + f) 4096) (frames (mkReg [mkPage 0 true] 0 b)).
Proof. intros Hb. constructor; [|constructor]. cbn [swap frame Z.add]. rewrite Hb. apply Swap.demo_mapped. Qed.

Lemma evict_one_live_witness : exists v f r' sl pg,
  chosen (pages demo_reg) (clock_hand demo_reg) v /\ frames demo_reg !! Z.to_nat v = Some f /\
  evict_one 0 demo_reg = (Ok (Some f), r') /\
  frames r' = delete (Z.to_nat v) (frames demo_reg) /\ reg_ok r' /\
  load (E:=string) (mem (swap demo_reg)) (0 + f) 4096 = Ok pg /\
  lowest_free (in_range (swap demo_reg)) ∅ sl /\ holds (swap r') (<[sl := pg]> ∅).
Proof.
  apply (evict_one_live 0 demo_reg ∅ (mkSlot 0 0)); [apply one_page_ok|done|by apply one_frame|apply demo_holds| |done].
  split; [done|]. exists new_ram. done.
Defined.

(** Before [Swap.init] there is no area, and no room. *)
Lemma no_slots sl : ~ in_range Swap.demo_backend sl.
Proof. intros (_ & a & Ha & _). cbn [areas Swap.demo_backend] in Ha. by rewrite lookup_nil in Ha. Qed.

Lemma no_areas_hold : holds Swap.demo_backend ∅.
Proof.
  split; [split|..].
  - intros k a Ha. cbn [areas Swap.demo_backend] in Ha. by rewrite lookup_nil in Ha.
  - done.
  - intros k k' a a' Ha. cbn [areas Swap.demo_backend] in Ha. by rewrite lookup_nil in Ha.
  - apply Swap.demo_bytes.
  - intros sl. rewrite lookup_empty. split; [by intros []|]. intros [[]%no_slots _].
  - intros sl pg. by rewrite lookup_empty.
Qed.

Lemma evict_one_full_witness :
  let r := mkReg [mkPage 0 true] 0 Swap.demo_backend in
  exists r', evict_one 0 r = (Ok None, r') /\ reg_ok r' /\ frames r' = frames r /\
    holds (swap r') ∅ /\ mem (swap r') = mem (swap r).
Proof.
  apply (evict_one_full 0 (mkReg [mkPage 0 true] 0 Swap.demo_backend) ∅);
    [apply one_page_ok|by apply one_frame|apply no_areas_hold|]. by intros sl []%no_slots.
Defined.

End Eviction.
