(* ===== verification/PageInfo.v ===== *)
(** * Reference counts of physical frames

    Models [src/memory/page_info.rs]: the 64-bit word that packs two flags and
    a reference count, its operations as they run alone, and the same
    operations cut into their atomic accesses, for several CPUs. *)

From S2P Require Import Prelude Bytes.

Module PageInfo.

Definition RC_USED_NOT_FREE : Z := Z.shiftl 1 63.
Definition RC_SHARED_NOT_COW : Z := Z.shiftl 1 62.
Definition RC_COUNT_MASK : Z := Z.lxor (Z.lor RC_USED_NOT_FREE RC_SHARED_NOT_COW) (Z.ones 64).
Definition MAX_TRACKED_FRAMES : Z := Z.shiftl 1 20.

Inductive RefKind := Cow | Shared.

(** [fetch_add] and [fetch_sub] wrap around. *)
Definition fetch_add (w n : Z) : Z := wrap 64 (w + n).
Definition fetch_sub (w n : Z) : Z := wrap 64 (w - n).

(** The operations on the word; a reader gives a value, a writer the next
    word, [add_ref] and [remove_ref] both. *)
Definition init_used (kind : RefKind) : Z :=
  Z.lor (Z.lor RC_USED_NOT_FREE (match kind with Shared => RC_SHARED_NOT_COW | Cow => 0 end)) 1.

Definition add_ref (w : Z) : option Z * Z :=
  let prev := w in
  let w := fetch_add w 1 in
  let count := Z.land prev RC_COUNT_MASK + 1 in
  if RC_COUNT_MASK <=? count then (None, fetch_sub w 1) else (Some count, w).

Definition remove_ref (w : Z) : option Z * Z :=
  let prev := w in
  let w := fetch_sub w 1 in
  let count := Z.land prev RC_COUNT_MASK in
  if count =? 0 then (None, fetch_add w 1) else (Some (count - 1), w).

Definition ref_count (w : Z) : Z := Z.land w RC_COUNT_MASK.
Definition is_used (w : Z) : bool := negb (Z.land w RC_USED_NOT_FREE =? 0).
Definition is_shared (w : Z) : bool := negb (Z.land w RC_SHARED_NOT_COW =? 0).
Definition upgrade_to_shared (w : Z) : Z := Z.lor w RC_SHARED_NOT_COW.
Definition mark_free : Z := 0.

(** The index of the cell of a frame in the table. *)
Definition get_page_info (phys_addr : Z) : option Z :=
  let idx := phys_addr / 4096 in
  if idx <? MAX_TRACKED_FRAMES then Some idx else None.

(** ** The word as a record *)

Record Info := mkInfo { used : bool; shared : bool; count : Z }.

Definition pack (i : Info) : Z :=
  (if used i then 2 ^ 63 else 0) + (if shared i then 2 ^ 62 else 0) + count i.

(** The count stays below the mask, where the guard of [add_ref] keeps it. *)
Definition info_ok (i : Info) : Prop := 0 <= count i < RC_COUNT_MASK.

Lemma mask_ones : RC_COUNT_MASK = Z.ones 62.
Proof. done. Qed.

Lemma pack_fits i : info_ok i -> fits 64 (pack i).
Proof.
  unfold info_ok, fits, pack. change RC_COUNT_MASK with (2 ^ 62 - 1). destruct (used i), (shared i); lia.
Qed.

Lemma pack_count i : info_ok i -> ref_count (pack i) = count i.
Proof.
  intros Hi. unfold info_ok in Hi. change RC_COUNT_MASK with (2 ^ 62 - 1) in Hi.
  unfold ref_count, pack. rewrite mask_ones, Z.land_ones by lia.
  symmetry. apply (Z.mod_unique _ _ ((if used i then 2 else 0) + (if shared i then 1 else 0))); [lia|].
  destruct (used i), (shared i); lia.
Qed.

(** One bit of a word. *)
Lemma land_bit w n : 0 <= n -> negb (Z.land w (Z.shiftl 1 n) =? 0) = Z.testbit w n.
Proof.
  intros Hn. rewrite Z.shiftl_1_l. destruct (Z.testbit w n) eqn:Hb.
  - apply negb_true_iff, Z.eqb_neq. intros H0. assert (Z.testbit (Z.land w (2 ^ n)) n = false) as Hf by (rewrite H0; apply Z.bits_0).
    rewrite Z.land_spec, Hb, Z.pow2_bits_true in Hf by done. done.
  - apply negb_false_iff, Z.eqb_eq. apply Z.bits_inj_0. intros k. rewrite Z.land_spec.
    destruct (decide (k = n)) as [->|]; [by rewrite Hb|]. rewrite Z.pow2_bits_false by done. apply andb_false_r.
Qed.

Lemma pack_used i : info_ok i -> is_used (pack i) = used i.
Proof.
  intros Hi. pose proof (pack_fits i Hi) as Hf. unfold info_ok, fits in *. change RC_COUNT_MASK with (2 ^ 62 - 1) in Hi.
  unfold is_used, RC_USED_NOT_FREE. rewrite land_bit by lia. rewrite Z.testbit_odd, Z.shiftr_div_pow2 by lia.
  unfold pack in *. destruct (used i).
  - replace (_ / 2 ^ 63) with 1; [done|]. apply (Z.div_unique _ _ _ ((if shared i then 2 ^ 62 else 0) + count i)); destruct (shared i); lia.
  - rewrite Z.div_small; [done|]. destruct (shared i); lia.
Qed.

Lemma pack_shared i : info_ok i -> is_shared (pack i) = shared i.
Proof.
  intros Hi. unfold info_ok in *. change RC_COUNT_MASK with (2 ^ 62 - 1) in Hi.
  unfold is_shared, RC_SHARED_NOT_COW. rewrite land_bit by lia. rewrite Z.testbit_odd, Z.shiftr_div_pow2 by lia.
  unfold pack. replace (_ / 2 ^ 62) with ((if used i then 2 else 0) + (if shared i then 1 else 0)).
  - by destruct (used i), (shared i).
  - apply (Z.div_unique _ _ _ (count i)); destruct (used i), (shared i); lia.
Qed.

(** Setting a clear bit adds it. *)
Lemma lor_clear_bit w n : 0 <= n -> Z.testbit w n = false -> Z.lor w (Z.shiftl 1 n) = w + 2 ^ n.
Proof.
  intros Hn Hb. rewrite Z.shiftl_1_l, <-Z.lxor_lor, Z.add_nocarry_lxor; [done|..];
    apply Z.bits_inj_0; intros k; rewrite Z.land_spec;
    (destruct (decide (k = n)) as [->|]; [by rewrite Hb|rewrite Z.pow2_bits_false by done; apply andb_false_r]).
Qed.

(** ** The operations on their own *)

(** What each operation does to the record. *)
Definition added (i : Info) : option Z * Info :=
  if decide (count i + 1 < RC_COUNT_MASK) then (Some (count i + 1), mkInfo (used i) (shared i) (count i + 1)) else (None, i).

Definition removed (i : Info) : option Z * Info :=
  if decide (0 < count i) then (Some (count i - 1), mkInfo (used i) (shared i) (count i - 1)) else (None, i).

Lemma fetch_undo w : fits 64 w -> fetch_sub (fetch_add w 1) 1 = w /\ fetch_add (fetch_sub w 1) 1 = w.
Proof.
  intros Hw. unfold fetch_sub, fetch_add, wrap. rewrite Zminus_mod_idemp_l, Zplus_mod_idemp_l.
  replace (w + 1 - 1) with w by lia. replace (w - 1 + 1) with w by lia. by rewrite Z.mod_small.
Qed.

(** The packed word behaves as a record of two flags and a count below
    2^62 - 1.  Every operation gives the record's answer and packs its next
    value: counting up stops one below the mask and counting down stops at
    zero, both with the word restored, so a count never carries into the
    flags nor borrows from them; the readers see the flags and the count. *)
Theorem page_info_bounds i kind :
  info_ok i ->
  (fst (add_ref (pack i)) = fst (added i) /\ snd (add_ref (pack i)) = pack (snd (added i)) /\ info_ok (snd (added i))) /\
  (fst (remove_ref (pack i)) = fst (removed i) /\ snd (remove_ref (pack i)) = pack (snd (removed i)) /\
   info_ok (snd (removed i))) /\
  upgrade_to_shared (pack i) = pack (mkInfo (used i) true (count i)) /\
  init_used kind = pack (mkInfo true (match kind with Shared => true | Cow => false end) 1) /\
  mark_free = pack (mkInfo false false 0) /\
  is_used (pack i) = used i /\ is_shared (pack i) = shared i /\ ref_count (pack i) = count i.
Proof.
  intros Hi. pose proof (pack_fits i Hi) as Hf. pose proof (pack_count i Hi) as Hc. destruct (fetch_undo _ Hf) as [Hu1 Hu2].
  unfold ref_count in Hc. split; [|split; [|split; [|split; [|split]]]].
  - unfold add_ref, added. rewrite Hc, Hu1. unfold info_ok in *.
    destruct (Z.leb_spec RC_COUNT_MASK (count i + 1)); [by rewrite decide_False by lia|].
    rewrite decide_True by lia. split; [done|]. cbn [fst snd count]. split; [|lia].
    unfold fetch_add. rewrite wrap_small; [unfold pack; cbn; lia|].
    assert (pack (mkInfo (used i) (shared i) (count i + 1)) = pack i + 1) as <- by (unfold pack; cbn; lia).
    apply pack_fits. unfold info_ok. cbn. lia.
  - unfold remove_ref, removed. rewrite Hc, Hu2. unfold info_ok in *.
    destruct (Z.eqb_spec (count i) 0); [by rewrite decide_False by lia|].
    rewrite decide_True by lia. split; [done|]. cbn [fst snd count]. split; [|lia].
    unfold fetch_sub. rewrite wrap_small; [unfold pack; cbn; lia|].
    assert (pack (mkInfo (used i) (shared i) (count i - 1)) = pack i - 1) as <- by (unfold pack; cbn; lia).
    apply pack_fits. unfold info_ok. cbn. lia.
  - unfold upgrade_to_shared, RC_SHARED_NOT_COW. pose proof (pack_shared i Hi) as Hs. unfold is_shared, RC_SHARED_NOT_COW in Hs.
    rewrite land_bit in Hs by lia. unfold pack in *. cbn [used shared count]. destruct (shared i) eqn:Hsh.
    + apply Z.bits_inj'. intros k Hk. rewrite Z.lor_spec, Z.shiftl_1_l. destruct (decide (k = 62)) as [->|].
      * by rewrite Hs.
      * rewrite Z.pow2_bits_false by done. apply orb_false_r.
    + rewrite lor_clear_bit by (done || lia). lia.
  - by destruct kind.
  - done.
  - by rewrite pack_used, pack_shared, (pack_count i Hi).
Qed.

Lemma page_info_bounds_witness :
  let i := mkInfo true false (RC_COUNT_MASK - 1) in
  (fst (add_ref (pack i)) = fst (added i) /\ snd (add_ref (pack i)) = pack (snd (added i)) /\ info_ok (snd (added i))) /\
  (fst (remove_ref (pack i)) = fst (removed i) /\ snd (remove_ref (pack i)) = pack (snd (removed i)) /\
   info_ok (snd (removed i))) /\
  upgrade_to_shared (pack i) = pack (mkInfo (used i) true (count i)) /\
  init_used Cow = pack (mkInfo true false 1) /\
  mark_free = pack (mkInfo false false 0) /\
  is_used (pack i) = used i /\ is_shared (pack i) = shared i /\ ref_count (pack i) = count i.
Proof. apply (page_info_bounds (mkInfo true false (RC_COUNT_MASK - 1)) Cow). done. Defined.

(** ** Several CPUs

    [add_ref] and [remove_ref] are one or two atomic accesses.  A CPU is where
    it is in its call: [UndoAdd] and [UndoRemove] have failed but not yet
    restored the word. *)
Inductive cpu := Add | UndoAdd | Added | Remove | UndoRemove | Removed | Failed.

#[global] Instance cpu_eq_dec : EqDecision cpu.
Proof. solve_decision. Defined.

Definition access (c : cpu) (w : Z) : option (cpu * Z) :=
  match c with
  | Add => Some (if RC_COUNT_MASK <=? Z.land w RC_COUNT_MASK + 1 then UndoAdd else Added, fetch_add w 1)
  | UndoAdd => Some (Failed, fetch_sub w 1)
  | Remove => Some (if Z.land w RC_COUNT_MASK =? 0 then UndoRemove else Removed, fetch_sub w 1)
  | UndoRemove => Some (Failed, fetch_add w 1)
  | Added | Removed | Failed => None
  end.

(** One access of one CPU. *)
Inductive step : Z * list cpu -> Z * list cpu -> Prop :=
| step_at w cs k c c' w' :
    cs !! k = Some c -> access c w = Some (c', w') -> step (w, cs) (w', <[k := c']> cs).

(** What a CPU has added to the word so far. *)
Definition delta (c : cpu) : Z :=
  match c with
  | Added | UndoAdd => 1
  | Removed | UndoRemove => -1
  | Add | Remove | Failed => 0
  end.

Definition total (cs : list cpu) : Z := foldr (fun c n => delta c + n) 0 cs.

Lemma total_insert cs k c c' : cs !! k = Some c -> total (<[k := c']> cs) = total cs - delta c + delta c'.
Proof.
  revert k. induction cs as [|x cs IH]; intros [|k] Hk; simplify_eq/=; [lia|]. rewrite IH by done. lia.
Qed.

Lemma access_delta c w c' w' : access c w = Some (c', w') -> w' = wrap 64 (w + (delta c' - delta c)).
Proof.
  destruct c; cbn; intros H; simplify_eq; unfold fetch_add, fetch_sub; try case_match; cbn; f_equal; lia.
Qed.

(** A CPU on its own runs the call. *)
Lemma step_alone c w c' w' : access c w = Some (c', w') -> step (w, [c]) (w', [c']).
Proof. intros H. by apply (step_at w [c] 0 c c' w'). Qed.

Lemma add_alone w : rtc step (w, [Add]) (snd (add_ref w), [if fst (add_ref w) then Added else Failed]).
Proof.
  unfold add_ref. destruct (RC_COUNT_MASK <=? _) eqn:E; cbn.
  - eapply rtc_l; [apply (step_alone Add w UndoAdd); cbn; by rewrite E|]. by apply rtc_once, step_alone.
  - apply rtc_once, step_alone. cbn. by rewrite E.
Qed.

Lemma remove_alone w : rtc step (w, [Remove]) (snd (remove_ref w), [if fst (remove_ref w) then Removed else Failed]).
Proof.
  unfold remove_ref. destruct (_ =? 0) eqn:E; cbn.
  - eapply rtc_l; [apply (step_alone Remove w UndoRemove); cbn; by rewrite E|]. by apply rtc_once, step_alone.
  - apply rtc_once, step_alone. cbn. by rewrite E.
Qed.

Lemma steps_delta w cs w' cs' :
  fits 64 w -> rtc step (w, cs) (w', cs') -> w' = wrap 64 (w + (total cs' - total cs)).
Proof.
  remember (w, cs) as x eqn:Hx. remember (w', cs') as y eqn:Hy. intros Hw Hrun. revert w cs Hx Hw.
  induction Hrun as [x|x y z Hs _ IH]; intros w cs -> Hw.
  - simplify_eq. rewrite Z.sub_diag, Z.add_0_r. by rewrite wrap_small.
  - inversion Hs as [? ? k c c' w1 Hk Ha]; subst. apply access_delta in Ha.
    rewrite (IH eq_refl w1 _ eq_refl) by (subst; by apply wrap_fits).
    rewrite (total_insert _ _ _ _ Hk), Ha. unfold wrap. rewrite Zplus_mod_idemp_l. f_equal. lia.
Qed.

Lemma total_start cs : Forall (fun c => c = Add \/ c = Remove) cs -> total cs = 0.
Proof. induction 1 as [|c cs [->| ->] _ IH]; [done|cbn; fold (total cs); lia..]. Qed.

Lemma total_end cs :
  Forall (fun c => c = Added \/ c = Removed \/ c = Failed) cs ->
  total cs = zlen (filter (eq Added) cs) - zlen (filter (eq Removed) cs).
Proof.
  induction 1 as [|c cs Hc _ IH]; [done|]. change (total (c :: cs)) with (delta c + total cs). rewrite IH, !filter_cons.
  by destruct Hc as [->|[->| ->]]; repeat case_decide; try done; rewrite ?zlen_cons; cbn [delta]; lia.
Qed.

(** Under every interleaving of reference-count updates by several CPUs,
    no update is lost: when each call has ended, the word is the start plus
    the number of successful [add_ref]s minus that of successful
    [remove_ref]s, the failed ones having restored what they took. *)
Theorem interleaving_sum w cs w' cs' :
  fits 64 w -> Forall (fun c => c = Add \/ c = Remove) cs -> rtc step (w, cs) (w', cs') ->
  Forall (fun c => c = Added \/ c = Removed \/ c = Failed) cs' ->
  w' = wrap 64 (w + zlen (filter (eq Added) cs') - zlen (filter (eq Removed) cs')).
Proof.
  intros Hw Hstart Hrun Hend. apply steps_delta in Hrun; [|done].
  rewrite Hrun, (total_start cs Hstart), (total_end cs' Hend). f_equal. lia.
Qed.

Lemma interleaving_sum_witness :
  pack (mkInfo true false 2) = wrap 64 (pack (mkInfo true false 2) + 1 - 1).
Proof.
  apply (interleaving_sum (pack (mkInfo true false 2)) [Add; Remove] (pack (mkInfo true false 2)) [Added; Removed]).
  - done.
  - constructor; [by left|constructor; [by right|constructor]].
  - apply (rtc_l _ _ (pack (mkInfo true false 1), [Add; Removed]));
      [by apply (step_at (pack (mkInfo true false 2)) [Add; Remove] 1 Remove Removed)|].
    apply rtc_once. by apply (step_at (pack (mkInfo true false 1)) [Add; Removed] 0 Add Added).
  - constructor; [by left|constructor; [by right; left|constructor]].
Defined.

(** The failed call's detour is visible: while one CPU has taken the count
    below zero and not yet put it back, another one removes a reference that
    does not exist.  The count has then wrapped and the used flag is gone. *)
Lemma concurrent_remove_underflows :
  let w := pack (mkInfo true false 0) in
  exists w', rtc step (w, [Remove; Remove]) (w', [Failed; Removed]) /\
    is_used w' = false /\ ref_count w' = RC_COUNT_MASK.
Proof.
  intros w. exists (fetch_sub w 1). split; [|done].
  apply (rtc_l _ _ (fetch_sub w 1, [UndoRemove; Remove])); [by apply (step_at w [Remove; Remove] 0 Remove UndoRemove)|].
  apply (rtc_l _ _ (fetch_sub (fetch_sub w 1) 1, [UndoRemove; Removed]));
    [by apply (step_at (fetch_sub w 1) [UndoRemove; Remove] 1 Remove Removed)|].
  apply rtc_once. by apply (step_at (fetch_sub (fetch_sub w 1) 1) [UndoRemove; Removed] 0 UndoRemove Failed).
Qed.

End PageInfo.
