(* ===== verification/Fat32.v ===== *)
(** * FAT32

    Models [src/fs/fat32.rs]: the parameter block, the allocation table, the
    cluster chains, directories with long names, files, and the operations on
    paths.  The device is the state.  A name is its UTF-8 bytes in a [string].
    Sector arithmetic on [u64] is unbounded; the one subtraction on cluster
    numbers that can go below zero panics. *)

From S2P Require Import Prelude Bytes Abi Disk Path.
From Stdlib Require Import Ascii.
Import Disk.

Module Fat32.

Definition SECTOR_SIZE : Z := 512.

Inductive Fat32Error := BadSignature | InvalidBpb (msg : string) | IoError | NotFat32.

Record Fat32Bpb := mkBpb {
  bytes_per_sector : Z;
  sectors_per_cluster : Z;
  reserved_sectors : Z;
  num_fats : Z;
  sectors_per_fat_32 : Z;
  root_cluster : Z;
  partition_start : Z
}.

(** The little-endian words and the byte at an offset of a buffer that is
    long enough. *)
Definition u32_at (off : Z) (buf : list Z) : Z := le_word (sub off 4 buf).
Definition u16_at (off : Z) (buf : list Z) : Z := le_word (sub off 2 buf).
Definition byte_at (off : Z) (buf : list Z) : Z := default 0 (buf !! Z.to_nat off).

Definition parse (sector : list Z) (start : Z) : res Fat32Error Fat32Bpb :=
  if zlen sector <? 512 then Err (InvalidBpb "sector too short")
  else if negb (u16_at 0x1FE sector =? 0xAA55) then Err BadSignature
  else
    let bps := u16_at 0x0B sector in
    if (bps =? 0) || negb (Z.land bps (bps - 1) =? 0) then Err (InvalidBpb "bytes_per_sector not power-of-2")
    else
      let spc := byte_at 0x0D sector in
      if spc =? 0 then Err (InvalidBpb "sectors_per_cluster is zero")
      else
        let fats := byte_at 0x10 sector in
        if fats =? 0 then Err (InvalidBpb "num_fats is zero")
        else Ok (mkBpb bps spc (u16_at 0x0E sector) fats (u32_at 0x24 sector) (u32_at 0x2C sector) start).

Definition fat_start_sector (bpb : Fat32Bpb) : Z := partition_start bpb + reserved_sectors bpb.

Definition data_start_sector (bpb : Fat32Bpb) : Z :=
  fat_start_sector bpb + num_fats bpb * sectors_per_fat_32 bpb.

Definition cluster_to_sector {E} (bpb : Fat32Bpb) (cluster : Z) : res E Z :=
  if cluster <? 2 then Panic
  else Ok (data_start_sector bpb + (cluster - 2) * sectors_per_cluster bpb).

Definition bytes_per_cluster (bpb : Fat32Bpb) : Z := sectors_per_cluster bpb * bytes_per_sector bpb.

(** The number of entries of the table, and the bound of the loops that follow
    a chain. *)
Definition max_clusters (bpb : Fat32Bpb) : Z := sectors_per_fat_32 bpb * bytes_per_sector bpb / 4.
Definition chain_limit (bpb : Fat32Bpb) : Z := if 0 <? max_clusters bpb then max_clusters bpb else 1048576.

Definition ATTR_VOLUME_ID : Z := 0x08.
Definition ATTR_DIRECTORY : Z := 0x10.
Definition ATTR_LFN : Z := 0x0F.

(** ** Names *)

(** The encodings of the characters [trim_end] removes, last byte first. *)
Definition white_rev : list (list Z) :=
  [[9]; [10]; [11]; [12]; [13]; [32]; [0x85; 0xC2]; [0xA0; 0xC2]; [0x80; 0x9A; 0xE1]] ++
  map (fun b => [b; 0x80; 0xE2]) (seqZ 0x80 11 ++ [0xA8; 0xA9; 0xAF]) ++ [[0x9F; 0x81; 0xE2]; [0x80; 0x80; 0xE3]].

(** One trailing white character off the reversed bytes. *)
Definition strip_white (bs : list Z) : option (list Z) :=
  match list_find (fun w => take (length w) bs = w) white_rev with
  | Some (_, w) => Some (drop (length w) bs)
  | None => None
  end.

Fixpoint trim_rev (fuel : nat) (bs : list Z) : list Z :=
  match fuel with
  | O => bs
  | S fuel => match strip_white bs with Some bs => trim_rev fuel bs | None => bs end
  end.

Definition trim_end (bs : list Z) : list Z := reverse (trim_rev (length bs) (reverse bs)).

Definition lower_byte (b : Z) : Z := if (0x41 <=? b) && (b <=? 0x5A) then b + 32 else b.
Definition upper_byte (b : Z) : Z := if (0x61 <=? b) && (b <=? 0x7A) then b - 32 else b.

Definition to_ascii_lowercase (bs : list Z) : list Z := map lower_byte bs.
Definition to_ascii_uppercase (bs : list Z) : list Z := map upper_byte bs.

Definition eq_ignore_ascii_case (a b : list Z) : bool :=
  bool_decide (to_ascii_lowercase a = to_ascii_lowercase b).

(** [core::str::from_utf8(bs).unwrap_or("")] *)
Definition utf8_or_empty (bs : list Z) : list Z := if Path.utf8_valid bs then bs else [].

(** The code units of a group of a long-name entry, up to its first end or
    padding mark. *)
Fixpoint lfn_group (n : nat) (off : Z) (entry : list Z) : list Z :=
  match n with
  | O => []
  | S n =>
      let c := u16_at off entry in
      if (c =? 0x0000) || (c =? 0xFFFF) then [] else c :: lfn_group n (off + 2) entry
  end.

Definition decode_lfn_name (lfn_entries : list (list Z)) : option (list Z) :=
  let chars := flat_map (fun e => lfn_group 5 1 e ++ lfn_group 6 14 e ++ lfn_group 2 28 e) (reverse lfn_entries) in
  match chars with
  | [] => None
  | _ => Some (flat_map (fun c => if c <=? 0x7F then [c] else [0xEF; 0xBF; 0xBD]) chars)
  end.

(** The 8.3 name of a raw entry, and the name under which the entry is known
    after the long-name entries [lfn]. *)
Definition short_name (raw : list Z) : list Z :=
  let name := trim_end (utf8_or_empty (sub 0 8 raw)) in
  let ext := trim_end (utf8_or_empty (sub 8 3 raw)) in
  match ext with [] => name | _ => name ++ [0x2E] ++ ext end.

Definition full_name (lfn : list (list Z)) (raw : list Z) : list Z :=
  match lfn with
  | [] => to_ascii_lowercase (short_name raw)
  | _ => default (to_ascii_lowercase (short_name raw)) (decode_lfn_name lfn)
  end.

(** ['.'] splits the bytes. *)
Fixpoint split_dot (bs : list Z) : list (list Z) :=
  match bs with
  | [] => [[]]
  | b :: bs =>
      if b =? 0x2E then [] :: split_dot bs
      else match split_dot bs with p :: ps => (b :: p) :: ps | [] => [[b]] end
  end.

Definition to_short_name (name : list Z) : list Z :=
  let parts := split_dot name in
  let base := take 8 (to_ascii_uppercase (default [] (head parts))) in
  let ext := take 3 (match parts with _ :: _ :: _ => to_ascii_uppercase (default [] (last parts)) | _ => [] end) in
  base ++ replicate (8 - length base) 0x20 ++ ext ++ replicate (3 - length ext) 0x20.

(** ** Directory entries *)

Record DirEntry := mkEntry {
  name : list Z;
  is_dir : bool;
  first_cluster : Z;
  file_size : Z;
  entry_cluster : Z;
  entry_offset : Z
}.

Record DirSlot := mkSlot { slot_cluster : Z; slot_offset : Z }.

Definition first_cluster_of (raw : list Z) : Z := Z.lor (Z.shiftl (u16_at 20 raw) 16) (u16_at 26 raw).

(** [hi] and [lo] of a cluster number. *)
Definition cluster_hi (c : Z) : Z := Z.land (Z.shiftr c 16) 0xFFFF.
Definition cluster_lo (c : Z) : Z := Z.land c 0xFFFF.

(** What the scans do with a raw entry. *)
Inductive raw_kind := End | Deleted | Long | Volume | Named.

Definition kind_of (raw : list Z) : raw_kind :=
  let first_byte := byte_at 0 raw in
  let attr := byte_at 11 raw in
  if first_byte =? 0x00 then End
  else if first_byte =? 0xE5 then Deleted
  else if attr =? ATTR_LFN then Long
  else if negb (Z.land attr ATTR_VOLUME_ID =? 0) then Volume
  else Named.

Definition entry_of (lfn : list (list Z)) (raw : list Z) (cluster offset : Z) : DirEntry :=
  mkEntry (full_name lfn raw) (negb (Z.land (byte_at 11 raw) ATTR_DIRECTORY =? 0))
    (first_cluster_of raw) (u32_at 28 raw) cluster offset.

(** The loop of [read_directory] over a cluster, [n] entries from [offset] on:
    the entries found, the pending long-name entries, and whether the end mark
    was met. *)
Fixpoint scan_cluster (n : nat) (cluster offset : Z) (buf : list Z) (lfn : list (list Z)) :
    list DirEntry * list (list Z) * bool :=
  match n with
  | O => ([], lfn, false)
  | S n =>
      let raw := sub offset 32 buf in
      match kind_of raw with
      | End => ([], lfn, true)
      | Deleted | Volume => scan_cluster n cluster (offset + 32) buf []
      | Long => scan_cluster n cluster (offset + 32) buf (lfn ++ [raw])
      | Named =>
          let '(es, lfn', stop) := scan_cluster n cluster (offset + 32) buf [] in
          (entry_of lfn raw cluster offset :: es, lfn', stop)
      end
  end.

(** The loop of [find_dir_entry] over a cluster. *)
Fixpoint find_in_cluster (n : nat) (target : list Z) (cluster offset : Z) (buf : list Z) (lfn : list (list Z)) :
    option (option (Z * Z * Z * Z)) * list (list Z) :=
  match n with
  | O => (None, lfn)
  | S n =>
      let raw := sub offset 32 buf in
      match kind_of raw with
      | End => (Some None, lfn)
      | Deleted | Volume => find_in_cluster n target cluster (offset + 32) buf []
      | Long => find_in_cluster n target cluster (offset + 32) buf (lfn ++ [raw])
      | Named =>
          if eq_ignore_ascii_case (full_name lfn raw) target
          then (Some (Some (cluster, offset, first_cluster_of raw, u32_at 28 raw)), lfn)
          else find_in_cluster n target cluster (offset + 32) buf []
      end
  end.

(** The loop of [find_or_allocate_dir_slot] over a cluster. *)
Fixpoint find_slot (n : nat) (offset : Z) (buf : list Z) : option (Z * Z) :=
  match n with
  | O => None
  | S n =>
      let first_byte := byte_at offset buf in
      if (first_byte =? 0x00) || (first_byte =? 0xE5) then Some (offset, first_byte)
      else find_slot n (offset + 32) buf
  end.

(** [offset + 32 <= bytes_per_cluster] holds this often. *)
Definition entries_per_cluster (bpb : Fat32Bpb) : nat := Z.to_nat (bytes_per_cluster bpb / 32).

(** The 32 bytes [write_dir_entry] writes. *)
Definition raw_entry (short : list Z) (attr cluster size : Z) : list Z :=
  short ++ [attr; 0; 0] ++ le_bytes 2 0 ++ le_bytes 2 0 ++ le_bytes 2 0 ++ le_bytes 2 (cluster_hi cluster) ++
  le_bytes 2 0 ++ le_bytes 2 0 ++ le_bytes 2 (cluster_lo cluster) ++ le_bytes 4 size.

(** ** The device *)

Section device.
Context {D : Type} {bd : BlockDevice D}.

(** [disk.read_sectors(sector, n, &mut buf)]: the drivers copy [n] sectors to
    the front of the buffer through a raw pointer, and likewise from it. *)
Definition read_into (sector n : Z) (buf : list Z) : M D AbiError (list Z) := fun d =>
  if zlen buf <? n * 512 then (Fault, d)
  else (bs ← read_sectors sector n d; Ok (bs ++ drop (Z.to_nat (n * 512)) buf), d).

Definition write_from (sector n : Z) (buf : list Z) : M D AbiError unit := fun d =>
  if zlen buf <? n * 512 then (Fault, d) else write_sectors sector n buf d.

(** [.ok()]: an error becomes [None]. *)
Definition attempt {E F A} (m : M D E A) : M D F (option A) := fun d =>
  match m d with
  | (Ok a, d) => (Ok (Some a), d)
  | (Err _, d) => (Ok None, d)
  | (Panic, d) => (Panic, d)
  | (Fault, d) => (Fault, d)
  end.

(** A whole cluster, through a fresh zeroed buffer. *)
Definition read_cluster (bpb : Fat32Bpb) (cluster : Z) : M D AbiError (list Z) :=
  sector ← lift (cluster_to_sector bpb cluster);
  read_into sector (sectors_per_cluster bpb) (zeros (bytes_per_cluster bpb)).

Definition write_cluster (bpb : Fat32Bpb) (cluster : Z) (buf : list Z) : M D AbiError unit :=
  sector ← lift (cluster_to_sector bpb cluster);
  write_from sector (sectors_per_cluster bpb) buf.

(** ** The allocation table *)

(** The sector and the offset in it of a cluster's entry. *)
Definition fat_sector (bpb : Fat32Bpb) (cluster : Z) : Z :=
  fat_start_sector bpb + cluster * 4 / bytes_per_sector bpb.
Definition fat_offset (bpb : Fat32Bpb) (cluster : Z) : Z := (cluster * 4) mod bytes_per_sector bpb.

Definition follow_cluster_chain {E} (bpb : Fat32Bpb) (current_cluster : Z) : M D E (option Z) :=
  o ← attempt (read_into (fat_sector bpb current_cluster) 1 (zeros SECTOR_SIZE));
  match o with
  | None => mret None
  | Some buf =>
      let off := fat_offset bpb current_cluster in
      if SECTOR_SIZE <? off + 4 then mret None
      else
        let entry := Z.land (u32_at off buf) 0x0FFFFFFF in
        mret (if 0x0FFFFFF8 <=? entry then None else if entry <? 2 then None else Some entry)
  end.

(** The loop of both [collect_cluster_chain]s, [n] turns of it. *)
Fixpoint collect_cluster_chain_limited {E} (n : nat) (bpb : Fat32Bpb) (cluster : Z) : M D E (list Z) :=
  match n with
  | O => mret []
  | S n =>
      o ← follow_cluster_chain bpb cluster;
      match o with
      | Some next => chain ← collect_cluster_chain_limited n bpb next; mret (cluster :: chain)
      | None => mret [cluster]
      end
  end.

Definition collect_cluster_chain {E} (bpb : Fat32Bpb) (start_cluster : Z) : M D E (list Z) :=
  collect_cluster_chain_limited (Z.to_nat (chain_limit bpb)) bpb start_cluster.

(** The copies of a table sector. *)
Fixpoint write_copies (n : nat) (bpb : Fat32Bpb) (sector : Z) (buf : list Z) : M D Fat32Error unit :=
  match n with
  | O => mret tt
  | S n =>
      _ ← map_err IoError (write_from sector 1 buf);
      write_copies n bpb (sector + sectors_per_fat_32 bpb) buf
  end.

Definition write_fat_entry (bpb : Fat32Bpb) (current_cluster next_cluster : Z) : M D Fat32Error unit :=
  let off := fat_offset bpb current_cluster in
  buf ← map_err IoError (read_into (fat_sector bpb current_cluster) 1 (zeros SECTOR_SIZE));
  old ← lift (slice off 4 buf);
  let new_entry := Z.lor (Z.land (le_word old) 0xF0000000) (Z.land next_cluster 0x0FFFFFFF) in
  buf ← lift (splice off (le_bytes 4 new_entry) buf);
  write_copies (Z.to_nat (num_fats bpb)) bpb (fat_sector bpb current_cluster) buf.

(** The [n] entries from [offset] on of a table sector. *)
Fixpoint scan_fat {E} (n : nat) (bpb : Fat32Bpb) (sec_idx offset : Z) (buf : list Z) : res E (option Z) :=
  match n with
  | O => Ok None
  | S n =>
      let cluster := (sec_idx * bytes_per_sector bpb + offset) / 4 in
      if (cluster <? 2) || (max_clusters bpb <=? cluster) then scan_fat n bpb sec_idx (offset + 4) buf
      else
        bs ← slice offset 4 buf;
        if Z.land (le_word bs) 0x0FFFFFFF =? 0 then Ok (Some (wrap 32 cluster))
        else scan_fat n bpb sec_idx (offset + 4) buf
  end.

(** The [n] table sectors from [sec_idx] on. *)
Fixpoint find_free_from {E} (n : nat) (bpb : Fat32Bpb) (sec_idx : Z) : M D E (option Z) :=
  match n with
  | O => mret None
  | S n =>
      o ← attempt (read_into (fat_start_sector bpb + sec_idx) 1 (zeros SECTOR_SIZE));
      match o with
      | None => find_free_from n bpb (sec_idx + 1)
      | Some buf =>
          r ← lift (scan_fat (Z.to_nat ((bytes_per_sector bpb + 3) / 4)) bpb sec_idx 0 buf);
          match r with
          | Some c => mret (Some c)
          | None => find_free_from n bpb (sec_idx + 1)
          end
      end
  end.

Definition find_free_cluster {E} (bpb : Fat32Bpb) : M D E (option Z) :=
  find_free_from (Z.to_nat (sectors_per_fat_32 bpb)) bpb 0.

(** The cluster is linked behind [prev] and cleared; a failure is undone as
    far as the device lets it. *)
Definition link_and_clear {E} (bpb : Fat32Bpb) (prev_cluster : option Z) (new_cluster : Z) : M D E (option Z) :=
  let undo : M D E (option Z) := _ ← attempt (write_fat_entry bpb new_cluster 0); mret None in
  let clear : M D E (option Z) :=
    z ← attempt (write_cluster bpb new_cluster (zeros (bytes_per_cluster bpb)));
    match z with
    | Some _ => mret (Some new_cluster)
    | None =>
        _ ← match prev_cluster with
            | Some prev => attempt (write_fat_entry bpb prev 0x0FFFFFFF)
            | None => mret None
            end;
        undo
    end in
  match prev_cluster with
  | None => clear
  | Some prev =>
      l ← attempt (write_fat_entry bpb prev new_cluster);
      match l with Some _ => clear | None => undo end
  end.

Definition allocate_cluster {E} (bpb : Fat32Bpb) (prev_cluster : option Z) : M D E (option Z) :=
  c ← find_free_cluster bpb;
  match c with
  | None => mret None
  | Some new_cluster =>
      w ← attempt (write_fat_entry bpb new_cluster 0x0FFFFFFF);
      match w with
      | None => mret None
      | Some _ => link_and_clear bpb prev_cluster new_cluster
      end
  end.

(** [n] turns of the loop that frees a chain. *)
Fixpoint free_chain_loop (n : nat) (bpb : Fat32Bpb) (cluster : Z) : M D Fat32Error unit :=
  match n with
  | O => mret tt
  | S n =>
      if cluster <? 2 then mret tt
      else
        next ← follow_cluster_chain bpb cluster;
        _ ← write_fat_entry bpb cluster 0;
        match next with
        | Some c => if c <? 0x0FFFFFF8 then free_chain_loop n bpb c else mret tt
        | None => mret tt
        end
  end.

Definition free_cluster_chain (bpb : Fat32Bpb) (start_cluster : Z) : M D Fat32Error unit :=
  free_chain_loop (Z.to_nat (chain_limit bpb)) bpb start_cluster.

(** ** Directories *)

Fixpoint read_dir_clusters {E} (bpb : Fat32Bpb) (chain : list Z) (lfn : list (list Z)) : M D E (list DirEntry) :=
  match chain with
  | [] => mret []
  | cluster :: chain =>
      o ← attempt (read_cluster bpb cluster);
      match o with
      | None => mret []
      | Some buf =>
          let '(es, lfn, stop) := scan_cluster (entries_per_cluster bpb) cluster 0 buf lfn in
          if stop : bool then mret es
          else rest ← read_dir_clusters bpb chain lfn; mret (es ++ rest)
      end
  end.

Definition read_directory {E} (bpb : Fat32Bpb) (dir_cluster : Z) : M D E (list DirEntry) :=
  chain ← collect_cluster_chain bpb dir_cluster;
  read_dir_clusters bpb chain [].

Fixpoint find_in_clusters {E} (bpb : Fat32Bpb) (target : list Z) (chain : list Z) (lfn : list (list Z)) :
    M D E (option (Z * Z * Z * Z)) :=
  match chain with
  | [] => mret None
  | cluster :: chain =>
      o ← attempt (read_cluster bpb cluster);
      match o with
      | None => mret None
      | Some buf =>
          match find_in_cluster (entries_per_cluster bpb) target cluster 0 buf lfn with
          | (Some r, _) => mret r
          | (None, lfn) => find_in_clusters bpb target chain lfn
          end
      end
  end.

Definition find_dir_entry {E} (bpb : Fat32Bpb) (dir_cluster : Z) (target : list Z) : M D E (option (Z * Z * Z * Z)) :=
  chain ← collect_cluster_chain bpb dir_cluster;
  find_in_clusters bpb target chain [].

(** The clusters of the directory in turn; [last_cluster] is the one before. *)
Fixpoint dir_slot_loop {E} (bpb : Fat32Bpb) (chain : list Z) (last_cluster : Z) : M D E (option DirSlot) :=
  match chain with
  | [] =>
      c ← allocate_cluster bpb (Some last_cluster);
      mret (match c with Some c => Some (mkSlot c 0) | None => None end)
  | cluster :: chain =>
      o ← attempt (read_cluster bpb cluster);
      match o with
      | None => mret None
      | Some buf =>
          match find_slot (entries_per_cluster bpb) 0 buf with
          | Some (offset, first_byte) =>
              if (first_byte =? 0x00) && (offset + 64 <=? bytes_per_cluster bpb) then
                buf ← lift (splice (offset + 32) [0] buf);
                w ← attempt (write_cluster bpb cluster buf);
                mret (match w with Some _ => Some (mkSlot cluster offset) | None => None end)
              else mret (Some (mkSlot cluster offset))
          | None => dir_slot_loop bpb chain cluster
          end
      end
  end.

Definition find_or_allocate_dir_slot {E} (bpb : Fat32Bpb) (dir_cluster : Z) : M D E (option DirSlot) :=
  chain ← collect_cluster_chain bpb dir_cluster;
  dir_slot_loop bpb chain dir_cluster.

(** A directory cluster read, changed and written back, with the errors of the
    read and of the write. *)
Definition patch_entry {E} (e_read e_write : E) (bpb : Fat32Bpb) (cluster : Z) (change : list Z -> res E (list Z)) :
    M D E unit :=
  buf ← map_err e_read (read_cluster bpb cluster);
  buf ← lift (change buf);
  map_err e_write (write_cluster bpb cluster buf).

Definition write_dir_entry (bpb : Fat32Bpb) (slot : DirSlot) (short : list Z) (attr cluster size : Z) :
    M D Fat32Error unit :=
  patch_entry IoError IoError bpb (slot_cluster slot) (splice (slot_offset slot) (raw_entry short attr cluster size)).

(** ** Files

    The cached chain of the source is only ever emptied; it is left out. *)
Record Fat32File := mkFile {
  f_start : Z;
  f_size : Z;
  f_bpb : Fat32Bpb;
  f_entry_cluster : Z;
  f_entry_offset : Z
}.

Definition set_start (c : Z) (f : Fat32File) : Fat32File :=
  mkFile c (f_size f) (f_bpb f) (f_entry_cluster f) (f_entry_offset f).
Definition set_size (n : Z) (f : Fat32File) : Fat32File :=
  mkFile (f_start f) n (f_bpb f) (f_entry_cluster f) (f_entry_offset f).

(** Following the chain to the cluster that holds an offset. *)
Fixpoint skip_clusters (fuel : nat) (bpb : Fat32Bpb) (cluster skip : Z) : M D AbiError (Z * Z) :=
  match fuel with
  | O => mret (cluster, skip)
  | S fuel =>
      if bytes_per_cluster bpb <=? skip then
        o ← follow_cluster_chain bpb cluster;
        match o with
        | Some next => skip_clusters fuel bpb next (skip - bytes_per_cluster bpb)
        | None => throw (Other "FAT32 chain read error")
        end
      else mret (cluster, skip)
  end.

(** The batches of at most 64 clusters, each read from its first cluster on. *)
Fixpoint read_chunks (fuel : nat) (bpb : Fat32Bpb) (chain : list Z) (to_read copied intra : Z) (buf : list Z) :
    M D AbiError (Z * list Z) :=
  match fuel with
  | O => mret (copied, buf)
  | S fuel =>
      match take 64 chain with
      | [] => mret (copied, buf)
      | (first :: _) as chunk =>
          sector ← lift (cluster_to_sector bpb first);
          let nbytes := zlen chunk * bytes_per_cluster bpb in
          batch ← map_err (Other "FAT32 read I/O error")
                    (read_into sector (zlen chunk * sectors_per_cluster bpb) (zeros nbytes));
          let copy_len := Z.min (nbytes - intra) (to_read - copied) in
          bs ← lift (slice intra copy_len batch);
          buf ← lift (splice copied bs buf);
          read_chunks fuel bpb (drop 64 chain) to_read (copied + copy_len) 0 buf
      end
  end.

Definition file_read (f : Fat32File) (buf : list Z) (offset : Z) : M D AbiError (Z * list Z) :=
  if f_size f <=? offset then mret (0, buf)
  else
    let to_read := Z.min (f_size f - offset) (zlen buf) in
    if to_read =? 0 then mret (0, buf)
    else
      let bpb := f_bpb f in
      let bpc := bytes_per_cluster bpb in
      '(cluster, skip) ← skip_clusters (S (Z.to_nat (offset / bpc))) bpb (f_start f) offset;
      let nclusters := (to_read + bpc - 1) / bpc in
      chain ← collect_cluster_chain_limited (Z.to_nat nclusters) bpb cluster;
      match chain with
      | [] => throw (Other "FAT32 no clusters")
      | _ => read_chunks (length chain) bpb chain to_read 0 skip buf
      end.

(** [clusters_needed] for a size. *)
Definition clusters_needed (bpb : Fat32Bpb) (size : Z) : Z :=
  if size =? 0 then 0 else (size + bytes_per_cluster bpb - 1) / bytes_per_cluster bpb.

(** A file is changed together with the device. *)
Definition on_disk {E A} (m : M D E A) : M (Fat32File * D) E A := fun s =>
  let '(r, d) := m (snd s) in (r, (fst s, d)).

Definition on_file {E} (g : Fat32File -> Fat32File) : M (Fat32File * D) E unit :=
  modify (fun s => (g (fst s), snd s)).

(** [n] clusters appended to the chain. *)
Fixpoint extend_file (n : nat) (chain : list Z) : M (Fat32File * D) AbiError (list Z) :=
  match n with
  | O => mret chain
  | S n =>
      s ← get;
      o ← on_disk (allocate_cluster (f_bpb (fst s)) (last chain));
      match o with
      | None => throw (Other "Disk Full")
      | Some new_cl =>
          _ ← (if f_start (fst s) =? 0 then on_file (set_start new_cl) else mret tt);
          extend_file n (chain ++ [new_cl])
      end
  end.

(** The loop over the clusters from the one that holds the offset on. *)
Fixpoint write_clusters (bpb : Fat32Bpb) (chain : list Z) (intra written : Z) (buf : list Z) : M D AbiError Z :=
  match chain with
  | [] => mret written
  | cluster :: chain =>
      if written <? zlen buf then
        cluster_buf ← map_err (Other "FAT32 write I/O read error") (read_cluster bpb cluster);
        let copy_len := Z.min (bytes_per_cluster bpb - intra) (zlen buf - written) in
        bs ← lift (slice written copy_len buf);
        cluster_buf ← lift (splice intra bs cluster_buf);
        _ ← map_err (Other "FAT32 write I/O write error") (write_cluster bpb cluster cluster_buf);
        write_clusters bpb chain 0 (written + copy_len) buf
      else mret written
  end.

(** The start and the size in the directory entry at an offset. *)
Definition patch_start_size {E} (off start size : Z) (buf : list Z) : res E (list Z) :=
  _ ← slice off 32 buf;
  buf ← splice (off + 20) (le_bytes 2 (cluster_hi start)) buf;
  buf ← splice (off + 26) (le_bytes 2 (cluster_lo start)) buf;
  splice (off + 28) (le_bytes 4 size) buf.

Definition file_write (buf : list Z) (offset : Z) : M (Fat32File * D) AbiError Z :=
  s ← get;
  let f := fst s in
  let bpb := f_bpb f in
  let bpc := bytes_per_cluster bpb in
  stop ← lift (uadd offset (zlen buf));
  let new_size := Z.max (f_size f) (wrap 32 stop) in
  let needed := clusters_needed bpb new_size in
  chain ← (if f_start f =? 0 then mret [] else on_disk (collect_cluster_chain bpb (f_start f)));
  chain ← (if zlen chain <? needed then extend_file (Z.to_nat (needed - zlen chain)) chain else mret chain);
  written ← on_disk (write_clusters bpb (drop (Z.to_nat (offset / bpc)) chain) (offset mod bpc) 0 buf);
  s ← get;
  let f' := fst s in
  _ ← (if negb (new_size =? f_size f') || negb (f_start f' =? f_start f) then
         _ ← on_disk (patch_entry (Other "FAT32 write directory I/O read error")
               (Other "FAT32 write directory update error") bpb (f_entry_cluster f')
               (patch_start_size (f_entry_offset f') (f_start f') new_size));
         on_file (set_size new_size)
       else mret tt);
  mret written.

(** ** The volume *)

(** The first FAT32 partition among the [n] table entries from [base] on. *)
Fixpoint scan_partitions (n : nat) (base : Z) (mbr : list Z) : option (Z * Z) :=
  match n with
  | O => None
  | S n =>
      let ptype := byte_at (base + 4) mbr in
      let lba_start := u32_at (base + 8) mbr in
      let lba_size := u32_at (base + 12) mbr in
      if ((ptype =? 0x0B) || (ptype =? 0x0C)) && ((0 <? lba_start) && (0 <? lba_size))
      then Some (lba_start, lba_size)
      else scan_partitions n (base + 16) mbr
  end.

Definition find_fat32_partition {E} : M D E (option (Z * Z)) :=
  o ← attempt (read_into 0 1 (zeros SECTOR_SIZE));
  mret (match o with
        | None => None
        | Some mbr =>
            if negb (byte_at 0x1FE mbr =? 0x55) || negb (byte_at 0x1FF mbr =? 0xAA) then None
            else scan_partitions 4 446 mbr
        end).

Record Fat32Fs := mkFs { fs_bpb : Fat32Bpb; fs_mount_point : string }.

(** What the walk does to the VFS, in order. *)
Inductive vfs_call := VMkdir (path : string) | VMount (path : string) (f : Fat32File).

Definition child_path (prefix : string) (n : list Z) : string :=
  if decide (prefix = "/")%string then "/" +:+ Path.to_string n else prefix +:+ "/" +:+ Path.to_string n.

Definition dot : list Z := [0x2E].
Definition dotdot : list Z := [0x2E; 0x2E].

(** The recursion goes as deep as the tree, with no bound of its own; [fuel]
    bounds the calls one inside another, and [None] is a walk that is not over
    by then. *)
Fixpoint walk_and_mount {E} (fuel : nat) (bpb : Fat32Bpb) (dir_cluster : Z) (prefix : string) :
    M D E (option (list vfs_call)) :=
  match fuel with
  | O => mret None
  | S fuel =>
      entries ← read_directory bpb dir_cluster;
      (fix each (es : list DirEntry) : M D E (option (list vfs_call)) :=
         match es with
         | [] => mret (Some [])
         | e :: es =>
             if bool_decide (name e = dot) || bool_decide (name e = dotdot) then each es
             else
               let path := child_path prefix (name e) in
               calls ← (if is_dir e then
                          inner ← walk_and_mount fuel bpb (first_cluster e) path;
                          mret (match inner with Some l => Some (VMkdir path :: l) | None => None end)
                        else
                          mret (Some [VMount path (mkFile (first_cluster e) (file_size e) bpb
                                                     (entry_cluster e) (entry_offset e))]));
               rest ← each es;
               mret (match calls, rest with Some a, Some b => Some (a ++ b) | _, _ => None end)
         end) entries
  end.

Definition bpb_message (e : Fat32Error) : string :=
  match e with
  | BadSignature => "FAT32: bad boot sector signature (expected 0xAA55)"
  | InvalidBpb msg => msg
  | IoError => "FAT32: I/O error reading boot sector"
  | NotFat32 => "FAT32: partition is not FAT32"
  end.

Definition mount_fat32 (fuel : nat) (start : Z) (mount_point : string) :
    M D string (option (list vfs_call * Fat32Fs)) :=
  boot ← map_err "FAT32: failed to read boot sector"%string (read_into start 1 (zeros SECTOR_SIZE));
  bpb ← lift (match parse boot start with
              | Ok b => Ok b | Err e => Err (bpb_message e) | Panic => Panic | Fault => Fault
              end);
  if sectors_per_fat_32 bpb =? 0 then throw "FAT32: sectors_per_fat is zero — not a FAT32 volume"%string
  else if root_cluster bpb <? 2 then throw "FAT32: root cluster number is invalid"%string
  else
    calls ← walk_and_mount fuel bpb (root_cluster bpb) mount_point;
    mret (match calls with Some l => Some (l, mkFs bpb mount_point) | None => None end).

(** ** Operations on paths *)

(** The directory the leading parts of a path lead to. *)
Fixpoint descend (bpb : Fat32Bpb) (cluster : Z) (parts : list (list Z)) : M D string Z :=
  match parts with
  | [] => mret cluster
  | [] :: parts => descend bpb cluster parts
  | part :: parts =>
      entries ← read_directory bpb cluster;
      match list_find (fun e => is_dir e && eq_ignore_ascii_case (name e) part = true) entries with
      | Some (_, e) => descend bpb (first_cluster e) parts
      | None => throw "Parent directory not found"%string
      end
  end.

Definition resolve_parent_dir (fs : Fat32Fs) (path : string) : M D string (Z * list Z) :=
  let mp := fs_mount_point fs in
  if negb (Path.starts_with mp path) then throw "Path does not start with mount point"%string
  else
    let rel := Path.trim_start_matches Path.slash
                 (String.substring (String.length mp) (String.length path - String.length mp) path) in
    if decide (rel = "")%string then throw "Invalid path (cannot create root directory)"%string
    else
      let parts := map Path.bytes_of (Path.split Path.slash rel) in
      cluster ← descend (fs_bpb fs) (root_cluster (fs_bpb fs)) (removelast parts);
      mret (cluster, default [] (last parts)).

(** The global [FAT32] is [None] until a volume is mounted. *)
Definition mounted {A} (fs : option Fat32Fs) (k : Fat32Fs -> M D string A) : M D string A :=
  match fs with
  | None => throw "FAT32 filesystem not mounted"%string
  | Some fs => k fs
  end.

(** An operation that gives [None], as an error. *)
Definition ok_or {A} (msg : string) (m : M D string (option A)) : M D string A :=
  o ← m;
  match o with Some a => mret a | None => throw msg end.

Definition same_name (n : list Z) (e : DirEntry) : bool := eq_ignore_ascii_case (name e) n.

Definition create_file_on_disk (fs : option Fat32Fs) (path : string) : M D string Fat32File :=
  mounted fs (fun fs =>
    let bpb := fs_bpb fs in
    '(parent, leaf) ← resolve_parent_dir fs path;
    entries ← read_directory bpb parent;
    if existsb (same_name leaf) entries then throw "File already exists"%string
    else
      slot ← ok_or "Directory full / disk error" (find_or_allocate_dir_slot bpb parent);
      _ ← map_err "Failed to write directory entry"%string (write_dir_entry bpb slot (to_short_name leaf) 0x20 0 0);
      mret (mkFile 0 0 bpb (slot_cluster slot) (slot_offset slot))).

(** The entry of a path with the directory bit of the first entry of that
    name. *)
Definition find_entry (msg : string) (fs : Fat32Fs) (path : string) : M D string (Z * Z * Z * bool) :=
  let bpb := fs_bpb fs in
  '(parent, leaf) ← resolve_parent_dir fs path;
  '(ec, eo, fc, _) ← ok_or msg (find_dir_entry bpb parent leaf);
  entries ← read_directory bpb parent;
  mret (ec, eo, fc, match list_find (fun e => same_name leaf e = true) entries with
                    | Some (_, e) => is_dir e
                    | None => false
                    end).

(** Marking the entry deleted. *)
Definition delete_entry (bpb : Fat32Bpb) (cluster offset : Z) : M D string unit :=
  patch_entry "Failed to read directory sector"%string "Failed to write directory sector"%string bpb cluster
    (splice offset [0xE5]).

Definition rmdir_on_disk (fs : option Fat32Fs) (path : string) : M D string unit :=
  mounted fs (fun fs =>
    let bpb := fs_bpb fs in
    '(ec, eo, fc, isdir) ← find_entry "Directory not found" fs path;
    if negb isdir then throw "Not a directory (use unlink for files)"%string
    else
      inner ← read_directory bpb fc;
      if existsb (fun e => negb (bool_decide (name e = dot)) && negb (bool_decide (name e = dotdot))) inner
      then throw "Directory not empty"%string
      else
        _ ← map_err "Failed to free directory cluster"%string (free_cluster_chain bpb fc);
        delete_entry bpb ec eo).

Definition unlink_on_disk (fs : option Fat32Fs) (path : string) : M D string unit :=
  mounted fs (fun fs =>
    let bpb := fs_bpb fs in
    '(ec, eo, fc, isdir) ← find_entry "File not found" fs path;
    if isdir : bool then throw "Cannot unlink a directory (use rmdir)"%string
    else
      _ ← map_err "Failed to free cluster chain"%string (free_cluster_chain bpb fc);
      delete_entry bpb ec eo).

(** ['.'] and ['..'] padded with spaces. *)
Definition dot_name : list Z := [0x2E] ++ replicate 10 0x20.
Definition dotdot_name : list Z := [0x2E; 0x2E] ++ replicate 9 0x20.

Definition mkdir_on_disk (fs : option Fat32Fs) (path : string) : M D string unit :=
  mounted fs (fun fs =>
    let bpb := fs_bpb fs in
    '(parent, leaf) ← resolve_parent_dir fs path;
    entries ← read_directory bpb parent;
    if existsb (same_name leaf) entries then throw "Directory/file already exists"%string
    else
      c ← ok_or "Disk full" (allocate_cluster bpb None);
      _ ← map_err "Failed to write . entry"%string
            (write_dir_entry bpb (mkSlot c 0) dot_name ATTR_DIRECTORY c 0);
      _ ← map_err "Failed to write .. entry"%string
            (write_dir_entry bpb (mkSlot c 32) dotdot_name ATTR_DIRECTORY
               (if parent =? root_cluster bpb then 0 else parent) 0);
      slot ← ok_or "Directory full" (find_or_allocate_dir_slot bpb parent);
      map_err "Failed to write directory entry in parent"%string
        (write_dir_entry bpb slot (to_short_name leaf) ATTR_DIRECTORY c 0)).

Definition rename_on_disk (fs : option Fat32Fs) (old new : string) : M D string unit :=
  mounted fs (fun fs =>
    let bpb := fs_bpb fs in
    '(old_parent, old_leaf) ← resolve_parent_dir fs old;
    '(new_parent, new_leaf) ← resolve_parent_dir fs new;
    if negb (old_parent =? new_parent) then throw "Rename across directories not supported yet"%string
    else
      '(ec, eo, _, _) ← ok_or "Old file not found" (find_dir_entry bpb old_parent old_leaf);
      patch_entry "Failed to read directory sector"%string "Failed to write directory sector"%string bpb ec
        (fun buf => _ ← slice eo 32 buf; splice eo (to_short_name new_leaf) buf)).

(** The clusters cut off a chain. *)
Fixpoint free_each (bpb : Fat32Bpb) (chain : list Z) : M D string unit :=
  match chain with
  | [] => mret tt
  | c :: chain => _ ← map_err "Failed to free cluster"%string (write_fat_entry bpb c 0); free_each bpb chain
  end.

(** Clusters appended, with the start of the chain. *)
Fixpoint extend_chain (n : nat) (bpb : Fat32Bpb) (start : Z) (last_cluster : option Z) : M D string Z :=
  match n with
  | O => mret start
  | S n =>
      c ← ok_or "Disk Full" (allocate_cluster bpb last_cluster);
      extend_chain n bpb (if start =? 0 then c else start) (Some c)
  end.

Definition truncate_on_disk (fs : option Fat32Fs) (path : string) (new_size : Z) : M D string unit :=
  mounted fs (fun fs =>
    let bpb := fs_bpb fs in
    '(parent, leaf) ← resolve_parent_dir fs path;
    '(ec, eo, start, _) ← ok_or "File not found" (find_dir_entry bpb parent leaf);
    let needed := clusters_needed bpb new_size in
    chain ← (if start =? 0 then mret [] else collect_cluster_chain bpb start);
    new_start ←
      (if needed <? zlen chain then
         _ ← (if 0 <? needed then
                c ← lift (index chain (needed - 1));
                map_err "Failed to update end of chain"%string (write_fat_entry bpb c 0x0FFFFFFF)
              else mret tt);
         _ ← free_each bpb (drop (Z.to_nat needed) chain);
         mret (if 0 <? needed then start else 0)
       else if zlen chain <? needed then
         extend_chain (Z.to_nat (needed - zlen chain)) bpb start (last chain)
       else mret start);
    patch_entry "Failed to read directory sector"%string "Failed to write directory entry"%string bpb ec
      (patch_start_size eo new_start (wrap 32 new_size))).

End device.

End Fat32.
