(* ===== verification/Fat32Spec.v ===== *)
(** * FAT32: the allocation table and the clusters

    The table on disk as a function from clusters to entries, and what the
    functions of [Fat32] that read it, write it, allocate and free do to that
    function and to the contents of the clusters. *)

From S2P Require Import Prelude Bytes Abi Disk Fat32.
Import Disk Fat32.

Module Fat32Spec.

Section table.
Context {D : Type} {bd : BlockDevice D} {ds : DiskSpec D} (bpb : Fat32Bpb).

(** A volume the driver can use: sectors of 512 bytes, and a data cluster on
    the device for every entry of the table. *)
Record volume (d : D) : Prop := {
  vo_bps : bytes_per_sector bpb = 512;
  vo_spc : 1 <= sectors_per_cluster bpb;
  vo_fats : 1 <= num_fats bpb;
  vo_start : 0 <= fat_start_sector bpb;
  vo_spf : 1 <= sectors_per_fat_32 bpb < 2 ^ 21;
  vo_end : data_start_sector bpb + (max_clusters bpb - 2) * sectors_per_cluster bpb <= total_sectors d
}.

(** The first table, and that the copies agree with it. *)
Definition table (d : D) : list Z := range d (fat_start_sector bpb) (sectors_per_fat_32 bpb).

Definition mirrored (d : D) : Prop := forall i, 0 <= i < num_fats bpb ->
  range d (fat_start_sector bpb + i * sectors_per_fat_32 bpb) (sectors_per_fat_32 bpb) = table d.

(** The entry of a cluster, without its four reserved bits. *)
Definition fat (d : D) (c : Z) : Z := Z.land (u32_at (c * 4) (table d)) 0x0FFFFFFF.

(** The contents of a cluster. *)
Definition data (d : D) (c : Z) : list Z :=
  range d (data_start_sector bpb + (c - 2) * sectors_per_cluster bpb) (sectors_per_cluster bpb).

(** What an entry says of the chain. *)
Definition next_of (e : Z) : option Z :=
  if 0x0FFFFFF8 <=? e then None else if e <? 2 then None else Some e.

Definition valid (c : Z) : Prop := 2 <= c < max_clusters bpb.

Record fs_ok (d : D) : Prop := { fo_volume : volume d; fo_mirrored : mirrored d }.

Lemma max_eq d : volume d -> max_clusters bpb = sectors_per_fat_32 bpb * 128.
Proof.
  intros H. unfold max_clusters. rewrite (vo_bps d H). replace (_ * 512) with (sectors_per_fat_32 bpb * 128 * 4) by lia.
  apply Z.div_mul. lia.
Qed.

Lemma zlen_table d : volume d -> zlen (table d) = sectors_per_fat_32 bpb * 512.
Proof. intros H. unfold table. apply zlen_range. pose proof (vo_spf d H). lia. Qed.

(** ** Ranges of sectors *)

(** A range one sector of which was written. *)
Lemma range_write_one d d' s n k buf :
  s <= k < s + n -> sector d' k = buf -> (forall j, s <= j < s + n -> j <> k -> sector d' j = sector d j) ->
  range d' s n = upd ((k - s) * 512) buf (range d s n).
Proof.
  intros Hk Hb Ho. assert (zlen buf = 512) as Hl by (rewrite <-Hb; apply sector_len).
  assert (forall e, range e s n = range e s (k - s) ++ sector e k ++ range e (k + 1) (s + n - k - 1)) as Hsplit.
  { intros e. rewrite <-range_1, <-range_app by lia. replace k with (s + (k - s)) at 2 by lia.
    rewrite <-range_app by lia. f_equal. lia. }
  rewrite (Hsplit d'), (Hsplit d), Hb.
  rewrite (range_ext d d' s), (range_ext d d' (k + 1)) by (intros j Hj; apply Ho; lia).
  unfold upd. assert (Z.to_nat ((k - s) * 512) = length (range d s (k - s))) as Hn.
  { pose proof (zlen_range d s (k - s)). unfold zlen in *. lia. }
  rewrite Hn, take_app_length. f_equal. f_equal.
  rewrite drop_app_add'. 2: done.
  rewrite drop_app_length'; [done|]. pose proof (sector_len d k). unfold zlen in *. lia.
Qed.

(** The sector of a range. *)
Lemma sector_of_range d s n k : s <= k < s + n -> sector d k = sub ((k - s) * 512) 512 (range d s n).
Proof. intros Hk. rewrite <-range_1, <-(sub_range d s n k 1) by lia. done. Qed.

(** An update of a part of an update. *)
Lemma upd_part {A} o off (w l : list A) :
  0 <= o -> 0 <= off -> off + zlen w <= 512 -> o + 512 <= zlen l ->
  upd o (upd off w (sub o 512 l)) l = upd (o + off) w l.
Proof.
  intros Ho Hoff Hw Hl. pose proof (zlen_nonneg w).
  assert (zlen (sub o 512 l) = 512) as Hs by (apply zlen_sub; lia).
  assert (zlen (upd off w (sub o 512 l)) = 512) as Hu by (rewrite zlen_upd; lia).
  apply list_eq. intros i. rewrite (upd_lookup o), (upd_lookup (o + off)) by (rewrite ?Hu; lia). rewrite Hu.
  destruct (decide (o <= Z.of_nat i < o + 512)).
  - rewrite upd_lookup by lia. destruct (decide (o + off <= Z.of_nat i < o + off + zlen w)).
    + rewrite decide_True by lia. f_equal. lia.
    + rewrite decide_False by lia. rewrite sub_lookup, decide_True by lia. f_equal. lia.
  - by rewrite decide_False by lia.
Qed.

(** ** Reading the table *)

Lemma read_sector {E} (d : D) k :
  0 <= k < total_sectors d ->
  attempt (F:=E) (read_into k 1 (zeros SECTOR_SIZE)) d = (Ok (Some (sector d k)), d).
Proof.
  intros Hk. unfold attempt, read_into. change (zlen (zeros SECTOR_SIZE) <? 1 * 512) with false. cbn iota.
  rewrite read_range by lia. cbn. rewrite range_1.
  change (drop _ (zeros SECTOR_SIZE)) with (@nil Z). by rewrite app_nil_r.
Qed.

(** Where the entry of a cluster is. *)
Lemma entry_place d c : volume d -> 0 <= c < max_clusters bpb ->
  let j := c * 4 / 512 in
  fat_sector bpb c = fat_start_sector bpb + j /\ 0 <= j < sectors_per_fat_32 bpb /\
  fat_offset bpb c = c * 4 - j * 512 /\ 0 <= fat_offset bpb c <= 508.
Proof.
  intros Hv Hc j. rewrite (max_eq d Hv) in Hc. unfold fat_sector, fat_offset. rewrite (vo_bps d Hv). fold j.
  pose proof (Z.div_mod (c * 4) 512). pose proof (Z.mod_pos_bound (c * 4) 512).
  assert (0 <= j < sectors_per_fat_32 bpb) by (split; [apply Z.div_pos|apply Z.div_lt_upper_bound]; lia).
  split; [done|]. split; [done|]. split; [lia|]. split; [lia|].
  replace (c * 4) with (4 * c) by lia. change 512 with (4 * 128). rewrite Zmult_mod_distr_l.
  pose proof (Z.mod_pos_bound c 128). lia.
Qed.

Lemma data_after_fat d : volume d ->
  data_start_sector bpb = fat_start_sector bpb + num_fats bpb * sectors_per_fat_32 bpb /\
  fat_start_sector bpb + sectors_per_fat_32 bpb <= data_start_sector bpb <= total_sectors d.
Proof.
  intros Hv. split; [done|]. pose proof (vo_end d Hv) as He. rewrite (max_eq d Hv) in He. unfold data_start_sector in *.
  destruct Hv. nia.
Qed.

Lemma entry_sector d c : volume d -> 0 <= c < max_clusters bpb ->
  sub (fat_offset bpb c) 4 (sector d (fat_sector bpb c)) = sub (c * 4) 4 (table d).
Proof.
  intros Hv Hc. destruct (entry_place d c Hv Hc) as (-> & Hj & Ho & Hr). set (j := c * 4 / 512) in *.
  unfold table. rewrite (sector_of_range d (fat_start_sector bpb) (sectors_per_fat_32 bpb)) by lia.
  replace (fat_start_sector bpb + j - fat_start_sector bpb) with j by lia.
  apply list_eq. intros i. rewrite !sub_lookup by lia. case_decide; [|done]. rewrite decide_True by lia. f_equal. lia.
Qed.

Lemma follow_ok {E} d c : volume d -> 0 <= c < max_clusters bpb ->
  follow_cluster_chain (E:=E) bpb c d = (Ok (next_of (fat d c)), d).
Proof.
  intros Hv Hc. destruct (entry_place d c Hv Hc) as (Hs & Hj & Ho & Hr). destruct (data_after_fat d Hv) as [_ Hd].
  unfold follow_cluster_chain, mbind, M_bind, mret, M_ret. rewrite read_sector by (pose proof (vo_start d Hv); lia).
  unfold SECTOR_SIZE. destruct (Z.ltb_spec 512 (fat_offset bpb c + 4)); [lia|].
  unfold fat, u32_at. by rewrite <-(entry_sector d c Hv Hc).
Qed.

(** ** Writing the table *)

Lemma write_copies_ok n d s buf :
  0 <= s -> 0 <= sectors_per_fat_32 bpb -> s + Z.of_nat n * sectors_per_fat_32 bpb <= total_sectors d + sectors_per_fat_32 bpb - 1 ->
  zlen buf = 512 -> Forall is_byte buf ->
  exists d', write_copies n bpb s buf d = (Ok tt, d') /\ total_sectors d' = total_sectors d /\
    forall k, (exists i, 0 <= i < Z.of_nat n /\ k = s + i * sectors_per_fat_32 bpb) /\ sector d' k = buf \/
      (forall i, 0 <= i < Z.of_nat n -> k <> s + i * sectors_per_fat_32 bpb) /\ sector d' k = sector d k.
Proof.
  intros Hs Hp Ht Hl Hb. revert s d Hs Ht. induction n as [|n IH]; intros s d Hs Ht; cbn [write_copies].
  { exists d. split; [done|]. split; [done|]. intros k. right. split; [lia|done]. }
  unfold mbind, M_bind, map_err, write_from. destruct (Z.ltb_spec (zlen buf) (1 * 512)); [lia|].
  destruct (write_range d s 1 buf) as (d1 & -> & Ht1 & Hr1 & Ho1 & _); [lia..|done|].
  destruct (IH (s + sectors_per_fat_32 bpb) d1) as (d' & -> & Ht' & Hk'); [lia..|].
  exists d'. split; [done|]. split; [congruence|]. intros k.
  destruct (Hk' k) as [[(i & Hi & ->) Hkb]|[Hi Hkb]].
  - left. split; [|done]. exists (i + 1). lia.
  - destruct (decide (k = s)) as [->|Hne].
    + left. split; [exists 0; lia|]. by rewrite Hkb, <-range_1, Hr1.
    + right. split; [|rewrite Hkb; apply Ho1; lia]. intros i Hi' ->.
      destruct (decide (i = 0)); [lia|]. apply (Hi (i - 1)); lia.
Qed.

(** The new entry keeps the reserved bits of the old one. *)
Definition entry_word (old v : Z) : Z := Z.lor (Z.land old 0xF0000000) (Z.land v 0x0FFFFFFF).

Lemma entry_word_value old v : Z.land (entry_word old v) 0x0FFFFFFF = Z.land v 0x0FFFFFFF.
Proof.
  unfold entry_word. rewrite Z.land_lor_distr_l, <-!Z.land_assoc.
  change (Z.land 0xF0000000 0x0FFFFFFF) with 0. by rewrite Z.land_0_r, Z.lor_0_l, Z.land_diag.
Qed.

Lemma entry_word_fits old v : fits 32 (entry_word old v).
Proof.
  unfold entry_word. rewrite (Z.land_comm old), (Z.land_comm v).
  by apply (lor_fits 32); [|apply (land_fits 32)..].
Qed.

(** Everything but the tables. *)
Definition same_but_tables (d d' : D) : Prop :=
  total_sectors d' = total_sectors d /\
  forall k, k < fat_start_sector bpb \/ data_start_sector bpb <= k -> sector d' k = sector d k.

Lemma volume_same d d' : total_sectors d' = total_sectors d -> volume d -> volume d'.
Proof. intros Ht []. split; try done. by rewrite Ht. Qed.

Lemma data_same d d' c : volume d -> 2 <= c -> same_but_tables d d' -> data d' c = data d c.
Proof.
  intros Hv Hc [_ Hs]. unfold data. apply range_ext. intros k Hk. apply Hs. right.
  pose proof (vo_spc d Hv). nia.
Qed.

(** A sector of every table replaced. *)
Lemma tables_written d d' j buf :
  fs_ok d -> 0 <= j < sectors_per_fat_32 bpb -> total_sectors d' = total_sectors d ->
  (forall k, (exists i, 0 <= i < num_fats bpb /\ k = fat_start_sector bpb + j + i * sectors_per_fat_32 bpb) /\ sector d' k = buf \/
     (forall i, 0 <= i < num_fats bpb -> k <> fat_start_sector bpb + j + i * sectors_per_fat_32 bpb) /\ sector d' k = sector d k) ->
  fs_ok d' /\ table d' = upd (j * 512) buf (table d) /\ same_but_tables d d'.
Proof.
  intros [Hv Hm] Hj Ht Hk.
  assert (forall i, 0 <= i < num_fats bpb ->
    range d' (fat_start_sector bpb + i * sectors_per_fat_32 bpb) (sectors_per_fat_32 bpb) = upd (j * 512) buf (table d)) as Hcopy.
  { intros i Hi. rewrite <-(Hm i Hi).
    replace (j * 512) with ((fat_start_sector bpb + j + i * sectors_per_fat_32 bpb
      - (fat_start_sector bpb + i * sectors_per_fat_32 bpb)) * 512) by lia.
    apply range_write_one; [lia| |].
    - destruct (Hk (fat_start_sector bpb + j + i * sectors_per_fat_32 bpb)) as [[_ ?]|[Hn _]]; [done|]. by destruct (Hn i Hi).
    - intros k Hkr Hne. destruct (Hk k) as [[(i' & Hi' & ->) _]|[_ ?]]; [|done]. destruct Hne.
      destruct (Z.lt_trichotomy i' i) as [|[->|]]; [nia|done|nia]. }
  assert (table d' = upd (j * 512) buf (table d)) as Htab.
  { unfold table at 1. rewrite <-(Hcopy 0); [by rewrite Z.mul_0_l, Z.add_0_r|]. pose proof (vo_fats d Hv). lia. }
  split; [|split; [done|]].
  - split; [by apply (volume_same d)|]. intros i Hi. by rewrite Hcopy, Htab.
  - split; [done|]. intros k Hkr. destruct (Hk k) as [[(i & Hi & ->) _]|[_ ?]]; [|done].
    unfold data_start_sector in Hkr. nia.
Qed.

Lemma write_fat_entry_ok d c v :
  fs_ok d -> 0 <= c < max_clusters bpb ->
  exists d', write_fat_entry bpb c v d = (Ok tt, d') /\ fs_ok d' /\ same_but_tables d d' /\
    forall x, 0 <= x < max_clusters bpb -> fat d' x = if decide (x = c) then Z.land v 0x0FFFFFFF else fat d x.
Proof.
  intros Hok Hc. pose proof (fo_volume d Hok) as Hv.
  destruct (entry_place d c Hv Hc) as (Hs & Hj & Ho & Hr). destruct (data_after_fat d Hv) as [Hds Hd].
  pose proof (vo_start d Hv) as H0. set (j := c * 4 / 512) in *.
  unfold write_fat_entry, mbind, M_bind, map_err, lift, read_into.
  change (zlen (zeros SECTOR_SIZE) <? 1 * 512) with false. cbn iota. rewrite read_range by lia.
  cbn [mbind res_bind]. rewrite range_1. change (drop _ (zeros SECTOR_SIZE)) with (@nil Z). rewrite app_nil_r.
  set (sec := sector d (fat_sector bpb c)). assert (zlen sec = 512) as Hsec by apply sector_len.
  unfold slice. rewrite decide_True by lia. fold (entry_word (le_word (sub (fat_offset bpb c) 4 sec)) v).
  set (w := entry_word _ v). assert (zlen (le_bytes 4 w) = 4) as Hw by apply zlen_le_bytes.
  unfold splice. rewrite decide_True by lia. set (buf := upd (fat_offset bpb c) (le_bytes 4 w) sec).
  assert (zlen buf = 512) as Hbuf by (unfold buf; rewrite zlen_upd; lia).
  destruct (write_copies_ok (Z.to_nat (num_fats bpb)) d (fat_sector bpb c) buf) as (d' & -> & Ht & Hk);
    [lia|pose proof (vo_spf d Hv); lia| |done| |].
  { rewrite Z2Nat.id by (pose proof (vo_fats d Hv); lia). lia. }
  { apply upd_bytes; [apply le_bytes_bytes|apply sector_bytes]. }
  rewrite Z2Nat.id in Hk by (pose proof (vo_fats d Hv); lia). rewrite Hs in Hk.
  destruct (tables_written d d' j buf Hok Hj Ht Hk) as (Hok' & Htab & Hsame).
  exists d'. split; [done|]. split; [done|]. split; [done|]. intros x Hx. unfold fat, u32_at.
  assert (table d' = upd (c * 4) (le_bytes 4 w) (table d)) as Htab'.
  { rewrite Htab. unfold buf, sec. rewrite Hs, (sector_of_range d (fat_start_sector bpb) (sectors_per_fat_32 bpb)) by lia.
    replace (fat_start_sector bpb + j - fat_start_sector bpb) with j by lia. fold (table d).
    rewrite upd_part by (rewrite ?zlen_table by done; lia). f_equal. lia. }
  rewrite Htab'. rewrite (max_eq d Hv) in *. case_decide as Hxc.
  - subst x. rewrite <-Hw, sub_upd_same by (rewrite ?zlen_table by done; lia).
    rewrite le_word_round by apply entry_word_fits. apply entry_word_value.
  - rewrite sub_upd_other by (rewrite ?zlen_table by done; lia). done.
Qed.

(** ** Allocating *)

Definition free_cluster (d : D) (c : Z) : Prop := valid c /\ fat d c = 0.

(** The first free cluster of an interval. *)
Definition first_free (d : D) (lo hi : Z) (r : option Z) : Prop :=
  match r with
  | Some c => lo <= c < hi /\ free_cluster d c /\ forall x, lo <= x < c -> ~ free_cluster d x
  | None => forall x, lo <= x < hi -> ~ free_cluster d x
  end.

Lemma first_free_skip d lo mid hi r :
  lo <= mid <= hi -> (forall x, lo <= x < mid -> ~ free_cluster d x) -> first_free d mid hi r -> first_free d lo hi r.
Proof.
  intros Hm Hlow. destruct r as [c|]; cbn.
  - intros (Hc & Hf & Hx). split; [lia|]. split; [done|]. intros x Hr. destruct (decide (x < mid)); [apply Hlow; lia|apply Hx; lia].
  - intros Hx x Hr. destruct (decide (x < mid)); [apply Hlow; lia|apply Hx; lia].
Qed.

Lemma first_free_widen d lo hi hi' c : first_free d lo hi (Some c) -> hi <= hi' -> first_free d lo hi' (Some c).
Proof. intros (Hc & Hf & Hx) Hh. split; [lia|done]. Qed.

Lemma scan_fat_ok {E} n d s o :
  volume d -> 0 <= s < sectors_per_fat_32 bpb -> 0 <= o -> o + Z.of_nat n = 128 ->
  exists r, scan_fat (E:=E) n bpb s (4 * o) (sector d (fat_start_sector bpb + s)) = Ok r /\
    first_free d (s * 128 + o) (s * 128 + 128) r.
Proof.
  intros Hv Hs. revert o. induction n as [|n IH]; intros o Ho Hn; cbn [scan_fat].
  { exists None. split; [done|]. intros x Hx. lia. }
  rewrite (vo_bps d Hv). replace (s * 512 + 4 * o) with ((s * 128 + o) * 4) by lia. rewrite Z.div_mul by lia.
  set (c := s * 128 + o). replace (4 * o + 4) with (4 * (o + 1)) by lia.
  destruct (IH (o + 1)) as (r & Hr & Hff); [lia..|].
  assert (~ free_cluster d c -> first_free d c (s * 128 + 128) r) as Hnext.
  { intros Hnf. apply (first_free_skip d c (s * 128 + (o + 1))); [lia| |done]. intros x Hx.
    by replace x with c by lia. }
  destruct (Z.ltb_spec c 2); [|destruct (Z.leb_spec (max_clusters bpb) c)]; cbn [orb].
  1,2: (exists r; split; [done|]; apply Hnext; intros [Hc _]; unfold valid in Hc; lia).
  assert (0 <= c < max_clusters bpb) as Hc by lia.
  destruct (entry_place d c Hv Hc) as (Hsec & Hj & Hoff & _).
  assert (c * 4 / 512 = s) as Hjs by (symmetry; apply (Z.div_unique _ _ _ (4 * o)); lia). rewrite Hjs in *.
  pose proof (sector_len d (fat_start_sector bpb + s)) as Hlen.
  unfold slice. rewrite decide_True by lia. cbn [mbind res_bind].
  assert (fat d c = Z.land (le_word (sub (4 * o) 4 (sector d (fat_start_sector bpb + s)))) 0x0FFFFFFF) as Hfat.
  { unfold fat, u32_at. rewrite <-(entry_sector d c Hv Hc), Hsec. do 3 f_equal. lia. }
  rewrite <-Hfat. destruct (Z.eqb_spec (fat d c) 0) as [Hz|Hz].
  - exists (Some c). rewrite (max_eq d Hv) in Hc. pose proof (vo_spf d Hv).
    split; [rewrite wrap_small; [done|unfold fits; lia]|]. split; [lia|]. split; [|lia]. split; [|done].
    unfold valid. rewrite (max_eq d Hv). lia.
  - exists r. split; [done|]. apply Hnext. by intros [_ ?].
Qed.

Lemma find_free_from_ok {E} n d s :
  volume d -> 0 <= s -> s + Z.of_nat n = sectors_per_fat_32 bpb ->
  exists r, find_free_from (E:=E) n bpb s d = (Ok r, d) /\ first_free d (s * 128) (max_clusters bpb) r.
Proof.
  intros Hv. revert s. induction n as [|n IH]; intros s Hs Hn; cbn [find_free_from].
  { exists None. split; [done|]. intros x Hx. rewrite (max_eq d Hv) in Hx. lia. }
  unfold mbind, M_bind, mret, M_ret, lift. destruct (data_after_fat d Hv) as [_ Hd]. pose proof (vo_start d Hv).
  rewrite read_sector by lia. rewrite (vo_bps d Hv). change (Z.to_nat ((512 + 3) / 4)) with 128%nat.
  destruct (scan_fat_ok (E:=E) 128 d s 0 Hv) as (r & Hr & Hff); [lia..|]. rewrite Z.mul_0_r in Hr. rewrite Hr.
  rewrite Z.add_0_r in Hff. rewrite (max_eq d Hv). destruct r as [c|].
  - exists (Some c). split; [done|]. apply (first_free_widen _ _ _ _ _ Hff). lia.
  - destruct (IH (s + 1)) as (r & -> & Hr'); [lia..|]. exists r. split; [done|]. rewrite (max_eq d Hv) in Hr'.
    apply (first_free_skip d (s * 128) ((s + 1) * 128)); [lia| |done]. intros x Hx. apply Hff. lia.
Qed.

Lemma find_free_cluster_ok {E} d :
  volume d -> exists r, find_free_cluster (E:=E) bpb d = (Ok r, d) /\ first_free d 2 (max_clusters bpb) r.
Proof.
  intros Hv. destruct (find_free_from_ok (E:=E) (Z.to_nat (sectors_per_fat_32 bpb)) d 0 Hv) as (r & Hr & Hff).
  { lia. } { pose proof (vo_spf d Hv). lia. }
  exists r. split; [done|]. destruct r as [c|].
  - destruct Hff as (Hc & [Hv' H0] & Hx). split; [unfold valid in Hv'; lia|]. split; [done|]. intros x Hr'. apply Hx. lia.
  - intros x Hx. apply Hff. lia.
Qed.

(** ** Clusters *)

Lemma cluster_sector {E} c : 2 <= c ->
  cluster_to_sector (E:=E) bpb c = Ok (data_start_sector bpb + (c - 2) * sectors_per_cluster bpb).
Proof. intros Hc. unfold cluster_to_sector. destruct (Z.ltb_spec c 2); [lia|done]. Qed.

Lemma cluster_size d : volume d -> bytes_per_cluster bpb = sectors_per_cluster bpb * 512.
Proof. intros Hv. unfold bytes_per_cluster. by rewrite (vo_bps d Hv). Qed.

(** The sectors of a valid cluster are on the device, after the tables. *)
Lemma cluster_place d c : volume d -> valid c ->
  let s := data_start_sector bpb + (c - 2) * sectors_per_cluster bpb in
  0 <= s /\ data_start_sector bpb <= s /\ s + sectors_per_cluster bpb <= total_sectors d.
Proof.
  intros Hv [Hc1 Hc2] s. pose proof (vo_end d Hv). pose proof (vo_spc d Hv). pose proof (vo_start d Hv).
  pose proof (vo_fats d Hv). pose proof (vo_spf d Hv). destruct (data_after_fat d Hv) as [_ ?]. unfold s. nia.
Qed.

Lemma zlen_data d c : volume d -> zlen (data d c) = bytes_per_cluster bpb.
Proof. intros Hv. unfold data. rewrite zlen_range, (cluster_size d Hv); [done|]. pose proof (vo_spc d Hv). lia. Qed.

Lemma read_cluster_ok d c : volume d -> valid c -> read_cluster bpb c d = (Ok (data d c), d).
Proof.
  intros Hv Hc. destruct (cluster_place d c Hv Hc) as (H0 & Hs & He). unfold read_cluster, mbind, M_bind, lift.
  rewrite cluster_sector by (unfold valid in Hc; lia). unfold read_into. pose proof (vo_spc d Hv).
  rewrite zlen_zeros by (rewrite (cluster_size d Hv); lia). rewrite (cluster_size d Hv), Z.ltb_irrefl.
  rewrite read_range by lia. cbn [mbind res_bind]. fold (data d c). unfold zeros. rewrite drop_ge, app_nil_r; [done|].
  rewrite length_replicate. lia.
Qed.

(** Everything but one cluster. *)
Definition same_but_cluster (c : Z) (d d' : D) : Prop :=
  total_sectors d' = total_sectors d /\ (fs_ok d -> fs_ok d') /\ (forall x, fat d' x = fat d x) /\
  forall x, valid x -> x <> c -> data d' x = data d x.

Lemma write_cluster_ok d c buf :
  volume d -> valid c -> zlen buf = bytes_per_cluster bpb -> Forall is_byte buf ->
  exists d', write_cluster bpb c buf d = (Ok tt, d') /\ data d' c = buf /\ same_but_cluster c d d'.
Proof.
  intros Hv Hc Hl Hb. destruct (cluster_place d c Hv Hc) as (H0 & Hs & He). unfold write_cluster, mbind, M_bind, lift.
  rewrite cluster_sector by (unfold valid in Hc; lia). unfold write_from. pose proof (vo_spc d Hv).
  rewrite (cluster_size d Hv) in Hl. rewrite Hl, Z.ltb_irrefl.
  destruct (write_range d (data_start_sector bpb + (c - 2) * sectors_per_cluster bpb) (sectors_per_cluster bpb) buf)
    as (d' & -> & Ht & Hr & Ho & _); [lia..|done|].
  exists d'. split; [done|]. split; [done|]. destruct (data_after_fat d Hv) as [Hds Hd].
  assert (forall i, 0 <= i < num_fats bpb -> range d' (fat_start_sector bpb + i * sectors_per_fat_32 bpb) (sectors_per_fat_32 bpb)
    = range d (fat_start_sector bpb + i * sectors_per_fat_32 bpb) (sectors_per_fat_32 bpb)) as Htab.
  { intros i Hi. apply range_ext. intros k Hk. apply Ho. left. pose proof (vo_spf d Hv). nia. }
  assert (table d' = table d) as Ht0.
  { unfold table. pose proof (Htab 0) as Ht0. rewrite Z.mul_0_l, Z.add_0_r in Ht0. apply Ht0. pose proof (vo_fats d Hv). lia. }
  split; [done|]. split; [|split; [by intros x; unfold fat; rewrite Ht0|]].
  - intros [_ Hm]. split; [by apply (volume_same d)|]. intros i Hi. rewrite Htab, Ht0 by done. by apply Hm.
  - intros x [Hx _] Hne. unfold data. apply range_ext. intros k Hk. apply Ho.
    destruct (Z.lt_trichotomy x c) as [|[?|]]; [left; nia|done|right; nia].
Qed.

Lemma land_small c : 0 <= c < 2 ^ 28 -> Z.land c 0x0FFFFFFF = c.
Proof. intros Hc. change 0x0FFFFFFF with (Z.ones 28). rewrite Z.land_ones by lia. by apply Z.mod_small. Qed.

Lemma valid_small d c : volume d -> valid c -> 0 <= c < 0x0FFFFFF8.
Proof. intros Hv [H1 H2]. rewrite (max_eq d Hv) in H2. pose proof (vo_spf d Hv). lia. Qed.

(** A step that only writes tables, followed by one that writes a cluster. *)
Lemma attempt_ok {E F A} (m : M D E A) d a d' : m d = (Ok a, d') -> attempt (F:=F) m d = (Ok (Some a), d').
Proof. intros H. unfold attempt. by rewrite H. Qed.

Lemma clear_ok d c : fs_ok d -> valid c ->
  exists d', write_cluster bpb c (zeros (bytes_per_cluster bpb)) d = (Ok tt, d') /\
    data d' c = zeros (bytes_per_cluster bpb) /\ same_but_cluster c d d'.
Proof.
  intros Hok Hc. pose proof (fo_volume d Hok) as Hv. apply write_cluster_ok; [done..| |apply zeros_bytes].
  apply zlen_zeros. rewrite (cluster_size d Hv). pose proof (vo_spc d Hv). lia.
Qed.

Lemma link_and_clear_ok {E} d c prev :
  fs_ok d -> valid c -> (forall p, prev = Some p -> 0 <= p < max_clusters bpb) ->
  exists d', link_and_clear (E:=E) bpb prev c d = (Ok (Some c), d') /\ fs_ok d' /\
    data d' c = zeros (bytes_per_cluster bpb) /\ (forall x, valid x -> x <> c -> data d' x = data d x) /\
    forall x, 0 <= x < max_clusters bpb -> fat d' x = if decide (prev = Some x) then c else fat d x.
Proof.
  intros Hok Hc Hp. pose proof (fo_volume d Hok) as Hv. unfold link_and_clear, mbind, M_bind, mret, M_ret.
  destruct prev as [p|].
  - destruct (write_fat_entry_ok d p c Hok (Hp p eq_refl)) as (d1 & H1 & Hok1 & Hs1 & Hf1).
    rewrite (attempt_ok _ _ _ _ H1). destruct (clear_ok d1 c Hok1 Hc) as (d2 & H2 & Hd2 & Ht2 & Hok2 & Hf2 & Ho2).
    rewrite (attempt_ok _ _ _ _ H2). exists d2. split; [done|]. split; [by apply Hok2|]. split; [done|]. split.
    + intros x Hx Hne. rewrite Ho2 by done. apply data_same; [done| |done]. unfold valid in Hx. lia.
    + intros x Hx. rewrite Hf2, Hf1 by done. pose proof (valid_small d c Hv Hc). rewrite land_small by lia.
      destruct (decide (x = p)) as [->|]; [by rewrite decide_True|rewrite decide_False; [done|congruence]].
  - destruct (clear_ok d c Hok Hc) as (d2 & H2 & Hd2 & Ht2 & Hok2 & Hf2 & Ho2).
    rewrite (attempt_ok _ _ _ _ H2). exists d2. split; [done|]. split; [by apply Hok2|]. split; [done|]. split; [done|].
    intros x Hx. rewrite Hf2. by rewrite decide_False.
Qed.

(** Allocation takes the lowest free cluster, clears it, ends the chain there
    and links it behind [prev]; it fails only on a full volume. *)
Lemma allocate_cluster_ok {E} d prev :
  fs_ok d -> (forall p, prev = Some p -> 0 <= p < max_clusters bpb) ->
  (allocate_cluster (E:=E) bpb prev d = (Ok None, d) /\ forall c, ~ free_cluster d c) \/
  exists c d', allocate_cluster (E:=E) bpb prev d = (Ok (Some c), d') /\
    free_cluster d c /\ (forall x, x < c -> ~ free_cluster d x) /\ fs_ok d' /\
    data d' c = zeros (bytes_per_cluster bpb) /\ (forall x, valid x -> x <> c -> data d' x = data d x) /\
    forall x, 0 <= x < max_clusters bpb ->
      fat d' x = if decide (prev = Some x) then c else if decide (x = c) then 0x0FFFFFFF else fat d x.
Proof.
  intros Hok Hp. pose proof (fo_volume d Hok) as Hv.
  destruct (find_free_cluster_ok (E:=E) d Hv) as (r & Hr & Hff).
  unfold allocate_cluster, mbind, M_bind, mret, M_ret. rewrite Hr. destruct r as [c|]; [right|left].
  - destruct Hff as (Hc & [Hvc Hz] & Hlow).
    destruct (write_fat_entry_ok d c 0x0FFFFFFF Hok ltac:(lia)) as (d1 & H1 & Hok1 & Hs1 & Hf1).
    rewrite (attempt_ok _ _ _ _ H1).
    destruct (link_and_clear_ok (E:=E) d1 c prev Hok1 Hvc Hp) as (d2 & -> & Hok2 & Hz2 & Ho2 & Hf2).
    exists c, d2. split; [done|]. split; [done|]. split.
    { intros x Hx [Hx' Hx2]. apply (Hlow x); [unfold valid in Hx'; lia|done]. }
    split; [done|]. split; [done|]. split.
    { intros x Hx Hne. rewrite Ho2 by done. apply data_same; [done| |done]. unfold valid in Hx. lia. }
    intros x Hx. rewrite Hf2, Hf1 by done. by rewrite Z.land_diag.
  - split; [done|]. intros c [Hc Hc']. apply (Hff c); [unfold valid in Hc; lia|done].
Qed.

(** ** Chains *)

(** The clusters reached from the first one, to the end of the chain. *)
Fixpoint is_chain (f : Z -> Z) (l : list Z) : Prop :=
  match l with
  | [] => True
  | c :: l => match l with [] => next_of (f c) = None | c' :: _ => next_of (f c) = Some c' /\ is_chain f l end
  end.

(** The chain of a file: valid clusters, none twice, none marked free. *)
Record chain_ok (d : D) (l : list Z) : Prop := {
  ch_chain : is_chain (fat d) l;
  ch_valid : Forall valid l;
  ch_nodup : NoDup l;
  ch_used : Forall (fun c => fat d c <> 0) l
}.

Lemma collect_limited_ok {E} n d c l :
  volume d -> is_chain (fat d) (c :: l) -> Forall valid (c :: l) -> (0 < n)%nat ->
  collect_cluster_chain_limited (E:=E) n bpb c d = (Ok (take n (c :: l)), d).
Proof.
  intros Hv. revert c l. induction n as [|n IH]; intros c l Hch Hva Hn; [lia|]. cbn [collect_cluster_chain_limited].
  apply Forall_cons in Hva as [Hc Hl]. unfold mbind, M_bind, mret, M_ret.
  rewrite follow_ok by (done || unfold valid in Hc; lia). cbn [is_chain] in Hch. destruct l as [|c' l].
  - rewrite Hch. by destruct n.
  - destruct Hch as [-> Hch]. destruct n as [|n]; [done|]. rewrite (IH c' l) by (done || lia). done.
Qed.

Lemma valid_length l : Forall valid l -> NoDup l -> zlen l <= Z.max 0 (max_clusters bpb - 2).
Proof.
  intros Hva Hnd. assert (l ⊆+ seqZ 2 (max_clusters bpb - 2)) as Hsub.
  { apply NoDup_submseteq; [done|]. intros x Hx. rewrite Forall_forall in Hva. apply elem_of_seqZ. destruct (Hva x Hx). lia. }
  apply submseteq_length in Hsub. rewrite length_seqZ in Hsub. unfold zlen. lia.
Qed.

Lemma collect_ok {E} d c l :
  volume d -> chain_ok d (c :: l) -> collect_cluster_chain (E:=E) bpb c d = (Ok (c :: l), d).
Proof.
  intros Hv [Hch Hva Hnd _]. unfold collect_cluster_chain, chain_limit.
  pose proof (valid_length _ Hva Hnd) as Hlen. rewrite zlen_cons in Hlen. pose proof (zlen_nonneg l).
  destruct (Z.ltb_spec 0 (max_clusters bpb)); [|lia]. rewrite (collect_limited_ok _ d c l) by (done || lia).
  rewrite take_ge; [done|]. cbn. unfold zlen in *. lia.
Qed.

(** Other entries do not matter to a chain. *)
Lemma is_chain_ext f g l : (forall x, x ∈ l -> g x = f x) -> is_chain f l -> is_chain g l.
Proof.
  induction l as [|c l IH]; intros He; [done|]. cbn [is_chain]. rewrite He by left. destruct l as [|c' l]; [done|].
  intros [Hn Hch]. split; [done|]. apply IH; [|done]. intros x Hx. apply He. by right.
Qed.

Lemma free_chain_loop_ok n d c l :
  fs_ok d -> is_chain (fat d) (c :: l) -> Forall valid (c :: l) -> NoDup (c :: l) -> (length (c :: l) <= n)%nat ->
  exists d', free_chain_loop n bpb c d = (Ok tt, d') /\ fs_ok d' /\ same_but_tables d d' /\
    forall x, 0 <= x < max_clusters bpb -> fat d' x = if decide (x ∈ c :: l) then 0 else fat d x.
Proof.
  revert d c l. induction n as [|n IH]; intros d c l Hok Hch Hva Hnd Hn; [cbn in Hn; lia|]. cbn [free_chain_loop].
  pose proof (fo_volume d Hok) as Hv. apply Forall_cons in Hva as [Hc Hl]. apply NoDup_cons in Hnd as [Hnin Hnd].
  destruct (Z.ltb_spec c 2); [unfold valid in Hc; lia|].
  unfold mbind, M_bind, mret, M_ret. rewrite follow_ok by (done || unfold valid in Hc; lia).
  destruct (write_fat_entry_ok d c 0 Hok) as (d1 & -> & Hok1 & Hs1 & Hf1); [unfold valid in Hc; lia|].
  rewrite Z.land_0_l in Hf1. destruct l as [|c' l].
  - cbn in Hch. rewrite Hch. exists d1. split; [done|]. split; [done|]. split; [done|]. intros x Hx. rewrite Hf1 by done.
    destruct (decide (x = c)) as [->|]; [rewrite decide_True by set_solver|rewrite decide_False by set_solver]; done.
  - destruct Hch as [-> Hch]. pose proof (valid_small d c' Hv ltac:(by apply Forall_cons in Hl as [])).
    destruct (Z.ltb_spec c' 0x0FFFFFF8); [|lia].
    destruct (IH d1 c' l Hok1) as (d2 & -> & Hok2 & Hs2 & Hf2); [|done|done|cbn in *; lia|].
    { apply (is_chain_ext (fat d)); [|done]. intros x Hx. rewrite Hf1.
      - rewrite decide_False; [done|]. by intros ->.
      - rewrite Forall_forall in Hl. destruct (Hl x Hx). lia. }
    exists d2. split; [done|]. split; [done|]. split.
    { destruct Hs1 as [T1 K1], Hs2 as [T2 K2]. split; [congruence|]. intros k Hk. by rewrite K2, K1. }
    intros x Hx. rewrite Hf2, Hf1 by done. destruct (decide (x ∈ c' :: l)) as [Hin|Hin].
    + by rewrite decide_True by set_solver.
    + destruct (decide (x = c)) as [->|]; [by rewrite decide_True by set_solver|]. by rewrite decide_False by set_solver.
Qed.

Lemma free_cluster_chain_ok d c l :
  fs_ok d -> chain_ok d (c :: l) ->
  exists d', free_cluster_chain bpb c d = (Ok tt, d') /\ fs_ok d' /\ same_but_tables d d' /\
    forall x, 0 <= x < max_clusters bpb -> fat d' x = if decide (x ∈ c :: l) then 0 else fat d x.
Proof.
  intros Hok [Hch Hva Hnd _]. apply free_chain_loop_ok; try done. pose proof (valid_length _ Hva Hnd) as Hlen.
  unfold chain_limit, zlen in *. cbn [length] in *. destruct (Z.ltb_spec 0 (max_clusters bpb)); lia.
Qed.

(** ** Growing a chain *)

(** At least [n] clusters are free. *)
Definition room (d : D) (n : Z) : Prop := exists fr, NoDup fr /\ Forall (free_cluster d) fr /\ n <= zlen fr.

(** [d'] is [d] with [l'] appended to the chain [l]. *)
Record extends (d d' : D) (l l' : list Z) : Prop := {
  ex_ok : fs_ok d';
  ex_chain : chain_ok d' (l ++ l');
  ex_new : Forall (free_cluster d) l';
  ex_zero : Forall (fun c => data d' c = zeros (bytes_per_cluster bpb)) l';
  ex_data : forall x, valid x -> x ∉ l' -> data d' x = data d x;
  ex_fat : forall x, valid x -> x ∉ l ++ l' -> fat d' x = fat d x
}.

Lemma is_chain_snoc f g l c :
  is_chain f l -> NoDup l -> c ∉ l -> 2 <= c < 0x0FFFFFF8 ->
  (forall x, x ∈ l ++ [c] -> g x = if decide (last l = Some x) then c else if decide (x = c) then 0x0FFFFFFF else f x) ->
  is_chain g (l ++ [c]).
Proof.
  intros Hch Hnd Hc Hr. induction l as [|a l IH]; intros Hg.
  { cbn [app is_chain]. rewrite Hg by (cbn; left). rewrite decide_False, decide_True by done. done. }
  cbn [app]. apply NoDup_cons in Hnd as [Ha Hnd]. apply not_elem_of_cons in Hc as [Hca Hc].
  assert (is_chain g (l ++ [c])) as Htail.
  { apply IH; [|done..|].
    - cbn in Hch. by destruct l; [|destruct Hch].
    - intros x Hx. rewrite Hg by (cbn; right; done). destruct l as [|b l]; [|done]. cbn. apply list_elem_of_singleton in Hx as ->.
      rewrite decide_False by congruence. done. }
  cbn [is_chain]. rewrite Hg by left. destruct l as [|b l].
  - cbn. rewrite decide_True by done. unfold next_of.
    destruct (Z.leb_spec 0x0FFFFFF8 c); [lia|]. destruct (Z.ltb_spec c 2); [lia|]. done.
  - cbn [app]. destruct Hch as [Hn _]. split; [|done]. rewrite decide_False; [rewrite decide_False by congruence; done|].
    intros Hlast. destruct Ha. apply (last_Some_elem_of (b :: l)). done.
Qed.

Lemma filter_ne_length (fr : list Z) c : NoDup fr -> zlen fr <= zlen (filter (fun x => x <> c) fr) + 1.
Proof.
  induction fr as [|x fr IH]; intros Hfn; [done|]. apply NoDup_cons in Hfn as [Hx Hfn]. rewrite filter_cons, zlen_cons.
  case_decide as Hxc; [rewrite zlen_cons; specialize (IH Hfn); lia|].
  assert (forall l : list Z, c ∉ l -> filter (fun x => x <> c) l = l) as Hall.
  { intros l Hl. induction l as [|y l IHl]; [done|]. apply not_elem_of_cons in Hl as [Hy Hl].
    rewrite filter_cons_True by done. by rewrite IHl. }
  rewrite Hall; [lia|]. by subst.
Qed.

Lemma extend_one {E} d l n :
  fs_ok d -> chain_ok d l -> room d (n + 1) -> 0 <= n ->
  exists c d', allocate_cluster (E:=E) bpb (last l) d = (Ok (Some c), d') /\ extends d d' l [c] /\ room d' n.
Proof.
  intros Hok [Hch Hva Hnd Hus] (fr & Hfn & Hfr & Hfl) Hn. pose proof (fo_volume d Hok) as Hv.
  assert (forall x, x ∈ l -> valid x /\ fat d x <> 0) as Hl by (rewrite !Forall_forall in *; auto).
  assert (forall p, last l = Some p -> p ∈ l) as Hlast by (intros p; apply last_Some_elem_of).
  destruct (allocate_cluster_ok (E:=E) d (last l) Hok) as [[_ Hnone]|(c & d' & Hal & [Hcv Hcz] & Hlow & Hok' & Hz & Hdat & Hfat)].
  { intros p Hp%Hlast%Hl. destruct Hp as [[] _]. lia. }
  { destruct fr as [|c fr]; [unfold zlen in Hfl; cbn in Hfl; lia|]. apply Forall_cons in Hfr as [Hc _]. by destruct (Hnone c). }
  assert (c ∉ l) as Hcl by (intros Hin; by destruct (Hl c Hin)). pose proof (valid_small d c Hv Hcv) as Hcs.
  exists c, d'. split; [done|]. split.
  - split; [done| |by constructor|by constructor| |].
    + split.
      * apply (is_chain_snoc (fat d)); [done..|unfold valid in Hcv; lia|]. intros x Hx. apply Hfat.
        apply elem_of_app in Hx as [Hx|Hx%list_elem_of_singleton]; [destruct (Hl x Hx) as [[] _]; lia|unfold valid in Hcv; subst; lia].
      * apply Forall_app. split; [done|by constructor].
      * apply NoDup_app. split; [done|]. split; [|apply NoDup_singleton]. by intros x Hx ->%list_elem_of_singleton.
      * apply Forall_forall. intros x Hx. assert (valid x) as [] .
        { apply elem_of_app in Hx as [Hx|Hx%list_elem_of_singleton]; [by apply Hl|by subst]. }
        rewrite Hfat by lia. unfold valid in Hcv. case_decide; [lia|]. case_decide; [lia|].
        apply elem_of_app in Hx as [Hx|Hx%list_elem_of_singleton]; [by apply Hl|done].
    + intros x Hx Hne. apply Hdat; [done|set_solver].
    + intros x [] Hne. rewrite Hfat by lia. rewrite !decide_False; [done|set_solver|].
      intros Hp%Hlast. set_solver.
  - exists (filter (fun x => x <> c) fr). split; [by apply NoDup_filter|]. split.
    + apply Forall_forall. intros x [Hne Hx]%list_elem_of_filter. rewrite Forall_forall in Hfr. destruct (Hfr x Hx) as [Hxv Hxz].
      split; [done|]. rewrite Hfat by (unfold valid in Hxv; lia). rewrite !decide_False; [done|done|].
      intros Hp%Hlast. by destruct (Hl x Hp).
    + pose proof (filter_ne_length fr c Hfn). lia.
Qed.

(** ** Isolation *)

(** A chain keeps its links and its bytes where its clusters are not touched. *)
Lemma chain_kept d d' l :
  chain_ok d l -> (forall x, x ∈ l -> fat d' x = fat d x) -> chain_ok d' l.
Proof.
  intros [Hch Hva Hnd Hus] Hf. split; [by apply (is_chain_ext (fat d))|done|done|].
  rewrite !Forall_forall in *. intros x Hx. rewrite Hf by done. by apply Hus.
Qed.

Lemma extends_other d d' l n l' :
  extends d d' l n -> chain_ok d l' -> l ## l' -> chain_ok d' l' /\ n ## l' /\ forall x, x ∈ l' -> data d' x = data d x.
Proof.
  intros He Hl' Hdis. destruct Hl' as [Hch Hva Hnd Hus]. pose proof (ex_new _ _ _ _ He) as Hnew.
  rewrite !Forall_forall in *.
  assert (n ## l') as Hn by (intros x Hx Hx'; destruct (Hnew x Hx) as [_ Hz]; by apply (Hus x)).
  split; [|split; [done|]].
  - apply (chain_kept d); [split; [done|by apply Forall_forall|done|by apply Forall_forall]|].
    intros x Hx. apply (ex_fat _ _ _ _ He); [by apply Hva|set_solver].
  - intros x Hx. apply (ex_data _ _ _ _ He); [by apply Hva|set_solver].
Qed.

(** C23. Growing or freeing one file leaves the others alone.  For two disjoint
    chains on a sound volume: extending the first one fails only when no
    cluster is free, and otherwise appends the lowest free cluster, cleared;
    freeing it marks all its clusters free.  Either way every table copy
    agrees, and the other chain keeps its links and its bytes. *)
Theorem fat32_chains_isolated d l l' :
  fs_ok d -> chain_ok d l -> chain_ok d l' -> l ## l' ->
  (allocate_cluster (E:=AbiError) bpb (last l) d = (Ok None, d) /\ (forall c, ~ free_cluster d c) \/
   exists c d', allocate_cluster (E:=AbiError) bpb (last l) d = (Ok (Some c), d') /\
     free_cluster d c /\ (forall x, x < c -> ~ free_cluster d x) /\ fs_ok d' /\
     chain_ok d' (l ++ [c]) /\ data d' c = zeros (bytes_per_cluster bpb) /\
     (forall x, x ∈ l -> data d' x = data d x) /\
     chain_ok d' l' /\ (forall x, x ∈ l' -> data d' x = data d x)) /\
  (forall c t, l = c :: t -> exists d', free_cluster_chain bpb c d = (Ok tt, d') /\ fs_ok d' /\
     Forall (free_cluster d') l /\ chain_ok d' l' /\ (forall x, x ∈ l' -> data d' x = data d x)).
Proof.
  intros Hok Hl Hl' Hdis. pose proof (fo_volume d Hok) as Hv. split.
  - destruct (allocate_cluster_ok (E:=AbiError) d (last l) Hok) as [?|(c & d' & Hal & Hfc & Hlow & _)]; [|by left|right].
    { intros p Hp%last_Some_elem_of. pose proof (ch_valid d l Hl) as Hva. rewrite Forall_forall in Hva.
      destruct (Hva p Hp). lia. }
    destruct (extend_one (E:=AbiError) d l 0 Hok Hl) as (c' & d2 & Hal' & He & _); [|done|].
    { exists [c]. split; [apply NoDup_singleton|]. split; [by constructor|done]. }
    rewrite Hal in Hal'. simplify_eq. destruct (extends_other _ _ _ _ _ He Hl' Hdis) as (Hk & _ & Hd).
    exists c', d2. do 3 (split; [done|]). split; [apply (ex_ok _ _ _ _ He)|]. split; [apply (ex_chain _ _ _ _ He)|].
    split; [pose proof (ex_zero _ _ _ _ He) as Hz; by apply Forall_cons in Hz as []|]. split; [|done].
    intros x Hx. apply (ex_data _ _ _ _ He); [by apply (Forall_forall valid l); [apply (ch_valid _ _ Hl)|]|].
    pose proof (ch_nodup _ _ (ex_chain _ _ _ _ He)) as (_ & Hn & _)%NoDup_app. intros Hx'. by apply (Hn x).
  - intros c t ->. destruct (free_cluster_chain_ok d c t Hok Hl) as (d' & Hf & Hok' & Hs & Hfat).
    exists d'. split; [done|]. split; [done|]. destruct Hl as [_ Hva _ _]. rewrite Forall_forall in Hva. split; [|split].
    + apply Forall_forall. intros x Hx. split; [by apply Hva|]. destruct (Hva x Hx). rewrite Hfat by lia. by rewrite decide_True.
    + apply (chain_kept d); [done|]. intros x Hx. pose proof (ch_valid _ _ Hl') as Hva'. rewrite Forall_forall in Hva'.
      destruct (Hva' x Hx). rewrite Hfat by lia. rewrite decide_False; [done|]. intros ?. by apply (Hdis x).
    + intros x Hx. apply data_same; [done| |done]. pose proof (ch_valid _ _ Hl') as Hva'. rewrite Forall_forall in Hva'.
      destruct (Hva' x Hx). lia.
Qed.

End table.

(** ** An example: two files on a volume of 126 clusters *)

Definition demo_bpb : Fat32Bpb := mkBpb 512 1 1 2 1 2 0.

(** The root directory in cluster 2, a file of 600 bytes in 3 and 4, one of
    1024 bytes in 5 and 7. *)
Definition demo_table : list Z :=
  flat_map (le_bytes 4) [0x0FFFFFF8; 0x0FFFFFFF; 0x0FFFFFFF; 4; 0x0FFFFFFF; 7; 0; 0x0FFFFFFF].

Definition demo_root : list Z :=
  raw_entry (to_short_name [0x61]) 0x20 3 600 ++ raw_entry (to_short_name [0x62]) 0x20 5 1024.

Definition demo_disk : MemDisk :=
  mkDisk (fun k => if (k =? 1) || (k =? 2) then demo_table else if k =? 3 then demo_root
                   else if k =? 5 then replicate 88 5 else replicate 512 k) 129.

Lemma demo_volume : volume demo_bpb demo_disk.
Proof. by split. Qed.

Lemma demo_fs_ok : fs_ok demo_bpb demo_disk.
Proof.
  split; [apply demo_volume|]. intros i Hi. change (num_fats demo_bpb) with 2 in Hi.
  assert (i = 0 \/ i = 1) as [->| ->] by lia; vm_compute; reflexivity.
Qed.

Lemma demo_chain_ok : chain_ok demo_bpb demo_disk [3; 4] /\ chain_ok demo_bpb demo_disk [5; 7].
Proof.
  split; (split; [by vm_compute|by repeat constructor|apply (bool_decide_unpack _); by vm_compute|]).
  all: apply (bool_decide_unpack _); by vm_compute.
Qed.

Lemma fat32_chains_isolated_witness : exists c d',
  allocate_cluster (E:=AbiError) demo_bpb (last [3; 4]) demo_disk = (Ok (Some c), d') /\
  chain_ok demo_bpb d' [5; 7].
Proof.
  destruct (fat32_chains_isolated demo_bpb demo_disk [3; 4] [5; 7] demo_fs_ok
    (proj1 demo_chain_ok) (proj2 demo_chain_ok)) as [[[_ Hfull]|(c & d' & Hal & _ & _ & _ & _ & _ & _ & Hc & _)] _].
  - set_solver by lia.
  - destruct (Hfull 6). split; [done|]. by vm_compute.
  - by exists c, d'.
Defined.

End Fat32Spec.
