(* ===== verification/Fat32File.v ===== *)
(** * FAT32: files as byte strings

    Reading and writing through [Fat32File] against the contents of the file's
    chain. *)

From S2P Require Import Prelude Bytes Abi Disk Files Fat32 Fat32Spec.
Import Disk Fat32 Fat32Spec.

Module Fat32File.

Section file.
Context {D : Type} {bd : BlockDevice D} {ds : DiskSpec D} (bpb : Fat32Bpb).

Abbreviation bpc := (bytes_per_cluster bpb).

(** The bytes of the clusters of a chain. *)
Definition raw (d : D) (l : list Z) : list Z := concat (map (data bpb d) l).

Lemma raw_app d l l' : raw d (l ++ l') = raw d l ++ raw d l'.
Proof. unfold raw. by rewrite map_app, concat_app. Qed.

Lemma raw_cons d c l : raw d (c :: l) = data bpb d c ++ raw d l.
Proof. done. Qed.

Lemma zlen_raw d l : volume bpb d -> zlen (raw d l) = zlen l * bpc.
Proof.
  intros Hv. induction l as [|c l IH]; [done|]. rewrite raw_cons, zlen_app, zlen_data, IH, zlen_cons by done. lia.
Qed.

Lemma raw_ext d d' l : (forall x, x ∈ l -> data bpb d' x = data bpb d x) -> raw d' l = raw d l.
Proof.
  intros H. unfold raw. f_equal. apply map_ext_in. intros x Hx. apply H. by apply list_elem_of_In.
Qed.

Lemma bpc_pos d : volume bpb d -> 0 < bpc.
Proof. intros Hv. rewrite (cluster_size bpb d Hv). pose proof (vo_spc bpb d Hv). lia. Qed.

Lemma data_bytes d c : Forall is_byte (data bpb d c).
Proof. apply range_bytes. Qed.

(** ** Updates of lists put together *)

Lemma upd_nil {A} o (l : list A) : upd o [] l = l.
Proof. unfold upd. cbn. rewrite Nat.add_0_r. apply take_drop. Qed.

Lemma upd_app_l {A} o (w x y : list A) : 0 <= o -> o + zlen w <= zlen x -> upd o w (x ++ y) = upd o w x ++ y.
Proof.
  intros Ho Hw. unfold upd, zlen in *. rewrite take_app_le by lia. rewrite drop_app_le by lia. by rewrite <-!app_assoc.
Qed.

Lemma upd_app_r {A} o (w x y : list A) : zlen x <= o -> upd o w (x ++ y) = x ++ upd (o - zlen x) w y.
Proof.
  intros Ho. unfold upd, zlen in *. rewrite take_app_ge, drop_app_ge by lia. rewrite <-app_assoc. f_equal.
  replace (Z.to_nat (o - Z.of_nat (length x))) with (Z.to_nat o - length x)%nat by lia. do 3 f_equal. lia.
Qed.

(** An update that crosses from one part to the next. *)
Lemma upd_across {A} o (a b x y : list A) :
  0 <= o -> o + zlen a = zlen x -> upd o (a ++ b) (x ++ y) = upd o a x ++ upd 0 b y.
Proof.
  intros Ho Ha. unfold upd, zlen in *. rewrite take_app_le by lia. rewrite length_app.
  rewrite drop_app_ge by lia. rewrite (drop_ge x) by lia. rewrite !app_nil_r. rewrite <-!app_assoc.
  change (take (Z.to_nat 0) y) with (@nil A). cbn [app]. do 4 f_equal. lia.
Qed.

(** ** Writing *)

Lemma write_clusters_ok d cs intra written buf :
  fs_ok bpb d -> Forall (valid bpb) cs -> NoDup cs -> Forall is_byte buf ->
  0 <= intra < bpc -> 0 <= written <= zlen buf -> intra + (zlen buf - written) <= zlen cs * bpc \/ written = zlen buf ->
  exists d', write_clusters bpb cs intra written buf d = (Ok (zlen buf), d') /\ fs_ok bpb d' /\
    raw d' cs = upd intra (drop (Z.to_nat written) buf) (raw d cs) /\
    (forall x, fat bpb d' x = fat bpb d x) /\ (forall x, valid bpb x -> x ∉ cs -> data bpb d' x = data bpb d x).
Proof.
  revert d intra written. induction cs as [|c cs IH]; intros d intra written Hok Hva Hnd Hb Hi Hw Hfit; cbn [write_clusters].
  { assert (written = zlen buf) as -> by (change (zlen (@nil Z)) with 0 in Hfit; lia). exists d.
    split; [done|]. split; [done|]. split; [|done].
    rewrite drop_ge by (unfold zlen; lia). by rewrite upd_nil. }
  destruct (Z.ltb_spec written (zlen buf)) as [Hlt|Hge]; last first.
  { assert (written = zlen buf) as -> by lia. exists d. split; [done|]. split; [done|]. split; [|done].
    rewrite drop_ge by (unfold zlen; lia). by rewrite upd_nil. }
  pose proof (fo_volume _ _ Hok) as Hv. apply Forall_cons in Hva as [Hc Hva]. apply NoDup_cons in Hnd as [Hnc Hnd].
  unfold mbind, M_bind, map_err, lift. rewrite (read_cluster_ok bpb d c Hv Hc).
  set (k := Z.min (bpc - intra) (zlen buf - written)). pose proof (zlen_data bpb d c Hv) as Hlen.
  unfold slice. rewrite decide_True by lia. assert (zlen (sub written k buf) = k) as Hk by (apply zlen_sub; lia).
  unfold splice. rewrite decide_True by lia.
  destruct (write_cluster_ok bpb d c (upd intra (sub written k buf) (data bpb d c))) as (d1 & -> & Hd1 & Ht1 & Hok1 & Hf1 & Ho1);
    [done|done|rewrite zlen_upd; lia|apply upd_bytes; [by apply sub_bytes|apply data_bytes]|].
  rewrite zlen_cons in Hfit.
  destruct (IH d1 0 (written + k)) as (d2 & -> & Hok2 & Hr2 & Hf2 & Ho2); [by apply Hok1|done|done|done|lia|lia|lia|].
  exists d2. split; [done|]. split; [done|]. split; [|split].
  - rewrite !raw_cons, Hr2, (raw_ext d d1) by (intros x Hx; apply Ho1; [rewrite Forall_forall in Hva; by apply Hva|by intros ->]).
    rewrite Ho2, Hd1 by done.
    assert (drop (Z.to_nat written) buf = sub written k buf ++ drop (Z.to_nat (written + k)) buf) as ->.
    { unfold sub. replace (Z.to_nat (written + k)) with (Z.to_nat written + Z.to_nat k)%nat by lia.
      by rewrite <-drop_drop, take_drop. }
    destruct (decide (k = bpc - intra)).
    + by rewrite upd_across by lia.
    + rewrite (drop_ge buf) by (unfold zlen in *; lia). by rewrite upd_nil, app_nil_r, upd_app_l by lia.
  - intros x. by rewrite Hf2, Hf1.
  - intros x Hx Hn. rewrite Ho2, Ho1 by set_solver. done.
Qed.

(** Writing into a chain at an offset. *)
Lemma write_at_ok d l off buf :
  fs_ok bpb d -> chain_ok bpb d l -> Forall is_byte buf -> 0 <= off -> off + zlen buf <= zlen l * bpc ->
  exists d', write_clusters bpb (drop (Z.to_nat (off / bpc)) l) (off mod bpc) 0 buf d = (Ok (zlen buf), d') /\ fs_ok bpb d' /\
    raw d' l = upd off buf (raw d l) /\
    (forall x, fat bpb d' x = fat bpb d x) /\ (forall x, valid bpb x -> x ∉ l -> data bpb d' x = data bpb d x).
Proof.
  intros Hok Hl Hb Ho Hfit. pose proof (fo_volume _ _ Hok) as Hv. pose proof (bpc_pos d Hv) as Hp. pose proof (zlen_nonneg buf).
  set (i := off / bpc). set (m := off mod bpc).
  assert (off = i * bpc + m /\ 0 <= m < bpc) as [Hoff Hm].
  { split; [unfold i, m; rewrite (Z.div_mod off bpc) at 1 by lia; lia|apply Z.mod_pos_bound; lia]. }
  assert (0 <= i) as Hi by (apply Z.div_pos; lia). assert (i <= zlen l) as Hil by nia.
  assert (l = take (Z.to_nat i) l ++ drop (Z.to_nat i) l) as Hsplit by by rewrite take_drop.
  assert (zlen (take (Z.to_nat i) l) = i /\ zlen (drop (Z.to_nat i) l) = zlen l - i) as [Ht Hd].
  { unfold zlen in *. rewrite length_take, length_drop. lia. }
  destruct Hl as [_ Hva Hnd _].
  destruct (write_clusters_ok d (drop (Z.to_nat i) l) m 0 buf) as (d' & Hw & Hok' & Hr & Hf & Hoth);
    [done|by apply Forall_drop|by apply sublist_NoDup with l; [done|apply sublist_drop]|done|done|lia|left; rewrite Hd; lia|].
  exists d'. split; [done|]. split; [done|].
  assert (forall x, x ∈ take (Z.to_nat i) l -> x ∉ drop (Z.to_nat i) l) as Hdis.
  { rewrite Hsplit in Hnd. apply NoDup_app in Hnd as (_ & Hn & _). done. }
  split; [|split; [done|]].
  - rewrite Hsplit, !raw_app, Hr. cbn [Z.to_nat drop].
    rewrite (raw_ext d d' (take (Z.to_nat i) l)).
    + rewrite upd_app_r by (rewrite zlen_raw, Ht by done; lia). rewrite zlen_raw, Ht by done. f_equal. f_equal. lia.
    + intros x Hx. apply Hoth; [|by apply Hdis]. rewrite Forall_forall in Hva. apply Hva. rewrite Hsplit. apply elem_of_app. by left.
  - intros x Hx Hn. apply Hoth; [done|]. intros Hin. apply Hn. rewrite Hsplit. apply elem_of_app. by right.
Qed.

(** ** Growing the file *)

Lemma extends_refl d l : fs_ok bpb d -> chain_ok bpb d l -> extends bpb d d l [].
Proof. intros Hok Hl. split; rewrite ?app_nil_r; try done; constructor. Qed.

Lemma extends_trans d d1 d2 l l1 l2 :
  extends bpb d d1 l l1 -> extends bpb d1 d2 (l ++ l1) l2 -> extends bpb d d2 l (l1 ++ l2).
Proof.
  intros H1 H2. pose proof (ex_chain _ _ _ _ _ H2) as Hch. rewrite <-app_assoc in Hch.
  pose proof (ex_new _ _ _ _ _ H1) as Hn1. pose proof (ex_new _ _ _ _ _ H2) as Hn2. rewrite Forall_forall in Hn1, Hn2.
  pose proof (ch_used _ _ _ (ex_chain _ _ _ _ _ H1)) as Hus. rewrite Forall_forall in Hus.
  assert (forall x, x ∈ l ++ l1 -> x ∉ l2) as Hdis by (intros x Hx Hx'; destruct (Hn2 x Hx'); by apply (Hus x)).
  split; [apply (ex_ok _ _ _ _ _ H2)|done| | | |].
  - apply Forall_forall. intros x [Hx|Hx]%elem_of_app; [by apply Hn1|]. destruct (Hn2 x Hx) as [Hv Hz].
    split; [done|]. rewrite <-(ex_fat _ _ _ _ _ H1 x Hv); [done|]. intros Hin. by apply (Hdis x).
  - apply Forall_forall. pose proof (ex_zero _ _ _ _ _ H1) as Hz1. pose proof (ex_zero _ _ _ _ _ H2) as Hz2.
    rewrite Forall_forall in Hz1, Hz2. intros x [Hx|Hx]%elem_of_app; [|by apply Hz2].
    rewrite (ex_data _ _ _ _ _ H2); [by apply Hz1|by destruct (Hn1 x Hx)|set_solver].
  - intros x Hv Hn. rewrite (ex_data _ _ _ _ _ H2), (ex_data _ _ _ _ _ H1) by set_solver. done.
  - intros x Hv Hn. rewrite (ex_fat _ _ _ _ _ H2), (ex_fat _ _ _ _ _ H1) by set_solver. done.
Qed.

(** The start the file records: the first cluster, or none. *)
Definition start_of (l : list Z) : Z := default 0 (head l).

Lemma start_zero l : Forall (valid bpb) l -> (start_of l =? 0) = bool_decide (l = []).
Proof.
  destruct l as [|c l]; [done|]. intros [[Hc _] _]%Forall_cons. rewrite bool_decide_false by done. apply Z.eqb_neq. cbn. lia.
Qed.

Lemma set_start_id f : set_start (f_start f) f = f.
Proof. by destruct f. Qed.

Lemma extend_file_ok n d f l :
  fs_ok bpb d -> chain_ok bpb d l -> f_bpb f = bpb -> f_start f = start_of l -> room bpb d (Z.of_nat n) ->
  exists l' d', extend_file n l (f, d) = (Ok (l ++ l'), (set_start (start_of (l ++ l')) f, d')) /\
    zlen l' = Z.of_nat n /\ extends bpb d d' l l'.
Proof.
  revert d f l. induction n as [|n IH]; intros d f l Hok Hl Hb Hst Hroom; cbn [extend_file].
  { exists [], d. rewrite app_nil_r, <-Hst, set_start_id. split; [done|]. split; [done|]. by apply extends_refl. }
  destruct (extend_one bpb (E:=AbiError) d l (Z.of_nat n) Hok Hl) as (c & d1 & Hal & He & Hr1).
  { by replace (Z.of_nat n + 1) with (Z.of_nat (S n)) by lia. } { lia. }
  unfold mbind, M_bind, get, on_disk, on_file, modify, mret, M_ret. cbn [fst snd]. rewrite Hb, Hal.
  set (f1 := set_start (start_of (l ++ [c])) f).
  assert ((if f_start f =? 0 then set_start c f else f) = f1) as Hstart.
  { rewrite Hst, (start_zero l (ch_valid _ _ _ Hl)). unfold f1. destruct l as [|a l]; [done|].
    rewrite bool_decide_false by done. rewrite <-(set_start_id f) at 1. by rewrite Hst. }
  destruct (IH d1 f1 (l ++ [c])) as (l' & d2 & Hx & Hlen & He2);
    [apply (ex_ok _ _ _ _ _ He)|apply (ex_chain _ _ _ _ _ He)|done|done|done|].
  exists (c :: l'), d2. rewrite <-app_assoc in *. cbn [app] in *.
  split; [|split; [rewrite zlen_cons; lia|by apply (extends_trans d d1 d2 l [c])]].
  destruct (f_start f =? 0); cbn [fst snd]; rewrite Hstart; exact Hx.
Qed.

(** ** The directory entry *)

Lemma sub_sub {A} a n o m (l : list A) : 0 <= o -> 0 <= a -> a + n <= m -> sub a n (sub o m l) = sub (o + a) n l.
Proof.
  intros Ho Ha Hm. apply list_eq. intros i. rewrite !sub_lookup by lia. case_decide; [|done].
  rewrite decide_True by lia. f_equal. lia.
Qed.

Lemma cluster_halves c : fits 32 c -> Z.lor (Z.shiftl (cluster_hi c) 16) (cluster_lo c) = c.
Proof.
  intros Hc. unfold cluster_hi, cluster_lo. change 0xFFFF with (Z.ones 16). apply Z.bits_inj'. intros i Hi.
  rewrite Z.lor_spec, Z.shiftl_spec, !Z.land_spec by lia. destruct (decide (i < 16)).
  - rewrite (Z.testbit_neg_r _ (i - 16)) by lia. cbn [andb orb]. rewrite Z.ones_spec_low by lia. apply andb_true_r.
  - rewrite (Z.ones_spec_high 16 i) by lia. rewrite andb_false_r, orb_false_r, Z.shiftr_spec by lia.
    replace (i - 16 + 16) with i by lia. destruct (decide (i < 32)).
    + rewrite Z.ones_spec_low by lia. apply andb_true_r.
    + rewrite Z.ones_spec_high by lia. rewrite andb_false_r. symmetry. apply (testbit_above 32); [done|lia].
Qed.

Lemma halves_fit c : fits 32 c -> fits 16 (cluster_hi c) /\ fits 16 (cluster_lo c).
Proof.
  intros Hc. unfold cluster_hi, cluster_lo, fits. change 0xFFFF with (Z.ones 16). rewrite !Z.land_ones by lia.
  split; apply Z.mod_pos_bound; lia.
Qed.

Lemma patch_start_size_ok {E} off start size buf :
  0 <= off -> off + 32 <= zlen buf -> fits 32 start -> fits 32 size -> Forall is_byte buf ->
  exists buf', patch_start_size (E:=E) off start size buf = Ok buf' /\ zlen buf' = zlen buf /\ Forall is_byte buf' /\
    first_cluster_of (sub off 32 buf') = start /\ u32_at 28 (sub off 32 buf') = size /\
    forall i, Z.of_nat i < off + 20 \/ off + 22 <= Z.of_nat i < off + 26 \/ off + 32 <= Z.of_nat i -> buf' !! i = buf !! i.
Proof.
  intros Ho Hl Hst Hsz Hb. destruct (halves_fit _ Hst) as [Hhi Hlo]. unfold patch_start_size.
  assert (forall n z, zlen (le_bytes n z) = Z.of_nat n) as Hle by apply zlen_le_bytes.
  pose proof (Hle 2%nat (cluster_hi start)) as H1. pose proof (Hle 2%nat (cluster_lo start)) as H2. pose proof (Hle 4%nat size) as H3.
  rewrite slice_ok by lia. cbn [mbind res_bind]. rewrite splice_ok by lia. cbn [mbind res_bind].
  set (b1 := upd (off + 20) _ buf). assert (zlen b1 = zlen buf) as Hl1 by (apply zlen_upd; lia).
  rewrite splice_ok by lia. cbn [mbind res_bind].
  set (b2 := upd (off + 26) _ b1). assert (zlen b2 = zlen buf) as Hl2 by (unfold b2; rewrite zlen_upd; lia).
  rewrite splice_ok by lia. set (b3 := upd (off + 28) _ b2).
  assert (zlen b3 = zlen buf) as Hl3 by (unfold b3; rewrite zlen_upd; lia).
  exists b3. split; [done|]. split; [done|]. split; [by repeat (apply upd_bytes; [apply le_bytes_bytes|])|].
  assert (sub (off + 20) 2 b3 = le_bytes 2 (cluster_hi start)) as E1.
  { unfold b3. rewrite sub_upd_other by lia. unfold b2. rewrite sub_upd_other by lia. unfold b1. replace 2 with (zlen (le_bytes 2 (cluster_hi start))) at 1 by done.
    apply sub_upd_same; lia. }
  assert (sub (off + 26) 2 b3 = le_bytes 2 (cluster_lo start)) as E2.
  { unfold b3. rewrite sub_upd_other by lia. unfold b2. replace 2 with (zlen (le_bytes 2 (cluster_lo start))) at 1 by done.
    apply sub_upd_same; lia. }
  assert (sub (off + 28) 4 b3 = le_bytes 4 size) as E3.
  { unfold b3. replace 4 with (zlen (le_bytes 4 size)) at 1 by done. apply sub_upd_same; lia. }
  split; [|split].
  - unfold first_cluster_of, u16_at. rewrite !sub_sub, E1, E2 by lia. rewrite !le_word_round by done. by apply cluster_halves.
  - unfold u32_at. rewrite sub_sub, E3 by lia. by apply le_word_round.
  - intros i Hi. unfold b3. rewrite upd_lookup, decide_False by lia. unfold b2. rewrite upd_lookup, decide_False by lia.
    unfold b1. by rewrite upd_lookup, decide_False by lia.
Qed.

(** ** Files *)

(** The directory entry of a file on the disk. *)
Definition entry_on_disk (d : D) (f : Fat32File) : list Z :=
  sub (f_entry_offset f) 32 (data bpb d (f_entry_cluster f)).

(** A file whose clusters are the chain [l]: the handle and the directory
    entry agree, and the rest of the last cluster is zero. *)
Record file_ok (d : D) (f : Fat32File) (l : list Z) : Prop := {
  fk_bpb : f_bpb f = bpb;
  fk_chain : chain_ok bpb d l;
  fk_start : f_start f = start_of l;
  fk_size : 0 <= f_size f <= zlen l * bpc;
  fk_small : f_size f < 2 ^ 32;
  fk_slack : drop (Z.to_nat (f_size f)) (raw d l) = zeros (zlen l * bpc - f_size f);
  fk_entry : valid bpb (f_entry_cluster f) /\ f_entry_cluster f ∉ l /\ fat bpb d (f_entry_cluster f) <> 0;
  fk_place : 0 <= f_entry_offset f /\ f_entry_offset f + 32 <= bpc;
  fk_disk : first_cluster_of (entry_on_disk d f) = f_start f /\ u32_at 28 (entry_on_disk d f) = f_size f
}.

Definition contents (d : D) (f : Fat32File) (l : list Z) : list Z := sub 0 (f_size f) (raw d l).

Lemma zeros_app a b : 0 <= a -> 0 <= b -> zeros (a + b) = zeros a ++ zeros b.
Proof. intros. unfold zeros. rewrite Z2Nat.inj_add by lia. apply replicate_add. Qed.

Lemma raw_zero d l :
  0 <= bpc -> Forall (fun c => data bpb d c = zeros bpc) l -> raw d l = zeros (zlen l * bpc).
Proof.
  intros Hb. induction 1 as [|c l Hc _ IH]; [done|]. rewrite raw_cons, Hc, IH, <-zeros_app, zlen_cons by (pose proof (zlen_nonneg l); nia).
  f_equal. lia.
Qed.

Lemma raw_contents d f l :
  volume bpb d -> file_ok d f l -> raw d l = contents d f l ++ zeros (zlen l * bpc - f_size f) /\ zlen (contents d f l) = f_size f.
Proof.
  intros Hv Hf. pose proof (fk_size _ _ _ Hf). split.
  - rewrite <-(fk_slack _ _ _ Hf). unfold contents, sub. cbn [Z.to_nat drop]. by rewrite take_drop.
  - apply zlen_sub; [lia|lia|]. rewrite zlen_raw by done. lia.
Qed.

(** The clusters needed hold the size. *)
Lemma needed_enough n : 0 < bpc -> 0 <= n -> n <= clusters_needed bpb n * bpc /\ 0 <= clusters_needed bpb n.
Proof.
  intros Hp Hn. unfold clusters_needed. destruct (Z.eqb_spec n 0); [lia|].
  pose proof (Z.div_mod (n + bpc - 1) bpc). pose proof (Z.mod_pos_bound (n + bpc - 1) bpc).
  pose proof (Z.div_pos (n + bpc - 1) bpc). nia.
Qed.

(** The bytes after a write: of the file, and of what follows it. *)
Lemma contents_after old off buf total :
  0 <= off -> off + zlen buf <= total -> zlen old <= total ->
  let new_size := Z.max (zlen old) (off + zlen buf) in
  let r := upd off buf (old ++ zeros (total - zlen old)) in
  sub 0 new_size r = upd off buf (Files.grow (off + zlen buf) old) /\
  drop (Z.to_nat new_size) r = zeros (total - new_size).
Proof.
  intros Ho Hb Ht new_size r. pose proof (zlen_nonneg buf). pose proof (zlen_nonneg old).
  set (g := Files.grow (off + zlen buf) old). assert (zlen g = new_size) as Hg by (unfold g; rewrite Files.zlen_grow; lia).
  assert (r = upd off buf g ++ zeros (total - new_size)) as Hr.
  { unfold r. rewrite <-upd_app_l by lia. f_equal. unfold g, Files.grow. rewrite <-app_assoc. f_equal.
    destruct (decide (zlen old <= off + zlen buf)).
    - rewrite <-zeros_app by lia. f_equal. lia.
    - replace (zeros (off + zlen buf - zlen old)) with (@nil Z) by (unfold zeros; by rewrite Z2Nat.nonpos by lia).
      cbn. f_equal. lia. }
  assert (zlen (upd off buf g) = new_size) as Hu by (rewrite zlen_upd; lia).
  rewrite Hr. split; [by apply sub_here|]. rewrite drop_app_length'; [done|]. unfold zlen in *. lia.
Qed.

(** Writing back the directory entry. *)
Lemma patch_entry_ok {E} (e1 e2 : E) d c off start size :
  fs_ok bpb d -> valid bpb c -> 0 <= off -> off + 32 <= bpc -> fits 32 start -> fits 32 size ->
  exists d', patch_entry e1 e2 bpb c (patch_start_size off start size) d = (Ok tt, d') /\ same_but_cluster bpb c d d' /\
    first_cluster_of (sub off 32 (data bpb d' c)) = start /\ u32_at 28 (sub off 32 (data bpb d' c)) = size /\
    forall i, Z.of_nat i < off + 20 \/ off + 22 <= Z.of_nat i < off + 26 \/ off + 32 <= Z.of_nat i ->
      data bpb d' c !! i = data bpb d c !! i.
Proof.
  intros Hok Hc Ho Hl Hst Hsz. pose proof (fo_volume _ _ Hok) as Hv. unfold patch_entry, mbind, M_bind, map_err, lift.
  rewrite (read_cluster_ok bpb d c Hv Hc). pose proof (zlen_data bpb d c Hv) as Hlen.
  destruct (patch_start_size_ok (E:=E) off start size (data bpb d c)) as (b & -> & Hbl & Hbb & Hb1 & Hb2 & Hb3);
    [lia|lia|done|done|apply data_bytes|].
  destruct (write_cluster_ok bpb d c b) as (d' & -> & Hd & Hs); [done|done|lia|done|].
  exists d'. split; [done|]. split; [done|]. by rewrite Hd.
Qed.

(** The chain the write begins with. *)
Lemma collect_file d f l :
  volume bpb d -> file_ok d f l ->
  (if f_start f =? 0 then mret [] else on_disk (collect_cluster_chain bpb (f_start f)) : M (Fat32File * D) AbiError (list Z)) (f, d)
  = (Ok l, (f, d)).
Proof.
  intros Hv Hf. rewrite (fk_start _ _ _ Hf), (start_zero l) by apply (fk_chain _ _ _ Hf). destruct l as [|c l]; [done|].
  rewrite bool_decide_false by done. unfold on_disk. cbn [fst snd]. by rewrite (collect_ok bpb d c l Hv (fk_chain _ _ _ Hf)).
Qed.

Lemma grow_file d f l needed :
  fs_ok bpb d -> file_ok d f l -> room bpb d (needed - zlen l) ->
  exists l' d', (if zlen l <? needed then extend_file (Z.to_nat (needed - zlen l)) l else mret l) (f, d)
      = (Ok (l ++ l'), (set_start (start_of (l ++ l')) f, d')) /\
    extends bpb d d' l l' /\ zlen (l ++ l') = Z.max (zlen l) needed.
Proof.
  intros Hok Hf Hroom. pose proof (fk_chain _ _ _ Hf) as Hch. destruct (Z.ltb_spec (zlen l) needed).
  - destruct (extend_file_ok (Z.to_nat (needed - zlen l)) d f l) as (l' & d' & Hx & Hlen & He);
      [done|done|apply Hf|apply Hf|by rewrite Z2Nat.id by lia|].
    exists l', d'. split; [done|]. split; [done|]. rewrite zlen_app. lia.
  - exists [], d. rewrite app_nil_r, <-(fk_start _ _ _ Hf), set_start_id. split; [done|]. split; [by apply extends_refl|lia].
Qed.

(** The end of the write: the entry is brought up to date if it changed. *)
Lemma update_entry d f start size :
  fs_ok bpb d -> f_bpb f = bpb -> valid bpb (f_entry_cluster f) ->
  0 <= f_entry_offset f -> f_entry_offset f + 32 <= bpc -> fits 32 start -> fits 32 size ->
  first_cluster_of (entry_on_disk d f) = f_start f -> u32_at 28 (entry_on_disk d f) = f_size f ->
  exists d',
    (if negb (size =? f_size f) || negb (start =? f_start f) then
       _ ← on_disk (patch_entry (Other "FAT32 write directory I/O read error") (Other "FAT32 write directory update error")
             bpb (f_entry_cluster f) (patch_start_size (f_entry_offset f) start size));
       on_file (set_size size)
     else mret tt : M (Fat32File * D) AbiError unit) (set_start start f, d) = (Ok tt, (set_size size (set_start start f), d')) /\
    same_but_cluster bpb (f_entry_cluster f) d d' /\
    first_cluster_of (entry_on_disk d' f) = start /\ u32_at 28 (entry_on_disk d' f) = size.
Proof.
  intros Hok Hb Hc Ho Hl Hst Hsz H1 H2. destruct (Z.eqb_spec size (f_size f)) as [->|Hne]; cbn [negb orb];
    [destruct (Z.eqb_spec start (f_start f)) as [->|Hne]; cbn [negb]|].
  { exists d. split; [by destruct f|]. done. }
  all: unfold mbind, M_bind, on_disk, on_file, modify; cbn [fst snd];
    destruct (patch_entry_ok (Other "FAT32 write directory I/O read error") (Other "FAT32 write directory update error")
      d (f_entry_cluster f) (f_entry_offset f) _ _ Hok Hc Ho Hl Hst Hsz) as (d' & -> & Hs & E1 & E2 & _);
    by exists d'.
Qed.

(** The write as its stages leave it: the chain grown, the bytes written, the
    entry updated. *)
Lemma file_write_stages d f l buf off :
  fs_ok bpb d -> file_ok d f l -> Forall is_byte buf -> 0 <= off -> off + zlen buf < 2 ^ 32 ->
  let size := Z.max (f_size f) (off + zlen buf) in
  room bpb d (clusters_needed bpb size - zlen l) ->
  exists l' d1 d2 d3,
    file_write buf off (f, d) = (Ok (zlen buf), (set_size size (set_start (start_of (l ++ l')) f), d3)) /\
    extends bpb d d1 l l' /\ size <= zlen (l ++ l') * bpc /\ f_entry_cluster f ∉ l ++ l' /\
    fs_ok bpb d2 /\ raw d2 (l ++ l') = upd off buf (raw d1 (l ++ l')) /\
    (forall x, fat bpb d2 x = fat bpb d1 x) /\
    (forall x, valid bpb x -> x ∉ l ++ l' -> data bpb d2 x = data bpb d1 x) /\
    same_but_cluster bpb (f_entry_cluster f) d2 d3 /\
    first_cluster_of (entry_on_disk d3 f) = start_of (l ++ l') /\ u32_at 28 (entry_on_disk d3 f) = size.
Proof.
  intros Hok Hf Hb Ho Hlt size Hroom. pose proof (fo_volume _ _ Hok) as Hv. pose proof (bpc_pos d Hv) as Hp.
  pose proof (zlen_nonneg buf). pose proof (fk_size _ _ _ Hf) as Hfs. pose proof (fk_small _ _ _ Hf) as Hsm.
  destruct (needed_enough size Hp) as [Hne Hn0]; [unfold size; lia|].
  destruct (grow_file d f l _ Hok Hf Hroom) as (l' & d1 & Hg & He & Hlen).
  assert (size <= zlen (l ++ l') * bpc) as Hfit by (rewrite Hlen; nia).
  destruct (fk_entry _ _ _ Hf) as (Hec & Hel & Hef).
  assert (f_entry_cluster f ∉ l ++ l') as Hen.
  { intros [?|Hin]%elem_of_app; [done|]. pose proof (ex_new _ _ _ _ _ He) as Hnew. rewrite Forall_forall in Hnew.
    by destruct (Hnew _ Hin). }
  destruct (write_at_ok d1 (l ++ l') off buf) as (d2 & Hw & Hok2 & Hr2 & Hf2 & Ho2);
    [apply (ex_ok _ _ _ _ _ He)|apply (ex_chain _ _ _ _ _ He)|done|done|unfold size in Hfit; lia|].
  assert (entry_on_disk d2 f = entry_on_disk d f) as Hentry.
  { unfold entry_on_disk. rewrite Ho2 by done. rewrite (ex_data _ _ _ _ _ He); [done..|]. set_solver. }
  assert (fits 32 (start_of (l ++ l'))) as Hst.
  { pose proof (ch_valid _ _ _ (ex_chain _ _ _ _ _ He)) as Hva. destruct (l ++ l') as [|c t]; [done|].
    apply Forall_cons in Hva as [Hc _]. apply (valid_small bpb d c Hv) in Hc. unfold fits. cbn. lia. }
  destruct (update_entry d2 f (start_of (l ++ l')) size) as (d3 & Hu & Hs3 & E1 & E2);
    [done|apply Hf|done|apply Hf|apply Hf|done|unfold fits, size; lia|by rewrite Hentry; apply Hf|by rewrite Hentry; apply Hf|].
  exists l', d1, d2, d3. split; [|done].
  unfold file_write, mbind, M_bind, mret, M_ret, get, lift, uadd. rewrite (proj2 (Z.ltb_lt _ _)) by lia.
  cbn [fst snd]. rewrite (wrap_small 32) by (unfold fits; lia). fold size.
  rewrite (fk_bpb _ _ _ Hf). pose proof (collect_file d f l Hv Hf) as Hcol. unfold mret, M_ret in Hcol. rewrite Hcol.
  unfold mret, M_ret in Hg. rewrite Hg. unfold on_disk at 1. cbn [fst snd]. rewrite Hw.
  cbn [f_size f_start set_start f_entry_cluster f_entry_offset fst snd].
  unfold mbind, M_bind, mret, M_ret in Hu. by rewrite Hu.
Qed.

(** C22. Writing to a file changes its bytes as an array would, and nothing
    else.  For a well-formed file on a sound volume with enough free clusters,
    a write below 4 GiB returns the full count; the contents become the old
    ones, extended with zeros up to the end of the write if that lies beyond,
    with the bytes put at the offset; the new clusters were free before; the
    directory entry records the new start and size; the file is well formed
    again, and the bytes and table entries of all other clusters are kept. *)
Theorem fat32_write_refines d f l buf off :
  fs_ok bpb d -> file_ok d f l -> Forall is_byte buf -> 0 <= off -> off + zlen buf < 2 ^ 32 ->
  room bpb d (clusters_needed bpb (Z.max (f_size f) (off + zlen buf)) - zlen l) ->
  exists f' d' l', file_write buf off (f, d) = (Ok (zlen buf), (f', d')) /\ fs_ok bpb d' /\ file_ok d' f' (l ++ l') /\
    contents d' f' (l ++ l') = upd off buf (Files.grow (off + zlen buf) (contents d f l)) /\
    Forall (free_cluster bpb d) l' /\
    forall x, valid bpb x -> x ∉ l ++ l' -> x <> f_entry_cluster f ->
      data bpb d' x = data bpb d x /\ fat bpb d' x = fat bpb d x.
Proof.
  intros Hok Hf Hb Ho Hlt Hroom. pose proof (fo_volume _ _ Hok) as Hv. pose proof (bpc_pos d Hv) as Hp.
  destruct (file_write_stages d f l buf off Hok Hf Hb Ho Hlt Hroom)
    as (l' & d1 & d2 & d3 & Hw & He & Hfit & Hen & Hok2 & Hr2 & Hf2 & Ho2 & (Ht3 & Hok3 & Hf3 & Ho3) & E1 & E2).
  pose proof (ex_chain _ _ _ _ _ He) as Hch. pose proof (ch_valid _ _ _ Hch) as Hva. rewrite Forall_forall in Hva.
  assert (raw d3 (l ++ l') = upd off buf (contents d f l ++ zeros (zlen (l ++ l') * bpc - f_size f))) as Hraw.
  { rewrite (raw_ext d2 d3) by (intros x Hx; apply Ho3; [by apply Hva|by intros ->]). rewrite Hr2. f_equal.
    rewrite raw_app, (raw_zero d1 l') by (lia || apply (ex_zero _ _ _ _ _ He)).
    rewrite (raw_ext d d1 l).
    - destruct (raw_contents d f l Hv Hf) as [-> _]. rewrite <-app_assoc, <-zeros_app by (pose proof (fk_size _ _ _ Hf); pose proof (zlen_nonneg l'); nia).
      do 2 f_equal. rewrite zlen_app. lia.
    - intros x Hx. apply (ex_data _ _ _ _ _ He); [apply Hva, elem_of_app; by left|].
      pose proof (ch_nodup _ _ _ Hch) as (_ & Hn & _)%NoDup_app. intros Hx'. by apply (Hn x). }
  destruct (raw_contents d f l Hv Hf) as [_ Hcl]. pose proof (zlen_nonneg buf).
  destruct (contents_after (contents d f l) off buf (zlen (l ++ l') * bpc)) as [Hc Hs]; [done|lia|lia|].
  rewrite Hcl in Hc, Hs. rewrite <-Hraw in Hc, Hs.
  do 2 eexists. exists l'. split; [exact Hw|]. split; [by apply Hok3|]. split; [|split; [done|split]].
  - pose proof (fk_size _ _ _ Hf). pose proof (fk_small _ _ _ Hf). destruct (fk_entry _ _ _ Hf) as (Hec & _ & Hef).
    split; try done; try apply Hf; cbn [f_size set_size]; try lia.
    + apply (chain_kept bpb d1); [done|]. intros x Hx. by rewrite Hf3, Hf2.
    + split; [done|]. split; [done|]. cbn [f_entry_cluster set_size set_start].
      rewrite Hf3, Hf2, (ex_fat _ _ _ _ _ He); done.
  - apply (ex_new _ _ _ _ _ He).
  - intros x Hx Hn Hne. rewrite Ho3, Ho2 by done. split.
    + apply (ex_data _ _ _ _ _ He); [done|set_solver].
    + rewrite Hf3, Hf2. by apply (ex_fat _ _ _ _ _ He).
Qed.

(** ** Reading

    The batches are read from their first cluster on, so the clusters of the
    chain are taken to follow each other. *)
Definition contiguous (l : list Z) : Prop := l = seqZ (start_of l) (zlen l).

Lemma contiguous_drop l n : contiguous l -> contiguous (drop n l).
Proof.
  unfold contiguous. intros Hl. destruct (decide (n < length l)%nat) as [Hn|Hn]; [|by rewrite drop_ge by lia].
  assert (drop n l = seqZ (start_of l + Z.of_nat n) (zlen l - Z.of_nat n)) as Hd.
  { rewrite Hl at 1. apply list_eq. intros i. rewrite lookup_drop. apply option_eq. intros x. rewrite !lookup_seqZ. lia. }
  assert (zlen (drop n l) = zlen l - Z.of_nat n) as Hz by (unfold zlen; rewrite length_drop; lia).
  rewrite Hz, Hd. f_equal. rewrite seqZ_cons by (unfold zlen in *; lia). done.
Qed.

Lemma contiguous_take l n : contiguous l -> contiguous (take n l).
Proof.
  unfold contiguous. intros Hl. destruct n as [|n]; [done|]. destruct l as [|c l]; [done|]. cbn [start_of head default].
  assert (start_of (take (S n) (c :: l)) = c) as -> by done. unfold zlen. rewrite length_take.
  rewrite Hl at 1. cbn [start_of head default]. apply list_eq. intros i. apply option_eq. intros x.
  rewrite lookup_take_Some, !lookup_seqZ. unfold zlen, id. lia.
Qed.

(** The sectors of clusters that follow each other are their contents. *)
Lemma range_contiguous d c n :
  0 <= n -> volume bpb d ->
  range d (data_start_sector bpb + (c - 2) * sectors_per_cluster bpb) (n * sectors_per_cluster bpb) = raw d (seqZ c n).
Proof.
  intros Hn Hv. pose proof (vo_spc bpb d Hv). revert c. pattern n. apply natlike_ind; [done| |done].
  clear n Hn. intros n Hn IH c. rewrite seqZ_cons by lia. rewrite raw_cons. replace (Z.succ n * _) with
    (sectors_per_cluster bpb + n * sectors_per_cluster bpb) by lia.
  rewrite range_app by nia. f_equal. replace (Z.pred (Z.succ n)) with n by lia. rewrite <-IH. f_equal. lia.
Qed.

Lemma upd_twice {A} o (a b l : list A) :
  0 <= o -> o + zlen a + zlen b <= zlen l -> upd (o + zlen a) b (upd o a l) = upd o (a ++ b) l.
Proof.
  intros Ho Hl. pose proof (zlen_nonneg a). pose proof (zlen_nonneg b). apply list_eq. intros i.
  rewrite (upd_lookup (o + zlen a)), (upd_lookup o (a ++ b)) by (rewrite ?zlen_upd, ?zlen_app; lia).
  rewrite zlen_app, upd_lookup by lia. destruct (decide (o + zlen a <= Z.of_nat i < o + zlen a + zlen b)).
  - rewrite decide_True by lia. rewrite lookup_app_r by (unfold zlen in *; lia). f_equal. unfold zlen in *. lia.
  - destruct (decide (o <= Z.of_nat i < o + zlen a)).
    + rewrite decide_True by lia. rewrite lookup_app_l; [done|]. unfold zlen in *. lia.
    + by rewrite decide_False by lia.
Qed.

(** A range that begins in one part and may run into the next. *)
Lemma sub_across {A} o k m (x y : list A) :
  0 <= o -> 0 <= k -> o + k <= zlen x -> 0 <= m -> o + k = zlen x \/ m = 0 -> sub o (k + m) (x ++ y) = sub o k x ++ sub 0 m y.
Proof.
  intros Ho Hk Hx Hm Hor. rewrite <-sub_app by lia. f_equal.
  - apply list_eq. intros i. rewrite !sub_lookup by lia. case_decide; [|done]. rewrite lookup_app_l; [done|]. unfold zlen in *. lia.
  - destruct Hor as [He| ->]; [|by rewrite !sub_zero]. rewrite sub_skip by lia. by replace (o + k - zlen x) with 0 by lia.
Qed.

(** One batch. *)
Lemma read_batch d c chunk :
  volume bpb d -> Forall (valid bpb) (c :: chunk) -> contiguous (c :: chunk) ->
  read_into (data_start_sector bpb + (c - 2) * sectors_per_cluster bpb) (zlen (c :: chunk) * sectors_per_cluster bpb)
    (zeros (zlen (c :: chunk) * bpc)) d = (Ok (raw d (c :: chunk)), d).
Proof.
  intros Hv Hva Hct. unfold contiguous in Hct. change (start_of (c :: chunk)) with c in Hct. set (cs := c :: chunk) in *.
  set (n := zlen cs) in *. assert (0 < n) as Hn by (unfold n, cs; rewrite zlen_cons; pose proof (zlen_nonneg chunk); lia).
  pose proof (bpc_pos d Hv). pose proof (vo_spc bpb d Hv). unfold read_into. rewrite zlen_zeros by nia. rewrite (cluster_size bpb d Hv).
  replace (n * (sectors_per_cluster bpb * 512)) with (n * sectors_per_cluster bpb * 512) by lia. rewrite Z.ltb_irrefl.
  assert (valid bpb (c + (n - 1))) as Hlast.
  { rewrite Hct in Hva. rewrite Forall_forall in Hva. apply Hva, elem_of_seqZ. lia. }
  assert (valid bpb c) as Hfirst by (by apply Forall_cons in Hva as []).
  destruct (cluster_place bpb d _ Hv Hlast) as (_ & _ & Hend). destruct (cluster_place bpb d _ Hv Hfirst) as (Hs0 & _ & _).
  rewrite read_range by nia. cbn [mbind res_bind]. rewrite range_contiguous by (done || lia). rewrite <-Hct.
  unfold zeros. rewrite drop_ge, app_nil_r; [done|]. rewrite length_replicate. lia.
Qed.

Lemma read_chunks_ok fuel d cs to_read copied intra buf :
  volume bpb d -> Forall (valid bpb) cs -> contiguous cs -> (length cs <= fuel)%nat ->
  0 <= intra < bpc -> 0 <= copied <= to_read -> to_read <= zlen buf ->
  let m := Z.max 0 (Z.min (zlen cs * bpc - intra) (to_read - copied)) in
  read_chunks fuel bpb cs to_read copied intra buf d = (Ok (copied + m, upd copied (sub intra m (raw d cs)) buf), d).
Proof.
  intros Hv. revert cs copied intra buf. induction fuel as [|fuel IH]; intros cs copied intra buf Hva Hct Hfu Hin Hcp Hbuf m.
  { destruct cs; [|cbn in Hfu; lia]. cbn [read_chunks]. unfold m. change (zlen (@nil Z)) with 0.
    rewrite Z.max_l by lia. by rewrite Z.add_0_r, sub_zero, upd_nil. }
  cbn [read_chunks]. destruct cs as [|c cs'].
  { unfold m. change (zlen (@nil Z)) with 0. rewrite Z.max_l by lia. cbn. by rewrite Z.add_0_r, sub_zero, upd_nil. }
  set (cs := c :: cs') in *. change (take 64 cs) with (c :: take 63 cs'). cbn iota. set (chunk := c :: take 63 cs').
  assert (cs = chunk ++ drop 64 cs) as Hsplit by (unfold chunk; cbn; by rewrite take_drop).
  assert (Forall (valid bpb) chunk /\ Forall (valid bpb) (drop 64 cs)) as [Hvc Hvd] by (rewrite Hsplit in Hva; by apply Forall_app in Hva).
  assert (contiguous chunk) as Hcc by apply (contiguous_take cs 64 Hct).
  unfold mbind, M_bind, lift, map_err. rewrite cluster_sector by (apply Forall_cons in Hvc as [[] _]; lia).
  pose proof (read_batch d c (take 63 cs') Hv Hvc Hcc) as Hbatch. fold chunk in Hbatch. rewrite Hbatch.
  set (n := zlen chunk) in *. pose proof (zlen_raw d chunk Hv) as Hlr. fold n in Hlr.
  assert (0 < n) as Hn by (unfold n, chunk; rewrite zlen_cons; pose proof (zlen_nonneg (take 63 cs')); lia).
  set (k := Z.min (n * bpc - intra) (to_read - copied)). assert (0 <= k) as Hk by (unfold k; nia).
  rewrite slice_ok by (rewrite ?Hlr; lia). assert (zlen (sub intra k (raw d chunk)) = k) as Hsk by (apply zlen_sub; lia).
  rewrite splice_ok by lia. rewrite IH; [|done|by apply contiguous_drop|rewrite length_drop; lia|lia|lia|rewrite zlen_upd; lia].
  assert (zlen cs = n + zlen (drop 64 cs)) as Hlen by (rewrite Hsplit at 1; apply zlen_app).
  pose proof (zlen_nonneg (drop 64 cs)). set (m' := Z.max 0 (Z.min (zlen (drop 64 cs) * bpc - 0) (to_read - (copied + k)))).
  assert (intra < n * bpc) by nia. assert (0 <= zlen (drop 64 cs) * bpc) by nia.
  assert (m = k + m') as Hm by (unfold m, m', k; rewrite Hlen, Z.mul_add_distr_r; lia).
  rewrite Hm, Z.add_assoc. do 3 f_equal. rewrite Hsplit at 2. rewrite raw_app.
  rewrite sub_across by (rewrite ?Hlr; lia).
  rewrite <-(upd_twice copied (sub intra k (raw d chunk))); [by rewrite Hsk|lia|]. rewrite Hsk.
  rewrite zlen_sub; [lia..|]. rewrite zlen_raw by done. lia.
Qed.

Lemma is_chain_drop g n l : is_chain g l -> is_chain g (drop n l).
Proof.
  revert l. induction n as [|n IH]; intros l Hl; [done|]. destruct l as [|c l]; [done|]. cbn [drop]. apply IH.
  destruct l; [done|]. by destruct Hl.
Qed.

(** The walk to the cluster of an offset. *)
Lemma skip_clusters_ok fuel d c l skip :
  volume bpb d -> is_chain (fat bpb d) (c :: l) -> Forall (valid bpb) (c :: l) ->
  0 <= skip < zlen (c :: l) * bpc -> (Z.to_nat (skip / bpc) < fuel)%nat ->
  skip_clusters fuel bpb c skip d = (Ok (start_of (drop (Z.to_nat (skip / bpc)) (c :: l)), skip mod bpc), d).
Proof.
  intros Hv. pose proof (bpc_pos d Hv) as Hp. revert c l skip.
  induction fuel as [|fuel IH]; intros c l skip Hch Hva Hs Hf; [lia|]. cbn [skip_clusters].
  destruct (Z.leb_spec bpc skip) as [Hle|Hlt]; last first.
  { rewrite Z.div_small, Z.mod_small by lia. done. }
  destruct l as [|c' l]; [rewrite zlen_cons in Hs; change (zlen (@nil Z)) with 0 in Hs; lia|].
  destruct Hch as [Hn Hch]. apply Forall_cons in Hva as [Hc Hva].
  unfold mbind, M_bind. rewrite follow_ok by (done || unfold valid in Hc; lia). rewrite Hn.
  assert ((skip - bpc) / bpc = skip / bpc - 1 /\ (skip - bpc) mod bpc = skip mod bpc) as [Hd Hm].
  { replace (skip - bpc) with (skip + (-1) * bpc) by lia. rewrite Z.div_add, Z_mod_plus_full by lia. lia. }
  assert (1 <= skip / bpc) by (apply Z.div_le_lower_bound; lia).
  rewrite (IH c' l); [|done|done|rewrite zlen_cons in Hs; lia|rewrite Hd; lia]. rewrite Hd, Hm.
  replace (Z.to_nat (skip / bpc)) with (S (Z.to_nat (skip / bpc - 1))) by lia. done.
Qed.

(** The range of the file that the batches cover. *)
Lemma sub_raw_part d l i n skip m :
  volume bpb d -> 0 <= i -> 0 <= n -> i + n <= zlen l -> 0 <= skip -> 0 <= m -> skip + m <= n * bpc ->
  sub skip m (raw d (take (Z.to_nat n) (drop (Z.to_nat i) l))) = sub (i * bpc + skip) m (raw d l).
Proof.
  intros Hv Hi Hn Hl Hs Hm Hfit. pose proof (bpc_pos d Hv).
  assert (l = take (Z.to_nat i) l ++ take (Z.to_nat n) (drop (Z.to_nat i) l) ++ drop (Z.to_nat n) (drop (Z.to_nat i) l)) as Hsp.
  { by rewrite !take_drop. }
  set (y := take (Z.to_nat n) (drop (Z.to_nat i) l)) in *. set (z := drop (Z.to_nat n) (drop (Z.to_nat i) l)) in *.
  set (x := take (Z.to_nat i) l) in *.
  assert (zlen x = i /\ zlen y = n) as [Hx Hy] by (unfold x, y, zlen in *; rewrite !length_take, length_drop; lia).
  rewrite Hsp, !raw_app. rewrite sub_skip by (rewrite zlen_raw, Hx by done; lia). rewrite zlen_raw, Hx by done.
  replace (i * bpc + skip - i * bpc) with skip by lia.
  pose proof (sub_across skip m 0 (raw d y) (raw d z)) as Hac. rewrite Z.add_0_r, sub_zero, app_nil_r in Hac.
  symmetry. apply Hac; [lia|lia|rewrite zlen_raw, Hy by done; lia|lia|by right].
Qed.

(** How much a read at [off] of at most [len] bytes copies. *)
Definition read_count (size off len : Z) : Z :=
  let to_read := Z.min (size - off) len in
  if to_read <=? 0 then 0 else Z.min to_read ((to_read + bpc - 1) / bpc * bpc - off mod bpc).

Lemma read_count_bounds size off len :
  0 < bpc -> 0 <= off ->
  let n := read_count size off len in
  0 <= n <= Z.max 0 (Z.min (size - off) len) /\ (off < size -> 0 < len -> 0 < n) /\
  (off mod bpc = 0 -> n = Z.max 0 (Z.min (size - off) len)).
Proof.
  intros Hp Ho n. unfold n, read_count. set (r := Z.min (size - off) len). pose proof (Z.mod_pos_bound off bpc Hp).
  destruct (Z.leb_spec r 0); [lia|]. pose proof (Z.div_mod (r + bpc - 1) bpc). pose proof (Z.mod_pos_bound (r + bpc - 1) bpc Hp).
  set (q := (r + bpc - 1) / bpc) in *. assert (1 <= q) by (apply Z.div_le_lower_bound; lia). nia.
Qed.

(** The clusters that the batches of a read cover. *)
Lemma read_clusters d (l : list Z) off r :
  volume bpb d -> 0 <= off -> 0 < r -> off + r <= zlen l * bpc ->
  let i := off / bpc in let n := (r + bpc - 1) / bpc in
  1 <= n /\ 0 <= i /\ i + n <= zlen l /\ off = i * bpc + off mod bpc /\ 0 <= off mod bpc < bpc /\ r <= n * bpc.
Proof.
  intros Hv Ho Hr Hl i n. pose proof (bpc_pos d Hv) as Hp. pose proof (Z.div_mod off bpc) as H1. pose proof (Z.mod_pos_bound off bpc Hp).
  pose proof (Z.div_mod (r + bpc - 1) bpc) as H2. pose proof (Z.mod_pos_bound (r + bpc - 1) bpc Hp). fold i in H1. fold n in H2.
  assert (0 <= i) by (apply Z.div_pos; lia). assert (1 <= n) by (apply Z.div_le_lower_bound; lia).
  assert (i + n < zlen l + 1) by nia. lia.
Qed.

Lemma file_read_inside d f l buf off :
  fs_ok bpb d -> file_ok d f l -> contiguous l -> 0 <= off < f_size f -> 0 < zlen buf ->
  let n := read_count (f_size f) off (zlen buf) in
  file_read f buf off d = (Ok (n, upd 0 (sub off n (contents d f l)) buf), d).
Proof.
  intros Hok Hf Hct Ho Hb n. pose proof (fo_volume _ _ Hok) as Hv. pose proof (fk_size _ _ _ Hf) as Hsz.
  pose proof (fk_chain _ _ _ Hf) as [Hch Hva _ _]. destruct (read_count_bounds (f_size f) off (zlen buf) (bpc_pos d Hv)) as (Hn & _ & _); [lia|].
  fold n in Hn. unfold file_read. destruct (Z.leb_spec (f_size f) off); [lia|].
  set (r := Z.min (f_size f - off) (zlen buf)) in *. destruct (Z.eqb_spec r 0); [lia|]. rewrite (fk_bpb _ _ _ Hf).
  destruct (read_clusters d l off r) as (Hq & Hi & Hiq & Hoff & Hs & Hrq); [done|lia|lia|lia|].
  set (i := off / bpc) in *. set (q := (r + bpc - 1) / bpc) in *. set (s := off mod bpc) in *.
  destruct l as [|c l]; [change (zlen (@nil Z)) with 0 in Hsz; lia|].
  rewrite (fk_start _ _ _ Hf). change (start_of (c :: l)) with c. unfold mbind, M_bind.
  rewrite (skip_clusters_ok _ d c l off) by (done || lia). fold i s.
  destruct (drop (Z.to_nat i) (c :: l)) as [|c2 t] eqn:Hdrop.
  { apply (f_equal length) in Hdrop. rewrite length_drop in Hdrop. unfold zlen in *. cbn in *. lia. }
  change (start_of (c2 :: t)) with c2. rewrite (collect_limited_ok bpb (Z.to_nat q) d c2 t);
    [|done|rewrite <-Hdrop; by apply is_chain_drop|rewrite <-Hdrop; by apply Forall_drop|lia].
  rewrite <-Hdrop. set (cs := take (Z.to_nat q) (drop (Z.to_nat i) (c :: l))).
  assert (zlen cs = q) as Hcs by (unfold cs, zlen in *; rewrite length_take, length_drop; lia).
  assert (n = Z.max 0 (Z.min (zlen cs * bpc - s) (r - 0))) as Hnm.
  { rewrite Hcs. unfold n, read_count. fold r. destruct (Z.leb_spec r 0); [lia|]. fold q s. assert (bpc <= q * bpc) by nia. lia. }
  assert (s + n <= q * bpc) as Hsn by (rewrite Hnm, Hcs; nia).
  assert (read_chunks (length cs) bpb cs r 0 s buf d = (Ok (n, upd 0 (sub off n (contents d f (c :: l))) buf), d)) as Hrc.
  { rewrite read_chunks_ok; [|done|by apply Forall_take, Forall_drop|by apply contiguous_take, contiguous_drop|lia|lia|lia|lia].
    rewrite <-Hnm, Z.add_0_l. do 3 f_equal. unfold cs. rewrite sub_raw_part by (done || lia). rewrite <-Hoff.
    unfold contents. rewrite sub_sub by lia. done. }
  clearbody cs. destruct cs; [change (zlen (@nil Z)) with 0 in Hcs; lia|]. exact Hrc.
Qed.

(** Reading a file whose clusters follow each other on disk gives its
    bytes.  The count is 0 past the end of the file; otherwise it is positive
    and at most the bytes asked for and the bytes left, exactly that many at a
    cluster boundary (and short, inside a cluster, by at most the offset in
    it); the front of the buffer then holds that range of the contents. *)
Theorem fat32_read_contiguous d f l buf off :
  fs_ok bpb d -> file_ok d f l -> contiguous l -> 0 <= off ->
  let n := read_count (f_size f) off (zlen buf) in
  file_read f buf off d = (Ok (n, upd 0 (sub off n (contents d f l)) buf), d) /\
  0 <= n <= Z.max 0 (Z.min (f_size f - off) (zlen buf)) /\
  (off < f_size f -> buf <> [] -> 0 < n) /\
  (off mod bpc = 0 -> n = Z.max 0 (Z.min (f_size f - off) (zlen buf))).
Proof.
  intros Hok Hf Hct Ho n. pose proof (fo_volume _ _ Hok) as Hv.
  destruct (read_count_bounds (f_size f) off (zlen buf) (bpc_pos d Hv) Ho) as (Hb & Hpos & Hall). fold n in Hb, Hpos, Hall.
  split; [|split; [done|split; [|done]]].
  - destruct (decide (off < f_size f /\ 0 < zlen buf)) as [[]|Hz]; [by apply file_read_inside|].
    assert (n = 0) as -> by (pose proof (zlen_nonneg buf); lia). rewrite sub_zero, upd_nil. unfold file_read.
    destruct (Z.leb_spec (f_size f) off); [done|]. pose proof (zlen_nonneg buf).
    destruct (Z.eqb_spec (Z.min (f_size f - off) (zlen buf)) 0); [done|lia].
  - intros Hlt Hne. apply Hpos; [done|]. destruct buf; [done|]. rewrite zlen_cons. pose proof (zlen_nonneg buf). lia.
Qed.

End file.

(** ** Examples *)

Definition demo_a : Fat32File := mkFile 3 600 demo_bpb 2 0.
Definition demo_b : Fat32File := mkFile 5 1024 demo_bpb 2 32.

Lemma demo_a_ok : file_ok demo_bpb demo_disk demo_a [3; 4].
Proof.
  split; [done|apply demo_chain_ok|done|done|done|by vm_compute| |done|by vm_compute].
  split; [done|]. split; [set_solver by lia|by vm_compute].
Qed.

Lemma fat32_write_refines_witness : exists f' d' l',
  file_write [1; 2; 3] 1023 (demo_a, demo_disk) = (Ok (zlen [1; 2; 3]), (f', d')) /\
  contents demo_bpb d' f' ([3; 4] ++ l')
  = upd 1023 [1; 2; 3] (Files.grow (1023 + zlen [1; 2; 3]) (contents demo_bpb demo_disk demo_a [3; 4])).
Proof.
  destruct (fat32_write_refines demo_bpb demo_disk demo_a [3; 4] [1; 2; 3] 1023)
    as (f' & d' & l' & Hw & _ & _ & Hc & _).
  - apply demo_fs_ok.
  - apply demo_a_ok.
  - by repeat constructor.
  - done.
  - done.
  - exists [6]. split; [apply NoDup_singleton|]. split; [|done]. constructor; [|done]. split; [done|by vm_compute].
  - exists f', d', l'. exact (conj Hw Hc).
Defined.

Lemma fat32_read_contiguous_witness :
  let n := read_count demo_bpb (f_size demo_a) 510 (zlen (zeros 4)) in
  file_read demo_a (zeros 4) 510 demo_disk
  = (Ok (n, upd 0 (sub 510 n (contents demo_bpb demo_disk demo_a [3; 4])) (zeros 4)), demo_disk).
Proof.
  destruct (fat32_read_contiguous demo_bpb demo_disk demo_a [3; 4] (zeros 4) 510 demo_fs_ok demo_a_ok) as [Hr _];
    [done|done|exact Hr].
Defined.

(** A file in two places on the disk: the second half comes from the cluster
    that follows the first, not from the file's next one. *)
Lemma fragmented_read_wrong :
  fst (file_read demo_b (zeros 1024) 0 demo_disk) = Ok (1024, replicate 512 6 ++ replicate 512 7) /\
  contents demo_bpb demo_disk demo_b [5; 7] = replicate 512 6 ++ replicate 512 8.
Proof. split; vm_compute; reflexivity. Qed.

End Fat32File.
