(* ===== verification/Fat32Dir.v ===== *)
(** * FAT32: directories and names

    A directory is the list of the 32-byte slots of its clusters.  Both scans
    of [Fat32] are shown to read that list alike; names that fit 8.3 survive
    the short form; and creating a file adds one entry and changes nothing
    else. *)

From S2P Require Import Prelude Bytes Abi Disk Path Fat32 Fat32Spec Fat32File.
Import Disk Fat32 Fat32Spec Fat32File.

Module Fat32Dir.

(** ** Slots *)

(** A raw entry with its place. *)
Record Slot := mkAt { at_cluster : Z; at_offset : Z; at_raw : list Z }.

(** [scan_cluster] and [find_in_cluster] on the list of slots. *)
Fixpoint scan (ss : list Slot) (lfn : list (list Z)) : list DirEntry * list (list Z) * bool :=
  match ss with
  | [] => ([], lfn, false)
  | s :: ss =>
      match kind_of (at_raw s) with
      | End => ([], lfn, true)
      | Deleted | Volume => scan ss []
      | Long => scan ss (lfn ++ [at_raw s])
      | Named =>
          let '(es, lfn', stop) := scan ss [] in
          (entry_of lfn (at_raw s) (at_cluster s) (at_offset s) :: es, lfn', stop)
      end
  end.

Definition entries (ss : list Slot) : list DirEntry := fst (fst (scan ss [])).

Definition cluster_slots (n : nat) (k c : Z) (buf : list Z) : list Slot :=
  map (fun i => mkAt c (i * 32) (sub (i * 32) 32 buf)) (seqZ k (Z.of_nat n)).

Lemma scan_cluster_slots n c k buf lfn :
  scan_cluster n c (k * 32) buf lfn = scan (cluster_slots n k c buf) lfn.
Proof.
  revert k lfn. induction n as [|n IH]; intros k lfn; [done|]. unfold cluster_slots. rewrite seqZ_cons by lia.
  replace (Z.succ k) with (k + 1) by lia. replace (Z.pred (Z.of_nat (S n))) with (Z.of_nat n) by lia.
  cbn [map scan scan_cluster at_raw at_cluster at_offset]. fold (cluster_slots n (k + 1) c buf).
  replace (k * 32 + 32) with ((k + 1) * 32) by lia. by rewrite !IH.
Qed.

Lemma scan_app a b lfn :
  scan (a ++ b) lfn =
  let '(es, l, stop) := scan a lfn in
  if stop : bool then (es, l, true) else let '(es', l', stop') := scan b l in (es ++ es', l', stop').
Proof.
  revert lfn. induction a as [|s a IH]; intros lfn; cbn [app scan].
  - by destruct (scan b lfn) as [[es l] st].
  - destruct (kind_of (at_raw s)); try done; rewrite IH; [by destruct (scan a _) as [[es l] []]..|].
    destruct (scan a []) as [[es l] []]; [done|]. by destruct (scan b l) as [[es' l'] st].
Qed.

(** ** The two scans *)

(** Where an entry is, with its start and size: what [find_dir_entry]
    returns. *)
Definition place (e : DirEntry) : Z * Z * Z * Z := (entry_cluster e, entry_offset e, first_cluster e, file_size e).

Definition first_named (n : list Z) (es : list DirEntry) : option (Z * Z * Z * Z) :=
  place <$> (snd <$> list_find (fun e => same_name n e = true) es).

Lemma first_named_cons n e es :
  first_named n (e :: es) = if same_name n e then Some (place e) else first_named n es.
Proof.
  unfold first_named. cbn [list_find]. destruct (same_name n e) eqn:Hs; [by rewrite decide_True|].
  rewrite decide_False by congruence. by destruct (list_find _ es) as [[]|].
Qed.

Lemma first_named_app n a b :
  first_named n (a ++ b) = match first_named n a with Some p => Some p | None => first_named n b end.
Proof.
  induction a as [|e a IH]; [done|]. cbn [app]. rewrite !first_named_cons. by destruct (same_name n e).
Qed.

(** In a cluster: a match, the end mark without one, or neither. *)
Lemma find_scan_cluster m n c off buf lfn :
  let '(es, lfn', stop) := scan_cluster m c off buf lfn in
  match first_named n es with
  | Some p => exists l, find_in_cluster m n c off buf lfn = (Some (Some p), l)
  | None => if stop : bool then exists l, find_in_cluster m n c off buf lfn = (Some None, l)
            else find_in_cluster m n c off buf lfn = (None, lfn')
  end.
Proof.
  revert off lfn. induction m as [|m IH]; intros off lfn; cbn [scan_cluster find_in_cluster]; [done|].
  destruct (kind_of (sub off 32 buf)); [by eexists|apply IH..|].
  specialize (IH (off + 32) []). destruct (scan_cluster m c (off + 32) buf []) as [[es l] st].
  rewrite first_named_cons. unfold same_name at 1. cbn [name entry_of].
  destruct (eq_ignore_ascii_case _ n); [by eexists|done].
Qed.

(** ** Names that fit 8.3 *)

(** A printable character other than the space and the dot. *)
Definition good_char (b : Z) : Prop := 0x21 <= b <= 0x7E /\ b <> 0x2E.

Record good_name (base ext : list Z) : Prop := {
  gn_base : 1 <= zlen base <= 8;
  gn_ext : zlen ext <= 3;
  gn_base_chars : Forall good_char base;
  gn_ext_chars : Forall good_char ext
}.

(** The name with these parts. *)
Definition name83 (base ext : list Z) : list Z := match ext with [] => base | _ => base ++ [0x2E] ++ ext end.

Lemma split_dot_plain l : Forall good_char l -> split_dot l = [l].
Proof.
  induction 1 as [|b l [_ Hb] _ IH]; [done|]. cbn [split_dot]. destruct (Z.eqb_spec b 0x2E); [done|]. by rewrite IH.
Qed.

Lemma split_dot_two a b : Forall good_char a -> Forall good_char b -> split_dot (a ++ [0x2E] ++ b) = [a; b].
Proof.
  intros Ha Hb. induction Ha as [|x a [_ Hx] _ IH]; cbn [app split_dot].
  - by rewrite split_dot_plain.
  - destruct (Z.eqb_spec x 0x2E); [done|]. cbn [app] in IH. by rewrite IH.
Qed.

Lemma upper_good b : good_char b -> good_char (upper_byte b).
Proof. unfold good_char, upper_byte. destruct (Z.leb_spec 0x61 b), (Z.leb_spec b 0x7A); cbn [andb]; lia. Qed.

Lemma lower_upper b : lower_byte (upper_byte b) = lower_byte b.
Proof.
  unfold lower_byte, upper_byte. destruct (Z.leb_spec 0x61 b), (Z.leb_spec b 0x7A); cbn [andb]; try done.
  destruct (Z.leb_spec 0x41 (b - 32)), (Z.leb_spec (b - 32) 0x5A); cbn [andb]; try lia.
  destruct (Z.leb_spec 0x41 b), (Z.leb_spec b 0x5A); cbn [andb]; lia.
Qed.

Lemma lower_lower b : lower_byte (lower_byte b) = lower_byte b.
Proof.
  unfold lower_byte. destruct (Z.leb_spec 0x41 b), (Z.leb_spec b 0x5A); cbn [andb];
    repeat match goal with |- context [?x <=? ?y] => destruct (Z.leb_spec x y) end; cbn [andb]; lia.
Qed.

(** Padding with spaces, and trimming it off. *)
Definition pad (n : nat) (l : list Z) : list Z := l ++ replicate (n - length l) 0x20.

Lemma short_of_83 base ext : good_name base ext ->
  to_short_name (name83 base ext) = pad 8 (to_ascii_uppercase base) ++ pad 3 (to_ascii_uppercase ext).
Proof.
  intros [Hb He Hbc Hec]. unfold to_short_name, name83, pad. unfold zlen in *.
  assert (forall n l, (length l <= n)%nat -> take n (to_ascii_uppercase l) = to_ascii_uppercase l) as Htake.
  { intros n l Hl. apply take_ge. unfold to_ascii_uppercase. by rewrite length_map. }
  destruct ext as [|e ext].
  - rewrite split_dot_plain by done. cbn [head last from_option]. unfold id. rewrite Htake by lia. by rewrite <-!app_assoc.
  - rewrite split_dot_two by done. cbn [head last from_option]. unfold id. rewrite !Htake by lia. by rewrite <-!app_assoc.
Qed.

Lemma white_heads : Forall (fun w => exists h t, w = h :: t /\ (h <= 32 \/ 0x80 <= h)) white_rev.
Proof.
  assert (forallb (fun w => match w with h :: _ => (h <=? 32) || (0x80 <=? h) | [] => false end) white_rev = true) as Hall.
  { vm_compute. reflexivity. }
  apply Forall_forall. intros w Hw. rewrite forallb_forall in Hall. apply list_elem_of_In, Hall in Hw.
  destruct w as [|h t]; [done|]. exists h, t. split; [done|]. lia.
Qed.

Lemma strip_good b r : good_char b -> strip_white (b :: r) = None.
Proof.
  intros [Hb _]. unfold strip_white. replace (list_find _ white_rev) with (@None (nat * list Z)); [done|].
  symmetry. apply list_find_None. eapply Forall_impl; [apply white_heads|]. intros w (h & t & -> & Hh) [= He]. lia.
Qed.

Lemma strip_nil : strip_white [] = None.
Proof. done. Qed.

Lemma strip_space r : strip_white (0x20 :: r) = Some r.
Proof. done. Qed.

Lemma trim_rev_spaces k fuel l :
  (k <= fuel)%nat -> strip_white l = None -> trim_rev fuel (replicate k 0x20 ++ l) = l.
Proof.
  revert fuel. induction k as [|k IH]; intros fuel Hf Hl.
  - destruct fuel; [done|]. cbn [trim_rev replicate app]. by rewrite Hl.
  - destruct fuel as [|fuel]; [lia|]. cbn [trim_rev replicate app]. rewrite strip_space. apply IH; [lia|done].
Qed.

Lemma trim_pad n l : Forall good_char l -> trim_end (pad n l) = l.
Proof.
  intros Hl. unfold trim_end, pad. rewrite reverse_app, reverse_replicate, trim_rev_spaces.
  - apply reverse_involutive.
  - rewrite length_app, length_replicate. lia.
  - destruct (reverse l) as [|b r] eqn:Hr; [apply strip_nil|]. apply strip_good.
    apply Forall_reverse in Hl. rewrite Hr in Hl. by apply Forall_cons in Hl as [].
Qed.

Lemma ascii_valid l : Forall (fun b => 0 <= b < 0x80) l -> utf8_or_empty l = l.
Proof.
  intros Hl. unfold utf8_or_empty. replace (Path.utf8_valid l) with true; [done|].
  induction Hl as [|b l Hb _ IH]; [done|]. cbn [Path.utf8_valid]. destruct (Z.ltb_spec b 0x80); [done|lia].
Qed.

Lemma pad_ascii n l : Forall good_char l -> Forall (fun b => 0 <= b < 0x80) (pad n l).
Proof.
  intros Hl. apply Forall_app. split; [|by apply Forall_replicate].
  eapply Forall_impl; [exact Hl|]. intros b [Hb _]. lia.
Qed.

Lemma upper_chars l : Forall good_char l -> Forall good_char (to_ascii_uppercase l).
Proof. intros Hl. apply Forall_map. eapply Forall_impl; [exact Hl|]. apply upper_good. Qed.

Lemma zlen_pad n l : (length l <= n)%nat -> zlen (pad n l) = Z.of_nat n.
Proof. intros Hl. unfold zlen, pad. rewrite length_app, length_replicate. lia. Qed.

Lemma short_name_83 base ext rest : good_name base ext ->
  short_name (to_short_name (name83 base ext) ++ rest) = to_ascii_uppercase (name83 base ext).
Proof.
  intros Hg. pose proof Hg as [Hb He Hbc Hec]. unfold zlen in Hb, He. rewrite short_of_83 by done. rewrite <-app_assoc. unfold short_name.
  assert (zlen (pad 8 (to_ascii_uppercase base)) = 8) as H8 by (apply zlen_pad; unfold to_ascii_uppercase; rewrite length_map; lia).
  assert (zlen (pad 3 (to_ascii_uppercase ext)) = 3) as H3 by (apply zlen_pad; unfold to_ascii_uppercase; rewrite length_map; lia).
  rewrite sub_here by done. rewrite sub_skip by lia. replace (8 - zlen _) with 0 by lia. rewrite sub_here by done.
  rewrite !ascii_valid by (apply pad_ascii, upper_chars; done). rewrite !trim_pad by (apply upper_chars; done).
  unfold to_ascii_uppercase, name83. destruct ext as [|e ext]; [done|]. cbn [map]. by rewrite map_app.
Qed.

Lemma lower_of_upper l : to_ascii_lowercase (to_ascii_uppercase l) = to_ascii_lowercase l.
Proof. unfold to_ascii_lowercase, to_ascii_uppercase. rewrite map_map. apply map_ext. apply lower_upper. Qed.

Lemma lower_idem l : to_ascii_lowercase (to_ascii_lowercase l) = to_ascii_lowercase l.
Proof. unfold to_ascii_lowercase. rewrite map_map. apply map_ext. apply lower_lower. Qed.

(** ** The raw entry *)

Lemma raw_entry_fields short attr c size :
  zlen short = 11 -> fits 32 c -> fits 32 size ->
  let raw := raw_entry short attr c size in
  zlen raw = 32 /\ byte_at 11 raw = attr /\ first_cluster_of raw = c /\ u32_at 28 raw = size.
Proof.
  intros Hs Hc Hz raw. destruct (halves_fit c Hc) as [Hhi Hlo].
  assert (forall n z, zlen (le_bytes n z) = Z.of_nat n) as Hle by apply zlen_le_bytes.
  set (p20 := short ++ [attr; 0; 0] ++ le_bytes 2 0 ++ le_bytes 2 0 ++ le_bytes 2 0).
  set (p26 := p20 ++ le_bytes 2 (cluster_hi c) ++ le_bytes 2 0 ++ le_bytes 2 0).
  assert (zlen p20 = 20) as H20 by (unfold p20; rewrite !zlen_app, !Hle, Hs; done).
  assert (zlen p26 = 26) as H26 by (unfold p26; rewrite !zlen_app, !Hle, H20; done).
  assert (raw = p20 ++ le_bytes 2 (cluster_hi c) ++ (le_bytes 2 0 ++ le_bytes 2 0 ++ le_bytes 2 (cluster_lo c) ++ le_bytes 4 size)) as E20.
  { unfold raw, raw_entry, p20. by rewrite <-!app_assoc. }
  assert (raw = p26 ++ le_bytes 2 (cluster_lo c) ++ le_bytes 4 size) as E26 by (rewrite E20; unfold p26; by rewrite <-!app_assoc).
  assert (sub 20 2 raw = le_bytes 2 (cluster_hi c)) as S20 by (rewrite E20, <-H20; apply (sub_mid p20 (le_bytes 2 (cluster_hi c)))).
  assert (sub 26 2 raw = le_bytes 2 (cluster_lo c)) as S26 by (rewrite E26, <-H26; apply (sub_mid p26 (le_bytes 2 (cluster_lo c)))).
  assert (sub 28 4 raw = le_bytes 4 size) as S28.
  { rewrite E26, !sub_skip by (rewrite ?H26, ?Hle; lia). rewrite H26, Hle. rewrite <-(sub_full (le_bytes 4 size)) at 2. done. }
  split; [rewrite E26, !zlen_app, !Hle, H26; done|]. split; [|split].
  - unfold byte_at, raw, raw_entry. rewrite lookup_app_r by (unfold zlen in Hs; lia). unfold zlen in Hs.
    replace (Z.to_nat 11 - length short)%nat with 0%nat by lia. done.
  - unfold first_cluster_of, u16_at. rewrite S20, S26, !le_word_round by done. by apply cluster_halves.
  - unfold u32_at. rewrite S28. by apply le_word_round.
Qed.

Lemma short_len base ext : good_name base ext -> zlen (to_short_name (name83 base ext)) = 11.
Proof.
  intros Hg. rewrite short_of_83 by done. destruct Hg as [Hb He _ _]. unfold zlen in Hb, He.
  rewrite zlen_app, !zlen_pad; unfold to_ascii_uppercase; rewrite ?length_map; lia.
Qed.

(** The first character of the short name. *)
Lemma short_head base ext rest : good_name base ext -> good_char (byte_at 0 (to_short_name (name83 base ext) ++ rest)).
Proof.
  intros Hg. rewrite short_of_83 by done. destruct Hg as [Hb _ Hbc _]. destruct base as [|b base]; [by unfold zlen in Hb; cbn in Hb|].
  apply Forall_cons in Hbc as [Hgb _]. cbn. by apply upper_good.
Qed.

Lemma raw_named base ext attr c size :
  good_name base ext -> attr = 0x20 \/ attr = ATTR_DIRECTORY -> fits 32 c -> fits 32 size ->
  kind_of (raw_entry (to_short_name (name83 base ext)) attr c size) = Named.
Proof.
  intros Hg Ha Hc Hz.
  destruct (raw_entry_fields (to_short_name (name83 base ext)) attr c size (short_len _ _ Hg) Hc Hz) as (_ & Hat & _).
  pose proof (short_head base ext ([attr; 0; 0] ++ le_bytes 2 0 ++ le_bytes 2 0 ++ le_bytes 2 0 ++ le_bytes 2 (cluster_hi c) ++
    le_bytes 2 0 ++ le_bytes 2 0 ++ le_bytes 2 (cluster_lo c) ++ le_bytes 4 size) Hg) as [Hh _].
  fold (raw_entry (to_short_name (name83 base ext)) attr c size) in Hh. set (raw := raw_entry _ _ _ _) in *.
  unfold kind_of. rewrite Hat. destruct (Z.eqb_spec (byte_at 0 raw) 0x00); [lia|].
  destruct (Z.eqb_spec (byte_at 0 raw) 0xE5); [lia|]. by destruct Ha as [->| ->].
Qed.

Lemma raw_entry_of base ext attr c size cl off :
  good_name base ext -> attr = 0x20 \/ attr = ATTR_DIRECTORY -> fits 32 c -> fits 32 size ->
  entry_of [] (raw_entry (to_short_name (name83 base ext)) attr c size) cl off
  = mkEntry (to_ascii_lowercase (name83 base ext)) (attr =? ATTR_DIRECTORY) c size cl off.
Proof.
  intros Hg Ha Hc Hz.
  destruct (raw_entry_fields (to_short_name (name83 base ext)) attr c size (short_len _ _ Hg) Hc Hz) as (_ & Hat & Hfc & Hsz).
  unfold entry_of. rewrite Hat, Hfc, Hsz. f_equal.
  - cbn [full_name]. unfold raw_entry. rewrite short_name_83 by done. apply lower_of_upper.
  - by destruct Ha as [->| ->].
Qed.

Lemma same_name_lower n e : name e = to_ascii_lowercase n -> same_name n e = true.
Proof. intros He. unfold same_name, eq_ignore_ascii_case. rewrite He, lower_idem. by apply bool_decide_true. Qed.

(** A directory entry survives the disk.  For a name of the 8.3 form, in
    any mix of cases, an attribute of a file or a directory, and any start and
    size of 32 bits, the 32 bytes the driver writes are read back by its scans
    as a named entry with the same kind, start and size, listed under the name
    in lower case and found under the name as given. *)
Theorem dir_entry_roundtrip base ext attr c size cl off :
  good_name base ext -> attr = 0x20 \/ attr = ATTR_DIRECTORY -> fits 32 c -> fits 32 size ->
  let raw := raw_entry (to_short_name (name83 base ext)) attr c size in
  let e := entry_of [] raw cl off in
  zlen raw = 32 /\ kind_of raw = Named /\
  e = mkEntry (to_ascii_lowercase (name83 base ext)) (attr =? ATTR_DIRECTORY) c size cl off /\
  same_name (name83 base ext) e = true.
Proof.
  intros Hg Ha Hc Hz raw e. assert (e = mkEntry (to_ascii_lowercase (name83 base ext)) (attr =? ATTR_DIRECTORY) c size cl off) as He.
  { by apply raw_entry_of. }
  split; [by apply raw_entry_fields; [apply short_len|..]|]. split; [by apply raw_named|]. split; [done|].
  apply same_name_lower. by rewrite He.
Qed.

Lemma dir_entry_roundtrip_witness :
  let raw := raw_entry (to_short_name (name83 [0x52; 0x65; 0x61; 0x64] [0x6D; 0x64])) 0x20 70000 12 in
  zlen raw = 32 /\ kind_of raw = Named /\
  entry_of [] raw 2 64 = mkEntry (to_ascii_lowercase (name83 [0x52; 0x65; 0x61; 0x64] [0x6D; 0x64])) false 70000 12 2 64 /\
  same_name (name83 [0x52; 0x65; 0x61; 0x64] [0x6D; 0x64]) (entry_of [] raw 2 64) = true.
Proof.
  apply (dir_entry_roundtrip [0x52; 0x65; 0x61; 0x64] [0x6D; 0x64] 0x20 70000 12 2 64); [|by left|done|done].
  split; [done|done|by repeat constructor|by repeat constructor].
Defined.

Section device.
Context {D : Type} {bd : BlockDevice D}.

(** Reading leaves the device alone. *)
Lemma read_cluster_same {E} bpb c d : snd (attempt (F:=E) (read_cluster bpb c) d) = d.
Proof.
  unfold attempt, read_cluster, mbind, M_bind, lift, read_into. destruct (cluster_to_sector bpb c); [|done..].
  destruct (_ <? _); [done|]. by destruct (read_sectors _ _ d).
Qed.

Lemma read_dir_same {E} bpb chain lfn d : snd (read_dir_clusters (E:=E) bpb chain lfn d) = d.
Proof.
  revert lfn. induction chain as [|c chain IH]; intros lfn; [done|]. cbn [read_dir_clusters].
  unfold mbind, M_bind, mret, M_ret. pose proof (read_cluster_same (E:=E) bpb c d) as Hs.
  destruct (attempt (read_cluster bpb c) d) as [[[buf|]| | |] d1]; try done. cbn in Hs. subst d1.
  destruct (scan_cluster _ c 0 buf lfn) as [[es l] []]; [done|]. specialize (IH l).
  by destruct (read_dir_clusters bpb chain l d) as [[]].
Qed.

Lemma find_scan_clusters {E} bpb n chain lfn es d d' :
  read_dir_clusters (E:=E) bpb chain lfn d = (Ok es, d') ->
  find_in_clusters (E:=E) bpb n chain lfn d = (Ok (first_named n es), d').
Proof.
  intros Hr. assert (d' = d) as -> by (pose proof (read_dir_same (E:=E) bpb chain lfn d) as Hs; by rewrite Hr in Hs).
  revert lfn es Hr. induction chain as [|c chain IH]; intros lfn es; cbn [read_dir_clusters find_in_clusters].
  { by intros [= <-]. }
  unfold mbind, M_bind, mret, M_ret. pose proof (read_cluster_same (E:=E) bpb c d) as Hs.
  destruct (attempt (read_cluster bpb c) d) as [[[buf|]|e| |] d1]; cbn in Hs; subst d1; [| |done..]; last first.
  { by intros [= <-]. }
  pose proof (find_scan_cluster (entries_per_cluster bpb) n c 0 buf lfn) as Hf.
  destruct (scan_cluster _ c 0 buf lfn) as [[es1 l1] stop]. destruct stop.
  - intros [= <-]. destruct (first_named n es1) as [p|]; by destruct Hf as [l ->].
  - pose proof (read_dir_same (E:=E) bpb chain l1 d) as Hs.
    destruct (read_dir_clusters bpb chain l1 d) as [[rest| | |] d2] eqn:Hrest; try done. cbn in Hs. subst d2. intros [= <-].
    rewrite first_named_app. destruct (first_named n es1) as [p|] eqn:Hn; [by destruct Hf as [l ->]|].
    rewrite Hf. by apply IH.
Qed.

(** The two directory scans of the driver agree: wherever listing a
    directory succeeds, looking a name up gives the place, start and size of
    the first listed entry of that name, in any mix of upper and lower case,
    and nothing when the list has none. *)
Theorem find_dir_entry_first {E} bpb c n es d d' :
  read_directory (E:=E) bpb c d = (Ok es, d') ->
  find_dir_entry (E:=E) bpb c n d = (Ok (first_named n es), d').
Proof.
  unfold read_directory, find_dir_entry, mbind, M_bind.
  destruct (collect_cluster_chain bpb c d) as [[chain| | |] d1]; try done. apply find_scan_clusters.
Qed.

End device.

(** ** Directories on disk *)

Section directory.
Context {D : Type} {bd : BlockDevice D} {ds : DiskSpec D} (bpb : Fat32Bpb).

Abbreviation bpc := (bytes_per_cluster bpb).
Abbreviation epc := (entries_per_cluster bpb).

(** The places of the slots of a chain, and the slots there. *)
Definition places (l : list Z) : list (Z * Z) := flat_map (fun c => map (fun i => (c, i * 32)) (seqZ 0 (Z.of_nat epc))) l.

Definition slot_at (d : D) (p : Z * Z) : Slot := mkAt (fst p) (snd p) (sub (snd p) 32 (data bpb d (fst p))).

Definition dir_slots (d : D) (l : list Z) : list Slot := map (slot_at d) (places l).

Lemma dir_slots_cons d c l : dir_slots d (c :: l) = cluster_slots epc 0 c (data bpb d c) ++ dir_slots d l.
Proof. unfold dir_slots, places. cbn [flat_map]. rewrite map_app. f_equal. rewrite map_map. done. Qed.

Lemma read_dir_clusters_ok {E} d l lfn :
  volume bpb d -> Forall (valid bpb) l ->
  read_dir_clusters (E:=E) bpb l lfn d = (Ok (fst (fst (scan (dir_slots d l) lfn))), d).
Proof.
  intros Hv. revert lfn. induction l as [|c l IH]; intros lfn Hva; cbn [read_dir_clusters]; [done|].
  apply Forall_cons in Hva as [Hc Hva]. unfold mbind, M_bind, mret, M_ret.
  rewrite (attempt_ok _ _ _ _ (read_cluster_ok bpb d c Hv Hc)).
  rewrite dir_slots_cons, scan_app. rewrite <-(scan_cluster_slots epc c 0). change (0 * 32) with 0.
  destruct (scan_cluster epc c 0 (data bpb d c) lfn) as [[es l1] []]; [done|]. rewrite IH by done.
  by destruct (scan (dir_slots d l) l1) as [[es' l2] st].
Qed.

Lemma read_directory_ok {E} d c l :
  volume bpb d -> chain_ok bpb d (c :: l) ->
  read_directory (E:=E) bpb c d = (Ok (entries (dir_slots d (c :: l))), d).
Proof.
  intros Hv Hch. unfold read_directory, mbind, M_bind. rewrite (collect_ok bpb d c l Hv Hch).
  apply read_dir_clusters_ok; [done|apply Hch].
Qed.

(** A slot without an entry. *)
Definition empty_slot (s : Slot) : Prop := byte_at 0 (at_raw s) = 0x00 \/ byte_at 0 (at_raw s) = 0xE5.

#[local] Instance empty_slot_dec s : Decision (empty_slot s).
Proof. unfold empty_slot. apply _. Defined.

Lemma epc_room d : volume bpb d -> Z.of_nat epc * 32 = bpc.
Proof.
  intros Hv. unfold entries_per_cluster. rewrite (cluster_size bpb d Hv). pose proof (vo_spc bpb d Hv).
  replace (sectors_per_cluster bpb * 512) with (sectors_per_cluster bpb * 16 * 32) by lia. rewrite Z.div_mul by lia. lia.
Qed.

Lemma byte_of_sub o buf : 0 <= o -> byte_at 0 (sub o 32 buf) = byte_at o buf.
Proof.
  intros Ho. unfold byte_at. rewrite sub_lookup, decide_True by lia. do 2 f_equal. lia.
Qed.

Lemma find_slot_ok n k c buf :
  0 <= k ->
  find_slot n (k * 32) buf =
  (fun s => (at_offset (snd s), byte_at 0 (at_raw (snd s)))) <$> list_find empty_slot (cluster_slots n k c buf).
Proof.
  revert k. induction n as [|n IH]; intros k Hk; [done|]. unfold cluster_slots. rewrite seqZ_cons by lia.
  replace (Z.succ k) with (k + 1) by lia. replace (Z.pred (Z.of_nat (S n))) with (Z.of_nat n) by lia.
  cbn [map list_find find_slot]. fold (cluster_slots n (k + 1) c buf).
  replace (k * 32 + 32) with ((k + 1) * 32) by lia. rewrite IH by lia.
  set (s := mkAt c (k * 32) (sub (k * 32) 32 buf)).
  assert (byte_at 0 (at_raw s) = byte_at (k * 32) buf) as Hb by (apply byte_of_sub; lia).
  destruct (decide (empty_slot s)) as [He|He]; unfold empty_slot in He; rewrite Hb in He.
  - replace ((byte_at (k * 32) buf =? 0x00) || (byte_at (k * 32) buf =? 0xE5)) with true by (destruct He as [->| ->]; done).
    by rewrite <-Hb.
  - destruct (Z.eqb_spec (byte_at (k * 32) buf) 0x00); [tauto|]. destruct (Z.eqb_spec (byte_at (k * 32) buf) 0xE5); [tauto|].
    cbn [orb]. by destruct (list_find empty_slot _) as [[]|].
Qed.

(** The buffer of the slot's cluster after the search: the byte behind the end
    mark is cleared. *)
Definition marked (o fb : Z) (buf : list Z) : list Z :=
  if (fb =? 0x00) && (o + 64 <=? bpc) then upd (o + 32) [0] buf else buf.

Lemma zlen_marked o fb buf : 0 <= o -> zlen buf = bpc -> zlen (marked o fb buf) = bpc.
Proof.
  intros Ho Hl. unfold marked. destruct (_ =? _); [|done]. cbn [andb]. destruct (Z.leb_spec (o + 64) bpc); [|done].
  rewrite zlen_upd; [done|lia|]. change (zlen [0]) with 1. lia.
Qed.

(** The slots of a cluster are at multiples of 32 below its size. *)
Lemma cluster_slot_in n c buf s : s ∈ cluster_slots n 0 c buf ->
  at_cluster s = c /\ 0 <= at_offset s /\ at_offset s + 32 <= Z.of_nat n * 32 /\ at_raw s = sub (at_offset s) 32 buf.
Proof.
  unfold cluster_slots. intros (i & -> & Hi)%list_elem_of_fmap. apply elem_of_seqZ in Hi. cbn [at_cluster at_offset at_raw].
  split; [done|]. split; [lia|]. split; [lia|done].
Qed.

Lemma dir_slot_loop_ok {E} d l last i s :
  fs_ok bpb d -> Forall (valid bpb) l -> list_find empty_slot (dir_slots d l) = Some (i, s) ->
  exists d', dir_slot_loop (E:=E) bpb l last d = (Ok (Some (mkSlot (at_cluster s) (at_offset s))), d') /\
    data bpb d' (at_cluster s) = marked (at_offset s) (byte_at 0 (at_raw s)) (data bpb d (at_cluster s)) /\
    same_but_cluster bpb (at_cluster s) d d'.
Proof.
  intros Hok. pose proof (fo_volume _ _ Hok) as Hv. revert last i. induction l as [|c l IH]; intros last i Hva Hf; [done|].
  apply Forall_cons in Hva as [Hc Hva]. cbn [dir_slot_loop]. unfold mbind, M_bind, mret, M_ret, lift.
  rewrite (attempt_ok _ _ _ _ (read_cluster_ok bpb d c Hv Hc)). rewrite dir_slots_cons in Hf.
  pose proof (find_slot_ok epc 0 c (data bpb d c) ltac:(lia)) as Hfs. change (0 * 32) with 0 in Hfs. rewrite Hfs.
  destruct (list_find empty_slot (cluster_slots epc 0 c (data bpb d c))) as [[j x]|] eqn:Hx; last first.
  { cbn. rewrite list_find_app_r in Hf by done.
    destruct (list_find empty_slot (dir_slots d l)) as [[j x]|] eqn:Hr; [|done]. injection Hf as <- <-. by apply (IH c j). }
  rewrite (list_find_app_l _ _ _ _ _ Hx) in Hf. injection Hf as <- <-.
  apply list_find_Some in Hx as (Hx & _ & _). apply list_elem_of_lookup_2, cluster_slot_in in Hx as (-> & Ho & Hoe & _).
  rewrite (epc_room d Hv) in Hoe. cbn [fmap option_fmap option_map snd].
  pose proof (zlen_data bpb d c Hv) as Hlen. unfold marked.
  destruct (_ =? 0x00); cbn [andb]; [destruct (Z.leb_spec (at_offset x + 64) bpc)|].
  2,3: exists d; split; [done|]; split; [done|]; by split.
  rewrite splice_ok by (rewrite ?Hlen; change (zlen [0]) with 1; lia).
  destruct (write_cluster_ok bpb d c (upd (at_offset x + 32) [0] (data bpb d c))) as (d' & Hw & Hd & Hs);
    [done|done|rewrite zlen_upd; [done|lia|rewrite Hlen; change (zlen [0]) with 1; lia]
    |apply upd_bytes; [by repeat constructor|apply data_bytes]|].
  rewrite (attempt_ok _ _ _ _ Hw). by exists d'.
Qed.

Lemma write_dir_entry_ok d c o short attr fc size :
  fs_ok bpb d -> valid bpb c -> 0 <= o -> o + 32 <= bpc -> zlen short = 11 -> Forall is_byte short -> is_byte attr ->
  fits 32 fc -> fits 32 size ->
  exists d', write_dir_entry bpb (mkSlot c o) short attr fc size d = (Ok tt, d') /\
    data bpb d' c = upd o (raw_entry short attr fc size) (data bpb d c) /\ same_but_cluster bpb c d d'.
Proof.
  intros Hok Hc Ho Hl Hs Hsb Hab Hfc Hsz. pose proof (fo_volume _ _ Hok) as Hv.
  destruct (raw_entry_fields short attr fc size Hs Hfc Hsz) as (Hr & _). pose proof (zlen_data bpb d c Hv) as Hlen.
  unfold write_dir_entry, patch_entry, mbind, M_bind, map_err, lift. cbn [slot_cluster slot_offset].
  rewrite (read_cluster_ok bpb d c Hv Hc), splice_ok by lia.
  destruct (write_cluster_ok bpb d c (upd o (raw_entry short attr fc size) (data bpb d c))) as (d' & Hw & Hd & Hsame);
    [done|done|rewrite zlen_upd; lia| |].
  { apply upd_bytes; [|apply data_bytes]. unfold raw_entry. rewrite !Forall_app. split; [done|].
    split; [constructor; [done|by repeat constructor]|]. repeat (split; [apply le_bytes_bytes|]). apply le_bytes_bytes. }
  rewrite Hw. by exists d'.
Qed.

(** ** The slots after an entry was written *)

Lemma place_in l p : p ∈ places l ->
  fst p ∈ l /\ exists k, snd p = k * 32 /\ 0 <= k < Z.of_nat epc.
Proof.
  unfold places. intros Hp. apply list_elem_of_In, in_flat_map in Hp as (c & Hc & Hp). apply in_map_iff in Hp as (k & <- & Hk).
  apply list_elem_of_In in Hc, Hk. apply elem_of_seqZ in Hk. split; [done|]. exists k. cbn. lia.
Qed.

Lemma places_nodup l : NoDup l -> NoDup (places l).
Proof.
  induction 1 as [|c l Hc _ IH]; [constructor|]. cbn. apply NoDup_app. split; [|split; [|done]].
  - apply NoDup_fmap_2; [|apply NoDup_seqZ]. intros i j [= He]. lia.
  - intros p (k & -> & _)%list_elem_of_fmap [Hin _]%place_in. done.
Qed.

Lemma places_next l j c o :
  places l !! j = Some (c, o) -> o + 64 <= Z.of_nat epc * 32 -> places l !! S j = Some (c, o + 32).
Proof.
  revert j. induction l as [|c0 l IH]; intros j Hj Ho; [done|]. unfold places in *. cbn [flat_map] in *.
  set (A := map _ _) in *. assert (length A = epc) as Hlen by (unfold A; rewrite length_map, length_seqZ; lia).
  destruct (decide (j < epc)%nat) as [Hl|Hl].
  - rewrite lookup_app_l in Hj by lia. unfold A in Hj. apply list_lookup_fmap_Some in Hj as (k & [= -> ->] & Hk).
    apply lookup_seqZ in Hk as [-> Hk]. rewrite lookup_app_l by lia. unfold A. rewrite list_lookup_fmap.
    rewrite (proj2 (lookup_seqZ 0 (Z.of_nat epc) (S j) (0 + Z.of_nat j + 1))) by lia. cbn. do 2 f_equal. lia.
  - rewrite lookup_app_r in Hj by lia. rewrite lookup_app_r by lia.
    replace (S j - length A)%nat with (S (j - length A)) by lia. by apply IH.
Qed.

(** A place other than the one written, and not behind an end mark. *)
Lemma slot_other d d' l c o fb raw p :
  volume bpb d -> Forall (valid bpb) l -> (c, o) ∈ places l -> zlen raw = 32 ->
  data bpb d' c = upd o raw (marked o fb (data bpb d c)) ->
  (forall x, valid bpb x -> x <> c -> data bpb d' x = data bpb d x) ->
  p ∈ places l -> p <> (c, o) -> p <> (c, o + 32) \/ marked o fb (data bpb d c) = data bpb d c ->
  slot_at d' p = slot_at d p.
Proof.
  intros Hv Hva Hin Hr Hd Ho Hp Hne Hne2. pose proof (epc_room d Hv) as Hepc.
  destruct (place_in l _ Hin) as (_ & k & Hk & Hkr). destruct p as [x oo].
  destruct (place_in l _ Hp) as (Hx & j & Hj & Hjr). cbn in Hx, Hj, Hk. unfold slot_at. cbn [fst snd].
  pose proof (zlen_data bpb d c Hv) as Hlen. pose proof (zlen_marked o fb (data bpb d c) ltac:(lia) Hlen) as Hml.
  f_equal. destruct (decide (x = c)) as [->|Hxc]; [|rewrite Forall_forall in Hva; by rewrite Ho by auto].
  assert (j <> k) by (intros ->; apply Hne; congruence). rewrite Hd, sub_upd_other by lia.
  destruct Hne2 as [Hne2| ->]; [|done]. assert (j <> k + 1) by (intros ->; apply Hne2; f_equal; lia).
  unfold marked. destruct (_ && (o + 64 <=? bpc)) eqn:Hm; [|done]. apply sub_upd_other; change (zlen [0]) with 1; lia.
Qed.

(** What the search and the write do to the slots: the entry is put in its
    place; the next one, behind an end mark, becomes the end mark. *)
Lemma slots_after d d' l i c o fb raw :
  volume bpb d -> NoDup l -> Forall (valid bpb) l -> places l !! i = Some (c, o) -> zlen raw = 32 ->
  data bpb d' c = upd o raw (marked o fb (data bpb d c)) ->
  (forall x, valid bpb x -> x <> c -> data bpb d' x = data bpb d x) ->
  exists rest, dir_slots d' l = take i (dir_slots d l) ++ mkAt c o raw :: rest /\
    (rest = drop (S i) (dir_slots d l) /\ ~ (fb = 0 /\ o + 64 <= bpc) \/
     fb = 0 /\ exists s q, rest = s :: q /\ byte_at 0 (at_raw s) = 0).
Proof.
  intros Hv Hnd Hva Hi Hr Hd Ho. pose proof (epc_room d Hv) as Hepc. pose proof (places_nodup l Hnd) as Hpn.
  pose proof (list_elem_of_lookup_2 _ _ _ Hi) as Hin. destruct (place_in l (c, o) Hin) as (_ & k & Hk & Hkr). cbn in Hk.
  pose proof (zlen_data bpb d c Hv) as Hlen. pose proof (zlen_marked o fb (data bpb d c) ltac:(lia) Hlen) as Hml.
  assert (places l = take i (places l) ++ (c, o) :: drop (S i) (places l)) as Hsp by (symmetry; by apply take_drop_middle).
  pose proof Hpn as Hpn'. rewrite Hsp in Hpn'. apply NoDup_app in Hpn' as (_ & Hn1 & [Hn2 _]%NoDup_cons).
  assert (forall p, p ∈ take i (places l) \/ p ∈ drop (S i) (places l) -> p ∈ places l /\ p <> (c, o)) as Hne.
  { intros p Hp. split; [rewrite Hsp; set_solver|]. intros ->. destruct Hp as [Hp|Hp]; [|done]. apply (Hn1 _ Hp). left. }
  assert (slot_at d' (c, o) = mkAt c o raw) as Hnew.
  { unfold slot_at. cbn [fst snd]. f_equal. rewrite Hd, <-Hr. apply sub_upd_same; lia. }
  assert (forall ps, (forall p, p ∈ ps -> slot_at d' p = slot_at d p) -> map (slot_at d') ps = map (slot_at d) ps) as Hmap.
  { intros ps Hps. apply map_ext_in. intros p Hp%list_elem_of_In. by apply Hps. }
  assert (dir_slots d' l = map (slot_at d') (take i (places l)) ++ mkAt c o raw :: map (slot_at d') (drop (S i) (places l))) as Hds.
  { unfold dir_slots. rewrite Hsp at 1. rewrite map_app. cbn [map]. by rewrite Hnew. }
  exists (map (slot_at d') (drop (S i) (places l))). rewrite Hds. unfold dir_slots. rewrite <-fmap_take, <-fmap_drop.
  destruct (decide (fb = 0 /\ o + 64 <= bpc)) as [[-> Hroom]|Hno].
  - pose proof (places_next l i c o Hi ltac:(lia)) as Hnext. pose proof (drop_S _ _ _ Hnext) as Hdr. split.
    + f_equal. apply Hmap. intros p Hp. destruct (Hne p) as [Hpin Hpo]; [by left|]. apply (slot_other d d' l c o 0 raw); try done.
      left. intros ->. apply (Hn1 _ Hp). right. rewrite Hdr. left.
    + right. split; [done|]. rewrite Hdr. cbn [map]. do 2 eexists. split; [done|]. unfold slot_at. cbn [fst snd at_raw].
      rewrite byte_of_sub by lia. rewrite Hd. unfold byte_at. rewrite upd_lookup, decide_False by lia. unfold marked.
      rewrite (proj2 (Z.leb_le _ _) Hroom). cbn [Z.eqb andb]. rewrite upd_lookup by (change (zlen [0]) with 1; lia).
      change (zlen [0]) with 1. rewrite decide_True by lia. replace (Z.to_nat (o + 32) - Z.to_nat (o + 32))%nat with 0%nat by lia. done.
  - assert (marked o fb (data bpb d c) = data bpb d c) as Hmk.
    { unfold marked. destruct (Z.eqb_spec fb 0), (Z.leb_spec (o + 64) bpc); cbn [andb]; try done. destruct Hno. lia. }
    split; [f_equal|left; split; [|done]]; apply Hmap; intros p Hp; destruct (Hne p) as [Hpin Hpo]; try (by left); try (by right);
      apply (slot_other d d' l c o fb raw); try done; by right.
Qed.

Lemma kind_end raw : byte_at 0 raw = 0 -> kind_of raw = End.
Proof. intros H. unfold kind_of. by rewrite H. Qed.

Lemma kind_deleted raw : byte_at 0 raw = 0xE5 -> kind_of raw = Deleted.
Proof. intros H. unfold kind_of. by rewrite H. Qed.

Lemma scan_no_end ss lfn : Forall (fun s => ~ empty_slot s) ss -> snd (scan ss lfn) = false.
Proof.
  intros Hs. revert lfn. induction Hs as [|s ss Hn _ IH]; intros lfn; [done|]. cbn [scan].
  destruct (kind_of (at_raw s)) eqn:Hk; try apply IH.
  - exfalso. apply Hn. left. unfold kind_of in Hk.
    destruct (Z.eqb_spec (byte_at 0 (at_raw s)) 0); [done|]. by repeat case_match.
  - specialize (IH []). by destruct (scan ss []) as [[es l] st].
Qed.

(** No long name is waiting for its entry where [ss] ends. *)
Definition nothing_pending (ss : list Slot) : Prop := snd (fst (scan ss [])) = [].

(** Filling an empty slot adds its entry to the list, between the entries
    before and behind it. *)
Lemma scan_fill pre s post new rest :
  Forall (fun s => ~ empty_slot s) pre -> nothing_pending pre -> empty_slot s -> kind_of (at_raw new) = Named ->
  rest = post /\ (byte_at 0 (at_raw s) = 0 -> entries post = []) \/
  byte_at 0 (at_raw s) = 0 /\ (exists x q, rest = x :: q /\ byte_at 0 (at_raw x) = 0) ->
  exists es1 es2, entries (pre ++ s :: post) = es1 ++ es2 /\
    entries (pre ++ new :: rest) = es1 ++ entry_of [] (at_raw new) (at_cluster new) (at_offset new) :: es2.
Proof.
  intros Hpre Hpend Hs Hn Hrest. unfold entries, nothing_pending in *. rewrite !scan_app. pose proof (scan_no_end pre [] Hpre) as Hst.
  destruct (scan pre []) as [[es1 l1] st]. cbn in Hst, Hpend. subst st l1. cbn [scan]. rewrite Hn.
  exists es1. destruct Hs as [Hs|Hs]; [rewrite (kind_end _ Hs)|rewrite (kind_deleted _ Hs)].
  - exists []. split; [done|]. destruct Hrest as [[-> He]|[_ (x & q & -> & Hx)]].
    + specialize (He Hs). destruct (scan post []) as [[es l] st]. cbn in He |- *. by subst es.
    + cbn [scan]. by rewrite (kind_end _ Hx).
  - destruct Hrest as [[-> _]|[He _]]; [|congruence]. exists (fst (fst (scan post []))).
    by destruct (scan post []) as [[es l] st].
Qed.

Lemma short_bytes base ext : good_name base ext -> Forall is_byte (to_short_name (name83 base ext)).
Proof.
  intros Hg. rewrite short_of_83 by done. destruct Hg as [_ _ Hb He].
  apply Forall_app; split; (eapply Forall_impl; [apply pad_ascii, upper_chars; done|]); unfold is_byte; cbn; lia.
Qed.

(** The slot is found and the entry written into it. *)
Lemma add_entry d p t i s base ext attr fc size :
  fs_ok bpb d -> chain_ok bpb d (p :: t) -> good_name base ext -> attr = 0x20 \/ attr = ATTR_DIRECTORY -> fits 32 fc -> fits 32 size ->
  list_find empty_slot (dir_slots d (p :: t)) = Some (i, s) ->
  nothing_pending (take i (dir_slots d (p :: t))) ->
  (byte_at 0 (at_raw s) = 0 -> bpc < at_offset s + 64 -> entries (drop (S i) (dir_slots d (p :: t))) = []) ->
  exists d1 d2 es1 es2,
    find_or_allocate_dir_slot (E:=string) bpb p d = (Ok (Some (mkSlot (at_cluster s) (at_offset s))), d1) /\
    write_dir_entry bpb (mkSlot (at_cluster s) (at_offset s)) (to_short_name (name83 base ext)) attr fc size d1 = (Ok tt, d2) /\
    fs_ok bpb d2 /\ entries (dir_slots d (p :: t)) = es1 ++ es2 /\
    entries (dir_slots d2 (p :: t)) = es1 ++ mkEntry (to_ascii_lowercase (name83 base ext)) (attr =? ATTR_DIRECTORY) fc size
      (at_cluster s) (at_offset s) :: es2 /\
    (forall x, fat bpb d2 x = fat bpb d x) /\ (forall x, valid bpb x -> x <> at_cluster s -> data bpb d2 x = data bpb d x).
Proof.
  intros Hok Hch Hg Ha Hfc Hsz Hf Hpend Hlast. pose proof (fo_volume _ _ Hok) as Hv. pose proof (epc_room d Hv) as Hepc.
  set (l := p :: t) in *. set (raw := raw_entry (to_short_name (name83 base ext)) attr fc size).
  destruct (dir_slot_loop_ok (E:=string) d l p i s Hok (ch_valid _ _ _ Hch) Hf) as (d1 & Hs1 & Hd1 & _ & Hok1 & Hf1 & Ho1).
  apply list_find_Some in Hf as (Hi & Hem & Hpre).
  unfold dir_slots in Hi. rewrite list_lookup_fmap in Hi. destruct (places l !! i) as [[c o]|] eqn:Hpl; [|done]. injection Hi as <-.
  cbn [at_cluster at_offset slot_at fst snd] in *.
  destruct (place_in l (c, o)) as (Hcl & k & Hk & Hkr); [by apply list_elem_of_lookup_2 in Hpl|]. cbn in Hcl, Hk.
  assert (valid bpb c) as Hc by (pose proof (ch_valid _ _ _ Hch) as Hva; rewrite Forall_forall in Hva; by apply Hva).
  destruct (write_dir_entry_ok d1 c o (to_short_name (name83 base ext)) attr fc size) as (d2 & Hw & Hd2 & _ & Hok2 & Hf2 & Ho2);
    [by apply Hok1|done|lia|lia|by apply short_len|by apply short_bytes|by destruct Ha as [->| ->]|done|done|].
  rewrite Hd1 in Hd2. exists d1, d2.
  assert (forall x, valid bpb x -> x <> c -> data bpb d2 x = data bpb d x) as Hdo by (intros x Hx Hne; by rewrite Ho2, Ho1).
  destruct (slots_after d d2 l i c o _ raw Hv (ch_nodup _ _ _ Hch) (ch_valid _ _ _ Hch) Hpl
    ltac:(by apply raw_entry_fields; [apply short_len|..]) Hd2 Hdo) as (rest & Hslots & Hrest).
  set (ss := dir_slots d l) in *.
  assert (ss = take i ss ++ slot_at d (c, o) :: drop (S i) ss) as Hsp.
  { symmetry. apply take_drop_middle. unfold ss, dir_slots. by rewrite list_lookup_fmap, Hpl. }
  destruct (scan_fill (take i ss) (slot_at d (c, o)) (drop (S i) ss) (mkAt c o raw) rest) as (es1 & es2 & E1 & E2).
  - apply Forall_forall. intros x (j & Hj)%list_elem_of_lookup. apply lookup_take_Some in Hj as [Hj Hlt]. by apply (Hpre j).
  - done.
  - done.
  - by apply raw_named.
  - destruct Hrest as [[-> Hno]|[Hz Hx]]; [left|right; done]. split; [done|]. intros Hz. apply Hlast; [done|].
    destruct (decide (bpc < o + 64)); [done|]. destruct Hno. split; [done|lia].
  - exists es1, es2. split; [|split; [done|split; [by apply Hok2, Hok1|split; [by rewrite Hsp|split; [|split; [|done]]]]]].
    + unfold find_or_allocate_dir_slot, mbind, M_bind. rewrite (collect_ok bpb d p t Hv Hch). exact Hs1.
    + rewrite Hslots, E2. cbn [at_raw at_cluster at_offset]. unfold raw. by rewrite raw_entry_of.
    + intros x. by rewrite Hf2, Hf1.
Qed.

(** The first entry of a name that only the new entry has. *)
Lemma first_named_new n es1 e es2 :
  existsb (same_name n) (es1 ++ es2) = false -> same_name n e = true -> first_named n (es1 ++ e :: es2) = Some (place e).
Proof.
  rewrite existsb_app. intros [H1 _]%orb_false_iff He. rewrite first_named_app, first_named_cons, He.
  replace (first_named n es1) with (@None (Z * Z * Z * Z)); [done|]. symmetry.
  induction es1 as [|x es1 IH]; [done|]. cbn in H1. apply orb_false_iff in H1 as [Hx H1].
  rewrite first_named_cons, Hx. by apply IH.
Qed.

(** Creating a file adds one entry to its directory and changes nothing
    else.  For a path whose directory is known, a leaf of the 8.3 form that the
    directory does not have, and a directory with an empty slot behind no
    unfinished long name: the call returns a handle of an empty file at that
    slot; listing the directory gives the old entries, in their order, with the
    new one, empty and under the name in lower case, among them; looking the
    name up finds it; the table and all other clusters are as before. *)
Theorem create_adds_entry fs path d p t i s base ext :
  fs_ok bpb d -> chain_ok bpb d (p :: t) -> fs_bpb fs = bpb ->
  resolve_parent_dir fs path d = (Ok (p, name83 base ext), d) -> good_name base ext ->
  existsb (same_name (name83 base ext)) (entries (dir_slots d (p :: t))) = false ->
  list_find empty_slot (dir_slots d (p :: t)) = Some (i, s) ->
  nothing_pending (take i (dir_slots d (p :: t))) ->
  (byte_at 0 (at_raw s) = 0 -> bpc < at_offset s + 64 -> entries (drop (S i) (dir_slots d (p :: t))) = []) ->
  exists d' es1 es2,
    create_file_on_disk (Some fs) path d = (Ok (mkFile 0 0 bpb (at_cluster s) (at_offset s)), d') /\ fs_ok bpb d' /\
    read_directory (E:=string) bpb p d = (Ok (es1 ++ es2), d) /\
    read_directory (E:=string) bpb p d' =
      (Ok (es1 ++ mkEntry (to_ascii_lowercase (name83 base ext)) false 0 0 (at_cluster s) (at_offset s) :: es2), d') /\
    find_dir_entry (E:=string) bpb p (name83 base ext) d' = (Ok (Some (at_cluster s, at_offset s, 0, 0)), d') /\
    (forall x, fat bpb d' x = fat bpb d x) /\ (forall x, valid bpb x -> x <> at_cluster s -> data bpb d' x = data bpb d x).
Proof.
  intros Hok Hch Hb Hres Hg Hno Hf Hpend Hlast. pose proof (fo_volume _ _ Hok) as Hv.
  destruct (add_entry d p t i s base ext 0x20 0 0) as (d1 & d2 & es1 & es2 & Hs & Hw & Hok2 & E1 & E2 & Hfat & Hdat);
    [done|done|done|by left|done|done|done|done|done|].
  pose proof (fo_volume _ _ Hok2) as Hv2.
  assert (chain_ok bpb d2 (p :: t)) as Hch2 by (apply (chain_kept bpb d); [done|intros x _; apply Hfat]).
  assert (read_directory (E:=string) bpb p d2 =
    (Ok (es1 ++ mkEntry (to_ascii_lowercase (name83 base ext)) false 0 0 (at_cluster s) (at_offset s) :: es2), d2)) as Hr2.
  { by rewrite (read_directory_ok d2 p t Hv2 Hch2), E2. }
  exists d2, es1, es2. split; [|split; [done|split; [by rewrite (read_directory_ok d p t Hv Hch), E1|split; [done|split; [|done]]]]].
  - unfold create_file_on_disk, mounted, ok_or, mbind, M_bind, mret, M_ret, map_err. rewrite Hres, Hb.
    rewrite (read_directory_ok d p t Hv Hch), Hno, Hs. cbn [slot_cluster slot_offset]. by rewrite Hw.
  - unfold find_dir_entry, read_directory, mbind, M_bind in *. rewrite (collect_ok bpb d2 p t Hv2 Hch2) in *.
    rewrite (find_scan_clusters _ _ _ _ _ _ _ Hr2). rewrite first_named_new; [done|by rewrite <-E1|by apply same_name_lower].
Qed.

End directory.

Lemma find_dir_entry_first_witness :
  find_dir_entry (E:=string) demo_bpb 2 [0x42] demo_disk
  = (Ok (first_named [0x42] (entries (dir_slots demo_bpb demo_disk [2]))), demo_disk).
Proof.
  apply (find_dir_entry_first demo_bpb 2 [0x42]). apply read_directory_ok; [apply demo_volume|].
  split; [by vm_compute|by repeat constructor|apply NoDup_singleton|apply (bool_decide_unpack _); by vm_compute].
Defined.

(** ** Examples *)

Definition demo_fs : Fat32Fs := mkFs demo_bpb "/fat".

Lemma demo_root_ok : chain_ok demo_bpb demo_disk [2].
Proof. split; [by vm_compute|by repeat constructor|apply NoDup_singleton|apply (bool_decide_unpack _); by vm_compute]. Qed.

Lemma create_adds_entry_witness : exists d' es1 es2,
  create_file_on_disk (Some demo_fs) "/fat/C" demo_disk = (Ok (mkFile 0 0 demo_bpb 2 64), d') /\
  read_directory (E:=string) demo_bpb 2 d' =
    (Ok (es1 ++ mkEntry (to_ascii_lowercase (name83 [0x43] [])) false 0 0 2 64 :: es2), d').
Proof.
  destruct (create_adds_entry demo_bpb demo_fs "/fat/C" demo_disk 2 [] 2 (slot_at demo_bpb demo_disk (2, 64)) [0x43] [])
    as (d' & es1 & es2 & Hc & _ & _ & Hr & _).
  - apply demo_fs_ok.
  - apply demo_root_ok.
  - done.
  - vm_compute. reflexivity.
  - split; [done|done|by repeat constructor|constructor].
  - vm_compute. reflexivity.
  - vm_compute. reflexivity.
  - vm_compute. reflexivity.
  - vm_compute. discriminate.
  - exists d', es1, es2. exact (conj Hc Hr).
Defined.

(** A file with a long name: its long-name entry, then its short one. *)
Definition long_entry : list Z :=
  [0x41] ++ flat_map (le_bytes 2) [0x6C; 0x6F; 0x6E; 0x67; 0x6E] ++ [ATTR_LFN; 0; 0] ++
  flat_map (le_bytes 2) [0x61; 0x6D; 0x65; 0; 0xFFFF; 0xFFFF] ++ [0; 0] ++ flat_map (le_bytes 2) [0xFFFF; 0xFFFF].

Definition long_disk : MemDisk :=
  mkDisk (fun k => if k =? 3 then long_entry ++ raw_entry (to_short_name [0x6C; 0x6E]) 0x20 3 600
                   else contents_of demo_disk k) 129.

Definition listing (d : MemDisk) : res string (list (list Z)) :=
  es ← fst (read_directory (E:=string) demo_bpb 2 d); Ok (map name es).

Definition long_name : list Z := [0x6C; 0x6F; 0x6E; 0x67; 0x6E; 0x61; 0x6D; 0x65].

(** Removing the file leaves the long-name entry behind, and a file created
    after it appears under the old long name; so does a renamed file. *)
Lemma long_name_outlives_file :
  listing long_disk = Ok [long_name] /\
  (let d1 := snd (unlink_on_disk (Some demo_fs) "/fat/longname" long_disk) in
   let d2 := snd (create_file_on_disk (Some demo_fs) "/fat/b" d1) in
   listing d1 = Ok [] /\ listing d2 = Ok [long_name]) /\
  listing (snd (rename_on_disk (Some demo_fs) "/fat/longname" "/fat/b" long_disk)) = Ok [long_name].
Proof. split; [|split; [split|]]; vm_compute; reflexivity. Qed.

(** After [rmdir_on_disk], [unlink_on_disk] has nothing to remove: the VFS
    calls both. *)
Lemma unlink_after_rmdir_fails :
  let d1 := snd (mkdir_on_disk (Some demo_fs) "/fat/d" demo_disk) in
  let d2 := snd (rmdir_on_disk (Some demo_fs) "/fat/d" d1) in
  fst (rmdir_on_disk (Some demo_fs) "/fat/d" d1) = Ok tt /\
  fst (unlink_on_disk (Some demo_fs) "/fat/d" d2) = Err "File not found"%string.
Proof. split; vm_compute; reflexivity. Qed.

(** Names that differ only behind the eighth character have one short name. *)
Lemma short_names_collide :
  to_short_name (Path.bytes_of "document1.txt") = to_short_name (Path.bytes_of "document2.txt").
Proof. reflexivity. Qed.

End Fat32Dir.
