(* ===== verification/RmmArch.v ===== *)
(** * Page-table formats

    Models the architecture interface of the memory-manager crate
    [third_party/rmm]: the constants of [arch/mod.rs] and of the 64-bit
    architectures that implement it, page-table entries ([page/entry.rs]) and
    page flags ([page/flags.rs]), and the accesses to memory and to the
    page-table registers.  The registers are a pair of words, the second one
    used only where the kernel has a table of its own; cache and TLB
    invalidation has no effect on them. *)

From S2P Require Import Prelude Bytes.

Module RmmArch.

(** ** The interface *)

Inductive TableKind := User | Kernel.

#[global] Instance TableKind_eq_dec : EqDecision TableKind.
Proof. solve_decision. Defined.

Class Arch := {
  KERNEL_SEPARATE_TABLE : bool;
  PAGE_SHIFT : Z;
  PAGE_ENTRY_SHIFT : Z;
  PAGE_LEVELS : Z;
  ENTRY_ADDRESS_WIDTH : Z;
  ENTRY_ADDRESS_SHIFT : Z;
  ENTRY_FLAG_DEFAULT_PAGE : Z;
  ENTRY_FLAG_DEFAULT_TABLE : Z;
  ENTRY_FLAG_PRESENT : Z;
  ENTRY_FLAG_READONLY : Z;
  ENTRY_FLAG_READWRITE : Z;
  ENTRY_FLAG_PAGE_USER : Z;
  ENTRY_FLAG_TABLE_USER : Z;
  ENTRY_FLAG_NO_EXEC : Z;
  ENTRY_FLAG_EXEC : Z;
  ENTRY_FLAG_GLOBAL : Z;
  ENTRY_FLAG_NO_GLOBAL : Z;
  ENTRY_FLAG_DEVICE_MEMORY : Z;
  ENTRY_FLAG_UNCACHEABLE : Z;
  ENTRY_FLAG_WRITE_COMBINING : Z;
  PHYS_OFFSET : Z;
  table_of : TableKind -> Z * Z -> Z;
  with_table : TableKind -> Z -> Z * Z -> Z * Z;
  virt_is_valid : Z -> bool
}.

(** [!x] on [usize]. *)
Definition not_usize (x : Z) : Z := wrap 64 (Z.lnot x).

Section constants.
Context {A : Arch}.

Definition PAGE_SIZE : Z := Z.shiftl 1 PAGE_SHIFT.
Definition PAGE_OFFSET_MASK : Z := PAGE_SIZE - 1.
Definition PAGE_ADDRESS_SHIFT : Z := PAGE_LEVELS * PAGE_ENTRY_SHIFT + PAGE_SHIFT.
Definition PAGE_ADDRESS_SIZE : Z := Z.shiftl 1 PAGE_ADDRESS_SHIFT.
Definition PAGE_ADDRESS_MASK : Z := PAGE_ADDRESS_SIZE - PAGE_SIZE.
Definition PAGE_ENTRY_SIZE : Z := Z.shiftl 1 (PAGE_SHIFT - PAGE_ENTRY_SHIFT).
Definition PAGE_ENTRIES : Z := Z.shiftl 1 PAGE_ENTRY_SHIFT.
Definition PAGE_ENTRY_MASK : Z := PAGE_ENTRIES - 1.
Definition PAGE_NEGATIVE_MASK : Z := not_usize (PAGE_ADDRESS_SIZE - 1).
Definition ENTRY_ADDRESS_SIZE : Z := Z.shiftl 1 ENTRY_ADDRESS_WIDTH.
Definition ENTRY_ADDRESS_MASK : Z := ENTRY_ADDRESS_SIZE - 1.
Definition ENTRY_FLAGS_MASK : Z := not_usize (Z.shiftl ENTRY_ADDRESS_MASK ENTRY_ADDRESS_SHIFT).

End constants.

(** ** The architectures *)

Definition PAT_UC_ : Z := 16.
Definition PAT_WC : Z := 128.

Definition X8664Arch : Arch := {|
  KERNEL_SEPARATE_TABLE := false;
  PAGE_SHIFT := 12;
  PAGE_ENTRY_SHIFT := 9;
  PAGE_LEVELS := 4;
  ENTRY_ADDRESS_WIDTH := 40;
  ENTRY_ADDRESS_SHIFT := 12;
  ENTRY_FLAG_PRESENT := Z.shiftl 1 0;
  ENTRY_FLAG_DEFAULT_PAGE := Z.shiftl 1 0;
  ENTRY_FLAG_DEFAULT_TABLE := Z.lor (Z.shiftl 1 0) (Z.shiftl 1 1);
  ENTRY_FLAG_READONLY := 0;
  ENTRY_FLAG_READWRITE := Z.shiftl 1 1;
  ENTRY_FLAG_PAGE_USER := Z.shiftl 1 2;
  ENTRY_FLAG_TABLE_USER := Z.shiftl 1 2;
  ENTRY_FLAG_GLOBAL := Z.shiftl 1 8;
  ENTRY_FLAG_NO_GLOBAL := 0;
  ENTRY_FLAG_NO_EXEC := Z.shiftl 1 63;
  ENTRY_FLAG_EXEC := 0;
  ENTRY_FLAG_DEVICE_MEMORY := PAT_UC_;
  ENTRY_FLAG_UNCACHEABLE := PAT_UC_;
  ENTRY_FLAG_WRITE_COMBINING := PAT_WC;
  PHYS_OFFSET := 0xFFFF_0000_0000_0000 + Z.shiftr (Z.shiftl 1 48) 1;
  table_of := fun _ r => fst r;
  with_table := fun _ a r => (a, snd r);
  virt_is_valid := fun a =>
    let masked := Z.land a 0xFFFF_8000_0000_0000 in
    (masked =? 0xFFFF_8000_0000_0000) || (masked =? 0)
|}.

Definition MEM_ATTR_NC : Z := 1.
Definition MEM_ATTR_DEVICE_nGnRnE : Z := 2.

Definition AArch64Arch : Arch := {|
  KERNEL_SEPARATE_TABLE := true;
  PAGE_SHIFT := 12;
  PAGE_ENTRY_SHIFT := 9;
  PAGE_LEVELS := 4;
  ENTRY_ADDRESS_WIDTH := 40;
  ENTRY_ADDRESS_SHIFT := 12;
  ENTRY_FLAG_PRESENT := Z.shiftl 1 0;
  ENTRY_FLAG_DEFAULT_PAGE := Z.lor (Z.lor (Z.lor (Z.shiftl 1 0) (Z.shiftl 1 1)) (Z.shiftl 1 10)) (Z.shiftl 1 11);
  ENTRY_FLAG_DEFAULT_TABLE := Z.lor (Z.lor (Z.lor (Z.shiftl 1 0) 0) (Z.shiftl 1 1)) (Z.shiftl 1 10);
  ENTRY_FLAG_READONLY := Z.shiftl 1 7;
  ENTRY_FLAG_READWRITE := 0;
  ENTRY_FLAG_PAGE_USER := Z.shiftl 1 6;
  ENTRY_FLAG_TABLE_USER := Z.shiftl 1 6;
  ENTRY_FLAG_NO_EXEC := Z.shiftl 3 53;
  ENTRY_FLAG_EXEC := 0;
  ENTRY_FLAG_GLOBAL := 0;
  ENTRY_FLAG_NO_GLOBAL := Z.shiftl 1 11;
  ENTRY_FLAG_DEVICE_MEMORY := Z.shiftl MEM_ATTR_DEVICE_nGnRnE 2;
  ENTRY_FLAG_UNCACHEABLE := Z.shiftl MEM_ATTR_NC 2;
  ENTRY_FLAG_WRITE_COMBINING := Z.shiftl MEM_ATTR_NC 2;
  PHYS_OFFSET := 0xFFFF_8000_0000_0000;
  table_of := fun kind r => match kind with User => fst r | Kernel => snd r end;
  with_table := fun kind a r => match kind with User => (a, snd r) | Kernel => (fst r, a) end;
  virt_is_valid := fun _ => true
|}.

Definition ACCESSED : Z := Z.shiftl 1 6.
Definition DIRTY : Z := Z.shiftl 1 7.

(** What the three RISC-V formats share: the root table goes to [satp] as a
    page number under the mode. *)
Definition satp_table (r : Z * Z) : Z := wrap 64 (Z.shiftl (Z.land (fst r) (Z.shiftl 1 44 - 1)) 12).
Definition satp_value (mode a : Z) : Z := Z.lor (wrap 64 (Z.shiftl mode 60)) (Z.shiftr a 12).
Definition sign_extended (address_size a : Z) : bool :=
  let mask := not_usize (Z.shiftr (address_size - 1) 1) in
  let masked := Z.land a mask in
  (masked =? mask) || (masked =? 0).

Definition RiscV64Sv39Arch : Arch := {|
  KERNEL_SEPARATE_TABLE := false;
  PAGE_SHIFT := 12;
  PAGE_ENTRY_SHIFT := 9;
  PAGE_LEVELS := 3;
  ENTRY_ADDRESS_WIDTH := 44;
  ENTRY_ADDRESS_SHIFT := 10;
  ENTRY_FLAG_PRESENT := Z.shiftl 1 0;
  ENTRY_FLAG_DEFAULT_PAGE := Z.lor (Z.lor (Z.lor (Z.shiftl 1 0) (Z.shiftl 1 1)) ACCESSED) DIRTY;
  ENTRY_FLAG_DEFAULT_TABLE := Z.shiftl 1 0;
  ENTRY_FLAG_READONLY := Z.shiftl 1 1;
  ENTRY_FLAG_READWRITE := Z.shiftl 3 1;
  ENTRY_FLAG_PAGE_USER := Z.shiftl 1 4;
  ENTRY_FLAG_TABLE_USER := 0;
  ENTRY_FLAG_NO_EXEC := 0;
  ENTRY_FLAG_EXEC := Z.shiftl 1 3;
  ENTRY_FLAG_GLOBAL := Z.shiftl 1 5;
  ENTRY_FLAG_NO_GLOBAL := 0;
  ENTRY_FLAG_DEVICE_MEMORY := 0;
  ENTRY_FLAG_UNCACHEABLE := 0;
  ENTRY_FLAG_WRITE_COMBINING := 0;
  PHYS_OFFSET := 0xFFFF_FFC0_0000_0000;
  table_of := fun _ => satp_table;
  with_table := fun _ a r => (satp_value 8 a, snd r);
  virt_is_valid := sign_extended (Z.shiftl 1 39)
|}.

Definition RiscV64Sv48Arch : Arch := {|
  KERNEL_SEPARATE_TABLE := false;
  PAGE_SHIFT := 12;
  PAGE_ENTRY_SHIFT := 9;
  PAGE_LEVELS := 4;
  ENTRY_ADDRESS_WIDTH := 44;
  ENTRY_ADDRESS_SHIFT := 10;
  ENTRY_FLAG_PRESENT := Z.shiftl 1 0;
  ENTRY_FLAG_DEFAULT_PAGE := Z.lor (Z.shiftl 1 0) (Z.shiftl 1 1);
  ENTRY_FLAG_DEFAULT_TABLE := Z.shiftl 1 0;
  ENTRY_FLAG_READONLY := Z.shiftl 1 1;
  ENTRY_FLAG_READWRITE := Z.shiftl 3 1;
  ENTRY_FLAG_PAGE_USER := Z.shiftl 1 4;
  ENTRY_FLAG_TABLE_USER := 0;
  ENTRY_FLAG_NO_EXEC := 0;
  ENTRY_FLAG_EXEC := Z.shiftl 1 3;
  ENTRY_FLAG_GLOBAL := Z.shiftl 1 5;
  ENTRY_FLAG_NO_GLOBAL := 0;
  ENTRY_FLAG_DEVICE_MEMORY := 0;
  ENTRY_FLAG_UNCACHEABLE := 0;
  ENTRY_FLAG_WRITE_COMBINING := 0;
  PHYS_OFFSET := 0xFFFF_8000_0000_0000;
  table_of := fun _ => satp_table;
  with_table := fun _ a r => (satp_value 9 a, snd r);
  virt_is_valid := sign_extended (Z.shiftl 1 48)
|}.

Definition RiscV64Sv57Arch : Arch := {|
  KERNEL_SEPARATE_TABLE := false;
  PAGE_SHIFT := 12;
  PAGE_ENTRY_SHIFT := 9;
  PAGE_LEVELS := 5;
  ENTRY_ADDRESS_WIDTH := 44;
  ENTRY_ADDRESS_SHIFT := 10;
  ENTRY_FLAG_PRESENT := Z.shiftl 1 0;
  ENTRY_FLAG_DEFAULT_PAGE := Z.lor (Z.shiftl 1 0) (Z.shiftl 1 1);
  ENTRY_FLAG_DEFAULT_TABLE := Z.shiftl 1 0;
  ENTRY_FLAG_READONLY := Z.shiftl 1 1;
  ENTRY_FLAG_READWRITE := Z.shiftl 3 1;
  ENTRY_FLAG_PAGE_USER := Z.shiftl 1 4;
  ENTRY_FLAG_TABLE_USER := 0;
  ENTRY_FLAG_NO_EXEC := 0;
  ENTRY_FLAG_EXEC := Z.shiftl 1 3;
  ENTRY_FLAG_GLOBAL := Z.shiftl 1 5;
  ENTRY_FLAG_NO_GLOBAL := 0;
  ENTRY_FLAG_DEVICE_MEMORY := 0;
  ENTRY_FLAG_UNCACHEABLE := 0;
  ENTRY_FLAG_WRITE_COMBINING := 0;
  PHYS_OFFSET := 0xFF00_0000_0000_0000;
  table_of := fun _ => satp_table;
  with_table := fun _ a r => (satp_value 10 a, snd r);
  virt_is_valid := sign_extended (Z.shiftl 1 57)
|}.

(** ** Addresses *)

Definition kind_of_virt (v : Z) : TableKind := if sint 64 v <? 0 then Kernel else User.

(** ** Memory and registers

    Every operation of the crate runs on the machine and, for the allocators
    and the mapper, on an allocator [F].  [None] of an [Option] result is
    [Err tt]. *)

Record Machine := mkMachine { mem : gmap Z Z; regs : Z * Z }.

Abbreviation RM F := (M (Machine * F) unit).

Definition with_mem (m : gmap Z Z) (c : Machine) : Machine := mkMachine m (regs c).

Section access.
Context {A : Arch} {F : Type}.

(** [PhysicalAddress::add], [VirtualAddress::add] *)
Definition add (a b : Z) : RM F Z := lift (uadd a b).

Definition phys_to_virt (phys : Z) : RM F Z := lift (uadd phys PHYS_OFFSET).

Definition read (address n : Z) : RM F (list Z) := fun s => (load (mem (fst s)) address n, s).

Definition write (address : Z) (bs : list Z) : RM F unit := fun s =>
  match store (mem (fst s)) address bs with
  | Ok m => (Ok tt, (with_mem m (fst s), snd s))
  | Err e => (Err e, s)
  | Panic => (Panic, s)
  | Fault => (Fault, s)
  end.

(** [A::read::<usize>] and [A::write::<usize>]: undefined when misaligned. *)
Definition read_usize (address : Z) : RM F Z :=
  if address mod 8 =? 0 then bs ← read address 8; mret (le_word bs) else lift Fault.

Definition write_usize (address value : Z) : RM F unit :=
  if address mod 8 =? 0 then write address (le_bytes 8 value) else lift Fault.

Definition write_bytes (address value count : Z) : RM F unit :=
  write address (replicate (Z.to_nat count) value).

Definition table (kind : TableKind) : RM F Z := fun s => (Ok (table_of kind (regs (fst s))), s).

Definition set_table (kind : TableKind) (address : Z) : RM F unit := fun s =>
  (Ok tt, (mkMachine (mem (fst s)) (with_table kind address (regs (fst s))), snd s)).

End access.

(** ** Page-table entries *)

Section entries.
Context {A : Arch}.

Definition entry_new (address flags : Z) : Z :=
  Z.lor (wrap 64 (Z.shiftl (Z.land (Z.shiftr address PAGE_SHIFT) ENTRY_ADDRESS_MASK) ENTRY_ADDRESS_SHIFT)) flags.

Definition present (data : Z) : bool := negb (Z.land data ENTRY_FLAG_PRESENT =? 0).

Definition entry_addr (data : Z) : Z :=
  wrap 64 (Z.shiftl (Z.land (Z.shiftr data ENTRY_ADDRESS_SHIFT) ENTRY_ADDRESS_MASK) PAGE_SHIFT).

(** [Err] holds the address of an entry that is not present. *)
Definition address (data : Z) : res Z Z := if present data then Ok (entry_addr data) else Err (entry_addr data).

Definition flags (data : Z) : Z := Z.land data ENTRY_FLAGS_MASK.

Definition set_flags (data f : Z) : Z := Z.lor (Z.land data (not_usize ENTRY_FLAGS_MASK)) f.

(** ** Page flags *)

Definition flags_new : Z :=
  Z.lor (Z.lor (Z.lor ENTRY_FLAG_DEFAULT_PAGE ENTRY_FLAG_READONLY) ENTRY_FLAG_NO_EXEC) ENTRY_FLAG_NO_GLOBAL.

Definition flags_new_table : Z :=
  Z.lor (Z.lor ENTRY_FLAG_DEFAULT_TABLE ENTRY_FLAG_NO_EXEC) ENTRY_FLAG_NO_GLOBAL.

Definition custom_flag (data flag : Z) (value : bool) : Z :=
  if value then Z.lor data flag else Z.land data (not_usize flag).

Definition device_memory (data : Z) (value : bool) : Z := custom_flag data ENTRY_FLAG_DEVICE_MEMORY value.
Definition uncacheable (data : Z) (value : bool) : Z := custom_flag data ENTRY_FLAG_UNCACHEABLE value.
Definition write_combining (data : Z) (value : bool) : Z := custom_flag data ENTRY_FLAG_WRITE_COMBINING value.

Definition has_flag (data flag : Z) : bool := Z.land data flag =? flag.
Definition has_present (data : Z) : bool := has_flag data ENTRY_FLAG_PRESENT.

Definition user (data : Z) (value : bool) : Z := custom_flag data ENTRY_FLAG_PAGE_USER value.
Definition has_user (data : Z) : bool := has_flag data ENTRY_FLAG_PAGE_USER.

Definition writable (data : Z) (value : bool) : Z :=
  let cleared := custom_flag data (Z.lor ENTRY_FLAG_READONLY ENTRY_FLAG_READWRITE) false in
  if value then custom_flag cleared ENTRY_FLAG_READWRITE true else custom_flag cleared ENTRY_FLAG_READONLY true.

Definition has_write (data : Z) : bool :=
  Z.land data (Z.lor ENTRY_FLAG_READONLY ENTRY_FLAG_READWRITE) =? ENTRY_FLAG_READWRITE.

Definition execute (data : Z) (value : bool) : Z :=
  custom_flag (custom_flag data ENTRY_FLAG_NO_EXEC (negb value)) ENTRY_FLAG_EXEC value.

Definition has_execute (data : Z) : bool :=
  Z.land data (Z.lor ENTRY_FLAG_NO_EXEC ENTRY_FLAG_EXEC) =? ENTRY_FLAG_EXEC.

Definition global (data : Z) (value : bool) : Z :=
  custom_flag (custom_flag data ENTRY_FLAG_NO_GLOBAL (negb value)) ENTRY_FLAG_GLOBAL value.

Definition is_global (data : Z) : bool :=
  Z.land data (Z.lor ENTRY_FLAG_GLOBAL ENTRY_FLAG_NO_GLOBAL) =? ENTRY_FLAG_GLOBAL.

End entries.

(** ** What the formats have in common *)

(** The address field and the flags do not overlap, an entry takes eight
    bytes, and the direct map of physical memory ends with the address space. *)
Class ArchOk (A : Arch) : Prop := {
  entry_shift : PAGE_SHIFT = PAGE_ENTRY_SHIFT + 3;
  entry_shift_pos : 3 <= PAGE_ENTRY_SHIFT;
  levels_pos : 1 < PAGE_LEVELS;
  address_shift : PAGE_ADDRESS_SHIFT < 64;
  field_shift : 0 <= ENTRY_ADDRESS_SHIFT <= PAGE_SHIFT;
  field_width : 0 < ENTRY_ADDRESS_WIDTH /\ ENTRY_ADDRESS_WIDTH + PAGE_SHIFT <= 64;
  offset_range : 0 < PHYS_OFFSET < 2 ^ 64;
  offset_aligned : PHYS_OFFSET mod PAGE_SIZE = 0;
  offset_covers : 2 ^ 64 - PHYS_OFFSET <= 2 ^ (ENTRY_ADDRESS_WIDTH + PAGE_SHIFT);
  table_flags : Z.land ENTRY_FLAG_DEFAULT_TABLE ENTRY_FLAGS_MASK = ENTRY_FLAG_DEFAULT_TABLE;
  table_user_flags : Z.land ENTRY_FLAG_TABLE_USER ENTRY_FLAGS_MASK = ENTRY_FLAG_TABLE_USER;
  present_flag : Z.land ENTRY_FLAG_PRESENT ENTRY_FLAGS_MASK = ENTRY_FLAG_PRESENT;
  table_present : Z.land ENTRY_FLAG_DEFAULT_TABLE ENTRY_FLAG_PRESENT <> 0
}.

Ltac solve_arch := split; vm_compute; repeat split; congruence.

#[global] Instance X8664Arch_ok : ArchOk X8664Arch.
Proof. solve_arch. Qed.
#[global] Instance AArch64Arch_ok : ArchOk AArch64Arch.
Proof. solve_arch. Qed.
#[global] Instance RiscV64Sv39Arch_ok : ArchOk RiscV64Sv39Arch.
Proof. solve_arch. Qed.
#[global] Instance RiscV64Sv48Arch_ok : ArchOk RiscV64Sv48Arch.
Proof. solve_arch. Qed.
#[global] Instance RiscV64Sv57Arch_ok : ArchOk RiscV64Sv57Arch.
Proof. solve_arch. Qed.

Lemma testbit_not_usize x i : 0 <= i -> Z.testbit (not_usize x) i = (i <? 64) && negb (Z.testbit x i).
Proof.
  intros Hi. unfold not_usize, wrap. destruct (Z.ltb_spec i 64).
  - by rewrite Z.mod_pow2_bits_low, Z.lnot_spec by lia.
  - by rewrite Z.mod_pow2_bits_high by lia.
Qed.

Section entry_lemmas.
Context {A : Arch} {AO : ArchOk A}.

Lemma page_size_eq : PAGE_SIZE = 2 ^ PAGE_SHIFT.
Proof. unfold PAGE_SIZE. by rewrite Z.shiftl_1_l. Qed.

Lemma page_shift_pos : 6 <= PAGE_SHIFT.
Proof. pose proof (entry_shift (A:=A)). pose proof (entry_shift_pos (A:=A)). lia. Qed.

Lemma page_size_pos : 64 <= PAGE_SIZE.
Proof.
  rewrite page_size_eq. pose proof page_shift_pos. change 64 with (2 ^ 6). apply Z.pow_le_mono_r; lia.
Qed.

Lemma entries_size : PAGE_SIZE = 8 * PAGE_ENTRIES.
Proof.
  unfold PAGE_ENTRIES. rewrite page_size_eq, entry_shift, Z.shiftl_1_l, Z.pow_add_r;
    pose proof (entry_shift_pos (A:=A)); lia.
Qed.

Lemma entry_size_8 : PAGE_ENTRY_SIZE = 8.
Proof. unfold PAGE_ENTRY_SIZE. rewrite entry_shift. by replace (_ - _) with 3 by lia. Qed.

Lemma address_mask_ones : ENTRY_ADDRESS_MASK = Z.ones ENTRY_ADDRESS_WIDTH.
Proof. unfold ENTRY_ADDRESS_MASK, ENTRY_ADDRESS_SIZE. rewrite Z.shiftl_1_l, Z.ones_equiv. lia. Qed.

Lemma testbit_address_mask i : 0 <= i -> Z.testbit ENTRY_ADDRESS_MASK i = (i <? ENTRY_ADDRESS_WIDTH).
Proof.
  intros Hi. rewrite address_mask_ones. pose proof (field_width (A:=A)) as [Hw _]. destruct (Z.ltb_spec i ENTRY_ADDRESS_WIDTH).
  - by apply Z.ones_spec_low.
  - by apply Z.ones_spec_high; lia.
Qed.

(** The bits of the flag mask: all but those of the address field. *)
Lemma testbit_flags_mask i :
  0 <= i -> Z.testbit ENTRY_FLAGS_MASK i =
    (i <? 64) && negb ((ENTRY_ADDRESS_SHIFT <=? i) && (i <? ENTRY_ADDRESS_SHIFT + ENTRY_ADDRESS_WIDTH)).
Proof.
  intros Hi. unfold ENTRY_FLAGS_MASK. rewrite testbit_not_usize by done. f_equal. f_equal.
  rewrite Z.shiftl_spec by done. destruct (Z.leb_spec ENTRY_ADDRESS_SHIFT i); cbn.
  - rewrite testbit_address_mask by lia. destruct (Z.ltb_spec (i - ENTRY_ADDRESS_SHIFT) ENTRY_ADDRESS_WIDTH),
      (Z.ltb_spec i (ENTRY_ADDRESS_SHIFT + ENTRY_ADDRESS_WIDTH)); lia.
  - apply Z.testbit_neg_r. lia.
Qed.

Lemma flag_bit f i :
  0 <= i -> Z.land f ENTRY_FLAGS_MASK = f ->
  Z.testbit f i = true -> i < 64 /\ ~ (ENTRY_ADDRESS_SHIFT <= i < ENTRY_ADDRESS_SHIFT + ENTRY_ADDRESS_WIDTH).
Proof.
  intros Hi Hf Hb. rewrite <-Hf, Z.land_spec, testbit_flags_mask in Hb by done.
  apply andb_true_iff in Hb as [_ [H1 H2]%andb_true_iff]. apply Z.ltb_lt in H1.
  apply negb_true_iff, andb_false_iff in H2. rewrite Z.leb_gt, Z.ltb_ge in H2. lia.
Qed.

(** An address a page-table entry can hold. *)
Definition addr_ok (p : Z) : Prop := fits (ENTRY_ADDRESS_WIDTH + PAGE_SHIFT) p /\ p mod PAGE_SIZE = 0.

Lemma addr_low_bit p i : addr_ok p -> 0 <= i < PAGE_SHIFT -> Z.testbit p i = false.
Proof.
  intros [_ Ha] Hi. rewrite page_size_eq in Ha.
  rewrite <-(Z.mod_pow2_bits_low p PAGE_SHIFT) by lia. rewrite Ha. apply Z.testbit_0_l.
Qed.

(** The bits of an entry. *)
Lemma testbit_entry_new p f i :
  addr_ok p -> Z.land f ENTRY_FLAGS_MASK = f -> 0 <= i ->
  Z.testbit (entry_new p f) i =
    if decide (ENTRY_ADDRESS_SHIFT <= i < ENTRY_ADDRESS_SHIFT + ENTRY_ADDRESS_WIDTH)
    then Z.testbit p (i - ENTRY_ADDRESS_SHIFT + PAGE_SHIFT) else Z.testbit f i.
Proof.
  intros _ Hf Hi. unfold entry_new. rewrite Z.lor_spec.
  pose proof (field_width (A:=A)) as [Hw Hw2]. pose proof (field_shift (A:=A)) as [Hs Hs2]. pose proof page_shift_pos.
  unfold wrap. case_decide as Hr.
  - rewrite Z.mod_pow2_bits_low, Z.shiftl_spec, Z.land_spec, Z.shiftr_spec, testbit_address_mask by lia.
    destruct (Z.ltb_spec (i - ENTRY_ADDRESS_SHIFT) ENTRY_ADDRESS_WIDTH); [|lia]. rewrite andb_true_r.
    destruct (Z.testbit f i) eqn:E; [|by rewrite orb_false_r].
    apply flag_bit in E as [_ E]; [lia|done|done].
  - destruct (decide (i < 64)); [|by rewrite Z.mod_pow2_bits_high by lia].
    rewrite Z.mod_pow2_bits_low, Z.shiftl_spec, Z.land_spec by lia.
    destruct (decide (i < ENTRY_ADDRESS_SHIFT)); [by rewrite !Z.testbit_neg_r by lia|].
    rewrite testbit_address_mask by lia. destruct (Z.ltb_spec (i - ENTRY_ADDRESS_SHIFT) ENTRY_ADDRESS_WIDTH); [lia|].
    by rewrite andb_false_r.
Qed.

Lemma addr_of_new p f : addr_ok p -> Z.land f ENTRY_FLAGS_MASK = f -> entry_addr (entry_new p f) = p.
Proof.
  intros Hp Hf. pose proof Hp as [Hfit _]. pose proof (field_width (A:=A)) as [Hw Hw2].
  pose proof (field_shift (A:=A)) as [Hs Hs2]. pose proof page_shift_pos.
  apply Z.bits_inj'. intros i Hi. unfold entry_addr, wrap.
  destruct (decide (i < 64)); cycle 1.
  { rewrite Z.mod_pow2_bits_high by lia. symmetry. eapply testbit_above; [exact Hfit|lia]. }
  rewrite Z.mod_pow2_bits_low, Z.shiftl_spec by lia. destruct (decide (i < PAGE_SHIFT)).
  { rewrite Z.testbit_neg_r by lia. symmetry. by apply addr_low_bit. }
  rewrite Z.land_spec, Z.shiftr_spec, testbit_address_mask, testbit_entry_new by (done || lia).
  destruct (Z.ltb_spec (i - PAGE_SHIFT) ENTRY_ADDRESS_WIDTH).
  - rewrite decide_True, andb_true_r by lia. f_equal. lia.
  - rewrite andb_false_r. symmetry. eapply testbit_above; [exact Hfit|lia].
Qed.

Lemma flags_of_new p f : addr_ok p -> Z.land f ENTRY_FLAGS_MASK = f -> flags (entry_new p f) = f.
Proof.
  intros Hp Hf. apply Z.bits_inj'. intros i Hi. unfold flags. rewrite Z.land_spec, testbit_entry_new by done.
  rewrite testbit_flags_mask by done. destruct (Z.testbit f i) eqn:E.
  - apply flag_bit in E as [H1 H2]; [|done..]. rewrite decide_False by lia.
    destruct (Z.ltb_spec i 64), (Z.leb_spec ENTRY_ADDRESS_SHIFT i), (Z.ltb_spec i (ENTRY_ADDRESS_SHIFT + ENTRY_ADDRESS_WIDTH));
      try lia; done.
  - case_decide as Hr; [|done].
    destruct (Z.leb_spec ENTRY_ADDRESS_SHIFT i), (Z.ltb_spec i (ENTRY_ADDRESS_SHIFT + ENTRY_ADDRESS_WIDTH)); (lia || done).
Qed.

Lemma present_flags e : present e = present (flags e).
Proof.
  unfold present, flags. by rewrite <-Z.land_assoc, (Z.land_comm ENTRY_FLAGS_MASK), present_flag.
Qed.

Lemma present_of_new p f : addr_ok p -> Z.land f ENTRY_FLAGS_MASK = f -> present (entry_new p f) = present f.
Proof. intros. by rewrite present_flags, flags_of_new. Qed.

Lemma mask_fits f : Z.land f ENTRY_FLAGS_MASK = f -> fits 64 f.
Proof.
  intros Hf. assert (0 <= f).
  { rewrite <-Hf. apply Z.land_nonneg. right. apply wrap_fits. lia. }
  apply fits_testbit; [lia| |done]. intros i Hi. destruct (Z.testbit f i) eqn:E; [|done].
  apply flag_bit in E; [lia|lia|done].
Qed.

Lemma new_fits p f : addr_ok p -> Z.land f ENTRY_FLAGS_MASK = f -> fits 64 (entry_new p f).
Proof. intros. unfold entry_new. apply lor_fits; [lia|apply wrap_fits; lia|by apply mask_fits]. Qed.

(** Any entry holds such an address. *)
Lemma entry_addr_ok e : addr_ok (entry_addr e).
Proof.
  pose proof (field_width (A:=A)) as [Hw Hw2]. pose proof page_shift_pos. pose proof page_size_pos. unfold entry_addr. split.
  - assert (fits 64 (wrap 64 (Z.shiftl (Z.land (Z.shiftr e ENTRY_ADDRESS_SHIFT) ENTRY_ADDRESS_MASK) PAGE_SHIFT))) as [Hn _] by (apply wrap_fits; lia).
    apply fits_testbit; [lia| |done]. intros i Hi. unfold wrap. destruct (decide (i < 64)); [|by rewrite Z.mod_pow2_bits_high by lia].
    rewrite Z.mod_pow2_bits_low, Z.shiftl_spec, Z.land_spec, testbit_address_mask by lia.
    destruct (Z.ltb_spec (i - PAGE_SHIFT) ENTRY_ADDRESS_WIDTH); [lia|]. apply andb_false_r.
  - rewrite page_size_eq. apply Z.bits_inj'. intros i Hi. rewrite Z.testbit_0_l. destruct (decide (i < PAGE_SHIFT)).
    + rewrite Z.mod_pow2_bits_low by lia. unfold wrap. rewrite Z.mod_pow2_bits_low, Z.shiftl_spec by lia. apply Z.testbit_neg_r. lia.
    + rewrite Z.mod_pow2_bits_high by lia. done.
Qed.

(** A frame of the direct map. *)
Definition frame_ok (p : Z) : Prop := 0 <= p /\ p mod PAGE_SIZE = 0 /\ p + PAGE_SIZE + PHYS_OFFSET <= 2 ^ 64.

Lemma frame_addr p : frame_ok p -> addr_ok p.
Proof.
  intros [Hp [Ha Hb]]. pose proof (offset_covers (A:=A)). pose proof page_size_pos. split; [split; lia|done].
Qed.

Lemma entry_addr_new p f : frame_ok p -> Z.land f ENTRY_FLAGS_MASK = f -> entry_addr (entry_new p f) = p.
Proof. intros Hp%frame_addr. by apply addr_of_new. Qed.

Lemma present_new p f : frame_ok p -> Z.land f ENTRY_FLAGS_MASK = f -> present (entry_new p f) = present f.
Proof. intros Hp%frame_addr. by apply present_of_new. Qed.

Lemma entry_new_fits p f : frame_ok p -> Z.land f ENTRY_FLAGS_MASK = f -> fits 64 (entry_new p f).
Proof. intros Hp%frame_addr. by apply new_fits. Qed.

Lemma present_0 : present 0 = false.
Proof. unfold present. by rewrite Z.land_0_l. Qed.

End entry_lemmas.

End RmmArch.
