(* ===== verification/RmmFlags.v ===== *)
(** * Page flags

    The builder of [third_party/rmm/src/page/flags.rs]: each flag can be set
    and read back on its own, on every page-table format. *)

From S2P Require Import Prelude Bytes RmmArch.
Import RmmArch.

Module RmmFlags.

Section flags.
Context {A : Arch}.

(** The bits a pair of flags uses. *)
Definition WRITE_BITS : Z := Z.lor ENTRY_FLAG_READONLY ENTRY_FLAG_READWRITE.
Definition EXEC_BITS : Z := Z.lor ENTRY_FLAG_NO_EXEC ENTRY_FLAG_EXEC.
Definition GLOBAL_BITS : Z := Z.lor ENTRY_FLAG_GLOBAL ENTRY_FLAG_NO_GLOBAL.

Definition groups : list Z := [ENTRY_FLAG_PRESENT; ENTRY_FLAG_PAGE_USER; WRITE_BITS; EXEC_BITS; GLOBAL_BITS].

Class FlagsOk : Prop := {
  groups_fit : Forall (fits 64) groups;
  groups_apart : ForallOrdPairs (fun x y => Z.land x y = 0) groups;
  user_set : ENTRY_FLAG_PAGE_USER <> 0;
  write_set : ENTRY_FLAG_READONLY <> ENTRY_FLAG_READWRITE;
  exec_set : ENTRY_FLAG_NO_EXEC <> ENTRY_FLAG_EXEC /\ Z.land ENTRY_FLAG_NO_EXEC ENTRY_FLAG_EXEC = 0;
  global_set : ENTRY_FLAG_NO_GLOBAL <> ENTRY_FLAG_GLOBAL /\ Z.land ENTRY_FLAG_NO_GLOBAL ENTRY_FLAG_GLOBAL = 0
}.

Implicit Types (d k m : Z).

Lemma testbit_custom d m v i :
  fits 64 d -> fits 64 m -> 0 <= i -> Z.testbit (custom_flag d m v) i = if v then Z.testbit d i || Z.testbit m i else Z.testbit d i && negb (Z.testbit m i).
Proof.
  intros Hd Hm Hi. unfold custom_flag. destruct v; [by rewrite Z.lor_spec|]. rewrite Z.land_spec, testbit_not_usize by done.
  destruct (Z.ltb_spec i 64); [done|]. rewrite (testbit_above 64 d i) by done. done.
Qed.

Lemma custom_fits d m v : fits 64 d -> fits 64 m -> fits 64 (custom_flag d m v).
Proof.
  intros Hd Hm. assert (0 <= custom_flag d m v).
  { unfold custom_flag. destruct Hd, Hm. destruct v; [apply Z.lor_nonneg; lia|apply Z.land_nonneg; lia]. }
  apply fits_testbit; [lia| |done]. intros i Hi. rewrite testbit_custom by (done || lia).
  rewrite (testbit_above 64 d i), (testbit_above 64 m i) by (done || lia). by destruct v.
Qed.

(** Other bits keep their value. *)
Lemma custom_other d m v k : fits 64 d -> fits 64 m -> Z.land m k = 0 -> Z.land (custom_flag d m v) k = Z.land d k.
Proof.
  intros Hd Hm H0. apply Z.bits_inj'. intros i Hi. rewrite !Z.land_spec, testbit_custom by done.
  apply (f_equal (fun x => Z.testbit x i)) in H0. rewrite Z.land_spec, Z.testbit_0_l in H0.
  destruct v, (Z.testbit d i), (Z.testbit m i), (Z.testbit k i); done.
Qed.

(** [m] set among the bits [k]. *)
Lemma custom_set d m k : Z.land m k = m -> Z.land (custom_flag d m true) k = Z.lor (Z.land d k) m.
Proof. intros Hk. unfold custom_flag. by rewrite Z.land_lor_distr_l, Hk. Qed.

Lemma custom_clear d m k : fits 64 d -> fits 64 m -> Z.land (custom_flag d m false) k = Z.land (Z.land d k) (Z.lnot m).
Proof.
  intros Hd Hm. apply Z.bits_inj'. intros i Hi. rewrite !Z.land_spec, testbit_custom, Z.lnot_spec by done.
  destruct (Z.testbit d i), (Z.testbit m i), (Z.testbit k i); done.
Qed.

Lemma clear_all d k : Z.land (Z.land d k) (Z.lnot k) = 0.
Proof. by rewrite <-Z.land_assoc, Z.land_lnot_diag, Z.land_0_r. Qed.

Lemma land_lor_l a b : Z.land a (Z.lor a b) = a.
Proof. apply Z.bits_inj'. intros i Hi. rewrite Z.land_spec, Z.lor_spec. by destruct (Z.testbit a i). Qed.

Lemma land_lor_r a b : Z.land b (Z.lor a b) = b.
Proof. by rewrite Z.lor_comm, land_lor_l. Qed.

(** One of two flags set, the other one cleared. *)
Lemma either_set d no yes v :
  fits 64 d -> fits 64 no -> fits 64 yes -> no <> yes -> Z.land no yes = 0 ->
  (Z.land (custom_flag (custom_flag d no (negb v)) yes v) (Z.lor no yes) =? yes) = v.
Proof.
  intros Hd Hn Hy Hne H0. assert (Hbit : forall i, 0 <= i -> Z.testbit no i = true -> Z.testbit yes i = false).
  { intros i Hi Hb. apply (f_equal (fun x => Z.testbit x i)) in H0. rewrite Z.land_spec, Z.testbit_0_l, Hb in H0. done. }
  destruct v; cbn [negb].
  - apply Z.eqb_eq, Z.bits_inj'. intros i Hi. rewrite Z.land_spec, Z.lor_spec, !testbit_custom by (done || by apply custom_fits).
    specialize (Hbit i Hi). destruct (Z.testbit no i), (Z.testbit yes i), (Z.testbit d i); try done; by specialize (Hbit eq_refl).
  - assert (Z.land (custom_flag (custom_flag d no true) yes false) (Z.lor no yes) = no) as ->.
    { apply Z.bits_inj'. intros i Hi. rewrite Z.land_spec, Z.lor_spec, !testbit_custom by (done || by apply custom_fits).
      specialize (Hbit i Hi). destruct (Z.testbit no i), (Z.testbit yes i), (Z.testbit d i); try done; by specialize (Hbit eq_refl). }
    by apply Z.eqb_neq.
Qed.

Lemma sub_apart a g k : Z.land a g = a -> Z.land g k = 0 -> Z.land a k = 0.
Proof. intros Ha Hg. by rewrite <-Ha, <-Z.land_assoc, Hg, Z.land_0_r. Qed.

Lemma lor_fits_inv a b : fits 64 (Z.lor a b) -> fits 64 a /\ fits 64 b.
Proof.
  intros Hl. pose proof Hl as [H0 H1]. apply Z.lor_nonneg in H0 as [Ha Hb].
  assert (forall i, 64 <= i -> Z.testbit a i = false /\ Z.testbit b i = false) as Hbit.
  { intros i Hi. apply orb_false_iff. rewrite <-Z.lor_spec. by apply (testbit_above 64). }
  split; apply fits_testbit; [lia| |lia|lia| |lia]; intros i Hi; by apply Hbit.
Qed.

(** What the getters say. *)
Definition reads d : bool * bool * bool * bool * bool := (has_present d, has_user d, has_write d, has_execute d, is_global d).

Context {FO : FlagsOk}.

Lemma group_facts :
  fits 64 ENTRY_FLAG_PAGE_USER /\ fits 64 WRITE_BITS /\ fits 64 EXEC_BITS /\ fits 64 GLOBAL_BITS /\
  (forall g, g ∈ [ENTRY_FLAG_PRESENT; WRITE_BITS; EXEC_BITS; GLOBAL_BITS] -> Z.land ENTRY_FLAG_PAGE_USER g = 0) /\
  (forall g, g ∈ [ENTRY_FLAG_PRESENT; ENTRY_FLAG_PAGE_USER; EXEC_BITS; GLOBAL_BITS] -> Z.land WRITE_BITS g = 0) /\
  (forall g, g ∈ [ENTRY_FLAG_PRESENT; ENTRY_FLAG_PAGE_USER; WRITE_BITS; GLOBAL_BITS] -> Z.land EXEC_BITS g = 0) /\
  (forall g, g ∈ [ENTRY_FLAG_PRESENT; ENTRY_FLAG_PAGE_USER; WRITE_BITS; EXEC_BITS] -> Z.land GLOBAL_BITS g = 0).
Proof.
  pose proof groups_fit as Hf. pose proof groups_apart as Ha. unfold groups in *. rewrite !Forall_cons in Hf.
  destruct Hf as (_ & F1 & F2 & F3 & F4 & _).
  inversion Ha as [|? ? A1 B1]; subst. inversion B1 as [|? ? A2 B2]; subst. inversion B2 as [|? ? A3 B3]; subst. inversion B3 as [|? ? A4 _]; subst.
  rewrite !Forall_cons in A1. rewrite !Forall_cons in A2. rewrite !Forall_cons in A3. rewrite !Forall_cons in A4. destruct A1 as (? & ? & ? & ? & _), A2 as (? & ? & ? & _), A3 as (? & ? & _), A4 as (? & _).
  split; [exact F1|split; [exact F2|split; [exact F3|split; [exact F4|]]]]. split_and!;
    intros g Hg; repeat (apply elem_of_cons in Hg as [->|Hg]; [first [done|by rewrite Z.land_comm]|]); by apply elem_of_nil in Hg.
Qed.

Lemma has_user_set d v : fits 64 d -> has_user (user d v) = v.
Proof.
  intros Hd. destruct group_facts as (HU & _). unfold has_user, user, has_flag. destruct v.
  - rewrite custom_set by apply Z.land_diag. apply Z.eqb_eq. apply Z.bits_inj'. intros i Hi.
    rewrite Z.lor_spec, Z.land_spec. destruct (Z.testbit ENTRY_FLAG_PAGE_USER i), (Z.testbit d i); done.
  - rewrite custom_clear, clear_all by done. apply Z.eqb_neq. pose proof user_set. congruence.
Qed.

Lemma has_write_set d v : fits 64 d -> has_write (writable d v) = v.
Proof.
  intros Hd. destruct group_facts as (_ & HW & _). unfold has_write, writable. fold WRITE_BITS.
  assert (Hc : Z.land (custom_flag d WRITE_BITS false) WRITE_BITS = 0) by (rewrite custom_clear by done; apply clear_all).
  destruct v.
  - rewrite custom_set by apply land_lor_r. rewrite Hc, Z.lor_0_l. apply Z.eqb_refl.
  - rewrite custom_set by apply land_lor_l. rewrite Hc, Z.lor_0_l. apply Z.eqb_neq, write_set.
Qed.

Lemma has_execute_set d v : fits 64 d -> has_execute (execute d v) = v.
Proof.
  intros Hd. destruct group_facts as (_ & _ & [H1 H2]%lor_fits_inv & _). destruct exec_set. unfold has_execute, execute. by apply either_set.
Qed.

Lemma is_global_set d v : fits 64 d -> is_global (global d v) = v.
Proof.
  intros Hd. destruct group_facts as (_ & _ & _ & [H1 H2]%lor_fits_inv & _). destruct global_set. unfold is_global, global.
  rewrite (Z.lor_comm ENTRY_FLAG_GLOBAL). by apply either_set.
Qed.

(** A setter of the bits [g] leaves the bits outside alone. *)
Lemma writable_other d v k : fits 64 d -> Z.land WRITE_BITS k = 0 -> Z.land (writable d v) k = Z.land d k.
Proof.
  intros Hd Hk. destruct group_facts as (_ & HW & _). pose proof HW as [H1 H2]%lor_fits_inv. unfold writable. fold WRITE_BITS.
  pose proof (custom_fits d WRITE_BITS false Hd HW).
  destruct v; rewrite custom_other, custom_other; try done; (eapply sub_apart; [|exact Hk]); [apply land_lor_r|apply land_lor_l].
Qed.

Lemma execute_other d v k : fits 64 d -> Z.land EXEC_BITS k = 0 -> Z.land (execute d v) k = Z.land d k.
Proof.
  intros Hd Hk. destruct group_facts as (_ & _ & [H1 H2]%lor_fits_inv & _). unfold execute.
  rewrite custom_other, custom_other; try done; try (by apply custom_fits); (eapply sub_apart; [|exact Hk]); apply land_lor_l || apply land_lor_r.
Qed.

Lemma global_other d v k : fits 64 d -> Z.land GLOBAL_BITS k = 0 -> Z.land (global d v) k = Z.land d k.
Proof.
  intros Hd Hk. destruct group_facts as (_ & _ & _ & [H1 H2]%lor_fits_inv & _). unfold global.
  rewrite custom_other, custom_other; try done; try (by apply custom_fits); (eapply sub_apart; [|exact Hk]); apply land_lor_l || apply land_lor_r.
Qed.

Lemma reads_user d v : fits 64 d -> reads (user d v) = (has_present d, v, has_write d, has_execute d, is_global d).
Proof.
  intros Hd. destruct group_facts as (HU & _ & _ & _ & Hg & _). unfold reads. rewrite has_user_set by done.
  unfold has_present, has_write, has_execute, is_global, has_flag, user. fold WRITE_BITS EXEC_BITS GLOBAL_BITS.
  rewrite !custom_other by (done || apply Hg; set_solver). done.
Qed.

Lemma reads_writable d v : fits 64 d -> reads (writable d v) = (has_present d, has_user d, v, has_execute d, is_global d).
Proof.
  intros Hd. destruct group_facts as (_ & _ & _ & _ & _ & Hg & _). unfold reads. rewrite has_write_set by done.
  unfold has_present, has_user, has_execute, is_global, has_flag. fold EXEC_BITS GLOBAL_BITS.
  rewrite !writable_other by (done || apply Hg; set_solver). done.
Qed.

Lemma reads_execute d v : fits 64 d -> reads (execute d v) = (has_present d, has_user d, has_write d, v, is_global d).
Proof.
  intros Hd. destruct group_facts as (_ & _ & _ & _ & _ & _ & Hg & _). unfold reads. rewrite has_execute_set by done.
  unfold has_present, has_user, has_write, is_global, has_flag. fold WRITE_BITS GLOBAL_BITS.
  rewrite !execute_other by (done || apply Hg; set_solver). done.
Qed.

Lemma reads_global d v : fits 64 d -> reads (global d v) = (has_present d, has_user d, has_write d, has_execute d, v).
Proof.
  intros Hd. destruct group_facts as (_ & _ & _ & _ & _ & _ & _ & Hg). unfold reads. rewrite is_global_set by done.
  unfold has_present, has_user, has_write, has_execute, has_flag. fold WRITE_BITS EXEC_BITS.
  rewrite !global_other by (done || apply Hg; set_solver). done.
Qed.

End flags.

Arguments FlagsOk A : clear implicits.

Ltac solve_flags :=
  split; [repeat (apply Forall_cons; split); [vm_compute; split; congruence..|apply Forall_nil_2]|repeat constructor|vm_compute; congruence..|split; vm_compute; congruence|split; vm_compute; congruence].

#[global] Instance X8664_flags : FlagsOk X8664Arch.
Proof. solve_flags. Qed.
#[global] Instance AArch64_flags : FlagsOk AArch64Arch.
Proof. solve_flags. Qed.
#[global] Instance Sv39_flags : FlagsOk RiscV64Sv39Arch.
Proof. solve_flags. Qed.
#[global] Instance Sv48_flags : FlagsOk RiscV64Sv48Arch.
Proof. solve_flags. Qed.
#[global] Instance Sv57_flags : FlagsOk RiscV64Sv57Arch.
Proof. solve_flags. Qed.

(** The formats of the crate. *)
Definition formats : list Arch := [X8664Arch; AArch64Arch; RiscV64Sv39Arch; RiscV64Sv48Arch; RiscV64Sv57Arch].

(** Page flags, on every page-table format and for any 64-bit value: each of
    user, writable, execute and global is read back as it was set, and
    setting one of them changes neither the others nor the present bit. *)
Theorem page_flags_independent (A : Arch) d v :
  A ∈ formats -> fits 64 d ->
  reads (user d v) = (has_present d, v, has_write d, has_execute d, is_global d) /\
  reads (writable d v) = (has_present d, has_user d, v, has_execute d, is_global d) /\
  reads (execute d v) = (has_present d, has_user d, has_write d, v, is_global d) /\
  reads (global d v) = (has_present d, has_user d, has_write d, has_execute d, v).
Proof.
  intros HA Hd. assert (FlagsOk A).
  { repeat (apply elem_of_cons in HA as [->|HA]; [exact _|]). by apply elem_of_nil in HA. }
  split_and!; [by apply reads_user|by apply reads_writable|by apply reads_execute|by apply reads_global].
Qed.

Lemma page_flags_independent_witness :
  X8664Arch ∈ formats /\ fits 64 3 /\ reads (A:=X8664Arch) (execute (A:=X8664Arch) 3 false) = (true, false, true, false, false).
Proof.
  assert (X8664Arch ∈ formats) as HA by (unfold formats; set_solver). assert (fits 64 3) as Hd by (split; lia).
  split_and!; [done..|]. destruct (page_flags_independent X8664Arch 3 false HA Hd) as (_ & _ & -> & _). reflexivity.
Defined.

End RmmFlags.
