(* ===== verification/RmmFrame.v ===== *)
(** * Frame allocators

    Models [third_party/rmm/src/allocator/frame/]: the interface
    ([mod.rs]), the bump allocator that hands out the memory areas in order
    ([bump.rs]), and the allocator the kernel runs on ([buddy.rs]), which
    keeps a table of areas in one page and a usage byte per page at the start
    of each area, in the memory it manages. *)

From S2P Require Import Prelude Bytes RmmArch.
Import RmmArch.

Module RmmFrame.

(** [a * b] and [a - b] on [usize]: overflow panics. *)
Definition umul {E} (a b : Z) : res E Z := if a * b <? 2 ^ 64 then Ok (a * b) else Panic.
Definition usub {E} (a b : Z) : res E Z := if a <? b then Panic else Ok (a - b).

(** [iter().sum::<usize>()] *)
Fixpoint usum {E} (l : list Z) (acc : Z) : res E Z :=
  match l with
  | [] => Ok acc
  | x :: l => acc' ← uadd acc x; usum l acc'
  end.

(** ** The interface *)

Record FrameUsage := mkUsage { fu_used : Z; fu_total : Z }.

Definition fu_free {E} (u : FrameUsage) : res E Z := usub (fu_total u) (fu_used u).

Class FrameAllocator (F : Type) := {
  allocate : Z -> RM F Z;
  free : Z -> Z -> RM F unit;
  usage : RM F FrameUsage
}.

Definition allocate_one {F} `{FrameAllocator F} : RM F Z := allocate 1.
Definition free_one {F} `{FrameAllocator F} (a : Z) : RM F unit := free a 1.

Section allocators.
Context {A : Arch}.

(** ** Bump allocator *)

Record MemoryArea := mkArea { area_base : Z; area_size : Z }.

Record BumpAllocator := mkBump { orig_areas : list MemoryArea * Z; cur_areas : list MemoryArea * Z }.

Fixpoint skip_areas (areas : list MemoryArea) (offset : Z) : list MemoryArea * Z :=
  match areas with
  | first :: rest => if area_size first <=? offset then skip_areas rest (offset - area_size first) else (areas, offset)
  | [] => ([], offset)
  end.

Definition bump_new (areas : list MemoryArea) (offset : Z) : BumpAllocator :=
  mkBump (skip_areas areas offset) (skip_areas areas offset).

Definition bump_areas (b : BumpAllocator) : list MemoryArea := fst (orig_areas b).

Definition free_areas (b : BumpAllocator) : list MemoryArea * Z := cur_areas b.

Definition abs_offset {E} (b : BumpAllocator) : res E Z :=
  match fst (cur_areas b) with
  | a :: _ => uadd (area_base a) (snd (cur_areas b))
  | [] => Ok 0
  end.

Definition bump_usage {E} (b : BumpAllocator) : res E FrameUsage :=
  t ← usum (area_size <$> fst (orig_areas b)) 0;
  total ← usub t (snd (orig_areas b));
  f ← usum (area_size <$> fst (cur_areas b)) 0;
  free ← usub f (snd (cur_areas b));
  used ← usub total free;
  Ok (mkUsage (used / PAGE_SIZE) (total / PAGE_SIZE)).

Definition bump_offset {E} (b : BumpAllocator) : res E Z :=
  u ← bump_usage b;
  f ← fu_free u;
  n ← usub (fu_total u) f;
  umul n PAGE_SIZE.

(** The loop of [allocate]: the block and what is left. *)
Fixpoint bump_find (areas : list MemoryArea) (off req_size : Z) : res unit (Z * (list MemoryArea * Z)) :=
  match areas with
  | [] => Err tt
  | area :: rest =>
      left ← usub (area_size area) off;
      if left <? req_size then bump_find rest 0 req_size
      else
        off' ← uadd off req_size;
        block ← uadd (area_base area) off;
        Ok (block, (areas, off'))
  end.

(** What the loop leaves when it gives up: it has dropped every area. *)
Definition bump_allocate (count : Z) : RM BumpAllocator Z := fun s =>
  let '(c, b) := s in
  match umul (E:=unit) count PAGE_SIZE with
  | Ok req_size =>
      match bump_find (fst (cur_areas b)) (snd (cur_areas b)) req_size with
      | Ok (block, cur) =>
          (v ← phys_to_virt block; _ ← write_bytes v 0 req_size; mret block) (c, mkBump (orig_areas b) cur)
      | Err _ => (Err tt, (c, mkBump (orig_areas b) match fst (cur_areas b) with [] => cur_areas b | _ => ([], 0) end))
      | Panic => (Panic, s)
      | Fault => (Fault, s)
      end
  | _ => (Panic, s)
  end.

(** ** Buddy allocator *)

Record BuddyEntry := mkEntry { base : Z; size : Z; skip : Z; used : Z }.

Definition BUDDY_ENTRY_SIZE : Z := 32.

(** The packed layout. *)
Definition entry_bytes (e : BuddyEntry) : list Z :=
  le_bytes 8 (base e) ++ le_bytes 8 (size e) ++ le_bytes 8 (skip e) ++ le_bytes 8 (used e).
Definition entry_of (bs : list Z) : BuddyEntry :=
  mkEntry (le_word (sub 0 8 bs)) (le_word (sub 8 8 bs)) (le_word (sub 16 8 bs)) (le_word (sub 24 8 bs)).

Definition empty : BuddyEntry := mkEntry 0 0 0 0.

Definition pages (e : BuddyEntry) : Z := Z.shiftr (size e) PAGE_SHIFT.

(** A usage byte per page, rounded up to pages. *)
Definition usage_pages (e : BuddyEntry) : Z := Z.shiftr (pages e * 1 + PAGE_OFFSET_MASK) PAGE_SHIFT.

Section entry.
Context {F : Type}.

Definition usage_addr (e : BuddyEntry) (page : Z) : RM F Z :=
  if page <? pages e then phys ← add (base e) (page * 1); phys_to_virt phys else throw tt.

Definition page_usage (e : BuddyEntry) (page : Z) : RM F Z :=
  a ← usage_addr e page;
  bs ← read a 1;
  mret (le_word bs).

Definition set_usage (e : BuddyEntry) (page u : Z) : RM F unit :=
  a ← usage_addr e page;
  write a [u].

(** An [Option] result that is not looked at. *)
Definition ignore {B} (m : RM F B) : RM F unit := fun s =>
  match m s with
  | (Ok _, s') => (Ok tt, s')
  | (Err _, s') => (Ok tt, s')
  | (Panic, s') => (Panic, s')
  | (Fault, s') => (Fault, s')
  end.

(** [.expect(...)] *)
Definition expect {B} (m : RM F B) : RM F B := fun s =>
  match m s with
  | (Err _, s') => (Panic, s')
  | r => r
  end.

Definition BUDDY_ENTRIES : Z := PAGE_SIZE / BUDDY_ENTRY_SIZE.

Definition slot (table_virt i : Z) : RM F Z := add table_virt (i * BUDDY_ENTRY_SIZE).

Definition read_entry (virt : Z) : RM F BuddyEntry := bs ← read virt BUDDY_ENTRY_SIZE; mret (entry_of bs).
Definition write_entry (virt : Z) (e : BuddyEntry) : RM F unit := write virt (entry_bytes e).

End entry.

Record BuddyAllocator := mkBuddy { table_virt : Z }.

(** ** Setting the table up *)

Fixpoint clear_table (n : nat) (t i : Z) : RM BumpAllocator unit :=
  match n with
  | O => mret tt
  | S n => v ← slot t i; _ ← write_entry v empty; clear_table n t (i + 1)
  end.

(** An area joined to an entry it continues, or made a new entry. *)
Definition combine (area : MemoryArea) (e : BuddyEntry) : RM BumpAllocator (option BuddyEntry) :=
  area_end ← add (area_base area) (area_size area);
  if area_end =? base e then
    size' ← lift (uadd (size e) (area_size area));
    mret (Some (mkEntry (area_base area) size' (skip e) (used e)))
  else
    entry_end ← add (base e) (size e);
    if area_base area =? entry_end then
      size' ← lift (uadd (size e) (area_size area));
      mret (Some (mkEntry (base e) size' (skip e) (used e)))
    else if size e =? 0 then mret (Some (mkEntry (area_base area) (area_size area) (skip e) (used e)))
    else mret None.

Fixpoint insert_area (n : nat) (t i : Z) (area : MemoryArea) : RM BumpAllocator unit :=
  match n with
  | O => mret tt
  | S n =>
      v ← slot t i;
      e ← read_entry v;
      o ← combine area e;
      match o with
      | Some e' => write_entry v e'
      | None => insert_area n t (i + 1) area
      end
  end.

Fixpoint insert_areas (t offset : Z) (areas : list MemoryArea) : RM BumpAllocator unit :=
  match areas with
  | [] => mret tt
  | area :: rest =>
      if area_size area <=? offset then insert_areas t (offset - area_size area) rest
      else
        b ← add (area_base area) offset;
        _ ← insert_area (Z.to_nat BUDDY_ENTRIES) t 0 (mkArea b (area_size area - offset));
        insert_areas t 0 rest
  end.

Fixpoint clear_usage (n : nat) (start page : Z) : RM BumpAllocator unit :=
  match n with
  | O => mret tt
  | S n =>
      a ← add start (wrap 64 (Z.shiftl page PAGE_SHIFT));
      _ ← write_bytes a 0 PAGE_SIZE;
      clear_usage n start (page + 1)
  end.

Fixpoint mark_usage (n : nat) (e : BuddyEntry) (page : Z) : RM BumpAllocator unit :=
  match n with
  | O => mret tt
  | S n => _ ← set_usage e page 1; mark_usage n e (page + 1)
  end.

Fixpoint setup_entries (n : nat) (t i : Z) : RM BumpAllocator unit :=
  match n with
  | O => mret tt
  | S n =>
      v ← slot t i;
      e ← read_entry v;
      let up := usage_pages e in
      _ ← (if up <? pages e then
             start ← usage_addr e 0;
             _ ← clear_usage (Z.to_nat up) start 0;
             mark_usage (Z.to_nat up) e 0
           else mret tt);
      _ ← write_entry v (mkEntry (base e) (size e) up up);
      setup_entries n t (i + 1)
  end.

Definition buddy_new : RM BumpAllocator BuddyAllocator :=
  table_phys ← bump_allocate 1;
  t ← phys_to_virt table_phys;
  _ ← clear_table (Z.to_nat BUDDY_ENTRIES) t 0;
  s ← get;
  offset ← lift (bump_offset (snd s));
  _ ← insert_areas t offset (bump_areas (snd s));
  _ ← setup_entries (Z.to_nat BUDDY_ENTRIES) t 0;
  mret (mkBuddy t).

(** ** Allocation *)

(** The scan for [count] free pages in a row: where the last run of free
    pages began and how long it was. *)
Fixpoint scan_free (n : nat) (e : BuddyEntry) (count page free_page free_count : Z) : RM BuddyAllocator (Z * Z) :=
  match n with
  | O => mret (free_page, free_count)
  | S n =>
      u ← page_usage e page;
      if u =? 0 then
        if free_count + 1 =? count then mret (free_page, free_count + 1)
        else scan_free n e count (page + 1) free_page (free_count + 1)
      else scan_free n e count (page + 1) (page + 1) 0
  end.

Definition page_phys (e : BuddyEntry) (page : Z) : RM BuddyAllocator Z :=
  add (base e) (wrap 64 (Z.shiftl page PAGE_SHIFT)).

Fixpoint take_pages (n : nat) (e : BuddyEntry) (page : Z) : RM BuddyAllocator unit :=
  match n with
  | O => mret tt
  | S n =>
      u ← page_usage e page;
      u' ← lift (if u + 1 <? 256 then Ok (u + 1) else Panic);
      _ ← ignore (set_usage e page u');
      phys ← page_phys e page;
      v ← phys_to_virt phys;
      _ ← write_bytes v 0 PAGE_SIZE;
      take_pages n e (page + 1)
  end.

Fixpoint allocate_from (n : nat) (t i count : Z) : RM BuddyAllocator Z :=
  match n with
  | O => throw tt
  | S n =>
      v ← slot t i;
      e ← read_entry v;
      '(free_page, free_count) ← scan_free (Z.to_nat (pages e - skip e)) e count (skip e) (skip e) 0;
      if free_count =? count then
        _ ← take_pages (Z.to_nat free_count) e free_page;
        let skip' := if skip e =? free_page then free_page + free_count else skip e in
        used' ← lift (uadd (used e) free_count);
        _ ← write_entry v (mkEntry (base e) (size e) skip' used');
        page_phys e free_page
      else allocate_from n t (i + 1) count
  end.

Definition buddy_allocate (count : Z) : RM BuddyAllocator Z :=
  s ← get;
  let t := table_virt (snd s) in
  if t =? 0 then throw tt else allocate_from (Z.to_nat BUDDY_ENTRIES) t 0 count.

(** ** Release *)

Fixpoint free_pages (n : nat) (e : BuddyEntry) (page : Z) : RM BuddyAllocator BuddyEntry :=
  match n with
  | O => mret e
  | S n =>
      u ← expect (page_usage e page);
      if 0 <? u then
        e' ← (if u - 1 =? 0 then
                used' ← lift (usub (used e) 1);
                mret (mkEntry (base e) (size e) (if page <? skip e then page else skip e) used')
              else mret e);
        _ ← expect (set_usage e' page (u - 1));
        free_pages n e' (page + 1)
      else lift Panic
  end.

Definition is_inside (e : BuddyEntry) (address size_ : Z) : RM BuddyAllocator bool :=
  if base e <=? address then
    last ← add address size_;
    entry_end ← add (base e) (size e);
    mret (last <=? entry_end)
  else mret false.

Fixpoint free_from (n : nat) (t i address count size_ : Z) : RM BuddyAllocator unit :=
  match n with
  | O => mret tt
  | S n =>
      v ← slot t i;
      e ← read_entry v;
      inside ← is_inside e address size_;
      if (inside : bool) then
        let start_page := Z.shiftr (address - base e) PAGE_SHIFT in
        e' ← free_pages (Z.to_nat count) e start_page;
        write_entry v e'
      else free_from n t (i + 1) address count size_
  end.

Definition buddy_free (address count : Z) : RM BuddyAllocator unit :=
  s ← get;
  let t := table_virt (snd s) in
  if t =? 0 then mret tt
  else
    size_ ← lift (umul count PAGE_SIZE);
    free_from (Z.to_nat BUDDY_ENTRIES) t 0 address count size_.

Fixpoint usage_from (n : nat) (t i total used_ : Z) : RM BuddyAllocator FrameUsage :=
  match n with
  | O => mret (mkUsage used_ total)
  | S n =>
      v ← slot t i;
      e ← read_entry v;
      total' ← lift (uadd total (Z.shiftr (size e) PAGE_SHIFT));
      used' ← lift (uadd used_ (used e));
      usage_from n t (i + 1) total' used'
  end.

Definition buddy_usage : RM BuddyAllocator FrameUsage :=
  s ← get;
  usage_from (Z.to_nat BUDDY_ENTRIES) (table_virt (snd s)) 0 0 0.

End allocators.

#[global] Instance BuddyAllocator_FrameAllocator {A : Arch} : FrameAllocator BuddyAllocator := {
  allocate := buddy_allocate;
  free := buddy_free;
  usage := buddy_usage
}.

End RmmFrame.
