(* ===== verification/RmmBuddy.v ===== *)
(** * The frame allocator as a set of frames

    What a client of a frame allocator relies on, and the proof that the
    buddy allocator of [RmmFrame] provides it: its table and usage bytes,
    which live in the memory it manages, represent a set of frames in use. *)

From S2P Require Import Prelude Bytes RmmArch RmmFrame.
Import RmmArch RmmFrame.

Module RmmBuddy.

(** ** Frames in memory *)

Section frames.
Context {A : Arch}.

(** The direct map. *)
Definition V (p : Z) : Z := p + PHYS_OFFSET.

Definition in_frame (a p : Z) : Prop := V p <= a < V p + PAGE_SIZE.

(** [n] frames from [p] on. *)
Definition run (p n : Z) : gset Z := list_to_set ((fun k => p + k * PAGE_SIZE) <$> seqZ 0 n).

Definition page_zero (m : gmap Z Z) (p : Z) : Prop := forall a, in_frame a p -> m !! a = Some 0.

Definition same_dom (m m' : gmap Z Z) : Prop := forall a, is_Some (m' !! a) <-> is_Some (m !! a).

End frames.

(** ** The interface

    [rep m f R U]: in memory [m], the allocator [f] manages the frames [R], of
    which [U] are handed out.  It keeps its own data outside the frames it
    handed out, so that a client may write to those. *)
Class AllocSpec {A : Arch} (F : Type) `{FrameAllocator F} := {
  rep : gmap Z Z -> F -> gset Z -> gset Z -> Prop;
  rep_used m f R U : rep m f R U -> U ⊆ R;
  rep_frame m f R U p : rep m f R U -> p ∈ R -> frame_ok p /\ mapped m (V p) PAGE_SIZE;
  rep_stable m m' f R U :
    rep m f R U -> same_dom m m' ->
    (forall a, (forall p, p ∈ U -> ~ in_frame a p) -> m' !! a = m !! a) -> rep m' f R U;
  rep_allocate c f R U n :
    rep (mem c) f R U -> 0 < n ->
    (exists p m' f', allocate n (c, f) = (Ok p, (with_mem m' c, f')) /\ run p n ⊆ R ∖ U /\
       rep m' f' R (run p n ∪ U) /\ (forall q, q ∈ run p n -> page_zero m' q) /\
       same_dom (mem c) m' /\ forall a q, q ∈ U -> in_frame a q -> m' !! a = mem c !! a) \/
    (allocate n (c, f) = (Err tt, (c, f)) /\ forall p, ~ run p n ⊆ R ∖ U);
  rep_free c f R U p n :
    rep (mem c) f R U -> 0 < n -> run p n ⊆ U ->
    exists m' f', free p n (c, f) = (Ok tt, (with_mem m' c, f')) /\ rep m' f' R (U ∖ run p n) /\
      same_dom (mem c) m' /\ forall a q, q ∈ U -> in_frame a q -> m' !! a = mem c !! a
}.

(** ** Memory lemmas *)

Lemma same_dom_refl m : same_dom m m.
Proof. done. Qed.

Lemma same_dom_trans m1 m2 m3 : same_dom m1 m2 -> same_dom m2 m3 -> same_dom m1 m3.
Proof. intros H1 H2 a. by rewrite (H2 a). Qed.

Lemma same_dom_store m a bs : mapped m a (zlen bs) -> same_dom m (store_bytes m a bs).
Proof.
  intros Hm i. rewrite store_bytes_lookup. case_decide; [|done]. split; intros _.
  - by eapply mapped_alt.
  - apply lookup_lt_is_Some. unfold zlen in *. lia.
Qed.

Lemma same_dom_mapped m m' a n : same_dom m m' -> mapped m a n -> mapped m' a n.
Proof. intros Hd Hm. apply mapped_alt. intros i Hi. apply Hd. by eapply mapped_alt. Qed.

Lemma mapped_sub m a n b k : mapped m a n -> a <= b -> b + k <= a + n -> mapped m b k.
Proof. rewrite !mapped_alt. intros Hm ?? i Hi. apply Hm. lia. Qed.

Section machine.
Context {F : Type}.

Lemma write_ok a bs (c : Machine) (f : F) :
  mapped (mem c) a (zlen bs) -> write a bs (c, f) = (Ok tt, (with_mem (store_bytes (mem c) a bs) c, f)).
Proof. intros Hm. unfold write. cbn [fst snd]. by rewrite (store_Ok (E:=unit)). Qed.

Lemma read_ok a n bs (c : Machine) (f : F) :
  load (E:=unit) (mem c) a n = Ok bs -> read a n (c, f) = (Ok bs, (c, f)).
Proof. intros Hl. unfold read. cbn [fst]. by rewrite Hl. Qed.

Lemma with_mem_mem m c : mem (with_mem m c) = m.
Proof. done. Qed.

Lemma with_mem_twice m m' c : with_mem m (with_mem m' c) = with_mem m c.
Proof. done. Qed.

End machine.

Lemma load_one {E} m a b : m !! a = Some b -> load (E:=E) m a 1 = Ok [b].
Proof.
  intros Hb. apply load_Ok_iff; [lia|]. split; [done|]. intros [|i] Hi; [|lia]. by rewrite Z.add_0_r.
Qed.

Lemma uadd_ok {E} a b : a + b < 2 ^ 64 -> uadd (E:=E) a b = Ok (a + b).
Proof. intros. unfold uadd. by destruct (Z.ltb_spec (a + b) (2 ^ 64)); [|lia]. Qed.

(** ** Entries *)

Lemma entry_bytes_len e : zlen (entry_bytes e) = 32.
Proof. unfold entry_bytes. by rewrite !zlen_app, !zlen_le_bytes. Qed.

Lemma entry_of_bytes e :
  fits 64 (base e) -> fits 64 (size e) -> fits 64 (skip e) -> fits 64 (used e) -> entry_of (entry_bytes e) = e.
Proof.
  intros H1 H2 H3 H4. destruct e as [b z s u]. cbn [base size skip used] in *. unfold entry_of, entry_bytes.
  cbn [base size skip used].
  rewrite (sub_here 8), (sub_skip 8), (sub_skip 16), (sub_skip 24) by (by rewrite zlen_le_bytes).
  rewrite !zlen_le_bytes. change (8 - Z.of_nat 8) with 0. change (16 - Z.of_nat 8) with 8. change (24 - Z.of_nat 8) with 16.
  rewrite (sub_here 8), (sub_skip 8), (sub_skip 16) by (by rewrite zlen_le_bytes).
  rewrite !zlen_le_bytes. change (8 - Z.of_nat 8) with 0. change (16 - Z.of_nat 8) with 8.
  rewrite (sub_here 8), (sub_skip 8) by (by rewrite zlen_le_bytes). rewrite !zlen_le_bytes.
  change (8 - Z.of_nat 8) with 0. rewrite <-(app_nil_r (le_bytes 8 u)), (sub_here 8) by (by rewrite zlen_le_bytes).
  by rewrite !le_word_round.
Qed.

Section buddy.
Context {A : Arch} {AO : ArchOk A}.

Implicit Types (m : gmap Z Z) (e : BuddyEntry).

(** The usage byte of a page. *)
Definition ub m e (k : Z) : option Z := m !! (V (base e) + k).

Definition used_count m e : Z := zlen (filter (fun k => ub m e k = Some 1) (seqZ 0 (pages e))).

Record place_ok m e : Prop := {
  po_base : 0 <= base e /\ base e mod PAGE_SIZE = 0;
  po_size : 0 <= size e /\ size e mod PAGE_SIZE = 0;
  po_end : base e + size e + PHYS_OFFSET <= 2 ^ 64;
  po_mapped : mapped m (V (base e)) (size e)
}.

Record live_ok m e : Prop := {
  lo_bit k : 0 <= k < pages e -> ub m e k = Some 0 \/ ub m e k = Some 1;
  lo_meta k : 0 <= k < usage_pages e -> ub m e k = Some 1;
  lo_skip_range : 0 <= skip e <= pages e;
  lo_skip k : 0 <= k < skip e -> ub m e k = Some 1;
  lo_used : used e = used_count m e
}.

(** An entry with room for its usage bytes and more, or one that gives no
    frames. *)
Definition entry_ok m e : Prop :=
  place_ok m e /\ fits 64 (skip e) /\ fits 64 (used e) /\
  (usage_pages e < pages e /\ live_ok m e \/ pages e <= usage_pages e /\ pages e <= skip e).

Record buddy_ok m (t : Z) (es : list BuddyEntry) : Prop := {
  bo_len : zlen es = BUDDY_ENTRIES;
  bo_table : 0 < t /\ t + PAGE_SIZE <= 2 ^ 64 /\ mapped m t PAGE_SIZE;
  bo_entry i e : es !! i = Some e -> load (E:=unit) m (t + Z.of_nat i * 32) 32 = Ok (entry_bytes e) /\ entry_ok m e;
  bo_apart i e j e' : es !! i = Some e -> es !! j = Some e' -> i <> j ->
    base e + size e <= base e' \/ base e' + size e' <= base e;
  bo_away i e : es !! i = Some e -> t + PAGE_SIZE <= V (base e) \/ V (base e) + size e <= t
}.

(** Page [k] of entry [e], past its usage bytes. *)
Definition page_of (es : list BuddyEntry) (p : Z) (e : BuddyEntry) (k : Z) : Prop :=
  e ∈ es /\ usage_pages e <= k < pages e /\ p = base e + k * PAGE_SIZE.

Definition frames_of e : list Z := (fun k => base e + k * PAGE_SIZE) <$> seqZ (usage_pages e) (pages e - usage_pages e).

Definition used_of m e : list Z :=
  (fun k => base e + k * PAGE_SIZE) <$> filter (fun k => ub m e k = Some 1) (seqZ (usage_pages e) (pages e - usage_pages e)).

Definition all_frames (es : list BuddyEntry) : gset Z := list_to_set (es ≫= frames_of).
Definition used_frames m (es : list BuddyEntry) : gset Z := list_to_set (es ≫= used_of m).

Lemma elem_all_frames es p : p ∈ all_frames es <-> exists e k, page_of es p e k.
Proof.
  unfold all_frames, page_of, frames_of. rewrite elem_of_list_to_set, list_elem_of_bind. split.
  - intros (e & (k & -> & Hk%elem_of_seqZ)%list_elem_of_fmap & He). exists e, k. split_and!; [done|lia..|done].
  - intros (e & k & He & Hk & ->). exists e. split; [|done]. apply list_elem_of_fmap. exists k. split; [done|].
    apply elem_of_seqZ. lia.
Qed.

Lemma elem_used_frames m es p : p ∈ used_frames m es <-> exists e k, page_of es p e k /\ ub m e k = Some 1.
Proof.
  unfold used_frames, page_of, used_of. rewrite elem_of_list_to_set, list_elem_of_bind. split.
  - intros (e & (k & -> & [Hu Hk%elem_of_seqZ]%list_elem_of_filter)%list_elem_of_fmap & He).
    exists e, k. split_and!; [done|lia..|done|done].
  - intros (e & k & (He & Hk & ->) & Hu). exists e. split; [|done]. apply list_elem_of_fmap. exists k. split; [done|].
    apply list_elem_of_filter. split; [done|]. apply elem_of_seqZ. lia.
Qed.

Lemma elem_run p n q : q ∈ run p n <-> exists k, 0 <= k < n /\ q = p + k * PAGE_SIZE.
Proof.
  unfold run. rewrite elem_of_list_to_set, list_elem_of_fmap. setoid_rewrite elem_of_seqZ.
  split; intros (k & H1 & H2); exists k; split; (done || lia).
Qed.

(** ** Sizes *)

Lemma pages_size m e : place_ok m e -> size e = pages e * PAGE_SIZE /\ 0 <= pages e.
Proof.
  intros [_ [H0 Hm] _ _]. unfold pages. pose proof page_size_pos. rewrite Z.shiftr_div_pow2, <-page_size_eq by (pose proof page_shift_pos; lia).
  split; [|apply Z.div_pos; lia]. pose proof (Z.div_mod (size e) PAGE_SIZE). lia.
Qed.

Lemma usage_pages_bound e : 0 <= pages e -> 0 <= usage_pages e /\ pages e <= usage_pages e * PAGE_SIZE /\ (0 < pages e -> 0 < usage_pages e).
Proof.
  intros Hp. unfold usage_pages, PAGE_OFFSET_MASK. pose proof page_size_pos. rewrite Z.mul_1_r, Z.shiftr_div_pow2, <-page_size_eq by (pose proof page_shift_pos; lia).
  assert (PAGE_SIZE <> 0 /\ 0 < PAGE_SIZE) as [Hn Hq] by lia.
  pose proof (Z.div_mod (pages e + (PAGE_SIZE - 1)) _ Hn).
  pose proof (Z.mod_pos_bound (pages e + (PAGE_SIZE - 1)) _ Hq).
  split_and!; [apply Z.div_pos; lia|lia|]. intros. apply Z.div_str_pos. lia.
Qed.

(** A frame of an entry lies inside its area and behind its usage bytes. *)
Lemma page_inside m e k :
  place_ok m e -> usage_pages e <= k < pages e ->
  base e + pages e <= base e + k * PAGE_SIZE /\ base e + k * PAGE_SIZE + PAGE_SIZE <= base e + size e.
Proof.
  intros Hpo Hk. destruct (pages_size _ _ Hpo) as [Hs H0]. destruct (usage_pages_bound e H0) as (H1 & H2 & _).
  pose proof page_size_pos. rewrite Hs. split; nia.
Qed.

(** A page belongs to one entry only. *)
Lemma page_of_unique m t es p e k e' k' :
  buddy_ok m t es -> page_of es p e k -> page_of es p e' k' -> e = e' /\ k = k'.
Proof.
  intros Hb (He & Hk & Hp) (He' & Hk' & Hp').
  apply list_elem_of_lookup in He as [i Hi]. apply list_elem_of_lookup in He' as [j Hj].
  destruct (bo_entry _ _ _ Hb _ _ Hi) as [_ [Hpo _]]. destruct (bo_entry _ _ _ Hb _ _ Hj) as [_ [Hpo' _]].
  pose proof (page_inside _ _ _ Hpo Hk). pose proof (page_inside _ _ _ Hpo' Hk'). pose proof page_size_pos.
  destruct (pages_size _ _ Hpo) as [_ ?]. destruct (pages_size _ _ Hpo') as [_ ?].
  destruct (decide (i = j)) as [->|Hne].
  - simplify_eq. split; [done|]. nia.
  - destruct (bo_apart _ _ _ Hb _ _ _ _ Hi Hj Hne); lia.
Qed.

(** ** One entry *)

Lemma usage_addr_ok {F} m e page (s : Machine * F) :
  place_ok m e -> 0 <= page < pages e -> usage_addr e page s = (Ok (V (base e) + page), s).
Proof.
  intros Hpo Hp. destruct (pages_size _ _ Hpo) as [Hs _]. pose proof page_size_pos. pose proof (po_end _ _ Hpo).
  pose proof (offset_range (A:=A)). unfold usage_addr, add, phys_to_virt. destruct (Z.ltb_spec page (pages e)); [|lia].
  unfold mbind, M_bind, lift. rewrite Z.mul_1_r, uadd_ok by nia. rewrite uadd_ok by nia. do 2 f_equal. unfold V. lia.
Qed.

Lemma page_usage_ok {F} e page b (c : Machine) (f : F) :
  place_ok (mem c) e -> 0 <= page < pages e -> ub (mem c) e page = Some b -> page_usage e page (c, f) = (Ok b, (c, f)).
Proof.
  intros Hpo Hp Hb. unfold page_usage, mbind, M_bind. rewrite (usage_addr_ok (mem c)) by done.
  rewrite (read_ok _ _ [b]) by (by apply load_one). unfold mret, M_ret, le_word. cbn [foldr]. do 2 f_equal. lia.
Qed.

Lemma set_usage_ok {F} e page u (c : Machine) (f : F) :
  place_ok (mem c) e -> 0 <= page < pages e ->
  set_usage e page u (c, f) = (Ok tt, (with_mem (<[V (base e) + page := u]> (mem c)) c, f)).
Proof.
  intros Hpo Hp. unfold set_usage, mbind, M_bind. rewrite (usage_addr_ok (mem c)) by done.
  rewrite write_ok; [done|]. destruct (pages_size _ _ Hpo) as [Hs _]. pose proof page_size_pos.
  apply (mapped_sub _ _ _ _ _ (po_mapped _ _ Hpo)); change (zlen [u]) with 1; nia.
Qed.

Lemma entry_ok_ext m m' e :
  entry_ok m e -> same_dom m m' -> (forall k, 0 <= k < pages e -> ub m' e k = ub m e k) -> entry_ok m' e.
Proof.
  intros (Hpo & H1 & H2 & Hl) Hd Hu. split_and!; [|done|done|].
  - destruct Hpo. split; [done..|]. by eapply same_dom_mapped.
  - destruct Hl as [[Hlt [L1 L2 L3 L4 L5]]|Hl]; [left|by right]. split; [done|]. split.
    + intros k Hk. rewrite Hu by done. auto.
    + intros k Hk. rewrite Hu by lia. auto.
    + done.
    + intros k Hk. rewrite Hu by lia. auto.
    + rewrite L5. unfold used_count. f_equal. apply filter_iff_in. intros k Hk%elem_of_seqZ. by rewrite Hu by lia.
Qed.

(** Where a run of [count] free pages can be. *)
Definition free_run m e (q count : Z) : Prop :=
  skip e <= q /\ q + count <= pages e /\ forall k, q <= k < q + count -> ub m e k = Some 0.

(** The scan finds a run, or there is none. *)
Lemma scan_free_ok n e count page fp fc (c : Machine) f :
  place_ok (mem c) e -> live_ok (mem c) e -> 0 < count ->
  Z.of_nat n = pages e - page -> skip e <= fp -> fc = page - fp -> 0 <= fc < count ->
  (forall k, fp <= k < page -> ub (mem c) e k = Some 0) ->
  (skip e < fp -> ub (mem c) e (fp - 1) = Some 1) ->
  (forall q, skip e <= q -> q + count <= page -> ~ free_run (mem c) e q count) ->
  exists fp' fc', scan_free n e count page fp fc (c, f) = (Ok (fp', fc'), (c, f)) /\
    (fc' = count /\ free_run (mem c) e fp' count \/ fc' < count /\ forall q, ~ free_run (mem c) e q count).
Proof.
  intros Hpo Hl Hc. revert page fp fc. induction n as [|n IH]; intros page fp fc Hn Hs Hfc Hr Hfree Hbefore Hno.
  - exists fp, fc. split; [done|]. right. split; [lia|]. intros q Hq. apply (Hno q); [apply Hq|destruct Hq; lia|done].
  - cbn [scan_free]. pose proof (lo_skip_range _ _ Hl). unfold mbind at 1, M_bind at 1.
    destruct (lo_bit _ _ Hl page) as [Hb|Hb]; [lia|..].
    + rewrite (page_usage_ok _ _ 0) by (done || lia). cbn [Z.eqb].
      destruct (Z.eqb_spec (fc + 1) count) as [Heq|Hne].
      * exists fp, (fc + 1). split; [done|]. left. split; [done|]. split_and!; [lia|lia|]. intros k Hk.
        destruct (decide (k = page)) as [->|]; [done|]. apply Hfree. lia.
      * apply IH; [lia..| | |]; [|done|].
        -- intros k Hk. destruct (decide (k = page)) as [->|]; [done|]. apply Hfree. lia.
        -- intros q Hq1 Hq2. destruct (decide (q + count <= page)); [by apply Hno|]. intros (_ & _ & Hall).
           destruct (decide (skip e < fp)); [|lia]. specialize (Hall (fp - 1) ltac:(lia)). rewrite Hbefore in Hall by done. done.
    + rewrite (page_usage_ok _ _ 1) by (done || lia). cbn [Z.eqb].
      apply IH; [lia..| | |].
      * intros k Hk. lia.
      * intros _. by replace (page + 1 - 1) with page by lia.
      * intros q Hq1 Hq2. destruct (decide (q + count <= page)); [by apply Hno|]. intros (_ & _ & Hall).
        specialize (Hall page ltac:(lia)). rewrite Hb in Hall. done.
Qed.

(** What taking pages does to memory. *)
Definition taken m e (page n : Z) m' : Prop := forall a,
  m' !! a = if decide (V (base e) + page <= a < V (base e) + page + n) then Some 1
            else if decide (V (base e) + page * PAGE_SIZE <= a < V (base e) + (page + n) * PAGE_SIZE) then Some 0
            else m !! a.

Lemma page_phys_ok m e page s :
  place_ok m e -> 0 <= page < pages e -> page_phys e page s = (Ok (base e + page * PAGE_SIZE), s).
Proof.
  intros Hpo Hp. destruct (pages_size _ _ Hpo) as [Hs _]. pose proof page_size_pos. pose proof (po_end _ _ Hpo).
  destruct (po_base _ _ Hpo). pose proof (offset_range (A:=A)). pose proof page_shift_pos.
  unfold page_phys, add, lift. rewrite Z.shiftl_mul_pow2, <-page_size_eq by lia. rewrite wrap_small by (split; nia).
  by rewrite uadd_ok by nia.
Qed.

Lemma taken_step m e page n m1 m2 m' :
  place_ok m e -> usage_pages e <= page -> page + (n + 1) <= pages e -> 0 <= n ->
  m1 = <[V (base e) + page := 1]> m ->
  m2 = store_bytes m1 (V (base e + page * PAGE_SIZE)) (replicate (Z.to_nat PAGE_SIZE) 0) ->
  taken m2 e (page + 1) n m' -> taken m e page (n + 1) m'.
Proof.
  intros Hpo Hu Hp Hn -> -> Ht a. rewrite Ht. pose proof page_size_pos.
  destruct (page_inside m e page Hpo) as [H1 H2]; [lia|]. destruct (pages_size _ _ Hpo) as [Hs H0].
  destruct (usage_pages_bound e H0) as (U1 & U2 & _).
  assert (Hz : zlen (replicate (Z.to_nat PAGE_SIZE) 0) = PAGE_SIZE) by (unfold zlen; rewrite length_replicate; lia).
  rewrite store_bytes_lookup, Hz. unfold V in *.
  destruct (decide (a = base e + PHYS_OFFSET + page)) as [->|Hne].
  { rewrite (decide_False (P := base e + PHYS_OFFSET + (page + 1) <= _ < _)) by lia.
    rewrite (decide_False (P := base e + PHYS_OFFSET + (page + 1) * PAGE_SIZE <= _ < _)) by nia.
    rewrite (decide_False (P := base e + page * PAGE_SIZE + PHYS_OFFSET <= _ < _)) by nia.
    rewrite lookup_insert_eq. by rewrite decide_True by lia. }
  rewrite lookup_insert_ne by done.
  destruct (decide (base e + PHYS_OFFSET + (page + 1) <= a < base e + PHYS_OFFSET + (page + 1) + n)).
  { by rewrite decide_True by lia. }
  rewrite (decide_False (P := base e + PHYS_OFFSET + page <= a < _)) by lia.
  destruct (decide (base e + PHYS_OFFSET + (page + 1) * PAGE_SIZE <= a < _)) as [Hd|Hd].
  { by rewrite decide_True by nia. }
  destruct (decide (base e + page * PAGE_SIZE + PHYS_OFFSET <= a < _)) as [Hd2|Hd2].
  { rewrite decide_True by nia. apply lookup_replicate. split; [done|lia]. }
  by rewrite decide_False by nia.
Qed.

Lemma take_pages_ok n e page (c : Machine) f :
  place_ok (mem c) e -> usage_pages e <= page -> page + Z.of_nat n <= pages e ->
  (forall k, page <= k < page + Z.of_nat n -> ub (mem c) e k = Some 0) ->
  exists m', take_pages n e page (c, f) = (Ok tt, (with_mem m' c, f)) /\ taken (mem c) e page (Z.of_nat n) m' /\
    same_dom (mem c) m'.
Proof.
  intros Hpo. destruct (pages_size _ _ Hpo) as [Hs H0]. destruct (usage_pages_bound e H0) as (U1 & U2 & _).
  revert page c Hpo. induction n as [|n IH]; intros page c Hpo Hu Hp Hfree.
  - exists (mem c). split; [by destruct c|]. split; [|done]. intros a.
    rewrite (decide_False (P := V _ + page <= _ < _)) by lia. by rewrite decide_False by lia.
  - cbn [take_pages]. rewrite Nat2Z.inj_succ in *. unfold mbind, M_bind.
    rewrite (page_usage_ok _ _ 0) by (done || lia || (apply Hfree; lia)).
    unfold lift at 1. change (0 + 1 <? 256) with true. cbn iota. unfold ignore.
    rewrite set_usage_ok by (done || lia).
    rewrite (page_phys_ok (mem c)) by (done || lia). unfold phys_to_virt, lift.
    destruct (page_inside _ _ page Hpo) as [I1 I2]; [lia|]. pose proof (po_end _ _ Hpo).
    rewrite uadd_ok by (pose proof page_size_pos; lia). unfold write_bytes.
    assert (Hz : zlen (replicate (Z.to_nat PAGE_SIZE) 0) = PAGE_SIZE)
      by (unfold zlen; rewrite length_replicate; pose proof page_size_pos; lia).
    set (m1 := <[V (base e) + page := 0 + 1]> (mem c)).
    assert (Hd1 : same_dom (mem c) m1).
    { intros a. unfold m1. destruct (decide (a = V (base e) + page)) as [->|].
      - rewrite lookup_insert_eq. unfold ub in Hfree. rewrite (Hfree page) by lia. done.
      - by rewrite lookup_insert_ne. }
    assert (Hm : mapped m1 (base e + page * PAGE_SIZE + PHYS_OFFSET) PAGE_SIZE).
    { apply (same_dom_mapped (mem c)); [done|]. apply (mapped_sub _ _ _ _ _ (po_mapped _ _ Hpo)); unfold V; lia. }
    rewrite write_ok by (by rewrite Hz). rewrite with_mem_mem, with_mem_twice.
    set (m2 := store_bytes m1 _ _). assert (Hd2 : same_dom m1 m2) by (apply same_dom_store; by rewrite Hz).
    destruct (IH (page + 1) (with_mem m2 c)) as (m' & -> & Ht & Hd).
    { destruct Hpo. split; [done..|]. eapply same_dom_mapped; [|done]. by eapply same_dom_trans. }
    { lia. } { lia. }
    { intros k Hk. unfold ub. rewrite with_mem_mem. unfold m2. rewrite store_bytes_lookup, decide_False.
      - unfold m1. rewrite lookup_insert_ne by lia. apply Hfree. lia.
      - unfold V. pose proof page_size_pos. nia. }
    exists m'. split; [done|]. split.
    + rewrite <-Z.add_1_r. eapply (taken_step _ _ _ _ m1 m2); try done; lia.
    + eapply same_dom_trans; [exact Hd1|]. by eapply same_dom_trans.
Qed.

(** ** Counting used pages *)

Lemma used_split m e q n :
  0 <= q -> 0 <= n -> q + n <= pages e ->
  used_count m e = zlen (filter (fun k => ub m e k = Some 1) (seqZ 0 q)) +
    zlen (filter (fun k => ub m e k = Some 1) (seqZ q n)) +
    zlen (filter (fun k => ub m e k = Some 1) (seqZ (q + n) (pages e - (q + n)))).
Proof.
  intros Hq Hn Hp. unfold used_count.
  replace (pages e) with (q + (n + (pages e - (q + n)))) at 1 by lia.
  rewrite seqZ_app, seqZ_app, !filter_app, !zlen_app by lia. rewrite Z.add_0_l. lia.
Qed.

Lemma count_all m e q n v :
  0 <= n -> (forall k, q <= k < q + n -> ub m e k = Some v) ->
  zlen (filter (fun k => ub m e k = Some 1) (seqZ q n)) = if decide (v = 1) then n else 0.
Proof.
  intros Hn H. rewrite (filter_iff_in _ (fun _ => v = 1)).
  - rewrite filter_const. case_decide; [|done]. unfold zlen. rewrite length_seqZ. lia.
  - intros k Hk%elem_of_seqZ. rewrite H by done. naive_solver.
Qed.

(** Setting the bytes of [n] pages that all had another value. *)
Lemma used_count_set m m' e q n v v' :
  0 <= q -> 0 <= n -> q + n <= pages e ->
  (forall k, q <= k < q + n -> ub m e k = Some v) ->
  (forall k, 0 <= k < pages e -> ub m' e k = if decide (q <= k < q + n) then Some v' else ub m e k) ->
  used_count m' e = used_count m e + (if decide (v' = 1) then n else 0) - (if decide (v = 1) then n else 0).
Proof.
  intros Hq Hn Hp Hv Hv'. rewrite (used_split m' _ q n), (used_split m _ q n) by done.
  rewrite (count_all m e q n v), (count_all m' e q n v') by (done || (intros; rewrite Hv' by lia; by rewrite decide_True)).
  assert (forall a b, 0 <= a -> a + b <= pages e -> (a + b <= q \/ q + n <= a) ->
    filter (fun k => ub m' e k = Some 1) (seqZ a b) = filter (fun k => ub m e k = Some 1) (seqZ a b)) as Hout.
  { intros a b Ha Hb Hd. apply filter_iff_in. intros k Hk%elem_of_seqZ. rewrite Hv' by lia. by rewrite decide_False by lia. }
  rewrite (Hout 0 q), (Hout (q + n)) by lia. lia.
Qed.

(** ** The table *)

Lemma buddy_entries_size : BUDDY_ENTRIES * 32 <= PAGE_SIZE.
Proof. unfold BUDDY_ENTRIES, BUDDY_ENTRY_SIZE. pose proof page_size_pos. pose proof (Z.mul_div_le PAGE_SIZE 32). lia. Qed.

Lemma place_fits m e : place_ok m e -> fits 64 (base e) /\ fits 64 (size e).
Proof. intros [[] [] ? _]. pose proof (offset_range (A:=A)). unfold fits. lia. Qed.

Lemma entry_ok_fits m e : entry_ok m e -> entry_of (entry_bytes e) = e.
Proof. intros (Hp & H1 & H2 & _). destruct (place_fits _ _ Hp). by apply entry_of_bytes. Qed.

Lemma slot_range m t es i e :
  buddy_ok m t es -> es !! i = Some e -> t + Z.of_nat i * 32 + 32 <= t + PAGE_SIZE.
Proof.
  intros Hb Hi. apply lookup_lt_Some in Hi. pose proof (bo_len _ _ _ Hb) as Hl. unfold zlen in Hl.
  pose proof buddy_entries_size. lia.
Qed.

Lemma slot_ok {F} m t es i e (s : Machine * F) :
  buddy_ok m t es -> es !! i = Some e -> slot t (Z.of_nat i) s = (Ok (t + Z.of_nat i * 32), s).
Proof.
  intros Hb Hi. pose proof (slot_range _ _ _ _ _ Hb Hi). destruct (bo_table _ _ _ Hb) as (_ & H2 & _).
  unfold slot, add, lift, BUDDY_ENTRY_SIZE. by rewrite uadd_ok by lia.
Qed.

Lemma read_entry_ok {F} t es i e (c : Machine) (f : F) :
  buddy_ok (mem c) t es -> es !! i = Some e -> read_entry (t + Z.of_nat i * 32) (c, f) = (Ok e, (c, f)).
Proof.
  intros Hb Hi. destruct (bo_entry _ _ _ Hb _ _ Hi) as [Hl He]. unfold read_entry, mbind, M_bind.
  rewrite (read_ok _ _ _ _ _ Hl). unfold mret, M_ret. by rewrite (entry_ok_fits _ _ He).
Qed.

Lemma write_entry_ok {F} t es i e e' (c : Machine) (f : F) m :
  buddy_ok m t es -> same_dom m (mem c) -> es !! i = Some e ->
  write_entry (t + Z.of_nat i * 32) e' (c, f) =
    (Ok tt, (with_mem (store_bytes (mem c) (t + Z.of_nat i * 32) (entry_bytes e')) c, f)).
Proof.
  intros Hb Hd Hi. unfold write_entry. apply write_ok. rewrite entry_bytes_len. destruct (bo_table _ _ _ Hb) as (_ & _ & Hm).
  eapply same_dom_mapped; [exact Hd|]. apply (mapped_sub _ _ _ _ _ Hm); [lia|]. by eapply slot_range.
Qed.

(** Changing one entry in place. *)
Lemma buddy_update m t es i e e' m' :
  buddy_ok m t es -> es !! i = Some e -> base e' = base e -> size e' = size e -> same_dom m m' ->
  load (E:=unit) m' (t + Z.of_nat i * 32) 32 = Ok (entry_bytes e') -> entry_ok m' e' ->
  (forall a, t <= a < t + PAGE_SIZE -> ~ t + Z.of_nat i * 32 <= a < t + Z.of_nat i * 32 + 32 -> m' !! a = m !! a) ->
  (forall j ej k, j <> i -> es !! j = Some ej -> 0 <= k < pages ej -> ub m' ej k = ub m ej k) ->
  buddy_ok m' t (<[i:=e']> es).
Proof.
  intros Hb Hi Hbase Hsize Hd Hld Hok Htab Hub.
  assert (Hlk : forall j x, <[i:=e']> es !! j = Some x -> exists x0, es !! j = Some x0 /\ base x = base x0 /\ size x = size x0 /\ (j <> i -> x = x0) /\ (j = i -> x = e')).
  { intros j x Hx. destruct (decide (j = i)) as [->|Hne].
    - rewrite list_lookup_insert_eq in Hx by (by eapply lookup_lt_Some). simplify_eq. exists e. naive_solver.
    - rewrite list_lookup_insert_ne in Hx by done. exists x. naive_solver. }
  split.
  - unfold zlen. rewrite length_insert. apply (bo_len _ _ _ Hb).
  - destruct (bo_table _ _ _ Hb) as (H1 & H2 & H3). split_and!; [done|done|by eapply same_dom_mapped].
  - intros j x Hx. destruct (decide (j = i)) as [->|Hne].
    + destruct (Hlk _ _ Hx) as (x0 & _ & _ & _ & _ & He). rewrite (He eq_refl). done.
    + destruct (Hlk _ _ Hx) as (x0 & Hx0 & _ & _ & He & _). rewrite (He Hne). destruct (bo_entry _ _ _ Hb _ _ Hx0) as [Hl Hx0ok].
      split; [|apply (entry_ok_ext m); [done..|]; intros k Hk; by eapply Hub].
      rewrite <-Hl. apply load_ext. intros a Ha. pose proof (slot_range _ _ _ _ _ Hb Hx0). apply Htab; lia.
  - intros j x j' x' Hx Hx' Hne. destruct (Hlk _ _ Hx) as (y & Hy & -> & -> & _). destruct (Hlk _ _ Hx') as (y' & Hy' & -> & -> & _).
    by eapply (bo_apart _ _ _ Hb).
  - intros j x Hx. destruct (Hlk _ _ Hx) as (y & Hy & -> & -> & _). by eapply (bo_away _ _ _ Hb).
Qed.

(** The frames depend on the places of the entries only. *)
Lemma all_frames_insert es i e e' :
  es !! i = Some e -> base e' = base e -> size e' = size e -> all_frames (<[i:=e']> es) = all_frames es.
Proof.
  intros Hi Hb Hs. assert (frames_of e' = frames_of e) as Hf by (unfold frames_of, usage_pages, pages; by rewrite Hb, Hs).
  unfold all_frames. f_equal. revert i Hi. induction es as [|x es IH]; intros [|i] Hi; simplify_eq/=.
  - by rewrite Hf.
  - by rewrite (IH _ Hi).
Qed.

Lemma used_frames_insert m es i e e' :
  es !! i = Some e -> base e' = base e -> size e' = size e -> used_frames m (<[i:=e']> es) = used_frames m es.
Proof.
  intros Hi Hb Hs. assert (used_of m e' = used_of m e) as Hf by (unfold used_of, usage_pages, pages, ub; by rewrite Hb, Hs).
  unfold used_frames. f_equal. revert i Hi. induction es as [|x es IH]; intros [|i] Hi; simplify_eq/=.
  - by rewrite Hf.
  - by rewrite (IH _ Hi).
Qed.

(** ** Taking a run *)

Lemma free_run_meta m e q n : live_ok m e -> free_run m e q n -> 0 < n -> usage_pages e <= q.
Proof.
  intros Hl (Hs & _ & Hf) Hn. pose proof (lo_skip_range _ _ Hl). destruct (decide (usage_pages e <= q)); [done|].
  specialize (Hf q ltac:(lia)). rewrite (lo_meta _ _ Hl) in Hf by lia. done.
Qed.

(** An address of the usage bytes of an entry is no address of the table, and
    none of another entry's area. *)
Lemma usage_apart m t es i e k :
  buddy_ok m t es -> es !! i = Some e -> 0 <= k < pages e ->
  ~ (t <= V (base e) + k < t + PAGE_SIZE) /\
  forall j e', es !! j = Some e' -> j <> i -> ~ (V (base e') <= V (base e) + k < V (base e') + size e').
Proof.
  intros Hb Hi Hk. destruct (bo_entry _ _ _ Hb _ _ Hi) as [_ [Hpo _]]. destruct (pages_size _ _ Hpo) as [Hs _].
  pose proof page_size_pos. split.
  - destruct (bo_away _ _ _ Hb _ _ Hi); nia.
  - intros j e' Hj Hne. unfold V. destruct (bo_apart _ _ _ Hb _ _ _ _ Hj Hi Hne); nia.
Qed.

Lemma ub_taken m t es i e q n m' bs j ej k :
  buddy_ok m t es -> es !! i = Some e -> usage_pages e <= q -> q + n <= pages e -> 0 < n -> zlen bs = 32 ->
  taken m e q n m' -> es !! j = Some ej -> 0 <= k < pages ej ->
  ub (store_bytes m' (t + Z.of_nat i * 32) bs) ej k = if decide (j = i /\ q <= k < q + n) then Some 1 else ub m ej k.
Proof.
  intros Hb Hi Hq Hqn Hn Hbs Ht Hj Hk. unfold ub. pose proof (slot_range _ _ _ _ _ Hb Hi).
  destruct (usage_apart _ _ _ _ _ _ Hb Hj Hk) as [Ha1 Ha2]. rewrite store_bytes_lookup, Hbs, decide_False by lia.
  rewrite Ht. destruct (bo_entry _ _ _ Hb _ _ Hi) as [_ [Hpo _]]. destruct (pages_size _ _ Hpo) as [Hs H0].
  destruct (usage_pages_bound e H0) as (U1 & U2 & _). pose proof page_size_pos.
  destruct (decide (j = i)) as [->|Hne]; simplify_eq.
  - destruct (decide (q <= k < q + n)).
    + by rewrite decide_True, decide_True by lia.
    + rewrite decide_False by lia. rewrite decide_False by nia. by rewrite decide_False by lia.
  - specialize (Ha2 i e Hi ltac:(done)). rewrite decide_False by nia. rewrite decide_False by nia.
    by rewrite decide_False by lia.
Qed.

Lemma taken_live m t es i e q n m' bs :
  buddy_ok m t es -> es !! i = Some e -> usage_pages e < pages e -> live_ok m e -> free_run m e q n -> 0 < n -> zlen bs = 32 ->
  taken m e q n m' ->
  live_ok (store_bytes m' (t + Z.of_nat i * 32) bs)
    (mkEntry (base e) (size e) (if skip e =? q then q + n else skip e) (used e + n)).
Proof.
  intros Hb Hi Hlt Hl Hfr Hn Hbs Ht. pose proof (free_run_meta _ _ _ _ Hl Hfr Hn) as Hq. destruct Hfr as (F1 & F2 & F3).
  set (e' := mkEntry _ _ _ _). set (m2 := store_bytes _ _ _).
  assert (Hub : forall k, 0 <= k < pages e -> ub m2 e' k = if decide (q <= k < q + n) then Some 1 else ub m e k).
  { intros k Hk. change (ub m2 e' k) with (ub m2 e k). unfold m2. rewrite (ub_taken m t es i e q n m' bs i e k) by done.
    destruct (decide (q <= k < q + n)); [by rewrite decide_True|]. by rewrite decide_False by naive_solver. }
  pose proof (lo_skip_range _ _ Hl). split.
  - intros k Hk. change (pages e') with (pages e) in Hk. rewrite Hub by done. case_decide; [by right|]. by apply (lo_bit _ _ Hl).
  - intros k Hk. change (usage_pages e') with (usage_pages e) in Hk. rewrite Hub by lia. case_decide; [done|]. by apply (lo_meta _ _ Hl).
  - change (pages e') with (pages e). cbn [skip e']. destruct (Z.eqb_spec (skip e) q); lia.
  - intros k Hk. cbn [skip e'] in Hk. rewrite Hub by (destruct (Z.eqb_spec (skip e) q); lia).
    case_decide; [done|]. apply (lo_skip _ _ Hl). destruct (Z.eqb_spec (skip e) q); lia.
  - change (used e') with (used e + n). rewrite (lo_used _ _ Hl).
    change (used_count m2 e') with (used_count m2 e). rewrite (used_count_set m m2 e q n 0 1); [rewrite (decide_True (P := 1 = 1)), (decide_False (P := 0 = 1)) by lia; lia|lia|lia|done|done|].
    intros k Hk. by apply Hub.
Qed.

Lemma used_count_bound m e : 0 <= pages e -> 0 <= used_count m e <= pages e.
Proof.
  intros H. unfold used_count, zlen. split; [lia|].
  pose proof (length_filter (fun k => ub m e k = Some 1) (seqZ 0 (pages e))) as Hl. rewrite length_seqZ in Hl. lia.
Qed.

Lemma pages_fits m e : place_ok m e -> pages e < 2 ^ 64.
Proof.
  intros Hpo. destruct (pages_size _ _ Hpo) as [Hs H0]. destruct (place_fits _ _ Hpo) as [_ [_ H]]. pose proof page_size_pos. nia.
Qed.

(** A frame of one entry and the pages of a run. *)
Lemma run_frames m t es i e q n p j ej k :
  buddy_ok m t es -> es !! i = Some e -> usage_pages e <= q -> q + n <= pages e -> 0 <= n ->
  es !! j = Some ej -> usage_pages ej <= k < pages ej -> p = base ej + k * PAGE_SIZE ->
  p ∈ run (base e + q * PAGE_SIZE) n <-> j = i /\ q <= k < q + n.
Proof.
  intros Hb Hi Hq Hqn Hn Hj Hk ->. rewrite elem_run. pose proof page_size_pos. split.
  - intros (k' & Hk' & Heq). assert (Hpe : page_of es (base e + (q + k') * PAGE_SIZE) e (q + k')).
    { split_and!; [by eapply list_elem_of_lookup_2|lia..]. }
    assert (Hpj : page_of es (base e + (q + k') * PAGE_SIZE) ej k).
    { split_and!; [by eapply list_elem_of_lookup_2|lia..]. }
    destruct (page_of_unique _ _ _ _ _ _ _ _ Hb Hpe Hpj) as [He Hk2]. split; [|lia].
    destruct (decide (j = i)) as [|Hne]; [done|]. exfalso. destruct (bo_entry _ _ _ Hb _ _ Hj) as [_ [Hpo _]].
    destruct (page_inside _ _ _ Hpo Hk). destruct (bo_entry _ _ _ Hb _ _ Hi) as [_ [Hpo2 _]].
    destruct (page_inside _ _ (q + k') Hpo2); [lia|]. pose proof (bo_apart _ _ _ Hb _ _ _ _ Hj Hi Hne).
    destruct (pages_size _ _ Hpo), (pages_size _ _ Hpo2). lia.
  - intros [-> Hr]. simplify_eq. exists (k - q). split; [lia|]. lia.
Qed.

(** Frames in use before a change of usage bytes and after it. *)
Lemma used_frames_set m m' t es i e q n (b : bool) :
  buddy_ok m t es -> es !! i = Some e -> usage_pages e <= q -> q + n <= pages e -> 0 <= n ->
  (forall j ej k, es !! j = Some ej -> 0 <= k < pages ej ->
     ub m' ej k = if decide (j = i /\ q <= k < q + n) then Some (if b then 1 else 0) else ub m ej k) ->
  used_frames m' es = if b then run (base e + q * PAGE_SIZE) n ∪ used_frames m es
                      else used_frames m es ∖ run (base e + q * PAGE_SIZE) n.
Proof.
  intros Hb Hi Hq Hqn Hn Hub. apply set_eq. intros p.
  assert (Hup : forall j ej k, es !! j = Some ej -> usage_pages ej <= k < pages ej -> 0 <= k).
  { intros j ej k Hj Hk. destruct (bo_entry _ _ _ Hb _ _ Hj) as [_ [Hpo _]]. destruct (pages_size _ _ Hpo) as [_ H0].
    destruct (usage_pages_bound ej H0). lia. }
  assert (Hrun : p ∈ run (base e + q * PAGE_SIZE) n -> exists k, q <= k < q + n /\ p = base e + k * PAGE_SIZE).
  { rewrite elem_run. intros (k & Hk & ->). exists (q + k). split; lia. }
  assert (Hin : p ∈ used_frames m' es <-> exists j ej k, es !! j = Some ej /\ usage_pages ej <= k < pages ej /\
      p = base ej + k * PAGE_SIZE /\ (if decide (p ∈ run (base e + q * PAGE_SIZE) n) then b = true else ub m ej k = Some 1)).
  { rewrite elem_used_frames. split.
    - intros (ej & k & ([j Hj]%list_elem_of_lookup & Hk & Hp) & Hu). exists j, ej, k. split_and!; [done|lia|lia|done|].
      rewrite (Hub j ej k) in Hu by (done || (split; [by eapply Hup|lia])). pose proof (run_frames _ _ _ _ _ _ _ _ _ _ _ Hb Hi Hq Hqn Hn Hj Hk Hp) as Hr.
      destruct (decide (p ∈ _)) as [Hpr|Hpr].
      + rewrite decide_True in Hu by (by apply Hr). by destruct b.
      + rewrite decide_False in Hu by tauto. done.
    - intros (j & ej & k & Hj & Hk & Hp & Hu). exists ej, k. split; [split_and!; [by eapply list_elem_of_lookup_2|lia..|done]|].
      rewrite (Hub j) by (done || (split; [by eapply Hup|lia])). pose proof (run_frames _ _ _ _ _ _ _ _ _ _ _ Hb Hi Hq Hqn Hn Hj Hk Hp) as Hr.
      destruct (decide (p ∈ _)) as [Hpr|Hpr].
      + rewrite decide_True by (by apply Hr). by destruct b.
      + rewrite decide_False by tauto. done. }
  rewrite Hin. destruct (decide (p ∈ run (base e + q * PAGE_SIZE) n)) as [Hpr|Hpr].
  - destruct (Hrun Hpr) as (k & Hk & Hp). destruct b; [|split; [naive_solver|set_solver]]. split; [set_solver|]. intros _.
    exists i, e, k. split_and!; [done|lia|lia|done|done].
  - transitivity (p ∈ used_frames m es); [|destruct b; set_solver]. rewrite elem_used_frames. split.
    + intros (j & ej & k & Hj & Hk & Hp & Hu). exists ej, k. split; [split_and!; [by eapply list_elem_of_lookup_2|lia..|done]|done].
    + intros (ej & k & ([j Hj]%list_elem_of_lookup & Hk & Hp) & Hu). exists j, ej, k. naive_solver.
Qed.

(** ** Allocation *)

Definition taken_entry e (q n : Z) : BuddyEntry :=
  mkEntry (base e) (size e) (if skip e =? q then q + n else skip e) (used e + n).

(** A run was found in entry [i]. *)
Definition took t (es : list BuddyEntry) (c : Machine) f (n p : Z) (r : res unit Z * (Machine * BuddyAllocator)) : Prop :=
  exists i e q m', es !! i = Some e /\ usage_pages e < pages e /\ live_ok (mem c) e /\ free_run (mem c) e q n /\
    taken (mem c) e q n m' /\ same_dom (mem c) m' /\ p = base e + q * PAGE_SIZE /\
    r = (Ok p, (with_mem (store_bytes m' (t + Z.of_nat i * 32) (entry_bytes (taken_entry e q n))) c, f)).

Lemma allocate_from_ok k i t es n (c : Machine) f r :
  buddy_ok (mem c) t es -> 0 < n -> (i + k)%nat = length es -> allocate_from k t (Z.of_nat i) n (c, f) = r ->
  (exists p, took t es c f n p r) \/
  (r = (Err tt, (c, f)) /\
   forall j e q, (i <= j)%nat -> es !! j = Some e -> usage_pages e < pages e -> ~ free_run (mem c) e q n).
Proof.
  intros Hb Hn. revert i. induction k as [|k IH]; intros i Hik Hr.
  { right. split; [done|]. intros j e q Hj He. apply lookup_lt_Some in He. lia. }
  destruct (lookup_lt_is_Some_2 es i) as [e Hi]; [lia|]. destruct (bo_entry _ _ _ Hb _ _ Hi) as (_ & Hpo & Fs & Fu & Hl).
  assert (Hnext : (forall q, usage_pages e < pages e -> ~ free_run (mem c) e q n) ->
    allocate_from k t (Z.of_nat i + 1) n (c, f) = r -> (exists p, took t es c f n p r) \/ (r = (Err tt, (c, f)) /\
      forall j e q, (i <= j)%nat -> es !! j = Some e -> usage_pages e < pages e -> ~ free_run (mem c) e q n)).
  { intros Hno Hr'. replace (Z.of_nat i + 1) with (Z.of_nat (S i)) in Hr' by lia.
    destruct (IH (S i) ltac:(lia) Hr') as [?|[? Hno2]]; [by left|]. right. split; [done|]. intros j e' q Hj He' Hlt'.
    destruct (decide (j = i)) as [->|]; [simplify_eq; by apply Hno|]. apply (Hno2 j e' q); [lia|done..]. }
  cbn [allocate_from] in Hr. unfold mbind at 1 2 3, M_bind at 1 2 3 in Hr.
  rewrite (slot_ok _ _ _ _ _ _ Hb Hi), (read_entry_ok _ _ _ _ _ _ Hb Hi) in Hr.
  destruct Hl as [[Hlt Hl]|[Hge Hsk]]; cycle 1.
  { replace (Z.to_nat (pages e - skip e)) with 0%nat in Hr by lia. cbn [scan_free] in Hr. unfold mret at 1, M_ret at 1 in Hr.
    destruct (Z.eqb_spec 0 n); [lia|]. apply Hnext; [lia|done]. }
  pose proof (lo_skip_range _ _ Hl).
  destruct (scan_free_ok (Z.to_nat (pages e - skip e)) e n (skip e) (skip e) 0 c f) as (fp & fc & Hsc & Hres);
    try (done || lia || (intros; lia)).
  rewrite Hsc in Hr. destruct Hres as [[-> Hfr]|[Hlt2 Hno]].
  - left. rewrite Z.eqb_refl in Hr. unfold mbind, M_bind in Hr. pose proof (free_run_meta _ _ _ _ Hl Hfr Hn) as Hm. pose proof Hfr as (F1 & F2 & F3).
    destruct (take_pages_ok (Z.to_nat n) e fp c f) as (m' & Htk & Ht & Hd); [done..|lia|intros k' Hk'; apply F3; lia|].
    rewrite Htk in Hr. rewrite Z2Nat.id in Ht by lia. unfold lift in Hr.
    assert (Hu : used e + n <= pages e).
    { pose proof (taken_live _ _ _ _ _ _ _ _ (entry_bytes e) Hb Hi Hlt Hl Hfr Hn (entry_bytes_len e) Ht) as Hl'.
      pose proof (lo_used _ _ Hl') as Hu. destruct (pages_size _ _ Hpo) as [_ H0].
      match type of Hu with used ?e' = used_count ?m' _ => pose proof (used_count_bound m' e' H0) as Hc end.
      change (pages (mkEntry _ _ _ _)) with (pages e) in Hc. cbn [used] in Hu. lia. }
    pose proof (pages_fits _ _ Hpo). rewrite uadd_ok in Hr by lia.
    rewrite (write_entry_ok t es i e _ (with_mem m' c) _ (mem c) Hb Hd Hi) in Hr. rewrite with_mem_mem, with_mem_twice in Hr.
    rewrite (page_phys_ok (mem c)) in Hr by (done || lia).
    exists (base e + fp * PAGE_SIZE), i, e, fp, m'. done.
  - destruct (Z.eqb_spec fc n); [lia|]. apply Hnext; [|done]. intros q _. apply Hno.
Qed.

(** The state after a run was taken. *)
Lemma took_ok t es c f n p s :
  buddy_ok (mem c) t es -> 0 < n -> took t es c f n p (Ok p, s) ->
  exists m' es', s = (with_mem m' c, f) /\ buddy_ok m' t es' /\ all_frames es' = all_frames es /\
    used_frames m' es' = run p n ∪ used_frames (mem c) es /\ run p n ⊆ all_frames es ∖ used_frames (mem c) es /\
    (forall q, q ∈ run p n -> page_zero m' q) /\ same_dom (mem c) m' /\
    forall a q, q ∈ used_frames (mem c) es -> in_frame a q -> m' !! a = mem c !! a.
Proof.
  intros Hb Hn (i & e & q & m1 & Hi & Hlt & Hl & Hfr & Ht & Hd & -> & Hs).
  apply (f_equal snd) in Hs. cbn [snd] in Hs.
  pose proof (free_run_meta _ _ _ _ Hl Hfr Hn) as Hq. pose proof Hfr as (F1 & F2 & F3).
  destruct (bo_entry _ _ _ Hb _ _ Hi) as (_ & Hpo & Fs & Fu & _). destruct (pages_size _ _ Hpo) as [Hsz H0].
  pose proof (slot_range _ _ _ _ _ Hb Hi) as Hsl. pose proof page_size_pos. pose proof (lo_skip_range _ _ Hl).
  assert (pages e <= size e /\ (q + n) * PAGE_SIZE <= size e /\ 0 <= q * PAGE_SIZE) as (G1 & G2 & G3) by nia.
  set (e' := taken_entry e q n) in *. set (m2 := store_bytes m1 _ _) in *.
  assert (Hd2 : same_dom (mem c) m2).
  { eapply same_dom_trans; [exact Hd|]. apply same_dom_store. rewrite entry_bytes_len. eapply same_dom_mapped; [exact Hd|].
    destruct (bo_table _ _ _ Hb) as (_ & _ & Hm). apply (mapped_sub _ _ _ _ _ Hm); lia. }
  pose proof (taken_live _ _ _ _ _ _ _ _ (entry_bytes e') Hb Hi Hlt Hl Hfr Hn (entry_bytes_len e') Ht) as Hl'.
  fold (taken_entry e q n) in Hl'. fold e' in Hl'. fold m2 in Hl'.
  assert (Hub : forall j ej k, es !! j = Some ej -> 0 <= k < pages ej ->
     ub m2 ej k = if decide (j = i /\ q <= k < q + n) then Some 1 else ub (mem c) ej k).
  { intros j ej k Hj Hk. by apply (ub_taken _ _ es _ e _ _ m1); try rewrite entry_bytes_len. }
  assert (Hpo' : place_ok m2 e') by (destruct Hpo; split; [done..|]; by eapply same_dom_mapped).
  assert (Hb' : buddy_ok m2 t (<[i:=e']> es)).
  { apply (buddy_update (mem c) t es i e); try done.
    - pose proof (load_store_same (E:=unit) m1 (t + Z.of_nat i * 32) (entry_bytes e')) as Hls. by rewrite entry_bytes_len in Hls.
    - pose proof (pages_fits _ _ Hpo). split_and!; [done|..|by left].
      + pose proof (lo_skip_range _ _ Hl'). change (pages e') with (pages e) in *. split; lia.
      + rewrite (lo_used _ _ Hl'). pose proof (used_count_bound m2 e' H0). change (pages e') with (pages e) in *. split; lia.
    - intros a Ha Hna. unfold m2. rewrite store_bytes_lookup, entry_bytes_len, decide_False by lia. rewrite Ht.
      destruct (bo_away _ _ _ Hb _ _ Hi); rewrite decide_False, decide_False by lia; done.
    - intros j ej k Hj Hej Hk. rewrite (Hub j) by done. by rewrite decide_False by naive_solver. }
  exists m2, (<[i:=e']> es). split; [done|]. split; [done|]. split; [by eapply all_frames_insert|].
  rewrite (used_frames_insert _ _ _ e) by done.
  assert (Huf := used_frames_set _ m2 t es i e q n true Hb Hi Hq F2 ltac:(lia) Hub). cbn iota in Huf.
  split; [done|]. split; [|split; [|split; [done|]]].
  - intros p Hp. apply elem_run in Hp as Hp2. destruct Hp2 as (k & Hk & ->). apply elem_of_difference. split.
    + apply elem_all_frames. exists e, (q + k). split_and!; [by eapply list_elem_of_lookup_2|lia..].
    + rewrite elem_used_frames. intros (ej & k2 & ([j Hj]%list_elem_of_lookup & Hk2 & Heq) & Hu2).
      pose proof (run_frames _ _ _ _ _ _ n _ _ _ _ Hb Hi Hq F2 ltac:(lia) Hj Hk2 Heq) as [[-> Hr] _]; [done|].
      simplify_eq. rewrite F3 in Hu2 by lia. done.
  - intros p (k & Hk & ->)%elem_run a Ha. unfold in_frame, V in Ha. destruct (page_inside _ e (q + k) Hpo) as [I1 I2]; [lia|].
    unfold m2. rewrite store_bytes_lookup, entry_bytes_len, decide_False.
    + rewrite Ht. unfold V. rewrite decide_False by nia. rewrite decide_True by nia. done.
    + destruct (bo_away _ _ _ Hb _ _ Hi); unfold V in *; nia.
  - intros a p Hp Ha. apply elem_used_frames in Hp as (ej & k & ([j Hj]%list_elem_of_lookup & Hk & Heq) & Hu2).
    destruct (bo_entry _ _ _ Hb _ _ Hj) as (_ & Hpoj & _). destruct (page_inside _ _ _ Hpoj Hk) as [I1 I2]. unfold in_frame, V in Ha.
    pose proof (run_frames _ _ _ _ _ _ n _ _ _ _ Hb Hi Hq F2 ltac:(lia) Hj Hk Heq) as Hr.
    unfold m2. rewrite store_bytes_lookup, entry_bytes_len, decide_False.
    + rewrite Ht. unfold V. destruct (decide (j = i)) as [->|Hne].
      * simplify_eq. rewrite decide_False by nia. destruct (decide (q <= k < q + n)); [by rewrite F3 in Hu2|].
        rewrite decide_False by nia. done.
      * destruct (bo_apart _ _ _ Hb _ _ _ _ Hj Hi Hne); rewrite decide_False, decide_False by nia; done.
    + destruct (bo_away _ _ _ Hb _ _ Hj); unfold V in *; nia.
Qed.

(** A run of managed frames lies in one entry: between two entries there are
    usage bytes. *)
Lemma run_one_entry m t es p n :
  buddy_ok m t es -> 0 < n -> run p n ⊆ all_frames es ->
  exists i e q, es !! i = Some e /\ usage_pages e <= q /\ q + n <= pages e /\ p = base e + q * PAGE_SIZE.
Proof.
  intros Hb Hn Hr. pose proof page_size_pos.
  assert (Hat : forall k, 0 <= k < n -> exists i e q, es !! i = Some e /\ usage_pages e <= q < pages e /\ p + k * PAGE_SIZE = base e + q * PAGE_SIZE).
  { intros k Hk. assert (p + k * PAGE_SIZE ∈ all_frames es) as (e & q & [i Hi]%list_elem_of_lookup & Hq & Heq)%elem_all_frames.
    { apply Hr, elem_run. by exists k. } by exists i, e, q. }
  destruct (Hat 0) as (i & e & q & Hi & Hq & Heq); [lia|]. exists i, e, q. split_and!; [done|lia| |lia].
  destruct (bo_entry _ _ _ Hb _ _ Hi) as (_ & Hpo & _). destruct (pages_size _ _ Hpo) as [Hs H0].
  destruct (decide (q + n <= pages e)) as [|Hgt]; [done|exfalso].
  destruct (Hat (pages e - q)) as (j & e' & q' & Hj & Hq' & Heq'); [lia|].
  destruct (bo_entry _ _ _ Hb _ _ Hj) as (_ & Hpo' & _). destruct (pages_size _ _ Hpo') as [Hs' H0'].
  destruct (usage_pages_bound e' H0') as (U1 & _ & U3). destruct (decide (i = j)) as [->|Hne]; [simplify_eq; nia|].
  destruct (bo_apart _ _ _ Hb _ _ _ _ Hi Hj Hne); nia.
Qed.

(** ** Release *)

Lemma freed_live m m' e page :
  usage_pages e < pages e -> place_ok m e -> live_ok m e -> usage_pages e <= page < pages e -> ub m e page = Some 1 ->
  (forall k, 0 <= k < pages e -> ub m' e k = if decide (page <= k < page + 1) then Some 0 else ub m e k) ->
  1 <= used e /\
  live_ok m' (mkEntry (base e) (size e) (if page <? skip e then page else skip e) (used e - 1)).
Proof.
  intros Hlt Hpo Hl Hp Hu Hub. destruct (pages_size _ _ Hpo) as [_ H0]. destruct (usage_pages_bound e H0) as (U1 & _ & _).
  assert (Hc : used_count m' e = used_count m e - 1).
  { rewrite (used_count_set m m' e page 1 1 0); [|lia|lia|lia| |done].
    - rewrite (decide_False (P := 0 = 1)), (decide_True (P := 1 = 1)) by lia. lia.
    - intros k Hk. by replace k with page by lia. }
  pose proof (used_count_bound m' e H0). pose proof (lo_skip_range _ _ Hl). pose proof (lo_used _ _ Hl) as Hus.
  split; [lia|]. set (e' := mkEntry _ _ _ _). split.
  - intros k Hk. change (pages e') with (pages e) in Hk. change (ub m' e' k) with (ub m' e k). rewrite Hub by done.
    case_decide; [by left|]. by apply (lo_bit _ _ Hl).
  - intros k Hk. change (usage_pages e') with (usage_pages e) in Hk. change (ub m' e' k) with (ub m' e k).
    rewrite Hub by lia. rewrite decide_False by lia. by apply (lo_meta _ _ Hl).
  - change (pages e') with (pages e). cbn [skip e']. destruct (Z.ltb_spec page (skip e)); lia.
  - intros k Hk. cbn [skip e'] in Hk. change (ub m' e' k) with (ub m' e k).
    destruct (Z.ltb_spec page (skip e)); rewrite Hub, decide_False by lia; apply (lo_skip _ _ Hl); lia.
  - change (used_count m' e') with (used_count m' e). cbn [used e']. lia.
Qed.

Lemma free_pages_ok n e page (c : Machine) f :
  usage_pages e < pages e -> place_ok (mem c) e -> live_ok (mem c) e -> usage_pages e <= page -> page + Z.of_nat n <= pages e ->
  (forall k, page <= k < page + Z.of_nat n -> ub (mem c) e k = Some 1) ->
  exists m' e', free_pages n e page (c, f) = (Ok e', (with_mem m' c, f)) /\ base e' = base e /\ size e' = size e /\
    live_ok m' e' /\ same_dom (mem c) m' /\
    forall a, m' !! a = if decide (V (base e) + page <= a < V (base e) + page + Z.of_nat n) then Some 0 else mem c !! a.
Proof.
  revert e page c. induction n as [|n IH]; intros e page c Hlt Hpo Hl Hp Hpn Hu.
  { exists (mem c), e. split_and!; try done; [by destruct c|]. intros a. by rewrite decide_False by lia. }
  rewrite Nat2Z.inj_succ in *. cbn [free_pages]. destruct (pages_size _ _ Hpo) as [Hs H0]. destruct (usage_pages_bound e H0) as (U1 & _ & _).
  unfold mbind, M_bind, expect. rewrite (page_usage_ok _ _ 1) by (done || lia || (apply Hu; lia)).
  change (0 <? 1) with true. change (1 - 1 =? 0) with true. cbn iota. unfold lift, usub.
  set (m1 := <[V (base e) + page := 0]> (mem c)).
  assert (Hub : forall k, 0 <= k < pages e -> ub m1 e k = if decide (page <= k < page + 1) then Some 0 else ub (mem c) e k).
  { intros k Hk. unfold ub, m1. case_decide; [replace k with page by lia; apply lookup_insert_eq|]. apply lookup_insert_ne. lia. }
  destruct (freed_live (mem c) m1 e page) as [Hu1 Hl1]; [done..|lia|apply Hu; lia|done|].
  destruct (Z.ltb_spec (used e) 1); [lia|]. set (e1 := mkEntry _ _ _ _) in *. unfold mret at 1, M_ret at 1.
  assert (Hd1 : same_dom (mem c) m1).
  { intros a. unfold m1. destruct (decide (a = V (base e) + page)) as [->|].
    - rewrite lookup_insert_eq. unfold ub in Hu. rewrite (Hu page) by lia. done.
    - by rewrite lookup_insert_ne. }
  assert (Hpo1 : place_ok (mem c) e1) by (destruct Hpo; by split).
  rewrite set_usage_ok by (done || (change (pages e1) with (pages e); lia)). change (1 - 1) with 0.
  change (base e1) with (base e). fold m1.
  destruct (IH e1 (page + 1) (with_mem m1 c)) as (m' & e' & -> & Hb' & Hs' & Hl' & Hd' & Ha'); [done| |done|..].
  { destruct Hpo. split; [done..|]. by eapply same_dom_mapped. }
  { change (usage_pages e1) with (usage_pages e). lia. } { change (pages e1) with (pages e). lia. }
  { intros k Hk. change (ub m1 e k = Some 1). change (pages e1) with (pages e) in *. rewrite Hub, decide_False by lia. apply Hu. lia. }
  exists m', e'. split_and!; try done; [by eapply same_dom_trans|]. intros a. rewrite Ha'. change (base e1) with (base e).
  rewrite with_mem_mem. unfold m1. destruct (decide (a = V (base e) + page)) as [->|].
  - rewrite decide_False, lookup_insert_eq by lia. by rewrite decide_True by lia.
  - rewrite lookup_insert_ne by done. destruct (decide (V (base e) + (page + 1) <= a < _)).
    + by rewrite decide_True by lia.
    + by rewrite decide_False by lia.
Qed.

(** The search ends at the entry of the frames. *)
Lemma free_from_ok k i0 t es i e q n (c : Machine) f :
  buddy_ok (mem c) t es -> es !! i = Some e -> usage_pages e <= q -> q + n <= pages e -> 0 < n ->
  (i0 + k)%nat = length es -> (i0 <= i)%nat ->
  free_from k t (Z.of_nat i0) (base e + q * PAGE_SIZE) n (n * PAGE_SIZE) (c, f) =
    (e' ← free_pages (Z.to_nat n) e q; write_entry (t + Z.of_nat i * 32) e') (c, f).
Proof.
  intros Hb Hi Hq Hqn Hn. pose proof page_size_pos. destruct (bo_entry _ _ _ Hb _ _ Hi) as (_ & Hpo & _).
  destruct (pages_size _ _ Hpo) as [Hs H0]. pose proof (po_end _ _ Hpo). pose proof (offset_range (A:=A)).
  destruct (usage_pages_bound e H0) as (U1 & _ & _). destruct (po_base _ _ Hpo).
  revert i0. induction k as [|k IH]; intros i0 Hk Hle; [apply lookup_lt_Some in Hi; lia|].
  destruct (lookup_lt_is_Some_2 es i0) as [e0 Hi0]; [lia|]. destruct (bo_entry _ _ _ Hb _ _ Hi0) as (_ & Hpo0 & _).
  pose proof (po_end _ _ Hpo0). destruct (po_base _ _ Hpo0). destruct (po_size _ _ Hpo0).
  cbn [free_from]. unfold mbind at 1 2 3, M_bind at 1 2 3. rewrite (slot_ok _ _ _ _ _ _ Hb Hi0), (read_entry_ok _ _ _ _ _ _ Hb Hi0).
  unfold is_inside. destruct (decide (i0 = i)) as [->|Hne].
  - simplify_eq. destruct (Z.leb_spec (base e) (base e + q * PAGE_SIZE)); [|nia]. unfold mbind at 1 2, M_bind at 1 2.
    unfold add, lift. rewrite uadd_ok by nia. rewrite uadd_ok by lia. unfold mret at 1, M_ret at 1.
    destruct (Z.leb_spec (base e + q * PAGE_SIZE + n * PAGE_SIZE) (base e + size e)); [|nia].
    replace (Z.shiftr (base e + q * PAGE_SIZE - base e) PAGE_SHIFT) with q; [done|].
    pose proof page_shift_pos. rewrite Z.shiftr_div_pow2, <-page_size_eq by lia.
    replace (base e + q * PAGE_SIZE - base e) with (q * PAGE_SIZE) by lia. rewrite Z.div_mul; lia.
  - replace (Z.of_nat i0 + 1) with (Z.of_nat (S i0)) by lia. specialize (IH (S i0) ltac:(lia) ltac:(lia)).
    destruct (Z.leb_spec (base e0) (base e + q * PAGE_SIZE)) as [Hle0|Hgt]; [|done].
    unfold mbind at 1 2, M_bind at 1 2. unfold add, lift. rewrite uadd_ok by nia. rewrite uadd_ok by lia. unfold mret at 1, M_ret at 1.
    destruct (Z.leb_spec (base e + q * PAGE_SIZE + n * PAGE_SIZE) (base e0 + size e0)); [|done]. exfalso.
    destruct (bo_apart _ _ _ Hb _ _ _ _ Hi0 Hi Hne); nia.
Qed.

(** ** The interface is met *)

(** The data of the allocator is outside the frames it hands out. *)
Lemma data_apart m t es p a :
  buddy_ok m t es -> p ∈ all_frames es -> in_frame a p ->
  ~ t <= a < t + PAGE_SIZE /\ forall j e k, es !! j = Some e -> 0 <= k < pages e -> a <> V (base e) + k.
Proof.
  intros Hb (e & q & [i Hi]%list_elem_of_lookup & Hq & ->)%elem_all_frames Ha. unfold in_frame, V in *.
  destruct (bo_entry _ _ _ Hb _ _ Hi) as (_ & Hpo & _). destruct (page_inside _ _ _ Hpo Hq) as [I1 I2].
  destruct (pages_size _ _ Hpo) as [Hs H0]. pose proof page_size_pos. split.
  - destruct (bo_away _ _ _ Hb _ _ Hi); unfold V in *; lia.
  - intros j e' k Hj Hk ->. destruct (decide (j = i)) as [->|Hne]; [simplify_eq; lia|].
    destruct (bo_entry _ _ _ Hb _ _ Hj) as (_ & Hpo' & _). destruct (pages_size _ _ Hpo') as [Hs' H0'].
    destruct (bo_apart _ _ _ Hb _ _ _ _ Hj Hi Hne); nia.
Qed.

Lemma buddy_ext m m' t es :
  buddy_ok m t es -> same_dom m m' ->
  (forall a, t <= a < t + PAGE_SIZE -> m' !! a = m !! a) ->
  (forall j e k, es !! j = Some e -> 0 <= k < pages e -> ub m' e k = ub m e k) ->
  buddy_ok m' t es /\ used_frames m' es = used_frames m es.
Proof.
  intros Hb Hd Ht Hu. split.
  - split; [apply Hb| | |apply Hb|apply Hb].
    + destruct (bo_table _ _ _ Hb) as (H1 & H2 & H3). split_and!; [done|done|by eapply same_dom_mapped].
    + intros i e Hi. destruct (bo_entry _ _ _ Hb _ _ Hi) as [Hl He]. split.
      * rewrite <-Hl. apply load_ext. intros a Ha. apply Ht. pose proof (slot_range _ _ _ _ _ Hb Hi). lia.
      * apply (entry_ok_ext m); [done..|]. intros k Hk. by eapply Hu.
  - apply set_eq. intros p. rewrite !elem_used_frames.
    assert (Hk : forall e k, page_of es p e k -> ub m' e k = ub m e k);
      [|split; intros (e & k & Hpg & Hu1); exists e, k; specialize (Hk e k Hpg); split; [done|congruence|done|congruence]].
    intros e k ([i Hi]%list_elem_of_lookup & Hk & _). eapply Hu; [done|]. destruct (bo_entry _ _ _ Hb _ _ Hi) as (_ & Hpo & _).
    destruct (pages_size _ _ Hpo) as [_ H0]. destruct (usage_pages_bound e H0). lia.
Qed.

Definition buddy_rep m (f : BuddyAllocator) (R U : gset Z) : Prop :=
  exists es, buddy_ok m (table_virt f) es /\ R = all_frames es /\ U = used_frames m es.

Lemma used_all m t es : buddy_ok m t es -> used_frames m es ⊆ all_frames es.
Proof. intros Hb p. rewrite elem_used_frames, elem_all_frames. naive_solver. Qed.

Lemma buddy_rep_used m f R U : buddy_rep m f R U -> U ⊆ R.
Proof. intros (es & Hb & -> & ->). by eapply used_all. Qed.

Lemma buddy_rep_frame m f R U p : buddy_rep m f R U -> p ∈ R -> frame_ok p /\ mapped m (V p) PAGE_SIZE.
Proof.
  intros (es & Hb & -> & _) (e & k & [i Hi]%list_elem_of_lookup & Hk & ->)%elem_all_frames.
  destruct (bo_entry _ _ _ Hb _ _ Hi) as (_ & Hpo & _). destruct (page_inside _ _ _ Hpo Hk) as [I1 I2].
  destruct (pages_size _ _ Hpo) as [Hs H0]. pose proof page_size_pos. destruct (po_base _ _ Hpo) as [B1 B2].
  split; [split_and!|].
  - lia.
  - by rewrite Z.mod_add by lia.
  - pose proof (po_end _ _ Hpo). lia.
  - apply (mapped_sub _ _ _ _ _ (po_mapped _ _ Hpo)); unfold V; lia.
Qed.

Lemma buddy_rep_stable m m' f R U :
  buddy_rep m f R U -> same_dom m m' ->
  (forall a, (forall p, p ∈ U -> ~ in_frame a p) -> m' !! a = m !! a) -> buddy_rep m' f R U.
Proof.
  intros (es & Hb & -> & ->) Hd Ha. pose proof (used_all _ _ _ Hb) as Hall.
  destruct (buddy_ext m m' (table_virt f) es) as [Hb' Hu']; [done..| | |].
  - intros a Hr. apply Ha. intros p Hp Hin. destruct (data_apart _ _ _ p a Hb) as [Hn _]; [by apply Hall|done|]. lia.
  - intros j e k Hj Hk. apply Ha. intros p Hp Hin. destruct (data_apart _ _ _ p (V (base e) + k) Hb) as [_ Hn]; [by apply Hall|done|].
    by eapply Hn.
  - exists es. by rewrite Hu'.
Qed.

Lemma buddy_rep_allocate c f R U n :
  buddy_rep (mem c) f R U -> 0 < n ->
  (exists p m' f', buddy_allocate n (c, f) = (Ok p, (with_mem m' c, f')) /\ run p n ⊆ R ∖ U /\
     buddy_rep m' f' R (run p n ∪ U) /\ (forall q, q ∈ run p n -> page_zero m' q) /\
     same_dom (mem c) m' /\ forall a q, q ∈ U -> in_frame a q -> m' !! a = mem c !! a) \/
  (buddy_allocate n (c, f) = (Err tt, (c, f)) /\ forall p, ~ run p n ⊆ R ∖ U).
Proof.
  intros (es & Hb & -> & ->) Hn. destruct (bo_table _ _ _ Hb) as (Ht & _). pose proof (bo_len _ _ _ Hb) as Hlen. unfold zlen in Hlen.
  unfold buddy_allocate, get, mbind, M_bind. cbn [snd]. destruct (Z.eqb_spec (table_virt f) 0); [lia|].
  destruct (allocate_from (Z.to_nat BUDDY_ENTRIES) (table_virt f) 0 n (c, f)) as [r s] eqn:Hr.
  destruct (allocate_from_ok (Z.to_nat BUDDY_ENTRIES) 0 (table_virt f) es n c f _ Hb Hn ltac:(lia) Hr) as [[p Htk]|[-> Hno]].
  - left. assert (r = Ok p) as -> by (destruct Htk as (?&?&?&?&?&?&?&?&?&?&?&E); by apply (f_equal fst) in E).
    destruct (took_ok _ _ _ _ _ _ _ Hb Hn Htk) as (m' & es' & -> & Hb' & Hall & Hu & Hsub & Hz & Hd & Hsame).
    exists p, m', f. split_and!; try done. exists es'. by rewrite Hall, Hu.
  - right. split; [done|]. intros p Hp.
    destruct (run_one_entry (mem c) _ es p n Hb Hn) as (i & e & q & Hi & Hq & Hqn & ->); [set_solver|].
    destruct (bo_entry _ _ _ Hb _ _ Hi) as (_ & Hpo & _ & _ & [[Hlt Hl]|[Hge _]]); [|lia].
    destruct (pages_size _ _ Hpo) as [_ H0]. destruct (usage_pages_bound e H0) as (U1 & _ & _).
    assert (Hz : forall k, q <= k < q + n -> ub (mem c) e k = Some 0).
    { intros k Hk. destruct (lo_bit _ _ Hl k) as [|Hu]; [lia|done|]. exfalso.
      assert (Hpk : base e + k * PAGE_SIZE ∈ all_frames es ∖ used_frames (mem c) es).
      { apply Hp, elem_run. exists (k - q). split; lia. }
      apply elem_of_difference in Hpk as [_ Hnu]. apply Hnu, elem_used_frames. exists e, k. split; [|done].
      split_and!; [by eapply list_elem_of_lookup_2|lia..|done]. }
    apply (Hno i e q); [lia|done..|]. split_and!; [|done|done]. destruct (decide (skip e <= q)); [done|].
    pose proof (lo_skip _ _ Hl q ltac:(lia)) as Hs. rewrite Hz in Hs by lia. done.
Qed.

(** The state after a run of pages of entry [i] was released. *)
Lemma freed_ok m t es i e q n m1 e' :
  buddy_ok m t es -> es !! i = Some e -> usage_pages e < pages e -> usage_pages e <= q -> q + n <= pages e -> 0 < n ->
  base e' = base e -> size e' = size e -> live_ok m1 e' -> same_dom m m1 ->
  (forall a, m1 !! a = if decide (V (base e) + q <= a < V (base e) + q + n) then Some 0 else m !! a) ->
  let m2 := store_bytes m1 (t + Z.of_nat i * 32) (entry_bytes e') in
  buddy_ok m2 t (<[i:=e']> es) /\ same_dom m m2 /\
  forall j ej k, es !! j = Some ej -> 0 <= k < pages ej ->
    ub m2 ej k = if decide (j = i /\ q <= k < q + n) then Some 0 else ub m ej k.
Proof.
  intros Hb Hi Hlt Hq Hqn Hn Hbase Hsize Hl' Hd1 Hm1 m2. pose proof page_size_pos.
  destruct (bo_entry _ _ _ Hb _ _ Hi) as (_ & Hpo & _). pose proof (slot_range _ _ _ _ _ Hb Hi) as Hsl.
  destruct (pages_size _ _ Hpo) as [Hs H0]. destruct (usage_pages_bound e H0) as (U1 & U2 & _).
  assert (Hpe : pages e' = pages e /\ usage_pages e' = usage_pages e) by (unfold usage_pages, pages; by rewrite Hsize).
  destruct Hpe as [Hpe Hue].
  assert (Hd12 : same_dom m1 m2).
  { apply same_dom_store. rewrite entry_bytes_len. eapply same_dom_mapped; [exact Hd1|].
    destruct (bo_table _ _ _ Hb) as (_ & _ & Hm). apply (mapped_sub _ _ _ _ _ Hm); lia. }
  assert (Hd2 : same_dom m m2) by (by eapply same_dom_trans).
  assert (Hub : forall j ej k, es !! j = Some ej -> 0 <= k < pages ej ->
     ub m2 ej k = if decide (j = i /\ q <= k < q + n) then Some 0 else ub m ej k).
  { intros j ej k Hj Hk. destruct (usage_apart _ _ _ _ _ _ Hb Hj Hk) as [Ha1 Ha2]. unfold ub, m2.
    rewrite store_bytes_lookup, entry_bytes_len, decide_False, Hm1 by lia. destruct (decide (j = i)) as [->|Hne].
    - simplify_eq. destruct (decide (q <= k < q + n)); [by rewrite !decide_True by lia|]. rewrite decide_False by lia.
      by rewrite decide_False by lia.
    - specialize (Ha2 i e Hi ltac:(done)). rewrite decide_False by nia. by rewrite decide_False by lia. }
  split_and!; [|done|done]. apply (buddy_update m t es i e); try done.
  - pose proof (load_store_same (E:=unit) m1 (t + Z.of_nat i * 32) (entry_bytes e')) as Hls. by rewrite entry_bytes_len in Hls.
  - apply (entry_ok_ext m1); [|done|].
    + pose proof (pages_fits _ _ Hpo). pose proof (used_count_bound m1 e' ltac:(lia)). pose proof (lo_used _ _ Hl').
      pose proof (lo_skip_range _ _ Hl'). split_and!; [|split; lia..|left; split; [lia|done]].
      destruct Hpo. split; rewrite ?Hbase, ?Hsize; [done..|by eapply same_dom_mapped].
    + intros k Hk. unfold ub, m2. rewrite Hbase. destruct (usage_apart _ _ _ _ _ k Hb Hi) as [Ha1 _]; [lia|].
      by rewrite store_bytes_lookup, entry_bytes_len, decide_False by lia.
  - intros a Ha Hna. unfold m2. rewrite store_bytes_lookup, entry_bytes_len, decide_False, Hm1 by lia.
    assert (pages e <= size e) by nia. rewrite decide_False; [done|]. destruct (bo_away _ _ _ Hb _ _ Hi); lia.
  - intros j ej k Hj Hej Hk. rewrite (Hub j) by done. by rewrite decide_False by lia.
Qed.

Lemma buddy_rep_free c f R U p n :
  buddy_rep (mem c) f R U -> 0 < n -> run p n ⊆ U ->
  exists m' f', buddy_free p n (c, f) = (Ok tt, (with_mem m' c, f')) /\ buddy_rep m' f' R (U ∖ run p n) /\
    same_dom (mem c) m' /\ forall a q, q ∈ U -> in_frame a q -> m' !! a = mem c !! a.
Proof.
  intros (es & Hb & -> & ->) Hn Hr. pose proof (used_all _ _ _ Hb) as Hall. pose proof page_size_pos.
  destruct (bo_table _ _ _ Hb) as (Ht & _). pose proof (bo_len _ _ _ Hb) as Hlen. unfold zlen in Hlen.
  destruct (run_one_entry (mem c) _ es p n Hb Hn) as (i & e & q & Hi & Hq & Hqn & ->); [set_solver|].
  destruct (bo_entry _ _ _ Hb _ _ Hi) as (_ & Hpo & _ & _ & [[Hlt Hl]|[Hge _]]); [|lia].
  destruct (pages_size _ _ Hpo) as [Hs H0]. pose proof (po_end _ _ Hpo). pose proof (slot_range _ _ _ _ _ Hb Hi) as Hsl.
  pose proof (offset_range (A:=A)). destruct (po_base _ _ Hpo) as [B1 _].
  destruct (free_pages_ok (Z.to_nat n) e q c f) as (m1 & e' & Hfp & Hbase & Hsize & Hl' & Hd1 & Hm1); [done..|lia| |].
  { intros k Hk. assert (Hp : base e + k * PAGE_SIZE ∈ used_frames (mem c) es) by (apply Hr, elem_run; exists (k - q); split; lia).
    apply elem_used_frames in Hp as (ej & k2 & Hpg & Hu).
    destruct (page_of_unique _ _ _ _ _ _ e k Hb Hpg) as [-> ->]; [|done]. split_and!; [by eapply list_elem_of_lookup_2|lia..|done]. }
  rewrite Z2Nat.id in Hm1 by lia.
  destruct (freed_ok (mem c) (table_virt f) es i e q n m1 e') as (Hb' & Hd2 & Hub); [done..|].
  set (m2 := store_bytes m1 _ _) in *. exists m2, f. split; [|split; [|split; [done|]]].
  - unfold buddy_free, get, mbind, M_bind. cbn [snd]. destruct (Z.eqb_spec (table_virt f) 0); [lia|]. unfold lift, umul.
    assert (n * PAGE_SIZE <= size e) by (destruct (usage_pages_bound e H0) as (? & _); nia).
    destruct (Z.ltb_spec (n * PAGE_SIZE) (2 ^ 64)); [|lia].
    rewrite (free_from_ok _ 0 _ _ i e q n c f Hb Hi Hq Hqn Hn) by lia. unfold mbind, M_bind. rewrite Hfp.
    by rewrite (write_entry_ok _ es i e e' (with_mem m1 c) f (mem c) Hb Hd1 Hi).
  - exists (<[i:=e']> es). split; [done|]. split; [symmetry; by eapply all_frames_insert|].
    rewrite (used_frames_insert _ _ _ e) by done.
    by rewrite (used_frames_set (mem c) m2 (table_virt f) es i e q n false Hb Hi Hq Hqn ltac:(lia) Hub).
  - intros a p Hp Ha. destruct (data_apart _ _ _ p a Hb) as [Hn1 Hn2]; [by apply Hall|done|]. unfold m2.
    rewrite store_bytes_lookup, entry_bytes_len, decide_False, Hm1 by lia. rewrite decide_False; [done|]. intros Hr2.
    apply (Hn2 i e (a - V (base e)) Hi); [|lia]. destruct (usage_pages_bound e H0) as (U1 & _). lia.
Qed.

#[global] Instance buddy_spec : AllocSpec BuddyAllocator := {|
  rep := buddy_rep;
  rep_used := buddy_rep_used;
  rep_frame := buddy_rep_frame;
  rep_stable := buddy_rep_stable;
  rep_allocate := buddy_rep_allocate;
  rep_free := buddy_rep_free
|}.

End buddy.

End RmmBuddy.
