(* ===== verification/RmmInit.v ===== *)
(** * Setting up the frame allocator

    From a list of memory areas, [buddy_new] builds a table and usage bytes
    that represent an allocator with every frame free; any client of it then
    gets frames that nobody else holds. *)

From S2P Require Import Prelude Bytes RmmArch RmmFrame RmmBuddy.
Import RmmArch RmmFrame RmmBuddy.

Module RmmInit.

Section init.
Context {A : Arch} {AO : ArchOk A}.

Implicit Types (m : gmap Z Z) (e : BuddyEntry) (es : list BuddyEntry) (c : Machine).

(** ** Memory areas *)

Record area_ok m (a : MemoryArea) : Prop := {
  ao_base : 0 <= area_base a /\ area_base a mod PAGE_SIZE = 0;
  ao_size : 0 < area_size a /\ area_size a mod PAGE_SIZE = 0;
  ao_end : area_base a + area_size a + PHYS_OFFSET <= 2 ^ 64;
  ao_mapped : mapped m (V (area_base a)) (area_size a)
}.

Definition area_apart (a b : MemoryArea) : Prop :=
  area_base a + area_size a <= area_base b \/ area_base b + area_size b <= area_base a.

Definition in_area (x : Z) (a : MemoryArea) : Prop := area_base a <= x < area_base a + area_size a.

Definition areas_ok m (areas : list MemoryArea) : Prop :=
  Forall (area_ok m) areas /\ ForallOrdPairs area_apart areas /\
  foldr Z.add 0 (area_size <$> areas) < 2 ^ 64 /\ zlen areas <= BUDDY_ENTRIES.

Lemma area_page m a : area_ok m a -> PAGE_SIZE <= area_size a.
Proof.
  intros Ha. destruct (ao_size _ _ Ha) as [H1 H2]. pose proof page_size_pos.
  apply Z.mod_divide in H2 as [k Hk]; [|lia]. assert (1 <= k) by nia. nia.
Qed.

(** ** The bump allocator at start-up *)

Lemma bump_new_ok m areas : Forall (area_ok m) areas -> bump_new areas 0 = mkBump (areas, 0) (areas, 0).
Proof.
  intros Ha. unfold bump_new. assert (skip_areas areas 0 = (areas, 0)) as ->; [|done].
  destruct Ha as [|a areas Ha _]; [done|]. cbn [skip_areas]. destruct (ao_size _ _ Ha).
  by destruct (Z.leb_spec (area_size a) 0); [lia|].
Qed.

Lemma zsum_nonneg l : Forall (fun x => 0 <= x) l -> 0 <= foldr Z.add 0 l.
Proof. induction 1; cbn; lia. Qed.

Lemma usum_ok {E} l acc :
  Forall (fun x => 0 <= x) l -> acc + foldr Z.add 0 l < 2 ^ 64 -> usum (E:=E) l acc = Ok (acc + foldr Z.add 0 l).
Proof.
  intros Hl. revert acc. induction Hl as [|x l Hx Hl IH]; intros acc Hs; cbn [usum foldr] in *.
  { f_equal. lia. }
  pose proof (zsum_nonneg _ Hl). unfold mbind, res_bind. rewrite uadd_ok by lia. rewrite IH by lia. f_equal. lia.
Qed.

(** The table page comes from the start of the first area. *)
Lemma bump_allocate_first c a areas :
  Forall (area_ok (mem c)) (a :: areas) ->
  bump_allocate 1 (c, mkBump (a :: areas, 0) (a :: areas, 0)) =
    (Ok (area_base a), (with_mem (store_bytes (mem c) (V (area_base a)) (replicate (Z.to_nat PAGE_SIZE) 0)) c,
                        mkBump (a :: areas, 0) (a :: areas, PAGE_SIZE))).
Proof.
  intros [Ha _]%Forall_cons. pose proof (area_page _ _ Ha). pose proof page_size_pos. destruct (ao_base _ _ Ha). pose proof (ao_end _ _ Ha).
  pose proof (offset_range (A:=A)). unfold bump_allocate, umul. destruct (Z.ltb_spec (1 * PAGE_SIZE) (2 ^ 64)); [|lia].
  cbn [cur_areas fst snd bump_find]. unfold mbind, res_bind, usub. destruct (Z.ltb_spec (area_size a) 0); [lia|].
  destruct (Z.ltb_spec (area_size a - 0) (1 * PAGE_SIZE)); [lia|]. rewrite !uadd_ok by lia.
  unfold M_bind, phys_to_virt, lift. rewrite Z.add_0_r, Z.add_0_l, Z.mul_1_l. rewrite uadd_ok by lia. unfold write_bytes.
  rewrite write_ok; [done|]. unfold zlen. rewrite length_replicate, Z2Nat.id by lia.
  apply (mapped_sub _ _ _ _ _ (ao_mapped _ _ Ha)); unfold V; lia.
Qed.

Lemma bump_offset_ok {E} m areas :
  Forall (area_ok m) areas -> areas <> [] -> foldr Z.add 0 (area_size <$> areas) < 2 ^ 64 ->
  bump_offset (E:=E) (mkBump (areas, 0) (areas, PAGE_SIZE)) = Ok PAGE_SIZE.
Proof.
  intros Ha Hne Hs. pose proof page_size_pos. destruct areas as [|a areas]; [done|]. set (l := a :: areas) in *.
  assert (Hpos : Forall (fun x => 0 <= x) (area_size <$> l)).
  { apply Forall_fmap, (Forall_impl _ _ _ Ha). intros x Hx. destruct (ao_size _ _ Hx). cbn. lia. }
  assert (Hge : PAGE_SIZE <= foldr Z.add 0 (area_size <$> l) /\ foldr Z.add 0 (area_size <$> l) mod PAGE_SIZE = 0).
  { split.
    - apply Forall_cons in Ha as [Ha _]. pose proof (area_page _ _ Ha). unfold l in Hpos. rewrite fmap_cons in Hpos. apply Forall_cons in Hpos as [_ Hpos].
      pose proof (zsum_nonneg _ Hpos). unfold l. rewrite fmap_cons. cbn [foldr]. lia.
    - clear -Ha AO. induction Ha as [|x l Hx _ IH]; [done|]. rewrite fmap_cons. cbn [foldr]. destruct (ao_size _ _ Hx) as [_ H].
      rewrite Z.add_mod, H, IH by (pose proof page_size_pos; lia). done. }
  destruct Hge as [Hge Hmod]. unfold bump_offset, bump_usage. cbn [orig_areas cur_areas fst snd]. unfold mbind, res_bind.
  rewrite !usum_ok by (done || lia). rewrite Z.add_0_l. unfold usub.
  destruct (Z.ltb_spec (foldr Z.add 0 (area_size <$> l)) 0); [lia|].
  destruct (Z.ltb_spec (foldr Z.add 0 (area_size <$> l)) PAGE_SIZE); [lia|].
  rewrite Z.sub_0_r. destruct (Z.ltb_spec (foldr Z.add 0 (area_size <$> l)) (foldr Z.add 0 (area_size <$> l) - PAGE_SIZE)); [lia|].
  unfold fu_free, usub. cbn [fu_total fu_used].
  replace (foldr Z.add 0 (area_size <$> l) - (foldr Z.add 0 (area_size <$> l) - PAGE_SIZE)) with PAGE_SIZE by lia.
  rewrite Z.div_same by lia. assert (1 <= foldr Z.add 0 (area_size <$> l) / PAGE_SIZE) by (apply Z.div_le_lower_bound; lia).
  destruct (Z.ltb_spec (foldr Z.add 0 (area_size <$> l) / PAGE_SIZE) 1); [lia|].
  destruct (Z.ltb_spec (foldr Z.add 0 (area_size <$> l) / PAGE_SIZE) (foldr Z.add 0 (area_size <$> l) / PAGE_SIZE - 1)); [lia|].
  unfold umul. replace (_ - (_ - 1)) with 1 by lia. rewrite Z.mul_1_l.
  destruct (Z.ltb_spec PAGE_SIZE (2 ^ 64)); [done|]. lia.
Qed.

(** ** The table *)

(** The slots of the table hold the entries. *)
Definition tab_ok m (t : Z) es : Prop :=
  zlen es = BUDDY_ENTRIES /\ 0 < t /\ t + PAGE_SIZE <= 2 ^ 64 /\ mapped m t PAGE_SIZE /\
  forall i e, es !! i = Some e -> load (E:=unit) m (t + Z.of_nat i * 32) 32 = Ok (entry_bytes e) /\ entry_of (entry_bytes e) = e.

Lemma tab_slot_range m t es i e : tab_ok m t es -> es !! i = Some e -> t + Z.of_nat i * 32 + 32 <= t + PAGE_SIZE.
Proof.
  intros (Hl & _) Hi. apply lookup_lt_Some in Hi. unfold zlen in Hl. pose proof buddy_entries_size. lia.
Qed.

Lemma tab_slot {F} m t es i e (s : Machine * F) :
  tab_ok m t es -> es !! i = Some e -> slot t (Z.of_nat i) s = (Ok (t + Z.of_nat i * 32), s).
Proof.
  intros Ht Hi. pose proof (tab_slot_range _ _ _ _ _ Ht Hi). destruct Ht as (_ & _ & H2 & _).
  unfold slot, add, lift, BUDDY_ENTRY_SIZE. by rewrite uadd_ok by lia.
Qed.

Lemma tab_read {F} t es i e c (f : F) :
  tab_ok (mem c) t es -> es !! i = Some e -> read_entry (t + Z.of_nat i * 32) (c, f) = (Ok e, (c, f)).
Proof.
  intros (_ & _ & _ & _ & Hl) Hi. destruct (Hl _ _ Hi) as [Hld He]. unfold read_entry, mbind, M_bind.
  rewrite (read_ok _ _ _ _ _ Hld). unfold mret, M_ret. by rewrite He.
Qed.

Lemma tab_write {F} t es i e e' c (f : F) :
  tab_ok (mem c) t es -> es !! i = Some e -> entry_of (entry_bytes e') = e' ->
  exists m', write_entry (t + Z.of_nat i * 32) e' (c, f) = (Ok tt, (with_mem m' c, f)) /\ tab_ok m' t (<[i:=e']> es) /\
    same_dom (mem c) m' /\ forall a, ~ t <= a < t + PAGE_SIZE -> m' !! a = mem c !! a.
Proof.
  intros Ht Hi He'. pose proof (tab_slot_range _ _ _ _ _ Ht Hi) as Hr. destruct Ht as (H1 & H2 & H3 & H4 & H5).
  assert (Hm : mapped (mem c) (t + Z.of_nat i * 32) (zlen (entry_bytes e'))).
  { rewrite entry_bytes_len. apply (mapped_sub _ _ _ _ _ H4); lia. }
  eexists. unfold write_entry. split; [by apply write_ok|].
  assert (Hd := same_dom_store _ _ _ Hm). unfold tab_ok. split_and!; [|done|done|by eapply same_dom_mapped| |done|].
  - unfold zlen. by rewrite length_insert.
  - intros j x Hx. destruct (decide (j = i)) as [->|Hne].
    + rewrite list_lookup_insert_eq in Hx by (by eapply lookup_lt_Some). simplify_eq. split; [|done].
      pose proof (load_store_same (E:=unit) (mem c) (t + Z.of_nat i * 32) (entry_bytes x)) as Hls. by rewrite entry_bytes_len in Hls.
    + rewrite list_lookup_insert_ne in Hx by done. destruct (H5 _ _ Hx) as [Hl He]. split; [|done]. rewrite <-Hl. apply load_ext.
      intros a Ha. by rewrite store_bytes_lookup, entry_bytes_len, decide_False by lia.
  - intros a Ha. by rewrite store_bytes_lookup, entry_bytes_len, decide_False by lia.
Qed.

(** Clearing a cleared table. *)
Lemma clear_table_ok n i t c f :
  t + PAGE_SIZE <= 2 ^ 64 -> 0 <= i -> (i + Z.of_nat n) * 32 <= PAGE_SIZE ->
  (forall a, t <= a < t + PAGE_SIZE -> mem c !! a = Some 0) ->
  clear_table n t i (c, f) = (Ok tt, (c, f)).
Proof.
  intros Ht Hi Hn Hz. revert i Hi Hn. induction n as [|n IH]; intros i Hi Hn; [done|]. cbn [clear_table].
  unfold mbind, M_bind, slot, add, lift, BUDDY_ENTRY_SIZE. rewrite uadd_ok by lia. unfold write_entry.
  change (entry_bytes empty) with (replicate 32 0). rewrite write_ok.
  - replace (store_bytes (mem c) (t + i * 32) (replicate 32 0)) with (mem c).
    + destruct c as [m r]. apply IH; lia.
    + apply map_eq. intros a. rewrite store_bytes_lookup. change (zlen (replicate 32 0)) with 32. case_decide; [|done].
      rewrite Hz by lia. symmetry. apply lookup_replicate. lia.
  - change (zlen (replicate 32 0)) with 32. apply mapped_alt. intros a Ha. rewrite Hz by lia. done.
Qed.

Lemma tab_empty m t :
  0 < t -> t + PAGE_SIZE <= 2 ^ 64 -> (forall a, t <= a < t + PAGE_SIZE -> m !! a = Some 0) ->
  tab_ok m t (replicate (Z.to_nat BUDDY_ENTRIES) empty).
Proof.
  intros H1 H2 Hz. pose proof buddy_entries_size. assert (0 <= BUDDY_ENTRIES) by (unfold BUDDY_ENTRIES, BUDDY_ENTRY_SIZE; apply Z.div_pos; pose proof page_size_pos; lia).
  split_and!; [|done|done|apply mapped_alt; intros a Ha; by rewrite Hz|].
  - unfold zlen. rewrite length_replicate. lia.
  - intros i e [-> Hi]%lookup_replicate. split; [|done]. apply load_Ok_iff; [lia|]. split; [done|]. intros k Hk.
    rewrite Hz by lia. change (entry_bytes empty) with (replicate 32 0). apply lookup_replicate. lia.
Qed.

(** ** Entering the areas *)

Definition in_entry (x : Z) e : Prop := base e <= x < base e + size e.
Definition covers es (x : Z) : Prop := exists i e, es !! i = Some e /\ in_entry x e.

(** An entry before its usage bytes are set up. *)
Definition blank m e : Prop := place_ok m e /\ skip e = 0 /\ used e = 0 /\ (size e = 0 -> base e = 0).

Definition apart e e' : Prop := base e + size e <= base e' \/ base e' + size e' <= base e.
Definition away (t : Z) e : Prop := t + PAGE_SIZE <= V (base e) \/ V (base e) + size e <= t.

(** A table with [k] areas entered. *)
Record stage m (t : Z) es (k : nat) : Prop := {
  st_tab : tab_ok m t es;
  st_blank i e : es !! i = Some e -> blank m e;
  st_apart i e j e' : es !! i = Some e -> es !! j = Some e' -> i <> j -> apart e e';
  st_away i e : es !! i = Some e -> away t e;
  st_rest i e : es !! i = Some e -> (k <= i)%nat -> e = empty
}.

(** An area joined to an entry, or put in its place. *)
Definition joined (a : MemoryArea) e e' : Prop :=
  skip e' = 0 /\ used e' = 0 /\
  (area_base a + area_size a = base e /\ base e' = area_base a /\ size e' = size e + area_size a /\ size e <> 0 \/
   area_base a = base e + size e /\ base e' = base e /\ size e' = size e + area_size a \/
   size e = 0 /\ base e' = area_base a /\ size e' = area_size a).

Lemma combine_ok a e c f :
  area_ok (mem c) a -> blank (mem c) e ->
  (exists e', combine a e (c, f) = (Ok (Some e'), (c, f)) /\ joined a e e') \/
  (combine a e (c, f) = (Ok None, (c, f)) /\ size e <> 0).
Proof.
  intros [[A1 _] [A2 _] A3 _] ([[B1 _] [B2 _] B3 _] & Hs & Hu & Hz). pose proof (offset_range (A:=A)).
  unfold combine, mbind, M_bind, add, lift. rewrite uadd_ok by lia.
  destruct (Z.eqb_spec (area_base a + area_size a) (base e)).
  { rewrite uadd_ok by lia. left. eexists. split; [done|]. unfold joined. cbn [base size skip used]. split_and!; [done|done|]. left. lia. }
  rewrite uadd_ok by lia. destruct (Z.eqb_spec (area_base a) (base e + size e)).
  { rewrite uadd_ok by lia. left. eexists. split; [done|]. unfold joined. cbn [base size skip used]. lia. }
  destruct (Z.eqb_spec (size e) 0); [|by right].
  left. eexists. split; [done|]. unfold joined. cbn [base size skip used]. lia.
Qed.

Lemma joined_blank m a e e' : area_ok m a -> blank m e -> joined a e e' -> blank m e' /\ 0 < size e'.
Proof.
  intros [[A1 A1'] [A2 A2'] A3 A4] ([[B1 B1'] [B2 B2'] B3 B4] & _ & _ & Hz) (Hsk & Hus & Hj). pose proof page_size_pos.
  assert (Hsum : (size e + area_size a) mod PAGE_SIZE = 0) by (rewrite Z.add_mod, A2', B2' by lia; done).
  rewrite mapped_alt in A4, B4. unfold V in *. split; [split_and!; [|done|done|lia]|lia].
  split; [|split| |apply mapped_alt; unfold V; intros x Hx].
  - destruct Hj as [(?&->&_)|[(?&->&_)|(?&->&_)]]; done.
  - lia.
  - destruct Hj as [(?&?&->&?)|[(?&?&->)|(?&?&->)]]; done.
  - lia.
  - destruct (decide (area_base a + PHYS_OFFSET <= x < area_base a + PHYS_OFFSET + area_size a)); [by apply A4|]. apply B4. lia.
Qed.

Lemma joined_entry m a e e' x : area_ok m a -> blank m e -> joined a e e' -> in_entry x e' <-> in_entry x e \/ in_area x a.
Proof. intros [_ [A2 _] _ _] ([_ [B2 _] _ _] & _) (_ & _ & Hj). unfold in_entry, in_area. lia. Qed.

(** An area that meets no entry is apart from it. *)
Lemma meet_apart m a e : area_ok m a -> blank m e -> (forall x, in_entry x e -> ~ in_area x a) ->
  area_base a + area_size a <= base e \/ base e + size e <= area_base a.
Proof.
  intros [[A1 _] [A2 _] _ _] ([[B1 _] [B2 _] _ _] & _ & _ & Hz) Hx. unfold in_entry, in_area in Hx.
  destruct (decide (size e = 0)); [lia|]. specialize (Hx (Z.max (base e) (area_base a))). lia.
Qed.

Lemma stage_insert m m' t es k i e a e' :
  stage m t es k -> (k < length es)%nat -> (i <= k)%nat -> es !! i = Some e -> area_ok m a -> joined a e e' ->
  (forall x, covers es x -> ~ in_area x a) ->
  t + PAGE_SIZE <= V (area_base a) \/ V (area_base a) + area_size a <= t ->
  tab_ok m' t (<[i:=e']> es) -> same_dom m m' -> stage m' t (<[i:=e']> es) (S k).
Proof.
  intros Hst Hk Hik Hi Ha Hj Hcov Htab Ht' Hd. pose proof (st_blank _ _ _ _ Hst _ _ Hi) as Hbl.
  destruct (joined_blank _ _ _ _ Ha Hbl Hj) as [Hbl' Hpos].
  assert (Hdis : forall j x, es !! j = Some x -> area_base a + area_size a <= base x \/ base x + size x <= area_base a).
  { intros j x Hx. apply (meet_apart m); [done|by eapply st_blank|]. intros y Hy. apply Hcov. by exists j, x. }
  assert (Hblank : forall x, blank m x -> blank m' x).
  { intros x ([? ? ? Hm] & ?). split; [|done]. split; [done..|]. by eapply same_dom_mapped. }
  assert (Hap : forall j x, es !! j = Some x -> j <> i -> apart e' x).
  { intros j x Hx Hne. pose proof (st_apart _ _ _ _ Hst _ _ _ _ Hi Hx ltac:(done)). pose proof (Hdis _ _ Hx).
    destruct (st_blank _ _ _ _ Hst _ _ Hx) as ([[? _] [? _] _ _] & _ & _ & Hz). destruct Hbl as ([[? _] [? _] _ _] & _ & _ & Hz2).
    destruct (ao_base _ _ Ha), (ao_size _ _ Ha). destruct Hj as (_ & _ & Hj). unfold apart in *. lia. }
  assert (Hlk : forall j x, <[i:=e']> es !! j = Some x -> j = i /\ x = e' \/ j <> i /\ es !! j = Some x).
  { intros j x Hx. destruct (decide (j = i)) as [->|Hne].
    - rewrite list_lookup_insert_eq in Hx by (by eapply lookup_lt_Some). simplify_eq. by left.
    - rewrite list_lookup_insert_ne in Hx by done. by right. }
  split; [done|..].
  - intros j x [[-> ->]|[_ Hx]]%Hlk; apply Hblank; [done|]. by eapply st_blank.
  - intros j x j2 x2 [[-> ->]|[Hj1 Hx]]%Hlk [[-> ->]|[Hj2 Hx2]]%Hlk Hne; [done|by eapply Hap| |by eapply (st_apart _ _ _ _ Hst)].
    destruct (Hap _ _ Hx Hj1); [by right|by left].
  - intros j x [[-> ->]|[_ Hx]]%Hlk; [|by eapply st_away]. pose proof (st_away _ _ _ _ Hst _ _ Hi) as Haw.
    destruct Hbl as ([[? _] [? _] _ _] & _ & _ & Hz2). destruct Hj as (_ & _ & Hj). unfold away, V in *. pose proof page_size_pos. lia.
  - intros j x [[-> ->]|[_ Hx]]%Hlk Hle; [lia|]. eapply st_rest; [done..|lia].
Qed.

Definition total es : Z := foldr Z.add 0 (size <$> es).

Lemma total_areas_insert es i e e' : es !! i = Some e -> total (<[i:=e']> es) = total es - size e + size e'.
Proof.
  revert i. unfold total. induction es as [|x es IH]; intros [|i] Hi; simplify_eq/=; [lia|]. rewrite IH by done. lia.
Qed.

Lemma insert_area_ok n i t es k a c f :
  stage (mem c) t es k -> (k < length es)%nat -> (i <= k)%nat -> (i + n)%nat = length es -> area_ok (mem c) a ->
  (forall x, covers es x -> ~ in_area x a) ->
  t + PAGE_SIZE <= V (area_base a) \/ V (area_base a) + area_size a <= t ->
  exists m' es', insert_area n t (Z.of_nat i) a (c, f) = (Ok tt, (with_mem m' c, f)) /\ stage m' t es' (S k) /\
    length es' = length es /\ same_dom (mem c) m' /\ total es' = total es + area_size a /\
    (forall x, covers es' x <-> covers es x \/ in_area x a).
Proof.
  intros Hst Hk Hik Hn Ha Hcov Htab. revert i Hik Hn. induction n as [|n IH]; intros i Hik Hn; [lia|].
  destruct (lookup_lt_is_Some_2 es i) as [e Hi]; [lia|]. cbn [insert_area]. unfold mbind, M_bind.
  rewrite (tab_slot _ _ _ _ _ _ (st_tab _ _ _ _ Hst) Hi), (tab_read _ _ _ _ _ _ (st_tab _ _ _ _ Hst) Hi).
  pose proof (st_blank _ _ _ _ Hst _ _ Hi) as Hbl. destruct (combine_ok a e c f Ha Hbl) as [(e' & -> & Hj)|[-> Hne]].
  - destruct (joined_blank _ _ _ _ Ha Hbl Hj) as [(Hpo' & S' & U' & _) _]. destruct (place_fits _ _ Hpo').
    destruct (tab_write t es i e e' c f (st_tab _ _ _ _ Hst) Hi) as (m' & -> & Ht' & Hd & _).
    { apply entry_of_bytes; [done..| |]; rewrite ?S', ?U'; done. }
    exists m', (<[i:=e']> es). split_and!; [done|by eapply (stage_insert (mem c))|by rewrite length_insert|done| |].
    { rewrite (total_areas_insert _ _ e) by done. destruct Hj as (_ & _ & Hj). lia. }
    intros x. unfold covers. split.
    + intros (j & y & Hy & Hin). destruct (decide (j = i)) as [->|Hne].
      * rewrite list_lookup_insert_eq in Hy by lia. simplify_eq. apply (joined_entry (mem c) a e) in Hin as [?|?]; [|by right|done..]. left. eauto.
      * rewrite list_lookup_insert_ne in Hy by done. left. eauto.
    + intros [(j & y & Hy & Hin)|Hin].
      * destruct (decide (j = i)) as [->|Hne].
        -- simplify_eq. exists i, e'. rewrite list_lookup_insert_eq by lia. split; [done|]. apply (joined_entry (mem c) a e); [done..|by left].
        -- exists j, y. by rewrite list_lookup_insert_ne.
      * exists i, e'. rewrite list_lookup_insert_eq by lia. split; [done|]. apply (joined_entry (mem c) a e); [done..|by right].
  - replace (Z.of_nat i + 1) with (Z.of_nat (S i)) by lia. apply IH; [|lia]. destruct (decide (i = k)) as [->|]; [|lia].
    rewrite (st_rest _ _ _ _ Hst _ _ Hi) in Hne by done. done.
Qed.

Lemma area_ok_dom m m' a : same_dom m m' -> area_ok m a -> area_ok m' a.
Proof. intros Hd []. split; [done..|by eapply same_dom_mapped]. Qed.

Lemma insert_areas_ok areas t es k c f :
  stage (mem c) t es k -> (k + length areas <= length es)%nat -> Forall (area_ok (mem c)) areas -> ForallOrdPairs area_apart areas ->
  (forall x a, a ∈ areas -> covers es x -> ~ in_area x a) ->
  (forall a, a ∈ areas -> t + PAGE_SIZE <= V (area_base a) \/ V (area_base a) + area_size a <= t) ->
  exists m' es', insert_areas t 0 areas (c, f) = (Ok tt, (with_mem m' c, f)) /\ stage m' t es' (k + length areas) /\
    same_dom (mem c) m' /\ total es' = total es + foldr Z.add 0 (area_size <$> areas) /\
    (forall x, covers es' x <-> covers es x \/ exists a, a ∈ areas /\ in_area x a).
Proof.
  revert es k c. induction areas as [|a areas IH]; intros es k c Hst Hk Hok Hap Hcov Htab; cbn [insert_areas length] in *.
  { exists (mem c), es. split_and!; [by destruct c|by rewrite Nat.add_0_r|done|cbn; lia|]. set_solver. }
  apply Forall_cons in Hok as [Ha Hok]. inversion Hap as [|? ? Hfar Hap']; subst. destruct (ao_size _ _ Ha) as [Hsz _]. destruct (ao_base _ _ Ha) as [Hb0 _].
  pose proof (ao_end _ _ Ha). pose proof (offset_range (A:=A)).
  destruct (Z.leb_spec (area_size a) 0); [lia|]. unfold mbind, M_bind, add, lift. rewrite uadd_ok by lia. rewrite Z.add_0_r, Z.sub_0_r.
  replace (mkArea (area_base a) (area_size a)) with a by (by destruct a).
  destruct (insert_area_ok (Z.to_nat BUDDY_ENTRIES) 0 t es k a c f) as (m1 & es1 & Hins & Hst1 & Hl1 & Hd1 & Hs1 & Hc1); [done|lia|lia| |done|..].
  { destruct (st_tab _ _ _ _ Hst) as [Hl _]. unfold zlen in Hl. lia. }
  { intros x. apply Hcov. set_solver. } { apply Htab. set_solver. }
  change (Z.of_nat 0) with 0 in Hins. rewrite Hins.
  destruct (IH es1 (S k) (with_mem m1 c)) as (m' & es' & Hres & Hst' & Hd' & Hs' & Hc'); [done|lia| |done|..].
  { eapply Forall_impl; [exact Hok|]. intros b. by apply area_ok_dom. }
  { intros x b Hb [Hx|Hx]%Hc1; [apply Hcov; [set_solver|done]|]. rewrite Forall_forall in Hfar. specialize (Hfar b Hb).
    unfold area_apart, in_area in *. lia. }
  { intros b Hb. apply Htab. set_solver. }
  exists m', es'. rewrite Hres. split_and!; [done| |by eapply same_dom_trans|cbn [fmap list_fmap foldr]; lia|].
  - by rewrite Nat.add_succ_r.
  - intros x. rewrite Hc', Hc1. set_solver.
Qed.

(** ** Usage bytes *)

Lemma clear_usage_ok n e page c f :
  place_ok (mem c) e -> 0 <= page -> page + Z.of_nat n <= pages e ->
  exists m', clear_usage n (V (base e)) page (c, f) = (Ok tt, (with_mem m' c, f)) /\ same_dom (mem c) m' /\
    forall a, m' !! a = if decide (V (base e) + page * PAGE_SIZE <= a < V (base e) + (page + Z.of_nat n) * PAGE_SIZE)
                        then Some 0 else mem c !! a.
Proof.
  intros Hpo. destruct (pages_size _ _ Hpo) as [Hs _]. pose proof page_size_pos. pose proof page_shift_pos.
  pose proof (po_end _ _ Hpo). destruct (po_base _ _ Hpo) as [Hb0 _]. pose proof (offset_range (A:=A)).
  revert page c Hpo. induction n as [|n IH]; intros page c Hpo Hp Hn.
  { exists (mem c). split; [by destruct c|]. split; [done|]. intros a. by rewrite decide_False by lia. }
  rewrite Nat2Z.inj_succ in *. cbn [clear_usage]. unfold mbind, M_bind, add, lift. rewrite Z.shiftl_mul_pow2, <-page_size_eq by lia.
  assert ((page + 1) * PAGE_SIZE <= size e) by nia. assert (0 <= page * PAGE_SIZE) by nia.
  rewrite wrap_small by (split; lia). rewrite uadd_ok by (unfold V; lia). unfold write_bytes.
  assert (Hz : zlen (replicate (Z.to_nat PAGE_SIZE) 0) = PAGE_SIZE) by (unfold zlen; rewrite length_replicate; lia).
  assert (Hm : mapped (mem c) (V (base e) + page * PAGE_SIZE) (zlen (replicate (Z.to_nat PAGE_SIZE) 0))).
  { rewrite Hz. apply (mapped_sub _ _ _ _ _ (po_mapped _ _ Hpo)); lia. }
  rewrite write_ok by done. set (m1 := store_bytes _ _ _). assert (Hd1 : same_dom (mem c) m1) by (by apply same_dom_store).
  destruct (IH (page + 1) (with_mem m1 c)) as (m' & -> & Hd & Ha); [|lia|lia|].
  { destruct Hpo. split; [done..|]. by eapply same_dom_mapped. }
  exists m'. split; [done|]. split; [by eapply same_dom_trans|]. intros a. rewrite Ha. rewrite with_mem_mem. unfold m1.
  rewrite store_bytes_lookup, Hz. destruct (decide (V (base e) + (page + 1) * PAGE_SIZE <= a < _)).
  { by rewrite decide_True by nia. }
  destruct (decide (V (base e) + page * PAGE_SIZE <= a < V (base e) + page * PAGE_SIZE + PAGE_SIZE)).
  - rewrite decide_True by nia. apply lookup_replicate. lia.
  - by rewrite decide_False by nia.
Qed.

Lemma mark_usage_ok n e page c f :
  place_ok (mem c) e -> 0 <= page -> page + Z.of_nat n <= pages e ->
  exists m', mark_usage n e page (c, f) = (Ok tt, (with_mem m' c, f)) /\ same_dom (mem c) m' /\
    forall a, m' !! a = if decide (V (base e) + page <= a < V (base e) + page + Z.of_nat n) then Some 1 else mem c !! a.
Proof.
  intros Hpo. destruct (pages_size _ _ Hpo) as [Hs _]. pose proof page_size_pos. revert page c Hpo.
  induction n as [|n IH]; intros page c Hpo Hp Hn.
  { exists (mem c). split; [by destruct c|]. split; [done|]. intros a. by rewrite decide_False by lia. }
  rewrite Nat2Z.inj_succ in *. cbn [mark_usage]. unfold mbind, M_bind. rewrite set_usage_ok by (done || lia).
  set (m1 := <[V (base e) + page := 1]> (mem c)). assert (Hd1 : same_dom (mem c) m1).
  { intros a. unfold m1. destruct (decide (a = V (base e) + page)) as [->|]; [|by rewrite lookup_insert_ne].
    rewrite lookup_insert_eq. split; [|done]. intros _. pose proof (po_mapped _ _ Hpo) as Hm. rewrite mapped_alt in Hm. apply Hm. nia. }
  destruct (IH (page + 1) (with_mem m1 c)) as (m' & -> & Hd & Ha); [|lia|lia|].
  { destruct Hpo. split; [done..|]. by eapply same_dom_mapped. }
  exists m'. split; [done|]. split; [by eapply same_dom_trans|]. intros a. rewrite Ha, with_mem_mem. unfold m1.
  destruct (decide (a = V (base e) + page)) as [->|].
  - rewrite decide_False, lookup_insert_eq by lia. by rewrite decide_True by lia.
  - rewrite lookup_insert_ne by done. destruct (decide (V (base e) + (page + 1) <= a < _)); [by rewrite decide_True by lia|].
    by rewrite decide_False by lia.
Qed.

(** A table whose first [i] entries are set up. *)
Record setup m (t : Z) es (i : nat) : Prop := {
  su_tab : tab_ok m t es;
  su_done j e : es !! j = Some e -> (j < i)%nat -> entry_ok m e /\ forall k, usage_pages e <= k < pages e -> ub m e k = Some 0;
  su_blank j e : es !! j = Some e -> (i <= j)%nat -> blank m e;
  su_apart j e j' e' : es !! j = Some e -> es !! j' = Some e' -> j <> j' -> apart e e';
  su_away j e : es !! j = Some e -> away t e
}.

(** What setting up does to the usage bytes of its entry. *)
Lemma usage_bytes_ok e c f :
  blank (mem c) e -> usage_pages e < pages e ->
  exists m', (start ← usage_addr e 0; _ ← clear_usage (Z.to_nat (usage_pages e)) start 0;
              mark_usage (Z.to_nat (usage_pages e)) e 0) (c, f) = (Ok tt, (with_mem m' c, f)) /\ same_dom (mem c) m' /\
    (forall a, ~ V (base e) <= a < V (base e) + size e -> m' !! a = mem c !! a) /\
    forall k, 0 <= k < pages e -> ub m' e k = Some (if decide (k < usage_pages e) then 1 else 0).
Proof.
  intros (Hpo & _) Hlt. destruct (pages_size _ _ Hpo) as [Hs H0]. destruct (usage_pages_bound e H0) as (U1 & U2 & _). pose proof page_size_pos.
  unfold mbind, M_bind. rewrite (usage_addr_ok (mem c)) by (done || lia). rewrite Z.add_0_r.
  destruct (clear_usage_ok (Z.to_nat (usage_pages e)) e 0 c f) as (m1 & -> & Hd1 & Ha1); [done|lia|lia|].
  destruct (mark_usage_ok (Z.to_nat (usage_pages e)) e 0 (with_mem m1 c) f) as (m2 & -> & Hd2 & Ha2); [|lia|lia|].
  { destruct Hpo. split; [done..|]. by eapply same_dom_mapped. }
  rewrite Z2Nat.id in Ha1, Ha2 by lia. exists m2. split; [done|]. split; [by eapply same_dom_trans|].
  assert (usage_pages e * PAGE_SIZE <= size e) by nia. split.
  - intros a Ha. rewrite Ha2, decide_False, with_mem_mem, Ha1 by nia. by rewrite decide_False by lia.
  - intros k Hk. unfold ub. rewrite Ha2, with_mem_mem, Ha1. destruct (decide (k < usage_pages e)).
    + by rewrite decide_True by lia.
    + rewrite decide_False by lia. by rewrite decide_True by lia.
Qed.

Lemma usage_pages_le e : 0 <= pages e -> usage_pages e <= pages e.
Proof.
  intros H0. pose proof page_size_pos. pose proof page_shift_pos. unfold usage_pages, PAGE_OFFSET_MASK.
  rewrite Z.mul_1_r, Z.shiftr_div_pow2, <-page_size_eq by lia.
  destruct (decide (pages e = 0)) as [->|]; [by rewrite Z.div_small by lia|]. apply Z.div_le_upper_bound; [lia|]. nia.
Qed.

(** The entry after that. *)
Lemma setup_entry m e :
  place_ok m e -> (usage_pages e < pages e -> forall k, 0 <= k < pages e -> ub m e k = Some (if decide (k < usage_pages e) then 1 else 0)) ->
  let e' := mkEntry (base e) (size e) (usage_pages e) (usage_pages e) in
  entry_ok m e' /\ forall k, usage_pages e' <= k < pages e' -> ub m e' k = Some 0.
Proof.
  intros Hpo Hub e'. destruct (pages_size _ _ Hpo) as [Hs H0]. destruct (usage_pages_bound e H0) as (U1 & U2 & U3).
  pose proof (pages_fits _ _ Hpo). pose proof page_size_pos. pose proof (usage_pages_le e H0) as Hup.
  split.
  - split_and!; [by destruct Hpo|split; cbn; lia..|]. change (pages e') with (pages e). change (usage_pages e') with (usage_pages e).
    destruct (decide (usage_pages e < pages e)) as [Hlt|]; [left; split; [done|]|right; cbn [skip e']; lia].
    specialize (Hub Hlt). split.
    + intros k Hk. change (ub m e' k) with (ub m e k). rewrite Hub by done. case_decide; [by right|by left].
    + intros k Hk. change (ub m e' k) with (ub m e k). change (usage_pages e') with (usage_pages e) in Hk.
      rewrite Hub by lia. by rewrite decide_True by lia.
    + change (0 <= usage_pages e <= pages e). lia.
    + intros k Hk. change (0 <= k < usage_pages e) in Hk. change (ub m e' k) with (ub m e k). rewrite Hub by lia. by rewrite decide_True by lia.
    + change (usage_pages e = used_count m e). rewrite (used_split m e 0 (usage_pages e)) by lia.
      rewrite (count_all m e 0 (usage_pages e) 1), decide_True by (done || (intros; rewrite Hub by lia; by rewrite decide_True by lia)).
      rewrite (count_all m e (0 + usage_pages e) (pages e - (0 + usage_pages e)) 0), decide_False
        by (done || lia || (intros; rewrite Hub by lia; by rewrite decide_False by lia)).
      change (zlen (filter (fun k => ub m e k = Some 1) (seqZ 0 0))) with 0. lia.
  - intros k Hk. change (usage_pages e <= k < pages e) in Hk. change (ub m e' k) with (ub m e k).
    rewrite Hub by lia. by rewrite decide_False by lia.
Qed.

Lemma setup_step m m1 m' t es i e :
  setup m t es i -> es !! i = Some e -> same_dom m m1 -> same_dom m1 m' ->
  (forall a, ~ V (base e) <= a < V (base e) + size e -> m1 !! a = m !! a) ->
  (usage_pages e < pages e -> forall k, 0 <= k < pages e -> ub m1 e k = Some (if decide (k < usage_pages e) then 1 else 0)) ->
  (forall a, ~ t <= a < t + PAGE_SIZE -> m' !! a = m1 !! a) ->
  let e' := mkEntry (base e) (size e) (usage_pages e) (usage_pages e) in
  tab_ok m' t (<[i:=e']> es) -> setup m' t (<[i:=e']> es) (S i).
Proof.
  intros Hsu Hi Hd1 Hd2 Ha1 Hub Ha2 e' Ht'. pose proof page_size_pos.
  destruct (su_blank _ _ _ _ Hsu _ _ Hi ltac:(lia)) as (Hpo & _). assert (Hd : same_dom m m') by (by eapply same_dom_trans).
  assert (Hpl : forall x, place_ok m x -> place_ok m' x).
  { intros x []. split; [done..|]. by eapply same_dom_mapped. }
  assert (Hplace : forall j x, es !! j = Some x -> place_ok m x).
  { intros j x Hx. destruct (decide (j < i)%nat).
    - destruct (su_done _ _ _ _ Hsu _ _ Hx) as [[? _] _]; done.
    - destruct (su_blank _ _ _ _ Hsu _ _ Hx) as (? & _); [lia|done]. }
  assert (Hk : forall j x k, es !! j = Some x -> 0 <= k < pages x ->
    ub m' x k = if decide (j = i) then ub m1 x k else ub m x k).
  { intros j x k Hx Hk. destruct (pages_size _ _ (Hplace _ _ Hx)) as [Hs _]. unfold ub.
    rewrite Ha2 by (destruct (su_away _ _ _ _ Hsu _ _ Hx); nia). case_decide as Hj; [done|].
    apply Ha1. unfold V. destruct (su_apart _ _ _ _ Hsu _ _ _ _ Hx Hi Hj); nia. }
  assert (Hlk : forall j x, <[i:=e']> es !! j = Some x -> j = i /\ x = e' \/ j <> i /\ es !! j = Some x).
  { intros j x Hx. destruct (decide (j = i)) as [->|Hne].
    - rewrite list_lookup_insert_eq in Hx by (by eapply lookup_lt_Some). simplify_eq. by left.
    - rewrite list_lookup_insert_ne in Hx by done. by right. }
  split; [done|..].
  - intros j x [[-> ->]|[Hne Hx]]%Hlk Hj.
    + apply setup_entry; [by apply Hpl|]. intros Hlt k Hk2. rewrite (Hk i e k), decide_True by done. by apply Hub.
    + destruct (su_done _ _ _ _ Hsu _ _ Hx) as [Hok Hz]; [lia|]. split.
      * apply (entry_ok_ext m); [done..|]. intros k Hk2. rewrite (Hk j x k) by done. by rewrite decide_False.
      * intros k Hk2. destruct (pages_size _ _ (Hplace _ _ Hx)) as [_ H0]. destruct (usage_pages_bound x H0) as (U1 & _).
        rewrite (Hk j x k) by (done || lia). rewrite decide_False by done. by apply Hz.
  - intros j x [[-> ->]|[Hne Hx]]%Hlk Hj; [lia|]. destruct (su_blank _ _ _ _ Hsu _ _ Hx) as (? & ?); [lia|]. split; [by apply Hpl|done].
  - intros j x j2 x2 [[-> ->]|[Hj1 Hx]]%Hlk [[-> ->]|[Hj2 Hx2]]%Hlk Hne; [done|..|by eapply (su_apart _ _ _ _ Hsu)].
    + by apply (su_apart _ _ _ _ Hsu _ _ _ _ Hi Hx2).
    + by apply (su_apart _ _ _ _ Hsu _ _ _ _ Hx Hi).
  - intros j x [[-> ->]|[Hne Hx]]%Hlk; [by apply (su_away _ _ _ _ Hsu _ _ Hi)|by eapply su_away].
Qed.

Lemma setup_entries_ok n i t es c f :
  setup (mem c) t es i -> (i + n)%nat = length es ->
  exists m' es', setup_entries n t (Z.of_nat i) (c, f) = (Ok tt, (with_mem m' c, f)) /\ setup m' t es' (length es) /\
    ((fun e => (base e, size e)) <$> es') = ((fun e => (base e, size e)) <$> es) /\ same_dom (mem c) m'.
Proof.
  revert i es c. induction n as [|n IH]; intros i es c Hsu Hn.
  { exists (mem c), es. split_and!; [by destruct c|by replace (length es) with i by lia|done|done]. }
  destruct (lookup_lt_is_Some_2 es i) as [e Hi]; [lia|]. pose proof (su_blank _ _ _ _ Hsu _ _ Hi ltac:(lia)) as Hbl.
  pose proof Hbl as (Hpo & _). destruct (pages_size _ _ Hpo) as [_ H0]. destruct (usage_pages_bound e H0) as (U1 & _). pose proof (pages_fits _ _ Hpo).
  cbn [setup_entries]. unfold mbind at 1 2 3, M_bind at 1 2 3.
  rewrite (tab_slot _ _ _ _ _ _ (su_tab _ _ _ _ Hsu) Hi), (tab_read _ _ _ _ _ _ (su_tab _ _ _ _ Hsu) Hi).
  set (e' := mkEntry (base e) (size e) (usage_pages e) (usage_pages e)).
  assert (exists m1, (if usage_pages e <? pages e
      then start ← usage_addr e 0; _ ← clear_usage (Z.to_nat (usage_pages e)) start 0; mark_usage (Z.to_nat (usage_pages e)) e 0
      else mret tt) (c, f) = (Ok tt, (with_mem m1 c, f)) /\ same_dom (mem c) m1 /\
    (forall a, ~ V (base e) <= a < V (base e) + size e -> m1 !! a = mem c !! a) /\
    (usage_pages e < pages e -> forall k, 0 <= k < pages e -> ub m1 e k = Some (if decide (k < usage_pages e) then 1 else 0)))
    as (m1 & Hrun & Hd1 & Ha1 & Hub).
  { destruct (Z.ltb_spec (usage_pages e) (pages e)) as [Hlt|Hge].
    - destruct (usage_bytes_ok e c f Hbl Hlt) as (m1 & Hrun & ?). exists m1. naive_solver.
    - exists (mem c). split_and!; [by destruct c|done|done|lia]. }
  rewrite Hrun. unfold mbind, M_bind. fold e'. assert (Ht1 : tab_ok m1 t es).
  { destruct (su_tab _ _ _ _ Hsu) as (T1 & T2 & T3 & T4 & T5). split_and!; [done..|by eapply same_dom_mapped|]. intros j x Hx.
    destruct (T5 _ _ Hx) as [Hl He]. split; [|done]. rewrite <-Hl. apply load_ext. intros a Ha. apply Ha1.
    pose proof (tab_slot_range _ _ _ _ _ (su_tab _ _ _ _ Hsu) Hx). destruct (su_away _ _ _ _ Hsu _ _ Hi); lia. }
  destruct (place_fits _ _ Hpo) as [Fb Fz]. pose proof (usage_pages_le e H0).
  destruct (tab_write t es i e e' (with_mem m1 c) f Ht1 Hi) as (m2 & -> & Ht2 & Hd2 & Ha2).
  { apply entry_of_bytes; [done..| |]; split; cbn [skip used e']; lia. }
  rewrite with_mem_twice. pose proof (setup_step _ _ _ _ _ _ _ Hsu Hi Hd1 Hd2 Ha1 Hub Ha2 Ht2) as Hsu2.
  replace (Z.of_nat i + 1) with (Z.of_nat (S i)) by lia. rewrite <-(length_insert es i e') in Hn.
  destruct (IH (S i) (<[i:=e']> es) (with_mem m2 c) Hsu2 ltac:(lia)) as (m' & es' & -> & Hsu' & Hsh & Hd').
  exists m', es'. split; [done|]. rewrite length_insert in Hsu'. split; [done|]. split.
  - rewrite Hsh, list_fmap_insert. apply list_insert_id. rewrite list_lookup_fmap, Hi. done.
  - eapply same_dom_trans; [exact Hd1|]. by eapply same_dom_trans.
Qed.

(** ** Start-up *)

(** The areas without the table page. *)
Definition rest_of (a : MemoryArea) (areas : list MemoryArea) : list MemoryArea :=
  if area_size a <=? PAGE_SIZE then areas else mkArea (area_base a + PAGE_SIZE) (area_size a - PAGE_SIZE) :: areas.

Lemma insert_areas_first m t a areas s :
  area_ok m a -> insert_areas t PAGE_SIZE (a :: areas) s = insert_areas t 0 (rest_of a areas) s.
Proof.
  intros Ha. unfold rest_of. pose proof (area_page _ _ Ha). destruct (ao_base _ _ Ha). pose proof (ao_end _ _ Ha). pose proof (offset_range (A:=A)).
  pose proof page_size_pos. cbn [insert_areas]. destruct (Z.leb_spec (area_size a) PAGE_SIZE).
  { by replace (PAGE_SIZE - area_size a) with 0 by lia. }
  cbn [insert_areas area_base area_size]. destruct (Z.leb_spec (area_size a - PAGE_SIZE) 0); [lia|].
  unfold mbind, M_bind, add, lift. rewrite uadd_ok by lia. rewrite uadd_ok by lia. by rewrite Z.add_0_r, Z.sub_0_r.
Qed.

Lemma rest_of_ok m a areas :
  Forall (area_ok m) (a :: areas) -> ForallOrdPairs area_apart (a :: areas) ->
  Forall (area_ok m) (rest_of a areas) /\ ForallOrdPairs area_apart (rest_of a areas) /\
  (forall b, b ∈ rest_of a areas -> V (area_base a) + PAGE_SIZE <= V (area_base b) \/ V (area_base b) + area_size b <= V (area_base a)) /\
  forall x, (exists b, b ∈ rest_of a areas /\ in_area x b) <->
    (exists b, b ∈ a :: areas /\ in_area x b) /\ ~ area_base a <= x < area_base a + PAGE_SIZE.
Proof.
  intros [Ha Hok]%Forall_cons Hap. inversion Hap as [|? ? Hfar Hap']; subst. rewrite Forall_forall in Hfar.
  pose proof (area_page _ _ Ha). pose proof page_size_pos. unfold rest_of, V.
  assert (Hrest : forall b, b ∈ areas -> area_base a + PHYS_OFFSET + PAGE_SIZE <= area_base b + PHYS_OFFSET \/
    area_base b + PHYS_OFFSET + area_size b <= area_base a + PHYS_OFFSET) by (intros b Hb; destruct (Hfar b Hb); lia).
  assert (Hout : forall x b, b ∈ areas -> in_area x b -> ~ area_base a <= x < area_base a + PAGE_SIZE).
  { intros x b Hb Hx. specialize (Hrest b Hb). unfold in_area in Hx. lia. }
  destruct (Z.leb_spec (area_size a) PAGE_SIZE) as [Hle|Hgt].
  - split_and!; [done|done|done|]. intros x. split.
    + intros (b & Hb & Hx). split; [exists b; set_solver|by eapply Hout].
    + intros [(b & [->|Hb]%elem_of_cons & Hx) Hn]; [unfold in_area in Hx; lia|by exists b].
  - destruct Ha as [[A1 A1'] [A2 A2'] A3 A4]. split_and!.
    + apply Forall_cons. split; [|done]. split; cbn [area_base area_size]; [split..| |].
      * lia.
      * rewrite <-Z.add_mod_idemp_l, A1' by lia. rewrite Z.add_0_l, Z.mod_same; lia.
      * lia.
      * rewrite Zminus_mod, A2', Z.mod_same by lia. done.
      * lia.
      * apply (mapped_sub _ _ _ _ _ A4); unfold V; lia.
    + constructor; [|done]. apply Forall_forall. intros b Hb. specialize (Hfar b Hb). unfold area_apart in *. cbn [area_base area_size]. lia.
    + intros b [->|Hb]%elem_of_cons; [cbn [area_base area_size]; lia|by apply Hrest].
    + intros x. split.
      * intros (b & [->|Hb]%elem_of_cons & Hx).
        -- unfold in_area in Hx. cbn [area_base area_size] in Hx. split; [|lia]. exists a. split; [set_solver|]. unfold in_area. lia.
        -- split; [exists b; set_solver|by eapply Hout].
      * intros [(b & [->|Hb]%elem_of_cons & Hx) Hn]; [|exists b; set_solver].
        exists (mkArea (area_base a + PAGE_SIZE) (area_size a - PAGE_SIZE)). split; [set_solver|]. unfold in_area in *. cbn [area_base area_size]. lia.
Qed.

Lemma stage_empty m t :
  PHYS_OFFSET <= t -> t + PAGE_SIZE <= 2 ^ 64 -> (forall a, t <= a < t + PAGE_SIZE -> m !! a = Some 0) ->
  stage m t (replicate (Z.to_nat BUDDY_ENTRIES) empty) 0.
Proof.
  intros H1 H2 Hz. pose proof (offset_range (A:=A)). split; [apply tab_empty; [lia|done..]|..].
  - intros i e [-> _]%lookup_replicate. split_and!; [split; cbn; [split; [lia|by rewrite Z.mod_0_l by (pose proof page_size_pos; lia)]..|lia|]|done..].
    apply mapped_alt. intros. lia.
  - intros i e j e' [-> _]%lookup_replicate [-> _]%lookup_replicate _. left. cbn. lia.
  - intros i e [-> _]%lookup_replicate. right. unfold V. cbn. lia.
  - by intros i e [-> _]%lookup_replicate.
Qed.

Lemma setup_buddy m t es : setup m t es (length es) -> buddy_ok m t es /\ used_frames m es = ∅.
Proof.
  intros Hsu. destruct (su_tab _ _ _ _ Hsu) as (T1 & T2 & T3 & T4 & T5). split.
  - split; [done|done| |by apply (su_apart _ _ _ _ Hsu)|by apply (su_away _ _ _ _ Hsu)]. intros i e Hi. split; [by apply T5|].
    apply (su_done _ _ _ _ Hsu _ _ Hi). by eapply lookup_lt_Some.
  - apply set_eq. intros p. rewrite elem_used_frames. split; [|set_solver]. intros (e & k & ([i Hi]%list_elem_of_lookup & Hk & _) & Hu).
    destruct (su_done _ _ _ _ Hsu _ _ Hi) as [_ Hz]; [by eapply lookup_lt_Some|]. rewrite Hz in Hu by done. done.
Qed.

Lemma lookup_shape es es' i e' :
  ((fun e => (base e, size e)) <$> es') = ((fun e => (base e, size e)) <$> es) -> es' !! i = Some e' ->
  exists e, es !! i = Some e /\ base e' = base e /\ size e' = size e.
Proof.
  intros Hl Hi. assert (((fun e => (base e, size e)) <$> es) !! i = Some (base e', size e')) as Hi'.
  { by rewrite <-Hl, list_lookup_fmap, Hi. }
  apply list_lookup_fmap_Some in Hi' as (e & [= H1 H2] & He). eauto.
Qed.

Lemma total_shape es es' : ((fun e => (base e, size e)) <$> es') = ((fun e => (base e, size e)) <$> es) -> total es' = total es.
Proof. intros Hl. apply (f_equal (fmap snd)) in Hl. rewrite <-!list_fmap_compose in Hl. unfold total. by f_equal. Qed.

Lemma total_empty n : total (replicate n empty) = 0.
Proof. unfold total. by induction n. Qed.

Lemma rest_of_total a areas :
  PAGE_SIZE <= area_size a -> foldr Z.add 0 (area_size <$> rest_of a areas) = foldr Z.add 0 (area_size <$> a :: areas) - PAGE_SIZE.
Proof. intros Ha. unfold rest_of. destruct (Z.leb_spec (area_size a) PAGE_SIZE); cbn [fmap list_fmap foldr area_size]; lia. Qed.

Lemma covers_shape es es' x :
  ((fun e => (base e, size e)) <$> es') = ((fun e => (base e, size e)) <$> es) -> covers es' x <-> covers es x.
Proof.
  intros Hsh. assert (forall l l', ((fun e => (base e, size e)) <$> l) = ((fun e => (base e, size e)) <$> l') -> covers l x -> covers l' x) as H.
  { intros l l' Hl (i & e & Hi & Hx). destruct (lookup_shape _ _ _ _ Hl Hi) as (e' & He' & H1 & H2). exists i, e'. split; [done|].
    unfold in_entry in *. by rewrite <-H1, <-H2. }
  split; by apply H.
Qed.

(** ** How much is left to hand out *)

Definition room e : Z := pages e - usage_pages e.

Lemma all_frames_size es :
  (forall i e j e', es !! i = Some e -> es !! j = Some e' -> i <> j -> forall p, p ∈ frames_of e -> p ∈ frames_of e' -> False) ->
  Forall (fun e => 0 <= room e) es -> Z.of_nat (stdpp.base.size (all_frames es)) = foldr Z.add 0 (room <$> es).
Proof.
  pose proof page_size_pos. induction es as [|e es IH]; intros Hap Hr; [done|]. apply Forall_cons in Hr as [He Hr]. cbn [fmap list_fmap foldr].
  rewrite <-IH; [|intros i x j y Hi Hj Hne; by apply (Hap (S i) x (S j) y); auto|done].
  unfold all_frames. cbn [mbind list_bind]. rewrite list_to_set_app, size_union.
  - rewrite size_list_to_set.
    + unfold frames_of at 1. rewrite length_fmap, length_seqZ. unfold room in *. lia.
    + unfold frames_of. apply NoDup_fmap_2_strong; [|apply NoDup_seqZ]. intros. nia.
  - intros p. rewrite !elem_of_list_to_set, list_elem_of_bind. intros Hp (y & Hy & [j Hj]%list_elem_of_lookup).
    by apply (Hap 0%nat e (S j) y eq_refl Hj ltac:(done) p).
Qed.

Lemma div_sum x y : 0 <= x -> 0 <= y -> x / PAGE_SIZE + y / PAGE_SIZE <= (x + y) / PAGE_SIZE.
Proof.
  intros Hx Hy. assert (Hp : 0 < PAGE_SIZE) by (pose proof page_size_pos; lia). apply Z.div_le_lower_bound; [lia|].
  pose proof (Z.mul_div_le x _ Hp). pose proof (Z.mul_div_le y _ Hp). lia.
Qed.

(** One page in [PAGE_SIZE], and one more for each area entered, is spent on
    usage bytes. *)
Lemma room_total m es k :
  (forall i e, es !! i = Some e -> place_ok m e) -> (forall i e, es !! i = Some e -> (k <= i)%nat -> size e = 0) ->
  0 <= total es / PAGE_SIZE /\ total es mod PAGE_SIZE = 0 /\
  total es / PAGE_SIZE - total es / PAGE_SIZE / PAGE_SIZE - Z.of_nat k <= foldr Z.add 0 (room <$> es).
Proof.
  pose proof page_size_pos. revert k. induction es as [|e es IH]; intros k Hpo Hk.
  { cbn. rewrite !Z.div_0_l, Z.mod_0_l by lia. lia. }
  destruct (IH (k - 1)%nat) as (I1 & I2 & I3).
  { intros i x Hi. by apply (Hpo (S i)). } { intros i x Hi Hle. apply (Hk (S i)); [done|lia]. }
  pose proof (Hpo 0%nat e eq_refl) as He. destruct (po_size _ _ He) as [Hs0 Hs1]. destruct (pages_size _ _ He) as [Hs H0].
  change (total (e :: es)) with (size e + total es). cbn [fmap list_fmap foldr].
  assert (Hd : (size e + total es) / PAGE_SIZE = pages e + total es / PAGE_SIZE) by (rewrite Hs, Z.add_comm, Z.div_add by lia; lia).
  rewrite Hd. split_and!; [lia|by rewrite Z.add_mod, Hs1, I2 by lia|].
  pose proof (div_sum (pages e) (total es / PAGE_SIZE) H0 I1). unfold room at 1.
  assert (Hu : usage_pages e <= pages e / PAGE_SIZE + 1 /\ (pages e = 0 -> usage_pages e = 0)).
  { unfold usage_pages, PAGE_OFFSET_MASK. rewrite Z.mul_1_r, Z.shiftr_div_pow2, <-page_size_eq by (pose proof page_shift_pos; lia). split.
    - transitivity ((pages e + 1 * PAGE_SIZE) / PAGE_SIZE); [apply Z.div_le_mono; lia|]. rewrite Z.div_add; lia.
    - intros ->. apply Z.div_small. lia. }
  destruct k as [|k]; [|lia]. specialize (Hk 0%nat e eq_refl ltac:(lia)). assert (Hp0 : pages e = 0) by nia. destruct Hu as [_ Hu].
  rewrite Hu, Hp0, Z.add_0_l by done. change (0 - 1)%nat with 0%nat in I3. lia.
Qed.

Lemma buddy_new_ok c a areas :
  areas_ok (mem c) (a :: areas) ->
  exists m' es b, buddy_new (c, bump_new (a :: areas) 0) = (Ok (mkBuddy (V (area_base a))), (with_mem m' c, b)) /\
    buddy_ok m' (V (area_base a)) es /\ used_frames m' es = ∅ /\ same_dom (mem c) m' /\
    total es = foldr Z.add 0 (area_size <$> a :: areas) - PAGE_SIZE /\ (forall i e, es !! i = Some e -> (length (a :: areas) <= i)%nat -> size e = 0) /\
    forall x, covers es x <-> (exists b, b ∈ a :: areas /\ in_area x b) /\ ~ area_base a <= x < area_base a + PAGE_SIZE.
Proof.
  intros (Hok & Hap & Hsum & Hlen). pose proof page_size_pos. pose proof (offset_range (A:=A)).
  pose proof Hok as [Ha _]%Forall_cons. pose proof (area_page _ _ Ha). pose proof (ao_end _ _ Ha). destruct (ao_base _ _ Ha) as [Hb0 _].
  set (t := V (area_base a)). unfold buddy_new. rewrite (bump_new_ok (mem c)) by done.
  unfold mbind at 1 2 3 4 5, M_bind at 1 2 3 4 5. rewrite bump_allocate_first by done.
  unfold phys_to_virt, lift at 1. rewrite uadd_ok by lia. change (area_base a + PHYS_OFFSET) with t.
  set (m1 := store_bytes _ _ _).
  assert (Hz : zlen (replicate (Z.to_nat PAGE_SIZE) 0) = PAGE_SIZE) by (unfold zlen; rewrite length_replicate; lia).
  assert (Hd1 : same_dom (mem c) m1).
  { apply same_dom_store. rewrite Hz. apply (mapped_sub _ _ _ _ _ (ao_mapped _ _ Ha)); lia. }
  assert (Hz1 : forall x, t <= x < t + PAGE_SIZE -> m1 !! x = Some 0).
  { intros x Hx. unfold m1. rewrite store_bytes_lookup, Hz, decide_True by done. apply lookup_replicate. unfold t in *. lia. }
  pose proof buddy_entries_size. assert (0 <= BUDDY_ENTRIES) by (unfold BUDDY_ENTRIES, BUDDY_ENTRY_SIZE; apply Z.div_pos; lia).
  rewrite clear_table_ok by (done || lia || (unfold t, V; lia)). unfold get. unfold mbind at 1, M_bind at 1. unfold lift.
  cbn [snd]. rewrite (bump_offset_ok (mem c)) by done. unfold bump_areas. cbn [orig_areas fst]. rewrite (insert_areas_first (mem c)) by done.
  destruct (rest_of_ok (mem c) a areas Hok Hap) as (Hok' & Hap' & Haw & Hcov).
  destruct (insert_areas_ok (rest_of a areas) t (replicate (Z.to_nat BUDDY_ENTRIES) empty) 0 (with_mem m1 c) (mkBump (a :: areas, 0) (a :: areas, PAGE_SIZE)))
    as (m2 & es & -> & Hst & Hd2 & Ht2 & Hc2).
  { apply stage_empty; [unfold t, V; lia..|done]. }
  { rewrite length_replicate. assert (length (rest_of a areas) <= length (a :: areas))%nat by (unfold rest_of; case_match; cbn; lia). unfold zlen in Hlen. lia. }
  { eapply Forall_impl; [exact Hok'|]. intros x. by apply area_ok_dom. }
  { done. }
  { intros x b Hb (i & e & [-> _]%lookup_replicate & Hx). unfold in_entry in Hx. cbn in Hx. lia. }
  { done. }
  assert (Hle : length es = Z.to_nat BUDDY_ENTRIES) by (destruct (st_tab _ _ _ _ Hst) as [Hl _]; unfold zlen in Hl; lia).
  destruct (setup_entries_ok (Z.to_nat BUDDY_ENTRIES) 0 t es (with_mem m2 c) (mkBump (a :: areas, 0) (a :: areas, PAGE_SIZE)))
    as (m3 & es' & Hrun & Hsu & Hsh & Hd3); [|lia|].
  { destruct Hst. split; try done; [lia|]. intros j e Hj _. by eapply st_blank0. }
  change (Z.of_nat 0) with 0 in Hrun. unfold mbind, M_bind. rewrite with_mem_twice, Hrun.
  assert (length es = length es') as Hlen' by (apply (f_equal length) in Hsh; by rewrite !length_fmap in Hsh).
  rewrite Hlen' in Hsu. destruct (setup_buddy _ _ _ Hsu) as [Hbo Hu]. exists m3, es', (mkBump (a :: areas, 0) (a :: areas, PAGE_SIZE)).
  split_and!; [done|done|done| | | |].
  - eapply same_dom_trans; [exact Hd1|]. by eapply same_dom_trans.
  - rewrite (total_shape _ _ Hsh), Ht2, total_empty, rest_of_total by lia. lia.
  - intros i e Hi Hki. destruct (lookup_shape _ _ _ _ Hsh Hi) as (e0 & Hi0 & _ & ->).
    rewrite (st_rest _ _ _ _ Hst _ _ Hi0); [done|]. assert (length (rest_of a areas) <= length (a :: areas))%nat by (unfold rest_of; case_match; cbn; lia). lia.
  - intros x. rewrite (covers_shape _ _ _ Hsh), Hc2, <-Hcov. split; [|by right].
    intros [(i & e & [-> _]%lookup_replicate & Hx)|?]; [|done]. unfold in_entry in Hx. cbn in Hx. lia.
Qed.

End init.

(** ** Clients of a frame allocator

    A client allocates, gives back runs of frames it holds, and writes to
    the frames it holds; [cl_held] is the set of frames it holds. *)

Record Client F := mkClient { cl_mach : Machine; cl_alloc : F; cl_held : gset Z }.
Arguments mkClient {F}.
Arguments cl_mach {F}.
Arguments cl_alloc {F}.
Arguments cl_held {F}.

Section clients.
Context {A : Arch} {F : Type} {FA : FrameAllocator F}.

Inductive client_step : Client F -> Client F -> Prop :=
| step_allocate c f U n p c' f' :
    0 < n -> allocate n (c, f) = (Ok p, (c', f')) -> client_step (mkClient c f U) (mkClient c' f' (run p n ∪ U))
| step_refused c f U n e c' f' :
    0 < n -> allocate n (c, f) = (Err e, (c', f')) -> client_step (mkClient c f U) (mkClient c' f' U)
| step_free c f U p n r c' f' :
    0 < n -> run p n ⊆ U -> free p n (c, f) = (r, (c', f')) -> client_step (mkClient c f U) (mkClient c' f' (U ∖ run p n))
| step_write c f U p a b :
    p ∈ U -> in_frame a p -> client_step (mkClient c f U) (mkClient (with_mem (<[a:=b]> (mem c)) c) f U).

Definition client_steps : Client F -> Client F -> Prop := rtc client_step.

Context {SP : AllocSpec F}.

Definition client_ok (R : gset Z) (s : Client F) : Prop := rep (mem (cl_mach s)) (cl_alloc s) R (cl_held s).

Lemma client_step_ok R s s' : client_ok R s -> client_step s s' -> client_ok R s'.
Proof.
  unfold client_ok. intros Hr Hs. destruct Hs as [c f U n p c' f' Hn Ha|c f U n e c' f' Hn Ha|c f U p n r c' f' Hn Hsub Ha|c f U p a b Hp Hin];
    cbn [cl_mach cl_alloc cl_held] in *.
  - destruct (rep_allocate _ _ _ _ n Hr Hn) as [(q & m' & f2 & Heq & _ & Hr' & _)|[Heq _]]; rewrite Heq in Ha; by simplify_eq.
  - destruct (rep_allocate _ _ _ _ n Hr Hn) as [(q & m' & f2 & Heq & _)|[Heq _]]; rewrite Heq in Ha; by simplify_eq.
  - destruct (rep_free _ _ _ _ p n Hr Hn Hsub) as (m' & f2 & Heq & Hr' & _). rewrite Heq in Ha. by simplify_eq.
  - assert (Hpr : p ∈ R) by (by eapply rep_used). destruct (rep_frame _ _ _ _ p Hr Hpr) as [_ Hm].
    eapply rep_stable; [exact Hr| |]; rewrite with_mem_mem.
    + intros i. destruct (decide (i = a)) as [->|Hne]; [|by rewrite lookup_insert_ne by done]. rewrite lookup_insert_eq.
      split; intros _; [|done]. by eapply mapped_alt.
    + intros i Hi. rewrite lookup_insert_ne; [done|]. intros ->. by eapply Hi.
Qed.

Lemma client_steps_ok R s s' : client_ok R s -> client_steps s s' -> client_ok R s'.
Proof. intros Hr Hs. induction Hs; [done|]. by eauto using client_step_ok. Qed.

(** What every call of a client gives. *)
Definition allocates_exclusively (R : gset Z) (s : Client F) (n : Z) : Prop :=
  (exists p m' f', allocate n (cl_mach s, cl_alloc s) = (Ok p, (with_mem m' (cl_mach s), f')) /\ run p n ⊆ R ∖ cl_held s /\
     (forall q, q ∈ run p n -> page_zero m' q) /\
     forall a q, q ∈ cl_held s -> in_frame a q -> m' !! a = mem (cl_mach s) !! a) \/
  (allocate n (cl_mach s, cl_alloc s) = (Err tt, (cl_mach s, cl_alloc s)) /\ forall p, ~ run p n ⊆ R ∖ cl_held s).

Definition frees_quietly (s : Client F) (p n : Z) : Prop :=
  exists m' f', free p n (cl_mach s, cl_alloc s) = (Ok tt, (with_mem m' (cl_mach s), f')) /\
    forall a q, q ∈ cl_held s -> in_frame a q -> m' !! a = mem (cl_mach s) !! a.

Lemma client_calls R s s' :
  client_ok R s -> client_steps s s' ->
  cl_held s' ⊆ R /\ (forall n, 0 < n -> allocates_exclusively R s' n) /\
  (forall p n, 0 < n -> run p n ⊆ cl_held s' -> frees_quietly s' p n).
Proof.
  intros Hr Hs. pose proof (client_steps_ok _ _ _ Hr Hs) as Hr'. unfold client_ok in Hr'. split; [by eapply rep_used|]. split.
  - intros n Hn. destruct (rep_allocate _ _ _ _ n Hr' Hn) as [(p & m' & f' & ? & ? & ? & ? & ? & ?)|?]; [left|by right].
    exists p, m', f'. done.
  - intros p n Hn Hsub. destruct (rep_free _ _ _ _ p n Hr' Hn Hsub) as (m' & f' & ? & ? & ? & ?). by exists m', f'.
Qed.

End clients.

Section boot.
Context {A : Arch} {AO : ArchOk A}.

(** The frames an allocator built from [areas] may hand out. *)
Definition frame_in_areas (a : MemoryArea) (areas : list MemoryArea) (p : Z) : Prop :=
  frame_ok p /\ forall x, p <= x < p + PAGE_SIZE -> (exists b, b ∈ a :: areas /\ in_area x b) /\ ~ area_base a <= x < area_base a + PAGE_SIZE.

(** The pages of the areas other than the allocator's table. *)
Definition pages_in (areas : list MemoryArea) : Z := foldr Z.add 0 (area_size <$> areas) / PAGE_SIZE - 1.

Lemma all_frames_room m t es k :
  buddy_ok m t es -> (forall i e, es !! i = Some e -> (k <= i)%nat -> size e = 0) ->
  total es / PAGE_SIZE - total es / PAGE_SIZE / PAGE_SIZE - Z.of_nat k <= Z.of_nat (stdpp.base.size (all_frames es)).
Proof.
  intros Hb Hk. rewrite all_frames_size.
  - apply (room_total m es k); [|done]. intros i e Hi. by destruct (bo_entry _ _ _ Hb _ _ Hi) as (_ & ? & _).
  - intros i e j e' Hi Hj Hne p (q & -> & Hq%elem_of_seqZ)%list_elem_of_fmap (q' & Heq & Hq'%elem_of_seqZ)%list_elem_of_fmap.
    destruct (bo_entry _ _ _ Hb _ _ Hi) as (_ & Hpo & _). destruct (bo_entry _ _ _ Hb _ _ Hj) as (_ & Hpo' & _).
    destruct (page_inside _ _ q Hpo) as [I1 I2]; [lia|]. destruct (page_inside _ _ q' Hpo') as [J1 J2]; [lia|].
    destruct (pages_size _ _ Hpo), (pages_size _ _ Hpo'). pose proof page_size_pos.
    destruct (bo_apart _ _ _ Hb _ _ _ _ Hi Hj Hne); lia.
  - apply Forall_lookup. intros i e Hi. destruct (bo_entry _ _ _ Hb _ _ Hi) as (_ & Hpo & _). destruct (pages_size _ _ Hpo) as [_ H0].
    pose proof (usage_pages_le e H0). unfold room. lia.
Qed.

Lemma buddy_boot c a areas :
  areas_ok (mem c) (a :: areas) ->
  exists m' b R, buddy_new (c, bump_new (a :: areas) 0) = (Ok (mkBuddy (V (area_base a))), (with_mem m' c, b)) /\
    rep m' (mkBuddy (V (area_base a))) R ∅ /\ same_dom (mem c) m' /\ (forall p, p ∈ R -> frame_in_areas a areas p) /\
    pages_in (a :: areas) - pages_in (a :: areas) / PAGE_SIZE - zlen (a :: areas) <= Z.of_nat (stdpp.base.size R).
Proof.
  intros Ha. destruct (buddy_new_ok c a areas Ha) as (m' & es & b & Hrun & Hb & Hu & Hd & Ht & Hk & Hc). exists m', b, (all_frames es).
  assert (Hr : buddy_rep m' (mkBuddy (V (area_base a))) (all_frames es) ∅) by (exists es; by rewrite Hu).
  pose proof (all_frames_room _ _ _ _ Hb Hk) as Hroom. rewrite Ht in Hroom. pose proof page_size_pos.
  assert (Hpi : (foldr Z.add 0 (area_size <$> a :: areas) - PAGE_SIZE) / PAGE_SIZE = pages_in (a :: areas)).
  { unfold pages_in. replace (_ - PAGE_SIZE) with (foldr Z.add 0 (area_size <$> a :: areas) + (-1) * PAGE_SIZE) by lia. rewrite Z.div_add; lia. }
  rewrite Hpi in Hroom. split_and!; [done..| |exact Hroom]. intros p Hp. destruct (buddy_rep_frame _ _ _ _ p Hr Hp) as [Hf _]. split; [done|].
  intros x Hx. apply Hc. apply elem_all_frames in Hp as (e & k & [i Hi]%list_elem_of_lookup & Hpk & ->). exists i, e. split; [done|].
  destruct (bo_entry _ _ _ Hb _ _ Hi) as (_ & Hpo & _). destruct (page_inside _ _ _ Hpo Hpk) as [I1 I2]. destruct (pages_size _ _ Hpo). unfold in_entry. lia.
Qed.

(** C16. The frame allocator, from start-up on, for every page-table format and
    every list of usable memory areas: building the buddy allocator succeeds,
    and then, whatever sequence of allocations, releases of held frames and
    writes into held frames a client performs, no call panics or faults; an
    allocation of n frames returns n consecutive zeroed frames that lie in the
    usable areas, outside the allocator's own table, none of which is held by
    anybody, or fails, and it fails only if no such run is free; neither
    allocating nor freeing changes a byte of a held frame; and all pages of the
    areas can be handed out, but for the table, one page in every page size of
    them and one page for each area. *)
Theorem frames_are_exclusive c a areas :
  areas_ok (mem c) (a :: areas) ->
  exists c' b buddy R, buddy_new (c, bump_new (a :: areas) 0) = (Ok buddy, (c', b)) /\ (forall p, p ∈ R -> frame_in_areas a areas p) /\
  pages_in (a :: areas) - pages_in (a :: areas) / PAGE_SIZE - zlen (a :: areas) <= Z.of_nat (stdpp.base.size R) /\
  forall s, client_steps (mkClient c' buddy ∅) s ->
    cl_held s ⊆ R /\ (forall n, 0 < n -> allocates_exclusively R s n) /\
    (forall p n, 0 < n -> run p n ⊆ cl_held s -> frees_quietly s p n).
Proof.
  intros Ha. destruct (buddy_boot c a areas Ha) as (m' & b & R & Hrun & Hr & _ & HR & Hsz).
  exists (with_mem m' c), b, (mkBuddy (V (area_base a))), R. split_and!; [done..|]. intros s Hs. by apply (client_calls R (mkClient (with_mem m' c) (mkBuddy (V (area_base a))) ∅)).
Qed.

End boot.

(** Memory of zeros at the direct map of physical [p, p + n). *)
Definition zeroed {A : Arch} (p n : Z) : gmap Z Z := store_bytes ∅ (V p) (replicate (Z.to_nat n) 0).

Lemma mapped_zeroed {A : Arch} p n : 0 <= n -> mapped (zeroed p n) (V p) n.
Proof.
  intros Hn. apply mapped_alt. intros i Hi. unfold zeroed. rewrite store_bytes_lookup. unfold zlen. rewrite length_replicate, decide_True by lia.
  rewrite lookup_replicate_2 by lia. done.
Qed.

Section witness.
#[local] Existing Instance X8664Arch.

Lemma frames_are_exclusive_witness :
  exists c' b buddy R, buddy_new (mkMachine (@zeroed X8664Arch 0x1000 0x6000) (0, 0), bump_new [mkArea 0x1000 0x4000; mkArea 0x5000 0x2000] 0) = (Ok buddy, (c', b)) /\
    (2 <= Z.of_nat (stdpp.base.size R)) /\
    forall s, client_steps (mkClient c' buddy ∅) s -> forall n, 0 < n -> allocates_exclusively R s n.
Proof.
  destruct (@frames_are_exclusive X8664Arch _ (mkMachine (@zeroed X8664Arch 0x1000 0x6000) (0, 0)) (mkArea 0x1000 0x4000) [mkArea 0x5000 0x2000])
    as (c' & b & buddy & R & Hrun & _ & Hsz & Hs).
  - assert (forall p n, 0x1000 <= p -> 0 < n -> p + n <= 0x7000 -> p mod 4096 = 0 -> n mod 4096 = 0 -> @area_ok X8664Arch (@zeroed X8664Arch 0x1000 0x6000) (mkArea p n)) as H.
    { intros p n H1 H2 H3 H4 H5. split; cbn [area_base area_size]; [split; [lia|exact H4]|split; [lia|exact H5]| |].
      - change (@PHYS_OFFSET X8664Arch) with 0xFFFF_8000_0000_0000. lia.
      - apply (mapped_sub _ _ _ _ _ (@mapped_zeroed X8664Arch 0x1000 0x6000 ltac:(lia))); unfold V; lia. }
    split; [|split; [|split]].
    + apply Forall_cons; split; [apply H; done || lia|]. apply Forall_cons; split; [apply H; done || lia|apply Forall_nil_2].
    + constructor; [|repeat constructor]. apply Forall_cons; split; [|done]. unfold area_apart. cbn [area_base area_size]. lia.
    + cbn [fmap list_fmap foldr area_size]. lia.
    + vm_compute. congruence.
  - exists c', b, buddy, R. split_and!; [exact Hrun| |].
    + etrans; [|exact Hsz]. vm_compute. congruence.
    + intros s Hst. by apply Hs.
Defined.

End witness.

End RmmInit.
