(* ===== verification/FrameAlloc.v ===== *)
(** * The kernel's frame allocator

    Models [src/memory/frame_allocator.rs]: the usable regions of the boot
    loader's memory map become the areas of a buddy allocator of the
    memory-manager crate, from which the kernel takes its frames one by one.
    The conversion of an address to a frame of the [x86_64] crate is a
    parameter. *)

From S2P Require Import Prelude Bytes RmmArch RmmFrame RmmBuddy RmmInit.
Import RmmArch RmmFrame RmmBuddy RmmInit.

Module FrameAlloc.

(** A region of the memory map, and whether its type is [Usable]. *)
Record MemoryRegion := mkRegion { start_addr : Z; end_addr : Z; usable : bool }.

Definition MAX_AREAS : nat := 32.

Section kernel.
#[local] Existing Instance X8664Arch.

(** [PhysFrame::containing_address(PhysAddr::new(a))] *)
Context (phys_frame : Z -> res unit Z).

(** The machine and [RMM_ALLOC]. *)
Abbreviation KM := (M (Machine * option BuddyAllocator) unit).

Fixpoint collect_areas (regions : list MemoryRegion) (areas : list MemoryArea) : res unit (list MemoryArea) :=
  match regions with
  | [] => Ok areas
  | r :: regions =>
    if usable r then
      if (length areas <? MAX_AREAS)%nat then
        n ← usub (end_addr r) (start_addr r);
        collect_areas regions (areas ++ [mkArea (start_addr r) n])
      else collect_areas regions areas
    else collect_areas regions areas
  end.

Definition rmm_init_from_bootinfo (regions : list MemoryRegion) : KM unit := fun s =>
  match collect_areas regions [] with
  | Ok [] => (Panic, s)
  | Ok areas =>
    match buddy_new (fst s, bump_new areas 0) with
    | (Ok buddy, (c, _)) => (Ok tt, (c, Some buddy))
    | (Fault, (c, _)) => (Fault, (c, snd s))
    | (_, (c, _)) => (Panic, (c, snd s))
    end
  | Err e => (Err e, s)
  | Panic => (Panic, s)
  | Fault => (Fault, s)
  end.

Definition allocate_frame : KM Z := fun s =>
  match snd s with
  | None => (Err tt, s)
  | Some f =>
    match allocate 1 (fst s, f) with
    | (Ok phys, (c, f')) => (phys_frame phys, (c, Some f'))
    | (r, (c, f')) => (r, (c, Some f'))
    end
  end.

(** [k] calls, one after the other. *)
Fixpoint calls (k : nat) (s : Machine * option BuddyAllocator) : list (res unit Z) :=
  match k with
  | O => []
  | S k => let '(r, s') := allocate_frame s in r :: calls k s'
  end.

(** ** The areas of a memory map *)

Definition area_of (r : MemoryRegion) : MemoryArea := mkArea (start_addr r) (end_addr r - start_addr r).

Definition usable_areas (regions : list MemoryRegion) : list MemoryArea := area_of <$> filter (fun r => usable r = true) regions.

Lemma collect_areas_ok regions areas :
  Forall (fun r => start_addr r <= end_addr r) regions ->
  collect_areas regions areas = Ok (areas ++ take (MAX_AREAS - length areas) (usable_areas regions)).
Proof.
  revert areas. induction regions as [|r regions IH]; intros areas Hr; cbn [collect_areas].
  { unfold usable_areas. cbn. by rewrite take_nil, app_nil_r. }
  apply Forall_cons in Hr as [Hle Hr]. unfold usable_areas. rewrite filter_cons. destruct (usable r) eqn:Hu; cbn [decide bool_decide].
  - rewrite decide_True by done. destruct (Nat.ltb_spec (length areas) MAX_AREAS).
    + unfold usub. destruct (Z.ltb_spec (end_addr r) (start_addr r)); [lia|]. cbn [mbind res_bind]. rewrite IH by done. f_equal.
      rewrite length_app, <-app_assoc. cbn [length fmap list_fmap]. replace (MAX_AREAS - length areas)%nat with (S (MAX_AREAS - (length areas + 1))) by lia.
      done.
    + rewrite IH by done. replace (MAX_AREAS - length areas)%nat with 0%nat by lia. done.
  - rewrite decide_False by done. by apply IH.
Qed.

(** ** Frames are handed out once *)

Record map_ok (m : gmap Z Z) (regions : list MemoryRegion) : Prop := {
  mo_order : Forall (fun r => start_addr r <= end_addr r) regions;
  mo_some : usable_areas regions <> [];
  mo_count : (length (usable_areas regions) <= MAX_AREAS)%nat;
  mo_areas : areas_ok m (usable_areas regions)
}.

(** The parameter on the frames of the physical address space. *)
Hypothesis phys_frame_spec : forall a, 0 <= a < 2 ^ 52 -> a mod 4096 = 0 -> phys_frame a = Ok a.

Definition usable_frame (regions : list MemoryRegion) (p : Z) : Prop :=
  p mod 4096 = 0 /\ forall x, p <= x < p + 4096 -> exists r, r ∈ regions /\ usable r = true /\ start_addr r <= x < end_addr r.

Lemma frame_below p : frame_ok p -> 0 <= p < 2 ^ 52 /\ p mod 4096 = 0.
Proof.
  unfold frame_ok. change PAGE_SIZE with 4096. change PHYS_OFFSET with 0xFFFF_8000_0000_0000. lia.
Qed.

Lemma run_one p : run p 1 = {[p]}.
Proof.
  apply set_eq. intros q. rewrite elem_run, elem_of_singleton. split.
  - intros (k & Hk & ->). replace k with 0 by lia. lia.
  - intros ->. exists 0. lia.
Qed.

Lemma calls_ok k c f R U :
  rep (mem c) f R U ->
  exists l, calls k (c, Some f) = (Ok <$> l) ++ replicate (k - length l) (Err tt) /\ NoDup l /\
    (forall p, p ∈ l -> p ∈ R ∖ U) /\ Z.of_nat (length l) = Z.min (Z.of_nat k) (Z.of_nat (stdpp.base.size (R ∖ U))).
Proof.
  revert c f U. induction k as [|k IH]; intros c f U Hr.
  { exists []. cbn. split_and!; [done|constructor|set_solver|lia]. }
  cbn [calls]. unfold allocate_frame. cbn [fst snd]. destruct (rep_allocate c f R U 1 Hr ltac:(lia)) as [(p & m' & f' & -> & Hp & Hr' & _)|[-> Hno]].
  - rewrite run_one in *. assert (HpR : p ∈ R) by set_solver. destruct (rep_frame _ _ _ _ p Hr HpR) as [[H1 H2]%frame_below _].
    rewrite phys_frame_spec by done. destruct (IH (with_mem m' c) f' _ Hr') as (l & -> & Hnd & Hin & Hlen). exists (p :: l).
    split_and!; [done|constructor; [|done]|set_solver|].
    + intros [_ Hn]%Hin%elem_of_difference. set_solver.
    + assert (R ∖ U = {[p]} ∪ (R ∖ ({[p]} ∪ U))) as ->.
      { apply set_eq. intros q. destruct (decide (q = p)); set_solver. }
      rewrite size_union, size_singleton by set_solver. cbn [length]. lia.
  - assert (R ∖ U = ∅) as Hem.
    { apply set_eq. intros q. split; [|set_solver]. intros Hq. exfalso. apply (Hno q). rewrite run_one. set_solver. }
    rewrite Hem in *. destruct (IH c f U Hr) as (l & -> & Hnd & Hin & Hlen). rewrite Hem, size_empty in Hlen. destruct l; [|cbn in Hlen; lia].
    exists []. split_and!; [cbn; by rewrite Nat.sub_0_r|constructor|set_solver|]. rewrite ?Hem, size_empty. cbn [length]. lia.
Qed.

Lemma usable_frame_of a areas regions p :
  usable_areas regions = a :: areas -> frame_in_areas a areas p -> usable_frame regions p.
Proof.
  intros Ha [[_ Hm]%frame_below Hx]. split; [done|]. intros x Hr. destruct (Hx x Hr) as [(b & Hb & Hin) _]. rewrite <-Ha in Hb.
  unfold usable_areas in Hb. apply list_elem_of_fmap in Hb as (r & -> & [Hu Hb]%list_elem_of_filter). exists r. split_and!; [done..| |];
    unfold in_area in Hin; cbn in Hin; lia.
Qed.

(** C17. The kernel's frame allocator set up from the boot loader's memory map,
    for every map with between one and 32 usable regions: initialisation
    succeeds, and then the calls of allocate_frame return pairwise distinct
    frames, each of them inside usable memory, until all of a fixed set of
    frames are handed out, and None from then on.  The set is all of usable
    memory but for one page, one page in 4096, and one page for each region. *)
Theorem frames_handed_out_once c regions :
  map_ok (mem c) regions ->
  exists c' f (R : gset Z), rmm_init_from_bootinfo regions (c, None) = (Ok tt, (c', Some f)) /\
    (forall p, p ∈ R -> usable_frame regions p) /\
    (let n := pages_in (usable_areas regions) in n - n / 4096 - zlen (usable_areas regions) <= Z.of_nat (stdpp.base.size R)) /\
    forall k, exists l, calls k (c', Some f) = (Ok <$> l) ++ replicate (k - length l) (Err tt) /\ NoDup l /\
      (forall p, p ∈ l -> p ∈ R) /\ Z.of_nat (length l) = Z.min (Z.of_nat k) (Z.of_nat (stdpp.base.size R)).
Proof.
  intros [Hord Hsome Hcnt Hok]. unfold rmm_init_from_bootinfo. rewrite collect_areas_ok by done. cbn [app length].
  rewrite Nat.sub_0_r, take_ge by done. destruct (usable_areas regions) as [|a areas] eqn:Ha; [done|].
  destruct (buddy_boot c a areas Hok) as (m' & b & R & Hrun & Hr & _ & HR & Hsz). cbn [fst snd]. rewrite Hrun.
  exists (with_mem m' c), (mkBuddy (V (area_base a))), R. split_and!; [done| |exact Hsz|].
  - intros p Hp. by eapply usable_frame_of, HR.
  - intros k. destruct (calls_ok k (with_mem m' c) _ _ _ Hr) as (l & -> & Hnd & Hin & Hlen). exists l.
    assert (R ∖ ∅ = R) as Hre by (apply set_eq; set_solver). rewrite Hre in *. done.
Qed.

End kernel.

(** A memory map with two usable regions, one reserved. *)
Definition example_map : list MemoryRegion := [mkRegion 0x1000 0x5000 true; mkRegion 0x5000 0x9000 false; mkRegion 0x9000 0xb000 true].

Lemma example_map_ok : map_ok (@zeroed X8664Arch 0x1000 0xa000) example_map.
Proof.
  assert (forall p n, 0x1000 <= p -> 0 < n -> p + n <= 0xb000 -> p mod 4096 = 0 -> n mod 4096 = 0 -> @area_ok X8664Arch (@zeroed X8664Arch 0x1000 0xa000) (mkArea p n)) as H.
  { intros p n H1 H2 H3 H4 H5. split; cbn [area_base area_size]; [split; [lia|exact H4]|split; [lia|exact H5]| |].
    - change (@PHYS_OFFSET X8664Arch) with 0xFFFF_8000_0000_0000. lia.
    - apply (mapped_sub _ _ _ _ _ (@mapped_zeroed X8664Arch 0x1000 0xa000 ltac:(lia))); unfold V; lia. }
  split.
  - repeat constructor; vm_compute; congruence.
  - vm_compute. congruence.
  - vm_compute. lia.
  - change (usable_areas example_map) with [mkArea 0x1000 0x4000; mkArea 0x9000 0x2000]. split; [|split; [|split]].
    + apply Forall_cons; split; [apply H; done || lia|]. apply Forall_cons; split; [apply H; done || lia|apply Forall_nil_2].
    + constructor; [|repeat constructor]. apply Forall_cons; split; [|done]. unfold area_apart. cbn [area_base area_size]. lia.
    + cbn [fmap list_fmap foldr area_size]. lia.
    + vm_compute. congruence.
Qed.

(** An address below 2^52 is rounded down to its frame, a larger one panics. *)
Definition example_phys_frame (a : Z) : res unit Z := if a <? 2 ^ 52 then Ok (a - a mod 4096) else Panic.

Lemma frames_handed_out_once_witness :
  exists c' f (R : gset Z), rmm_init_from_bootinfo example_map (mkMachine (@zeroed X8664Arch 0x1000 0xa000) (0, 0), None) = (Ok tt, (c', Some f)) /\
    2 <= Z.of_nat (stdpp.base.size R) /\
    forall k, exists l, calls example_phys_frame k (c', Some f) = (Ok <$> l) ++ replicate (k - length l) (Err tt) /\ NoDup l /\
      (forall p, p ∈ l -> p ∈ R) /\ Z.of_nat (length l) = Z.min (Z.of_nat k) (Z.of_nat (stdpp.base.size R)).
Proof.
  destruct (frames_handed_out_once example_phys_frame) with (c := mkMachine (@zeroed X8664Arch 0x1000 0xa000) (0, 0)) (regions := example_map)
    as (c' & f & R & Hi & _ & Hsz & Hk).
  - intros a Ha Hm. unfold example_phys_frame. destruct (Z.ltb_spec a (2 ^ 52)); [|lia]. rewrite Hm. f_equal. lia.
  - exact example_map_ok.
  - exists c', f, R. split_and!; [exact Hi| |exact Hk]. etrans; [|exact Hsz]. vm_compute. congruence.
Defined.

End FrameAlloc.
