(* ===== verification/RmmMapper.v ===== *)
(** * Page tables

    Models [third_party/rmm/src/page/table.rs] and [page/mapper.rs]: tables in
    memory, the walk from the root to the entry of a virtual address, and the
    mapper that adds, changes and removes mappings, taking the frames of its
    tables from a frame allocator and giving them back. *)

From S2P Require Import Prelude Bytes RmmArch RmmFrame.
Import RmmArch RmmFrame.

Module RmmMapper.

(** [t_base] is the first virtual address the table translates. *)
Record PageTable := mkTable { t_base : Z; t_phys : Z; t_level : Z }.

Section tables.
Context {A : Arch} {F : Type}.

(** An [Option] result kept as a value. *)
Definition opt {B} (m : RM F B) : RM F (option B) := fun s =>
  match m s with
  | (Ok b, s') => (Ok (Some b), s')
  | (Err _, s') => (Ok None, s')
  | (Panic, s') => (Panic, s')
  | (Fault, s') => (Fault, s')
  end.

(** [.ok()?] on the address of an entry *)
Definition ok {B} (r : res Z B) : RM F B :=
  match r with Ok b => mret b | Err _ => throw tt | Panic => lift Panic | Fault => lift Fault end.

Definition level_shift (t : PageTable) : Z := t_level t * PAGE_ENTRY_SHIFT + PAGE_SHIFT.

Definition entry_base (t : PageTable) (i : Z) : RM F Z :=
  if i <? PAGE_ENTRIES then add (t_base t) (wrap 64 (Z.shiftl i (level_shift t))) else throw tt.

Definition entry_virt (t : PageTable) (i : Z) : RM F Z :=
  if i <? PAGE_ENTRIES then v ← phys_to_virt (t_phys t); add v (i * PAGE_ENTRY_SIZE) else throw tt.

Definition entry (t : PageTable) (i : Z) : RM F Z := a ← entry_virt t i; read_usize a.

Definition set_entry (t : PageTable) (i e : Z) : RM F unit := a ← entry_virt t i; write_usize a e.

Definition index_of (t : PageTable) (virt : Z) : RM F Z :=
  let address := Z.land virt PAGE_ADDRESS_MASK in
  let level_mask := wrap 64 (wrap 64 (Z.shiftl PAGE_ENTRIES (level_shift t mod 64)) - 1) in
  if t_base t <=? address then
    last ← add (t_base t) level_mask;
    if address <=? last then mret (Z.land (Z.shiftr address (level_shift t)) PAGE_ENTRY_MASK) else throw tt
  else throw tt.

Definition next (t : PageTable) (i : Z) : RM F PageTable :=
  if t_level t =? 0 then throw tt
  else
    b ← entry_base t i;
    e ← entry t i;
    p ← ok (address e);
    mret (mkTable b p (t_level t - 1)).

(** ** The mapper *)

Record PageMapper := mkMapper { table_kind : TableKind; table_addr : Z }.

(** The table walk is cut off after [PAGE_LEVELS] tables. *)
Definition levels : nat := Z.to_nat PAGE_LEVELS.

Definition current (kind : TableKind) : RM F PageMapper :=
  a ← table kind;
  mret (mkMapper kind a).

Definition root (mp : PageMapper) : PageTable := mkTable 0 (table_addr mp) (PAGE_LEVELS - 1).

Definition is_current (mp : PageMapper) : RM F bool :=
  a ← table (table_kind mp);
  mret (t_phys (root mp) =? a).

Definition make_current (mp : PageMapper) : RM F unit := set_table (table_kind mp) (table_addr mp).

Fixpoint visit_from {B} (n : nat) (t : PageTable) (virt : Z) (f : PageTable -> Z -> RM F B) : RM F B :=
  match n with
  | O => lift Fault
  | S n =>
    i ← index_of t virt;
    if t_level t =? 0 then f t i else (t' ← next t i; visit_from n t' virt f)
  end.

Definition visit {B} (mp : PageMapper) (virt : Z) (f : PageTable -> Z -> RM F B) : RM F B :=
  visit_from levels (root mp) virt f.

Definition translate (mp : PageMapper) (virt : Z) : RM F (Z * Z) :=
  e ← visit mp virt entry;
  p ← ok (address e);
  mret (p, flags e).

Definition remap_with_full (mp : PageMapper) (virt : Z) (f : Z -> Z -> option (Z * Z)) : RM F (Z * Z) :=
  visit mp virt (fun p1 i =>
    old_entry ← entry p1 i;
    old_phys ← ok (address old_entry);
    match f old_phys (flags old_entry) with
    | None => throw tt
    | Some (new_phys, new_flags) =>
      _ ← ignore (set_entry p1 i (entry_new new_phys new_flags));
      mret (flags old_entry, old_phys)
    end).

Definition remap_with (mp : PageMapper) (virt : Z) (map_flags : Z -> Z) : RM F (Z * Z) :=
  remap_with_full mp virt (fun same_phys old_flags => Some (same_phys, map_flags old_flags)).

Definition remap (mp : PageMapper) (virt f : Z) : RM F unit := _ ← remap_with mp virt (fun _ => f); mret tt.

(** ** Operations that allocate *)

Context {FA : FrameAllocator F}.

Fixpoint link_tables (n : nat) (mp : PageMapper) (i : Z) : RM F unit :=
  match n with
  | O => mret tt
  | S n =>
    phys ← expect allocate_one;
    _ ← ignore (set_entry (root mp) i (entry_new phys ENTRY_FLAG_DEFAULT_TABLE));
    link_tables n mp (i + 1)
  end.

Fixpoint copy_entries (n : nat) (active mp : PageMapper) (i : Z) : RM F unit :=
  match n with
  | O => mret tt
  | S n =>
    e ← opt (entry (root active) i);
    _ ← (match e with Some e => ignore (set_entry (root mp) i e) | None => mret tt end);
    copy_entries n active mp (i + 1)
  end.

(** [PAGE_ENTRIES / 2 .. PAGE_ENTRIES] *)
Definition upper_half : nat := Z.to_nat (PAGE_ENTRIES - PAGE_ENTRIES / 2).

Definition create (kind : TableKind) : RM F PageMapper :=
  table_addr ← allocate_one;
  let mp := mkMapper kind table_addr in
  _ ← (if KERNEL_SEPARATE_TABLE then mret tt
       else match kind with
            | Kernel => link_tables upper_half mp (PAGE_ENTRIES / 2)
            | User => active ← current Kernel; copy_entries upper_half active mp (PAGE_ENTRIES / 2)
            end);
  mret mp.

Definition link_flags (virt : Z) : Z :=
  Z.lor ENTRY_FLAG_DEFAULT_TABLE (match kind_of_virt virt with User => ENTRY_FLAG_TABLE_USER | Kernel => 0 end).

(** The table below entry [i], a new one where there is none. *)
Definition next_or_new (t : PageTable) (i virt : Z) : RM F PageTable :=
  o ← opt (next t i);
  match o with
  | Some t' => mret t'
  | None =>
    next_phys ← allocate_one;
    _ ← ignore (set_entry t i (entry_new next_phys (link_flags virt)));
    next t i
  end.

Fixpoint map_from (n : nat) (t : PageTable) (virt e : Z) : RM F unit :=
  match n with
  | O => lift Fault
  | S n =>
    i ← index_of t virt;
    if t_level t =? 0 then ignore (set_entry t i e)
    else t' ← next_or_new t i virt; map_from n t' virt e
  end.

Definition map_phys (mp : PageMapper) (virt phys f : Z) : RM F unit :=
  map_from levels (root mp) virt (entry_new phys f).

Definition map_linearly (mp : PageMapper) (phys f : Z) : RM F Z :=
  virt ← phys_to_virt phys;
  _ ← map_phys mp virt phys f;
  mret virt.

(** [(0..PAGE_ENTRIES).any(...)] *)
Fixpoint is_still_populated (n : nat) (t : PageTable) (j : Z) : RM F bool :=
  match n with
  | O => mret false
  | S n => e ← expect (entry t j); if present e then mret true else is_still_populated n t (j + 1)
  end.

(** A subtable without entries goes back to the allocator. *)
Definition release_empty (t : PageTable) (i : Z) (subtable : PageTable) (unmap_parents : bool) : RM F unit :=
  if unmap_parents then
    populated ← is_still_populated (Z.to_nat PAGE_ENTRIES) subtable 0;
    if (populated : bool) then mret tt
    else _ ← free_one (t_phys subtable); ignore (set_entry t i (entry_new 0 0))
  else mret tt.

Fixpoint unmap_phys_inner (n : nat) (virt : Z) (t : PageTable) (unmap_parents : bool) : RM F (Z * Z) :=
  match n with
  | O => lift Fault
  | S n =>
    i ← index_of t virt;
    if t_level t =? 0 then
      entry_opt ← opt (entry t i);
      _ ← ignore (set_entry t i (entry_new 0 0));
      match entry_opt with
      | None => throw tt
      | Some e => p ← ok (address e); mret (p, flags e)
      end
    else
      subtable ← next t i;
      r ← unmap_phys_inner n virt subtable unmap_parents;
      _ ← release_empty t i subtable unmap_parents;
      mret r
  end.

Definition unmap_phys (mp : PageMapper) (virt : Z) : RM F (Z * Z) :=
  unmap_parents ← (if KERNEL_SEPARATE_TABLE then mret true
                   else i ← index_of (root mp) virt; mret (i <? PAGE_ENTRIES / 2));
  unmap_phys_inner levels virt (root mp) unmap_parents.

End tables.

End RmmMapper.
