(* ===== verification/RmmWalk.v ===== *)
(** * What page tables translate

    The tables of a root as a tree of frames in memory and the translation
    they stand for, and the proof that each operation of the mapper of
    [RmmMapper] changes that translation the way its name says, for every
    page-table format and over any frame allocator that keeps the promise of
    [RmmBuddy]. *)

From S2P Require Import Prelude Bytes RmmArch RmmFrame RmmBuddy RmmMapper.
Import RmmArch RmmFrame RmmBuddy RmmMapper.

Module RmmWalk.

Section walk.
Context {A : Arch} {AO : ArchOk A}.

Implicit Types (m : gmap Z Z) (c : Machine) (l : nat) (T U : gset Z).

(** ** Indices of a virtual address *)

Definition shift_at l : Z := Z.of_nat l * PAGE_ENTRY_SHIFT + PAGE_SHIFT.

Definition idx l (v : Z) : Z := (v / 2 ^ shift_at l) mod PAGE_ENTRIES.

Definition masked (v : Z) : Z := Z.land v PAGE_ADDRESS_MASK.

(** Where the table of level [l] that translates [v] starts. *)
Definition base_of l (v : Z) : Z := masked v / 2 ^ shift_at (S l) * 2 ^ shift_at (S l).

(** The same path from a table of level [l] down. *)
Definition agree l (v w : Z) : Prop := forall k, (k <= l)%nat -> idx k v = idx k w.

#[export] Instance agree_dec l v w : Decision (agree l v w).
Proof.
  destruct (decide (Forall (fun k => idx k v = idx k w) (seq 0 (S l)))) as [Hf|Hf]; [left|right].
  - intros k Hk. rewrite Forall_forall in Hf. apply Hf, elem_of_seq. lia.
  - intros Ha. apply Hf, Forall_forall. intros k Hk%elem_of_seq. apply Ha. lia.
Defined.

Lemma agree_S l v w : agree (S l) v w <-> idx (S l) v = idx (S l) w /\ agree l v w.
Proof.
  split.
  - intros Ha. split; [by apply Ha|]. intros k Hk. apply Ha. lia.
  - intros [H1 H2] k Hk. destruct (decide (k = S l)) as [->|]; [done|]. apply H2. lia.
Qed.

Lemma if_agree_S {B} l v w (x y : B) :
  (if decide (agree (S l) v w) then x else y) =
  if decide (idx (S l) w = idx (S l) v) then (if decide (agree l v w) then x else y) else y.
Proof.
  destruct (decide (agree (S l) v w)) as [Ha|Ha]; rewrite agree_S in Ha.
  - destruct Ha as [H1 H2]. by rewrite decide_True, decide_True.
  - destruct (decide (idx (S l) w = idx (S l) v)); [|done]. rewrite decide_False; [done|]. intros H2. by apply Ha.
Qed.

Lemma agree_0 v w : agree 0 v w <-> idx 0 v = idx 0 w.
Proof. split; [intros Ha; by apply Ha|]. intros H k Hk. by replace k with 0%nat by lia. Qed.

Lemma entries_pow : PAGE_ENTRIES = 2 ^ PAGE_ENTRY_SHIFT.
Proof. unfold PAGE_ENTRIES. by rewrite Z.shiftl_1_l. Qed.

Lemma entries_pos : 8 <= PAGE_ENTRIES.
Proof. rewrite entries_pow. pose proof (entry_shift_pos (A:=A)). change 8 with (2 ^ 3). apply Z.pow_le_mono_r; lia. Qed.

Lemma shift_bounds l : (S l <= levels)%nat -> 6 <= shift_at l /\ shift_at (S l) = shift_at l + PAGE_ENTRY_SHIFT /\ shift_at (S l) <= PAGE_ADDRESS_SHIFT.
Proof.
  intros Hl. unfold levels in Hl. pose proof (levels_pos (A:=A)). pose proof page_shift_pos. pose proof (entry_shift_pos (A:=A)).
  unfold shift_at, PAGE_ADDRESS_SHIFT. split_and!; [lia|lia|]. assert (Z.of_nat (S l) <= PAGE_LEVELS) by lia. nia.
Qed.

Lemma idx_range l v : 0 <= idx l v < PAGE_ENTRIES.
Proof. apply Z.mod_pos_bound. pose proof entries_pos. lia. Qed.

Lemma testbit_address_mask' i : 0 <= i -> Z.testbit PAGE_ADDRESS_MASK i = (PAGE_SHIFT <=? i) && (i <? PAGE_ADDRESS_SHIFT).
Proof.
  intros Hi. unfold PAGE_ADDRESS_MASK, PAGE_ADDRESS_SIZE. rewrite page_size_eq, Z.shiftl_1_l. pose proof page_shift_pos.
  pose proof (levels_pos (A:=A)). pose proof (entry_shift_pos (A:=A)).
  assert (Hle : PAGE_SHIFT <= PAGE_ADDRESS_SHIFT) by (unfold PAGE_ADDRESS_SHIFT; nia).
  replace (2 ^ PAGE_ADDRESS_SHIFT - 2 ^ PAGE_SHIFT) with (Z.shiftl (Z.ones (PAGE_ADDRESS_SHIFT - PAGE_SHIFT)) PAGE_SHIFT).
  - rewrite Z.shiftl_spec by done. destruct (Z.leb_spec PAGE_SHIFT i); cbn [andb]; [|apply Z.testbit_neg_r; lia].
    rewrite Z.testbit_ones by lia. destruct (Z.leb_spec 0 (i - PAGE_SHIFT)); [|lia]. cbn [andb].
    destruct (Z.ltb_spec (i - PAGE_SHIFT) (PAGE_ADDRESS_SHIFT - PAGE_SHIFT)), (Z.ltb_spec i PAGE_ADDRESS_SHIFT); lia.
  - rewrite Z.shiftl_mul_pow2, Z.ones_equiv by lia. assert (2 ^ PAGE_ADDRESS_SHIFT = 2 ^ (PAGE_ADDRESS_SHIFT - PAGE_SHIFT) * 2 ^ PAGE_SHIFT).
    { rewrite <-Z.pow_add_r by lia. f_equal. lia. } lia.
Qed.

Lemma testbit_idx l v i :
  (S l <= levels)%nat -> 0 <= i -> Z.testbit (idx l v) i = (i <? PAGE_ENTRY_SHIFT) && Z.testbit v (i + shift_at l).
Proof.
  intros Hl Hi. destruct (shift_bounds l Hl) as (? & _). unfold idx. rewrite entries_pow. destruct (Z.ltb_spec i PAGE_ENTRY_SHIFT); cbn [andb].
  - rewrite Z.mod_pow2_bits_low, Z.div_pow2_bits by lia. done.
  - rewrite Z.mod_pow2_bits_high by (pose proof (entry_shift_pos (A:=A)); lia). done.
Qed.

Lemma idx_masked l v : (S l <= levels)%nat -> idx l (masked v) = idx l v.
Proof.
  intros Hl. apply Z.bits_inj'. intros i Hi. rewrite !testbit_idx by done. destruct (shift_bounds l Hl) as (? & ? & ?).
  destruct (Z.ltb_spec i PAGE_ENTRY_SHIFT); [|done]. cbn [andb]. unfold masked. rewrite Z.land_spec, testbit_address_mask' by lia.
  unfold shift_at in *. destruct (Z.leb_spec PAGE_SHIFT (i + (Z.of_nat l * PAGE_ENTRY_SHIFT + PAGE_SHIFT))); [|pose proof (entry_shift_pos (A:=A)); nia].
  destruct (Z.ltb_spec (i + (Z.of_nat l * PAGE_ENTRY_SHIFT + PAGE_SHIFT)) PAGE_ADDRESS_SHIFT); [|lia]. by rewrite andb_true_r.
Qed.

(** The whole path determines the page. *)
Lemma agree_page v w : agree (levels - 1) v w <-> masked v = masked w.
Proof.
  pose proof (levels_pos (A:=A)). pose proof (entry_shift_pos (A:=A)). assert (Hlv : (0 < levels)%nat) by (unfold levels; lia). split.
  - intros Ha. apply Z.bits_inj'. intros i Hi. unfold masked. rewrite !Z.land_spec, testbit_address_mask' by done.
    destruct (Z.leb_spec PAGE_SHIFT i) as [H1|]; [|by rewrite !andb_false_r]. destruct (Z.ltb_spec i PAGE_ADDRESS_SHIFT) as [H2|]; [|by rewrite !andb_false_r].
    set (k := (i - PAGE_SHIFT) / PAGE_ENTRY_SHIFT). assert (0 < PAGE_ENTRY_SHIFT /\ PAGE_ENTRY_SHIFT <> 0) as [Hes Hne] by lia.
    assert (Hk : 0 <= k < PAGE_LEVELS).
    { split; [apply Z.div_pos; lia|]. apply Z.div_lt_upper_bound; [lia|]. unfold PAGE_ADDRESS_SHIFT in H2. lia. }
    pose proof (Z.div_mod (i - PAGE_SHIFT) _ Hne) as Hdm. pose proof (Z.mod_pos_bound (i - PAGE_SHIFT) _ Hes) as Hmb.
    set (r := (i - PAGE_SHIFT) mod PAGE_ENTRY_SHIFT) in *. fold k in Hdm.
    assert (Hl : (S (Z.to_nat k) <= levels)%nat) by (unfold levels; lia).
    assert (Heq : idx (Z.to_nat k) v = idx (Z.to_nat k) w) by (apply Ha; lia). apply (f_equal (fun x => Z.testbit x r)) in Heq.
    rewrite !testbit_idx in Heq by lia. destruct (Z.ltb_spec r PAGE_ENTRY_SHIFT); [|lia]. cbn [andb] in Heq.
    unfold shift_at in Heq. rewrite Z2Nat.id in Heq by lia. replace (r + (k * PAGE_ENTRY_SHIFT + PAGE_SHIFT)) with i in Heq by lia. by rewrite Heq.
  - intros Hm k Hk. rewrite <-(idx_masked k v), <-(idx_masked k w) by lia. by rewrite Hm.
Qed.

Lemma masked_range v : 0 <= masked v < 2 ^ PAGE_ADDRESS_SHIFT.
Proof.
  assert (0 <= masked v).
  { apply Z.land_nonneg. right. unfold PAGE_ADDRESS_MASK, PAGE_ADDRESS_SIZE. rewrite page_size_eq, Z.shiftl_1_l.
    assert (2 ^ PAGE_SHIFT <= 2 ^ PAGE_ADDRESS_SHIFT); [|lia]. apply Z.pow_le_mono_r; [lia|]. unfold PAGE_ADDRESS_SHIFT.
    pose proof (levels_pos (A:=A)). pose proof (entry_shift_pos (A:=A)). nia. }
  assert (Hp : 0 < PAGE_ADDRESS_SHIFT) by (unfold PAGE_ADDRESS_SHIFT; pose proof (levels_pos (A:=A)); pose proof (entry_shift_pos (A:=A)); pose proof page_shift_pos; nia).
  apply fits_testbit; [lia| |lia]. intros i Hi. unfold masked. rewrite Z.land_spec, testbit_address_mask' by lia.
  destruct (Z.ltb_spec i PAGE_ADDRESS_SHIFT); [lia|]. by rewrite !andb_false_r.
Qed.

(** ** Walking *)

Lemma base_range l v : (S l <= levels)%nat -> 0 <= base_of l v <= masked v /\ base_of l v + 2 ^ shift_at (S l) <= 2 ^ PAGE_ADDRESS_SHIFT /\
  masked v < base_of l v + 2 ^ shift_at (S l).
Proof.
  intros Hl. destruct (shift_bounds l Hl) as (? & ? & ?). pose proof (entry_shift_pos (A:=A)). pose proof (masked_range v) as [M0 M1].
  unfold base_of. assert (Hp : 0 < 2 ^ shift_at (S l)) by (apply Z.pow_pos_nonneg; lia).
  assert (Hs : 2 ^ PAGE_ADDRESS_SHIFT = 2 ^ (PAGE_ADDRESS_SHIFT - shift_at (S l)) * 2 ^ shift_at (S l)) by (rewrite <-Z.pow_add_r by lia; f_equal; lia).
  assert (Hn : 2 ^ shift_at (S l) <> 0) by lia. pose proof (Z.div_mod (masked v) _ Hn). pose proof (Z.mod_pos_bound (masked v) _ Hp).
  assert (Hq : 0 <= masked v / 2 ^ shift_at (S l)) by (apply Z.div_pos; lia).
  assert (Hlt : masked v / 2 ^ shift_at (S l) < 2 ^ (PAGE_ADDRESS_SHIFT - shift_at (S l))) by (apply Z.div_lt_upper_bound; lia).
  set (q := masked v / 2 ^ shift_at (S l)) in *. set (d := 2 ^ shift_at (S l)) in *. split_and!; [nia|lia| |lia].
  rewrite Hs. nia.
Qed.

Lemma base_top v : base_of (levels - 1) v = 0.
Proof.
  pose proof (levels_pos (A:=A)). unfold base_of. replace (S (levels - 1)) with levels by (unfold levels; lia).
  replace (shift_at levels) with PAGE_ADDRESS_SHIFT by (unfold shift_at, levels, PAGE_ADDRESS_SHIFT; lia).
  by rewrite Z.div_small by apply masked_range.
Qed.

Lemma base_step l v : (S (S l) <= levels)%nat -> base_of (S l) v + idx (S l) v * 2 ^ shift_at (S l) = base_of l v.
Proof.
  intros Hl. destruct (shift_bounds (S l) Hl) as (? & Hs & ?). pose proof (entry_shift_pos (A:=A)). rewrite <-idx_masked by done.
  unfold base_of, idx. rewrite Hs, entries_pow, Z.pow_add_r, <-Z.div_div by (try apply Z.pow_pos_nonneg; try apply Z.pow_nonzero; lia).
  set (q := masked v / 2 ^ shift_at (S l)). assert (Hn : 2 ^ PAGE_ENTRY_SHIFT <> 0) by (apply Z.pow_nonzero; lia).
  pose proof (Z.div_mod q _ Hn). nia.
Qed.

Section run.
Context {F : Type}.

Lemma level_mask_eq l : (S l <= levels)%nat ->
  wrap 64 (wrap 64 (Z.shiftl PAGE_ENTRIES ((Z.of_nat l * PAGE_ENTRY_SHIFT + PAGE_SHIFT) mod 64)) - 1) = 2 ^ shift_at (S l) - 1.
Proof.
  intros Hl. destruct (shift_bounds l Hl) as (? & Hs & ?). pose proof (address_shift (A:=A)). pose proof (entry_shift_pos (A:=A)).
  fold (shift_at l). rewrite (Z.mod_small (shift_at l)) by lia. rewrite entries_pow, Z.shiftl_mul_pow2, <-Z.pow_add_r by lia.
  rewrite Hs, (Z.add_comm (shift_at l)). assert (2 ^ (PAGE_ENTRY_SHIFT + shift_at l) < 2 ^ 64) by (apply Z.pow_lt_mono_r; lia).
  assert (0 < 2 ^ (PAGE_ENTRY_SHIFT + shift_at l)) by (apply Z.pow_pos_nonneg; lia).
  unfold wrap. rewrite (Z.mod_small (2 ^ (PAGE_ENTRY_SHIFT + shift_at l)) (2 ^ 64)) by lia. rewrite Z.mod_small; lia.
Qed.

Lemma index_of_ok l v p (s : Machine * F) :
  (S l <= levels)%nat -> index_of (mkTable (base_of l v) p (Z.of_nat l)) v s = (Ok (idx l v), s).
Proof.
  intros Hl. destruct (shift_bounds l Hl) as (? & Hs & ?). pose proof (address_shift (A:=A)). destruct (base_range l v Hl) as ([B1 B2] & B3 & B4).
  unfold index_of, level_shift. cbn [t_base t_level]. rewrite level_mask_eq by done. fold (masked v). fold (shift_at l).
  destruct (Z.leb_spec (base_of l v) (masked v)); [|lia]. assert (2 ^ PAGE_ADDRESS_SHIFT < 2 ^ 64) by (apply Z.pow_lt_mono_r; lia).
  unfold mbind, M_bind, add, lift. rewrite uadd_ok by lia. destruct (Z.leb_spec (masked v) (base_of l v + (2 ^ shift_at (S l) - 1))); [|lia].
  unfold mret, M_ret. f_equal. f_equal. rewrite <-idx_masked by done. unfold idx, PAGE_ENTRY_MASK. rewrite Z.shiftr_div_pow2 by lia.
  rewrite entries_pow. replace (2 ^ PAGE_ENTRY_SHIFT - 1) with (Z.ones PAGE_ENTRY_SHIFT) by (rewrite Z.ones_equiv; lia).
  apply Z.land_ones. pose proof (entry_shift_pos (A:=A)). lia.
Qed.

Lemma entry_base_ok l v p (s : Machine * F) :
  (S (S l) <= levels)%nat ->
  entry_base (mkTable (base_of (S l) v) p (Z.of_nat (S l))) (idx (S l) v) s = (Ok (base_of l v), s).
Proof.
  intros Hl. unfold entry_base, level_shift. cbn [t_base t_level]. pose proof (idx_range (S l) v). destruct (Z.ltb_spec (idx (S l) v) PAGE_ENTRIES); [|lia].
  fold (shift_at (S l)). destruct (shift_bounds (S l) Hl) as (? & Hs & ?). pose proof (address_shift (A:=A)). pose proof (base_step l v Hl) as Hb.
  destruct (base_range l v ltac:(lia)) as ([? ?] & ? & ?). destruct (base_range (S l) v Hl) as ([? ?] & _ & _).
  assert (2 ^ PAGE_ADDRESS_SHIFT < 2 ^ 64) by (apply Z.pow_lt_mono_r; lia). assert (0 < 2 ^ shift_at (S l)) by (apply Z.pow_pos_nonneg; lia).
  assert (0 <= idx (S l) v * 2 ^ shift_at (S l)) by nia.
  unfold add, lift. rewrite Z.shiftl_mul_pow2 by lia. unfold wrap. rewrite Z.mod_small by lia. rewrite uadd_ok by lia. by rewrite Hb.
Qed.

End run.

(** ** Tables in memory *)

Definition word_at m (a : Z) : Z := match load (E:=unit) m a 8 with Ok bs => le_word bs | _ => 0 end.

(** Entry [i] of the table in frame [p]. *)
Definition ent m (p i : Z) : Z := word_at m (V p + i * 8).

Definition leaf (e : Z) : option (Z * Z) := if present e then Some (entry_addr e, flags e) else None.

(** The translation of [v] by the table of level [l] in frame [p]. *)
Fixpoint xlate m l (p v : Z) : option (Z * Z) :=
  let e := ent m p (idx l v) in
  match l with
  | O => leaf e
  | S l' => if present e then xlate m l' (entry_addr e) v else None
  end.

(** The frames [T] hold the tables below [p], each in one place. *)
Fixpoint tree m l (p : Z) T : Prop :=
  match l with
  | O => T = {[p]}
  | S l' => exists Ts : Z -> gset Z,
      (forall i, 0 <= i < PAGE_ENTRIES -> if present (ent m p i) then tree m l' (entry_addr (ent m p i)) (Ts i) else Ts i = ∅) /\
      (forall i j, 0 <= i < PAGE_ENTRIES -> 0 <= j < PAGE_ENTRIES -> i <> j -> Ts i ## Ts j) /\
      (forall i, 0 <= i < PAGE_ENTRIES -> p ∉ Ts i) /\
      (forall x, x ∈ T <-> x = p \/ exists i, 0 <= i < PAGE_ENTRIES /\ x ∈ Ts i)
  end.

Definition same_frame m m' (q : Z) : Prop := forall a, in_frame a q -> m' !! a = m !! a.

Lemma ent_slot p i : 0 <= i < PAGE_ENTRIES -> forall a, V p + i * 8 <= a < V p + i * 8 + 8 -> in_frame a p.
Proof. intros Hi a Ha. unfold in_frame. rewrite entries_size. lia. Qed.

Lemma ent_ext m m' p i : 0 <= i < PAGE_ENTRIES -> same_frame m m' p -> ent m' p i = ent m p i.
Proof.
  intros Hi Hs. unfold ent, word_at. rewrite (load_ext (E:=unit) m m'); [done|]. intros a Ha. apply Hs. by eapply ent_slot.
Qed.

Lemma tree_root m l p T : tree m l p T -> p ∈ T.
Proof. destruct l; cbn [tree]; [set_solver|]. intros (Ts & _ & _ & _ & Hx). apply Hx. by left. Qed.

Lemma tree_frame m m' l p T : tree m l p T -> (forall q, q ∈ T -> same_frame m m' q) -> tree m' l p T /\ forall v, xlate m' l p v = xlate m l p v.
Proof.
  revert p T. induction l as [|l IH]; intros p T Ht Hs; cbn [tree] in *.
  { split; [done|]. intros v. cbn [xlate]. rewrite (ent_ext m); [done|apply idx_range|]. apply Hs. set_solver. }
  destruct Ht as (Ts & Hc & Hd & Hp & Hx).
  assert (He : forall i, 0 <= i < PAGE_ENTRIES -> ent m' p i = ent m p i).
  { intros i Hi. apply ent_ext; [done|]. apply Hs, Hx. by left. }
  assert (Hsub : forall i, 0 <= i < PAGE_ENTRIES -> present (ent m p i) = true ->
    tree m' l (entry_addr (ent m p i)) (Ts i) /\ forall v, xlate m' l (entry_addr (ent m p i)) v = xlate m l (entry_addr (ent m p i)) v).
  { intros i Hi Hpr. specialize (Hc i Hi). rewrite Hpr in Hc. apply IH; [done|]. intros q Hq. apply Hs, Hx. right. eauto. }
  split.
  - exists Ts. split_and!; [|done..]. intros i Hi. rewrite He by done. specialize (Hc i Hi). specialize (Hsub i Hi).
    destruct (present (ent m p i)); [by apply Hsub|done].
  - intros v. cbn [xlate]. rewrite He by apply idx_range. destruct (present (ent m p (idx (S l) v))) eqn:Hpr; [|done].
    apply Hsub; [apply idx_range|done].
Qed.

(** A table and the subtable of one of its entries: what changes there leaves
    the rest as it is. *)
Lemma tree_split m l p T i :
  tree m (S l) p T -> 0 <= i < PAGE_ENTRIES ->
  exists Ti, (if present (ent m p i) then tree m l (entry_addr (ent m p i)) Ti else Ti = ∅) /\ Ti ⊆ T /\ p ∈ T /\ p ∉ Ti /\
  forall m' Ti',
    (forall q, q ∈ T -> q ∉ Ti -> q <> p -> same_frame m m' q) ->
    (forall j, 0 <= j < PAGE_ENTRIES -> j <> i -> ent m' p j = ent m p j) ->
    (if present (ent m' p i) then tree m' l (entry_addr (ent m' p i)) Ti' else Ti' = ∅) ->
    Ti' ## T ∖ Ti ->
    tree m' (S l) p (T ∖ Ti ∪ Ti') /\ forall v, idx (S l) v <> i -> xlate m' (S l) p v = xlate m (S l) p v.
Proof.
  intros (Ts & Hc & Hd & Hp & Hx) Hi. exists (Ts i). split; [by apply Hc|]. split; [intros x ?; apply Hx; eauto|]. split; [apply Hx; by left|].
  split; [by apply Hp|]. intros m' Ti' Hs He Ht' Hdis.
  assert (Hsub : forall j, 0 <= j < PAGE_ENTRIES -> j <> i -> present (ent m p j) = true ->
    tree m' l (entry_addr (ent m p j)) (Ts j) /\ forall v, xlate m' l (entry_addr (ent m p j)) v = xlate m l (entry_addr (ent m p j)) v).
  { intros j Hj Hne Hpr. specialize (Hc j Hj). rewrite Hpr in Hc. apply tree_frame; [done|]. intros q Hq. apply Hs.
    - apply Hx. eauto.
    - intros Hqi. apply (Hd i j Hi Hj ltac:(done) q Hqi Hq).
    - intros ->. by apply (Hp j Hj). }
  split.
  - exists (fun j => if decide (j = i) then Ti' else Ts j). split_and!.
    + intros j Hj. destruct (decide (j = i)) as [->|Hne]; [done|]. rewrite He by done. specialize (Hc j Hj). specialize (Hsub j Hj Hne).
      destruct (present (ent m p j)); [by apply Hsub|done].
    + assert (Hdj : forall j, 0 <= j < PAGE_ENTRIES -> j <> i -> Ti' ## Ts j).
      { intros j Hj Hne x Hx1 Hx2. apply (Hdis x Hx1). apply elem_of_difference. split; [apply Hx; eauto|].
        intros Hx3. by apply (Hd i j Hi Hj ltac:(done) x). }
      intros j k Hj Hk Hne. destruct (decide (j = i)) as [->|], (decide (k = i)) as [->|]; [done|by apply Hdj|symmetry; by apply Hdj|by apply Hd].
    + intros j Hj. destruct (decide (j = i)) as [->|]; [|by apply Hp]. intros Hin. apply (Hdis p Hin). apply elem_of_difference.
      split; [apply Hx; by left|by apply Hp].
    + intros x. rewrite elem_of_union, elem_of_difference, Hx. split.
      * intros [[[->|(j & Hj & Hxj)] Hn]|Hin]; [by left| |right; exists i; by rewrite decide_True]. right. exists j.
        rewrite decide_False; [done|]. by intros ->.
      * intros [->|(j & Hj & Hxj)]; [left; split; [by left|by apply Hp]|]. destruct (decide (j = i)) as [->|Hne]; [by right|].
        left. split; [right; eauto|]. intros Hxi. by apply (Hd i j Hi Hj ltac:(done) x).
  - intros v Hv. cbn [xlate]. rewrite He by (done || apply idx_range). destruct (present (ent m p (idx (S l) v))) eqn:Hpr; [|done].
    apply Hsub; [apply idx_range|done..].
Qed.

(** An empty table. *)
Lemma ent_zero m p i : page_zero m p -> 0 <= i < PAGE_ENTRIES -> ent m p i = 0.
Proof.
  intros Hz Hi. unfold ent, word_at. replace (load m (V p + i * 8) 8) with (Ok (E:=unit) (replicate 8 0)); [done|].
  symmetry. apply load_Ok_iff; [lia|]. split; [done|]. intros k Hk. rewrite lookup_replicate_2 by lia. symmetry. apply Hz, (ent_slot p i Hi). lia.
Qed.

Lemma tree_empty m l p : (forall i, 0 <= i < PAGE_ENTRIES -> present (ent m p i) = false) -> tree m l p {[p]} /\ forall v, xlate m l p v = None.
Proof.
  intros He. destruct l as [|l]; cbn [tree xlate].
  - split; [done|]. intros v. unfold leaf. by rewrite He by apply idx_range.
  - split; [|intros v; by rewrite He by apply idx_range]. exists (fun _ => ∅). split_and!; [|set_solver..].
    intros i Hi. by rewrite He by done.
Qed.

End walk.

End RmmWalk.
