(* ===== verification/RmmMap.v ===== *)
(** * The mapper's operations

    Each operation of [RmmMapper] against the translation of [RmmWalk]. *)

From S2P Require Import Prelude Bytes RmmArch RmmFrame RmmBuddy RmmInit RmmMapper RmmWalk.
Import RmmArch RmmFrame RmmBuddy RmmInit RmmMapper RmmWalk.

Module RmmMap.

Section ops.
Context {A : Arch} {AO : ArchOk A} {F : Type}.

Implicit Types (m : gmap Z Z) (c : Machine) (f : F) (l : nat) (T U R : gset Z).

(** ** Entries in memory *)

Lemma frames_apart p q a : frame_ok p -> frame_ok q -> p <> q -> in_frame a p -> ~ in_frame a q.
Proof.
  intros (_ & Hp & _) (_ & Hq & _) Hne. unfold in_frame, V. pose proof page_size_pos.
  apply Z.mod_divide in Hp as [x ->]; [|lia]. apply Z.mod_divide in Hq as [y ->]; [|lia]. intros H1 H2.
  destruct (Z.lt_trichotomy x y) as [|[->|]]; [nia|done|nia].
Qed.

Definition set_m m (p i e : Z) : gmap Z Z := store_bytes m (V p + i * 8) (le_bytes 8 e).

Lemma set_m_dom m p i e : mapped m (V p) PAGE_SIZE -> 0 <= i < PAGE_ENTRIES -> same_dom m (set_m m p i e).
Proof.
  intros Hm Hi. apply same_dom_store. rewrite zlen_le_bytes. apply (mapped_sub _ _ _ _ _ Hm); rewrite ?entries_size; lia.
Qed.

Lemma set_m_frame m p i e q : frame_ok p -> frame_ok q -> q <> p -> 0 <= i < PAGE_ENTRIES -> same_frame m (set_m m p i e) q.
Proof.
  intros Hp Hq Hne Hi a Ha. unfold set_m. rewrite store_bytes_lookup, zlen_le_bytes, decide_False; [done|]. intros Hr.
  apply (frames_apart q p a); [done..|]. by apply (ent_slot p i Hi).
Qed.

Lemma ent_set m p i e j : fits 64 e -> ent (set_m m p i e) p j = if decide (j = i) then e else ent m p j.
Proof.
  intros He. unfold ent, word_at, set_m. destruct (decide (j = i)) as [->|Hne].
  - pose proof (load_store_same (E:=unit) m (V p + i * 8) (le_bytes 8 e)) as Hl. rewrite zlen_le_bytes in Hl.
    change (Z.of_nat 8) with 8 in Hl. by rewrite Hl, le_word_round.
  - rewrite (load_ext (E:=unit) m (store_bytes _ _ _)); [done|]. intros a Ha. rewrite store_bytes_lookup, zlen_le_bytes, decide_False; [done|]. lia.
Qed.

Lemma entry_virt_ok b p lv i (s : Machine * F) :
  frame_ok p -> 0 <= i < PAGE_ENTRIES -> entry_virt (mkTable b p lv) i s = (Ok (V p + i * 8), s) /\ (V p + i * 8) mod 8 = 0.
Proof.
  intros (P1 & P2 & P3) Hi. unfold entry_virt. destruct (Z.ltb_spec i PAGE_ENTRIES); [|lia]. unfold mbind, M_bind, phys_to_virt, add, lift.
  pose proof entries_size as Hs. pose proof (offset_range (A:=A)). cbn [t_phys]. rewrite uadd_ok by lia. rewrite entry_size_8, uadd_ok by lia. split; [done|].
  pose proof (offset_aligned (A:=A)) as Ho. pose proof entries_pos. unfold V. apply Z.mod_divide in P2 as [x ->]; [|lia].
  apply Z.mod_divide in Ho as [y Ho]; [|lia]. rewrite Ho, Hs. replace (_ + i * 8) with ((x * PAGE_ENTRIES + y * PAGE_ENTRIES + i) * 8) by lia.
  by rewrite Z.mod_mul.
Qed.

Lemma entry_ok b p lv i c f :
  frame_ok p -> mapped (mem c) (V p) PAGE_SIZE -> 0 <= i < PAGE_ENTRIES -> entry (mkTable b p lv) i (c, f) = (Ok (ent (mem c) p i), (c, f)).
Proof.
  intros Hp Hm Hi. unfold entry, mbind, M_bind. destruct (entry_virt_ok b p lv i (c, f) Hp Hi) as [-> H8]. unfold read_usize.
  rewrite H8. change (0 =? 0) with true. cbn iota. unfold mbind, M_bind.
  destruct (load_mapped (E:=unit) (mem c) (V p + i * 8) 8) as [bs Hl].
  { apply (mapped_sub _ _ _ _ _ Hm); rewrite ?entries_size; lia. }
  rewrite (read_ok _ _ _ _ _ Hl). unfold ent, word_at. by rewrite Hl.
Qed.

Lemma table_set_ok b p lv i e c f :
  frame_ok p -> mapped (mem c) (V p) PAGE_SIZE -> 0 <= i < PAGE_ENTRIES ->
  set_entry (mkTable b p lv) i e (c, f) = (Ok tt, (with_mem (set_m (mem c) p i e) c, f)).
Proof.
  intros Hp Hm Hi. unfold set_entry, mbind, M_bind. destruct (entry_virt_ok b p lv i (c, f) Hp Hi) as [-> H8]. unfold write_usize.
  rewrite H8. change (0 =? 0) with true. cbn iota. apply write_ok. rewrite zlen_le_bytes. apply (mapped_sub _ _ _ _ _ Hm); rewrite ?entries_size; lia.
Qed.

Lemma next_ok l v p c f :
  (S (S l) <= levels)%nat -> frame_ok p -> mapped (mem c) (V p) PAGE_SIZE ->
  let e := ent (mem c) p (idx (S l) v) in
  next (mkTable (base_of (S l) v) p (Z.of_nat (S l))) (idx (S l) v) (c, f) =
    (if present e then Ok (mkTable (base_of l v) (entry_addr e) (Z.of_nat l)) else Err tt, (c, f)).
Proof.
  intros Hl Hp Hm e. unfold next. cbn [t_level]. destruct (Z.eqb_spec (Z.of_nat (S l)) 0); [lia|]. unfold mbind, M_bind.
  rewrite entry_base_ok, entry_ok by (done || apply idx_range). fold e. unfold ok, address. destruct (present e); [|done].
  unfold mret, M_ret. by replace (Z.of_nat (S l) - 1) with (Z.of_nat l) by lia.
Qed.

(** ** Reading and changing one entry *)

Lemma visit_ok {B} l p T v c f (k : PageTable -> Z -> RM F B) :
  (S l <= levels)%nat -> tree (mem c) l p T -> (forall q, q ∈ T -> frame_ok q /\ mapped (mem c) (V q) PAGE_SIZE) ->
  exists r, visit_from (S l) (mkTable (base_of l v) p (Z.of_nat l)) v k (c, f) = r /\
    (r = (Err tt, (c, f)) /\ xlate (mem c) l p v = None \/
     exists b q, q ∈ T /\ r = k (mkTable b q 0) (idx 0 v) (c, f) /\ xlate (mem c) l p v = leaf (ent (mem c) q (idx 0 v)) /\
       forall e, fits 64 e -> tree (set_m (mem c) q (idx 0 v) e) l p T /\
         forall w, xlate (set_m (mem c) q (idx 0 v) e) l p w = if decide (agree l v w) then leaf e else xlate (mem c) l p w).
Proof.
  revert p T. induction l as [|l IH]; intros p T Hl Ht Hf; eexists; (split; [done|]); cbn [visit_from]; unfold mbind, M_bind;
    rewrite index_of_ok by done; cbn [t_level].
  - change (Z.of_nat 0 =? 0) with true. cbn iota. right. exists (base_of 0 v), p. cbn [tree] in Ht. split_and!; [set_solver|done|done|].
    intros e He. split; [done|]. intros w. cbn [xlate]. rewrite ent_set by done.
    destruct (decide (agree 0 v w)) as [Ha|Ha]; rewrite agree_0 in Ha; [by rewrite decide_True|by rewrite decide_False by congruence].
  - destruct (Z.eqb_spec (Z.of_nat (S l)) 0); [lia|]. destruct (tree_split _ _ _ _ (idx (S l) v) Ht (idx_range _ _)) as (Ti & Hti & Hsub & HpT & HpTi & Hupd).
    destruct (Hf p HpT) as [Hp Hm]. rewrite next_ok by done. cbn [xlate]. destruct (present (ent (mem c) p (idx (S l) v))) eqn:Hpr; [|by left].
    destruct (IH (entry_addr (ent (mem c) p (idx (S l) v))) Ti ltac:(lia) Hti) as (r & Hr & Hcase); [intros x Hx; by apply Hf, Hsub|].
    destruct Hcase as [[-> Hx]|(b & q & Hq & -> & Hx & Hset)]; [by left|]. right. exists b, q. split_and!; [by apply Hsub|done|done|].
    intros e He. destruct (Hset e He) as [Ht' Hx']. assert (Hqp : q <> p) by (by intros ->).
    destruct (Hf q (Hsub _ Hq)) as [Hqf Hqm].
    assert (He2 : forall j, 0 <= j < PAGE_ENTRIES -> ent (set_m (mem c) q (idx 0 v) e) p j = ent (mem c) p j).
    { intros j Hj. apply ent_ext; [done|]. apply set_m_frame; [done..|apply idx_range]. }
    destruct (Hupd (set_m (mem c) q (idx 0 v) e) Ti) as [Ht2 Hx2].
    { intros x Hx1 Hx2 Hx3. apply set_m_frame; [done|by apply Hf|by intros ->|apply idx_range]. }
    { intros j Hj _. by apply He2. }
    { by rewrite He2, Hpr by apply idx_range. }
    { clear. set_solver. }
    replace (T ∖ Ti ∪ Ti) with T in Ht2 by (clear -Hsub; apply set_eq; intros x; destruct (decide (x ∈ Ti)); set_solver). split; [done|].
    intros w. rewrite if_agree_S. destruct (decide (idx (S l) w = idx (S l) v)) as [Hi|Hi]; [|exact (Hx2 w Hi)].
    cbn [xlate]. rewrite Hi, He2, Hpr by apply idx_range. apply Hx'.
Qed.

(** ** Adding a mapping *)

Context {FA : FrameAllocator F} {SP : AllocSpec F}.

Lemma used_frame m f R U q : rep m f R U -> q ∈ U -> frame_ok q /\ mapped m (V q) PAGE_SIZE.
Proof. intros Hr Hq. eapply rep_frame; [done|]. by eapply rep_used. Qed.

(** Writing an entry of a table that is held. *)
Lemma rep_set m f R U p i e : rep m f R U -> p ∈ U -> 0 <= i < PAGE_ENTRIES -> rep (set_m m p i e) f R U.
Proof.
  intros Hr Hp Hi. destruct (used_frame _ _ _ _ _ Hr Hp) as [Hf Hm]. eapply rep_stable; [exact Hr|by apply set_m_dom|].
  intros a Ha. unfold set_m. rewrite store_bytes_lookup, zlen_le_bytes, decide_False; [done|]. intros Hr2. apply (Ha p Hp).
  by apply (ent_slot p i Hi).
Qed.

Lemma fresh_frame c f R U :
  rep (mem c) f R U ->
  (exists q m' f', allocate_one (c, f) = (Ok q, (with_mem m' c, f')) /\ q ∈ R /\ q ∉ U /\ rep m' f' R ({[q]} ∪ U) /\
     page_zero m' q /\ same_dom (mem c) m' /\ forall x, x ∈ U -> same_frame (mem c) m' x) \/
  (allocate_one (c, f) = (Err tt, (c, f)) /\ R ⊆ U).
Proof.
  assert (H1 : forall p, run p 1 = {[p]}).
  { intros p. apply set_eq. intros q. rewrite elem_run, elem_of_singleton. split; [intros (k & Hk & ->); replace k with 0 by lia; lia|].
    intros ->. exists 0. lia. }
  intros Hr. unfold allocate_one. destruct (rep_allocate c f R U 1 Hr ltac:(lia)) as [(q & m' & f' & Hal & Hsub & Hr' & Hz & Hd & Hs)|[Hal Hno]].
  - left. exists q, m', f'. rewrite H1 in *. split_and!; [done|set_solver|set_solver|done|apply Hz; set_solver|done|].
    intros x Hx a Ha. by eapply Hs.
  - right. split; [done|]. intros q Hq. destruct (decide (q ∈ U)); [done|]. exfalso. apply (Hno q). rewrite H1. set_solver.
Qed.

Lemma link_flags_ok v : Z.land (link_flags v) ENTRY_FLAGS_MASK = link_flags v /\ present (link_flags v) = true.
Proof.
  unfold link_flags. split.
  - rewrite Z.land_lor_distr_l, table_flags. f_equal. destruct (kind_of_virt v); [apply table_user_flags|done].
  - unfold present. rewrite Z.land_lor_distr_l. apply negb_true_iff, Z.eqb_neq. intros Hl. apply Z.lor_eq_0_iff in Hl as [Hl _].
    by apply (table_present (A:=A)).
Qed.

(** The tables after [map_from]: [N] are new. *)
Definition mapped_in c m' f' R U l p T N : Prop :=
  N ⊆ R /\ N ## U /\ rep m' f' R (U ∪ N) /\ tree m' l p (T ∪ N) /\ same_dom (mem c) m' /\
  forall x, x ∈ U -> x ∉ T -> same_frame (mem c) m' x.

(** New tables below the subtable of entry [i]. *)
Lemma tree_grow m m' l p T U N i :
  tree m (S l) p T -> T ⊆ U -> N ## U -> 0 <= i < PAGE_ENTRIES ->
  (forall j, 0 <= j < PAGE_ENTRIES -> j <> i -> ent m' p j = ent m p j) ->
  exists Ti, (if present (ent m p i) then tree m l (entry_addr (ent m p i)) Ti else Ti = ∅) /\ Ti ⊆ T /\ p ∉ Ti /\
  ((forall x, x ∈ U -> x ∉ Ti -> x <> p -> same_frame m m' x) ->
   present (ent m' p i) = true -> tree m' l (entry_addr (ent m' p i)) (Ti ∪ N) ->
   tree m' (S l) p (T ∪ N) /\ forall w, idx (S l) w <> i -> xlate m' (S l) p w = xlate m (S l) p w).
Proof.
  intros Ht HTU HN Hi Hj. destruct (tree_split _ _ _ _ i Ht Hi) as (Ti & Hti & Hsub & HpT & HpTi & Hupd). exists Ti. split_and!; [done..|].
  intros Hs Hpr Ht'. destruct (Hupd m' (Ti ∪ N)) as [H1 H2].
  - intros x Hx1 Hx2 Hx3. apply Hs; [by apply HTU|done..].
  - done.
  - by rewrite Hpr.
  - clear -HTU HN. set_solver.
  - split; [|done]. replace (T ∪ N) with (T ∖ Ti ∪ (Ti ∪ N)); [done|]. clear -Hsub. apply set_eq. intros x. destruct (decide (x ∈ Ti)); set_solver.
Qed.

Lemma same_frame_trans m1 m2 m3 q : same_frame m1 m2 q -> same_frame m2 m3 q -> same_frame m1 m3 q.
Proof. intros H1 H2 a Ha. by rewrite H2, H1. Qed.

(** Linking a fresh table below an absent entry. *)
Lemma table_link_ok l p T R U i fl b lv c f :
  rep (mem c) f R U -> tree (mem c) (S l) p T -> T ⊆ U -> 0 <= i < PAGE_ENTRIES -> present (ent (mem c) p i) = false ->
  Z.land fl ENTRY_FLAGS_MASK = fl -> present fl = true ->
  (exists q m1 m2 f1, allocate_one (c, f) = (Ok q, (with_mem m1 c, f1)) /\
     set_entry (mkTable b p lv) i (entry_new q fl) (with_mem m1 c, f1) = (Ok tt, (with_mem m2 c, f1)) /\
     ent m2 p i = entry_new q fl /\ frame_ok q /\ mapped m2 (V p) PAGE_SIZE /\
     (forall j, 0 <= j < PAGE_ENTRIES -> j <> i -> ent m2 p j = ent (mem c) p j) /\
     mapped_in c m2 f1 R U (S l) p T {[q]} /\ forall w, xlate m2 (S l) p w = xlate (mem c) (S l) p w) \/
  (allocate_one (c, f) = (Err tt, (c, f)) /\ R ⊆ U).
Proof.
  intros Hr Ht HTU Hi Hpr Hlf Hlp. assert (HpT : p ∈ T) by (by eapply tree_root). assert (HpU : p ∈ U) by (by apply HTU).
  destruct (used_frame _ _ _ _ p Hr HpU) as [Hp Hm].
  destruct (fresh_frame c f R U Hr) as [(q & m1 & f1 & Hal & HqR & HqU & Hr1 & Hz & Hd & Hs)|[-> HRU]]; [left|by right].
  destruct (rep_frame _ _ _ _ q Hr HqR) as [Hqf Hqm].
  set (E := entry_new q fl). assert (HE : fits 64 E) by (by apply entry_new_fits).
  assert (HpE : present E = true) by (unfold E; by rewrite present_new).
  assert (Hqp : q <> p) by (by intros ->). assert (Hm1 : mapped m1 (V p) PAGE_SIZE) by (by eapply same_dom_mapped).
  set (m2 := set_m m1 p i E). assert (He2 : ent m2 p i = E) by (unfold m2; rewrite ent_set by done; by rewrite decide_True).
  assert (Hs2 : forall x, x ∈ U -> x <> p -> same_frame (mem c) m2 x).
  { intros x Hx Hne. eapply same_frame_trans; [by apply Hs|]. apply set_m_frame; [done|by apply (used_frame _ _ _ _ x Hr Hx)|done..]. }
  assert (Hz2 : page_zero m2 q).
  { intros a Ha. unfold m2. rewrite (set_m_frame m1 p i E q Hp Hqf Hqp Hi a Ha). by apply Hz. }
  assert (Hej : forall j, 0 <= j < PAGE_ENTRIES -> j <> i -> ent m2 p j = ent (mem c) p j).
  { intros j Hj Hne. unfold m2. rewrite ent_set, decide_False by done. apply ent_ext; [done|]. by apply Hs. }
  destruct (tree_empty m2 l q) as [Hte Hxe]; [intros j Hj; by rewrite ent_zero, present_0|].
  destruct (tree_grow (mem c) m2 l p T U {[q]} i Ht HTU ltac:(set_solver) Hi Hej) as (Ti & Hti & _ & _ & Hup). rewrite Hpr in Hti. subst Ti.
  destruct Hup as [Ht2 Hx2]; [intros x Hx _; by apply Hs2|by rewrite He2|rewrite He2; unfold E; rewrite entry_addr_new by done; by rewrite union_empty_l_L|].
  exists q, m1, m2, f1. split_and!; [done|by rewrite (table_set_ok _ _ _ _ _ (with_mem m1 c))|done|done|by eapply same_dom_mapped; [apply set_m_dom|]|done| |].
  - split_and!; [clear -HqR; set_solver|clear -HqU; set_solver| |done|by eapply same_dom_trans, set_m_dom|].
    + rewrite union_comm_L. by apply rep_set; [|clear -HpU; set_solver|].
    + intros x Hx Hn. apply Hs2; [done|]. by intros ->.
  - intros w. destruct (decide (idx (S l) w = i)) as [Hw|Hw]; [|by apply Hx2]. cbn [xlate]. rewrite Hw, He2, HpE, Hpr.
    unfold E. by rewrite entry_addr_new, Hxe by done.
Qed.

Lemma mapped_in_none c f R U l p T : rep (mem c) f R U -> tree (mem c) l p T -> mapped_in c (mem c) f R U l p T ∅.
Proof.
  intros Hr Ht. split_and!; [apply empty_subseteq|apply disjoint_empty_l| | |done|done]; by rewrite union_empty_r_L.
Qed.

Lemma next_or_new_ok l p T R U v c f :
  (S (S l) <= levels)%nat -> rep (mem c) f R U -> tree (mem c) (S l) p T -> T ⊆ U ->
  let t := mkTable (base_of (S l) v) p (Z.of_nat (S l)) in let i := idx (S l) v in
  (exists m1 f1 N, next_or_new t i v (c, f) = (Ok (mkTable (base_of l v) (entry_addr (ent m1 p i)) (Z.of_nat l)), (with_mem m1 c, f1)) /\
     present (ent m1 p i) = true /\ mapped_in c m1 f1 R U (S l) p T N /\ forall w, xlate m1 (S l) p w = xlate (mem c) (S l) p w) \/
  (next_or_new t i v (c, f) = (Err tt, (c, f)) /\ R ⊆ U).
Proof.
  intros Hl Hr Ht HTU t i. assert (HpU : p ∈ U) by (by eapply HTU, tree_root).
  destruct (used_frame _ _ _ _ p Hr HpU) as [Hp Hm]. assert (Hi : 0 <= i < PAGE_ENTRIES) by apply idx_range. pose proof (next_ok l v p c f Hl Hp Hm) as Hnx.
  cbv zeta in Hnx. fold i in Hnx. unfold next_or_new, opt, mbind, M_bind, t. rewrite Hnx. clear Hnx. destruct (present (ent (mem c) p i)) eqn:Hpr.
  { left. exists (mem c), f, ∅. split; [by destruct c|]. split; [done|]. split; [by apply mapped_in_none|done]. }
  destruct (link_flags_ok v) as [Hlf Hlp].
  destruct (table_link_ok l p T R U i (link_flags v) (base_of (S l) v) (Z.of_nat (S l)) c f Hr Ht HTU Hi Hpr Hlf Hlp)
    as [(q & m1 & m2 & f1 & -> & Hse & He & Hqf & Hm2 & _ & Hin & Hx)|[-> HRU]]; [left|by right].
  unfold ignore. rewrite Hse. pose proof (next_ok l v p (with_mem m2 c) f1 Hl Hp Hm2) as Hnx.
  cbv zeta in Hnx. rewrite with_mem_mem in Hnx. fold i in Hnx. rewrite He, present_new, Hlp in Hnx by done. rewrite Hnx. exists m2, f1, {[q]}.
  rewrite He, present_new by done. done.
Qed.

Lemma map_from_S n t virt e :
  map_from (S n) t virt e =
  (i ← index_of t virt;
   if t_level t =? 0 then ignore (set_entry t i e) else t' ← next_or_new t i virt; map_from n t' virt e).
Proof. done. Qed.

Lemma map_from_ok l p T R U v e c f :
  (S l <= levels)%nat -> fits 64 e -> rep (mem c) f R U -> tree (mem c) l p T -> T ⊆ U ->
  exists m' f' N, mapped_in c m' f' R U l p T N /\
    (map_from (S l) (mkTable (base_of l v) p (Z.of_nat l)) v e (c, f) = (Ok tt, (with_mem m' c, f')) /\
       (forall w, xlate m' l p w = if decide (agree l v w) then leaf e else xlate (mem c) l p w) \/
     map_from (S l) (mkTable (base_of l v) p (Z.of_nat l)) v e (c, f) = (Err tt, (with_mem m' c, f')) /\
       (forall w, xlate m' l p w = xlate (mem c) l p w) /\ R ⊆ U ∪ N).
Proof.
  revert p T U c f. induction l as [|l IH]; intros p T U c f Hl He Hr Ht HTU; assert (HpT : p ∈ T) by (by eapply tree_root).
  - destruct (used_frame _ _ _ _ p Hr ltac:(by apply HTU)) as [Hp Hm]. exists (set_m (mem c) p (idx 0 v) e), f, ∅. split.
    + split_and!; [set_solver..| | |by apply set_m_dom; [|apply idx_range]|].
      * rewrite union_empty_r_L. apply rep_set; [done|by apply HTU|apply idx_range].
      * cbn [tree] in *. by rewrite union_empty_r_L.
      * intros x Hx Hn. apply set_m_frame; [done|by eapply used_frame|by intros ->|apply idx_range].
    + left. cbn [map_from]. unfold mbind, M_bind. rewrite index_of_ok by done. cbn [t_level]. change (Z.of_nat 0 =? 0) with true. cbn iota.
      unfold ignore. rewrite table_set_ok by (done || apply idx_range). split; [done|]. intros w. cbn [xlate]. rewrite ent_set by done.
      destruct (decide (agree 0 v w)) as [Ha|Ha]; rewrite agree_0 in Ha; [by rewrite decide_True|by rewrite decide_False by congruence].
  - rewrite map_from_S. unfold mbind, M_bind. rewrite index_of_ok by done. cbn [t_level]. destruct (Z.eqb_spec (Z.of_nat (S l)) 0); [lia|].
    destruct (next_or_new_ok l p T R U v c f Hl Hr Ht HTU) as [(m1 & f1 & N1 & -> & Hpr & (HN1 & HN1' & Hr1 & Ht1 & Hd1 & Hs1) & Hx1)|[-> HRU]];
      set (i := idx (S l) v) in *.
    2: { exists (mem c), f, ∅. split; [by apply mapped_in_none|right; split_and!; [by destruct c|done|by rewrite union_empty_r_L]]. }
    set (q := entry_addr (ent m1 p i)) in *. assert (Hi : 0 <= i < PAGE_ENTRIES) by apply idx_range.
    destruct (tree_split _ _ _ _ i Ht1 Hi) as (Ti & Hti & Hsub & HpT1 & HpTi & Hupd). rewrite Hpr in Hti.
    assert (HTi : Ti ⊆ U ∪ N1) by (clear -Hsub HTU; set_solver).
    destruct (IH q Ti (U ∪ N1) (with_mem m1 c) f1 ltac:(lia) He Hr1 Hti HTi) as (m' & f' & N2 & (HN2 & HN2' & Hr2 & Ht2 & Hd2 & Hs2) & Hcase).
    rewrite with_mem_mem, with_mem_twice in *.
    assert (HpU : p ∈ U ∪ N1) by (clear -HTU HpT; set_solver).
    assert (Hej : forall j, 0 <= j < PAGE_ENTRIES -> ent m' p j = ent m1 p j) by (intros j Hj; by apply ent_ext, Hs2).
    destruct (Hupd m' (Ti ∪ N2)) as [Ht' Hx'].
    { intros x Hx Hn _. apply Hs2; [clear -Hx HTU; set_solver|done]. }
    { intros j Hj _. by apply Hej. } { by rewrite Hej, Hpr. } { clear -HN2' HTU. set_solver. }
    exists m', f', (N1 ∪ N2). split.
    + split_and!; [clear -HN1 HN2; set_solver|clear -HN1' HN2'; set_solver|by rewrite union_assoc_L| |by eapply same_dom_trans|].
      * replace (T ∪ (N1 ∪ N2)) with ((T ∪ N1) ∖ Ti ∪ (Ti ∪ N2)); [done|]. clear -Hsub. apply set_eq. intros x. destruct (decide (x ∈ Ti)); set_solver.
      * intros x Hx Hn. eapply same_frame_trans; [by apply Hs1|]. apply Hs2; [clear -Hx; set_solver|]. intros HxT.
        apply Hsub in HxT. clear -HxT Hx Hn HN1'. set_solver.
    + assert (Hxs : forall w, idx (S l) w = i -> xlate m' (S l) p w = xlate m' l q w) by (intros w Hw; cbn [xlate]; by rewrite Hw, Hej, Hpr).
      assert (Hxq : forall w, idx (S l) w = i -> xlate m1 l q w = xlate (mem c) (S l) p w).
      { intros w Hw. rewrite <-Hx1. cbn [xlate]. by rewrite Hw, Hpr. }
      destruct Hcase as [[-> Hx2]|[-> [Hx2 HR2]]]; [left|right].
      * split; [done|]. intros w. rewrite if_agree_S. fold i. destruct (decide (idx (S l) w = i)) as [Hw|Hw]; [|by rewrite Hx', Hx1].
        rewrite Hxs, Hx2 by done. by rewrite Hxq.
      * split_and!; [done| |by rewrite union_assoc_L]. intros w. destruct (decide (idx (S l) w = i)) as [Hw|Hw]; [|by rewrite Hx', Hx1].
        rewrite Hxs, Hx2 by done. by rewrite Hxq.
Qed.

(** ** Removing a mapping *)

Lemma entry_new_0 : entry_new 0 0 = 0.
Proof. unfold entry_new. by rewrite Z.shiftr_0_l, Z.land_0_l, Z.shiftl_0_l. Qed.

Lemma populated_ok n j b q lv c f :
  frame_ok q -> mapped (mem c) (V q) PAGE_SIZE -> 0 <= j -> j + Z.of_nat n = PAGE_ENTRIES ->
  exists r, is_still_populated n (mkTable b q lv) j (c, f) = (Ok r, (c, f)) /\
    (r = false -> forall k, j <= k < PAGE_ENTRIES -> present (ent (mem c) q k) = false).
Proof.
  intros Hq Hm. revert j. induction n as [|n IH]; intros j Hj Hn; cbn [is_still_populated].
  { exists false. split; [done|]. intros _ k Hk. lia. }
  unfold mbind, M_bind, expect. rewrite entry_ok by (done || lia). destruct (present (ent (mem c) q j)) eqn:Hpr; [by exists true|].
  destruct (IH (j + 1)) as (r & -> & Hr); [lia..|]. exists r. split; [done|]. intros -> k Hk.
  destruct (decide (k = j)) as [->|]; [done|]. apply Hr; [done|lia].
Qed.

Lemma tree_empty_inv m l q T : tree m l q T -> (forall k, 0 <= k < PAGE_ENTRIES -> present (ent m q k) = false) -> T = {[q]}.
Proof.
  destruct l as [|l]; [done|]. intros (Ts & Hc & _ & _ & Hx) He. apply set_eq. intros x. rewrite Hx, elem_of_singleton. split; [|by left].
  intros [->|(i & Hi & Hin)]; [done|]. specialize (Hc i Hi). rewrite He in Hc by done. rewrite Hc in Hin. set_solver.
Qed.

(** The tables after [unmap_phys_inner]: [D] were released. *)
Definition unmapped_in c m' f' R U l p T D : Prop :=
  D ⊆ T /\ p ∉ D /\ rep m' f' R (U ∖ D) /\ tree m' l p (T ∖ D) /\ same_dom (mem c) m' /\
  forall x, x ∈ U -> x ∉ T -> same_frame (mem c) m' x.

Lemma free_table c f R U q :
  rep (mem c) f R U -> q ∈ U ->
  exists m' f', free_one q (c, f) = (Ok tt, (with_mem m' c, f')) /\ rep m' f' R (U ∖ {[q]}) /\ same_dom (mem c) m' /\
    forall x, x ∈ U -> same_frame (mem c) m' x.
Proof.
  intros Hr Hq. assert (H1 : run q 1 = {[q]}).
  { apply set_eq. intros x. rewrite elem_run, elem_of_singleton. split; [intros (k & Hk & ->); replace k with 0 by lia; lia|]. intros ->. exists 0. lia. }
  destruct (rep_free c f R U q 1 Hr ltac:(lia)) as (m' & f' & Hf & Hr' & Hd & Hs); [rewrite H1; set_solver|].
  rewrite H1 in Hr'. exists m', f'. split_and!; [done..|]. intros x Hx a Ha. by eapply Hs.
Qed.

Definition result_of (x : option (Z * Z)) : res unit (Z * Z) := match x with Some r => Ok r | None => Err tt end.

(** What happens to the table of entry [i] once its subtable is done. *)
Lemma unmap_parent l p T R U v c f Ti m1 f1 D1 (up : bool) :
  (S (S l) <= levels)%nat -> rep (mem c) f R U -> tree (mem c) (S l) p T -> T ⊆ U ->
  let i := idx (S l) v in let q := entry_addr (ent (mem c) p i) in
  present (ent (mem c) p i) = true -> Ti ⊆ T -> p ∉ Ti -> p ∈ T -> q ∈ Ti ->
  unmapped_in c m1 f1 R U l q Ti D1 ->
  exists m' f' D,
    release_empty (mkTable (base_of (S l) v) p (Z.of_nat (S l))) i (mkTable (base_of l v) q (Z.of_nat l)) up (with_mem m1 c, f1) =
      (Ok tt, (with_mem m' c, f')) /\
    rep m' f' R (U ∖ D) /\ same_dom (mem c) m' /\ (forall x, x ∈ U -> x ∉ Ti -> x <> p -> same_frame (mem c) m' x) /\
    (forall j, 0 <= j < PAGE_ENTRIES -> j <> i -> ent m' p j = ent (mem c) p j) /\
    (D = D1 /\ ent m' p i = ent (mem c) p i /\ tree m' l q (Ti ∖ D) /\ (forall w, xlate m' l q w = xlate m1 l q w) \/
     D = Ti /\ present (ent m' p i) = false /\ forall w, xlate m1 l q w = None).
Proof.
  intros Hl Hr Ht HTU i q Hpr HTi HpTi HpT HqT (HD1 & HqD & Hr1 & Ht1 & Hd1 & Hs1). assert (Hi : 0 <= i < PAGE_ENTRIES) by apply idx_range.
  assert (HpU : p ∈ U) by (by apply HTU). assert (HqU : q ∈ U ∖ D1) by (apply elem_of_difference; split; [by apply HTU, HTi|done]).
  assert (HpD : p ∈ U ∖ D1) by (apply elem_of_difference; split; [done|]; intros Hx; by apply HpTi, HD1).
  assert (Hp1 : same_frame (mem c) m1 p) by (by apply Hs1).
  assert (Hsame : rep m1 f1 R (U ∖ D1) /\ same_dom (mem c) m1 /\ (forall x, x ∈ U -> x ∉ Ti -> x <> p -> same_frame (mem c) m1 x) /\
    (forall j, 0 <= j < PAGE_ENTRIES -> j <> i -> ent m1 p j = ent (mem c) p j) /\
    (D1 = D1 /\ ent m1 p i = ent (mem c) p i /\ tree m1 l q (Ti ∖ D1) /\ (forall w, xlate m1 l q w = xlate m1 l q w) \/
     D1 = Ti /\ present (ent m1 p i) = false /\ forall w, xlate m1 l q w = None)).
  { split_and!; [done|done|intros x ???; by apply Hs1|intros j Hj _; by apply ent_ext|]. left. split_and!; [done|by apply ent_ext|done|done]. }
  unfold release_empty. destruct up; [|by exists m1, f1, D1]. unfold mbind, M_bind. cbn [t_phys]. destruct (used_frame _ _ _ _ q Hr1 HqU) as [Hqf Hqm].
  destruct (populated_ok (Z.to_nat PAGE_ENTRIES) 0 (base_of l v) q (Z.of_nat l) (with_mem m1 c) f1) as (b & -> & Hb); [done|done|done|lia|].
  destruct b; [by exists m1, f1, D1|]. specialize (Hb eq_refl). rewrite with_mem_mem in Hb. clear Hsame.
  pose proof (tree_empty_inv _ _ _ _ Ht1 Hb) as HTe. destruct (free_table (with_mem m1 c) f1 R (U ∖ D1) q Hr1 HqU) as (m2 & f2 & -> & Hr2 & Hd2 & Hs2).
  rewrite with_mem_mem, with_mem_twice in *. assert (Hqp : q <> p) by (intros Heq; by rewrite Heq in HqT).
  assert (HpD2 : p ∈ U ∖ D1 ∖ {[q]}) by (clear -HpD Hqp; set_solver). destruct (used_frame _ _ _ _ p Hr2 HpD2) as [Hpf Hpm].
  unfold ignore. rewrite (table_set_ok _ _ _ _ _ (with_mem m2 c)) by done. rewrite with_mem_mem, with_mem_twice, entry_new_0.
  exists (set_m m2 p i 0), f2, Ti. assert (HTi2 : Ti = D1 ∪ {[q]}).
  { rewrite <-HTe. clear -HD1. apply set_eq. intros x. destruct (decide (x ∈ D1)); set_solver. }
  split_and!; [done| | | | |].
  - replace (U ∖ Ti) with (U ∖ D1 ∖ {[q]}) by (rewrite HTi2; clear; set_solver). by apply rep_set.
  - eapply same_dom_trans; [exact Hd1|]. eapply same_dom_trans; [exact Hd2|]. by apply set_m_dom.
  - intros x Hx Hn Hne. eapply same_frame_trans; [by apply Hs1|]. assert (HxD : x ∈ U ∖ D1).
    { apply elem_of_difference. split; [done|]. intros Hin. by apply Hn, HD1. }
    eapply same_frame_trans; [by apply Hs2|]. apply set_m_frame; [done|by apply (used_frame _ _ _ _ x Hr Hx)|done..].
  - intros j Hj Hne. rewrite ent_set, decide_False by done. etrans; [|apply (ent_ext (mem c) m1 p j Hj Hp1)]. by apply ent_ext, Hs2.
  - right. split_and!; [done| |]. { rewrite ent_set, decide_True by done. apply present_0. } by apply tree_empty.
Qed.

Lemma unmap_S n virt t up :
  unmap_phys_inner (S n) virt t up =
  (i ← index_of t virt;
   if t_level t =? 0 then
     entry_opt ← opt (entry t i);
     _ ← ignore (set_entry t i (entry_new 0 0));
     match entry_opt with None => throw tt | Some e => p ← ok (address e); mret (p, flags e) end
   else
     subtable ← next t i;
     r ← unmap_phys_inner n virt subtable up;
     _ ← release_empty t i subtable up;
     mret r).
Proof. done. Qed.

Lemma unmap_leaf p T R U v up c f :
  (1 <= levels)%nat -> rep (mem c) f R U -> tree (mem c) 0 p T -> T ⊆ U ->
  exists m' f' D, unmapped_in c m' f' R U 0 p T D /\
    unmap_phys_inner 1 v (mkTable (base_of 0 v) p (Z.of_nat 0)) up (c, f) = (result_of (xlate (mem c) 0 p v), (with_mem m' c, f')) /\
    forall w, xlate m' 0 p w = if decide (agree 0 v w) then None else xlate (mem c) 0 p w.
Proof.
  intros Hl Hr Ht HTU. assert (HpU : p ∈ U) by (by eapply HTU, tree_root). destruct (used_frame _ _ _ _ p Hr HpU) as [Hp Hm].
  assert (Hi : 0 <= idx 0 v < PAGE_ENTRIES) by apply idx_range.
  exists (set_m (mem c) p (idx 0 v) 0), f, ∅. split; [split_and!|split].
  - apply empty_subseteq.
  - apply not_elem_of_empty.
  - rewrite difference_empty_L. by apply rep_set.
  - cbn [tree] in *. by rewrite difference_empty_L.
  - by apply set_m_dom.
  - intros x Hx Hn. apply set_m_frame; [done|by apply (used_frame _ _ _ _ x Hr Hx)| |done]. intros ->. by eapply Hn, tree_root.
  - rewrite unmap_S. unfold mbind, M_bind. rewrite index_of_ok by done. cbn [t_level]. change (Z.of_nat 0 =? 0) with true. cbn iota.
    unfold opt, ignore. rewrite entry_ok, table_set_ok by done. rewrite entry_new_0. cbn [xlate]. unfold leaf, ok, address, result_of.
    by destruct (present (ent (mem c) p (idx 0 v))).
  - intros w. cbn [xlate]. rewrite ent_set by done. destruct (decide (agree 0 v w)) as [Ha|Ha]; rewrite agree_0 in Ha.
    + rewrite decide_True by done. unfold leaf. by rewrite present_0.
    + by rewrite decide_False by congruence.
Qed.

Lemma unmap_ok l p T R U v up c f :
  (S l <= levels)%nat -> rep (mem c) f R U -> tree (mem c) l p T -> T ⊆ U ->
  exists m' f' D, unmapped_in c m' f' R U l p T D /\
    unmap_phys_inner (S l) v (mkTable (base_of l v) p (Z.of_nat l)) up (c, f) = (result_of (xlate (mem c) l p v), (with_mem m' c, f')) /\
    forall w, xlate m' l p w = if decide (agree l v w) then None else xlate (mem c) l p w.
Proof.
  revert p T U c f. induction l as [|l IH]; intros p T U c f Hl Hr Ht HTU; [by apply unmap_leaf|].
  rewrite unmap_S. unfold mbind, M_bind. rewrite index_of_ok by done. cbn [t_level]. destruct (Z.eqb_spec (Z.of_nat (S l)) 0); [lia|].
  assert (HpT : p ∈ T) by (by eapply tree_root). assert (HpU : p ∈ U) by (by apply HTU). destruct (used_frame _ _ _ _ p Hr HpU) as [Hp Hm].
  rewrite (next_ok l v p c f) by done. cbv zeta. set (i := idx (S l) v) in *. assert (Hi : 0 <= i < PAGE_ENTRIES) by apply idx_range.
  destruct (tree_split _ _ _ _ i Ht Hi) as (Ti & Hti & Hsub & _ & HpTi & Hupd).
  assert (Hat : forall w, idx (S l) w = i -> present (ent (mem c) p i) = false -> xlate (mem c) (S l) p w = None).
  { intros w Hw Hpr. cbn [xlate]. by rewrite Hw, Hpr. }
  destruct (present (ent (mem c) p i)) eqn:Hpr; cycle 1.
  { exists (mem c), f, ∅. split; [|split; [rewrite Hat by done; by destruct c|]].
    - split_and!; [apply empty_subseteq|apply not_elem_of_empty| | |done|done]; by rewrite difference_empty_L.
    - intros w. rewrite if_agree_S. fold i. destruct (decide (idx (S l) w = i)); [|done]. case_decide; [by rewrite Hat|done]. }
  clear Hat. set (q := entry_addr (ent (mem c) p i)) in *. assert (Hsame : forall w, idx (S l) w = i -> xlate (mem c) (S l) p w = xlate (mem c) l q w).
  { intros w Hw. cbn [xlate]. by rewrite Hw, Hpr. }
  destruct (IH q Ti U c f ltac:(lia) Hr Hti) as (m1 & f1 & D1 & Hin & -> & Hx1); [by etrans|]. rewrite <-Hsame by done.
  assert (HqT : q ∈ Ti) by (by eapply tree_root).
  destruct (unmap_parent l p T R U v c f Ti m1 f1 D1 (if xlate (mem c) (S l) p v then up else false) Hl Hr Ht HTU Hpr Hsub HpTi HpT HqT Hin)
    as (m' & f' & D & Hrun & Hr' & Hd' & Hs' & Hej & Hcase). fold i q in Hrun, Hej, Hcase.
  assert (HD : D ⊆ Ti) by (destruct Hin as (HD1 & _); destruct Hcase as [(-> & _)|(-> & _)]; done).
  exists m', f', D. destruct (Hupd m' (Ti ∖ D)) as [Ht' Hx'].
  { intros x Hx Hn Hne. apply Hs'; [by apply HTU|done..]. } { done. }
  { destruct Hcase as [(_ & He & Htc & _)|(-> & He & _)]; rewrite He; [by rewrite Hpr|clear; set_solver]. }
  { clear. set_solver. }
  split; [split_and!|split].
  - by etrans.
  - intros HpD. by apply HpTi, HD.
  - done.
  - replace (T ∖ D) with (T ∖ Ti ∪ Ti ∖ D); [done|]. clear -HD Hsub. apply set_eq. intros x. destruct (decide (x ∈ Ti)); set_solver.
  - done.
  - intros x Hx Hn. apply Hs'; [done|by intros ?%Hsub|by intros ->].
  - destruct (xlate (mem c) (S l) p v) as [r|]; cbn [result_of] in *; [by rewrite Hrun|].
    assert ((with_mem m1 c, f1) = (with_mem m' c, f')) as Heq by exact (f_equal snd Hrun). by rewrite Heq.
  - intros w. rewrite if_agree_S. fold i. destruct (decide (idx (S l) w = i)) as [Hw|Hw]; [|by apply Hx']. rewrite Hsame by done. rewrite <-Hx1.
    cbn [xlate]. rewrite Hw. destruct Hcase as [(_ & He & _ & Hxc)|(_ & He & Hnone)]; rewrite He; [by rewrite Hpr|by rewrite Hnone].
Qed.

End ops.

End RmmMap.
