(* ===== verification/RmmSpace.v ===== *)
(** * Address spaces

    New page tables, and the mapper as a whole: from the memory areas found at
    start-up to a sequence of mappings, changes and removals, the tables in
    memory behave as a map from pages to frames and flags. *)

From S2P Require Import Prelude Bytes RmmArch RmmFrame RmmBuddy RmmInit RmmMapper RmmWalk RmmMap.
Import RmmArch RmmFrame RmmBuddy RmmInit RmmMapper RmmWalk RmmMap.

Module RmmSpace.

Section spaces.
Context {A : Arch} {AO : ArchOk A} {F : Type} {FA : FrameAllocator F} {SP : AllocSpec F}.

Implicit Types (m : gmap Z Z) (c : Machine) (f : F) (l : nat) (T U R : gset Z).

Definition top : nat := levels - 1.

Lemma levels_top : levels = S top /\ exists l, top = S l.
Proof. pose proof (levels_pos (A:=A)). unfold top, levels. split; [lia|]. exists (Z.to_nat PAGE_LEVELS - 2)%nat. lia. Qed.

Lemma root_table mp v : root mp = mkTable (base_of top v) (table_addr mp) (Z.of_nat top).
Proof. unfold root, top. rewrite base_top. pose proof (levels_pos (A:=A)). f_equal. unfold levels. lia. Qed.

(** ** New tables *)

Lemma link_tables_ok n i kind l p T R U c f :
  rep (mem c) f R U -> tree (mem c) (S l) p T -> T ⊆ U -> 0 <= i -> i + Z.of_nat n = PAGE_ENTRIES ->
  (forall j, i <= j < PAGE_ENTRIES -> present (ent (mem c) p j) = false) -> (stdpp.base.size U + n <= stdpp.base.size R)%nat ->
  exists m' f' N, link_tables n (mkMapper kind p) i (c, f) = (Ok tt, (with_mem m' c, f')) /\
    mapped_in c m' f' R U (S l) p T N /\ forall w, xlate m' (S l) p w = xlate (mem c) (S l) p w.
Proof.
  revert i T U c f. induction n as [|n IH]; intros i T U c f Hr Ht HTU Hi Hn Habs Hsz; cbn [link_tables].
  { exists (mem c), f, ∅. split_and!; [by destruct c|by apply mapped_in_none|done]. }
  unfold mbind, M_bind, expect. assert (Hlp : present ENTRY_FLAG_DEFAULT_TABLE = true).
  { apply negb_true_iff, Z.eqb_neq, table_present. }
  destruct (table_link_ok l p T R U i ENTRY_FLAG_DEFAULT_TABLE 0 (PAGE_LEVELS - 1) c f Hr Ht HTU ltac:(lia) ltac:(apply Habs; lia) table_flags Hlp)
    as [(q & m1 & m2 & f1 & -> & Hse & _ & _ & _ & Hej & (HN & HN' & Hr2 & Ht2 & Hd2 & Hs2) & Hx2)|[-> HRU]].
  2: { apply subseteq_size in HRU. lia. }
  unfold ignore. unfold root. cbn [table_addr]. rewrite Hse.
  destruct (IH (i + 1) (T ∪ {[q]}) (U ∪ {[q]}) (with_mem m2 c) f1) as (m' & f' & N & -> & (GN & GN' & Gr & Gt & Gd & Gs) & Gx); rewrite ?with_mem_mem; [done|done| |lia|lia| | |].
  { clear -HTU. set_solver. } { intros j Hj. rewrite Hej by lia. apply Habs. lia. }
  { rewrite size_union, size_singleton by (clear -HN'; set_solver). lia. }
  exists m', f', ({[q]} ∪ N). rewrite with_mem_mem, with_mem_twice in *. split; [done|]. split; [|intros w; by rewrite Gx].
  split_and!; [clear -HN GN; set_solver|clear -HN' GN'; set_solver|by rewrite union_assoc_L|by rewrite union_assoc_L|by eapply same_dom_trans|].
  intros x Hx Hnt. eapply same_frame_trans; [by apply Hs2|]. apply Gs; [clear -Hx; set_solver|clear -Hx Hnt HN'; set_solver].
Qed.

(** The frames a new address space of the kernel takes. *)
Definition create_cost : nat := if KERNEL_SEPARATE_TABLE then 1 else 1 + upper_half.

Lemma create_kernel_ok R U c f :
  rep (mem c) f R U -> (stdpp.base.size U + create_cost <= stdpp.base.size R)%nat ->
  exists a m' f' N, create Kernel (c, f) = (Ok (mkMapper Kernel a), (with_mem m' c, f')) /\ N ⊆ R /\ N ## U /\ rep m' f' R (U ∪ N) /\
    tree m' top a N /\ (forall v, xlate m' top a v = None) /\ same_dom (mem c) m' /\ forall x, x ∈ U -> same_frame (mem c) m' x.
Proof.
  intros Hr Hsz. unfold create, mbind, M_bind, create_cost in *.
  destruct (fresh_frame c f R U Hr) as [(a & m1 & f1 & -> & HaR & HaU & Hr1 & Hz & Hd & Hs)|[-> HRU]].
  2: { apply subseteq_size in HRU. destruct KERNEL_SEPARATE_TABLE; lia. }
  assert (Habs : forall j, 0 <= j < PAGE_ENTRIES -> present (ent m1 a j) = false) by (intros j Hj; by rewrite ent_zero, present_0).
  destruct (tree_empty m1 top a Habs) as [Hte Hxe]. destruct KERNEL_SEPARATE_TABLE.
  { exists a, m1, f1, {[a]}. split_and!; [done|set_solver|set_solver|by rewrite union_comm_L|done..]. }
  destruct levels_top as [_ [l Hl]]. rewrite Hl in *. pose proof entries_pos.
  destruct (link_tables_ok upper_half (PAGE_ENTRIES / 2) Kernel l a {[a]} R ({[a]} ∪ U) (with_mem m1 c) f1) as (m' & f' & N & -> & (HN & HN' & Hr' & Ht' & Hd' & Hs') & Hx');
    rewrite ?with_mem_mem; [done|done|set_solver|apply Z.div_pos; lia| | | |].
  { unfold upper_half. assert (PAGE_ENTRIES / 2 <= PAGE_ENTRIES) by (apply Z.div_le_upper_bound; lia). lia. }
  { intros j Hj. apply Habs. split; [|lia]. assert (0 <= PAGE_ENTRIES / 2) by (apply Z.div_pos; lia). lia. }
  { rewrite size_union, size_singleton by set_solver. lia. }
  rewrite with_mem_mem, with_mem_twice in *. exists a, m', f', ({[a]} ∪ N).
  split_and!; [done|clear -HaR HN; set_solver|clear -HaU HN'; set_solver| |done| |by eapply same_dom_trans|].
  - by replace (U ∪ ({[a]} ∪ N)) with ({[a]} ∪ U ∪ N) by (clear; set_solver).
  - intros v. by rewrite Hx'.
  - intros x Hx. eapply same_frame_trans; [by apply Hs|]. apply Hs'; [clear -Hx; set_solver|clear -Hx HaU; set_solver].
Qed.

(** The kernel half of a user table *)

Lemma ent_fits m p i : (forall a b, in_frame a p -> m !! a = Some b -> is_byte b) -> 0 <= i < PAGE_ENTRIES -> fits 64 (ent m p i).
Proof.
  intros Hb Hi. unfold ent, word_at. destruct (load m (V p + i * 8) 8) as [bs|?| |] eqn:Hl; [|split; lia..].
  apply (load_Ok_iff (E:=unit)) in Hl as [Hlen Hbs]; [|lia].
  assert (Forall is_byte bs) as Hbb.
  { apply Forall_lookup. intros k b Hk. pose proof (lookup_lt_Some _ _ _ Hk). unfold zlen in Hlen. rewrite Hbs in Hk by lia. eapply Hb; [|done].
    apply (ent_slot p i Hi). lia. }
  pose proof (le_word_bound bs Hbb) as Hw. rewrite Hlen in Hw. split; [lia|]. change (2 ^ 64) with (256 ^ 8). lia.
Qed.

Lemma copy_entries_ok n i k a R U c f :
  rep (mem c) f R U -> k ∈ U -> a ∈ U -> k <> a -> 0 <= i -> i + Z.of_nat n = PAGE_ENTRIES ->
  (forall x b, in_frame x k -> mem c !! x = Some b -> is_byte b) ->
  exists m', copy_entries n (mkMapper Kernel k) (mkMapper User a) i (c, f) = (Ok tt, (with_mem m' c, f)) /\ rep m' f R U /\ same_dom (mem c) m' /\
    (forall j, 0 <= j < PAGE_ENTRIES -> ent m' a j = if decide (i <= j) then ent (mem c) k j else ent (mem c) a j) /\
    forall x, x ∈ U -> x <> a -> same_frame (mem c) m' x.
Proof.
  intros Hr Hk Ha Hka. revert i c Hr. induction n as [|n IH]; intros i c Hr Hi Hn Hb; cbn [copy_entries].
  { exists (mem c). split_and!; [by destruct c|done|done| |done]. intros j Hj. by rewrite decide_False by lia. }
  unfold mbind, M_bind, opt, ignore, root. cbn [table_addr]. destruct (used_frame _ _ _ _ k Hr Hk) as [Hkf Hkm]. destruct (used_frame _ _ _ _ a Hr Ha) as [Haf Ham].
  rewrite entry_ok, table_set_ok by (done || lia). set (m1 := set_m (mem c) a i (ent (mem c) k i)).
  assert (Hs1 : forall x, x ∈ U -> x <> a -> same_frame (mem c) m1 x).
  { intros x Hx Hne. apply set_m_frame; [done|by apply (used_frame _ _ _ _ x Hr Hx)|done|lia]. }
  destruct (IH (i + 1) (with_mem m1 c)) as (m' & -> & Hr' & Hd' & He' & Hs'); rewrite ?with_mem_mem; [by apply rep_set; [..|lia]|lia|lia| |].
  { intros x b Hx. rewrite (Hs1 k Hk Hka x Hx). by apply Hb. }
  rewrite with_mem_mem, with_mem_twice in *. exists m'. split_and!; [done|done|eapply same_dom_trans; [|exact Hd']; apply set_m_dom; [done|lia]| |].
  - intros j Hj. rewrite He' by done. unfold m1. rewrite ent_set by (apply ent_fits; [done|lia]). destruct (decide (i + 1 <= j)).
    + rewrite (decide_True (P:=i <= j)) by lia. apply ent_ext; [done|]. by apply Hs1.
    + destruct (decide (j = i)) as [->|]; [by rewrite decide_True by lia|]. by rewrite decide_False by lia.
  - intros x Hx Hne. eapply same_frame_trans; [by apply Hs1|]. by apply Hs'.
Qed.

(** A new user address space, where the kernel shares the page table
    (x86-64 and RISC-V): the table takes one frame, fails only if there is
    none, translates the upper half as the kernel's current table does and
    nothing in the lower half, and shares the kernel's tables below the
    entries of the upper half; no other frame that is held changes. *)
Theorem user_space_shares_kernel R U Tk c f :
  rep (mem c) f R U -> KERNEL_SEPARATE_TABLE = false ->
  let k := table_of Kernel (regs c) in
  tree (mem c) top k Tk -> Tk ⊆ U -> (forall x b, in_frame x k -> mem c !! x = Some b -> is_byte b) ->
  (exists a m' f' T, create User (c, f) = (Ok (mkMapper User a), (with_mem m' c, f')) /\ a ∈ R /\ a ∉ U /\ rep m' f' R ({[a]} ∪ U) /\
     tree m' top a T /\ T ⊆ {[a]} ∪ Tk /\
     (forall v, xlate m' top a v = if decide (PAGE_ENTRIES / 2 <= idx top v) then xlate (mem c) top k v else None) /\
     forall x, x ∈ U -> same_frame (mem c) m' x) \/
  (create User (c, f) = (Err tt, (c, f)) /\ R ⊆ U).
Proof.
  intros Hr Hsep k Htk HkU Hb. unfold create, mbind, M_bind. rewrite Hsep.
  destruct (fresh_frame c f R U Hr) as [(a & m1 & f1 & -> & HaR & HaU & Hr1 & Hz & Hd & Hs)|[-> HRU]]; [left|by right].
  assert (Hku : k ∈ U) by (by eapply HkU, tree_root). assert (Hka : k <> a) by congruence. pose proof entries_pos.
  assert (Hhalf : 0 <= PAGE_ENTRIES / 2 /\ PAGE_ENTRIES / 2 <= PAGE_ENTRIES) by (split; [apply Z.div_pos; lia|apply Z.div_le_upper_bound; lia]).
  unfold current, table, mbind, M_bind, mret, M_ret. cbn [fst]. change (regs (with_mem m1 c)) with (regs c). fold k.
  destruct (copy_entries_ok upper_half (PAGE_ENTRIES / 2) k a R ({[a]} ∪ U) (with_mem m1 c) f1) as (m' & -> & Hr' & Hd' & He' & Hs');
    rewrite ?with_mem_mem; [done|set_solver|set_solver|done|lia|unfold upper_half; lia|..].
  { intros x b Hx. rewrite (Hs k Hku x Hx). by apply Hb. }
  rewrite with_mem_mem, with_mem_twice in *. assert (HsU : forall x, x ∈ U -> same_frame (mem c) m' x).
  { intros x Hx. eapply same_frame_trans; [by apply Hs|]. apply Hs'; [set_solver|congruence]. }
  assert (Hent : forall j, 0 <= j < PAGE_ENTRIES -> ent m' a j = if decide (PAGE_ENTRIES / 2 <= j) then ent (mem c) k j else 0).
  { intros j Hj. rewrite He' by done. case_decide; [by apply ent_ext; [|apply Hs]|by apply ent_zero]. }
  destruct levels_top as [_ [l Hl]]. rewrite Hl in *. destruct Htk as (Ts & Hc & Hdis & Hp & Hx).
  assert (Hsub : forall j, 0 <= j < PAGE_ENTRIES -> present (ent (mem c) k j) = true -> let q := entry_addr (ent (mem c) k j) in
    tree m' l q (Ts j) /\ forall v, xlate m' l q v = xlate (mem c) l q v).
  { intros j Hj Hpr q. specialize (Hc j Hj). rewrite Hpr in Hc. apply tree_frame; [done|]. intros x Hxj. apply HsU, HkU, Hx. right. by exists j. }
  set (Ts' := fun j => if decide (PAGE_ENTRIES / 2 <= j) then Ts j else ∅).
  exists a, m', f1, ({[a]} ∪ ⋃ (Ts' <$> seqZ 0 PAGE_ENTRIES)).
  assert (HTs : forall x, x ∈ ⋃ (Ts' <$> seqZ 0 PAGE_ENTRIES) <-> exists j, 0 <= j < PAGE_ENTRIES /\ x ∈ Ts' j).
  { intros x. rewrite elem_of_union_list. setoid_rewrite list_elem_of_fmap. setoid_rewrite elem_of_seqZ. naive_solver. }
  assert (HTk : forall x j, 0 <= j < PAGE_ENTRIES -> x ∈ Ts' j -> x ∈ Tk).
  { intros x j Hj Hxj. apply Hx. right. exists j. unfold Ts' in Hxj. case_decide; set_solver. }
  split_and!; [done|done|done|done| | | |done].
  - exists Ts'. split_and!.
    + intros j Hj. rewrite Hent by done. unfold Ts'. case_decide; [|by rewrite present_0]. specialize (Hc j Hj). specialize (Hsub j Hj).
      destruct (present (ent (mem c) k j)); [by apply Hsub|done].
    + intros i j Hi Hj Hne. unfold Ts'. case_decide; [|set_solver]. case_decide; [by apply Hdis|set_solver].
    + intros j Hj Haj. apply HaU, HkU. by eapply HTk.
    + intros x. by rewrite elem_of_union, elem_of_singleton, HTs.
  - intros x [->%elem_of_singleton|(j & Hj & Hxj)%HTs]%elem_of_union; apply elem_of_union; [left; set_solver|right]. by eapply HTk.
  - intros v. cbn [xlate]. rewrite Hent by apply idx_range. case_decide; [|by rewrite present_0].
    destruct (present (ent (mem c) k (idx (S l) v))) eqn:Hpr; [|done]. apply Hsub; [apply idx_range|done].
Qed.

(** ** The mapper as a map *)

Inductive MapOp :=
| MapPhys (virt phys flags : Z)
| UnmapPhys (virt : Z)
| Remap (virt flags : Z)
| Translate (virt : Z).

(** The [Option] results, the pairs of [unmap_phys] and [translate]
    included. *)
Inductive MapResult := RUnit (r : option unit) | RPair (r : option (Z * Z)).

Definition run_op (mp : PageMapper) (op : MapOp) : RM F MapResult :=
  match op with
  | MapPhys virt phys fl => r ← opt (map_phys mp virt phys fl); mret (RUnit r)
  | UnmapPhys virt => r ← opt (unmap_phys mp virt); mret (RPair r)
  | Remap virt fl => r ← opt (remap mp virt fl); mret (RUnit r)
  | Translate virt => r ← opt (translate mp virt); mret (RPair r)
  end.

Fixpoint run_ops (mp : PageMapper) (ops : list MapOp) : RM F (list MapResult) :=
  match ops with
  | [] => mret []
  | op :: ops => r ← run_op mp op; rs ← run_ops mp ops; mret (r :: rs)
  end.

Definition op_ok (op : MapOp) : Prop :=
  match op with
  | MapPhys _ phys fl => addr_ok phys /\ Z.land fl ENTRY_FLAGS_MASK = fl
  | Remap _ fl => Z.land fl ENTRY_FLAGS_MASK = fl
  | _ => True
  end.

(** A map from pages, given by any address in them, to frames and flags. *)
Definition Space := Z -> option (Z * Z).

Definition put (s : Space) (virt : Z) (x : option (Z * Z)) : Space := fun w => if decide (masked virt = masked w) then x else s w.

(** An entry whose flags lack the present bit maps nothing. *)
Definition mapping (phys fl : Z) : option (Z * Z) := if present fl then Some (phys, fl) else None.

(** The result of an operation and the map after it; [full] tells that the
    allocator has no frame left. *)
Definition spec_op (full : Prop) (op : MapOp) (s : Space) (r : MapResult) (s' : Space) : Prop :=
  match op with
  | MapPhys virt phys fl =>
      r = RUnit (Some tt) /\ (forall w, s' w = put s virt (mapping phys fl) w) \/ r = RUnit None /\ (forall w, s' w = s w) /\ full
  | UnmapPhys virt => r = RPair (s virt) /\ forall w, s' w = put s virt None w
  | Remap virt fl =>
      match s virt with
      | Some (phys, _) => r = RUnit (Some tt) /\ forall w, s' w = put s virt (mapping phys fl) w
      | None => r = RUnit None /\ forall w, s' w = s w
      end
  | Translate virt => r = RPair (s virt) /\ forall w, s' w = s w
  end.

Definition space_of m (mp : PageMapper) : Space := xlate m top (table_addr mp).

(** The allocator and the tables [T] of the mapper, with [K] the other frames
    held. *)
Record mapper_ok c f (mp : PageMapper) R K T : Prop := {
  mk_rep : rep (mem c) f R (K ∪ T);
  mk_tree : tree (mem c) top (table_addr mp) T;
  mk_apart : K ## T
}.

Lemma if_same_page {B} v w (x y : B) :
  (if decide (agree top v w) then x else y) = if decide (masked v = masked w) then x else y.
Proof.
  unfold top. destruct (decide (agree (levels - 1) v w)) as [Ha|Ha]; rewrite agree_page in Ha; [by rewrite decide_True|by rewrite decide_False].
Qed.

Lemma leaf_new p fl : addr_ok p -> Z.land fl ENTRY_FLAGS_MASK = fl -> leaf (entry_new p fl) = mapping p fl.
Proof. intros Hp Hf. unfold leaf, mapping. rewrite present_of_new, addr_of_new, flags_of_new by done. done. Qed.

(** What one operation leaves behind. *)
Definition op_done c f mp R K (op : MapOp) : Prop :=
  exists r m' f' T', run_op mp op (c, f) = (Ok r, (with_mem m' c, f')) /\ mapper_ok (with_mem m' c) f' mp R K T' /\
    spec_op (R ⊆ K ∪ T') op (space_of (mem c) mp) r (space_of m' mp) /\ same_dom (mem c) m' /\ forall x, x ∈ K -> same_frame (mem c) m' x.

Lemma map_done c f mp R K T virt phys fl :
  mapper_ok c f mp R K T -> op_ok (MapPhys virt phys fl) -> op_done c f mp R K (MapPhys virt phys fl).
Proof.
  intros [Hr Ht Hk] [Hp Hf]. destruct levels_top as [Hl _]. assert (HTU : T ⊆ K ∪ T) by (clear; set_solver).
  destruct (map_from_ok top (table_addr mp) T R (K ∪ T) virt (entry_new phys fl) c f ltac:(lia) ltac:(by apply new_fits) Hr Ht HTU)
    as (m' & f' & N & (HN & HN' & Hr' & Ht' & Hd' & Hs') & Hcase).
  assert (Hok : mapper_ok (with_mem m' c) f' mp R K (T ∪ N)).
  { split; [by rewrite union_assoc_L|done|clear -Hk HN'; set_solver]. }
  unfold op_done, run_op, map_phys, opt, mbind, M_bind. rewrite Hl, (root_table mp virt).
  destruct Hcase as [[-> Hx]|(-> & Hx & HR)]; eexists _, m', f', (T ∪ N); (split; [done|]); (split; [exact Hok|]); (split; [|split; [done|]]).
  - left. split; [done|]. intros w. unfold space_of. by rewrite Hx, if_same_page, leaf_new.
  - intros x Hx2. apply Hs'; clear -Hx2 Hk; set_solver.
  - right. split; [done|]. split; [done|]. by rewrite union_assoc_L.
  - intros x Hx2. apply Hs'; clear -Hx2 Hk; set_solver.
Qed.

Lemma unmap_done c f mp R K T virt : mapper_ok c f mp R K T -> op_done c f mp R K (UnmapPhys virt).
Proof.
  intros [Hr Ht Hk]. destruct levels_top as [Hl _]. assert (HTU : T ⊆ K ∪ T) by (clear; set_solver).
  unfold op_done, run_op, unmap_phys, opt, mbind, M_bind.
  assert (exists up, (if KERNEL_SEPARATE_TABLE then mret true else i ← index_of (root mp) virt; mret (i <? PAGE_ENTRIES / 2)) (c, f) = (Ok up, (c, f))) as [up Hup].
  { destruct KERNEL_SEPARATE_TABLE; [by exists true|]. unfold mbind, M_bind. rewrite (root_table mp virt), index_of_ok by lia. eauto. }
  unfold mbind, M_bind in Hup. rewrite Hup, Hl, (root_table mp virt).
  destruct (unmap_ok top (table_addr mp) T R (K ∪ T) virt up c f ltac:(lia) Hr Ht HTU) as (m' & f' & D & (HD & HpD & Hr' & Ht' & Hd' & Hs') & Hrun & Hx).
  rewrite Hrun. exists (RPair (space_of (mem c) mp virt)), m', f', (T ∖ D). split_and!.
  - unfold space_of, result_of. by destruct (xlate (mem c) top (table_addr mp) virt).
  - split; [|done|clear -Hk; set_solver]. replace (K ∪ T ∖ D) with ((K ∪ T) ∖ D) by (clear -Hk HD; set_solver). done.
  - split; [done|]. intros w. unfold space_of. by rewrite Hx, if_same_page.
  - done.
  - intros x Hx2. apply Hs'; clear -Hx2 Hk; set_solver.
Qed.

Lemma space_frames c f mp R K T q : mapper_ok c f mp R K T -> q ∈ T -> frame_ok q /\ mapped (mem c) (V q) PAGE_SIZE.
Proof. intros [Hr _ _] Hq. apply (used_frame _ _ _ _ q Hr). clear -Hq. set_solver. Qed.

Lemma translate_done c f mp R K T virt : mapper_ok c f mp R K T -> op_done c f mp R K (Translate virt).
Proof.
  intros Hok. pose proof Hok as [Hr Ht Hk]. destruct levels_top as [Hl _]. unfold op_done, run_op, translate, visit, opt, mbind, M_bind. rewrite Hl, (root_table mp virt).
  destruct (visit_ok top (table_addr mp) T virt c f (entry (F:=F)) ltac:(lia) Ht) as (r & -> & Hcase); [intros q; by eapply space_frames|].
  exists (RPair (space_of (mem c) mp virt)), (mem c), f, T. replace (with_mem (mem c) c) with c by (by destruct c).
  split_and!; [|done|done|done|done]. unfold space_of. destruct Hcase as [(-> & ->)|(b & q & Hq & -> & -> & _)]; [done|].
  destruct (space_frames _ _ _ _ _ _ q Hok Hq) as [Hqf Hqm]. rewrite entry_ok by (done || apply idx_range). unfold leaf, ok, address.
  by destruct (present (ent (mem c) q (idx 0 virt))).
Qed.

Lemma remap_done c f mp R K T virt fl : mapper_ok c f mp R K T -> op_ok (Remap virt fl) -> op_done c f mp R K (Remap virt fl).
Proof.
  intros Hok Hf. pose proof Hok as [Hr Ht Hk]. destruct levels_top as [Hl _].
  unfold op_done, run_op, remap, remap_with, remap_with_full, visit, opt, mbind, M_bind. rewrite Hl, (root_table mp virt).
  match goal with |- context [visit_from (S top) _ virt ?k (c, f)] =>
    destruct (visit_ok top (table_addr mp) T virt c f k ltac:(lia) Ht) as (r & -> & Hcase); [intros q; by eapply space_frames|] end.
  destruct Hcase as [(-> & Hx)|(b & q & Hq & -> & Hx & Hset)].
  { exists (RUnit None), (mem c), f, T. replace (with_mem (mem c) c) with c by (by destruct c). split_and!; [done|done| |done|done].
    cbn [spec_op]. unfold space_of. by rewrite Hx. }
  destruct (space_frames _ _ _ _ _ _ q Hok Hq) as [Hqf Hqm]. rewrite entry_ok by (done || apply idx_range). unfold ok, address.
  cbn [spec_op]. unfold space_of at 1. rewrite Hx. unfold leaf. destruct (present (ent (mem c) q (idx 0 virt))) eqn:Hpr; cycle 1.
  { exists (RUnit None), (mem c), f, T. replace (with_mem (mem c) c) with c by (by destruct c). by split_and!. }
  set (pa := entry_addr (ent (mem c) q (idx 0 virt))). assert (Hpa : addr_ok pa) by apply entry_addr_ok.
  destruct (Hset (entry_new pa fl) ltac:(by apply new_fits)) as [Ht' Hx']. unfold ignore, mret, M_ret. rewrite table_set_ok by (done || apply idx_range).
  exists (RUnit (Some tt)), (set_m (mem c) q (idx 0 virt) (entry_new pa fl)), f, T. split_and!.
  - done.
  - split; [|done|done]. apply rep_set; [done|clear -Hq; set_solver|apply idx_range].
  - done.
  - intros w. unfold space_of. by rewrite Hx', if_same_page, leaf_new.
  - apply set_m_dom; [done|apply idx_range].
  - intros x Hx2. apply set_m_frame; [done|apply (used_frame _ _ _ _ x Hr); clear -Hx2; set_solver|intros ->; by eapply Hk|apply idx_range].
Qed.

Lemma op_done_ok c f mp R K T op : mapper_ok c f mp R K T -> op_ok op -> op_done c f mp R K op.
Proof. intros Hok Hop. destruct op; eauto using map_done, unmap_done, translate_done, remap_done. Qed.

Lemma run_ops_ok ops c f mp R K T :
  mapper_ok c f mp R K T -> Forall op_ok ops ->
  exists rs m' f' T', run_ops mp ops (c, f) = (Ok rs, (with_mem m' c, f')) /\ mapper_ok (with_mem m' c) f' mp R K T' /\
    forall x, x ∈ K -> same_frame (mem c) m' x.
Proof.
  revert c f T. induction ops as [|op ops IH]; intros c f T Hok Hops; cbn [run_ops].
  { exists [], (mem c), f, T. replace (with_mem (mem c) c) with c by (by destruct c). done. }
  apply Forall_cons in Hops as [Hop Hops]. destruct (op_done_ok _ _ _ _ _ _ _ Hok Hop) as (r & m1 & f1 & T1 & Hrun & Hok1 & _ & _ & Hs1).
  destruct (IH _ _ _ Hok1 Hops) as (rs & m' & f' & T' & Hrest & Hok' & Hs'). rewrite with_mem_mem, with_mem_twice in *.
  exists (r :: rs), m', f', T'. unfold mbind, M_bind. rewrite Hrun, Hrest. split_and!; [done..|]. intros x Hx. eapply same_frame_trans; [by apply Hs1|by apply Hs'].
Qed.

(** C11. The page mapper refines a map from pages to frames and flags, for every
    page-table format and every frame allocator that keeps its promise: after
    any sequence of mappings, removals, flag changes and look-ups, each of
    which completes without a panic or a fault, a further operation returns
    what the map says and changes the translation of its own page only, to
    what was asked for; mapping fails only when every frame of the allocator
    is held, and then translates as before; and the tables of the mapper are
    the only frames that are taken, given back or written. *)
Theorem mapper_refines_map c f mp R K T ops op :
  mapper_ok c f mp R K T -> Forall op_ok (ops ++ [op]) ->
  exists rs m1 f1, run_ops mp ops (c, f) = (Ok rs, (with_mem m1 c, f1)) /\ (forall x, x ∈ K -> same_frame (mem c) m1 x) /\
  exists r m2 f2 T2, run_op mp op (with_mem m1 c, f1) = (Ok r, (with_mem m2 c, f2)) /\
    spec_op (R ⊆ K ∪ T2) op (space_of m1 mp) r (space_of m2 mp) /\ mapper_ok (with_mem m2 c) f2 mp R K T2 /\
    forall x, x ∈ K -> same_frame (mem c) m2 x.
Proof.
  intros Hok [Hops [Hop _]%Forall_cons]%Forall_app. destruct (run_ops_ok ops _ _ _ _ _ _ Hok Hops) as (rs & m1 & f1 & T1 & Hrun & Hok1 & Hs1).
  exists rs, m1, f1. split_and!; [done..|]. destruct (op_done_ok _ _ _ _ _ _ _ Hok1 Hop) as (r & m2 & f2 & T2 & Hr2 & Hok2 & Hsp & _ & Hs2).
  exists r, m2, f2, T2. rewrite with_mem_mem, with_mem_twice in *. split_and!; [done..|]. intros x Hx. eapply same_frame_trans; [by apply Hs1|by apply Hs2].
Qed.

End spaces.

Section witness.
#[local] Existing Instance X8664Arch.

Definition example_machine : Machine := mkMachine (zeroed 0x1000 0x200000) (0, 0).

Lemma example_areas_ok : areas_ok (mem example_machine) [mkArea 0x1000 0x200000].
Proof.
  split; [|split; [|split]].
  - apply Forall_cons; split; [|apply Forall_nil_2]. split; cbn [area_base area_size].
    + split; [lia|by vm_compute].
    + split; [lia|by vm_compute].
    + change PHYS_OFFSET with 0xFFFF_8000_0000_0000. lia.
    + apply mapped_zeroed. lia.
  - repeat constructor.
  - cbn [fmap list_fmap foldr area_size]. lia.
  - vm_compute. congruence.
Qed.

(** An allocator over those areas. *)
Lemma example_boot : exists c f R, rep (mem c) f R ∅ /\ 510 <= Z.of_nat (stdpp.base.size R).
Proof.
  destruct (buddy_boot example_machine _ _ example_areas_ok) as (m' & b & R & _ & Hr & _ & _ & Hsz).
  exists (with_mem m' example_machine), (mkBuddy (V 0x1000)), R. split; [done|]. etrans; [|exact Hsz]. vm_compute. congruence.
Qed.

Lemma user_space_shares_kernel_witness :
  exists (c : Machine) (f : BuddyAllocator) (R U Tk : gset Z), rep (mem c) f R U /\ tree (mem c) top (table_of Kernel (regs c)) Tk /\
  exists a m' f' T, create User (c, f) = (Ok (mkMapper User a), (with_mem m' c, f')) /\ tree m' top a T /\
    (forall v, xlate m' top a v = if decide (PAGE_ENTRIES / 2 <= idx top v) then xlate (mem c) top (table_of Kernel (regs c)) v else None).
Proof.
  destruct example_boot as (c & f & R & Hr & Hsz).
  destruct (fresh_frame c f R ∅ Hr) as [(q & m1 & f1 & _ & HqR & _ & Hr1 & Hz & _)|[_ HRU%subseteq_size]].
  2: { rewrite size_empty in HRU. lia. }
  destruct (tree_empty m1 top q) as [Hte _]; [intros j Hj; by rewrite ent_zero, present_0|].
  exists (mkMachine m1 (q, 0)), f1, R, ({[q]} ∪ ∅), {[q]}. split; [exact Hr1|]. split; [exact Hte|].
  destruct (user_space_shares_kernel R ({[q]} ∪ ∅) {[q]} (mkMachine m1 (q, 0)) f1 Hr1 eq_refl Hte ltac:(set_solver)) as [(a & m' & f' & T & H1 & _ & _ & _ & H2 & _ & H3 & _)|[_ HRU%subseteq_size]].
  - intros x b Hx Hb. cbn [mem] in Hb. rewrite (Hz x Hx) in Hb. simplify_eq. split; lia.
  - exists a, m', f', T. split; [exact H1|]. split; [exact H2|exact H3].
  - rewrite union_empty_r_L, size_singleton in HRU. lia.
Defined.

(** Page 0x4000 mapped to frame 0x5000, present and writable. *)
Lemma mapper_refines_map_witness :
  exists (c : Machine) (f : BuddyAllocator) (mp : PageMapper) (R T : gset Z), mapper_ok c f mp R ∅ T /\
  exists rs m1 f1, run_ops mp [MapPhys 0x4000 0x5000 3; Remap 0x4000 1] (c, f) = (Ok rs, (with_mem m1 c, f1)) /\
  exists m2 f2, run_op mp (Translate 0x4321) (with_mem m1 c, f1) = (Ok (RPair (space_of m1 mp 0x4321)), (with_mem m2 c, f2)).
Proof.
  destruct example_boot as (c & f & R & Hr & Hsz). destruct (create_kernel_ok R ∅ c f Hr) as (a & m' & f' & N & _ & _ & _ & Hr' & Ht & _).
  { change (stdpp.base.size ∅ + create_cost)%nat with 257%nat. lia. }
  assert (Hok : mapper_ok (with_mem m' c) f' (mkMapper Kernel a) R ∅ N) by (split; [exact Hr'|exact Ht|apply disjoint_empty_l]).
  exists (with_mem m' c), f', (mkMapper Kernel a), R, N. split; [exact Hok|].
  destruct (mapper_refines_map _ _ _ _ _ _ [MapPhys 0x4000 0x5000 3; Remap 0x4000 1] (Translate 0x4321) Hok)
    as (rs & m1 & f1 & Hrun & _ & r & m2 & f2 & T2 & Hop & [-> _] & _).
  - repeat (apply Forall_cons; split); [| |done|apply Forall_nil_2]; vm_compute; repeat split; congruence.
  - exists rs, m1, f1. split; [exact Hrun|]. exists m2, f2. exact Hop.
Defined.

End witness.

End RmmSpace.
