(* ===== verification/Paging.v ===== *)
(** * The kernel's page tables

    Models [src/memory/paging.rs] and the page-fault handler of
    [src/arch/x86_64/interrupts.rs].  Tables are reached through the direct
    map of physical memory, which [Cargo.toml] has the boot loader put where
    [RmmArch] has it.  Page-table entries, frames and [OffsetPageTable] are the
    [x86_64] crate's and come as an interface; invalidating the TLB has no
    effect here.  [BOOT_INFO], [FRAME_ALLOCATOR] and [KERNEL_MAPPER] are
    initialised, as they are once [init] has run. *)

From S2P Require Import Prelude Bytes Abi Capability Vma RmmArch RmmFrame FrameAlloc.
Import RmmArch RmmFrame FrameAlloc.

Module Paging.

(** ** The interface *)

(** The machine and the allocator behind [FRAME_ALLOCATOR]; [None] is
    [Err tt]. *)
Definition State : Type := Machine * option BuddyAllocator.
Abbreviation KM := (M State unit).

(** The result of [map_to]. *)
Inductive MapTo := Mapped | PageAlreadyMapped | MapFailed.

(** [e_entry a f] is the entry [set_addr(a, f)] writes, [e_frame e] is
    [frame().ok()], [phys_frame] is [PhysFrame::containing_address] of
    [PhysAddr::new]; [map_to root a ..] maps the page of the address [a], and
    [translate_addr root a] translates it, in the tables below [root]. *)
Class X86 := {
  e_flags : Z -> Z;
  e_addr : Z -> Z;
  e_frame : Z -> option Z;
  e_entry : Z -> Z -> Z;
  phys_frame : Z -> res unit Z;
  map_to : Z -> Z -> Z -> Z -> KM MapTo;
  translate_addr : Z -> Z -> KM Z
}.

(** [PageTableFlags] *)
Definition PRESENT : Z := Z.shiftl 1 0.
Definition WRITABLE : Z := Z.shiftl 1 1.
Definition USER_ACCESSIBLE : Z := Z.shiftl 1 2.
Definition HUGE_PAGE : Z := Z.shiftl 1 7.
Definition BIT_9 : Z := Z.shiftl 1 9.
Definition NO_EXECUTE : Z := Z.shiftl 1 63.

(** [contains] *)
Definition has (f bit : Z) : bool := Z.land f bit =? bit.

(** [f & !bit] *)
Definition without (f bit : Z) : Z := Z.land f (not_usize bit).

Section paging.
#[local] Existing Instance X8664Arch.
Context `{X : X86} `{VirtAddrOps} (kernel_root : Z).

Definition some_frame (o : option Z) : KM Z := match o with Some f => mret f | None => throw tt end.

(** [Option] and [Result] as values. *)
Definition try {E A} (m : M State E A) : KM (option A) := fun s =>
  match m s with
  | (Ok a, s') => (Ok (Some a), s')
  | (Err _, s') => (Ok None, s')
  | (Panic, s') => (Panic, s')
  | (Fault, s') => (Fault, s')
  end.

Definition is_some {A} (o : option A) : bool := match o with Some _ => true | None => false end.

Definition va {E} (a : Z) : M State E Z := match va_new a with Some v => mret v | None => lift Panic end.

(** [Cr3::read] *)
Definition cr3 : KM Z := fun s => (Ok (fst (regs (fst s))), s).

(** [frame_as_page_table(p)[i]] *)
Definition read_entry (p i : Z) : KM Z :=
  v ← phys_to_virt p;
  a ← add v (i * 8);
  read_usize a.

Definition write_entry (p i e : Z) : KM unit :=
  v ← phys_to_virt p;
  a ← add v (i * 8);
  write_usize a e.

Definition allocate_frame : KM Z := FrameAlloc.allocate_frame phys_frame.

Definition l_idx (vaddr shift : Z) : Z := Z.land (Z.shiftr vaddr shift) 0x1FF.

(** ** Walking *)

(** The leaf entry, by its table and index. *)
Definition get_leaf_entry_mut_in (root_frame vaddr : Z) : KM (Z * Z) :=
  e4 ← read_entry root_frame (l_idx vaddr 39);
  if negb (has (e_flags e4) PRESENT) then throw tt
  else
    l3 ← some_frame (e_frame e4);
    e3 ← read_entry l3 (l_idx vaddr 30);
    if negb (has (e_flags e3) PRESENT) then throw tt
    else
      l2 ← some_frame (e_frame e3);
      e2 ← read_entry l2 (l_idx vaddr 21);
      if negb (has (e_flags e2) PRESENT) then throw tt
      else if has (e_flags e2) HUGE_PAGE then throw tt
      else
        l1 ← some_frame (e_frame e2);
        e1 ← read_entry l1 (l_idx vaddr 12);
        if negb (has (e_flags e1) PRESENT) then throw tt else mret (l1, l_idx vaddr 12).

Definition get_leaf_entry_mut (vaddr : Z) : KM (Z * Z) :=
  l4_frame ← cr3;
  get_leaf_entry_mut_in l4_frame vaddr.

Definition get_phys_frame (root_frame vaddr : Z) : KM Z :=
  x ← get_leaf_entry_mut_in root_frame vaddr;
  e1 ← read_entry (fst x) (snd x);
  some_frame (e_frame e1).

(** ** Copy-on-write fork *)

(** [for i in i..i + n] *)
Fixpoint for_each (n : nat) (i : Z) (body : Z -> KM unit) : KM unit :=
  match n with
  | O => mret tt
  | S n => _ ← body i; for_each n (i + 1) body
  end.

(** The body of the loop over an L1 table. *)
Definition readonly_l1 (l1 l1_idx : Z) : KM unit :=
  e ← read_entry l1 l1_idx;
  if negb (has (e_flags e) PRESENT) then mret tt
  else if negb (has (e_flags e) USER_ACCESSIBLE) then mret tt
  else if has (e_flags e) WRITABLE then write_entry l1 l1_idx (e_entry (e_addr e) (without (e_flags e) WRITABLE))
  else mret tt.

Definition readonly_l2 (l2 l2_idx : Z) : KM unit :=
  e ← read_entry l2 l2_idx;
  if negb (has (e_flags e) PRESENT) then mret tt
  else if negb (has (e_flags e) USER_ACCESSIBLE) then mret tt
  else if has (e_flags e) HUGE_PAGE then mret tt
  else match e_frame e with
       | None => mret tt
       | Some l1 => for_each 512 0 (readonly_l1 l1)
       end.

Definition readonly_l3 (l3 l3_idx : Z) : KM unit :=
  e ← read_entry l3 l3_idx;
  if negb (has (e_flags e) PRESENT) then mret tt
  else if negb (has (e_flags e) USER_ACCESSIBLE) then mret tt
  else match e_frame e with
       | None => mret tt
       | Some l2 => for_each 512 0 (readonly_l2 l2)
       end.

Definition readonly_l4 (l4 l4_idx : Z) : KM unit :=
  e ← read_entry l4 l4_idx;
  if negb (has (e_flags e) PRESENT) then mret tt
  else if negb (has (e_flags e) USER_ACCESSIBLE) then mret tt
  else if has (e_flags e) HUGE_PAGE then mret tt
  else match e_frame e with
       | None => mret tt
       | Some l3 => for_each 512 0 (readonly_l3 l3)
       end.

Definition make_user_leaf_readonly (root_frame : Z) : KM unit := for_each 256 0 (readonly_l4 root_frame).

Definition cow_flags (f : Z) : Z := if has f WRITABLE then without f WRITABLE else f.

(** The body of the loop; [clone] is the recursive call, on the tables one
    level down. *)
Definition clone_entry (level : Z) (clone : Z -> KM Z) (src new i : Z) : KM unit :=
  e ← read_entry src i;
  if (level =? 4) && (256 <=? i) then write_entry new i e
  else if negb (has (e_flags e) PRESENT) then mret tt
  else if negb (has (e_flags e) USER_ACCESSIBLE) then mret tt
  else if (1 <? level) && has (e_flags e) HUGE_PAGE then write_entry new i (e_entry (e_addr e) (cow_flags (e_flags e)))
  else if level =? 1 then write_entry new i (e_entry (e_addr e) (cow_flags (e_flags e)))
  else match e_frame e with
       | None => mret tt
       | Some child =>
         r ← try (clone child);
         match r with
         | Some cloned => write_entry new i (e_entry cloned (e_flags e))
         | None => write_entry new i e
         end
       end.

Fixpoint clone_user_table_tree (level : nat) (src_frame : Z) : KM Z :=
  new_frame ← allocate_frame;
  _ ← for_each 512 0 (clone_entry (Z.of_nat level)
        (match level with O => fun _ => lift Panic | S l => clone_user_table_tree l end) src_frame new_frame);
  mret new_frame.

Definition cow_fork_parent : KM Z :=
  parent_l4_frame ← cr3;
  _ ← make_user_leaf_readonly parent_l4_frame;
  clone_user_table_tree 4 parent_l4_frame.

(** ** Mapping *)

Definition region_flags_to_page_flags (rf : Vma.MemoryRegionFlags) : Z :=
  let pf := PRESENT in
  let pf := if Vma.writable rf then Z.lor pf WRITABLE else pf in
  let pf := if Vma.user_accessible rf then Z.lor pf USER_ACCESSIBLE else pf in
  if negb (Vma.executable rf) then Z.lor pf NO_EXECUTE else pf.

Definition fill_frame (frame : Z) (init_data : option (list Z)) : KM unit :=
  p ← phys_to_virt frame;
  _ ← write_bytes p 0 4096;
  match init_data with
  | Some data => write p (take 4096 data)
  | None => mret tt
  end.

Definition map_or_replace (root page frame page_flags : Z) : M State string unit :=
  r ← map_err "" (map_to root page frame page_flags);
  match r with
  | Mapped => mret tt
  | PageAlreadyMapped => throw "Page already mapped"
  | MapFailed => throw "map failed"
  end.

Definition map_allocated_frame (root_frame : option Z) (page frame page_flags : Z) : M State string unit :=
  match root_frame with
  | Some root_frame => map_or_replace root_frame page frame page_flags
  | None => map_or_replace kernel_root page frame page_flags
  end.

(** What of the file goes to a page. *)
Definition elf_page_data {E} (binary : list Z) (file_offset file_size page_file_offset : Z) : res E (option (list Z)) :=
  if page_file_offset <? file_size then
    binary_offset ← uadd file_offset page_file_offset;
    if binary_offset <? zlen binary then
      let copy_len := Z.min (Z.min (file_size - page_file_offset) 4096) (zlen binary - binary_offset) in
      Ok (Some (sub binary_offset copy_len binary))
    else Ok None
  else Ok None.

Fixpoint map_elf_pages (n : nat) (page_index : Z) (root_frame : option Z) (start_addr page_flags : Z) (binary : list Z)
    (file_offset file_size : Z) : M State string unit :=
  match n with
  | O => mret tt
  | S n =>
    a ← lift (uadd start_addr (page_index * 4096));
    page_addr ← va a;
    frame ← map_err "OOM mapping ELF region" allocate_frame;
    init_data ← lift (elf_page_data binary file_offset file_size (page_index * 4096));
    _ ← map_err "" (fill_frame frame init_data);
    _ ← map_allocated_frame root_frame page_addr frame page_flags;
    map_elf_pages n (page_index + 1) root_frame start_addr page_flags binary file_offset file_size
  end.

Definition map_elf_region (root_frame : option Z) (start_addr size page_flags : Z) (binary : list Z) (file_offset file_size : Z)
    : M State string unit :=
  n ← lift (uadd size 4095);
  map_elf_pages (Z.to_nat (n / 4096)) 0 root_frame start_addr page_flags binary file_offset file_size.

Definition demand_page_for_root (root_frame : option Z) (fault_addr page_flags : Z) (init_data : option (list Z)) : KM bool :=
  o ← try allocate_frame;
  match o with
  | None => mret false
  | Some frame =>
    _ ← fill_frame frame init_data;
    r ← try (map_allocated_frame root_frame fault_addr frame page_flags);
    mret (is_some r)
  end.

Definition demand_page_for_frame (pt_frame fault_addr page_flags : Z) (init_data : option (list Z)) : KM bool :=
  demand_page_for_root (Some pt_frame) fault_addr page_flags init_data.

(** The copy is from the direct map at the faulting virtual address. *)
Definition handle_cow_fault (pt_frame fault_addr : Z) : KM bool :=
  o ← try allocate_frame;
  match o with
  | None => mret false
  | Some new_frame =>
    src ← phys_to_virt fault_addr;
    dst ← phys_to_virt new_frame;
    bs ← read src 0x1000;
    _ ← write dst bs;
    r ← map_to pt_frame fault_addr new_frame (Z.lor (Z.lor PRESENT WRITABLE) USER_ACCESSIBLE);
    mret (match r with Mapped => true | _ => false end)
  end.

(** *** Growing the heap *)

Definition brk_flags : Z := Z.lor (Z.lor (Z.lor PRESENT WRITABLE) USER_ACCESSIBLE) NO_EXECUTE.

Fixpoint brk_pages (n : nat) (root addr : Z) : M State string unit :=
  match n with
  | O => mret tt
  | S n =>
    page ← va addr;
    o ← map_err "" (try (translate_addr root page));
    _ ← (if is_some o then mret tt
         else
           frame ← map_err "OOM in brk" allocate_frame;
           r ← map_err "" (map_to root page frame brk_flags);
           match r with Mapped => mret tt | _ => throw "map_to failed in brk" end);
    brk_pages n root (addr + 4096)
  end.

Definition handle_brk (page_table_frame : option Z) (old_brk new_brk : Z) : M State string unit :=
  s ← lift (uadd old_brk 0xFFF);
  let start_page := Z.land s (not_usize 0xFFF) in
  let end_page := Z.land new_brk (not_usize 0xFFF) in
  if end_page <=? start_page then mret tt
  else
    root ← (match page_table_frame with Some root_frame => mret root_frame | None => map_err "" cr3 end);
    brk_pages (Z.to_nat ((end_page - start_page) / 4096)) root start_page.

(** *** Grants *)

Record Grant := mkGrant { g_start : Z; g_size : Z; g_flags : Vma.MemoryRegionFlags; g_file_offset : Z }.

Definition contains {E} (g : Grant) (addr : Z) : res E bool :=
  e ← uadd (g_start g) (g_size g);
  Ok ((g_start g <=? addr) && (addr <? e)).

(** [grants.iter().find(..)] *)
Fixpoint find_grant {E} (grants : list Grant) (addr : Z) : res E (option Grant) :=
  match grants with
  | [] => Ok None
  | g :: grants => b ← contains g addr; if (b : bool) then Ok (Some g) else find_grant grants addr
  end.

Fixpoint map_grant_pages (n : nat) (addr : Z) (g : Grant) (page_flags : Z) (binary_data : list Z) : M State string unit :=
  match n with
  | O => mret tt
  | S n =>
    page ← va addr;
    frame ← map_err "OOM mapping process region" allocate_frame;
    r ← map_err "" (map_to kernel_root page frame page_flags);
    _ ← (match r with Mapped => mret tt | _ => throw "map_to failed in map_process_regions" end);
    binary_offset ← lift (uadd (g_file_offset g) (addr - g_start g));
    let copy_size := Z.min 4096 (Z.max 0 (zlen binary_data - binary_offset)) in
    _ ← (if 0 <? copy_size then
           map_err "" (dst ← phys_to_virt frame; write dst (sub binary_offset copy_size binary_data))
         else mret tt);
    map_grant_pages n (addr + 4096) g page_flags binary_data
  end.

Fixpoint map_process_regions (grants : list Grant) (binary_data : list Z) : M State string unit :=
  match grants with
  | [] => mret tt
  | g :: grants =>
    _ ← lift (uadd (g_start g) (g_size g));
    _ ← map_grant_pages (Z.to_nat ((g_size g + 4095) / 4096)) (g_start g) g (region_flags_to_page_flags (g_flags g)) binary_data;
    map_process_regions grants binary_data
  end.

(** [demand_page] and [handle_page_fault], the handler over grants: the address
    of the root table is taken for a physical one. *)
Definition demand_page (root_page_table : Z) (grants : list Grant) (fault_addr : Z) : KM bool :=
  g ← lift (find_grant grants fault_addr);
  match g with
  | None => mret false
  | Some g =>
    o ← try allocate_frame;
    match o with
    | None => mret false
    | Some frame =>
      root ← lift (phys_frame root_page_table);
      r ← map_to root fault_addr frame (region_flags_to_page_flags (g_flags g));
      mret (match r with Mapped => true | _ => false end)
    end
  end.

Definition handle_page_fault (root_page_table : Z) (grants : list Grant) (fault_addr access_flags : Z) : KM bool :=
  g ← lift (find_grant grants fault_addr);
  match g with
  | None => mret false
  | Some g =>
    if has access_flags WRITABLE && negb (Vma.writable (g_flags g)) then mret false
    else if Vma.copy_on_write (g_flags g) && has access_flags WRITABLE then mret false
    else demand_page root_page_table grants fault_addr
  end.

(** ** Page faults *)

(** The process the fault occurred in. *)
Record FaultProc := mkFaultProc { vmas : list Vma.Vma; binary_data : list Z; page_table_frame : option Z }.

(** What the page gets from the process's file. *)
Definition fault_data {E} (p : FaultProc) (v : Vma.Vma) (page_addr : Z) : res E (option (list Z)) :=
  off ← usub page_addr (Vma.start v);
  match binary_data p with
  | [] => Ok None
  | _ :: _ =>
    if off <? Vma.file_size v then
      binary_offset ← uadd (Vma.file_offset v) off;
      let copy_len := Z.min (Vma.file_size v - off) 4096 in
      if binary_offset <? zlen (binary_data p) then
        let actual_len := Z.min copy_len (zlen (binary_data p) - binary_offset) in
        Ok (Some (sub binary_offset actual_len (binary_data p)))
      else Ok None
    else Ok None
  end.

(** [handle_fault_for] in the page-fault handler: bit 1 of the error code is a
    write, bit 4 an instruction fetch. *)
Definition handle_fault_for (p : FaultProc) (fault_addr error_code : Z) : KM bool :=
  let is_write := negb (Z.land error_code 2 =? 0) in
  let is_instruction_fetch := negb (Z.land error_code 16 =? 0) in
  match find (fun v => Vma.contains v fault_addr) (vmas p) with
  | None => mret false
  | Some v =>
    if is_write && negb (Vma.writable (Vma.flags v)) then mret false
    else if is_instruction_fetch && negb (Vma.executable (Vma.flags v)) then mret false
    else
      let page_flags := region_flags_to_page_flags (Vma.flags v) in
      init_data ← lift (fault_data p v (fault_addr - fault_addr mod 4096));
      demand_page_for_root (page_table_frame p) fault_addr page_flags init_data
  end.

End paging.

End Paging.
