(* ===== verification/Support.v ===== *)
(** * Kernel log, tracepoints and worker pool

    Models the ring of [src/klog.rs], the event buffers of
    [src/tracepoints.rs] and the job queue of [src/worker_pool.rs], whose
    workers and clients are steps of a relation.  Time stamps are arguments. *)

From S2P Require Import Prelude Bytes Path Vma RmmArch FrameAlloc Paging.

(** ** The log *)

Module Log.

Definition KLOG_CAPACITY : nat := 256.
Definition MSG_LEN : nat := 128.

Inductive Level := Error | Warn | Info | Debug.

Definition rank (l : Level) : Z := match l with Error => 0 | Warn => 1 | Info => 2 | Debug => 3 end.

Record LogEntry := mkEntry { level : Level; tick : Z; msg : list Z; msg_len : nat }.

Definition empty_entry : LogEntry := mkEntry Info 0 (zeros 128) 0.

Definition message (e : LogEntry) : string := default "<invalid utf8>"%string (Path.from_utf8 (take (msg_len e) (msg e))).

Record KernelLog := mkLog { entries : list LogEntry; head : nat; tail : nat; count : nat; min_level : Level }.

Definition new : KernelLog := mkLog (replicate KLOG_CAPACITY empty_entry) 0 0 0 Info.

(** The entry for a message: its first 128 bytes. *)
Definition entry_of (l : Level) (t : Z) (m : list Z) : LogEntry :=
  let len := Nat.min (length m) MSG_LEN in
  mkEntry l t (take len m ++ drop len (zeros 128)) len.

Definition log (l : Level) (t : Z) (m : list Z) (k : KernelLog) : KernelLog :=
  if rank (min_level k) <? rank l then k
  else
    let es := <[tail k := entry_of l t m]> (entries k) in
    let tl := ((tail k + 1) mod KLOG_CAPACITY)%nat in
    if (count k <? KLOG_CAPACITY)%nat then mkLog es (head k) tl (count k + 1) (min_level k)
    else mkLog es ((head k + 1) mod KLOG_CAPACITY) tl (count k) (min_level k).

(** [KlogIter] *)
Definition next (pos : nat) (k : KernelLog) : option LogEntry :=
  if (count k <=? pos)%nat then None else entries k !! ((head k + pos) mod KLOG_CAPACITY)%nat.

Definition iter (k : KernelLog) : list LogEntry := omap (fun pos => next pos k) (seq 0 (count k)).

(** What [dump_level] prints. *)
Definition dump_level (min : Level) (k : KernelLog) : list LogEntry := List.filter (fun e => rank (level e) <=? rank min) (iter k).

(** [BufWriter::write_str] for each piece in turn, 128 bytes in all. *)
Definition write_str (buf piece : list Z) : list Z := buf ++ take (MSG_LEN - length buf) piece.

Definition fmt_to_buf (pieces : list (list Z)) : string := default EmptyString (Path.from_utf8 (foldl write_str [] pieces)).

(** *** The ring holds the last entries *)

(** The last [n] elements. *)
Definition lastn {A} (n : nat) (l : list A) : list A := drop (length l - n) l.

Definition holds (k : KernelLog) (q : list LogEntry) : Prop :=
  ring_holds KLOG_CAPACITY (entries k) (head k) q /\ count k = length q /\ tail k = ((head k + length q) mod KLOG_CAPACITY)%nat.

Lemma iter_holds k q : holds k q -> iter k = q.
Proof.
  intros ((Hl & Hh & Hn & Hq) & Hc & _). unfold iter. rewrite Hc.
  assert (Hs : forall (j : nat) r, drop j q = r -> omap (fun pos => next pos k) (seq j (length r)) = r).
  { intros j r. revert j. induction r as [|x r IH]; intros j Hr; [done|]. cbn [length seq omap list_omap].
    assert (Hx : q !! j = Some x). { rewrite <-(Nat.add_0_r j), <-lookup_drop. by rewrite Hr. }
    pose proof (lookup_lt_Some _ _ _ Hx). unfold next at 1. rewrite Hc, (proj2 (Nat.leb_gt _ _)) by done. rewrite (Hq j x Hx).
    f_equal. apply IH. rewrite (drop_S _ _ _ Hx) in Hr. by injection Hr. }
  by apply (Hs 0%nat q).
Qed.

Lemma log_holds l t m k q :
  holds k q ->
  holds (log l t m k) (if rank (min_level k) <? rank l then q else lastn KLOG_CAPACITY (q ++ [entry_of l t m])) /\
  min_level (log l t m k) = min_level k.
Proof.
  intros (Hh & Hc & Ht). unfold log. destruct (rank (min_level k) <? rank l); [done|]. cbv zeta.
  pose proof Hh as (_ & Hlt & Hn & _). rewrite Hc. split; [|by destruct (_ <? _)%nat]. unfold lastn. rewrite length_app. cbn [length].
  destruct (Nat.ltb_spec (length q) KLOG_CAPACITY).
  - replace (length q + 1 - KLOG_CAPACITY)%nat with 0%nat by lia. rewrite drop_0, Ht. split; [by apply ring_push|].
    cbn [count tail head]. rewrite length_app. split; [done|]. by rewrite Nat.Div0.add_mod_idemp_l, Nat.add_assoc.
  - assert (Hq : length q = KLOG_CAPACITY) by lia. destruct q as [|e q]; [done|].
    replace (length (e :: q) + 1 - KLOG_CAPACITY)%nat with 1%nat by lia. cbn [app drop]. rewrite drop_0.
    assert (Htl : tail k = head k).
    { rewrite Ht, Hq, <-(Nat.mul_1_l KLOG_CAPACITY) at 1. rewrite Nat.Div0.mod_add. by apply Nat.mod_small. }
    rewrite Htl. split; [by apply ring_overwrite with e|]. cbn [count tail head]. rewrite length_app. cbn [length] in *.
    split; [lia|]. rewrite Nat.Div0.add_mod_idemp_l. replace (head k + 1 + (length q + 1))%nat with (head k + 1 + 1 * KLOG_CAPACITY)%nat by lia.
    by rewrite Nat.Div0.mod_add.
Qed.

(** One call of the logger. *)
Record call := mkCall { c_level : Level; c_tick : Z; c_msg : list Z }.

Definition logged (min : Level) (cs : list call) : list LogEntry :=
  map (fun c => entry_of (c_level c) (c_tick c) (c_msg c)) (List.filter (fun c => negb (rank min <? rank (c_level c))) cs).

Definition log_all (cs : list call) (k : KernelLog) : KernelLog := foldl (fun k c => log (c_level c) (c_tick c) (c_msg c) k) k cs.

Lemma lastn_app {A} n (l : list A) x : lastn n (lastn n l ++ [x]) = lastn n (l ++ [x]).
Proof.
  unfold lastn. rewrite !length_app, length_drop. cbn [length]. destruct (Nat.le_gt_cases (length l) n).
  - replace (length l - n)%nat with 0%nat by lia. rewrite drop_0. f_equal. lia.
  - destruct n as [|n]; [rewrite !drop_ge; rewrite ?length_app, ?length_drop; simpl; done || lia|].
    rewrite drop_app_le by (rewrite length_drop; lia). rewrite drop_drop, drop_app_le by lia. do 2 f_equal. lia.
Qed.

(** After any sequence of calls the log reads back, oldest first, the last
    256 messages that were not too detailed, each cut to 128 bytes. *)
Theorem log_keeps_last cs : iter (log_all cs new) = lastn KLOG_CAPACITY (logged Info cs).
Proof.
  apply iter_holds. assert (H : holds (log_all cs new) (lastn KLOG_CAPACITY (logged Info cs)) /\ min_level (log_all cs new) = Info).
  { induction cs as [|c cs [IH IHm]] using rev_ind.
    - split; [|done]. split; [apply ring_empty; [done|cbn; unfold KLOG_CAPACITY; lia]|done].
    - unfold log_all in *. rewrite foldl_app. cbn [foldl]. set (k := foldl _ new cs) in *.
      destruct (log_holds (c_level c) (c_tick c) (c_msg c) k _ IH) as [Hh Hm]. rewrite Hm. split; [|done]. rewrite IHm in Hh.
      unfold logged in *. rewrite List.filter_app, map_app. cbn [List.filter map app].
      destruct (rank Info <? rank (c_level c)); cbn [negb map app] in *; [by rewrite app_nil_r|]. by rewrite lastn_app in Hh. }
  apply H.
Qed.

(** A message that fits is formatted as it is. *)
Lemma fmt_to_buf_exact pieces :
  (length (concat pieces) <= MSG_LEN)%nat -> foldl write_str [] pieces = concat pieces.
Proof.
  assert (H : forall ps b, (length b + length (concat ps) <= MSG_LEN)%nat -> foldl write_str b ps = b ++ concat ps).
  { induction ps as [|p ps IH]; intros b Hb; [by rewrite app_nil_r|]. cbn [foldl concat] in *. rewrite length_app in Hb.
    unfold write_str at 2. rewrite take_ge by lia. rewrite IH by (rewrite length_app; lia). by rewrite app_assoc. }
  intros Hb. by apply (H pieces []).
Qed.

End Log.

(** ** Tracepoints *)

Module Trace.

Definition MAX_CPUS : nat := 32.

Inductive TracepointId :=
| PgdAlloc | PudAlloc | PmdAlloc | PteAlloc | CowForkStart | CowForkEnd | CowMakeReadonlyStart | CowMakeReadonlyEnd | CowCloneStart
| CowCloneEnd | TlbShootdownStart | TlbShootdownEnd | TlbShootdownSend | TlbShootdownComplete | PageFaultCow | PageFaultCowComplete.

Record TraceEvent := mkTrace { id : TracepointId; timestamp : Z; cpu_id : Z; data : Z }.

Record TraceBuffer := mkBuffer { buffer : list (list TraceEvent); buffer_size : Z; initialized : bool }.

Definition empty : TraceBuffer := mkBuffer (replicate MAX_CPUS []) 65536 false.

(** [init_tracepoints]: a frame for each processor, which nothing keeps, and
    an empty buffer.  A failure is a panic. *)
Section init.
Context `{X : Paging.X86} `{VirtAddrOps}.
#[local] Existing Instance RmmArch.X8664Arch.

Fixpoint init_cpus (cpus : list nat) (t : TraceBuffer) : M Paging.State unit TraceBuffer :=
  match cpus with
  | [] => mret t
  | cpu :: cpus =>
    o ← Paging.try Paging.allocate_frame;
    match o with
    | None => lift Panic
    | Some frame =>
      a ← lift (uadd RmmArch.PHYS_OFFSET frame);
      _ ← Paging.va a;
      init_cpus cpus (mkBuffer (<[cpu := []]> (buffer t)) (buffer_size t) (initialized t))
    end
  end.

Definition init_tracepoints (cpu_count : Z) (t : TraceBuffer) : M Paging.State unit TraceBuffer :=
  t' ← init_cpus (seq 0 (Z.to_nat (Z.min cpu_count 32))) t;
  mret (mkBuffer (buffer t') (buffer_size t') true).

End init.

(** The event as the processor [cpu] writes it at the time [cycles]. *)
Definition write_tracepoint (cpu cycles : Z) (i : TracepointId) (d : Z) (t : TraceBuffer) : TraceBuffer :=
  if negb (initialized t) then t
  else if 32 <=? cpu then t
  else
    let n := Z.to_nat cpu in
    let es := default [] (buffer t !! n) in
    if zlen es <? buffer_size t then mkBuffer (<[n := es ++ [mkTrace i cycles cpu d]]> (buffer t)) (buffer_size t) (initialized t) else t.

Definition collect_trace_data (t : TraceBuffer) : list TraceEvent := concat (take 32 (buffer t)).

(** [trace_tlb_shootdown_start]: the address and the number of processors in
    one word. *)
Definition trace_tlb_shootdown_start (cpu cycles addr target_cpu_count : Z) : TraceBuffer -> TraceBuffer :=
  write_tracepoint cpu cycles TlbShootdownStart (Z.lor addr (wrap 64 (Z.shiftl target_cpu_count 32))).

(** The events of one processor, written one after the other. *)
Definition write_all (cpu : Z) (ws : list (Z * TracepointId * Z)) (t : TraceBuffer) : TraceBuffer :=
  foldl (fun t '(c, i, d) => write_tracepoint cpu c i d t) t ws.

Definition event_of (cpu : Z) (w : Z * TracepointId * Z) : TraceEvent := let '(c, i, d) := w in mkTrace i c cpu d.

Lemma write_tracepoint_eq cpu c i d t es :
  initialized t = true -> 0 <= cpu < 32 -> buffer t !! Z.to_nat cpu = Some es ->
  write_tracepoint cpu c i d t =
    if zlen es <? buffer_size t then mkBuffer (<[Z.to_nat cpu := es ++ [mkTrace i c cpu d]]> (buffer t)) (buffer_size t) true else t.
Proof.
  intros Hi Hc He. unfold write_tracepoint. rewrite Hi. cbn [negb]. destruct (Z.leb_spec 32 cpu); [lia|]. cbv zeta. by rewrite He.
Qed.

(** The buffer of a processor keeps the first events that fit, in order. *)
Lemma write_all_keeps_first cpu ws t es :
  initialized t = true -> 0 <= cpu < 32 -> buffer t !! Z.to_nat cpu = Some es -> zlen es <= buffer_size t ->
  buffer (write_all cpu ws t) !! Z.to_nat cpu = Some (take (Z.to_nat (buffer_size t)) (es ++ (event_of cpu <$> ws))).
Proof.
  intros Hi Hc. revert t es Hi. induction ws as [|[[c i] d] ws IH]; intros t es Hi He Hs.
  - cbn. rewrite app_nil_r, take_ge; [done|]. unfold zlen in Hs. lia.
  - change (write_all cpu ((c, i, d) :: ws) t) with (write_all cpu ws (write_tracepoint cpu c i d t)).
    rewrite (write_tracepoint_eq _ _ _ _ _ es) by done. destruct (Z.ltb_spec (zlen es) (buffer_size t)) as [Hl|Hl].
    + rewrite (IH _ (es ++ [mkTrace i c cpu d])); cbn [buffer buffer_size initialized]; [|done| |].
      * by rewrite <- app_assoc.
      * apply list_lookup_insert_eq. by eapply lookup_lt_Some.
      * unfold zlen in *. rewrite length_app. cbn [length]. lia.
    + rewrite (IH t es) by done. unfold zlen in *. by rewrite !take_app_le by lia.
Qed.

End Trace.

(** ** The worker pool *)

Module Pool.

(** A job by its number, or the empty job that [shutdown] queues. *)
Inductive Job := Work (n : Z) | Sentinel.

(** Where a worker is: at the head of its loop, with a job it has popped,
    past the loop, gone, or ended by [cancel_kthread]. *)
Inductive Worker := Looping | Holding (j : Job) | Leaving | Gone | Cancelled.

(** [PoolInner] with the strong count of its [Arc], the workers and the jobs
    that were run. *)
Record Pool := mkPool { queue : list Job; live_workers : Z; strong : Z; workers : list Worker; ran : list Z }.

Definition set_queue (q : list Job) (p : Pool) : Pool := mkPool q (live_workers p) (strong p) (workers p) (ran p).
Definition set_worker (i : nat) (w : Worker) (p : Pool) : Pool := mkPool (queue p) (live_workers p) (strong p) (<[i := w]> (workers p)) (ran p).
Definition push (j : Job) (p : Pool) : Pool := set_queue (queue p ++ [j]) p.

(** [WorkerPool::new] of [n] workers when [k] threads can be spawned: no
    pool, a pool, or a pool whose threads it joins. *)
Inductive Built := Refused | Ready (p : Pool) | Joining (p : Pool).

Definition new_pool (n k : nat) : Built :=
  if (n =? 0)%nat then Refused
  else if (n <=? k)%nat then Ready (mkPool [] (Z.of_nat n) 2 (replicate n Looping) [])
  else if (k =? 0)%nat then Refused
  else Joining (mkPool (replicate k Sentinel) (Z.of_nat n) 2 (replicate k Looping) []).

Definition submit (j : Job) (p : Pool) : Pool := if live_workers p =? 0 then p else push j p.

Definition queue_len (p : Pool) : nat := length (queue p).

Definition worker_count (p : Pool) : nat := length (workers p).

(** [shutdown] up to the joins. *)
Definition shutdown (p : Pool) : Pool :=
  mkPool (queue p ++ replicate (worker_count p) Sentinel) 0 (strong p) (workers p) (ran p).

(** What [drop] does once its [shutdown] has returned: the raw pointer and
    then the field [inner] release their counts. *)
Definition drop_pool (p : Pool) : Pool := mkPool (queue p) (live_workers p) (strong p - 2) (workers p) (ran p).

Definition run_job (j : Job) (p : Pool) : Pool :=
  match j with Work n => mkPool (queue p) (live_workers p) (strong p) (workers p) (ran p ++ [n]) | Sentinel => p end.

(** The end of [worker_loop]: [fetch_sub], and the [Arc] is dropped. *)
Definition leave (p : Pool) : Pool := mkPool (queue p) (wrap 64 (live_workers p - 1)) (strong p - 1) (workers p) (ran p).

(** The steps of [worker_loop], each one access to the shared state. *)
Inductive worker_step (i : nat) (p : Pool) : Pool -> Prop :=
| step_pop j q : workers p !! i = Some Looping -> queue p = j :: q -> worker_step i p (set_worker i (Holding j) (set_queue q p))
| step_yield : workers p !! i = Some Looping -> queue p = [] -> worker_step i p p
| step_run j : workers p !! i = Some (Holding j) -> live_workers p <> 0 -> worker_step i p (set_worker i Looping (run_job j p))
| step_break j : workers p !! i = Some (Holding j) -> live_workers p = 0 -> worker_step i p (set_worker i Leaving p)
| step_leave : workers p !! i = Some Leaving -> worker_step i p (set_worker i Gone (leave p)).

(** [cancel_kthread] of a worker: it ends where it is, and neither the counter
    nor the strong count changes. *)
Definition cancel (i : nat) (p : Pool) : bool * Pool :=
  match workers p !! i with
  | Some Looping | Some (Holding _) | Some Leaving => (true, set_worker i Cancelled p)
  | _ => (false, p)
  end.

(** What happens to a pool while a thread waits in a join: the workers run,
    other threads submit jobs, whether they look at the counter now or have
    looked before, and other threads cancel workers.  The shared state is
    freed when its strong count reaches zero, and no step that touches it is
    defined then. *)
Inductive step (p : Pool) : Pool -> Prop :=
| by_worker i p' : 0 < strong p -> worker_step i p p' -> step p p'
| by_submit j : 0 < strong p -> step p (submit j p)
| by_push j : 0 < strong p -> step p (push j p)
| by_cancel i : step p (snd (cancel i p)).

Definition later : Pool -> Pool -> Prop := rtc step.

(** The next step of a worker touches the shared state after it was freed. *)
Definition touches_freed (p : Pool) : Prop :=
  strong p <= 0 /\
  exists i w, workers p !! i = Some w /\ match w with Looping | Holding _ | Leaving => True | _ => False end.

(** A worker that has not broken out of its loop. *)
Definition stays (w : Worker) : Prop := match w with Looping | Holding _ | Cancelled => True | _ => False end.

(** A worker that is not on its way out. *)
Definition settled (w : Worker) : Prop := match w with Leaving => False | _ => True end.

(** *** Counting the workers that are gone *)

Definition is_gone (w : Worker) : nat := match w with Gone => 1 | _ => 0 end.

Definition gone (p : Pool) : nat := sum_list (is_gone <$> workers p).

Lemma sum_insert ws i v w :
  ws !! i = Some v -> (sum_list (is_gone <$> <[i := w]> ws) + is_gone v = sum_list (is_gone <$> ws) + is_gone w)%nat.
Proof.
  revert i. induction ws as [|x ws IH]; intros [|i]; cbn; intros Hi; simplify_eq; [lia|]. rewrite <- !Nat.add_assoc. f_equal. exact (IH i Hi).
Qed.

Lemma gone_bound p : (gone p <= length (workers p))%nat.
Proof. unfold gone. induction (workers p) as [|[] ws IH]; cbn; lia. Qed.

Lemma gone_none p : Forall stays (workers p) -> gone p = 0%nat.
Proof. unfold gone. induction 1 as [|[] ws Hw _ IH]; cbn in *; done. Qed.

(** *** What a step does to the workers *)

(** The moves of one worker, by the value of the counter. *)
Definition move (live : Z) (v w : Worker) : Prop :=
  match v, w with
  | Looping, Holding _ | Leaving, Gone => True
  | Holding _, Looping => live <> 0
  | Holding _, Leaving => live = 0
  | (Looping | Holding _ | Leaving), Cancelled => True
  | _, _ => False
  end.

(** A step moves at most one worker, and the two counters change only when
    it is one that leaves. *)
Lemma step_shape p p' :
  step p p' ->
  (workers p' = workers p /\ live_workers p' = live_workers p /\ strong p' = strong p) \/
  exists i v w, workers p !! i = Some v /\ workers p' = <[i := w]> (workers p) /\ move (live_workers p) v w /\
    live_workers p' = match w with Gone => wrap 64 (live_workers p - 1) | _ => live_workers p end /\
    strong p' = match w with Gone => strong p - 1 | _ => strong p end.
Proof.
  intros [i q _ Hs|j _|j _|i]; [|left; unfold submit; by destruct (_ =? 0)|by left|].
  - destruct Hs as [j q Hi _|Hi _|j Hi Hl|j Hi Hl|Hi]; [|by left|destruct j| |]; right; by do 3 eexists.
  - unfold cancel. destruct (workers p !! i) as [[]|] eqn:Hi; try (by left); right; by do 3 eexists.
Qed.

(** The counter and the strong count say how many workers are gone, from a
    start where they did. *)
Record counted (base : Z) (p : Pool) : Prop := {
  counted_live : live_workers p = wrap 64 (base - Z.of_nat (gone p));
  counted_strong : strong p = 2 - Z.of_nat (gone p);
  counted_size : zlen (workers p) < 2 ^ 64
}.

Lemma counted_step base p p' : step p p' -> counted base p -> counted base p'.
Proof.
  intros Hs [Cl Cs Cz]. destruct (step_shape _ _ Hs) as [(Ew & El & Es)|(i & v & w & Hi & Ew & Hm & El & Es)].
  - split; unfold gone in *; by rewrite ?Ew, ?El, ?Es.
  - pose proof (sum_insert _ _ _ w Hi) as G. assert (is_gone v = 0%nat) as Ev by by destruct v, w.
    split; unfold gone, zlen in *; rewrite ?Ew, ?El, ?Es, ?length_insert; [| |done]; destruct w; cbn [is_gone] in G;
      try lia; rewrite Cl; unfold wrap; rewrite ?Zminus_mod_idemp_l; f_equal; lia.
Qed.

Lemma counted_later base p p' : later p p' -> counted base p -> counted base p'.
Proof. induction 1; eauto using counted_step. Qed.

(** While the counter is not zero and no worker is on its way out, none
    leaves and the counters stay what they are. *)
Lemma settled_step p p' :
  step p p' -> live_workers p <> 0 -> Forall settled (workers p) ->
  live_workers p' = live_workers p /\ strong p' = strong p /\ Forall settled (workers p') /\
  forall i w, workers p !! i = Some w -> stays w -> exists w', workers p' !! i = Some w' /\ stays w'.
Proof.
  intros Hs Hl Hf. destruct (step_shape _ _ Hs) as [(-> & -> & ->)|(i & v & w & Hi & -> & Hm & -> & ->)]; [by eauto 10|].
  pose proof (Forall_lookup_1 _ _ _ _ Hf Hi) as Hv. assert (stays w /\ w <> Gone) as [Hw Hg] by by destruct v, w.
  split; [by destruct w|]. split; [by destruct w|]. split; [apply Forall_insert; [done|by destruct w]|].
  intros k u Hk Hu. destruct (decide (i = k)) as [<-|Hne].
  - exists w. split; [|done]. apply list_lookup_insert_eq. by eapply lookup_lt_Some.
  - exists u. by rewrite list_lookup_insert_ne.
Qed.

Lemma settled_later p p' :
  later p p' -> live_workers p <> 0 -> Forall settled (workers p) ->
  live_workers p' = live_workers p /\ strong p' = strong p /\
  forall i w, workers p !! i = Some w -> stays w -> exists w', workers p' !! i = Some w' /\ stays w'.
Proof.
  induction 1 as [p|p q r Hs _ IH]; intros Hl Hf; [by eauto|].
  destruct (settled_step _ _ Hs Hl Hf) as (E1 & E2 & Hq & Hw). rewrite <- E1, <- E2.
  destruct IH as (I1 & I2 & I3); [congruence|done|]. split; [done|]. split; [done|].
  intros i w Hi Hst. destruct (Hw i w Hi Hst) as (u & Hu & Hsu). by apply (I3 i u).
Qed.

Lemma step_size p p' : step p p' -> length (workers p') = length (workers p).
Proof. intros Hs. destruct (step_shape _ _ Hs) as [(-> & _)|(i & v & w & _ & -> & _)]; [done|apply length_insert]. Qed.

Lemma later_size p p' : later p p' -> length (workers p') = length (workers p).
Proof. induction 1 as [p|p q r Hs _ IH]; [done|]. by rewrite IH, (step_size _ _ Hs). Qed.

Lemma stays_settled ws : Forall stays ws -> Forall settled ws.
Proof. intros H. apply (Forall_impl _ _ _ H). by intros []. Qed.

(** A pool whose workers all stay and whose counter is not zero goes on so. *)
Lemma all_stay p p' :
  later p p' -> live_workers p <> 0 -> Forall stays (workers p) ->
  live_workers p' = live_workers p /\ strong p' = strong p /\ Forall stays (workers p').
Proof.
  intros Hl Hn Hf. destruct (settled_later _ _ Hl Hn (stays_settled _ Hf)) as (E1 & E2 & Hw).
  split; [done|]. split; [done|]. apply Forall_lookup. intros i w' Hi.
  destruct (lookup_lt_is_Some_2 (workers p) i) as [w Hi']; [rewrite <- (later_size _ _ Hl); by eapply lookup_lt_Some|].
  destruct (Hw i w Hi' (Forall_lookup_1 _ _ _ _ Hf Hi')) as (u & Hu & Hst). congruence.
Qed.

(** *** Shutting down *)

Lemma shutdown_counted p : Forall stays (workers p) -> strong p = 2 -> zlen (workers p) < 2 ^ 64 -> counted 0 (shutdown p).
Proof. intros Hf Hs Hz. assert (gone (shutdown p) = 0%nat) as E by by apply gone_none. by split; rewrite ?E. Qed.

(** C37. Once one worker has left a pool that is shut down, and no other is
    past its loop, no other worker ever leaves.  The worker that left took
    one from the counter [shutdown] had set to zero, so the counter is
    2^64 - 1 and stays that; it released one of the two strong counts, so the
    shared state is not freed; and whatever the workers do and other threads
    submit or cancel, every other worker that was in its loop is still in it,
    running what it pops, the jobs [shutdown] queued to end it included, or
    was ended by [cancel_kthread].  So [shutdown], which joins every worker,
    waits for one that does not end by itself. *)
Theorem shutdown_never_returns p p1 p2 :
  Forall stays (workers p) -> strong p = 2 -> zlen (workers p) < 2 ^ 64 ->
  later (shutdown p) p1 -> gone p1 = 1%nat -> Forall settled (workers p1) -> later p1 p2 ->
  live_workers p2 = 2 ^ 64 - 1 /\ strong p2 = 1 /\
  forall i w, workers p1 !! i = Some w -> w <> Gone -> exists w', workers p2 !! i = Some w' /\ stays w'.
Proof.
  intros Hf Hs Hz Hl Hg Hst Hl2. destruct (counted_later 0 _ _ Hl (shutdown_counted p Hf Hs Hz)) as [Cl Cs _].
  rewrite Hg in Cl, Cs. destruct (settled_later _ _ Hl2) as (E1 & E2 & Hw); [rewrite Cl; done|done|].
  rewrite E1, E2, Cl, Cs. split; [done|]. split; [done|]. intros i w Hi Hne. apply (Hw i w Hi).
  pose proof (Forall_lookup_1 _ _ _ _ Hst Hi). by destruct w.
Qed.

(** When two workers have left, the shared state is freed. *)
Lemma freed_after_two p p1 :
  Forall stays (workers p) -> strong p = 2 -> zlen (workers p) < 2 ^ 64 -> later (shutdown p) p1 -> gone p1 = 2%nat -> strong p1 = 0.
Proof. intros Hf Hs Hz Hl Hg. destruct (counted_later 0 _ _ Hl (shutdown_counted p Hf Hs Hz)) as [_ -> _]. rewrite Hg. done. Qed.

(** A pool of two workers, one job queued. *)
Definition two : Pool := mkPool [Work 7] 2 2 [Looping; Looping] [].

Definition two_left : Pool := mkPool [Sentinel; Sentinel] (2 ^ 64 - 1) 1 [Gone; Looping] [].

Lemma two_leaves : later (shutdown two) two_left.
Proof.
  eapply rtc_l; [apply (by_worker _ 0); [done|by apply step_pop]|].
  eapply rtc_l; [apply (by_worker _ 0); [done|by eapply step_break]|].
  eapply rtc_l; [apply (by_worker _ 0); [done|by apply step_leave]|]. apply rtc_refl.
Qed.

(** The other worker pops the job that was to end it and runs it. *)
Definition two_on : Pool := mkPool [Sentinel] (2 ^ 64 - 1) 1 [Gone; Looping] [].

Lemma two_goes_on : later two_left two_on.
Proof.
  eapply rtc_l; [apply (by_worker _ 1); [done|by apply step_pop]|].
  eapply rtc_l; [apply (by_worker _ 1); [done|by eapply step_run]|]. apply rtc_refl.
Qed.

Lemma shutdown_never_returns_witness :
  live_workers two_on = 2 ^ 64 - 1 /\ strong two_on = 1 /\ exists w, workers two_on !! 1%nat = Some w /\ stays w.
Proof.
  destruct (shutdown_never_returns two two_left two_on) as (H1 & H2 & H3);
    [by repeat constructor|reflexivity|vm_compute; done|exact two_leaves|reflexivity|by repeat constructor|exact two_goes_on|].
  split; [exact H1|]. split; [exact H2|]. by apply (H3 1%nat Looping).
Defined.

(** Three workers, two of which see the counter at zero before either has
    taken from it: the shared state is freed while the third is in its loop. *)
Lemma three_freed :
  exists p, later (shutdown (mkPool [] 3 2 [Looping; Looping; Looping] [])) p /\ touches_freed p.
Proof.
  exists (mkPool [Sentinel] (2 ^ 64 - 2) 0 [Gone; Gone; Looping] []). split; [|split; [done|by exists 2%nat, Looping]].
  eapply rtc_l; [apply (by_worker _ 0); [done|by apply step_pop]|].
  eapply rtc_l; [apply (by_worker _ 1); [done|by apply step_pop]|].
  eapply rtc_l; [apply (by_worker _ 0); [done|by eapply step_break]|].
  eapply rtc_l; [apply (by_worker _ 1); [done|by eapply step_break]|].
  eapply rtc_l; [apply (by_worker _ 0); [done|by apply step_leave]|].
  eapply rtc_l; [apply (by_worker _ 1); [done|by apply step_leave]|]. apply rtc_refl.
Qed.

(** The job that was queued before [shutdown] is lost: the worker that leaves
    has dropped it. *)
Lemma shutdown_drops_job : exists p, later (shutdown two) p /\ ran p = [] /\ Work 7 ∉ queue p /\ Forall (fun w => w <> Holding (Work 7)) (workers p).
Proof.
  exists two_left. split; [apply two_leaves|]. split; [done|]. split; [cbn; set_solver|]. by repeat constructor.
Qed.

(** [new] joins workers that do not end when it runs out of threads after the
    first: no worker leaves while the counter is what it started with. *)
Lemma new_pool_never_returns n k p p' :
  new_pool n k = Joining p -> later p p' -> (0 < k)%nat /\ length (workers p') = k /\ Forall stays (workers p').
Proof.
  unfold new_pool. destruct (Nat.eqb_spec n 0); [done|]. destruct (n <=? k)%nat; [done|]. destruct (Nat.eqb_spec k 0); [done|].
  intros [= <-] Hl. destruct (all_stay _ _ Hl) as (_ & _ & Hf); [cbn; lia|by apply Forall_replicate|].
  split; [lia|]. split; [|done]. rewrite (later_size _ _ Hl). cbn [workers]. by rewrite length_replicate.
Qed.

(** Every worker that leaves releases a count that was never taken for it: a
    pool of [k] workers that are all gone has released [k] more than it
    took. *)
Lemma drop_releases_too_often n k p p' p'' :
  new_pool n k = Ready p -> Z.of_nat n < 2 ^ 64 -> later p p' -> later (shutdown p') p'' -> strong (drop_pool p'') = - Z.of_nat (gone p'').
Proof.
  unfold new_pool. destruct (Nat.eqb_spec n 0); [done|]. destruct (n <=? k)%nat; [|by destruct (k =? 0)%nat].
  intros [= <-] Hn Hl Hs. set (p := mkPool _ _ _ _ _) in Hl.
  assert (counted (Z.of_nat n) p) as C.
  { assert (gone p = 0%nat) as E by (apply gone_none; by apply Forall_replicate).
    split; rewrite ?E; [change (live_workers p) with (Z.of_nat n); rewrite wrap_small; [lia|unfold fits; lia]|done|].
    unfold zlen, p. cbn [workers]. by rewrite length_replicate. }
  destruct (all_stay _ _ Hl) as (_ & _ & Hf); [cbn; lia|by apply Forall_replicate|].
  apply (counted_later _ _ _ Hl) in C as [_ Cs Cz]. rewrite (gone_none _ Hf) in Cs.
  destruct (counted_later 0 _ _ Hs (shutdown_counted p' Hf Cs Cz)) as [_ E _]. cbn. lia.
Qed.

End Pool.
