(* ===== verification/PagingCow.v ===== *)
(** * Copy-on-write fork

    What [cow_fork_parent] of [Paging] does to the address space it forks and
    what the new one translates. *)

From S2P Require Import Prelude Bytes Abi Capability Vma RmmArch RmmFrame RmmBuddy RmmInit RmmMapper RmmWalk RmmMap RmmSpace FrameAlloc Paging.
Import RmmArch RmmFrame RmmBuddy RmmInit RmmWalk RmmMap Paging.

Module PagingCow.

(** ** What the crate documents of entries *)

(** The bits of an entry outside the address field. *)
Definition flags_ok (f : Z) : Prop := Z.land f 0xFFF0_0000_0000_0FFF = f.

Definition phys_ok (a : Z) : Prop := 0 <= a < 2 ^ 52 /\ a mod 4096 = 0.

Class X86Ok (X : X86) : Prop := {
  flags_valid e : flags_ok (e_flags e);
  addr_valid e : phys_ok (e_addr e);
  entry_valid a f : phys_ok a -> flags_ok f -> fits 64 (e_entry a f);
  flags_entry a f : phys_ok a -> flags_ok f -> e_flags (e_entry a f) = f;
  addr_entry a f : phys_ok a -> flags_ok f -> e_addr (e_entry a f) = a;
  flags_zero : e_flags 0 = 0;
  frame_spec e : e_frame e = if has (e_flags e) PRESENT && negb (has (e_flags e) HUGE_PAGE) then Some (e_addr e) else None;
  phys_frame_spec a : phys_ok a -> phys_frame a = Ok a
}.

(** ** Flags *)

Lemma testbit_without f b i : 0 <= i -> fits 64 f -> Z.testbit (without f b) i = Z.testbit f i && negb (Z.testbit b i).
Proof.
  intros Hi Hf. unfold without. rewrite Z.land_spec, testbit_not_usize by done. destruct (Z.ltb_spec i 64); [done|].
  by rewrite (testbit_above 64 f i).
Qed.

Lemma flags_fits f : flags_ok f -> fits 64 f.
Proof.
  intros Hf. assert (0 <= f) by (rewrite <-Hf; apply Z.land_nonneg; lia). apply fits_testbit; [lia| |done].
  intros i Hi. rewrite <-Hf, Z.land_spec, (testbit_above 64 0xFFF0_0000_0000_0FFF i) by (done || (split; lia)). apply andb_false_r.
Qed.

Lemma without_ok f b : flags_ok f -> flags_ok (without f b).
Proof.
  intros Hf. unfold flags_ok, without in *. rewrite <-Z.land_assoc, (Z.land_comm (not_usize b)), Z.land_assoc. by rewrite Hf.
Qed.

Lemma has_without f b k : Z.land k b = 0 -> flags_ok f -> 0 <= k -> has (without f b) k = has f k.
Proof.
  intros Hkb Hf Hk. unfold has. replace (Z.land (without f b) k) with (Z.land f k); [done|]. apply Z.bits_inj'. intros i Hi.
  rewrite !Z.land_spec, testbit_without by (done || by apply flags_fits).
  apply (f_equal (fun x => Z.testbit x i)) in Hkb. rewrite Z.land_spec, Z.testbit_0_l in Hkb.
  destruct (Z.testbit f i), (Z.testbit k i), (Z.testbit b i); done.
Qed.

Lemma has_without_same f b : flags_ok f -> 0 < b -> has (without f b) b = false.
Proof.
  intros Hf Hb. unfold has. replace (Z.land (without f b) b) with 0; [apply Z.eqb_neq; lia|]. symmetry. apply Z.bits_inj'. intros i Hi.
  rewrite Z.land_spec, Z.testbit_0_l, testbit_without by (done || by apply flags_fits).
  destruct (Z.testbit f i), (Z.testbit b i); done.
Qed.

Section cow.
#[local] Existing Instance X8664Arch.
Context `{X : X86} `{XO : !X86Ok X} `{VA : VirtAddrOps}.

Implicit Types (m : gmap Z Z) (c : Machine) (f : BuddyAllocator) (R U : gset Z) (G : gmap Z nat) (l : nat).

Lemma entries_512 : PAGE_ENTRIES = 512.
Proof. done. Qed.

Lemma idx_512 l v : 0 <= idx l v < 512.
Proof. rewrite <-entries_512. apply idx_range. Qed.

Lemma frame_phys q : frame_ok q -> phys_ok q.
Proof. apply FrameAlloc.frame_below. Qed.

Lemma pte_read_ok p i c (s : option BuddyAllocator) :
  frame_ok p -> mapped (mem c) (V p) PAGE_SIZE -> 0 <= i < 512 -> read_entry p i (c, s) = (Ok (ent (mem c) p i), (c, s)).
Proof. intros Hp Hm Hi. pose proof (entry_ok 0 p 0 i c s Hp Hm Hi) as He. unfold RmmMapper.entry, RmmMapper.entry_virt in He. cbn [RmmMapper.t_phys] in He.
  destruct (Z.ltb_spec i PAGE_ENTRIES) as [_|]; [|rewrite entries_512 in *; lia].
  rewrite <-He. unfold read_entry, mbind, M_bind. destruct (phys_to_virt p (c, s)) as [[v| | |] s']; done.
Qed.

Lemma pte_write_ok p i e c (s : option BuddyAllocator) :
  frame_ok p -> mapped (mem c) (V p) PAGE_SIZE -> 0 <= i < 512 ->
  write_entry p i e (c, s) = (Ok tt, (with_mem (set_m (mem c) p i e) c, s)).
Proof.
  intros Hp Hm Hi. pose proof (table_set_ok 0 p 0 i e c s Hp Hm Hi) as He. unfold RmmMapper.set_entry, RmmMapper.entry_virt in He. cbn [RmmMapper.t_phys] in He.
  destruct (Z.ltb_spec i PAGE_ENTRIES) as [_|]; [|rewrite entries_512 in *; lia].
  rewrite <-He. unfold write_entry, mbind, M_bind. destruct (phys_to_virt p (c, s)) as [[v| | |] s']; done.
Qed.

Lemma allocate_frame_ok c f R U :
  rep (mem c) f R U ->
  (exists q m' f', allocate_frame (c, Some f) = (Ok q, (with_mem m' c, Some f')) /\ q ∈ R /\ q ∉ U /\ rep m' f' R ({[q]} ∪ U) /\
     page_zero m' q /\ same_dom (mem c) m' /\ forall x, x ∈ U -> same_frame (mem c) m' x) \/
  (allocate_frame (c, Some f) = (Err tt, (c, Some f)) /\ R ⊆ U).
Proof.
  intros Hr. unfold allocate_frame, FrameAlloc.allocate_frame. cbn [fst snd]. destruct (fresh_frame c f R U Hr) as [(q & m' & f' & Hal & HqR & Hrest)|[Hal HR]];
    unfold allocate_one in Hal; rewrite Hal; [left|by right].
  exists q, m', f'. destruct (rep_frame _ _ _ _ q Hr HqR) as [Hf _]. rewrite phys_frame_spec by (by apply frame_phys). split; [done|]. by split.
Qed.

(** ** Tables by level *)

(** The number of entries of a table that belong to user space. *)
Definition limit l : Z := if decide (l = 3%nat) then 256 else 512.

(** [G] gives the level of each table; an entry of user space leads to a
    table one level down. *)
Definition typed m G : Prop :=
  forall p l i q, G !! p = Some (S l) -> 0 <= i < limit (S l) -> e_frame (ent m p i) = Some q -> G !! q = Some l.

(** The translation of [v] by the table [p] of level [l], and the one made of
    entries of user space only. *)
Fixpoint utrans m l (p v : Z) : option (Z * Z) :=
  let e := ent m p (idx l v) in
  match l with
  | O => if has (e_flags e) PRESENT then Some (e_addr e, e_flags e) else None
  | S l' => match e_frame e with Some q => utrans m l' q v | None => None end
  end.

Fixpoint user_leaf m l (p v : Z) : option (Z * Z) :=
  let e := ent m p (idx l v) in
  if has (e_flags e) USER_ACCESSIBLE then
    match l with
    | O => if has (e_flags e) PRESENT then Some (e_addr e, e_flags e) else None
    | S l' => match e_frame e with Some q => user_leaf m l' q v | None => None end
    end
  else None.

Definition low l (v : Z) : Prop := idx l v < limit l.

Lemma low_below l v : (l < 3)%nat -> low l v.
Proof. intros Hl. unfold low, limit. rewrite decide_False by lia. apply idx_512. Qed.

Lemma limit_range l : 0 < limit l <= 512.
Proof. unfold limit. case_decide; lia. Qed.

Lemma user_leaf_trans m l p v x : user_leaf m l p v = Some x -> utrans m l p v = Some x.
Proof.
  revert p. induction l as [|l IH]; intros p; cbn [user_leaf utrans]; destruct (has _ USER_ACCESSIBLE); try done.
  destruct (e_frame _); [apply IH|done].
Qed.

Lemma trans_frame m m' G l p v :
  typed m G -> G !! p = Some l -> low l v -> (l <= 3)%nat -> (forall q k, G !! q = Some k -> (k <= l)%nat -> same_frame m m' q) ->
  utrans m' l p v = utrans m l p v /\ user_leaf m' l p v = user_leaf m l p v.
Proof.
  intros Ht. revert p. induction l as [|l IH]; intros p Hp Hlow Hl Hs; cbn [utrans user_leaf];
    rewrite (ent_ext m m') by (apply idx_range || (eapply Hs; [done|lia])); [done|].
  destruct (e_frame (ent m p (idx (S l) v))) as [q|] eqn:Hq; [|done].
  assert (Hgq : G !! q = Some l) by (eapply Ht; [done| |done]; split; [apply idx_range|done]).
  destruct (IH q Hgq (low_below l v ltac:(lia)) ltac:(lia)) as [-> ->]; [|done]. intros x k Hx Hk. eapply Hs; [done|lia].
Qed.

(** ** Write protection *)

Definition ro (e : Z) : Z := e_entry (e_addr e) (without (e_flags e) WRITABLE).

Lemma ro_flags e : e_flags (ro e) = without (e_flags e) WRITABLE.
Proof. unfold ro. apply flags_entry; [apply addr_valid|apply without_ok, flags_valid]. Qed.

Lemma ro_addr e : e_addr (ro e) = e_addr e.
Proof. unfold ro. apply addr_entry; [apply addr_valid|apply without_ok, flags_valid]. Qed.

Lemma ro_has e k : Z.land k WRITABLE = 0 -> 0 <= k -> has (e_flags (ro e)) k = has (e_flags e) k.
Proof. intros Hk H0. rewrite ro_flags. apply has_without; [done|apply flags_valid|done]. Qed.

(** The tables as before but for write protection of entries of the lowest
    level. *)
Record ro_rel G m m' : Prop := {
  rr_dom : same_dom m m';
  rr_same p : frame_ok p -> G !! p <> Some 0%nat -> same_frame m m' p;
  rr_ent p i : G !! p = Some 0%nat -> 0 <= i < 512 -> ent m' p i = ent m p i \/ ent m' p i = ro (ent m p i)
}.

Definition clear (x : Z * Z) : Z * Z := (x.1, without x.2 WRITABLE).

Lemma ro_ro e : ro (ro e) = ro e.
Proof.
  unfold ro at 1. rewrite ro_addr, ro_flags. unfold ro. f_equal. unfold without. by rewrite <-Z.land_assoc, Z.land_diag.
Qed.

#[export] Instance ro_rel_preorder G : PreOrder (ro_rel G).
Proof.
  split.
  - intros m. split; [done..|by left].
  - intros m1 m2 m3 [D1 S1 E1] [D2 S2 E2]. split; [by eapply same_dom_trans|intros; eapply same_frame_trans; eauto|].
    intros p i Hp Hi. destruct (E1 p i Hp Hi) as [H1|H1], (E2 p i Hp Hi) as [H2|H2]; rewrite H2, H1; [by left|by right|by right|].
    right. apply ro_ro.
Qed.

Lemma ro_typed G m m' : (forall p l, G !! p = Some l -> frame_ok p) -> ro_rel G m m' -> typed m G -> typed m' G.
Proof.
  intros Hf Hr Ht p l i q Hp Hi He. eapply Ht; [done..|]. rewrite <-He. f_equal. symmetry. apply ent_ext; [destruct (limit_range (S l)); rewrite entries_512; lia|].
  eapply rr_same; [done|by eapply Hf|congruence].
Qed.

Lemma ro_leaf G m m' l p v :
  (forall p l, G !! p = Some l -> frame_ok p) -> ro_rel G m m' -> typed m G -> G !! p = Some l -> low l v -> (l <= 3)%nat ->
  (utrans m' l p v = utrans m l p v \/ utrans m' l p v = clear <$> utrans m l p v) /\
  (user_leaf m' l p v = user_leaf m l p v \/ user_leaf m' l p v = clear <$> user_leaf m l p v).
Proof.
  intros Hf Hr Ht. revert p. induction l as [|l IH]; intros p Hp Hlow Hl; cbn [utrans user_leaf].
  - destruct (rr_ent _ _ _ Hr p (idx 0 v) Hp (idx_512 0 v)) as [->| ->]; [split; by left|]. rewrite !ro_has by done. rewrite ro_addr, ro_flags.
    destruct (has _ USER_ACCESSIBLE), (has _ PRESENT); split; done || by right.
  - rewrite (ent_ext m m') by (apply idx_range || (eapply rr_same; [done|by eapply Hf|congruence])).
    destruct (e_frame (ent m p (idx (S l) v))) as [q|] eqn:Hq; [|destruct (has _ _); split; by left].
    assert (Hgq : G !! q = Some l) by (eapply Ht; [done| |done]; split; [apply idx_range|done]).
    destruct (IH q Hgq (low_below l v ltac:(lia)) ltac:(lia)) as [H1 H2]. split; [done|]. destruct (has _ _); [done|by left].
Qed.

Lemma for_each_inv (P : Z -> State -> Prop) n i body s :
  (forall j s, i <= j < i + Z.of_nat n -> P j s -> exists s', body j s = (Ok tt, s') /\ P (j + 1) s') -> P i s ->
  exists s', for_each n i body s = (Ok tt, s') /\ P (i + Z.of_nat n) s'.
Proof.
  revert i s. induction n as [|n IH]; intros i s Hb Hs; cbn [for_each].
  { exists s. by rewrite Z.add_0_r. }
  destruct (Hb i s ltac:(lia) Hs) as (s1 & Hrun & Hs1). unfold mbind, M_bind. rewrite Hrun.
  destruct (IH (i + 1) s1) as (s' & -> & Hs'); [intros j t Hj; apply Hb; lia|done|]. exists s'. split; [done|].
  by replace (i + Z.of_nat (S n)) with (i + 1 + Z.of_nat n) by lia.
Qed.

Lemma for_each_ext n i body body' s : (forall j t, body j t = body' j t) -> for_each n i body s = for_each n i body' s.
Proof.
  intros Hb. revert i s. induction n as [|n IH]; intros i s; cbn [for_each]; [done|]. unfold mbind, M_bind. rewrite Hb.
  destruct (body' i s) as [[[]| | |] s']; done.
Qed.

(** The four loops of [make_user_leaf_readonly], by level. *)
Definition ro_body (l : nat) (below : Z -> KM unit) (p i : Z) : KM unit :=
  e ← read_entry p i;
  if negb (has (e_flags e) PRESENT) then mret tt
  else if negb (has (e_flags e) USER_ACCESSIBLE) then mret tt
  else match l with
       | O => if has (e_flags e) WRITABLE then write_entry p i (ro e) else mret tt
       | S _ => match e_frame e with None => mret tt | Some q => below q end
       end.

Fixpoint ro_loop (l : nat) (p : Z) : KM unit :=
  for_each (Z.to_nat (limit l)) 0 (ro_body l (match l with O => fun _ => mret tt | S l' => ro_loop l' end) p).

Lemma bind_ext {A B} (m : KM A) (f g : A -> KM B) s : (forall a t, f a t = g a t) -> (m ≫= f) s = (m ≫= g) s.
Proof. intros H. unfold mbind, M_bind. destruct (m s) as [[a| | |] s']; [apply H|done..]. Qed.

Lemma huge_frame e (k : Z -> KM unit) t :
  (if has (e_flags e) HUGE_PAGE then mret tt else match e_frame e with None => mret tt | Some q => k q end) t =
  match e_frame e with None => mret tt | Some q => k q end t.
Proof. rewrite frame_spec. destruct (has (e_flags e) HUGE_PAGE); [|done]. by rewrite andb_false_r. Qed.

Lemma make_readonly_eq root s : make_user_leaf_readonly root s = ro_loop 3 root s.
Proof.
  assert (H1 : forall p t, for_each 512 0 (readonly_l1 p) t = ro_loop 0 p t) by done.
  assert (H2 : forall p t, for_each 512 0 (readonly_l2 p) t = ro_loop 1 p t).
  { intros p t. apply for_each_ext. intros j u. unfold readonly_l2, ro_body. apply bind_ext. intros e w.
    destruct (has (e_flags e) PRESENT); [|done]. destruct (has (e_flags e) USER_ACCESSIBLE); [|done]. cbn [negb].
    rewrite (huge_frame e (fun q => for_each 512 0 (readonly_l1 q)) w). destruct (e_frame e); [apply H1|done]. }
  assert (H3 : forall p t, for_each 512 0 (readonly_l3 p) t = ro_loop 2 p t).
  { intros p t. apply for_each_ext. intros j u. unfold readonly_l3, ro_body. apply bind_ext. intros e w.
    destruct (has (e_flags e) PRESENT); [|done]. destruct (has (e_flags e) USER_ACCESSIBLE); [|done]. cbn [negb].
    destruct (e_frame e); [apply H2|done]. }
  unfold make_user_leaf_readonly. apply for_each_ext. intros j u. unfold readonly_l4, ro_body. apply bind_ext. intros e w.
  destruct (has (e_flags e) PRESENT); [|done]. destruct (has (e_flags e) USER_ACCESSIBLE); [|done]. cbn [negb].
  rewrite (huge_frame e (fun q => for_each 512 0 (readonly_l3 q)) w). destruct (e_frame e); [apply H3|done].
Qed.

(** Tables in use by the kernel. *)
Record tables m f R U G : Prop := {
  tb_rep : rep m f R U;
  tb_held p l : G !! p = Some l -> p ∈ U;
  tb_typed : typed m G;
  tb_fits p l i : G !! p = Some l -> 0 <= i < 512 -> fits 64 (ent m p i)
}.

Lemma tables_frame m f R U G p l : tables m f R U G -> G !! p = Some l -> frame_ok p /\ mapped m (V p) PAGE_SIZE.
Proof. intros Ht Hp. eapply used_frame; [apply (tb_rep _ _ _ _ _ Ht)|by eapply tb_held]. Qed.

Lemma tables_ro m m' f R U G : tables m f R U G -> ro_rel G m m' -> rep m' f R U -> tables m' f R U G.
Proof.
  intros Ht Hr Hrep. split; [done|by apply (tb_held _ _ _ _ _ Ht)| |].
  - eapply ro_typed; [|exact Hr|by eapply tb_typed]. intros p l Hp. by eapply tables_frame.
  - intros p l i Hp Hi. pose proof (tb_fits _ _ _ _ _ Ht p l i Hp Hi) as Hfit. destruct (decide (G !! p = Some 0%nat)) as [H0|H0].
    + destruct (rr_ent _ _ _ Hr p i H0 Hi) as [->| ->]; [done|]. apply entry_valid; [apply addr_valid|apply without_ok, flags_valid].
    + rewrite (ent_ext m m'); [done|done|]. eapply rr_same; [done|by eapply tables_frame|done].
Qed.

(** No user page below [p] is writable. *)
Definition protected m l (p v : Z) : Prop := forall a fl, user_leaf m l p v = Some (a, fl) -> has fl WRITABLE = false.

Lemma has_clear fl : flags_ok fl -> has (without fl WRITABLE) WRITABLE = false.
Proof. intros. by apply has_without_same. Qed.

Lemma user_leaf_flags m l p v a fl : user_leaf m l p v = Some (a, fl) -> flags_ok fl.
Proof.
  revert p. induction l as [|l IH]; intros p; cbn [user_leaf]; destruct (has _ USER_ACCESSIBLE); try done.
  - destruct (has _ PRESENT); [|done]. intros [= _ <-]. apply flags_valid.
  - destruct (e_frame _); [apply IH|done].
Qed.

Lemma protected_ro G m m' f R U l p v :
  tables m f R U G -> ro_rel G m m' -> G !! p = Some l -> low l v -> (l <= 3)%nat -> protected m l p v -> protected m' l p v.
Proof.
  intros Ht Hr Hp Hlow Hl Hpr a fl Hu.
  destruct (ro_leaf G m m' l p v) as [_ [Heq|Heq]]; [by intros; eapply tables_frame|done|by eapply tb_typed|done..| |]; rewrite Heq in Hu; [by eapply Hpr|].
  destruct (user_leaf m l p v) as [[a0 fl0]|] eqn:Hu0; [|done]. injection Hu as <- <-. apply has_clear. by eapply user_leaf_flags.
Qed.

(** One entry of the lowest level. *)
Lemma ro_leaf_ok p i c f R U G :
  tables (mem c) f R U G -> G !! p = Some 0%nat -> 0 <= i < 512 ->
  exists m', ro_body 0 (fun _ => mret tt) p i (c, Some f) = (Ok tt, (with_mem m' c, Some f)) /\ ro_rel G (mem c) m' /\ rep m' f R U /\
    (has (e_flags (ent m' p i)) PRESENT = true -> has (e_flags (ent m' p i)) USER_ACCESSIBLE = true -> has (e_flags (ent m' p i)) WRITABLE = false).
Proof.
  intros Ht Hp Hi. destruct (tables_frame _ _ _ _ _ _ _ Ht Hp) as [Hf Hm]. unfold ro_body, mbind, M_bind. rewrite pte_read_ok by done.
  set (e := ent (mem c) p i). assert (Hc : with_mem (mem c) c = c) by (by destruct c).
  assert (Hsame : (has (e_flags e) PRESENT = true -> has (e_flags e) USER_ACCESSIBLE = true -> has (e_flags e) WRITABLE = false) ->
    exists m', (Ok tt, (c, Some f)) = (Ok (E:=unit) tt, (with_mem m' c, Some f)) /\ ro_rel G (mem c) m' /\ rep m' f R U /\
    (has (e_flags (ent m' p i)) PRESENT = true -> has (e_flags (ent m' p i)) USER_ACCESSIBLE = true -> has (e_flags (ent m' p i)) WRITABLE = false)).
  { intros Hx. exists (mem c). rewrite Hc. split_and!; [done|done|by eapply tb_rep|done]. }
  destruct (has (e_flags e) PRESENT) eqn:H1; [|by apply Hsame]. destruct (has (e_flags e) USER_ACCESSIBLE) eqn:H2; [|by apply Hsame]. cbn [negb].
  destruct (has (e_flags e) WRITABLE) eqn:H3; [|by apply Hsame]. rewrite pte_write_ok by done.
  assert (Hro : fits 64 (ro e)) by (apply entry_valid; [apply addr_valid|apply without_ok, flags_valid]).
  exists (set_m (mem c) p i (ro e)). split_and!; [done| | |].
  - split; [by apply set_m_dom| |].
    + intros q Hq Hne. apply set_m_frame; [done..|congruence|done].
    + intros q j Hq Hj. destruct (decide (q = p)) as [->|Hne].
      * rewrite ent_set by done. destruct (decide (j = i)) as [->|]; [by right|by left].
      * left. apply ent_ext; [done|]. apply set_m_frame; [done|by eapply tables_frame|done..].
  - apply rep_set; [by eapply tb_rep|by eapply tb_held|done].
  - rewrite ent_set, decide_True by done. intros _ _. rewrite ro_flags. apply has_clear, flags_valid.
Qed.

(** What one round leaves behind. *)
Definition ro_round l p m f R U G (m' : gmap Z Z) (j : Z) : Prop :=
  ro_rel G m m' /\ rep m' f R U /\ forall v, low l v -> idx l v = j -> protected m' l p v.

Lemma ro_rounds l p c f R U G body :
  (l <= 3)%nat -> tables (mem c) f R U G -> G !! p = Some l ->
  (forall j m1, 0 <= j < limit l -> tables m1 f R U G ->
    exists m2, body j (with_mem m1 c, Some f) = (Ok tt, (with_mem m2 c, Some f)) /\ ro_round l p m1 f R U G m2 j) ->
  exists m', for_each (Z.to_nat (limit l)) 0 body (c, Some f) = (Ok tt, (with_mem m' c, Some f)) /\ ro_rel G (mem c) m' /\ rep m' f R U /\
    forall v, low l v -> protected m' l p v.
Proof.
  intros Hl Ht Hp Hbody. pose proof (limit_range l).
  destruct (for_each_inv (fun j s => exists m', s = (with_mem m' c, Some f) /\ ro_rel G (mem c) m' /\ rep m' f R U /\
    forall v, low l v -> idx l v < j -> protected m' l p v) (Z.to_nat (limit l)) 0 body (c, Some f)) as (s' & Hrun & m' & -> & Hr & Hrep & Hpr).
  - intros j s Hj (m1 & -> & Hr1 & Hrep1 & Hpr1). assert (Ht1 : tables m1 f R U G) by (by eapply tables_ro).
    destruct (Hbody j m1 ltac:(lia) Ht1) as (m2 & Hrun & Hr2 & Hrep2 & Hpr2). exists (with_mem m2 c, Some f). split; [done|]. exists m2.
    split_and!; [done|by etrans|done|]. intros v Hlow Hv. destruct (decide (idx l v = j)); [by apply Hpr2|].
    eapply protected_ro; [exact Ht1|done..|]. apply Hpr1; [done|lia].
  - exists (mem c). split_and!; [by destruct c|done|by eapply tb_rep|]. intros v _ Hv. pose proof (idx_512 l v). lia.
  - exists m'. split_and!; [done..|]. intros v Hlow. apply Hpr; [done|]. unfold low in Hlow. lia.
Qed.

Lemma ro_loop_ok l p c f R U G :
  (l <= 3)%nat -> tables (mem c) f R U G -> G !! p = Some l ->
  exists m', ro_loop l p (c, Some f) = (Ok tt, (with_mem m' c, Some f)) /\ ro_rel G (mem c) m' /\ rep m' f R U /\
    forall v, low l v -> protected m' l p v.
Proof.
  revert p c. induction l as [|l IH]; intros p c Hl Ht Hp; (apply (ro_rounds _ p c f R U G); [done..|]); intros j m1 Hj Ht1.
  - destruct (ro_leaf_ok p j (with_mem m1 c) f R U G Ht1 Hp Hj) as (m2 & Hrun & Hr2 & Hrep & Hw). exists m2. split; [done|]. split_and!; [done..|].
    intros v _ <- a fl. cbn [user_leaf]. destruct (has (e_flags (ent m2 p (idx 0 v))) USER_ACCESSIBLE) eqn:HU; [|done].
    destruct (has (e_flags (ent m2 p (idx 0 v))) PRESENT) eqn:HP; [|done]. intros [= _ <-]. by apply Hw.
  - pose proof (limit_range (S l)) as Hlim. destruct (tables_frame _ _ _ _ _ _ _ Ht1 Hp) as [Hf Hm]. unfold ro_body, mbind, M_bind.
    rewrite pte_read_ok by (done || lia). rewrite with_mem_mem.
    set (e := ent m1 p j). assert (Hskip : has (e_flags e) USER_ACCESSIBLE = false \/ e_frame e = None ->
      exists m2, (Ok tt, (with_mem m1 c, Some f)) = (Ok (E:=unit) tt, (with_mem m2 c, Some f)) /\ ro_round (S l) p m1 f R U G m2 j).
    { intros Hx. exists m1. split; [done|]. split_and!; [done|by eapply tb_rep|]. intros v Hlow Hv a fl. cbn [user_leaf]. rewrite Hv. fold e.
      destruct Hx as [->| ->]; [done|]. by destruct (has _ _). }
    pose proof (frame_spec e) as Hfs. destruct (has (e_flags e) PRESENT); cbn [negb andb] in *; [|apply Hskip; by right].
    destruct (has (e_flags e) USER_ACCESSIBLE) eqn:HU; cbn [negb]; [|apply Hskip; by left].
    destruct (e_frame e) as [q|] eqn:Hq; [|apply Hskip; by right]. clear Hskip.
    assert (Hgq : G !! q = Some l) by (eapply (tb_typed _ _ _ _ _ Ht1); [done| |done]; lia).
    destruct (IH q (with_mem m1 c) ltac:(lia) Ht1 Hgq) as (m2 & Hrun & Hr2 & Hrep & Hpr). rewrite with_mem_mem, with_mem_twice in *. exists m2. split; [done|].
    split_and!; [done..|]. intros v Hlow Hv a fl. cbn [user_leaf]. rewrite Hv. rewrite (ent_ext m1 m2 p j) by ((rewrite entries_512; lia) || (eapply rr_same; [done..|congruence])).
    fold e. rewrite HU, Hq. apply Hpr. apply low_below. lia.
Qed.

(** ** Copying the tables *)

Lemma cow_flags_eq fl : flags_ok fl -> cow_flags fl = without fl WRITABLE.
Proof.
  intros Hf. unfold cow_flags. destruct (has fl WRITABLE) eqn:Hw; [done|]. apply Z.bits_inj'. intros i Hi.
  rewrite testbit_without by (done || by apply flags_fits). change WRITABLE with (2 ^ 1) in *. rewrite Z.pow2_bits_eqb by lia.
  destruct (Z.eqb_spec 1 i) as [<-|]; [|by rewrite andb_true_r]. unfold has in Hw. apply Z.eqb_neq in Hw.
  destruct (Z.testbit fl 1) eqn:Hb; [|done]. destruct Hw. apply Z.bits_inj'. intros k Hk. rewrite Z.land_spec, Z.pow2_bits_eqb by lia.
  destruct (Z.eqb_spec 1 k) as [<-|]; [by rewrite Hb|apply andb_false_r].
Qed.

Lemma frame_zero : e_frame 0 = None.
Proof. rewrite frame_spec, flags_zero. done. Qed.

(** Writing one entry of the table [q]. *)
Lemma set_tables m f R U G q l j e :
  tables m f R U G -> G !! q = Some l -> 0 <= j < 512 -> fits 64 e ->
  (forall l' x, l = S l' -> j < limit l -> e_frame e = Some x -> G !! x = Some l') ->
  tables (set_m m q j e) f R U G /\ same_dom m (set_m m q j e) /\ (forall x, frame_ok x -> x <> q -> same_frame m (set_m m q j e) x).
Proof.
  intros Ht Hq Hj He Hch. destruct (tables_frame _ _ _ _ _ _ _ Ht Hq) as [Hf Hm].
  assert (Hs : forall x, frame_ok x -> x <> q -> same_frame m (set_m m q j e) x) by (intros x Hx Hne; by apply set_m_frame).
  split; [|split; [by apply set_m_dom|done]]. split.
  - apply rep_set; [by eapply tb_rep|by eapply tb_held|done].
  - apply (tb_held _ _ _ _ _ Ht).
  - intros p k i x Hp Hi Hx. destruct (decide (p = q)) as [->|Hne].
    + rewrite ent_set in Hx by done. destruct (decide (i = j)) as [->|]; [|by eapply tb_typed]. assert (l = S k) as Hlk by congruence.
      apply (Hch k x); [done|rewrite Hlk; lia|done].
    + rewrite (ent_ext m) in Hx; [by eapply tb_typed|rewrite entries_512; destruct (limit_range (S k)); lia|]. apply Hs; [by eapply tables_frame|done].
  - intros p k i Hp Hi. destruct (decide (p = q)) as [->|Hne].
    + rewrite ent_set by done. case_decide; [done|]. by eapply tb_fits.
    + rewrite (ent_ext m); [by eapply tb_fits|done|]. apply Hs; [by eapply tables_frame|done].
Qed.

(** A table translates as before where its entry and the tables below are as
    before. *)
Lemma trans_keep m m' G l q v :
  typed m G -> G !! q = Some l -> (l <= 3)%nat -> low l v -> ent m' q (idx l v) = ent m q (idx l v) ->
  (forall x k, G !! x = Some k -> (k < l)%nat -> same_frame m m' x) -> utrans m' l q v = utrans m l q v.
Proof.
  intros Ht Hq Hl Hlow He Hs. destruct l as [|l]; cbn [utrans]; rewrite He; [done|].
  destruct (e_frame (ent m q (idx (S l) v))) as [x|] eqn:Hx; [|done].
  assert (Hgx : G !! x = Some l) by (eapply Ht; [done| |done]; split; [apply idx_512|done]).
  apply (trans_frame m m' G); [done|done|apply low_below; lia|lia|]. intros y k Hy Hk. eapply Hs; [done|lia].
Qed.

(** Every user page is in the copy, and the copy has no page the original
    lacks. *)
Definition cloned m0 m l p q v : Prop :=
  (forall x, user_leaf m0 l p v = Some x -> utrans m l q v = Some (clear x) \/ utrans m l q v = Some x) /\
  (forall x, utrans m l q v = Some x -> exists y, utrans m0 l p v = Some y /\ (x = y \/ x = clear y)).

(** The copy with the entries below [j] filled in. *)
Record copying (m0 : gmap Z Z) R U G l p q (j : Z) m f (U' : gset Z) (G' : gmap Z nat) : Prop := {
  cp_tables : tables m f R U' G';
  cp_held : {[q]} ∪ U ⊆ U';
  cp_more : G ⊆ G';
  cp_new : G' !! q = Some l;
  cp_dom : same_dom m0 m;
  cp_same x : x ∈ U -> same_frame m0 m x;
  cp_rest i : j <= i < 512 -> ent m q i = 0;
  cp_done v : low l v -> idx l v < j -> cloned m0 m l p q v;
  cp_kernel i : l = 3%nat -> 256 <= i < j -> ent m q i = ent m0 p i
}.

Lemma cloned_keep m0 m m' l p q v : cloned m0 m l p q v -> utrans m' l q v = utrans m l q v -> cloned m0 m' l p q v.
Proof. intros [H1 H2] He. split; rewrite He; done. Qed.

Lemma copy_write m0 R U G l p q j m f U' G' e :
  copying m0 R U G l p q j m f U' G' -> (l <= 3)%nat -> q ∉ U -> (forall x, x ∈ U -> frame_ok x) -> 0 <= j < 512 -> fits 64 e ->
  (forall l' x, l = S l' -> j < limit l -> e_frame e = Some x -> G' !! x = Some l') ->
  (forall m', m' = set_m m q j e -> forall v, low l v -> idx l v = j -> (forall x k, G' !! x = Some k -> (k < l)%nat -> same_frame m m' x) ->
     ent m' q j = e -> cloned m0 m' l p q v) ->
  (l = 3%nat -> 256 <= j -> e = ent m0 p j) ->
  copying m0 R U G l p q (j + 1) (set_m m q j e) f U' G'.
Proof.
  intros Hc Hl Hq Hf Hj He Hch Hcl Hk. destruct (set_tables m f R U' G' q l j e (cp_tables _ _ _ _ _ _ _ _ _ _ _ _ Hc) (cp_new _ _ _ _ _ _ _ _ _ _ _ _ Hc) Hj He Hch)
    as (Ht & Hd & Hs). pose proof (cp_tables _ _ _ _ _ _ _ _ _ _ _ _ Hc) as Ht0.
  assert (Hs' : forall x k, G' !! x = Some k -> (k < l)%nat -> same_frame m (set_m m q j e) x).
  { intros x k Hx Hlt. apply Hs; [by eapply tables_frame|]. intros ->. rewrite (cp_new _ _ _ _ _ _ _ _ _ _ _ _ Hc) in Hx. simplify_eq. lia. }
  split; [done|by eapply cp_held|by eapply cp_more|by eapply cp_new|eapply same_dom_trans; [by eapply cp_dom|done]| | | |].
  - intros x Hx. eapply same_frame_trans; [by eapply cp_same|]. apply Hs; [by apply Hf|congruence].
  - intros i Hi. rewrite ent_set, decide_False by (done || lia). eapply cp_rest; [done|lia].
  - intros v Hlow Hv. destruct (decide (idx l v = j)) as [Hvj|Hvj].
    + eapply Hcl; [done..|]. by rewrite ent_set, decide_True.
    + eapply cloned_keep; [eapply cp_done; [done..|lia]|]. eapply trans_keep; [by eapply tb_typed|by eapply cp_new|done..| |done].
      by rewrite ent_set, decide_False.
  - intros i Hl3 Hi. rewrite ent_set by done. destruct (decide (i = j)) as [->|]; [by apply Hk; [|lia]|]. eapply cp_kernel; [done..|lia].
Qed.

Lemma copy_skip m0 R U G l p q j m f U' G' :
  copying m0 R U G l p q j m f U' G' -> 0 <= j < 512 -> ~ (l = 3%nat /\ 256 <= j) ->
  (forall v, low l v -> idx l v = j -> user_leaf m0 l p v = None) -> copying m0 R U G l p q (j + 1) m f U' G'.
Proof.
  intros [] Hj Hk Hn. split; try done.
  - intros i Hi. apply cp_rest0. lia.
  - intros v Hlow Hv. destruct (decide (idx l v = j)) as [Hvj|Hvj]; [|apply cp_done0; [done|lia]]. split.
    + intros x. by rewrite Hn.
    + intros x. destruct l; cbn [utrans]; rewrite Hvj, cp_rest0 by lia; [by rewrite flags_zero|by rewrite frame_zero].
  - intros i Hl3 Hi. apply cp_kernel0; [done|]. destruct (decide (i = j)) as [->|]; [|lia]. exfalso. apply Hk. lia.
Qed.

Lemma copy_more m0 R U G l p q j m f U' G' m2 f2 U2 G2 :
  copying m0 R U G l p q j m f U' G' -> (l <= 3)%nat -> 0 <= j <= 512 -> tables m2 f2 R U2 G2 -> U' ⊆ U2 -> G' ⊆ G2 -> same_dom m m2 ->
  (forall x, x ∈ U' -> same_frame m m2 x) -> copying m0 R U G l p q j m2 f2 U2 G2.
Proof.
  intros Hc Hl Hj Ht HU HG Hd Hs. pose proof (cp_held _ _ _ _ _ _ _ _ _ _ _ _ Hc) as Hh. pose proof (cp_tables _ _ _ _ _ _ _ _ _ _ _ _ Hc) as Ht0.
  assert (HqU : same_frame m m2 q) by (apply Hs, Hh; clear; set_solver).
  split; [done|by etrans|etrans; [by eapply cp_more|done]|eapply lookup_weaken; [by eapply cp_new|done]|eapply same_dom_trans; [by eapply cp_dom|done]| | | |].
  - intros x Hx. eapply same_frame_trans; [by eapply cp_same|]. apply Hs, Hh. clear -Hx. set_solver.
  - intros i Hi. rewrite (ent_ext m m2); [by eapply cp_rest|rewrite entries_512; lia|done].
  - intros v Hlow Hv. eapply cloned_keep; [by eapply cp_done|]. eapply trans_keep; [by eapply tb_typed|by eapply cp_new|done..| |].
    + apply ent_ext; [apply idx_range|done].
    + intros x k Hx _. apply Hs. by eapply tb_held.
  - intros i Hl3 Hi. rewrite (ent_ext m m2); [by eapply cp_kernel|rewrite entries_512; lia|done].
Qed.

(** A fresh table. *)
Lemma tables_new m f R U G q l m1 f1 :
  tables m f R U G -> q ∉ U -> rep m1 f1 R ({[q]} ∪ U) -> page_zero m1 q -> (forall x, x ∈ U -> same_frame m m1 x) ->
  tables m1 f1 R ({[q]} ∪ U) (<[q:=l]> G).
Proof.
  intros Ht HqU Hr1 Hz Hs. assert (HqG : G !! q = None). { destruct (G !! q) as [k|] eqn:Hk; [|done]. destruct HqU. by eapply tb_held. }
  split; [done|intros x k [[<- <-]|[_ Hx]]%lookup_insert_Some; [clear; set_solver|apply elem_of_union; right; by eapply tb_held]| |].
    - intros x k i y Hx Hi Hy. apply lookup_insert_Some in Hx as [[<- _]|[Hne Hx]].
      + rewrite ent_zero in Hy; [by rewrite frame_zero in Hy|done|]. rewrite entries_512. destruct (limit_range (S k)). lia.
      + rewrite (ent_ext m) in Hy; [|rewrite entries_512; destruct (limit_range (S k)); lia|apply Hs; by eapply tb_held].
        rewrite lookup_insert_ne; [by eapply (tb_typed _ _ _ _ _ Ht)|]. intros <-. rewrite (tb_typed _ _ _ _ _ Ht x k i q Hx Hi Hy) in HqG. done.
    - intros x k i Hx Hi. apply lookup_insert_Some in Hx as [[<- _]|[Hne Hx]]; [rewrite ent_zero by done; split; lia|].
      rewrite (ent_ext m); [by eapply tb_fits|done|apply Hs; by eapply tb_held].
Qed.

(** The result of copying a table. *)
Definition clone_result c f R U G l p (r : res unit Z * State) : Prop :=
  (exists q m' f' U' G', r = (Ok q, (with_mem m' c, Some f')) /\ q ∉ U /\ copying (mem c) R U G l p q 512 m' f' U' G') \/
  (r = (Err tt, (c, Some f)) /\ R ⊆ U).

Lemma user_leaf_none m l p v :
  has (e_flags (ent m p (idx l v))) PRESENT = false \/ has (e_flags (ent m p (idx l v))) USER_ACCESSIBLE = false \/
  ((0 < l)%nat /\ has (e_flags (ent m p (idx l v))) HUGE_PAGE = true) -> user_leaf m l p v = None.
Proof.
  intros Hx. destruct l as [|l]; cbn [user_leaf]; rewrite ?frame_spec; destruct (has _ USER_ACCESSIBLE); try done;
    destruct (has _ PRESENT); try done; destruct Hx as [?|[?|[? Hh]]]; try done; [lia|]. by rewrite Hh.
Qed.

Lemma clone_leaf_v c l p q m' v fl e :
  l = 0%nat -> ent (mem c) p (idx l v) = e -> has (e_flags e) PRESENT = true -> fl = cow_flags (e_flags e) ->
  ent m' q (idx l v) = e_entry (e_addr e) fl -> cloned (mem c) m' l p q v.
Proof.
  intros -> He Hpr Hfl Hq. assert (Hu : utrans m' 0 q v = Some (clear (e_addr e, e_flags e))).
  { cbn [utrans]. rewrite Hq, Hfl, cow_flags_eq by apply flags_valid. fold (ro e). rewrite ro_has, Hpr, ro_addr, ro_flags by done. done. }
  split.
  - intros x. cbn [user_leaf]. rewrite He, Hpr. destruct (has _ USER_ACCESSIBLE); [|done]. intros [= <-]. by left.
  - intros x Hx. rewrite Hu in Hx. injection Hx as <-. exists (e_addr e, e_flags e). split; [|by right]. cbn [utrans]. by rewrite He, Hpr.
Qed.

Lemma clone_huge_v c l p q m' v e :
  (0 < l)%nat -> ent (mem c) p (idx l v) = e -> has (e_flags e) HUGE_PAGE = true ->
  ent m' q (idx l v) = e_entry (e_addr e) (cow_flags (e_flags e)) -> cloned (mem c) m' l p q v.
Proof.
  intros Hl He Hh Hq. split.
  - intros x Hx. rewrite user_leaf_none in Hx; [done|]. right. right. by rewrite He.
  - intros x. destruct l as [|l]; [lia|]. cbn [utrans]. rewrite Hq, cow_flags_eq by apply flags_valid. fold (ro e).
    rewrite frame_spec, (ro_has e HUGE_PAGE), Hh, andb_false_r by done. done.
Qed.

(** An entry that leads to a table: to its copy, or, short of memory, to the
    table itself. *)
Lemma clone_sub_v m0 m m' G l p q v child q' :
  typed m0 G -> (S l <= 3)%nat -> G !! p = Some (S l) -> low (S l) v -> e_frame (ent m0 p (idx (S l) v)) = Some child ->
  e_frame (ent m' q (idx (S l) v)) = Some q' -> utrans m' l q' v = utrans m l q' v -> cloned m0 m l child q' v -> cloned m0 m' (S l) p q v.
Proof.
  intros Ht Hl Hp Hlow Hc Hq Hu [H1 H2]. split.
  - intros x. cbn [user_leaf utrans]. rewrite Hc, Hq, Hu. destruct (has _ USER_ACCESSIBLE); [apply H1|done].
  - intros x. cbn [utrans]. rewrite Hc, Hq, Hu. apply H2.
Qed.

Lemma cloned_self m l p v : cloned m m l p p v.
Proof. split; [intros x Hx; right; by apply user_leaf_trans|]. intros x Hx. exists x. split; [done|by left]. Qed.

Lemma cloned_src m0 m1 m l p q v :
  utrans m1 l p v = utrans m0 l p v -> user_leaf m1 l p v = user_leaf m0 l p v -> cloned m1 m l p q v -> cloned m0 m l p q v.
Proof. intros H1 H2 [C1 C2]. rewrite H1 in C2. rewrite H2 in C1. done. Qed.

Lemma clone_step c f R U G l p q j m fm U' G' clone :
  tables (mem c) f R U G -> (l <= 3)%nat -> G !! p = Some l -> q ∉ U -> 0 <= j < 512 ->
  copying (mem c) R U G l p q j m fm U' G' ->
  (forall l' c1 f1 U1 G1 child, l = S l' -> tables (mem c1) f1 R U1 G1 -> G1 !! child = Some l' -> clone_result c1 f1 R U1 G1 l' child (clone child (c1, Some f1))) ->
  exists m2 f2 U2 G2, clone_entry (Z.of_nat (S l)) clone p q j (with_mem m c, Some fm) = (Ok tt, (with_mem m2 c, Some f2)) /\
    copying (mem c) R U G l p q (j + 1) m2 f2 U2 G2.
Proof.
  intros Ht Hl Hp Hq Hj Hc Hrec. pose proof (cp_tables _ _ _ _ _ _ _ _ _ _ _ _ Hc) as Htm. pose proof (cp_new _ _ _ _ _ _ _ _ _ _ _ _ Hc) as Hgq.
  assert (HpU : p ∈ U) by (by eapply tb_held). destruct (tables_frame _ _ _ _ _ _ _ Ht Hp) as [Hpf Hpm].
  destruct (tables_frame _ _ _ _ _ _ _ Htm Hgq) as [Hqf Hqm]. assert (HfU : forall x, x ∈ U -> frame_ok x) by (intros x Hx; by eapply used_frame; [apply (tb_rep _ _ _ _ _ Ht)|]).
  assert (He : ent m p j = ent (mem c) p j) by (apply ent_ext; [done|by eapply cp_same]).
  assert (Hpm' : mapped m (V p) PAGE_SIZE) by (eapply same_dom_mapped; [by eapply cp_dom|done]).
  unfold clone_entry, mbind, M_bind. rewrite pte_read_ok by done. rewrite with_mem_mem, He. set (e := ent (mem c) p j).
  assert (Hef : fits 64 e) by (by eapply tb_fits).
  assert (Hwr : forall e', write_entry q j e' (with_mem m c, Some fm) = (Ok tt, (with_mem (set_m m q j e') c, Some fm))).
  { intros e'. by rewrite (pte_write_ok q j e' (with_mem m c)). }
  assert (Hcow : fits 64 (e_entry (e_addr e) (cow_flags (e_flags e)))).
  { rewrite cow_flags_eq by apply flags_valid. apply entry_valid; [apply addr_valid|apply without_ok, flags_valid]. }
  destruct ((Z.of_nat (S l) =? 4) && (256 <=? j)) eqn:HK.
  { apply andb_true_iff in HK as [HK1%Z.eqb_eq HK2%Z.leb_le]. assert (l = 3%nat) as Hl3 by lia. rewrite Hwr. do 4 eexists. split; [done|].
    eapply copy_write; [done..| | |done].
    - intros l' x Hll Hlim. rewrite Hl3 in Hlim. change (limit 3) with 256 in Hlim. lia.
    - intros m' _ v Hlow Hv. exfalso. unfold low in Hlow. rewrite Hl3 in Hlow, Hv. change (limit 3) with 256 in Hlow. lia. }
  assert (Hnk : ~ (l = 3%nat /\ 256 <= j)).
  { intros [-> Hj2]. apply andb_false_iff in HK as [HK%Z.eqb_neq|HK%Z.leb_gt]; lia. }
  assert (Hlj : j < limit l) by (unfold limit; case_decide; lia).
  assert (Hskip : has (e_flags e) PRESENT = false \/ has (e_flags e) USER_ACCESSIBLE = false \/ ((0 < l)%nat /\ has (e_flags e) HUGE_PAGE = true) ->
    exists m2 f2 U2 G2, (Ok tt, (with_mem m c, Some fm)) = (Ok (E:=unit) tt, (with_mem m2 c, Some f2)) /\ copying (mem c) R U G l p q (j + 1) m2 f2 U2 G2).
  { intros Hx. do 4 eexists. split; [done|]. apply copy_skip; [done..|]. intros v _ Hv. apply user_leaf_none. by rewrite Hv. }
  destruct (has (e_flags e) PRESENT) eqn:HP; cbn [negb]; [|apply Hskip; by left].
  destruct (has (e_flags e) USER_ACCESSIBLE) eqn:HU; cbn [negb]; [|apply Hskip; by right; left]. clear Hskip.
  destruct ((1 <? Z.of_nat (S l)) && has (e_flags e) HUGE_PAGE) eqn:HH.
  { apply andb_true_iff in HH as [HH1%Z.ltb_lt HH2]. rewrite Hwr. do 4 eexists. split; [done|]. eapply copy_write; [done..| | |intros; by destruct Hnk].
    - intros l' x _ _. rewrite cow_flags_eq by apply flags_valid. fold (ro e). rewrite frame_spec, (ro_has e HUGE_PAGE), HH2, andb_false_r by done. done.
    - intros m' _ v _ Hv _ Hen. eapply (clone_huge_v c l p q m' v e); [lia|by rewrite Hv|done|by rewrite Hv]. }
  destruct l as [|l].
  { change (Z.of_nat 1 =? 1) with true. cbn iota. rewrite Hwr. do 4 eexists. split; [done|]. eapply copy_write; [done..| | |intros; by destruct Hnk].
    - done.
    - intros m' _ v _ Hv _ Hen. eapply (clone_leaf_v c 0 p q m' v _ e); [done|by rewrite Hv|done|done|by rewrite Hv]. }
  destruct (Z.eqb_spec (Z.of_nat (S (S l))) 1) as [|_]; [lia|]. destruct (Z.ltb_spec 1 (Z.of_nat (S (S l)))) as [_|]; [|lia]. cbn [andb] in HH.
  assert (Hfr : e_frame e = Some (e_addr e)) by (by rewrite frame_spec, HP, HH). rewrite Hfr. set (child := e_addr e) in *.
  assert (Hgc : G !! child = Some l) by (eapply (tb_typed _ _ _ _ _ Ht); [done| |done]; lia).
  assert (Hgc' : G' !! child = Some l) by (eapply lookup_weaken; [done|by eapply cp_more]).
  assert (Hsrc : forall v m', (forall x k, G !! x = Some k -> (k <= l)%nat -> same_frame (mem c) m' x) ->
    utrans m' l child v = utrans (mem c) l child v /\ user_leaf m' l child v = user_leaf (mem c) l child v).
  { intros v m' Hs. apply (trans_frame (mem c) m' G); [by eapply tb_typed|done|apply low_below; lia|lia|done]. }
  unfold try. destruct (Hrec l (with_mem m c) fm U' G' child eq_refl Htm Hgc') as [(q' & m2 & f2 & U2 & G2 & -> & Hq'U & Hcp)|[-> HR]].
  - rewrite with_mem_mem, with_mem_twice in *. pose proof (cp_tables _ _ _ _ _ _ _ _ _ _ _ _ Hcp) as Ht2. pose proof (cp_new _ _ _ _ _ _ _ _ _ _ _ _ Hcp) as Hgq'.
    destruct (tables_frame _ _ _ _ _ _ _ Ht2 Hgq') as [Hq'f _]. pose proof (frame_phys _ Hq'f) as Hq'p.
    assert (HU2 : U' ⊆ U2) by (pose proof (cp_held _ _ _ _ _ _ _ _ _ _ _ _ Hcp) as Hh; clear -Hh; set_solver).
    assert (Hc2 : copying (mem c) R U G (S l) p q j m2 f2 U2 G2).
    { eapply copy_more; [exact Hc|done|lia|done|done|by eapply cp_more|by eapply cp_dom|]. intros x Hx. by eapply cp_same. }
    assert (Hqm2 : mapped m2 (V q) PAGE_SIZE) by exact (same_dom_mapped _ _ _ _ (cp_dom _ _ _ _ _ _ _ _ _ _ _ _ Hcp) Hqm).
    rewrite (pte_write_ok q j _ (with_mem m2 c)) by done. rewrite with_mem_mem, with_mem_twice. do 4 eexists. split; [done|].
    assert (Hnf : e_frame (e_entry q' (e_flags e)) = Some q').
    { rewrite frame_spec, flags_entry, addr_entry by (done || apply flags_valid). by rewrite HP, HH. }
    eapply copy_write; [exact Hc2|done|done|done|done|apply entry_valid; [done|apply flags_valid]| | |intros; by destruct Hnk].
    + intros l' x [= <-] _. rewrite Hnf. by intros [= <-].
    + intros m' _ v Hlow Hv Hs' Hen. eapply (clone_sub_v (mem c) m2 m' G l p q v child q'); [by eapply tb_typed|done..|by rewrite Hv|by rewrite Hv, Hen| |].
      * apply (trans_frame m2 m' G2); [by eapply tb_typed|done|apply low_below; lia|lia|]. intros x k Hx Hk. eapply Hs'; [done|lia].
      * destruct (Hsrc v m) as [S1 S2]; [intros x k Hx _; eapply cp_same; [done|by eapply tb_held]|].
        eapply cloned_src; [exact S1|exact S2|]. eapply cp_done; [done|apply low_below; lia|apply idx_512].
  - rewrite Hwr. do 4 eexists. split; [done|]. eapply copy_write; [done..| | |intros; by destruct Hnk].
    + intros l' x [= <-] _. rewrite Hfr. by intros [= <-].
    + intros m' _ v Hlow Hv Hs' Hen. eapply (clone_sub_v (mem c) (mem c) m' G l p q v child child); [by eapply tb_typed|done..|by rewrite Hv|by rewrite Hv, Hen| |apply cloned_self].
      apply Hsrc. intros x k Hx Hk. eapply same_frame_trans; [eapply cp_same; [done|by eapply tb_held]|]. eapply Hs'; [by eapply lookup_weaken, cp_more|lia].
Qed.

Lemma clone_ok l p c f R U G :
  (l <= 3)%nat -> tables (mem c) f R U G -> G !! p = Some l -> clone_result c f R U G l p (clone_user_table_tree (S l) p (c, Some f)).
Proof.
  revert p c f U G. induction l as [l IH] using lt_wf_ind. intros p c f U G Hl Ht Hp.
  change (clone_user_table_tree (S l) p (c, Some f)) with ((q ← allocate_frame; _ ← for_each 512 0 (clone_entry (Z.of_nat (S l)) (clone_user_table_tree l) p q); mret q) (c, Some f)).
  unfold mbind, M_bind. destruct (allocate_frame_ok c f R U (tb_rep _ _ _ _ _ Ht)) as [(q & m1 & f1 & -> & HqR & HqU & Hr1 & Hz & Hd & Hs)|[-> HRU]]; [left|by right].
  assert (Ht1 : tables m1 f1 R ({[q]} ∪ U) (<[q:=l]> G)) by (by eapply tables_new).
  assert (HqG : G !! q = None). { destruct (G !! q) as [k|] eqn:Hk; [|done]. destruct HqU. by eapply tb_held. }
  assert (Hc0 : copying (mem c) R U G l p q 0 m1 f1 ({[q]} ∪ U) (<[q:=l]> G)).
  { split; [done|done|by apply insert_subseteq|by rewrite lookup_insert_eq|done|done|intros i Hi; by apply ent_zero| |lia].
    intros v _ Hv. pose proof (idx_512 l v). lia. }
  destruct (for_each_inv (fun j s => exists m fm U' G', s = (with_mem m c, Some fm) /\ copying (mem c) R U G l p q j m fm U' G') 512 0
    (clone_entry (Z.of_nat (S l)) (clone_user_table_tree l) p q) (with_mem m1 c, Some f1)) as (s' & -> & m' & f' & U' & G' & -> & Hc').
  - intros j s Hj (m & fm & U' & G' & -> & Hc). destruct (clone_step c f R U G l p q j m fm U' G' (clone_user_table_tree l) Ht Hl Hp HqU ltac:(lia) Hc) as (m2 & f2 & U2 & G2 & Hrun & Hc2).
    + intros l' c1 f1' U1 G1 child -> Ht1' Hch. apply IH; [lia|lia|done|done].
    + eexists. split; [exact Hrun|]. by do 4 eexists.
  - by do 4 eexists.
  - exists q, m', f', U', G'. done.
Qed.

(** ** The fork *)

Lemma clear_protected m l p v x : protected m l p v -> user_leaf m l p v = Some x -> clear x = x.
Proof.
  intros Hp Hu. destruct x as [a fl]. specialize (Hp a fl Hu). pose proof (user_leaf_flags _ _ _ _ _ _ Hu) as Hf. unfold clear. cbn [fst snd].
  f_equal. rewrite <-cow_flags_eq by done. unfold cow_flags. by rewrite Hp.
Qed.

(** What the parent and the child see after a fork. *)
Record forked m m' (root child : Z) : Prop := {
  fk_parent v : low 3 v -> utrans m' 3 root v = utrans m 3 root v \/ utrans m' 3 root v = clear <$> utrans m 3 root v;
  fk_user v : low 3 v -> is_Some (user_leaf m 3 root v) -> is_Some (user_leaf m' 3 root v);
  fk_protected v : low 3 v -> protected m' 3 root v;
  fk_child v x : low 3 v -> user_leaf m' 3 root v = Some x -> utrans m' 3 child v = Some x;
  fk_no_more v x : low 3 v -> utrans m' 3 child v = Some x -> exists y, utrans m' 3 root v = Some y /\ (x = y \/ x = clear y);
  fk_kernel i : 256 <= i < 512 -> ent m' child i = ent m' root i
}.

Lemma cow_fork_ok c f R U G :
  tables (mem c) f R U G -> G !! fst (regs c) = Some 3%nat ->
  exists m' f', same_dom (mem c) m' /\ (forall x, x ∈ U -> G !! x <> Some 0%nat -> same_frame (mem c) m' x) /\
  ((exists child U' G', cow_fork_parent (c, Some f) = (Ok child, (with_mem m' c, Some f')) /\ child ∉ U /\
     tables m' f' R U' G' /\ U ⊆ U' /\ G ⊆ G' /\ G' !! child = Some 3%nat /\ forked (mem c) m' (fst (regs c)) child) \/
   (cow_fork_parent (c, Some f) = (Err tt, (with_mem m' c, Some f')) /\ R ⊆ U)).
Proof.
  intros Ht Hroot. set (root := fst (regs c)) in *. unfold cow_fork_parent, mbind, M_bind, cr3. cbn [fst]. fold root. rewrite make_readonly_eq.
  destruct (ro_loop_ok 3 root c f R U G ltac:(lia) Ht Hroot) as (m1 & -> & Hr & Hrep & Hpr). assert (Ht1 : tables m1 f R U G) by (by eapply tables_ro).
  assert (HfG : forall p l, G !! p = Some l -> frame_ok p) by (intros x k Hx; by eapply tables_frame).
  assert (Hs1 : forall x, x ∈ U -> G !! x <> Some 0%nat -> same_frame (mem c) m1 x).
  { intros x Hx Hn. eapply rr_same; [done| |done]. by eapply used_frame; [apply (tb_rep _ _ _ _ _ Ht)|]. }
  destruct (clone_ok 3 root (with_mem m1 c) f R U G ltac:(lia) Ht1 Hroot) as [(q & m' & f' & U' & G' & -> & Hq & Hc)|[-> HR]].
  2: { exists m1, f. split_and!; [by eapply rr_dom|done|]. right. done. }
  rewrite with_mem_mem, with_mem_twice in *. exists m', f'. split; [eapply same_dom_trans; [by eapply rr_dom|by eapply cp_dom]|].
  split; [intros x Hx Hn; eapply same_frame_trans; [by apply Hs1|by eapply cp_same]|]. left. exists q, U', G'.
  pose proof (cp_held _ _ _ _ _ _ _ _ _ _ _ _ Hc) as Hh. split_and!; [done|done|by eapply cp_tables|clear -Hh; set_solver|by eapply cp_more|by eapply cp_new|].
  assert (Hroot' : forall v, low 3 v -> utrans m' 3 root v = utrans m1 3 root v /\ user_leaf m' 3 root v = user_leaf m1 3 root v).
  { intros v Hlow. apply (trans_frame m1 m' G); [by eapply tb_typed|done..|]. intros x k Hx _. eapply cp_same; [done|by eapply tb_held]. }
  assert (Hrl : forall v, low 3 v -> _) by (intros v Hlow; exact (ro_leaf G (mem c) m1 3 root v HfG Hr (tb_typed _ _ _ _ _ Ht) Hroot Hlow ltac:(lia))).
  assert (Hcd : forall v, low 3 v -> cloned m1 m' 3 root q v) by (intros v Hlow; eapply cp_done; [done..|apply idx_512]).
  split.
  - intros v Hlow. destruct (Hroot' v Hlow) as [-> _]. by apply Hrl.
  - intros v Hlow [x Hx]. destruct (Hroot' v Hlow) as [_ ->]. destruct (Hrl v Hlow) as [_ [->| ->]]; rewrite Hx; eauto.
  - intros v Hlow a fl. destruct (Hroot' v Hlow) as [_ ->]. by apply Hpr.
  - intros v x Hlow. destruct (Hroot' v Hlow) as [_ ->]. intros Hx. destruct (Hcd v Hlow) as [H1 _].
    destruct (H1 x Hx) as [Heq|?]; [|done]. rewrite Heq. f_equal. eapply clear_protected; [by apply Hpr|done].
  - intros v x Hlow Hx. destruct (Hroot' v Hlow) as [-> _]. by apply (Hcd v Hlow).
  - intros i Hi. rewrite (ent_ext m1 m' root i) by ((rewrite entries_512; lia) || (eapply cp_same; [done|by eapply tb_held])). eapply cp_kernel; [done..|lia].
Qed.

(** C14. Forking an address space copy-on-write, for any tables of four levels
    that are held and lead from level to level: no call panics or faults; the
    frames that are held change only where they are tables of the lowest
    level, so that the large pages mapped further up stay as they were in the
    parent, writable ones included; and if a new root is returned, it is a
    frame nobody held, every page of 4 KiB that the parent has from user space
    is mapped in the child to the same frame with the same flags, none of these
    is writable in either, the parent translates as before but for the lost
    write permission, the child has no such page the parent lacks, and the two
    share the kernel's half.  It fails only if no frame is free. *)
Theorem cow_fork_shares_readonly c f R U G :
  tables (mem c) f R U G -> G !! fst (regs c) = Some 3%nat ->
  exists m' f', (forall x, x ∈ U -> G !! x <> Some 0%nat -> same_frame (mem c) m' x) /\
  ((exists child, cow_fork_parent (c, Some f) = (Ok child, (with_mem m' c, Some f')) /\ child ∉ U /\ forked (mem c) m' (fst (regs c)) child) \/
   (cow_fork_parent (c, Some f) = (Err tt, (with_mem m' c, Some f')) /\ R ⊆ U)).
Proof.
  intros Ht Hroot. destruct (cow_fork_ok c f R U G Ht Hroot) as (m' & f' & _ & Hs & [(child & U' & G' & Hrun & Hn & _ & _ & _ & _ & Hf)|?]);
    exists m', f'; (split; [done|]); [left; eauto|by right].
Qed.

(** ** Faults on the pages of a fork *)

Lemma fill_frame_ok q data c (s : option BuddyAllocator) :
  frame_ok q -> mapped (mem c) (V q) PAGE_SIZE ->
  exists m', fill_frame q data (c, s) = (Ok tt, (with_mem m' c, s)) /\ forall x, frame_ok x -> x <> q -> same_frame (mem c) m' x.
Proof.
  intros Hq Hm. unfold fill_frame, mbind, M_bind, phys_to_virt, lift. destruct Hq as (Q1 & Q2 & Q3). pose proof (page_size_pos (A:=X8664Arch)).
  rewrite uadd_ok by lia. change (q + PHYS_OFFSET) with (V q). unfold write_bytes.
  assert (Hz : zlen (replicate (Z.to_nat 4096) 0) = 4096) by (unfold zlen; by rewrite length_replicate).
  rewrite write_ok by (by rewrite Hz). set (m1 := store_bytes (mem c) (V q) (replicate (Z.to_nat 4096) 0)).
  assert (Hs : forall bs m x, zlen bs <= 4096 -> frame_ok x -> x <> q -> same_frame m (store_bytes m (V q) bs) x).
  { intros bs m x Hb Hx Hne a Ha. rewrite store_bytes_lookup, decide_False; [done|]. intros Hr. apply (frames_apart x q a); [done..|].
    unfold in_frame. change PAGE_SIZE with 4096. lia. }
  destruct data as [data|]; [|exists m1; split; [done|]; intros x; apply Hs; lia].
  assert (Hb : zlen (take 4096 data) <= 4096) by (unfold zlen; rewrite length_take; lia). rewrite write_ok; cycle 1.
  { rewrite with_mem_mem. eapply same_dom_mapped; [apply same_dom_store; by rewrite Hz|]. apply (mapped_sub _ _ _ _ _ Hm); change PAGE_SIZE with 4096; lia. }
  rewrite with_mem_mem, with_mem_twice. eexists. split; [done|]. intros x Hx Hne. eapply same_frame_trans; apply Hs; done || lia.
Qed.

Definition vma_ok (v : Vma.Vma) : Prop :=
  0 <= Vma.start v /\ Vma.start v mod 4096 = 0 /\ 0 <= Vma.file_offset v /\ Vma.file_offset v + Vma.file_size v < 2 ^ 64.

Lemma fault_data_ok {E} p v a : vma_ok v -> Vma.start v <= a -> exists d, fault_data (E:=E) p v (a - a mod 4096) = Ok d.
Proof.
  intros (H1 & H2 & H3 & H4) Ha. unfold fault_data, usub. assert (Vma.start v <= a - a mod 4096).
  { apply Z.mod_divide in H2 as [x Hx]; [|lia]. pose proof (Z.div_mod a 4096 ltac:(lia)). pose proof (Z.mod_pos_bound a 4096 ltac:(lia)). lia. }
  destruct (Z.ltb_spec (a - a mod 4096) (Vma.start v)); [lia|]. cbn [mbind res_bind]. destruct (binary_data p); [by eexists|].
  destruct (Z.ltb_spec (a - a mod 4096 - Vma.start v) (Vma.file_size v)); [|by eexists]. rewrite uadd_ok by lia. cbn [mbind res_bind].
  case_match; by eexists.
Qed.

Lemma fault_data_total {E} p v a :
  Vma.start v <= a -> (exists d, fault_data (E:=E) p v (a - a mod 4096) = Ok d) \/ (fault_data (E:=E) p v (a - a mod 4096) = Panic /\ ~ vma_ok v).
Proof.
  intros Ha. destruct (fault_data (E:=E) p v (a - a mod 4096)) as [d|e| |] eqn:Hf; [by eauto| | |].
  - exfalso. revert Hf. unfold fault_data, usub, uadd. repeat (case_match; cbn [mbind res_bind]; try done).
  - right. split; [done|]. intros Hv. destruct (fault_data_ok (E:=E) p v a Hv Ha) as [d Hd]. congruence.
  - exfalso. revert Hf. unfold fault_data, usub, uadd. repeat (case_match; cbn [mbind res_bind]; try done).
Qed.

(** [map_to] does not replace a mapping. *)
Definition map_to_keeps : Prop :=
  forall root v q fl s x, utrans (mem (fst s)) 3 root v = Some x -> fst (map_to root v q fl s) = Ok PageAlreadyMapped.

Lemma fault_mapped kernel_root proc v code root x m f R U G c :
  map_to_keeps -> tables m f R U G -> G !! root = Some 3%nat -> low 3 v -> utrans m 3 root v = Some x ->
  page_table_frame proc = Some root ->
  exists r s', handle_fault_for kernel_root proc v code (with_mem m c, Some f) = (r, s') /\ (r = Ok false \/ r = Panic /\ ~ Forall vma_ok (vmas proc)).
Proof.
  intros Hmt Ht Hroot Hlow Hx Hproc. enough (exists r s', handle_fault_for kernel_root proc v code (with_mem m c, Some f) = (r, s') /\
    (r = Ok false \/ r = Panic /\ exists vm, vm ∈ vmas proc /\ ~ vma_ok vm)) as (r & s' & ? & [?|(? & vm & Hin & Hn)]);
    [by eauto 6| |]; [exists r, s'; split; [done|]; right; split; [done|]; rewrite Forall_forall; eauto|].
  unfold handle_fault_for. destruct (find _ (vmas proc)) as [vm|] eqn:Hfind; [|by eauto 6].
  apply List.find_some in Hfind as [Hin Hct]. apply list_elem_of_In in Hin.
  case_match; [by eauto 6|]. case_match; [by eauto 6|]. unfold mbind, M_bind, lift. unfold Vma.contains in Hct. apply andb_true_iff in Hct as [Hst%Z.leb_le _].
  destruct (fault_data_total (E:=unit) proc vm v Hst) as [[d ->]|[-> Hn]]; [|by eauto 10]. unfold demand_page_for_root, mbind, M_bind, try.
  destruct (allocate_frame_ok (with_mem m c) f R U (tb_rep _ _ _ _ _ Ht)) as [(q & m1 & f1 & -> & HqR & HqU & Hr1 & _ & _ & Hs1)|[-> _]]; [|by eauto 6].
  assert (HqU1 : q ∈ {[q]} ∪ U) by (clear; set_solver). destruct (used_frame _ _ _ _ q Hr1 HqU1) as [Hqf Hqm]. rewrite with_mem_twice.
  destruct (fill_frame_ok q d (with_mem m1 c) (Some f1) Hqf Hqm) as (m2 & -> & Hs2). rewrite with_mem_mem, with_mem_twice in *.
  unfold map_allocated_frame. rewrite Hproc. unfold map_or_replace, mbind, M_bind, map_err.
  assert (Hkeep : utrans m2 3 root v = Some x).
  { rewrite <-Hx. apply (trans_frame m m2 G); [by eapply tb_typed|done..|]. intros y k Hy _. assert (HyU : y ∈ U) by (by eapply tb_held).
    eapply same_frame_trans; [by apply Hs1|]. apply Hs2; [by eapply tables_frame|congruence]. }
  pose proof (Hmt root v q (region_flags_to_page_flags (Vma.flags vm)) (with_mem m2 c, Some f1) x Hkeep) as Hm.
  destruct (map_to root v q _ (with_mem m2 c, Some f1)) as [r s']. cbn [fst] in Hm. subst r. by eauto 6.
Qed.

(** A fault in the first page of an area that does not start at a page
    boundary (and [mmap] hands such areas out) panics the kernel. *)
Lemma unaligned_area_panics kernel_root proc vm v code s :
  find (fun w => Vma.contains w v) (vmas proc) = Some vm -> Vma.writable (Vma.flags vm) = true -> Vma.executable (Vma.flags vm) = true ->
  v - v mod 4096 < Vma.start vm -> handle_fault_for kernel_root proc v code s = (Panic, s).
Proof.
  intros Hfind Hw Hx Hlt. unfold handle_fault_for. rewrite Hfind, Hw, Hx, !andb_false_r. unfold mbind, M_bind, lift, fault_data, mbind, res_bind.
  unfold usub. by destruct (Z.ltb_spec (v - v mod 4096) (Vma.start vm)); [|lia].
Qed.

(** C15. A page of 4 KiB that user space can reach when an address space is
    forked stays write-protected in both processes.  After the fork it is
    mapped without write permission in the parent and in the child; and
    whenever a page is mapped in the tables of a process, in any state in which
    these are sound, the page-fault handler does not resolve a fault on it,
    whatever the fault and whatever the memory areas: it refuses, which ends
    the process, or, for an area that does not start at a page boundary,
    panics. *)
Theorem cow_fault_unresolved kernel_root c f R U G child c' f' :
  map_to_keeps -> tables (mem c) f R U G -> G !! fst (regs c) = Some 3%nat ->
  cow_fork_parent (c, Some f) = (Ok child, (c', Some f')) ->
  (forall v r, low 3 v -> is_Some (user_leaf (mem c) 3 (fst (regs c)) v) -> r = fst (regs c) \/ r = child ->
     exists a fl, utrans (mem c') 3 r v = Some (a, fl) /\ has fl WRITABLE = false) /\
  (forall c2 f2 R2 U2 G2 proc v r code, tables (mem c2) f2 R2 U2 G2 -> G2 !! r = Some 3%nat -> low 3 v -> is_Some (utrans (mem c2) 3 r v) ->
     page_table_frame proc = Some r ->
     exists o s', handle_fault_for kernel_root proc v code (c2, Some f2) = (o, s') /\ (o = Ok false \/ o = Panic /\ ~ Forall vma_ok (vmas proc))).
Proof.
  intros Hmt Ht Hroot Hrun. split.
  - intros v r Hlow Hw Hr.
    destruct (cow_fork_ok c f R U G Ht Hroot) as (m' & f2 & _ & _ & [(ch & U' & G' & Hrun' & _ & _ & _ & _ & _ & Hfk)|[Hrun' _]]);
      rewrite Hrun' in Hrun; simplify_eq. rewrite with_mem_mem.
    destruct (fk_user _ _ _ _ Hfk v Hlow Hw) as [[a fl] Hy]. pose proof (fk_child _ _ _ _ Hfk v _ Hlow Hy) as Hyc.
    pose proof (fk_protected _ _ _ _ Hfk v Hlow _ _ Hy) as Hp.
    exists a, fl. destruct Hr as [->| ->]; [split; [by apply user_leaf_trans|done]|done].
  - intros c2 f2 R2 U2 G2 proc v r code Ht2 Hr Hlow [x Hx] Hproc. destruct c2 as [m2 rg2]. by apply (fault_mapped kernel_root proc v code r x m2 f2 R2 U2 G2 (mkMachine m2 rg2)).
Qed.

End cow.

(** ** Entries as the memory-manager crate has them *)

Section example.
#[local] Existing Instance X8664Arch.

Definition ex_frame (e : Z) : option Z :=
  if has (RmmArch.flags e) PRESENT && negb (has (RmmArch.flags e) HUGE_PAGE) then Some (entry_addr e) else None.

(** The leaf entry of an address, if there is one. *)
Fixpoint ex_mapped (m : gmap Z Z) (l : nat) (p v : Z) : bool :=
  let e := ent m p (idx l v) in
  match l with
  | O => has (RmmArch.flags e) PRESENT
  | S l' => match ex_frame e with Some q => ex_mapped m l' q v | None => false end
  end.

#[local] Instance ex_x86 : X86 := {|
  e_flags := RmmArch.flags;
  e_addr := entry_addr;
  e_frame := ex_frame;
  e_entry := entry_new;
  phys_frame := FrameAlloc.example_phys_frame;
  map_to := fun root v _ _ s => (Ok (if ex_mapped (mem (fst s)) 3 root v then PageAlreadyMapped else MapFailed), s);
  translate_addr := fun root v s => (if ex_mapped (mem (fst s)) 3 root v then Ok v else Err tt, s)
|}.

Lemma phys_addr a : phys_ok a <-> addr_ok a.
Proof. unfold phys_ok, addr_ok, fits. done. Qed.

#[local] Instance ex_ok : X86Ok ex_x86.
Proof.
  split; cbn [e_flags e_addr e_frame e_entry phys_frame ex_x86].
  - intros e. unfold flags_ok, RmmArch.flags. rewrite <-Z.land_assoc. f_equal.
  - intros e. apply phys_addr, entry_addr_ok.
  - intros a f Ha Hf. by apply new_fits; [apply phys_addr|].
  - intros a f Ha Hf. by apply flags_of_new; [apply phys_addr|].
  - intros a f Ha Hf. by apply addr_of_new; [apply phys_addr|].
  - done.
  - done.
  - intros a [Ha Hm]. unfold FrameAlloc.example_phys_frame. destruct (Z.ltb_spec a (2 ^ 52)); [|lia]. rewrite Hm. f_equal. lia.
Qed.

Lemma ex_keeps : map_to_keeps.
Proof.
  intros root v q fl s x. cbn [map_to ex_x86 fst]. generalize (mem (fst s)). intros m Hx.
  assert (H : forall l p, utrans m l p v = Some x -> ex_mapped m l p v = true).
  { induction l as [|l IH]; intros p; cbn [utrans ex_mapped e_flags e_addr e_frame ex_x86].
    - by destruct (has _ PRESENT).
    - destruct (ex_frame _); [apply IH|done]. }
  by rewrite (H 3%nat root Hx).
Qed.

(** A fresh table, as an allocation gives it. *)
Lemma ex_new_table c f R U G l :
  tables (mem c) f R U G -> (stdpp.base.size U < stdpp.base.size R)%nat ->
  exists q c' f', regs c' = regs c /\ q ∉ U /\ tables (mem c') f' R ({[q]} ∪ U) (<[q:=l]> G) /\ stdpp.base.size ({[q]} ∪ U) = S (stdpp.base.size U).
Proof.
  intros Ht Hsz. destruct (allocate_frame_ok c f R U (tb_rep _ _ _ _ _ Ht)) as [(q & m1 & f1 & _ & HqR & HqU & Hr1 & Hz & Hd & Hs)|[_ HRU%subseteq_size]]; [|lia].
  exists q, (with_mem m1 c), f1. split_and!; [done|done|by eapply tables_new|]. rewrite size_union, size_singleton by set_solver. done.
Qed.

(** An entry for a user page or table. *)
Lemma ex_link m f R U G p l a :
  tables m f R U G -> G !! p = Some l -> phys_ok a -> (forall l', l = S l' -> G !! a = Some l') ->
  exists m', tables m' f R U G /\ ent m' p 0 = entry_new a 7 /\ forall x, frame_ok x -> x <> p -> ent m' x 0 = ent m x 0.
Proof.
  intros Ht Hp Ha Hch. assert (He : fits 64 (entry_new a 7)) by (apply new_fits; [by apply phys_addr|done]).
  assert (Hfr : ex_frame (entry_new a 7) = Some a).
  { unfold ex_frame. rewrite flags_of_new, addr_of_new by (done || by apply phys_addr). done. }
  destruct (set_tables m f R U G p l 0 (entry_new a 7) Ht Hp ltac:(lia) He) as (Ht' & _ & Hs).
  { intros l' x Hl _. cbn [e_frame ex_x86]. rewrite Hfr. intros [= <-]. by apply Hch. }
  eexists. split; [exact Ht'|]. split; [by rewrite ent_set, decide_True|]. intros x Hx Hne. apply ent_ext; [done|]. by apply Hs.
Qed.

Lemma ex_entry a : phys_ok a -> RmmArch.flags (entry_new a 7) = 7 /\ ex_frame (entry_new a 7) = Some a /\ entry_addr (entry_new a 7) = a.
Proof.
  intros Ha%phys_addr. unfold ex_frame. rewrite flags_of_new, addr_of_new by done. done.
Qed.

(** A frame for a page, before there are tables. *)
Lemma ex_page : exists c f R a, tables (mem c) f R {[a]} ∅ /\ phys_ok a /\ (6 <= stdpp.base.size R)%nat.
Proof.
  destruct RmmSpace.example_boot as (c0 & f0 & R & Hr & Hsz).
  destruct (allocate_frame_ok c0 f0 R ∅ Hr) as [(q & m1 & f1 & _ & HqR & HqU & Hr1 & _)|[_ HRU%subseteq_size]]; [|rewrite size_empty in HRU; lia].
  exists (with_mem m1 c0), f1, R, q. rewrite union_empty_r_L in Hr1. split_and!; [|apply frame_phys; by eapply rep_frame|lia].
  split; [done|intros ?? ?; by rewrite lookup_empty in *..].
Qed.

(** Page 0 mapped to a frame through four tables. *)
Lemma ex_chain :
  exists c f R U G a, tables (mem c) f R U G /\ G !! fst (regs c) = Some 3%nat /\ user_leaf (mem c) 3 (fst (regs c)) 0 = Some (a, 7) /\ a ∈ U /\ ~ R ⊆ U /\
    G !! a = None /\ exists p2 p1 p0, phys_ok p2 /\ phys_ok p1 /\ phys_ok p0 /\
      ent (mem c) (fst (regs c)) 0 = entry_new p2 7 /\ ent (mem c) p2 0 = entry_new p1 7 /\ ent (mem c) p1 0 = entry_new p0 7.
Proof.
  destruct ex_page as (c0 & f0 & R & a & Ht0 & Ha & Hsz). set (U0 := {[a]} : gset Z) in *. assert (S0 : stdpp.base.size U0 = 1%nat) by apply size_singleton.
  destruct (ex_new_table c0 f0 R U0 ∅ 0 Ht0) as (r0 & c1 & f1 & _ & H0 & Ht1 & S1); [lia|].
  destruct (ex_new_table c1 f1 R _ _ 1 Ht1) as (r1 & c2 & f2 & _ & H1 & Ht2 & S2); [lia|].
  destruct (ex_new_table c2 f2 R _ _ 2 Ht2) as (r2 & c3 & f3 & _ & H2 & Ht3 & S3); [lia|].
  destruct (ex_new_table c3 f3 R _ _ 3 Ht3) as (r3 & c4 & f4 & _ & H3 & Ht4 & S4); [lia|].
  rewrite S3, S2, S1, S0 in S4. set (U := {[r3]} ∪ _) in *. set (G := <[r3:=3%nat]> _) in *. set (m := mem c4) in *.
  assert (r0 <> r1 /\ r0 <> r2 /\ r0 <> r3 /\ r1 <> r2 /\ r1 <> r3 /\ r2 <> r3) as (N01 & N02 & N03 & N12 & N13 & N23) by (clear -H0 H1 H2 H3; set_solver).
  assert (G !! r0 = Some 0%nat /\ G !! r1 = Some 1%nat /\ G !! r2 = Some 2%nat /\ G !! r3 = Some 3%nat) as (G0 & G1 & G2 & G3).
  { unfold G. split_and!; repeat (rewrite lookup_insert_eq || rewrite lookup_insert_ne by congruence); done. }
  destruct (tables_frame _ _ _ _ _ _ _ Ht4 G0) as [F0 _]. destruct (tables_frame _ _ _ _ _ _ _ Ht4 G1) as [F1 _].
  destruct (tables_frame _ _ _ _ _ _ _ Ht4 G2) as [F2 _]. destruct (tables_frame _ _ _ _ _ _ _ Ht4 G3) as [F3 _].
  destruct (ex_link m f4 R U G r3 3 r2 Ht4 G3 (frame_phys _ F2) ltac:(congruence)) as (m1 & T1 & E1 & _).
  destruct (ex_link m1 f4 R U G r2 2 r1 T1 G2 (frame_phys _ F1) ltac:(congruence)) as (m2 & T2 & E2 & K2).
  destruct (ex_link m2 f4 R U G r1 1 r0 T2 G1 (frame_phys _ F0) ltac:(congruence)) as (m3 & T3 & E3 & K3).
  destruct (ex_link m3 f4 R U G r0 0 a T3 G0 Ha ltac:(congruence)) as (m4 & T4 & E4 & K4).
  exists (mkMachine m4 (r3, 0)), f4, R, U, G, a. cbn [mem regs fst]. split_and!; [done|done| |unfold U, U0; clear; set_solver|intros HRU%subseteq_size; lia|..].
  2: { unfold G. rewrite !lookup_insert_ne, lookup_empty; [done|..]; clear -H0 H1 H2 H3; unfold U0 in *; set_solver. }
  2: { exists r2, r1, r0. rewrite (K4 r3), (K3 r3), (K2 r3), E1 by congruence. rewrite (K4 r2), (K3 r2), E2 by congruence. rewrite (K4 r1), E3 by congruence.
       split_and!; [by apply frame_phys..|done|done|done]. }
  destruct (ex_entry r2 (frame_phys _ F2)) as (X1 & X2 & _), (ex_entry r1 (frame_phys _ F1)) as (Y1 & Y2 & _), (ex_entry r0 (frame_phys _ F0)) as (Z1 & Z2 & _).
  destruct (ex_entry a Ha) as (W1 & _ & W3). cbn [user_leaf e_flags e_frame e_addr ex_x86]. change (idx 3 0) with 0. change (idx 2 0) with 0. change (idx 1 0) with 0. change (idx 0 0) with 0.
  rewrite (K4 r3), (K3 r3), (K2 r3), E1, X1, X2 by congruence. rewrite (K4 r2), (K3 r2), E2, Y1, Y2 by congruence. rewrite (K4 r1), E3, Z1, Z2 by congruence.
  rewrite E4, W1, W3. done.
Qed.

Lemma ex_tables :
  exists c f R U G a, tables (mem c) f R U G /\ G !! fst (regs c) = Some 3%nat /\ user_leaf (mem c) 3 (fst (regs c)) 0 = Some (a, 7) /\ a ∈ U /\ ~ R ⊆ U.
Proof. destruct ex_chain as (c & f & R & U & G & a & H1 & H2 & H3 & H4 & H5 & _). by exists c, f, R, U, G, a. Qed.

Lemma cow_fork_shares_readonly_witness :
  exists c f R U G a child m' f', tables (mem c) f R U G /\ user_leaf (mem c) 3 (fst (regs c)) 0 = Some (a, 7) /\
    cow_fork_parent (c, Some f) = (Ok child, (with_mem m' c, Some f')) /\ child ∉ U /\ forked (mem c) m' (fst (regs c)) child.
Proof.
  destruct ex_tables as (c & f & R & U & G & a & Ht & Hroot & Hu & _ & HR).
  destruct (cow_fork_shares_readonly c f R U G Ht Hroot) as (m' & f' & _ & [(child & H1 & H2 & H3)|[_ ?]]); [|done].
  exists c, f, R, U, G, a, child, m', f'. done.
Defined.

Lemma cow_fault_unresolved_witness :
  exists c f child c' f' s', cow_fork_parent (c, Some f) = (Ok child, (c', Some f')) /\
    (exists a fl, utrans (mem c') 3 child 0x123 = Some (a, fl) /\ has fl WRITABLE = false) /\
    handle_fault_for 0 (mkFaultProc [Vma.mkVma 0 0x4000 (Vma.mkFlags true true false true true) false None 0 0 None] [] (Some child)) 0x123 7 (c', Some f') = (Ok false, s').
Proof.
  destruct ex_tables as (c & f & R & U & G & a & Ht & Hroot & Hu & _ & HR).
  destruct (cow_fork_ok c f R U G Ht Hroot) as (m' & f' & _ & _ & [(child & U' & G' & Hrun & _ & Ht' & _ & _ & Hch & _)|[_ ?]]); [|done].
  assert (Hu' : is_Some (user_leaf (mem c) 3 (fst (regs c)) 0x123)) by (eexists; exact Hu).
  destruct (cow_fault_unresolved 0 c f R U G child (with_mem m' c) f' ex_keeps Ht Hroot Hrun) as [Hp Hf].
  destruct (Hp 0x123 child ltac:(done) Hu' (or_intror eq_refl)) as (b & fl & Hb & Hfl).
  destruct (Hf (with_mem m' c) f' R U' G' (mkFaultProc [Vma.mkVma 0 0x4000 (Vma.mkFlags true true false true true) false None 0 0 None] [] (Some child)) 0x123 child 7)
    as (o & s' & Hs & Ho); [exact Ht'|exact Hch|done|by rewrite Hb|done|].
  exists c, f, child, (with_mem m' c), f', s'. split; [exact Hrun|]. split; [by exists b, fl|]. destruct Ho as [->|[_ Hn]]; [exact Hs|].
  destruct Hn. apply Forall_cons. split; [|apply Forall_nil_2]. repeat split; cbn; lia.
Defined.

End example.

End PagingCow.
