(* ===== verification/Compress.v ===== *)
(** * Compressed memory

    Models [src/memory/compression/]: the store of compressed pages
    ([store.rs]), the choice of pages worth compressing ([classifier.rs],
    [engine.rs]), the daemon that takes pages out of address spaces
    ([daemon.rs]) and the fault handler that puts them back ([fault.rs]).  The
    LZ4 codec and the floating-point measure of entropy come as an
    interface. *)

From S2P Require Import Prelude Bytes Abi Capability Vma RmmArch RmmFrame RmmBuddy RmmInit RmmMapper RmmWalk RmmMap FrameAlloc Paging PagingCow.
Import RmmArch RmmFrame RmmBuddy RmmWalk RmmMap Paging PagingCow.

Module Compress.

Inductive CompressionTier := Uncompressed | Lz4.

(** [ratio_over n len] is [n as f64 / len as f64 > 0.85]. *)
Class Codec := {
  compress_prepend_size : list Z -> list Z;
  decompress_size_prepended : list Z -> option (list Z);
  entropy_over_high : list Z -> bool;
  entropy_over_low : list Z -> bool;
  ratio_over : Z -> Z -> bool
}.

(** ** Classification *)

Inductive PagePattern := AllZeros | ShortPattern (period : Z) | TextOrCode | Random | Mixed.

Definition ZERO_RUN_THRESHOLD : Z := 64.

Section classifier.
Context `{Codec}.

(** [data.chunks(period)] against the first [period] bytes, the last chunk
    as far as it goes. *)
Fixpoint chunks_match (n : nat) (pattern data : list Z) : bool :=
  match n with
  | O => true
  | S n =>
    match data with
    | [] => true
    | _ :: _ =>
      let chunk := take (length pattern) data in
      if (length chunk <? length pattern)%nat then bool_decide (chunk = take (length chunk) pattern)
      else if bool_decide (chunk = pattern) then chunks_match n pattern (drop (length pattern) data) else false
    end
  end.

Fixpoint short_pattern (n : nat) (period : Z) (data : list Z) : option Z :=
  match n with
  | O => None
  | S n =>
    if zlen data <? period then None
    else if chunks_match (length data) (take (Z.to_nat period) data) data then Some period
    else short_pattern n (period + 1) data
  end.

(** [data.split(|&b| b != 0).map(len).max()] *)
Fixpoint longest_zero_run (data : list Z) (run best : Z) : Z :=
  match data with
  | [] => Z.max run best
  | b :: data => if b =? 0 then longest_zero_run data (run + 1) best else longest_zero_run data 0 (Z.max run best)
  end.

Definition ascii_or_code (b : Z) : bool :=
  ((33 <=? b) && (b <=? 126)) || (b =? 32) || (b =? 9) || (b =? 10) || (b =? 12) || (b =? 13) || (b =? 0).

Definition detect_pattern (data : list Z) : PagePattern :=
  match data with
  | [] => AllZeros
  | _ :: _ =>
    if forallb (fun b => b =? 0) data then AllZeros
    else match short_pattern 16 1 data with
         | Some period => ShortPattern period
         | None =>
           if ZERO_RUN_THRESHOLD <=? longest_zero_run data 0 0 then Mixed
           else if ratio_over (zlen (filter (fun b => ascii_or_code b = true) data)) (zlen data) then TextOrCode
           else if entropy_over_high data then Random
           else Mixed
         end
  end.

(** Whether to compress, and how. *)
Definition decide_tier (data : list Z) (pattern : PagePattern) : bool * CompressionTier :=
  match pattern with
  | AllZeros | ShortPattern _ | TextOrCode => (true, Lz4)
  | Random => (false, Uncompressed)
  | Mixed =>
    if negb (entropy_over_low data) then (true, Lz4)
    else if negb (entropy_over_high data) then (true, Lz4)
    else (false, Uncompressed)
  end.

Definition classify (data : list Z) : bool * CompressionTier := decide_tier data (detect_pattern data).

Definition is_compressible (data : list Z) : bool := fst (classify data).

(** [AdaptiveCompressor::compress] *)
Definition compress (data : list Z) : option (list Z) :=
  if entropy_over_high data then None else Some (compress_prepend_size data).

Definition decompress (compressed : list Z) (original_size : Z) : option (list Z) :=
  if zlen compressed <? 4 then None
  else if (0 <? original_size) && negb (le_word (take 4 compressed) =? original_size) then None
  else decompress_size_prepended compressed.

End classifier.

(** ** The store *)

Record CompressedPageLocation := mkLocation { loc_frame : Z; loc_tier : CompressionTier; original_size : Z; compressed_len : Z }.

Record CompressedPageStore := mkStore { allocated_frames : list Z; page_map : gmap Z CompressedPageLocation }.

Definition empty_store : CompressedPageStore := mkStore [] ∅.

Definition page_start (vaddr : Z) : Z := Z.land vaddr (not_usize 4095).

Definition CState : Type := State * CompressedPageStore.
Abbreviation CM := (M CState unit).

Definition on_machine {A} (m : KM A) : CM A := fun s => let '(r, k) := m (fst s) in (r, (k, snd s)).

Definition get_store : CM CompressedPageStore := fun s => (Ok (snd s), s).
Definition put_store (st : CompressedPageStore) : CM unit := fun s => (Ok tt, (fst s, st)).

(** [Vec::remove] at the first position. *)
Fixpoint remove_first (f : Z) (l : list Z) : list Z :=
  match l with
  | [] => []
  | x :: l => if x =? f then l else x :: remove_first f l
  end.

Section store.
#[local] Existing Instance X8664Arch.
Context `{X : X86} `{CD : Codec} `{VA : VirtAddrOps}.

Definition store (vaddr : Z) (data : list Z) (tier : CompressionTier) : CM bool :=
  o ← on_machine (try allocate_frame);
  match o with
  | None => mret false
  | Some phys_frame =>
    dst ← on_machine (phys_to_virt phys_frame);
    _ ← on_machine (write dst data);
    st ← get_store;
    _ ← put_store (mkStore (allocated_frames st ++ [phys_frame])
          (<[page_start vaddr := mkLocation phys_frame tier 4096 (zlen data)]> (page_map st)));
    mret true
  end.

Definition get_location (vaddr : Z) : CM CompressedPageLocation :=
  st ← get_store;
  match page_map st !! page_start vaddr with Some l => mret l | None => throw tt end.

Definition is_compressed (vaddr : Z) : CM bool :=
  st ← get_store;
  mret (bool_decide (is_Some (page_map st !! page_start vaddr))).

Definition retrieve (vaddr : Z) : CM (list Z) :=
  location ← get_location vaddr;
  src ← on_machine (phys_to_virt (loc_frame location));
  on_machine (read src (compressed_len location)).

Definition release (vaddr : Z) : CM unit :=
  st ← get_store;
  match page_map st !! page_start vaddr with
  | None => mret tt
  | Some location => put_store (mkStore (remove_first (loc_frame location) (allocated_frames st)) (delete (page_start vaddr) (page_map st)))
  end.

Definition get_stats : CM (Z * Z * Z) :=
  st ← get_store;
  let count := Z.of_nat (stdpp.base.size (page_map st)) in
  mret (count, count * 4096, map_fold (fun _ l acc => compressed_len l + acc) 0 (page_map st)).

(** ** The daemon *)

Definition COMPRESSED_BIT : Z := BIT_9.

Definition ctry {A} (m : CM A) : CM (option A) := fun s =>
  match m s with
  | (Ok a, s') => (Ok (Some a), s')
  | (Err _, s') => (Ok None, s')
  | (Panic, s') => (Panic, s')
  | (Fault, s') => (Fault, s')
  end.

(** The body of the loop over the pages of an area: whether the page was
    compressed. *)
Definition compress_page (pt_frame : option Z) (page_addr : Z) : CM bool :=
  entry ← ctry (on_machine (match pt_frame with Some frame => get_leaf_entry_mut_in frame page_addr | None => get_leaf_entry_mut page_addr end));
  match entry with
  | None => mret false
  | Some (t, i) =>
    e ← on_machine (read_entry t i);
    if has (e_flags e) PRESENT && negb (has (e_flags e) COMPRESSED_BIT) then
      virt ← on_machine (phys_to_virt (e_addr e));
      page_data ← on_machine (read virt 4096);
      let '(should_compress, tier) := classify page_data in
      if (should_compress : bool) then
        match compress page_data with
        | None => mret false
        | Some compressed =>
          stored ← store page_addr compressed tier;
          if (stored : bool) then
            _ ← on_machine (write_entry t i (e_entry (e_addr e) (Z.lor (without (e_flags e) PRESENT) COMPRESSED_BIT)));
            mret true
          else mret false
        end
      else mret false
    else mret false
  end.

(** [while page_addr_val < end && total < max_pages] *)
Fixpoint compress_pages (n : nat) (pt_frame : option Z) (page_addr_val end_ max_pages total : Z) : CM Z :=
  match n with
  | O => mret total
  | S n =>
    if (page_addr_val <? end_) && (total <? max_pages) then
      page_addr ← on_machine (va page_addr_val);
      b ← compress_page pt_frame page_addr;
      compress_pages n pt_frame (page_addr_val + 4096) end_ max_pages (if (b : bool) then total + 1 else total)
    else mret total
  end.

Fixpoint compress_vmas (vmas : list Vma.Vma) (pt_frame : option Z) (max_pages total : Z) : CM Z :=
  match vmas with
  | [] => mret total
  | v :: vmas =>
    if max_pages <=? total then mret total
    else
      t ← compress_pages (Z.to_nat ((Vma.end_ v - Vma.start v) / 4096 + 1)) pt_frame (Vma.start v) (Vma.end_ v) max_pages total;
      compress_vmas vmas pt_frame max_pages t
  end.

(** [run_daemon_cycle], over the processes that [with_process] finds: dead
    ones come with no areas. *)
Fixpoint run_daemon_cycle (procs : list (option Z * list Vma.Vma)) (max_pages total : Z) : CM Z :=
  match procs with
  | [] => mret total
  | (pt_frame, vmas) :: procs =>
    if max_pages <=? total then mret total
    else t ← compress_vmas vmas pt_frame max_pages total; run_daemon_cycle procs max_pages t
  end.

(** ** Faults *)

Definition handle_compressed_fault (addr : Z) : CM bool :=
  pte ← ctry (on_machine (get_leaf_entry_mut addr));
  match pte with
  | None => mret false
  | Some (t, i) =>
    e ← on_machine (read_entry t i);
    if negb (has (e_flags e) COMPRESSED_BIT) then mret false
    else
      location ← ctry (get_location addr);
      match location with
      | None => mret false
      | Some location =>
        compressed_data ← ctry (retrieve addr);
        match compressed_data with
        | None => mret false
        | Some compressed_data =>
          match decompress compressed_data (original_size location) with
          | None => mret false
          | Some decompressed =>
            o ← on_machine (try allocate_frame);
            match o with
            | None => mret false
            | Some phys_addr =>
              dst ← on_machine (phys_to_virt phys_addr);
              _ ← (if zlen decompressed <? 4096 then lift Fault else on_machine (write dst (take 4096 decompressed)));
              _ ← on_machine (write_entry t i (e_entry phys_addr (Z.lor (without (e_flags e) COMPRESSED_BIT) PRESENT)));
              _ ← release addr;
              mret true
            end
          end
        end
      end
  end.

End store.

End Compress.
