(* ===== verification/CompressSpec.v ===== *)
(** * What the compressed-page store keeps

    The store as a map from pages to byte strings, and what becomes of a page
    the daemon compressed. *)

From S2P Require Import Prelude Bytes Abi Capability Vma RmmArch RmmFrame RmmBuddy RmmInit RmmMapper RmmWalk RmmMap RmmSpace FrameAlloc Paging PagingCow Compress.
Import RmmArch RmmFrame RmmBuddy RmmWalk RmmMap Paging PagingCow Compress.

Module CompressSpec.

Section spec.
#[local] Existing Instance X8664Arch.
Context `{X : X86} `{XO : !X86Ok X} `{CD : Codec} `{VA : VirtAddrOps}.

Implicit Types (m : gmap Z Z) (c : Machine) (f : BuddyAllocator) (R U : gset Z) (st : CompressedPageStore) (C : gmap Z (list Z)).

(** ** The store as a map *)

Record holds m f R U st C : Prop := {
  ho_rep : rep m f R U;
  ho_dom k : is_Some (C !! k) <-> is_Some (page_map st !! k);
  ho_frame k loc : page_map st !! k = Some loc -> loc_frame loc ∈ U;
  ho_data k loc d : page_map st !! k = Some loc -> C !! k = Some d ->
    zlen d = compressed_len loc /\ zlen d <= 4096 /\ load (E:=unit) m (V (loc_frame loc)) (zlen d) = Ok d
}.

Inductive StoreOp := Store (vaddr : Z) (data : list Z) (tier : CompressionTier) | Release (vaddr : Z).

Definition run_op (op : StoreOp) : CM bool :=
  match op with
  | Store v d t => store v d t
  | Release v => _ ← release v; mret true
  end.

Definition op_fits (op : StoreOp) : Prop := match op with Store _ d _ => zlen d <= 4096 | Release _ => True end.

Definition spec_op (op : StoreOp) C : gmap Z (list Z) :=
  match op with
  | Store v d _ => <[page_start v := d]> C
  | Release v => delete (page_start v) C
  end.

Lemma load_same m m' p d n : n <= 4096 -> same_frame m m' p -> load (E:=unit) m (V p) n = Ok d -> load (E:=unit) m' (V p) n = Ok d.
Proof.
  intros Hn Hs Hl. rewrite <-Hl. apply load_ext. intros a Ha. apply Hs. unfold in_frame. change PAGE_SIZE with 4096. lia.
Qed.

Lemma phys_to_virt_ok p (s : State) : frame_ok p -> phys_to_virt p s = (Ok (V p), s).
Proof. intros (H1 & H2 & H3). unfold phys_to_virt, lift. pose proof (page_size_pos (A:=X8664Arch)). by rewrite uadd_ok by lia. Qed.

Lemma store_ok v d t c f R U st C :
  holds (mem c) f R U st C -> zlen d <= 4096 ->
  (exists m' f' U' st', store v d t ((c, Some f), st) = (Ok true, ((with_mem m' c, Some f'), st')) /\ holds m' f' R U' st' (<[page_start v := d]> C) /\
     stdpp.base.size U' = S (stdpp.base.size U) /\ U ⊆ U' /\ forall x, x ∈ U -> same_frame (mem c) m' x) \/
  (store v d t ((c, Some f), st) = (Ok false, ((c, Some f), st)) /\ R ⊆ U).
Proof.
  intros [Hr Hdom Hfr Hdata] Hd. unfold store, mbind, M_bind, on_machine, try. cbn [fst snd].
  destruct (allocate_frame_ok c f R U Hr) as [(q & m1 & f1 & -> & HqR & HqU & Hr1 & Hz & Hdm & Hs)|[-> HRU]]; [left|by right].
  assert (Hq1 : q ∈ {[q]} ∪ U) by (clear; set_solver). destruct (used_frame _ _ _ _ q Hr1 Hq1) as [Hqf Hqm]. cbn [fst snd]. rewrite phys_to_virt_ok by done.
  assert (Hmd : mapped m1 (V q) (zlen d)) by (apply (mapped_sub _ _ _ _ _ Hqm); change PAGE_SIZE with 4096; lia).
  cbn [fst snd]. rewrite write_ok by done. rewrite with_mem_mem, with_mem_twice. unfold get_store, put_store, mret, M_ret. cbn [fst snd].
  set (m2 := store_bytes m1 (V q) d). set (st' := mkStore _ _).
  assert (Hs2 : forall x, x ∈ U -> same_frame m1 m2 x).
  { intros x Hx a Ha. unfold m2. rewrite store_bytes_lookup, decide_False; [done|]. intros Hin. apply (frames_apart x q a); [by apply (used_frame _ _ _ _ x Hr Hx)|done|congruence|done|].
    unfold in_frame. change PAGE_SIZE with 4096. lia. }
  exists m2, f1, ({[q]} ∪ U), st'. split; [done|]. split; [|split; [|split; [clear; set_solver|intros x Hx; eapply same_frame_trans; [by apply Hs|by apply Hs2]]]].
  2: { rewrite size_union, size_singleton by (clear -HqU; set_solver). done. }
  split.
  - eapply rep_stable; [exact Hr1|by apply same_dom_store|]. intros a Ha. unfold m2. rewrite store_bytes_lookup, decide_False; [done|].
    intros Hin. apply (Ha q Hq1). unfold in_frame. change PAGE_SIZE with 4096. lia.
  - intros k. cbn [page_map st']. destruct (decide (k = page_start v)) as [->|Hne]; [rewrite !lookup_insert_eq; split; eauto|]. by rewrite !lookup_insert_ne.
  - intros k loc Hk. cbn [page_map st'] in Hk. apply lookup_insert_Some in Hk as [[_ <-]|[_ Hk]]; [done|]. apply elem_of_union. right. by eapply Hfr.
  - intros k loc x Hk Hx. cbn [page_map st'] in Hk. destruct (decide (k = page_start v)) as [->|Hne].
    + rewrite lookup_insert_eq in Hk. rewrite lookup_insert_eq in Hx. simplify_eq. cbn [compressed_len loc_frame]. split_and!; [done..|]. apply load_store_same.
    + rewrite lookup_insert_ne in Hk by done. rewrite lookup_insert_ne in Hx by done. destruct (Hdata _ _ _ Hk Hx) as (H1 & H2 & H3). split_and!; [done..|].
      eapply load_same; [done| |exact H3]. eapply same_frame_trans; [apply Hs|apply Hs2]; by eapply Hfr.
Qed.

Lemma page_release_ok v c f R U st C :
  holds (mem c) f R U st C ->
  exists st', release v ((c, Some f), st) = (Ok tt, ((c, Some f), st')) /\ holds (mem c) f R U st' (delete (page_start v) C).
Proof.
  intros [Hr Hdom Hfr Hdata]. unfold release, mbind, M_bind, get_store. cbn [snd]. destruct (page_map st !! page_start v) as [loc|] eqn:Hloc.
  - eexists. split; [done|]. split; cbn [page_map].
    + done.
    + intros k. destruct (decide (k = page_start v)) as [->|Hne]; [by rewrite !lookup_delete_eq|by rewrite !lookup_delete_ne].
    + intros k l [_ Hk]%lookup_delete_Some. by eapply Hfr.
    + intros k l d [_ Hk]%lookup_delete_Some [_ Hd]%lookup_delete_Some. by eapply Hdata.
  - exists st. split; [done|]. assert (C !! page_start v = None) as Hn.
    { destruct (C !! page_start v) eqn:Hc; [|done]. destruct (Hdom (page_start v)) as [H1 _]. rewrite Hloc in H1. destruct H1; [by eauto|done]. }
    by rewrite delete_id.
Qed.

Lemma run_op_ok op c f R U st C :
  holds (mem c) f R U st C -> op_fits op ->
  exists b m' f' U' st', run_op op ((c, Some f), st) = (Ok b, ((with_mem m' c, Some f'), st')) /\
    holds m' f' R U' st' (if (b : bool) then spec_op op C else C) /\
    (stdpp.base.size U' <= S (stdpp.base.size U))%nat /\ ((stdpp.base.size U < stdpp.base.size R)%nat -> b = true).
Proof.
  intros Hh Hop. destruct op as [v d t|v]; cbn [run_op spec_op].
  - destruct (store_ok v d t c f R U st C Hh Hop) as [(m' & f' & U' & st' & -> & Hh' & Hsz & _ & _)|[-> HR%subseteq_size]].
    + exists true, m', f', U', st'. split_and!; [done|done|lia|done].
    + exists false, (mem c), f, U, st. split_and!; [by destruct c|done|lia|lia].
  - destruct (page_release_ok v c f R U st C Hh) as (st' & Hrun & Hh'). exists true, (mem c), f, U, st'. unfold mbind, M_bind. rewrite Hrun. split_and!; [by destruct c|done|lia|done].
Qed.

(** A sequence of operations, with the ones that succeeded. *)
Fixpoint run_ops (ops : list StoreOp) : CM (list bool) :=
  match ops with
  | [] => mret []
  | op :: ops => b ← run_op op; bs ← run_ops ops; mret (b :: bs)
  end.

Fixpoint spec_ops (ops : list StoreOp) (bs : list bool) C : gmap Z (list Z) :=
  match ops, bs with
  | op :: ops, b :: bs => spec_ops ops bs (if (b : bool) then spec_op op C else C)
  | _, _ => C
  end.

Lemma store_ops_ok ops c f R U st C :
  holds (mem c) f R U st C -> Forall op_fits ops ->
  exists bs m' f' U' st', run_ops ops ((c, Some f), st) = (Ok bs, ((with_mem m' c, Some f'), st')) /\ holds m' f' R U' st' (spec_ops ops bs C) /\
    ((stdpp.base.size U + length ops <= stdpp.base.size R)%nat -> bs = replicate (length ops) true).
Proof.
  revert c f U st C. induction ops as [|op ops IH]; intros c f U st C Hh Hops; cbn [run_ops].
  { exists [], (mem c), f, U, st. split_and!; [by destruct c|done|done]. }
  apply Forall_cons in Hops as [Hop Hops]. destruct (run_op_ok op c f R U st C Hh Hop) as (b & m1 & f1 & U1 & st1 & Hrun & Hh1 & Hsz1 & Hb).
  destruct (IH (with_mem m1 c) f1 U1 st1 _ Hh1 Hops) as (bs & m' & f' & U' & st' & Hrest & Hh' & Hbs). exists (b :: bs), m', f', U', st'.
  unfold mbind, M_bind. rewrite Hrun, Hrest. split_and!; [done..|]. cbn [length replicate]. intros Hsz. rewrite Hb, Hbs by lia. done.
Qed.

Lemma retrieve_ok v c f R U st C :
  holds (mem c) f R U st C ->
  retrieve v ((c, Some f), st) = (match C !! page_start v with Some d => Ok d | None => Err tt end, ((c, Some f), st)).
Proof.
  intros [Hr Hdom Hfr Hdata]. unfold retrieve, get_location, mbind, M_bind, get_store. cbn [snd]. destruct (page_map st !! page_start v) as [loc|] eqn:Hloc.
  - destruct (Hdom (page_start v)) as [_ [d Hd]]; [by rewrite Hloc; eauto|]. rewrite Hd. destruct (Hdata _ _ _ Hloc Hd) as (H1 & H2 & H3).
    destruct (used_frame _ _ _ _ (loc_frame loc) Hr (Hfr _ _ Hloc)) as [Hf _]. unfold on_machine. cbn [fst snd]. unfold mret, M_ret. cbn [fst snd].
    rewrite phys_to_virt_ok by done. cbn [fst snd]. rewrite <-H1. by rewrite (read_ok _ _ _ c (Some f) H3).
  - destruct (C !! page_start v) as [d|] eqn:Hd; [|done]. destruct (Hdom (page_start v)) as [[l Hl] _]; [by rewrite Hd; eauto|congruence].
Qed.

Lemma holds_empty m f R U : rep m f R U -> holds m f R U empty_store ∅.
Proof. intros Hr. split; [done|intros k; cbn; by rewrite !lookup_empty|intros k l; cbn; by rewrite lookup_empty..]. Qed.

(** C18. The compressed-page store, after any sequence of stores of at most a
    page and releases: none of them panics or faults, all of them succeed as
    long as there are frames for them, and then retrieving any page returns
    exactly the bytes of the last store of that page that was not released,
    and nothing for the others. *)
Theorem page_store_returns_what_was_stored ops v c f R U :
  rep (mem c) f R U -> Forall op_fits ops ->
  exists bs s', run_ops ops ((c, Some f), empty_store) = (Ok bs, s') /\
    ((stdpp.base.size U + length ops <= stdpp.base.size R)%nat -> bs = replicate (length ops) true) /\
    fst (retrieve v s') = (match spec_ops ops bs ∅ !! page_start v with Some d => Ok d | None => Err tt end).
Proof.
  intros Hr Hops. pose proof (holds_empty _ _ _ _ Hr) as Hh.
  destruct (store_ops_ok ops c f R U empty_store ∅ Hh Hops) as (bs & m' & f' & U' & st' & Hrun & Hh' & Hbs).
  exists bs, ((with_mem m' c, Some f'), st'). split; [done|]. split; [done|]. by rewrite (retrieve_ok v (with_mem m' c) f' R U' st' _ Hh').
Qed.

(** ** Pages the daemon compressed *)

(** The lowest table on the way to [v]. *)
Fixpoint leaf_table m (l : nat) (p v : Z) : option Z :=
  match l with
  | O => Some p
  | S l' => match e_frame (ent m p (idx l v)) with Some q => leaf_table m l' q v | None => None end
  end.

Lemma leaf_table_level m G l p v t : typed m G -> (l <= 3)%nat -> low l v -> G !! p = Some l -> leaf_table m l p v = Some t -> G !! t = Some 0%nat.
Proof.
  intros Ht. revert p. induction l as [|l IH]; intros p Hl Hlow Hp; cbn [leaf_table]; [congruence|].
  destruct (e_frame (ent m p (idx (S l) v))) as [q|] eqn:Hq; [|done]. apply IH; [lia|apply low_below; lia|].
  eapply Ht; [done| |done]. split; [apply idx_512|done].
Qed.

Lemma leaf_table_frame m m' G l p v :
  typed m G -> (l <= 3)%nat -> low l v -> G !! p = Some l -> (forall q k, G !! q = Some k -> (0 < k)%nat -> same_frame m m' q) ->
  leaf_table m' l p v = leaf_table m l p v.
Proof.
  intros Ht. revert p. induction l as [|l IH]; intros p Hl Hlow Hp Hs; cbn [leaf_table]; [done|].
  rewrite (ent_ext m m') by (apply idx_range || (eapply Hs; [done|lia])). destruct (e_frame (ent m p (idx (S l) v))) as [q|] eqn:Hq; [|done].
  apply IH; [lia|apply low_below; lia| |done]. eapply Ht; [done| |done]. split; [apply idx_512|done].
Qed.

Lemma l_idx_eq l v : (l <= 3)%nat -> l_idx v (shift_at l) = idx l v.
Proof.
  intros Hl. unfold l_idx, idx. rewrite Z.shiftr_div_pow2 by (unfold shift_at; change PAGE_ENTRY_SHIFT with 9; change PAGE_SHIFT with 12; lia).
  change 0x1FF with (Z.ones 9). rewrite Z.land_ones by lia. by rewrite entries_512.
Qed.

Definition leaf_result m (t : option Z) (v : Z) : res unit (Z * Z) :=
  match t with Some t => if has (e_flags (ent m t (idx 0 v))) PRESENT then Ok (t, idx 0 v) else Err tt | None => Err tt end.

Lemma get_leaf_ok m f R U G c root v (s : option BuddyAllocator) :
  tables m f R U G -> G !! root = Some 3%nat -> low 3 v ->
  get_leaf_entry_mut_in root v (with_mem m c, s) = (leaf_result m (leaf_table m 3 root v) v, (with_mem m c, s)).
Proof.
  intros Ht Hroot Hlow. unfold get_leaf_entry_mut_in. pose proof (l_idx_eq 3 v ltac:(lia)) as E3. pose proof (l_idx_eq 2 v ltac:(lia)) as E2.
  pose proof (l_idx_eq 1 v ltac:(lia)) as E1. pose proof (l_idx_eq 0 v ltac:(lia)) as E0.
  change (shift_at 3) with 39 in E3. change (shift_at 2) with 30 in E2. change (shift_at 1) with 21 in E1. change (shift_at 0) with 12 in E0.
  rewrite E3, E2, E1, E0. assert (Hrd : forall p l i, G !! p = Some l -> 0 <= i < 512 -> read_entry p i (with_mem m c, s) = (Ok (ent m p i), (with_mem m c, s))).
  { intros p l i Hp Hi. destruct (tables_frame _ _ _ _ _ _ _ Ht Hp) as [Hf Hm]. by rewrite pte_read_ok. }
  assert (Hty : forall p l q, G !! p = Some (S l) -> low (S l) v -> e_frame (ent m p (idx (S l) v)) = Some q -> G !! q = Some l).
  { intros p l q Hp Hlw Hq. eapply (tb_typed _ _ _ _ _ Ht); [done| |done]. split; [apply idx_512|done]. }
  cbn [leaf_table]. unfold mbind, M_bind. rewrite (Hrd root 3%nat) by (done || apply idx_512). pose proof (frame_spec (ent m root (idx 3 v))) as F3.
  destruct (has (e_flags (ent m root (idx 3 v))) PRESENT); cbn [negb andb] in *; [|by rewrite F3].
  destruct (e_frame (ent m root (idx 3 v))) as [p2|] eqn:Q3; [|done]. pose proof (Hty _ _ _ Hroot Hlow Q3) as G2. cbn [some_frame]. unfold mret, M_ret.
  rewrite (Hrd p2 2%nat) by (done || apply idx_512). pose proof (frame_spec (ent m p2 (idx 2 v))) as F2.
  destruct (has (e_flags (ent m p2 (idx 2 v))) PRESENT); cbn [negb andb] in *; [|by rewrite F2].
  destruct (e_frame (ent m p2 (idx 2 v))) as [p1|] eqn:Q2; [|done]. pose proof (Hty _ _ _ G2 (low_below 2 v ltac:(lia)) Q2) as G1. cbn [some_frame]. unfold mret, M_ret.
  rewrite (Hrd p1 1%nat) by (done || apply idx_512). pose proof (frame_spec (ent m p1 (idx 1 v))) as F1.
  destruct (has (e_flags (ent m p1 (idx 1 v))) PRESENT); cbn [negb andb] in *; [|by rewrite F1].
  destruct (has (e_flags (ent m p1 (idx 1 v))) HUGE_PAGE); cbn [negb] in *; [by rewrite F1|].
  destruct (e_frame (ent m p1 (idx 1 v))) as [p0|] eqn:Q1; [|done]. pose proof (Hty _ _ _ G1 (low_below 1 v ltac:(lia)) Q1) as G0. cbn [some_frame]. unfold mret, M_ret.
  rewrite (Hrd p0 0%nat) by (done || apply idx_512). unfold leaf_result. by destruct (has (e_flags (ent m p0 (idx 0 v))) PRESENT).
Qed.

Lemma get_leaf_mem f R U G c root v (s : option BuddyAllocator) :
  tables (mem c) f R U G -> G !! root = Some 3%nat -> low 3 v ->
  get_leaf_entry_mut_in root v (c, s) = (leaf_result (mem c) (leaf_table (mem c) 3 root v) v, (c, s)).
Proof. intros Ht Hroot Hlow. pose proof (get_leaf_ok _ _ _ _ _ c root v s Ht Hroot Hlow) as H. by destruct c. Qed.

Lemma compressed_flags fl : flags_ok fl ->
  flags_ok (Z.lor (without fl PRESENT) COMPRESSED_BIT) /\ has (Z.lor (without fl PRESENT) COMPRESSED_BIT) PRESENT = false.
Proof.
  intros Hf. split.
  - unfold flags_ok. rewrite Z.land_lor_distr_l. by rewrite (without_ok fl PRESENT Hf : Z.land _ _ = _).
  - unfold has. rewrite Z.land_lor_distr_l. change (Z.land COMPRESSED_BIT PRESENT) with 0. rewrite Z.lor_0_r. by apply has_without_same.
Qed.

Lemma typed_stable m m' G : typed m G -> (forall p l, G !! p = Some l -> same_frame m m' p) -> typed m' G.
Proof.
  intros Ht Hs p l i q Hp Hi. rewrite (ent_ext m m') by (rewrite ?entries_512; (by eapply Hs) || (pose proof (limit_range (S l)); lia)).
  by apply Ht.
Qed.

Lemma tables_grow m m' f f' R U U' G :
  tables m f R U G -> rep m' f' R U' -> U ⊆ U' -> (forall x, x ∈ U -> same_frame m m' x) -> tables m' f' R U' G.
Proof.
  intros Ht Hr HU Hs. assert (Hg : forall p l, G !! p = Some l -> same_frame m m' p) by (intros p l Hp; eapply Hs, tb_held; done). split; [done| | |].
  - intros p l Hp. by eapply HU, tb_held.
  - eapply typed_stable; [by eapply tb_typed|done].
  - intros p l i Hp Hi. rewrite (ent_ext m) by (done || by eapply Hg). by eapply tb_fits.
Qed.

(** An entry of a lowest table that is made not present. *)
Lemma leaf_cleared m f R U G root v t e c (s : option BuddyAllocator) :
  tables m f R U G -> G !! root = Some 3%nat -> low 3 v -> leaf_table m 3 root v = Some t -> fits 64 e -> has (e_flags e) PRESENT = false ->
  fst (regs c) = root -> let s' := (with_mem (set_m m t (idx 0 v) e) c, s) in get_leaf_entry_mut v s' = (Err tt, s').
Proof.
  intros Ht Hroot Hlow Hleaf He Hcl Hcr s'. assert (Htl : G !! t = Some 0%nat) by (eapply (leaf_table_level m G 3 root v); [by eapply tb_typed|lia|done..]).
  destruct (set_tables m f R U G t 0 (idx 0 v) e Ht Htl (idx_512 _ _) He) as (Ht' & _ & Hs); [done|].
  unfold get_leaf_entry_mut, mbind, M_bind, cr3, s'. cbn [fst snd with_mem regs]. rewrite Hcr. erewrite (get_leaf_ok _ f R U G) by done.
  rewrite (leaf_table_frame m _ G); [|by eapply tb_typed|lia|done..|].
  - rewrite Hleaf. unfold leaf_result. rewrite ent_set, decide_True by done. by rewrite Hcl.
  - intros q k Hq Hk. apply Hs; [by eapply tables_frame|]. intros ->. rewrite Htl in Hq. simplify_eq. lia.
Qed.

(** What [compress_page] did where it returns true. *)
Lemma compress_page_inv root v c f R U G st C s' :
  tables (mem c) f R U G -> holds (mem c) f R U st C -> G !! root = Some 3%nat -> low 3 v ->
  (forall d z, zlen d = 4096 -> compress d = Some z -> zlen z <= 4096) ->
  compress_page (Some root) v ((c, Some f), st) = (Ok true, s') ->
  exists m1 f1 U1 st1 t z e, holds m1 f1 R U1 st1 (<[page_start v := z]> C) /\ U ⊆ U1 /\ (forall x, x ∈ U -> same_frame (mem c) m1 x) /\
    leaf_table (mem c) 3 root v = Some t /\ fits 64 e /\ has (e_flags e) PRESENT = false /\ s' = ((with_mem (set_m m1 t (idx 0 v) e) c, Some f1), st1).
Proof.
  intros Ht Hh Hroot Hlow Hz. unfold compress_page, mbind, M_bind, ctry, on_machine. cbn [fst snd].
  rewrite (get_leaf_mem f R U G) by done.
  unfold leaf_result. destruct (leaf_table (mem c) 3 root v) as [t|] eqn:Hleaf; [|done]. destruct (has _ PRESENT); [|done].
  assert (Htl : G !! t = Some 0%nat) by (eapply (leaf_table_level _ G 3 root v); [by eapply tb_typed|lia|done..]).
  destruct (tables_frame _ _ _ _ _ _ _ Ht Htl) as [Htf Htm]. cbn [fst snd]. rewrite pte_read_ok by (done || apply idx_512). cbn [fst snd].
  set (e := ent (mem c) t (idx 0 v)). destruct (has (e_flags e) PRESENT && _); [|done].
  unfold phys_to_virt, lift. destruct (uadd _ _) as [va| | |]; [|done..]. cbn [fst snd]. unfold read. cbn [fst snd].
  destruct (load (mem c) va 4096) as [d| | |] eqn:Hd; [|done..]. apply load_length in Hd. destruct (classify d) as [[] tier]; [|done].
  destruct (compress d) as [z|] eqn:Hcz; [|done]. specialize (Hz d z ltac:(lia) Hcz). cbn [fst snd].
  change State with (Machine * option BuddyAllocator)%type.
  destruct (store_ok v z tier c f R U st C Hh Hz) as [(m1 & f1 & U1 & st1 & -> & Hh1 & _ & HU & Hs)|[-> _]]; [|done].
  pose proof (compressed_flags _ (flags_valid e)) as [Hfl Hcl]. pose proof (addr_valid e) as Ha. cbn [fst snd].
  assert (Htm1 : mapped m1 (V t) PAGE_SIZE) by (eapply used_frame; [apply (ho_rep _ _ _ _ _ _ Hh1)|by eapply HU, tb_held]).
  rewrite pte_write_ok by (done || apply idx_512). rewrite with_mem_mem, with_mem_twice. unfold mret, M_ret. intros [= <-].
  exists m1, f1, U1, st1, t, z. eexists. split_and!; [done..| | |done]; [by apply entry_valid|by rewrite flags_entry].
Qed.

Lemma user_leaf_table m l p v a fl : user_leaf m l p v = Some (a, fl) ->
  exists t, leaf_table m l p v = Some t /\ e_addr (ent m t (idx 0 v)) = a /\ e_flags (ent m t (idx 0 v)) = fl /\ has fl PRESENT = true.
Proof.
  revert p. induction l as [|l IH]; intros p; cbn [user_leaf leaf_table].
  - destruct (has _ USER_ACCESSIBLE); [|done]. destruct (has _ PRESENT) eqn:Hp; [|done]. intros [= <- <-]. eauto.
  - destruct (has _ USER_ACCESSIBLE); [|done]. destruct (e_frame _) as [q|]; [apply IH|done].
Qed.

(** A page it compresses. *)
Lemma compress_page_ok root v a fl d z c f R U G st C :
  tables (mem c) f R U G -> holds (mem c) f R U st C -> G !! root = Some 3%nat -> low 3 v -> ~ R ⊆ U ->
  user_leaf (mem c) 3 root v = Some (a, fl) -> has fl COMPRESSED_BIT = false -> frame_ok a -> load (E:=unit) (mem c) (V a) 4096 = Ok d ->
  fst (classify d) = true -> compress d = Some z -> zlen z <= 4096 ->
  exists s', compress_page (Some root) v ((c, Some f), st) = (Ok true, s').
Proof.
  intros Ht Hh Hroot Hlow HR (t & Hleaf & Hea & Hef & Hp)%user_leaf_table Hcb Ha Hd Hcl Hcz Hz. unfold compress_page, mbind, M_bind, ctry, on_machine. cbn [fst snd].
  rewrite (get_leaf_mem f R U G) by done.
  unfold leaf_result. rewrite Hleaf, Hef, Hp.
  assert (Htl : G !! t = Some 0%nat) by (eapply (leaf_table_level _ G 3 root v); [by eapply tb_typed|lia|done..]).
  destruct (tables_frame _ _ _ _ _ _ _ Ht Htl) as [Htf Htm]. cbn [fst snd]. rewrite pte_read_ok by (done || apply idx_512). cbn [fst snd]. rewrite Hef, Hea, Hp, Hcb. cbn [negb andb].
  change State with (Machine * option BuddyAllocator)%type. rewrite phys_to_virt_ok by done. cbn [fst snd]. rewrite (read_ok _ _ _ c (Some f) Hd).
  destruct (classify d) as [b tier]. cbn [fst] in Hcl. subst b. rewrite Hcz. cbn [fst snd].
  destruct (store_ok v z tier c f R U st C Hh Hz) as [(m1 & f1 & U1 & st1 & -> & Hh1 & _ & HU & Hs)|[_ ?]]; [|done]. cbn [fst snd].
  assert (Htm1 : mapped m1 (V t) PAGE_SIZE) by (eapply used_frame; [apply (ho_rep _ _ _ _ _ _ Hh1)|by eapply HU, tb_held]).
  rewrite pte_write_ok by (done || apply idx_512). eauto.
Qed.

(** A page the compression daemon compressed is never brought back.  Once
    [compress_page] has stored a page of the current address space, the store
    holds it, but the fault handler finds no leaf entry for its address, since
    [get_leaf_entry_mut] asks for the PRESENT bit the daemon has just cleared:
    it reports the fault as not its own and changes nothing.  The codec is
    taken not to expand the page. *)
Theorem compressed_page_lost root v c f R U G st C s' :
  tables (mem c) f R U G -> holds (mem c) f R U st C -> G !! root = Some 3%nat -> low 3 v -> fst (regs c) = root ->
  (forall d z, zlen d = 4096 -> compress d = Some z -> zlen z <= 4096) ->
  compress_page (Some root) v ((c, Some f), st) = (Ok true, s') ->
  fst (is_compressed v s') = Ok true /\ handle_compressed_fault v s' = (Ok false, s').
Proof.
  intros Ht Hh Hroot Hlow Hcr Hz Hrun. destruct (compress_page_inv _ _ _ _ _ _ _ _ _ _ Ht Hh Hroot Hlow Hz Hrun) as (m1 & f1 & U1 & st1 & t & z & e & Hh1 & HU & Hs & Hleaf & He & Hcl & ->).
  assert (Ht1 : tables m1 f1 R U1 G) by (eapply tables_grow; [done|apply (ho_rep _ _ _ _ _ _ Hh1)|done..]). split.
  - unfold is_compressed, mbind, M_bind, get_store. cbn [fst snd]. unfold mret, M_ret. rewrite bool_decide_true; [done|]. apply (ho_dom _ _ _ _ _ _ Hh1). rewrite lookup_insert_eq. eauto.
  - unfold handle_compressed_fault, mbind, M_bind, ctry, on_machine. cbn [fst snd]. erewrite (leaf_cleared m1 f1 R U1 G root v t e c (Some f1)); try done.
    erewrite leaf_table_frame; [done|by eapply tb_typed|lia|done..|]. intros q k Hq _. by eapply Hs, tb_held.
Qed.

End spec.

(** ** An example *)

Section example.
#[local] Existing Instance X8664Arch.
#[local] Existing Instance ex_x86.
#[local] Existing Instance ex_ok.

(** A codec for pages of one byte. *)
#[local] Instance ex_codec : Codec := {|
  compress_prepend_size := fun d => le_bytes 4 (zlen d) ++ take 1 d;
  decompress_size_prepended := fun z => Some (replicate (Z.to_nat (le_word (take 4 z))) (default 0 (z !! 4%nat)));
  entropy_over_high := fun _ => false;
  entropy_over_low := fun _ => false;
  ratio_over := fun n len => 85 * len <? 100 * n
|}.

Lemma page_store_returns_what_was_stored_witness :
  exists c f bs s', run_ops [Store 0x1000 [1; 2] Lz4; Store 0x2000 [3] Lz4; Store 0x1008 [4] Lz4; Release 0x2000] ((c, Some f), empty_store) = (Ok bs, s') /\
    fst (retrieve 0x1FFF s') = Ok [4] /\ fst (retrieve 0x2000 s') = Err tt.
Proof.
  destruct RmmSpace.example_boot as (c & f & R & Hr & Hsz). set (ops := [Store 0x1000 _ _; _; _; _]).
  assert (Hops : Forall op_fits ops) by (unfold ops; repeat (apply Forall_cons_2; [vm_compute; congruence || exact I|]); apply Forall_nil_2).
  destruct (page_store_returns_what_was_stored ops 0x1FFF c f R ∅ Hr Hops) as (bs & s' & Hrun & Hbs & Hget).
  destruct (page_store_returns_what_was_stored ops 0x2000 c f R ∅ Hr Hops) as (bs2 & s2 & Hrun2 & _ & Hget2).
  rewrite Hrun in Hrun2. injection Hrun2 as <- <-. rewrite Hbs in Hget, Hget2 by (rewrite size_empty; cbn; lia).
  exists c, f, bs, s'. split; [exact Hrun|]. split; [exact Hget|exact Hget2].
Defined.

Lemma ex_classify d : fst (classify d) = true.
Proof. unfold classify, detect_pattern, decide_tier. destruct d; [done|]. by repeat case_match. Qed.

Lemma compressed_page_lost_witness :
  exists c f s', compress_page (Some (fst (regs c))) 0 ((c, Some f), empty_store) = (Ok true, s') /\
    fst (is_compressed 0 s') = Ok true /\ handle_compressed_fault 0 s' = (Ok false, s').
Proof.
  destruct ex_tables as (c & f & R & U & G & a & Ht & Hroot & Hu & Ha & HR). destruct (used_frame _ _ _ _ a (tb_rep _ _ _ _ _ Ht) Ha) as [Hfa Hma].
  destruct (load_mapped (E:=unit) (mem c) (V a) 4096 Hma) as [d Hd].
  assert (Hz : forall d z : list Z, zlen d = 4096 -> compress d = Some z -> zlen z <= 4096).
  { intros d0 z _ [= <-]. destruct d0; vm_compute; congruence. }
  assert (Hh : holds (mem c) f R U empty_store ∅) by (apply holds_empty; by eapply tb_rep).
  destruct (compress_page_ok (fst (regs c)) 0 a 7 d _ c f R U G empty_store ∅ Ht Hh Hroot ltac:(done) HR Hu ltac:(done) Hfa Hd (ex_classify d) eq_refl) as [s' Hrun].
  { apply (Hz d); [|done]. by apply load_length in Hd. }
  exists c, f, s'. split; [exact Hrun|]. exact (compressed_page_lost (fst (regs c)) 0 c f R U G empty_store ∅ s' Ht Hh Hroot ltac:(done) eq_refl Hz Hrun).
Defined.

End example.

End CompressSpec.
