(* ===== verification/UserCopy.v ===== *)
(** * User memory from the kernel

    Models [copy_from_user] and [copy_to_user] of [src/memory/mod.rs],
    [allocate_percpu_area] there, and [src/abi/usercopy.rs].

    The kernel reaches user memory through the page tables in CR3.  [mmu] is
    the processor's translation, and an access it refuses runs the page-fault
    handler of [src/arch/x86_64/interrupts.rs]; a kernel access whose fault is
    not resolved halts the kernel and is a fault here.  A resolved access is
    tried once more. *)

From S2P Require Import Prelude Bytes Abi Capability Vma RmmArch RmmFrame RmmBuddy RmmInit RmmMapper RmmWalk RmmMap RmmSpace FrameAlloc Paging PagingCow Compress CompressSpec.
Import RmmArch RmmFrame RmmBuddy RmmWalk RmmMap Paging PagingCow Compress CompressSpec.

Module UserCopy.

Section usercopy.
#[local] Existing Instance X8664Arch.
Context `{X : X86} `{XO : !X86Ok X} `{CD : Codec} `{VA : VirtAddrOps} (kernel_root : Z) (proc : FaultProc).

Implicit Types (m : gmap Z Z) (v : Z).

(** ** The processor *)

(** The physical address of [v] and whether it may be written: every entry on
    the way has to be writable. *)
Fixpoint mmu m (l : nat) (p v : Z) : option (Z * bool) :=
  let e := ent m p (idx l v) in
  let w := has (e_flags e) WRITABLE in
  if has (e_flags e) PRESENT then
    match l with
    | O => Some (e_addr e + v mod 4096, w)
    | S l' =>
      if has (e_flags e) HUGE_PAGE then Some (e_addr e + v mod 2 ^ shift_at l, w)
      else match mmu m l' (e_addr e) v with Some (a, w') => Some (a, w && w') | None => None end
    end
  else None.

(** The handler's two attempts. *)
Definition page_fault_handler (fault_addr error_code : Z) : CM bool :=
  b ← handle_compressed_fault fault_addr;
  if (b : bool) then mret true else on_machine (handle_fault_for kernel_root proc fault_addr error_code).

(** Where an access to the byte at [v] goes; bit 0 of the error code is set
    for a page that is present, bit 1 for a write. *)
Definition translate_now (write : bool) v : CM (option Z) := fun s =>
  let c := fst (fst s) in
  (Ok (match mmu (mem c) 3 (fst (regs c)) v with
       | Some (a, w) => if negb write || w then Some a else None
       | None => None
       end), s).

Definition error_code (write : bool) v : CM Z := fun s =>
  let c := fst (fst s) in
  (Ok ((match mmu (mem c) 3 (fst (regs c)) v with Some _ => 1 | None => 0 end) + if write then 2 else 0), s).

Definition access (write : bool) v : CM Z :=
  o ← translate_now write v;
  match o with
  | Some a => mret a
  | None =>
    code ← error_code write v;
    handled ← page_fault_handler v code;
    if (handled : bool) then o ← translate_now write v; match o with Some a => mret a | None => lift Fault end
    else lift Fault
  end.

(** [copy_nonoverlapping] from and to user memory. *)
Fixpoint load_user (n : nat) v : CM (list Z) :=
  match n with
  | O => mret []
  | S n =>
    a ← access false v;
    virt ← on_machine (phys_to_virt a);
    b ← on_machine (read virt 1);
    bs ← load_user n (v + 1);
    mret (b ++ bs)
  end.

Fixpoint store_user v (bs : list Z) : CM unit :=
  match bs with
  | [] => mret tt
  | b :: bs =>
    a ← access true v;
    virt ← on_machine (phys_to_virt a);
    _ ← on_machine (write virt [b]);
    store_user (v + 1) bs
  end.

(** ** [src/memory/mod.rs] *)

Definition copy_from_user (len src : Z) : CM (list Z) :=
  if negb (Vma.verify_user_region (vmas proc) src len) then throw tt else load_user (Z.to_nat len) src.

Definition leaf_writable (vaddr : Z) : CM bool :=
  x ← on_machine (get_leaf_entry_mut vaddr);
  e ← on_machine (read_entry (fst x) (snd x));
  mret (has (e_flags e) WRITABLE).

(** [while page < end] *)
Fixpoint check_writable (n : nat) (page end_ : Z) : CM unit :=
  match n with
  | O => mret tt
  | S n =>
    if page <? end_ then
      vaddr ← on_machine (va page);
      b ← leaf_writable vaddr;
      if negb b then throw tt
      else page' ← lift (uadd page 4096); check_writable n page' end_
    else mret tt
  end.

Definition copy_to_user (dst : Z) (src : list Z) : CM unit :=
  if negb (Vma.verify_user_region (vmas proc) dst (zlen src)) then throw tt
  else
    end_ ← lift (uadd dst (zlen src));
    _ ← check_writable (Z.to_nat (zlen src / 4096 + 2)) (Z.land dst (not_usize (4096 - 1))) end_;
    store_user dst src.

Definition allocate_percpu_area : CM Z :=
  o ← on_machine (try allocate_frame);
  match o with
  | None => lift Panic
  | Some frame =>
    vaddr ← on_machine (phys_to_virt frame);
    _ ← on_machine (write_bytes vaddr 0 4096);
    mret frame
  end.

(** ** [src/abi/usercopy.rs] *)

Record UserSlice := mkSlice { addr : Z; len : Z }.

Definition copy_to_slice (sl : UserSlice) (dst_len : Z) : M CState AbiError (list Z) :=
  if negb (len sl =? dst_len) then throw (Other "usercopy len mismatch")
  else map_err (Other "EFAULT: read buffer") (copy_from_user dst_len (addr sl)).

Definition copy_from_slice (sl : UserSlice) (src : list Z) : M CState AbiError unit :=
  if negb (len sl =? zlen src) then throw (Other "usercopy len mismatch")
  else map_err (Other "EFAULT: write buffer") (copy_to_user (addr sl) src).

Fixpoint read_user_string (max_len : nat) (a : Z) (out : list Z) : M CState AbiError (list Z) :=
  match max_len with
  | O => mret out
  | S n =>
    b ← map_err (Other "EFAULT: read_user_string") (copy_from_user 1 a);
    if decide (b = [0]) then mret out
    else match n with O => mret (out ++ b) | S _ => a' ← lift (uadd a 1); read_user_string n a' (out ++ b) end
  end.

(** ** Copying *)

(** The tables above the lowest one allow writing. *)
Fixpoint path_writable m (l : nat) (p v : Z) : Prop :=
  match l with
  | O => True
  | S l' => let e := ent m p (idx l v) in has (e_flags e) WRITABLE = true /\ path_writable m l' (e_addr e) v
  end.

Lemma frame_some e q : e_frame e = Some q -> has (e_flags e) PRESENT = true /\ has (e_flags e) HUGE_PAGE = false /\ q = e_addr e.
Proof. rewrite frame_spec. destruct (has _ PRESENT), (has _ HUGE_PAGE); cbn [negb andb]; try done. intros [= <-]. done. Qed.

Lemma mmu_utrans m l p v a fl : utrans m l p v = Some (a, fl) ->
  exists w, mmu m l p v = Some (a + v mod 4096, w) /\ (path_writable m l p v -> w = has fl WRITABLE).
Proof.
  revert p. induction l as [|l IH]; intros p; cbn [utrans mmu path_writable].
  - destruct (has _ PRESENT); [|done]. intros [= <- <-]. eauto.
  - destruct (e_frame _) as [q|] eqn:Hq; [|done]. apply frame_some in Hq as (-> & -> & ->). intros Ht. destruct (IH _ Ht) as (w & -> & Hw).
    eexists. split; [done|]. intros [-> Hp]. by apply Hw.
Qed.

Lemma utrans_leaf m l p v :
  utrans m l p v = match leaf_table m l p v with
                   | Some t => let e := ent m t (idx 0 v) in if has (e_flags e) PRESENT then Some (e_addr e, e_flags e) else None
                   | None => None
                   end.
Proof. revert p. induction l as [|l IH]; intros p; cbn [utrans leaf_table]; [done|]. destruct (e_frame _); [apply IH|done]. Qed.

(** Addresses of one page go the same way. *)
Lemma idx_page l v w : v / 4096 = w / 4096 -> idx l v = idx l w.
Proof.
  intros Hvw. unfold idx. f_equal. assert (Hs : 2 ^ shift_at l = 4096 * 2 ^ (Z.of_nat l * 9)).
  { unfold shift_at. change PAGE_ENTRY_SHIFT with 9. change PAGE_SHIFT with 12. change 4096 with (2 ^ 12). rewrite <-Z.pow_add_r by lia. f_equal. lia. }
  rewrite Hs, <-!Z.div_div by lia. by rewrite Hvw.
Qed.

Lemma utrans_page m l p v w : v / 4096 = w / 4096 -> utrans m l p v = utrans m l p w.
Proof.
  intros Hvw. revert p. induction l as [|l IH]; intros p; cbn [utrans]; rewrite (idx_page _ v w Hvw); [done|]. destruct (e_frame _); [apply IH|done].
Qed.

(** A leaf that may be written. *)
Definition writable_at m (root v : Z) : Prop := exists a fl, utrans m 3 root v = Some (a, fl) /\ has fl WRITABLE = true.

#[local] Instance writable_at_dec m root v : Decision (writable_at m root v).
Proof.
  unfold writable_at. destruct (utrans m 3 root v) as [[a fl]|]; [|right; by intros (? & ? & ? & _)].
  destruct (has fl WRITABLE) eqn:Hw; [left; eauto|right]. intros (? & ? & ? & ?). simplify_eq. congruence.
Defined.

Lemma low_user v : 0 <= v < 2 ^ 47 -> low 3 v.
Proof.
  intros Hv. unfold low, limit, idx. rewrite decide_True by done. change (shift_at 3) with 39. rewrite entries_512.
  assert (v / 2 ^ 39 < 256) by (apply Z.div_lt_upper_bound; lia). assert (0 <= v / 2 ^ 39) by (apply Z.div_pos; lia). by rewrite Z.mod_small by lia.
Qed.

Lemma get_leaf_writable c f R U G st v :
  tables (mem c) f R U G -> G !! fst (regs c) = Some 3%nat -> 0 <= v < 2 ^ 47 ->
  leaf_writable v ((c, Some f), st) =
    (match utrans (mem c) 3 (fst (regs c)) v with Some (_, fl) => Ok (has fl WRITABLE) | None => Err tt end, ((c, Some f), st)).
Proof.
  intros Ht Hroot Hv. unfold leaf_writable, get_leaf_entry_mut, on_machine, mbind, M_bind, cr3. cbn [fst snd]. rewrite (get_leaf_mem f R U G) by (done || by apply low_user).
  rewrite utrans_leaf. unfold leaf_result. destruct (leaf_table _ _ _ _) as [t|] eqn:Hleaf; [|done].
  destruct (has _ PRESENT); [|done]. cbn [fst snd].
  assert (Htl : G !! t = Some 0%nat) by (eapply (leaf_table_level _ G 3); [by eapply tb_typed|lia|by apply low_user|done..]).
  destruct (tables_frame _ _ _ _ _ _ _ Ht Htl) as [Htf Htm]. by rewrite pte_read_ok by (done || apply idx_512).
Qed.

Lemma writable_page m root v w : v / 4096 = w / 4096 -> writable_at m root v <-> writable_at m root w.
Proof. intros Hvw. unfold writable_at. by rewrite (utrans_page m 3 root v w Hvw). Qed.

Lemma div_page page v : page mod 4096 = 0 -> page <= v < page + 4096 -> v / 4096 = page / 4096.
Proof. intros Hp Hv. pose proof (Z.div_mod page 4096 ltac:(lia)). symmetry. apply (Z.div_unique v 4096 (page / 4096) (v - page)); lia. Qed.

Lemma check_writable_ok n page end_ c f R U G st :
  tables (mem c) f R U G -> G !! fst (regs c) = Some 3%nat -> 0 <= page -> page mod 4096 = 0 -> end_ <= 2 ^ 47 -> end_ <= page + 4096 * Z.of_nat n ->
  let s := ((c, Some f), st) in
  (check_writable n page end_ s = (Ok tt, s) /\ forall v, page <= v < end_ -> writable_at (mem c) (fst (regs c)) v) \/
  (check_writable n page end_ s = (Err tt, s) /\ exists v, page <= v < end_ /\ ~ writable_at (mem c) (fst (regs c)) v).
Proof.
  intros Ht Hroot Hp Hal He Hn s. revert page Hp Hal Hn. induction n as [|n IH]; intros page Hp Hal Hn; cbn [check_writable].
  { left. split; [done|lia]. }
  destruct (Z.ltb_spec page end_) as [Hlt|]; [|left; split; [done|lia]]. pose proof (get_leaf_writable c f R U G st page Ht Hroot ltac:(lia)) as Hg.
  unfold mbind, M_bind, on_machine, va. rewrite va_new_low by lia. unfold mret, M_ret. cbn [fst snd]. subst s. cbn [fst snd] in *. change State with (Machine * option BuddyAllocator)%type. rewrite Hg.
  destruct (utrans (mem c) 3 (fst (regs c)) page) as [[a fl]|] eqn:Hu.
  2: { right. split; [done|]. exists page. split; [lia|]. intros (? & ? & ? & _). congruence. }
  destruct (has fl WRITABLE) eqn:Hw; cbn [negb].
  2: { right. split; [done|]. exists page. split; [lia|]. intros (? & ? & ? & ?). congruence. }
  unfold lift. rewrite uadd_ok by lia. assert (Hwp : writable_at (mem c) (fst (regs c)) page) by (by exists a, fl).
  destruct (IH (page + 4096)) as [[-> Hall]|[-> (v & Hv & Hnw)]]; [lia|by rewrite <-Zplus_mod_idemp_r; rewrite Z.add_0_r|lia|left|right].
  - split; [done|]. intros v Hv. destruct (decide (page + 4096 <= v)); [apply Hall; lia|]. eapply writable_page; [apply (div_page page); [done|lia]|done].
  - split; [done|]. exists v. split; [lia|done].
Qed.

(** The pages of a range: frames of their own, none of them a table, no two
    pages in one frame. *)
Record range_ok m (G : gmap Z nat) (root dst n : Z) : Prop := {
  rg_low : 0 <= dst /\ dst + n <= 2 ^ 47;
  rg_frame w a fl : dst <= w < dst + n -> utrans m 3 root w = Some (a, fl) -> frame_ok a /\ mapped m (V a) PAGE_SIZE /\ G !! a = None;
  rg_inj w w' a fl fl' : dst <= w < dst + n -> dst <= w' < dst + n ->
    utrans m 3 root w = Some (a, fl) -> utrans m 3 root w' = Some (a, fl') -> w / 4096 = w' / 4096;
  rg_path w : dst <= w < dst + n -> path_writable m 3 root w
}.

Lemma path_frame m m' G l p v :
  typed m G -> G !! p = Some l -> low l v -> (l <= 3)%nat -> is_Some (utrans m l p v) -> (forall q k, G !! q = Some k -> same_frame m m' q) ->
  path_writable m l p v -> path_writable m' l p v.
Proof.
  intros Ht. revert p. induction l as [|l IH]; intros p Hp Hlow Hl Hu Hs; cbn [path_writable utrans] in *; [done|].
  rewrite (ent_ext m m') by (apply idx_range || by eapply Hs). destruct (e_frame (ent m p (idx (S l) v))) as [q|] eqn:Hq; [|by destruct Hu].
  assert (Hgq : G !! q = Some l) by (eapply Ht; [done| |done]; split; [apply idx_range|done]). apply frame_some in Hq as (_ & _ & ->).
  intros [H1 H2]. split; [done|]. apply IH; [done|apply low_below; lia|lia|done..].
Qed.

(** Where the byte at [w] is. *)
Definition byte_at m root w (x : Z) : Prop := exists a fl, utrans m 3 root w = Some (a, fl) /\ x = V a + w mod 4096.

Lemma byte_in_frame a w : in_frame (V a + w mod 4096) a.
Proof. unfold in_frame. change PAGE_SIZE with 4096. pose proof (Z.mod_pos_bound w 4096 ltac:(lia)). lia. Qed.

Lemma byte_inj m G root dst n w w' x :
  range_ok m G root dst n -> dst <= w < dst + n -> dst <= w' < dst + n -> byte_at m root w x -> byte_at m root w' x -> w = w'.
Proof.
  intros Hr Hw Hw' (a & fl & Ha & ->) (b & fl' & Hb & Hx). destruct (rg_frame _ _ _ _ _ Hr w a fl Hw Ha) as [Fa _].
  destruct (rg_frame _ _ _ _ _ Hr w' b fl' Hw' Hb) as [Fb _]. destruct (decide (a = b)) as [<-|Hne].
  - pose proof (rg_inj _ _ _ _ _ Hr w w' a fl fl' Hw Hw' Ha Hb). pose proof (Z.div_mod w 4096 ltac:(lia)). pose proof (Z.div_mod w' 4096 ltac:(lia)). lia.
  - exfalso. eapply (frames_apart a b); [done..|apply (byte_in_frame a w)|]. rewrite Hx. apply byte_in_frame.
Qed.

(** A byte of the range is written. *)
Lemma range_store m G root dst n w x b :
  typed m G -> G !! root = Some 3%nat -> (forall q k, G !! q = Some k -> frame_ok q) -> range_ok m G root dst n -> dst <= w < dst + n -> byte_at m root w x ->
  let m' := store_bytes m x [b] in
  mapped m x 1 /\ (forall q k, G !! q = Some k -> same_frame m m' q) /\ same_dom m m' /\ (forall y, y <> x -> m' !! y = m !! y) /\ m' !! x = Some b.
Proof.
  intros Ht Hroot Hfr Hr Hw (a & fl & Ha & ->) m'. destruct (rg_frame _ _ _ _ _ Hr w a fl Hw Ha) as (Fa & Hm & HGa). pose proof (byte_in_frame a w) as Hin.
  assert (Hx : mapped m (V a + w mod 4096) 1) by (apply (mapped_sub _ _ _ _ _ Hm); unfold in_frame in Hin; lia).
  assert (Hoff : forall y, y <> V a + w mod 4096 -> m' !! y = m !! y).
  { intros y Hy. unfold m'. rewrite store_bytes_lookup, decide_False; [done|]. unfold zlen. cbn [length]. lia. }
  split_and!; [done| |by apply same_dom_store|done|].
  - intros q k Hq y Hy. apply Hoff. intros ->. eapply (frames_apart a q); [done|by eapply Hfr|congruence|done..].
  - unfold m'. rewrite store_bytes_lookup, decide_True by (unfold zlen; cbn [length]; lia). by rewrite Z.sub_diag.
Qed.

Lemma range_trans m m' G root w :
  typed m G -> G !! root = Some 3%nat -> (forall q k, G !! q = Some k -> same_frame m m' q) -> 0 <= w < 2 ^ 47 -> utrans m' 3 root w = utrans m 3 root w.
Proof. intros Ht Hroot Hs Hw. apply (trans_frame m m' G); [done|done|by apply low_user|lia|]. intros q k Hq _. by eapply Hs. Qed.

Lemma pages_ext m m' G root dst n dst' n' :
  typed m G -> G !! root = Some 3%nat -> range_ok m G root dst n -> (forall q k, G !! q = Some k -> same_frame m m' q) -> same_dom m m' ->
  (forall w, dst <= w < dst + n -> writable_at m root w) -> dst <= dst' -> 0 <= n' -> dst' + n' <= dst + n -> range_ok m' G root dst' n'.
Proof.
  intros Ht Hroot [Hlow Hf Hi Hp] Hs Hd Hwr H1 Hn' H2. split; [lia|..].
  - intros w a fl Hw. rewrite (range_trans m m' G) by (done || lia). intros Ha. destruct (Hf w a fl) as (? & ? & ?); [lia|done|].
    split_and!; [done|by eapply same_dom_mapped|done].
  - intros w w' a fl fl' Hw Hw'. rewrite !(range_trans m m' G) by (done || lia). apply Hi; lia.
  - intros w Hw. destruct (Hwr w ltac:(lia)) as (a & fl & Ha & _). apply (path_frame m m' G); [done|done|apply low_user; lia|lia|by rewrite Ha|done|apply Hp; lia].
Qed.

Lemma access_ok b w a fl c f st :
  utrans (mem c) 3 (fst (regs c)) w = Some (a, fl) -> (b = true -> path_writable (mem c) 3 (fst (regs c)) w /\ has fl WRITABLE = true) ->
  access b w ((c, f), st) = (Ok (a + w mod 4096), ((c, f), st)).
Proof.
  intros Ha Hb. destruct (mmu_utrans _ _ _ _ _ _ Ha) as (wr & Hm & Hwr). unfold access, mbind, M_bind, translate_now. cbn [fst snd]. rewrite Hm.
  destruct b; cbn [negb orb]; [|done]. destruct Hb as [Hp Hw]; [done|]. by rewrite Hwr, Hw.
Qed.

Lemma byte_virt a w (s : State) : frame_ok a -> phys_to_virt (a + w mod 4096) s = (Ok (V a + w mod 4096), s).
Proof.
  intros (H1 & _ & H2). unfold phys_to_virt, lift. pose proof (Z.mod_pos_bound w 4096 ltac:(lia)). change PAGE_SIZE with 4096 in H2.
  rewrite uadd_ok by lia. unfold V. do 2 f_equal. lia.
Qed.

Lemma store_user_ok bs dst c (f : option BuddyAllocator) st G :
  typed (mem c) G -> G !! fst (regs c) = Some 3%nat -> (forall q k, G !! q = Some k -> frame_ok q) -> range_ok (mem c) G (fst (regs c)) dst (zlen bs) ->
  (forall w, dst <= w < dst + zlen bs -> writable_at (mem c) (fst (regs c)) w) ->
  exists m', store_user dst bs ((c, f), st) = (Ok tt, ((with_mem m' c, f), st)) /\ (forall q k, G !! q = Some k -> same_frame (mem c) m' q) /\ same_dom (mem c) m' /\
    (forall i b x, bs !! i = Some b -> byte_at (mem c) (fst (regs c)) (dst + Z.of_nat i) x -> m' !! x = Some b) /\
    (forall x, (forall w, dst <= w < dst + zlen bs -> ~ byte_at (mem c) (fst (regs c)) w x) -> m' !! x = mem c !! x).
Proof.
  intros Ht Hroot Hfr. revert dst c Ht Hroot. induction bs as [|b bs IH]; intros dst c Ht Hroot Hr Hwr; cbn [store_user].
  { exists (mem c). split_and!; [by destruct c|done|done|done|done]. }
  assert (Hlen : zlen (b :: bs) = 1 + zlen bs) by (unfold zlen; cbn [length]; lia). pose proof (zlen_nonneg bs) as Hnn. rewrite Hlen in *.
  assert (Hdst : dst <= dst < dst + (1 + zlen bs)) by lia. destruct (Hwr dst Hdst) as (a & fl & Ha & Hw).
  destruct (rg_frame _ _ _ _ _ Hr dst a fl Hdst Ha) as (Fa & Hma & _). set (x0 := V a + dst mod 4096). assert (Hx0 : byte_at (mem c) (fst (regs c)) dst x0) by (by exists a, fl).
  destruct (range_store (mem c) G _ dst _ dst x0 b Ht Hroot Hfr Hr Hdst Hx0) as (Hm & Hs & Hd & Hoff & Hset). set (m1 := store_bytes (mem c) x0 [b]) in *.
  unfold mbind, M_bind. rewrite (access_ok true dst a fl) by (done || (intros _; split; [by apply (rg_path _ _ _ _ _ Hr)|done])). unfold on_machine. cbn [fst snd].
  rewrite byte_virt by done. cbn [fst snd]. rewrite write_ok by done. fold x0 m1. change State with (Machine * option BuddyAllocator)%type.
  assert (Htr : forall w, dst <= w < dst + (1 + zlen bs) -> utrans m1 3 (fst (regs c)) w = utrans (mem c) 3 (fst (regs c)) w).
  { intros w Hwd. pose proof (rg_low _ _ _ _ _ Hr). eapply range_trans; [done|done|done|lia]. }
  assert (Hby : forall w x, dst <= w < dst + (1 + zlen bs) -> byte_at m1 (fst (regs c)) w x <-> byte_at (mem c) (fst (regs c)) w x).
  { intros w x Hwd. unfold byte_at. by rewrite Htr. }
  destruct (IH (dst + 1) (with_mem m1 c)) as (m' & -> & Hs' & Hd' & Hset' & Hoff'); rewrite ?with_mem_mem, ?with_mem_twice in *.
  - by eapply typed_stable.
  - done.
  - eapply pages_ext; [done|done|exact Hr|done|done|exact Hwr|lia..].
  - intros w Hwd. unfold writable_at. rewrite Htr by lia. apply Hwr. lia.
  - cbn [with_mem regs] in *. exists m'. split_and!; [done|intros q k Hq; eapply same_frame_trans; [by eapply Hs|by eapply Hs']|by eapply same_dom_trans|..].
    + intros [|i] b' x Hi Hx; cbn [lookup list_lookup] in Hi.
      * simplify_eq. rewrite Z.add_0_r in Hx. assert (x = x0) as -> by (destruct Hx as (? & ? & ? & ->); destruct Hx0 as (? & ? & ? & ->); congruence).
        rewrite Hoff'; [done|]. intros w Hwd Hwx. apply (proj1 (Hby w x0 ltac:(lia))) in Hwx. assert (w = dst) by (eapply byte_inj; [exact Hr|lia|exact Hdst|exact Hwx|exact Hx0]). lia.
      * eapply Hset'; [exact Hi|]. apply lookup_lt_Some in Hi. replace (dst + 1 + Z.of_nat i) with (dst + Z.of_nat (S i)) by lia. apply (proj2 (Hby (dst + Z.of_nat (S i)) x ltac:(unfold zlen; lia))). done.
    + intros x Hx. rewrite Hoff'; [apply Hoff; intros ->; by apply (Hx dst)|]. intros w Hwd Hwx. apply (Hx w); [lia|]. by apply (proj1 (Hby w x ltac:(lia))).
Qed.

Lemma load_user_ok bs dst c (f : option BuddyAllocator) st :
  (forall i b, bs !! i = Some b -> exists a fl, utrans (mem c) 3 (fst (regs c)) (dst + Z.of_nat i) = Some (a, fl) /\ frame_ok a /\
     mem c !! (V a + (dst + Z.of_nat i) mod 4096) = Some b) ->
  load_user (length bs) dst ((c, f), st) = (Ok bs, ((c, f), st)).
Proof.
  revert dst. induction bs as [|b bs IH]; intros dst Hbs; cbn [load_user length]; [done|].
  destruct (Hbs 0%nat b eq_refl) as (a & fl & Ha & Fa & Hb). rewrite Z.add_0_r in *. unfold mbind, M_bind. rewrite (access_ok false dst a fl) by done.
  unfold on_machine. cbn [fst snd]. rewrite byte_virt by done. cbn [fst snd]. rewrite (read_ok _ _ [b]) by (by apply load_one).
  change State with (Machine * option BuddyAllocator)%type. rewrite IH; [done|]. intros i b' Hi. destruct (Hbs (S i) b' Hi) as (a' & fl' & H1 & H2 & H3).
  exists a', fl'. replace (dst + 1 + Z.of_nat i) with (dst + Z.of_nat (S i)) by lia. done.
Qed.

Lemma start_page dst : 0 <= dst -> Z.land dst (not_usize (4096 - 1)) = dst - dst mod 4096 \/ 2 ^ 64 <= dst.
Proof.
  intros Hd. destruct (decide (2 ^ 64 <= dst)) as [|Hlt]; [by right|left]. change (4096 - 1) with (Z.ones 12). apply Z.bits_inj'. intros i Hi.
  rewrite Z.land_spec, testbit_not_usize by done. replace (dst - dst mod 4096) with (Z.shiftl (Z.shiftr dst 12) 12).
  2: { rewrite Z.shiftl_mul_pow2, Z.shiftr_div_pow2 by lia. pose proof (Z.div_mod dst 4096 ltac:(lia)). change (2 ^ 12) with 4096. lia. }
  destruct (decide (i < 12)) as [Hi12|Hi12].
  - rewrite Z.shiftl_spec_low by lia. rewrite Z.ones_spec_low by lia. cbn [negb]. by rewrite !andb_false_r.
  - rewrite Z.shiftl_spec, Z.shiftr_spec by lia. rewrite Z.ones_spec_high by lia. cbn [negb]. replace (i - 12 + 12) with i by lia.
    rewrite andb_true_r. destruct (Z.ltb_spec i 64); [by rewrite andb_true_r|]. rewrite andb_false_r. symmetry. apply (testbit_above 64); [split; lia|lia].
Qed.

(** Whether the checks pass. *)
Lemma copy_to_user_checks dst src c f R U G st :
  tables (mem c) f R U G -> G !! fst (regs c) = Some 3%nat -> 0 <= dst -> src <> [] ->
  let s := ((c, Some f), st) in
  (copy_to_user dst src s = store_user dst src s /\ Vma.verify_user_region (vmas proc) dst (zlen src) = true /\
     forall v, dst <= v < dst + zlen src -> writable_at (mem c) (fst (regs c)) v) \/
  (copy_to_user dst src s = (Err tt, s) /\
     ~ (Vma.verify_user_region (vmas proc) dst (zlen src) = true /\ forall v, dst <= v < dst + zlen src -> writable_at (mem c) (fst (regs c)) v)).
Proof.
  intros Ht Hroot Hd Hne s. unfold copy_to_user. destruct (Vma.verify_user_region _ _ _) eqn:Hver; cbn [negb]; [|right; split; [done|by intros [? _]]].
  assert (Hlen : 0 < zlen src) by (unfold zlen; destruct src; [done|cbn [length]; lia]).
  assert (Hend : dst + zlen src <= 2 ^ 47).
  { unfold Vma.verify_user_region in Hver. destruct (Z.eqb_spec (zlen src) 0); [lia|]. destruct (2 ^ 64 <=? _); [done|].
    destruct (Z.ltb_spec Vma.USER_ADDR_MAX (dst + zlen src)); [done|]. unfold Vma.USER_ADDR_MAX in *. lia. }
  unfold mbind, M_bind, lift. rewrite uadd_ok by lia. destruct (start_page dst Hd) as [->|]; [|lia]. pose proof (Z.div_mod dst 4096 ltac:(lia)) as Hdm.
  pose proof (Z.mod_pos_bound dst 4096 ltac:(lia)) as Hmod. pose proof (Z.div_mod (zlen src) 4096 ltac:(lia)). pose proof (Z.mod_pos_bound (zlen src) 4096 ltac:(lia)).
  assert (Hal : (dst - dst mod 4096) mod 4096 = 0) by (apply Z.mod_divide; [lia|]; exists (dst / 4096); lia).
  subst s. destruct (check_writable_ok (Z.to_nat (zlen src / 4096 + 2)) (dst - dst mod 4096) (dst + zlen src) c f R U G st Ht Hroot) as [[-> Hall]|[-> (v & Hv & Hn)]];
    [lia|done|done|lia|left|right].
  - split_and!; [done|done|]. intros v Hv. apply Hall. lia.
  - split; [done|]. intros [_ Hall]. destruct (decide (dst <= v)); [apply Hn, Hall; lia|]. apply Hn. eapply writable_page; [|apply (Hall dst); lia].
    transitivity ((dst - dst mod 4096) / 4096); [|symmetry]; apply div_page; (done || lia).
Qed.

(** Bytes stored in user memory are read back. *)
Lemma store_then_load dst src c f R U G st :
  tables (mem c) f R U G -> G !! fst (regs c) = Some 3%nat -> range_ok (mem c) G (fst (regs c)) dst (zlen src) ->
  Vma.verify_user_region (vmas proc) dst (zlen src) = true -> (forall v, dst <= v < dst + zlen src -> writable_at (mem c) (fst (regs c)) v) ->
  exists m', store_user dst src ((c, Some f), st) = (Ok tt, ((with_mem m' c, Some f), st)) /\
    (forall q k, G !! q = Some k -> same_frame (mem c) m' q) /\
    (forall x, (forall w, dst <= w < dst + zlen src -> ~ byte_at (mem c) (fst (regs c)) w x) -> m' !! x = mem c !! x) /\
    copy_from_user (zlen src) dst ((with_mem m' c, Some f), st) = (Ok src, ((with_mem m' c, Some f), st)).
Proof.
  intros Ht Hroot Hr Hver Hwr. assert (Htt : typed (mem c) G) by (by eapply tb_typed).
  assert (Hfr : forall q k, G !! q = Some k -> frame_ok q) by (intros q k Hq; by eapply tables_frame).
  destruct (store_user_ok src dst c (Some f) st G Htt Hroot Hfr Hr Hwr) as (m' & Hst & Hs & Hdm & Hset & Hoff).
  exists m'. split_and!; [done|done|done|]. unfold copy_from_user. rewrite Hver. cbn [negb].
  replace (Z.to_nat (zlen src)) with (length src) by (unfold zlen; lia). apply load_user_ok. intros i b Hi. rewrite with_mem_mem. cbn [with_mem regs].
  assert (Hin : dst <= dst + Z.of_nat i < dst + zlen src) by (apply lookup_lt_Some in Hi; unfold zlen; lia). destruct (Hwr _ Hin) as (a & fl & Ha & _).
  exists a, fl. pose proof (rg_low _ _ _ _ _ Hr). rewrite (range_trans (mem c) m' G) by (done || lia). split; [done|].
  split; [by eapply rg_frame|]. eapply Hset; [exact Hi|]. by exists a, fl.
Qed.




(** After an address space was forked, the kernel cannot copy into any
    page that was mapped before: the pages are write-protected, the copy does
    not go through the fault handler, and so system calls that return data in
    such a buffer fail.  The same holds for a page of a memory area that was
    never touched. *)
Theorem forked_page_refuses_copy dst src v c f R U G st child c' f' :
  tables (mem c) f R U G -> G !! fst (regs c) = Some 3%nat -> 0 <= dst -> dst <= v < dst + zlen src -> v < 2 ^ 47 ->
  is_Some (user_leaf (mem c) 3 (fst (regs c)) v) ->
  cow_fork_parent (c, Some f) = (Ok child, (c', Some f')) ->
  copy_to_user dst src ((c', Some f'), st) = (Err tt, ((c', Some f'), st)).
Proof.
  intros Ht Hroot Hd Hv Hlt Hu Hrun. destruct (cow_fork_ok c f R U G Ht Hroot) as (m' & f2 & _ & _ & [(ch & U' & G' & Hrun' & _ & Ht' & _ & HG & Hch & Hfk)|[Hrun' _]]);
    rewrite Hrun' in Hrun; simplify_eq. assert (Hlow : low 3 v) by (apply low_user; lia).
  destruct (copy_to_user_checks dst src (with_mem m' c) f' R U' G' st) as [(_ & _ & Hwr)|[-> _]]; [done|by eapply lookup_weaken|done|by intros ->; unfold zlen in Hv; cbn [length] in Hv; lia| |done].
  exfalso. destruct (Hwr v Hv) as (a & fl & Ha & Hw). rewrite with_mem_mem in Ha. cbn [with_mem regs] in Ha. destruct (fk_user _ _ _ _ Hfk v Hlow Hu) as [[b fl'] Hb].
  pose proof (user_leaf_trans _ _ _ _ _ Hb) as Hb'. rewrite Ha in Hb'. simplify_eq. pose proof (fk_protected _ _ _ _ Hfk v Hlow _ _ Hb). congruence.
Qed.

Lemma untouched_page_refuses_copy dst src v c f R U G st :
  tables (mem c) f R U G -> G !! fst (regs c) = Some 3%nat -> 0 <= dst -> dst <= v < dst + zlen src -> utrans (mem c) 3 (fst (regs c)) v = None ->
  copy_to_user dst src ((c, Some f), st) = (Err tt, ((c, Some f), st)).
Proof.
  intros Ht Hroot Hd Hv Hu. destruct (copy_to_user_checks dst src c f R U G st Ht Hroot Hd) as [(_ & _ & Hwr)|[-> _]]; [by intros ->; unfold zlen in Hv; cbn [length] in Hv; lia| |done].
  exfalso. destruct (Hwr v Hv) as (a & fl & Ha & _). congruence.
Qed.

End usercopy.

(** ** An example *)

Section example.
#[local] Existing Instance X8664Arch.
#[local] Existing Instance ex_x86.
#[local] Existing Instance ex_ok.
#[local] Existing Instance ex_codec.
#[local] Existing Instance Vma.demo_addr.

Definition ex_proc : FaultProc := mkFaultProc [Vma.mkVma 0 0x4000 (Vma.mkFlags true true false true true) false None 0 0 None] [] None.

(** Memory in which the first page is mapped. *)
Lemma ex_memory n : 0 < n <= 256 ->
  exists c f R U G, tables (mem c) f R U G /\ G !! fst (regs c) = Some 3%nat /\ range_ok (mem c) G (fst (regs c)) 0x10 n /\
    forall w, 0x10 <= w < 0x10 + n -> writable_at (mem c) (fst (regs c)) w.
Proof.
  intros Hn. destruct ex_chain as (c & f & R & U & G & a & Ht & Hroot & Hu & Ha & _ & HG & p2 & p1 & p0 & P2 & P1 & P0 & E3 & E2 & E1).
  destruct (used_frame _ _ _ _ a (tb_rep _ _ _ _ _ Ht) Ha) as [Hfa Hma]. pose proof (user_leaf_trans _ _ _ _ _ Hu) as Htr.
  assert (Hpg : forall w, 0x10 <= w < 0x10 + n -> utrans (mem c) 3 (fst (regs c)) w = Some (a, 7)).
  { intros w Hw. rewrite <-Htr. apply utrans_page. by rewrite !Z.div_small by lia. }
  exists c, f, R, U, G. split_and!; [done|done| |intros w Hw; exists a, 7; split; [by apply Hpg|done]]. split; [lia|..].
  - intros w b fl Hw. rewrite Hpg by done. intros [= <- <-]. done.
  - intros w w' b fl fl' Hw Hw' _ _. by rewrite !Z.div_small by lia.
  - intros w Hw. assert (Hi : forall l, idx l w = 0).
    { intros l. rewrite (idx_page l w 0) by (by rewrite !Z.div_small by lia). destruct l as [|[|[|[|l]]]]; unfold idx;
        rewrite Z.div_0_l by (apply Z.pow_nonzero; [lia|unfold shift_at; change PAGE_ENTRY_SHIFT with 9; change PAGE_SHIFT with 12; lia]); done. }
    cbn [path_writable e_flags e_addr ex_x86]. rewrite !Hi, E3. destruct (ex_entry p2 P2) as (-> & _ & ->). rewrite E2. destruct (ex_entry p1 P1) as (-> & _ & ->). rewrite E1.
    destruct (ex_entry p0 P0) as (-> & _ & _). done.
Qed.

(** Memory with given bytes. *)
Lemma ex_bytes P src : 0 < zlen src <= 256 -> Vma.verify_user_region (vmas P) 0x10 (zlen src) = true ->
  exists s : CState, copy_from_user 0 P (zlen src) 0x10 s = (Ok src, s).
Proof.
  intros Hn Hver. destruct (ex_memory (zlen src) Hn) as (c & f & R & U & G & Ht & Hroot & Hr & Hw).
  destruct (store_then_load 0 P 0x10 src c f R U G empty_store Ht Hroot Hr Hver Hw) as (m' & _ & _ & _ & H). by eexists.
Qed.


Lemma forked_page_refuses_copy_witness :
  exists c f child c' f', cow_fork_parent (c, Some f) = (Ok child, (c', Some f')) /\
    copy_to_user 0 ex_proc 0x10 [1; 2; 3] ((c', Some f'), empty_store) = (Err tt, ((c', Some f'), empty_store)).
Proof.
  destruct ex_tables as (c & f & R & U & G & a & Ht & Hroot & Hu & _ & HR).
  destruct (cow_fork_ok c f R U G Ht Hroot) as (m' & f' & _ & _ & [(child & _ & _ & Hrun & _)|[_ ?]]); [|done].
  exists c, f, child, (with_mem m' c), f'. split; [exact Hrun|].
  apply (forked_page_refuses_copy 0 ex_proc 0x10 [1; 2; 3] 0x10 c f R U G empty_store child _ f' Ht Hroot); [lia|done|lia| |exact Hrun].
  exists (a, 7). exact Hu.
Defined.

End example.

End UserCopy.
