(* ===== verification/Socket.v ===== *)
(** * Sockets

    Models [src/net/socket.rs].  The table of sockets is global and keyed by
    descriptor numbers.  Local connections join two entries; connections over
    the network belong to the TCP/IP stack, the [smoltcp] library behind
    [src/net/stack.rs], which comes as an interface.  [sock_send] and
    [sock_recv] are what [sendto] and [recvfrom] of [src/abi/linux/mod.rs] do
    to the table. *)

From S2P Require Import Prelude Bytes Abi.

Module Socket.

Inductive SocketState := Created | Bound | Listening | Connected | Closed.
Inductive SockDomain := Unix | Inet | UnknownDomain (v : Z).
Inductive SockType := Stream | Dgram | UnknownType (v : Z).

#[global] Instance SocketState_eq_dec : EqDecision SocketState.
Proof. solve_decision. Defined.
#[global] Instance SockDomain_eq_dec : EqDecision SockDomain.
Proof. solve_decision. Defined.
#[global] Instance SockType_eq_dec : EqDecision SockType.
Proof. solve_decision. Defined.

Definition domain_from (v : Z) : SockDomain := if v =? 1 then Unix else if v =? 2 then Inet else UnknownDomain v.
Definition type_from (v : Z) : SockType := if v =? 1 then Stream else if v =? 2 then Dgram else UnknownType v.

(** The padding of the address is always zero. *)
Record SockAddrInet := mkAddr { family : Z; port : Z; addr : list Z }.

Record SocketEntry := mkEntry {
  domain : SockDomain;
  socktype : SockType;
  protocol : Z;
  state : SocketState;
  local_addr : option SockAddrInet;
  remote_addr : option SockAddrInet;
  pending : list Z;
  paired : option Z;
  tx_buf : list Z;
  rx_buf : list Z;
  rx_pos : Z;
  smoltcp_handle : option Z
}.

Definition new (d t p : Z) : SocketEntry := mkEntry (domain_from d) (type_from t) p Created None None [] None [] [] 0 None.

Definition set_state (x : SocketState) (e : SocketEntry) : SocketEntry :=
  mkEntry (domain e) (socktype e) (protocol e) x (local_addr e) (remote_addr e) (pending e) (paired e) (tx_buf e) (rx_buf e) (rx_pos e) (smoltcp_handle e).
Definition set_local (x : option SockAddrInet) (e : SocketEntry) : SocketEntry :=
  mkEntry (domain e) (socktype e) (protocol e) (state e) x (remote_addr e) (pending e) (paired e) (tx_buf e) (rx_buf e) (rx_pos e) (smoltcp_handle e).
Definition set_remote (x : option SockAddrInet) (e : SocketEntry) : SocketEntry :=
  mkEntry (domain e) (socktype e) (protocol e) (state e) (local_addr e) x (pending e) (paired e) (tx_buf e) (rx_buf e) (rx_pos e) (smoltcp_handle e).
Definition set_pending (x : list Z) (e : SocketEntry) : SocketEntry :=
  mkEntry (domain e) (socktype e) (protocol e) (state e) (local_addr e) (remote_addr e) x (paired e) (tx_buf e) (rx_buf e) (rx_pos e) (smoltcp_handle e).
Definition set_paired (x : option Z) (e : SocketEntry) : SocketEntry :=
  mkEntry (domain e) (socktype e) (protocol e) (state e) (local_addr e) (remote_addr e) (pending e) x (tx_buf e) (rx_buf e) (rx_pos e) (smoltcp_handle e).
Definition set_tx (x : list Z) (e : SocketEntry) : SocketEntry :=
  mkEntry (domain e) (socktype e) (protocol e) (state e) (local_addr e) (remote_addr e) (pending e) (paired e) x (rx_buf e) (rx_pos e) (smoltcp_handle e).
Definition set_rx (x : list Z) (pos : Z) (e : SocketEntry) : SocketEntry :=
  mkEntry (domain e) (socktype e) (protocol e) (state e) (local_addr e) (remote_addr e) (pending e) (paired e) (tx_buf e) x pos (smoltcp_handle e).
Definition set_handle (x : option Z) (e : SocketEntry) : SocketEntry :=
  mkEntry (domain e) (socktype e) (protocol e) (state e) (local_addr e) (remote_addr e) (pending e) (paired e) (tx_buf e) (rx_buf e) (rx_pos e) x.

(** ** [SocketManager] *)

Abbreviation Sockets := (gmap Z SocketEntry).

Definition create (fd d t p : Z) (ss : Sockets) : Sockets := <[fd := new d t p]> ss.

Definition exists_fd (fd : Z) (ss : Sockets) : bool := bool_decide (is_Some (ss !! fd)).

(** The partner of a removed socket is closed. *)
Definition drop_pair (o : option Z) (ss : Sockets) : Sockets :=
  match o with
  | Some p => alter (fun e => set_paired None (set_state Closed e)) p ss
  | None => ss
  end.

Definition remove (fd : Z) (ss : Sockets) : Sockets :=
  delete fd (match ss !! fd with Some e => drop_pair (paired e) ss | None => ss end).

(** Iteration over a [BTreeMap]. *)
Definition fds_of (ss : Sockets) : list Z := merge_sort Z.le (elements (dom ss)).

Definition is_listener (ss : Sockets) (fd : Z) : bool :=
  match ss !! fd with Some e => bool_decide (state e = Listening) | None => false end.

Definition listens_at (p : Z) (a : list Z) (ss : Sockets) (fd : Z) : bool :=
  is_listener ss fd &&
  match ss !! fd with
  | Some e =>
    match local_addr e with
    | Some l => (port l =? p) && (bool_decide (addr l = [0; 0; 0; 0]) || bool_decide (addr l = a))
    | None => false
    end
  | None => false
  end.

Definition find_listener (p : Z) (a : list Z) (ss : Sockets) : option Z := List.find (listens_at p a ss) (fds_of ss).

Definition find_any_listener (ss : Sockets) : option Z := List.find (is_listener ss) (fds_of ss).

(** ** Sending and receiving on a joined pair *)

(** [sendto], from the lookup on: [None] is a bad descriptor. *)
Definition sock_send (fd : Z) (tmp : list Z) (ss : Sockets) : option Sockets :=
  match ss !! fd with
  | Some e =>
    if bool_decide (state e = Closed) then None
    else
      let ss := <[fd := set_tx (tx_buf e ++ tmp) e]> ss in
      Some (match paired e with
            | Some p => alter (fun q => set_rx (rx_buf q ++ tmp) (rx_pos q) q) p ss
            | None => ss
            end)
  | None => None
  end.

(** [recvfrom]: the bytes it would copy out, none when there are none. *)
Definition sock_peek {E} (fd len : Z) (ss : Sockets) : res E (option (list Z)) :=
  match ss !! fd with
  | Some e =>
    if bool_decide (state e = Closed) then Ok None
    else if zlen (rx_buf e) <? rx_pos e then Panic
    else
      let avail := zlen (rx_buf e) - rx_pos e in
      Ok (Some (if avail =? 0 then [] else sub (rx_pos e) (Z.min len avail) (rx_buf e)))
  | None => Ok None
  end.

(** [recvfrom] after the copy. *)
Definition advance (n : Z) (e : SocketEntry) : SocketEntry :=
  let pos := rx_pos e + n in
  if zlen (rx_buf e) <=? pos then set_rx [] 0 e else set_rx (rx_buf e) pos e.

Definition sock_recv {E} (fd len : Z) (ss : Sockets) : res E (option (list Z) * Sockets) :=
  o ← sock_peek fd len ss;
  Ok (o, match o with
         | Some (b :: bs) => alter (advance (zlen (b :: bs))) fd ss
         | _ => ss
         end).

(** ** The TCP/IP stack *)

(** Sockets of the stack are handles.  Every operation may panic, as the
    library does on a handle of another kind. *)
Class Stack (K : Type) := {
  add_tcp_socket : K -> Z * K;
  add_udp_socket : K -> Z * K;
  remove_socket : Z -> K -> K;
  poll : K -> K;
  tcp_listen_on : Z -> Z -> M K unit unit;
  tcp_connect_to : Z -> list Z -> Z -> Z -> M K unit unit;
  tcp_is_active : Z -> M K unit bool;
  tcp_established : Z -> M K unit bool;
  tcp_remote : Z -> M K unit (list Z * Z);
  tcp_may_send : Z -> M K unit bool;
  tcp_may_recv : Z -> M K unit bool;
  tcp_can_recv : Z -> M K unit bool;
  tcp_send_slice : Z -> list Z -> M K unit Z;
  tcp_recv_slice : Z -> Z -> M K unit (list Z);
  tcp_close : Z -> M K unit unit;
  udp_bind_to : Z -> Z -> M K unit unit;
  udp_send_slice : Z -> list Z -> list Z -> Z -> M K unit unit;
  udp_can_recv : Z -> M K unit bool;
  udp_recv_slice : Z -> Z -> M K unit (list Z * (list Z * Z));
  udp_close : Z -> M K unit unit
}.

Section net.
Context {K : Type} `{SK : Stack K}.

(** [SOCKETS] and [TCPIP]. *)
Record Net := mkNet { sockets : Sockets; tcpip : option K }.

Abbreviation NM := (M Net string).
Abbreviation SKM := (M K string).

Definition on_sockets (f : Sockets -> Sockets) (n : Net) : Net := mkNet (f (sockets n)) (tcpip n).

(** [self.sockets.get(&fd).ok_or("socket: bad fd")?] *)
Definition entry_of (fd : Z) : NM SocketEntry := fun n =>
  match sockets n !! fd with Some e => (Ok e, n) | None => (Err "socket: bad fd", n) end.

(** The same through [get_mut], followed by assignments. *)
Definition update (fd : Z) (f : SocketEntry -> SocketEntry) : NM unit :=
  e ← entry_of fd;
  modify (on_sockets <[fd := f e]>).

(** [TCPIP.lock().as_mut().ok_or(..)?] and what is done with the stack. *)
Definition on_stack {A} (m : SKM A) : NM A := fun n =>
  match tcpip n with
  | Some k => let '(r, k') := m k in (r, mkNet (sockets n) (Some k'))
  | None => (Err "socket: TCP/IP stack not initialized", n)
  end.

Definition step_stack (f : K -> K) : SKM unit := modify f.
Definition add_tcp : SKM Z := fun k => let '(h, k') := add_tcp_socket k in (Ok h, k').
Definition add_udp : SKM Z := fun k => let '(h, k') := add_udp_socket k in (Ok h, k').

(** [ok_or]: an option where there is a value or an error message. *)
Definition require {S A} (msg : string) (o : option A) : M S string A := match o with Some a => mret a | None => throw msg end.

Definition check {S} (b : bool) (msg : string) : M S string unit := if b then mret tt else throw msg.

Definition tcp_listen (fd : Z) : NM unit :=
  e ← entry_of fd;
  _ ← check (bool_decide (domain e = Inet)) "socket: not AF_INET";
  _ ← check (bool_decide (socktype e = Stream)) "socket: not SOCK_STREAM";
  l ← require "socket: not bound" (local_addr e);
  h ← on_stack (h ← add_tcp; _ ← map_err "socket: smoltcp listen failed" (tcp_listen_on h (port l)); mret h);
  update fd (fun e => set_state Listening (set_handle (Some h) e)).

Definition tcp_accept (listen_fd new_fd : Z) : NM (list Z * Z) :=
  e ← entry_of listen_fd;
  _ ← check (bool_decide (state e = Listening)) "EAGAIN";
  h ← require "socket: no handle" (smoltcp_handle e);
  l ← require "socket: not bound" (local_addr e);
  r ← on_stack (
    _ ← step_stack poll;
    active ← map_err "" (tcp_is_active h);
    up ← (if (active : bool) then map_err "" (tcp_established h) else mret false);
    _ ← check up "EAGAIN";
    remote ← map_err "socket: no remote endpoint" (tcp_remote h);
    h' ← add_tcp;
    _ ← map_err "socket: listen failed" (tcp_listen_on h' (port l));
    mret (remote, h'));
  let '(remote, h') := r in
  new_entry ← map_err "socket: bad new_fd" (entry_of new_fd);
  _ ← update new_fd (fun e =>
        set_remote (Some (mkAddr 2 (snd remote) (fst remote))) (set_local (Some l) (set_state Connected (set_handle (Some h) e))));
  n ← get;
  _ ← (match sockets n !! listen_fd with Some _ => mret tt | None => lift Panic end);
  _ ← update listen_fd (set_handle (Some h'));
  mret remote.

(** [49152 + (uptime_ms() as u16 % 16384)] *)
Definition ephemeral (uptime_ms : Z) : Z := 49152 + wrap 16 uptime_ms mod 16384.

(** The loop that polls until the deadline; [turns] is how often it gets to. *)
Fixpoint await (turns : nat) (h : Z) : SKM bool :=
  match turns with
  | O => mret false
  | S turns =>
    _ ← step_stack poll;
    up ← map_err "" (tcp_may_send h);
    if (up : bool) then mret true else await turns h
  end.

Definition tcp_connect (uptime_ms : Z) (turns : nat) (fd : Z) (a : list Z) (p : Z) : NM unit :=
  e ← entry_of fd;
  _ ← check (bool_decide (domain e = Inet)) "socket: not AF_INET";
  _ ← check (bool_decide (socktype e = Stream)) "socket: not SOCK_STREAM";
  _ ← check (negb (bool_decide (state e = Connected))) "socket: already connected";
  h ← on_stack (
    h ← add_tcp;
    _ ← map_err "socket: smoltcp connect failed" (tcp_connect_to h a p (ephemeral uptime_ms));
    connected ← await turns h;
    if (connected : bool) then mret h
    else _ ← step_stack (remove_socket h); throw "socket: connect timeout");
  update fd (fun e => set_remote (Some (mkAddr 2 p a)) (set_state Connected (set_handle (Some h) e))).

Definition tcp_bind (fd : Z) (a : list Z) (p : Z) : NM unit :=
  e ← entry_of fd;
  _ ← check (bool_decide (domain e = Inet)) "socket: not AF_INET";
  _ ← check (bool_decide (state e = Created)) "socket: already bound";
  _ ← update fd (fun e => set_state Bound (set_local (Some (mkAddr 2 p a)) e));
  if bool_decide (socktype e = Dgram) then
    h ← on_stack (h ← add_udp; _ ← map_err "socket: UDP bind failed" (udp_bind_to h p); mret h);
    update fd (set_handle (Some h))
  else mret tt.

Definition tcp_send (fd : Z) (data : list Z) : NM Z :=
  e ← entry_of fd;
  _ ← check (bool_decide (state e = Connected)) "socket: not connected";
  h ← require "socket: no smoltcp handle" (smoltcp_handle e);
  on_stack (sent ← map_err "socket: TCP send failed" (tcp_send_slice h data); _ ← step_stack poll; mret sent).

(** [recv_slice] into a buffer of [len] bytes: the bytes read. *)
Definition tcp_recv (fd len : Z) : NM (list Z) :=
  e ← entry_of fd;
  _ ← check (bool_decide (state e = Connected)) "socket: not connected";
  h ← require "socket: no smoltcp handle" (smoltcp_handle e);
  on_stack (
    _ ← step_stack poll;
    active ← map_err "" (tcp_is_active h);
    open ← (if (active : bool) then mret true else map_err "" (tcp_may_recv h));
    if negb open then mret []
    else
      some ← map_err "" (tcp_can_recv h);
      if (some : bool) then map_err "socket: TCP recv failed" (tcp_recv_slice h len) else mret []).

Definition udp_send (uptime_ms : Z) (fd : Z) (a : list Z) (p : Z) (data : list Z) : NM Z :=
  e ← entry_of fd;
  _ ← check (bool_decide (domain e = Inet)) "socket: not AF_INET";
  _ ← check (bool_decide (socktype e = Dgram)) "socket: not SOCK_DGRAM";
  let send h := on_stack (_ ← map_err "socket: UDP send failed" (udp_send_slice h data a p); step_stack poll) in
  match smoltcp_handle e with
  | Some h => _ ← send h; mret (zlen data)
  | None =>
    h ← on_stack (h ← add_udp; _ ← map_err "socket: UDP auto-bind failed" (udp_bind_to h (ephemeral uptime_ms)); mret h);
    _ ← update fd (fun e => set_state Bound (set_handle (Some h) e));
    _ ← send h;
    mret (zlen data)
  end.

Definition udp_recv (fd len : Z) : NM (list Z * (list Z * Z)) :=
  e ← entry_of fd;
  _ ← check (bool_decide (domain e = Inet)) "socket: not AF_INET";
  _ ← check (bool_decide (socktype e = Dgram)) "socket: not SOCK_DGRAM";
  h ← require "socket: UDP socket not bound" (smoltcp_handle e);
  on_stack (
    _ ← step_stack poll;
    some ← map_err "" (udp_can_recv h);
    _ ← check some "socket: no datagram available";
    map_err "socket: UDP recv failed" (udp_recv_slice h len)).

(** [close]; nothing happens to the stack when there is none. *)
Definition close_handle (t : SockType) (h : Z) : NM unit := fun n =>
  match tcpip n with
  | None => (Ok tt, n)
  | Some _ =>
    on_stack (if bool_decide (t = Stream) then
                _ ← map_err "" (tcp_close h); _ ← step_stack poll; step_stack (remove_socket h)
              else _ ← map_err "" (udp_close h); step_stack (remove_socket h)) n
  end.

Definition close (fd : Z) : NM unit :=
  e ← entry_of fd;
  _ ← update fd (set_handle None);
  _ ← (match smoltcp_handle e with Some h => close_handle (socktype e) h | None => mret tt end);
  modify (on_sockets (fun ss => delete fd (drop_pair (paired e) ss))).

End net.

End Socket.
