(* ===== verification/Shm.v ===== *)
(** * Shared memory

    Models [src/ipc/shm.rs]: regions of frames with an id, mapped on request
    at an address that follows from the id.  [current_mapper] and the frame
    allocator are those of [Paging]. *)

From S2P Require Import Prelude Bytes Abi Capability Vma RmmArch RmmFrame FrameAlloc Paging.
Import RmmArch RmmFrame Paging.

Module Shm.

Record ShmRegion := mkRegion { id : Z; owner : Z; phys_frames : list Z; size : Z }.

Record ShmManager := mkShm { regions : gmap Z ShmRegion; next_id : Z }.

Definition new : ShmManager := mkShm ∅ 1.

(** Each region gets 16 MiB of addresses. *)
Definition virt_base (i : Z) : Z := 0x8000_0000 + i * 0x100_0000.

Definition attach_flags : Z := Z.lor (Z.lor PRESENT WRITABLE) USER_ACCESSIBLE.

Definition find_region_by_vaddr (vaddr : Z) (m : ShmManager) : option Z :=
  if (0x8000_0000 <=? vaddr) && (vaddr <? 0xA000_0000) then
    let i := (vaddr - 0x8000_0000) / 0x100_0000 in
    if bool_decide (is_Some (regions m !! i)) then Some i else None
  else None.

(** 0 when there is no such region or page. *)
Definition translate {E} (i vaddr : Z) (m : ShmManager) : res E Z :=
  match regions m !! i with
  | Some r =>
    offset ← usub vaddr (virt_base i);
    match phys_frames r !! Z.to_nat (offset / 4096) with
    | Some frame => Ok (frame + offset mod 4096)
    | None => Ok 0
    end
  | None => Ok 0
  end.

Section shm.
#[local] Existing Instance X8664Arch.
Context `{X : X86} `{VA : VirtAddrOps}.

(** The regions and the machine. *)
Definition ShmState : Type := ShmManager * State.
Abbreviation HM := (M ShmState AbiError).

Definition machine {A} (m : M State AbiError A) : HM A := fun s => let '(r, k) := m (snd s) in (r, (fst s, k)).

Fixpoint alloc_frames (n : nat) : M State AbiError (list Z) :=
  match n with
  | O => mret []
  | S n =>
    frame ← map_err (Other "OOM in SHM") allocate_frame;
    rest ← alloc_frames n;
    mret (frame :: rest)
  end.

(** Without an allocator the region has no frames. *)
Definition create (owner size : Z) : HM Z :=
  n ← lift (uadd size 4095);
  s ← get;
  frames ← (match snd (snd s) with Some _ => machine (alloc_frames (Z.to_nat (n / 4096))) | None => mret [] end);
  s ← get;
  let i := next_id (fst s) in
  if i + 1 <? 2 ^ 32 then
    _ ← put (mkShm (<[i := mkRegion i owner frames size]> (regions (fst s))) (i + 1), snd s);
    mret i
  else lift Panic.

Fixpoint map_frames (base i : Z) (frames : list Z) : M State AbiError unit :=
  match frames with
  | [] => mret tt
  | frame :: frames =>
    page ← va (base + i * 4096);
    root ← map_err (Other "") cr3;
    r ← map_err (Other "SHM mapping failed") (map_to root page frame attach_flags);
    match r with
    | Mapped => map_frames base (i + 1) frames
    | PageAlreadyMapped => throw (Other "SHM slot already mapped")
    | MapFailed => throw (Other "SHM mapping failed")
    end
  end.

Definition attach (i : Z) : HM Z :=
  s ← get;
  match regions (fst s) !! i with
  | None => throw (Other "SHM region not found")
  | Some r =>
    match snd (snd s) with
    | None => throw (Other "FA missing")
    | Some _ =>
      _ ← machine (map_frames (virt_base i) 0 (phys_frames r));
      mret (virt_base i)
    end
  end.

End shm.

End Shm.
