(* ===== verification/Snapshot.v ===== *)
(** * Process snapshots

    Models [src/process/snapshot.rs]: the binary form of a process, reading it
    back, the files under [/fat/snapshots] and the restore at boot.
    [SnapProc] adds to the process of [Process] the registers and the working
    directory.  What a failed restore wrote stays written. *)

From Stdlib Require Import Ascii.
From stdpp Require Import pretty.
From S2P Require Import Prelude Bytes Abi Capability Vma FdTable Process Scheduler Path Files Vfs RmmArch RmmFrame Paging Compress.
Import RmmArch RmmFrame Paging.

Module Snapshot.

Definition SNAP_MAGIC : list Z := [0x5A; 0x53; 0x4E; 0x50].
Definition SNAP_VERSION : Z := 1.

Record CpuState := mkCpu {
  r15 : Z; r14 : Z; r13 : Z; r12 : Z; r11 : Z; r10 : Z; r9 : Z; r8 : Z; rdi : Z; rsi : Z;
  rbp : Z; rbx : Z; rdx : Z; rcx : Z; rax : Z; rip : Z; cs : Z; rflags : Z; rsp : Z; ss : Z
}.

Record SnapProc := mkSnap {
  cpu_state : CpuState;
  cwd : list Z;   (* [u8; 128] *)
  cwd_len : Z;
  proc : Process.Process
}.

(** ** Serialization *)

Definition push_u32 (v : Z) (buf : list Z) : list Z := buf ++ le_bytes 4 v.
Definition push_u64 (v : Z) (buf : list Z) : list Z := buf ++ le_bytes 8 v.

(** The [read_*] functions return the value and the new offset. *)
Definition read_word (n : nat) (data : list Z) (offset : Z) : res unit (Z * Z) :=
  e ← uadd offset (Z.of_nat n);
  if zlen data <? e then Err tt else Ok (le_word (sub offset (Z.of_nat n) data), e).

Definition read_u32 : list Z -> Z -> res unit (Z * Z) := read_word 4.
Definition read_u64 : list Z -> Z -> res unit (Z * Z) := read_word 8.

Definition read_u8 (data : list Z) (offset : Z) : res unit (Z * Z) :=
  if zlen data <=? offset then Err tt
  else
    v ← index data offset;
    e ← uadd offset 1;
    Ok (v, e).

Definition read_bytes (len : Z) (data : list Z) (offset : Z) : res unit (list Z * Z) :=
  e ← uadd offset len;
  if zlen data <? e then Err tt else Ok (sub offset len data, e).

Definition encode_flags (f : Vma.MemoryRegionFlags) : Z :=
  let v := 0 in
  let v := if Vma.readable f then Z.lor v 0x01 else v in
  let v := if Vma.writable f then Z.lor v 0x02 else v in
  let v := if Vma.executable f then Z.lor v 0x04 else v in
  let v := if Vma.user_accessible f then Z.lor v 0x08 else v in
  if Vma.copy_on_write f then Z.lor v 0x10 else v.

Definition decode_flags (v : Z) : Vma.MemoryRegionFlags :=
  Vma.mkFlags (negb (Z.land v 0x01 =? 0)) (negb (Z.land v 0x02 =? 0)) (negb (Z.land v 0x04 =? 0))
    (negb (Z.land v 0x08 =? 0)) (negb (Z.land v 0x10 =? 0)).

Definition encode_fd_target (t : FdTable.FdTarget) : Z * Z :=
  match t with
  | FdTable.Stdin => (0, 0)
  | FdTable.Stdout => (1, 0)
  | FdTable.Stderr => (2, 0)
  | FdTable.PipeRead id => (3, id)
  | FdTable.PipeWrite id => (4, id)
  | FdTable.File idx => (5, idx)
  | FdTable.Scheme idx handle => (6, Z.lor (wrap 32 (Z.shiftl idx 16)) (wrap 32 handle))
  end.

Definition decode_fd_target (tag data : Z) : option FdTable.FdTarget :=
  if tag =? 0 then Some FdTable.Stdin
  else if tag =? 1 then Some FdTable.Stdout
  else if tag =? 2 then Some FdTable.Stderr
  else if tag =? 3 then Some (FdTable.PipeRead data)
  else if tag =? 4 then Some (FdTable.PipeWrite data)
  else if tag =? 5 then Some (FdTable.File (wrap 8 data))
  else if tag =? 6 then Some (FdTable.Scheme (wrap 8 (Z.shiftr data 16)) (Z.land data 0xFFFF))
  else None.

Definition cpu_regs (c : CpuState) : list Z :=
  [r15 c; r14 c; r13 c; r12 c; r11 c; r10 c; r9 c; r8 c; rdi c; rsi c;
   rbp c; rbx c; rdx c; rcx c; rax c; rip c; cs c; rflags c; rsp c; ss c].

Definition cpu_of (regs : list Z) : CpuState :=
  let r i := nth i regs 0 in
  mkCpu (r 0%nat) (r 1%nat) (r 2%nat) (r 3%nat) (r 4%nat) (r 5%nat) (r 6%nat) (r 7%nat) (r 8%nat) (r 9%nat)
    (r 10%nat) (r 11%nat) (r 12%nat) (r 13%nat) (r 14%nat) (r 15%nat) (r 16%nat) (r 17%nat) (r 18%nat) (r 19%nat).

Definition abi_code (a : Process.AbiKind) : Z :=
  match a with Process.LinuxElf => 0 | Process.Wasm => 1 | Process.ZiqaNative => 2 | Process.RedoxElf => 3 end.

Definition abi_of (v : Z) : option Process.AbiKind :=
  if v =? 0 then Some Process.LinuxElf
  else if v =? 1 then Some Process.Wasm
  else if v =? 2 then Some Process.ZiqaNative
  else None.

(** ** Taking a snapshot *)

Definition header (p : SnapProc) : list Z :=
  let q := proc p in
  let i := Process.image q in
  let buf := push_u32 SNAP_VERSION SNAP_MAGIC in
  let buf := foldl (fun buf v => push_u64 v buf) buf (cpu_regs (cpu_state p)) in
  let buf := push_u64 (Process.pid q) buf in
  let buf := push_u64 (abi_code (Process.abi q)) buf in
  let buf := push_u64 (Process.priority q) buf in
  let buf := push_u64 (Process.brk i) buf in
  let buf := push_u64 (Process.mmap_bump i) buf in
  let buf := push_u64 (Process.entry_point i) buf in
  let buf := push_u64 (Process.stack_top i) buf in
  push_u32 (cwd_len p) buf.

(** [(size + PAGE_SIZE - 1) / PAGE_SIZE] *)
Definition page_count {E} (size : Z) : res E Z := n ← uadd size 4096; Ok ((n - 1) / 4096).

(** One open descriptor. *)
Definition fd_bytes (fd_idx : nat) (desc : FdTable.FileDesc) (t : FdTable.Table) : res unit (list Z) :=
  let buf := push_u32 (Z.of_nat fd_idx) [] in
  let '(tag, target_data) := encode_fd_target (FdTable.target desc) in
  let buf := push_u32 target_data (buf ++ [tag]) in
  let buf := push_u32 (FdTable.flags desc) buf in
  let buf := push_u64 (FdTable.offset desc) buf in
  path_len ← index (FdTable.path_lens t) (Z.of_nat fd_idx);
  let buf := buf ++ [wrap 8 path_len] in
  if 0 <? path_len then
    row ← index (FdTable.paths t) (Z.of_nat fd_idx);
    path ← slice 0 path_len row;
    Ok (buf ++ path)
  else Ok buf.

(** The loop over the descriptors, with the count of open ones. *)
Fixpoint snap_fds (fds : list nat) (t : FdTable.Table) (fd_count : Z) (buf : list Z) : res unit (Z * list Z) :=
  match fds with
  | [] => Ok (fd_count, buf)
  | fd_idx :: fds =>
    match FdTable.get fd_idx t with
    | Some desc => bs ← fd_bytes fd_idx desc t; snap_fds fds t (fd_count + 1) (buf ++ bs)
    | None => snap_fds fds t fd_count buf
    end
  end.

Section take.
#[local] Existing Instance X8664Arch.
Context `{X : X86} `{VA : VirtAddrOps}.

(** The presence byte and the contents of a page. *)
Definition snap_page (page_table_frame : option Z) (page_addr : Z) : KM (list Z) :=
  entry ← try (match page_table_frame with
               | Some frame => get_leaf_entry_mut_in frame page_addr
               | None => get_leaf_entry_mut page_addr
               end);
  match entry with
  | Some x =>
    e ← read_entry (fst x) (snd x);
    if has (e_flags e) PRESENT then
      virt ← phys_to_virt (e_addr e);
      page_bytes ← read virt 4096;
      mret (1 :: page_bytes)
    else mret [0]
  | None => mret [0]
  end.

Fixpoint snap_pages (n : nat) (page_idx start : Z) (page_table_frame : option Z) : KM (list Z) :=
  match n with
  | O => mret []
  | S n =>
    a ← lift (uadd start (page_idx * 4096));
    page_addr ← va a;
    bs ← snap_page page_table_frame page_addr;
    rest ← snap_pages n (page_idx + 1) start page_table_frame;
    mret (bs ++ rest)
  end.

Fixpoint snap_vmas (vmas : list Vma.Vma) (page_table_frame : option Z) (buf : list Z) : KM (list Z) :=
  match vmas with
  | [] => mret buf
  | vma :: vmas =>
    let buf := push_u64 (Vma.end_ vma) (push_u64 (Vma.start vma) buf) in
    let buf := buf ++ [encode_flags (Vma.flags vma)] in
    vma_size ← lift (usub (Vma.end_ vma) (Vma.start vma));
    n ← lift (page_count vma_size);
    page_data ← snap_pages (Z.to_nat n) 0 (Vma.start vma) page_table_frame;
    snap_vmas vmas page_table_frame (push_u32 (zlen page_data) buf ++ page_data)
  end.

Definition snapshot (p : SnapProc) : KM (list Z) :=
  let i := Process.image (proc p) in
  dir ← lift (slice 0 (cwd_len p) (cwd p));
  let buf := push_u32 (zlen (Process.vmas i)) (header p ++ dir) in
  buf ← snap_vmas (Process.vmas i) (Process.page_table_frame i) buf;
  let fd_count_pos := zlen buf in
  r ← lift (snap_fds (seq 0 8) (Process.fds (proc p)) 0 (push_u32 0 buf));
  lift (splice fd_count_pos (le_bytes 4 (fst r)) (snd r)).

End take.

(** ** Restoring *)

Definition set_cpu (c : CpuState) (p : SnapProc) : SnapProc := mkSnap c (cwd p) (cwd_len p) (proc p).
Definition set_cwd (bs : list Z) (n : Z) (p : SnapProc) : SnapProc := mkSnap (cpu_state p) bs n (proc p).
Definition set_proc (f : Process.Process -> Process.Process) (p : SnapProc) : SnapProc := mkSnap (cpu_state p) (cwd p) (cwd_len p) (f (proc p)).

Definition set_abi (a : Process.AbiKind) (p : Process.Process) : Process.Process :=
  Process.mkProcess (Process.pid p) (Process.state p) a (Process.priority p) (Process.capabilities p) (Process.image p) (Process.signals p)
    (Process.parent p) (Process.exit_code p) (Process.join_waiters p) (Process.fds p) (Process.vruntime p) (Process.fs_base p) (Process.gs_base p)
    (Process.timed_out p).

(** [self.priority = ..], which does not limit the value. *)
Definition put_priority (pr : Z) (p : Process.Process) : Process.Process :=
  Process.mkProcess (Process.pid p) (Process.state p) (Process.abi p) pr (Process.capabilities p) (Process.image p) (Process.signals p)
    (Process.parent p) (Process.exit_code p) (Process.join_waiters p) (Process.fds p) (Process.vruntime p) (Process.fs_base p) (Process.gs_base p)
    (Process.timed_out p).

Definition set_fds (t : FdTable.Table) (p : Process.Process) : Process.Process :=
  Process.mkProcess (Process.pid p) (Process.state p) (Process.abi p) (Process.priority p) (Process.capabilities p) (Process.image p)
    (Process.signals p) (Process.parent p) (Process.exit_code p) (Process.join_waiters p) t (Process.vruntime p) (Process.fs_base p)
    (Process.gs_base p) (Process.timed_out p).

Definition on_image (f : Process.Image -> Process.Image) (p : Process.Process) : Process.Process := Process.set_image (f (Process.image p)) p.

Definition with_brk (b : Z) (i : Process.Image) : Process.Image :=
  Process.mkImage (Process.vmas i) (Process.entry_point i) (Process.stack_top i) b (Process.mmap_bump i) (Process.binary_data i)
    (Process.page_table_frame i) (Process.argv i) (Process.envp i).
Definition with_mmap_bump (b : Z) (i : Process.Image) : Process.Image :=
  Process.mkImage (Process.vmas i) (Process.entry_point i) (Process.stack_top i) (Process.brk i) b (Process.binary_data i)
    (Process.page_table_frame i) (Process.argv i) (Process.envp i).
Definition with_entry (a : Z) (i : Process.Image) : Process.Image :=
  Process.mkImage (Process.vmas i) a (Process.stack_top i) (Process.brk i) (Process.mmap_bump i) (Process.binary_data i)
    (Process.page_table_frame i) (Process.argv i) (Process.envp i).
Definition with_stack (a : Z) (i : Process.Image) : Process.Image :=
  Process.mkImage (Process.vmas i) (Process.entry_point i) a (Process.brk i) (Process.mmap_bump i) (Process.binary_data i)
    (Process.page_table_frame i) (Process.argv i) (Process.envp i).

(** [create_process_page_table] of [src/memory/paging.rs]. *)
Definition create_process_page_table : option Z := None.

(** No areas, and a page table if there is none. *)
Definition clear_areas (i : Process.Image) : Process.Image :=
  let i := Process.with_vmas [] i in
  match Process.page_table_frame i with
  | None => Process.with_frame create_process_page_table i
  | Some _ => i
  end.

(** The flags of a restored page. *)
Definition restore_flags (f : Vma.MemoryRegionFlags) : Z :=
  let pf := PRESENT in
  let pf := if Vma.writable f then Z.lor pf WRITABLE else pf in
  let pf := if Vma.user_accessible f then Z.lor pf USER_ACCESSIBLE else pf in
  if negb (Vma.executable f) then Z.lor pf NO_EXECUTE else pf.

Section restore.
#[local] Existing Instance X8664Arch.
Context `{X : X86} `{VA : VirtAddrOps} `{BS : BinarySearch}.

(** The offset into the data, the process and the machine. *)
Definition RState : Type := Z * (SnapProc * State).
Abbreviation RM := (M RState unit).

Definition rd {A} (f : Z -> res unit (A * Z)) : RM A := fun s =>
  match f (fst s) with
  | Ok (a, off) => (Ok a, (off, snd s))
  | Err e => (Err e, s)
  | Panic => (Panic, s)
  | Fault => (Fault, s)
  end.

Definition on_proc (f : SnapProc -> SnapProc) : RM unit := fun s => (Ok tt, (fst s, (f (fst (snd s)), snd (snd s)))).
Definition get_proc : RM SnapProc := fun s => (Ok (fst (snd s)), s).
Definition on_machine {A} (m : KM A) : RM A := fun s => let '(r, k) := m (snd (snd s)) in (r, (fst s, (fst (snd s), k))).
Definition new_va (a : Z) : RM Z := lift (Vma.or_panic (va_new a)).

Fixpoint read_regs (n : nat) (data : list Z) : RM (list Z) :=
  match n with
  | O => mret []
  | S n => r ← rd (read_u64 data); rs ← read_regs n data; mret (r :: rs)
  end.

(** The pages of one area; the result of [map_to] is dropped. *)
Fixpoint restore_pages (n : nat) (page_idx start : Z) (f : Vma.MemoryRegionFlags) (root : Z) (page_data : list Z) (pd_off : Z) : KM unit :=
  match n with
  | O => mret tt
  | S n =>
    if zlen page_data <=? pd_off then mret tt
    else
      present ← lift (index page_data pd_off);
      let pd_off := pd_off + 1 in
      if present =? 1 then
        if zlen page_data <? pd_off + 4096 then throw tt
        else
          let page_contents := sub pd_off 4096 page_data in
          a ← lift (uadd start (page_idx * 4096));
          page_vaddr ← va a;
          frame ← allocate_frame;
          dst ← phys_to_virt frame;
          _ ← write dst page_contents;
          _ ← map_to root page_vaddr frame (restore_flags f);
          restore_pages n (page_idx + 1) start f root page_data (pd_off + 4096)
      else restore_pages n (page_idx + 1) start f root page_data pd_off
  end.

(** [Vma::new], whose addition panics or succeeds. *)
Definition new_vma (s size : Z) (f : Vma.MemoryRegionFlags) : RM Vma.Vma :=
  match Vma.new s size f with Ok v => mret v | _ => lift Panic end.

Fixpoint restore_vmas (n : nat) (root : Z) (data : list Z) : RM unit :=
  match n with
  | O => mret tt
  | S n =>
    start ← rd (read_u64 data);
    end_ ← rd (read_u64 data);
    flags_byte ← rd (read_u8 data);
    let f := decode_flags flags_byte in
    page_data_len ← rd (read_u32 data);
    page_data ← rd (read_bytes page_data_len data);
    s ← new_va start;
    size ← lift (usub end_ start);
    vma ← new_vma s size f;
    _ ← on_proc (set_proc (on_image (fun i => Process.with_vmas (Vma.add_region vma (Process.vmas i)) i)));
    count ← lift (page_count size);
    _ ← on_machine (restore_pages (Z.to_nat count) 0 start f root page_data 0);
    restore_vmas n root data
  end.

(** One descriptor into the fresh table. *)
Definition restore_fd (fd_idx tag target_data fl offset path_len : Z) (path_bytes : list Z) (t : FdTable.Table) : res unit FdTable.Table :=
  match decode_fd_target tag target_data with
  | None => Ok t
  | Some target =>
    if fd_idx <? 8 then
      if fd_idx <? 3 then Ok (FdTable.update_desc (Z.to_nat fd_idx) (fun d => FdTable.mkDesc (FdTable.target d) fl offset) t)
      else
        let n := Z.min path_len 63 in
        rows ← (if 0 <? n then
                  row ← index (FdTable.paths t) fd_idx;
                  row ← splice 0 (take (Z.to_nat n) path_bytes) row;
                  Ok (<[Z.to_nat fd_idx := row]> (FdTable.paths t))
                else Ok (FdTable.paths t));
        let t := FdTable.mkTable (FdTable.entries t) rows (<[Z.to_nat fd_idx := n]> (FdTable.path_lens t)) in
        Ok (FdTable.update_desc (Z.to_nat fd_idx) (fun _ => FdTable.mkDesc target fl offset) t)
    else Ok t
  end.

Fixpoint restore_fds (n : nat) (data : list Z) : RM unit :=
  match n with
  | O => mret tt
  | S n =>
    fd_idx ← rd (read_u32 data);
    tag ← rd (read_u8 data);
    target_data ← rd (read_u32 data);
    fl ← rd (read_u32 data);
    offset ← rd (read_u64 data);
    path_len ← rd (read_u8 data);
    path_bytes ← (if 0 <? path_len then rd (read_bytes path_len data) else mret []);
    p ← get_proc;
    t ← lift (restore_fd fd_idx tag target_data fl offset path_len path_bytes (Process.fds (proc p)));
    _ ← on_proc (set_proc (set_fds t));
    restore_fds n data
  end.

Definition restore_metadata (data : list Z) : RM unit :=
  _ ← rd (read_u64 data);
  abi_val ← rd (read_u64 data);
  a ← (match abi_of abi_val with Some a => mret a | None => throw tt end);
  _ ← on_proc (set_proc (set_abi a));
  pr ← rd (read_u64 data);
  _ ← on_proc (set_proc (put_priority (wrap 8 pr)));
  b ← rd (read_u64 data);
  _ ← on_proc (set_proc (on_image (with_brk b)));
  mb ← rd (read_u64 data);
  _ ← on_proc (set_proc (on_image (with_mmap_bump mb)));
  e ← rd (read_u64 data);
  entry ← new_va e;
  _ ← on_proc (set_proc (on_image (with_entry entry)));
  st ← rd (read_u64 data);
  stack ← new_va st;
  on_proc (set_proc (on_image (with_stack stack))).

Definition restore_cwd (data : list Z) : RM unit :=
  n ← rd (read_u32 data);
  if 128 <? n then throw tt
  else
    cwd_bytes ← rd (read_bytes n data);
    p ← get_proc;
    d ← lift (splice 0 cwd_bytes (cwd p));
    on_proc (set_cwd d n).

Definition restore_inner (data : list Z) : RM unit :=
  magic ← rd (read_bytes 4 data);
  if negb (bool_decide (magic = SNAP_MAGIC)) then throw tt
  else
    version ← rd (read_u32 data);
    if negb (version =? SNAP_VERSION) then throw tt
    else
      regs ← read_regs 20 data;
      _ ← on_proc (set_cpu (cpu_of regs));
      _ ← restore_metadata data;
      _ ← restore_cwd data;
      vma_count ← rd (read_u32 data);
      _ ← on_proc (set_proc (on_image clear_areas));
      p ← get_proc;
      root ← (match Process.page_table_frame (Process.image (proc p)) with Some root => mret root | None => throw tt end);
      _ ← restore_vmas (Z.to_nat vma_count) root data;
      fd_count ← rd (read_u32 data);
      _ ← on_proc (set_proc (set_fds FdTable.new));
      restore_fds (Z.to_nat fd_count) data.

(** [restore]: whether it worked, the process and the machine it leaves. *)
Definition restore (data : list Z) (p : SnapProc) (k : State) : res unit bool * (SnapProc * State) :=
  match restore_inner data (0, (p, k)) with
  | (Ok _, s) => (Ok true, snd s)
  | (Err _, s) => (Ok false, snd s)
  | (Panic, s) => (Panic, snd s)
  | (Fault, s) => (Fault, snd s)
  end.

End restore.

(** ** [SnapshotManager] *)

Definition snap_path (pid : Z) : string := "/fat/snapshots/" +:+ pretty pid +:+ ".snap".

Definition digit (c : ascii) : option Z :=
  let n := Z.of_nat (nat_of_ascii c) in
  if (48 <=? n) && (n <=? 57) then Some (n - 48) else None.

Fixpoint parse_digits (s : string) (acc : Z) : option Z :=
  match s with
  | EmptyString => Some acc
  | String c s =>
    match digit c with
    | Some d => if acc * 10 + d <? 2 ^ 64 then parse_digits s (acc * 10 + d) else None
    | None => None
    end
  end.

(** [str::parse::<u64>]: digits, one plus sign allowed before them. *)
Definition parse_u64 (s : string) : option Z :=
  match s with
  | EmptyString => None
  | String c rest =>
    if Ascii.eqb c "+"%char then match rest with EmptyString => None | _ => parse_digits rest 0 end
    else parse_digits s 0
  end.

(** [entry.rsplit('/').next()] *)
Definition file_name (entry : string) : string := List.last (Path.split Path.slash entry) entry.

(** The process id in a file name ending in [.snap]. *)
Definition snap_pid (filename : string) : option Z :=
  let n := (String.length filename - 5)%nat in
  if (5 <=? String.length filename)%nat && String.eqb (String.substring n 5 filename) ".snap" then parse_u64 (String.substring 0 n filename) else None.

Section manager.
#[local] Existing Instance X8664Arch.
Context `{X : X86} `{VA : VirtAddrOps} `{BS : BinarySearch} `{CD : Compress.Codec}.
Context {XF W : Type} {fx : Files.File XF} {out : Vfs.Outside W XF}.

(** The machine and the file tree. *)
Definition MState : Type := State * Vfs.Vfs XF W.
Abbreviation MM := (M MState unit).

Definition machine {A} (m : KM A) : MM A := fun s => let '(r, k) := m (fst s) in (r, (k, snd s)).

(** A call on the tree, its result as a value. *)
Definition vfs_call {A} (m : M (Vfs.Vfs XF W) AbiError A) : MM (option A) := fun s =>
  match m (snd s) with
  | (Ok a, v) => (Ok (Some a), (fst s, v))
  | (Err _, v) => (Ok None, (fst s, v))
  | (Panic, v) => (Panic, (fst s, v))
  | (Fault, v) => (Fault, (fst s, v))
  end.

Definition save (p : SnapProc) : MM bool :=
  data ← machine (snapshot p);
  match Compress.compress data with
  | None => mret false
  | Some compressed =>
    let path := snap_path (Process.pid (proc p)) in
    _ ← vfs_call (Vfs.mkdir "/fat/snapshots");
    _ ← vfs_call (Vfs.create path);
    r ← vfs_call (Vfs.write_raw path compressed 0);
    mret (is_some r)
  end.

(** [read_raw_all]; its loop has fuel enough. *)
Definition read_all (path : string) : M (Vfs.Vfs XF W) AbiError (list Z) := fun v =>
  (match Vfs.read_raw_all path v with Some r => r | None => Fault end, v).

(** [proc.restore(&snapshot)] *)
Definition restore_into (data : list Z) (p : SnapProc) : MM (bool * SnapProc) := fun s =>
  match restore data p (fst s) with
  | (Ok b, (p', k)) => (Ok (b, p'), (k, snd s))
  | (Err e, (_, k)) => (Err e, (k, snd s))
  | (Panic, (_, k)) => (Panic, (k, snd s))
  | (Fault, (_, k)) => (Fault, (k, snd s))
  end.

Definition load (pid : Z) (p : SnapProc) : MM (bool * SnapProc) :=
  r ← vfs_call (read_all (snap_path pid));
  match r with
  | None => mret (false, p)
  | Some compressed =>
    match Compress.decompress compressed 0 with
    | None => mret (false, p)
    | Some data => restore_into data p
    end
  end.

Definition list_snapshots : MM (list Z) :=
  r ← vfs_call (fun v => (Vfs.list_dir "/fat/snapshots" v, v));
  mret (omap (fun entry => snap_pid (file_name entry)) (default [] r)).

Definition delete_snapshot (pid : Z) : MM bool :=
  r ← vfs_call (Vfs.remove (snap_path pid));
  mret (is_some r).

(** *** At boot *)

(** The registers and the working directory of a process. *)
Record Ctx := mkCtx { ctx_cpu : CpuState; ctx_cwd : list Z; ctx_cwd_len : Z }.

Record BState := mkBoot { b_sched : Scheduler.Sched; b_ctx : gmap Z Ctx; b_machine : MState }.
Abbreviation BM := (M BState unit).

Context (detect : list Z -> option (Process.AbiKind * Scheduler.loader)) (first_ctx : Process.Process -> Ctx).

Definition on_manager {A} (m : MM A) : BM A := fun s => let '(r, k) := m (b_machine s) in (r, mkBoot (b_sched s) (b_ctx s) k).

(** [spawn_elf], with the context the new process gets. *)
Definition spawn_placeholder (binary : list Z) : BM (option Z) := fun s =>
  match Scheduler.spawn_elf detect binary create_process_page_table (b_sched s) with
  | Ok (o, sc) =>
    let ctx := match o with
               | Some p => match Scheduler.get_process p sc with Some q => <[p := first_ctx q]> (b_ctx s) | None => b_ctx s end
               | None => b_ctx s
               end in
    (Ok o, mkBoot sc ctx (b_machine s))
  | Err e => (Err e, s)
  | Panic => (Panic, s)
  | Fault => (Fault, s)
  end.

(** [with_process_mut(new_pid, |proc| load(snap_pid, proc)).unwrap_or(false)] *)
Definition load_into (new_pid snap : Z) : BM bool := fun s =>
  match Scheduler.get_process new_pid (b_sched s), b_ctx s !! new_pid with
  | Some q, Some x =>
    match load snap (mkSnap (ctx_cpu x) (ctx_cwd x) (ctx_cwd_len x) q) (b_machine s) with
    | (Ok (b, p'), k) =>
      (Ok b, mkBoot (Scheduler.update_process new_pid (fun _ => proc p') (b_sched s))
               (<[new_pid := mkCtx (cpu_state p') (cwd p') (cwd_len p')]> (b_ctx s)) k)
    | (Err e, k) => (Err e, mkBoot (b_sched s) (b_ctx s) k)
    | (Panic, k) => (Panic, mkBoot (b_sched s) (b_ctx s) k)
    | (Fault, k) => (Fault, mkBoot (b_sched s) (b_ctx s) k)
    end
  | _, _ => (Ok false, s)
  end.

Definition kill (p : Z) : BM unit := fun s => (Ok tt, mkBoot (snd (Scheduler.send_signal p 9 (b_sched s))) (b_ctx s) (b_machine s)).

Fixpoint restore_each (binary : list Z) (pids : list Z) (restored : Z) : BM Z :=
  match pids with
  | [] => mret restored
  | snap :: pids =>
    o ← spawn_placeholder binary;
    match o with
    | None => restore_each binary pids restored
    | Some new_pid =>
      ok ← load_into new_pid snap;
      if (ok : bool) then restore_each binary pids (restored + 1)
      else _ ← kill new_pid; restore_each binary pids restored
    end
  end.

Definition restore_all_at_boot (placeholder_binary : list Z) : BM Z :=
  pids ← on_manager list_snapshots;
  restore_each placeholder_binary pids 0.

End manager.

End Snapshot.
