(* ===== verification/Elf.v ===== *)
(** * The ELF loader

    Models [src/abi/linux/elf_loader.rs].  [ElfProc] has the fields of the
    process that loading reads or writes; the loader runs on them and on the
    machine of [Paging].  The state stays changed when loading fails. *)

From S2P Require Import Prelude Bytes Abi Capability Vma Path RmmArch RmmFrame Paging.
Import RmmArch RmmFrame Paging.

Module Elf.

Definition ELF_MAGIC : list Z := [0x7F; 0x45; 0x4C; 0x46].
Definition ELFCLASS64 : Z := 2.
Definition ELFDATA2LSB : Z := 1.
Definition ET_EXEC : Z := 2.
Definition ET_DYN : Z := 3.
Definition EM_X86_64 : Z := 62.
Definition PT_LOAD : Z := 1.
Definition PT_INTERP : Z := 3.
Definition PF_X : Z := 1.
Definition PF_W : Z := 2.
Definition PF_R : Z := 4.

(** ** Reading *)

(** [data.get(o..o + n)] and [from_le_bytes]. *)
Definition word_at (data : list Z) (n o : Z) : res AbiError Z :=
  e ← uadd o n;
  if e <=? zlen data then Ok (le_word (sub o n data)) else Err ParseError.

Definition u16_at (data : list Z) : Z -> res AbiError Z := word_at data 2.
Definition u32_at (data : list Z) : Z -> res AbiError Z := word_at data 4.
Definition u64_at (data : list Z) : Z -> res AbiError Z := word_at data 8.

Record Elf64Header := mkHeader { e_type : Z; e_entry : Z; e_phoff : Z; e_phentsize : Z; e_phnum : Z }.

Record Elf64Phdr := mkPhdr { p_type : Z; p_flags : Z; p_offset : Z; p_vaddr : Z; p_filesz : Z; p_memsz : Z }.

Definition parse_header (b : list Z) : res AbiError Elf64Header :=
  if zlen b <? 64 then Err ParseError
  else if negb (bool_decide (sub 0 4 b = ELF_MAGIC)) then Err UnknownFormat
  else if negb (bool_decide (b !! 4%nat = Some ELFCLASS64)) then Err (Other "Not 64-bit ELF")
  else if negb (bool_decide (b !! 5%nat = Some ELFDATA2LSB)) then Err (Other "Not little-endian ELF")
  else
    type_ ← u16_at b 16;
    machine ← u16_at b 18;
    if negb (type_ =? ET_EXEC) && negb (type_ =? ET_DYN) then Err (Other "Not executable ELF")
    else if negb (machine =? EM_X86_64) then Err (Other "Not x86_64 ELF")
    else
      entry ← u64_at b 24;
      phoff ← u64_at b 32;
      phentsize ← u16_at b 54;
      phnum ← u16_at b 56;
      Ok (mkHeader type_ entry phoff phentsize phnum).

Definition parse_phdr (b : list Z) (offset : Z) : res AbiError Elf64Phdr :=
  e ← uadd offset 56;
  if zlen b <? e then Err ParseError
  else
    type_ ← u32_at b offset;
    flags ← u32_at b (offset + 4);
    off ← u64_at b (offset + 8);
    vaddr ← u64_at b (offset + 16);
    filesz ← u64_at b (offset + 32);
    memsz ← u64_at b (offset + 40);
    Ok (mkPhdr type_ flags off vaddr filesz memsz).

(** ** Loading *)

Record ElfProc := mkElfProc {
  entry_point : Z;
  rip : Z;
  elf_phent : Z;
  elf_phnum : Z;
  elf_phdr : Z;
  brk : Z;
  interpreter : option (list Z);
  vmas : list Vma.Vma;
  page_table_frame : option Z
}.

Definition set_entry (entry e : Z) (h : Elf64Header) (p : ElfProc) : ElfProc :=
  mkElfProc entry e (e_phentsize h) (e_phnum h) (elf_phdr p) (brk p) (interpreter p) (vmas p) (page_table_frame p).
Definition set_phdr (a : Z) (p : ElfProc) : ElfProc :=
  mkElfProc (entry_point p) (rip p) (elf_phent p) (elf_phnum p) a (brk p) (interpreter p) (vmas p) (page_table_frame p).
Definition set_brk (b : Z) (p : ElfProc) : ElfProc :=
  mkElfProc (entry_point p) (rip p) (elf_phent p) (elf_phnum p) (elf_phdr p) b (interpreter p) (vmas p) (page_table_frame p).
Definition set_interpreter (s : list Z) (p : ElfProc) : ElfProc :=
  mkElfProc (entry_point p) (rip p) (elf_phent p) (elf_phnum p) (elf_phdr p) (brk p) (Some s) (vmas p) (page_table_frame p).
Definition set_vmas (vs : list Vma.Vma) (p : ElfProc) : ElfProc :=
  mkElfProc (entry_point p) (rip p) (elf_phent p) (elf_phnum p) (elf_phdr p) (brk p) (interpreter p) vs (page_table_frame p).

Definition satadd (a b : Z) : Z := Z.min (a + b) (2 ^ 64 - 1).
Definition satsub (a b : Z) : Z := Z.max 0 (a - b).

(** [a & !0xFFF] *)
Definition page_down (a : Z) : Z := a - a mod 4096.

Definition seg_flags (ph : Elf64Phdr) : Vma.MemoryRegionFlags :=
  Vma.mkFlags (negb (Z.land (p_flags ph) PF_R =? 0)) (negb (Z.land (p_flags ph) PF_W =? 0)) (negb (Z.land (p_flags ph) PF_X =? 0)) true false.

Section load.
Context `{X : X86} `{VA : VirtAddrOps} `{BS : BinarySearch} (kernel_root : Z).

Definition LState : Type := ElfProc * State.
Abbreviation LM := (M LState AbiError).

Definition on_proc (f : ElfProc -> ElfProc) : LM unit := fun s => (Ok tt, (f (fst s), snd s)).
Definition get_proc : LM ElfProc := fun s => (Ok (fst s), s).

(** A call on the machine, with its error replaced. *)
Definition on_paging {A} (e : AbiError) (m : M State string A) : LM A := fun s =>
  match m (snd s) with
  | (Ok a, k) => (Ok a, (fst s, k))
  | (Err _, k) => (Err e, (fst s, k))
  | (Panic, k) => (Panic, (fst s, k))
  | (Fault, k) => (Fault, (fst s, k))
  end.

Definition new_va (a : Z) : LM Z := lift (Vma.or_panic (va_new a)).

(** The arm for [PT_LOAD]: the end of the segment. *)
Definition load_segment (binary : list Z) (hdr : Elf64Header) (load_base : Z) (ph : Elf64Phdr) : LM Z :=
  vaddr ← lift (uadd (p_vaddr ph) load_base);
  end_vaddr ← (if vaddr + p_memsz ph <? 2 ^ 64 then mret (vaddr + p_memsz ph) else throw (Other "ELF segment memsz overflow"));
  if 0x7FFFFFFFFFFF <? end_vaddr then throw (Other "ELF segment overlaps kernel space")
  else if end_vaddr <? vaddr then throw (Other "ELF segment address overflow")
  else
    let aligned_vaddr := page_down vaddr in
    let offset_diff := vaddr - aligned_vaddr in
    size ← lift (s ← uadd (p_memsz ph) offset_diff; uadd s 0xFFF);
    let aligned_size := page_down size in
    start ← new_va aligned_vaddr;
    file_size ← lift (uadd (p_filesz ph) offset_diff);
    let file_offset := satsub (p_offset ph) offset_diff in
    e ← lift (Vma.or_panic (va_add start aligned_size));
    _ ← on_proc (fun p => set_vmas (Vma.add_region (Vma.mkVma start e (seg_flags ph) false None file_offset file_size None) (vmas p)) p);
    p ← get_proc;
    _ ← on_paging (Other "ELF segment mapping failed")
          (map_elf_region kernel_root (page_table_frame p) start aligned_size (region_flags_to_page_flags (seg_flags ph)) binary file_offset file_size);
    _ ← (if (p_offset ph <=? e_phoff hdr) && (e_phoff hdr <? satadd (p_offset ph) (p_filesz ph)) then
           a ← lift (uadd vaddr (e_phoff hdr));
           on_proc (set_phdr (a - p_offset ph))
         else mret tt);
    mret end_vaddr.

(** [path_bytes.iter().position(|&b| b == 0)] *)
Fixpoint until_nul (bs : list Z) : list Z :=
  match bs with
  | [] => []
  | b :: bs => if b =? 0 then [] else b :: until_nul bs
  end.

(** The arm for [PT_INTERP]. *)
Definition read_interp (binary : list Z) (ph : Elf64Phdr) : LM unit :=
  e ← lift (uadd (p_offset ph) (p_filesz ph));
  if e <=? zlen binary then
    let path := until_nul (sub (p_offset ph) (p_filesz ph) binary) in
    if Path.utf8_valid path then on_proc (set_interpreter path) else mret tt
  else mret tt.

(** [(e_phoff as usize).saturating_add((i as u16).saturating_mul(e_phentsize) as usize)] *)
Definition phdr_offset (hdr : Elf64Header) (i : Z) : Z := satadd (e_phoff hdr) (Z.min (i * e_phentsize hdr) 65535).

(** The loop over the program headers, with [max_vaddr]. *)
Fixpoint load_phdrs (n : nat) (i : Z) (binary : list Z) (hdr : Elf64Header) (load_base max_vaddr : Z) : LM Z :=
  match n with
  | O => mret max_vaddr
  | S n =>
    ph ← lift (parse_phdr binary (phdr_offset hdr i));
    m ← (if p_type ph =? PT_LOAD then
           e ← load_segment binary hdr load_base ph; mret (Z.max max_vaddr e)
         else if p_type ph =? PT_INTERP then _ ← read_interp binary ph; mret max_vaddr
         else mret max_vaddr);
    load_phdrs n (i + 1) binary hdr load_base m
  end.

Definition load_elf (binary : list Z) : LM unit :=
  hdr ← lift (parse_header binary);
  let load_base := if e_type hdr =? ET_DYN then 0x400000 else 0 in
  e ← lift (uadd (e_entry hdr) load_base);
  entry ← new_va e;
  _ ← on_proc (set_entry entry e hdr);
  max_vaddr ← load_phdrs (Z.to_nat (e_phnum hdr)) 0 binary hdr load_base 0;
  end_ ← lift (uadd max_vaddr 0xFFF);
  on_proc (set_brk (page_down end_)).

End load.

End Elf.
