(* ===== verification/AddrSpace.v ===== *)
(** * Address spaces of programs

    What the x86_64 crate's [map_to] promises, as an interface over the trees
    of [RmmWalk], and what mapping a region of a binary
    ([map_elf_region] of [src/memory/paging.rs]) does to an address space
    under that promise.  The mapper of [RmmMapper] meets the interface. *)

From S2P Require Import Prelude Bytes Abi Capability Vma RmmArch RmmFrame RmmBuddy RmmInit RmmMapper RmmWalk RmmMap RmmSpace FrameAlloc Paging PagingCow.
Import RmmArch RmmFrame RmmBuddy RmmMapper RmmWalk RmmMap RmmSpace Paging PagingCow.

Module AddrSpace.

Section space.
#[local] Existing Instance X8664Arch.

Implicit Types (m : gmap Z Z) (c : Machine) (f : BuddyAllocator) (R K T : gset Z) (v w root : Z).

Definition mapper_at root : PageMapper := mkMapper User root.

Abbreviation space m root := (space_of m (mapper_at root)).

(** [unused m root v]: the leaf entry for [v] is free.  [map_to] takes such a
    page, creates the tables it needs and fails only where there is no frame
    for them; it touches no frame that is not a table of the root. *)
Class MapperSpec (X : X86) := {
  unused : gmap Z Z -> Z -> Z -> Prop;
  unused_frames m m' root T v : tree m top root T -> (forall x, x ∈ T -> same_frame m m' x) -> unused m root v -> unused m' root v;
  map_to_fresh c f root R K T v q fl :
    mapper_ok c f (mapper_at root) R K T -> unused (mem c) root v -> addr_ok q -> flags_ok fl -> has fl PRESENT = true ->
    exists r m' f' T', map_to root v q fl (c, Some f) = (Ok r, (with_mem m' c, Some f')) /\
      mapper_ok (with_mem m' c) f' (mapper_at root) R K T' /\ same_dom (mem c) m' /\ (forall x, x ∈ K -> same_frame (mem c) m' x) /\
      (forall w, masked w <> masked v -> unused (mem c) root w -> unused m' root w) /\
      (r = Mapped /\ (forall w, space m' root w = put (space (mem c) root) v (Some (q, fl)) w) \/
       r = MapFailed /\ (forall w, space m' root w = space (mem c) root w) /\ R ⊆ K ∪ T')
}.

Context {X : X86} {XO : X86Ok X} {MS : MapperSpec X}.

(** ** Addresses *)

Lemma masked_low v : 0 <= v < 2 ^ 48 -> masked v = v - v mod 4096.
Proof.
  intros Hv. unfold masked. apply Z.bits_inj'. intros i Hi. rewrite Z.land_spec. change PAGE_ADDRESS_MASK with (Z.shiftl (Z.ones 36) 12).
  replace (v - v mod 4096) with (Z.shiftl (Z.shiftr v 12) 12).
  2: { rewrite Z.shiftl_mul_pow2, Z.shiftr_div_pow2 by lia. pose proof (Z.div_mod v 4096 ltac:(lia)). change (2 ^ 12) with 4096. lia. }
  destruct (decide (i < 12)); [rewrite !Z.shiftl_spec_low by lia; by rewrite andb_false_r|]. rewrite !Z.shiftl_spec by lia. rewrite Z.shiftr_spec by lia.
  replace (i - 12 + 12) with i by lia. destruct (decide (i < 48)); [rewrite Z.ones_spec_low by lia; by rewrite andb_true_r|].
  rewrite Z.ones_spec_high by lia. rewrite andb_false_r. symmetry. apply (testbit_above 48); [done|lia].
Qed.

Lemma masked_page v w : 0 <= v < 2 ^ 48 -> 0 <= w < 2 ^ 48 -> masked v = masked w <-> v / 4096 = w / 4096.
Proof.
  intros Hv Hw. rewrite !masked_low by done. pose proof (Z.div_mod v 4096 ltac:(lia)). pose proof (Z.div_mod w 4096 ltac:(lia)). lia.
Qed.

(** ** Frames with given contents *)

(** What [fill_frame] leaves in a frame. *)
Definition page_image (data : option (list Z)) : list Z :=
  let d := take 4096 (default [] data) in d ++ replicate (4096 - length d) 0.

Definition holds_page m q (bs : list Z) : Prop := load (E:=unit) m (V q) 4096 = Ok bs.

Lemma holds_same m m' q bs : same_frame m m' q -> holds_page m q bs -> holds_page m' q bs.
Proof.
  intros Hs Hl. unfold holds_page. rewrite <-Hl. apply load_ext. intros a Ha. apply Hs. unfold in_frame. change PAGE_SIZE with 4096. lia.
Qed.

Lemma page_image_length data : zlen (page_image data) = 4096.
Proof. unfold page_image, zlen. rewrite length_app, length_replicate, length_take. lia. Qed.

Lemma filled_lookup m q (d : list Z) :
  (length d <= 4096)%nat -> holds_page (store_bytes (store_bytes m (V q) (replicate (Z.to_nat 4096) 0)) (V q) d) q (d ++ replicate (4096 - length d) 0).
Proof.
  intros Hd. apply load_Ok_iff; [lia|]. split; [unfold zlen; rewrite length_app, length_replicate; lia|]. intros i Hi.
  rewrite !store_bytes_lookup. unfold zlen. rewrite length_replicate. replace (V q + Z.of_nat i - V q) with (Z.of_nat i) by lia. rewrite Nat2Z.id.
  rewrite (decide_True (P:=V q <= V q + Z.of_nat i < V q + Z.of_nat (Z.to_nat 4096))) by lia. case_decide.
  - rewrite lookup_app_l by lia. done.
  - rewrite lookup_app_r by lia. rewrite !lookup_replicate_2 by lia. done.
Qed.

Lemma store_nil m a : store_bytes m a [] = m.
Proof. done. Qed.

Lemma fill_frame_bytes q data c (s : option BuddyAllocator) :
  frame_ok q -> mapped (mem c) (V q) PAGE_SIZE ->
  exists m', fill_frame q data (c, s) = (Ok tt, (with_mem m' c, s)) /\ same_dom (mem c) m' /\ holds_page m' q (page_image data) /\
    forall x, ~ in_frame x q -> m' !! x = mem c !! x.
Proof.
  intros Hq Hm. unfold fill_frame, mbind, M_bind, phys_to_virt, lift. destruct Hq as (Q1 & Q2 & Q3). pose proof (page_size_pos (A:=X8664Arch)).
  rewrite uadd_ok by lia. change (q + PHYS_OFFSET) with (V q). unfold write_bytes.
  assert (Hz : zlen (replicate (Z.to_nat 4096) 0) = 4096) by (unfold zlen; by rewrite length_replicate).
  rewrite write_ok by (by rewrite Hz). set (m1 := store_bytes (mem c) (V q) (replicate (Z.to_nat 4096) 0)).
  set (d := take 4096 (default [] data)). assert (Hd : (length d <= 4096)%nat) by (unfold d; rewrite length_take; lia).
  assert (Hd1 : same_dom (mem c) m1) by (apply same_dom_store; by rewrite Hz).
  assert (Hmd : mapped m1 (V q) (zlen d)).
  { eapply same_dom_mapped; [done|]. apply (mapped_sub _ _ _ _ _ Hm); change PAGE_SIZE with 4096; unfold zlen; lia. }
  exists (store_bytes m1 (V q) d). split_and!.
  - destruct data as [data|]; [rewrite write_ok by done; by rewrite with_mem_mem|]. unfold d. cbn [from_option]. rewrite take_nil, store_nil. reflexivity.
  - eapply same_dom_trans; [done|]. by apply same_dom_store.
  - by apply filled_lookup.
  - intros x Hx. unfold in_frame in Hx. change PAGE_SIZE with 4096 in Hx. unfold m1. rewrite !store_bytes_lookup, !decide_False; [done|..]; rewrite ?Hz; unfold zlen; lia.
Qed.

(** ** One page *)

(** From [m] to [m'] frames [K] were kept and grew to [K'], and pages outside
    [P] were left alone. *)
Record extends root m K (P : Z -> Prop) m' K' : Prop := {
  ex_frames : K ⊆ K';
  ex_same x : x ∈ K -> same_frame m m' x;
  ex_dom : same_dom m m';
  ex_other w : ~ P w -> space m' root w = space m root w;
  ex_unused w : ~ P w -> unused m root w -> unused m' root w
}.

Lemma space_refl root m K P : extends root m K P m K.
Proof. split; done. Qed.

Lemma space_trans root m K P m1 K1 m2 K2 : extends root m K P m1 K1 -> extends root m1 K1 P m2 K2 -> extends root m K P m2 K2.
Proof.
  intros [A1 A2 A3 A4 A5] [B1 B2 B3 B4 B5]. split.
  - set_solver.
  - intros x Hx. eapply same_frame_trans; [by apply A2|]. apply B2, A1, Hx.
  - by eapply same_dom_trans.
  - intros w Hw. by rewrite B4, A4.
  - intros w Hw Hu. by apply B5, A5.
Qed.

Lemma space_mono root m K (P Q : Z -> Prop) m' K' : (forall w, P w -> Q w) -> extends root m K P m' K' -> extends root m K Q m' K'.
Proof.
  intros HPQ [A1 A2 A3 A4 A5]. split; [done..| |]; intros w Hw; [apply A4|apply A5]; intros HP; by apply Hw, HPQ.
Qed.

(** A fresh frame with given bytes, before it is mapped. *)
Lemma new_frame c f root R K T data :
  mapper_ok c f (mapper_at root) R K T ->
  (exists q s m' f', allocate_frame (c, Some f) = (Ok q, s) /\ fill_frame q data s = (Ok tt, (with_mem m' c, Some f')) /\ q ∈ R ∖ (K ∪ T) /\ addr_ok q /\
     mapper_ok (with_mem m' c) f' (mapper_at root) R ({[q]} ∪ K) T /\ holds_page m' q (page_image data) /\
     extends root (mem c) K (fun _ => False) m' ({[q]} ∪ K)) \/
  (allocate_frame (c, Some f) = (Err tt, (c, Some f)) /\ R ⊆ K ∪ T).
Proof.
  intros [Hr Ht Hk]. destruct (allocate_frame_ok c f R (K ∪ T) Hr) as [(q & m1 & f1 & -> & HqR & HqU & Hr1 & _ & Hd1 & Hs1)|[-> HR]]; [left|by right].
  assert (Hq1 : q ∈ {[q]} ∪ (K ∪ T)) by (clear; set_solver). destruct (used_frame _ _ _ _ q Hr1 Hq1) as [Hqf Hqm].
  destruct (fill_frame_bytes q data (with_mem m1 c) (Some f1) Hqf Hqm) as (m2 & Hfill & Hd2 & Hb & Hoff). rewrite with_mem_mem, with_mem_twice in *.
  assert (Hs : forall x, x ∈ K ∪ T -> same_frame (mem c) m2 x).
  { intros x Hx. eapply same_frame_trans; [by apply Hs1|]. intros a Ha. apply Hoff. intros Hin. eapply (frames_apart x q); [|done| |done..].
    - by eapply used_frame; [apply Hr|].
    - intros ->. done. }
  destruct (tree_frame _ m2 _ _ _ Ht) as [Ht2 Hx2]; [intros x Hx; apply Hs; clear -Hx; set_solver|].
  exists q, (with_mem m1 c, Some f1), m2, f1. split_and!; [done|exact Hfill|clear -HqU HqR; set_solver|apply phys_addr, frame_phys, Hqf| |done|].
  - split; [|done|clear -HqU Hk; set_solver]. rewrite <-union_assoc_L. eapply rep_stable; [exact Hr1|done|].
    intros a Ha. apply Hoff. by apply Ha.
  - split; [clear; set_solver|intros x Hx; apply Hs; clear -Hx; set_solver|by eapply same_dom_trans|intros w _; apply Hx2|].
    intros w _. eapply unused_frames; [exact Ht|]. intros x Hx. apply Hs. clear -Hx; set_solver.
Qed.

(** A frame of the caller's is mapped at an unused page. *)
Lemma map_frame_ok kernel_root root_frame c f R K T v q fl :
  let root := default kernel_root root_frame in
  mapper_ok c f (mapper_at root) R K T -> unused (mem c) root v -> addr_ok q -> flags_ok fl -> has fl PRESENT = true ->
  exists m' f' T', mapper_ok (with_mem m' c) f' (mapper_at root) R K T' /\ extends root (mem c) K (fun w => masked w = masked v) m' K /\
    (map_allocated_frame kernel_root root_frame v q fl (c, Some f) = (Ok tt, (with_mem m' c, Some f')) /\
       (forall w, masked w = masked v -> space m' root w = Some (q, fl)) \/
     (exists e, map_allocated_frame kernel_root root_frame v q fl (c, Some f) = (Err e, (with_mem m' c, Some f'))) /\ R ⊆ K ∪ T').
Proof.
  intros root Hok Hu Hq Hfl Hp. destruct (map_to_fresh c f root R K T v q fl Hok Hu Hq Hfl Hp) as (r & m' & f' & T' & Hrun & Hok' & Hd & Hs & Hun & Hcase).
  exists m', f', T'. split; [done|].
  assert (Hmap : map_allocated_frame kernel_root root_frame v q fl = map_or_replace root v q fl) by (by destruct root_frame). rewrite Hmap.
  unfold map_or_replace, mbind, M_bind, map_err. rewrite Hrun. split.
  - split; [done|done|done| |intros w Hw; by apply Hun]. intros w Hw. destruct Hcase as [[_ Hx]|(_ & Hx & _)]; rewrite Hx; [|done].
    unfold put. by rewrite decide_False by congruence.
  - destruct Hcase as [[-> Hx]|(-> & _ & HR)]; [left|right; split; [by eexists|done]]. split; [done|]. intros w Hw. rewrite Hx. unfold put. by rewrite decide_True.
Qed.

(** ** The pages of a region *)

Definition page_data (binary : list Z) (file_offset file_size off : Z) : option (list Z) :=
  if (off <? file_size) && (file_offset + off <? zlen binary) then
    Some (sub (file_offset + off) (Z.min (Z.min (file_size - off) 4096) (zlen binary - (file_offset + off))) binary)
  else None.

Lemma elf_page_data_ok {E} binary fo fs off : fo + off < 2 ^ 64 -> elf_page_data (E:=E) binary fo fs off = Ok (page_data binary fo fs off).
Proof.
  intros Hlt. unfold elf_page_data, page_data. destruct (off <? fs); [|done]. rewrite uadd_ok by lia. cbn [mbind res_bind andb].
  by destruct (_ <? zlen binary).
Qed.

Definition in_pages (start i n w : Z) : Prop := exists k, i <= k < i + n /\ masked w = masked (start + k * 4096).

(** The page of [v] is mapped to a frame of [K] that holds [bs]. *)
Definition page_holds m root K v fl (bs : list Z) : Prop :=
  exists q, q ∈ K /\ (forall w, masked w = masked v -> space m root w = Some (q, fl)) /\ holds_page m q bs.

Lemma page_holds_extends m m' root K K' P v fl bs :
  extends root m K P m' K' -> ~ P v -> (forall w w', masked w = masked w' -> P w -> P w') -> page_holds m root K v fl bs -> page_holds m' root K' v fl bs.
Proof.
  intros [A1 A2 A3 A4 A5] Hn HP (q & Hq & Hw & Hb). exists q. split; [by apply A1|]. split; [|eapply holds_same; [by apply A2|done]].
  intros w Hm. rewrite A4; [by apply Hw|]. intros Hp. apply Hn. by eapply HP.
Qed.

Lemma in_pages_masked start i n w w' : masked w = masked w' -> in_pages start i n w -> in_pages start i n w'.
Proof. intros Hw (k & Hk & Hm). exists k. split; [done|]. congruence. Qed.

(** Page [k] of a region, mapped with its bytes. *)
Definition page_loaded m root K start fl binary fo fs (k : Z) : Prop :=
  page_holds m root K (start + k * 4096) fl (page_image (page_data binary fo fs (k * 4096))).

Lemma pages_differ start j k : 0 <= start -> 0 <= j -> 0 <= k -> start + j * 4096 < 2 ^ 48 -> start + k * 4096 < 2 ^ 48 ->
  masked (start + j * 4096) = masked (start + k * 4096) -> j = k.
Proof. intros Hs Hj Hk H1 H2. rewrite masked_page by lia. rewrite !Z.div_add by lia. lia. Qed.

Context {VA : VirtAddrOps}.

Lemma map_elf_pages_ok n i kernel_root root_frame start fl binary fo fs c f R K T :
  let root := default kernel_root root_frame in
  mapper_ok c f (mapper_at root) R K T -> flags_ok fl -> has fl PRESENT = true -> 0 <= i -> 0 <= start -> start + (i + Z.of_nat n) * 4096 <= 2 ^ 47 ->
  fo + (i + Z.of_nat n) * 4096 < 2 ^ 64 -> (forall k, i <= k < i + Z.of_nat n -> unused (mem c) root (start + k * 4096)) ->
  exists m' f' K' T', mapper_ok (with_mem m' c) f' (mapper_at root) R K' T' /\ extends root (mem c) K (in_pages start i (Z.of_nat n)) m' K' /\
    let run := map_elf_pages kernel_root n i root_frame start fl binary fo fs (c, Some f) in
    (run = (Ok tt, (with_mem m' c, Some f')) /\ (forall k, i <= k < i + Z.of_nat n -> page_loaded m' root K' start fl binary fo fs k) \/
     (exists e, run = (Err e, (with_mem m' c, Some f'))) /\ R ⊆ K' ∪ T').
Proof.
  intros root Hok Hfl Hpr Hi Hst Hend Hfo Hun. revert i c f K T Hok Hi Hend Hfo Hun. induction n as [|n IH]; intros i c f K T Hok Hi Hend Hfo Hun; cbn [map_elf_pages].
  { exists (mem c), f, K, T. split; [by destruct c|]. split; [apply space_refl|]. left. split; [by destruct c|lia]. }
  unfold mbind, M_bind, lift, map_err. rewrite uadd_ok by lia. unfold va. rewrite va_new_low by lia. unfold mret, M_ret. rewrite elf_page_data_ok by lia.
  set (v := start + i * 4096). set (data := page_data binary fo fs (i * 4096)).
  destruct (new_frame c f root R K T data Hok) as [(q & s1 & m1 & f1 & -> & -> & HqK & Hqa & Hok1 & Hb1 & Hex1)|[-> HR]].
  2: { exists (mem c), f, K, T. split; [by destruct c|]. split; [apply space_refl|]. right. split; [exists "OOM mapping ELF region"%string; by destruct c|done]. }
  assert (Hu1 : unused m1 root v) by (apply (ex_unused _ _ _ _ _ _ Hex1); [tauto|]; apply Hun; lia).
  destruct (map_frame_ok kernel_root root_frame (with_mem m1 c) f1 R ({[q]} ∪ K) T v q fl Hok1 Hu1 Hqa Hfl Hpr) as (m2 & f2 & T2 & Hok2 & Hex2 & Hcase).
  rewrite with_mem_mem, with_mem_twice in *. set (P := in_pages start i (Z.of_nat (S n))).
  assert (HP : forall w, masked w = masked v -> P w) by (intros w Hw; exists i; split; [lia|done]).
  assert (Hex12 : extends root (mem c) K P m2 ({[q]} ∪ K)).
  { eapply space_trans; [eapply space_mono; [|exact Hex1]; done|]. eapply space_mono; [|exact Hex2]. done. }
  destruct Hcase as [[-> Hsp]|[[e ->] HR]].
  2: { exists m2, f2, ({[q]} ∪ K), T2. split_and!; [done|done|]. right. split; [by exists e|done]. }
  destruct (IH (i + 1) (with_mem m2 c) f2 ({[q]} ∪ K) T2 Hok2) as (m' & f' & K' & T' & Hok' & Hex' & Hrest); [lia..| |].
  { intros k Hk. rewrite with_mem_mem. apply (ex_unused _ _ _ _ _ _ Hex2).
    - intros Hm. apply pages_differ in Hm; lia.
    - apply (ex_unused _ _ _ _ _ _ Hex1); [tauto|]. apply Hun. lia. }
  rewrite with_mem_mem, with_mem_twice in *. exists m', f', K', T'. split; [done|]. split.
  { eapply space_trans; [exact Hex12|]. eapply space_mono; [|exact Hex']. intros w (k & Hk & Hw). exists k. split; [lia|done]. }
  destruct Hrest as [[-> Hall]|[[e ->] HR]]; [left|right; split; [by exists e|done]]. split; [done|]. intros k Hk. destruct (decide (k = i)) as [->|]; [|apply Hall; lia].
  eapply page_holds_extends; [exact Hex'| | |].
  - intros (k & Hk' & Hm). apply pages_differ in Hm; lia.
  - apply in_pages_masked.
  - exists q. split; [clear; set_solver|]. split; [done|]. eapply holds_same; [|exact Hb1]. apply (ex_same _ _ _ _ _ _ Hex2). clear; set_solver.
Qed.

End space.

(** ** The mapper of [RmmMapper] as an instance *)

Section instance.
#[local] Existing Instance X8664Arch.

Definition rmm_map_to (root v q fl : Z) : KM MapTo := fun s =>
  match snd s with
  | None => (Panic, s)
  | Some f =>
    if is_some (space_of (mem (fst s)) (mapper_at root) v) then (Ok PageAlreadyMapped, s)
    else match map_phys (mapper_at root) v q fl (fst s, f) with
         | (Ok _, (c, f')) => (Ok Mapped, (c, Some f'))
         | (Err _, (c, f')) => (Ok MapFailed, (c, Some f'))
         | (Panic, (c, f')) => (Panic, (c, Some f'))
         | (Fault, (c, f')) => (Fault, (c, Some f'))
         end
  end.

Definition rmm_x86 : X86 := {|
  e_flags := RmmArch.flags;
  e_addr := entry_addr;
  e_frame := ex_frame;
  e_entry := entry_new;
  phys_frame := FrameAlloc.example_phys_frame;
  map_to := rmm_map_to;
  translate_addr := fun root v s =>
    (match space_of (mem (fst s)) (mapper_at root) v with Some (q, _) => Ok (q + v mod 4096) | None => Err tt end, s)
|}.

Lemma rmm_x86_ok : X86Ok rmm_x86.
Proof. destruct ex_ok as [H1 H2 H3 H4 H5 H6 H7 H8]. split; [exact H1|exact H2|exact H3|exact H4|exact H5|exact H6|exact H7|exact H8]. Qed.

Lemma rmm_map_to_fresh c (f : BuddyAllocator) root (R K T : gset Z) v q fl :
  mapper_ok c f (mapper_at root) R K T -> space_of (mem c) (mapper_at root) v = None -> addr_ok q -> flags_ok fl -> has fl PRESENT = true ->
  exists r m' f' T', rmm_map_to root v q fl (c, Some f) = (Ok r, (with_mem m' c, Some f')) /\
    mapper_ok (with_mem m' c) f' (mapper_at root) R K T' /\ same_dom (mem c) m' /\ (forall x, x ∈ K -> same_frame (mem c) m' x) /\
    (forall w, masked w <> masked v -> space_of (mem c) (mapper_at root) w = None -> space_of m' (mapper_at root) w = None) /\
    (r = Mapped /\ (forall w, space_of m' (mapper_at root) w = put (space_of (mem c) (mapper_at root)) v (Some (q, fl)) w) \/
     r = MapFailed /\ (forall w, space_of m' (mapper_at root) w = space_of (mem c) (mapper_at root) w) /\ R ⊆ K ∪ T').
Proof.
  intros Hok Hu Hq Hfl Hp. destruct (map_done c f (mapper_at root) R K T v q fl Hok ltac:(by split)) as (r & m' & f' & T' & Hrun & Hok' & Hsp & Hd & Hs).
  assert (Hmp : mapping q fl = Some (q, fl)).
  { unfold mapping, present. change ENTRY_FLAG_PRESENT with PRESENT. apply Z.eqb_eq in Hp. by rewrite Hp. }
  unfold rmm_map_to. cbn [snd fst]. rewrite Hu. cbn [is_some].
  unfold run_op, opt, mbind, M_bind, mret, M_ret in Hrun. destruct (map_phys (mapper_at root) v q fl (c, f)) as [[[]|[]| |] [c' f'']] eqn:Hm; simplify_eq/=.
  - exists Mapped, m', f', T'. destruct Hsp as [[_ Hx]|(Hne & _)]; [|exfalso; congruence]. rewrite Hmp in Hx. split_and!; [done..| |by left].
    intros w Hw Hn. rewrite Hx. unfold put. by rewrite decide_False by congruence.
  - exists MapFailed, m', f', T'. destruct Hsp as [[Hne _]|(_ & Hx & HR)]; [exfalso; congruence|]. split_and!; [done..| |by right]. intros w _ Hn. by rewrite Hx.
Qed.

Definition rmm_spec : MapperSpec rmm_x86.
Proof.
  refine (Build_MapperSpec rmm_x86 (fun m root v => space_of m (mapper_at root) v = None) _ _); [|exact rmm_map_to_fresh].
  intros m m' root T v Ht Hs Hu. destruct (tree_frame _ m' _ _ _ Ht Hs) as [_ Hx]. unfold space_of. by rewrite Hx.
Defined.

End instance.

End AddrSpace.
