(* ===== verification/ElfSpec.v ===== *)
(** * What loading a program does

    The address space and the process after [load_elf], for executables whose
    segments lie in user space, are placed in the file as the format demands
    and share no page. *)

From S2P Require Import Prelude Bytes Abi Capability Vma RmmArch RmmFrame RmmBuddy RmmInit RmmMapper RmmWalk RmmMap RmmSpace FrameAlloc Paging PagingCow Elf AddrSpace.
Import RmmArch RmmFrame RmmBuddy RmmMapper RmmWalk RmmMap RmmSpace Paging PagingCow AddrSpace.

Module ElfSpec.
Import Elf.

Section spec.
#[local] Existing Instance X8664Arch.
Context {X : X86} {XO : X86Ok X} {MS : MapperSpec X} {VA : VirtAddrOps} {BS : BinarySearch} (kernel_root : Z).

Implicit Types (m : gmap Z Z) (c : Machine) (f : BuddyAllocator) (R K T : gset Z) (p : ElfProc) (ph : Elf64Phdr) (hdr : Elf64Header).

Definition root_of p : Z := default kernel_root (page_table_frame p).

(** ** Segments *)

Definition seg_start (base : Z) ph : Z := p_vaddr ph + base.
Definition seg_pages (base : Z) ph : Z := (p_memsz ph + seg_start base ph mod 4096 + 4095) / 4096.

Record seg_ok (binary : list Z) hdr (base : Z) ph : Prop := {
  so_sizes : 0 <= p_vaddr ph /\ 0 <= base /\ 0 <= p_filesz ph <= p_memsz ph;
  so_user : seg_start base ph + p_memsz ph + 4096 < 2 ^ 47;
  so_aligned : 0 <= p_offset ph /\ p_offset ph mod 4096 = seg_start base ph mod 4096;
  so_file : p_offset ph + p_filesz ph <= zlen binary < 2 ^ 62;
  so_phoff : seg_start base ph + e_phoff hdr < 2 ^ 64
}.

Definition seg_file_offset (base : Z) ph : Z := p_offset ph - seg_start base ph mod 4096.
Definition seg_file_size (base : Z) ph : Z := p_filesz ph + seg_start base ph mod 4096.

Definition seg_vma (base : Z) ph : Vma.Vma :=
  let s := page_down (seg_start base ph) in
  Vma.mkVma s (s + seg_pages base ph * 4096) (seg_flags ph) false None (seg_file_offset base ph) (seg_file_size base ph) None.

Abbreviation page_flags ph := (region_flags_to_page_flags (seg_flags ph)).

(** The pages of a segment, by any address in them. *)
Definition on_seg (base : Z) ph (w : Z) : Prop := in_pages (page_down (seg_start base ph)) 0 (seg_pages base ph) w.

Definition seg_mapped m root K (binary : list Z) base ph : Prop :=
  forall k, 0 <= k < seg_pages base ph ->
    page_loaded m root K (page_down (seg_start base ph)) (page_flags ph) binary (seg_file_offset base ph) (seg_file_size base ph) k.

(** Every address of the segment is mapped with the flags of the segment, to a
    byte of the file or to zero. *)
Definition seg_loaded m root (binary : list Z) base ph : Prop :=
  forall a, seg_start base ph <= a < seg_start base ph + p_memsz ph ->
    exists q, space_of m (mapper_at root) a = Some (q, page_flags ph) /\
      m !! (V q + a mod 4096) =
        if a - seg_start base ph <? p_filesz ph then binary !! Z.to_nat (p_offset ph + (a - seg_start base ph)) else Some 0.

Lemma page_down_mod a : page_down a mod 4096 = 0.
Proof. unfold page_down. pose proof (Z.div_mod a 4096 ltac:(lia)). apply Z.mod_divide; [lia|]. exists (a / 4096). lia. Qed.

Lemma holds_lookup m q bs j : holds_page m q bs -> 0 <= j < 4096 -> m !! (V q + j) = bs !! Z.to_nat j.
Proof.
  intros Hl Hj. pose proof (load_lookup _ _ _ _ (Z.to_nat j) Hl ltac:(lia)) as Hb. rewrite Z2Nat.id in Hb by lia. done.
Qed.

Lemma image_lookup data (j : nat) : (j < 4096)%nat -> page_image data !! j = match default [] data !! j with Some b => Some b | None => Some 0 end.
Proof.
  intros Hj. unfold page_image. set (d := default [] data). destruct (d !! j) as [b|] eqn:Hb.
  - apply lookup_app_l_Some. by rewrite lookup_take_lt by done.
  - apply lookup_ge_None in Hb. rewrite lookup_app_r by (rewrite length_take; lia). apply lookup_replicate_2. rewrite length_take. lia.
Qed.

Lemma seg_bytes m root K binary hdr base ph : seg_ok binary hdr base ph -> seg_mapped m root K binary base ph -> seg_loaded m root binary base ph.
Proof.
  intros Hok Hmap a Ha. destruct Hok as [Hsz Hus [Hal1 Hal] Hfile _]. unfold seg_mapped, seg_pages, seg_file_offset, seg_file_size in *.
  assert (Hs0 : 0 <= seg_start base ph) by (unfold seg_start; lia). set (s := seg_start base ph) in *. set (d := s mod 4096) in *. pose proof (Z.mod_pos_bound s 4096 ltac:(lia)) as Hd. fold d in Hd. pose proof (Z.mod_le s 4096 Hs0 ltac:(lia)) as Hds. fold d in Hds.
  assert (Hps : page_down s = s - d) by done. set (k := (a - (s - d)) / 4096).
  pose proof (Z.div_mod (a - (s - d)) 4096 ltac:(lia)) as Hdm. fold k in Hdm. set (j := (a - (s - d)) mod 4096) in *.
  pose proof (Z.mod_pos_bound (a - (s - d)) 4096 ltac:(lia)) as Hj. fold j in Hj.
  assert (Hja : a mod 4096 = j).
  { unfold j. rewrite <-Hps. rewrite <-Zminus_mod_idemp_r, page_down_mod. by rewrite Z.sub_0_r. }
  assert (Hk0 : 0 <= k) by (apply Z.div_pos; lia).
  assert (Hk : 0 <= k < (p_memsz ph + d + 4095) / 4096).
  { split; [done|]. apply Z.lt_le_trans with (k + 1); [lia|]. apply Z.div_le_lower_bound; lia. }
  destruct (Hmap k Hk) as (q & _ & Hsp & Hb). rewrite Hps in *. exists q. split.
  - apply Hsp. replace (s - d + k * 4096) with (a - j) by lia. rewrite (masked_low a), (masked_low (a - j)) by lia. replace ((a - j) mod 4096) with 0; [rewrite Hja; lia|].
    rewrite <-Zminus_mod_idemp_l, Hja, Z.sub_diag. done.
  - rewrite Hja, (holds_lookup _ _ _ _ Hb Hj), image_lookup by lia. unfold page_data.
    assert (Hfo : 0 <= p_offset ph - d) by (pose proof (Z.mod_le (p_offset ph) 4096 ltac:(lia) ltac:(lia)); lia).
    replace (a - s <? p_filesz ph) with (k * 4096 + j <? p_filesz ph + d) by (destruct (Z.ltb_spec (k * 4096 + j) (p_filesz ph + d)), (Z.ltb_spec (a - s) (p_filesz ph)); lia).
    destruct (Z.ltb_spec (k * 4096) (p_filesz ph + d)) as [H1|H1]; cbn [andb]; [|by destruct (Z.ltb_spec (k * 4096 + j) (p_filesz ph + d)); [lia|]].
    destruct (Z.ltb_spec (p_offset ph - d + k * 4096) (zlen binary)) as [H2|H2]; [|lia]. cbn [from_option]. unfold id.
    destruct (Z.ltb_spec (k * 4096 + j) (p_filesz ph + d)) as [H3|H3].
    + rewrite sub_lookup by lia. rewrite decide_True by lia. replace (Z.to_nat (p_offset ph - d + k * 4096) + Z.to_nat j)%nat with (Z.to_nat (p_offset ph + (a - s))) by lia.
      destruct (binary !! _) as [b|] eqn:Hbin; [done|]. apply lookup_ge_None in Hbin. unfold zlen in *. lia.
    + rewrite sub_lookup by lia. by rewrite decide_False by lia.
Qed.

(** ** One segment *)

Lemma seg_flags_ok ph : flags_ok (page_flags ph) /\ has (page_flags ph) PRESENT = true.
Proof. unfold region_flags_to_page_flags. destruct (Vma.writable _), (Vma.user_accessible _), (Vma.executable _); split; by vm_compute. Qed.

Lemma seg_numbers binary hdr base ph : seg_ok binary hdr base ph ->
  0 <= page_down (seg_start base ph) /\ 0 <= seg_pages base ph /\ page_down (seg_start base ph) + seg_pages base ph * 4096 < 2 ^ 47 /\
  0 <= seg_file_offset base ph /\ seg_file_offset base ph + seg_pages base ph * 4096 < 2 ^ 64 /\ seg_file_size base ph < 2 ^ 64 /\
  page_down (p_memsz ph + seg_start base ph mod 4096 + 4095) = seg_pages base ph * 4096 /\ p_memsz ph + seg_start base ph mod 4096 + 4095 < 2 ^ 64.
Proof.
  intros [Hsz Hus [Hal1 Hal] Hfile _]. unfold seg_pages, seg_file_offset, seg_file_size, page_down.
  assert (Hs0 : 0 <= seg_start base ph) by (unfold seg_start; lia). set (s := seg_start base ph) in *.
  pose proof (Z.mod_pos_bound s 4096 ltac:(lia)) as Hd. pose proof (Z.mod_le s 4096 Hs0 ltac:(lia)). pose proof (Z.mod_le (p_offset ph) 4096 ltac:(lia) ltac:(lia)).
  set (d := s mod 4096) in *. pose proof (Z.div_mod (p_memsz ph + d + 4095) 4096 ltac:(lia)) as Hdm. pose proof (Z.mod_pos_bound (p_memsz ph + d + 4095) 4096 ltac:(lia)).
  assert (0 <= (p_memsz ph + d + 4095) / 4096) by (apply Z.div_pos; lia). lia.
Qed.

(** What loading a segment does to the process. *)
Record seg_proc (base : Z) ph p p' : Prop := {
  sp_vmas : vmas p' = Vma.add_region (seg_vma base ph) (vmas p);
  sp_frame : page_table_frame p' = page_table_frame p;
  sp_entry : entry_point p' = entry_point p /\ rip p' = rip p
}.

Lemma load_segment_ok binary hdr base ph p c f R K T :
  let root := root_of p in
  mapper_ok c f (mapper_at root) R K T -> seg_ok binary hdr base ph ->
  (forall k, 0 <= k < seg_pages base ph -> unused (mem c) root (page_down (seg_start base ph) + k * 4096)) ->
  exists p' m' f' K' T', mapper_ok (with_mem m' c) f' (mapper_at root) R K' T' /\ extends root (mem c) K (on_seg base ph) m' K' /\ seg_proc base ph p p' /\
    let run := load_segment kernel_root binary hdr base ph (p, (c, Some f)) in
    (run = (Ok (seg_start base ph + p_memsz ph), (p', (with_mem m' c, Some f'))) /\ seg_mapped m' root K' binary base ph \/
     run = (Err (Other "ELF segment mapping failed"), (p', (with_mem m' c, Some f'))) /\ R ⊆ K' ∪ T').
Proof.
  intros root Hok Hseg Hun. destruct (seg_numbers _ _ _ _ Hseg) as (N1 & N2 & N3 & N4 & N5 & N6 & N7 & N8). pose proof (so_user _ _ _ _ Hseg) as Hus.
  pose proof (so_sizes _ _ _ _ Hseg) as Hsz. pose proof (so_phoff _ _ _ _ Hseg) as Hpo. destruct (seg_flags_ok ph) as [Hfl Hpr].
  unfold load_segment, mbind, M_bind, lift. rewrite uadd_ok by (unfold seg_start in *; lia). change (p_vaddr ph + base) with (seg_start base ph).
  destruct (Z.ltb_spec (seg_start base ph + p_memsz ph) (2 ^ 64)); [|lia]. unfold mret, M_ret.
  destruct (Z.ltb_spec 0x7FFFFFFFFFFF (seg_start base ph + p_memsz ph)); [lia|]. destruct (Z.ltb_spec (seg_start base ph + p_memsz ph) (seg_start base ph)); [lia|].
  replace (seg_start base ph - page_down (seg_start base ph)) with (seg_start base ph mod 4096) by (unfold page_down; lia).
  change 0xFFF with 4095. unfold mbind, res_bind. rewrite uadd_ok by lia. rewrite uadd_ok by lia.
  unfold new_va, lift. rewrite va_new_low by lia. cbn [Vma.or_panic]. rewrite uadd_ok by (unfold seg_file_size in N6; lia).
  rewrite N7, va_add_low by lia. cbn [Vma.or_panic]. unfold on_proc, get_proc, on_paging. cbn [fst snd].
  replace (satsub (p_offset ph) (seg_start base ph mod 4096)) with (seg_file_offset base ph) by (unfold satsub, seg_file_offset in *; lia).
  change (p_filesz ph + seg_start base ph mod 4096) with (seg_file_size base ph).
  change (Vma.mkVma (page_down (seg_start base ph)) _ _ _ _ _ _ _) with (seg_vma base ph). set (p1 := set_vmas _ p). change (page_table_frame p1) with (page_table_frame p).
  unfold map_elf_region, mbind, M_bind, lift. rewrite uadd_ok by lia. replace ((seg_pages base ph * 4096 + 4095) / 4096) with (seg_pages base ph).
  2: { rewrite Z.add_comm, Z.div_add by lia. change (4095 / 4096) with 0. lia. }
  destruct (map_elf_pages_ok (Z.to_nat (seg_pages base ph)) 0 kernel_root (page_table_frame p) (page_down (seg_start base ph)) (page_flags ph) binary
    (seg_file_offset base ph) (seg_file_size base ph) c f R K T Hok Hfl Hpr) as (m' & f' & K' & T' & Hok' & Hex & Hcase); [lia..| |].
  { intros k Hk. apply Hun. lia. }
  rewrite !Z2Nat.id in * by lia. destruct Hcase as [[-> Hall]|[[e ->] HR]].
  - set (b := (p_offset ph <=? e_phoff hdr) && _). exists (if b then set_phdr (seg_start base ph + e_phoff hdr - p_offset ph) p1 else p1), m', f', K', T'.
    split; [done|]. split; [done|]. split; [by destruct b|]. left. split; [|done]. cbn [fst snd]. destruct b; [|done]. by rewrite uadd_ok by lia.
  - exists p1, m', f', K', T'. split; [done|]. split; [done|]. split; [done|]. right. split; [|done]. done.
Qed.

(** ** All program headers *)

Definition is_load ph : Prop := p_type ph = PT_LOAD.

Definition phdr_ok (binary : list Z) hdr base ph : Prop :=
  (is_load ph -> seg_ok binary hdr base ph) /\ (p_type ph = PT_INTERP -> p_offset ph + p_filesz ph < 2 ^ 64).

(** No page belongs to two segments. *)
Fixpoint apart (base : Z) (phs : list Elf64Phdr) : Prop :=
  match phs with
  | [] => True
  | ph :: phs => (is_load ph -> forall ph', ph' ∈ phs -> is_load ph' -> forall w, on_seg base ph w -> ~ on_seg base ph' w) /\ apart base phs
  end.

(** The pages of all segments. *)
Definition on_segs (base : Z) (phs : list Elf64Phdr) (w : Z) : Prop := exists ph, ph ∈ phs /\ is_load ph /\ on_seg base ph w.

Definition highest (base : Z) (phs : list Elf64Phdr) (max_vaddr : Z) : Z :=
  foldl (fun top ph => if decide (is_load ph) then Z.max top (seg_start base ph + p_memsz ph) else top) max_vaddr phs.

Record loaded_proc (base : Z) (phs : list Elf64Phdr) p p' : Prop := {
  lp_vmas v : v ∈ vmas p' <-> v ∈ vmas p \/ exists ph, ph ∈ phs /\ is_load ph /\ v = seg_vma base ph;
  lp_frame : page_table_frame p' = page_table_frame p;
  lp_entry : entry_point p' = entry_point p /\ rip p' = rip p
}.

Lemma on_seg_closed base ph w w' : masked w = masked w' -> on_seg base ph w -> on_seg base ph w'.
Proof. intros Hm (k & Hk & Hw). exists k. split; [done|congruence]. Qed.

Lemma on_seg_page base ph k : 0 <= k < seg_pages base ph -> on_seg base ph (page_down (seg_start base ph) + k * 4096).
Proof. intros Hk. exists k. split; [lia|done]. Qed.

Lemma seg_mapped_extends root m K P m' K' binary base ph :
  extends root m K P m' K' -> (forall w, on_seg base ph w -> ~ P w) -> (forall w w', masked w = masked w' -> P w -> P w') ->
  seg_mapped m root K binary base ph -> seg_mapped m' root K' binary base ph.
Proof. intros Hex Hn HP Hm k Hk. eapply page_holds_extends; [exact Hex|by apply Hn, on_seg_page|done|by apply Hm]. Qed.

(** A header that is not a segment. *)
Lemma other_phdr binary base ph p s :
  ~ is_load ph -> (p_type ph = PT_INTERP -> p_offset ph + p_filesz ph < 2 ^ 64) ->
  exists p', (if p_type ph =? PT_INTERP then _ ← read_interp binary ph; mret base else mret base : M LState AbiError Z) (p, s) = (Ok base, (p', s)) /\
    vmas p' = vmas p /\ page_table_frame p' = page_table_frame p /\ entry_point p' = entry_point p /\ rip p' = rip p.
Proof.
  intros Hl Hi. destruct (Z.eqb_spec (p_type ph) PT_INTERP) as [Ht|_]; [|by exists p]. unfold read_interp, mbind, M_bind, lift. rewrite uadd_ok by (by apply Hi).
  destruct (_ <=? zlen binary); [|by exists p]. destruct (Path.Path.utf8_valid _); [|by exists p]. by eexists.
Qed.

Lemma load_phdrs_ok phs i max_vaddr binary hdr base p c f R K T :
  let root := root_of p in
  mapper_ok c f (mapper_at root) R K T -> Forall (phdr_ok binary hdr base) phs -> apart base phs ->
  (forall j ph, phs !! j = Some ph -> parse_phdr binary (phdr_offset hdr (i + Z.of_nat j)) = Ok ph) ->
  (forall ph k, ph ∈ phs -> is_load ph -> 0 <= k < seg_pages base ph -> unused (mem c) root (page_down (seg_start base ph) + k * 4096)) ->
  exists p' m' f' K' T', mapper_ok (with_mem m' c) f' (mapper_at root) R K' T' /\ extends root (mem c) K (on_segs base phs) m' K' /\
    let run := load_phdrs kernel_root (length phs) i binary hdr base max_vaddr (p, (c, Some f)) in
    (run = (Ok (highest base phs max_vaddr), (p', (with_mem m' c, Some f'))) /\ loaded_proc base phs p p' /\
       (forall ph, ph ∈ phs -> is_load ph -> seg_mapped m' root K' binary base ph) \/
     run = (Err (Other "ELF segment mapping failed"), (p', (with_mem m' c, Some f'))) /\ R ⊆ K' ∪ T').
Proof.
  revert i max_vaddr p c f K T. induction phs as [|ph phs IH]; intros i max_vaddr p c f K T root Hok Hall Hap Hpar Hun; cbn [load_phdrs length].
  { exists p, (mem c), f, K, T. split; [by destruct c|]. split; [apply space_refl|]. left. split; [by destruct c|]. split; [|by intros ? ?%elem_of_nil].
    split; [|done|done]. intros v. split; [by left|]. intros [?|(? & ?%elem_of_nil & _)]; done. }
  apply Forall_cons in Hall as [[Hld Hin] Hall]. destruct Hap as [Hap0 Hap]. unfold mbind, M_bind, lift.
  pose proof (Hpar 0%nat ph eq_refl) as Hp0. rewrite Z.add_0_r in Hp0. rewrite Hp0. clear Hp0.
  assert (Hpar' : forall j ph, phs !! j = Some ph -> parse_phdr binary (phdr_offset hdr (i + 1 + Z.of_nat j)) = Ok ph).
  { intros j ph' Hj. specialize (Hpar (S j) ph' Hj). by replace (i + 1 + Z.of_nat j) with (i + Z.of_nat (S j)) by lia. }
  destruct (Z.eqb_spec (p_type ph) PT_LOAD) as [Hl|Hl].
  - destruct (load_segment_ok binary hdr base ph p c f R K T Hok (Hld Hl)) as (p1 & m1 & f1 & K1 & T1 & Hok1 & Hex1 & Hsp & Hcase).
    { intros k Hk. apply Hun; [by left|done|done]. }
    assert (Hroot : root_of p1 = root) by (unfold root_of, root; by rewrite (sp_frame _ _ _ _ Hsp)).
    assert (Hex1' : extends root (mem c) K (on_segs base (ph :: phs)) m1 K1).
    { eapply space_mono; [|exact Hex1]. intros w Hw. exists ph. split; [by left|done]. }
    destruct Hcase as [[-> Hm1]|[-> HR]].
    2: { exists p1, m1, f1, K1, T1. split; [done|]. split; [done|]. right. done. }
    unfold mret, M_ret. destruct (IH (i + 1) (Z.max max_vaddr (seg_start base ph + p_memsz ph)) p1 (with_mem m1 c) f1 K1 T1) as (p' & m' & f' & K' & T' & Hok' & Hex' & Hcase); [by rewrite Hroot|done|done|done| |].
    { intros ph' k Hin' Hl' Hk. rewrite Hroot, with_mem_mem. apply (ex_unused _ _ _ _ _ _ Hex1).
      - intros Hw. apply (Hap0 Hl ph' Hin' Hl' _ Hw). by apply on_seg_page.
      - apply Hun; [by right|done|done]. }
    rewrite Hroot, with_mem_mem, with_mem_twice in *. exists p', m', f', K', T'. split; [done|]. split.
    { eapply space_trans; [exact Hex1'|]. eapply space_mono; [|exact Hex']. intros w (ph' & Hp' & Hw). exists ph'. split; [by right|done]. }
    destruct Hcase as [(Hrun & Hpr & Hms)|[Hrun HR]]; [left|right; done]. split; [unfold highest; cbn [foldl]; by rewrite decide_True|]. split.
    + destruct Hpr as [Hv Hf He]. destruct Hsp as [Sv Sf Se]. split; [|congruence|destruct He, Se; split; congruence].
      intros v. rewrite Hv, Sv, Vma.elem_of_add_region. setoid_rewrite elem_of_cons. clear -Hl. naive_solver.
    + intros ph' [->|Hin']%elem_of_cons Hl'; [|by apply Hms]. eapply seg_mapped_extends; [exact Hex'| |intros w w' Hww (x & Hx & Hxl & Hxw); exists x; split_and!; [done..|by eapply on_seg_closed]|done].
      intros w Hw (x & Hx & Hxl & Hxw). by apply (Hap0 Hl x Hx Hxl w).
  - destruct (other_phdr binary max_vaddr ph p (c, Some f) Hl Hin) as (p1 & Hrun1 & E1 & E2 & E3 & E4). unfold mbind, M_bind, LState, Paging.State in Hrun1 |- *. rewrite Hrun1.
    assert (Hroot : root_of p1 = root) by (unfold root_of, root; by rewrite E2).
    destruct (IH (i + 1) max_vaddr p1 c f K T) as (p' & m' & f' & K' & T' & Hok' & Hex' & Hcase); [by rewrite Hroot|done|done|done| |].
    { intros ph' k Hin' Hl' Hk. rewrite Hroot. apply Hun; [by right|done|done]. }
    rewrite Hroot in *. exists p', m', f', K', T'. split; [done|]. split.
    { eapply space_mono; [|exact Hex']. intros w (ph' & Hp' & Hw). exists ph'. split; [by right|done]. }
    destruct Hcase as [(Hrun & Hpr & Hms)|[Hrun HR]]; [left|right; done]. split; [unfold highest; cbn [foldl]; by rewrite decide_False|]. split.
    + destruct Hpr as [Hv Hf He]. split; [|congruence|destruct He; split; congruence]. intros v. rewrite Hv, E1. setoid_rewrite elem_of_cons. clear -Hl. unfold is_load. naive_solver.
    + intros ph' [->|Hin']%elem_of_cons Hl'; [done|by apply Hms].
Qed.

Lemma highest_bound binary hdr base phs top : Forall (phdr_ok binary hdr base) phs -> top < 2 ^ 47 -> highest base phs top < 2 ^ 47.
Proof.
  unfold highest. revert top. induction phs as [|ph phs IH]; intros top Hall Ht; cbn [foldl]; [done|]. apply Forall_cons in Hall as [[Hl _] Hall].
  apply IH; [done|]. case_decide as Hd; [|done]. pose proof (so_user _ _ _ _ (Hl Hd)). lia.
Qed.

Definition load_base hdr : Z := if e_type hdr =? ET_DYN then 0x400000 else 0.

(** C12. Loading an executable.  Let the segments of the file lie below the end
    of user space, agree with the file modulo the page size, lie inside the
    file, and share no page; let the pages be unused.  Then the load does not
    panic, and either succeeds or runs out of frames.  If it succeeds, every
    address of every segment is mapped with the permissions of the segment and
    holds the byte of the file, or zero past the end of the file's part; the
    entry point is the file's, moved by the load base; the areas are the old
    ones and one for each segment; the break is the first page boundary after
    the segments.  In both cases no page outside the segments and no frame
    held before changes. *)
Theorem load_elf_image binary hdr phs p c f R K T :
  let base := load_base hdr in
  let root := root_of p in
  parse_header binary = Ok hdr -> Z.of_nat (length phs) = e_phnum hdr ->
  (forall j ph, phs !! j = Some ph -> parse_phdr binary (phdr_offset hdr (Z.of_nat j)) = Ok ph) ->
  0 <= e_entry hdr -> e_entry hdr + base < 2 ^ 47 -> Forall (phdr_ok binary hdr base) phs -> apart base phs ->
  mapper_ok c f (mapper_at root) R K T ->
  (forall ph k, ph ∈ phs -> is_load ph -> 0 <= k < seg_pages base ph -> unused (mem c) root (page_down (seg_start base ph) + k * 4096)) ->
  exists p' m' f' K' T', mapper_ok (with_mem m' c) f' (mapper_at root) R K' T' /\ extends root (mem c) K (on_segs base phs) m' K' /\
    (load_elf kernel_root binary (p, (c, Some f)) = (Ok tt, (p', (with_mem m' c, Some f'))) /\
       (forall ph, ph ∈ phs -> is_load ph -> seg_loaded m' root binary base ph) /\
       entry_point p' = e_entry hdr + base /\ rip p' = e_entry hdr + base /\ brk p' = page_down (highest base phs 0 + 4095) /\
       (forall v, v ∈ vmas p' <-> v ∈ vmas p \/ exists ph, ph ∈ phs /\ is_load ph /\ v = seg_vma base ph) \/
     load_elf kernel_root binary (p, (c, Some f)) = (Err (Other "ELF segment mapping failed"), (p', (with_mem m' c, Some f'))) /\ R ⊆ K' ∪ T').
Proof.
  intros base root Hhdr Hlen Hpar He0 He Hall Hap Hok Hun. unfold load_elf, mbind, M_bind, lift. rewrite Hhdr. fold (load_base hdr). fold base.
  assert (0 <= base) by (unfold base, load_base; case_match; lia). rewrite uadd_ok by lia. unfold new_va, lift. rewrite va_new_low by lia. cbn [Vma.or_panic].
  unfold on_proc. cbn [fst snd]. set (p0 := set_entry (e_entry hdr + base) (e_entry hdr + base) hdr p). rewrite <-Hlen, Nat2Z.id.
  destruct (load_phdrs_ok phs 0 0 binary hdr base p0 c f R K T Hok Hall Hap Hpar Hun) as (p1 & m' & f' & K' & T' & Hok' & Hex & Hcase).
  change (root_of p0) with root in *. pose proof (highest_bound _ _ _ _ 0 Hall ltac:(lia)) as Hhi. unfold LState, Paging.State in Hcase |- *. destruct Hcase as [(-> & [Hv Hf [E1 E2]] & Hms)|[-> HR]].
  - rewrite uadd_ok by lia. exists (set_brk (page_down (highest base phs 0 + 0xFFF)) p1), m', f', K', T'. split; [done|]. split; [done|]. left. split_and!; [done| |done..].
    intros ph Hin Hl. rewrite Forall_forall in Hall. destruct (Hall ph Hin) as [Hs _]. eapply seg_bytes; [by apply Hs|]. by apply Hms.
  - exists p1, m', f', K', T'. split; [done|]. split; [done|]. right. done.
Qed.

End spec.

(** ** An example *)

(** The file header, one program header at 64 and the bytes that follow. *)
Definition elf_file (entry phoff : Z) (ph : Elf64Phdr) (rest : list Z) : list Z :=
  ELF_MAGIC ++ [ELFCLASS64; ELFDATA2LSB] ++ replicate 10 0 ++ le_bytes 2 ET_EXEC ++ le_bytes 2 EM_X86_64 ++ le_bytes 4 1 ++
  le_bytes 8 entry ++ le_bytes 8 phoff ++ replicate 14 0 ++ le_bytes 2 56 ++ le_bytes 2 1 ++ replicate 6 0 ++
  le_bytes 4 (p_type ph) ++ le_bytes 4 (p_flags ph) ++ le_bytes 8 (p_offset ph) ++ le_bytes 8 (p_vaddr ph) ++ le_bytes 8 0 ++
  le_bytes 8 (p_filesz ph) ++ le_bytes 8 (p_memsz ph) ++ le_bytes 8 4096 ++ rest.

Definition ex_phdr : Elf64Phdr := mkPhdr PT_LOAD 5 0x78 0x1078 3 0x10.
Definition ex_elf : list Z := elf_file 0x1078 64 ex_phdr [0x90; 0x90; 0xC3].
Definition ex_elf_proc : ElfProc := mkElfProc 0 0 0 0 0 0 None [] None.

(** A program header offset near the end of the address range: the loader adds
    56 to it before it compares. *)
Definition bad_elf : list Z := elf_file 0x1078 (2 ^ 64 - 1) ex_phdr [].

Section example.
#[local] Existing Instance X8664Arch.
#[local] Existing Instance rmm_x86.
#[local] Existing Instance rmm_x86_ok.
#[local] Existing Instance rmm_spec.
#[local] Existing Instance Vma.demo_addr.
#[local] Existing Instance Vma.demo_search.

Lemma phdr_offset_panics kernel_root s : fst (load_elf kernel_root bad_elf (ex_elf_proc, s)) = Panic.
Proof. by vm_compute. Qed.

Lemma load_elf_image_witness :
  exists root c f p' c' f',
    (load_elf root ex_elf (ex_elf_proc, (c, Some f)) = (Ok tt, (p', (c', Some f'))) /\ entry_point p' = 0x1078 /\ brk p' = 0x2000 /\
     (exists q, space_of (mem c') (mapper_at root) 0x107A = Some (q, 5) /\ mem c' !! (V q + 0x7A) = Some 0xC3) /\
     (exists q, space_of (mem c') (mapper_at root) 0x107B = Some (q, 5) /\ mem c' !! (V q + 0x7B) = Some 0)) \/
    load_elf root ex_elf (ex_elf_proc, (c, Some f)) = (Err (Other "ELF segment mapping failed"), (p', (c', Some f'))).
Proof.
  destruct example_boot as (c & f & R & Hr & Hsz).
  destruct (fresh_frame c f R ∅ Hr) as [(q & m1 & f1 & _ & HqR & _ & Hr1 & Hz & _)|[_ HRU%subseteq_size]]; [|rewrite size_empty in HRU; lia].
  destruct (tree_empty m1 top q) as [Hte Hxe]; [intros j Hj; by rewrite ent_zero, present_0|]. rewrite union_empty_r_L in Hr1.
  assert (Hok : mapper_ok (with_mem m1 c) f1 (mapper_at q) R ∅ {[q]}) by (split; [by rewrite union_empty_l_L|exact Hte|apply disjoint_empty_l]).
  destruct (load_elf_image q ex_elf (mkHeader ET_EXEC 0x1078 64 56 1) [ex_phdr] ex_elf_proc (with_mem m1 c) f1 R ∅ {[q]})
    as (p' & m' & f' & K' & T' & _ & _ & [(Hrun & Hseg & He & _ & Hb & _)|[Hrun _]]).
  - by vm_compute.
  - done.
  - intros [|j] ph Hj; [|done]. injection Hj as <-. by vm_compute.
  - cbn; lia.
  - cbn; lia.
  - apply Forall_cons. split; [|apply Forall_nil_2]. split; [|done]. intros _. split; vm_compute; repeat split; congruence.
  - split; [|done]. intros _ ph' Hin. by apply elem_of_nil in Hin.
  - exact Hok.
  - intros ph k Hin _ _. exact (Hxe _).
  - exists q, (with_mem m1 c), f1, p', (with_mem m' c), f'. left. split; [exact Hrun|]. split; [exact He|]. split; [exact Hb|].
    pose proof (Hseg ex_phdr ltac:(by left) eq_refl) as Hl. split; [exact (Hl 0x107A ltac:(vm_compute; split; congruence))|exact (Hl 0x107B ltac:(vm_compute; split; congruence))].
  - exists q, (with_mem m1 c), f1, p', (with_mem m' c), f'. right. exact Hrun.
Defined.

End example.

End ElfSpec.
