(* ===== verification/SnapshotSpec.v ===== *)
(** * What a snapshot keeps

    The bytes [snapshot] writes, as a function of the process and of the
    contents of its pages, and what reading them back restores. *)

From S2P Require Import Prelude Bytes Abi Capability Vma FdTable Process Scheduler Path Files Vfs RmmArch RmmFrame RmmBuddy RmmInit RmmMapper RmmWalk RmmMap RmmSpace FrameAlloc Paging PagingCow Compress CompressSpec UserCopy AddrSpace Snapshot.
Import RmmArch RmmFrame RmmBuddy RmmMapper RmmWalk RmmMap RmmSpace Paging PagingCow AddrSpace.

Module SnapshotSpec.
Import Snapshot.

(** ** Reading *)

(** What is left of the data at an offset. *)
Definition rest_at (data : list Z) (off : Z) (rest : list Z) : Prop := 0 <= off /\ zlen data < 2 ^ 63 /\ drop (Z.to_nat off) data = rest.

Lemma rest_app data off bs rest : rest_at data off (bs ++ rest) -> rest_at data (off + zlen bs) rest.
Proof.
  intros (H0 & Hl & Hd). pose proof (zlen_nonneg bs). split; [lia|]. split; [done|]. replace (Z.to_nat (off + zlen bs)) with (Z.to_nat off + length bs)%nat by (unfold zlen; lia).
  rewrite <-drop_drop, Hd, drop_app_length. done.
Qed.

Lemma rest_len data off bs rest : rest_at data off (bs ++ rest) -> bs <> [] -> off + zlen bs <= zlen data.
Proof.
  intros (H0 & Hl & Hd) Hne. apply (f_equal length) in Hd. rewrite length_drop, length_app in Hd. unfold zlen. destruct bs; [done|]. simpl in *. lia.
Qed.

Lemma rest_sub data off bs rest : rest_at data off (bs ++ rest) -> sub off (zlen bs) data = bs.
Proof. intros (H0 & Hl & Hd). unfold sub. rewrite Hd. unfold zlen. rewrite Nat2Z.id. apply take_app_length. Qed.

Lemma read_bytes_at data off bs rest n : rest_at data off (bs ++ rest) -> bs <> [] -> zlen bs = n -> read_bytes n data off = Ok (bs, off + n).
Proof.
  intros Hr Hne <-. pose proof (rest_len _ _ _ _ Hr Hne). destruct Hr as (H0 & Hl & Hd) eqn:E. unfold read_bytes. rewrite uadd_ok by lia. cbn [mbind res_bind].
  destruct (Z.ltb_spec (zlen data) (off + zlen bs)); [lia|]. rewrite (rest_sub data off bs rest); [done|]. by split.
Qed.

Lemma read_word_at (n : nat) data off v rest : rest_at data off (le_bytes n v ++ rest) -> (0 < n)%nat -> fits (8 * Z.of_nat n) v ->
  read_word n data off = Ok (v, off + Z.of_nat n).
Proof.
  intros Hr Hn Hv. assert (le_bytes n v <> []) as Hne by (destruct n; [lia|]; done). pose proof (rest_len _ _ _ _ Hr Hne) as Hlen. pose proof (rest_sub _ _ _ _ Hr) as Hs. rewrite zlen_le_bytes in *.
  destruct Hr as (H0 & Hl & _). unfold read_word. rewrite uadd_ok by lia. cbn [mbind res_bind]. destruct (Z.ltb_spec (zlen data) (off + Z.of_nat n)); [lia|].
  by rewrite Hs, le_word_round.
Qed.

Lemma read_u8_at data off v rest : rest_at data off (v :: rest) -> read_u8 data off = Ok (v, off + 1).
Proof.
  intros Hr. pose proof (rest_len data off [v] rest Hr ltac:(done)) as Hlen. destruct Hr as (H0 & Hl & Hd). change (zlen [v]) with 1 in Hlen. unfold read_u8.
  destruct (Z.leb_spec (zlen data) off); [lia|]. assert (Hv : data !! Z.to_nat off = Some v) by (by rewrite <-(Nat.add_0_r (Z.to_nat off)), <-lookup_drop, Hd).
  unfold index. rewrite decide_True, Hv by done. cbn [mbind res_bind]. by rewrite uadd_ok by lia.
Qed.

(** The same as steps of a restore. *)
Lemma rd_word {A} (n : nat) data off v rest ps (k : Z -> M RState unit A) : rest_at data off (le_bytes n v ++ rest) -> (0 < n)%nat -> fits (8 * Z.of_nat n) v ->
  (rd (read_word n data) ≫= k) (off, ps) = k v (off + Z.of_nat n, ps) /\ rest_at data (off + Z.of_nat n) rest.
Proof.
  intros Hr Hn Hv. split; [|rewrite <-(zlen_le_bytes n v); by apply rest_app]. unfold mbind, M_bind, rd. cbn [fst snd]. by rewrite (read_word_at n data off v rest).
Qed.

Lemma rd_u8 {A} data off v rest ps (k : Z -> M RState unit A) : rest_at data off (v :: rest) ->
  (rd (read_u8 data) ≫= k) (off, ps) = k v (off + 1, ps) /\ rest_at data (off + 1) rest.
Proof. intros Hr. split; [|by apply (rest_app data off [v])]. unfold mbind, M_bind, rd. cbn [fst snd]. by rewrite (read_u8_at _ _ _ _ Hr). Qed.

Lemma rd_bytes {A} data off bs rest n ps (k : list Z -> M RState unit A) : rest_at data off (bs ++ rest) -> zlen bs = n -> bs ++ rest <> [] ->
  (rd (read_bytes n data) ≫= k) (off, ps) = k bs (off + n, ps) /\ rest_at data (off + n) rest.
Proof.
  intros Hr <- Hne. split; [|by apply rest_app]. unfold mbind, M_bind, rd. cbn [fst snd]. destruct bs as [|b bs].
  - pose proof (rest_len data off rest [] ltac:(by rewrite app_nil_r) Hne) as Hl. pose proof (zlen_nonneg rest). destruct Hr as (H0 & H1 & _). unfold read_bytes. change (zlen []) with 0.
    rewrite uadd_ok by lia. cbn [mbind res_bind]. by destruct (Z.ltb_spec (zlen data) (off + 0)); [lia|].
  - by rewrite (read_bytes_at _ _ _ _ _ Hr).
Qed.

Lemma rd_path {A} data off bs rest ps (k : list Z -> M RState unit A) : rest_at data off (bs ++ rest) ->
  ((if 0 <? zlen bs then rd (read_bytes (zlen bs) data) else mret []) ≫= k) (off, ps) = k bs (off + zlen bs, ps).
Proof.
  intros Hr. destruct bs as [|b bs]; [unfold mbind, M_bind, mret, M_ret; by rewrite Z.add_0_r|]. pose proof (zlen_nonneg bs). rewrite zlen_cons. destruct (Z.ltb_spec 0 (1 + zlen bs)); [|lia].
  rewrite <-(zlen_cons b bs). by apply (rd_bytes _ _ _ _ _ _ _ Hr).
Qed.

(** Take the next read of a restore; [H] says what the data holds. *)
Ltac rd_step H :=
  let E := fresh "E" in let H' := fresh "H" in
  match goal with
  | |- context [(rd (read_word ?n ?data) ≫= ?k) (?off, ?ps)] => destruct (rd_word n data off _ _ ps k H) as [E H']; [lia| |rewrite E; clear E H; rename H' into H]
  | |- context [(rd (read_u8 ?data) ≫= ?k) (?off, ?ps)] => destruct (rd_u8 data off _ _ ps k H) as [E H']; rewrite E; clear E H; rename H' into H
  | |- context [(rd (read_bytes ?n ?data) ≫= ?k) (?off, ?ps)] => destruct (rd_bytes data off _ _ n ps k H) as [E H']; [| |rewrite E; clear E H; rename H' into H]
  end.

Lemma index_rest {E} data off v rest : rest_at data off (v :: rest) -> index (E:=E) data off = Ok v.
Proof.
  intros (H0 & _ & Hd). unfold index. rewrite decide_True by done. by rewrite <-(Nat.add_0_r (Z.to_nat off)), <-lookup_drop, Hd.
Qed.

(** ** The bytes of a snapshot *)

Lemma flags_round f : decode_flags (encode_flags f) = f.
Proof. by destruct f as [[] [] [] [] []]. Qed.

Lemma cpu_round c : cpu_of (cpu_regs c) = c.
Proof. by destruct c. Qed.

Lemma abi_round a : a <> Process.RedoxElf -> abi_of (abi_code a) = Some a.
Proof. by destruct a. Qed.

Definition meta_bytes (q : Process.Process) : list Z :=
  let i := Process.image q in
  le_bytes 8 (Process.pid q) ++ le_bytes 8 (abi_code (Process.abi q)) ++ le_bytes 8 (Process.priority q) ++ le_bytes 8 (Process.brk i) ++
  le_bytes 8 (Process.mmap_bump i) ++ le_bytes 8 (Process.entry_point i) ++ le_bytes 8 (Process.stack_top i).

Lemma push_all vs buf : foldl (fun buf v => push_u64 v buf) buf vs = buf ++ concat (le_bytes 8 <$> vs).
Proof. revert buf. induction vs as [|v vs IH]; intros buf; cbn [foldl fmap list_fmap concat]; [by rewrite app_nil_r|]. rewrite IH. unfold push_u64. by rewrite <-app_assoc. Qed.

Lemma header_eq p : header p =
  SNAP_MAGIC ++ le_bytes 4 SNAP_VERSION ++ concat (le_bytes 8 <$> cpu_regs (cpu_state p)) ++ meta_bytes (proc p) ++ le_bytes 4 (cwd_len p).
Proof. unfold header, meta_bytes. rewrite push_all. unfold push_u64, push_u32. by rewrite <-!app_assoc. Qed.

(** A page: its presence byte and its contents. *)
Definition page_bytes (o : option (list Z)) : list Z := match o with Some bs => 1 :: bs | None => [0] end.

Definition area_pages (v : Vma.Vma) : Z := (Vma.end_ v - Vma.start v + 4095) / 4096.

Definition pages_bytes (contents : Z -> option (list Z)) (start i : Z) (n : nat) : list Z :=
  concat ((fun k => page_bytes (contents (start + k * 4096))) <$> seqZ i (Z.of_nat n)).

Definition area_data contents (v : Vma.Vma) : list Z := pages_bytes contents (Vma.start v) 0 (Z.to_nat (area_pages v)).

Definition area_bytes contents (v : Vma.Vma) : list Z :=
  le_bytes 8 (Vma.start v) ++ le_bytes 8 (Vma.end_ v) ++ [encode_flags (Vma.flags v)] ++ le_bytes 4 (zlen (area_data contents v)) ++ area_data contents v.

Lemma page_bytes_pos o : 0 < zlen (page_bytes o).
Proof. destruct o as [bs|]; [|done]. unfold page_bytes. rewrite zlen_cons. pose proof (zlen_nonneg bs). lia. Qed.

Lemma pages_bytes_S contents start i n :
  pages_bytes contents start i (S n) = page_bytes (contents (start + i * 4096)) ++ pages_bytes contents start (i + 1) n.
Proof. unfold pages_bytes. rewrite seqZ_cons by lia. cbn [fmap list_fmap concat]. by replace (Z.pred (Z.of_nat (S n))) with (Z.of_nat n) by lia. Qed.

(** A descriptor and its path. *)
Definition path_at (t : FdTable.Table) (fd : nat) : list Z :=
  take (Z.to_nat (default 0 (FdTable.path_lens t !! fd))) (default [] (FdTable.paths t !! fd)).

Definition desc_bytes (t : FdTable.Table) (x : nat * FdTable.FileDesc) : list Z :=
  let d := snd x in
  le_bytes 4 (Z.of_nat (fst x)) ++ [fst (encode_fd_target (FdTable.target d))] ++ le_bytes 4 (snd (encode_fd_target (FdTable.target d))) ++
  le_bytes 4 (FdTable.flags d) ++ le_bytes 8 (FdTable.offset d) ++ [zlen (path_at t (fst x))] ++ path_at t (fst x).

Definition open_fds (t : FdTable.Table) (fds : list nat) : list (nat * FdTable.FileDesc) :=
  omap (fun i => d ← FdTable.get i t; Some (i, d)) fds.

Definition encode (p : SnapProc) contents : list Z :=
  let vs := Process.vmas (Process.image (proc p)) in
  let t := Process.fds (proc p) in
  let fds := open_fds t (seq 0 8) in
  header p ++ sub 0 (cwd_len p) (cwd p) ++ le_bytes 4 (zlen vs) ++ concat (area_bytes contents <$> vs) ++
  le_bytes 4 (zlen fds) ++ concat (desc_bytes t <$> fds).

(** ** Descriptors *)

Lemma path_at_len t fd : FdTable.table_ok t -> (fd < 8)%nat ->
  exists n row, FdTable.path_lens t !! fd = Some n /\ FdTable.paths t !! fd = Some row /\ 0 <= n <= 63 /\ zlen row = 64 /\
    path_at t fd = sub 0 n row /\ zlen (path_at t fd) = n.
Proof.
  intros [H1 H2 H3 H4 H5] Hfd. destruct (lookup_lt_is_Some_2 (FdTable.path_lens t) fd ltac:(lia)) as [n Hn].
  destruct (lookup_lt_is_Some_2 (FdTable.paths t) fd ltac:(lia)) as [row Hrow]. exists n, row.
  pose proof (Forall_lookup_1 _ _ _ _ H5 Hn) as Hb. pose proof (Forall_lookup_1 _ _ _ _ H4 Hrow) as Hl. cbn beta in *.
  assert (Hp : path_at t fd = sub 0 n row) by (unfold path_at; rewrite Hn, Hrow; done). rewrite Hp, zlen_sub by lia. done.
Qed.

Lemma index_at {A} (l : list A) i x : l !! i = Some x -> index (E:=unit) l (Z.of_nat i) = Ok x.
Proof. intros Hx. unfold index. by rewrite decide_True, Nat2Z.id, Hx by lia. Qed.

Lemma fd_bytes_ok t fd d : FdTable.table_ok t -> (fd < 8)%nat -> fd_bytes fd d t = Ok (desc_bytes t (fd, d)).
Proof.
  intros Ht Hfd. destruct (path_at_len t fd Ht Hfd) as (n & row & Hn & Hrow & Hb & Hl & Hp & Hz). unfold fd_bytes, desc_bytes. cbn [fst snd].
  destruct (encode_fd_target (FdTable.target d)) as [tag td] eqn:He. cbn [fst snd]. rewrite (index_at _ _ _ Hn). cbn [mbind res_bind].
  rewrite Hz. rewrite wrap_small by (unfold fits; lia). unfold push_u32, push_u64. destruct (Z.ltb_spec 0 n).
  - rewrite (index_at _ _ _ Hrow). cbn [mbind res_bind]. rewrite slice_ok by lia. cbn [mbind res_bind]. by rewrite Hp, <-?app_assoc.
  - replace n with 0 in * by lia. by rewrite Hp, sub_zero, <-?app_assoc, ?app_nil_r.
Qed.

Lemma snap_fds_ok t fds count buf : FdTable.table_ok t -> Forall (fun i => (i < 8)%nat) fds ->
  snap_fds fds t count buf = Ok (count + zlen (open_fds t fds), buf ++ concat (desc_bytes t <$> open_fds t fds)).
Proof.
  intros Ht Hf. revert count buf. induction Hf as [|i fds Hi Hf IH]; intros count buf; cbn [snap_fds open_fds omap list_omap].
  { cbn. rewrite app_nil_r. f_equal. f_equal. unfold zlen. simpl. lia. }
  fold (open_fds t fds). destruct (FdTable.get i t) as [d|]; cbn [mbind option_bind]; [|apply IH].
  rewrite fd_bytes_ok by done. cbn [mbind res_bind]. rewrite IH. cbn [fmap list_fmap concat]. rewrite <-app_assoc, zlen_cons. f_equal. f_equal. lia.
Qed.

(** ** Taking a snapshot *)

Section spec.
#[local] Existing Instance X8664Arch.
Context {X : X86} {XO : X86Ok X} {VA : VirtAddrOps}.

Implicit Types (m : gmap Z Z) (c : Machine) (f : BuddyAllocator) (R U K T : gset Z) (G : gmap Z nat) (p : SnapProc).

Definition page_at m (q : Z) : list Z := match Bytes.load (E:=unit) m (V q) 4096 with Ok bs => bs | _ => [] end.

(** The contents of the page of [v] below [root]. *)
Definition contents_of m (root v : Z) : option (list Z) :=
  match utrans m 3 root v with Some (q, _) => Some (page_at m q) | None => None end.

(** The tables a process runs on. *)
Definition own_root c (o : option Z) : Z := default (fst (regs c)) o.

Definition backed m (root v : Z) : Prop := forall q fl, utrans m 3 root v = Some (q, fl) -> frame_ok q /\ mapped m (V q) 4096.

Lemma page_at_ok m q : mapped m (V q) 4096 -> Bytes.load (E:=unit) m (V q) 4096 = Ok (page_at m q) /\ zlen (page_at m q) = 4096.
Proof.
  intros Hm. destruct (load_mapped (E:=unit) m (V q) 4096 Hm) as [bs Hl]. unfold page_at. rewrite Hl. split; [done|]. by apply load_length in Hl.
Qed.

Lemma contents_len m root v bs : backed m root v -> contents_of m root v = Some bs -> zlen bs = 4096.
Proof.
  unfold contents_of. intros Hb. destruct (utrans m 3 root v) as [[q fl]|] eqn:Hu; [|done]. intros [= <-]. apply page_at_ok. by eapply Hb.
Qed.

Lemma snap_page_ok o v c f R U G :
  let root := own_root c o in
  tables (mem c) f R U G -> G !! root = Some 3%nat -> 0 <= v < 2 ^ 47 -> backed (mem c) root v ->
  snap_page o v (c, Some f) = (Ok (page_bytes (contents_of (mem c) root v)), (c, Some f)).
Proof.
  intros root Ht Hroot Hv Hb. unfold snap_page, mbind, M_bind, try.
  assert (Hg : (match o with Some frame => get_leaf_entry_mut_in frame v | None => get_leaf_entry_mut v end) (c, Some f) =
    get_leaf_entry_mut_in root v (c, Some f)) by (by destruct o). rewrite Hg.
  rewrite (CompressSpec.get_leaf_mem f R U G) by (done || by apply UserCopy.low_user). unfold contents_of, CompressSpec.leaf_result. unfold backed in Hb.
  rewrite UserCopy.utrans_leaf in *. destruct (CompressSpec.leaf_table _ _ _ _) as [t|] eqn:Hleaf; [|done]. cbn zeta in *.
  destruct (has (e_flags (ent (mem c) t (idx 0 v))) PRESENT) eqn:Hp; [|done]. cbn [fst snd].
  assert (Htl : G !! t = Some 0%nat) by (eapply (CompressSpec.leaf_table_level _ G 3); [by eapply tb_typed|lia|by apply UserCopy.low_user|done..]).
  destruct (tables_frame _ _ _ _ _ _ _ Ht Htl) as [Htf Htm]. rewrite pte_read_ok by (done || apply idx_512). rewrite Hp.
  destruct (Hb _ _ eq_refl) as [Hq Hm]. unfold phys_to_virt, lift. destruct Hq as (Q1 & Q2 & Q3). pose proof (page_size_pos (A:=X8664Arch)). rewrite uadd_ok by lia. change (e_addr _ + PHYS_OFFSET) with (V (e_addr (ent (mem c) t (idx 0 v)))).
  destruct (page_at_ok _ _ Hm) as [Hl _]. by rewrite (read_ok _ _ _ c (Some f) Hl).
Qed.

Lemma snap_pages_ok n i start o c f R U G :
  let root := own_root c o in
  tables (mem c) f R U G -> G !! root = Some 3%nat -> 0 <= i -> 0 <= start -> start + (i + Z.of_nat n) * 4096 <= 2 ^ 47 ->
  (forall k, i <= k < i + Z.of_nat n -> backed (mem c) root (start + k * 4096)) ->
  snap_pages n i start o (c, Some f) = (Ok (pages_bytes (contents_of (mem c) root) start i n), (c, Some f)).
Proof.
  intros root Ht Hroot. revert i. induction n as [|n IH]; intros i Hi Hs He Hb; cbn [snap_pages]; [done|].
  unfold mbind, M_bind, lift. rewrite uadd_ok by lia. unfold va. rewrite va_new_low by lia. unfold mret, M_ret.
  rewrite (snap_page_ok o _ c f R U G) by (done || lia || apply Hb; lia). rewrite IH by (lia || intros; apply Hb; lia). by rewrite pages_bytes_S.
Qed.

Record area_ok (v : Vma.Vma) : Prop := {
  ao_range : 0 <= Vma.start v < Vma.end_ v;
  ao_user : Vma.end_ v + 4096 <= 2 ^ 47;
  ao_aligned : Vma.start v mod 4096 = 0
}.

Lemma area_pages_bound v : area_ok v -> 0 < area_pages v /\ Vma.start v + area_pages v * 4096 <= 2 ^ 47.
Proof. intros [H1 H2 _]. unfold area_pages. Z.div_mod_to_equations. lia. Qed.

Lemma page_count_ok {E} v : area_ok v -> page_count (E:=E) (Vma.end_ v - Vma.start v) = Ok (area_pages v).
Proof. intros [H1 H2 _]. unfold page_count, area_pages. rewrite uadd_ok by lia. cbn [mbind res_bind]. do 2 f_equal. lia. Qed.

Lemma snap_vmas_ok vs o buf c f R U G :
  let root := own_root c o in
  tables (mem c) f R U G -> G !! root = Some 3%nat -> Forall area_ok vs ->
  (forall v k, v ∈ vs -> 0 <= k < area_pages v -> backed (mem c) root (Vma.start v + k * 4096)) ->
  snap_vmas vs o buf (c, Some f) = (Ok (buf ++ concat (area_bytes (contents_of (mem c) root) <$> vs)), (c, Some f)).
Proof.
  intros root Ht Hroot Hall. revert buf. induction Hall as [|v vs Hv Hall IH]; intros buf Hb; cbn [snap_vmas fmap list_fmap concat]; [by rewrite app_nil_r|].
  pose proof (area_pages_bound v Hv) as [Hn He]. unfold mbind, M_bind, lift. unfold usub. destruct (Z.ltb_spec (Vma.end_ v) (Vma.start v)); [destruct Hv; lia|]. rewrite page_count_ok by done.
  rewrite (snap_pages_ok _ _ _ o c f R U G); [|done|done|lia|destruct Hv; lia|lia|intros k Hk; apply Hb; [by left|lia]]. fold root. fold (area_data (contents_of (mem c) root) v).
  rewrite IH by (intros w k Hw; apply Hb; by right). unfold area_bytes, push_u32, push_u64. by rewrite <-!app_assoc.
Qed.

(** What a process that is saved has to meet; the file format has 32 bits for
    the length of an area's data. *)
Record snap_ok p : Prop := {
  sk_cwd : 0 <= cwd_len p <= 128 /\ zlen (cwd p) = 128;
  sk_areas : Forall area_ok (Process.vmas (Process.image (proc p)));
  sk_fds : FdTable.table_ok (Process.fds (proc p))
}.

Lemma snapshot_ok p c f R U G :
  let root := own_root c (Process.page_table_frame (Process.image (proc p))) in
  snap_ok p -> tables (mem c) f R U G -> G !! root = Some 3%nat ->
  (forall v k, v ∈ Process.vmas (Process.image (proc p)) -> 0 <= k < area_pages v -> backed (mem c) root (Vma.start v + k * 4096)) ->
  snapshot p (c, Some f) = (Ok (encode p (contents_of (mem c) root)), (c, Some f)).
Proof.
  intros root [Hc Ha Hf] Ht Hroot Hb. unfold snapshot, mbind, M_bind, lift. rewrite slice_ok by lia.
  rewrite (snap_vmas_ok _ _ _ c f R U G) by done. fold root. set (cont := contents_of (mem c) root).
  rewrite snap_fds_ok by (done || by repeat constructor; lia). cbn [fst snd]. rewrite Z.add_0_l.
  set (n := le_bytes 4 (zlen (open_fds (Process.fds (proc p)) (seq 0 8)))). set (pre := push_u32 _ _ ++ _). unfold push_u32 at 1.
  assert (Hn : length n = 4%nat) by apply length_le_bytes.
  rewrite splice_ok; [|apply zlen_nonneg|unfold zlen; rewrite !length_app, Hn, length_le_bytes; lia]. do 2 f_equal.
  unfold upd, encode. fold cont. fold n. rewrite <-!app_assoc. unfold zlen at 1 2. rewrite Nat2Z.id, take_app_length, <-drop_drop, drop_app_length.
  rewrite Hn, <-(length_le_bytes 4 0), drop_app_length. unfold pre, push_u32. by rewrite <-!app_assoc.
Qed.

End spec.

(** ** Restoring pages *)

Section pages.
#[local] Existing Instance X8664Arch.
Context {X : X86} {XO : X86Ok X} {MS : MapperSpec X} {VA : VirtAddrOps}.

Implicit Types (m : gmap Z Z) (c : Machine) (f : BuddyAllocator) (R K T : gset Z) (root : Z).

(** Writing all of a frame is filling it. *)
Lemma copy_page q bs s s' : zlen bs = 4096 -> fill_frame q (Some bs) s = (Ok tt, s') -> (dst ← phys_to_virt q; write dst bs) s = (Ok tt, s').
Proof.
  intros Hl. unfold fill_frame, mbind, M_bind. destruct (phys_to_virt q s) as [[dst| | |] s1] eqn:Hp; try done.
  assert (Hlen : length bs = Z.to_nat 4096) by (unfold zlen in Hl; lia). replace (take 4096 bs) with bs by (rewrite take_ge; [done|lia]).
  unfold write_bytes, write, store. destruct s1 as [c o]. cbn [fst snd]. unfold zlen. rewrite length_replicate, Hlen. case_decide; [|done]. cbn [fst snd].
  case_decide; [|done]. intros Heq. apply (f_equal snd) in Heq. cbn [snd] in Heq. rewrite <-Heq. rewrite with_mem_twice. do 3 f_equal. apply map_eq. intros i. rewrite with_mem_mem, !store_bytes_lookup. unfold zlen. rewrite length_replicate, Hlen.
  by case_decide.
Qed.

Lemma restore_flags_ok fl : flags_ok (restore_flags fl) /\ has (restore_flags fl) PRESENT = true.
Proof. by destruct fl as [[] [] [] [] []]. Qed.

Lemma page_image_full bs : zlen bs = 4096 -> page_image (Some bs) = bs.
Proof.
  intros Hl. assert (Hlen : length bs = 4096%nat) by (unfold zlen in Hl; lia). unfold page_image. cbn [from_option]. unfold id. rewrite take_ge by lia. rewrite Hlen, Nat.sub_diag. apply app_nil_r.
Qed.

(** One present page. *)
Lemma restore_page c f root R K T v fl bs :
  mapper_ok c f (mapper_at root) R K T -> unused (mem c) root v -> zlen bs = 4096 ->
  (exists q s1 s2 r m' f' T', allocate_frame (c, Some f) = (Ok q, s1) /\ (dst ← phys_to_virt q; write dst bs) s1 = (Ok tt, s2) /\
     map_to root v q (restore_flags fl) s2 = (Ok r, (with_mem m' c, Some f')) /\ mapper_ok (with_mem m' c) f' (mapper_at root) R ({[q]} ∪ K) T' /\
     extends root (mem c) K (fun w => masked w = masked v) m' ({[q]} ∪ K) /\ q ∈ R ∖ (K ∪ T) /\
     (page_holds m' root ({[q]} ∪ K) v (restore_flags fl) bs \/ R ⊆ {[q]} ∪ K ∪ T')) \/
  (allocate_frame (c, Some f) = (Err tt, (c, Some f)) /\ R ⊆ K ∪ T).
Proof.
  intros Hok Hu Hl. destruct (new_frame c f root R K T (Some bs) Hok) as [(q & s1 & m1 & f1 & Hal & Hfill & Hq & Hqa & Hok1 & Hb1 & Hex1)|]; [left|by right].
  rewrite page_image_full in Hb1 by done. apply copy_page in Hfill; [|done]. destruct (restore_flags_ok fl) as [Hfl Hpr].
  assert (Hu1 : unused m1 root v) by (apply (ex_unused _ _ _ _ _ _ Hex1); [tauto|done]).
  destruct (map_to_fresh (with_mem m1 c) f1 root R ({[q]} ∪ K) T v q (restore_flags fl) Hok1 Hu1 Hqa Hfl Hpr) as (r & m' & f' & T' & Hrun & Hok' & Hd & Hs & Hun & Hcase).
  rewrite with_mem_mem, with_mem_twice in *. exists q, s1, (with_mem m1 c, Some f1), r, m', f', T'. split; [done|]. split; [done|]. split; [done|]. split; [done|]. split; [|split; [done|]].
  - eapply space_trans; [eapply space_mono; [|exact Hex1]; done|]. split; [done|done|done| |intros w Hw; by apply Hun].
    intros w Hw. destruct Hcase as [[_ Hx]|(_ & Hx & _)]; rewrite Hx; [|done]. unfold put. by rewrite decide_False by congruence.
  - destruct Hcase as [[_ Hx]|(_ & _ & HR)]; [left|by right]. exists q. split; [clear; set_solver|]. split; [intros w Hw; rewrite Hx; unfold put; by rewrite decide_True|].
    eapply holds_same; [|done]. apply Hs. clear; set_solver.
Qed.

(** What a loop over pages leaves: it returns, with or without an error, and
    either no frame is left or the pages hold their contents. *)
Definition restored_pages c root R K T (P : Z -> Prop) (good : gmap Z Z -> gset Z -> Prop) (run : res unit unit * State) : Prop :=
  exists r m' f' K' T', run = (r, (with_mem m' c, Some f')) /\ (r = Ok tt \/ r = Err tt) /\ mapper_ok (with_mem m' c) f' (mapper_at root) R K' T' /\
    extends root (mem c) K P m' K' /\ (R ⊆ K ∪ T -> R ⊆ K' ∪ T') /\ (r = Ok tt /\ good m' K' \/ R ⊆ K' ∪ T').

Lemma restore_pages_ok n i start fl root contents page_data pd_off c f R K T :
  mapper_ok c f (mapper_at root) R K T -> 0 <= i -> 0 <= start -> start + (i + Z.of_nat n) * 4096 <= 2 ^ 47 ->
  rest_at page_data pd_off (pages_bytes contents start i n) ->
  (forall k bs, i <= k < i + Z.of_nat n -> contents (start + k * 4096) = Some bs -> zlen bs = 4096 /\ unused (mem c) root (start + k * 4096)) ->
  restored_pages c root R K T (in_pages start i (Z.of_nat n))
    (fun m' K' => forall k bs, i <= k < i + Z.of_nat n -> contents (start + k * 4096) = Some bs -> page_holds m' root K' (start + k * 4096) (restore_flags fl) bs)
    (restore_pages n i start fl root page_data pd_off (c, Some f)).
Proof.
  intros Hok Hi Hst Hend. revert i pd_off c f K T Hok Hi Hend. induction n as [|n IH]; intros i pd_off c f K T Hok Hi Hend Hr Hc; cbn [restore_pages].
  { exists (Ok tt), (mem c), f, K, T. split; [by destruct c|]. split; [by left|]. split; [by destruct c|]. split; [apply space_refl|]. split; [done|]. left. split; [done|lia]. }
  rewrite pages_bytes_S in Hr. set (v := start + i * 4096) in *. set (P := in_pages start i (Z.of_nat (S n))).
  assert (HP : forall w, in_pages start (i + 1) (Z.of_nat n) w -> P w) by (intros w (k & Hk & Hw); exists k; split; [lia|done]).
  assert (Hne : page_bytes (contents v) <> []) by (by destruct (contents v)). pose proof (rest_len _ _ _ _ Hr Hne) as Hlen. pose proof (zlen_nonneg page_data).
  pose proof (page_bytes_pos (contents v)).
  destruct (Z.leb_spec (zlen page_data) pd_off); [lia|].
  destruct (contents v) as [bs|] eqn:Hcv; cbn [page_bytes app] in *.
  2: { unfold mbind, M_bind, lift. rewrite (index_rest _ _ _ _ Hr). cbn [Z.eqb]. apply (rest_app page_data pd_off [0]) in Hr. change (zlen [0]) with 1 in Hr.
       destruct (IH (i + 1) (pd_off + 1) c f K T) as (r & m' & f' & K' & T' & -> & Hrr & Hok' & Hex & Hmono & Hcase); [done|lia|lia|done|intros k bs Hk; apply Hc; lia|].
       exists r, m', f', K', T'. split; [done|]. split; [done|]. split; [done|]. split; [by eapply space_mono|]. split; [done|].
       destruct Hcase as [[Hr0 Hg]|]; [left|by right]. split; [done|]. intros k bs Hk Hkb. destruct (decide (k = i)) as [->|]; [by unfold v in Hcv; rewrite Hcv in Hkb|]. apply Hg; [lia|done]. }
  destruct (Hc i bs ltac:(lia) Hcv) as [Hbl Hu]. fold v in Hu. unfold mbind at 1, M_bind at 1, lift at 1. rewrite (index_rest _ _ _ _ Hr). change (1 =? 1) with true. cbn iota.
  apply (rest_app page_data pd_off [1]) in Hr. change (zlen [1]) with 1 in Hr. rewrite zlen_cons, Hbl in Hlen. destruct (Z.ltb_spec (zlen page_data) (pd_off + 1 + 4096)); [lia|].
  pose proof (rest_sub _ _ _ _ Hr) as Hsub. apply rest_app in Hr. rewrite Hbl in Hsub, Hr. rewrite Hsub. unfold mbind at 1, M_bind at 1, lift at 1. rewrite uadd_ok by lia. fold v.
  unfold mbind at 1, M_bind at 1, va. rewrite va_new_low by lia. unfold mret, M_ret.
  destruct (restore_page c f root R K T v fl bs Hok Hu Hbl) as [(q & s1 & s2 & r1 & m1 & f1 & T1 & Hal & Hcopy & Hmap & Hok1 & Hex1 & Hq & Hcase1)|[Hal HR]]; unfold mbind at 1, M_bind at 1; rewrite Hal.
  2: { exists (Err tt), (mem c), f, K, T. split; [by destruct c|]. split; [by right|]. split; [by destruct c|]. split; [apply space_refl|]. split; [done|by right]. }
  unfold mbind, M_bind in Hcopy |- *. destruct (phys_to_virt q s1) as [[dst| | |] s1']; try done. rewrite Hcopy, Hmap.
  destruct (IH (i + 1) (pd_off + 1 + 4096) (with_mem m1 c) f1 ({[q]} ∪ K) T1 Hok1) as (r & m' & f' & K' & T' & Hrun & Hrr & Hok' & Hex & Hmono & Hcase); [lia|lia|done| |].
  { intros k bs' Hk Hkb. destruct (Hc k bs' ltac:(lia) Hkb) as [Hl Huk]. split; [done|]. rewrite with_mem_mem. apply (ex_unused _ _ _ _ _ _ Hex1); [|done]. intros Hm. apply pages_differ in Hm; lia. }
  rewrite with_mem_mem, with_mem_twice in *. exists r, m', f', K', T'. split; [exact Hrun|]. split; [done|]. split; [done|]. split; [|split].
  - eapply space_trans; [|by eapply space_mono]. eapply space_mono; [|exact Hex1]. intros w Hw. exists i. split; [lia|done].
  - intros HR. exfalso. clear -HR Hq. set_solver.
  - destruct Hcase as [[Hr0 Hg]|]; [|by right]. destruct Hcase1 as [Hh|HR]; [left|right; by apply Hmono]. split; [done|]. intros k bs' Hk Hkb. destruct (decide (k = i)) as [->|]; [|apply Hg; [lia|done]].
    fold v in Hkb |- *. rewrite Hcv in Hkb. simplify_eq. eapply page_holds_extends; [exact Hex| |apply in_pages_masked|done].
    intros (k & Hk' & Hm). apply pages_differ in Hm; lia.
Qed.

End pages.

(** ** Restoring descriptors *)

Section fds.
Context {X : X86}.

Implicit Types (t : FdTable.Table) (p : SnapProc).

Definition with_fds t p : SnapProc := set_proc (set_fds t) p.

(** What the format can hold of a descriptor. *)
Definition desc_ok (d : FdTable.FileDesc) : Prop :=
  fits 32 (snd (encode_fd_target (FdTable.target d))) /\ fits 32 (FdTable.flags d) /\ fits 64 (FdTable.offset d).

Lemma decode_some tg : is_Some (decode_fd_target (fst (encode_fd_target tg)) (snd (encode_fd_target tg))).
Proof. by destruct tg; eexists. Qed.

Lemma get_update j i g t : FdTable.get j (FdTable.update_desc i g t) = if decide (j = i) then g <$> FdTable.get i t else FdTable.get j t.
Proof.
  unfold FdTable.update_desc, FdTable.get. destruct (FdTable.entries t !! i) as [[d|]|] eqn:Hi; case_decide as Hj; subst; rewrite ?Hi; try done.
  - unfold FdTable.set_entry. cbn [FdTable.entries]. rewrite list_lookup_insert_eq; [done|by eapply lookup_lt_Some].
  - unfold FdTable.set_entry. cbn [FdTable.entries]. by rewrite list_lookup_insert_ne.
Qed.

(** Only standard descriptors come back, with their targets reset. *)
Definition fd_restored t (l : list nat) (j : nat) : option FdTable.FileDesc :=
  match FdTable.get j FdTable.new with
  | None => None
  | Some std =>
    match FdTable.get j t with
    | Some d => if decide (j ∈ l) then Some (FdTable.mkDesc (FdTable.target std) (FdTable.flags d) (FdTable.offset d)) else Some std
    | None => Some std
    end
  end.

Record fds_so_far t (l : list nat) (acc : FdTable.Table) : Prop := {
  sf_entries : forall j, FdTable.get j acc = fd_restored t l j;
  sf_rows : length (FdTable.paths acc) = 8%nat /\ Forall (fun row => zlen row = 64) (FdTable.paths acc)
}.

Lemma get_new j : (3 <= j)%nat -> FdTable.get j FdTable.new = None.
Proof. intros Hj. unfold FdTable.get. do 8 (destruct j as [|j]; [lia || done|]). done. Qed.

Lemma restored_closed t l i j : FdTable.get i t = None -> fd_restored t (l ++ [i]) j = fd_restored t l j.
Proof.
  intros Hi. unfold fd_restored. destruct (FdTable.get j FdTable.new); [|done]. destruct (FdTable.get j t) eqn:Hj; [|done].
  destruct (decide (j ∈ l)) as [Hl|Hl]; [by rewrite decide_True by set_solver|]. rewrite decide_False; [done|]. intros [|<-%list_elem_of_singleton]%elem_of_app; congruence.
Qed.

Lemma restored_open t l i d j : FdTable.get i t = Some d ->
  fd_restored t (l ++ [i]) j = if decide (j = i) then (fun x => FdTable.mkDesc (FdTable.target x) (FdTable.flags d) (FdTable.offset d)) <$> fd_restored t l j else fd_restored t l j.
Proof.
  intros Hi. unfold fd_restored. destruct (FdTable.get j FdTable.new); [|by case_decide]. destruct (decide (j = i)) as [->|Hj].
  - rewrite Hi. rewrite decide_True by set_solver. by case_decide.
  - destruct (FdTable.get j t); [|done]. destruct (decide (j ∈ l)) as [Hl|Hl]; [by rewrite decide_True by set_solver|].
    rewrite decide_False; [done|]. intros [|Hx%list_elem_of_singleton]%elem_of_app; congruence.
Qed.

Lemma restore_fd_ok t l acc i d :
  FdTable.table_ok t -> (i < 8)%nat -> FdTable.get i t = Some d -> fds_so_far t l acc ->
  let e := encode_fd_target (FdTable.target d) in
  exists acc', restore_fd (Z.of_nat i) (fst e) (snd e) (FdTable.flags d) (FdTable.offset d) (zlen (path_at t i)) (path_at t i) acc = Ok acc' /\
    fds_so_far t (l ++ [i]) acc'.
Proof.
  intros Ht Hi Hd [He [Hn Hrows]] e. unfold restore_fd. destruct (decode_some (FdTable.target d)) as [tg Htg]. fold e in Htg. rewrite Htg.
  destruct (Z.ltb_spec (Z.of_nat i) 8); [|lia]. destruct (path_at_len t i Ht Hi) as (n & row & _ & _ & Hb & Hrow & Hp & Hz). rewrite Nat2Z.id. destruct (Z.ltb_spec (Z.of_nat i) 3).
  - eexists. split; [done|]. split; [|by unfold FdTable.update_desc; case_match; [case_match|]]. intros j. rewrite get_update, (restored_open t l i d j Hd), !He.
    case_decide; [by subst|done].
  - rewrite Hz, Z.min_l by lia. set (rows := if 0 <? n then _ else _).
    assert (Hr : exists rs, rows = Ok rs /\ length rs = 8%nat /\ Forall (fun row => zlen row = 64) rs).
    { unfold rows. destruct (Z.ltb_spec 0 n); [|eauto]. destruct (lookup_lt_is_Some_2 (FdTable.paths acc) i ltac:(lia)) as [r0 Hr0]. rewrite (index_at _ _ _ Hr0). cbn [mbind res_bind].
      pose proof (Forall_lookup_1 _ _ _ _ Hrows Hr0) as Hl0. cbn beta in Hl0.
      assert (Hpl : zlen (take (Z.to_nat n) (path_at t i)) = n) by (rewrite take_ge; [done|unfold zlen in Hz; lia]). rewrite splice_ok by lia. eexists. split; [done|].
      rewrite length_insert. split; [done|]. apply Forall_insert; [done|]. by rewrite zlen_upd by lia. }
    destruct Hr as (rs & -> & Hrl & Hrs). cbn [mbind res_bind]. eexists. split; [done|]. split; [|unfold FdTable.update_desc; case_match; [case_match|]; done].
    intros j. rewrite get_update, (restored_open t l i d j Hd). unfold FdTable.get at 1 2. cbn [FdTable.entries]. fold (FdTable.get i acc) (FdTable.get j acc). rewrite !He.
    case_decide; [subst|done]. unfold fd_restored. by rewrite get_new by lia.
Qed.

Lemma restore_fds_ok l0 l t data off k p acc :
  FdTable.table_ok t -> Forall (fun i => (i < 8)%nat) l -> (forall i d, i ∈ l -> FdTable.get i t = Some d -> desc_ok d) ->
  fds_so_far t l0 acc -> rest_at data off (concat (desc_bytes t <$> open_fds t l)) ->
  exists off' acc', restore_fds (length (open_fds t l)) data (off, (with_fds acc p, k)) = (Ok tt, (off', (with_fds acc' p, k))) /\ fds_so_far t (l0 ++ l) acc'.
Proof.
  intros Ht Hl. revert l0 off acc. induction Hl as [|i l Hi Hl IH]; intros l0 off acc Hd Hacc Hr; cbn [open_fds omap list_omap].
  { exists off, acc. by rewrite app_nil_r. }
  cbn [open_fds omap list_omap] in Hr. fold (open_fds t l) in *. destruct (FdTable.get i t) as [d|] eqn:Hg; cbn [mbind option_bind] in *.
  2: { destruct (IH (l0 ++ [i]) off acc) as (off' & acc' & Hrun & Hs); [intros; eapply Hd; [by right|done]| |done|by exists off', acc'; rewrite <-app_assoc in Hs].
       destruct Hacc as [H1 H2]. split; [|done]. intros j. by rewrite restored_closed. }
  destruct (Hd i d ltac:(by left) Hg) as (D1 & D2 & D3). cbn [length restore_fds fmap list_fmap concat] in *. unfold desc_bytes at 1 in Hr. cbn [fst snd] in Hr. rewrite <-!app_assoc in Hr.
  unfold read_u32, read_u64. rd_step Hr; [unfold fits; lia|]. rd_step Hr. rd_step Hr; [done|]. rd_step Hr; [done|]. rd_step Hr; [done|]. rd_step Hr.
  rewrite (rd_path _ _ _ _ _ _ Hr). apply rest_app in Hr. destruct (restore_fd_ok t l0 acc i d Ht Hi Hg Hacc) as (acc' & Hfd & Hacc').
  destruct (IH (l0 ++ [i]) _ acc' ltac:(intros; eapply Hd; [by right|done]) Hacc' Hr) as (off' & acc'' & Hrun & Hs). exists off', acc''. rewrite <-app_assoc in Hs. split; [|done].
  rewrite <-Hrun. unfold mbind, M_bind, get_proc, lift, on_proc. cbn [fst snd]. change (Process.fds (proc (with_fds acc p))) with acc. by rewrite Hfd.
Qed.

End fds.

(** ** Restoring a process *)

Section whole.
#[local] Existing Instance X8664Arch.
Context {X : X86} {XO : X86Ok X} {MS : MapperSpec X} {VA : VirtAddrOps} {BS : BinarySearch}.

Implicit Types (m : gmap Z Z) (c : Machine) (f : BuddyAllocator) (R K T : gset Z) (root : Z) (p : SnapProc) (v w : Vma.Vma).

(** An area keeps its range and its permissions only. *)
Definition bare v : Vma.Vma := Vma.mkVma (Vma.start v) (Vma.end_ v) (Vma.flags v) false None 0 0 None.

Definition with_areas (vs : list Vma.Vma) p : SnapProc := set_proc (on_image (Process.with_vmas vs)) p.

Definition in_areas (vs : list Vma.Vma) (a : Z) : Prop := exists v, v ∈ vs /\ in_pages (Vma.start v) 0 (area_pages v) a.

Definition areas_hold m root K (contents : Z -> option (list Z)) (vs : list Vma.Vma) : Prop :=
  forall v k bs, v ∈ vs -> 0 <= k < area_pages v -> contents (Vma.start v + k * 4096) = Some bs ->
    page_holds m root K (Vma.start v + k * 4096) (restore_flags (Vma.flags v)) bs.

Lemma add_region_last v vs : StronglySorted Z.le (map Vma.start vs) -> Forall (fun w => Vma.start w < Vma.start v) vs -> Vma.add_region v vs = vs ++ [v].
Proof.
  intros Hs Hlt. destruct (search_spec _ (Vma.start v) Hs) as (Hle & _ & Hge). unfold Vma.add_region. set (pos := search _ _) in *. rewrite length_map in Hle.
  assert (Hpos : pos = length vs).
  { destruct (decide (pos = length vs)) as [|Hne]; [done|]. destruct (lookup_lt_is_Some_2 vs pos ltac:(lia)) as [w Hw]. pose proof (Forall_lookup_1 _ _ _ _ Hlt Hw) as Hw'. cbn beta in Hw'.
    assert (map Vma.start vs !! pos = Some (Vma.start w)) as Hm by (change (map Vma.start vs) with (Vma.start <$> vs); by rewrite list_lookup_fmap, Hw). pose proof (Hge pos _ ltac:(lia) Hm). lia. }
  by rewrite Hpos, firstn_all, drop_all.
Qed.

(** Areas in order, none of which meets another. *)
Definition areas_ok (vs : list Vma.Vma) : Prop := Forall area_ok vs /\ StronglySorted Vma.before vs.

Lemma areas_apart vs : areas_ok vs -> StronglySorted (fun v w => Vma.start v + area_pages v * 4096 <= Vma.start w) vs.
Proof.
  intros [Ha Hs]. induction Hs as [|v vs Hs IH Hhd]; [constructor|]. apply Forall_cons in Ha as [Hv Ha]. constructor; [by apply IH|]. apply Forall_forall. intros w Hw.
  rewrite Forall_forall in Hhd, Ha. specialize (Hhd w Hw). unfold Vma.before in Hhd. destruct Hv as [V1 V2 V3], (Ha w Hw) as [W1 W2 W3]. unfold area_pages. Z.div_mod_to_equations. lia.
Qed.

Lemma areas_prefix vs vs' : areas_ok (vs ++ vs') -> areas_ok vs /\ areas_ok vs'.
Proof. intros [Ha Hs]. apply Forall_app in Ha as [A1 A2]. apply StronglySorted_app in Hs as (_ & S1 & S2). done. Qed.

Lemma areas_starts vs v : areas_ok (vs ++ [v]) -> StronglySorted Z.le (map Vma.start vs) /\ Forall (fun w => Vma.start w < Vma.start v) vs.
Proof.
  intros Hok. pose proof (areas_apart _ Hok) as Hs. destruct Hok as [Ha _]. apply StronglySorted_app in Hs as (Hx & Hs & _). apply Forall_app in Ha as [Ha _]. split.
  - clear Hx. induction Hs as [|w vs Hs IH Hhd]; [constructor|]. apply Forall_cons in Ha as [Hw Ha]. constructor; [by apply IH|]. apply Forall_map. eapply Forall_impl; [exact Hhd|].
    cbn beta. intros. pose proof (area_pages_bound w Hw). lia.
  - apply Forall_forall. intros w Hw. rewrite Forall_forall in Ha. pose proof (area_pages_bound w (Ha w Hw)). specialize (Hx w v Hw ltac:(by left)). cbn beta in Hx. lia.
Qed.

Lemma bare_starts vs : map Vma.start (bare <$> vs) = map Vma.start vs.
Proof. induction vs as [|v vs IH]; [done|]. cbn [fmap list_fmap map]. by rewrite IH. Qed.

(** What the file format can hold of an area, and pages that can be mapped. *)
Definition area_saved m root contents v : Prop :=
  zlen (area_data contents v) < 2 ^ 32 /\
  forall k bs, 0 <= k < area_pages v -> contents (Vma.start v + k * 4096) = Some bs -> zlen bs = 4096 /\ unused m root (Vma.start v + k * 4096).

Definition mach c f : State := (c, Some f).

Lemma pages_bytes_len contents start i n : (forall k bs, i <= k < i + Z.of_nat n -> contents (start + k * 4096) = Some bs -> zlen bs = 4096) ->
  zlen (pages_bytes contents start i n) <= Z.of_nat n * 4097.
Proof.
  revert i. induction n as [|n IH]; intros i Hc; [done|]. rewrite pages_bytes_S, zlen_app. pose proof (IH (i + 1) ltac:(intros k bs Hk; apply Hc; lia)).
  assert (zlen (page_bytes (contents (start + i * 4096))) <= 4097); [|lia]. destruct (contents (start + i * 4096)) as [bs|] eqn:Hb; [|done]. unfold page_bytes. rewrite zlen_cons, (Hc i bs ltac:(lia) Hb). lia.
Qed.

Lemma area_data_len contents v : area_ok v -> (forall k bs, 0 <= k < area_pages v -> contents (Vma.start v + k * 4096) = Some bs -> zlen bs = 4096) ->
  zlen (area_data contents v) <= area_pages v * 4097.
Proof.
  intros Hv Hc. pose proof (area_pages_bound v Hv). pose proof (pages_bytes_len contents (Vma.start v) 0 (Z.to_nat (area_pages v))) as Hl. rewrite Z2Nat.id in Hl by lia. apply Hl. intros k bs Hk. apply Hc. lia.
Qed.

(** The first area. *)
Lemma restore_area n v contents data off rest root p c f R K T :
  mapper_ok c f (mapper_at root) R K T -> area_ok v -> area_saved (mem c) root contents v -> rest_at data off (area_bytes contents v ++ rest) ->
  exists off1 r m' f' K' T', mapper_ok (with_mem m' c) f' (mapper_at root) R K' T' /\ extends root (mem c) K (in_pages (Vma.start v) 0 (area_pages v)) m' K' /\
    (R ⊆ K ∪ T -> R ⊆ K' ∪ T') /\ (r = Ok tt /\ areas_hold m' root K' contents [v] \/ R ⊆ K' ∪ T') /\ (r = Ok tt \/ r = Err tt) /\ rest_at data off1 rest /\
    let p1 := set_proc (on_image (fun i => Process.with_vmas (Vma.add_region (bare v) (Process.vmas i)) i)) p in
    restore_vmas (S n) root data (off, (p, mach c f)) =
      match r with Ok _ => restore_vmas n root data (off1, (p1, mach (with_mem m' c) f')) | _ => (Err tt, (off1, (p1, mach (with_mem m' c) f'))) end.
Proof.
  intros Hok Hv [Hlen Hc] Hr. pose proof (area_pages_bound v Hv) as [Hn He]. destruct Hv as [V1 V2 V3] eqn:EV. cbn [restore_vmas]. unfold area_bytes in Hr. rewrite <-!app_assoc in Hr.
  unfold read_u32, read_u64. rd_step Hr; [unfold fits; lia|]. rd_step Hr; [unfold fits; lia|]. rd_step Hr. pose proof (zlen_nonneg (area_data contents v)). rd_step Hr; [unfold fits; lia|]. rd_step Hr; [done| |].
  { intros [Hnil _]%app_nil. unfold area_data in Hnil. replace (Z.to_nat (area_pages v)) with (S (Z.to_nat (area_pages v - 1))) in Hnil by lia. rewrite pages_bytes_S in Hnil. apply app_nil in Hnil as [Hnil _].
    pose proof (page_bytes_pos (contents (Vma.start v + 0 * 4096))) as Hpos. by rewrite Hnil in Hpos. }
  rewrite flags_round. pose proof (restore_pages_ok (Z.to_nat (area_pages v)) 0 (Vma.start v) (Vma.flags v) root contents (area_data contents v) 0 c f R K T) as Hp. rewrite Z2Nat.id in Hp by lia.
  destruct Hp as (r & m' & f' & K' & T' & Hrun & Hrr & Hok' & Hex & Hmono & Hcase); [done|lia|lia|lia|split; [lia|]; split; [lia|done]|intros k bs Hk; apply Hc; lia|].
  exists (off + Z.of_nat 8 + Z.of_nat 8 + 1 + Z.of_nat 4 + zlen (area_data contents v)), r, m', f', K', T'. split; [done|]. split; [done|]. split; [done|]. split; [|split; [done|split; [done|]]].
  { destruct Hcase as [[Hr0 Hg]|]; [left|by right]. split; [done|]. intros w k bs ->%list_elem_of_singleton Hk Hkb. by apply Hg. }
  cbn zeta. unfold new_va, new_vma, Vma.new, mbind, M_bind, res_bind, lift. rewrite va_new_low by lia. cbn [Vma.or_panic]. unfold usub. destruct (Z.ltb_spec (Vma.end_ v) (Vma.start v)); [lia|].
  rewrite va_add_low by lia. cbn [Vma.or_panic]. replace (Vma.start v + (Vma.end_ v - Vma.start v)) with (Vma.end_ v) by lia. fold (bare v). unfold mret, M_ret, on_proc. cbn [fst snd].
  rewrite page_count_ok by done. unfold on_machine. cbn [fst snd]. unfold mach in *. change State with (Machine * option BuddyAllocator)%type. rewrite Hrun. by destruct Hrr as [->| ->].
Qed.

Lemma extends_areas root m K v vs m1 K1 m2 K2 :
  extends root m K (in_pages (Vma.start v) 0 (area_pages v)) m1 K1 -> extends root m1 K1 (in_areas vs) m2 K2 -> extends root m K (in_areas (v :: vs)) m2 K2.
Proof.
  intros H1 H2. eapply space_trans; eapply space_mono; [|exact H1| |exact H2].
  - intros w Hw. exists v. split; [by left|done].
  - intros w (x & Hx & Hw). exists x. split; [by right|done].
Qed.

Lemma in_areas_masked vs a a' : masked a = masked a' -> in_areas vs a -> in_areas vs a'.
Proof. intros Hw (v & Hv & Hin). exists v. split; [done|]. by eapply in_pages_masked. Qed.

(** A page of an area before [vs] is in none of them. *)
Lemma areas_not_in vs v k : areas_ok (v :: vs) -> 0 <= k < area_pages v -> ~ in_areas vs (Vma.start v + k * 4096).
Proof.
  intros Hok Hk (w & Hw & j & Hj & Hm). pose proof (areas_apart _ Hok) as Hs. apply StronglySorted_inv in Hs as [_ Hhd]. rewrite Forall_forall in Hhd. specialize (Hhd w Hw). cbn beta in Hhd.
  destruct Hok as [Ha _]. rewrite Forall_forall in Ha. pose proof (Ha v ltac:(by left)) as Hva. pose proof (Ha w ltac:(by right)) as Hwa.
  pose proof (area_pages_bound v Hva). pose proof (area_pages_bound w Hwa). destruct Hva as [V1 _ V3], Hwa as [W1 _ W3]. rewrite masked_page in Hm by lia. Z.div_mod_to_equations. lia.
Qed.

Lemma area_not_in vs v w k : areas_ok (v :: vs) -> w ∈ vs -> 0 <= k < area_pages w -> ~ in_pages (Vma.start v) 0 (area_pages v) (Vma.start w + k * 4096).
Proof.
  intros Hok Hw Hk (j & Hj & Hm). apply (areas_not_in vs v j Hok ltac:(lia)). exists w. split; [done|]. exists k. split; [lia|done].
Qed.

Lemma restore_vmas_ok done_ vs contents data off rest root p c f R K T :
  mapper_ok c f (mapper_at root) R K T -> areas_ok (done_ ++ vs) -> Process.vmas (Process.image (proc p)) = bare <$> done_ ->
  Forall (area_saved (mem c) root contents) vs -> rest_at data off (concat (area_bytes contents <$> vs) ++ rest) ->
  exists r off' p' m' f' K' T', restore_vmas (length vs) root data (off, (p, mach c f)) = (r, (off', (p', mach (with_mem m' c) f'))) /\ (r = Ok tt \/ r = Err tt) /\
    mapper_ok (with_mem m' c) f' (mapper_at root) R K' T' /\ extends root (mem c) K (in_areas vs) m' K' /\ (R ⊆ K ∪ T -> R ⊆ K' ∪ T') /\
    (r = Ok tt -> rest_at data off' rest /\ p' = with_areas (bare <$> done_ ++ vs) p) /\ (r = Ok tt /\ areas_hold m' root K' contents vs \/ R ⊆ K' ∪ T').
Proof.
  revert done_ off p c f K T. induction vs as [|v vs IH]; intros done_ off p c f K T Hok Hvs Hp Hsv Hr.
  { exists (Ok tt), off, p, (mem c), f, K, T. split; [by destruct c|]. split; [by left|]. split; [by destruct c|]. split; [apply space_refl|]. split; [done|]. split; [|left; split; [done|intros ? ? ? []%not_elem_of_nil]].
    intros _. split; [done|]. rewrite app_nil_r. destruct p as [? ? ? [? ? ? ? ? []]]. cbn in *. by subst. }
  apply Forall_cons in Hsv as [Hv Hsv]. cbn [fmap list_fmap concat] in Hr. rewrite <-app_assoc in Hr.
  assert (Hvs' : areas_ok ((done_ ++ [v]) ++ vs)) by (by rewrite <-app_assoc). destruct (areas_prefix _ _ Hvs') as [Hdone _]. destruct (areas_prefix _ _ Hvs) as [_ Htail].
  assert (Hva : area_ok v) by (destruct Htail as [Ha _]; by apply Forall_cons in Ha as [? _]).
  destruct (restore_area (length vs) v contents data off _ root p c f R K T Hok Hva Hv Hr) as (off1 & r1 & m1 & f1 & K1 & T1 & Hok1 & Hex1 & Hmono1 & Hcase1 & Hr1 & Hrest & Hrun).
  cbn zeta in Hrun. cbn [length]. rewrite Hrun. set (p1 := set_proc _ p) in *.
  assert (Hp1 : Process.vmas (Process.image (proc p1)) = bare <$> done_ ++ [v]).
  { unfold p1. cbn. rewrite Hp. destruct (areas_starts _ _ Hdone) as [Hs Hlt]. rewrite add_region_last; [by rewrite fmap_app|by rewrite bare_starts|by apply Forall_fmap]. }
  destruct Hr1 as [->| ->].
  2: { destruct Hcase1 as [[? _]|HR]; [done|]. exists (Err tt), off1, p1, m1, f1, K1, T1. split; [done|]. split; [by right|]. split; [done|]. split; [|split; [done|split; [done|by right]]].
       eapply extends_areas; [exact Hex1|apply space_refl]. }
  destruct (IH (done_ ++ [v]) off1 p1 (with_mem m1 c) f1 K1 T1 Hok1 Hvs' Hp1) as (r & off' & p' & m' & f' & K' & T' & Hrun' & Hrr & Hok' & Hex & Hmono & Hfin & Hcase); [|done|].
  { apply Forall_forall. intros w Hw. rewrite Forall_forall in Hsv. destruct (Hsv w Hw) as [Hl Hc]. split; [done|]. intros k bs Hk Hkb. destruct (Hc k bs Hk Hkb) as [Hb Hu]. split; [done|].
    rewrite with_mem_mem. apply (ex_unused _ _ _ _ _ _ Hex1); [|done]. by eapply area_not_in. }
  rewrite with_mem_mem, with_mem_twice in *. exists r, off', p', m', f', K', T'. split; [done|]. split; [done|]. split; [done|]. split; [by eapply extends_areas|]. split; [auto|]. split.
  - intros Hr0. destruct (Hfin Hr0) as [H1 H2]. split; [done|]. rewrite H2, <-app_assoc. done.
  - destruct Hcase as [[Hr0 Hg]|]; [|by right]. destruct Hcase1 as [[_ Hh]|HR]; [left|right; by apply Hmono]. split; [done|].
    intros w k bs [->|Hw]%elem_of_cons Hk Hkb; [|by apply Hg]. eapply page_holds_extends; [exact Hex|by apply areas_not_in|apply in_areas_masked|]. apply Hh; [by left|done..].
Qed.

(** *** The rest of the process *)

Record values_ok p : Prop := {
  vo_regs : Forall (fits 64) (cpu_regs (cpu_state p));
  vo_pid : fits 64 (Process.pid (proc p));
  vo_abi : Process.abi (proc p) <> Process.RedoxElf;
  vo_priority : fits 8 (Process.priority (proc p));
  vo_brk : fits 64 (Process.brk (Process.image (proc p))) /\ fits 64 (Process.mmap_bump (Process.image (proc p)));
  vo_entry : 0 <= Process.entry_point (Process.image (proc p)) < 2 ^ 47 /\ 0 <= Process.stack_top (Process.image (proc p)) < 2 ^ 47;
  vo_areas : zlen (Process.vmas (Process.image (proc p))) < 2 ^ 32;
  vo_fds : forall i d, FdTable.get i (Process.fds (proc p)) = Some d -> desc_ok d
}.

Lemma read_regs_ok {A} vs data off rest ps (k : list Z -> M RState unit A) : rest_at data off (concat (le_bytes 8 <$> vs) ++ rest) -> Forall (fits 64) vs ->
  exists off', (read_regs (length vs) data ≫= k) (off, ps) = k vs (off', ps) /\ rest_at data off' rest.
Proof.
  intros Hr Hv. revert off k Hr. induction Hv as [|v vs Hv Hvs IH]; intros off k Hr; cbn [read_regs length fmap list_fmap concat] in *; [by exists off|].
  rewrite <-app_assoc in Hr. destruct (rd_word 8 data off v _ ps (fun r => rs ← read_regs (length vs) data; mret (r :: rs)) Hr ltac:(lia) Hv) as [E Hr'].
  destruct (IH _ (fun rs => k (v :: rs)) Hr') as (off' & E' & Hr''). exists off'. split; [|done]. rewrite <-E'. unfold mbind at 1, M_bind at 1. unfold read_u64. rewrite E.
  unfold mbind, M_bind, mret, M_ret. by destruct (read_regs (length vs) data _) as [[] ?].
Qed.

Definition with_meta (q : Process.Process) p : SnapProc :=
  let i := Process.image q in
  set_proc (fun x => on_image (with_stack (Process.stack_top i)) (on_image (with_entry (Process.entry_point i)) (on_image (with_mmap_bump (Process.mmap_bump i))
    (on_image (with_brk (Process.brk i)) (put_priority (Process.priority q) (set_abi (Process.abi q) x)))))) p.

Lemma on_proc_step {A} g off p (s : State) (k : unit -> M RState unit A) : (on_proc g ≫= k) (off, (p, s)) = k tt (off, (g p, s)).
Proof. done. Qed.

Lemma new_va_step {A} a (s : RState) (k : Z -> M RState unit A) : 0 <= a < 2 ^ 47 -> (new_va a ≫= k) s = k a s.
Proof. intros Ha. unfold new_va, mbind, M_bind, lift. by rewrite va_new_low. Qed.

Lemma restore_metadata_ok p p0 data off rest (s : State) : values_ok p -> rest_at data off (meta_bytes (proc p) ++ rest) ->
  exists off', restore_metadata data (off, (p0, s)) = (Ok tt, (off', (with_meta (proc p) p0, s))) /\ rest_at data off' rest.
Proof.
  intros [V1 V2 V3 V4 [V5 V6] [V7 V8] V9 V10] Hr. unfold meta_bytes in Hr. cbn zeta in Hr. rewrite <-!app_assoc in Hr. unfold restore_metadata, read_u64.
  rd_step Hr; [done|]. rd_step Hr; [destruct (Process.abi _); done|]. rewrite abi_round by done. unfold mbind at 1, M_bind at 1, mret, M_ret. rewrite on_proc_step.
  rd_step Hr; [unfold fits in *; lia|]. rewrite on_proc_step, wrap_small by done. rd_step Hr; [done|]. rewrite on_proc_step. rd_step Hr; [done|]. rewrite on_proc_step.
  rd_step Hr; [unfold fits; lia|]. rewrite new_va_step, on_proc_step by done. rd_step Hr; [unfold fits; lia|]. rewrite new_va_step by done. eexists. split; [done|]. exact Hr.
Qed.

Definition with_cwd p p0 : SnapProc := set_cwd (upd 0 (sub 0 (cwd_len p) (cwd p)) (cwd p0)) (cwd_len p) p0.

Lemma restore_cwd_ok p p0 data off rest (s : State) : snap_ok p -> zlen (cwd p0) = 128 ->
  rest_at data off (le_bytes 4 (cwd_len p) ++ sub 0 (cwd_len p) (cwd p) ++ rest) -> rest <> [] ->
  exists off', restore_cwd data (off, (p0, s)) = (Ok tt, (off', (with_cwd p p0, s))) /\ rest_at data off' rest.
Proof.
  intros [[C1 C2] _ _] H0 Hr Hne. unfold restore_cwd, read_u32. rd_step Hr; [unfold fits; lia|]. destruct (Z.ltb_spec 128 (cwd_len p)); [lia|].
  assert (Hz : zlen (sub 0 (cwd_len p) (cwd p)) = cwd_len p) by (rewrite zlen_sub; lia). rd_step Hr; [done|intros [_ ?]%app_nil; done|].
  unfold mbind, M_bind, get_proc, lift, on_proc. cbn [fst snd]. rewrite splice_ok by lia. eexists. split; [done|]. exact Hr.
Qed.

(** The process a restore of [p] makes of [p0], with the table [t]. *)
Definition restored p p0 t : SnapProc :=
  with_fds t (with_areas (bare <$> Process.vmas (Process.image (proc p))) (with_cwd p (with_meta (proc p) (set_cpu (cpu_state p) p0)))).

(** After the registers. *)
Definition restore_tail (data : list Z) : M RState unit unit :=
  _ ← restore_metadata data;
  _ ← restore_cwd data;
  vma_count ← rd (read_word 4 data);
  _ ← on_proc (set_proc (on_image clear_areas));
  p ← get_proc;
  root ← (match Process.page_table_frame (Process.image (proc p)) with Some root => mret root | None => throw tt end);
  _ ← restore_vmas (Z.to_nat vma_count) root data;
  fd_count ← rd (read_word 4 data);
  _ ← on_proc (set_proc (set_fds FdTable.new));
  restore_fds (Z.to_nat fd_count) data.

Lemma bind_Ok {S E A B} (m : M S E A) (k : A -> M S E B) s a s' : m s = (Ok a, s') -> (m ≫= k) s = k a s'.
Proof. intros Hm. unfold mbind, M_bind. by rewrite Hm. Qed.

Lemma open_fds_len t : zlen (open_fds t (seq 0 8)) <= 8.
Proof.
  assert (Hl : forall l, (length (open_fds t l) <= length l)%nat); [|pose proof (Hl (seq 0 8)); unfold zlen; simpl in *; lia].
  induction l as [|i l IH]; [done|]. cbn [open_fds omap list_omap length]. fold (open_fds t l). destruct (FdTable.get i t); cbn [mbind option_bind length]; lia.
Qed.

Lemma restore_tail_ok p p1 contents root data off c f R K T :
  let vs := Process.vmas (Process.image (proc p)) in
  let t := Process.fds (proc p) in
  snap_ok p -> values_ok p -> areas_ok vs -> Forall (area_saved (mem c) root contents) vs ->
  rest_at data off (meta_bytes (proc p) ++ le_bytes 4 (cwd_len p) ++ sub 0 (cwd_len p) (cwd p) ++ le_bytes 4 (zlen vs) ++ concat (area_bytes contents <$> vs) ++
    le_bytes 4 (zlen (open_fds t (seq 0 8))) ++ concat (desc_bytes t <$> open_fds t (seq 0 8))) ->
  zlen (cwd p1) = 128 -> Process.page_table_frame (Process.image (proc p1)) = Some root -> mapper_ok c f (mapper_at root) R K T ->
  exists r p' off' m' f' K' T', restore_tail data (off, (p1, mach c f)) = (r, (off', (p', mach (with_mem m' c) f'))) /\ (r = Ok tt \/ r = Err tt) /\
    mapper_ok (with_mem m' c) f' (mapper_at root) R K' T' /\ extends root (mem c) K (in_areas vs) m' K' /\
    (r = Ok tt -> exists t', p' = with_fds t' (with_areas (bare <$> vs) (with_cwd p (with_meta (proc p) p1))) /\ fds_so_far t (seq 0 8) t') /\
    (r = Ok tt /\ areas_hold m' root K' contents vs \/ R ⊆ K' ∪ T').
Proof.
  intros vs t Hs Hv Hvs Hsv Hr H0 Hroot Hok. pose proof Hv as [_ _ _ _ _ _ V9 V10]. fold vs t in V9, V10. unfold restore_tail.
  destruct (restore_metadata_ok p p1 data off _ (mach c f) Hv Hr) as (off2 & E2 & Hr2). rewrite (bind_Ok _ _ _ _ _ E2).
  destruct (restore_cwd_ok p (with_meta (proc p) p1) data off2 _ (mach c f) Hs H0 Hr2) as (off3 & E3 & Hr3); [done|]. rewrite (bind_Ok _ _ _ _ _ E3).
  set (p2 := with_cwd p (with_meta (proc p) p1)). rd_step Hr3; [unfold fits; pose proof (zlen_nonneg vs); lia|]. rewrite on_proc_step.
  assert (E4 : set_proc (on_image clear_areas) p2 = with_areas [] p2).
  { unfold set_proc, with_areas, on_image, set_proc, clear_areas. do 2 f_equal. cbn. by rewrite Hroot. }
  rewrite E4. unfold mbind at 1, M_bind at 1, get_proc. cbn [fst snd]. change (Process.page_table_frame (Process.image (proc (with_areas [] p2)))) with (Process.page_table_frame (Process.image (proc p1))).
  rewrite Hroot. unfold mbind at 1, M_bind at 1, mret, M_ret. replace (Z.to_nat (zlen vs)) with (length vs) by (unfold zlen; lia).
  destruct (restore_vmas_ok [] vs contents data _ _ root (with_areas [] p2) c f R K T Hok Hvs eq_refl Hsv Hr3) as (r & off4 & p' & m' & f' & K' & T' & E5 & Hrr & Hok' & Hex & _ & Hp & Hcase).
  rewrite app_nil_l in Hp. destruct Hrr as [->| ->]; [|exists (Err tt), p', off4, m', f', K', T'; unfold mbind at 1, M_bind at 1; rewrite E5; split_and!; [done|by right|done..|]; by destruct Hcase as [[? _]|]; [|right]].
  rewrite (bind_Ok _ _ _ _ _ E5). destruct (Hp eq_refl) as [Hr4 ->]. pose proof (open_fds_len t). rd_step Hr4; [unfold fits; pose proof (zlen_nonneg (open_fds t (seq 0 8))); lia|].
  rewrite on_proc_step. replace (Z.to_nat (zlen (open_fds t (seq 0 8)))) with (length (open_fds t (seq 0 8))) by (unfold zlen; lia).
  destruct (restore_fds_ok [] (seq 0 8) t data (off4 + Z.of_nat 4) (mach (with_mem m' c) f') (with_areas (bare <$> vs) p2) FdTable.new) as (off5 & t' & E6 & Ht'); [by destruct Hs|by repeat constructor; lia|by intros; eapply V10| |done|].
  { split; [|split; [done|by repeat constructor]]. intros j. unfold fd_restored. destruct (FdTable.get j FdTable.new); [|done]. destruct (FdTable.get j t); [|done]. by rewrite decide_False by apply not_elem_of_nil. }
  exists (Ok tt), (with_fds t' (with_areas (bare <$> vs) p2)), off5, m', f', K', T'. split; [exact E6|]. split; [by left|]. split; [done|]. split; [done|]. split; [|done]. intros _. by exists t'.
Qed.

Lemma restore_ok p p0 contents root c f R K T :
  let vs := Process.vmas (Process.image (proc p)) in
  snap_ok p -> values_ok p -> areas_ok vs -> Forall (area_saved (mem c) root contents) vs -> zlen (encode p contents) < 2 ^ 63 ->
  zlen (cwd p0) = 128 -> Process.page_table_frame (Process.image (proc p0)) = Some root -> mapper_ok c f (mapper_at root) R K T ->
  exists b p' m' f' K' T', restore (encode p contents) p0 (mach c f) = (Ok b, (p', mach (with_mem m' c) f')) /\
    mapper_ok (with_mem m' c) f' (mapper_at root) R K' T' /\ extends root (mem c) K (in_areas vs) m' K' /\
    (b = true -> exists t, p' = restored p p0 t /\ fds_so_far (Process.fds (proc p)) (seq 0 8) t) /\ (b = true /\ areas_hold m' root K' contents vs \/ R ⊆ K' ∪ T').
Proof.
  intros vs Hs Hv Hvs Hsv Hlen H0 Hroot Hok. set (data := encode p contents) in *.
  assert (Hr : rest_at data 0 data) by (split; [done|]; split; [done|]; by rewrite drop_0). unfold data at 2, encode in Hr. cbn zeta in Hr. fold vs in Hr. rewrite header_eq, <-!app_assoc in Hr.
  unfold restore, restore_inner. rd_step Hr; [done|done|]. rewrite bool_decide_eq_true_2 by done. cbn [negb]. unfold read_u32. rd_step Hr; [done|]. change (SNAP_VERSION =? SNAP_VERSION) with true. cbn [negb].
  pose proof Hv as [V1 _ _ _ _ _ V9 V10].
  destruct (read_regs_ok (cpu_regs (cpu_state p)) data _ _ (p0, mach c f) (fun regs => _ ← on_proc (set_cpu (cpu_of regs)); restore_tail data) Hr V1) as (off1 & E1 & Hr1). fold (restore_tail data). change 20%nat with (length (cpu_regs (cpu_state p))). rewrite E1.
  rewrite on_proc_step, cpu_round. set (p1 := set_cpu _ p0). destruct (restore_tail_ok p p1 contents root data off1 c f R K T Hs Hv Hvs Hsv Hr1 H0 Hroot Hok) as (r & p' & off' & m' & f' & K' & T' & -> & Hrr & Hok' & Hex & Hp' & Hcase).
  exists (match r with Ok _ => true | _ => false end), p', m', f', K', T'. split; [by destruct Hrr as [->| ->]|]. split; [done|]. split; [done|]. destruct Hrr as [->| ->].
  - split; [intros _; by apply Hp'|]. destruct Hcase as [[_ ?]|]; [by left|by right].
  - split; [done|]. destruct Hcase as [[? _]|]; [done|by right].
Qed.


(** What a restore leaves to the process it restores into. *)
Definition kept_of (q : Process.Process) :=
  (Process.state q, Process.capabilities q, Process.signals q, Process.parent q, Process.exit_code q, Process.join_waiters q,
   (Process.vruntime q, Process.fs_base q, Process.gs_base q, Process.timed_out q),
   (Process.page_table_frame (Process.image q), Process.binary_data (Process.image q), Process.argv (Process.image q), Process.envp (Process.image q))).

(** [p'] is [p], restored into [p0]. *)
Record same_process p p0 p' : Prop := {
  sp_cpu : cpu_state p' = cpu_state p;
  sp_cwd : cwd_len p' = cwd_len p /\ sub 0 (cwd_len p') (cwd p') = sub 0 (cwd_len p) (cwd p);
  sp_pid : Process.pid (proc p') = Process.pid (proc p0);
  sp_kind : Process.abi (proc p') = Process.abi (proc p) /\ Process.priority (proc p') = Process.priority (proc p);
  sp_brk : Process.brk (Process.image (proc p')) = Process.brk (Process.image (proc p)) /\
    Process.mmap_bump (Process.image (proc p')) = Process.mmap_bump (Process.image (proc p));
  sp_entry : Process.entry_point (Process.image (proc p')) = Process.entry_point (Process.image (proc p)) /\
    Process.stack_top (Process.image (proc p')) = Process.stack_top (Process.image (proc p));
  sp_areas : Process.vmas (Process.image (proc p')) = bare <$> Process.vmas (Process.image (proc p));
  sp_fds j : FdTable.get j (Process.fds (proc p')) = fd_restored (Process.fds (proc p)) (seq 0 8) j;
  sp_kept : kept_of (proc p') = kept_of (proc p0)
}.

Lemma restored_same p p0 t : snap_ok p -> zlen (cwd p0) = 128 -> fds_so_far (Process.fds (proc p)) (seq 0 8) t -> same_process p p0 (restored p p0 t).
Proof.
  intros [[C1 C2] _ _] H0 [Hf _]. split; try done. split; [done|]. change (cwd (restored p p0 t)) with (upd 0 (sub 0 (cwd_len p) (cwd p)) (cwd p0)). change (cwd_len (restored p p0 t)) with (cwd_len p).
  assert (Hz : zlen (sub 0 (cwd_len p) (cwd p)) = cwd_len p) by (rewrite zlen_sub; lia). rewrite <-Hz at 1. by rewrite sub_upd_same by lia.
Qed.

(** C19. Saving a process and restoring it, on the same or another machine.
    Let the process have well-formed areas in user space, values that fit
    their fields, a descriptor table that is well formed and an ABI other than
    Redox, and let its page tables be sound.  Then [snapshot] succeeds and
    changes nothing.  Restoring the bytes into a process with tables of its own
    in which the pages of the areas are unused does not panic.  If it reports
    success, registers, working directory, ABI, priority, break, entry point and
    stack are those of the saved process, the areas have their ranges and
    permissions, of the descriptors only the standard ones are back, with
    their flags and offsets, and all others are closed; the rest of the process
    restored into, its pid, state, capabilities, signals, parent, segment bases,
    arguments and tables among it, is what it was.  It reports success and every
    page that was mapped is mapped again with the permissions of its area and
    the same 4096 bytes, unless the allocator has run out of frames.  No page
    outside the areas and no frame held before changes. *)
Theorem snapshot_restores p p0 c f R U G c0 f0 R0 K0 T0 root0 :
  let i := Process.image (proc p) in
  let root := own_root c (Process.page_table_frame i) in
  snap_ok p -> values_ok p -> areas_ok (Process.vmas i) -> Forall (fun v => area_pages v * 4097 < 2 ^ 32) (Process.vmas i) ->
  tables (mem c) f R U G -> G !! root = Some 3%nat ->
  (forall v k, v ∈ Process.vmas i -> 0 <= k < area_pages v -> backed (mem c) root (Vma.start v + k * 4096)) ->
  zlen (cwd p0) = 128 -> Process.page_table_frame (Process.image (proc p0)) = Some root0 -> mapper_ok c0 f0 (mapper_at root0) R0 K0 T0 ->
  (forall v k, v ∈ Process.vmas i -> 0 <= k < area_pages v -> unused (mem c0) root0 (Vma.start v + k * 4096)) ->
  exists data, snapshot p (c, Some f) = (Ok data, (c, Some f)) /\
    (zlen data < 2 ^ 63 ->
     exists b p' m' f' K' T', restore data p0 (mach c0 f0) = (Ok b, (p', mach (with_mem m' c0) f')) /\
       mapper_ok (with_mem m' c0) f' (mapper_at root0) R0 K' T' /\ extends root0 (mem c0) K0 (in_areas (Process.vmas i)) m' K' /\
       (b = true -> same_process p p0 p') /\
       (b = true /\ areas_hold m' root0 K' (contents_of (mem c) root) (Process.vmas i) \/ R0 ⊆ K' ∪ T')).
Proof.
  intros i root Hs Hv Hvs Hsize Ht Hroot Hb H0 Hr0 Hok Hun. exists (encode p (contents_of (mem c) root)). split; [by eapply snapshot_ok|]. intros Hlen.
  destruct (restore_ok p p0 (contents_of (mem c) root) root0 c0 f0 R0 K0 T0 Hs Hv Hvs) as (b & p' & m' & f' & K' & T' & Hrun & Hok' & Hex & Hp & Hcase); [|done..|].
  - apply Forall_forall. intros v Hin. rewrite Forall_forall in Hsize. destruct Hvs as [Ha _]. rewrite Forall_forall in Ha. split.
    + eapply Z.le_lt_trans; [apply area_data_len|by apply Hsize]; [by apply Ha|]. intros k bs Hk. by apply contents_len, Hb.
    + intros k bs Hk Hkb. split; [|by apply Hun]. eapply contents_len; [|done]. by apply Hb.
  - exists b, p', m', f', K', T'. split; [done|]. split; [done|]. split; [done|]. split; [|done]. intros Hbt. destruct (Hp Hbt) as (t & -> & Hft). by apply restored_same.
Qed.

End whole.

(** ** The restore at boot *)

Section boot.
#[local] Existing Instance X8664Arch.
Context {X : X86} {VA : VirtAddrOps} {BS : BinarySearch} {CD : Compress.Codec} {XF W : Type} {fx : Files.File XF} {out : Vfs.Outside W XF}.
Context (detect : list Z -> option (Process.AbiKind * Scheduler.loader)) (first_ctx : Process.Process -> Ctx).

Definition frame_of (q : Process.Process) : option Z := Process.page_table_frame (Process.image q).

Definition frame_at (s : RState) : option Z := frame_of (proc (fst (snd s))).

Definition same_table (s s' : RState) : Prop := frame_at s' = frame_at s.

#[local] Instance same_table_pre : PreOrder same_table.
Proof. split; [done|]. intros s1 s2 s3 H1 H2. unfold same_table in *. congruence. Qed.

Lemma keeps_rd {A} (g : Z -> res unit (A * Z)) : keeps same_table (rd g).
Proof. intros s. unfold rd. by destruct (g (fst s)) as [[]| | |]. Qed.

Lemma keeps_on_proc g : (forall p, frame_of (proc (g p)) = frame_of (proc p)) -> keeps same_table (on_proc g).
Proof. intros Hg s. unfold same_table, frame_at, on_proc. cbn [fst snd]. apply Hg. Qed.

Lemma keeps_get_proc : keeps same_table get_proc.
Proof. by intros s. Qed.

Lemma keeps_read_regs n data : keeps same_table (read_regs n data).
Proof. induction n as [|n IH]; cbn [read_regs]; eauto using keeps_bind, keeps_rd, keeps_ret with typeclass_instances. Qed.

Lemma keeps_metadata data : keeps same_table (restore_metadata data).
Proof.
  unfold restore_metadata. repeat (apply keeps_bind; [apply _| |intros ?]); try apply keeps_rd; try by apply keeps_on_proc.
  - destruct (abi_of _); [by apply keeps_ret, _|by apply keeps_throw, _].
  - by apply keeps_lift, _.
  - by apply keeps_lift, _.
Qed.

Lemma keeps_cwd data : keeps same_table (restore_cwd data).
Proof.
  unfold restore_cwd. apply keeps_bind; [apply _|apply keeps_rd|intros n]. destruct (128 <? n); [by apply keeps_throw, _|].
  repeat (apply keeps_bind; [apply _| |intros ?]); [apply keeps_rd|apply keeps_get_proc|by apply keeps_lift, _|by apply keeps_on_proc].
Qed.

(** A step that keeps the table, before code that does not succeed without one. *)
Lemma fails_bind {A} (m : M RState unit A) (k : A -> M RState unit unit) s :
  keeps same_table m -> (forall a s', frame_at s' = None -> fst (k a s') <> Ok tt) -> frame_at s = None -> fst ((m ≫= k) s) <> Ok tt.
Proof.
  intros Hm Hk Hs. unfold mbind, M_bind. pose proof (Hm s) as Hm'. unfold same_table in Hm'. destruct (m s) as [[a| | |] s']; try done. apply Hk. cbn [snd] in Hm'. congruence.
Qed.

Lemma no_table_fails data s : frame_at s = None -> fst (restore_inner data s) <> Ok tt.
Proof.
  unfold restore_inner. apply fails_bind; [apply keeps_rd|]. intros magic s1. destruct (negb _); [done|]. apply fails_bind; [apply keeps_rd|]. intros version s2. destruct (negb _); [done|].
  apply fails_bind; [apply keeps_read_regs|]. intros regs s3. apply fails_bind; [by apply keeps_on_proc|]. intros _ s4. apply fails_bind; [apply keeps_metadata|]. intros _ s5.
  apply fails_bind; [apply keeps_cwd|]. intros _ s6. apply fails_bind; [apply keeps_rd|]. intros count s7. apply fails_bind.
  { apply keeps_on_proc. intros p. unfold frame_of, set_proc, on_image, clear_areas. cbn. by destruct (Process.page_table_frame (Process.image (proc p))) eqn:Hf; cbn; rewrite ?Hf. }
  intros _ s8 Hs. unfold mbind, M_bind, get_proc. unfold frame_at, frame_of in Hs. cbn [fst snd]. by rewrite Hs.
Qed.

Lemma load_without_table pid p (s : @MState XF W) : frame_of (proc p) = None ->
  forall r s', load pid p s = (r, s') -> forall p', r <> Ok (true, p').
Proof.
  intros Hp r s'. unfold load, mbind, M_bind. destruct (vfs_call _ s) as [[[compressed|]| | |] s1]; [|unfold mret, M_ret; intros [= <- <-]; done|intros [= <- <-]; done..].
  destruct (Compress.decompress _ _) as [data|]; [|unfold mret, M_ret; intros [= <- <-]; done]. unfold restore_into, restore.
  pose proof (no_table_fails data (0, (p, fst s1)) Hp) as Hf. destruct (restore_inner data _) as [[[]| | |] [off [p1 k]]]; cbn [fst snd] in *; [done|intros [= <- <-]; done..].
Qed.

(** A loader leaves the page table as it is. *)
Definition keeps_table : Prop :=
  forall binary a ld, detect binary = Some (a, ld) -> forall q, frame_of (snd (ld binary q)) = frame_of q.

Lemma spawned_without_table binary sc o sc' new_pid q :
  keeps_table -> Scheduler.spawn_elf detect binary None sc = Ok (o, sc') -> o = Some new_pid -> Scheduler.get_process new_pid sc' = Some q -> frame_of q = None.
Proof.
  intros Hk. unfold Scheduler.spawn_elf. destruct (detect binary) as [[a ld]|] eqn:Hd; [|by intros [= <- <-]]. unfold Scheduler.spawn_image.
  destruct (Scheduler.region _ _) as [v|]; [|done]. set (q0 := Scheduler.add_region_to _ _). pose proof (Hk binary a ld Hd q0) as Hq. destruct (ld binary q0) as [[] q1]; [|by intros [= <- <-]].
  intros [= <- <-] [= <-]. unfold Scheduler.get_process, Scheduler.enqueue, Scheduler.with_ready, Scheduler.with_tasks. cbn [Scheduler.tasks]. rewrite lookup_insert_eq. intros [= <-]. exact Hq.
Qed.

Lemma restore_each_none binary pids restored (s : @BState XF W) n s' :
  keeps_table -> restore_each detect first_ctx binary pids restored s = (Ok n, s') -> n = restored.
Proof.
  intros Hk. revert s. induction pids as [|snap pids IH]; intros s; cbn [restore_each]; [by intros [= <- <-]|].
  unfold mbind at 1, M_bind at 1, spawn_placeholder. destruct (Scheduler.spawn_elf _ _ _ _) as [[[new_pid|] sc]| | |] eqn:Hsp; [|by intros ?%IH|done..].
  set (s1 := mkBoot _ _ _). unfold mbind at 1, M_bind at 1.
  assert (Hl : forall r s2, load_into new_pid snap s1 = (r, s2) -> r <> Ok true).
  { intros r s2. unfold load_into. destruct (Scheduler.get_process new_pid (b_sched s1)) as [q|] eqn:Hg; [|by intros [= <- <-]]. destruct (b_ctx s1 !! new_pid) as [x|]; [|by intros [= <- <-]].
    pose proof (spawned_without_table _ _ _ _ _ _ Hk Hsp eq_refl Hg) as Hn. set (p0 := mkSnap _ _ _ q). pose proof (load_without_table snap p0 (b_machine s1) Hn) as Hne. destruct (load snap p0 (b_machine s1)) as [r0 k]. specialize (Hne _ _ eq_refl).
    destruct r0 as [[[] p']| | |]; [by destruct (Hne p')|by intros [= <- <-]..]. }
  destruct (load_into new_pid snap s1) as [[[]| | |] s2] eqn:Hli; [by destruct (Hl _ _ eq_refl)| |done..]. unfold mbind, M_bind, kill. apply IH.
Qed.

(** The restore at boot never restores a process.  Every process that is
    spawned for it has no page table of its own, since
    [create_process_page_table] never gives one, and [restore] fails without
    one: the count of restored processes is 0 whatever is stored. *)
Theorem boot_restores_nothing binary (s : @BState XF W) n s' :
  keeps_table -> restore_all_at_boot detect first_ctx binary s = (Ok n, s') -> n = 0.
Proof.
  intros Hk. unfold restore_all_at_boot, mbind, M_bind. destruct (on_manager _ s) as [[pids| | |] s1]; [|done..]. by apply restore_each_none.
Qed.

End boot.

(** ** Examples *)

Section example.
#[local] Existing Instance X8664Arch.
#[local] Existing Instance rmm_x86.
#[local] Existing Instance rmm_x86_ok.
#[local] Existing Instance rmm_spec.
#[local] Existing Instance Vma.demo_addr.
#[local] Existing Instance Vma.demo_search.
#[local] Existing Instance Vfs.demo_file.
#[local] Existing Instance Vfs.demo_outside.

(** A process with one page of memory and three standard descriptors. *)
Definition ex_snap (frame : option Z) (vs : list Vma.Vma) : SnapProc :=
  mkSnap (cpu_of (seqZ 1 20)) (47 :: zeros 127) 1
    (on_image (fun i => Process.with_frame frame (Process.with_vmas vs i)) (Process.new 7 Process.LinuxElf 0x1000 0x7000)).

Definition ex_area : Vma.Vma := Vma.mkVma 0 0x1000 (Vma.mkFlags true true false true false) false None 0 0 None.

#[local] Instance plain_codec : Compress.Codec := {|
  Compress.compress_prepend_size := fun d => le_bytes 4 (zlen d) ++ d;
  Compress.decompress_size_prepended := fun z => Some (drop 4 z);
  Compress.entropy_over_high := fun _ => false;
  Compress.entropy_over_low := fun _ => false;
  Compress.ratio_over := fun n len => 85 * len <? 100 * n
|}.

Definition ex_ctx (_ : Process.Process) : Ctx := mkCtx (cpu_of []) (47 :: zeros 127) 1.

Definition ex_detect (_ : list Z) : option (Process.AbiKind * Scheduler.loader) := Some (Process.LinuxElf, fun _ q => (true, q)).

(** The file tree with a snapshot of [ex_snap]. *)
Definition ex_vfs : Vfs.Vfs Empty_set unit :=
  let '(h, v) := Vfs.alloc_file (Vfs.Ram (Files.from_bytes (Compress.compress_prepend_size (encode (ex_snap None []) (fun _ => None))))) (Vfs.init (Vfs.new tt)) in
  Vfs.mount "/fat/snapshots/7.snap" h v.

Definition ex_boot : BState := mkBoot Scheduler.boot ∅ ((mkMachine ∅ (0, 0), None), ex_vfs).

Lemma boot_restores_nothing_witness :
  fst (list_snapshots (b_machine ex_boot)) = Ok [7] /\
  exists n s', restore_all_at_boot ex_detect ex_ctx [] ex_boot = (Ok n, s') /\ n = 0.
Proof.
  split; [by vm_compute|]. destruct (restore_all_at_boot ex_detect ex_ctx [] ex_boot) as [r s'] eqn:Hrun. destruct r as [n| | |].
  - exists n, s'. split; [done|]. refine (boot_restores_nothing ex_detect ex_ctx [] ex_boot n s' _ Hrun). by intros binary a ld [= <- <-] q.
  - apply (f_equal fst) in Hrun. vm_compute in Hrun. discriminate.
  - apply (f_equal fst) in Hrun. vm_compute in Hrun. discriminate.
  - apply (f_equal fst) in Hrun. vm_compute in Hrun. discriminate.
Defined.

Lemma snapshot_restores_witness :
  exists c f c0 f0 root0 data, snapshot (ex_snap None [ex_area]) (c, Some f) = (Ok data, (c, Some f)) /\
    (zlen data < 2 ^ 63 -> exists b p' s', restore data (ex_snap (Some root0) []) (mach c0 f0) = (Ok b, (p', s')) /\
       (b = true -> rax (cpu_state p') = 15 /\ Process.vmas (Process.image (proc p')) = [ex_area])).
Proof.
  destruct ex_chain as (c & f & R & U & G & a & Ht & Hroot & Hu & Ha & _ & _).
  destruct example_boot as (c0 & f0 & R0 & Hr & Hsz).
  destruct (fresh_frame c0 f0 R0 ∅ Hr) as [(q & m1 & f1 & _ & HqR & _ & Hr1 & Hz & _)|[_ HRU%subseteq_size]]; [|rewrite size_empty in HRU; lia].
  destruct (tree_empty m1 top q) as [Hte Hxe]; [intros j Hj; by rewrite ent_zero, present_0|]. rewrite union_empty_r_L in Hr1.
  assert (Hok : mapper_ok (with_mem m1 c0) f1 (mapper_at q) R0 ∅ {[q]}) by (split; [by rewrite union_empty_l_L|exact Hte|apply disjoint_empty_l]).
  assert (Hpages : area_pages ex_area = 1) by done.
  destruct (snapshot_restores (ex_snap None [ex_area]) (ex_snap (Some q) []) c f R U G (with_mem m1 c0) f1 R0 ∅ {[q]} q) as (data & Hsnap & Hrest).
  - split; [done|by repeat constructor|]. split; try done; by repeat constructor.
  - split; try done; [by repeat constructor|].
    intros i d. do 3 (destruct i as [|i]; [intros [= <-]; done|]). by rewrite get_new by lia.
  - split; [|by repeat constructor]. apply Forall_cons. split; [by split|by apply Forall_nil_2].
  - by repeat constructor.
  - destruct Ht as [T1 T2 T3 T4]. split; [exact T1|exact T2|exact T3|exact T4].
  - exact Hroot.
  - intros v k ->%list_elem_of_singleton Hk. rewrite Hpages in Hk. replace k with 0 by lia. intros q' fl Hq'.
    pose proof (user_leaf_trans _ _ _ _ _ Hu) as Hu'. assert (Heq : Some (q', fl) = Some (a, 7)) by (rewrite <-Hq'; exact Hu'). injection Heq as -> _.
    destruct Ht as [T1 _ _ _]. exact (used_frame _ _ _ _ a T1 Ha).
  - done.
  - done.
  - exact Hok.
  - intros v k _ _. exact (Hxe _).
  - exists c, f, (with_mem m1 c0), f1, q, data. split; [exact Hsnap|]. intros Hlen. destruct (Hrest Hlen) as (b & p' & m' & f' & K' & T' & Hrun & _ & _ & Hp & _).
    exists b, p', (mach (with_mem m' (with_mem m1 c0)) f'). split; [exact Hrun|]. intros Hb. destruct (Hp Hb) as [H1 _ _ _ _ _ H7 _]. split; [by rewrite H1|exact H7].
Defined.

End example.

End SnapshotSpec.
