(* ===== verification/Kernel.v ===== *)
(** * The state system calls work on

    What the handlers of [src/abi/] share: the processes, the machine, the
    file tree, channels, timer, futexes, sockets, shared memory and the
    devices, which come as an interface.  [SyscallContext] is the one of
    [src/abi/syscall.rs]; its [process] is the entry of the caller in the
    process table, which the system-call entry reaches through a raw pointer.
    [get_vfs_handle] is the one of [src/process/mod.rs]. *)

From Stdlib Require Import Ascii.
From S2P Require Import Prelude Bytes Abi Capability Signal Vma FdTable Process Scheduler Ipc Sync Timer Path Files Vfs RmmArch RmmFrame Paging Compress UserCopy Snapshot Socket Shm.
Import RmmArch RmmFrame Paging Compress UserCopy.

Module Kernel.

(** ** Words and errors *)

(** [-e as u64] *)
Definition neg (e : Z) : Z := wrap 64 (- e).

Definition EPERM : Z := 1.
Definition ENOENT : Z := 2.
Definition ESRCH : Z := 3.
Definition EINTR : Z := 4.
Definition EIO : Z := 5.
Definition EBADF : Z := 9.
Definition EAGAIN : Z := 11.
Definition EFAULT : Z := 14.
Definition EINVAL : Z := 22.
Definition EMFILE : Z := 24.
Definition ENOSYS : Z := 38.

(** [s.contains(p)] *)
Fixpoint contains (p s : string) : bool :=
  String.prefix p s || match s with EmptyString => false | String _ s => contains p s end.

(** The names tested, in order. *)
Definition errno_names : list (string * Z) :=
  [("EPERM", 1); ("ENOENT", 2); ("ESRCH", 3); ("EINTR", 4); ("EIO", 5); ("ENXIO", 6); ("E2BIG", 7); ("ENOMEM", 12); ("EACCES", 13);
   ("EBADF", 9); ("EBUSY", 16); ("EEXIST", 17); ("EXDEV", 18); ("ENODEV", 19); ("ENOTDIR", 20); ("EISDIR", 21); ("EINVAL", 22);
   ("ENFILE", 23); ("EMFILE", 24); ("ENOTTY", 25); ("EFBIG", 27); ("ENOSPC", 28); ("ESPIPE", 29); ("EROFS", 30); ("EMLINK", 31);
   ("EPIPE", 32); ("ENOSYS", 38); ("EAGAIN", 11)]%string.

Definition abi_error_to_errno (e : AbiError) : Z :=
  match e with
  | Other s => from_option snd EPERM (List.find (fun x => contains (fst x) s) errno_names)
  | _ => ENOSYS
  end.

(** [core::str::from_utf8(bs).unwrap_or("")] *)
Definition utf8_or_empty (bs : list Z) : string := default EmptyString (Path.from_utf8 bs).

(** ** System calls *)

Record SyscallContext := mkContext { number : Z; args : list Z; caller : Z }.

Definition arg (i : nat) (ctx : SyscallContext) : Z := nth i (args ctx) 0.

(** A descriptor as an index; the table has eight entries, so that every
    larger number is as good as 8. *)
Definition fd_index (fd : Z) : nat := Z.to_nat (Z.min fd 8).

(** Drivers.  [read_stdin n] takes at most [n] bytes of input; a request to
    the display may access user memory. *)
Class Devices (D : Type) := {
  read_stdin : Z -> D -> list Z * D;
  port_read : Z -> Z -> D -> Z * D;
  port_write : Z -> Z -> Z -> D -> D;
  drm_ioctl : Z -> Z -> M (CState * D) string Z;
  net_notify : Z -> D -> D;
  net_ack : D -> D;
  net_receive : Z -> Z -> D -> option (option Z) * D;
  net_transmit : Z -> Z -> D -> option bool * D;
  gpu_channel : D -> option Z
}.

Section kernel.
Context {XF W K D : Type}.

Record KState := mkKState {
  mach : CState;
  sched : Scheduler.Sched;
  contexts : gmap Z Snapshot.Ctx;   (* registers and working directories *)
  caps : Capability.Globals;
  vfs : Vfs.Vfs XF W;
  ipc : Ipc.Sys;
  timer : Timer.Timer;
  futexes : Futex.Queues;
  net : Socket.Net (K := K);
  shm : Shm.ShmManager;
  irq_waiters : gmap Z Z;
  dev : D;
  serial : list Z;   (* sent to the serial line *)
  screen : list Z    (* printed by processes *)
}.

Definition with_mach x k := mkKState x (sched k) (contexts k) (caps k) (vfs k) (ipc k) (timer k) (futexes k) (net k) (shm k) (irq_waiters k) (dev k) (serial k) (screen k).
Definition with_sched x k := mkKState (mach k) x (contexts k) (caps k) (vfs k) (ipc k) (timer k) (futexes k) (net k) (shm k) (irq_waiters k) (dev k) (serial k) (screen k).
Definition with_contexts x k := mkKState (mach k) (sched k) x (caps k) (vfs k) (ipc k) (timer k) (futexes k) (net k) (shm k) (irq_waiters k) (dev k) (serial k) (screen k).
Definition with_caps x k := mkKState (mach k) (sched k) (contexts k) x (vfs k) (ipc k) (timer k) (futexes k) (net k) (shm k) (irq_waiters k) (dev k) (serial k) (screen k).
Definition with_vfs x k := mkKState (mach k) (sched k) (contexts k) (caps k) x (ipc k) (timer k) (futexes k) (net k) (shm k) (irq_waiters k) (dev k) (serial k) (screen k).
Definition with_ipc x k := mkKState (mach k) (sched k) (contexts k) (caps k) (vfs k) x (timer k) (futexes k) (net k) (shm k) (irq_waiters k) (dev k) (serial k) (screen k).
Definition with_timer x k := mkKState (mach k) (sched k) (contexts k) (caps k) (vfs k) (ipc k) x (futexes k) (net k) (shm k) (irq_waiters k) (dev k) (serial k) (screen k).
Definition with_futexes x k := mkKState (mach k) (sched k) (contexts k) (caps k) (vfs k) (ipc k) (timer k) x (net k) (shm k) (irq_waiters k) (dev k) (serial k) (screen k).
Definition with_net x k := mkKState (mach k) (sched k) (contexts k) (caps k) (vfs k) (ipc k) (timer k) (futexes k) x (shm k) (irq_waiters k) (dev k) (serial k) (screen k).
Definition with_shm x k := mkKState (mach k) (sched k) (contexts k) (caps k) (vfs k) (ipc k) (timer k) (futexes k) (net k) x (irq_waiters k) (dev k) (serial k) (screen k).
Definition with_irq x k := mkKState (mach k) (sched k) (contexts k) (caps k) (vfs k) (ipc k) (timer k) (futexes k) (net k) (shm k) x (dev k) (serial k) (screen k).
Definition with_dev x k := mkKState (mach k) (sched k) (contexts k) (caps k) (vfs k) (ipc k) (timer k) (futexes k) (net k) (shm k) (irq_waiters k) x (serial k) (screen k).
Definition print (bs : list Z) k := mkKState (mach k) (sched k) (contexts k) (caps k) (vfs k) (ipc k) (timer k) (futexes k) (net k) (shm k) (irq_waiters k) (dev k) (serial k) (screen k ++ bs).
Definition send_serial (bs : list Z) k := mkKState (mach k) (sched k) (contexts k) (caps k) (vfs k) (ipc k) (timer k) (futexes k) (net k) (shm k) (irq_waiters k) (dev k) (serial k ++ bs) (screen k).

Abbreviation SM := (M KState AbiError).

(** Work on one part of the state. *)
Definition on {T A} (part : KState -> T) (set : T -> KState -> KState) (m : M T AbiError A) : SM A := fun k =>
  let '(r, t) := m (part k) in (r, set t k).

(** The same with the error as a value. *)
Definition attempt {T E A} (part : KState -> T) (set : T -> KState -> KState) (m : M T E A) : SM (A + E) := fun k =>
  match m (part k) with
  | (Ok a, t) => (Ok (inl a), set t k)
  | (Err e, t) => (Ok (inr e), set t k)
  | (Panic, t) => (Panic, set t k)
  | (Fault, t) => (Fault, set t k)
  end.

(** A step that returns a value and cannot fail. *)
Definition step {T A} (part : KState -> T) (set : T -> KState -> KState) (f : T -> A * T) : SM A := fun k =>
  let '(a, t) := f (part k) in (Ok a, set t k).

Definition read_part {A} (f : KState -> A) : SM A := fun k => (Ok (f k), k).

(** [is_ok] and the like on a call that cannot change the state. *)
Definition peek {T E A} (part : KState -> T) (f : T -> res E A) : SM (A + E) := fun k =>
  match f (part k) with
  | Ok a => (Ok (inl a), k)
  | Err e => (Ok (inr e), k)
  | Panic => (Panic, k)
  | Fault => (Fault, k)
  end.

Definition err (e : Z) : SM Z := mret (neg e).

(** The machine and the frame allocator. *)
Definition pages (k : KState) : State := fst (mach k).
Definition with_pages (s : State) (k : KState) : KState := with_mach (s, snd (mach k)) k.

(** *** The caller *)

Section caller.
Context (ctx : SyscallContext).

Definition process : SM Process.Process := fun k =>
  match Scheduler.get_process (caller ctx) (sched k) with Some p => (Ok p, k) | None => (Fault, k) end.

Definition update_caller (f : Process.Process -> Process.Process) : SM unit :=
  modify (fun k => with_sched (Scheduler.update_process (caller ctx) f (sched k)) k).

Definition context : SM Snapshot.Ctx := fun k =>
  match contexts k !! caller ctx with Some x => (Ok x, k) | None => (Fault, k) end.

Definition update_context (f : Snapshot.Ctx -> Snapshot.Ctx) : SM unit :=
  modify (fun k => with_contexts (alter f (caller ctx) (contexts k)) k).

(** [ctx.process.capabilities.has_permission(..)] *)
Definition allowed (r : Capability.ResourceKind) (needs_write needs_exec : bool) : SM bool :=
  p ← process;
  mret (Capability.has_permission (Process.capabilities p) r needs_write needs_exec).

(** A call on the descriptor table. *)
Definition on_fds {A} (f : FdTable.Table -> A * FdTable.Table) : SM A :=
  p ← process;
  let '(a, t) := f (Process.fds p) in
  _ ← update_caller (Snapshot.set_fds t);
  mret a.

Definition get_fd (fd : Z) : SM (option FdTable.FileDesc) :=
  p ← process;
  mret (FdTable.get (fd_index fd) (Process.fds p)).

(** [if let Some(desc) = fds.get_mut(fd) { .. }] *)
Definition update_fd (fd : Z) (f : FdTable.FileDesc -> FdTable.FileDesc) : SM unit :=
  on_fds (fun t => (tt, FdTable.update_desc (fd_index fd) f t)).

(** [if let Some(desc) = fds.get_mut(fd) { desc.offset += n }] *)
Definition advance_fd (fd n : Z) : SM unit :=
  o ← get_fd fd;
  match o with
  | Some d =>
    off ← lift (uadd (FdTable.offset d) n);
    update_fd fd (fun d => FdTable.mkDesc (FdTable.target d) (FdTable.flags d) off)
  | None => mret tt
  end.

Definition path_of (fd : Z) : SM (option (list Z)) :=
  p ← process;
  lift (FdTable.path_of (fd_index fd) (Process.fds p)).

Definition set_mmap_bump (b : Z) : SM unit := update_caller (Snapshot.on_image (Snapshot.with_mmap_bump b)).

Definition on_vmas (f : list Vma.Vma -> list Vma.Vma) : SM unit :=
  update_caller (Snapshot.on_image (fun i => Process.with_vmas (f (Process.vmas i)) i)).

End caller.

(** *** User memory *)

Section copies.
#[local] Existing Instance X8664Arch.
Context `{X : X86} `{CD : Codec} `{VA : VirtAddrOps} (kernel_root : Z) (ctx : SyscallContext).

(** What the page-fault handler looks at. *)
Definition fault_proc (p : Process.Process) : FaultProc :=
  let i := Process.image p in mkFaultProc (Process.vmas i) (Process.binary_data i) (Process.page_table_frame i).

(** [UserSliceRo::ro(a, n)?.copy_to_slice(&mut [0; dst])] *)
Definition copy_in_to (a n dst : Z) : SM (list Z) :=
  p ← process ctx;
  on mach with_mach (copy_to_slice kernel_root (fault_proc p) (mkSlice a n) dst).

Definition copy_in (msg : string) (a n : Z) : SM (list Z) := map_err (Other msg) (copy_in_to a n n).

(** The outcome of a copy as a value. *)
Definition try_copy_in (a n : Z) : SM (option (list Z)) := fun k =>
  match copy_in_to a n n k with
  | (Ok bs, k) => (Ok (Some bs), k)
  | (Err _, k) => (Ok None, k)
  | (Panic, k) => (Panic, k)
  | (Fault, k) => (Fault, k)
  end.

(** [UserSliceWo::wo(a, n)?.copy_from_slice(&bs)] *)
Definition copy_out_as (msg : string) (a n : Z) (bs : list Z) : SM unit :=
  p ← process ctx;
  map_err (Other msg) (on mach with_mach (copy_from_slice kernel_root (fault_proc p) (mkSlice a n) bs)).

Definition copy_out (msg : string) (a : Z) (bs : list Z) : SM unit := copy_out_as msg a (zlen bs) bs.

(** [read_user_string(a, 4096)] *)
Definition user_string (a : Z) : SM (list Z) :=
  p ← process ctx;
  map_err (Other "EFAULT") (on mach with_mach (read_user_string kernel_root (fault_proc p) 4096 a [])).

End copies.

(** *** Files *)

Section files.
Context {fx : Files.File XF} {out : Vfs.Outside W XF} (ctx : SyscallContext).

(** [Result::ok] *)
Definition ok {E A} (x : A + E) : option A := match x with inl a => Some a | inr _ => None end.

(** The name before the first colon. *)
Definition scheme_of (path : string) : option string := fst <$> Path.find_char Path.colon path.

Definition get_vfs_handle (fd : Z) : SM (option Vfs.VfsHandle) :=
  o ← get_fd ctx fd;
  match FdTable.target <$> o with
  | Some (FdTable.File _) =>
    bs ← path_of ctx fd;
    match bs ≫= Path.from_utf8 with
    | Some path =>
      r ← peek vfs (Vfs.handle_of path);
      mret (match r with inl h => Some (Vfs.HFile h) | inr _ => None end)
    | None => mret None
    end
  | Some (FdTable.Scheme _ handle_id) =>
    bs ← path_of ctx fd;
    mret (path ← bs ≫= Path.from_utf8; name ← scheme_of path; Some (Vfs.HScheme name handle_id))
  | _ => mret None
  end.

Definition vfs_exists (path : string) : SM bool := r ← peek vfs (Vfs.exists_path path); mret (default false (ok r)).
Definition vfs_is_dir (path : string) : SM bool := r ← peek vfs (Vfs.is_dir path); mret (default false (ok r)).

(** [VFS.read().read_raw(path, &mut buf, 0)] with a zeroed buffer of [n]
    bytes: the count and the buffer. *)
Definition read_raw (path : string) (n : Z) : SM (option (Z * list Z)) :=
  r ← peek vfs (Vfs.read_raw path (zeros n) 0);
  mret (ok r).

(** A call whose result the caller drops. *)
Definition ignore_vfs {A} (m : M (Vfs.Vfs XF W) AbiError A) : SM unit := _ ← attempt vfs with_vfs m; mret tt.

End files.

(** *** Devices and scheduling *)

Section rest.
#[local] Existing Instance X8664Arch.
Context {DV : Devices D} `{X : X86}.

Definition stdin (n : Z) : SM (list Z) := step dev with_dev (read_stdin n).

Definition uptime : SM Z := read_part (fun k => Timer.uptime_ms (timer k)).

Definition send_signal (target signum : Z) : SM bool := step sched with_sched (Scheduler.send_signal target signum).

(** Rounding up to ticks overflows for the longest sleeps. *)
Definition sleep_overflows (ms : Z) (t : Timer.Timer) : bool :=
  (Timer.sleeper_count t <? Timer.MAX_SLEEPERS) && (2 ^ 64 <=? ms + Timer.MS_PER_TICK).

(** [TIMER.lock().sleep_ms(p, ms)] *)
Definition timer_sleep (p ms : Z) : SM unit := fun k =>
  if sleep_overflows ms (timer k) then (Panic, k) else (Ok tt, with_timer (snd (Timer.sleep_ms p ms (timer k))) k).

(** [timer::sleep_ms(p, ms)] *)
Definition sleep_ms (p ms : Z) : SM unit := fun k =>
  if sleep_overflows ms (timer k) then (Panic, k)
  else
    match Timer.sleep p ms (timer k) (sched k) with
    | Ok (t, s) => (Ok tt, with_timer t (with_sched s k))
    | Err _ => (Err (Other ""), k)
    | Panic => (Panic, k)
    | Fault => (Fault, k)
    end.

(** The page tables the scheduler has switched to. *)
Definition load_cr3 (s : Scheduler.Sched) (m : CState) : CState :=
  let c := fst (fst m) in
  (mkMachine (mem c) (Scheduler.cr3 s, snd (regs c)), snd (fst m), snd m).

(** [SCHEDULER.schedule()]: the next process runs; [away] is all that happens
    until the caller runs again. *)
Definition schedule (away : KState -> KState) : SM unit := fun k =>
  match Scheduler.schedule (sched k) with
  | Ok s => (Ok tt, away (with_mach (load_cr3 s (mach k)) (with_sched s k)))
  | Err _ => (Err (Other ""), k)
  | Panic => (Panic, k)
  | Fault => (Fault, k)
  end.

(** [SCHEDULER.fork]: the tables are cloned first; the child has the saved
    registers of the parent and the root as its working directory. *)
Definition fork (parent : Z) : SM (option Z) := fun k =>
  match try cow_fork_parent (pages k) with
  | (Ok frame, m) =>
    let k := with_pages m k in
    let '(o, s) := Scheduler.fork parent frame (sched k) in
    let k := with_sched s k in
    match o with
    | Some child =>
      let cpu := from_option Snapshot.ctx_cpu (Snapshot.cpu_of []) (contexts k !! parent) in
      (Ok o, with_contexts (<[child := Snapshot.mkCtx cpu (47 :: zeros 127) 1]> (contexts k)) k)
    | None => (Ok o, k)
    end
  | (Err _, m) => (Ok None, with_pages m k)
  | (Panic, m) => (Panic, with_pages m k)
  | (Fault, m) => (Fault, with_pages m k)
  end.

(** The register file a loaded program starts with. *)
Definition start_cpu (user_cs user_ss : Z) (p : Process.Process) : Snapshot.CpuState :=
  Snapshot.mkCpu 0 0 0 0 0 0 0 0 0 0 0 0 0 0 0 (Process.entry_point (Process.image p)) user_cs 0x202 (Process.stack_top (Process.image p)) user_ss.

(** [exec_process]: the registers are cleared before the program is loaded. *)
Definition exec_process (detect : list Z -> option (Process.AbiKind * Scheduler.loader)) (user_cs user_ss : Z) (p : Z) (binary : list Z)
    : SM bool := fun k =>
  let found := is_some (detect binary) && is_some (Scheduler.get_process p (sched k)) in
  let set_cpu c x := Snapshot.mkCtx c (Snapshot.ctx_cwd x) (Snapshot.ctx_cwd_len x) in
  match Scheduler.exec_process detect p binary Snapshot.create_process_page_table (sched k) with
  | (Ok _, s) =>
    let cpu := from_option (start_cpu user_cs user_ss) (Snapshot.cpu_of []) (Scheduler.get_process p s) in
    (Ok true, with_contexts (alter (set_cpu cpu) p (contexts k)) (with_sched s k))
  | (Err _, s) =>
    let cs := if found then alter (set_cpu (Snapshot.cpu_of [])) p (contexts k) else contexts k in
    (Ok false, with_contexts cs (with_sched s k))
  | (Panic, s) => (Panic, with_sched s k)
  | (Fault, s) => (Fault, with_sched s k)
  end.

End rest.

End kernel.

End Kernel.
