(* ===== verification/Uring.v ===== *)
(** * I/O rings

    Models [src/io/uring.rs].  Buffers are reached through raw pointers into
    user memory, without the checks of [UserCopy].  The network card is a
    device of [Kernel]. *)

From S2P Require Import Prelude Bytes Abi Capability Vma Process Scheduler Files Vfs RmmArch RmmFrame Paging Compress UserCopy Snapshot Shm Kernel.
Import RmmArch Paging Compress UserCopy Kernel.

Module Uring.

Record SqEntry := mkSq { opcode : Z; sq_flags : Z; fd : Z; addr : Z; len : Z; user_data : Z }.
Record CqEntry := mkCq { cq_data : Z; cq_res : Z; cq_flags : Z }.

Record IoUring := mkRing { pid : Z; ring_size : Z; sq_entries : list (option SqEntry); cq_entries : list (option CqEntry) }.

Definition new (p size : Z) : IoUring := mkRing p size (replicate 16 None) (replicate 16 None).

(** The first free slot takes the entry. *)
Definition fill_slot {A} (a : A) (slots : list (option A)) : option (list (option A)) :=
  match list_find (fun s => bool_decide (is_Some s) = false) slots with
  | Some (i, _) => Some (<[i := Some a]> slots)
  | None => None
  end.

Definition submit (e : SqEntry) (r : IoUring) : res AbiError IoUring :=
  match fill_slot e (sq_entries r) with
  | Some sq => Ok (mkRing (pid r) (ring_size r) sq (cq_entries r))
  | None => Err (Other "SQ full")
  end.

(** A completion with no free slot is dropped. *)
Definition complete (ud res : Z) (r : IoUring) : IoUring :=
  mkRing (pid r) (ring_size r) (sq_entries r) (default (cq_entries r) (fill_slot (mkCq ud res 0) (cq_entries r))).

Definition take_sq (i : nat) (r : IoUring) : option SqEntry * IoUring :=
  (default None (sq_entries r !! i), mkRing (pid r) (ring_size r) (<[i := None]> (sq_entries r)) (cq_entries r)).

Definition motd : string := "/etc/motd".

(** A result as [i32]. *)
Definition res_of {E} (as_errno : E -> Z) (r : Z + E) : Z := match r with inl n => sint 32 n | inr e => as_errno e end.

Definition vfs_errno (e : AbiError) : Z := match e with PermissionDenied => -1 | _ => -5 end.

Section ring.
#[local] Existing Instance X8664Arch.
Context {XF W K D : Type} {fx : Files.File XF} {out : Vfs.Outside W XF} {DV : Devices D}.
Context `{X : X86} `{CD : Codec} `{VA : VirtAddrOps} (kernel_root : Z).

Abbreviation SM := (M (KState (XF := XF) (W := W) (K := K) (D := D)) AbiError).

(** The physical address of a buffer in shared memory. *)
Definition shm_phys (a : Z) : SM (option Z) := fun k =>
  match Shm.find_region_by_vaddr a (shm k) with
  | Some i => (x ← Shm.translate i a (shm k); Ok (Some x), k)
  | None => (Ok None, k)
  end.

Definition raw_load (p : Process.Process) (a n : Z) : SM (list Z) :=
  map_err (Other "") (fun k => let '(r, m) := load_user kernel_root (fault_proc p) (Z.to_nat n) a (mach k) in (r, with_mach m k)).

Definition raw_store (p : Process.Process) (a : Z) (bs : list Z) : SM unit :=
  map_err (Other "") (fun k => let '(r, m) := store_user kernel_root (fault_proc p) a bs (mach k) in (r, with_mach m k)).

Definition read_motd (p : Process.Process) (sqe : SqEntry) : SM Z :=
  r ← peek vfs (Vfs.read_vfs p motd (zeros (len sqe)) 0);
  match r with
  | inl (n, bs) => _ ← raw_store p (addr sqe) (take (Z.to_nat n) bs); mret (sint 32 n)
  | inr e => mret (vfs_errno e)
  end.

Definition write_motd (p : Process.Process) (sqe : SqEntry) : SM Z :=
  buf ← raw_load p (addr sqe) (len sqe);
  r ← attempt vfs with_vfs (Vfs.write_vfs p motd buf 0);
  mret (res_of vfs_errno r).

(** Descriptor 4 with a buffer in shared memory is the network card, 5 a disk;
    3 is the message of the day. *)
Definition sqe_read (p : Process.Process) (phys : option Z) (sqe : SqEntry) : SM Z :=
  let rest := if (fd sqe =? 5) && is_some phys then mret 512 else if fd sqe =? 3 then read_motd p sqe else mret (-9) in
  match phys with
  | Some a =>
    if fd sqe =? 4 then
      o ← step dev with_dev (net_receive a (len sqe));
      match o with
      | Some (Some n) => mret (sint 32 n)
      | Some None => mret (-11)
      | None => rest
      end
    else rest
  | None => rest
  end.

Definition sqe_write (p : Process.Process) (phys : option Z) (sqe : SqEntry) : SM Z :=
  let rest := if (fd sqe =? 5) && is_some phys then mret 512 else if fd sqe =? 3 then write_motd p sqe else mret (-9) in
  match phys with
  | Some a =>
    if fd sqe =? 4 then
      o ← step dev with_dev (net_transmit a (len sqe));
      match o with
      | Some true => mret (sint 32 (len sqe))
      | Some false => mret (-5)
      | None => rest
      end
    else rest
  | None => rest
  end.

Definition handle_sqe (owner : Z) (sqe : SqEntry) : SM Z :=
  phys ← shm_phys (addr sqe);
  o ← read_part (fun k => Scheduler.get_process owner (sched k));
  match o with
  | None => mret (-3)
  | Some p =>
    if opcode sqe =? 3 then mret 0
    else if opcode sqe =? 0 then sqe_read p phys sqe
    else if opcode sqe =? 1 then sqe_write p phys sqe
    else mret (-38)
  end.

Fixpoint process_slots (slots : list nat) (count : Z) (r : IoUring) : SM (Z * IoUring) :=
  match slots with
  | [] => mret (count, r)
  | i :: slots =>
    let '(o, r) := take_sq i r in
    match o with
    | Some sqe => v ← handle_sqe (pid r) sqe; process_slots slots (count + 1) (complete (user_data sqe) v r)
    | None => process_slots slots count r
    end
  end.

Definition process_requests (r : IoUring) : SM (Z * IoUring) := process_slots (seq 0 16) 0 r.

End ring.

End Uring.
