(* ===== verification/LinuxFs.v ===== *)
(** * File system calls of the Linux ABI

    Models the handlers of [src/abi/linux/mod.rs] that [src/abi/linux/fs.rs]
    dispatches to.  A handler returns the word for the caller; words that
    encode an error are negated error numbers.  [vec_zeroed] is the check of
    the allocation [vec![0; n]]: more than [isize::MAX] bytes panic. *)

From Stdlib Require Import Ascii.
From S2P Require Import Prelude Bytes Abi Capability Vma FdTable Process Scheduler Ipc Path Files Vfs RmmArch RmmFrame Paging Compress UserCopy Snapshot Socket Kernel.
Import RmmArch Paging Compress Kernel.

Module LinuxFs.

Definition vec_zeroed {S E} (n : Z) : M S E unit := if n <? 2 ^ 63 then mret tt else lift Panic.

(** ** Paths *)

(** [/scheme/<name>/<rest>] is [<name>:<rest>]. *)
Definition translate_path (path : string) : string :=
  if Path.starts_with "/scheme/" path then
    let rest := String.substring 8 (String.length path - 8) path in
    match Path.find_char Path.slash rest with
    | Some (name, rest) => name +:+ ":" +:+ rest
    | None => rest +:+ ":"
    end
  else path.

Definition known_path (_ : string) : bool := true.

Definition device_paths : list string :=
  ["/dev/null"; "/dev/zero"; "/dev/random"; "/dev/urandom"; "/dev/tty"; "/dev/console"; "/proc/self/maps"; "/proc/self/exe"; "/etc/passwd";
   "/etc/localtime"]%string.

Definition is_known (path : string) : bool := known_path path || existsb (String.eqb path) device_paths.

(** ** Structures written to user memory *)

(** [struct stat] of 72 bytes, as [fstat] fills it. *)
Definition fstat_bytes (fd mode size : Z) : list Z :=
  le_bytes 8 1 ++ le_bytes 8 fd ++ le_bytes 8 1 ++ le_bytes 4 mode ++ zeros 20 ++ le_bytes 8 size ++ le_bytes 8 4096 ++
  le_bytes 8 ((size + 511) / 512).

(** [struct stat] of 144 bytes, as [stat] fills it. *)
Definition stat_bytes (size : Z) : list Z :=
  zeros 8 ++ le_bytes 8 1 ++ le_bytes 8 1 ++ le_bytes 4 33188 ++ zeros 20 ++ le_bytes 8 size ++ le_bytes 8 4096 ++ zeros 80.

Definition statfs_bytes : list Z :=
  le_bytes 8 0x01021994 ++ le_bytes 8 4096 ++ le_bytes 8 1024 ++ le_bytes 8 512 ++ le_bytes 8 512 ++ le_bytes 8 1024 ++ le_bytes 8 512.

Definition reclen (name : list Z) : Z := Z.land (19 + zlen name + 8) (not_usize 7).

(** One [linux_dirent64]. *)
Definition dirent (d_type : Z) (name : list Z) : list Z :=
  let n := reclen name in
  le_bytes 8 1 ++ le_bytes 8 n ++ le_bytes 2 n ++ [d_type] ++ name ++ zeros (n - 19 - zlen name).

(** Entries as long as they fit into [count] bytes. *)
Fixpoint dirents (es : list (Z * list Z)) (count : Z) (out : list Z) : list Z :=
  match es with
  | [] => out
  | (d_type, name) :: es => if count <? zlen out + reclen name then out else dirents es count (out ++ dirent d_type name)
  end.

(** [i64] addition. *)
Definition iadd {E} (a b : Z) : res E Z := if (- 2 ^ 63 <=? a + b) && (a + b <? 2 ^ 63) then Ok (a + b) else Panic.

Section fs.
#[local] Existing Instance X8664Arch.
Context {XF W K D : Type} {fx : Files.File XF} {out : Vfs.Outside W XF} {DV : Devices D}.
Context `{X : X86} `{CD : Codec} `{VA : VirtAddrOps} (kernel_root : Z).

Abbreviation SM := (M (KState (XF := XF) (W := W) (K := K) (D := D)) AbiError).

Implicit Types ctx : SyscallContext.

(** ** Reading and writing *)

Definition console_write (buf : list Z) : SM unit :=
  _ ← (if Path.utf8_valid buf then modify (print buf) else mret tt);
  modify (send_serial buf).

Definition file_write ctx (fd : Z) (buf : list Z) : SM Z :=
  may ← allowed ctx Capability.File true false;
  if negb may then throw PermissionDenied
  else
    h ← get_vfs_handle ctx fd;
    match h with
    | None => err EBADF
    | Some h =>
      d ← get_fd ctx fd;
      r ← attempt vfs with_vfs (Vfs.write_handle h buf (from_option FdTable.offset 0 d));
      match r with
      | inl n => _ ← advance_fd ctx fd n; mret n
      | inr e => err (abi_error_to_errno e)
      end
    end.

Definition sys_write ctx : SM Z :=
  let fd := arg 0 ctx in
  let count := arg 2 ctx in
  if count =? 0 then mret 0
  else
    _ ← vec_zeroed count;
    buf ← copy_in kernel_root ctx "EFAULT: copy failed" (arg 1 ctx) count;
    d ← get_fd ctx fd;
    match FdTable.target <$> d with
    | Some FdTable.Stdout | Some FdTable.Stderr | None =>
      if (fd =? 1) || (fd =? 2) then _ ← console_write buf; mret count else err EBADF
    | Some (FdTable.PipeWrite chan_id) =>
      may ← allowed ctx Capability.IpcChannel true false;
      if negb may then throw PermissionDenied
      else
        p ← process ctx;
        r ← attempt ipc with_ipc (Ipc.send chan_id (Process.pid p) buf);
        match r with inl _ => mret count | inr _ => err EAGAIN end
    | Some (FdTable.File _) | Some (FdTable.Scheme _ _) => file_write ctx fd buf
    | _ => err EBADF
    end.

(** [&bs[..n]] copied out unless it is empty. *)
Definition copy_some ctx (a n : Z) (bs : list Z) : SM unit :=
  if 0 <? n then out ← lift (slice 0 n bs); copy_out kernel_root ctx "EFAULT: copy failed" a out else mret tt.

Definition file_read ctx (fd count : Z) : SM Z :=
  may ← allowed ctx Capability.File false false;
  if negb may then throw PermissionDenied
  else
    h ← get_vfs_handle ctx fd;
    match h with
    | None => err EBADF
    | Some h =>
      d ← get_fd ctx fd;
      _ ← vec_zeroed count;
      r ← attempt vfs with_vfs (Vfs.read_handle h (zeros count) (from_option FdTable.offset 0 d));
      match r with
      | inl (n, tmp) => _ ← advance_fd ctx fd n; _ ← copy_some ctx (arg 1 ctx) n tmp; mret n
      | inr e => err (abi_error_to_errno e)
      end
    end.

Definition sys_read ctx : SM Z :=
  let fd := arg 0 ctx in
  let count := arg 2 ctx in
  if count =? 0 then mret 0
  else
    d ← get_fd ctx fd;
    match FdTable.target <$> d with
    | Some FdTable.Stdin | None =>
      if fd =? 0 then
        bs ← stdin (Z.min count 256);
        _ ← copy_some ctx (arg 1 ctx) (zlen bs) bs;
        mret (zlen bs)
      else err EBADF
    | Some (FdTable.PipeRead chan_id) =>
      r ← attempt ipc with_ipc (Ipc.recv chan_id);
      match r with
      | inl msg =>
        let n := Z.min (Ipc.len msg) count in
        _ ← copy_some ctx (arg 1 ctx) n (Ipc.data msg);
        mret n
      | inr _ => mret 0
      end
    | Some (FdTable.File _) | Some (FdTable.Scheme _ _) => file_read ctx fd count
    | _ => err EBADF
    end.

Definition sys_pread64 ctx : SM Z :=
  let fd := arg 0 ctx in
  if fd =? 0 then bs ← stdin (Z.min (arg 2 ctx) 256); mret (zlen bs)
  else if (fd =? 1) || (fd =? 2) then mret 0
  else err EBADF.

(** The vectors of [writev] and [readv]: base and length. *)
Definition iovec (bs : list Z) : Z * Z := (le_word (sub 0 8 bs), le_word (sub 8 8 bs)).

Fixpoint writev_loop ctx (n : nat) (i total : Z) : SM Z :=
  match n with
  | O => mret total
  | S n =>
    a ← lift (uadd (arg 1 ctx) (i * 16));
    iov ← try_copy_in kernel_root ctx a 16;
    match iov with
    | None => mret total
    | Some iov =>
      let '(base, len) := iovec iov in
      if (len =? 0) || (base =? 0) then writev_loop ctx n (i + 1) total
      else
        _ ← vec_zeroed len;
        buf ← try_copy_in kernel_root ctx base len;
        match buf with
        | None => writev_loop ctx n (i + 1) total
        | Some buf =>
          _ ← modify (send_serial buf);
          total ← lift (uadd total len);
          writev_loop ctx n (i + 1) total
        end
    end
  end.

Definition sys_writev ctx : SM Z :=
  if negb (arg 0 ctx =? 1) && negb (arg 0 ctx =? 2) then err EBADF
  else writev_loop ctx (Z.to_nat (Z.min (arg 2 ctx) 16)) 0 0.

Fixpoint readv_loop ctx (n : nat) (i total : Z) (iov_buf : list Z) : SM Z :=
  match n with
  | O => mret total
  | S n =>
    let '(base, len) := iovec (sub (i * 16) 16 iov_buf) in
    if (base =? 0) || (len =? 0) then readv_loop ctx n (i + 1) total iov_buf
    else
      bs ← stdin (Z.min len 256);
      if zlen bs =? 0 then mret total
      else
        _ ← copy_out kernel_root ctx "EFAULT" base bs;
        let total := total + zlen bs in
        if zlen bs <? len then mret total else readv_loop ctx n (i + 1) total iov_buf
  end.

Definition sys_readv ctx : SM Z :=
  if negb (arg 0 ctx =? 0) then err EBADF
  else
    let n := Z.min (arg 2 ctx) 16 in
    iov_buf ← copy_in kernel_root ctx "EFAULT" (arg 1 ctx) (16 * n);
    readv_loop ctx (Z.to_nat n) 0 0 iov_buf.

(** ** Descriptors *)

Definition some_fd (o : option nat) (e : Z) : SM Z := match o with Some fd => mret (Z.of_nat fd) | None => err e end.

(** [.ok_or(AbiError::Other("EMFILE"))?] *)
Definition fd_or_emfile (o : option nat) : SM Z := match o with Some fd => mret (Z.of_nat fd) | None => throw (Other "EMFILE") end.

Definition alloc_file ctx (path : list Z) (flags : Z) : SM Z :=
  o ← on_fds ctx (FdTable.alloc_file path flags);
  fd_or_emfile o.

Definition sys_close ctx : SM Z :=
  let fd := arg 0 ctx in
  if fd <? 3 then mret 0
  else
    _ ← modify (fun k => if Socket.exists_fd fd (Socket.sockets (net k)) then with_net (Socket.on_sockets (Socket.remove fd) (net k)) k else k);
    h ← get_vfs_handle ctx fd;
    _ ← (match h with Some h => ignore_vfs (Vfs.close_handle h) | None => mret tt end);
    closed ← on_fds ctx (FdTable.close (fd_index fd));
    if (closed : bool) then mret 0 else err EBADF.

Definition sys_lseek ctx : SM Z :=
  let fd := arg 0 ctx in
  let offset := sint 64 (arg 1 ctx) in
  let whence := arg 2 ctx in
  d ← get_fd ctx fd;
  let current := from_option FdTable.offset 0 d in
  o ← (if (whence =? 0) || (whence =? 2) then mret (Some (Z.max offset 0))
       else if whence =? 1 then n ← lift (iadd (sint 64 current) offset); mret (Some (Z.max n 0))
       else mret None);
  match o with
  | None => err EINVAL
  | Some new_offset =>
    _ ← update_fd ctx fd (fun d => FdTable.mkDesc (FdTable.target d) (FdTable.flags d) new_offset);
    mret new_offset
  end.

Definition sys_dup ctx : SM Z :=
  o ← on_fds ctx (FdTable.dup (fd_index (arg 0 ctx)) None);
  some_fd o EBADF.

Definition sys_dup2 ctx : SM Z :=
  let oldfd := arg 0 ctx in
  let newfd := arg 1 ctx in
  if oldfd =? newfd then
    d ← get_fd ctx oldfd;
    if is_some d then mret newfd else err EBADF
  else
    o ← on_fds ctx (FdTable.dup (fd_index oldfd) (Some (fd_index newfd)));
    some_fd o EBADF.

Definition sys_pipe ctx : SM Z :=
  may ← allowed ctx Capability.IpcChannel true false;
  if negb may then throw PermissionDenied
  else
    c ← step ipc with_ipc Ipc.create_channel;
    match c with
    | None => err EMFILE
    | Some chan_id =>
      read_fd ← on_fds ctx (FdTable.alloc (FdTable.mkDesc (FdTable.PipeRead chan_id) 0 0));
      write_fd ← on_fds ctx (FdTable.alloc (FdTable.mkDesc (FdTable.PipeWrite chan_id) 0 0));
      match read_fd, write_fd with
      | Some rfd, Some wfd =>
        _ ← copy_out kernel_root ctx "EFAULT" (arg 0 ctx) (le_bytes 4 (Z.of_nat rfd) ++ le_bytes 4 (Z.of_nat wfd));
        mret 0
      | _, _ => err EMFILE
      end
    end.

Definition sys_pipe2 ctx : SM Z := sys_pipe ctx.

Definition set_flags (f : Z -> Z) (d : FdTable.FileDesc) : FdTable.FileDesc := FdTable.mkDesc (FdTable.target d) (f (FdTable.flags d)) (FdTable.offset d).

Definition sys_fcntl ctx : SM Z :=
  let fd := arg 0 ctx in
  let cmd := arg 1 ctx in
  let flag := wrap 32 (arg 2 ctx) in
  d ← get_fd ctx fd;
  let with_desc (f : FdTable.FileDesc -> SM Z) := match d with Some d => f d | None => err EBADF end in
  if cmd =? 0 then o ← on_fds ctx (FdTable.dup (fd_index fd) None); some_fd o EBADF
  else if cmd =? 1 then with_desc (fun d => mret (Z.land (FdTable.flags d) 1))
  else if cmd =? 2 then
    with_desc (fun _ => _ ← update_fd ctx fd (set_flags (fun fl => Z.lor (Z.land fl (2 ^ 32 - 2)) (Z.land flag 1))); mret 0)
  else if cmd =? 3 then with_desc (fun d => mret (FdTable.flags d))
  else if cmd =? 4 then with_desc (fun _ => _ ← update_fd ctx fd (set_flags (fun _ => flag)); mret 0)
  else if cmd =? 1030 then
    o ← on_fds ctx (FdTable.dup (fd_index fd) None);
    match o with
    | Some newfd => _ ← update_fd ctx (Z.of_nat newfd) (set_flags (fun fl => Z.lor fl 1)); mret (Z.of_nat newfd)
    | None => err EBADF
    end
  else mret 0.

(** ** Opening *)

Definition alloc_scheme ctx (path : string) (flags id : Z) : SM Z :=
  o ← on_fds ctx (FdTable.alloc_scheme (Path.bytes_of path) flags id);
  fd_or_emfile o.

(** What [open] and [openat] share: [file_path] is the path of the file,
    [scheme_path] the one that may name a scheme. *)
Definition open_path ctx (scheme_path file_path : string) (flags : Z) : SM Z :=
  s ← step vfs with_vfs (Vfs.handle_scheme scheme_path flags);
  match s with
  | Some r => id ← lift r; alloc_scheme ctx scheme_path flags id
  | None =>
    let o_creat := negb (Z.land flags 0x40 =? 0) in
    _ ← (if o_creat then
           may ← allowed ctx Capability.File true false;
           if negb may then throw PermissionDenied
           else
             e ← vfs_exists file_path;
             if (e : bool) then mret tt else ignore_vfs (Vfs.create file_path)
         else mret tt);
    found ← (if is_known file_path || o_creat then mret true else r ← read_raw file_path 1; mret (is_some r));
    if (found : bool) then alloc_file ctx (Path.bytes_of file_path) flags else err ENOENT
  end.

Definition sys_open ctx : SM Z :=
  may ← allowed ctx Capability.File false false;
  if negb may then throw PermissionDenied
  else
    path_buf ← user_string kernel_root ctx (arg 0 ctx);
    let path := translate_path (utf8_or_empty path_buf) in
    open_path ctx path path (wrap 32 (arg 1 ctx)).

Definition sys_openat ctx : SM Z :=
  path_buf ← user_string kernel_root ctx (arg 1 ctx);
  let path := utf8_or_empty path_buf in
  open_path ctx (translate_path path) path (wrap 32 (arg 2 ctx)).

Definition sys_creat ctx : SM Z :=
  may ← allowed ctx Capability.File true false;
  if negb may then throw PermissionDenied
  else
    path_buf ← user_string kernel_root ctx (arg 0 ctx);
    let path := utf8_or_empty path_buf in
    e ← vfs_exists path;
    _ ← (if (e : bool) then mret tt else ignore_vfs (Vfs.create path));
    alloc_file ctx path_buf 0x41.

Definition sys_access ctx : SM Z := mret 0.

(** ** Directories *)

(** [mkdir], [rmdir], [unlink] and [rename] ask for the right to write files. *)
Definition if_writer ctx (m : SM Z) : SM Z :=
  may ← allowed ctx Capability.File true false;
  if negb may then throw PermissionDenied else m.

Definition sys_mkdir ctx : SM Z :=
  if_writer ctx (
    path_buf ← user_string kernel_root ctx (arg 0 ctx);
    let path := utf8_or_empty path_buf in
    if String.eqb path "" then err EINVAL else _ ← ignore_vfs (Vfs.mkdir path); mret 0).

Definition remove_path ctx : SM Z :=
  if_writer ctx (
    path_buf ← user_string kernel_root ctx (arg 0 ctx);
    r ← attempt vfs with_vfs (Vfs.remove (utf8_or_empty path_buf));
    match r with inl _ => mret 0 | inr _ => err ENOENT end).

Definition sys_rmdir ctx : SM Z := remove_path ctx.
Definition sys_unlink ctx : SM Z := remove_path ctx.

Definition sys_rename ctx : SM Z :=
  if_writer ctx (
    old_buf ← user_string kernel_root ctx (arg 0 ctx);
    new_buf ← user_string kernel_root ctx (arg 1 ctx);
    r ← attempt vfs with_vfs (Vfs.rename (utf8_or_empty old_buf) (utf8_or_empty new_buf));
    match r with inl _ => mret 0 | inr _ => err ENOENT end).

(** The types of the entries of a listing. *)
Fixpoint typed_entries (es : list string) : SM (list (Z * list Z)) :=
  match es with
  | [] => mret []
  | e :: es =>
    d ← vfs_is_dir e;
    rest ← typed_entries es;
    mret ((if (d : bool) then 4 else 8, Path.bytes_of (Snapshot.file_name e)) :: rest)
  end.

Definition sys_getdents64 ctx : SM Z :=
  o ← path_of ctx (arg 0 ctx);
  match o with
  | None => err 20
  | Some path_bytes =>
    let path := default "/"%string (Path.from_utf8 path_bytes) in
    d ← vfs_is_dir path;
    if negb d then err 20
    else
      entries ← peek vfs (Vfs.list_dir path);
      es ← typed_entries (default [] (ok entries));
      let count := arg 2 ctx in
      let out := dirents es count (dirents [(4, [46]); (4, [46; 46])] count []) in
      _ ← (if zlen out =? 0 then mret tt else copy_out kernel_root ctx "EFAULT" (arg 1 ctx) out);
      mret (zlen out)
  end.

(** ** Working directory *)

Definition sys_getcwd ctx : SM Z :=
  x ← context ctx;
  let n := Snapshot.ctx_cwd_len x in
  if arg 1 ctx <? n + 1 then err 34
  else
    dir ← lift (slice 0 n (Snapshot.ctx_cwd x));
    _ ← copy_out kernel_root ctx "EFAULT" (arg 0 ctx) (dir ++ [0]);
    mret (arg 0 ctx).

Definition sys_chdir ctx : SM Z :=
  path_buf ← user_string kernel_root ctx (arg 0 ctx);
  if zlen path_buf =? 0 then err ENOENT
  else
    x ← context ctx;
    cwd ← lift (splice 0 path_buf (Snapshot.ctx_cwd x));
    _ ← update_context ctx (fun x => Snapshot.mkCtx (Snapshot.ctx_cpu x) cwd (zlen path_buf));
    mret 0.

(** A path from user memory, relative to the working directory. *)
Definition resolved ctx (a : Z) : SM string :=
  path_buf ← user_string kernel_root ctx a;
  x ← context ctx;
  lift (Path.resolve_path (Snapshot.ctx_cwd x) (Snapshot.ctx_cwd_len x) (utf8_or_empty path_buf)).

(** [chmod] and [link] look whether the file is there. *)
Definition if_exists ctx : SM Z :=
  path ← resolved ctx (arg 0 ctx);
  e ← vfs_exists path;
  if (e : bool) then mret 0 else err ENOENT.

Definition sys_chmod ctx : SM Z := if_exists ctx.
Definition sys_link ctx : SM Z := if_exists ctx.

Definition sys_umask ctx : SM Z := mret 18.

Definition sys_symlink ctx : SM Z :=
  link_buf ← user_string kernel_root ctx (arg 1 ctx);
  let raw := utf8_or_empty link_buf in
  if String.eqb raw "" then err EINVAL
  else
    x ← context ctx;
    _ ← lift (Path.resolve_path (Snapshot.ctx_cwd x) (Snapshot.ctx_cwd_len x) raw);
    _ ← user_string kernel_root ctx (arg 0 ctx);
    mret 0.

(** ** Status *)

Definition sys_fstat ctx : SM Z :=
  let fd := arg 0 ctx in
  o ← (if fd <? 3 then mret (Some (0x2190, 0))
       else
         p ← path_of ctx fd;
         match p with
         | None => mret None
         | Some p =>
           r ← read_raw (utf8_or_empty (take 63 p)) 4096;
           mret (Some (0x81A4, from_option fst 0 r))
         end);
  match o with
  | None => err EBADF
  | Some (mode, size) => _ ← copy_out kernel_root ctx "EFAULT" (arg 1 ctx) (fstat_bytes fd mode size); mret 0
  end.

(** [stat] and [newfstatat]: the addresses of the path and of the result. *)
Definition stat_path ctx (path_addr buf_addr : Z) : SM Z :=
  path_buf ← user_string kernel_root ctx path_addr;
  let path := utf8_or_empty path_buf in
  e ← vfs_exists path;
  if negb e then err ENOENT
  else
    sz ← peek vfs (Vfs.file_size path);
    _ ← copy_out kernel_root ctx "EFAULT" buf_addr (stat_bytes (default 0 (default None (ok sz))));
    mret 0.

Definition sys_stat ctx : SM Z := stat_path ctx (arg 0 ctx) (arg 1 ctx).
Definition sys_newfstatat ctx : SM Z := stat_path ctx (arg 1 ctx) (arg 2 ctx).

Definition sys_statfs ctx : SM Z :=
  path ← resolved ctx (arg 0 ctx);
  e ← vfs_exists path;
  there ← (if (e : bool) then mret true else vfs_is_dir path);
  if negb there then err ENOENT else _ ← copy_out kernel_root ctx "EFAULT" (arg 1 ctx) statfs_bytes; mret 0.

Definition link_target (path : string) : option string :=
  if String.eqb path "/proc/self/exe" then Some "/bin/busybox"%string
  else if String.eqb path "/proc/self/fd/0" then Some "/dev/stdin"%string
  else if String.eqb path "/proc/self/fd/1" then Some "/dev/stdout"%string
  else if String.eqb path "/proc/self/fd/2" then Some "/dev/stderr"%string
  else None.

Definition sys_readlink ctx : SM Z :=
  path_buf ← user_string kernel_root ctx (arg 0 ctx);
  match link_target (utf8_or_empty path_buf) with
  | None => err ENOENT
  | Some target =>
    let bs := Path.bytes_of target in
    let n := Z.min (zlen bs) (arg 2 ctx) in
    _ ← copy_out kernel_root ctx "EFAULT" (arg 1 ctx) (take (Z.to_nat n) bs);
    mret n
  end.

End fs.

End LinuxFs.
