(* ===== verification/NativeAbi.v ===== *)
(** * The kernel's own system calls

    Models the handlers of [src/abi/syscall.rs] that do not belong to an ABI:
    capabilities, signals, devices, shared memory and channels.  Log lines are
    left out.  The list of PCI devices is fixed once the bus is scanned. *)

From S2P Require Import Prelude Bytes Abi Capability Signal Vma FdTable Process Scheduler Ipc Path Files Vfs RmmArch RmmFrame Paging Compress UserCopy Snapshot Socket Shm Kernel LinuxFs.
Import RmmArch RmmFrame Paging Compress Kernel.

Module NativeAbi.

(** ** PCI *)

Record PciDevice := mkPci {
  bus : Z; pdev : Z; func : Z; vendor_id : Z; device_id : Z; class : Z; subclass : Z; interrupt_line : Z; bars : list Z
}.

Definition bar_address (bar_val : Z) : Z * bool :=
  let is_io := negb (Z.land bar_val 1 =? 0) in
  (Z.land bar_val (2 ^ 32 - 1 - (if is_io then 3 else 15)), is_io).

Definition pack_pci_bdf (b d f : Z) : Z := Z.lor (Z.lor (Z.shiftl b 16) (Z.shiftl d 8)) f.

Definition unpack_pci_bdf (bdf : Z) : Z * Z * Z := (Z.land (Z.shiftr bdf 16) 0xFF, Z.land (Z.shiftr bdf 8) 0xFF, Z.land bdf 0xFF).

Definition pci_matches (value requested : Z) : bool := (requested =? 0xFFFF) || (value =? wrap 16 requested).
Definition pci_class_matches (value requested : Z) : bool := (requested =? 0xFFFF) || (value =? wrap 8 requested).

Definition find_pci_by_bdf (devices : list PciDevice) (bdf : Z) : option PciDevice :=
  let '(b, d, f) := unpack_pci_bdf bdf in
  List.find (fun p => (bus p =? b) && (pdev p =? d) && (func p =? f)) devices.

Definition set_capabilities (cs : list Capability.CapabilityToken) (p : Process.Process) : Process.Process :=
  Process.mkProcess (Process.pid p) (Process.state p) (Process.abi p) (Process.priority p) cs (Process.image p) (Process.signals p)
    (Process.parent p) (Process.exit_code p) (Process.join_waiters p) (Process.fds p) (Process.vruntime p) (Process.fs_base p) (Process.gs_base p)
    (Process.timed_out p).

(** [i64::saturating_add] *)
Definition sat_add (a b : Z) : Z := Z.max (- 2 ^ 63) (Z.min (2 ^ 63 - 1) (a + b)).

Definition NO_CACHE : Z := Z.shiftl 1 4.

Definition mmio_flags : Z := Z.lor (Z.lor (Z.lor PRESENT WRITABLE) USER_ACCESSIBLE) NO_CACHE.

Definition read_write_region : Vma.MemoryRegionFlags := Vma.mkFlags true true false true false.

Section native.
#[local] Existing Instance X8664Arch.
Context {XF W K D : Type} {fx : Files.File XF} {out : Vfs.Outside W XF} {DV : Devices D}.
Context `{X : X86} `{CD : Codec} `{VA : VirtAddrOps} `{BS : BinarySearch} (kernel_root : Z) (pci : list PciDevice).

Abbreviation State := (KState (XF := XF) (W := W) (K := K) (D := D)).
Abbreviation SM := (M State AbiError).

Implicit Types ctx : SyscallContext.

Definition check_capability ctx (kind : Capability.ResourceKind) (needs_write needs_exec : bool) : SM bool :=
  allowed ctx kind needs_write needs_exec.

(** ** Capabilities *)

(** [capabilities.grant(..).ok_or("Cap space full")?] *)
Definition grant ctx (r : Capability.ResourceKind) (perms : Capability.Permissions) (tgt : Z) : SM Z :=
  p ← process ctx;
  g ← read_part caps;
  let '(o, sp, g) := Capability.grant g (Process.capabilities p) r perms tgt None in
  _ ← update_caller ctx (set_capabilities sp);
  _ ← modify (with_caps g);
  match o with Some id => mret id | None => throw (Other "Cap space full") end.

(** The special paths of the standard streams. *)
Definition std_path (path : string) : option (Capability.Permissions * Z) :=
  if String.eqb path "stdin" then Some (Capability.read_only, 0)
  else if String.eqb path "stdout" then Some (Capability.read_write, 1)
  else if String.eqb path "stderr" then Some (Capability.read_write, 2)
  else None.

Definition open_and_grant ctx (path : string) (flags : Z) : SM Z :=
  r ← attempt vfs with_vfs (Vfs.open path flags);
  match r with
  | inr e => err (abi_error_to_errno e)
  | inl handle =>
    fd ← (match handle with
          | Vfs.HFile _ => on_fds ctx (FdTable.alloc_file (Path.bytes_of path) flags)
          | Vfs.HScheme _ handle_id => on_fds ctx (FdTable.alloc_scheme (Path.bytes_of path) flags handle_id)
          end);
    match fd with
    | Some fd => grant ctx Capability.File Capability.read_write (Z.of_nat fd)
    | None => err EMFILE
    end
  end.

(** The capability check before the path is opened has no effect. *)
Definition ziqa_cap_request ctx : SM Z :=
  if negb (arg 0 ctx =? 1) then err EINVAL
  else
    _ ← LinuxFs.vec_zeroed (arg 2 ctx);
    tmp ← copy_in kernel_root ctx "EFAULT: cap_request path" (arg 1 ctx) (arg 2 ctx);
    match Path.from_utf8 tmp with
    | None => throw (Other "Invalid UTF-8")
    | Some path =>
      match std_path path with
      | Some (perms, tgt) => grant ctx Capability.File perms tgt
      | None => open_and_grant ctx path (wrap 32 (arg 3 ctx))
      end
    end.

(** The descriptor a file token stands for: [inr] is the error word. *)
Definition token_fd ctx (right : Capability.Permissions -> bool) : SM (FdTable.FileDesc * Z + Z) :=
  p ← process ctx;
  match Capability.lookup (Process.capabilities p) (arg 0 ctx) with
  | None => mret (inr EBADF)
  | Some cap =>
    if negb (bool_decide (Capability.resource cap = Capability.File)) || negb (right (Capability.permissions cap)) then mret (inr EPERM)
    else
      d ← get_fd ctx (Capability.target cap);
      mret (match d with Some d => inl (d, Capability.target cap) | None => inr EBADF end)
  end.

(** [desc_mut.offset = offset + n] *)
Definition set_offset ctx (fd offset n : Z) : SM unit :=
  d ← get_fd ctx fd;
  match d with
  | Some _ =>
    off ← lift (uadd offset n);
    update_fd ctx fd (fun d => FdTable.mkDesc (FdTable.target d) (FdTable.flags d) off)
  | None => mret tt
  end.

Definition ziqa_cap_read ctx : SM Z :=
  let count := arg 2 ctx in
  let offset := arg 3 ctx in
  t ← token_fd ctx Capability.read;
  match t with
  | inr e => err e
  | inl (desc, fd) =>
    match FdTable.target desc with
    | FdTable.Stdin =>
      _ ← LinuxFs.vec_zeroed count;
      bs ← stdin count;
      _ ← copy_out kernel_root ctx "EFAULT: cap_read stdin" (arg 1 ctx) bs;
      mret (zlen bs)
    | FdTable.File _ | FdTable.Scheme _ _ =>
      h ← get_vfs_handle ctx fd;
      match h with
      | None => err EBADF
      | Some h =>
        _ ← LinuxFs.vec_zeroed count;
        r ← attempt vfs with_vfs (Vfs.read_handle h (zeros count) offset);
        match r with
        | inl (n, buf) =>
          _ ← (if 0 <? n then bs ← lift (slice 0 n buf); copy_out kernel_root ctx "EFAULT: cap_read" (arg 1 ctx) bs else mret tt);
          _ ← set_offset ctx fd offset n;
          mret n
        | inr _ => err EIO
        end
      end
    | _ => mret 0
    end
  end.

Definition ziqa_cap_write ctx : SM Z :=
  let count := arg 2 ctx in
  let offset := arg 3 ctx in
  t ← token_fd ctx Capability.write;
  match t with
  | inr e => err e
  | inl (desc, fd) =>
    match FdTable.target desc with
    | FdTable.Stdout | FdTable.Stderr =>
      _ ← LinuxFs.vec_zeroed count;
      buf ← copy_in kernel_root ctx "EFAULT: cap_write stdout" (arg 1 ctx) count;
      _ ← (if Path.utf8_valid buf then modify (print buf) else mret tt);
      mret count
    | FdTable.File _ | FdTable.Scheme _ _ =>
      h ← get_vfs_handle ctx fd;
      match h with
      | None => err EBADF
      | Some h =>
        _ ← LinuxFs.vec_zeroed count;
        buf ← copy_in kernel_root ctx "EFAULT: cap_write file" (arg 1 ctx) count;
        r ← attempt vfs with_vfs (Vfs.write_handle h buf offset);
        match r with
        | inl n => _ ← set_offset ctx fd offset n; mret n
        | inr _ => err EIO
        end
      end
    | _ => mret 0
    end
  end.

Definition ziqa_cap_close ctx : SM Z :=
  let fd := arg 0 ctx in
  if fd <? 3 then err EPERM
  else
    h ← get_vfs_handle ctx fd;
    _ ← (match h with Some h => ignore_vfs (Vfs.close_handle h) | None => mret tt end);
    closed ← on_fds ctx (FdTable.close (fd_index fd));
    if (closed : bool) then mret 0 else err EBADF.

Definition ziqa_cap_seek ctx : SM Z :=
  let fd := arg 0 ctx in
  let offset := sint 64 (arg 1 ctx) in
  let whence := sint 32 (arg 2 ctx) in
  d ← get_fd ctx fd;
  match d with
  | None => err EBADF
  | Some d =>
    match FdTable.target d with
    | FdTable.File _ =>
      let current := sint 64 (FdTable.offset d) in
      let o := if whence =? 0 then Some offset else if whence =? 1 then Some (sat_add current offset) else if whence =? 2 then Some current else None in
      match o with
      | None => err EINVAL
      | Some n =>
        if n <? 0 then err EINVAL
        else _ ← update_fd ctx fd (fun d => FdTable.mkDesc (FdTable.target d) (FdTable.flags d) n); mret n
      end
    | _ => err 29
    end
  end.

(** [revoke_global] on the spaces of all processes. *)
Definition cap_kernel (k : State) : Capability.Kernel := Capability.mkKernel (caps k) (Process.capabilities <$> Scheduler.tasks (sched k)).

Definition put_cap_kernel (ck : Capability.Kernel) (k : State) : State :=
  let tasks := map_imap (fun p q => Some (set_capabilities (default [] (Capability.procs ck !! p)) q)) (Scheduler.tasks (sched k)) in
  with_caps (Capability.globals ck) (with_sched (Scheduler.with_tasks tasks (sched k)) k).

Definition ziqa_cap_revoke ctx : SM Z := fun k =>
  let ck := cap_kernel k in
  match Capability.ziqa_cap_revoke (Capability.enough ck (arg 0 ctx)) ck (caller ctx) (arg 0 ctx) with
  | Some (v, ck) => (Ok v, put_cap_kernel ck k)
  | None => (Fault, k)
  end.

(** ** Signals *)

Definition on_signals ctx (f : Signal.SignalState -> Z * Signal.SignalState) : SM Z :=
  p ← process ctx;
  let '(v, s) := f (Process.signals p) in
  _ ← update_caller ctx (Process.set_signals s);
  mret v.

Definition ziqa_sig_setaction ctx : SM Z := on_signals ctx (Signal.ziqa_sig_setaction (arg 0 ctx) (arg 1 ctx) (arg 2 ctx)).
Definition ziqa_sig_getmask ctx : SM Z := p ← process ctx; mret (Signal.ziqa_sig_getmask (Process.signals p)).
Definition ziqa_sig_setmask ctx : SM Z := on_signals ctx (Signal.ziqa_sig_setmask (arg 0 ctx)).

Definition ziqa_sig_kill ctx : SM Z :=
  let signum := wrap 8 (arg 1 ctx) in
  if Signal.MAX <? signum then err EINVAL
  else
    p ← process ctx;
    let target := if arg 0 ctx =? 0 then Process.pid p else arg 0 ctx in
    if target =? Process.pid p then on_signals ctx (fun s => (0, snd (Signal.send signum s)))
    else
      ok ← send_signal target signum;
      if (ok : bool) then mret 0 else err ESRCH.

Definition ziqa_sig_pause ctx : SM Z :=
  p ← process ctx;
  _ ← (if Signal.has_pending (Process.signals p) then mret tt else update_caller ctx (Process.set_state Process.Blocked));
  err EINTR.

(** ** Devices *)

Definition ziqa_dev_port_in ctx : SM Z :=
  may ← check_capability ctx Capability.DeviceIo false false;
  if negb may then err EPERM
  else
    p ← process ctx;
    let size := arg 1 ctx in
    if negb (Process.pid p =? 0) then err EPERM
    else if (size =? 1) || (size =? 2) || (size =? 4) then step dev with_dev (port_read (wrap 16 (arg 0 ctx)) size)
    else err EINVAL.

Definition ziqa_dev_port_out ctx : SM Z :=
  may ← check_capability ctx Capability.DeviceIo true false;
  if negb may then err EPERM
  else
    p ← process ctx;
    let size := arg 1 ctx in
    if negb (Process.pid p =? 0) then err EPERM
    else if (size =? 1) || (size =? 2) || (size =? 4) then
      _ ← step dev with_dev (fun d => (tt, port_write (wrap 16 (arg 0 ctx)) size (wrap (8 * size) (arg 2 ctx)) d));
      mret 0
    else err EINVAL.

(** [for offset in (0..aligned_size).step_by(4096)] *)
Fixpoint map_device (n : nat) (virt phys : Z) : M Paging.State AbiError unit :=
  match n with
  | O => mret tt
  | S n =>
    page ← va virt;
    frame ← map_err (Other "") (lift (phys_frame phys));
    root ← map_err (Other "") cr3;
    r ← map_err (Other "Map failed") (map_to root page frame mmio_flags);
    match r with
    | Mapped => map_device n (virt + 4096) (phys + 4096)
    | _ => throw (Other "Map failed")
    end
  end.

Definition ziqa_dev_map ctx : SM Z :=
  may ← check_capability ctx Capability.DeviceIo true false;
  if negb may then err EPERM
  else
    let phys_addr := arg 0 ctx in
    let phys_start := Z.land phys_addr (not_usize 0xFFF) in
    e1 ← lift (uadd phys_addr (arg 1 ctx));
    e2 ← lift (uadd e1 0xFFF);
    aligned_size ← lift (usub (Z.land e2 (not_usize 0xFFF)) phys_start);
    if phys_start <? 0x1_0000_0000 then err EPERM
    else if 16 * 1024 * 1024 <? aligned_size then err EINVAL
    else
      p ← process ctx;
      b ← lift (uadd (Process.mmap_bump (Process.image p)) 0xFFF);
      let virt_start := Z.land b (not_usize 0xFFF) in
      bump ← lift (uadd virt_start aligned_size);
      _ ← set_mmap_bump ctx bump;
      s ← read_part pages;
      match snd s with
      | None => throw (Other "Frame allocator missing")
      | Some _ =>
        _ ← on pages with_pages (map_device (Z.to_nat (aligned_size / 4096)) virt_start phys_start);
        v ← lift (s ← Vma.or_panic (va_new virt_start); Vma.new s aligned_size read_write_region);
        _ ← on_vmas ctx (Vma.add_region v);
        mret virt_start
      end.

Definition ziqa_dev_irq_wait ctx : SM Z :=
  may ← check_capability ctx Capability.DeviceIo false false;
  if negb may then err EPERM
  else
    p ← process ctx;
    _ ← modify (fun k => with_irq (<[wrap 8 (arg 0 ctx) := Process.pid p]> (irq_waiters k)) k);
    _ ← update_caller ctx (Process.set_state Process.Blocked);
    mret 0.

Definition ziqa_dev_pci_find ctx : SM Z :=
  may ← check_capability ctx Capability.DeviceIo false false;
  if negb may then err EPERM
  else
    match List.find (fun d => pci_matches (vendor_id d) (arg 0 ctx) && pci_matches (device_id d) (arg 1 ctx) &&
                              pci_class_matches (class d) (arg 2 ctx) && pci_class_matches (subclass d) (arg 3 ctx)) pci with
    | Some d => mret (pack_pci_bdf (bus d) (pdev d) (func d))
    | None => err ENOENT
    end.

Definition ziqa_dev_pci_bar ctx : SM Z :=
  may ← check_capability ctx Capability.DeviceIo false false;
  if negb may then err EPERM
  else if 6 <=? arg 1 ctx then err EINVAL
  else
    match find_pci_by_bdf pci (arg 0 ctx) with
    | None => err ENOENT
    | Some d =>
      raw ← lift (index (bars d) (arg 1 ctx));
      if raw =? 0 then err ENOENT
      else let '(addr, is_io) := bar_address raw in mret (Z.lor addr (if is_io then Z.shiftl 1 63 else 0))
    end.

Definition ziqa_dev_pci_irq ctx : SM Z :=
  may ← check_capability ctx Capability.DeviceIo false false;
  if negb may then err EPERM
  else
    match find_pci_by_bdf pci (arg 0 ctx) with
    | None => err ENOENT
    | Some d => if (interrupt_line d =? 0) || (interrupt_line d =? 0xFF) then err ENOENT else mret (interrupt_line d)
    end.

Definition ziqa_dev_virt_to_phys ctx : SM Z :=
  may ← check_capability ctx Capability.DeviceIo false false;
  if negb may then err EPERM
  else
    r ← attempt pages with_pages (v ← va (arg 0 ctx); translate_addr kernel_root v);
    match r with inl phys => mret phys | inr _ => err EFAULT end.

Definition net_notify_call ctx : SM Z :=
  may ← check_capability ctx Capability.DeviceIo true false;
  if negb may then throw (Other "EPERM: no DeviceIo capability")
  else _ ← modify (fun k => with_dev (net_notify (wrap 16 (arg 0 ctx)) (dev k)) k); mret 0.

Definition net_ack_call ctx : SM Z :=
  may ← check_capability ctx Capability.DeviceIo true false;
  if negb may then throw (Other "EPERM: no DeviceIo capability")
  else _ ← modify (fun k => with_dev (net_ack (dev k)) k); mret 0.

Definition gpu_chan : SM Z := o ← read_part (fun k => gpu_channel (dev k)); mret (default 0 o).

(** ** Shared memory and channels *)

Definition shm_part (k : State) : Shm.ShmState := (shm k, pages k).
Definition with_shm_part (t : Shm.ShmState) (k : State) : State := with_shm (fst t) (with_pages (snd t) k).

Definition shm_create ctx : SM Z :=
  p ← process ctx;
  on shm_part with_shm_part (Shm.create (Process.pid p) (arg 0 ctx)).

Definition shm_at ctx : SM Z := on shm_part with_shm_part (Shm.attach (wrap 32 (arg 0 ctx))).

Definition shm_attach ctx : SM Z :=
  r ← attempt shm_part with_shm_part (Shm.attach (wrap 32 (arg 0 ctx)));
  match r with inl a => mret a | inr _ => err EINVAL end.

Definition ipc_create ctx : SM Z :=
  c ← step ipc with_ipc Ipc.create_channel;
  match c with Some id => mret id | None => err ENOSYS end.

Definition ipc_send ctx : SM Z :=
  let len := arg 2 ctx in
  if Ipc.MSG_MAX <? len then err EINVAL
  else
    p ← process ctx;
    tmp ← copy_in kernel_root ctx "EFAULT" (arg 1 ctx) len;
    r ← attempt ipc with_ipc (Ipc.send (wrap 32 (arg 0 ctx)) (Process.pid p) tmp);
    match r with inl _ => mret 0 | inr _ => err EINVAL end.

Definition ipc_recv ctx : SM Z :=
  r ← attempt ipc with_ipc (Ipc.recv (wrap 32 (arg 0 ctx)));
  match r with
  | inl msg =>
    let n := Z.min (Ipc.len msg) (arg 2 ctx) in
    _ ← (if 0 <? n then bs ← lift (slice 0 n (Ipc.data msg)); copy_out kernel_root ctx "EFAULT" (arg 1 ctx) bs else mret tt);
    mret n
  | inr _ => err EINVAL
  end.

End native.

End NativeAbi.
