(* ===== verification/LinuxMem.v ===== *)
(** * Memory calls of the Linux ABI

    Models the handlers of [src/abi/linux/mod.rs] that
    [src/abi/linux/memory.rs] dispatches to.  [unmap] and [update_flags] are
    operations of the mapper of the [x86_64] crate, beside those of
    [Paging]; frames that are unmapped are not freed. *)

From S2P Require Import Prelude Bytes Abi Capability Vma FdTable Process Scheduler Path Files Vfs RmmArch RmmFrame Paging Compress UserCopy Snapshot Kernel LinuxFs.
Import RmmArch RmmFrame Paging Compress Kernel.

Module LinuxMem.

(** On the page of an address below a root; an error is [Err tt]. *)
Class X86Unmap := {
  unmap : Z -> Z -> KM Z;
  update_flags : Z -> Z -> Z -> KM unit
}.

Section memory.
#[local] Existing Instance X8664Arch.
Context {XF W K D : Type}.
Context `{X : X86} `{XU : X86Unmap} `{VA : VirtAddrOps} `{BS : BinarySearch}.

Abbreviation SM := (M (KState (XF := XF) (W := W) (K := K) (D := D)) AbiError).

Implicit Types ctx : SyscallContext.

(** ** Ranges of pages *)

(** [for addr in (start..end).step_by(4096)], [n] times. *)
Fixpoint for_pages (n : nat) (addr : Z) (body : Z -> KM unit) : KM unit :=
  match n with
  | O => mret tt
  | S n => page ← va addr; _ ← body page; for_pages n (addr + 4096) body
  end.

Definition page_steps (s e : Z) : nat := Z.to_nat ((e - s + 4095) / 4096).

(** [mapper_for_root] *)
Definition mapper_for_root (root_frame : option Z) : KM Z := match root_frame with Some f => mret f | None => cr3 end.

(** The pages that are mapped. *)
Definition for_mapped (root_frame : option Z) (s e : Z) (body : Z -> Z -> KM unit) : KM unit :=
  root ← mapper_for_root root_frame;
  for_pages (page_steps s e) s (fun page =>
    o ← try (translate_addr root page);
    if is_some o then _ ← try (body root page); mret tt else mret tt).

Definition update_range_page_flags (root_frame : option Z) (s e pte_flags : Z) : KM unit :=
  for_mapped root_frame s e (fun root page => update_flags root page pte_flags).

Definition unmap_range_pages (root_frame : option Z) (s e : Z) : KM unit :=
  for_mapped root_frame s e (fun root page => _ ← unmap root page; mret tt).

Definition on_pages (m : KM unit) : SM unit := map_err (Other "") (fun k => let '(r, t) := m (pages k) in (r, with_pages t k)).

(** [a & !0xFFF] *)
Definition page_down (a : Z) : Z := Z.land a (not_usize 0xFFF).

(** ** The calls *)

Definition sys_brk ctx : SM Z :=
  let new_brk := arg 0 ctx in
  p ← process ctx;
  let old_brk := Process.brk (Process.image p) in
  if (new_brk =? 0) || (new_brk <? 0x2000_0000) then mret old_brk
  else
    n ← lift (uadd new_brk 0xFFF);
    let aligned := page_down n in
    r ← (if old_brk <? aligned then attempt pages with_pages (handle_brk (Process.page_table_frame (Process.image p)) old_brk aligned)
         else mret (inl tt));
    match r with
    | inr _ => mret old_brk
    | inl _ => _ ← update_caller ctx (Snapshot.on_image (Snapshot.with_brk aligned)); mret aligned
    end.

Definition sys_mmap ctx : SM Z :=
  p ← process ctx;
  r ← lift (Vma.sys_mmap (Process.capabilities p) (arg 0 ctx) (arg 1 ctx) (arg 2 ctx) (arg 3 ctx) (Process.vmas (Process.image p)));
  _ ← on_vmas ctx (fun _ => snd r);
  mret (fst r).

(** An area meets [[s, e)]. *)
Definition overlaps (s e : Z) (v : Vma.Vma) : bool := (s <? Vma.end_ v) && (Vma.start v <? e).

Definition set_vma_flags (f : Vma.MemoryRegionFlags) (v : Vma.Vma) : Vma.Vma :=
  Vma.mkVma (Vma.start v) (Vma.end_ v) f (Vma.is_file_backed v) (Vma.file_path v) (Vma.file_offset v) (Vma.file_size v) (Vma.bco_hook v).

Definition sys_mprotect ctx : SM Z :=
  let addr := arg 0 ctx in
  let len := arg 1 ctx in
  let prot := arg 2 ctx in
  let start_addr := page_down addr in
  range_end ← lift (uadd addr len);
  end_addr ← (if range_end =? 0 then mret 0xFFFF_FFFF_FFFF_F000 else e ← lift (uadd range_end 0xFFF); mret (page_down e));
  if (end_addr <=? start_addr) || (len =? 0) then err EINVAL
  else
    p ← process ctx;
    let i := Process.image p in
    match list_find (fun v => overlaps start_addr end_addr v = true) (Process.vmas i) with
    | None => err EFAULT
    | Some (idx, v) =>
      let new_flags := Vma.prot_to_region_flags prot in
      _ ← on_vmas ctx (alter (set_vma_flags new_flags) idx);
      let update_start := Z.max start_addr (Vma.start v) in
      let update_end := Z.min end_addr (Vma.end_ v) in
      let root_frame := Process.page_table_frame i in
      _ ← on_pages (if prot =? 0 then unmap_range_pages root_frame update_start update_end
                    else update_range_page_flags root_frame update_start update_end (region_flags_to_page_flags new_flags));
      mret 0
    end.

(** [vmas.retain(..)]: areas inside the range are unmapped and dropped. *)
Definition covered (s e : Z) (v : Vma.Vma) : bool := (s <=? Vma.start v) && (Vma.end_ v <=? e).

Fixpoint unmap_covered (root_frame : option Z) (s e : Z) (vs : list Vma.Vma) : KM unit :=
  match vs with
  | [] => mret tt
  | v :: vs =>
    _ ← (if covered s e v then unmap_range_pages root_frame (Vma.start v) (Vma.end_ v) else mret tt);
    unmap_covered root_frame s e vs
  end.

Definition sys_munmap ctx : SM Z :=
  let addr := arg 0 ctx in
  let len := arg 1 ctx in
  let start_addr := page_down addr in
  e1 ← lift (uadd addr len);
  e2 ← lift (uadd e1 0xFFF);
  e3 ← lift (uadd start_addr 0x1000);
  let end_addr := Z.max (page_down e2) e3 in
  if (end_addr <=? start_addr) || (len =? 0) then err EINVAL
  else
    p ← process ctx;
    let i := Process.image p in
    _ ← on_pages (unmap_covered (Process.page_table_frame i) start_addr end_addr (Process.vmas i));
    _ ← on_vmas ctx (fun vs => List.filter (fun v => negb (covered start_addr end_addr v)) vs);
    mret 0.

Definition sys_madvise ctx : SM Z := mret 0.
Definition sys_msync ctx : SM Z := mret 0.

Definition sys_memfd_create ctx : SM Z := LinuxFs.alloc_file ctx (Path.bytes_of "memfd:") 0.

End memory.

End LinuxMem.
