(* ===== verification/LinuxProc.v ===== *)
(** * Process, time and signal calls of the Linux ABI

    Models the handlers of [src/abi/linux/mod.rs] that
    [src/abi/linux/process.rs], [time.rs], [signal.rs] and [misc.rs] dispatch
    to.  A handler that gives up the processor goes on when the caller runs
    again; [away] is what happens in between.  Reading and writing a base
    register with an address that is not canonical halts the kernel. *)

From S2P Require Import Prelude Bytes Abi Capability Signal Vma FdTable Process Scheduler Sync Timer Path Files Vfs RmmArch RmmFrame Paging Compress UserCopy Snapshot Kernel LinuxFs.
Import RmmArch RmmFrame Paging Compress Kernel.

Module LinuxProc.

Definition set_blocked (m : Z) (s : Signal.SignalState) : Signal.SignalState :=
  Signal.mkSignals (Signal.pending s) m (Signal.actions s) (Signal.pending_signal s) (Signal.handler_addr s).

(** SIGKILL and SIGSTOP. *)
Definition unblockable : Z := Z.lor (Z.shiftl 1 (Signal.SIGKILL - 1)) (Z.shiftl 1 (Signal.SIGSTOP - 1)).

Definition action_of (handler : Z) : Signal.SignalAction :=
  if handler =? 0 then Signal.Default else if handler =? 1 then Signal.Ignore else Signal.Handler handler.

(** [CpuState] as it lies in memory. *)
Definition cpu_layout (ws : list Z) : Snapshot.CpuState :=
  let w i := nth i ws 0 in
  Snapshot.mkCpu (w 14%nat) (w 13%nat) (w 12%nat) (w 11%nat) (w 10%nat) (w 9%nat) (w 8%nat) (w 7%nat) (w 6%nat) (w 5%nat) (w 4%nat) (w 3%nat)
    (w 2%nat) (w 1%nat) (w 0%nat) (w 15%nat) (w 16%nat) (w 17%nat) (w 18%nat) (w 19%nat).

(** The words of a byte string. *)
Definition words (n : nat) (bs : list Z) : list Z := map (fun i => le_word (sub (8 * Z.of_nat i) 8 bs)) (seq 0 n).

(** [utsname]: six fields of 65 bytes. *)
Definition utsname : list Z :=
  concat (map (fun s => let bs := Path.bytes_of s in bs ++ zeros (65 - zlen bs))
    ["Linux"; "ziqa"; "6.1.0-ziqa"; "#1 SMP ZiqaKernel"; "x86_64"; "(none)"]%string).

(** Seconds and a fraction. *)
Definition time_bytes (ms unit : Z) : list Z := le_bytes 8 (ms / 1000) ++ le_bytes 8 (ms mod 1000 * unit).

Definition sysinfo_bytes (ms : Z) : list Z :=
  le_bytes 8 (ms / 1000) ++ zeros 24 ++ le_bytes 8 (512 * 1024 * 1024 / 4096) ++ le_bytes 8 (256 * 1024 * 1024) ++ zeros 32 ++ le_bytes 2 16 ++ zeros 6.

Definition random_byte (ms i : Z) : Z :=
  wrap 8 (Z.lxor (Z.shiftr (wrap 64 (wrap 64 (ms * 1103515245) + 12345)) 16) (wrap 64 (i * 6364136223846793005))).

Section process.
#[local] Existing Instance X8664Arch.
Context {XF W K D : Type} {fx : Files.File XF} {out : Vfs.Outside W XF} {DV : Devices D}.
Context `{X : X86} `{CD : Codec} `{VA : VirtAddrOps} (kernel_root : Z).
Context (detect : list Z -> option (Process.AbiKind * Scheduler.loader)) (user_cs user_ss : Z).

Abbreviation State := (KState (XF := XF) (W := W) (K := K) (D := D)).
Abbreviation SM := (M State AbiError).

Context (away : State -> State).

Implicit Types ctx : SyscallContext.

(** A fixed answer written to an address, if there is one. *)
Definition fill ctx (a : Z) (bs : list Z) : SM unit := if a =? 0 then mret tt else copy_out kernel_root ctx "EFAULT" a bs.

(** ** Processes *)

Definition sys_exit ctx : SM Z := _ ← update_caller ctx (Process.exit (sint 64 (arg 0 ctx))); mret 0.

Definition sys_getpid ctx : SM Z := p ← process ctx; mret (Process.pid p).

Definition sys_kill ctx : SM Z :=
  ok ← send_signal (arg 0 ctx) (wrap 8 (arg 1 ctx));
  if (ok : bool) then mret 0 else err ESRCH.

Definition sys_tgkill ctx : SM Z :=
  ok ← send_signal (arg 1 ctx) (wrap 8 (arg 2 ctx));
  if (ok : bool) then mret 0 else err ESRCH.

Definition sys_waitpid ctx : SM Z :=
  p ← process ctx;
  r ← step sched with_sched (Scheduler.waitpid (Process.pid p) (sint 64 (arg 0 ctx)));
  match r with
  | Some (pid, code) =>
    _ ← fill ctx (arg 1 ctx) (le_bytes 4 (Z.shiftl (Z.land code 0xFF) 8));
    mret pid
  | None => err 10
  end.

(** Writing the base registers. *)
Definition set_msrs (fs gs : Scheduler.Sched -> Z) : SM unit :=
  modify (fun k => let s := sched k in with_sched (Scheduler.with_cpu (Scheduler.raw s) (fs s) (gs s) (Scheduler.cr3 s) s) k).

Definition canonical (a : Z) : SM unit := if is_some (va_new a) then mret tt else lift Fault.

Definition sys_arch_prctl ctx : SM Z :=
  let code := wrap 32 (arg 0 ctx) in
  let addr := arg 1 ctx in
  p ← process ctx;
  if code =? 0x1002 then
    _ ← update_caller ctx (Process.set_bases addr (Process.gs_base p));
    _ ← canonical addr;
    _ ← set_msrs (fun _ => addr) Scheduler.gs_msr;
    mret 0
  else if code =? 0x1003 then _ ← copy_out kernel_root ctx "EFAULT: copy failed" addr (le_bytes 8 (Process.fs_base p)); mret 0
  else if code =? 0x1001 then
    _ ← update_caller ctx (Process.set_bases (Process.fs_base p) addr);
    _ ← canonical addr;
    _ ← set_msrs Scheduler.fs_msr (fun _ => addr);
    mret 0
  else if code =? 0x1004 then _ ← copy_out kernel_root ctx "EFAULT: copy failed" addr (le_bytes 8 (Process.gs_base p)); mret 0
  else err EINVAL.

Definition sys_set_tid_address ctx : SM Z := sys_getpid ctx.

(** Threads are forked like processes. *)
Definition sys_clone ctx : SM Z :=
  p ← process ctx;
  r ← fork (Process.pid p);
  match r with Some child => mret child | None => err EAGAIN end.

Definition sys_execve ctx : SM Z :=
  may ← allowed ctx Capability.ProcessCreate false false;
  if negb may then err EPERM
  else
    path_buf ← user_string kernel_root ctx (arg 0 ctx);
    if zlen path_buf =? 0 then err EFAULT
    else
      r ← read_raw (utf8_or_empty path_buf) 65536;
      match r with
      | None => err ENOENT
      | Some (n, buf) =>
        if n =? 0 then err ENOENT
        else
          p ← process ctx;
          ok ← exec_process detect user_cs user_ss (Process.pid p) (take (Z.to_nat n) buf);
          if (ok : bool) then mret 0 else err ENOENT
      end.

Definition sys_getpriority ctx : SM Z := mret 0.
Definition sys_setpriority ctx : SM Z := mret 0.
Definition sys_sched_getparam ctx : SM Z := _ ← fill ctx (arg 1 ctx) (le_bytes 4 0); mret 0.
Definition sys_prctl ctx : SM Z := mret 0.
Definition sys_pidfd_open ctx : SM Z := LinuxFs.alloc_file ctx (Path.bytes_of "pidfd:") 0.

(** ** Futexes *)

(** The physical address of a word, if its page is present. *)
Definition futex_addr (uaddr : Z) : SM (option Z) := fun k =>
  let m : KM (option Z) :=
    vaddr ← va uaddr;
    x ← try (get_leaf_entry_mut vaddr);
    match x with
    | None => mret None
    | Some x =>
      e ← read_entry (fst x) (snd x);
      if has (e_flags e) PRESENT then mret (Some (e_addr e + Z.land uaddr 0xFFF)) else mret None
    end in
  let '(r, s) := map_err (Other "") m (pages k) in (r, with_pages s k).

(** [FUTEX_MANAGER.lock().wait(..)] *)
Definition futex_wait (phys val bitset : Z) : SM bool := fun k =>
  match Futex.wait (mem (fst (pages k))) PHYS_OFFSET phys val bitset (futexes k) (sched k) with
  | Ok (b, qs, s) => (Ok b, with_futexes qs (with_sched s k))
  | Err _ => (Err (Other ""), k)
  | Panic => (Panic, k)
  | Fault => (Fault, k)
  end.

Definition futex_wake (phys count bitset : Z) : SM Z := fun k =>
  let '(n, qs, s) := Futex.wake phys count bitset (futexes k) (sched k) in (Ok n, with_futexes qs (with_sched s k)).

Definition futex_requeue (phys phys2 count count2 : Z) : SM Z := fun k =>
  let '(n, qs, s) := Futex.requeue phys phys2 count count2 (futexes k) (sched k) in (Ok n, with_futexes qs (with_sched s k)).

(** The value the futex word has. *)
Definition futex_word (phys : Z) : SM Z := fun k => (read_u32 (mem (fst (pages k))) (PHYS_OFFSET + phys), k).

(** The timeout in milliseconds; [inr] when it cannot be read. *)
Definition futex_timeout ctx : SM (option Z + unit) :=
  let ptr := arg 3 ctx in
  if ptr =? 0 then mret (inl None)
  else
    ts ← try_copy_in kernel_root ctx ptr 16;
    match ts with
    | None => mret (inr tt)
    | Some ts =>
      sec ← lift (umul (Z.max (sint 64 (le_word (sub 0 8 ts))) 0) 1000);
      ms ← lift (uadd sec (Z.max (sint 64 (le_word (sub 8 8 ts))) 0 / 1000000));
      mret (inl (Some ms))
    end.

Definition futex_do_wait ctx (phys bitset : Z) : SM Z :=
  t ← futex_timeout ctx;
  match t with
  | inr _ => err EFAULT
  | inl timeout =>
    blocked ← futex_wait phys (wrap 32 (arg 2 ctx)) bitset;
    if (blocked : bool) then
      p ← process ctx;
      _ ← (match timeout with Some ms => timer_sleep (Process.pid p) ms | None => mret tt end);
      _ ← schedule away;
      p ← process ctx;
      if Process.timed_out p then
        _ ← modify (fun k => with_futexes (Futex.cancel_wait phys (Process.pid p) (futexes k)) k);
        err 110
      else mret 0
    else err EAGAIN
  end.

Definition sys_futex ctx : SM Z :=
  let op := Z.land (wrap 32 (arg 1 ctx)) 0x7F in
  let count := wrap 64 (sint 32 (arg 2 ctx)) in
  let bitset := if (op =? 5) || (op =? 9) then wrap 32 (arg 5 ctx) else 0xFFFF_FFFF in
  a ← futex_addr (arg 0 ctx);
  match a with
  | None => err EFAULT
  | Some phys =>
    if (op =? 0) || (op =? 5) then futex_do_wait ctx phys bitset
    else if (op =? 1) || (op =? 9) then futex_wake phys count bitset
    else if (op =? 3) || (op =? 4) then
      stale ← (if op =? 4 then v ← futex_word phys; mret (negb (v =? wrap 32 (arg 5 ctx))) else mret false);
      if (stale : bool) then err EAGAIN
      else
        a2 ← futex_addr (arg 4 ctx);
        match a2 with
        | None => err EFAULT
        | Some phys2 => futex_requeue phys phys2 count (arg 3 ctx)
        end
    else err ENOSYS
  end.

(** ** Signals *)

Definition on_signals {A} ctx (f : Signal.SignalState -> A * Signal.SignalState) : SM A :=
  p ← process ctx;
  let '(a, s) := f (Process.signals p) in
  _ ← update_caller ctx (Process.set_signals s);
  mret a.

Definition sys_rt_sigaction ctx : SM Z :=
  let signum := wrap 8 (arg 0 ctx) in
  if (signum =? 0) || (Signal.MAX <? signum) || (signum =? Signal.SIGKILL) || (signum =? Signal.SIGSTOP) then err EINVAL
  else if arg 1 ctx =? 0 then mret 0
  else
    ws ← copy_in kernel_root ctx "EFAULT" (arg 1 ctx) 16;
    _ ← on_signals ctx (Signal.set_action signum (action_of (le_word (sub 0 8 ws))));
    mret 0.

Definition sys_rt_sigprocmask ctx : SM Z :=
  let how := wrap 32 (arg 0 ctx) in
  p ← process ctx;
  let old := Signal.blocked (Process.signals p) in
  _ ← (if arg 2 ctx =? 0 then mret tt else copy_out_as kernel_root ctx "EFAULT" (arg 2 ctx) 8 (le_bytes 4 old));
  if arg 1 ctx =? 0 then mret 0
  else
    ws ← copy_in kernel_root ctx "EFAULT" (arg 1 ctx) 8;
    let new_mask := le_word (sub 0 4 ws) in
    o ← (if how =? 0 then mret (Some (Z.lor old new_mask))
         else if how =? 1 then mret (Some (Z.land old (Signal.not32 new_mask)))
         else if how =? 2 then mret (Some new_mask)
         else mret None);
    match o with
    | None => err EINVAL
    | Some m => _ ← on_signals ctx (fun s => (tt, set_blocked (Z.land m (Signal.not32 unblockable)) s)); mret 0
    end.

(** The registers come from the frame on the user stack. *)
Definition sys_rt_sigreturn ctx : SM Z :=
  x ← context ctx;
  frame ← try_copy_in kernel_root ctx (Snapshot.rsp (Snapshot.ctx_cpu x)) 176;
  match frame with
  | None => err EFAULT
  | Some frame =>
    let cpu := cpu_layout (words 20 (drop 16 frame)) in
    _ ← update_context ctx (fun x => Snapshot.mkCtx cpu (Snapshot.ctx_cwd x) (Snapshot.ctx_cwd_len x));
    mret 0
  end.

Definition handler_of (a : Signal.SignalAction) : Z :=
  match a with Signal.Default => 0 | Signal.Ignore => 1 | Signal.Handler addr => addr end.

(** [sys_rt_sigaction] of [src/abi/linux/signal.rs]. *)
Definition signal_rt_sigaction ctx : SM Z :=
  let signum := wrap 8 (arg 0 ctx) in
  if (signum =? 0) || (Signal.MAX <? signum) then err EINVAL
  else
    p ← process ctx;
    _ ← fill ctx (arg 2 ctx) (le_bytes 8 (handler_of (Signal.get_action signum (Process.signals p))) ++ zeros 24);
    if arg 1 ctx =? 0 then mret 0
    else
      buf ← copy_in kernel_root ctx "EFAULT" (arg 1 ctx) 32;
      ok ← on_signals ctx (Signal.set_action signum (action_of (le_word (sub 0 8 buf))));
      if (ok : bool) then mret 0 else err EINVAL.

Definition sys_sigaltstack ctx : SM Z := mret 0.

(** ** Time *)

(** The caller sleeps and runs again. *)
Definition sleep_and_resume ctx (ms : Z) : SM unit :=
  p ← process ctx;
  _ ← sleep_ms (Process.pid p) ms;
  _ ← schedule away;
  update_caller ctx (fun p => Process.set_timed_out false (Process.set_state Process.Running p)).

Definition sys_nanosleep ctx : SM Z :=
  ms ← (if arg 0 ctx =? 0 then mret 1
        else
          ts ← copy_in kernel_root ctx "EFAULT" (arg 0 ctx) 16;
          sec ← lift (umul (le_word (sub 0 8 ts)) 1000);
          lift (uadd sec (le_word (sub 8 8 ts) / 1000000)));
  _ ← sleep_and_resume ctx (Z.max ms 1);
  mret 0.

Definition sys_gettimeofday ctx : SM Z := ms ← uptime; _ ← fill ctx (arg 0 ctx) (time_bytes ms 1000); mret 0.

Definition sys_time ctx : SM Z := ms ← uptime; _ ← fill ctx (arg 0 ctx) (le_bytes 8 (ms / 1000)); mret (ms / 1000).

Definition sys_clock_gettime ctx : SM Z :=
  if arg 1 ctx =? 0 then err EFAULT
  else ms ← uptime; _ ← copy_out kernel_root ctx "EFAULT" (arg 1 ctx) (time_bytes ms 1000000); mret 0.

Definition sys_clock_getres ctx : SM Z := _ ← fill ctx (arg 1 ctx) (zeros 8 ++ le_bytes 8 1); mret 0.

Definition sys_timerfd_create ctx : SM Z := LinuxFs.alloc_file ctx (Path.bytes_of "timerfd:") 0.

(** ** Other calls *)

Definition sys_uname ctx : SM Z := _ ← copy_out kernel_root ctx "EFAULT" (arg 0 ctx) utsname; mret 0.

Definition terminal_requests : list Z := [0x5413; 0x5414; 0x5401; 0x5402].

Definition sys_ioctl ctx : SM Z :=
  let request := arg 1 ctx in
  if existsb (Z.eqb request) terminal_requests then mret 0
  else
    may ← allowed ctx Capability.DeviceIo true false;
    if negb may then throw PermissionDenied
    else if Z.land request 0xFF00 =? 0x6400 then
      r ← attempt (fun k => (mach k, dev k)) (fun t k => with_mach (fst t) (with_dev (snd t) k)) (drm_ioctl request (arg 2 ctx));
      match r with inl v => mret (wrap 64 v) | inr e => throw (Other e) end
    else err 25.

(** [poll] and [select]. *)
Definition sys_poll ctx : SM Z :=
  let timeout_ms := sint 64 (arg 2 ctx) in
  input ← (if 0 <? arg 1 ctx then stdin 256 else mret []);
  if 0 <? zlen input then mret 1
  else _ ← (if 0 <? timeout_ms then sleep_and_resume ctx timeout_ms else mret tt); mret 0.

Definition rlimit_bytes : list Z := le_bytes 8 0x1_0000_0000 ++ le_bytes 8 0x1_0000_0000.

Definition sys_getrlimit ctx : SM Z :=
  if arg 1 ctx =? 0 then err EFAULT else _ ← copy_out kernel_root ctx "EFAULT" (arg 1 ctx) rlimit_bytes; mret 0.

Definition sys_setrlimit ctx : SM Z := mret 0.

Definition sys_prlimit64 ctx : SM Z := _ ← fill ctx (arg 3 ctx) rlimit_bytes; mret 0.

Definition sys_sysinfo ctx : SM Z :=
  if arg 0 ctx =? 0 then err EFAULT
  else ms ← uptime; _ ← copy_out kernel_root ctx "EFAULT" (arg 0 ctx) (sysinfo_bytes ms); mret 0.

Definition sys_getrandom ctx : SM Z :=
  let n := arg 1 ctx in
  ms ← uptime;
  _ ← LinuxFs.vec_zeroed n;
  _ ← copy_out kernel_root ctx "EFAULT" (arg 0 ctx) (map (random_byte ms) (seqZ 0 n));
  mret n.

Definition sys_epoll_create1 ctx : SM Z :=
  s ← step vfs with_vfs (Vfs.handle_scheme "event:" 0);
  match s with
  | Some r => id ← lift r; LinuxFs.alloc_scheme ctx "event:" 0 id
  | None => throw (Other "ENOSYS")
  end.

Definition sys_eventfd ctx : SM Z := LinuxFs.alloc_file ctx (Path.bytes_of "eventfd:") 0.
Definition sys_signalfd ctx : SM Z := LinuxFs.alloc_file ctx (Path.bytes_of "signalfd:") 0.

Definition sys_getcpu ctx : SM Z :=
  _ ← fill ctx (arg 0 ctx) (le_bytes 4 0);
  _ ← fill ctx (arg 1 ctx) (le_bytes 4 0);
  mret 0.

End process.

End LinuxProc.
