(* ===== verification/LinuxNet.v ===== *)
(** * Socket calls of the Linux ABI

    Models [src/abi/linux/net.rs] and the socket handlers of
    [src/abi/linux/mod.rs] on the table of [Socket]. *)

From S2P Require Import Prelude Bytes Abi Capability Vma FdTable Process Scheduler Path Files Vfs RmmArch RmmFrame Paging Compress UserCopy Snapshot Socket Kernel LinuxFs.
Import RmmArch Paging Compress Kernel.

Module LinuxNet.

Definition SOCKADDR_SIZE : Z := 16.

(** The first eight bytes of [sockaddr_in]; the port is not byte-swapped. *)
Definition sockaddr_of (raw : list Z) : Socket.SockAddrInet := Socket.mkAddr (le_word (sub 0 2 raw)) (le_word (sub 2 2 raw)) (sub 4 4 raw).

Definition sockaddr_bytes (sa : Socket.SockAddrInet) : list Z := le_bytes 2 (Socket.family sa) ++ le_bytes 2 (Socket.port sa) ++ Socket.addr sa.

Definition is_local (sa : Socket.SockAddrInet) : bool :=
  (Socket.family sa =? 1) || ((Socket.family sa =? 2) && bool_decide (Socket.addr sa = [127; 0; 0; 1])) || bool_decide (Socket.addr sa = [0; 0; 0; 0]).

Section net.
#[local] Existing Instance X8664Arch.
Context {XF W K D : Type} {SK : Socket.Stack K}.
Context `{X : X86} `{CD : Codec} `{VA : VirtAddrOps} (kernel_root : Z) (turns : nat).

Abbreviation State := (KState (XF := XF) (W := W) (K := K) (D := D)).
Abbreviation SM := (M State AbiError).

Implicit Types ctx : SyscallContext.

Definition sockets : SM Socket.Sockets := read_part (fun k => Socket.sockets (net k)).

Definition entry (fd : Z) : SM (option Socket.SocketEntry) := ss ← sockets; mret (ss !! fd).

Definition on_sockets (f : Socket.Sockets -> Socket.Sockets) : SM unit := modify (fun k => with_net (Socket.on_sockets f (net k)) k).

(** [socks.get_mut(fd).unwrap()] *)
Definition update (fd : Z) (f : Socket.SocketEntry -> Socket.SocketEntry) : SM unit :=
  e ← entry fd;
  match e with Some _ => on_sockets (alter f fd) | None => lift Panic end.

Definition read_sockaddr ctx (a : Z) : SM Socket.SockAddrInet :=
  raw ← copy_in kernel_root ctx "EFAULT: read_sockaddr" a SOCKADDR_SIZE;
  mret (sockaddr_of raw).

Definition write_sockaddr ctx (a : Z) (sa : Socket.SockAddrInet) : SM unit :=
  copy_out kernel_root ctx "EFAULT: write_sockaddr" a (sockaddr_bytes sa).

Definition write_u32_to_user ctx (a v : Z) : SM unit := copy_out kernel_root ctx "EFAULT: write_u32" a (le_bytes 4 v).

Definition if_network ctx (m : SM Z) : SM Z :=
  may ← allowed ctx Capability.Network true false;
  if negb may then throw PermissionDenied else m.

Definition sys_socket ctx : SM Z :=
  if_network ctx (
    let socktype := wrap 32 (arg 1 ctx) in
    fd ← LinuxFs.alloc_file ctx (Path.bytes_of "socket:") socktype;
    _ ← on_sockets (Socket.create fd (wrap 32 (arg 0 ctx)) socktype (wrap 32 (arg 2 ctx)));
    mret fd).

Definition sys_bind ctx : SM Z :=
  let fd := arg 0 ctx in
  e ← entry fd;
  match e with
  | None => err EBADF
  | Some e =>
    if negb (bool_decide (Socket.state e = Socket.Created)) then err EINVAL
    else
      _ ← (if arg 1 ctx =? 0 then mret tt else raw ← read_sockaddr ctx (arg 1 ctx); update fd (Socket.set_local (Some raw)));
      _ ← update fd (Socket.set_state Socket.Bound);
      mret 0
  end.

Definition sys_listen ctx : SM Z :=
  let fd := arg 0 ctx in
  e ← entry fd;
  match Socket.domain <$> e with
  | Some Socket.Inet =>
    r ← attempt net with_net (Socket.tcp_listen fd);
    match r with inl _ => mret 0 | inr _ => err EINVAL end
  | Some _ => _ ← update fd (Socket.set_state Socket.Listening); mret 0
  | None => err EBADF
  end.

(** A listener at the address, or any listener. *)
Definition local_listener (sa : Socket.SockAddrInet) (ss : Socket.Sockets) : option Z :=
  match Socket.find_listener (Socket.port sa) (Socket.addr sa) ss with
  | Some l => Some l
  | None => Socket.find_any_listener ss
  end.

Definition connect_local (fd : Z) (sa : Socket.SockAddrInet) : SM Z :=
  ss ← sockets;
  match local_listener sa ss with
  | None => err 111
  | Some listener =>
    _ ← update listener (fun e => Socket.set_pending (Socket.pending e ++ [fd]) e);
    _ ← update fd (Socket.set_state Socket.Connected);
    mret 0
  end.

Definition sys_connect ctx : SM Z :=
  let fd := arg 0 ctx in
  if arg 1 ctx =? 0 then err EFAULT
  else
    raw ← read_sockaddr ctx (arg 1 ctx);
    e ← entry fd;
    match e with
    | None => err EBADF
    | Some e =>
      if bool_decide (Socket.state e = Socket.Closed) then err EBADF
      else
        _ ← update fd (Socket.set_remote (Some raw));
        if is_local raw then connect_local fd raw
        else if bool_decide (Socket.domain e = Socket.Inet) && bool_decide (Socket.socktype e = Socket.Stream) then
          ms ← uptime;
          r ← attempt net with_net (Socket.tcp_connect ms turns fd (Socket.addr raw) (Socket.port raw));
          match r with inl _ => mret 0 | inr _ => err 111 end
        else _ ← update fd (Socket.set_state Socket.Connected); mret 0
    end.

(** [pending.pop()] takes the last connection. *)
Definition accept_local ctx (fd client_fd : Z) (rest : list Z) : SM Z :=
  _ ← update fd (Socket.set_pending rest);
  o ← on_fds ctx (FdTable.alloc_file (Path.bytes_of "socket:") 1);
  match o with
  | None => err EMFILE
  | Some accept_fd =>
    let accept_fd := Z.of_nat accept_fd in
    _ ← on_sockets (Socket.create accept_fd 2 1 0);
    server ← entry fd;
    client ← entry client_fd;
    _ ← update accept_fd (fun e =>
          Socket.set_remote (client ≫= Socket.local_addr) (Socket.set_local (server ≫= Socket.local_addr)
            (Socket.set_paired (Some client_fd) (Socket.set_state Socket.Connected e))));
    _ ← update client_fd (Socket.set_paired (Some accept_fd));
    mret accept_fd
  end.

Definition accept_remote ctx (fd : Z) : SM Z :=
  o ← on_fds ctx (FdTable.alloc_file (Path.bytes_of "socket:") 1);
  match o with
  | None => err EMFILE
  | Some accept_fd =>
    let accept_fd := Z.of_nat accept_fd in
    _ ← on_sockets (Socket.create accept_fd 2 1 0);
    r ← attempt net with_net (Socket.tcp_accept fd accept_fd);
    match r with
    | inl (addr, port) =>
      _ ← (if arg 1 ctx =? 0 then mret tt else write_sockaddr ctx (arg 1 ctx) (Socket.mkAddr 2 port addr));
      _ ← (if arg 2 ctx =? 0 then mret tt else write_u32_to_user ctx (arg 2 ctx) SOCKADDR_SIZE);
      mret accept_fd
    | inr e =>
      _ ← on_sockets (Socket.remove accept_fd);
      if String.eqb e "EAGAIN" then err EAGAIN else err EINVAL
    end
  end.

Definition sys_accept ctx : SM Z :=
  let fd := arg 0 ctx in
  e ← entry fd;
  match e with
  | None => err EBADF
  | Some e =>
    if negb (bool_decide (Socket.state e = Socket.Listening)) then err EINVAL
    else
      match rev (Socket.pending e) with
      | client_fd :: rest => accept_local ctx fd client_fd (rev rest)
      | [] =>
        if bool_decide (Socket.domain e = Socket.Inet) && bool_decide (Socket.socktype e = Socket.Stream) then accept_remote ctx fd
        else err EAGAIN
      end
  end.

Definition sys_sendto ctx : SM Z :=
  if_network ctx (
    let fd := arg 0 ctx in
    let len := arg 2 ctx in
    e ← entry fd;
    match e with
    | None => err EBADF
    | Some e =>
      if bool_decide (Socket.state e = Socket.Closed) then err EBADF
      else if (arg 1 ctx =? 0) || (len =? 0) then mret 0
      else
        _ ← LinuxFs.vec_zeroed len;
        tmp ← copy_in kernel_root ctx "EFAULT" (arg 1 ctx) len;
        _ ← on_sockets (fun ss => default ss (Socket.sock_send fd tmp ss));
        mret len
    end).

Definition sys_recvfrom ctx : SM Z :=
  if_network ctx (
    let fd := arg 0 ctx in
    let len := arg 2 ctx in
    if (arg 1 ctx =? 0) || (len =? 0) then mret 0
    else
      ss ← sockets;
      o ← lift (Socket.sock_peek fd len ss);
      match o with
      | None => err EBADF
      | Some [] => err EAGAIN
      | Some bs =>
        _ ← copy_out kernel_root ctx "EFAULT" (arg 1 ctx) bs;
        _ ← on_sockets (alter (Socket.advance (zlen bs)) fd);
        mret (zlen bs)
      end).

End net.

End LinuxNet.
