(* ===== verification/Redox.v ===== *)
(** * System calls of the Redox ABI

    Models [src/abi/redox.rs] up to its table of numbers, which is in
    [Syscall].  Calls that Redox shares with Linux go to the Linux handlers:
    [delegate n] runs the caller's arguments under the Linux number [n].
    [get_fb_info] is the one of [src/drivers/virtio_gpu.rs]. *)

From S2P Require Import Prelude Bytes Abi Capability Vma FdTable Process Scheduler Path Text Files Vfs RmmArch RmmFrame Paging Compress UserCopy Elf Snapshot Kernel LinuxFs NativeAbi LinuxMem LinuxProc.
Import RmmArch RmmFrame Paging Compress Kernel.

Module Redox.

(** ** Numbers and structures *)

Definition ENOMEM : Z := 12.
Definition EEXIST : Z := 17.
Definition ENODEV : Z := 19.

Definition ZIQA_MAGIC_FD : Z := 0x7a69.
Definition ZIQA_REGS_ENV_FD : Z := 0x7a70.
Definition ZIQA_SIGACTIONS_FD : Z := 0x7a71.

Definition is_ziqa_pseudo_fd (fd : Z) : bool := (fd =? ZIQA_MAGIC_FD) || (fd =? ZIQA_REGS_ENV_FD) || (fd =? ZIQA_SIGACTIONS_FD).

Definition REDOX_MAP_SIZE : Z := 32.
Definition REDOX_MAP_FIXED : Z := 0x0004.
Definition REDOX_MAP_PROT_EXEC : Z := 0x0001_0000.
Definition REDOX_MAP_PROT_WRITE : Z := 0x0002_0000.
Definition REDOX_MAP_PROT_READ : Z := 0x0004_0000.

Record RedoxMap := mkMap { m_offset : Z; m_size : Z; m_flags : Z; m_address : Z }.

Definition decode_usize (buf : list Z) (offset : Z) : Z := le_word (sub offset 8 buf).

Definition decode_map (raw : list Z) : RedoxMap :=
  mkMap (decode_usize raw 0) (decode_usize raw 8) (decode_usize raw 16) (decode_usize raw 24).

Definition align_page (size : Z) : option Z :=
  if size =? 0 then None else if size + 4095 <? 2 ^ 64 then Some (Z.land (size + 4095) (not_usize 4095)) else None.

(** [flags & bit != 0] *)
Definition any (flags bit : Z) : bool := negb (Z.land flags bit =? 0).

Definition redox_map_flags_to_region_flags (flags : Z) : Vma.MemoryRegionFlags :=
  let has_prot := any flags (Z.lor (Z.lor REDOX_MAP_PROT_EXEC REDOX_MAP_PROT_WRITE) REDOX_MAP_PROT_READ) in
  Vma.mkFlags (if has_prot then any flags REDOX_MAP_PROT_READ else true) (if has_prot then any flags REDOX_MAP_PROT_WRITE else true)
    (any flags REDOX_MAP_PROT_EXEC) true false.

(** ** Names of windows *)

Definition parse_orbital_window_geometry (path : string) : option (Z * Z * Z * Z) :=
  rest ← Text.strip_prefix "orbital:" path;
  let rest := Path.trim_start_matches Path.slash rest in
  if is_some (Path.find_char Path.slash rest) then
    match Text.splitn 6 Path.slash rest with
    | _ :: x :: y :: w :: h :: _ =>
      x ← Text.parse_signed 64 x; y ← Text.parse_signed 64 y; w ← Text.parse_unsigned 64 w; h ← Text.parse_unsigned 64 h;
      Some (Z.max x 0, Z.max y 0, w, h)
    | _ => None
    end
  else None.

(** ** Displays *)

(** The buffer of the GPU with its width and height, and that of the BGA
    adapter with its depth. *)
Record Displays := mkDisplays { gpu : option (Z * Z * Z); bga : option (Z * Z * Z * Z) }.

Definition get_fb_info (d : Displays) : option (Z * Z * Z * Z) :=
  match gpu d with
  | Some (fb_ptr, width, height) => if fb_ptr =? 0 then bga d else Some (fb_ptr, width, height, 32)
  | None => bga d
  end.

Section redox.
#[local] Existing Instance X8664Arch.
Context {XF W K D : Type} {fx : Files.File XF} {out : Vfs.Outside W XF} {DV : Devices D}.
Context `{X : X86} `{XU : LinuxMem.X86Unmap} `{CD : Codec} `{VA : VirtAddrOps} `{BS : BinarySearch} (kernel_root : Z).

Abbreviation SM := (M (KState (XF := XF) (W := W) (K := K) (D := D)) AbiError).

Context (displays : D -> Displays) (delegate : SyscallContext -> Z -> SM Z).

Implicit Types ctx : SyscallContext.

(** ** Reading arguments *)

(** The map, or the word to return. *)
Definition read_redox_map ctx : SM (RedoxMap + Z) :=
  if negb (arg 2 ctx =? REDOX_MAP_SIZE) then mret (inr (neg EINVAL))
  else
    o ← try_copy_in kernel_root ctx (arg 1 ctx) REDOX_MAP_SIZE;
    mret (match o with Some raw => inl (decode_map raw) | None => inr (neg EFAULT) end).

Definition read_user_u64 ctx (a : Z) : SM (Z + Z) :=
  o ← try_copy_in kernel_root ctx a 8;
  mret (match o with Some raw => inl (le_word raw) | None => inr (neg EFAULT) end).

(** ** The calls *)

Definition proc_verbs : list Z := [0; 4; 5; 6; 7; 10; 14; 16; 17].

Definition handle_sys_call ctx : SM Z :=
  let metadata_count := Z.land (arg 3 ctx) 0xff in
  let metadata_ptr := arg 4 ctx in
  if metadata_count =? 0 then err EINVAL
  else
    v ← read_user_u64 ctx metadata_ptr;
    match v with
    | inr errno => mret errno
    | inl verb =>
      if verb =? 2 then
        status ← (if 1 <? metadata_count then
                    a ← lift (uadd metadata_ptr 8);
                    s ← read_user_u64 ctx a;
                    mret (default 0 (ok s))
                  else mret 0);
        _ ← update_caller ctx (Process.set_state (Process.Exited (Z.land status 0xff)));
        mret 0
      else if verb =? 12 then p ← process ctx; mret (Process.parent p)
      else if bool_decide (verb ∈ proc_verbs) then mret 0
      else err EINVAL
    end.

Definition display_path : list Z := Path.bytes_of "orbital:/1280/960".

Definition handle_fpath ctx : SM Z :=
  o ← path_of ctx (arg 0 ctx);
  match o with
  | None => err EBADF
  | Some p =>
    let path_str := utf8_or_empty p in
    let bytes := if String.eqb path_str "orbital:99.0" then display_path else Path.bytes_of path_str in
    let copy_len := Z.min (zlen bytes) (arg 2 ctx) in
    _ ← copy_out kernel_root ctx "EFAULT: write buffer" (arg 1 ctx) (take (Z.to_nat copy_len) bytes);
    mret copy_len
  end.

Definition handle_write ctx : SM Z :=
  let fd := arg 0 ctx in
  let count := arg 2 ctx in
  if (fd =? ZIQA_REGS_ENV_FD) && (8 <=? count) then
    v ← read_user_u64 ctx (arg 1 ctx);
    match v with
    | inr errno => mret errno
    | inl fs_base =>
      _ ← update_caller ctx (fun p => Process.set_bases fs_base (Process.gs_base p) p);
      _ ← LinuxProc.canonical fs_base;
      _ ← LinuxProc.set_msrs (fun _ => fs_base) Scheduler.gs_msr;
      mret count
    end
  else if (fd <=? 2) || is_ziqa_pseudo_fd fd then mret count
  else delegate ctx 1.

Definition handle_dup ctx : SM Z :=
  let fd := arg 0 ctx in
  if is_ziqa_pseudo_fd fd then mret fd
  else if (fd <? 3) && negb (arg 2 ctx =? 0) then
    path ← copy_in kernel_root ctx "EFAULT: read buffer" (arg 1 ctx) (Z.min (arg 2 ctx) 32);
    if bool_decide (path = Path.bytes_of "regs/env") then mret ZIQA_REGS_ENV_FD
    else if bool_decide (path = Path.bytes_of "sigactions") then mret ZIQA_SIGACTIONS_FD
    else mret fd
  else
    o ← on_fds ctx (FdTable.dup (fd_index fd) None);
    LinuxFs.some_fd o EBADF.

Definition handle_fcntl ctx : SM Z :=
  let fd := arg 0 ctx in
  let cmd := arg 1 ctx in
  if is_ziqa_pseudo_fd fd then mret 0
  else
    d ← get_fd ctx fd;
    match d with
    | None => err EBADF
    | Some d =>
      if (cmd =? 0) || (cmd =? 1030) then o ← on_fds ctx (FdTable.dup (fd_index fd) None); LinuxFs.some_fd o EBADF
      else if (cmd =? 1) || (cmd =? 2) then mret 0
      else if cmd =? 3 then mret (FdTable.flags d)
      else if cmd =? 4 then _ ← update_fd ctx fd (LinuxFs.set_flags (fun _ => wrap 32 (arg 2 ctx))); mret 0
      else err EINVAL
    end.

(** [while mapped < size]; whether every page could be mapped. *)
Fixpoint demand_pages (n : nat) (root : option Z) (a page_flags : Z) : KM bool :=
  match n with
  | O => mret true
  | S n =>
    page ← va a;
    done ← demand_page_for_root kernel_root root page page_flags None;
    if (done : bool) then demand_pages n root (a + 4096) page_flags else mret false
  end.

Definition on_tables {A} (m : KM A) : SM A := map_err (Other "") (fun k => let '(r, t) := m (pages k) in (r, with_pages t k)).

(** The place of an anonymous mapping, or the word to return. *)
Definition choose_base (map : RedoxMap) (size : Z) (i : Process.Image) : res AbiError (Z + Z) :=
  start_hint ← Vma.or_panic (va_new (if negb (m_address map =? 0) then m_address map else Process.mmap_bump i));
  if any (m_flags map) REDOX_MAP_FIXED && negb (m_address map =? 0) then
    free ← Vma.is_range_free (Process.vmas i) start_hint size;
    Ok (if free : bool then inl start_hint else inr (neg EEXIST))
  else
    o ← Vma.find_free_range (Process.vmas i) size start_hint;
    Ok (match o with Some base => inl base | None => inr (neg ENOMEM) end).

Definition map_redox_anonymous ctx (map : RedoxMap) : SM Z :=
  may ← allowed ctx Capability.Memory true false;
  if negb may then throw PermissionDenied
  else
    match align_page (m_size map) with
    | None => err EINVAL
    | Some size =>
      p ← process ctx;
      let i := Process.image p in
      c ← lift (choose_base map size i);
      match c with
      | inr errno => mret errno
      | inl base =>
        e ← lift (uadd base size);
        _ ← set_mmap_bump ctx (Z.max (Process.mmap_bump i) e);
        let region_flags := redox_map_flags_to_region_flags (m_flags map) in
        done ← on_tables (demand_pages (Z.to_nat (size / 4096)) (Process.page_table_frame i) base (region_flags_to_page_flags region_flags));
        if negb done then err ENOMEM
        else
          end_ ← lift (Vma.or_panic (va_add base size));
          _ ← on_vmas ctx (Vma.add_region (Vma.mkVma base end_ region_flags false None (m_offset map) 0 None));
          mret base
      end
    end.

Definition handle_openat ctx : SM Z :=
  may ← allowed ctx Capability.File false false;
  if negb may then throw PermissionDenied
  else
    path_buf ← copy_in kernel_root ctx "EFAULT: read buffer" (arg 1 ctx) (Z.min (arg 2 ctx) 4096);
    let path := LinuxFs.translate_path (utf8_or_empty path_buf) in
    let flags := arg 3 ctx in
    s ← step vfs with_vfs (Vfs.handle_scheme path flags);
    match s with
    | Some r => id ← lift r; LinuxFs.alloc_scheme ctx path (wrap 32 flags) id
    | None =>
      r ← read_raw path 1;
      if is_some r then LinuxFs.alloc_file ctx (Path.bytes_of path) (wrap 32 flags) else err ENOENT
    end.

(** ** Mapping the display *)

Definition base_flags : Z := Z.lor (Z.lor PRESENT WRITABLE) USER_ACCESSIBLE.
Definition wc_flags : Z := Z.lor base_flags HUGE_PAGE.

(** Whether every page could be mapped. *)
Fixpoint map_display (n : nat) (root virt phys : Z) : KM bool :=
  match n with
  | O => mret true
  | S n =>
    page ← va virt;
    a ← lift (uadd phys 0);
    frame ← lift (phys_frame a);
    r ← try (map_to root page frame base_flags);
    match r with
    | Some Mapped => map_display n root (virt + 4096) (phys + 4096)
    | _ => mret false
    end
  end.

Fixpoint set_wc (n : nat) (root virt : Z) : KM unit :=
  match n with
  | O => mret tt
  | S n =>
    page ← va virt;
    _ ← try (LinuxMem.update_flags root page wc_flags);
    set_wc n root (virt + 4096)
  end.

(** The first byte of a window in the display, [None] if it starts outside. *)
Definition window_start (width height bpp fb_phys x y : Z) : res AbiError (option Z) :=
  if (width <=? x) || (height <=? y) then Ok None
  else
    row ← umul y width;
    px ← uadd row x;
    byte_offset ← umul px (bpp / 8);
    Ok (Some (Elf.satadd fb_phys (Z.land byte_offset (not_usize 4095)))).

Definition display_start ctx (fd width height bpp fb_phys : Z) : SM (option Z) :=
  o ← path_of ctx fd;
  match (o ≫= Path.from_utf8) ≫= parse_orbital_window_geometry with
  | Some (x, y, _, _) => lift (window_start width height bpp fb_phys x y)
  | None => mret (Some fb_phys)
  end.

Definition map_display_at ctx (map : RedoxMap) (fb_phys map_size page_count : Z) : SM Z :=
  let fb_user_virt := if negb (m_address map =? 0) then m_address map else 0x400_0000_0000 in
  user_start ← lift (Vma.or_panic (va_new fb_user_virt));
  p ← process ctx;
  root ← on_tables (LinuxMem.mapper_for_root (Process.page_table_frame (Process.image p)));
  s ← read_part pages;
  match snd s with
  | None => err ENOMEM
  | Some _ =>
    let n := Z.to_nat page_count in
    done ← on_tables (map_display n root user_start fb_phys);
    if negb done then err ENOMEM
    else
      _ ← on_tables (set_wc n root user_start);
      e ← lift (uadd fb_user_virt map_size);
      end_ ← lift (Vma.or_panic (va_new e));
      _ ← on_vmas ctx (Vma.add_region (Vma.mkVma user_start end_ NativeAbi.read_write_region false None 0 0 None));
      mret fb_user_virt
  end.

Definition handle_fmap ctx : SM Z :=
  let fd := arg 0 ctx in
  m ← read_redox_map ctx;
  match m with
  | inr errno => mret errno
  | inl map =>
    if fd =? 2 ^ 64 - 1 then map_redox_anonymous ctx map
    else
      d ← read_part (fun k => displays (dev k));
      match get_fb_info d with
      | None => err ENODEV
      | Some (fb_kernel_virt, width, height, bpp) =>
        px ← lift (umul width height);
        fb_size ← lift (umul px (bpp / 8));
        let map_size := default fb_size (align_page (Z.min (m_size map) fb_size)) in
        n ← lift (uadd map_size 4095);
        o ← display_start ctx fd width height bpp (wrap 64 (fb_kernel_virt - PHYS_OFFSET));
        match o with
        | None => map_redox_anonymous ctx map
        | Some fb_phys => map_display_at ctx map fb_phys map_size (n / 4096)
        end
      end
  end.

End redox.

End Redox.
