(* ===== verification/Syscall.v ===== *)
(** * Dispatching system calls

    Models [dispatch_syscall] of [src/abi/syscall.rs], the plugin registry of
    [src/abi/mod.rs], the trait object of [src/abi/handler.rs], the dispatch
    tables of [src/abi/linux/], [src/abi/redox.rs] and [src/abi/wasm/mod.rs]
    and the entry [rust_syscall_handler] of [src/arch/x86_64/switch.rs].  The
    [bpf] call is an argument.  Log lines are left out. *)

From S2P Require Import Prelude Bytes Abi Capability Signal Vma FdTable Process Scheduler Ipc Timer Path Files Vfs RmmArch RmmFrame Paging Compress UserCopy Snapshot Socket Shm Kernel Uring LinuxFs NativeAbi LinuxMem LinuxProc LinuxNet Redox.
Import RmmArch RmmFrame Paging Compress Kernel.

Module Syscall.

(** ** [AbiRegistry] *)

Definition MAX_PLUGINS : Z := 8.

(** A plugin with its kind, its test for binaries and the rest of it. *)
Record AbiPlugin (P : Type) := mkPlugin { kind : Process.AbiKind; can_load : list Z -> bool; methods : P }.
Arguments mkPlugin {P}.
Arguments kind {P}.
Arguments can_load {P}.
Arguments methods {P}.

Record AbiRegistry (P : Type) := mkRegistry { plugins : list (option (AbiPlugin P)); count : Z }.
Arguments mkRegistry {P}.
Arguments plugins {P}.
Arguments count {P}.

Definition new_registry {P} : AbiRegistry P := mkRegistry (replicate 8 None) 0.

Definition register {P} (p : AbiPlugin P) (r : AbiRegistry P) : res AbiError unit * AbiRegistry P :=
  if MAX_PLUGINS <=? count r then (Err (Other "ABI registry full"), r)
  else
    match list_find (fun s => bool_decide (is_Some s) = false) (plugins r) with
    | Some (i, _) => (Ok tt, mkRegistry (<[i := Some p]> (plugins r)) (count r + 1))
    | None => (Err (Other "ABI registry full"), r)
    end.

Definition first_plugin {P} (f : AbiPlugin P -> bool) (r : AbiRegistry P) : option (AbiPlugin P) := List.find f (omap id (plugins r)).

Definition detect_abi {P} (binary : list Z) (r : AbiRegistry P) : option (AbiPlugin P) := first_plugin (fun p => can_load p binary) r.

Definition get_abi {P} (k : Process.AbiKind) (r : AbiRegistry P) : option (AbiPlugin P) := first_plugin (fun p => bool_decide (kind p = k)) r.

(** [can_load] of the Linux and of the Redox plugin. *)
Definition can_load_elf (binary : list Z) : bool := bool_decide (take 4 binary = [0x7F; 69; 76; 70]).

(** [can_load] of the WebAssembly plugin. *)
Definition can_load_wasm (binary : list Z) : bool := bool_decide (take 4 binary = [0x00; 97; 115; 109]).

(** [init_abi_registry] of [src/init.rs]. *)
Definition init_abi_registry {P} (linux redox wasm : P) : AbiRegistry P :=
  let r := snd (register (mkPlugin Process.LinuxElf can_load_elf linux) new_registry) in
  let r := snd (register (mkPlugin Process.RedoxElf can_load_elf redox) r) in
  snd (register (mkPlugin Process.Wasm can_load_wasm wasm) r).

Section dispatch.
#[local] Existing Instance X8664Arch.
Context {XF W K D : Type} {fx : Files.File XF} {out : Vfs.Outside W XF} {DV : Devices D} {SK : Socket.Stack K}.
Context `{X : X86} `{XU : LinuxMem.X86Unmap} `{CD : Codec} `{VA : VirtAddrOps} `{BS : BinarySearch}.

Abbreviation State := (KState (XF := XF) (W := W) (K := K) (D := D)).
Abbreviation SM := (M State AbiError).

(** What the handlers are given from outside. *)
Record Env := mkEnv {
  kernel_root : Z;
  detect : list Z -> option (Process.AbiKind * Scheduler.loader);
  user_cs : Z;
  user_ss : Z;
  away : State -> State;
  turns : nat;
  pci : list NativeAbi.PciDevice;
  sys_bpf : SyscallContext -> SM Z;
  displays : D -> Redox.Displays
}.

Context (env : Env).

Implicit Types ctx : SyscallContext.

(** ** The Linux tables

    [None] is a number the family does not have. *)

Definition memory_handle ctx : option (SM Z) :=
  match number ctx with
  | 12 => Some (LinuxMem.sys_brk ctx)
  | 9 => Some (LinuxMem.sys_mmap ctx)
  | 10 => Some (LinuxMem.sys_mprotect ctx)
  | 11 => Some (LinuxMem.sys_munmap ctx)
  | 233 => Some (LinuxMem.sys_madvise ctx)
  | 26 => Some (LinuxMem.sys_msync ctx)
  | 319 => Some (LinuxMem.sys_memfd_create ctx)
  | _ => None
  end.

Definition pid_of ctx : SM Z := LinuxProc.sys_getpid ctx.

Definition process_handle ctx : option (SM Z) :=
  let root := kernel_root env in
  match number ctx with
  | 60 | 231 => Some (LinuxProc.sys_exit ctx)
  | 59 => Some (LinuxProc.sys_execve root (detect env) (user_cs env) (user_ss env) ctx)
  | 39 => Some (LinuxProc.sys_getpid ctx)
  | 62 => Some (LinuxProc.sys_kill ctx)
  | 114 => Some (LinuxProc.sys_waitpid root ctx)
  | 158 => Some (LinuxProc.sys_arch_prctl root ctx)
  | 218 => Some (LinuxProc.sys_set_tid_address ctx)
  | 102 | 104 | 107 | 108 => Some (mret 0)
  | 202 => Some (LinuxProc.sys_futex root (away env) ctx)
  | 13 => Some (LinuxProc.sys_rt_sigaction root ctx)
  | 14 => Some (LinuxProc.sys_rt_sigprocmask root ctx)
  | 56 => Some (LinuxProc.sys_clone ctx)
  | 110 => Some (p ← process ctx; mret (Process.parent p))
  | 186 => Some (pid_of ctx)
  | 234 => Some (LinuxProc.sys_tgkill ctx)
  | 112 => Some (pid_of ctx)
  | 109 => Some (mret 0)
  | 121 | 124 => Some (pid_of ctx)
  | 140 => Some (LinuxProc.sys_getpriority ctx)
  | 141 => Some (LinuxProc.sys_setpriority ctx)
  | 34 => Some (mret 0)
  | 143 => Some (LinuxProc.sys_sched_getparam root ctx)
  | 144 | 145 | 146 | 147 | 148 | 149 => Some (mret 0)
  | 157 => Some (LinuxProc.sys_prctl ctx)
  | 434 => Some (LinuxProc.sys_pidfd_open ctx)
  | _ => None
  end.

Definition fs_handle ctx : option (SM Z) :=
  let root := kernel_root env in
  match number ctx with
  | 2 => Some (LinuxFs.sys_open root ctx)
  | 0 => Some (LinuxFs.sys_read root ctx)
  | 1 => Some (LinuxFs.sys_write root ctx)
  | 3 => Some (LinuxFs.sys_close ctx)
  | 4 => Some (LinuxFs.sys_stat root ctx)
  | 5 => Some (LinuxFs.sys_fstat root ctx)
  | 6 => Some (LinuxFs.sys_stat root ctx)
  | 8 => Some (LinuxFs.sys_lseek ctx)
  | 32 => Some (LinuxFs.sys_dup ctx)
  | 33 => Some (LinuxFs.sys_dup2 ctx)
  | 22 => Some (LinuxFs.sys_pipe root ctx)
  | 293 => Some (LinuxFs.sys_pipe2 root ctx)
  | 79 => Some (LinuxFs.sys_getcwd root ctx)
  | 80 => Some (LinuxFs.sys_chdir root ctx)
  | 82 => Some (LinuxFs.sys_rename root ctx)
  | 83 => Some (LinuxFs.sys_mkdir root ctx)
  | 84 => Some (LinuxFs.sys_rmdir root ctx)
  | 85 => Some (LinuxFs.sys_creat root ctx)
  | 86 => Some (LinuxFs.sys_link root ctx)
  | 87 => Some (LinuxFs.sys_unlink root ctx)
  | 88 => Some (LinuxFs.sys_symlink root ctx)
  | 90 => Some (LinuxFs.sys_chmod root ctx)
  | 95 => Some (LinuxFs.sys_umask ctx)
  | 137 => Some (LinuxFs.sys_statfs root ctx)
  | 217 => Some (LinuxFs.sys_getdents64 root ctx)
  | 262 => Some (LinuxFs.sys_newfstatat root ctx)
  | 17 => Some (LinuxFs.sys_pread64 ctx)
  | 19 => Some (LinuxFs.sys_readv root ctx)
  | 20 => Some (LinuxFs.sys_writev root ctx)
  | 257 => Some (LinuxFs.sys_openat root ctx)
  | 89 => Some (LinuxFs.sys_readlink root ctx)
  | 21 => Some (LinuxFs.sys_access ctx)
  | 72 => Some (LinuxFs.sys_fcntl ctx)
  | _ => None
  end.

Definition time_handle ctx : option (SM Z) :=
  let root := kernel_root env in
  match number ctx with
  | 35 => Some (LinuxProc.sys_nanosleep root (away env) ctx)
  | 96 => Some (LinuxProc.sys_gettimeofday root ctx)
  | 201 => Some (LinuxProc.sys_time root ctx)
  | 228 => Some (LinuxProc.sys_clock_gettime root ctx)
  | 229 => Some (LinuxProc.sys_clock_getres root ctx)
  | 283 => Some (LinuxProc.sys_timerfd_create ctx)
  | 286 => Some (mret 0)
  | _ => None
  end.

Definition net_handle ctx : option (SM Z) :=
  let root := kernel_root env in
  match number ctx with
  | 41 => Some (LinuxNet.sys_socket ctx)
  | 49 => Some (LinuxNet.sys_bind root ctx)
  | 50 => Some (LinuxNet.sys_listen ctx)
  | 42 => Some (LinuxNet.sys_connect root (turns env) ctx)
  | 43 => Some (LinuxNet.sys_accept root ctx)
  | 44 => Some (LinuxNet.sys_sendto root ctx)
  | 45 => Some (LinuxNet.sys_recvfrom root ctx)
  | 54 | 55 => Some (mret 0)
  | _ => None
  end.

Definition signal_handle ctx : option (SM Z) :=
  let root := kernel_root env in
  match number ctx with
  | 15 => Some (LinuxProc.sys_rt_sigreturn root ctx)
  | 13 => Some (LinuxProc.signal_rt_sigaction root ctx)
  | 131 => Some (LinuxProc.sys_sigaltstack ctx)
  | _ => None
  end.

Definition misc_handle ctx : option (SM Z) :=
  let root := kernel_root env in
  match number ctx with
  | 63 => Some (LinuxProc.sys_uname root ctx)
  | 16 => Some (LinuxProc.sys_ioctl ctx)
  | 7 | 23 | 271 | 270 => Some (LinuxProc.sys_poll (away env) ctx)
  | 97 => Some (LinuxProc.sys_getrlimit root ctx)
  | 98 => Some (LinuxProc.sys_setrlimit ctx)
  | 99 => Some (LinuxProc.sys_sysinfo root ctx)
  | 302 => Some (LinuxProc.sys_prlimit64 root ctx)
  | 172 => Some (mret 0)
  | 318 => Some (LinuxProc.sys_getrandom root ctx)
  | 135 => Some (mret 0)
  | 291 => Some (LinuxProc.sys_epoll_create1 ctx)
  | 255 | 232 => Some (mret 0)
  | 284 => Some (LinuxProc.sys_eventfd ctx)
  | 289 => Some (LinuxProc.sys_signalfd ctx)
  | 309 => Some (LinuxProc.sys_getcpu root ctx)
  | 536870967 | 536870918 | 537919529 | 570425347 => Some (mret 0)
  | _ => None
  end.

Definition ebpf_handle ctx : option (SM Z) := if number ctx =? 321 then Some (sys_bpf env ctx) else None.

(** [handle_syscall] of the Linux plugin: the first family that has the
    number. *)
Definition families ctx : list (option (SM Z)) :=
  [memory_handle ctx; process_handle ctx; fs_handle ctx; time_handle ctx; net_handle ctx; signal_handle ctx; misc_handle ctx; ebpf_handle ctx].

Definition linux_handle ctx : SM Z :=
  match omap id (families ctx) with
  | m :: _ => m
  | [] => throw (UnsupportedSyscall (number ctx))
  end.

(** ** The Redox table *)

(** A call under a number of Linux, without the families [net] and [ebpf]. *)
Definition delegate_linux_number ctx (linux_number : Z) : SM Z :=
  let c := mkContext linux_number (args ctx) (caller ctx) in
  match omap id [memory_handle c; process_handle c; fs_handle c; time_handle c; signal_handle c; misc_handle c] with
  | m :: _ => m
  | [] => throw (UnsupportedSyscall (number ctx))
  end.

Definition redox_only ctx : option (SM Z) :=
  let root := kernel_root env in
  let pseudo := Redox.is_ziqa_pseudo_fd (arg 0 ctx) in
  match number ctx with
  | 0x2100_0384 => Some (Redox.handle_fmap root (displays env) ctx)
  | 0x2200_03a0 => Some (Redox.handle_fpath root ctx)
  | 0x2000_0006 => Some (if pseudo then mret 0 else delegate_linux_number ctx 3)
  | 0x2200_0003 => Some (if pseudo then mret 0 else delegate_linux_number ctx 0)
  | 0x2100_0004 => Some (Redox.handle_write root delegate_linux_number ctx)
  | 0x2000_005c => Some (delegate_linux_number ctx 11)
  | 0x2010_0029 => Some (Redox.handle_dup root ctx)
  | 0x2000_0037 => Some (Redox.handle_fcntl ctx)
  | 0x2300_ca11 => Some (Redox.handle_sys_call root ctx)
  | 0x1010_0007 => Some (Redox.handle_openat root ctx)
  | 240 => Some (delegate_linux_number ctx 202)
  | 162 => Some (delegate_linux_number ctx 35)
  | 265 => Some (delegate_linux_number ctx 228)
  | _ => None
  end.

Definition redox_handle ctx : SM Z :=
  match redox_only ctx with Some m => m | None => linux_handle ctx end.

(** ** The WebAssembly table *)

Definition wasm_handle ctx : SM Z :=
  match number ctx with
  | 10 => _ ← schedule (away env); mret 0
  | 21 => mret (arg 1 ctx)
  | 99 => LinuxProc.sys_exit ctx
  | n => throw (UnsupportedSyscall n)
  end.

Definition registry : AbiRegistry (SyscallContext -> SM Z) := init_abi_registry linux_handle redox_handle wasm_handle.

(** ** The core *)

(** [u32] multiplication. *)
Definition umul32 {E} (a b : Z) : res E Z := if a * b <? 2 ^ 32 then Ok (a * b) else Panic.

Definition fast_path ctx : option (SM Z) :=
  match number ctx with
  | 200 => Some (NativeAbi.shm_create ctx)
  | 201 => Some (NativeAbi.shm_at ctx)
  | 202 => Some (mret 0)
  | 203 => Some (p ← process ctx; r ← Uring.process_requests (kernel_root env) (Uring.new (Process.pid p) 16); mret (fst r))
  | 204 => Some (_ ← lift (umul32 (wrap 32 (arg 2 ctx)) (wrap 32 (arg 3 ctx))); mret 0)
  | 205 => Some uptime
  | 206 => Some (mret 0)
  | _ => None
  end.

(** [EXECVE] of the core, in front of the one of the plugin. *)
Definition core_execve ctx : SM Z :=
  may ← NativeAbi.check_capability ctx Capability.ProcessCreate false false;
  if negb may then throw (Other "EPERM: no process creation capability")
  else
    tmp ← map_err (Other "EFAULT") (copy_in_to (kernel_root env) ctx (arg 0 ctx) 127 128);
    let n := from_option fst 127%nat (list_find (fun b => b = 0) tmp) in
    r ← read_raw (utf8_or_empty (take n tmp)) 65536;
    match r with
    | None => err ENOENT
    | Some (len, buf) =>
      if len =? 0 then err ENOENT
      else
        p ← process ctx;
        ok ← exec_process (detect env) (user_cs env) (user_ss env) (Process.pid p) (take (Z.to_nat len) buf);
        if (ok : bool) then mret 0 else err ENOENT
    end.

Definition core_munmap ctx : SM Z :=
  target ← lift (Vma.or_panic (va_new (arg 0 ctx)));
  p ← process ctx;
  match list_find (fun v => Vma.start v = target) (Process.vmas (Process.image p)) with
  | Some (pos, _) => _ ← on_vmas ctx (delete pos); mret 0
  | None => throw (Other "munmap: region not found")
  end.

Definition sched_yield ctx : SM Z :=
  _ ← update_caller ctx (fun p => if decide (Process.state p = Process.Running) then Process.set_state Process.Ready p else p);
  mret 0.

Definition core ctx : option (SM Z) :=
  match number ctx with
  | 39 => Some (LinuxProc.sys_getpid ctx)
  | 110 => Some (mret 1)
  | 60 | 231 => Some (LinuxProc.sys_exit ctx)
  | 62 =>
    Some (ok ← send_signal (arg 0 ctx) (wrap 8 (arg 1 ctx));
          if (ok : bool) then mret 0 else throw (Other "ESRCH: no such process"))
  | 35 | 230 => Some (p ← process ctx; _ ← sleep_ms (Process.pid p) (arg 0 ctx); mret 0)
  | 24 => Some (sched_yield ctx)
  | 57 =>
    Some (may ← NativeAbi.check_capability ctx Capability.ProcessCreate false false;
          if negb may then throw (Other "EPERM: no process creation capability")
          else
            p ← process ctx;
            child ← fork (Process.pid p);
            match child with Some c => mret c | None => throw (Other "fork: out of slots") end)
  | 61 =>
    Some (p ← process ctx;
          r ← step sched with_sched (Scheduler.waitpid (Process.pid p) (sint 64 (arg 0 ctx)));
          mret (from_option fst 0 r))
  | 59 => Some (core_execve ctx)
  | 11 => Some (core_munmap ctx)
  | 500 => Some (NativeAbi.net_notify_call ctx)
  | 501 => Some (NativeAbi.net_ack_call ctx)
  | _ => None
  end.

Definition native ctx : option (SM Z) :=
  let root := kernel_root env in
  match number ctx with
  | 1000 => Some (NativeAbi.ziqa_cap_request root ctx)
  | 1001 => Some (NativeAbi.ziqa_cap_read root ctx)
  | 1002 => Some (NativeAbi.ziqa_cap_write root ctx)
  | 1003 => Some (NativeAbi.ziqa_cap_close ctx)
  | 1004 => Some (NativeAbi.ziqa_cap_seek ctx)
  | 1005 => Some (NativeAbi.ziqa_cap_revoke ctx)
  | 2000 => Some (NativeAbi.ziqa_sig_setaction ctx)
  | 2001 => Some (NativeAbi.ziqa_sig_getmask ctx)
  | 2002 => Some (NativeAbi.ziqa_sig_setmask ctx)
  | 2003 => Some (NativeAbi.ziqa_sig_kill ctx)
  | 2004 => Some (NativeAbi.ziqa_sig_pause ctx)
  | 1031 => Some (NativeAbi.ziqa_dev_port_in ctx)
  | 1038 => Some (NativeAbi.ziqa_dev_virt_to_phys root ctx)
  | 1032 => Some (NativeAbi.ziqa_dev_port_out ctx)
  | 1033 => Some (NativeAbi.ziqa_dev_map ctx)
  | 1034 => Some (NativeAbi.ziqa_dev_irq_wait ctx)
  | 1040 => Some NativeAbi.gpu_chan
  | 1035 => Some (NativeAbi.ziqa_dev_pci_find (pci env) ctx)
  | 1036 => Some (NativeAbi.ziqa_dev_pci_bar (pci env) ctx)
  | 1037 => Some (NativeAbi.ziqa_dev_pci_irq (pci env) ctx)
  | 1010 => Some (NativeAbi.shm_create ctx)
  | 1011 => Some (NativeAbi.shm_attach ctx)
  | 1020 => Some (NativeAbi.ipc_create ctx)
  | 1021 => Some (NativeAbi.ipc_send root ctx)
  | 1022 => Some (NativeAbi.ipc_recv root ctx)
  | _ => None
  end.

Definition plugin_call ctx : SM Z :=
  p ← process ctx;
  match get_abi (Process.abi p) registry with
  | Some plugin => methods plugin ctx
  | None => throw (UnsupportedSyscall (number ctx))
  end.

Definition dispatch_syscall ctx : SM Z :=
  match omap id [fast_path ctx; core ctx; native ctx] with
  | m :: _ => m
  | [] => plugin_call ctx
  end.

(** ** The entry *)

Definition set_rax (v : Z) (c : Snapshot.CpuState) : Snapshot.CpuState :=
  Snapshot.mkCpu (Snapshot.r15 c) (Snapshot.r14 c) (Snapshot.r13 c) (Snapshot.r12 c) (Snapshot.r11 c) (Snapshot.r10 c) (Snapshot.r9 c) (Snapshot.r8 c)
    (Snapshot.rdi c) (Snapshot.rsi c) (Snapshot.rbp c) (Snapshot.rbx c) (Snapshot.rdx c) (Snapshot.rcx c) v (Snapshot.rip c) (Snapshot.cs c)
    (Snapshot.rflags c) (Snapshot.rsp c) (Snapshot.ss c).

Definition set_rflags (v : Z) (c : Snapshot.CpuState) : Snapshot.CpuState :=
  Snapshot.mkCpu (Snapshot.r15 c) (Snapshot.r14 c) (Snapshot.r13 c) (Snapshot.r12 c) (Snapshot.r11 c) (Snapshot.r10 c) (Snapshot.r9 c) (Snapshot.r8 c)
    (Snapshot.rdi c) (Snapshot.rsi c) (Snapshot.rbp c) (Snapshot.rbx c) (Snapshot.rdx c) (Snapshot.rcx c) (Snapshot.rax c) (Snapshot.rip c)
    (Snapshot.cs c) v (Snapshot.rsp c) (Snapshot.ss c).

Definition sanitize (c : Snapshot.CpuState) : Snapshot.CpuState := set_rflags (Z.lor (Z.land (Snapshot.rflags c) 0xFFF88AFF) 0x200) c.

Definition set_ctx_cpu (c : Snapshot.CpuState) (x : Snapshot.Ctx) : Snapshot.Ctx := Snapshot.mkCtx c (Snapshot.ctx_cwd x) (Snapshot.ctx_cwd_len x).

(** The word for an error. *)
Definition error_word (e : AbiError) : Z :=
  match e with UnsupportedSyscall _ => neg 38 | PermissionDenied => neg 13 | _ => neg 1 end.

Definition args_of (frame : Snapshot.CpuState) : list Z :=
  [Snapshot.rdi frame; Snapshot.rsi frame; Snapshot.rdx frame; Snapshot.r10 frame; Snapshot.r8 frame; Snapshot.r9 frame].

(** The object the call works on: the one behind the raw pointer of the
    processor if that is the current process, else the one in the table. *)
Definition caller_of (pid : Z) (s : Scheduler.Sched) : res AbiError (option Z) :=
  let in_table := if is_some (Scheduler.get_process pid s) then Some pid else None in
  match Scheduler.raw s with
  | Some r =>
    match Scheduler.get_process r s with
    | Some p => Ok (if Process.pid p =? pid then Some r else in_table)
    | None => Fault
    end
  | None => Ok in_table
  end.

Definition set_raw (r : Z) (s : Scheduler.Sched) : Scheduler.Sched :=
  Scheduler.with_cpu (Some r) (Scheduler.fs_msr s) (Scheduler.gs_msr s) (Scheduler.cr3 s) s.

(** The dispatch of one call; the error becomes a word. *)
Definition run_call ctx : SM Z := fun k =>
  match dispatch_syscall ctx k with
  | (Err e, k) => (Ok (error_word e), k)
  | r => r
  end.

Definition is_exited (p : Process.Process) : bool := match Process.state p with Process.Exited _ => true | _ => false end.

(** The registers to return with; [None] when the caller has exited and
    another process was scheduled. *)
Definition finish (r : Z) (v : Z) : SM (option Snapshot.CpuState) :=
  let ctx := mkContext 0 [] r in
  x ← context ctx;
  let cpu := sanitize (set_rax v (Snapshot.ctx_cpu x)) in
  _ ← update_context ctx (set_ctx_cpu cpu);
  p ← process ctx;
  if is_exited p then _ ← schedule (fun k => k); mret None else mret (Some cpu).

Definition rust_syscall_handler (frame : Snapshot.CpuState) : SM (option Snapshot.CpuState) :=
  let num := Snapshot.rax frame in
  let args := args_of frame in
  if (num =? 158) && forallb (fun a => a =? 2 ^ 64 - 1) (take 3 args) then mret (Some (set_rax 0 frame))
  else
    s ← read_part sched;
    match Scheduler.current s with
    | None => mret (Some frame)
    | Some pid =>
      o ← lift (caller_of pid s);
      match o with
      | None => mret (Some frame)
      | Some r =>
        _ ← update_context (mkContext 0 [] r) (set_ctx_cpu frame);
        _ ← modify (fun k => with_sched (set_raw r (sched k)) k);
        v ← run_call (mkContext num args r);
        finish r v
      end
    end.

End dispatch.

(** *** The assembly around the handler *)

(** The frame [syscall_entry] builds: the instruction has put the return
    address in [rcx] and the flags in [r11]. *)
Definition syscall_frame (c : Snapshot.CpuState) : Snapshot.CpuState :=
  Snapshot.mkCpu (Snapshot.r15 c) (Snapshot.r14 c) (Snapshot.r13 c) (Snapshot.r12 c) (Snapshot.rflags c) (Snapshot.r10 c) (Snapshot.r9 c) (Snapshot.r8 c)
    (Snapshot.rdi c) (Snapshot.rsi c) (Snapshot.rbp c) (Snapshot.rbx c) (Snapshot.rdx c) (Snapshot.rip c) (Snapshot.rax c) (Snapshot.rip c)
    0x23 (Snapshot.rflags c) (Snapshot.rsp c) 0x1B.

(** [mov ecx, [rsp + 16]], [and], [or] *)
Definition exit_flags (f : Snapshot.CpuState) : Z := Z.lor (Z.land (wrap 32 (Snapshot.rflags f)) 0xFFF88AFF) 0x200.

(** The registers after [sysretq]: [rcx] and [r11] hold the return address and
    the flags, and the segments are those of the [STAR] register. *)
Definition syscall_return (f : Snapshot.CpuState) : Snapshot.CpuState :=
  Snapshot.mkCpu (Snapshot.r15 f) (Snapshot.r14 f) (Snapshot.r13 f) (Snapshot.r12 f) (exit_flags f) (Snapshot.r10 f) (Snapshot.r9 f) (Snapshot.r8 f)
    (Snapshot.rdi f) (Snapshot.rsi f) (Snapshot.rbp f) (Snapshot.rbx f) (Snapshot.rdx f) (Snapshot.rip f) (Snapshot.rax f) (Snapshot.rip f)
    0x23 (Z.lor (Z.land (exit_flags f) 0x3C7FD7) 2) (Snapshot.rsp f) 0x1B.

(** The registers after the [iretq] of [int80_entry]: [rcx] was used for the
    flags after it had been restored. *)
Definition int80_return (f : Snapshot.CpuState) : Snapshot.CpuState :=
  Snapshot.mkCpu (Snapshot.r15 f) (Snapshot.r14 f) (Snapshot.r13 f) (Snapshot.r12 f) (Snapshot.r11 f) (Snapshot.r10 f) (Snapshot.r9 f) (Snapshot.r8 f)
    (Snapshot.rdi f) (Snapshot.rsi f) (Snapshot.rbp f) (Snapshot.rbx f) (Snapshot.rdx f) (exit_flags f) (Snapshot.rax f) (Snapshot.rip f)
    (Snapshot.cs f) (exit_flags f) (Snapshot.rsp f) (Snapshot.ss f).

End Syscall.
