(* ===== verification/Confine.v ===== *)
(** * What a system call can change

    One relation between the states before and after a call, shown of every
    handler of [Syscall] for a caller under the Linux ABI: the caller's saved
    registers, its capabilities, the file tree and the entries of the other
    processes.  Left out are [poll] and its relatives, which give up the
    processor, and [bpf]. *)

From S2P Require Import Prelude Bytes Abi Capability Signal Vma FdTable Process Scheduler Ipc Timer Path Files Vfs RmmArch RmmFrame Paging Compress UserCopy Snapshot Socket Shm Kernel Uring LinuxFs NativeAbi LinuxMem LinuxProc LinuxNet Redox Syscall.
Import RmmArch RmmFrame Paging Compress Kernel.

Module Confine.

(** ** Process tables *)

(** The entry of [c] keeps its pid and gains no token, or goes away. *)
Definition tame (c : Z) (s s' : Scheduler.Sched) : Prop :=
  Scheduler.next_pid s <= Scheduler.next_pid s' /\
  forall p', Scheduler.tasks s' !! c = Some p' ->
  exists p, Scheduler.tasks s !! c = Some p /\ Process.capabilities p' ⊆ Process.capabilities p.

#[global] Instance tame_preorder c : PreOrder (tame c).
Proof.
  split.
  - intros s. split; [done|]. intros p Hp. by exists p.
  - intros s1 s2 s3 [Hn H1] [Hm H2]. split; [lia|]. intros p3 H3.
    destruct (H2 p3 H3) as (p2 & Hp2 & ?). destruct (H1 p2 Hp2) as (p1 & ? & ?). exists p1. split; [done|]. by etrans.
Qed.

Lemma tame_tasks c s s' : Scheduler.next_pid s' = Scheduler.next_pid s -> Scheduler.tasks s' = Scheduler.tasks s -> tame c s s'.
Proof. intros Hn Ht. split; [lia|]. intros p. rewrite Ht. by exists p. Qed.

Lemma tame_update c q f s : (forall p, Process.capabilities (f p) ⊆ Process.capabilities p) -> tame c s (Scheduler.update_process q f s).
Proof.
  intros Hf. split; [done|]. intros p'. unfold Scheduler.update_process. cbn [Scheduler.tasks Scheduler.with_tasks].
  rewrite lookup_alter. destruct (decide _) as [<-|]; [|by exists p'].
  destruct (Scheduler.tasks s !! q) as [p|]; [|done]. intros [= <-]. by exists p.
Qed.

Lemma tame_delete c q s : tame c s (Scheduler.with_tasks (base.delete q (Scheduler.tasks s)) s).
Proof.
  split; [done|]. intros p'. cbn [Scheduler.tasks Scheduler.with_tasks]. rewrite lookup_delete_Some. intros [_ ?]. by exists p'.
Qed.

(** A token the caller has is among its tokens. *)
Lemma has_permission_subset cs cs' r w x : cs' ⊆ cs -> Capability.has_permission cs' r w x = true -> Capability.has_permission cs r w x = true.
Proof.
  unfold Capability.has_permission. rewrite !existsb_exists. intros Hs (t & Ht & Ha). exists t. split; [|done].
  apply list_elem_of_In, Hs, list_elem_of_In, Ht.
Qed.

(** Split a handler into its steps. *)
Ltac keeping := repeat
  lazymatch goal with
  | |- keeps _ (_ ≫= _) => apply keeps_bind; [apply _| |intros ?]
  | |- keeps _ (if ?b then _ else _) => destruct b
  | |- keeps _ (match ?x with _ => _ end) => destruct x
  | |- keeps _ (let _ := _ in _) => cbv zeta
  | |- keeps _ _ => solve [auto with keeps]
  end.

Section confine.
#[local] Existing Instance X8664Arch.
Context {XF W K D : Type} {fx : Files.File XF} {out : Vfs.Outside W XF} {DV : Devices D} {SK : Socket.Stack K}.
Context `{X : X86} `{XU : LinuxMem.X86Unmap} `{CD : Codec} `{VA : VirtAddrOps} `{BS : BinarySearch}.

Abbreviation State := (KState (XF := XF) (W := W) (K := K) (D := D)).
Abbreviation SM := (M State AbiError).
Abbreviation Env := (Syscall.Env (XF := XF) (W := W) (K := K) (D := D)).

Definition caps_of (c : Z) (k : State) : list Capability.CapabilityToken :=
  from_option Process.capabilities [] (Scheduler.tasks (sched k) !! c).

(** A process with a token to write files. *)
Definition writer (c : Z) (k : State) : bool := Capability.has_permission (caps_of c k) Capability.File true false.

(** The tree of names and the files in it, without the other file systems. *)
Definition tree (v : Vfs.Vfs XF W) := (Vfs.root v, Vfs.nodes v, Vfs.files v, Vfs.next v).

(** Pids from [next_pid] on are not given out. *)
Definition live (c : Z) (k : State) : Prop := c < Scheduler.next_pid (sched k).

(** Calls that signal, create, wait for or strip other processes, and those
    that put the caller to sleep through the raw pointer. *)
Definition reaching : list Z := [35; 56; 57; 61; 62; 114; 230; 234; 1005; 2003].

(** Calls that are left out: [poll] and its kin and the sleeping calls of the
    other ABIs, during which other processes run, and [bpf]. *)
Definition common_left_out : list Z := [7; 23; 270; 271; 321].

Definition left_out (a : Process.AbiKind) : list Z :=
  match a with Process.RedoxElf => [162; 240] | Process.Wasm => [10] | _ => [] end ++ common_left_out.

Record effect (t : bool) (ctx : SyscallContext) (k k' : State) : Prop := mkEffect {
  eff_live : live (caller ctx) k';
  eff_cpu : number ctx <> 15 -> Snapshot.ctx_cpu <$> contexts k' !! caller ctx = Snapshot.ctx_cpu <$> contexts k !! caller ctx;
  eff_caps : number ctx <> 1000 -> caps_of (caller ctx) k' ⊆ caps_of (caller ctx) k;
  eff_tree : t = true -> number ctx <> 1000 -> writer (caller ctx) k = false -> tree (vfs k') = tree (vfs k);
  eff_others : number ctx ∉ reaching -> forall q, q <> caller ctx -> Scheduler.tasks (sched k') !! q = Scheduler.tasks (sched k) !! q
}.

Definition bounded (t : bool) (ctx : SyscallContext) (k k' : State) : Prop := live (caller ctx) k -> effect t ctx k k'.

Lemma writer_subset c k k' : caps_of c k' ⊆ caps_of c k -> writer c k = false -> writer c k' = false.
Proof.
  intros Hs Hw. destruct (writer c k') eqn:Hw'; [|done]. unfold writer in *.
  by rewrite (has_permission_subset _ _ _ _ _ Hs Hw') in Hw.
Qed.

#[global] Instance bounded_preorder t ctx : PreOrder (bounded t ctx).
Proof.
  split.
  - intros k Hk. by split.
  - intros k1 k2 k3 H12 H23 Hk. destruct (H12 Hk) as [L1 C1 P1 T1 O1]. destruct (H23 L1) as [L2 C2 P2 T2 O2]. split.
    + done.
    + intros Hn. by rewrite C2, C1.
    + intros Hn. etrans; [by apply P2|by apply P1].
    + intros Ht Hn Hw. rewrite T2, T1; eauto using writer_subset.
    + intros Hn q Hq. by rewrite O2, O1.
Qed.

Section handlers.
Context (ctx : SyscallContext).

Implicit Types t : bool.

Abbreviation R t := (bounded t ctx).

(** Nothing of interest has changed. *)
Lemma frame_bounded t k k' : sched k' = sched k -> contexts k' = contexts k -> tree (vfs k') = tree (vfs k) -> R t k k'.
Proof.
  intros Hs Hc Hv Hl. split.
  - unfold live. by rewrite Hs.
  - by rewrite Hc.
  - unfold caps_of. by rewrite Hs.
  - by intros.
  - by rewrite Hs.
Qed.

Lemma on_keeps t {T A} (part : State -> T) set (m : M T AbiError A) : (forall x k, R t k (set x k)) -> keeps (R t) (on part set m).
Proof. intros H k. unfold on. destruct (m (part k)) as [r x]. apply H. Qed.

Lemma attempt_keeps t {T E A} (part : State -> T) set (m : M T E A) : (forall x k, R t k (set x k)) -> keeps (R t) (attempt part set m).
Proof. intros H k. unfold attempt. destruct (m (part k)) as [[?|?| |] x]; apply H. Qed.

Lemma part_step_keeps t {T A} (part : State -> T) set (f : T -> A * T) : (forall x k, R t k (set x k)) -> keeps (R t) (step part set f).
Proof. intros H k. unfold step. destruct (f (part k)) as [r x]. apply H. Qed.

Lemma modify_keeps t (f : State -> State) : (forall k, R t k (f k)) -> keeps (R t) (modify f : SM unit).
Proof. intros H k. apply H. Qed.

Lemma map_err_keeps t {E F A} (e : F) (m : M State E A) : keeps (R t) m -> keeps (R t) (map_err e m).
Proof. intros H k. specialize (H k). unfold map_err. by destruct (m k) as [[?|?| |] ?]. Qed.

Lemma peek_keeps t {T E A} (part : State -> T) (f : T -> res E A) : keeps (R t) (peek part f).
Proof. apply keeps_pure; [apply _|]. intros k. unfold peek. by destruct (f (part k)). Qed.

Lemma read_part_keeps t {A} (f : State -> A) : keeps (R t) (read_part f : SM A).
Proof. by apply keeps_pure; [apply _|]. Qed.

Lemma process_keeps t : keeps (R t) (process ctx).
Proof. apply keeps_pure; [apply _|]. intros k. unfold process. by destruct (Scheduler.get_process _ _). Qed.

Lemma context_keeps t : keeps (R t) (context ctx).
Proof. apply keeps_pure; [apply _|]. intros k. unfold context. by destruct (contexts k !! _). Qed.

(** A change of the table that the other processes do not see. *)
Lemma sched_bounded t s k :
  (live (caller ctx) k -> tame (caller ctx) (sched k) s) ->
  (number ctx ∉ reaching -> forall q, q <> caller ctx -> Scheduler.tasks s !! q = Scheduler.tasks (sched k) !! q) ->
  R t k (with_sched s k).
Proof.
  intros Ht Ho Hl. destruct (Ht Hl) as [Hn Hp]. split.
  - unfold live in *. cbn [sched with_sched]. lia.
  - done.
  - intros _. unfold caps_of. cbn [sched with_sched]. destruct (Scheduler.tasks s !! caller ctx) as [p'|] eqn:He; [|apply list_subseteq_nil].
    destruct (Hp p' eq_refl) as (p & -> & ?). done.
  - by intros.
  - done.
Qed.

Lemma update_caller_keeps t f : (forall p, Process.capabilities (f p) = Process.capabilities p) -> keeps (R t) (update_caller ctx f).
Proof.
  intros Hf. apply modify_keeps. intros k. apply sched_bounded.
  - intros _. apply tame_update. intros p. by rewrite Hf.
  - intros _ q Hq. unfold Scheduler.update_process. cbn [Scheduler.tasks Scheduler.with_tasks]. by rewrite lookup_alter_ne by done.
Qed.

Lemma update_context_keeps t f : (forall x, Snapshot.ctx_cpu (f x) = Snapshot.ctx_cpu x) -> keeps (R t) (update_context ctx f).
Proof.
  intros Hf. apply modify_keeps. intros k Hl. split; [done| |done|done|done].
  intros _. cbn [contexts with_contexts]. rewrite lookup_alter_eq. destruct (contexts k !! caller ctx); [|done].
  cbn [fmap option_fmap option_map]. by rewrite Hf.
Qed.


(** *** Hints *)

Hint Resolve peek_keeps read_part_keeps process_keeps context_keeps map_err_keeps : keeps.
Hint Extern 1 (keeps _ (on _ _ _)) => apply on_keeps : keeps.
Hint Extern 1 (keeps _ (attempt _ _ _)) => apply attempt_keeps : keeps.
Hint Extern 1 (keeps _ (step _ _ _)) => apply part_step_keeps : keeps.
Hint Extern 1 (keeps _ (modify _)) => apply modify_keeps : keeps.
Hint Extern 1 (bounded _ _ _ _) => solve [by apply frame_bounded|case_match; by apply frame_bounded] : keeps.
Hint Extern 1 (_ = _) => reflexivity : keeps.
Hint Resolve update_caller_keeps update_context_keeps : keeps.

Lemma allowed_keeps t r w x : keeps (R t) (allowed ctx r w x).
Proof. unfold allowed. keeping. Qed.

Lemma on_fds_keeps t {A} (f : FdTable.Table -> A * FdTable.Table) : keeps (R t) (on_fds ctx f).
Proof. unfold on_fds. keeping. Qed.

Lemma get_fd_keeps t fd : keeps (R t) (get_fd ctx fd).
Proof. unfold get_fd. keeping. Qed.

Hint Resolve allowed_keeps on_fds_keeps get_fd_keeps : keeps.

Lemma update_fd_keeps t fd f : keeps (R t) (update_fd ctx fd f).
Proof. unfold update_fd. keeping. Qed.

Hint Resolve update_fd_keeps : keeps.

Lemma advance_fd_keeps t fd n : keeps (R t) (advance_fd ctx fd n).
Proof. unfold advance_fd. keeping. Qed.

Lemma path_of_keeps t fd : keeps (R t) (path_of ctx fd).
Proof. unfold path_of. keeping. Qed.

Lemma set_mmap_bump_keeps t b : keeps (R t) (set_mmap_bump ctx b).
Proof. unfold set_mmap_bump. keeping. Qed.

Lemma on_vmas_keeps t f : keeps (R t) (on_vmas ctx f).
Proof. unfold on_vmas. keeping. Qed.

Hint Resolve advance_fd_keeps path_of_keeps set_mmap_bump_keeps on_vmas_keeps : keeps.

(** *** User memory *)

Section root.
Context (root : Z).

Lemma copy_in_to_keeps t a n d : keeps (R t) (copy_in_to root ctx a n d).
Proof. unfold copy_in_to. keeping. Qed.

Lemma copy_out_as_keeps t msg a n bs : keeps (R t) (copy_out_as root ctx msg a n bs).
Proof. unfold copy_out_as. keeping. Qed.

Hint Resolve copy_in_to_keeps copy_out_as_keeps : keeps.

Lemma copy_in_keeps t msg a n : keeps (R t) (copy_in root ctx msg a n).
Proof. unfold copy_in. keeping. Qed.

Lemma copy_out_keeps t msg a bs : keeps (R t) (copy_out root ctx msg a bs).
Proof. unfold copy_out. keeping. Qed.

Lemma try_copy_in_keeps t a n : keeps (R t) (try_copy_in root ctx a n).
Proof.
  intros k. pose proof (copy_in_to_keeps t a n n k) as H. unfold try_copy_in.
  by destruct (copy_in_to root ctx a n n k) as [[?|?| |] ?].
Qed.

Lemma user_string_keeps t a : keeps (R t) (user_string root ctx a).
Proof. unfold user_string. keeping. Qed.

End root.

Hint Resolve copy_in_to_keeps copy_out_as_keeps copy_in_keeps copy_out_keeps try_copy_in_keeps user_string_keeps : keeps.

(** *** Files *)

Lemma vfs_bounded t v k : tree v = tree (vfs k) -> R t k (with_vfs v k).
Proof. intros H. by apply frame_bounded. Qed.

(** A call that leaves the tree alone. *)
Lemma vfs_keeps t {A} (m : M (Vfs.Vfs XF W) AbiError A) : keeps (fun v v' => tree v' = tree v) m -> keeps (R t) (attempt vfs with_vfs m).
Proof.
  intros H k. specialize (H (vfs k)). unfold attempt. destruct (m (vfs k)) as [[?|?| |] v]; by apply vfs_bounded.
Qed.

(** Any call, where the tree does not matter. *)
Lemma vfs_free {A} (m : M (Vfs.Vfs XF W) AbiError A) : keeps (R false) (attempt vfs with_vfs m).
Proof. apply attempt_keeps. intros v k Hl. by split. Qed.

Lemma scheme_call_tree {A} (f : W -> res AbiError A * W) : keeps (fun v v' => tree v' = tree v) (Vfs.scheme_call f).
Proof. intros v. unfold Vfs.scheme_call. by destruct (f (Vfs.world v)). Qed.

Lemma read_handle_tree h buf off : keeps (fun v v' => tree v' = tree v) (Vfs.read_handle h buf off).
Proof.
  intros v. unfold Vfs.read_handle, mbind, M_bind, get, lift, throw. destruct h as [h|name h].
  - destruct (Vfs.file_at h v) as [f| | |]; [|done..]. done.
  - case_match; [apply scheme_call_tree|done].
Qed.

Lemma close_handle_tree h : keeps (fun v v' => tree v' = tree v) (Vfs.close_handle h).
Proof.
  intros v. unfold Vfs.close_handle, mbind, M_bind, get, throw. destruct h as [h|name h]; [done|].
  case_match; [apply scheme_call_tree|done].
Qed.

Lemma open_tree path flags : keeps (fun v v' => tree v' = tree v) (Vfs.open path flags).
Proof.
  intros v. unfold Vfs.open, mbind, M_bind, get, lift. destruct (Path.find_char Path.colon path) as [[name rest]|].
  - case_match.
    + pose proof (scheme_call_tree (Vfs.scheme_open name path flags) v) as Ht.
      destruct (Vfs.scheme_call _ v) as [[?|?| |] ?]; exact Ht.
    + by destruct (Vfs.handle_of path v).
  - by destruct (Vfs.handle_of path v).
Qed.

Lemma handle_scheme_keeps t path flags : keeps (R t) (step vfs with_vfs (Vfs.handle_scheme path flags)).
Proof.
  intros k. unfold step, Vfs.handle_scheme. destruct (Path.find_char Path.colon path) as [[name rest]|]; [|by apply vfs_bounded].
  destruct (Vfs.registered _ name); [|by apply vfs_bounded]. pose proof (scheme_call_tree (Vfs.scheme_open name path flags) (vfs k)) as H'.
  destruct (Vfs.scheme_call _ (vfs k)). by apply vfs_bounded.
Qed.

Lemma read_handle_keeps t h buf off : keeps (R t) (attempt vfs with_vfs (Vfs.read_handle h buf off)).
Proof. apply vfs_keeps, read_handle_tree. Qed.

Lemma open_keeps t path flags : keeps (R t) (attempt vfs with_vfs (Vfs.open path flags)).
Proof. apply vfs_keeps, open_tree. Qed.

Lemma close_handle_keeps t h : keeps (R t) (ignore_vfs (Vfs.close_handle h)).
Proof. unfold ignore_vfs. apply keeps_bind; [apply _|apply vfs_keeps, close_handle_tree|]. intros ?. keeping. Qed.

Lemma ignore_vfs_free {A} (m : M (Vfs.Vfs XF W) AbiError A) : keeps (R false) (ignore_vfs m).
Proof. unfold ignore_vfs. apply keeps_bind; [apply _|apply vfs_free|]. intros ?. keeping. Qed.

Hint Resolve handle_scheme_keeps read_handle_keeps open_keeps close_handle_keeps vfs_free ignore_vfs_free | 0 : keeps.

Lemma get_vfs_handle_keeps t fd : keeps (R t) (get_vfs_handle ctx fd).
Proof. unfold get_vfs_handle. keeping. Qed.

Lemma vfs_exists_keeps t path : keeps (R t) (vfs_exists path).
Proof. unfold vfs_exists. keeping. Qed.

Lemma vfs_is_dir_keeps t path : keeps (R t) (vfs_is_dir path).
Proof. unfold vfs_is_dir. keeping. Qed.

Lemma read_raw_keeps t path n : keeps (R t) (read_raw path n).
Proof. unfold read_raw. keeping. Qed.

Lemma stdin_keeps t n : keeps (R t) (stdin n).
Proof. unfold stdin. keeping. Qed.

Lemma uptime_keeps t : keeps (R t) uptime.
Proof. unfold uptime. keeping. Qed.

Lemma err_keeps t e : keeps (R t) (err e).
Proof. unfold err. keeping. Qed.

Lemma vec_zeroed_keeps t n : keeps (R t) (LinuxFs.vec_zeroed n : SM unit).
Proof. unfold LinuxFs.vec_zeroed. keeping. Qed.

Hint Resolve get_vfs_handle_keeps vfs_exists_keeps vfs_is_dir_keeps read_raw_keeps stdin_keeps uptime_keeps err_keeps vec_zeroed_keeps : keeps.

(** What is done only with a token to write files may change the tree. *)
Lemma guarded_keeps t {A} (m1 m2 : SM A) :
  keeps (R t) m1 -> keeps (R false) m2 ->
  keeps (R t) (may ← allowed ctx Capability.File true false; if negb may then m1 else m2).
Proof.
  intros H1 H2 k Hl. unfold allowed, mbind, M_bind, mret, M_ret, process.
  destruct (Scheduler.get_process (caller ctx) (sched k)) as [p|] eqn:Hp; [|by split].
  assert (Hw : writer (caller ctx) k = Capability.has_permission (Process.capabilities p) Capability.File true false).
  { unfold writer, caps_of. unfold Scheduler.get_process in Hp. by rewrite Hp. }
  destruct (Capability.has_permission _ _ _ _); cbn [negb]; [|by apply H1].
  destruct (H2 k Hl) as [L C P _ O]. split; [done..| |done]. by rewrite Hw.
Qed.

(** *** The Linux file calls *)

Section linux.
Context (root : Z).

Lemma file_write_keeps t fd buf : keeps (R t) (LinuxFs.file_write ctx fd buf).
Proof. apply guarded_keeps; keeping. Qed.

Lemma console_write_keeps t buf : keeps (R t) (LinuxFs.console_write buf).
Proof. unfold LinuxFs.console_write. keeping. Qed.

Lemma copy_some_keeps t a n bs : keeps (R t) (LinuxFs.copy_some root ctx a n bs).
Proof. unfold LinuxFs.copy_some. keeping. Qed.

Lemma alloc_file_keeps t path flags : keeps (R t) (LinuxFs.alloc_file ctx path flags).
Proof. unfold LinuxFs.alloc_file, LinuxFs.fd_or_emfile. keeping. Qed.

Lemma alloc_scheme_keeps t path flags i : keeps (R t) (LinuxFs.alloc_scheme ctx path flags i).
Proof. unfold LinuxFs.alloc_scheme, LinuxFs.fd_or_emfile. keeping. Qed.

Lemma some_fd_keeps t o e : keeps (R t) (LinuxFs.some_fd o e).
Proof. unfold LinuxFs.some_fd. keeping. Qed.

Hint Resolve file_write_keeps console_write_keeps copy_some_keeps alloc_file_keeps alloc_scheme_keeps some_fd_keeps : keeps.

Lemma file_read_keeps t fd n : keeps (R t) (LinuxFs.file_read root ctx fd n).
Proof. unfold LinuxFs.file_read. keeping. Qed.

Lemma open_path_keeps t sp fp flags : keeps (R t) (LinuxFs.open_path ctx sp fp flags).
Proof.
  unfold LinuxFs.open_path. apply keeps_bind; [apply _|apply handle_scheme_keeps|]. intros [r|]; [keeping|].
  apply keeps_bind; [apply _| |intros ?; keeping]. case_match; [apply guarded_keeps|]; keeping.
Qed.

Lemma writev_loop_keeps t n : forall i total, keeps (R t) (LinuxFs.writev_loop root ctx n i total).
Proof.
  induction n as [|n IH]; intros i total; cbn [LinuxFs.writev_loop]; keeping; apply IH.
Qed.

Lemma readv_loop_keeps t n : forall i total iov, keeps (R t) (LinuxFs.readv_loop root ctx n i total iov).
Proof.
  induction n as [|n IH]; intros i total iov; cbn [LinuxFs.readv_loop]; keeping; apply IH.
Qed.

Lemma typed_entries_keeps t es : keeps (R t) (LinuxFs.typed_entries es).
Proof. induction es as [|e es IH]; cbn [LinuxFs.typed_entries]; keeping. Qed.

Lemma resolved_keeps t a : keeps (R t) (LinuxFs.resolved root ctx a).
Proof. unfold LinuxFs.resolved. keeping. Qed.

End linux.

Hint Resolve copy_some_keeps console_write_keeps alloc_file_keeps alloc_scheme_keeps some_fd_keeps file_write_keeps file_read_keeps open_path_keeps
  writev_loop_keeps readv_loop_keeps typed_entries_keeps resolved_keeps : keeps.

(** The same with guards. *)
Ltac handling := repeat
  lazymatch goal with
  | |- keeps _ (allowed _ Capability.File true false ≫= _) => apply guarded_keeps
  | |- keeps _ (_ ≫= _) => apply keeps_bind; [apply _| |intros ?]
  | |- keeps _ (if ?b then _ else _) => destruct b
  | |- keeps _ (match ?x with _ => _ end) => destruct x
  | |- keeps _ (let _ := _ in _) => cbv zeta
  | |- keeps _ _ => solve [auto with keeps]
  end.

(** An entry of a table. *)
Definition fine t (o : option (SM Z)) : Prop := match o with Some m => keeps (R t) m | None => True end.

(** The entries of a table, one by one. *)
Ltac entries tac :=
  let Hn := fresh "Hn" in
  destruct (number ctx) as [|p|p] eqn:Hn; [| |exact I]; [try exact I|];
  [..|repeat (destruct p as [p|p|]; try exact I)]; cbn [fine]; tac.

Lemma fs_fine t (env : Env) : fine t (Syscall.fs_handle env ctx).
Proof.
  unfold Syscall.fs_handle. entries idtac.
  all: cbv delta [LinuxFs.sys_open LinuxFs.sys_read LinuxFs.sys_write LinuxFs.sys_close LinuxFs.sys_stat LinuxFs.sys_fstat LinuxFs.sys_lseek
    LinuxFs.sys_dup LinuxFs.sys_dup2 LinuxFs.sys_pipe LinuxFs.sys_pipe2 LinuxFs.sys_getcwd LinuxFs.sys_chdir LinuxFs.sys_rename LinuxFs.sys_mkdir
    LinuxFs.sys_rmdir LinuxFs.sys_unlink LinuxFs.sys_creat LinuxFs.sys_link LinuxFs.sys_symlink LinuxFs.sys_chmod LinuxFs.sys_umask
    LinuxFs.sys_statfs LinuxFs.sys_getdents64 LinuxFs.sys_newfstatat LinuxFs.sys_pread64 LinuxFs.sys_readv LinuxFs.sys_writev LinuxFs.sys_openat
    LinuxFs.sys_readlink LinuxFs.sys_access LinuxFs.sys_fcntl LinuxFs.remove_path LinuxFs.if_writer LinuxFs.if_exists LinuxFs.stat_path]; cbv beta.
  all: handling.
Qed.

(** *** Memory *)

Lemma on_pages_keeps t m : keeps (R t) (LinuxMem.on_pages m).
Proof. apply map_err_keeps. intros k. destruct (m (pages k)). by apply frame_bounded. Qed.

Hint Resolve on_pages_keeps : keeps.

Lemma memory_fine t : fine t (Syscall.memory_handle ctx).
Proof.
  unfold Syscall.memory_handle. entries idtac.
  all: cbv delta [LinuxMem.sys_brk LinuxMem.sys_mmap LinuxMem.sys_mprotect LinuxMem.sys_munmap LinuxMem.sys_madvise LinuxMem.sys_msync
    LinuxMem.sys_memfd_create]; cbv beta.
  all: handling.
Qed.

(** *** Processes *)

Lemma set_msrs_keeps t fs gs : keeps (R t) (LinuxProc.set_msrs fs gs).
Proof. apply modify_keeps. intros k. apply sched_bounded; [|done]. intros _. by apply tame_tasks. Qed.

Lemma fill_keeps t root a bs : keeps (R t) (LinuxProc.fill root ctx a bs).
Proof. unfold LinuxProc.fill. handling. Qed.

Lemma canonical_keeps t a : keeps (R t) (LinuxProc.canonical a : SM unit).
Proof. unfold LinuxProc.canonical. handling. Qed.

Lemma on_signals_keeps t {A} (f : Signal.SignalState -> A * Signal.SignalState) : keeps (R t) (LinuxProc.on_signals ctx f).
Proof. unfold LinuxProc.on_signals. handling. Qed.

Hint Resolve set_msrs_keeps fill_keeps canonical_keeps on_signals_keeps : keeps.

(** Steps of the scheduler. *)
Lemma sched_step_keeps t {A} (f : Scheduler.Sched -> A * Scheduler.Sched) :
  number ctx ∈ reaching -> (forall s, tame (caller ctx) s (snd (f s))) -> keeps (R t) (step sched with_sched f).
Proof.
  intros Hn Hf k. unfold step. specialize (Hf (sched k)). destruct (f (sched k)) as [a s]. by apply sched_bounded.
Qed.

Lemma send_signal_tame c target signum s : tame c s (snd (Scheduler.send_signal target signum s)).
Proof.
  unfold Scheduler.send_signal. destruct (Scheduler.get_process target s) as [p|] eqn:Hp; [|done]. cbn [snd].
  assert (Hu : forall q, Process.capabilities q = Process.capabilities p -> tame c s (Scheduler.update_process target (fun _ => q) s)).
  { intros q Hq. split; [done|]. intros p'. unfold Scheduler.update_process. cbn [Scheduler.tasks Scheduler.with_tasks].
    rewrite lookup_alter. destruct (decide _) as [<-|]; [|by exists p'].
    unfold Scheduler.get_process in Hp. rewrite Hp. intros [= <-]. exists p. by rewrite Hq. }
  repeat case_match; by apply Hu.
Qed.

Lemma waitpid_tame c par child s : tame c s (snd (Scheduler.waitpid par child s)).
Proof. unfold Scheduler.waitpid. repeat case_match; try done. apply tame_delete. Qed.

Lemma fork_tame par frame s c : c < Scheduler.next_pid s -> tame c s (snd (Scheduler.fork par frame s)).
Proof.
  intros Hc. unfold Scheduler.fork. destruct (Scheduler.get_process par s) as [p|] eqn:Hp; [|done].
  unfold Scheduler.get_process in Hp. split; [cbn; lia|]. intros p'.
  unfold Scheduler.enqueue, Scheduler.put_process, Scheduler.update_process, Scheduler.take_pid.
  cbn [snd fst Process.alloc_pid Scheduler.tasks Scheduler.with_tasks Scheduler.with_ready Scheduler.with_next_pid Process.pid Process.inherit Process.new].
  rewrite lookup_insert_ne by lia. rewrite lookup_alter. destruct (decide _) as [<-|]; [|by exists p'].
  rewrite Hp. intros [= <-]. by exists p.
Qed.

Lemma fork_child par frame s child s' : Scheduler.fork par frame s = (Some child, s') -> child = Scheduler.next_pid s.
Proof. unfold Scheduler.fork. destruct (Scheduler.get_process par s); [|done]. by intros [= <- _]. Qed.

Lemma fork_keeps t par : number ctx ∈ reaching -> keeps (R t) (fork par).
Proof.
  intros Hn k Hl. unfold fork. destruct (try cow_fork_parent (pages k)) as [[frame| | |] m]; [|by apply (frame_bounded t k)..].
  assert (H0 : R t k (with_pages m k)) by by apply frame_bounded.
  assert (Hf : R t (with_pages m k) (with_sched (snd (Scheduler.fork par frame (sched k))) (with_pages m k))).
  { apply sched_bounded; [|done]. intros ?. by apply fork_tame. }
  cbv zeta. change (sched (with_pages m k)) with (sched k).
  destruct (Scheduler.fork par frame (sched k)) as [[child|] s] eqn:He; cbn [snd] in Hf |- *; (apply (transitivity H0); [|exact Hl]).
  - apply fork_child in He as ->. apply (transitivity Hf). intros ?. split; try done. intros _.
    cbn [contexts with_contexts with_sched]. by rewrite lookup_insert_ne by (unfold live in Hl; lia).
  - exact Hf.
Qed.

Lemma update_tame_caps c q f s : (forall p, Process.capabilities (f p) = Process.capabilities p) -> tame c s (Scheduler.update_process q f s).
Proof. intros Hf. apply tame_update. intros p. by rewrite Hf. Qed.

Lemma sleep_ms_keeps t p ms : number ctx ∈ reaching -> keeps (R t) (sleep_ms p ms).
Proof.
  intros Hn k. unfold sleep_ms. case_match; [done|]. unfold Timer.sleep.
  assert (Hu : forall q tm, R t k (with_timer tm (with_sched (Scheduler.update_process q (Process.set_state Process.Blocked) (sched k)) k))).
  { intros q tm. transitivity (with_sched (Scheduler.update_process q (Process.set_state Process.Blocked) (sched k)) k); [|by apply frame_bounded].
    apply sched_bounded; [|done]. intros _. by apply update_tame_caps. }
  destruct (Scheduler.raw (sched k)) as [r|]; [|apply Hu]. destruct (Scheduler.get_process r (sched k)); [apply Hu|done].
Qed.

Hint Extern 1 (keeps _ (send_signal _ _)) =>
  apply sched_step_keeps; [|intros ?; apply send_signal_tame] : keeps.
Hint Extern 1 (keeps _ (step sched with_sched (Scheduler.waitpid _ _))) =>
  apply sched_step_keeps; [|intros ?; apply waitpid_tame] : keeps.
Hint Resolve fork_keeps sleep_ms_keeps | 0 : keeps.
Hint Extern 1 (number _ ∈ reaching) =>
  lazymatch goal with Hn : number _ = _ |- _ => rewrite Hn; solve [repeat constructor] end : keeps.

Lemma process_fine t (env : Env) : number ctx ∉ [59; 202] -> fine t (Syscall.process_handle env ctx).
Proof.
  intros Hs. unfold Syscall.process_handle. entries idtac.
  all: try (exfalso; apply Hs; solve [repeat constructor]).
  all: cbv delta [LinuxProc.sys_exit LinuxProc.sys_getpid LinuxProc.sys_kill LinuxProc.sys_tgkill LinuxProc.sys_waitpid LinuxProc.sys_arch_prctl
    LinuxProc.sys_set_tid_address LinuxProc.sys_clone LinuxProc.sys_getpriority LinuxProc.sys_setpriority LinuxProc.sys_sched_getparam
    LinuxProc.sys_prctl LinuxProc.sys_pidfd_open LinuxProc.sys_rt_sigaction LinuxProc.sys_rt_sigprocmask Syscall.pid_of]; cbv beta.
  all: handling.
Qed.

Lemma time_fine t (env : Env) : number ctx ∉ [35] -> fine t (Syscall.time_handle env ctx).
Proof.
  intros Hs. unfold Syscall.time_handle. entries idtac.
  all: try (exfalso; apply Hs; solve [repeat constructor]).
  all: cbv delta [LinuxProc.sys_gettimeofday LinuxProc.sys_time LinuxProc.sys_clock_gettime LinuxProc.sys_clock_getres
    LinuxProc.sys_timerfd_create]; cbv beta.
  all: handling.
Qed.

(** *** Sockets *)

Lemma sockets_keeps t : keeps (R t) LinuxNet.sockets.
Proof. unfold LinuxNet.sockets. handling. Qed.

Lemma entry_keeps t fd : keeps (R t) (LinuxNet.entry fd).
Proof. unfold LinuxNet.entry. apply keeps_bind; [apply _|apply sockets_keeps|intros ?; handling]. Qed.

Lemma on_sockets_keeps t f : keeps (R t) (LinuxNet.on_sockets f).
Proof. unfold LinuxNet.on_sockets. handling. Qed.

Hint Resolve sockets_keeps entry_keeps on_sockets_keeps : keeps.

Lemma update_keeps t fd f : keeps (R t) (LinuxNet.update fd f).
Proof. unfold LinuxNet.update. handling. Qed.

Hint Resolve update_keeps : keeps.

Lemma connect_local_keeps t fd sa : keeps (R t) (LinuxNet.connect_local fd sa).
Proof. unfold LinuxNet.connect_local. handling. Qed.

Lemma accept_local_keeps t fd client rest : keeps (R t) (LinuxNet.accept_local ctx fd client rest).
Proof. unfold LinuxNet.accept_local. handling. Qed.

Lemma accept_remote_keeps t root fd : keeps (R t) (LinuxNet.accept_remote root ctx fd).
Proof. unfold LinuxNet.accept_remote, LinuxNet.write_sockaddr, LinuxNet.write_u32_to_user. handling. Qed.

Hint Resolve connect_local_keeps accept_local_keeps accept_remote_keeps : keeps.

Lemma net_fine t (env : Env) : fine t (Syscall.net_handle env ctx).
Proof.
  unfold Syscall.net_handle. entries idtac.
  all: cbv delta [LinuxNet.sys_socket LinuxNet.sys_bind LinuxNet.sys_listen LinuxNet.sys_connect LinuxNet.sys_accept LinuxNet.sys_sendto
    LinuxNet.sys_recvfrom LinuxNet.if_network LinuxNet.read_sockaddr]; cbv beta.
  all: handling.
Qed.

(** *** Signals and the rest *)

Lemma sigreturn_keeps t root : number ctx = 15 -> keeps (R t) (LinuxProc.sys_rt_sigreturn root ctx).
Proof.
  intros Hn. unfold LinuxProc.sys_rt_sigreturn. apply keeps_bind; [apply _|auto with keeps|]. intros x.
  apply keeps_bind; [apply _|auto with keeps|]. intros [frame|]; [|handling]. cbv zeta.
  apply keeps_bind; [apply _| |intros ?; handling]. apply modify_keeps. intros k Hl. by split.
Qed.

Lemma signal_fine t (env : Env) : fine t (Syscall.signal_handle env ctx).
Proof.
  unfold Syscall.signal_handle. entries idtac.
  all: cbv delta [LinuxProc.signal_rt_sigaction LinuxProc.sys_sigaltstack]; cbv beta.
  all: first [by apply sigreturn_keeps|handling].
Qed.

Lemma misc_fine t (env : Env) : number ctx ∉ common_left_out -> fine t (Syscall.misc_handle env ctx).
Proof.
  intros Hs. unfold Syscall.misc_handle. entries idtac.
  all: try (exfalso; apply Hs; solve [repeat constructor]).
  all: cbv delta [LinuxProc.sys_uname LinuxProc.sys_ioctl LinuxProc.sys_getrlimit LinuxProc.sys_setrlimit LinuxProc.sys_sysinfo
    LinuxProc.sys_prlimit64 LinuxProc.sys_getrandom LinuxProc.sys_epoll_create1 LinuxProc.sys_eventfd LinuxProc.sys_signalfd
    LinuxProc.sys_getcpu]; cbv beta.
  all: handling.
Qed.

(** The first entry that is there. *)
Lemma first_fine t os d : Forall (fine t) os -> keeps (R t) d -> keeps (R t) (match omap id os with m :: _ => m | [] => d end).
Proof.
  induction 1 as [|o os Ho _ IH]; intros Hd; [done|]. destruct o as [m|]; [exact Ho|]. by apply IH.
Qed.

Lemma linux_handle_keeps t (env : Env) :
  number ctx ∉ common_left_out -> number ctx ∉ [35; 59; 202] -> keeps (R t) (Syscall.linux_handle env ctx).
Proof.
  intros Hl Hs. apply first_fine; [|handling]. unfold Syscall.families.
  repeat (apply Forall_cons; split); try apply Forall_nil; try done.
  - apply memory_fine.
  - apply process_fine. set_solver.
  - apply fs_fine.
  - apply time_fine. set_solver.
  - apply net_fine.
  - apply signal_fine.
  - by apply misc_fine.
  - unfold Syscall.ebpf_handle. destruct (Z.eqb_spec (number ctx) 321) as [Hn|]; [|exact I].
    exfalso. apply Hl. rewrite Hn. by repeat constructor.
Qed.

(** *** The kernel's own calls *)

Lemma grant_keeps t r perms tgt : number ctx = 1000 -> keeps (R t) (NativeAbi.grant ctx r perms tgt).
Proof.
  intros Hn. unfold NativeAbi.grant. apply keeps_bind; [apply _|auto with keeps|]. intros p.
  apply keeps_bind; [apply _|auto with keeps|]. intros g. destruct (Capability.grant _ _ _ _ _ _) as [[o sp] g'].
  apply keeps_bind; [apply _| |intros ?; handling]. apply modify_keeps. intros k Hl. split; try done.
  intros _ q Hq. cbn [sched with_sched Scheduler.tasks Scheduler.with_tasks Scheduler.update_process]. by rewrite lookup_alter_ne by done.
Qed.

Lemma cap_request_keeps t root : number ctx = 1000 -> keeps (R t) (NativeAbi.ziqa_cap_request root ctx).
Proof.
  intros Hn. unfold NativeAbi.ziqa_cap_request, NativeAbi.open_and_grant.
  repeat (handling; try by apply grant_keeps).
Qed.

(** A token to write is a right to write. *)
Lemma lookup_allows cs i cap :
  Capability.lookup cs i = Some cap -> Capability.resource cap = Capability.File -> Capability.write (Capability.permissions cap) = true ->
  Capability.has_permission cs Capability.File true false = true.
Proof.
  unfold Capability.lookup. rewrite fmap_Some. intros ([pos c] & Hf & ->) Hr Hw. apply list_find_Some in Hf as (Hl & _ & _).
  apply existsb_exists. exists c. split; [|by apply Capability.allows_iff]. apply list_elem_of_In. by eapply list_elem_of_lookup_2.
Qed.

Lemma token_keeps t {A} (f : FdTable.FileDesc * Z + Z -> SM A) :
  (forall e, keeps (R t) (f (inr e))) -> (forall d, keeps (R false) (f (inl d))) ->
  keeps (R t) (x ← NativeAbi.token_fd ctx Capability.write; f x).
Proof.
  intros Hr Hi k Hl. unfold NativeAbi.token_fd, get_fd, mbind, M_bind, mret, M_ret, process.
  destruct (Scheduler.get_process (caller ctx) (sched k)) as [p|] eqn:Hp; [|by split].
  destruct (Capability.lookup (Process.capabilities p) (arg 0 ctx)) as [cap|] eqn:Hc; [|by apply Hr].
  destruct (bool_decide_reflect (Capability.resource cap = Capability.File)); [|by apply Hr].
  destruct (Capability.write (Capability.permissions cap)) eqn:Hw; cbn [negb orb]; [|by apply Hr].
  rewrite Hp. destruct (FdTable.get _ _) as [d|]; [|by apply Hr].
  destruct (Hi (d, Capability.target cap) k Hl) as [L C P _ O]. split; [done..| |done]. intros _ _.
  unfold writer, caps_of. unfold Scheduler.get_process in Hp. rewrite Hp. cbn [from_option].
  by rewrite (lookup_allows _ _ _ Hc).
Qed.

Lemma set_offset_keeps t fd off n : keeps (R t) (NativeAbi.set_offset ctx fd off n).
Proof. unfold NativeAbi.set_offset. handling. Qed.

Hint Resolve set_offset_keeps : keeps.

Lemma cap_write_keeps t root : keeps (R t) (NativeAbi.ziqa_cap_write root ctx).
Proof. unfold NativeAbi.ziqa_cap_write. apply token_keeps; [intros e|intros [d fd]]; handling. Qed.

Lemma token_fd_keeps t right : keeps (R t) (NativeAbi.token_fd ctx right).
Proof. unfold NativeAbi.token_fd. handling. Qed.

Hint Resolve token_fd_keeps : keeps.

(** Revoking takes tokens away. *)
Lemma revoke_subset fuel ck p i v ck' q sp' :
  Capability.ziqa_cap_revoke fuel ck p i = Some (v, ck') -> Capability.procs ck' !! q = Some sp' ->
  exists sp, Capability.procs ck !! q = Some sp /\ sp' ⊆ sp.
Proof.
  unfold Capability.ziqa_cap_revoke. destruct (Capability.procs ck !! p) as [sp|]; [|done].
  destruct (Capability.lookup sp i) as [cap|]; [|intros [= <- <-] ?; by exists sp'].
  unfold Capability.revoke_global, mbind, option_bind. destruct (Capability.get_all_descendants _ _ _ _) as [ds|]; [|done].
  intros [= <- <-]. cbn [Capability.procs]. rewrite Capability.revoke_everywhere_lookup. intros (sp0 & Hs & ->)%fmap_Some.
  exists sp0. split; [done|]. intros c Hc. by eapply elem_of_sublist, Capability.revoke_all_sublist.
Qed.

Lemma revoke_keeps t : number ctx = 1005 -> keeps (R t) (NativeAbi.ziqa_cap_revoke ctx).
Proof.
  intros Hn k. unfold NativeAbi.ziqa_cap_revoke. destruct (Capability.ziqa_cap_revoke _ _ _ _) as [[v ck]|] eqn:Hr; [|done].
  cbn [snd]. unfold NativeAbi.put_cap_kernel. 
  lazymatch goal with |- bounded _ _ _ (with_caps _ ?k1) => transitivity k1; [apply sched_bounded|by apply frame_bounded] end.
  - intros _. split; [done|]. intros p'. cbn [Scheduler.tasks Scheduler.with_tasks]. rewrite map_lookup_imap.
    destruct (Scheduler.tasks (sched k) !! caller ctx) as [p|] eqn:Hp; [|done]. cbn [mbind option_bind]. intros [= <-]. exists p. split; [done|].
    cbn [NativeAbi.set_capabilities Process.capabilities]. destruct (Capability.procs ck !! caller ctx) as [sp'|] eqn:Hs; [|apply list_subseteq_nil].
    destruct (revoke_subset _ _ _ _ _ _ _ _ Hr Hs) as (sp & Hq & ?). cbn [NativeAbi.cap_kernel Capability.procs] in Hq.
    rewrite lookup_fmap, Hp in Hq. by injection Hq as ->.
  - intros Ho. exfalso. apply Ho. rewrite Hn. by repeat constructor.
Qed.

Lemma native_on_signals_keeps t f : keeps (R t) (NativeAbi.on_signals ctx f).
Proof. unfold NativeAbi.on_signals. handling. Qed.

Hint Resolve native_on_signals_keeps : keeps.

Lemma native_fine t (env : Env) : fine t (Syscall.native env ctx).
Proof.
  unfold Syscall.native. entries idtac.
  all: try first [by apply cap_request_keeps|by apply cap_write_keeps|by apply revoke_keeps].
  all: cbv delta [NativeAbi.ziqa_cap_read NativeAbi.ziqa_cap_close NativeAbi.ziqa_cap_seek NativeAbi.ziqa_sig_setaction
    NativeAbi.ziqa_sig_getmask NativeAbi.ziqa_sig_setmask NativeAbi.ziqa_sig_kill NativeAbi.ziqa_sig_pause NativeAbi.ziqa_dev_port_in
    NativeAbi.ziqa_dev_port_out NativeAbi.ziqa_dev_map NativeAbi.ziqa_dev_irq_wait NativeAbi.ziqa_dev_pci_find NativeAbi.ziqa_dev_pci_bar
    NativeAbi.ziqa_dev_pci_irq NativeAbi.ziqa_dev_virt_to_phys NativeAbi.gpu_chan NativeAbi.shm_create NativeAbi.shm_attach NativeAbi.ipc_create
    NativeAbi.ipc_send NativeAbi.ipc_recv NativeAbi.check_capability]; cbv beta.
  all: handling.
Qed.

(** The ring [io_uring_submit] looks at is a new one, and empty. *)
Lemma process_slots_empty root slots : forall n r, Forall (fun s => s = None) (Uring.sq_entries r) ->
  exists r', Uring.process_slots root slots n r = (mret (n, r') : SM (Z * Uring.IoUring)).
Proof.
  induction slots as [|i slots IH]; intros n r Hr; [by exists r|]. cbn [Uring.process_slots]. unfold Uring.take_sq.
  assert (Hi : default None (Uring.sq_entries r !! i) = None).
  { destruct (Uring.sq_entries r !! i) as [s|] eqn:Hs; [|done]. by apply (Forall_lookup_1 _ _ _ _ Hr Hs). }
  rewrite Hi. apply IH. cbn [Uring.sq_entries]. by apply Forall_insert.
Qed.

Lemma process_requests_new root p n : exists r, Uring.process_requests root (Uring.new p n) = (mret (0, r) : SM (Z * Uring.IoUring)).
Proof. apply process_slots_empty. cbn [Uring.new Uring.sq_entries]. by apply Forall_replicate. Qed.

Lemma fast_path_fine t (env : Env) : fine t (Syscall.fast_path env ctx).
Proof.
  unfold Syscall.fast_path. entries idtac.
  all: cbv delta [NativeAbi.shm_create NativeAbi.shm_at]; cbv beta.
  all: try handling.
  destruct (process_requests_new (Syscall.kernel_root env) (Process.pid a) 16) as [r ->]. handling.
Qed.

(** The slice of [execve] never has the length of its buffer. *)
Lemma core_execve_state (env : Env) k : snd (Syscall.core_execve env ctx k) = k.
Proof.
  unfold Syscall.core_execve, NativeAbi.check_capability, allowed, copy_in_to, map_err, process, mbind, M_bind, mret, M_ret, throw.
  destruct (Scheduler.get_process (caller ctx) (sched k)) as [p|] eqn:Hp; [|done].
  destruct (Capability.has_permission _ _ _ _); cbn [negb]; [|done]. rewrite Hp.
  unfold on, UserCopy.copy_to_slice. cbn [UserCopy.len Z.eqb Pos.eqb negb]. unfold throw. by destruct k.
Qed.

Lemma core_fine t (env : Env) : fine t (Syscall.core env ctx).
Proof.
  unfold Syscall.core. entries idtac.
  all: try (apply keeps_pure; [apply _|apply core_execve_state]).
  all: cbv delta [Syscall.core_munmap Syscall.sched_yield LinuxProc.sys_exit LinuxProc.sys_getpid NativeAbi.net_notify_call
    NativeAbi.net_ack_call NativeAbi.check_capability]; cbv beta.
  all: try handling.
  apply update_caller_keeps. intros p. by case_decide.
Qed.

(** *** The other ABIs *)

Lemma on_tables_keeps t {A} (m : KM A) : keeps (R t) (Redox.on_tables m).
Proof. apply map_err_keeps. intros k. destruct (m (pages k)). by apply frame_bounded. Qed.

Lemma read_user_u64_keeps t root a : keeps (R t) (Redox.read_user_u64 root ctx a).
Proof. unfold Redox.read_user_u64. handling. Qed.

Lemma read_redox_map_keeps t root : keeps (R t) (Redox.read_redox_map root ctx).
Proof. unfold Redox.read_redox_map. handling. Qed.

Hint Resolve on_tables_keeps read_user_u64_keeps read_redox_map_keeps : keeps.

Lemma map_redox_anonymous_keeps t root map : keeps (R t) (Redox.map_redox_anonymous root ctx map).
Proof. unfold Redox.map_redox_anonymous. handling. Qed.

Lemma display_start_keeps t fd w h bpp a : keeps (R t) (Redox.display_start ctx fd w h bpp a).
Proof. unfold Redox.display_start. handling. Qed.

Lemma map_display_at_keeps t map a n c : keeps (R t) (Redox.map_display_at ctx map a n c).
Proof. unfold Redox.map_display_at. handling. Qed.

Hint Resolve map_redox_anonymous_keeps display_start_keeps map_display_at_keeps : keeps.

(** The numbers of Linux that Redox calls stand for, but for the ones that
    sleep. *)
Definition delegated : list Z := [0; 1; 3; 11; 228].

Hint Extern 1 (keeps _ (Syscall.delegate_linux_number _ _ _)) =>
  match goal with Hd : forall n, n ∈ delegated -> _ |- _ => apply Hd; solve [repeat constructor] end : keeps.

Lemma redox_only_fine t (env : Env) :
  (forall n, n ∈ delegated -> keeps (R t) (Syscall.delegate_linux_number env ctx n)) -> number ctx ∉ [162; 240] ->
  fine t (Syscall.redox_only env ctx).
Proof.
  intros Hd Hs. unfold Syscall.redox_only. entries idtac.
  all: try (exfalso; apply Hs; solve [repeat constructor]).
  all: cbv delta [Redox.handle_fmap Redox.handle_fpath Redox.handle_write Redox.handle_dup Redox.handle_fcntl Redox.handle_sys_call
    Redox.handle_openat]; cbv beta.
  all: handling.
Qed.

Lemma wasm_handle_keeps t (env : Env) : number ctx <> 10 -> keeps (R t) (Syscall.wasm_handle env ctx).
Proof.
  intros Hs. assert (Hw : Syscall.wasm_handle env ctx = (if number ctx =? 21 then mret (arg 1 ctx)
    else if number ctx =? 99 then LinuxProc.sys_exit ctx else throw (UnsupportedSyscall (number ctx)))).
  { unfold Syscall.wasm_handle. destruct (number ctx) as [|p|p]; [done| |done]. repeat (destruct p as [p|p|]; try done). }
  rewrite Hw. unfold LinuxProc.sys_exit. handling.
Qed.

End handlers.

(** A call under the number of another one with the same caller. *)
Lemma bounded_number t c ctx k k' :
  caller c = caller ctx -> number c ∉ [15; 1000] -> number c ∉ reaching -> bounded t c k k' -> bounded t ctx k k'.
Proof.
  intros Hc Hn Hr Hb Hl. rewrite <-Hc in Hl. destruct (Hb Hl) as [L C P T O]. rewrite Hc in *.
  split; intros; [done|apply C|apply P|apply T|apply O]; set_solver.
Qed.

Lemma delegate_keeps t (env : Env) ctx n : n ∈ delegated -> keeps (bounded t ctx) (Syscall.delegate_linux_number env ctx n).
Proof.
  intros Hn k. unfold Syscall.delegate_linux_number. set (c := mkContext n (args ctx) (caller ctx)).
  assert (Hc : forall l : list Z, Forall (fun x => x ∉ l) delegated -> number c ∉ l).
  { intros l Hl. exact (proj1 (Forall_forall _ _) Hl n Hn). }
  apply (bounded_number t c); [done|apply Hc; compute_done..|]. revert k.
  apply (first_fine c t); [|by intros k]. repeat (apply Forall_cons; split); try apply Forall_nil; try done.
  - apply memory_fine.
  - apply process_fine, Hc. compute_done.
  - apply fs_fine.
  - apply time_fine, Hc. compute_done.
  - apply signal_fine.
  - apply misc_fine, Hc. compute_done.
Qed.

Lemma redox_handle_keeps t (env : Env) ctx :
  number ctx ∉ left_out Process.RedoxElf -> number ctx ∉ [35; 59; 202] -> keeps (bounded t ctx) (Syscall.redox_handle env ctx).
Proof.
  intros Hl Hs. apply not_elem_of_app in Hl as [Hl Hc]. unfold Syscall.redox_handle.
  pose proof (redox_only_fine ctx t env (fun n => delegate_keeps t env ctx n) Hl) as Hr.
  destruct (Syscall.redox_only env ctx); [exact Hr|]. by apply linux_handle_keeps.
Qed.

(** Every call of every process. *)
Lemma dispatch_bounded ctx t (env : Env) k p :
  Scheduler.get_process (caller ctx) (sched k) = Some p -> number ctx ∉ left_out (Process.abi p) ->
  bounded t ctx k (snd (Syscall.dispatch_syscall env ctx k)).
Proof.
  intros Hp Hl. unfold Syscall.dispatch_syscall.
  pose proof (fast_path_fine ctx t env) as Hf. pose proof (core_fine ctx t env) as Hc. pose proof (native_fine ctx t env) as Hn.
  destruct (Syscall.fast_path env ctx) as [m|] eqn:Hfe; [apply Hf|].
  destruct (Syscall.core env ctx) as [m|] eqn:Hce; [apply Hc|].
  destruct (Syscall.native env ctx) as [m|]; [apply Hn|].
  cbn [omap list_omap id]. unfold Syscall.plugin_call, mbind, M_bind, process. rewrite Hp.
  assert (Hs : number ctx ∉ [35; 59; 202]).
  { intros Hi. unfold Syscall.fast_path in Hfe. unfold Syscall.core in Hce.
    repeat (apply elem_of_cons in Hi as [Hi|Hi]; [by rewrite Hi in Hfe, Hce|]). by apply not_elem_of_nil in Hi. }
  destruct (Process.abi p).
  - exact (linux_handle_keeps ctx t env Hl Hs k).
  - apply not_elem_of_cons in Hl as [Hl _]. exact (wasm_handle_keeps ctx t env Hl k).
  - done.
  - exact (redox_handle_keeps t env ctx Hl Hs k).
Qed.

End confine.

End Confine.
