(* ===== verification/SocketSpec.v ===== *)
(** * Local connections are byte streams

    [send] and [recv] on two joined sockets answer as two queues of bytes do,
    one in each direction. *)

From S2P Require Import Prelude Bytes Abi Socket.

Module SocketSpec.
Import Socket.

(** What can be read from a socket. *)
Definition unread (e : SocketEntry) : list Z := drop (Z.to_nat (rx_pos e)) (rx_buf e).

Definition open_end (e : SocketEntry) (peer : Z) (q : list Z) : Prop :=
  state e <> Closed /\ paired e = Some peer /\ 0 <= rx_pos e <= zlen (rx_buf e) /\ unread e = q.

(** [a] and [b] are joined; [qa] and [qb] are what they can read. *)
Definition joined (a b : Z) (qa qb : list Z) (ss : Sockets) : Prop :=
  exists ea eb, ss !! a = Some ea /\ ss !! b = Some eb /\ open_end ea b qa /\ open_end eb a qb.

(** A call on the first ([true]) or the second end. *)
Inductive op := Send (first : bool) (bs : list Z) | Recv (first : bool) (len : Z).

Definition op_ok (o : op) : Prop := match o with Send _ _ => True | Recv _ len => 0 <= len end.

(** What the calls answer: the bytes received, [None] for an error. *)
Definition run_op (a b : Z) (o : op) (ss : Sockets) : res unit (option (list Z) * Sockets) :=
  let fd (first : bool) := if first then a else b in
  match o with
  | Send first bs => Ok (match sock_send (fd first) bs ss with Some ss => (Some [], ss) | None => (None, ss) end)
  | Recv first len => sock_recv (fd first) len ss
  end.

Fixpoint run_ops (a b : Z) (os : list op) (ss : Sockets) : res unit (list (option (list Z)) * Sockets) :=
  match os with
  | [] => Ok ([], ss)
  | o :: os => x ← run_op a b o ss; y ← run_ops a b os (snd x); Ok (fst x :: fst y, snd y)
  end.

(** The queues. *)
Definition spec_op (o : op) (q : list Z * list Z) : option (list Z) * (list Z * list Z) :=
  let '(qa, qb) := q in
  match o with
  | Send true bs => (Some [], (qa, qb ++ bs))
  | Send false bs => (Some [], (qa ++ bs, qb))
  | Recv true len => (Some (take (Z.to_nat len) qa), (drop (Z.to_nat len) qa, qb))
  | Recv false len => (Some (take (Z.to_nat len) qb), (qa, drop (Z.to_nat len) qb))
  end.

Fixpoint spec_ops (os : list op) (q : list Z * list Z) : list (option (list Z)) * (list Z * list Z) :=
  match os with
  | [] => ([], q)
  | o :: os => let '(x, q) := spec_op o q in let '(xs, q) := spec_ops os q in (x :: xs, q)
  end.

(** Sockets that are neither [a] nor [b]. *)
Definition elsewhere (a b : Z) (ss ss' : Sockets) : Prop := forall fd, fd <> a -> fd <> b -> ss' !! fd = ss !! fd.

Lemma joined_sym a b qa qb ss : joined a b qa qb ss -> joined b a qb qa ss.
Proof. intros (ea & eb & ? & ? & ? & ?). by exists eb, ea. Qed.

Lemma send_joined a b qa qb bs ss : a <> b -> joined a b qa qb ss ->
  exists ss', sock_send a bs ss = Some ss' /\ joined a b qa (qb ++ bs) ss' /\ elsewhere a b ss ss'.
Proof.
  intros Hab (ea & eb & Ha & Hb & Ea & Eb). destruct Ea as (Hs & Hp & Hr & Hq). destruct Eb as (Hs' & Hp' & Hr' & Hq').
  unfold sock_send. rewrite Ha, bool_decide_eq_false_2, Hp by done. eexists. split; [done|]. split.
  - eexists _, _. split; [by rewrite lookup_alter_ne, lookup_insert_eq|]. split; [by rewrite lookup_alter_eq, lookup_insert_ne, Hb|]. split; [by split|].
    split; [done|]. split; [done|]. split.
    + cbn [set_rx rx_pos rx_buf]. unfold zlen in *. rewrite length_app. lia.
    + unfold unread in *. cbn [set_rx rx_pos rx_buf]. rewrite drop_app_le by (unfold zlen in *; lia). by rewrite Hq'.
  - intros fd Hfa Hfb. by rewrite lookup_alter_ne, lookup_insert_ne.
Qed.

Lemma advance_end e peer q n : open_end e peer q -> 0 <= n <= zlen q -> open_end (advance n e) peer (drop (Z.to_nat n) q).
Proof.
  intros (Hs & Hp & Hr & <-) Hn. unfold advance. cbv zeta. unfold unread, zlen in *. rewrite length_drop in Hn.
  destruct (Z.leb_spec (Z.of_nat (length (rx_buf e))) (rx_pos e + n)); (split; [done|split; [done|]]); unfold unread, zlen; cbn [set_rx rx_pos rx_buf length].
  - split; [lia|]. rewrite drop_drop. symmetry. apply drop_ge. lia.
  - split; [lia|]. rewrite drop_drop. f_equal. lia.
Qed.

Lemma recv_joined a b qa qb len ss : a <> b -> 0 <= len -> joined a b qa qb ss ->
  exists ss', sock_recv a len ss = (Ok (Some (take (Z.to_nat len) qa), ss') : res unit _) /\ joined a b (drop (Z.to_nat len) qa) qb ss' /\ elsewhere a b ss ss'.
Proof.
  intros Hab Hlen (ea & eb & Ha & Hb & Ea & Eb). pose proof Ea as (Hs & Hp & Hr & Hq). unfold sock_recv, sock_peek.
  rewrite Ha, bool_decide_eq_false_2 by done. destruct (Z.ltb_spec (zlen (rx_buf ea)) (rx_pos ea)); [lia|].
  set (o := if _ =? 0 then [] else _). assert (Ho : o = take (Z.to_nat len) qa).
  { unfold o, sub. fold (unread ea). rewrite Hq. assert (Hl : zlen qa = zlen (rx_buf ea) - rx_pos ea) by (rewrite <-Hq; unfold unread, zlen in *; rewrite length_drop; lia).
    rewrite <-Hl. destruct (Z.eqb_spec (zlen qa) 0) as [Hz|Hz]; [by destruct qa; [rewrite take_nil|unfold zlen in Hz; cbn [length] in Hz; lia]|].
    destruct (decide (len <= zlen qa)); [by rewrite Z.min_l by lia|]. rewrite Z.min_r by lia. rewrite !take_ge; [done|unfold zlen in *; lia..]. }
  rewrite Ho. clear o Ho. cbn [mbind res_bind]. eexists. split; [done|].
  assert (Hn : zlen (take (Z.to_nat len) qa) <= zlen qa) by (unfold zlen; rewrite length_take; lia).
  assert (Hd : drop (Z.to_nat len) qa = drop (Z.to_nat (zlen (take (Z.to_nat len) qa))) qa).
  { unfold zlen. rewrite length_take, Nat2Z.id. destruct (decide (Z.to_nat len <= length qa)%nat); [by rewrite Nat.min_l by lia|].
    rewrite Nat.min_r by lia. rewrite !drop_ge by lia. done. }
  destruct (take (Z.to_nat len) qa) as [|x xs] eqn:Ht; cbv iota beta.
  - split; [|done]. rewrite Hd. by exists ea, eb.
  - split; [|by intros fd Hfa Hfb; rewrite lookup_alter_ne]. exists (advance (zlen (x :: xs)) ea), eb. rewrite lookup_alter_eq, Ha, lookup_alter_ne by done.
    split; [done|]. split; [done|]. split; [|done]. rewrite Hd. apply advance_end; [done|]. unfold zlen in *. lia.
Qed.

Lemma op_joined a b o qa qb ss : a <> b -> op_ok o -> joined a b qa qb ss ->
  exists ss', run_op a b o ss = Ok (fst (spec_op o (qa, qb)), ss') /\
    joined a b (fst (snd (spec_op o (qa, qb)))) (snd (snd (spec_op o (qa, qb)))) ss' /\ elsewhere a b ss ss'.
Proof.
  intros Hab Ho Hj. assert (Hsw : forall ss ss', elsewhere b a ss ss' -> elsewhere a b ss ss') by (intros ? ? He fd ? ?; by apply He).
  destruct o as [[] bs|[] len]; cbn [run_op spec_op fst snd].
  - destruct (send_joined a b qa qb bs ss Hab Hj) as (ss' & -> & ? & ?). by exists ss'.
  - destruct (send_joined b a qb qa bs ss (not_eq_sym Hab) (joined_sym _ _ _ _ _ Hj)) as (ss' & -> & ?%joined_sym & ?). exists ss'. eauto.
  - by apply recv_joined.
  - destruct (recv_joined b a qb qa len ss (not_eq_sym Hab) Ho (joined_sym _ _ _ _ _ Hj)) as (ss' & -> & ?%joined_sym & ?). exists ss'. eauto.
Qed.

(** C24. On two joined sockets any sequence of sends and receives, at either
    end and with any lengths, answers as two queues of bytes do: what one end
    sends the other end receives, in order, complete and once; an end that has
    nothing to read gets no bytes.  No other socket changes. *)
Theorem streams_are_queues a b os qa qb ss :
  a <> b -> Forall op_ok os -> joined a b qa qb ss ->
  exists ss', run_ops a b os ss = Ok (fst (spec_ops os (qa, qb)), ss') /\
    joined a b (fst (snd (spec_ops os (qa, qb)))) (snd (snd (spec_ops os (qa, qb)))) ss' /\ elsewhere a b ss ss'.
Proof.
  intros Hab Hos. revert qa qb ss. induction Hos as [|o os Ho Hos IH]; intros qa qb ss Hj; [by exists ss|].
  destruct (op_joined a b o qa qb ss Hab Ho Hj) as (ss1 & H1 & Hj1 & He1). cbn [run_ops spec_ops]. rewrite H1. cbn [mbind res_bind fst snd].
  destruct (spec_op o (qa, qb)) as [x [qa1 qb1]]. cbn [fst snd] in *. destruct (IH qa1 qb1 ss1 Hj1) as (ss2 & H2 & Hj2 & He2). rewrite H2. cbn [fst snd].
  exists ss2. destruct (spec_ops os (qa1, qb1)) as [xs q]. split; [done|]. split; [done|]. intros fd Hfa Hfb. by rewrite He2, He1.
Qed.

(** Sockets 3 and 4, joined as [accept] joins them. *)
Definition ex_pair : Sockets :=
  <[3 := set_paired (Some 4) (set_state Connected (new 2 1 0))]> {[4 := set_paired (Some 3) (set_state Connected (new 2 1 0))]}.

Lemma streams_are_queues_witness :
  exists ss', run_ops 3 4 [Send true [1; 2; 3]; Send true [4]; Recv false 2; Recv true 9; Recv false 9] ex_pair =
    Ok ([Some []; Some []; Some [1; 2]; Some []; Some [3; 4]], ss').
Proof.
  destruct (streams_are_queues 3 4 [Send true [1; 2; 3]; Send true [4]; Recv false 2; Recv true 9; Recv false 9] [] [] ex_pair) as (ss' & H & _).
  - done.
  - repeat constructor; cbn [op_ok]; lia.
  - eexists _, _. split; [reflexivity|]. split; [reflexivity|]. by split.
  - exists ss'. exact H.
Defined.

End SocketSpec.
