(* ===== verification/SyscallSpec.v ===== *)
(** * What the system-call layer guarantees

    Consequences of [Confine] for sequences of calls and for the entry, the
    calls that break its guarantees ([cap_request], [rt_sigreturn]), and the
    calls that never reach their implementation. *)

From S2P Require Import Prelude Bytes Abi Capability Signal Vma FdTable Process Scheduler Ipc Timer Path Files Vfs RmmArch RmmFrame Paging Compress UserCopy Snapshot Socket Shm Kernel Uring LinuxFs NativeAbi LinuxMem LinuxProc LinuxNet Redox Syscall Confine PagingCow CompressSpec.
Import RmmArch RmmFrame Paging Compress Kernel Confine.

Module SyscallSpec.

(** The tables at a known number. *)
Ltac at_number Hn :=
  unfold Syscall.families, Syscall.fast_path, Syscall.core, Syscall.native, Syscall.memory_handle, Syscall.process_handle, Syscall.fs_handle,
    Syscall.time_handle, Syscall.net_handle, Syscall.signal_handle, Syscall.misc_handle, Syscall.ebpf_handle;
  rewrite Hn; reflexivity.

Section spec.
#[local] Existing Instance X8664Arch.
Context {XF W K D : Type} {fx : Files.File XF} {out : Vfs.Outside W XF} {DV : Devices D} {SK : Socket.Stack K}.
Context `{X : X86} `{XU : LinuxMem.X86Unmap} `{CD : Codec} `{VA : VirtAddrOps} `{BS : BinarySearch}.

Abbreviation State := (KState (XF := XF) (W := W) (K := K) (D := D)).
Abbreviation SM := (M State AbiError).
Abbreviation Env := (Syscall.Env (XF := XF) (W := W) (K := K) (D := D)).

(** ** Capabilities *)

(** The caller of a call that [Confine] covers. *)
Definition covered (ctx : SyscallContext) (k : State) : Prop :=
  exists p, Scheduler.get_process (caller ctx) (sched k) = Some p /\ number ctx ∉ left_out (Process.abi p).

(** System calls of the process [c], one after the other, whatever they
    answer.  None of them asks for a capability. *)
Inductive calls (env : Env) (c : Z) : State -> State -> Prop :=
| calls_nil k : calls env c k k
| calls_cons ctx k k' :
    caller ctx = c -> number ctx <> 1000 -> covered ctx k -> calls env c (snd (Syscall.dispatch_syscall env ctx k)) k' -> calls env c k k'.

(** C3. A process that has no token to write files cannot change the file
    tree by its own calls, in whatever order it makes them and whatever their
    arguments, and it does not get such a token either.  The calls are all
    those of the kernel itself and of the ABI of the process, be it Linux,
    Redox or WebAssembly, but for these: [cap_request], which hands out that
    token ([cap_request_grants_files]); [bpf], which writes through raw
    pointers; and the calls during which other processes run and do what they
    may do, which are [poll], [select], [pselect6] and [ppoll], [nanosleep] and
    [futex] of Redox and the yield of WebAssembly. *)
Theorem files_need_a_token env c k k' :
  calls env c k k' -> live c k -> writer c k = false -> tree (vfs k') = tree (vfs k) /\ writer c k' = false.
Proof.
  induction 1 as [k|ctx k k' <- Hn (p & Hp & Hl) _ IH]; intros Hk Hw; [done|].
  destruct (dispatch_bounded ctx true env k p Hp Hl Hk) as [L _ C T _].
  destruct (IH L (writer_subset _ _ _ (C Hn) Hw)) as [-> ->]. split; [|done]. by apply T.
Qed.


(** ** The entry *)

(** What the entry runs. *)
Definition entered (frame : Snapshot.CpuState) (r : Z) (k : State) : State :=
  let k := with_contexts (alter (Syscall.set_ctx_cpu frame) r (contexts k)) k in
  with_sched (Syscall.set_raw r (sched k)) k.

Definition call_of (frame : Snapshot.CpuState) (r : Z) : SyscallContext := mkContext (Snapshot.rax frame) (Syscall.args_of frame) r.

Definition answer (x : res AbiError Z) : option Z := match x with Ok v => Some v | Err e => Some (Syscall.error_word e) | _ => None end.

(** The special [arch_prctl]. *)
Definition probe (frame : Snapshot.CpuState) : bool :=
  (Snapshot.rax frame =? 158) && forallb (fun a => a =? 2 ^ 64 - 1) (take 3 (Syscall.args_of frame)).

Lemma entry_run env frame k pid r :
  probe frame = false -> Scheduler.current (sched k) = Some pid -> Syscall.caller_of pid (sched k) = Ok (Some r) ->
  Syscall.rust_syscall_handler env frame k =
    (v ← Syscall.run_call env (call_of frame r); Syscall.finish r v) (entered frame r k).
Proof.
  intros Hp Hc Hr. unfold Syscall.rust_syscall_handler. unfold probe in Hp. cbv zeta. rewrite Hp.
  unfold mbind, M_bind, read_part. rewrite Hc. unfold lift. by rewrite Hr.
Qed.


(** What a call that returns to the caller returns with. *)
Lemma entry_inv env frame k pid r f k' :
  probe frame = false -> Scheduler.current (sched k) = Some pid -> Syscall.caller_of pid (sched k) = Ok (Some r) ->
  Syscall.rust_syscall_handler env frame k = (Ok (Some f), k') ->
  let d := Syscall.dispatch_syscall env (call_of frame r) (entered frame r k) in
  exists v x, answer (fst d) = Some v /\ contexts (snd d) !! r = Some x /\
    f = Syscall.sanitize (Syscall.set_rax v (Snapshot.ctx_cpu x)) /\ contexts k' !! r = Some (Syscall.set_ctx_cpu f x).
Proof.
  intros Hp Hc Hr. rewrite (entry_run env frame k pid r Hp Hc Hr). unfold mbind, M_bind, Syscall.run_call. cbv zeta.
  destruct (Syscall.dispatch_syscall env (call_of frame r) (entered frame r k)) as [y k1]. cbn [fst snd].
  assert (Hf : forall v, Syscall.finish r v k1 = (Ok (Some f), k') -> exists x, contexts k1 !! r = Some x /\
    f = Syscall.sanitize (Syscall.set_rax v (Snapshot.ctx_cpu x)) /\ contexts k' !! r = Some (Syscall.set_ctx_cpu f x)).
  { intros v. unfold Syscall.finish, context, update_context, modify, process, mbind, M_bind, mret, M_ret. cbn [caller].
    destruct (contexts k1 !! r) as [x|] eqn:Hx; [|done]. cbv zeta.
    destruct (Scheduler.get_process r _) as [p|]; [|done]. destruct (Syscall.is_exited p).
    { destruct (schedule _ _) as [[?|?| |] ?]; done. }
    intros [= <- <-]. exists x. split; [done|]. split; [done|]. cbn [contexts with_contexts]. by rewrite lookup_alter_eq, Hx. }
  destruct y as [v|e| |]; [| |done..]; intros (x & ?)%Hf.
  - by exists v, x.
  - by exists (Syscall.error_word e), x.
Qed.

Lemma entered_cpu frame r k : Snapshot.ctx_cpu <$> contexts (entered frame r k) !! r = (fun _ => frame) <$> contexts k !! r.
Proof. unfold entered. cbv zeta. cbn [contexts with_sched with_contexts]. rewrite lookup_alter_eq. by destruct (contexts k !! r). Qed.

Lemma entered_tasks frame r k : Scheduler.tasks (sched (entered frame r k)) = Scheduler.tasks (sched k).
Proof. done. Qed.

(** The registers that no way in or out of the kernel uses for itself. *)
Definition plain : list (Snapshot.CpuState -> Z) :=
  [Snapshot.rdx; Snapshot.rbx; Snapshot.rbp; Snapshot.rsi; Snapshot.rdi; Snapshot.r8; Snapshot.r9; Snapshot.r10; Snapshot.r12; Snapshot.r13;
   Snapshot.r14; Snapshot.r15; Snapshot.rip; Snapshot.rsp].

(** C4. A process that makes a call by [syscall] and comes back from it has
    the registers it had, but for the answer in [rax], the return address and
    the flags in [rcx] and [r11], which the instruction itself overwrites, and
    the flags, which are reset; its segments are those of user mode.  What is
    saved for it are the same registers.  Left out are [rt_sigreturn], the
    probe the handler answers by itself, [bpf], and the calls during which
    other processes run ([left_out]). *)
Theorem registers_kept env u k pid r p f k' :
  let frame := Syscall.syscall_frame u in
  probe frame = false -> Scheduler.current (sched k) = Some pid -> Syscall.caller_of pid (sched k) = Ok (Some r) ->
  Scheduler.get_process r (sched k) = Some p -> live r k -> Snapshot.rax frame ∉ 15 :: left_out (Process.abi p) ->
  Syscall.rust_syscall_handler env frame k = (Ok (Some f), k') ->
  exists v, answer (fst (Syscall.dispatch_syscall env (call_of frame r) (entered frame r k))) = Some v /\
    f = Syscall.sanitize (Syscall.set_rax v frame) /\ Snapshot.ctx_cpu <$> contexts k' !! r = Some f /\
    let u' := Syscall.syscall_return f in
    Snapshot.rax u' = v /\ Forall (fun reg => reg u' = reg u) plain /\ Snapshot.rcx u' = Snapshot.rip u /\
    Snapshot.cs u' = 0x23 /\ Snapshot.ss u' = 0x1B.
Proof.
  intros frame Hp Hc Hr Hg Hk Hn Hrun. destruct (entry_inv env frame k pid r f k' Hp Hc Hr Hrun) as (v & x & Hv & Hx & Hf & Hk').
  apply not_elem_of_cons in Hn as [Hn Hl]. exists v. split; [done|].
  destruct (dispatch_bounded (call_of frame r) true env (entered frame r k) p Hg Hl Hk) as [_ C _ _ _].
  specialize (C Hn). cbn [caller call_of] in C. rewrite Hx, entered_cpu in C. cbn [fmap option_fmap option_map] in C.
  destruct (contexts k !! r); [|done]. cbn in C. injection C as C. rewrite C in Hf. rewrite Hk', Hf. by repeat constructor.
Qed.

(** By [int 0x80], which no descriptor of the interrupt table leads to, [rcx]
    would be lost as well: the return path uses it for the flags. *)
Lemma int80_loses_rcx v frame :
  let u' := Syscall.int80_return (Syscall.sanitize (Syscall.set_rax v frame)) in
  Forall (fun reg => reg u' = reg frame) (Snapshot.r11 :: Snapshot.cs :: Snapshot.ss :: plain) /\ Snapshot.rcx u' = Snapshot.rflags u'.
Proof. by repeat constructor. Qed.

(** Whatever a call does, it returns to user mode with interrupts enabled
    and with the trap, direction, nested-task, resume, virtual-8086 and
    alignment flags and the I/O privilege level cleared. *)
Theorem flags_sanitized env frame k pid r f k' :
  probe frame = false -> Scheduler.current (sched k) = Some pid -> Syscall.caller_of pid (sched k) = Ok (Some r) ->
  Syscall.rust_syscall_handler env frame k = (Ok (Some f), k') ->
  Z.testbit (Snapshot.rflags f) 9 = true /\ forall i, i ∈ [8; 10; 12; 13; 14; 16; 17; 18] -> Z.testbit (Snapshot.rflags f) i = false.
Proof.
  intros Hp Hc Hr Hrun. destruct (entry_inv env frame k pid r f k' Hp Hc Hr Hrun) as (v & x & _ & _ & -> & _).
  cbn [Syscall.sanitize Syscall.set_rflags Syscall.set_rax Snapshot.rflags]. split.
  - by rewrite Z.lor_spec, orb_true_r.
  - intros i Hi. rewrite Z.lor_spec, Z.land_spec.
    repeat (apply elem_of_cons in Hi as [->|Hi]; [by rewrite andb_false_r|]). by apply not_elem_of_nil in Hi.
Qed.

(** The call a number of the Linux ABI stands for, if the kernel does not
    answer it itself. *)
Lemma dispatch_linux env ctx k p m :
  Scheduler.get_process (caller ctx) (sched k) = Some p -> Process.abi p = Process.LinuxElf ->
  omap id [Syscall.fast_path env ctx; Syscall.core env ctx; Syscall.native env ctx] = [] ->
  head (omap id (Syscall.families env ctx)) = Some m ->
  Syscall.dispatch_syscall env ctx k = m k.
Proof.
  intros Hp Ha Hn Hf. unfold Syscall.dispatch_syscall. rewrite Hn. unfold Syscall.plugin_call, mbind, M_bind, process. rewrite Hp, Ha.
  change (Syscall.linux_handle env ctx k = m k). unfold Syscall.linux_handle. destruct (omap id (Syscall.families env ctx)); [done|].
  by injection Hf as ->.
Qed.



(** ** Calls that break the rules *)

Lemma copy_in_same root ctx msg a n k bs k1 :
  copy_in (XF := XF) (W := W) (K := K) (D := D) root ctx msg a n k = (Ok bs, k1) -> sched k1 = sched k /\ caps k1 = caps k.
Proof.
  unfold copy_in, copy_in_to, map_err, mbind, M_bind, process, on. destruct (Scheduler.get_process _ _); [|done].
  destruct (UserCopy.copy_to_slice _ _ _ _ _) as [[?|?| |] m]; [|done..]. by intros [= _ <-].
Qed.

(** C25. Asking for a capability on [stdout] is never refused, whatever tokens
    the caller holds, and gives it a token that passes every check for
    writing files: the check of [files_need_a_token] is void. *)
Theorem cap_request_grants_files env ctx k p k1 :
  Scheduler.get_process (caller ctx) (sched k) = Some p -> number ctx = 1000 -> arg 0 ctx = 1 -> arg 2 ctx = 6 ->
  copy_in (Syscall.kernel_root env) ctx "EFAULT: cap_request path" (arg 1 ctx) 6 k = (Ok (Path.bytes_of "stdout"), k1) ->
  exists k', Syscall.dispatch_syscall env ctx k = (Ok (Capability.NEXT_ID (caps k)), k') /\ writer (caller ctx) k' = true.
Proof.
  intros Hp Hn H0 H2 Hcopy. destruct (copy_in_same _ _ _ _ _ _ _ _ Hcopy) as [Hs Hc].
  assert (Hd : Syscall.dispatch_syscall env ctx k = NativeAbi.ziqa_cap_request (Syscall.kernel_root env) ctx k).
  { unfold Syscall.dispatch_syscall, Syscall.fast_path, Syscall.core, Syscall.native. by rewrite Hn. }
  rewrite Hd. unfold NativeAbi.ziqa_cap_request. rewrite H0, H2. cbn [Z.eqb Pos.eqb negb].
  unfold mbind, M_bind, LinuxFs.vec_zeroed, mret, M_ret. change (6 <? 2 ^ 63) with true. cbv iota beta. rewrite Hcopy.
  assert (Hu : Path.from_utf8 (Path.bytes_of "stdout") = Some "stdout"%string) by by vm_compute. rewrite Hu.
  unfold NativeAbi.std_path. cbn [String.eqb Ascii.eqb Bool.eqb].
  unfold NativeAbi.grant, mbind, M_bind, process, read_part, update_caller, modify. rewrite Hs, Hp, Hc.
  eexists. split; [reflexivity|]. unfold writer, caps_of. cbn [sched with_caps with_sched Scheduler.tasks Scheduler.update_process Scheduler.with_tasks].
  unfold Scheduler.get_process in Hp. rewrite lookup_alter_eq, ?Hs, Hp. cbn [fmap option_fmap option_map from_option NativeAbi.set_capabilities Process.capabilities].
  unfold Capability.has_permission. rewrite existsb_app. apply orb_true_r.
Qed.

(** ** Calls that never get there *)

Lemma core_execve_fails (env : Env) ctx k p :
  Scheduler.get_process (caller ctx) (sched k) = Some p -> exists msg, Syscall.core_execve env ctx k = (Err (Other msg), k).
Proof.
  intros Hp. unfold Syscall.core_execve, NativeAbi.check_capability, allowed, copy_in_to, map_err, process, mbind, M_bind, mret, M_ret, throw. rewrite Hp.
  destruct (Capability.has_permission _ _ _ _); cbn [negb]; [|by eexists]. rewrite Hp.
  unfold on, UserCopy.copy_to_slice. cbn [UserCopy.len Z.eqb Pos.eqb negb]. unfold throw. destruct k. by eexists.
Qed.

(** C27. Three calls do nothing: [execve] always fails, since it copies 127
    bytes into a buffer of 128; [futex] always answers 0, since its number is
    taken by another call; and [io_uring_submit] always finds no request, since
    the ring it looks at is a new one. *)
Theorem calls_without_effect env ctx k p :
  Scheduler.get_process (caller ctx) (sched k) = Some p ->
  (number ctx = 59 -> exists msg, Syscall.dispatch_syscall env ctx k = (Err (Other msg), k)) /\
  (number ctx = 202 -> Syscall.dispatch_syscall env ctx k = (Ok 0, k)) /\
  (number ctx = 203 -> Syscall.dispatch_syscall env ctx k = (Ok 0, k)).
Proof.
  intros Hp. unfold Syscall.dispatch_syscall, Syscall.fast_path, Syscall.core, Syscall.native.
  split; [|split]; intros ->; cbn [omap list_omap id].
  - by apply core_execve_fails with p.
  - done.
  - unfold mbind, M_bind, process. rewrite Hp. destruct (process_requests_new (XF := XF) (W := W) (K := K) (D := D) (Syscall.kernel_root env) (Process.pid p) 16) as [r ->]. done.
Qed.

(** The numbers of [fcntl], [close], [dup] and [read] of the Redox ABI. *)
Definition redox_numbers : list Z := [0x2000_0037; 0x2000_0006; 0x2010_0029; 0x2200_0003].

(** A program of the Redox system is not recognised by its file: the Linux
    plugin is registered first and accepts every ELF file, so the registry
    answers it or the WebAssembly plugin.  Its calls to read, close, duplicate
    and control files are then answered with 0 and have no effect. *)
Theorem redox_programs_run_as_linux env ctx k p binary :
  Scheduler.get_process (caller ctx) (sched k) = Some p ->
  (forall pl, Syscall.detect_abi binary (Syscall.registry env) = Some pl -> Syscall.kind pl <> Process.RedoxElf) /\
  (Process.abi p = Process.LinuxElf -> number ctx ∈ redox_numbers -> Syscall.dispatch_syscall env ctx k = (Ok 0, k)).
Proof.
  intros Hp. split.
  - intros pl. unfold Syscall.detect_abi, Syscall.first_plugin. change (omap id (Syscall.plugins (Syscall.registry env))) with
      [Syscall.mkPlugin Process.LinuxElf Syscall.can_load_elf (Syscall.linux_handle env);
       Syscall.mkPlugin Process.RedoxElf Syscall.can_load_elf (Syscall.redox_handle env);
       Syscall.mkPlugin Process.Wasm Syscall.can_load_wasm (Syscall.wasm_handle env)].
    cbn [List.find Syscall.can_load]. destruct (Syscall.can_load_elf binary); [by intros [= <-]|].
    destruct (Syscall.can_load_wasm binary); [by intros [= <-]|done].
  - intros Ha Hn. refine (dispatch_linux env ctx k p (mret 0 : SM Z) Hp Ha _ _);
      repeat (apply elem_of_cons in Hn as [Hn|Hn]; [at_number Hn|]); by apply not_elem_of_nil in Hn.
Qed.


(** ** Yielding *)

(** Ready, but not queued: the scheduler does not find the process. *)
Definition lost (c : Z) (s : Scheduler.Sched) : Prop :=
  (forall q p, Scheduler.tasks s !! q = Some p -> Process.pid p = q) /\ c ∉ Scheduler.qpids s /\
  exists p, Scheduler.tasks s !! c = Some p /\ Process.state p = Process.Ready.

Lemma lost_update c q f s :
  (forall p, Process.pid (f p) = Process.pid p) -> (q = c -> forall p, Process.state (f p) = Process.state p) ->
  lost c s -> lost c (Scheduler.update_process q f s).
Proof.
  intros Hpid Hst (Hk & Hq & p & Hp & Hr). split; [|split; [done|]].
  - intros r x. cbn [Scheduler.tasks Scheduler.update_process Scheduler.with_tasks]. rewrite lookup_alter. destruct (decide _) as [<-|]; [|apply Hk].
    destruct (Scheduler.tasks s !! q) as [y|] eqn:Hy; [|done]. intros [= <-]. rewrite Hpid. by apply Hk.
  - cbn [Scheduler.tasks Scheduler.update_process Scheduler.with_tasks]. rewrite lookup_alter. destruct (decide _) as [->|]; [|by exists p].
    rewrite Hp. exists (f p). by rewrite Hst.
Qed.

Lemma set_insert_elem e q x : x ∈ Scheduler.set_insert e q -> x = e \/ x ∈ q.
Proof.
  induction q as [|y q IH]; cbn [Scheduler.set_insert]; [by intros ->%list_elem_of_singleton; left|].
  repeat case_match; rewrite ?elem_of_cons; naive_solver.
Qed.

Lemma lost_enqueue c q v s : q <> c -> lost c s -> lost c (Scheduler.enqueue q v s).
Proof.
  intros Hqc (Hk & Hq & Hp). split; [done|]. split; [|done]. unfold Scheduler.qpids, Scheduler.enqueue, Scheduler.push.
  cbn [Scheduler.ready Scheduler.with_ready Scheduler.queues]. intros ([a b] & -> & Hi)%list_elem_of_fmap. apply set_insert_elem in Hi as [[= _ ->]|Hi]; [done|].
  apply Hq. apply list_elem_of_fmap. by exists (a, b).
Qed.

Lemma lost_switch c n p s s' : n <> c -> lost c s -> Scheduler.switch_to n p s = Ok s' -> lost c s'.
Proof.
  intros Hn Hl. unfold Scheduler.switch_to.
  destruct (Scheduler.save_bases _ _) as [s1| | |] eqn:Hs; [|done..]. cbn [mbind res_bind]. intros [= <-].
  assert (H1 : lost c s1).
  { unfold Scheduler.save_bases in Hs. repeat case_match; simplify_eq; try done; by apply lost_update. }
  assert (H3 : forall r fs gs c3, lost c (Scheduler.with_cpu r fs gs c3 (Scheduler.update_process n (Process.set_state Process.Running) s1))).
  { intros r fs gs c3. by apply (lost_update c n (Process.set_state Process.Running) s1). }
  match goal with |- lost c (Scheduler.requeue_old _ ?s3) => assert (H4 : lost c s3) by apply H3; set (s4 := s3) in * end. clearbody s4.
  unfold Scheduler.requeue_old. destruct (Scheduler.current s) as [o|]; [|done]. destruct (Scheduler.tasks s4 !! o) as [op|] eqn:Ho; [|done].
  case_decide as Hr; [|done]. destruct H4 as (Hk & Hq & q & Hq1 & Hq2). assert (o <> c) by congruence.
  rewrite (Hk o op Ho). apply lost_enqueue; [done|]. apply lost_update; [done|done|]. split; [done|]. split; [done|]. by exists q.
Qed.

Lemma lost_loop c q : forall s s', c ∉ map snd q -> lost c s -> Scheduler.schedule_loop q s = Ok s' -> lost c s'.
Proof.
  induction q as [|[a n] q IH]; intros s s' Hq Hl; cbn [Scheduler.schedule_loop]; [by intros [= <-]|].
  cbn [map snd] in Hq. apply not_elem_of_cons in Hq as [Hn Hq].
  assert (H1 : lost c (Scheduler.with_ready (Scheduler.mkReady q (Scheduler.counter (Scheduler.ready s))) s)).
  { destruct Hl as (Hk & _ & Hp). split; [done|]. by split. }
  cbv zeta. destruct (Scheduler.tasks s !! n) as [p|]; [|by apply IH]. case_decide; [by intros [= <-]|].
  case_decide; [by apply lost_switch|by apply IH].
Qed.

(** Any number of scheduling decisions. *)
Fixpoint rounds (n : nat) (s : Scheduler.Sched) : res unit Scheduler.Sched :=
  match n with O => Ok s | S n => s ← Scheduler.schedule s; rounds n s end.

(** C28. [sched_yield] takes the caller out of service: it makes it ready
    without queueing it, and from then on, however often the scheduler runs,
    the process stays ready and is in no queue: it is never chosen again. *)
Theorem yield_loses_caller env ctx k p n s' :
  Scheduler.sched_ok (sched k) -> Scheduler.get_process (caller ctx) (sched k) = Some p -> Process.state p = Process.Running ->
  caller ctx ∉ Scheduler.qpids (sched k) -> number ctx = 24 ->
  fst (Syscall.dispatch_syscall env ctx k) = Ok 0 /\
  (rounds n (sched (snd (Syscall.dispatch_syscall env ctx k))) = Ok s' ->
   caller ctx ∉ Scheduler.qpids s' /\ exists q, Scheduler.get_process (caller ctx) s' = Some q /\ Process.state q = Process.Ready).
Proof.
  intros Hok Hp Hr Hq Hn. unfold Syscall.dispatch_syscall, Syscall.fast_path, Syscall.core. rewrite Hn. cbn [omap list_omap id].
  split; [done|]. unfold Syscall.sched_yield, mbind, M_bind, update_caller, modify.
  cbn [snd sched with_sched]. set (s1 := Scheduler.update_process _ _ _).
  assert (Hl : lost (caller ctx) s1).
  { unfold Scheduler.get_process in Hp. unfold s1, lost. cbn [Scheduler.tasks Scheduler.update_process Scheduler.with_tasks]. split; [|split; [done|]].
    - intros q x. rewrite lookup_alter. destruct (decide _) as [<-|].
      + rewrite Hp. intros [= <-]. destruct (Scheduler.inv_keyed _ _ _ _ Hok _ _ Hp) as [<- _]. by case_decide.
      + intros Hx. by destruct (Scheduler.inv_keyed _ _ _ _ Hok _ _ Hx).
    - rewrite lookup_alter_eq, Hp. eexists. split; [done|]. by rewrite decide_True. }
  change (rounds n s1 = Ok s' -> caller ctx ∉ Scheduler.qpids s' /\ exists q, Scheduler.get_process (caller ctx) s' = Some q /\ Process.state q = Process.Ready).
  clearbody s1. clear -Hl. revert s1 Hl. induction n as [|n IH]; intros s1 Hl; cbn [rounds].
  - intros [= <-]. destruct Hl as (_ & ? & ?). done.
  - destruct (Scheduler.schedule s1) as [s2| | |] eqn:Hs; [|done..]. apply IH. eapply lost_loop; [|exact Hl|exact Hs]. apply Hl.
Qed.


End spec.

(** ** An example *)

Section example.
#[local] Existing Instance X8664Arch.
#[local] Existing Instance PagingCow.ex_x86.
#[local] Existing Instance CompressSpec.ex_codec.
#[local] Existing Instance Vma.demo_addr.
#[local] Existing Instance Vma.demo_search.
#[local] Existing Instance Vfs.demo_file.
#[local] Existing Instance Vfs.demo_outside.

(** A mapper that unmaps nothing, drivers without devices, and no stack. *)
#[local] Instance ex_unmap : LinuxMem.X86Unmap := {| LinuxMem.unmap := fun _ _ => throw tt; LinuxMem.update_flags := fun _ _ _ => throw tt |}.

#[local] Instance ex_devices : Devices unit := {|
  read_stdin := fun _ d => ([], d);
  port_read := fun _ _ d => (0, d);
  port_write := fun _ _ _ d => d;
  drm_ioctl := fun _ _ => throw "no display"%string;
  net_notify := fun _ d => d;
  net_ack := fun d => d;
  net_receive := fun _ _ d => (None, d);
  net_transmit := fun _ _ d => (None, d);
  gpu_channel := fun _ => None
|}.

#[local] Instance ex_stack : Socket.Stack unit := {|
  Socket.add_tcp_socket := fun k => (0, k);
  Socket.add_udp_socket := fun k => (0, k);
  Socket.remove_socket := fun _ k => k;
  Socket.poll := fun k => k;
  Socket.tcp_listen_on := fun _ _ => throw tt;
  Socket.tcp_connect_to := fun _ _ _ _ => throw tt;
  Socket.tcp_is_active := fun _ => mret false;
  Socket.tcp_established := fun _ => mret false;
  Socket.tcp_remote := fun _ => throw tt;
  Socket.tcp_may_send := fun _ => mret false;
  Socket.tcp_may_recv := fun _ => mret false;
  Socket.tcp_can_recv := fun _ => mret false;
  Socket.tcp_send_slice := fun _ _ => throw tt;
  Socket.tcp_recv_slice := fun _ _ => throw tt;
  Socket.tcp_close := fun _ => mret tt;
  Socket.udp_bind_to := fun _ _ => throw tt;
  Socket.udp_send_slice := fun _ _ _ _ => throw tt;
  Socket.udp_can_recv := fun _ => mret false;
  Socket.udp_recv_slice := fun _ _ => throw tt;
  Socket.udp_close := fun _ => mret tt
|}.

Abbreviation ExState := (KState (XF := Empty_set) (W := unit) (K := unit) (D := unit)).

(** Process 1 is ready, process 2 runs a Linux program and holds no token. *)
Definition ex_linux : Process.Process :=
  Snapshot.on_image (Process.with_vmas (vmas UserCopy.ex_proc)) (Process.set_state Process.Running (Process.new 2 Process.LinuxElf 0x1000 0x7000)).

Definition ex_sched : Scheduler.Sched :=
  let boot := Process.set_state Process.Ready (Process.new 1 Process.ZiqaNative 0 0) in
  Scheduler.mkSched (<[1 := boot]> {[2 := ex_linux]}) (Scheduler.mkReady [(1, 1)] 1) 0 3 (Some 2) (Some 2) 0 0 0 0.

Definition ex_context : Snapshot.Ctx := Snapshot.mkCtx (Snapshot.cpu_of []) (47 :: zeros 127) 1.

Definition ex_state (m : CState) : ExState :=
  mkKState m ex_sched {[2 := ex_context]} Capability.initial (Vfs.init (Vfs.new tt)) Ipc.boot Timer.new ∅ (Socket.mkNet ∅ None) Shm.new ∅ tt [] [].

Definition no_call (ctx : SyscallContext) : M ExState AbiError Z := throw (UnsupportedSyscall (number ctx)).

Definition ex_env : Syscall.Env (XF := Empty_set) (W := unit) (K := unit) (D := unit) :=
  Syscall.mkEnv 0 (fun _ => None) 35 27 (fun k => k) 0 [] no_call (fun _ => Redox.mkDisplays None None).

Definition ex_machine : CState := ((mkMachine ∅ (0, 0), None), empty_store).

Lemma files_need_a_token_witness :
  exists k', calls ex_env 2 (ex_state ex_machine) k' /\ tree (vfs k') = tree (vfs (ex_state ex_machine)) /\ writer 2 k' = false.
Proof.
  set (mkdir := mkContext 83 [0x10] 2). set (getpid := mkContext 39 [] 2).
  assert (Hc : calls ex_env 2 (ex_state ex_machine)
                 (snd (Syscall.dispatch_syscall ex_env getpid (snd (Syscall.dispatch_syscall ex_env mkdir (ex_state ex_machine)))))).
  { apply calls_cons with mkdir; [done|done| |].
    { exists ex_linux. split; [done|exact (bool_decide_unpack (83 ∉ common_left_out) I)]. }
    apply calls_cons with getpid; [done|done| |constructor].
    exists ex_linux. split; [done|exact (bool_decide_unpack (39 ∉ common_left_out) I)]. }
  eexists. split; [exact Hc|]. exact (files_need_a_token ex_env 2 _ _ Hc eq_refl eq_refl).
Defined.


Definition ex_frame (n : Z) : Snapshot.CpuState := Syscall.set_rax n (Snapshot.cpu_of (replicate 20 0x10)).

(** [getpid] through the entry. *)
Lemma ex_getpid : exists f k', Syscall.rust_syscall_handler ex_env (ex_frame 39) (ex_state ex_machine) = (Ok (Some f), k').
Proof.
  destruct (Syscall.rust_syscall_handler ex_env (ex_frame 39) (ex_state ex_machine)) as [[[f|]| | |] k'] eqn:Hrun; [by eexists _, _|..];
    apply (f_equal fst) in Hrun; vm_compute in Hrun; discriminate.
Qed.

Lemma ex_getpid_entry :
  exists f k', Syscall.rust_syscall_handler ex_env (Syscall.syscall_frame (ex_frame 39)) (ex_state ex_machine) = (Ok (Some f), k').
Proof.
  destruct (Syscall.rust_syscall_handler ex_env (Syscall.syscall_frame (ex_frame 39)) (ex_state ex_machine)) as [[[f|]| | |] k'] eqn:Hrun;
    [by eexists _, _|..]; apply (f_equal fst) in Hrun; vm_compute in Hrun; discriminate.
Qed.

Lemma registers_kept_witness :
  exists f k', Syscall.rust_syscall_handler ex_env (Syscall.syscall_frame (ex_frame 39)) (ex_state ex_machine) = (Ok (Some f), k') /\
    f = Syscall.sanitize (Syscall.set_rax 2 (Syscall.syscall_frame (ex_frame 39))).
Proof.
  destruct ex_getpid_entry as (f & k' & Hrun). exists f, k'. split; [exact Hrun|].
  destruct (registers_kept ex_env (ex_frame 39) (ex_state ex_machine) 2 2 ex_linux f k' eq_refl eq_refl eq_refl eq_refl eq_refl
    ltac:(apply not_elem_of_cons; split; [done|exact (bool_decide_unpack (39 ∉ common_left_out) I)]) Hrun) as (v & Hv & Hf & _).
  vm_compute in Hv. injection Hv as <-. exact Hf.
Defined.

Lemma flags_sanitized_witness :
  exists f k', Syscall.rust_syscall_handler ex_env (ex_frame 39) (ex_state ex_machine) = (Ok (Some f), k') /\ Z.testbit (Snapshot.rflags f) 9 = true.
Proof.
  destruct ex_getpid as (f & k' & Hrun). exists f, k'. split; [exact Hrun|].
  exact (proj1 (flags_sanitized ex_env (ex_frame 39) (ex_state ex_machine) 2 2 f k' eq_refl eq_refl eq_refl Hrun)).
Defined.




Lemma cap_request_grants_files_witness :
  exists m k', Syscall.dispatch_syscall ex_env (mkContext 1000 [1; 0x10; 6] 2) (ex_state m) = (Ok 1, k') /\
    writer 2 (ex_state m) = false /\ writer 2 k' = true.
Proof.
  destruct (UserCopy.ex_bytes (fault_proc ex_linux) (Path.bytes_of "stdout") ltac:(vm_compute; split; [done|congruence]) ltac:(by vm_compute)) as [m Hm].
  change (zlen (Path.bytes_of "stdout")) with 6 in Hm. exists m.
  assert (Hcopy : copy_in 0 (mkContext 1000 [1; 0x10; 6] 2) "EFAULT: cap_request path" 0x10 6 (ex_state m) = (Ok (Path.bytes_of "stdout"), ex_state m)).
  { unfold copy_in, copy_in_to, mbind, M_bind, process, on, UserCopy.copy_to_slice, map_err.
    change (Scheduler.get_process _ _) with (Some ex_linux). cbn [UserCopy.len UserCopy.addr Z.eqb Pos.eqb negb].
    change (mach (ex_state m)) with m. by rewrite Hm. }
  destruct (cap_request_grants_files ex_env (mkContext 1000 [1; 0x10; 6] 2) (ex_state m) ex_linux _ eq_refl eq_refl eq_refl eq_refl Hcopy) as (k' & Hrun & Hw).
  exists k'. split; [exact Hrun|]. by split.
Defined.

Lemma calls_without_effect_witness :
  Syscall.dispatch_syscall ex_env (mkContext 202 [0x10; 0; 0] 2) (ex_state ex_machine) = (Ok 0, ex_state ex_machine).
Proof.
  destruct (calls_without_effect ex_env (mkContext 202 [0x10; 0; 0] 2) (ex_state ex_machine) ex_linux eq_refl) as (_ & H & _). by apply H.
Defined.

Lemma redox_programs_run_as_linux_witness :
  Syscall.kind <$> Syscall.detect_abi [0x7F; 69; 76; 70] (Syscall.registry ex_env) = Some Process.LinuxElf /\
  Syscall.dispatch_syscall ex_env (mkContext 0x2200_0003 [0; 0x10; 8] 2) (ex_state ex_machine) = (Ok 0, ex_state ex_machine).
Proof.
  split; [reflexivity|].
  apply (redox_programs_run_as_linux ex_env (mkContext 0x2200_0003 [0; 0x10; 8] 2) (ex_state ex_machine) ex_linux [] eq_refl); [reflexivity|].
  by repeat constructor.
Defined.

Lemma ex_sched_ok : Scheduler.sched_ok ex_sched.
Proof.
  assert (Ht : forall q p, Scheduler.tasks ex_sched !! q = Some p -> q = 1 /\ p = Process.set_state Process.Ready (Process.new 1 Process.ZiqaNative 0 0) \/ q = 2 /\ p = ex_linux).
  { intros q p. cbn [Scheduler.tasks ex_sched]. intros [[<- <-]|[_ [<- <-]%lookup_singleton_Some]]%lookup_insert_Some; auto. }
  split.
  - split; by repeat constructor.
  - intros q p [[-> ->]|[-> ->]]%Ht; vm_compute; intuition congruence.
  - intros q p [[-> ->]|[-> ->]]%Ht; [left; by repeat constructor|done].
  - intros q p [[-> ->]|[-> ->]]%Ht; [done|by left].
  - intros r [= <-]. split; [by left|by exists ex_linux].
  - done.
Qed.

Lemma yield_loses_caller_witness :
  exists s', rounds 3 (sched (snd (Syscall.dispatch_syscall ex_env (mkContext 24 [] 2) (ex_state ex_machine)))) = Ok s' /\
    Scheduler.current s' = Some 1 /\ 2 ∉ Scheduler.qpids s'.
Proof.
  eexists. split; [reflexivity|]. split; [reflexivity|].
  apply (yield_loses_caller ex_env (mkContext 24 [] 2) (ex_state ex_machine) ex_linux 3 _ ex_sched_ok eq_refl eq_refl); [|reflexivity|reflexivity].
  exact (bool_decide_unpack (2 ∉ [1]) I).
Defined.

End example.

End SyscallSpec.
